(* ===== verification/_CoqProject ===== *)
-Q . S2P
Prelude.v
IR.v
SortableRoute.v
Delegation.v
Filters.v
PolicyMerge.v
TrafficPolicyMerge.v
TrafficPolicyTree.v
RouteTree.v
Query.v
HttpRouteTranslator.v
References.v
PolicyIndex.v
RoutesIndex.v
GoNum.v
ListenerValidation.v
Endpoints.v
Reports.v
StatusBuilders.v
StatusContributions.v
StatusSync.v
WorkQueue.v
Hashing.v
ConnectedClients.v
GatewayIndex.v
SslUtils.v
ListenerTLS.v
ListenerTranslator.v
EnvoyRoute.v
RouteConfig.v
Builtin.v
ListenerConfig.v
ValidatorCache.v
EndpointEditor.v
BackendCluster.v
BackendConfigPolicy.v
BackendTlsPolicy.v
SharedProto.v
ClientSnapshots.v
Deployer.v
DeployerValues.v
DeployerApply.v
TrafficPolicyPass.v
TrafficPolicyAuth.v
OidcDiscovery.v
GatewayExtensions.v
TrafficPolicyEquals.v
