(* ===== verification/Prelude.v ===== *)
(** * kgateway control plane: verification library (root file)

    kgateway watches Kubernetes objects (Gateway API resources, its own policy
    resources, Services, Pods, Secrets) and computes the configuration of Envoy
    proxies.  This library models the decisions of that computation: which
    route attaches where, which object may refer to which, how policies combine,
    in which order routes, policies and filters end up, which listeners are
    programmed with which TLS settings, what is sent to Envoy when something is
    invalid, which endpoints a client sees with which priority, and which status
    is written back.

    ** Data flow, and the file that models each part

    Kubernetes objects are indexed in KRT collections; the indexes resolve
    references and attach policies; the query layer attaches routes to listeners
    and builds delegation trees; the translator flattens the trees; the plugins
    merge the attached policies; the listener translator builds filter chains
    and virtual hosts; the IR translator turns them into Envoy's listeners and
    routes, replacing what is invalid.  Every step reports conditions, which the
    status writers publish through a work queue.

    - [Prelude]: notations, tactics, hints, and the generic lemmas on lists,
      strings, comparators and the stable sort.
    - [IR] (pkg/pluginsdk/ir): the data exchanged by all other parts: object
      identities and keys, attached policies and their hierarchical priority,
      merge origins, policy errors, backends with their resource and cluster
      names, HTTP routes, per-Gateway clones.
    - [References] (pkg/krtcollections/policy.go, secrets.go): ReferenceGrants
      ([ReferenceAllowed]), secrets ([GetSecret], [GetSecretsBySelector]), the
      backend index ([getBackend], [getBackendFromAlias]) and
      [resolveRouteBackend].
    - [PolicyIndex] (policy.go): the target-ref index, [fetchByTargetRef],
      [GetTargetingPolicies], [ToAttachedPolicies], [attachPoliciesToBackend],
      [AddBackends].
    - [RoutesIndex] (policy.go, grpc_route.go): [transformHttpRoute],
      [transformGRPCRoute], extension filters, annotations.
    - [Delegation] (pkg/kgateway/utils/delegation): which child routes and
      matches a delegating parent admits, and matcher inheritance.
    - [RouteTree] (pkg/kgateway/query/route.go, backendmap.go):
      [getDelegatedChildren] and the selector index it reads.
    - [Query] (pkg/kgateway/query/query.go, route.go, utils.go,
      namespaceselector.go): [processRoute], listeners allowed by namespace,
      kind and hostname, and the errors per parent reference.
    - [HttpRouteTranslator] (pkg/kgateway/translator/httproute): flattening of
      a route chain into (rule, match) pairs, with the reported conditions.
    - [SortableRoute] (translator/routeutils): the precedence of flattened
      routes.
    - [ListenerValidation] (translator/listener/validation.go): which listeners
      of a Gateway and its ListenerSets are programmed.
    - [Filters] (pkg/pluginsdk/filters/stages.go): the order of the filter
      chain.
    - [PolicyMerge] (pkg/pluginsdk/policy/merge.go): the generic merge loop;
      [TrafficPolicyMerge] (plugins/trafficpolicy/merge.go): the merge of every
      field of a TrafficPolicy; [TrafficPolicyTree]: the two together, over a
      whole configuration tree.
    - [Endpoints] (pkg/kgateway/endpoints/prioritize.go, locality labels of
      krtcollections/pods.go): the ClusterLoadAssignment of a client.
    - [Reports] and [StatusBuilders] (pkg/reports/reporter.go, status.go,
      policy.go): the report map, every call on the reporter, and the statuses
      built from it; [StatusContributions] (status_contribution.go,
      report_map.go): splitting and reducing reports of several producers.
    - [StatusSync] (pkg/pluginsdk/statussync/writer.go, idempotence.go,
      proxy_syncer/status_collections.go): when and what is written to a status
      that other controllers share; [WorkQueue] (workerpool.go): the queue and
      its workers.
    - [Hashing] (kgateway/utils/hash.go, kubeutils/dns.go): FNV, SHA-256 and
      label values; [ConnectedClients] (krtcollections/uniqueclients.go): the
      xDS clients, their streams and buckets.
    - [GatewayIndex] (krtcollections/policy.go, option.go, configmaps.go): both
      views of a Gateway, ListenerSets and frontend TLS.
    - [SslUtils] (translator/sslutils), [ListenerTLS] and [ListenerTranslator]
      (translator/listener/gateway_listener_translator.go): certificates, TLS
      options, the merge of listeners by port, virtual hosts and filter chains.
    - [EnvoyRoute] (irtranslator/route.go matchers, validate.go,
      xds/bootstrap/builder.go): matchers and route validation.
    - [RouteConfig] (irtranslator/route.go, policy.go): routes, virtual hosts
      and route configurations; [ListenerConfig] (irtranslator/gateway.go,
      fc.go): listeners, filter chains and the translation of a Gateway.
    - [Builtin] (krtcollections/builtin.go, pluginsdk/policy/retry.go, cors.go,
      kgateway/utils/sanitize.go): filters, timeouts, retries and sessions of the
      Gateway API, from the index to the pass of the route translation; [GoNum]
      has Go's float64, durations and integers.
    - [ValidatorCache] (pkg/validator): running Envoy's validation, the cache of
      verdicts with its shared runs, and the memo.
    - [EndpointEditor] (pluginsdk/ir/model.go, endpoints/editor.go,
      irtranslator/endpoint_plugins.go): endpoint sets with their incremental
      hash, and what plugins may do to them.
    - [BackendCluster] (irtranslator/backend.go): the shared cluster of a backend
      and the cluster of each client.
    - [BackendConfigPolicy] (plugins/backendconfigpolicy,
      api/v1alpha1/kgateway/backend_config_policy_types.go): the translation of a
      BackendConfigPolicy into Envoy messages, its merge, its validation and its
      hooks on clusters and endpoints.
    - [BackendTlsPolicy] (plugins/backendtlspolicy, plugins/istio,
      proxy_syncer/status.go): TLS of the Gateway API for backends, istio's
      sockets, the plugins of backends together, and the status of their policies.
    - [ClientSnapshots] (proxy_syncer/backends.go, perclient.go,
      effective_endpoints.go, cla.go, local_cluster.go, snapshot_deferral.go):
      the snapshot of each client from the clusters, endpoints and Gateways;
      [SharedProto] (sharedproto.go, cla_equal.go, cla.go): protos that clients
      share, and how long they are retained.
    - [Deployer] (pkg/deployer/merge.go, gateway_parameters.go, the API types of
      GatewayParameters): the parameters of deployed proxies and their merge;
      [DeployerValues] (values_helpers.go, kgateway/deployer/gateway_parameters.go):
      how they are found, and the Helm values of a Gateway; [DeployerApply]
      (deployer.go, strategicpatch, controller/gw_controller.go): overlays,
      application, pruning and the reconciliation of a Gateway.
    - plugins/trafficpolicy: [TrafficPolicyPass] (traffic_policy_plugin.go, utils.go
      and the handlers of the sub-policies): the hooks of the translation pass and
      the filters they ask for; [TrafficPolicyAuth] (api_key_auth.go,
      basic_auth_policy.go, rbac.go): credentials and access rules;
      [OidcDiscovery] (oidc.go): the cache of discovered identity providers and
      its refresh loop; [GatewayExtensions] (gateway_extension.go, jwt.go,
      oauth2.go, constructor.go): external services, JWT and OAuth2 providers and
      the policies that refer to them; [TrafficPolicyEquals]: when an update of a
      policy counts as a change.

    Interfaces of the source are classes: [PolicyIrOps] (a policy IR, opaque but
    for its creation time), [MergeFnLaws] (what [MergePolicies] needs of the
    merge function of a plugin, discharged for TrafficPolicy), [Filter],
    [JsonLib] with [JsonLaws], [SelectorLib], [ConditionLib] with
    [ConditionLaws], [ListenerPolicyView], [LruLib] with [LruLaws],
    [Singleflight] with [SingleflightLaws], [TransportLib] with
    [TransportLaws], [ConfigLib] with [ConfigLaws], [PatchLib], [Overrides] (the
    settings that obey a merge).  The plugins of the IR translator are
    records of functions over messages and an opaque state of the translation,
    so its theorems hold for every set of plugins.

    ** How code is represented

    Structs are records, with the fields the modelled code reads or writes.  An
    error is a value: an [option], a sum or an error type with the constructors
    the code creates.  Code that can panic (nil dereference, index out of range,
    failed type assertion) returns [None], or [Panicked] in the translator.
    Loops are folds over lists in source order; mutation of an accumulator is
    state passing; status reports are the list of calls on the reporter.  A KRT
    collection is the list of objects that a fetch returns, and the iteration
    order of a Go map is either a parameter or an arbitrary permutation: theorems
    hold for every order unless they say otherwise ([iter_options], [iter_hosts],
    [iter_ports], [order_sets], [iter_kinds], [iter_passes]).  [uint32] and
    [uint64] arithmetic wraps.  The clock is an argument.  Concurrent code (the
    worker pool, the xDS callbacks, the caching validator, the retention of
    protos, the discovery of identity providers) is a step relation or a step
    function on events over all interleavings.
    The child of a delegated route holds a pointer to an output of its parent
    which is completed later; the model builds the outputs as functions of that
    final value.

    Sorting: [slices.SortStableFunc] and [sort.Stable] are modelled by a stable
    insertion sort.  For a comparator that is a weak order every stable sort has
    the same result, so theorems that establish the order hold for Go's
    algorithm; the counterexamples for comparators that are not transitive use
    lists of at most 20 elements, for which Go's stable sort is an insertion sort.

    Fuel: the recursions of [getDelegatedChildren] and of the translator take
    fuel [S (length routes)] over the route collection.  Every nested call adds
    a route of the collection to the visited set, so this is always enough, and
    that is a theorem ([delegated_children_total], [translate_route_chain_total]),
    not an assumption.

    ** Parameters

    Code outside the repository is an argument with named laws where they are
    needed: [encoding/json] and protobuf's [Any] ([JsonLib], [JsonLaws]), label
    selectors of Kubernetes ([SelectorLib]), Istio's label matching
    ([labels_match]), the FNV hash of a client's context, apimachinery's
    condition helpers ([ConditionLaws]), the x509 and PEM functions ([CertLib]),
    Go's regexp and url parsers ([GoSyntax]), addresses ([NetLib]), Envoy's
    validation and protobuf marshalling ([EnvoyLib], [TransportLib]), the LRU cache
    and singleflight ([LruLaws], [SingleflightLaws]), and the documented meaning
    of Envoy's matchers ([EnvoyMatching], [EnvoyMatchingLaws]).  The conversion of
    built-in policies is a parameter of the route transformation, which only
    stores them; [Builtin] instantiates it.

    ** What the theorems show

    - Attachment: [process_route_spec] gives exactly the pairs of listener and
      hostnames a route attaches to; [ref_error_iff_unattached] says a parent
      reference is reported if and only if it attaches nowhere;
      [intersect_hostnames_exact] and [hostname_intersect_exact] characterise
      hostname intersection by the hosts both sides match; [route_key_inj] shows
      that route keys do not collide.
    - Delegation and translation: both recursions are total, cycles included;
      every flattened route is a match of one rule of its chain that meets the
      delegation conditions, or the merge of the delegating match with one, and
      keeps the header, query and method conditions of all routes above it
      ([translated_routes_contained], [filter_delegated_spec]).
    - Safety of references: [reference_allowed_iff], [secrets_by_selector_exact],
      [get_backend_answers], [transformed_backends_safe]: no cross-namespace
      object is used without a grant, and every failure has its error.
    - Order: route precedence is the lexicographic order of the Gateway API and
      the sorted result is independent of the input order; likewise for policies
      of a kind, filters and backend aliases.
    - Policies: an object gets exactly the policies that target it
      ([found_policies_iff], [attached_policies_spec]); unless a policy prefers
      parents, the merge over a configuration tree takes each field that is moved
      as a whole from the first policy, in priority order, that sets it
      ([merge_policies_first_set], [merge_plain_fields]; the upgrades excepted);
      deep merges keep the providers, rules and transformations of both sides;
      buffer limits and upgrades stay exclusive; merging never panics on
      well-formed IRs; errors of merged policies are kept.
    - Listeners: programmed listeners of a port are pairwise compatible, where
      hostnames are told apart up to the unique name of a listener
      ([accepted_listeners_compatible]), the first listener of a port wins, and
      every rejected one has a condition.
    - Endpoints: priorities are compact, no endpoint is lost or invented, and the
      assignment depends on the client only through the hashed context.
    - Status: the published status reflects the last calls on the reporter
      ([route_status_reflects_calls]), the writers are fixed points of themselves
      ([route_writer_idempotent]), a shared list keeps the entries of others, and
      the work queue never loses a request, never runs two writes of a resource
      and drains ([no_request_lost], [single_writer_per_resource], [pool_drains]).
    - Clients: reference counts are exact in every interleaving and never wrap,
      and the published clients are current when nothing is due.
    - Gateways: only admitted listeners are programmed, and a frontend validation
      that cannot be honoured fails closed; listener isolation is exact; TLS
      chains fail closed ([tls_chains_fail_closed]), and the client certificates
      that the applicable validation demands are demanded by Envoy
      ([mtls_reaches_envoy]); the translation of a Gateway is total.
    - Envoy routes: generated matchers accept exactly the requests of the match
      whose header names differ in lower case, and else require every entry
      ([translated_match_exact]);
      a served route is valid or answers 500; invalid policies replace exactly
      the rule, virtual host or route configuration they apply to, and are
      reported; in strict mode what is sent was validated.
    - Built-in policies: per field the policies of a rule and its delegating
      parents resolve to one value, when none has the priority
      DeepMergePreferChild ([delegated_route_settings], [redirect_resolved]), path rewrites stay exclusive
      ([path_rewrites_exclusive]), and what is configured has its filter in the
      chain ([configured_filters_installed]).
    - Backends: a backend that cannot be translated yields a cluster without
      endpoints and an error ([base_cluster_fails_closed]), and is left out of
      every snapshot ([failed_backends_excluded]); the client certificate of a
      Gateway is on every TLS connection of every client, or the translation for
      the client reports an error ([gateway_identity_kept]); what clients share is what each would have got
      ([shared_base_exact], [shared_assignment_exact]).
    - Policies of backends: the plugins run in the order of a Go map and yield the
      same cluster in every order ([base_policies_any_order]); TLS of a
      BackendTLSPolicy wins and stays inside a PROXY wrapper ([tls_policy_wins]);
      a TLS configuration that does not skip verification and whose credentials
      are not files verifies exactly what it names ([upstream_tls_sound]); settings merge by weight and age
      ([backend_config_merged]); one BackendTLSPolicy of a target is accepted
      ([one_tls_policy_accepted]) and targets are reported as ancestors only
      without a Gateway ([target_ancestors_fallback]).
    - Snapshots: a snapshot has exactly the clusters of the Gateway and of every
      backend that did not fail for the client ([snapshot_clusters_exact]), all
      accepted by Envoy in strict mode ([snapshot_clusters_validated]), with
      exactly the endpoints Envoy asks for ([snapshot_endpoints_exact],
      [discovered_cluster_has_endpoints]); the local cluster lists the pods of
      the Gateway ([local_cluster_exact]); deferred clients are counted exactly
      ([deferral_counts_exact]); shared protos have the content of each client
      and are not leaked ([assignments_shared_exact], [retention_bounded]).
    - Endpoint sets: the incremental hash and count are those of the content
      through all plugin edits ([resolved_sets_sound]), and reusing a set equals
      adding its endpoints again ([reuse_equals_readd]).
    - Deployment: the settings [kube_setting] lists come from the Gateway, its
      class or the defaults, in this order ([deployed_settings_layered]); the
      ports of a proxy are those of its listeners and service, distinct and, with
      the default security contexts, bindable ([rendered_ports_usable]); rendering
      and reconciliation are total ([values_outcome], [reconcile_total]); foreign
      Services that can be read are left alone ([reconcile_keeps_foreign_service]), patches are
      ordered ([patches_ordered]) and pruning is exact ([prune_exact]).
    - Validators: an answer is a verdict of Envoy on the same content
      ([answers_faithful], [cache_holds_verdicts]), one run per key at a time
      ([one_run_per_key]), and every call returns ([every_call_returns]).
    - TrafficPolicies: whatever a hook configures next to a route has its filter
      in the chain ([acting_configs_installed]), decompression precedes buffering
      and the filter that disables authorization or JWTs precedes theirs
      ([filters_ordered]); settings of the most specific
      policy are kept ([specific_settings_kept]); the buffer filter runs at the
      earliest stage asked for ([buffer_stage_earliest]).  Constructed policies meet
      the preconditions of these theorems ([constructed_specs_complete]).
    - Access: API keys and users are exactly those of the secrets, without
      duplicates ([api_keys_sound], [basic_users_sound]); RBAC decides as its
      expressions say ([rbac_exact]); a JWT policy enforces the requirement of the
      extension it refers to ([jwt_policy_enforced]); an OAuth2 provider has its
      endpoints, secrets and token checks ([oauth2_provider_sound]); a route that
      disables a kind of extension switches exactly its filters off
      ([disabled_kinds_switched_off]).
    - Discovery: retries back off within bounds ([retries_bounded]), a discovered
      provider is never withdrawn by a failure and its last configuration is the
      one served ([last_known_good]), readers never keep an outdated outcome
      unnoticed ([readers_coherent]), both as long as no pass drops the entry, which
      happens only to an issuer that a pass did not read as live; and a provider that
      is reachable again is served after the next pass ([provider_recovers]); only
      issuers that the loop keeps are read ([discovery_reads_live_issuers]).
    - Equality: [Equals] of two TrafficPolicies holds exactly when they agree in
      every part, and panics in one case, which is characterised
      ([policy_equals_exact]).

    Theorems whose names appear as examples of unexpected behaviour
    ([compare_staged_cycle], [deep_prefer_parent_keeps_child],
    [deep_merge_repeats_provider], [cyclic_child_hides_siblings],
    [two_delegates_duplicate_routes], [weights_lost_across_kinds],
    [rejected_listener_interferes], [label_priorities_skip],
    [core_group_not_served], [shared_parent_write_loop], [denied_ports_exposed],
    [parent_kind_ignored], [optional_policy_hides_errors], [sans_without_ca],
    [tls_listener_first_skips_validation],
    [virtual_host_policies_of_other_listener], [single_zero_weight_served],
    [listener_set_policy_blames_gateway], [invalid_backend_policy_applied],
    [http_chain_reporter_unknown], [tcp_zero_weights],
    [duplicate_endpoints_cancel], [locality_boundaries_collide],
    [guard_rejects_unchanged_duplicates], [static_filter_keeps_version],
    [deep_prefer_child_overridden], [full_path_override_keeps_prefix],
    [retry_clears_child_timeout], [unnamed_rule_takes_named_code],
    [grpc_mirror_uses_http_grant],
    [hostname_hashing_lost], [file_certificates_parse_paths],
    [unsupported_ca_unverified], [validation_skips_http2],
    [losing_zone_aware_applies], [listener_set_ancestor_dropped],
    [override_names_unapplied_policy], [empty_override_clears_map],
    [apparmor_override_dropped], [class_reference_kind_ignored],
    [omitted_contexts_not_restored], [pruning_ignores_owners],
    [vpa_patch_replaces_field], [budgets_of_both_levels],
    [service_address_repeated], [prune_race_latches_failure],
    [null_document_panics], [later_authz_providers_unvalidated],
    [header_order_reaches_config], [oauth2_error_prefix],
    [buffer_equals_panics], [early_ext_proc_before_disable],
    [less_specific_tracing_wins], [rbac_filter_enabled],
    [empty_rules_allow_all], [equivalent_headers_all_required],
    [dotted_listener_names_collide], [empty_alpn_not_defaulted]) show inputs on which the code departs from its comments, its documents or its evident
    intention.

    ** Not modelled

    The other plugins (ListenerPolicy, the backends of AWS, EC2 and static hosts,
    destination rules, service entries) and the constructors of TrafficPolicy that
    only rename fields (CORS, CSRF, header modifiers, local rate limits,
    compression, transformations): they translate API objects to protos, whose
    content is opaque here.  Helm rendering and strategic merge patches, which
    libraries do; GatewayClass provisioning; KRT itself, controllers, servers,
    metrics, logging and generated code.  Log and metric calls inside modelled
    functions are omitted. *)

From stdpp Require Export base list strings gmap sorting relations pretty.
From Stdlib Require Export ZArith.
From Stdlib Require Ascii.
Export Ascii.AsciiSyntax.
Delimit Scope char_scope with char.
From Stdlib Require Import Lia.

#[global] Set Default Goal Selector "!".
#[global] Set Warnings "-clear-no-such-hyp,-register-all".
#[global] Open Scope string_scope.
#[global] Open Scope list_scope.

(** ** Automation *)

Create HintDb kgw.

(** Case analysis on every boolean test, option and comparison of the goal. *)
Ltac cases :=
  repeat (case_match || case_decide || case_bool_decide); simplify_eq/=.

(** Split the boolean conjunctions and negations of the context. *)
Ltac bool_hyps :=
  repeat match goal with
  | H : _ && _ = true |- _ => apply andb_true_iff in H as [? ?]
  | H : _ || _ = false |- _ => apply orb_false_iff in H as [? ?]
  | H : negb _ = true |- _ => apply negb_true_iff in H
  | H : negb _ = false |- _ => apply negb_false_iff in H
  | H : bool_decide _ = true |- _ => apply bool_decide_eq_true in H
  | H : bool_decide _ = false |- _ => apply bool_decide_eq_false in H
  | H : String.eqb _ _ = true |- _ => apply String.eqb_eq in H
  | H : String.eqb _ _ = false |- _ => apply String.eqb_neq in H
  end.

(** ** Comparators

    Go comparators return a negative, zero or positive [int]; the model returns
    the three-valued [comparison].  [WeakOrder] is what [slices.SortFunc] and
    [slices.SortStableFunc] require of a comparator. *)

Declare Scope cmp_scope.
Delimit Scope cmp_scope with cmp.

Class WeakOrder {A} (c : A → A → comparison) : Prop := {
  wo_opp : ∀ x y, c y x = CompOpp (c x y);
  wo_trans : ∀ x y z, c x y ≠ Gt → c y z ≠ Gt → c x z ≠ Gt
}.
Arguments wo_opp {_} _ {_} _ _.
Arguments wo_trans {_} _ {_} _ _ _.

(** First comparator, ties broken by the second. *)
Definition then_cmp {A} (c1 c2 : A → A → comparison) (x y : A) : comparison :=
  match c1 x y with Eq => c2 x y | r => r end.

Infix "▷" := then_cmp (at level 55, right associativity) : cmp_scope.

(** Compare by a key. *)
Definition cmp_on {A B} (f : A → B) (c : B → B → comparison) (x y : A) : comparison :=
  c (f x) (f y).

(** Descending order. *)
Definition cmp_desc {A} (c : A → A → comparison) (x y : A) : comparison := c y x.

#[global] Typeclasses Opaque then_cmp cmp_on cmp_desc.

(** The non-strict relation of a comparator. *)
Definition cmp_le {A} (c : A → A → comparison) (x y : A) : Prop := c x y ≠ Gt.

#[global] Instance cmp_le_dec {A} (c : A → A → comparison) x y : Decision (cmp_le c x y).
Proof. unfold cmp_le. apply _. Defined.

(** ** Stable sorting

    [slices.SortStableFunc] sorts blocks of at most 20 elements by insertion
    from the right: each element moves left while it compares strictly less
    than its left neighbour.  [ins] inserts into the reversed sorted prefix.
    For a [WeakOrder] every stable sort returns the same list
    ([stable_sort_unique]), so the model is exact for longer lists too. *)

Fixpoint ins {A} (c : A → A → comparison) (x : A) (rp : list A) : list A :=
  match rp with
  | [] => [x]
  | y :: ys => match c x y with Lt => y :: ins c x ys | _ => x :: y :: ys end
  end.

Definition sort_stable {A} (c : A → A → comparison) (l : list A) : list A :=
  reverse (foldl (λ rp x, ins c x rp) [] l).

(** The members of [l] that tie with [x]. *)
Definition ties {A} (c : A → A → comparison) (x : A) (l : list A) : list A :=
  filter (λ y, c x y = Eq) l.

(** ** Loops that may fail *)

Fixpoint foldM {A B} (f : B → A → option B) (b : B) (l : list A) : option B :=
  match l with [] => Some b | x :: l' => b' ← f b x; foldM f b' l' end.

(** ** Go strings: byte strings with bytewise comparison *)

Fixpoint str_drop (n : nat) (s : string) : string :=
  match n, s with
  | O, _ => s
  | S n', EmptyString => EmptyString
  | S n', String _ s' => str_drop n' s'
  end.

(** [strings.HasPrefix] and [strings.HasSuffix]. *)
Definition has_prefix (s p : string) : bool := String.prefix p s.

Definition has_suffix (s suf : string) : bool :=
  (String.length suf <=? String.length s)%nat &&
  String.eqb (str_drop (String.length s - String.length suf) s) suf.

(** [strings.ToLower] on ASCII. *)
Definition ascii_lower (a : Ascii.ascii) : Ascii.ascii :=
  let n := Ascii.nat_of_ascii a in
  if ((65 <=? n) && (n <=? 90))%nat then Ascii.ascii_of_nat (n + 32) else a.

Fixpoint to_lower (s : string) : string :=
  match s with
  | EmptyString => EmptyString
  | String a s' => String (ascii_lower a) (to_lower s')
  end.

(** [strings.Join]. *)
Definition join (sep : string) (l : list string) : string := String.concat sep l.

(** No byte of [s] is [a]: Kubernetes names carry no ['/']. *)
Fixpoint no_char (a : Ascii.ascii) (s : string) : bool :=
  match s with
  | EmptyString => true
  | String b s' => negb (Ascii.eqb a b) && no_char a s'
  end.

(** [ptr.OrEmpty] / [strOr]: the pointee, or a default. *)
Definition str_or (s : option string) (d : string) : string := default d s.

(** Boolean [<] of Go on strings. *)
Definition str_ltb (a b : string) : bool := String.ltb a b.

(** [strings.Split] on one separator byte. *)
Fixpoint split (sep : Ascii.ascii) (s : string) : list string :=
  match s with
  | EmptyString => [""]
  | String a s' =>
      if Ascii.eqb a sep then "" :: split sep s'
      else match split sep s' with
           | [] => [String a ""]
           | x :: l => String a x :: l
           end
  end.

(** ** Lemmas: comparators *)

Section weak_order.
Context {A : Type} (c : A → A → comparison) `{!WeakOrder c}.

Lemma wo_refl x : c x x = Eq.
Proof. pose proof (wo_opp c x x) as H. by destruct (c x x). Qed.

Lemma wo_eq_sym x y : c x y = Eq → c y x = Eq.
Proof. intros H. by rewrite (wo_opp c x y), H. Qed.

Lemma wo_lt_gt x y : c x y = Lt ↔ c y x = Gt.
Proof. rewrite (wo_opp c x y). by destruct (c x y). Qed.

Lemma wo_lt_le_trans x y z : c x y = Lt → c y z ≠ Gt → c x z = Lt.
Proof.
  intros Hxy Hyz. destruct (c x z) eqn:Hxz; [|done|].
  - exfalso. apply wo_lt_gt in Hxy. apply (wo_trans c y z x) in Hyz; [done|].
    by rewrite (wo_eq_sym x z).
  - exfalso. eapply (wo_trans c x y z); [by rewrite Hxy|done|done].
Qed.

Lemma wo_le_lt_trans x y z : c x y ≠ Gt → c y z = Lt → c x z = Lt.
Proof.
  intros Hxy Hyz. apply wo_lt_gt. apply wo_lt_gt in Hyz.
  destruct (c z x) eqn:Hzx; [| |done]; exfalso;
    (eapply (wo_trans c z x y); [by rewrite Hzx|done|done]).
Qed.

Lemma wo_eq_l x y z : c x y = Eq → c x z = c y z.
Proof.
  intros Hxy. destruct (c y z) eqn:Hyz.
  - destruct (c x z) eqn:Hxz; [done| |].
    + apply wo_eq_sym in Hxy. rewrite (wo_le_lt_trans y x z) in Hyz; [done|by rewrite Hxy|done].
    + exfalso. eapply (wo_trans c x y z); [by rewrite Hxy|by rewrite Hyz|done].
  - eapply wo_le_lt_trans; [|done]. by rewrite Hxy.
  - apply wo_lt_gt in Hyz. apply wo_lt_gt. eapply wo_lt_le_trans; [done|].
    by rewrite wo_eq_sym.
Qed.

Lemma wo_eq_r x y z : c y z = Eq → c x y = c x z.
Proof.
  intros H. rewrite (wo_opp c y x), (wo_opp c z x). by rewrite (wo_eq_l y z x).
Qed.

Lemma cmp_le_antisym_eq x y : cmp_le c x y → cmp_le c y x → c x y = Eq.
Proof. unfold cmp_le. rewrite (wo_opp c x y). by destruct (c x y). Qed.

#[global] Instance cmp_le_preorder : PreOrder (cmp_le c).
Proof.
  split; [intros x; unfold cmp_le; by rewrite wo_refl|].
  intros x y z. apply (wo_trans c).
Qed.

#[global] Instance cmp_le_total : Total (cmp_le c).
Proof.
  intros x y. unfold cmp_le. rewrite (wo_opp c x y). destruct (c x y); auto.
Qed.

End weak_order.

#[global] Instance then_cmp_wo {A} (c1 c2 : A → A → comparison) :
  WeakOrder c1 → WeakOrder c2 → WeakOrder (then_cmp c1 c2).
Proof.
  intros H1 H2. split; unfold then_cmp.
  - intros x y. rewrite (wo_opp c1 x y). destruct (c1 x y); simpl; auto. apply (wo_opp c2).
  - intros x y z Hxy Hyz. destruct (c1 x y) eqn:E1.
    + rewrite (wo_eq_l c1 x y z E1). destruct (c1 y z) eqn:E2; [|done|done].
      by apply (wo_trans c2 x y z).
    + assert (c1 y z ≠ Gt) by (destruct (c1 y z); done).
      by rewrite (wo_lt_le_trans c1 x y z).
    + done.
Qed.

#[global] Instance cmp_on_wo {A B} (f : A → B) (c : B → B → comparison) :
  WeakOrder c → WeakOrder (cmp_on f c).
Proof.
  intros H. split; unfold cmp_on; intros.
  - apply (wo_opp c).
  - by eapply (wo_trans c).
Qed.

#[global] Instance cmp_desc_wo {A} (c : A → A → comparison) :
  WeakOrder c → WeakOrder (cmp_desc c).
Proof.
  intros H. split; unfold cmp_desc; intros x y.
  - apply (wo_opp c).
  - intros z ? ?. by apply (wo_trans c z y x).
Qed.

#[global] Instance Z_compare_wo : WeakOrder Z.compare.
Proof.
  split; intros x y.
  - apply Z.compare_antisym.
  - intros z. change ((x <= y)%Z → (y <= z)%Z → (x <= z)%Z). lia.
Qed.

#[global] Instance nat_compare_wo : WeakOrder Nat.compare.
Proof.
  split; intros x y.
  - apply Nat.compare_antisym.
  - intros z. rewrite !Nat.compare_ngt_iff. lia.
Qed.

Lemma string_compare_le s1 s2 : String.compare s1 s2 ≠ Gt ↔ String.le s1 s2.
Proof. unfold String.le, String.leb. by destruct (String.compare s1 s2). Qed.

#[global] Instance string_compare_wo : WeakOrder String.compare.
Proof.
  split; intros x y.
  - apply String.compare_antisym.
  - intros z. rewrite !string_compare_le. apply transitivity.
Qed.

Lemma string_compare_eq s1 s2 : String.compare s1 s2 = Eq ↔ s1 = s2.
Proof.
  split; [apply String.compare_eq_iff|intros ->; apply (wo_refl String.compare)].
Qed.

(** A key comparison that decides equality. *)
Lemma string_cmp_on_eq {A} (f : A → string) x y :
  cmp_on f String.compare x y = Eq ↔ f x = f y.
Proof. apply string_compare_eq. Qed.

Lemma str_ltb_lt a b : str_ltb a b = true ↔ String.compare a b = Lt.
Proof. unfold str_ltb, String.ltb. by destruct (String.compare a b). Qed.

(** ** Lemmas: stable sorting *)

Lemma ins_perm {A} (c : A → A → comparison) x l : ins c x l ≡ₚ x :: l.
Proof.
  induction l as [|y ys IH]; simpl; [done|].
  destruct (c x y); [done| |done]. rewrite IH. apply Permutation_swap.
Qed.

Lemma foldl_ins_perm {A} (c : A → A → comparison) l acc :
  foldl (λ rp x, ins c x rp) acc l ≡ₚ l ++ acc.
Proof.
  revert acc. induction l as [|x l IH]; intros acc; simpl; [done|].
  rewrite IH, ins_perm. by rewrite Permutation_middle.
Qed.

Lemma sort_stable_perm {A} (c : A → A → comparison) l : sort_stable c l ≡ₚ l.
Proof. unfold sort_stable. by rewrite reverse_Permutation, foldl_ins_perm, app_nil_r. Qed.

Lemma sort_stable_elem_of {A} (c : A → A → comparison) x l : x ∈ sort_stable c l ↔ x ∈ l.
Proof. by rewrite sort_stable_perm. Qed.

Lemma sort_stable_length {A} (c : A → A → comparison) l : length (sort_stable c l) = length l.
Proof. by rewrite sort_stable_perm. Qed.

(** Comparators that agree on the elements sort alike. *)
Lemma ins_ext {A} (c1 c2 : A → A → comparison) x l :
  (∀ y, y ∈ l → c1 x y = c2 x y) → ins c1 x l = ins c2 x l.
Proof.
  induction l as [|y ys IH]; simpl; intros H; [done|].
  rewrite (H y) by (by left). destruct (c2 x y); [done| |done].
  f_equal. apply IH. intros z Hz. apply H. by right.
Qed.

Lemma sort_stable_ext {A} (c1 c2 : A → A → comparison) l :
  (∀ x y, x ∈ l → y ∈ l → c1 x y = c2 x y) → sort_stable c1 l = sort_stable c2 l.
Proof.
  intros H. unfold sort_stable. f_equal.
  assert (∀ pre acc, acc ⊆ l → pre ⊆ l →
    foldl (λ rp x, ins c1 x rp) acc pre = foldl (λ rp x, ins c2 x rp) acc pre) as Hgen.
  { induction pre as [|x pre IH]; intros acc Ha Hpre; simpl; [done|].
    rewrite (ins_ext c1 c2); [|intros y Hy; apply H; [apply Hpre; by left|by apply Ha]].
    apply IH; [|intros y Hy; apply Hpre; by right].
    intros y. rewrite ins_perm. intros [->|Hy]%elem_of_cons; [apply Hpre; by left|by apply Ha]. }
  apply Hgen; [|done]. by intros ? ?%not_elem_of_nil.
Qed.

Section stable_sort.
Context {A : Type} (c : A → A → comparison) `{!WeakOrder c}.

Lemma ins_sorted x l :
  StronglySorted (flip (cmp_le c)) l → StronglySorted (flip (cmp_le c)) (ins c x l).
Proof.
  induction 1 as [|y ys Hs IH Hall]; simpl; [repeat constructor|].
  rewrite Forall_forall in Hall.
  destruct (c x y) eqn:E.
  - constructor; [by constructor; [|apply Forall_forall]|].
    constructor; [unfold flip, cmp_le; by rewrite (wo_eq_sym c x y)|].
    apply Forall_forall. intros z Hz. unfold flip in *.
    transitivity y; [by apply Hall|]. unfold cmp_le. by rewrite (wo_eq_sym c x y).
  - constructor; [done|]. rewrite (ins_perm c). constructor; [|by apply Forall_forall].
    unfold flip, cmp_le. by rewrite E.
  - apply (wo_lt_gt c) in E. constructor; [by constructor; [|apply Forall_forall]|].
    constructor; [unfold flip, cmp_le; by rewrite E|].
    apply Forall_forall. intros z Hz. unfold flip in *.
    transitivity y; [by apply Hall|]. unfold cmp_le. by rewrite E.
Qed.

Lemma foldl_ins_sorted l acc :
  StronglySorted (flip (cmp_le c)) acc →
  StronglySorted (flip (cmp_le c)) (foldl (λ rp x, ins c x rp) acc l).
Proof.
  revert acc. induction l as [|x l IH]; intros acc Hs; simpl; [done|].
  apply IH. by apply ins_sorted.
Qed.

Lemma StronglySorted_reverse_flip l :
  StronglySorted (flip (cmp_le c)) l → StronglySorted (cmp_le c) (reverse l).
Proof.
  induction 1 as [|x l Hs IH Hall]; [constructor|].
  rewrite reverse_cons. apply StronglySorted_app_2; [|done|repeat constructor].
  intros a b Ha ->%list_elem_of_singleton. rewrite elem_of_reverse in Ha.
  rewrite Forall_forall in Hall. by apply Hall.
Qed.

Lemma sort_stable_sorted l : StronglySorted (cmp_le c) (sort_stable c l).
Proof. apply StronglySorted_reverse_flip, foldl_ins_sorted. constructor. Qed.

Lemma ties_ins z x l :
  StronglySorted (flip (cmp_le c)) l →
  ties c z (ins c x l) = (if decide (c z x = Eq) then [x] else []) ++ ties c z l.
Proof.
  unfold ties. induction 1 as [|y ys Hs IH Hall]; simpl.
  - rewrite filter_cons, filter_nil. by case_decide.
  - destruct (c x y) eqn:E; rewrite !filter_cons; [by repeat case_decide; simplify_eq/=| |by repeat case_decide; simplify_eq/=].
    rewrite IH. destruct (decide (c z x = Eq)) as [Hx|]; [|by case_decide].
    assert (c z y ≠ Eq) by (rewrite (wo_eq_l c z x y Hx); congruence).
    by repeat case_decide.
Qed.

Lemma ties_foldl z l acc :
  StronglySorted (flip (cmp_le c)) acc →
  ties c z (foldl (λ rp x, ins c x rp) acc l) = reverse (ties c z l) ++ ties c z acc.
Proof.
  revert acc. induction l as [|x l IH]; intros acc Hs; simpl; [done|].
  rewrite IH by (by apply ins_sorted). rewrite ties_ins by done.
  unfold ties. rewrite filter_cons. case_decide; simpl; [|done].
  by rewrite reverse_cons, <- app_assoc.
Qed.

Lemma filter_reverse_comm (P : A → Prop) `{∀ x, Decision (P x)} (l : list A) :
  filter P (reverse l) = reverse (filter P l).
Proof.
  induction l as [|x l IH]; [done|].
  rewrite reverse_cons, filter_app, IH, !filter_cons, filter_nil.
  case_decide; [by rewrite reverse_cons|by rewrite app_nil_r].
Qed.

(** Stability: elements that tie keep their order. *)
Lemma sort_stable_ties z l : ties c z (sort_stable c l) = ties c z l.
Proof.
  unfold sort_stable. unfold ties at 1. rewrite filter_reverse_comm.
  change (reverse (ties c z (foldl (λ rp x, ins c x rp) [] l)) = ties c z l).
  rewrite ties_foldl by constructor. unfold ties at 2. rewrite filter_nil, app_nil_r.
  by rewrite reverse_involutive.
Qed.

Lemma sorted_head_le x l y :
  StronglySorted (cmp_le c) (x :: l) → y ∈ x :: l → cmp_le c x y.
Proof.
  intros [Hall _]%StronglySorted_cons [->|Hy]%elem_of_cons; [done|].
  rewrite Forall_forall in Hall. by apply Hall.
Qed.

(** Two sorted lists with the same tie classes are the same list: every stable
    sort of a list under a weak order returns the same result. *)
Lemma sorted_ties_unique l1 l2 :
  StronglySorted (cmp_le c) l1 → StronglySorted (cmp_le c) l2 →
  (∀ z, ties c z l1 = ties c z l2) → l1 = l2.
Proof.
  revert l2. induction l1 as [|x l1 IH]; intros l2 Hs1 Hs2 Ht.
  - destruct l2 as [|y l2]; [done|]. specialize (Ht y).
    unfold ties in Ht. rewrite filter_nil, filter_cons, decide_True in Ht; [done|apply (wo_refl c)].
  - destruct l2 as [|y l2].
    { specialize (Ht x). unfold ties in Ht.
      rewrite filter_nil, filter_cons, decide_True in Ht; [done|apply (wo_refl c)]. }
    assert (c x y = Eq) as Hxy.
    { assert (x ∈ ties c x (y :: l2)) as Hx.
      { rewrite <- (Ht x). unfold ties. apply list_elem_of_filter.
        split; [apply (wo_refl c)|apply elem_of_cons; by left]. }
      assert (y ∈ ties c y (x :: l1)) as Hy.
      { rewrite (Ht y). unfold ties. apply list_elem_of_filter.
        split; [apply (wo_refl c)|apply elem_of_cons; by left]. }
      apply list_elem_of_filter in Hx as [_ Hx], Hy as [_ Hy].
      apply (sorted_head_le _ _ _ Hs2) in Hx. apply (sorted_head_le _ _ _ Hs1) in Hy.
      unfold cmp_le in *. rewrite (wo_opp c x y) in Hx. by destruct (c x y). }
    assert (x = y) as ->.
    { pose proof (Ht x) as H. unfold ties in H. rewrite !filter_cons in H.
      rewrite !decide_True in H; [|done|apply (wo_refl c)]. by simplify_eq. }
    f_equal. apply StronglySorted_cons in Hs1 as [_ Hs1], Hs2 as [_ Hs2].
    apply IH; [done..|]. intros z. specialize (Ht z). unfold ties in *.
    rewrite !filter_cons in Ht. by case_decide; simplify_eq.
Qed.

Lemma stable_sort_unique l l' :
  StronglySorted (cmp_le c) l' → (∀ z, ties c z l' = ties c z l) → l' = sort_stable c l.
Proof.
  intros Hs Ht. apply sorted_ties_unique; [done|apply sort_stable_sorted|].
  intros z. by rewrite sort_stable_ties.
Qed.

(** When ties are equalities the result does not depend on the input order. *)
Lemma sort_stable_perm_eq l1 l2 :
  (∀ x y, x ∈ l1 → y ∈ l1 → c x y = Eq → x = y) →
  l1 ≡ₚ l2 → sort_stable c l1 = sort_stable c l2.
Proof.
  intros Hinj Hp. apply (StronglySorted_unique_strong (cmp_le c)).
  - intros x1 x2 H1 H2 H12 H21. rewrite (sort_stable_perm c) in H1, H2.
    apply Hinj; [done|by rewrite Hp|].
    apply dec_stable. intros Hne. pose proof (wo_opp c x1 x2) as Ho.
    unfold cmp_le in H12, H21. rewrite Ho in H21. by destruct (c x1 x2).
  - apply sort_stable_sorted.
  - apply sort_stable_sorted.
  - by rewrite !(sort_stable_perm c).
Qed.

End stable_sort.

(** A comparator that refines a weak order sorts by that order, even when it is
    not a weak order itself. *)
Lemma sort_stable_refines {A} (c c0 : A → A → comparison) `{!WeakOrder c0} (l : list A) :
  (∀ x y, c0 x y ≠ Eq → c x y = c0 x y) → StronglySorted (cmp_le c0) (sort_stable c l).
Proof.
  intros Hr. apply (StronglySorted_reverse_flip c0).
  assert (∀ x rp, StronglySorted (flip (cmp_le c0)) rp →
                  StronglySorted (flip (cmp_le c0)) (ins c x rp)) as Hins.
  { intros x. induction 1 as [|y ys Hs IH Hall]; simpl; [repeat constructor|].
    destruct (c x y) eqn:E; [|constructor; [done|]; rewrite (ins_perm c); constructor; [|done]|].
    2: { unfold flip, cmp_le. intros Hgt. rewrite (Hr x y) in E; congruence. }
    all: assert (flip (cmp_le c0) x y) as Hxy
      by (unfold flip, cmp_le; rewrite (wo_opp c0 x y); intros Hgt;
          specialize (Hr x y); destruct (c0 x y); simpl in *; try done; rewrite Hr in E; done).
    all: constructor; [by constructor|]; constructor; [done|].
    all: eapply Forall_impl; [exact Hall|]; intros z Hz; unfold flip in *; by transitivity y. }
  assert (∀ l acc, StronglySorted (flip (cmp_le c0)) acc →
    StronglySorted (flip (cmp_le c0)) (foldl (λ rp x, ins c x rp) acc l)) as Hf.
  { induction l0 as [|x l0 IH]; intros acc Hacc; simpl; [done|]. by apply IH, Hins. }
  apply Hf. constructor.
Qed.

(** ** Lemmas: loops *)

(** A loop whose body succeeds and keeps an invariant succeeds and keeps it. *)
Lemma foldM_invariant {A B} (I : B → Prop) (f : B → A → option B) l b :
  (∀ b x, x ∈ l → I b → ∃ b', f b x = Some b' ∧ I b') → I b →
  ∃ b', foldM f b l = Some b' ∧ I b'.
Proof.
  revert b. induction l as [|x l IH]; intros b Hf Hb; simpl; [by exists b|].
  destruct (Hf b x) as (b' & -> & Hb'); [by left|done|]. simpl.
  apply IH; [|done]. intros. apply Hf; [by right|done].
Qed.

(** ** Lemmas: strings *)

Lemma str_app_cons x (a b : string) : String x a +:+ b = String x (a +:+ b).
Proof. done. Qed.

Lemma str_app_nil_l (b : string) : "" +:+ b = b.
Proof. done. Qed.

Lemma str_app_assoc (a b c : string) : a +:+ (b +:+ c) = (a +:+ b) +:+ c.
Proof. induction a as [|x a IH]; [done|]. rewrite ?str_app_cons; simpl; by rewrite IH. Qed.

Lemma str_app_nil_r (a : string) : a +:+ "" = a.
Proof. induction a as [|x a IH]; [done|]. rewrite ?str_app_cons; simpl; by rewrite IH. Qed.

Lemma str_length_app (a b : string) :
  String.length (a +:+ b) = (String.length a + String.length b)%nat.
Proof. induction a as [|x a IH]; [done|]. rewrite ?str_app_cons; simpl; by rewrite IH. Qed.

Lemma str_drop_app (a b : string) : str_drop (String.length a) (a +:+ b) = b.
Proof. by induction a as [|x a IH]; [|rewrite str_app_cons; simpl]. Qed.

Lemma str_drop_split n (s : string) :
  (n <= String.length s)%nat → ∃ p, s = p +:+ str_drop n s ∧ String.length p = n.
Proof.
  revert s. induction n as [|n IH]; intros s Hn.
  - by exists "".
  - destruct s as [|a s]; simpl in *; [lia|].
    destruct (IH s) as (p & Hp & Hl); [lia|]. exists (String a p). rewrite str_app_cons. simpl. by rewrite <- Hp, Hl.
Qed.

Lemma str_app_inj_len (a b c d : string) :
  String.length a = String.length b → a +:+ c = b +:+ d → a = b ∧ c = d.
Proof.
  revert b. induction a as [|x a IH]; intros [|y b]; simpl; intros Hl He; try done.
  rewrite !str_app_cons in He. simplify_eq. edestruct IH as [-> ->]; eauto.
Qed.

Lemma str_app_inj_r (a b c : string) : a +:+ c = b +:+ c → a = b.
Proof.
  intros H. assert (String.length (a +:+ c) = String.length (b +:+ c)) as Hl by (by rewrite H).
  rewrite !str_length_app in Hl. apply (str_app_inj_len a b c c); [lia|exact H].
Qed.

Lemma has_suffix_spec (s suf : string) : has_suffix s suf = true ↔ ∃ p, s = p +:+ suf.
Proof.
  unfold has_suffix. rewrite andb_true_iff, Nat.leb_le, String.eqb_eq. split.
  - intros [Hl Hd]. destruct (str_drop_split (String.length s - String.length suf) s)
      as (p & Hp & _); [lia|]. exists p. rewrite Hp at 1. by rewrite Hd.
  - intros [p ->]. rewrite str_length_app. split; [lia|].
    replace (String.length p + String.length suf - String.length suf)%nat
      with (String.length p) by lia.
    apply str_drop_app.
Qed.

Lemma has_prefix_spec (s p : string) : has_prefix s p = true ↔ ∃ t, s = p +:+ t.
Proof.
  unfold has_prefix. revert s. induction p as [|a p IH]; intros [|b s]; simpl.
  - split; [by exists ""|done].
  - split; [intros _; by exists (String b s)|done].
  - split; [done|]. intros [t Ht]. by rewrite str_app_cons in Ht.
  - destruct (Ascii.ascii_dec a b) as [->|Hne].
    + rewrite IH. split; intros [t Ht]; exists t; rewrite ?str_app_cons in *; simplify_eq; auto.
    + split; [done|]. intros [t Ht]. rewrite str_app_cons in Ht. by simplify_eq.
Qed.

(** Two suffixes of one string are comparable. *)
Lemma suffix_comparable (s a b : string) :
  has_suffix s a = true → has_suffix s b = true →
  has_suffix a b = true ∨ has_suffix b a = true.
Proof.
  rewrite !has_suffix_spec. intros [p ->] [q Hq].
  destruct (decide (String.length b <= String.length a)%nat) as [Hle|Hle].
  - left. destruct (str_drop_split (String.length a - String.length b) a) as (r & Hr & Hl); [lia|].
    exists r. rewrite Hr at 1. f_equal. rewrite Hr, str_app_assoc in Hq.
    eapply str_app_inj_len; [|exact Hq].
    pose proof (f_equal String.length Hq) as HL. rewrite !str_length_app in *.
    pose proof (f_equal String.length Hr) as HL'. rewrite str_length_app in HL'. lia.
  - right. destruct (str_drop_split (String.length b - String.length a) b) as (r & Hr & Hl); [lia|].
    exists r. rewrite Hr at 1. f_equal. symmetry in Hq. rewrite Hr, str_app_assoc in Hq.
    eapply str_app_inj_len; [|exact Hq].
    pose proof (f_equal String.length Hq) as HL. rewrite !str_length_app in *.
    pose proof (f_equal String.length Hr) as HL'. rewrite str_length_app in HL'. lia.
Qed.

Lemma has_suffix_trans (a b c : string) :
  has_suffix a b = true → has_suffix b c = true → has_suffix a c = true.
Proof.
  rewrite !has_suffix_spec. intros [p ->] [q ->]. exists (p +:+ q). apply str_app_assoc.
Qed.

Lemma has_suffix_refl (a : string) : has_suffix a a = true.
Proof. rewrite has_suffix_spec. by exists "". Qed.

(** A separator absent from the left parts splits a string uniquely. *)
Lemma sep_app_inj (a : Ascii.ascii) (x y r1 r2 : string) :
  no_char a x = true → no_char a y = true →
  x +:+ String a r1 = y +:+ String a r2 → x = y ∧ r1 = r2.
Proof.
  revert y. induction x as [|b x IH]; intros [|d y] Hx Hy He; simpl in *; bool_hyps;
    rewrite ?str_app_cons, ?str_app_nil_l in He; simplify_eq; try done.
  - rewrite Ascii.eqb_refl in *. done.
  - rewrite Ascii.eqb_refl in *. done.
  - edestruct IH as [-> ->]; eauto.
Qed.

(** ** Sublists of sorted lists and keyed lists *)

Lemma StronglySorted_filter {A} (R : A → A → Prop) (P : A → Prop) `{∀ x, Decision (P x)} (l : list A) :
  StronglySorted R l → StronglySorted R (filter P l).
Proof.
  induction 1 as [|x l Hs IH Ha]; [constructor|]. rewrite filter_cons. case_decide; [|done].
  constructor; [done|]. apply Forall_forall. intros y [_ Hy]%list_elem_of_filter.
  rewrite Forall_forall in Ha. by apply Ha.
Qed.

(** Distinct keys identify the elements of a list. *)
Lemma split_nonempty sep s : ∃ x l, split sep s = x :: l.
Proof.
  destruct s as [|a s]; simpl; [eauto|]. destruct (Ascii.eqb a sep); [eauto|].
  destruct (split sep s); eauto.
Qed.

Lemma NoDup_key_inj {A B} (f : A → B) (l : list A) x y :
  NoDup (f <$> l) → x ∈ l → y ∈ l → f x = f y → x = y.
Proof.
  induction l as [|z l IH]; [by intros _ ?%elem_of_nil|].
  cbn. intros [Hz Hnd]%NoDup_cons [->|Hx]%elem_of_cons [->|Hy]%elem_of_cons Hf; [done|..|by apply IH].
  - destruct Hz. rewrite Hf. by apply list_elem_of_fmap_2.
  - destruct Hz. rewrite <-Hf. by apply list_elem_of_fmap_2.
Qed.

(** Equations that [simpl] would unfold too far. *)
Lemma omap_cons_eq {A B} (f : A → option B) x l :
  omap f (x :: l) = match f x with Some y => y :: omap f l | None => omap f l end.
Proof. reflexivity. Qed.

Lemma mapM_cons_eq {A B} (f : A → option B) x l :
  mapM f (x :: l) = (y ← f x; k ← mapM f l; Some (y :: k)).
Proof. reflexivity. Qed.

#[export] Hint Resolve has_suffix_refl has_suffix_trans : kgw.

Lemma existsb_false_elem {A} (f : A → bool) l x : existsb f l = false → In x l → f x = false.
Proof.
  intros H Hx. destruct (f x) eqn:E; [|done]. rewrite <- H. symmetry. apply existsb_exists. eauto.
Qed.
