(* ===== verification/IR.v ===== *)
(** * Intermediate representation (pkg/pluginsdk/ir)

    The data every other component exchanges: object identities and their
    string keys, attached policies and their per-GroupKind lists, merge
    origins, policy errors, backend objects with their precomputed resource
    and cluster names, and HTTP routes.  The policy IR itself is an interface
    in the source (opaque but for its creation time), hence the type parameter
    [P] and the class [PolicyIrOps]. *)

From S2P Require Import Prelude.

(** ** Object identities *)

Record GroupKind := mkGK { gk_group : string; gk_kind : string }.
#[global] Instance GroupKind_eq_dec : EqDecision GroupKind.
Proof. solve_decision. Defined.
#[global] Instance GroupKind_countable : Countable GroupKind.
Proof.
  apply (inj_countable' (λ g, (gk_group g, gk_kind g)) (λ p, mkGK p.1 p.2)). by intros [].
Defined.

Record NamespacedName := mkNN { nn_namespace : string; nn_name : string }.
#[global] Instance NamespacedName_eq_dec : EqDecision NamespacedName.
Proof. solve_decision. Defined.
#[global] Instance NamespacedName_countable : Countable NamespacedName.
Proof.
  apply (inj_countable' (λ g, (nn_namespace g, nn_name g)) (λ p, mkNN p.1 p.2)). by intros [].
Defined.

(** [types.NamespacedName.String]. *)
Definition nn_string (n : NamespacedName) : string := nn_namespace n +:+ "/" +:+ nn_name n.

Record ObjectSource := mkOS {
  os_group : string; os_kind : string; os_namespace : string; os_name : string }.
#[global] Instance ObjectSource_eq_dec : EqDecision ObjectSource.
Proof. solve_decision. Defined.
#[global] Instance ObjectSource_countable : Countable ObjectSource.
Proof.
  apply (inj_countable' (λ g, (os_group g, os_kind g, os_namespace g, os_name g))
    (λ p, mkOS p.1.1.1 p.1.1.2 p.1.2 p.2)). by intros [].
Defined.

Definition os_gk (o : ObjectSource) : GroupKind := mkGK (os_group o) (os_kind o).
Definition os_nn (o : ObjectSource) : NamespacedName := mkNN (os_namespace o) (os_name o).

(** [buildObjectSourceName], the KRT key of an object. *)
Definition buildObjectSourceName (group kind namespace name : string) : string :=
  group +:+ "/" +:+ kind +:+ "/" +:+ namespace +:+ "/" +:+ name.

Definition os_resource_name (o : ObjectSource) : string :=
  buildObjectSourceName (os_group o) (os_kind o) (os_namespace o) (os_name o).

(** What the code reads of a [metav1.Object].  Creation times are instants. *)
Record Object := mkObj {
  obj_namespace : string; obj_name : string;
  obj_creation : Z; obj_generation : Z;
  obj_resource_version : string; obj_uid : string;
  obj_labels : gmap string string; obj_annotations : gmap string string }.
#[global] Instance Object_eq_dec : EqDecision Object.
Proof. solve_decision. Defined.

Definition obj_nn (o : Object) : NamespacedName := mkNN (obj_namespace o) (obj_name o).

(** [versionEquals]: same object at the same version, ignoring status writes. *)
Definition versionEquals (a b : option Object) : bool :=
  match a, b with
  | None, None => true
  | Some a, Some b =>
      (if negb (bool_decide (obj_generation a = 0%Z)) && negb (bool_decide (obj_generation b = 0%Z))
       then bool_decide (obj_generation a = obj_generation b) &&
            (bool_decide (obj_labels a = obj_labels b) &&
             bool_decide (obj_annotations a = obj_annotations b))
       else bool_decide (obj_resource_version a = obj_resource_version b)) &&
      bool_decide (obj_uid a = obj_uid b)
  | _, _ => false
  end.

(** ** Policy references *)

Record AttachedPolicyRef := mkAPR {
  apr_group : string; apr_kind : string; apr_name : string;
  apr_namespace : string; apr_section : string }.
#[global] Instance AttachedPolicyRef_eq_dec : EqDecision AttachedPolicyRef.
Proof. solve_decision. Defined.

(** [AttachedPolicyRef.ID] and [IDWithSectionName]. *)
Definition apr_id (r : AttachedPolicyRef) : string :=
  apr_group r +:+ "/" +:+ apr_kind r +:+ "/" +:+ apr_namespace r +:+ "/" +:+ apr_name r.

Definition apr_id_section (r : AttachedPolicyRef) : string :=
  if String.eqb (apr_section r) "" then apr_id r else apr_id r +:+ "/" +:+ apr_section r.

(** [PolicyRefString]. *)
Definition PolicyRefString (r : option AttachedPolicyRef) : string :=
  match r with
  | None => ""
  | Some r => apr_group r +:+ "/" +:+ apr_kind r +:+ "/" +:+ apr_namespace r +:+ "/" +:+
              apr_name r +:+ "/" +:+ apr_section r
  end.

Record GroupVersionKind := mkGVK { gvk_group : string; gvk_version : string; gvk_kind : string }.
#[global] Instance GroupVersionKind_eq_dec : EqDecision GroupVersionKind.
Proof. solve_decision. Defined.
#[global] Instance GroupVersionKind_countable : Countable GroupVersionKind.
Proof.
  refine (inj_countable' (λ k, (gvk_group k, gvk_version k, gvk_kind k)) (λ '(g, v, k), mkGVK g v k) _).
  by intros [].
Defined.

Definition ListenerSetGVK : GroupVersionKind := mkGVK "gateway.networking.k8s.io" "v1" "ListenerSet".

(** ** Errors

    Go errors as a tree: sentinels, [fmt.Errorf] with one or two [%w], [errors.Join],
    and the error structs the code inspects with [errors.As]. *)

Inductive sentinel :=
| ErrMissingReferenceGrant | ErrUnknownBackendKind | ErrPolicyNotFound
| ErrNoMatchingListenerHostname | ErrNoMatchingParent | ErrNotAllowedByListeners
| ErrCyclicReference | ErrUnresolvedReference
| ErrInvalidTlsSecret | ErrMissingCACertKey | ErrVerifySubjectAltNamesRequiresCA
| ErrUnknownTLSExtensionOption | ErrInvalidCACertificateRef | ErrInvalidCACertificateKind
| ErrMissingCaCertificateRefGrant
| ErrInvalidMatcher | ErrInvalidRoute | ErrInvalidXDS
| ErrConfigMapNotFound | ErrSecretNotFound | ErrParsingTLSConfig | ErrInvalidValidationSpec.
#[global] Instance sentinel_eq_dec : EqDecision sentinel.
Proof. solve_decision. Defined.

#[warnings="-register-all"]
Inductive error :=
| ESentinel (s : sentinel)
| EMsg (msg : string)
| EWrap (prefix : string) (e : error)
| EWrap2 (e1 : error) (middle : string) (e2 : error)
| EJoin (es : list error)
| EPolicy (ref : option AttachedPolicyRef) (e : error)
| ENotFound (o : ObjectSource)
| EUnsupportedRouteKind (b : ObjectSource) (rk : GroupKind) (supported : list GroupKind)
| EPortNotFound (o : ObjectSource) (port : Z)
| EPortNotAllowed (name : string)
| ECachedInvalid (msg : string)
| EInvalidKind (group kind : string)
| EInvalidCACertificateRef (ref : string) (cause : error).

(** [errors.Is(err, sentinel)]. *)
Fixpoint err_is (e : error) (s : sentinel) : bool :=
  match e with
  | ESentinel s' => bool_decide (s' = s)
  | EWrap _ e' => err_is e' s
  | EWrap2 e1 _ e2 => err_is e1 s || err_is e2 s
  | EJoin es => existsb (λ e', err_is e' s) es
  | EPolicy _ e' => err_is e' s
  | ECachedInvalid _ => bool_decide (s = ErrInvalidXDS)
  | _ => false
  end.

(** [errors.As(err, *PolicyError)]. *)
Fixpoint err_as_policy (e : error) : bool :=
  match e with
  | EPolicy _ _ => true
  | EWrap _ e' => err_as_policy e'
  | EWrap2 e1 _ e2 => err_as_policy e1 || err_as_policy e2
  | EJoin es => existsb err_as_policy es
  | _ => false
  end.

(** [errors.As(err, *NotFoundError)]: the first one in the tree. *)
Fixpoint err_as_not_found (e : error) : option ObjectSource :=
  match e with
  | ENotFound o => Some o
  | EWrap _ e' | EPolicy _ e' => err_as_not_found e'
  | EWrap2 e1 _ e2 => match err_as_not_found e1 with Some o => Some o | None => err_as_not_found e2 end
  | EJoin es => head (omap err_as_not_found es)
  | _ => None
  end.

(** [err.Error()]. *)
Definition sentinel_text (s : sentinel) : string :=
  match s with
  | ErrMissingReferenceGrant => "missing reference grant"
  | ErrUnknownBackendKind => "unknown backend kind"
  | ErrPolicyNotFound => "policy not found"
  | ErrNoMatchingListenerHostname => "no matching listener hostname"
  | ErrNoMatchingParent => "no matching parent"
  | ErrNotAllowedByListeners => "not allowed by listeners"
  | ErrCyclicReference => "cyclic reference detected while evaluating delegated routes"
  | ErrUnresolvedReference => "unresolved reference"
  | ErrInvalidTlsSecret => "invalid TLS secret"
  | ErrMissingCACertKey => "ca.crt key missing"
  | ErrVerifySubjectAltNamesRequiresCA =>
      "verify-subject-alt-names annotation requires a trusted CA to be configured"
  | ErrUnknownTLSExtensionOption => "unknown tls option"
  | ErrInvalidCACertificateRef => "InvalidCACertificateRef"
  | ErrInvalidCACertificateKind => "InvalidCACertificateKind"
  | ErrMissingCaCertificateRefGrant => "missing CA certificate reference grant"
  | ErrInvalidMatcher => "invalid matcher configuration"
  | ErrInvalidRoute => "invalid route configuration"
  | ErrInvalidXDS => "invalid xds configuration"
  | ErrConfigMapNotFound => "ConfigMap not found"
  | ErrSecretNotFound => "Secret not found"
  | ErrParsingTLSConfig => "TLS config parse error"
  | ErrInvalidValidationSpec => "invalid validation spec"
  end.

Definition newline : string := String (Ascii.ascii_of_nat 10) "".
Definition quote : string := String (Ascii.ascii_of_nat 34) "".

Fixpoint err_text (e : error) : string :=
  match e with
  | ESentinel s => sentinel_text s
  | EMsg m => m
  | EWrap prefix e' => prefix +:+ err_text e'
  | EWrap2 e1 middle e2 => err_text e1 +:+ middle +:+ err_text e2
  | EJoin es => join newline (map err_text es)
  | EPolicy None e' => err_text e'
  | EPolicy (Some r) e' => apr_id_section r +:+ ": " +:+ err_text e'
  | ENotFound o => os_kind o +:+ " " +:+ os_namespace o +:+ "/" +:+ os_name o +:+ " not found"
  | EUnsupportedRouteKind b rk supported =>
      os_kind b +:+ " " +:+ os_namespace b +:+ "/" +:+ os_name b +:+ " cannot be referenced from a " +:+
      gk_kind rk +:+ "; supported route kinds: " +:+ join ", " (map gk_kind supported)
  | EPortNotFound o port =>
      os_kind o +:+ " " +:+ os_namespace o +:+ "/" +:+ os_name o +:+ " found, but port " +:+ pretty port +:+
      " not defined"
  | EPortNotAllowed name =>
      "BackendRef to " +:+ quote +:+ name +:+ quote +:+ " includes a port. Do not specify a port when referencing a Backend resource, as it defines its own port configuration"
  | ECachedInvalid msg => msg
  | EInvalidKind group kind =>
      "unsupported certificate reference kind " +:+ quote +:+ kind +:+ quote +:+
      (if String.eqb group "" then "" else " in group " +:+ quote +:+ group +:+ quote)
  | EInvalidCACertificateRef ref cause => "invalid CA certificate ref " +:+ ref +:+ ": " +:+ err_text cause
  end.

(** [FlattenJoinedErr]: the leaves of nested joins. *)
Fixpoint FlattenJoinedErr (e : error) : list error :=
  match e with
  | EJoin es => flat_map FlattenJoinedErr es
  | _ => [e]
  end.

(** [WrapPolicyErrors]. *)
Definition WrapPolicyErrors (ref : option AttachedPolicyRef) (errs : list error) : list error :=
  flat_map (λ e, map (λ err, if err_as_policy err then err else EPolicy ref err)
                     (FlattenJoinedErr e)) errs.

(** ** Merge origins *)

Abbreviation MergeOrigins := (gmap string (gset string)).

Inductive MergeOriginsRefCount := RefCountNone | RefCountPartial | RefCountAll.

(** [MergeOrigins.SetOne]: a shallow merge replaces the field's origin. *)
Definition mo_set_one (m : MergeOrigins) (field : string) (ref : option AttachedPolicyRef)
    (origins : MergeOrigins) : MergeOrigins :=
  match ref with
  | Some r => <[field := {[apr_id r]}]> m
  | None => <[field := default ∅ (origins !! field)]> m
  end.

(** [MergeOrigins.Append]: a deep merge adds to the field's origins. *)
Definition mo_append (m : MergeOrigins) (field : string) (ref : option AttachedPolicyRef)
    (origins : MergeOrigins) : MergeOrigins :=
  let cur := default ∅ (m !! field) in
  match ref with
  | Some r => <[field := {[apr_id r]} ∪ cur]> m
  | None => <[field := cur ∪ default ∅ (origins !! field)]> m
  end.

(** [MergeOrigins.GetRefCount]. *)
Definition mo_ref_count (m : MergeOrigins) (ref : option AttachedPolicyRef) : MergeOriginsRefCount :=
  match ref with
  | None => RefCountNone
  | Some r =>
      if bool_decide (m = ∅) then RefCountNone else
      let n := size (filter (λ kv : string * gset string, apr_id r ∈ kv.2) m) in
      if (n =? 0)%nat then RefCountNone
      else if (n =? size m)%nat then RefCountAll else RefCountPartial
  end.

(** ** Attached policies *)

(** The four values of the inherited-policy-priority annotation. *)
Inductive InheritedPolicyPriorityValue :=
| ShallowMergePreferParent | ShallowMergePreferChild
| DeepMergePreferParent | DeepMergePreferChild | UnsetPriority.
#[global] Instance ipp_eq_dec : EqDecision InheritedPolicyPriorityValue.
Proof. solve_decision. Defined.

Record PolicyAtt (P : Type) := mkPA {
  pa_gk : GroupKind;
  pa_generation : Z;
  pa_ir : P;
  pa_ref : option AttachedPolicyRef;
  pa_inherited : InheritedPolicyPriorityValue;
  pa_errors : list error;
  pa_hierarchy : Z;
  pa_weight : Z;
  pa_origins : MergeOrigins }.
Arguments mkPA {P}. Arguments pa_gk {P}. Arguments pa_generation {P}. Arguments pa_ir {P}.
Arguments pa_ref {P}. Arguments pa_inherited {P}. Arguments pa_errors {P}.
Arguments pa_hierarchy {P}. Arguments pa_weight {P}. Arguments pa_origins {P}.

Abbreviation AttachedPolicies P := (gmap GroupKind (list (PolicyAtt P))).

(** [PolicyIR]: what the framework asks of a plugin's policy IR. *)
Class PolicyIrOps (P : Type) := { pi_creation_time : P → Z }.

Definition pa_set_hierarchy {P} (h : Z) (p : PolicyAtt P) : PolicyAtt P :=
  mkPA (pa_gk p) (pa_generation p) (pa_ir p) (pa_ref p) (pa_inherited p) (pa_errors p) h
       (pa_weight p) (pa_origins p).

Definition pa_set_inherited {P} (v : InheritedPolicyPriorityValue) (p : PolicyAtt P) : PolicyAtt P :=
  mkPA (pa_gk p) (pa_generation p) (pa_ir p) (pa_ref p) v (pa_errors p) (pa_hierarchy p)
       (pa_weight p) (pa_origins p).

(** [AttachedPolicies.Append]. *)
Definition ap_append_one {P} (a l : AttachedPolicies P) : AttachedPolicies P :=
  union_with (λ x y, Some (x ++ y)) a l.

Definition ap_append {P} (a : AttachedPolicies P) (ls : list (AttachedPolicies P)) :
    AttachedPolicies P := foldl ap_append_one a ls.

(** [AttachedPolicies.AppendWithPriority]: copies, stamps and appends. *)
Definition ap_append_with_priority {P} (h : Z) (a : AttachedPolicies P)
    (ls : list (AttachedPolicies P)) : AttachedPolicies P :=
  foldl (λ a l, ap_append_one a (map (pa_set_hierarchy h) <$> l)) a ls.

(** [AttachedPolicies.Prepend]: iterates [ls] backwards, each in front. *)
Definition ap_prepend_one {P} (h : Z) (a l : AttachedPolicies P) : AttachedPolicies P :=
  union_with (λ x y, Some (y ++ x)) a (map (pa_set_hierarchy h) <$> l).

Definition ap_prepend {P} (h : Z) (a : AttachedPolicies P) (ls : list (AttachedPolicies P)) :
    AttachedPolicies P := foldl (ap_prepend_one h) a (reverse ls).

(** The policies of one kind, in order. *)
Definition ap_get {P} (a : AttachedPolicies P) (gk : GroupKind) : list (PolicyAtt P) :=
  default [] (a !! gk).

(** [ComparePoliciesByCreationTimeAndRef]. *)
Definition ComparePoliciesByCreationTimeAndRef {P} `{PolicyIrOps P} (a b : PolicyAtt P) : comparison :=
  match (pi_creation_time (pa_ir a) ?= pi_creation_time (pa_ir b))%Z with
  | Eq => String.compare (PolicyRefString (pa_ref a)) (PolicyRefString (pa_ref b))
  | c => c
  end.

(** [WinnerPolicyIndexByCreationTimeAndRef]: the loop over the indices [1..],
    with the current winner and its index.  An empty slice yields index 0. *)
Fixpoint winner_loop {P} `{PolicyIrOps P} (i widx : nat) (w : PolicyAtt P)
    (rest : list (PolicyAtt P)) : nat :=
  match rest with
  | [] => widx
  | p :: rest' =>
      match ComparePoliciesByCreationTimeAndRef p w with
      | Lt => winner_loop (S i) i p rest'
      | _ => winner_loop (S i) widx w rest'
      end
  end.

Definition WinnerPolicyIndexByCreationTimeAndRef {P} `{PolicyIrOps P}
    (ps : list (PolicyAtt P)) : nat :=
  match ps with [] => 0 | p :: rest => winner_loop 1 0 p rest end.

(** ** Backends *)

Record TLSCertificate := mkCert { tls_ca : string; tls_key : string; tls_chain : string }.

(** wellknown/traffic_dist.go. *)
Inductive TrafficDistribution := TDAny | TDPreferSameZone | TDPreferSameNode | TDPreferNetwork.
#[global] Instance TrafficDistribution_eq_dec : EqDecision TrafficDistribution.
Proof. solve_decision. Defined.

Definition ParseTrafficDistribution (value : string) : TrafficDistribution :=
  let value := to_lower value in
  if String.eqb value "preferclose" || String.eqb value "prefersamezone" then TDPreferSameZone
  else if String.eqb value "prefersamenode" then TDPreferSameNode
  else if String.eqb value "prefernetwork" then TDPreferNetwork
  else TDAny.

Record BackendObjectIR (P : Type) := mkBackend {
  bo_source : ObjectSource;
  bo_port : Z;
  bo_port_name : string;
  bo_app_protocol : string;
  bo_canonical_hostname : string;
  bo_gv_prefix : string;
  bo_obj : option Object;
  bo_aliases : list ObjectSource;
  bo_extra_key : string;
  bo_requires_status : bool;
  bo_policies : AttachedPolicies P;
  bo_errors : list error;
  bo_traffic_distribution : TrafficDistribution;
  bo_disable_istio_mtls : bool;
  bo_resource_name : string;
  bo_cluster_name : string;
  bo_client_cert : option TLSCertificate;
  bo_supported_route_kinds : list GroupKind }.
Arguments mkBackend {P}. Arguments bo_source {P}. Arguments bo_port {P}.
Arguments bo_port_name {P}. Arguments bo_app_protocol {P}. Arguments bo_canonical_hostname {P}.
Arguments bo_errors {P}. Arguments bo_traffic_distribution {P}. Arguments bo_disable_istio_mtls {P}.
 Arguments bo_gv_prefix {P}. Arguments bo_obj {P}.
Arguments bo_aliases {P}. Arguments bo_extra_key {P}. Arguments bo_requires_status {P}.
Arguments bo_policies {P}. Arguments bo_resource_name {P}. Arguments bo_cluster_name {P}.
Arguments bo_client_cert {P}. Arguments bo_supported_route_kinds {P}.

(** [BackendResourceName]. *)
Definition BackendResourceName (o : ObjectSource) (port : Z) (extraKey : string) : string :=
  os_resource_name o +:+ ":" +:+ pretty port +:+
  (if String.eqb extraKey "" then "" else "_" +:+ extraKey).

(** [buildClusterName]. *)
Definition buildClusterName (gvPrefix kind namespace name extraKey : string) (port : Z) : string :=
  let gvPrefix := if String.eqb gvPrefix "" then to_lower kind else gvPrefix in
  gvPrefix +:+ "_" +:+ namespace +:+ "_" +:+ name +:+
  (if String.eqb extraKey "" then "" else "_" +:+ extraKey) +:+ "_" +:+ pretty port.

(** [NewBackendObjectIR]. *)
Definition NewBackendObjectIR {P} (o : ObjectSource) (port : Z) (extraKey gvPrefix : string) :
    BackendObjectIR P :=
  let gvPrefix := if String.eqb gvPrefix "" then to_lower (os_kind o) else gvPrefix in
  mkBackend o port "" "" "" gvPrefix None [] extraKey false ∅ [] TDAny false
    (BackendResourceName o port extraKey)
    (buildClusterName gvPrefix (os_kind o) (os_namespace o) (os_name o) extraKey port)
    None [].

(** [BackendObjectIR.SupportsRouteKind]. *)
Definition SupportsRouteKind {P} (b : BackendObjectIR P) (gk : GroupKind) : bool :=
  match bo_supported_route_kinds b with
  | [] => true
  | ks => bool_decide (gk ∈ ks)
  end.

(** [gatewayBackendClientCertificateExtraKey]. *)
Definition gatewayBackendClientCertificateExtraKey (base : string) (gw : ObjectSource) : string :=
  let suffix := "gw_backend_client_cert_" +:+ os_namespace gw +:+ "_" +:+ os_name gw in
  if String.eqb base "" then suffix else base +:+ "_" +:+ suffix.

(** [CloneForGatewayBackendClientCertificate]. *)
Definition CloneForGatewayBackendClientCertificate {P} (c : BackendObjectIR P) (gw : ObjectSource)
    (cert : option TLSCertificate) : BackendObjectIR P :=
  let ek := gatewayBackendClientCertificateExtraKey (bo_extra_key c) gw in
  let o := bo_source c in
  mkBackend o (bo_port c) (bo_port_name c) (bo_app_protocol c) (bo_canonical_hostname c) (bo_gv_prefix c) (bo_obj c) (bo_aliases c) ek
    (bo_requires_status c) (bo_policies c) (bo_errors c) (bo_traffic_distribution c)
    (bo_disable_istio_mtls c)
    (BackendResourceName o (bo_port c) ek)
    (buildClusterName (bo_gv_prefix c) (os_kind o) (os_namespace o) (os_name o) ek (bo_port c))
    cert (bo_supported_route_kinds c).

Record BackendRefIR (P : Type) := mkBackendRef {
  br_cluster : string;
  br_weight : Z;
  br_object : option (BackendObjectIR P);
  br_err : option error }.
Arguments mkBackendRef {P}. Arguments br_cluster {P}. Arguments br_weight {P}.
Arguments br_object {P}. Arguments br_err {P}.

(** ** HTTP routes *)

Inductive PathMatchType := PathPrefix | PathExact | PathRegex | PathOther (s : string).
#[global] Instance PathMatchType_eq_dec : EqDecision PathMatchType.
Proof. solve_decision. Defined.

Record HTTPPathMatch := mkPath { path_type : option PathMatchType; path_value : option string }.
#[global] Instance HTTPPathMatch_eq_dec : EqDecision HTTPPathMatch.
Proof. solve_decision. Defined.

(** Header and query-parameter matches have the same three fields. *)
Record NamedMatch := mkNM { nm_type : option string; nm_name : string; nm_value : string }.
#[global] Instance NamedMatch_eq_dec : EqDecision NamedMatch.
Proof. solve_decision. Defined.

Record HTTPRouteMatch := mkMatch {
  m_path : option HTTPPathMatch;
  m_headers : list NamedMatch;
  m_query : list NamedMatch;
  m_method : option string }.
#[global] Instance HTTPRouteMatch_eq_dec : EqDecision HTTPRouteMatch.
Proof. solve_decision. Defined.

Record ParentReference := mkPR {
  pr_group : option string; pr_kind : option string; pr_namespace : option string;
  pr_name : string; pr_section : option string; pr_port : option Z }.
#[global] Instance ParentReference_eq_dec : EqDecision ParentReference.
Proof. solve_decision. Defined.

Record HttpBackendOrDelegate (P : Type) := mkBOD {
  bd_policies : AttachedPolicies P;
  bd_backend : option (BackendRefIR P);
  bd_delegate : option ObjectSource }.
Arguments mkBOD {P}. Arguments bd_policies {P}. Arguments bd_backend {P}. Arguments bd_delegate {P}.

Record HttpRouteRuleIR (P : Type) := mkRule {
  rr_extension_refs : AttachedPolicies P;
  rr_policies : AttachedPolicies P;
  rr_backends : list (HttpBackendOrDelegate P);
  rr_matches : list HTTPRouteMatch;
  rr_name : string;
  rr_err : option error }.
Arguments mkRule {P}. Arguments rr_extension_refs {P}. Arguments rr_policies {P}.
Arguments rr_backends {P}. Arguments rr_matches {P}. Arguments rr_name {P}. Arguments rr_err {P}.

Record HttpRouteIR (P : Type) := mkHttpRoute {
  hr_source : ObjectSource;
  hr_object : Object;
  hr_parent_refs : list ParentReference;
  hr_hostnames : list string;
  hr_policies : AttachedPolicies P;
  hr_rules : list (HttpRouteRuleIR P);
  hr_weight : Z;
  hr_inherit_matcher : bool }.
Arguments mkHttpRoute {P}. Arguments hr_source {P}. Arguments hr_object {P}.
Arguments hr_parent_refs {P}. Arguments hr_hostnames {P}. Arguments hr_policies {P}.
Arguments hr_rules {P}. Arguments hr_weight {P}. Arguments hr_inherit_matcher {P}.

Definition hr_nn {P} (r : HttpRouteIR P) : NamespacedName := os_nn (hr_source r).

(** [HttpRouteRuleMatchIR]: one match of one rule, flattened.  The delegating
    parent is a pointer chain in the source, an inductive chain here. *)
#[warnings="-register-all"]
Inductive HttpRouteRuleMatchIR (P : Type) := mkRuleMatch {
  rm_extension_refs : AttachedPolicies P;
  rm_policies : AttachedPolicies P;
  rm_parent : HttpRouteIR P;
  rm_delegating_parent : option (HttpRouteRuleMatchIR P);
  rm_delegates : bool;
  rm_listener_parent_ref : ParentReference;
  rm_parent_ref : ParentReference;
  rm_backends : list (BackendRefIR P * AttachedPolicies P);
  rm_match : HTTPRouteMatch;
  rm_match_index : nat;
  rm_name : string;
  rm_rule_index : nat;
  rm_rule_name : string;
  rm_weight : Z;
  rm_replacement_error : option error;
  rm_acceptance_error : option error }.
Arguments mkRuleMatch {P}. Arguments rm_extension_refs {P}. Arguments rm_policies {P}.
Arguments rm_parent {P}. Arguments rm_delegating_parent {P}. Arguments rm_delegates {P}.
Arguments rm_listener_parent_ref {P}. Arguments rm_parent_ref {P}. Arguments rm_backends {P}.
Arguments rm_match {P}. Arguments rm_match_index {P}. Arguments rm_name {P}.
Arguments rm_rule_index {P}. Arguments rm_rule_name {P}. Arguments rm_weight {P}.
Arguments rm_replacement_error {P}. Arguments rm_acceptance_error {P}.

(** ** Lemmas: names *)

Lemma no_char_app a (x y : string) : no_char a (x +:+ y) = no_char a x && no_char a y.
Proof.
  induction x as [|b x IH]; [done|]. rewrite str_app_cons. simpl. by rewrite IH, andb_assoc.
Qed.

(** Decimal numbers contain no underscore, slash or colon. *)
Definition name_sep (a : Ascii.ascii) : bool :=
  Ascii.eqb a "_"%char || Ascii.eqb a "/"%char || Ascii.eqb a ":"%char.

Lemma pretty_N_char_sep a x : name_sep a = true → Ascii.eqb a (pretty_N_char x) = false.
Proof.
  unfold name_sep. intros H. apply orb_true_iff in H as [H|H]; [apply orb_true_iff in H as [H|H]|];
    apply Ascii.eqb_eq in H as ->; unfold pretty_N_char; by repeat case_match.
Qed.

Lemma pretty_N_go_sep a x s :
  name_sep a = true → no_char a s = true → no_char a (pretty_N_go x s) = true.
Proof.
  intros Ha. revert s. induction (N.lt_wf_0 x) as [x _ IH]; intros s Hs.
  assert (x = 0 ∨ 0 < x)%N as [->|Hx] by lia; [by rewrite pretty_N_go_0|].
  rewrite pretty_N_go_step by done. apply IH; [by apply N.div_lt|].
  simpl. by rewrite pretty_N_char_sep, Hs.
Qed.

Lemma pretty_N_sep a (n : N) : name_sep a = true → no_char a (pretty n) = true.
Proof.
  intros Ha. unfold pretty, pretty_N. case_decide; [|by apply pretty_N_go_sep].
  unfold name_sep in Ha. simpl.
  apply orb_true_iff in Ha as [Ha|Ha]; [apply orb_true_iff in Ha as [Ha|Ha]|];
    by apply Ascii.eqb_eq in Ha as ->.
Qed.

Lemma pretty_Z_sep a (z : Z) : name_sep a = true → no_char a (pretty z) = true.
Proof.
  intros Ha. destruct z as [|p|p]; unfold pretty, pretty_Z.
  - apply (pretty_N_sep a 0%N Ha).
  - by apply pretty_N_sep.
  - rewrite no_char_app, andb_true_iff. split; [|by apply pretty_N_sep].
    unfold name_sep in Ha. simpl.
    apply orb_true_iff in Ha as [Ha|Ha]; [apply orb_true_iff in Ha as [Ha|Ha]|];
      by apply Ascii.eqb_eq in Ha as ->.
Qed.

(** The part after the last separator determines the split. *)
Lemma sep_app_inj_last a (x y r1 r2 : string) :
  no_char a r1 = true → no_char a r2 = true →
  x +:+ String a r1 = y +:+ String a r2 → x = y ∧ r1 = r2.
Proof.
  intros H1 H2. revert y. induction x as [|b x IH]; intros [|d y] He;
    rewrite ?str_app_cons, ?str_app_nil_l in He; simplify_eq.
  - done.
  - rewrite no_char_app in H1. simpl in H1. rewrite Ascii.eqb_refl in H1.
    by rewrite andb_comm in H1.
  - rewrite no_char_app in H2. simpl in H2. rewrite Ascii.eqb_refl in H2.
    by rewrite andb_comm in H2.
  - edestruct IH as [-> ->]; eauto.
Qed.

Lemma str_eqb_empty_false s : s ≠ "" → String.eqb s "" = false.
Proof. by rewrite String.eqb_neq. Qed.

Lemma buildClusterName_tail (p ns n e1 e2 : string) (q1 q2 : Z) :
  p +:+ "_" +:+ ns +:+ "_" +:+ n +:+ e1 +:+ "_" +:+ pretty q1 =
  p +:+ "_" +:+ ns +:+ "_" +:+ n +:+ e2 +:+ "_" +:+ pretty q2 → e1 = e2 ∧ q1 = q2.
Proof.
  intros H. do 5 (apply (inj (String.append _)) in H).
  apply (sep_app_inj_last "_"%char) in H as [-> H]; [|by apply pretty_Z_sep..].
  split; [done|]. by apply (inj pretty) in H.
Qed.

Definition extra_part (e : string) : string := if String.eqb e "" then "" else "_" +:+ e.

Lemma extra_part_inj e1 e2 : extra_part e1 = extra_part e2 → e1 = e2.
Proof.
  unfold extra_part. destruct (String.eqb_spec e1 ""), (String.eqb_spec e2 ""); intros H;
    by simplify_eq/=.
Qed.

Lemma buildClusterName_unfold p k ns n e q :
  p ≠ "" →
  buildClusterName p k ns n e q =
  p +:+ "_" +:+ ns +:+ "_" +:+ n +:+ extra_part e +:+ "_" +:+ pretty q.
Proof. intros Hp. unfold buildClusterName. by rewrite str_eqb_empty_false. Qed.

(** Envoy cluster names identify backends: for a non-empty prefix, a namespace
    and a name without underscores, [buildClusterName] is injective in prefix,
    namespace, name, extra key and port. *)
Theorem buildClusterName_inj p1 k1 ns1 n1 e1 q1 p2 k2 ns2 n2 e2 q2 :
  p1 ≠ "" → p2 ≠ "" →
  Forall (λ s, no_char "_"%char s = true) [p1; ns1; n1; p2; ns2; n2] →
  buildClusterName p1 k1 ns1 n1 e1 q1 = buildClusterName p2 k2 ns2 n2 e2 q2 →
  p1 = p2 ∧ ns1 = ns2 ∧ n1 = n2 ∧ e1 = e2 ∧ q1 = q2.
Proof.
  intros Hp1 Hp2 HF. rewrite !Forall_cons in HF. destruct HF as (?&?&?&?&?&?&_).
  rewrite !buildClusterName_unfold by done. intros He.
  apply (sep_app_inj "_"%char) in He as [-> He]; [|done..].
  apply (sep_app_inj "_"%char) in He as [-> He]; [|done..].
  assert (n1 = n2 ∧ extra_part e1 +:+ "_" +:+ pretty q1 = extra_part e2 +:+ "_" +:+ pretty q2)
    as [-> He'].
  { unfold extra_part in *. destruct (String.eqb e1 ""), (String.eqb e2 "").
    all: rewrite ?str_app_nil_l, <- ?str_app_assoc in He |- *.
    all: edestruct (sep_app_inj "_"%char n1 n2) as [-> Hr]; [done|done|exact He|].
    all: split; [done|]. all: exact (f_equal (String "_"%char) Hr). }
  apply (sep_app_inj_last "_"%char) in He' as [Hx Hq]; [|by apply pretty_Z_sep..].
  apply extra_part_inj in Hx as ->. by apply (inj pretty) in Hq as ->.
Qed.

Lemma buildClusterName_inj_witness :
  buildClusterName "kube" "Service" "ns" "svc" "" 80 =
  buildClusterName "kube" "Service" "ns" "svc" "" 80 ∧ "svc" = "svc".
Proof.
  split; [reflexivity|].
  apply (buildClusterName_inj "kube" "Service" "ns" "svc" "" 80 "kube" "Service" "ns" "svc" "" 80);
    [done|done|by repeat constructor|reflexivity].
Defined.

Lemma extra_key_gateway_inj base gw1 gw2 :
  no_char "_"%char (os_namespace gw1) = true → no_char "_"%char (os_namespace gw2) = true →
  gatewayBackendClientCertificateExtraKey base gw1 =
  gatewayBackendClientCertificateExtraKey base gw2 → os_nn gw1 = os_nn gw2.
Proof.
  intros H1 H2. unfold gatewayBackendClientCertificateExtraKey, os_nn.
  destruct (String.eqb base ""); intros H.
  - apply (inj (String.append "gw_backend_client_cert_")) in H.
    apply (sep_app_inj "_"%char) in H as [-> ->]; done.
  - do 2 apply (inj (String.append _)) in H.
    apply (inj (String.append "gw_backend_client_cert_")) in H.
    apply (sep_app_inj "_"%char) in H as [-> ->]; done.
Qed.

Lemma extra_key_ne_base base gw : gatewayBackendClientCertificateExtraKey base gw ≠ base.
Proof.
  unfold gatewayBackendClientCertificateExtraKey. intros H.
  apply (f_equal String.length) in H. destruct (String.eqb_spec base "") as [->|].
  - done.
  - rewrite !str_length_app in H. simpl in H. lia.
Qed.

Lemma backendResourceName_extra_inj o q e1 e2 :
  BackendResourceName o q e1 = BackendResourceName o q e2 → e1 = e2.
Proof.
  unfold BackendResourceName. intros H. do 3 apply (inj (String.append _)) in H.
  by apply extra_part_inj.
Qed.

Lemma clusterName_extra_inj p k ns n q e1 e2 :
  buildClusterName p k ns n e1 q = buildClusterName p k ns n e2 q → e1 = e2.
Proof.
  unfold buildClusterName. intros H. apply buildClusterName_tail in H as [H _].
  by apply extra_part_inj.
Qed.

(** Gateway-scoped backend clones are isolated: the clones of one backend for two
    different Gateways have different resource names and different cluster
    names, so a client certificate cannot leak from one Gateway's cluster to
    another's. *)
Theorem gateway_clone_isolated {P} (b : BackendObjectIR P) gw1 gw2 c1 c2 :
  no_char "_"%char (os_namespace gw1) = true → no_char "_"%char (os_namespace gw2) = true →
  os_nn gw1 ≠ os_nn gw2 →
  let b1 := CloneForGatewayBackendClientCertificate b gw1 c1 in
  let b2 := CloneForGatewayBackendClientCertificate b gw2 c2 in
  bo_cluster_name b1 ≠ bo_cluster_name b2 ∧ bo_resource_name b1 ≠ bo_resource_name b2.
Proof.
  intros H1 H2 Hne b1 b2. split; intros He; apply Hne, (extra_key_gateway_inj (bo_extra_key b)); try done.
  - by apply clusterName_extra_inj in He.
  - by apply backendResourceName_extra_inj in He.
Qed.

Lemma gateway_clone_isolated_witness :
  let b : BackendObjectIR unit := NewBackendObjectIR (mkOS "" "Service" "d" "svc") 80 "" "kube" in
  bo_cluster_name (CloneForGatewayBackendClientCertificate b (mkOS "g" "Gateway" "a" "gw") None) ≠
  bo_cluster_name (CloneForGatewayBackendClientCertificate b (mkOS "g" "Gateway" "b" "gw") None).
Proof.
  intros b. apply (gateway_clone_isolated b (mkOS "g" "Gateway" "a" "gw") (mkOS "g" "Gateway" "b" "gw") None None);
    [reflexivity|reflexivity|intros [=]].
Defined.

(** ** Lemmas: attached policies *)

Lemma ap_get_append_one {P} (a l : AttachedPolicies P) gk :
  ap_get (ap_append_one a l) gk = ap_get a gk ++ ap_get l gk.
Proof.
  unfold ap_get, ap_append_one. rewrite lookup_union_with.
  destruct (a !! gk), (l !! gk); simpl; by rewrite ?app_nil_r.
Qed.

Lemma ap_get_fmap {P} (f : PolicyAtt P → PolicyAtt P) (l : AttachedPolicies P) gk :
  ap_get (map f <$> l) gk = map f (ap_get l gk).
Proof. unfold ap_get. rewrite lookup_fmap. by destruct (l !! gk). Qed.

Lemma ap_get_prepend_one {P} h (a l : AttachedPolicies P) gk :
  ap_get (ap_prepend_one h a l) gk = map (pa_set_hierarchy h) (ap_get l gk) ++ ap_get a gk.
Proof.
  unfold ap_prepend_one. rewrite <- ap_get_fmap. unfold ap_get.
  rewrite lookup_union_with. destruct (a !! gk), ((map _ <$> l) !! gk); simpl; by rewrite ?app_nil_r.
Qed.

(** [Append] concatenates, per kind, in the order of its arguments. *)
Theorem ap_append_get {P} (a : AttachedPolicies P) ls gk :
  ap_get (ap_append a ls) gk = ap_get a gk ++ flat_map (λ l, ap_get l gk) ls.
Proof.
  unfold ap_append. revert a. induction ls as [|l ls IH]; intros a; simpl.
  - by rewrite app_nil_r.
  - by rewrite IH, ap_get_append_one, <- app_assoc.
Qed.

Lemma ap_append_with_priority_get {P} h (a : AttachedPolicies P) ls gk :
  ap_get (ap_append_with_priority h a ls) gk =
  ap_get a gk ++ flat_map (λ l, map (pa_set_hierarchy h) (ap_get l gk)) ls.
Proof.
  unfold ap_append_with_priority. revert a. induction ls as [|l ls IH]; intros a; simpl.
  - by rewrite app_nil_r.
  - by rewrite IH, ap_get_append_one, ap_get_fmap, <- app_assoc.
Qed.

(** [Prepend] puts the given policies in front, stamped with the hierarchical
    priority and in the order given (although it iterates backwards); what was
    already attached keeps its order and its priority. *)
Theorem ap_prepend_get {P} h (a : AttachedPolicies P) ls gk :
  ap_get (ap_prepend h a ls) gk =
  flat_map (λ l, map (pa_set_hierarchy h) (ap_get l gk)) ls ++ ap_get a gk.
Proof.
  unfold ap_prepend. induction ls as [|l ls IH] in a |- *; [done|].
  rewrite reverse_cons, foldl_app. simpl. rewrite ap_get_prepend_one, IH.
  by rewrite <- app_assoc.
Qed.

(** ** Lemmas: the winning policy *)

Section winner.
Context {P : Type} `{PolicyIrOps P}.

#[global] Instance compare_policies_wo :
  WeakOrder (ComparePoliciesByCreationTimeAndRef (P := P)).
Proof.
  exact (then_cmp_wo (cmp_on (λ p : PolicyAtt P, pi_creation_time (pa_ir p)) Z.compare)
                     (cmp_on (λ p : PolicyAtt P, PolicyRefString (pa_ref p)) String.compare) _ _).
Qed.

Lemma winner_loop_spec (ps pre : list (PolicyAtt P)) rest w widx :
  ps = pre ++ rest → ps !! widx = Some w →
  (∀ j q, pre !! j = Some q → cmp_le ComparePoliciesByCreationTimeAndRef w q) →
  ∃ wf, ps !! winner_loop (length pre) widx w rest = Some wf ∧
        ∀ q, q ∈ ps → cmp_le ComparePoliciesByCreationTimeAndRef wf q.
Proof.
  revert pre w widx. induction rest as [|p rest IH]; intros pre w widx Hps Hw Hall; simpl.
  - exists w. split; [done|]. intros q [j Hj]%list_elem_of_lookup.
    rewrite Hps, app_nil_r in Hj. eauto.
  - assert (ps = (pre ++ [p]) ++ rest) as Hps' by (by rewrite <- app_assoc).
    assert (ps !! length pre = Some p) as Hp by (rewrite Hps; by rewrite list_lookup_middle).
    specialize (IH (pre ++ [p])). rewrite length_app in IH. simpl in IH.
    rewrite Nat.add_1_r in IH.
    destruct (ComparePoliciesByCreationTimeAndRef p w) eqn:E.
    + apply IH; [done..|]. intros j q [Hj|[? Hj]]%lookup_app_Some; [eauto|].
      apply list_lookup_singleton_Some in Hj as [_ <-]. unfold cmp_le.
      by rewrite (wo_eq_sym ComparePoliciesByCreationTimeAndRef p w).
    + apply IH; [done..|]. intros j q [Hj|[? Hj]]%lookup_app_Some.
      * specialize (Hall j q Hj). unfold cmp_le in *.
        by rewrite (wo_lt_le_trans ComparePoliciesByCreationTimeAndRef p w q).
      * apply list_lookup_singleton_Some in Hj as [_ <-]. unfold cmp_le.
        by rewrite (wo_refl ComparePoliciesByCreationTimeAndRef).
    + apply IH; [done..|]. intros j q [Hj|[? Hj]]%lookup_app_Some; [eauto|].
      apply list_lookup_singleton_Some in Hj as [_ <-]. unfold cmp_le.
      apply (wo_lt_gt ComparePoliciesByCreationTimeAndRef) in E. by rewrite E.
Qed.

End winner.

(** The winning-policy index is in range for a non-empty slice, and the policy
    there precedes or ties with every other one in the Gateway API conflict
    order (oldest first, then reference string). *)
Theorem winner_policy_is_least {P} `{PolicyIrOps P} (ps : list (PolicyAtt P)) :
  ps ≠ [] →
  ∃ w, ps !! WinnerPolicyIndexByCreationTimeAndRef ps = Some w ∧
       ∀ q, q ∈ ps → cmp_le ComparePoliciesByCreationTimeAndRef w q.
Proof.
  destruct ps as [|p rest]; [done|]. intros _.
  apply (winner_loop_spec (p :: rest) [p] rest p 0); [done|done|].
  intros j q Hj. apply list_lookup_singleton_Some in Hj as [_ <-]. unfold cmp_le.
  by rewrite (wo_refl ComparePoliciesByCreationTimeAndRef).
Qed.

(** ** Lemmas: policy errors *)

Lemma flatten_leaf e x : x ∈ FlattenJoinedErr e → FlattenJoinedErr x = [x].
Proof.
  revert e. fix IH 1. intros [s|m|p e|e1 m e2|es|r e|o|b rk sup|o q|n|n|g k|r c] Hx; simpl in Hx;
    try (clear IH; apply list_elem_of_singleton in Hx as ->; reflexivity).
  induction es as [|e es IHes]; simpl in Hx; [by apply not_elem_of_nil in Hx|].
  apply elem_of_app in Hx as [Hx|Hx]; [exact (IH e Hx)|exact (IHes Hx)].
Qed.

Lemma wrap_elem ref errs x :
  x ∈ WrapPolicyErrors ref errs → err_as_policy x = true ∧ FlattenJoinedErr x = [x].
Proof.
  unfold WrapPolicyErrors. intros Hx%list_elem_of_In. apply in_flat_map in Hx as (e & _ & Hx).
  apply in_map_iff in Hx as (y & <- & Hy%list_elem_of_In). apply flatten_leaf in Hy.
  destruct (err_as_policy y) eqn:E; done.
Qed.

Lemma wrap_wrap ref1 ref2 errs :
  WrapPolicyErrors ref2 (WrapPolicyErrors ref1 errs) = WrapPolicyErrors ref1 errs.
Proof.
  assert (∀ l, (∀ x, x ∈ l → x ∈ WrapPolicyErrors ref1 errs) → WrapPolicyErrors ref2 l = l)
    as Hl; [|by apply Hl].
  intros l. induction l as [|x l IH]; intros Hin; [done|].
  destruct (wrap_elem ref1 errs x) as [Hp Hf]; [apply Hin; by left|].
  unfold WrapPolicyErrors in *. simpl. rewrite Hf. simpl. rewrite Hp. simpl. f_equal.
  apply IH. intros y Hy. apply Hin. by right.
Qed.

Lemma WrapPolicyErrors_app ref e1 e2 :
  WrapPolicyErrors ref (e1 ++ e2) = WrapPolicyErrors ref e1 ++ WrapPolicyErrors ref e2.
Proof. apply flat_map_app. Qed.

(** Attribution of policy errors is stable: every error [WrapPolicyErrors] returns
    is a [PolicyError], and wrapping again (as the cross-hierarchy merge does)
    changes nothing, so the first source policy stays the reported one. *)
Theorem wrap_policy_errors_stable ref1 ref2 errs :
  Forall (λ e, err_as_policy e = true) (WrapPolicyErrors ref1 errs) ∧
  WrapPolicyErrors ref2 (WrapPolicyErrors ref1 errs) = WrapPolicyErrors ref1 errs.
Proof.
  split; [|apply wrap_wrap].
  apply Forall_forall. intros x Hx. by apply wrap_elem in Hx as [? _].
Qed.

Lemma winner_policy_is_least_witness :
  let _ := {| pi_creation_time := λ z : Z, z |} in
  let mk t := mkPA (mkGK "g" "K") 0 t None UnsetPriority [] 0 0 ∅ in
  ∃ w, [mk 5%Z; mk 3%Z; mk 4%Z] !! 1 = Some w ∧ pa_ir w = 3%Z.
Proof.
  intros ops mk. destruct (winner_policy_is_least [mk 5%Z; mk 3%Z; mk 4%Z]) as (w & Hw & _);
    [discriminate|].
  exists w. split; [exact Hw|]. vm_compute in Hw. by injection Hw as <-.
Defined.
