(* ===== verification/SortableRoute.v ===== *)
(** * Route precedence (pkg/kgateway/translator/routeutils/sortable_route.go)

    The comparator that orders the flattened routes of a virtual host.  The
    code is a cascade of early returns over two routes; [route_order] is the
    lexicographic order of the Gateway API specification it implements. *)

From S2P Require Import Prelude IR.

Section sortable.
Context {P : Type}.

Record SortableRoute := mkSR {
  sr_route : HttpRouteRuleMatchIR P;
  sr_object : Object;
  sr_idx : nat }.

(** [ParsePath]: a missing match is the prefix match on "/". *)
Definition ParsePath (p : option HTTPPathMatch) : PathMatchType * string :=
  (default PathPrefix (p ≫= path_type), default "/" (p ≫= path_value)).

(** [lessPath]: [None] is the nil pointer, "undecided". *)
Definition lessPath (a b : option HTTPPathMatch) : option bool :=
  let '(atype, avalue) := ParsePath a in
  let '(btype, bvalue) := ParsePath b in
  let by_length :=
    if (String.length avalue =? String.length bvalue)%nat then None
    else Some (String.length avalue <? String.length bvalue)%nat in
  match atype with
  | PathPrefix =>
      match btype with
      | PathPrefix => by_length
      | PathExact | PathRegex => Some true
      | PathOther _ => None
      end
  | PathExact =>
      match btype with
      | PathExact => by_length
      | PathRegex | PathPrefix => Some false
      | PathOther _ => None
      end
  | PathRegex =>
      match btype with
      | PathPrefix => Some false
      | PathExact => Some true
      | PathRegex => None
      | PathOther _ => None
      end
  | PathOther _ => None
  end.

(** One round of object comparison: [None] when name and time agree. *)
Definition less_objects (a b : Object) : option bool :=
  if negb (obj_creation a =? obj_creation b)%Z then Some (obj_creation b <? obj_creation a)%Z
  else if negb (String.eqb (obj_name a) (obj_name b)) ||
          negb (String.eqb (obj_namespace a) (obj_namespace b))
  then Some (str_ltb (nn_string (obj_nn b)) (nn_string (obj_nn a)))
  else None.

(** The object compared in the second round: for a delegated route, the source
    object of the route it was translated from. *)
Definition second_source (s : SortableRoute) : Object :=
  match rm_delegating_parent (sr_route s) with
  | Some _ => hr_object (rm_parent (sr_route s))
  | None => sr_object s
  end.

(** [routeWrapperLessFunc]: whether [a] has lower priority than [b]. *)
Definition routeWrapperLessFunc (a b : SortableRoute) : bool :=
  let ma := rm_match (sr_route a) in
  let mb := rm_match (sr_route b) in
  match lessPath (m_path ma) (m_path mb) with
  | Some r => r
  | None =>
      if negb (Bool.eqb (bool_decide (m_method ma = None)) (bool_decide (m_method mb = None)))
      then negb (bool_decide (m_method mb = None)) else
      if negb (length (m_headers ma) =? length (m_headers mb))%nat
      then (length (m_headers ma) <? length (m_headers mb))%nat else
      if negb (length (m_query ma) =? length (m_query mb))%nat
      then (length (m_query ma) <? length (m_query mb))%nat else
      match less_objects (sr_object a) (sr_object b) with
      | Some r => r
      | None =>
          match less_objects (second_source a) (second_source b) with
          | Some r => r
          | None => (sr_idx b <? sr_idx a)%nat
          end
      end
  end.

(** [SortableRoute.CompareTo]. *)
Definition CompareTo (a b : SortableRoute) : comparison :=
  let wa := rm_weight (sr_route a) in
  let wb := rm_weight (sr_route b) in
  if negb (wa =? wb)%Z then if (wb <? wa)%Z then Lt else Gt
  else if routeWrapperLessFunc a b then Gt
  else if routeWrapperLessFunc b a then Lt
  else Eq.

(** [ToSortable] and [ToRoutes]. *)
Definition ToSortable (obj : Object) (routes : list (HttpRouteRuleMatchIR P)) : list SortableRoute :=
  imap (λ i r, mkSR r obj i) routes.

Definition ToRoutes (l : list SortableRoute) : list (HttpRouteRuleMatchIR P) := map sr_route l.

(** ** The specification: a lexicographic order on keys *)

Definition path_of (s : SortableRoute) : PathMatchType * string :=
  ParsePath (m_path (rm_match (sr_route s))).

(** Exact before regular expression before prefix. *)
Definition path_rank (s : SortableRoute) : nat :=
  match fst (path_of s) with PathExact => 0 | PathRegex => 1 | PathPrefix => 2 | PathOther _ => 3 end.

(** Longer paths first; regular expressions are not ranked by length. *)
Definition path_len (s : SortableRoute) : nat :=
  match fst (path_of s) with PathRegex => 0 | _ => String.length (snd (path_of s)) end.

Definition method_rank (s : SortableRoute) : nat :=
  if bool_decide (m_method (rm_match (sr_route s)) = None) then 1 else 0.

Definition object_order (f : SortableRoute → Object) : SortableRoute → SortableRoute → comparison :=
  (cmp_on (λ s, obj_creation (f s)) Z.compare ▷
   cmp_on (λ s, nn_string (obj_nn (f s))) String.compare)%cmp.

Definition match_order : SortableRoute → SortableRoute → comparison :=
  (cmp_on path_rank Nat.compare ▷
   cmp_desc (cmp_on path_len Nat.compare) ▷
   cmp_on method_rank Nat.compare ▷
   cmp_desc (cmp_on (λ s, length (m_headers (rm_match (sr_route s)))) Nat.compare) ▷
   cmp_desc (cmp_on (λ s, length (m_query (rm_match (sr_route s)))) Nat.compare))%cmp.

Definition route_order : SortableRoute → SortableRoute → comparison :=
  (cmp_desc (cmp_on (λ s, rm_weight (sr_route s)) Z.compare) ▷
   match_order ▷
   object_order sr_object ▷
   object_order second_source ▷
   cmp_on sr_idx Nat.compare)%cmp.

(** What the API server guarantees of a route: a known path type, and no slash
    in the namespaces of the objects compared. *)
Definition wf_route (s : SortableRoute) : bool :=
  match fst (path_of s) with PathOther _ => false | _ => true end &&
  no_char "/"%char (obj_namespace (sr_object s)) &&
  no_char "/"%char (obj_namespace (second_source s)).

(** ** Proofs *)

#[global] Instance route_order_wo : WeakOrder route_order.
Proof. unfold route_order, match_order, object_order. apply _. Qed.

(** A "less" verdict against a comparator with the larger element first. *)
Definition less_of (c : comparison) : option bool :=
  match c with Eq => None | Gt => Some true | Lt => Some false end.

Lemma nat_desc_less (m n : nat) :
  (if (m =? n)%nat then None else Some (m <? n)%nat) = less_of (n ?= m)%nat.
Proof.
  destruct (Nat.compare_spec n m) as [->|H|H]; simpl.
  - by rewrite Nat.eqb_refl.
  - destruct (Nat.eqb_spec m n); [lia|]. destruct (Nat.ltb_spec m n); [lia|done].
  - destruct (Nat.eqb_spec m n); [lia|]. destruct (Nat.ltb_spec m n); [done|lia].
Qed.

Lemma less_of_then c1 c2 :
  match less_of c1 with Some b => b | None => default false (less_of c2) end =
  default false (less_of (match c1 with Eq => c2 | Lt => Lt | Gt => Gt end)).
Proof. by destruct c1. Qed.

(** Early returns nest to the right. *)
Lemma cmp_match_assoc (c d e : comparison) :
  match (match c with Eq => d | Lt => Lt | Gt => Gt end) with Eq => e | Lt => Lt | Gt => Gt end =
  match c with
  | Eq => match d with Eq => e | Lt => Lt | Gt => Gt end | Lt => Lt | Gt => Gt
  end.
Proof. by destruct c. Qed.

Lemma less_of_nat_then (m n : nat) (r : bool) c :
  r = default false (less_of c) →
  (if negb (m =? n)%nat then (m <? n)%nat else r) =
  default false (less_of (match (n ?= m)%nat with Eq => c | d => d end)).
Proof.
  intros ->. pose proof (nat_desc_less m n) as H.
  destruct (m =? n)%nat, (n ?= m)%nat; simpl in *; congruence.
Qed.

Lemma nat_asc_less (m n : nat) : (n <? m)%nat = default false (less_of (m ?= n)%nat).
Proof.
  destruct (Nat.compare_spec m n) as [->|H|H]; simpl; [apply Nat.ltb_irrefl|..].
  - destruct (Nat.ltb_spec n m); [lia|done].
  - destruct (Nat.ltb_spec n m); [done|lia].
Qed.

Lemma lessPath_spec a b :
  wf_route a = true → wf_route b = true →
  lessPath (m_path (rm_match (sr_route a))) (m_path (rm_match (sr_route b))) =
  less_of ((cmp_on path_rank Nat.compare ▷ cmp_desc (cmp_on path_len Nat.compare))%cmp a b).
Proof.
  unfold wf_route, lessPath, then_cmp, cmp_on, cmp_desc, path_rank, path_len, path_of.
  destruct (ParsePath (m_path (rm_match (sr_route a)))) as [[] va],
    (ParsePath (m_path (rm_match (sr_route b)))) as [[] vb]; simpl; intros Ha Hb; try done;
    apply nat_desc_less.
Qed.

Lemma less_objects_spec a b :
  no_char "/"%char (obj_namespace a) = true → no_char "/"%char (obj_namespace b) = true →
  less_objects a b =
  less_of (match (obj_creation a ?= obj_creation b)%Z with
           | Eq => String.compare (nn_string (obj_nn a)) (nn_string (obj_nn b))
           | c => c end).
Proof.
  intros Ha Hb. unfold less_objects.
  destruct (Z.compare_spec (obj_creation a) (obj_creation b)) as [E|E|E].
  - rewrite E, Z.eqb_refl. simpl.
    destruct (String.eqb_spec (obj_name a) (obj_name b)) as [En|En],
      (String.eqb_spec (obj_namespace a) (obj_namespace b)) as [Es|Es]; simpl.
    { unfold nn_string, obj_nn. simpl. rewrite En, Es. by rewrite (wo_refl String.compare). }
    all: unfold str_ltb, String.ltb; rewrite (wo_opp String.compare (nn_string (obj_nn a)));
      destruct (String.compare (nn_string (obj_nn a)) (nn_string (obj_nn b))) eqn:Ec; try done;
      exfalso; apply string_compare_eq in Ec; unfold nn_string, obj_nn in Ec; simpl in Ec;
      apply (sep_app_inj "/"%char) in Ec as [? ?]; done.
  - destruct (Z.eqb_spec (obj_creation a) (obj_creation b)); [lia|]. simpl.
    destruct (Z.ltb_spec (obj_creation b) (obj_creation a)); [lia|done].
  - destruct (Z.eqb_spec (obj_creation a) (obj_creation b)); [lia|]. simpl.
    destruct (Z.ltb_spec (obj_creation b) (obj_creation a)); [done|lia].
Qed.

(** The order below the weights. *)
Definition rest_order : SortableRoute → SortableRoute → comparison :=
  (match_order ▷ object_order sr_object ▷ object_order second_source ▷
   cmp_on sr_idx Nat.compare)%cmp.

#[global] Instance rest_order_wo : WeakOrder rest_order.
Proof. unfold rest_order, match_order, object_order. apply _. Qed.

Lemma less_spec a b :
  wf_route a = true → wf_route b = true →
  routeWrapperLessFunc a b = default false (less_of (rest_order a b)).
Proof.
  intros Ha Hb. unfold routeWrapperLessFunc. rewrite lessPath_spec by done.
  unfold wf_route in Ha, Hb. bool_hyps.
  rewrite !less_objects_spec by done.
  unfold rest_order, match_order, object_order, then_cmp, cmp_on, cmp_desc.
  destruct (path_rank a ?= path_rank b)%nat; [|done|done].
  destruct (path_len b ?= path_len a)%nat; [|done|done]. simpl.
  unfold method_rank.
  destruct (bool_decide (m_method (rm_match (sr_route a)) = None)),
    (bool_decide (m_method (rm_match (sr_route b)) = None)); simpl; try done;
  (rewrite cmp_match_assoc; apply less_of_nat_then, less_of_nat_then;
   rewrite nat_asc_less, !less_of_then; done).
Qed.

Lemma route_order_unfold a b :
  route_order a b = match (rm_weight (sr_route b) ?= rm_weight (sr_route a))%Z with
                    | Eq => rest_order a b | c => c end.
Proof. done. Qed.

Lemma compare_to_route_order a b :
  wf_route a = true → wf_route b = true → CompareTo a b = route_order a b.
Proof.
  intros Ha Hb. unfold CompareTo. rewrite !less_spec, route_order_unfold by done.
  rewrite (wo_opp rest_order a b).
  destruct (Z.compare_spec (rm_weight (sr_route b)) (rm_weight (sr_route a))) as [E|E|E].
  - rewrite E, Z.eqb_refl. simpl. by destruct (rest_order a b).
  - destruct (Z.eqb_spec (rm_weight (sr_route a)) (rm_weight (sr_route b))); [lia|]. simpl.
    destruct (Z.ltb_spec (rm_weight (sr_route b)) (rm_weight (sr_route a))); [done|lia].
  - destruct (Z.eqb_spec (rm_weight (sr_route a)) (rm_weight (sr_route b))); [lia|]. simpl.
    destruct (Z.ltb_spec (rm_weight (sr_route b)) (rm_weight (sr_route a))); [lia|done].
Qed.

(** [CompareTo] is the Gateway API route precedence: on routes the API server
    admits, the cascade of early returns equals the lexicographic order of
    weight (higher first), path type (Exact, RegularExpression, Prefix), path
    length (not for regular expressions), method, number of headers, number of
    query parameters, then the age and the namespaced name of the route and of
    its delegation source, and last the rule index. *)
Theorem CompareTo_lexicographic a b :
  wf_route a = true → wf_route b = true → CompareTo a b = route_order a b.
Proof. apply compare_to_route_order. Qed.

Lemma sort_routes_eq l :
  Forall (λ s, wf_route s = true) l → sort_stable CompareTo l = sort_stable route_order l.
Proof.
  intros Hl. apply sort_stable_ext. intros x y Hx Hy. rewrite Forall_forall in Hl.
  apply compare_to_route_order; auto.
Qed.

(** Sorting routes with [CompareTo] yields a permutation of the input in which
    every route precedes or ties with all later ones in the precedence order. *)
Theorem sort_routes_sorted l :
  Forall (λ s, wf_route s = true) l →
  sort_stable CompareTo l ≡ₚ l ∧ StronglySorted (cmp_le route_order) (sort_stable CompareTo l).
Proof.
  intros Hl. split; [apply sort_stable_perm|]. rewrite sort_routes_eq by done.
  apply sort_stable_sorted. apply _.
Qed.

Lemma object_order_eq f a b :
  no_char "/"%char (obj_namespace (f a)) = true → no_char "/"%char (obj_namespace (f b)) = true →
  object_order f a b = Eq → obj_nn (f a) = obj_nn (f b).
Proof.
  intros Ha Hb. unfold object_order, then_cmp, cmp_on.
  destruct (obj_creation (f a) ?= obj_creation (f b))%Z; try done.
  intros He%string_compare_eq. unfold nn_string, obj_nn in *. simpl in *.
  by apply (sep_app_inj "/"%char) in He as [-> ->].
Qed.

Lemma then_cmp_eq {A} (c1 c2 : A → A → comparison) x y :
  then_cmp c1 c2 x y = Eq → c1 x y = Eq ∧ c2 x y = Eq.
Proof. unfold then_cmp. by destruct (c1 x y). Qed.

Lemma route_tie a b :
  wf_route a = true → wf_route b = true → route_order a b = Eq →
  obj_nn (sr_object a) = obj_nn (sr_object b) ∧
  obj_nn (second_source a) = obj_nn (second_source b) ∧ sr_idx a = sr_idx b.
Proof.
  intros Ha Hb. unfold route_order. unfold wf_route in Ha, Hb. bool_hyps.
  intros [_ He]%then_cmp_eq. apply then_cmp_eq in He as [_ He].
  apply then_cmp_eq in He as [Ho He]. apply then_cmp_eq in He as [Hs Hi].
  apply object_order_eq in Ho, Hs; [|done..]. split_and!; [done|done|].
  by apply Nat.compare_eq in Hi.
Qed.

(** Route order is deterministic: when a route is identified by its object, its
    delegation source and its rule index, the sorted list depends only on the
    set of routes and not on the order in which they were collected. *)
Theorem sort_routes_deterministic l1 l2 :
  Forall (λ s, wf_route s = true) l1 →
  (∀ x y, x ∈ l1 → y ∈ l1 → obj_nn (sr_object x) = obj_nn (sr_object y) →
    obj_nn (second_source x) = obj_nn (second_source y) → sr_idx x = sr_idx y → x = y) →
  l1 ≡ₚ l2 → sort_stable CompareTo l1 = sort_stable CompareTo l2.
Proof.
  intros Hl Hid Hp. assert (Forall (λ s, wf_route s = true) l2) as Hl2 by (by rewrite <- Hp).
  rewrite !sort_routes_eq by done. apply sort_stable_perm_eq; [apply _| |done].
  intros x y Hx Hy He. rewrite Forall_forall in Hl.
  destruct (route_tie x y) as (? & ? & ?); auto.
Qed.

(** [ToSortable] numbers the routes in order and [ToRoutes] undoes it. *)
Lemma ToRoutes_ToSortable obj routes : ToRoutes (ToSortable obj routes) = routes.
Proof.
  unfold ToRoutes, ToSortable. apply list_eq. intros i.
  rewrite list_lookup_fmap, list_lookup_imap. by destruct (routes !! i).
Qed.

End sortable.
Arguments SortableRoute P : clear implicits.

(** ** Concrete routes *)

Definition ex_obj (name : string) (t : Z) : Object := mkObj "ns" name t 1 "1" "u" ∅ ∅.
Definition ex_pr : ParentReference := mkPR None None None "gw" None None.
Definition ex_http (name : string) (t : Z) : HttpRouteIR unit :=
  mkHttpRoute (mkOS "g" "HTTPRoute" "ns" name) (ex_obj name t) [] [] ∅ [] 0 false.
Definition ex_sr (w : Z) (ty : PathMatchType) (v : string) (t : Z) (i : nat) : SortableRoute unit :=
  mkSR (mkRuleMatch ∅ ∅ (ex_http "r" t) None false ex_pr ex_pr []
         (mkMatch (Some (mkPath (Some ty) (Some v))) [] [] None) 0 "" i "" w None None)
       (ex_obj "r" t) i.

Example compare_exact_before_prefix :
  CompareTo (ex_sr 0 PathExact "/a" 1 1) (ex_sr 0 PathPrefix "/a/b" 1 0) = Lt.
Proof. reflexivity. Qed.

Lemma CompareTo_lexicographic_witness :
  CompareTo (ex_sr 0 PathExact "/a" 1 1) (ex_sr 0 PathPrefix "/a/b" 1 0) =
  route_order (ex_sr 0 PathExact "/a" 1 1) (ex_sr 0 PathPrefix "/a/b" 1 0).
Proof. apply CompareTo_lexicographic; reflexivity. Defined.

Lemma sort_routes_sorted_witness :
  let l := [ex_sr 0 PathPrefix "/a" 1 0; ex_sr 0 PathExact "/a" 1 1; ex_sr 5 PathPrefix "/" 1 2] in
  StronglySorted (cmp_le route_order) (sort_stable CompareTo l) ∧
  map sr_idx (sort_stable CompareTo l) = [2; 1; 0].
Proof.
  intros l. split; [|reflexivity]. apply (sort_routes_sorted l). by repeat constructor.
Defined.

Lemma sort_routes_deterministic_witness :
  let a := ex_sr 0 PathPrefix "/a" 1 0 in
  let b := ex_sr 0 PathPrefix "/a" 1 1 in
  sort_stable CompareTo [a; b] = sort_stable CompareTo [b; a].
Proof.
  intros a b. apply sort_routes_deterministic.
  - by repeat constructor.
  - intros x y Hx Hy _ _ Hi.
    apply elem_of_cons in Hx as [->|Hx], Hy as [->|Hy]; try done;
      try apply list_elem_of_singleton in Hx as ->; try apply list_elem_of_singleton in Hy as ->; done.
  - apply Permutation_swap.
Defined.
