(* ===== verification/Delegation.v ===== *)
(** * Delegation rules (pkg/kgateway/utils/delegation/delegation.go)

    Which child routes may attach to a delegating parent, and how the matches
    of a child are filtered against, or merged with, the match of its parent.
    A dereference of a nil pointer is a panic, modelled as [None]. *)

From S2P Require Import Prelude IR.

(** [wellknown] names of the Gateway API. *)
Definition GatewayGroup : string := "gateway.networking.k8s.io".
Definition HTTPRouteKind : string := "HTTPRoute".
Definition TCPRouteKind : string := "TCPRoute".
Definition TLSRouteKind : string := "TLSRoute".
Definition GRPCRouteKind : string := "GRPCRoute".
Definition GatewayKind : string := "Gateway".
Definition DelegationInheritMatcher : string := "delegation.kgateway.dev/inherit-parent-matcher".

(** [ChildRouteCanAttachToParentRef]. *)
Definition ChildRouteCanAttachToParentRef (routeNamespace : string)
    (routeParentRefs : list ParentReference) (parentRef : NamespacedName) : bool :=
  match routeParentRefs with
  | [] => true
  | _ =>
      existsb (λ ref,
        let refNs := str_or (pr_namespace ref) routeNamespace in
        bool_decide (pr_group ref = Some GatewayGroup) &&
        bool_decide (pr_kind ref = Some HTTPRouteKind) &&
        String.eqb (pr_name ref) (nn_name parentRef) &&
        String.eqb refNs (nn_namespace parentRef)) routeParentRefs
  end.

(** [ShouldInheritParentMatcher]. *)
Definition ShouldInheritParentMatcher (annotations : gmap string string) : bool :=
  match annotations !! DelegationInheritMatcher with
  | None => false
  | Some val =>
      let v := to_lower val in
      String.eqb v "true" || String.eqb v "yes" || String.eqb v "enabled"
  end.

(** Every element of [parent] is [reflect.DeepEqual] to some element of [child]. *)
Definition superset (parent child : list NamedMatch) : bool :=
  forallb (λ p, existsb (λ c, bool_decide (p = c)) child) parent.

(** [IsDelegatedRouteMatch]. *)
Definition IsDelegatedRouteMatch (parent child : HTTPRouteMatch) : option bool :=
  match m_path parent with
  | Some (mkPath (Some PathPrefix) pv) =>
      match pv with
      | None => None
      | Some parentPath =>
          match m_path child with
          | Some (mkPath (Some _) cv) =>
              match cv with
              | None => None
              | Some childPath =>
                  Some (has_prefix childPath parentPath &&
                        superset (m_headers parent) (m_headers child) &&
                        superset (m_query parent) (m_query child) &&
                        match m_method parent with
                        | None => true
                        | Some m => bool_decide (m_method child = Some m)
                        end)
              end
          | _ => Some false
          end
      end
  | _ => Some false
  end.

(** ** [path.Join] of the Go standard library *)

(** Split at slashes. *)
Fixpoint split_slash (cur : string) (s : string) : list string :=
  match s with
  | EmptyString => [cur]
  | String a s' =>
      if Ascii.eqb a "/"%char then cur :: split_slash "" s'
      else split_slash (cur +:+ String a "") s'
  end.

(** [path.Clean] on the components: the stack holds the kept ones, last first. *)
Fixpoint clean_comps (rooted : bool) (stack : list string) (cs : list string) : list string :=
  match cs with
  | [] => reverse stack
  | c :: cs' =>
      if String.eqb c "" || String.eqb c "." then clean_comps rooted stack cs'
      else if String.eqb c ".." then
        match stack with
        | top :: rest =>
            if String.eqb top ".." then clean_comps rooted (".." :: stack) cs'
            else clean_comps rooted rest cs'
        | [] => if rooted then clean_comps rooted [] cs' else clean_comps rooted [".."] cs'
        end
      else clean_comps rooted (c :: stack) cs'
  end.

Definition path_clean (s : string) : string :=
  let rooted := has_prefix s "/" in
  let body := join "/" (clean_comps rooted [] (split_slash "" s)) in
  if rooted then "/" +:+ body else if String.eqb body "" then "." else body.

Definition path_join (a b : string) : string :=
  match filter (λ s, s ≠ "") [a; b] with
  | [] => ""
  | l => path_clean (join "/" l)
  end.

(** ** Merging *)

(** [mergeHeaders] and [mergeQueries] (the same code at two types): a map by
    name, parents first and overwriting, children only where absent; then the
    values sorted by name. *)
Definition merge_map (parent child : list NamedMatch) : gmap string NamedMatch :=
  foldl (λ m h, match m !! nm_name h with Some _ => m | None => <[nm_name h := h]> m end)
    (foldl (λ m h, <[nm_name h := h]> m) ∅ parent) child.

Definition by_name : NamedMatch → NamedMatch → comparison := cmp_on nm_name String.compare.

(** The map is ranged over in an unspecified order: [order] is any permutation of its
    entries. *)
Definition sorted_values (order : list (string * NamedMatch)) : list NamedMatch :=
  sort_stable by_name (map snd order).

Definition mergeNamed (parent child : list NamedMatch) : list NamedMatch :=
  sorted_values (map_to_list (merge_map parent child)).

Definition pathMatchValue (p : option HTTPPathMatch) : string := default "" (p ≫= path_value).

(** [MergeParentChildRouteMatch]: the child after the call. *)
Definition MergeParentChildRouteMatch (parent child : HTTPRouteMatch) : HTTPRouteMatch :=
  let cpath := match m_path child with
               | Some (mkPath t (Some v)) => mkPath t (Some v)
               | _ => mkPath (Some PathPrefix) (Some "")
               end in
  let joined := path_join (pathMatchValue (m_path parent)) (default "" (path_value cpath)) in
  let joined := if String.eqb joined "" then "/" else joined in
  mkMatch (Some (mkPath (path_type cpath) (Some joined)))
    (mergeNamed (m_headers parent) (m_headers child))
    (mergeNamed (m_query parent) (m_query child))
    (match m_method parent with Some m => Some m | None => m_method child end).

(** [FilterDelegatedRuleMatches]. *)
Fixpoint filter_matches (parent : HTTPRouteMatch) (ms : list HTTPRouteMatch) (inherit : bool) :
    option (list HTTPRouteMatch) :=
  match ms with
  | [] => Some []
  | m :: ms' =>
      if inherit then
        rest ← filter_matches parent ms' inherit;
        Some (MergeParentChildRouteMatch parent m :: rest)
      else
        ok ← IsDelegatedRouteMatch parent m;
        rest ← filter_matches parent ms' inherit;
        Some (if (ok : bool) then m :: rest else rest)
  end.

Definition FilterDelegatedRuleMatches (parent : HTTPRouteMatch) (ms : list HTTPRouteMatch)
    (inherit : bool) : option (list HTTPRouteMatch) :=
  match inherit, ms with
  | true, [] => Some [parent]
  | _, _ => filter_matches parent ms inherit
  end.

(** ** Lemmas: merged headers *)

(** The header the merge keeps for a name: the last parent's, else the first child's. *)
Definition last_named (l : list NamedMatch) (n : string) : option NamedMatch :=
  last (filter (λ h, nm_name h = n) l).
Definition first_named (l : list NamedMatch) (n : string) : option NamedMatch :=
  head (filter (λ h, nm_name h = n) l).
Definition merged_named (parent child : list NamedMatch) (n : string) : option NamedMatch :=
  match last_named parent n with Some h => Some h | None => first_named child n end.

Lemma last_named_snoc l h n :
  last_named (l ++ [h]) n = if decide (nm_name h = n) then Some h else last_named l n.
Proof.
  unfold last_named. rewrite filter_app, filter_cons, filter_nil.
  case_decide; [by rewrite last_snoc|by rewrite app_nil_r].
Qed.

Lemma parent_map_lookup parent n :
  foldl (λ m h, <[nm_name h := h]> m) (∅ : gmap string NamedMatch) parent !! n =
  last_named parent n.
Proof.
  induction parent as [|h parent IH] using rev_ind; [done|].
  rewrite foldl_app, last_named_snoc. simpl. rewrite lookup_insert, IH. by case_decide.
Qed.

Lemma child_map_lookup child (m : gmap string NamedMatch) n :
  foldl (λ m h, match m !! nm_name h with Some _ => m | None => <[nm_name h := h]> m end) m child
    !! n = match m !! n with Some h => Some h | None => first_named child n end.
Proof.
  revert m. induction child as [|h child IH]; intros m; simpl; [by destruct (m !! n)|].
  rewrite IH. unfold first_named. rewrite filter_cons.
  destruct (m !! nm_name h) eqn:E.
  - destruct (m !! n) eqn:En; [done|]. case_decide; [congruence|done].
  - rewrite lookup_insert. case_decide; simplify_eq/=; [by rewrite E|done].
Qed.

Lemma merge_map_lookup parent child n :
  merge_map parent child !! n = merged_named parent child n.
Proof. unfold merge_map. by rewrite child_map_lookup, parent_map_lookup. Qed.

Lemma merged_named_name parent child n h : merged_named parent child n = Some h → nm_name h = n.
Proof.
  unfold merged_named, last_named, first_named. destruct (last _) eqn:E; intros; simplify_eq.
  - apply last_Some_elem_of in E. by apply list_elem_of_filter in E as [? _].
  - match goal with H : head _ = _ |- _ => apply head_Some_elem_of in H end.
    by match goal with H : _ ∈ filter _ _ |- _ => apply list_elem_of_filter in H as [? _] end.
Qed.

Lemma merge_values_inj parent child order x y :
  order ≡ₚ map_to_list (merge_map parent child) →
  x ∈ map snd order → y ∈ map snd order → by_name x y = Eq → x = y.
Proof.
  intros Ho Hx Hy He%string_cmp_on_eq.
  apply list_elem_of_fmap in Hx as ([kx x'] & -> & Hx), Hy as ([ky y'] & -> & Hy).
  rewrite Ho in Hx, Hy. rewrite elem_of_map_to_list, merge_map_lookup in Hx, Hy. simpl in *.
  pose proof (merged_named_name _ _ _ _ Hx). pose proof (merged_named_name _ _ _ _ Hy). congruence.
Qed.

#[global] Instance by_name_wo : WeakOrder by_name.
Proof. unfold by_name. apply _. Qed.

Lemma sorted_values_order parent child order :
  order ≡ₚ map_to_list (merge_map parent child) → sorted_values order = mergeNamed parent child.
Proof.
  intros Ho. unfold mergeNamed, sorted_values. apply sort_stable_perm_eq; [apply _| |].
  - intros x y. by eapply merge_values_inj.
  - by rewrite Ho.
Qed.

(** [mergeHeaders]/[mergeQueries] do not depend on Go's random map order: any
    iteration order of the map gives the same slice, which is sorted by name,
    has one entry per name, and holds for each name the parent's match when the
    parent has one and the child's first one otherwise. *)
Theorem merge_named_spec parent child :
  (∀ order, order ≡ₚ map_to_list (merge_map parent child) →
     sorted_values order = mergeNamed parent child) ∧
  StronglySorted (cmp_le by_name) (mergeNamed parent child) ∧
  NoDup (map nm_name (mergeNamed parent child)) ∧
  ∀ h, h ∈ mergeNamed parent child ↔ merged_named parent child (nm_name h) = Some h.
Proof.
  split_and!.
  - apply sorted_values_order.
  - apply sort_stable_sorted. apply _.
  - unfold mergeNamed, sorted_values.
    assert (map nm_name (sort_stable by_name (map snd (map_to_list (merge_map parent child)))) ≡ₚ
            (map_to_list (merge_map parent child)).*1) as ->.
    { rewrite sort_stable_perm, map_map. apply Permutation_refl'. apply map_ext_in.
      intros [k h] Hin%list_elem_of_In. rewrite elem_of_map_to_list, merge_map_lookup in Hin.
      by apply merged_named_name in Hin. }
    apply NoDup_fst_map_to_list.
  - intros h. unfold mergeNamed, sorted_values. rewrite sort_stable_elem_of, list_elem_of_fmap.
    split.
    + intros ([k h'] & -> & Hin). rewrite elem_of_map_to_list, merge_map_lookup in Hin. simpl.
      by rewrite (merged_named_name _ _ _ _ Hin).
    + intros Hm. exists (nm_name h, h). split; [done|].
      by rewrite elem_of_map_to_list, merge_map_lookup.
Qed.

(** ** Lemmas: what a merge keeps *)

(** Matches as the API server admits them: header and query names are the keys of
    their lists. *)
Definition names_distinct (m : HTTPRouteMatch) : Prop :=
  NoDup (map nm_name (m_headers m)) ∧ NoDup (map nm_name (m_query m)).

(** The conditions of [a] that [m] must keep. *)
Definition keeps (a m : HTTPRouteMatch) : Prop :=
  m_headers a ⊆ m_headers m ∧ m_query a ⊆ m_query m ∧
  ∀ meth, m_method a = Some meth → m_method m = Some meth.

#[global] Instance keeps_preorder : PreOrder keeps.
Proof.
  split; [by intros m|]. intros a b c (?&?&Hab) (?&?&Hbc).
  split_and!; [by etrans|by etrans|auto].
Qed.

Lemma last_named_in l h : NoDup (map nm_name l) → h ∈ l → last_named l (nm_name h) = Some h.
Proof.
  induction l as [|x l IH] using rev_ind; [by intros _ ?%not_elem_of_nil|].
  rewrite map_app, last_named_snoc. intros (Hl & Hx & _)%NoDup_app [Hh|Hh]%elem_of_app.
  - rewrite decide_False; [by apply IH|]. intros E. apply (Hx (nm_name h)); [by apply list_elem_of_fmap_2|].
    simpl. rewrite E. by left.
  - apply list_elem_of_singleton in Hh as ->. by rewrite decide_True.
Qed.

Lemma mergeNamed_keeps parent child : NoDup (map nm_name parent) → parent ⊆ mergeNamed parent child.
Proof.
  intros Hd h Hh. apply (merge_named_spec parent child). unfold merged_named.
  by rewrite (last_named_in parent h Hd Hh).
Qed.

Lemma merge_distinct parent child : names_distinct (MergeParentChildRouteMatch parent child).
Proof. split; apply merge_named_spec. Qed.

Lemma merge_keeps parent child :
  names_distinct parent → keeps parent (MergeParentChildRouteMatch parent child).
Proof.
  intros [Hh Hq]. split_and!; [by apply mergeNamed_keeps..|]. simpl. by intros meth ->.
Qed.

(** ** Lemmas: filtering *)

(** A match admitted by the API server: a set path has its value set (the CRD
    defaults both fields). *)
Definition path_defaulted (m : HTTPRouteMatch) : bool :=
  match m_path m with
  | Some (mkPath (Some _) None) => false
  | _ => true
  end.

(** The verdict as a proposition: the documented conditions. *)
Definition delegatee (parent child : HTTPRouteMatch) : Prop :=
  ∃ pv t cv,
    m_path parent = Some (mkPath (Some PathPrefix) (Some pv)) ∧
    m_path child = Some (mkPath (Some t) (Some cv)) ∧
    (∃ rest, cv = pv +:+ rest) ∧
    m_headers parent ⊆ m_headers child ∧ m_query parent ⊆ m_query child ∧
    (∀ m, m_method parent = Some m → m_method child = Some m).

Lemma superset_spec p c : superset p c = true ↔ p ⊆ c.
Proof.
  unfold superset. rewrite forallb_forall. split.
  - intros H x Hx%list_elem_of_In. apply H, existsb_exists in Hx as (y & Hy & He).
    apply bool_decide_eq_true in He as ->. by apply list_elem_of_In.
  - intros H x Hx%list_elem_of_In. apply existsb_exists. exists x.
    split; [by apply list_elem_of_In, H|by apply bool_decide_eq_true].
Qed.

Lemma is_delegated_spec parent child :
  path_defaulted parent = true → path_defaulted child = true →
  ∃ b, IsDelegatedRouteMatch parent child = Some b ∧ (b = true ↔ delegatee parent child).
Proof.
  unfold path_defaulted, IsDelegatedRouteMatch, delegatee. intros Hp Hc.
  destruct (m_path parent) as [[[[]|] [pv|]]|]; simplify_eq/=;
    try (eexists; split; [done|]; split; [done|naive_solver]).
  destruct (m_path child) as [[[t|] [cv|]]|]; simplify_eq/=;
    try (eexists; split; [done|]; split; [done|naive_solver]).
  eexists. split; [done|]. rewrite !andb_true_iff, has_prefix_spec, !superset_spec.
  destruct (m_method parent) as [m|]; rewrite ?bool_decide_eq_true; split;
    [intros (((?&?)&?)&?); exists pv, t, cv; naive_solver|naive_solver
    |intros (((?&?)&?)&_); exists pv, t, cv; naive_solver|naive_solver].
Qed.

Lemma filter_matches_inherit parent ms :
  filter_matches parent ms true = Some (map (MergeParentChildRouteMatch parent) ms).
Proof. induction ms as [|m ms IH]; simpl; [done|]. by rewrite IH. Qed.

Lemma filter_matches_strict parent ms :
  path_defaulted parent = true → Forall (λ m, path_defaulted m = true) ms →
  ∃ out, filter_matches parent ms false = Some out ∧ out `sublist_of` ms ∧
         ∀ m, m ∈ out ↔ m ∈ ms ∧ delegatee parent m.
Proof.
  intros Hp. induction 1 as [|m ms Hm Hms (out & Ho & Hs & Hin)]; simpl.
  - exists []. split_and!; [done|done|]. intros m. rewrite elem_of_nil. naive_solver.
  - destruct (is_delegated_spec parent m Hp Hm) as (b & -> & Hb). simpl. rewrite Ho. simpl.
    destruct b; eexists; (split; [done|]).
    + split; [by constructor|]. intros x. rewrite !elem_of_cons, Hin. naive_solver.
    + split; [by constructor|]. intros x. rewrite elem_of_cons, Hin. split; [intros [? ?]; by split; [right|]|].
      intros [[->|?] Hd]; [by apply Hb in Hd|by split].
Qed.

Lemma filter_delegated_out parent ms inherit :
  path_defaulted parent = true → Forall (λ m, path_defaulted m = true) ms →
  ∃ out, FilterDelegatedRuleMatches parent ms inherit = Some out ∧
    if inherit then
      out = match ms with [] => [parent] | _ => map (MergeParentChildRouteMatch parent) ms end
    else out `sublist_of` ms ∧ ∀ m, m ∈ out ↔ m ∈ ms ∧ delegatee parent m.
Proof.
  intros Hp Hms. unfold FilterDelegatedRuleMatches. destruct inherit.
  - destruct ms as [|m ms]; [by exists [parent]|]. rewrite filter_matches_inherit. eauto.
  - destruct (filter_matches_strict parent ms Hp Hms) as (out & Ho & H).
    destruct ms; eauto.
Qed.

(** [FilterDelegatedRuleMatches] never dereferences nil on admitted matches, and
    returns: with matcher inheritance, the merge of every child match (or the
    parent match when the rule has none); otherwise exactly the child matches
    that satisfy the documented delegation conditions, in declaration order. *)
Theorem filter_delegated_spec parent ms inherit :
  path_defaulted parent = true → Forall (λ m, path_defaulted m = true) ms →
  ∃ out, FilterDelegatedRuleMatches parent ms inherit = Some out ∧
    if inherit then
      out = match ms with [] => [parent] | _ => map (MergeParentChildRouteMatch parent) ms end
    else out `sublist_of` ms ∧ ∀ m, m ∈ out ↔ m ∈ ms ∧ delegatee parent m.
Proof. apply filter_delegated_out. Qed.

Lemma filter_delegated_spec_witness :
  let parent := mkMatch (Some (mkPath (Some PathPrefix) (Some "/a"))) [] [] None in
  let c1 := mkMatch (Some (mkPath (Some PathExact) (Some "/a/b"))) [] [] None in
  let c2 := mkMatch (Some (mkPath (Some PathExact) (Some "/c"))) [] [] None in
  FilterDelegatedRuleMatches parent [c1; c2] false = Some [c1] ∧
  ∃ out, FilterDelegatedRuleMatches parent [c1; c2] false = Some out ∧ out `sublist_of` [c1; c2].
Proof.
  intros parent c1 c2. split; [reflexivity|].
  destruct (filter_delegated_spec parent [c1; c2] false) as (out & Ho & H & _);
    [reflexivity|by repeat constructor|]. by exists out.
Defined.

Example merge_match_join :
  m_path (MergeParentChildRouteMatch
    (mkMatch (Some (mkPath (Some PathPrefix) (Some "/a/"))) [] [] None)
    (mkMatch (Some (mkPath (Some PathExact) (Some "../b"))) [] [] None)) =
  Some (mkPath (Some PathExact) (Some "/b")).
Proof. reflexivity. Qed.
