(* ===== verification/Filters.v ===== *)
(** * HTTP and network filter ordering (pkg/pluginsdk/filters/stages.go)

    Filters are placed relative to well-known stages; the chain is sorted by
    [CompareStagedFilters].  [FilterType] is an interface in the source, hence
    the class [Filter]; [MessageToAny] (protobuf marshalling) is a parameter. *)

From S2P Require Import Prelude IR.

(** ** Stages *)

(** [WellKnownFilterStage] is an [int] with [iota] constants. *)
Definition FaultStage : Z := 0.
Definition CorsStage : Z := 1.
Definition WafStage : Z := 2.
Definition AuthNStage : Z := 3.
Definition AuthZStage : Z := 4.
Definition RateLimitStage : Z := 5.
Definition AcceptedStage : Z := 6.
Definition OutAuthStage : Z := 7.
Definition RouteStage : Z := 8.

Record FilterStage := mkStage { RelativeTo : Z; RelativeWeight : Z }.

Definition RelativeToStage (wellKnown relativeWeight : Z) : FilterStage :=
  mkStage wellKnown relativeWeight.
Definition BeforeStage (wellKnown : Z) : FilterStage := RelativeToStage wellKnown (-1).
Definition DuringStage (wellKnown : Z) : FilterStage := RelativeToStage wellKnown 0.
Definition AfterStage (wellKnown : Z) : FilterStage := RelativeToStage wellKnown 1.

Definition FilterStageComparison (a b : FilterStage) : comparison :=
  if (RelativeTo a <? RelativeTo b)%Z then Lt
  else if (RelativeTo b <? RelativeTo a)%Z then Gt
  else if (RelativeWeight a <? RelativeWeight b)%Z then Lt
  else if (RelativeWeight b <? RelativeWeight a)%Z then Gt
  else Eq.

(** ** Staged filters *)

(** The [Filter] interface: the getters are nil-safe and return empty strings. *)
Class Filter (F : Type) := {
  GetName : F → string;
  GetTypeUrl : F → string;
  GetValue : F → string }.

Record StagedFilter (F : Type) := mkSF { sf_filter : F; sf_stage : FilterStage; sf_weight : Z }.
Arguments mkSF {F}. Arguments sf_filter {F}. Arguments sf_stage {F}. Arguments sf_weight {F}.

Section compare.
Context {F : Type} `{Filter F}.

Definition sf_name (s : StagedFilter F) : string := GetName (sf_filter s).
Definition sf_type_url (s : StagedFilter F) : string := GetTypeUrl (sf_filter s).
Definition sf_value (s : StagedFilter F) : string := GetValue (sf_filter s).

Definition CompareStagedFilters (a b : StagedFilter F) : comparison :=
  match FilterStageComparison (sf_stage a) (sf_stage b) with
  | Eq =>
      let rest :=
        match String.compare (sf_name a) (sf_name b) with
        | Eq =>
            match String.compare (sf_type_url a) (sf_type_url b) with
            | Eq => String.compare (sf_value a) (sf_value b)
            | r => r
            end
        | r => r
        end in
      if String.eqb (sf_type_url a) (sf_type_url b)
      then if negb (sf_weight a =? sf_weight b)%Z
           then CompOpp (sf_weight a ?= sf_weight b)%Z else rest
      else rest
  | r => r
  end.

(** [StagedFilterList.Sort]. *)
Definition Sort (l : list (StagedFilter F)) : list (StagedFilter F) :=
  sort_stable CompareStagedFilters l.

(** [StagedFilterListContainsName]. *)
Fixpoint StagedFilterListContainsName (filters : list (StagedFilter F)) (filterName : string) : bool :=
  match filters with
  | [] => false
  | f :: rest =>
      if String.eqb (sf_name f) filterName then true
      else StagedFilterListContainsName rest filterName
  end.

End compare.

(** ** Envoy HTTP filters and their constructors *)

Record Any := mkAny { any_type_url : string; any_value : string }.
Record HttpFilter := mkHttpFilter { hf_name : string; hf_typed_config : option Any; hf_disabled : bool }.

(** A filter that is enabled, as constructors leave it. *)
Definition mkHF (name : string) (config : option Any) : HttpFilter := mkHttpFilter name config false.

(** A [*HttpFilter]: the protobuf getters accept nil. *)
#[global] Instance HttpFilter_Filter : Filter (option HttpFilter) := {
  GetName f := default "" (hf_name <$> f);
  GetTypeUrl f := default "" (any_type_url <$> (f ≫= hf_typed_config));
  GetValue f := default "" (any_value <$> (f ≫= hf_typed_config)) }.

Definition sf_set_weight {F} (s : StagedFilter F) (w : Z) : StagedFilter F :=
  mkSF (sf_filter s) (sf_stage s) w.

Section constructors.
Context {Message : Type} (MessageToAny : Message → error + Any).

(** [NewStagedFilter] and [NewStagedUpstreamFilter]: the filter and the error. *)
Definition NewStagedFilter (name : string) (config : option Message) (stage : FilterStage) :
    StagedFilter (option HttpFilter) * option error :=
  match config with
  | None =>
      (mkSF (Some (mkHF name None)) stage 0,
       Some (EMsg ("filters must have a config specified to derive its type filtername:" +:+ name)))
  | Some config =>
      match MessageToAny config with
      | inl err => (mkSF None (mkStage 0 0) 0, Some err)
      | inr marshalledConf => (mkSF (Some (mkHF name (Some marshalledConf))) stage 0, None)
      end
  end.

Definition MustNewStagedFilter (name : string) (config : option Message) (stage : FilterStage) :
    StagedFilter (option HttpFilter) := fst (NewStagedFilter name config stage).

Definition MustNewStagedFilterWithWeight (name : string) (config : option Message)
    (stage : FilterStage) (weight : Z) : StagedFilter (option HttpFilter) :=
  sf_set_weight (fst (NewStagedFilter name config stage)) weight.

End constructors.

(** ** User-specified stages *)

Record FilterStageSpec := mkSpec { fss_stage : Z; fss_predicate : Z }.

Definition FilterStage_During : Z := 0.
Definition FilterStage_Before : Z := 1.
Definition FilterStage_After : Z := 2.

Definition GetStage (x : option FilterStageSpec) : Z := default 0%Z (fss_stage <$> x).
Definition GetPredicate (x : option FilterStageSpec) : Z := default 0%Z (fss_predicate <$> x).

Definition ConvertFilterStage (i : option FilterStageSpec) : option FilterStage :=
  match i with
  | None => None
  | Some _ =>
      let outStage :=
        match GetStage i with
        | 1 => CorsStage | 2 => WafStage | 3 => AuthNStage | 4 => AuthZStage
        | 5 => RateLimitStage | 6 => AcceptedStage | 7 => OutAuthStage | 8 => RouteStage
        | _ => FaultStage
        end%Z in
      Some (match GetPredicate i with
            | 1 => BeforeStage outStage
            | 2 => AfterStage outStage
            | _ => DuringStage outStage
            end%Z)
  end.

(** ** The order of a filter chain *)

Definition stage_order : FilterStage → FilterStage → comparison :=
  (cmp_on RelativeTo Z.compare ▷ cmp_on RelativeWeight Z.compare)%cmp.

#[global] Instance stage_order_wo : WeakOrder stage_order.
Proof. unfold stage_order. apply _. Qed.

Lemma Z_three_way (x y : Z) (r : comparison) :
  (if (x <? y)%Z then Lt else if (y <? x)%Z then Gt else r) =
  match (x ?= y)%Z with Eq => r | Lt => Lt | Gt => Gt end.
Proof. unfold Z.ltb. rewrite (Z.compare_antisym x y). by destruct (x ?= y)%Z. Qed.

Lemma stage_comparison_order a b : FilterStageComparison a b = stage_order a b.
Proof.
  unfold FilterStageComparison, stage_order, then_cmp, cmp_on. rewrite !Z_three_way.
  by destruct (RelativeTo a ?= RelativeTo b)%Z, (RelativeWeight a ?= RelativeWeight b)%Z.
Qed.

Section order.
Context {F : Type} `{Filter F}.

(** Stage, name, type, then the heavier first, then the configuration. *)
Definition filter_order : StagedFilter F → StagedFilter F → comparison :=
  (cmp_on sf_stage stage_order ▷ cmp_on sf_name String.compare ▷
   cmp_on sf_type_url String.compare ▷ cmp_desc (cmp_on sf_weight Z.compare) ▷
   cmp_on sf_value String.compare)%cmp.

#[global] Instance filter_order_wo : WeakOrder filter_order.
Proof. unfold filter_order. apply _. Qed.

(** Filters of one type carry one name. *)
Definition type_names (l : list (StagedFilter F)) : Prop :=
  ∀ a b, a ∈ l → b ∈ l → sf_type_url a = sf_type_url b → sf_name a = sf_name b.

Lemma compare_staged_order (a b : StagedFilter F) :
  (sf_type_url a = sf_type_url b → sf_name a = sf_name b) →
  CompareStagedFilters a b = filter_order a b.
Proof.
  intros Hn. unfold CompareStagedFilters, filter_order, then_cmp, cmp_desc, cmp_on.
  rewrite stage_comparison_order. destruct (stage_order (sf_stage a) (sf_stage b)); [|done..].
  destruct (String.eqb_spec (sf_type_url a) (sf_type_url b)) as [Ht|Ht].
  - rewrite (Hn Ht), Ht, !(wo_refl String.compare).
    rewrite <- Z.compare_antisym. destruct (Z.eqb_spec (sf_weight a) (sf_weight b)) as [->|Hw]; simpl.
    + by rewrite Z.compare_refl.
    + destruct (Z.compare_spec (sf_weight b) (sf_weight a)); congruence.
  - destruct (String.compare (sf_name a) (sf_name b)); [|done..].
    destruct (String.compare (sf_type_url a) (sf_type_url b)) eqn:E; [|done..].
    by apply string_compare_eq in E.
Qed.

Lemma Sort_filter_order (l : list (StagedFilter F)) :
  type_names l → Sort l = sort_stable filter_order l.
Proof. intros Hn. apply sort_stable_ext. intros a b Ha Hb. apply compare_staged_order. eauto. Qed.

Lemma compare_staged_stage (a b : StagedFilter F) :
  stage_order (sf_stage a) (sf_stage b) ≠ Eq →
  CompareStagedFilters a b = stage_order (sf_stage a) (sf_stage b).
Proof.
  intros Hne. unfold CompareStagedFilters. rewrite stage_comparison_order.
  by destruct (stage_order (sf_stage a) (sf_stage b)).
Qed.

(** A sorted chain respects the stages: whatever the filters, the result is a
    permutation of the input in which the stages (well-known stage, then
    relative weight) never decrease, so a filter of an earlier stage, such as
    authentication, always runs before one of a later stage. *)
Theorem sort_respects_stages (l : list (StagedFilter F)) :
  Sort l ≡ₚ l ∧ StronglySorted (cmp_le (cmp_on sf_stage stage_order)) (Sort l).
Proof.
  split; [apply sort_stable_perm|].
  apply (sort_stable_refines CompareStagedFilters (cmp_on sf_stage stage_order)).
  intros a b. apply compare_staged_stage.
Qed.

(** When the filters of one type carry one name, [CompareStagedFilters] is the
    lexicographic order by stage, name, type, descending weight and
    configuration on them: the chain is sorted by it, and the result depends
    only on the set of filters up to filters that agree on all five keys. *)
Theorem sort_filters_lexicographic (l : list (StagedFilter F)) :
  type_names l →
  (∀ a b, a ∈ l → b ∈ l → CompareStagedFilters a b = filter_order a b) ∧
  StronglySorted (cmp_le filter_order) (Sort l) ∧
  ∀ z, ties filter_order z (Sort l) = ties filter_order z l.
Proof.
  intros Hn. split; [intros a b Ha Hb; apply compare_staged_order; eauto|].
  rewrite Sort_filter_order by done. split; [apply sort_stable_sorted, _|].
  intros z. apply sort_stable_ties, _.
Qed.

End order.

Definition ex_filter (name url : string) (w : Z) : StagedFilter (option HttpFilter) :=
  mkSF (Some (mkHF name (Some (mkAny url "")))) (DuringStage AuthZStage) w.

Lemma sort_filters_lexicographic_witness :
  StronglySorted (cmp_le filter_order)
    (Sort [ex_filter "a" "A" 1; ex_filter "a" "A" 3; ex_filter "b" "B" 0]) ∧
  map sf_weight (Sort [ex_filter "a" "A" 1; ex_filter "a" "A" 3; ex_filter "b" "B" 0]) =
    [3; 1; 0]%Z.
Proof.
  split; [|reflexivity].
  apply (sort_filters_lexicographic [ex_filter "a" "A" 1; ex_filter "a" "A" 3; ex_filter "b" "B" 0]).
  intros a b Ha Hb. rewrite !elem_of_cons, elem_of_nil in Ha, Hb.
  destruct Ha as [->|[->|[->|[]]]], Hb as [->|[->|[->|[]]]]; vm_compute; congruence.
Defined.

(** Without that condition the comparator is not an order: three filters of one
    stage compare in a cycle, because weights are compared only within a type
    and names only across types.  The stable sort then leaves a lighter filter
    in front of a heavier one of the same type, against the documented
    ordering by descending weight. *)
Theorem compare_staged_cycle :
  let a := ex_filter "a" "T" 1 in
  let b := ex_filter "b" "U" 0 in
  let c := ex_filter "c" "T" 2 in
  CompareStagedFilters a b = Lt ∧ CompareStagedFilters b c = Lt ∧ CompareStagedFilters c a = Lt ∧
  Sort [a; b; c] = [a; b; c] ∧ Sort [c; a; b] = [c; a; b].
Proof. by vm_compute. Qed.

(** ** Conversion of user-specified stages *)

Definition valid_spec (s : FilterStageSpec) : bool :=
  ((0 <=? fss_stage s) && (fss_stage s <=? 8) && (0 <=? fss_predicate s) && (fss_predicate s <=? 2))%Z.

Definition predicate_rank (p : Z) : Z := (if p =? 1 then -1 else if p =? 2 then 1 else 0)%Z.

Lemma convert_valid s :
  valid_spec s = true →
  ConvertFilterStage (Some s) = Some (mkStage (fss_stage s) (predicate_rank (fss_predicate s))).
Proof.
  unfold valid_spec. intros Hv. destruct s as [st p]. simpl in *.
  assert (st = 0 ∨ st = 1 ∨ st = 2 ∨ st = 3 ∨ st = 4 ∨ st = 5 ∨ st = 6 ∨ st = 7 ∨ st = 8)%Z as Hs by lia.
  assert (p = 0 ∨ p = 1 ∨ p = 2)%Z as Hp by lia.
  repeat destruct Hs as [->|Hs]; subst; repeat destruct Hp as [->|Hp]; subst; reflexivity.
Qed.

(** [ConvertFilterStage] preserves the user's order: two valid specifications
    convert to stages that compare by stage first and then before, during,
    after; an unknown stage falls back to the fault stage. *)
Theorem convert_filter_stage_order s1 s2 :
  valid_spec s1 = true → valid_spec s2 = true →
  ∃ f1 f2, ConvertFilterStage (Some s1) = Some f1 ∧ ConvertFilterStage (Some s2) = Some f2 ∧
    FilterStageComparison f1 f2 =
    (cmp_on fss_stage Z.compare ▷
     cmp_on (λ s, predicate_rank (fss_predicate s)) Z.compare)%cmp s1 s2.
Proof.
  intros H1 H2. eexists _, _. split; [by apply convert_valid|]. split; [by apply convert_valid|].
  by rewrite stage_comparison_order.
Qed.

Lemma convert_filter_stage_order_witness :
  ∃ f1 f2, ConvertFilterStage (Some (mkSpec 3 2)) = Some f1 ∧
    ConvertFilterStage (Some (mkSpec 4 1)) = Some f2 ∧ FilterStageComparison f1 f2 = Lt.
Proof. exact (convert_filter_stage_order (mkSpec 3 2) (mkSpec 4 1) eq_refl eq_refl). Defined.
