(* ===== verification/PolicyMerge.v ===== *)
(** * Merging of attached policies (pkg/pluginsdk/policy/merge.go)

    [MergePolicies] folds the policies of one kind attached along a route's
    configuration tree into one policy: first within each hierarchical level,
    then across the levels from the highest priority down.  The field-wise merge
    function is the plugin's ([mergeFn]); what the framework needs of it is the
    class [MergeFnLaws].  Go type assertions that panic, out-of-range indexing
    and panics of [mergeFn] are modelled as [None]. *)

From S2P Require Import Prelude IR.

(** ** Strategies *)

Inductive MergeStrategy :=
| AugmentedShallowMerge | AugmentedDeepMerge
| OverridableShallowMerge | OverridableDeepMerge
| OtherStrategy (s : string).

Record MergeOptions := mkMO { mo_strategy : MergeStrategy; mo_same_hierarchy : bool }.

Definition DeepMerge : string := "DeepMerge".
Definition ShallowMerge : string := "ShallowMerge".

Definition ToInternalMergeStrategy (s : string) : MergeStrategy :=
  if String.eqb s DeepMerge then AugmentedDeepMerge
  else if String.eqb s ShallowMerge then AugmentedShallowMerge
  else AugmentedShallowMerge.

(** What [reflect] distinguishes of the argument of [isNil]: the untyped nil, a
    value of a nilable kind, a string, or any other value. *)
Inductive GoValue := GInvalid | GNilable (nil : bool) | GString (s : string) | GOther.

Definition isNil (arg : GoValue) : bool :=
  match arg with
  | GInvalid => true
  | GNilable n => n
  | GString s => String.eqb s ""
  | GOther => false
  end.

(** A pointer as the argument of an [any] parameter. *)
Definition go_ptr {A} (o : option A) : GoValue :=
  GNilable (match o with None => true | Some _ => false end).

Definition IsMergeable (p1 p2 : GoValue) (opts : MergeOptions) : bool :=
  match mo_strategy opts with
  | AugmentedShallowMerge => isNil p1 && negb (isNil p2)
  | OverridableShallowMerge | AugmentedDeepMerge | OverridableDeepMerge => negb (isNil p2)
  | OtherStrategy _ => false
  end.

Definition IsSettable (p1 : GoValue) (opts : MergeOptions) : bool :=
  IsMergeable p1 (GString "not-nil") opts.

Definition GetMergeStrategy (priority : InheritedPolicyPriorityValue) (sameHierarchy : bool) :
    MergeStrategy :=
  if sameHierarchy then AugmentedShallowMerge else
  match priority with
  | ShallowMergePreferParent => OverridableShallowMerge
  | ShallowMergePreferChild => AugmentedShallowMerge
  | DeepMergePreferParent => OverridableDeepMerge
  | DeepMergePreferChild => AugmentedDeepMerge
  | UnsetPriority => AugmentedShallowMerge
  end.

(** ** The fold *)

(** The dynamic type of a policy IR: the assertion [any(ir).( *T )] and back. *)
Class PolicyKind (P T : Type) := {
  pk_as : P → option T;
  pk_of : T → P;
  pk_as_of : ∀ t, pk_as (pk_of t) = Some t;
  pk_zero : T }.

Abbreviation MergeFn T :=
  (T → T → option AttachedPolicyRef → MergeOrigins → MergeOptions → MergeOrigins → string →
   option (T * MergeOrigins)).

(** The contract of a plugin's merge function: it does not panic on values that
    satisfy the plugin's invariant, and it keeps that invariant. *)
Class MergeFnLaws {P T} `{PolicyKind P T} (mergeFn : MergeFn T) (Good : T → Prop) : Prop := {
  mfl_zero : Good pk_zero;
  mfl_step : ∀ p1 p2 ref o opts origins settings, Good p1 → Good p2 →
    ∃ t o', mergeFn p1 p2 ref o opts origins settings = Some (t, o') ∧ Good t }.

(** What the loop of [merge] writes: the accumulator and three fields of [out]. *)
Record MergeState (T : Type) := mkMS {
  ms_pol : T;
  ms_errors : list error;
  ms_inherited : InheritedPolicyPriorityValue;
  ms_origins : MergeOrigins }.
Arguments mkMS {T}. Arguments ms_pol {T}. Arguments ms_errors {T}.
Arguments ms_inherited {T}. Arguments ms_origins {T}.

Section merge.
Context {P T : Type} `{PolicyKind P T} (mergeFn : MergeFn T).

Definition groupPoliciesByHierarchicalPriority (policies : list (PolicyAtt P)) :
    gmap Z (list (PolicyAtt P)) :=
  foldl (λ groups policy,
    <[pa_hierarchy policy := default [] (groups !! pa_hierarchy policy) ++ [policy]]> groups)
    ∅ policies.

(** One iteration of the loop. *)
Definition merge_step (sameHierarchy : bool) (settings : string) (st : MergeState T)
    (policy : PolicyAtt P) : option (MergeState T) :=
  p2 ← pk_as (pa_ir policy);
  let p2Ref := pa_ref policy in
  let errs := ms_errors st ++ WrapPolicyErrors p2Ref (pa_errors policy) in
  if (0 <? length (pa_errors policy))%nat
  then Some (mkMS (ms_pol st) errs (ms_inherited st) (ms_origins st))
  else
    let opts := mkMO (GetMergeStrategy (pa_inherited policy) sameHierarchy) sameHierarchy in
    '(merged, origins) ←
      mergeFn (ms_pol st) p2 p2Ref (pa_origins policy) opts (ms_origins st) settings;
    Some (mkMS merged errs (if sameHierarchy then pa_inherited policy else ms_inherited st) origins).

Fixpoint merge_loop (sameHierarchy : bool) (settings : string) (st : MergeState T)
    (policies : list (PolicyAtt P)) : option (MergeState T) :=
  match policies with
  | [] => Some st
  | p :: ps => st' ← merge_step sameHierarchy settings st p; merge_loop sameHierarchy settings st' ps
  end.

Definition merge (policies : list (PolicyAtt P)) (sameHierarchy : bool) (settings : string) :
    option (PolicyAtt P) :=
  p0 ← head policies;
  st ← merge_loop sameHierarchy settings (mkMS pk_zero [] UnsetPriority ∅) policies;
  Some (mkPA (pa_gk p0) 0 (pk_of (ms_pol st)) None (ms_inherited st) (ms_errors st) 0 0 (ms_origins st)).

(** [slices.Backward(slices.Sorted(maps.Keys(m)))]. *)
Definition keys_desc {V} (m : gmap Z V) : list Z :=
  reverse (sort_stable Z.compare (map fst (map_to_list m))).

(** [MergePolicies]: [Some None] is the zero [PolicyAtt]. *)
Definition MergePolicies (policies : list (PolicyAtt P)) (settings : string) :
    option (option (PolicyAtt P)) :=
  match policies with
  | [] => Some None
  | p0 :: _ =>
      match pk_as (pa_ir p0) with
      | None => Some None
      | Some _ =>
          let groups := groupPoliciesByHierarchicalPriority policies in
          mergedByHierarchy ← mapM (λ h, merge (default [] (groups !! h)) true settings)
                                   (keys_desc groups);
          out ← merge mergedByHierarchy false "";
          Some (Some out)
      end
  end.

(** ** Lemmas: groups *)

Definition level (policies : list (PolicyAtt P)) (h : Z) : list (PolicyAtt P) :=
  filter (λ p, pa_hierarchy p = h) policies.

Lemma group_lookup policies h :
  groupPoliciesByHierarchicalPriority policies !! h =
  match level policies h with [] => None | l => Some l end.
Proof.
  unfold groupPoliciesByHierarchicalPriority, level.
  induction policies as [|p ps IH] using rev_ind; [done|].
  rewrite foldl_app, filter_app, filter_cons, filter_nil. simpl. rewrite lookup_insert.
  case_decide as Hh; [|by rewrite app_nil_r].
  subst h. rewrite IH. by destruct (filter _ ps).
Qed.

Lemma group_get policies h :
  default [] (groupPoliciesByHierarchicalPriority policies !! h) = level policies h.
Proof. rewrite group_lookup. by destruct (level policies h). Qed.

Lemma elem_of_keys_desc {V} (m : gmap Z V) h : h ∈ keys_desc m ↔ is_Some (m !! h).
Proof.
  unfold keys_desc. rewrite elem_of_reverse, sort_stable_elem_of, list_elem_of_fmap. split.
  - intros ([k v] & -> & Hk%elem_of_map_to_list). by exists v.
  - intros [v Hv]. exists (h, v). split; [done|]. by apply elem_of_map_to_list.
Qed.

Lemma keys_desc_NoDup {V} (m : gmap Z V) : NoDup (keys_desc m).
Proof.
  unfold keys_desc. rewrite reverse_Permutation, (sort_stable_perm Z.compare). apply NoDup_fst_map_to_list.
Qed.

Lemma level_ne policies h : h ∈ keys_desc (groupPoliciesByHierarchicalPriority policies) →
  level policies h ≠ [].
Proof. rewrite elem_of_keys_desc, group_lookup. intros [l Hl]. by destruct (level policies h). Qed.

Lemma keys_level policies p :
  p ∈ policies → pa_hierarchy p ∈ keys_desc (groupPoliciesByHierarchicalPriority policies).
Proof.
  intros Hp. rewrite elem_of_keys_desc, group_lookup.
  destruct (level policies (pa_hierarchy p)) eqn:E; [|by eexists].
  assert (p ∈ level policies (pa_hierarchy p)) as Hin by (by apply list_elem_of_filter).
  rewrite E in Hin. by apply not_elem_of_nil in Hin.
Qed.

(** The policies in merge order: levels from the highest down, input order inside. *)
Definition merge_order (policies : list (PolicyAtt P)) : list (PolicyAtt P) :=
  flat_map (level policies) (keys_desc (groupPoliciesByHierarchicalPriority policies)).

Lemma merge_order_elem policies p : p ∈ merge_order policies ↔ p ∈ policies.
Proof.
  unfold merge_order. rewrite list_elem_of_In, in_flat_map. split.
  - intros (h & _ & Hp%list_elem_of_In). by apply list_elem_of_filter in Hp as [_ ?].
  - intros Hp. exists (pa_hierarchy p). split; apply list_elem_of_In; [by apply keys_level|].
    by apply list_elem_of_filter.
Qed.

(** ** Lemmas: the loop *)

Context (Good : T → Prop) `{!MergeFnLaws mergeFn Good}.

(** The assertions of the loop succeed on policies of the plugin's type. *)
Definition typed (policies : list (PolicyAtt P)) : Prop :=
  Forall (λ p, ∃ t, pk_as (pa_ir p) = Some t ∧ Good t) policies.

Definition wrapped_errors (policies : list (PolicyAtt P)) : list error :=
  flat_map (λ p, WrapPolicyErrors (pa_ref p) (pa_errors p)) policies.

Lemma merge_loop_total same settings policies st :
  typed policies → Good (ms_pol st) →
  ∃ st', merge_loop same settings st policies = Some st' ∧ Good (ms_pol st') ∧
         ms_errors st' = ms_errors st ++ wrapped_errors policies.
Proof.
  intros Ht. revert st. induction Ht as [|p ps [t [Hp Hg]] Hps IH]; intros st Hst; simpl.
  - exists st. by rewrite app_nil_r.
  - unfold merge_step. rewrite Hp. simpl. case_match; simpl.
    + match goal with |- context [merge_loop _ _ ?s ps] => destruct (IH s) as (st' & -> & Hg' & He); [done|] end.
      exists st'. split_and!; [done..|]. rewrite He. simpl. by rewrite <- app_assoc.
    + edestruct (mfl_step (ms_pol st) t) as (m & o & -> & Hm); [done..|]. simpl.
      match goal with |- context [merge_loop _ _ ?s ps] => destruct (IH s) as (st' & -> & Hg' & He); [done|] end.
      exists st'. split_and!; [done..|]. rewrite He. simpl. by rewrite <- app_assoc.
Qed.

Lemma merge_total same settings policies :
  policies ≠ [] → typed policies →
  ∃ out, merge policies same settings = Some out ∧ (∃ t, pk_as (pa_ir out) = Some t ∧ Good t) ∧
         pa_errors out = wrapped_errors policies ∧ pa_ref out = None.
Proof.
  intros Hne Ht. destruct policies as [|p0 ps]; [done|]. unfold merge. simpl head.
  destruct (merge_loop_total same settings (p0 :: ps) (mkMS pk_zero [] UnsetPriority ∅) Ht)
    as (st & Hst & Hg & He); [apply mfl_zero|].
  rewrite Hst. simpl in *. eexists. split; [done|]. simpl. rewrite pk_as_of. eauto.
Qed.

(** The errors collected so far do not influence the merge. *)
Lemma merge_loop_same_config same settings l sa sb :
  typed l → Good (ms_pol sa) → ms_pol sa = ms_pol sb → ms_origins sa = ms_origins sb →
  ms_inherited sa = ms_inherited sb →
  ∃ s1 s2, merge_loop same settings sa l = Some s1 ∧ merge_loop same settings sb l = Some s2 ∧
    ms_pol s1 = ms_pol s2 ∧ ms_origins s1 = ms_origins s2 ∧ ms_inherited s1 = ms_inherited s2.
Proof.
  intros Hl. revert sa sb. induction Hl as [|p l (u & Hu & Hgu) Hl IH]; intros sa sb Hg Hp Ho Hi; simpl;
    [by exists sa, sb|].
  unfold merge_step. rewrite Hu. simpl. case_match; simpl; [by apply IH|].
  rewrite <- Hp, <- Ho. edestruct (mfl_step (ms_pol sa) u) as (m & o & -> & Hm); [done..|].
  simpl. apply IH; simpl; [done..|]. by destruct same.
Qed.

Lemma typed_level policies h : typed policies → typed (level policies h).
Proof. unfold typed, level. rewrite !Forall_forall. intros Ht p [_ Hp]%list_elem_of_filter. by apply Ht. Qed.

Lemma wrapped_stable ref policies :
  WrapPolicyErrors ref (wrapped_errors policies) = wrapped_errors policies.
Proof.
  unfold wrapped_errors. induction policies as [|p ps IH]; [done|]. simpl.
  rewrite WrapPolicyErrors_app, IH. f_equal. apply wrap_wrap.
Qed.

Lemma merge_levels_total policies settings hs :
  typed policies → (∀ h, h ∈ hs → level policies h ≠ []) →
  ∃ ms, mapM (λ h, merge (default [] (groupPoliciesByHierarchicalPriority policies !! h)) true settings) hs
          = Some ms ∧
        typed ms ∧ length ms = length hs ∧
        wrapped_errors ms = flat_map (λ h, wrapped_errors (level policies h)) hs.
Proof.
  intros Ht. induction hs as [|h hs IH]; intros Hh.
  - exists []. split_and!; try done. constructor.
  - destruct IH as (ms & Hms & Htm & Hl & He); [intros k Hk; apply Hh; by right|].
    destruct (merge_total true settings (level policies h)) as (out & Ho & Hout & Hoe & Hr);
      [apply Hh; by left|by apply typed_level|].
    exists (out :: ms). simpl. rewrite group_get, Ho. simpl. rewrite Hms. simpl.
    split_and!; [done|by constructor|by rewrite Hl|].
    by rewrite He, Hr, Hoe, wrapped_stable.
Qed.

Lemma flat_map_flat_map {A B C} (f : A → list B) (g : B → list C) l :
  flat_map g (flat_map f l) = flat_map (λ x, flat_map g (f x)) l.
Proof. induction l as [|x l IH]; [done|]. simpl. by rewrite flat_map_app, IH. Qed.

Lemma MergePolicies_total policies settings :
  policies ≠ [] → typed policies →
  ∃ out, MergePolicies policies settings = Some (Some out) ∧
         pa_errors out = wrapped_errors (merge_order policies) ∧ pa_ref out = None.
Proof.
  intros Hne Ht. destruct (merge_levels_total policies settings
    (keys_desc (groupPoliciesByHierarchicalPriority policies)) Ht) as (ms & Hms & Htm & Hl & He);
    [apply level_ne|].
  destruct policies as [|p0 ps]; [done|]. unfold MergePolicies.
  destruct (pk_as (pa_ir p0)) as [t0|] eqn:Ep0;
    [|apply Forall_cons in Ht as [(t0 & Ht & _) _]; congruence].
  simpl. rewrite Hms. simpl.
  destruct (merge_total false "" ms) as (out & Hout & _ & Hoe & Hr); [|done|].
  - intros ->. pose proof (keys_level (p0 :: ps) p0) as Hk.
    destruct (keys_desc _); [|done]. by apply not_elem_of_nil in Hk; [|left].
  - rewrite Hout. exists out. split_and!; [done| |done].
    rewrite Hoe, He. unfold merge_order, wrapped_errors. by rewrite flat_map_flat_map.
Qed.

(** [MergePolicies] is total on policies of the plugin's type and loses no error:
    it neither panics nor returns the zero value, and the errors of the merged
    policy are exactly the errors of all the policies, each attributed to the
    policy it came from, level by level from the highest hierarchical priority
    down and in attachment order within a level. *)
Theorem merge_policies_errors policies settings :
  policies ≠ [] → typed policies →
  ∃ out, MergePolicies policies settings = Some (Some out) ∧
         pa_errors out = wrapped_errors (merge_order policies) ∧ pa_ref out = None.
Proof. apply MergePolicies_total. Qed.

(** A policy with errors is ignored in the merge of its level: dropping it
    changes neither the merged configuration nor the recorded origins. *)
Theorem invalid_policy_ignored l1 bad l2 same settings st :
  typed (l1 ++ bad :: l2) → pa_errors bad ≠ [] → Good (ms_pol st) →
  ∃ s1 s2, merge_loop same settings st (l1 ++ bad :: l2) = Some s1 ∧
           merge_loop same settings st (l1 ++ l2) = Some s2 ∧
           ms_pol s1 = ms_pol s2 ∧ ms_origins s1 = ms_origins s2 ∧ ms_inherited s1 = ms_inherited s2.
Proof.
  unfold typed. rewrite Forall_app, Forall_cons. intros (H1 & (t & Hbad & Hgb) & H2) Hb Hg.
  revert st Hg. induction H1 as [|p l1 (u & Hu & Hgu) H1 IH]; intros st Hg; simpl.
  - unfold merge_step at 1. rewrite Hbad. simpl. destruct (pa_errors bad) as [|e es]; [done|]. simpl.
    apply merge_loop_same_config; done.
  - unfold merge_step. rewrite Hu. simpl. case_match; simpl; [by apply IH|].
    edestruct (mfl_step (ms_pol st) u) as (m & o & -> & Hm); [done..|]. by apply IH.
Qed.

(** ** The fold on valid policies *)

Definition valid (policies : list (PolicyAtt P)) : Prop := Forall (λ p, pa_errors p = []) policies.

(** The calls of [mergeFn] for a list of policies without errors. *)
Fixpoint fold_valid (same : bool) (settings : string) (acc : T * MergeOrigins)
    (policies : list (PolicyAtt P)) : option (T * MergeOrigins) :=
  match policies with
  | [] => Some acc
  | p :: ps =>
      t ← pk_as (pa_ir p);
      acc' ← mergeFn acc.1 t (pa_ref p) (pa_origins p)
               (mkMO (GetMergeStrategy (pa_inherited p) same) same) acc.2 settings;
      fold_valid same settings acc' ps
  end.

Lemma merge_loop_valid same settings policies st :
  valid policies →
  merge_loop same settings st policies =
  '(t, o) ← fold_valid same settings (ms_pol st, ms_origins st) policies;
  Some (mkMS t (ms_errors st)
    (if same then default (ms_inherited st) (pa_inherited <$> last policies) else ms_inherited st) o).
Proof.
  intros Hv. revert st. induction Hv as [|p ps He Hv IH]; intros st; simpl.
  - by destruct st, same.
  - unfold merge_step. rewrite He. destruct (pk_as (pa_ir p)) as [t|]; simpl; [|done].
    destruct (mergeFn _ _ _ _ _ _ _) as [[m o]|]; simpl; [|done]. rewrite IH. simpl.
    rewrite app_nil_r. destruct (fold_valid _ _ _ ps) as [[t' o']|]; simpl; [|done]. do 2 f_equal.
    destruct same; [|done]. rewrite last_cons. by destruct (last ps).
Qed.

(** A list without errors merges to the fold of its policies. *)
Lemma merge_valid same settings policies p0 :
  head policies = Some p0 → valid policies →
  merge policies same settings =
  '(t, o) ← fold_valid same settings (pk_zero, ∅) policies;
  Some (mkPA (pa_gk p0) 0 (pk_of t) None
    (if same then default UnsetPriority (pa_inherited <$> last policies) else UnsetPriority) [] 0 0 o).
Proof.
  intros Hh Hv. unfold merge. rewrite Hh. simpl. rewrite merge_loop_valid by done. simpl.
  by destruct (fold_valid _ _ _ _) as [[t o]|].
Qed.

(** Policies without errors that all sit at one level merge to the fold of them, passed once
    more through the merge function. *)
Lemma MergePolicies_one_level settings policies p0 t0 h :
  head policies = Some p0 → pk_as (pa_ir p0) = Some t0 → (∀ p, p ∈ policies → pa_hierarchy p = h) → valid policies →
  MergePolicies policies settings =
  '(t, o) ← fold_valid true settings (pk_zero, ∅) policies;
  '(u, o) ← mergeFn pk_zero t None o
              (mkMO (GetMergeStrategy (default UnsetPriority (pa_inherited <$> last policies)) false) false) ∅ "";
  Some (Some (mkPA (pa_gk p0) 0 (pk_of u) None UnsetPriority [] 0 0 o)).
Proof.
  intros Hh Ht Hl Hv. destruct policies as [|q ps]; [done|]. injection Hh as ->.
  assert (level (p0 :: ps) h = p0 :: ps) as Hlev.
  { unfold level. clear Ht Hv. induction (p0 :: ps) as [|p l IH]; [done|].
    rewrite filter_cons_True by (apply Hl; left). f_equal. apply IH. intros x Hx. apply Hl. by right. }
  assert (keys_desc (groupPoliciesByHierarchicalPriority (p0 :: ps)) = [h]) as Hk.
  { apply Permutation_singleton_r, NoDup_Permutation; [apply keys_desc_NoDup|apply NoDup_singleton|].
    intros k. rewrite elem_of_keys_desc, list_elem_of_singleton, group_lookup. split.
    - intros [l Hk]. destruct (level (p0 :: ps) k) as [|p l'] eqn:E; [done|].
      assert (p ∈ level (p0 :: ps) k) as [<- Hp]%list_elem_of_filter by (rewrite E; left). by apply Hl.
    - intros ->. rewrite Hlev. by eexists. }
  unfold MergePolicies. rewrite Ht, Hk. simpl mapM. rewrite group_get, Hlev, (merge_valid _ _ _ p0) by done.
  destruct (fold_valid true settings (pk_zero, ∅) (p0 :: ps)) as [[t o]|]; [|done]. cbn -[last].
  unfold merge. cbn -[last]. unfold merge_step. cbn -[last]. rewrite pk_as_of. cbn -[last].
  destruct (mergeFn _ _ _ _ _ _ _) as [[u o']|]; done.
Qed.

End merge.

(** ** A concrete merge function, for the witnesses: one optional field *)

#[local] Program Instance ex_kind : PolicyKind (option Z) (option Z) :=
  {| pk_as := Some; pk_of := id; pk_zero := None |}.
Next Obligation. done. Qed.

Definition ex_mergeFn : MergeFn (option Z) := λ p1 p2 ref o opts origins _,
  Some (if IsMergeable (go_ptr p1) (go_ptr p2) opts
        then (p2, mo_set_one origins "field" ref o) else (p1, origins)).

#[local] Instance ex_mergeFn_laws : MergeFnLaws (P := option Z) ex_mergeFn (λ _, True).
Proof.
  split; [done|]. intros. unfold ex_mergeFn.
  destruct (IsMergeable _ _ _); by eexists _, _.
Qed.

Definition ex_pol (h : Z) (v : option Z) (errs : list error) : PolicyAtt (option Z) :=
  mkPA (mkGK "g" "K") 0 v (Some (mkAPR "g" "K" "p" "ns" "")) UnsetPriority errs h 0 ∅.

Definition ex_pols : list (PolicyAtt (option Z)) :=
  [ex_pol 0 (Some 1%Z) []; ex_pol 1 (Some 2%Z) [EMsg "bad"]; ex_pol 1 (Some 3%Z) []].

Lemma merge_policies_errors_witness :
  ∃ out, MergePolicies ex_mergeFn ex_pols "" = Some (Some out) ∧
    pa_errors out = [EPolicy (Some (mkAPR "g" "K" "p" "ns" "")) (EMsg "bad")].
Proof.
  destruct (merge_policies_errors ex_mergeFn (λ _, True) ex_pols "") as (out & Ho & He & _);
    [discriminate|repeat constructor; by eexists|].
  exists out. split; [exact Ho|]. rewrite He. vm_compute. reflexivity.
Defined.

Lemma invalid_policy_ignored_witness :
  ∃ s1 s2, merge_loop ex_mergeFn true "" (mkMS None [] UnsetPriority ∅) ex_pols = Some s1 ∧
    merge_loop ex_mergeFn true "" (mkMS None [] UnsetPriority ∅)
      [ex_pol 0 (Some 1%Z) []; ex_pol 1 (Some 3%Z) []] = Some s2 ∧ ms_pol s1 = ms_pol s2.
Proof.
  destruct (invalid_policy_ignored ex_mergeFn (λ _, True) [ex_pol 0 (Some 1%Z) []]
    (ex_pol 1 (Some 2%Z) [EMsg "bad"]) [ex_pol 1 (Some 3%Z) []] true "" (mkMS None [] UnsetPriority ∅))
    as (s1 & s2 & H1 & H2 & H3 & _);
    [repeat constructor; by eexists|discriminate|exact I|].
  exists s1, s2. split; [exact H1|]. split; [exact H2|exact H3].
Defined.
