(* ===== verification/TrafficPolicyMerge.v ===== *)
(** * Merging of TrafficPolicy IRs
      (pkg/kgateway/extensions2/plugins/trafficpolicy/merge.go, pkg/kgateway/utils/any.go)

    A TrafficPolicy has 27 optional sub-policies.  Most are moved as a whole
    ([defaultMerge]); providers of external processing and authorization,
    transformations and access lists have a deep merge of their own.  A sub-IR
    that merging never looks into is a value of the type [V].  The merge writes
    to the accumulator [p1] and to the merge origins, which are returned; a
    panic is [None].  The deep branches copy before they write, so values
    stand for the pointers of the source. *)

From S2P Require Import Prelude IR PolicyMerge.

(** ** JSON values as [encoding/json] decodes them into [any] *)

#[warnings="-register-all"]
Inductive json :=
| JNull | JBool (b : bool) | JNum (n : Z) | JStr (s : string)
| JArr (l : list json) | JObj (m : gmap string json).

Definition as_str (j : option json) : option string :=
  match j with Some (JStr s) => Some s | _ => None end.
Definition as_arr (j : option json) : option (list json) :=
  match j with Some (JArr l) => Some l | _ => None end.
Definition as_obj (j : option json) : option (gmap string json) :=
  match j with Some (JObj m) => Some m | _ => None end.

(** [a != b] on interface values: a panic when both hold maps, or both slices. *)
Definition go_neq (a b : json) : option bool :=
  match a, b with
  | JNull, JNull => Some false
  | JBool x, JBool y => Some (negb (Bool.eqb x y))
  | JNum x, JNum y => Some (negb (x =? y)%Z)
  | JStr x, JStr y => Some (negb (String.eqb x y))
  | JArr _, JArr _ | JObj _, JObj _ => None
  | _, _ => Some true
  end.

(** The protobuf and JSON libraries: [Any] messages, and the JSON texts they
    wrap as [StringValue]s. *)
Class JsonLib (Any Text : Type) := {
  text_empty_object : Text;
  json_marshal : json → error + Text;
  json_unmarshal : Text → error + json;
  wrap_text : Text → Any * option error;
  unwrap_text : Any → error + Text }.

(** Their documented behaviour: what was marshalled unmarshals to the same value,
    and ["{}"] is the empty object. *)
Class JsonLaws (Any Text : Type) `{JsonLib Any Text} : Prop := {
  json_roundtrip : ∀ j t, json_marshal j = inr t → json_unmarshal t = inr j;
  wrap_roundtrip : ∀ t a, wrap_text t = (a, None) → unwrap_text a = inr t;
  empty_object_ok : snd (wrap_text text_empty_object) = None;
  empty_object_json : json_unmarshal text_empty_object = inr (JObj ∅) }.

(** ** The policy *)

(** The fields that are moved as a whole. *)
Inductive PlainField :=
| localRateLimit | globalRateLimit | cors | csrf | headerModifiers | requestMirror
| autoHostRewrite | retry | timeouts | internalRedirect | rbac | jwt | compression
| decompression | basicAuth | urlRewrite | apiKeyAuth | oauth2 | tracing | faultInjection
| statPrefix | httpUpgrade.
#[global] Instance PlainField_eq_dec : EqDecision PlainField.
Proof. solve_decision. Defined.

Definition all_plain : list PlainField :=
  [localRateLimit; globalRateLimit; cors; csrf; headerModifiers; requestMirror;
   autoHostRewrite; retry; timeouts; internalRedirect; rbac; jwt; compression;
   decompression; basicAuth; urlRewrite; apiKeyAuth; oauth2; tracing; faultInjection;
   statPrefix; httpUpgrade].

#[global] Program Instance PlainField_finite : finite.Finite PlainField :=
  {| finite.enum := all_plain |}.
Next Obligation. apply (bool_decide_unpack _). by vm_compute. Qed.
Next Obligation. intros f. apply (bool_decide_unpack _). by destruct f; vm_compute. Qed.

Record DynamicModuleFilterPerRoute (Any : Type) := mkDM {
  dm_module : option string;
  dm_filter_name : string;
  dm_per_route_config_name : string;
  dm_filter_config : option Any }.
Arguments mkDM {Any}. Arguments dm_module {Any}. Arguments dm_filter_name {Any}.
Arguments dm_per_route_config_name {Any}. Arguments dm_filter_config {Any}.

(** [rustformationIR] and [httpACLIR]: a pointer to a dynamic module config. *)
Record dynModIR (Any : Type) := mkDMIR { config : option (DynamicModuleFilterPerRoute Any) }.
Arguments mkDMIR {Any}. Arguments config {Any}.

(** [extprocIR] and [extAuthIR]. *)
Record providersIR (V : Type) := mkProv {
  perProviderConfig : list V;
  disableAllProviders : bool;
  providerNames : gset string }.
Arguments mkProv {V}. Arguments perProviderConfig {V}. Arguments disableAllProviders {V}.
Arguments providerNames {V}.

(** [bufferIR]: [perRoute] and what its [GetBuffer] returns. *)
Record bufferIR (V : Type) := mkBuffer { perRoute : option (option V); buf_stage : option V }.
Arguments mkBuffer {V}. Arguments perRoute {V}. Arguments buf_stage {V}.

Record TrafficPolicyMergeOpts := mkTPOpts {
  o_extAuth : string; o_extProc : string; o_transformation : string; o_acl : string }.

(** [TrafficPolicyMergeOpts.Merge]. *)
Definition or_else (a b : string) : string := if String.eqb a "" then b else a.
Definition mergeOptsMerge (o other : TrafficPolicyMergeOpts) : TrafficPolicyMergeOpts :=
  mkTPOpts (or_else (o_extAuth o) (o_extAuth other)) (or_else (o_extProc o) (o_extProc other))
    (or_else (o_transformation o) (o_transformation other)) (or_else (o_acl o) (o_acl other)).

Definition zeroTPOpts : TrafficPolicyMergeOpts := mkTPOpts "" "" "" "".

Section traffic_policy.
Context {V Any Text : Type} `{JsonLib Any Text}.

Record trafficPolicySpecIr := mkTP {
  sp_buffer : option (bufferIR V);
  sp_extProc : option (providersIR V);
  sp_rustformation : option (dynModIR Any);
  sp_extAuth : option (providersIR V);
  sp_httpACL : option (dynModIR Any);
  sp_plain : gmap PlainField V }.

Definition zeroTP : trafficPolicySpecIr := mkTP None None None None None ∅.

Definition set_buffer v p := mkTP v (sp_extProc p) (sp_rustformation p) (sp_extAuth p) (sp_httpACL p) (sp_plain p).
Definition set_extProc v p := mkTP (sp_buffer p) v (sp_rustformation p) (sp_extAuth p) (sp_httpACL p) (sp_plain p).
Definition set_rustformation v p := mkTP (sp_buffer p) (sp_extProc p) v (sp_extAuth p) (sp_httpACL p) (sp_plain p).
Definition set_extAuth v p := mkTP (sp_buffer p) (sp_extProc p) (sp_rustformation p) v (sp_httpACL p) (sp_plain p).
Definition set_httpACL v p := mkTP (sp_buffer p) (sp_extProc p) (sp_rustformation p) (sp_extAuth p) v (sp_plain p).
Definition set_plain (f : PlainField) (v : option V) p :=
  mkTP (sp_buffer p) (sp_extProc p) (sp_rustformation p) (sp_extAuth p) (sp_httpACL p)
    (partial_alter (λ _, v) f (sp_plain p)).

(** [fieldAccessor]. *)
Record fieldAccessor (A : Type) := mkFA {
  fa_get : trafficPolicySpecIr → option A;
  fa_set : option A → trafficPolicySpecIr → trafficPolicySpecIr }.
Arguments mkFA {A}. Arguments fa_get {A}. Arguments fa_set {A}.

Definition acc_plain (f : PlainField) : fieldAccessor V := mkFA (λ p, sp_plain p !! f) (set_plain f).
Definition acc_buffer : fieldAccessor (bufferIR V) := mkFA sp_buffer set_buffer.
Definition acc_extProc : fieldAccessor (providersIR V) := mkFA sp_extProc set_extProc.
Definition acc_extAuth : fieldAccessor (providersIR V) := mkFA sp_extAuth set_extAuth.
Definition acc_rustformation : fieldAccessor (dynModIR Any) := mkFA sp_rustformation set_rustformation.
Definition acc_httpACL : fieldAccessor (dynModIR Any) := mkFA sp_httpACL set_httpACL.

Abbreviation MergeFunc :=
  (trafficPolicySpecIr → trafficPolicySpecIr → option AttachedPolicyRef → MergeOrigins →
   MergeOptions → MergeOrigins → TrafficPolicyMergeOpts → option (trafficPolicySpecIr * MergeOrigins)).

(** [defaultMerge]. *)
Definition defaultMerge {A} (acc : fieldAccessor A) (fieldName : string)
    (p1 p2 : trafficPolicySpecIr) (p2Ref : option AttachedPolicyRef) (p2MergeOrigins : MergeOrigins)
    (opts : MergeOptions) (mergeOrigins : MergeOrigins) : trafficPolicySpecIr * MergeOrigins :=
  let p1Field := fa_get acc p1 in
  let p2Field := fa_get acc p2 in
  let set := (fa_set acc p2Field p1, mo_set_one mergeOrigins fieldName p2Ref p2MergeOrigins) in
  if negb (IsMergeable (go_ptr p1Field) (go_ptr p2Field) opts) then (p1, mergeOrigins) else
  match mo_strategy opts with
  | AugmentedDeepMerge | OverridableDeepMerge =>
      match p1Field with Some _ => (p1, mergeOrigins) | None => set end
  | AugmentedShallowMerge | OverridableShallowMerge => set
  | OtherStrategy _ => (p1, mergeOrigins)
  end.

(** The merge functions that only call [defaultMerge]. *)
Definition plainMerge (f : PlainField) (name : string) : MergeFunc :=
  λ p1 p2 ref o2 opts o1 _, Some (defaultMerge (acc_plain f) name p1 p2 ref o2 opts o1).

Definition mergeJwt : MergeFunc := plainMerge jwt "jwt".
Definition mergeOAuth : MergeFunc := plainMerge oauth2 "oidc".
Definition mergeLocalRateLimit : MergeFunc := plainMerge localRateLimit "rateLimit.local".
Definition mergeGlobalRateLimit : MergeFunc := plainMerge globalRateLimit "rateLimit.global".
Definition mergeCORS : MergeFunc := plainMerge cors "cors".
Definition mergeCSRF : MergeFunc := plainMerge csrf "csrf".
Definition mergeHeaderModifiers : MergeFunc := plainMerge headerModifiers "headerModifiers".
Definition mergeRequestMirror : MergeFunc := plainMerge requestMirror "requestMirror".
Definition mergeHTTPUpgrade : MergeFunc := plainMerge httpUpgrade "httpUpgrade".
Definition mergeAutoHostRewrite : MergeFunc := plainMerge autoHostRewrite "autoHostRewrite".
Definition mergeStatPrefix : MergeFunc := plainMerge statPrefix "statPrefix".
Definition mergeTimeouts : MergeFunc := plainMerge timeouts "timeouts".
Definition mergeRBAC : MergeFunc := plainMerge rbac "rbac".
Definition mergeAPIKeyAuth : MergeFunc := plainMerge apiKeyAuth "apiKeyAuth".
Definition mergeRetry : MergeFunc := plainMerge retry "retry".
Definition mergeInternalRedirect : MergeFunc := plainMerge internalRedirect "internalRedirect".
Definition mergeBasicAuth : MergeFunc := plainMerge basicAuth "basicAuth".
Definition mergeURLRewrite : MergeFunc := plainMerge urlRewrite "urlRewrite".
Definition mergeRouteTracing : MergeFunc := plainMerge tracing "tracing".
Definition mergeFaultInjection : MergeFunc := plainMerge faultInjection "faultInjection".

Definition mergeCompression : MergeFunc := λ p1 p2 ref o2 opts o1 tp,
  '(p1, o1) ← plainMerge compression "compression" p1 p2 ref o2 opts o1 tp;
  plainMerge decompression "decompression" p1 p2 ref o2 opts o1 tp.

Definition mergeBuffer : MergeFunc :=
  λ p1 p2 ref o2 opts o1 _, Some (defaultMerge acc_buffer "buffer" p1 p2 ref o2 opts o1).

(** [copyForMerge]. *)
Definition copyForMerge (p : option (providersIR V)) : providersIR V :=
  default (mkProv [] false ∅) p.

(** The deep branches of [mergeExtProc] and [mergeExtAuth]: [pre] is whether p2's
    configurations go first. *)
Definition deepMergeProviders (pre : bool) (acc : fieldAccessor (providersIR V)) (name : string)
    (p1 : trafficPolicySpecIr) (q2 : providersIR V) (ref : option AttachedPolicyRef)
    (o2 o1 : MergeOrigins) : trafficPolicySpecIr * MergeOrigins :=
  let q := copyForMerge (fa_get acc p1) in
  let '(q, o1) :=
    if bool_decide (0 < size (providerNames q2)) &&
       negb (bool_decide (providerNames q2 ⊆ providerNames q))
    then (mkProv (if pre then perProviderConfig q2 ++ perProviderConfig q
                  else perProviderConfig q ++ perProviderConfig q2)
            (disableAllProviders q) (providerNames q ∪ providerNames q2),
          mo_append o1 name ref o2)
    else (q, o1) in
  let '(q, o1) :=
    if disableAllProviders q2
    then (mkProv (perProviderConfig q) true (providerNames q), mo_set_one o1 name ref o2)
    else (q, o1) in
  (fa_set acc (Some q) p1, o1).

Definition override_strategy (s : string) (opts : MergeOptions) : MergeOptions :=
  if String.eqb s "" then opts
  else mkMO (ToInternalMergeStrategy s) (mo_same_hierarchy opts).

Definition mergeProviders (acc : fieldAccessor (providersIR V)) (name setting : string)
    (p1 p2 : trafficPolicySpecIr) (ref : option AttachedPolicyRef) (o2 : MergeOrigins)
    (opts : MergeOptions) (o1 : MergeOrigins) : option (trafficPolicySpecIr * MergeOrigins) :=
  let opts := override_strategy setting opts in
  if negb (IsMergeable (go_ptr (fa_get acc p1)) (go_ptr (fa_get acc p2)) opts) then Some (p1, o1) else
  match mo_strategy opts with
  | AugmentedDeepMerge =>
      q2 ← fa_get acc p2; Some (deepMergeProviders false acc name p1 q2 ref o2 o1)
  | OverridableDeepMerge =>
      q2 ← fa_get acc p2; Some (deepMergeProviders true acc name p1 q2 ref o2 o1)
  | _ => Some (defaultMerge acc name p1 p2 ref o2 opts o1)
  end.

Definition mergeExtProc : MergeFunc := λ p1 p2 ref o2 opts o1 tp,
  mergeProviders acc_extProc "extProc" (o_extProc tp) p1 p2 ref o2 opts o1.
Definition mergeExtAuth : MergeFunc := λ p1 p2 ref o2 opts o1 tp,
  mergeProviders acc_extAuth "extAuth" (o_extAuth tp) p1 p2 ref o2 opts o1.

(** ** Dynamic module configurations *)

(** [AnyToJson] and [JsonToAny]; a nil interface is [JNull]. *)
Definition AnyToJson (anyVal : option Any) : error + json :=
  match anyVal with
  | None => inr JNull
  | Some a =>
      match unwrap_text a with
      | inl e => inl (EWrap "failed to unmarshal Any to StringValue: " e)
      | inr t =>
          match json_unmarshal t with
          | inl e => inl (EWrap "failed to parse internal JSON string: " e)
          | inr j => inr j
          end
      end
  end.

Definition JsonToAny (obj : json) : error + Any :=
  match json_marshal obj with
  | inl e => inl (EWrap "failed to marshal object to JSON: " e)
  | inr t =>
      match wrap_text t with
      | (_, Some e) => inl (EWrap "failed to create Any message: " e)
      | (a, None) => inr a
      end
  end.

(** [copyWithFilterConfig]. *)
Definition copyWithFilterConfig (cfg : option (DynamicModuleFilterPerRoute Any)) (fc : Any) :
    DynamicModuleFilterPerRoute Any :=
  match cfg with
  | Some c => mkDM (dm_module c) (dm_filter_name c) (dm_per_route_config_name c) (Some fc)
  | None => mkDM None "" "" (Some fc)
  end.

(** The configuration a nil field starts from. *)
Definition emptyConfig (module name : string) : dynModIR Any :=
  mkDMIR (Some (mkDM (Some module) name name (Some (fst (wrap_text text_empty_object))))).

Definition mergeRustFormationActionListJson (action : string) (obj1 obj2 : gmap string json) :
    gmap string json :=
  match as_arr (obj1 !! action), as_arr (obj2 !! action) with
  | None, Some list2 => <[action := JArr list2]> obj1
  | Some list1, Some list2 => <[action := JArr (list1 ++ list2)]> obj1
  | _, None => obj1
  end.

Definition mergeRustFormationActionBody (obj1 obj2 : gmap string json) : gmap string json :=
  match obj2 !! "body" with Some body2 => <["body" := body2]> obj1 | None => obj1 end.

Definition mergeRustFormationRequestResponseJson (field : string) (m1 m2 : gmap string json) :
    gmap string json :=
  match as_obj (m1 !! field), as_obj (m2 !! field) with
  | None, Some obj2 => <[field := JObj obj2]> m1
  | Some obj1, Some obj2 =>
      let obj1 := mergeRustFormationActionListJson "add" obj1 obj2 in
      let obj1 := mergeRustFormationActionListJson "remove" obj1 obj2 in
      let obj1 := mergeRustFormationActionListJson "set" obj1 obj2 in
      <[field := JObj (mergeRustFormationActionBody obj1 obj2)]> m1
  | _, None => m1
  end.

(** [mergeRustformationJsonInPlace]: the first argument after the call. *)
Definition mergeRustformationJsonInPlace (obj1 obj2 : json) : error + json :=
  match obj1, obj2 with
  | JObj m1, JObj m2 =>
      let m1 := mergeRustFormationRequestResponseJson "response" m1 m2 in
      inr (JObj (mergeRustFormationRequestResponseJson "request" m1 m2))
  | _, _ => inl (EMsg "both arguments must be map[string]any")
  end.

Definition is_null (j : json) : bool := match j with JNull => true | _ => false end.

Definition mergeRustformation : MergeFunc := λ p1 p2 ref o2 opts o1 tp,
  let opts := override_strategy (o_transformation tp) opts in
  if negb (IsMergeable (go_ptr (sp_rustformation p1)) (go_ptr (sp_rustformation p2)) opts)
  then Some (p1, o1) else
  let deep :=
    let r1 := default (emptyConfig "rust_module" "rustformation") (sp_rustformation p1) in
    let p1 := set_rustformation (Some r1) p1 in
    c1 ← config r1;
    match AnyToJson (dm_filter_config c1) with
    | inl _ => Some (p1, o1)
    | inr p1Json =>
        r2 ← sp_rustformation p2;
        c2 ← config r2;
        match AnyToJson (dm_filter_config c2) with
        | inl _ => Some (p1, o1)
        | inr p2Json =>
            let finish (res : error + json) :=
              match (match res with inl e => inl e | inr j => JsonToAny j end) with
              | inl _ => Some (p1, o1)
              | inr anyMsg =>
                  Some (set_rustformation (Some (mkDMIR (Some (copyWithFilterConfig (config r1) anyMsg)))) p1,
                        mo_append o1 "transformation" ref o2)
              end in
            if is_null p1Json then finish (inr p2Json)
            else if is_null p2Json then Some (p1, o1)
            else match mo_strategy opts with
                 | OverridableDeepMerge => finish (mergeRustformationJsonInPlace p1Json p2Json)
                 | _ => finish (mergeRustformationJsonInPlace p2Json p1Json)
                 end
        end
    end in
  match mo_strategy opts with
  | AugmentedShallowMerge | OverridableShallowMerge =>
      Some (defaultMerge acc_rustformation "transformation" p1 p2 ref o2 opts o1)
  | AugmentedDeepMerge | OverridableDeepMerge => deep
  | OtherStrategy _ => Some (p1, o1)
  end.

(** ** Access lists *)

(** A conflict when both maps have the key and its values differ. *)
Definition detect_key_conflict (key : string) (dr1 dr2 : gmap string json) : option (list error) :=
  match dr1 !! key, dr2 !! key with
  | Some v1, Some v2 =>
      ne ← go_neq v1 v2;
      Some (if (ne : bool) then [EMsg ("denyResponse." +:+ key +:+ " conflict")] else [])
  | _, _ => Some []
  end.

(** [detectHttpACLMergeConflict]; the values quoted in the messages are left out. *)
Definition detectHttpACLMergeConflict (m1 m2 : gmap string json) : option (list error) :=
  let conflicts :=
    match as_str (m1 !! "defaultAction"), as_str (m2 !! "defaultAction") with
    | Some da1, Some da2 => if negb (String.eqb da1 da2) then [EMsg "defaultAction conflict"] else []
    | _, _ => [EMsg "defaultAction not set"]
    end in
  match as_obj (m1 !! "denyResponse"), as_obj (m2 !! "denyResponse") with
  | Some dr1, Some dr2 =>
      c1 ← detect_key_conflict "statusCode" dr1 dr2;
      c2 ← detect_key_conflict "blockedByHeaderName" dr1 dr2;
      Some (conflicts ++ c1 ++ c2)
  | _, _ => Some conflicts
  end.

(** Union of a list-valued key, the first map's elements first. *)
Definition union_key (key : string) (m1 m2 : gmap string json) : gmap string json :=
  match as_arr (m1 !! key), as_arr (m2 !! key) with
  | None, Some l2 => <[key := JArr l2]> m1
  | Some l1, Some l2 => <[key := JArr (l1 ++ l2)]> m1
  | _, None => m1
  end.

(** [mergeHttpACLJsonInPlace]: the first argument after the call. *)
Definition mergeHttpACLJsonInPlace (m1 m2 : gmap string json) : gmap string json :=
  let m1 := union_key "rules" m1 m2 in
  match as_obj (m2 !! "denyResponse") with
  | None => m1
  | Some dr2 =>
      match as_obj (m1 !! "denyResponse") with
      | None => <["denyResponse" := JObj dr2]> m1
      | Some dr1 =>
          let dr1 :=
            match dr1 !! "blockedByHeaderName", dr2 !! "blockedByHeaderName" with
            | None, Some v => <["blockedByHeaderName" := v]> dr1
            | _, _ => dr1
            end in
          <["denyResponse" := JObj (union_key "headers" dr1 dr2)]> m1
      end
  end.

Definition shallow_of (s : MergeStrategy) : MergeStrategy :=
  match s with
  | AugmentedDeepMerge => AugmentedShallowMerge
  | OverridableDeepMerge => OverridableShallowMerge
  | _ => s
  end.

Definition acl_opts (setting : string) (opts : MergeOptions) : MergeOptions :=
  if negb (String.eqb setting "") then mkMO (ToInternalMergeStrategy setting) (mo_same_hierarchy opts)
  else if mo_same_hierarchy opts then mkMO AugmentedDeepMerge (mo_same_hierarchy opts)
  else opts.

Definition mergeHttpACL : MergeFunc := λ p1 p2 ref o2 opts o1 tp,
  let opts := acl_opts (o_acl tp) opts in
  if negb (IsMergeable (go_ptr (sp_httpACL p1)) (go_ptr (sp_httpACL p2)) opts)
  then Some (p1, o1) else
  let deep :=
    let p1HasHttpACL := match sp_httpACL p1 with Some _ => true | None => false end in
    let a1 := default (emptyConfig "rust_module" "http-acl") (sp_httpACL p1) in
    let p1 := set_httpACL (Some a1) p1 in
    c1 ← config a1;
    match AnyToJson (dm_filter_config c1) with
    | inl _ => Some (p1, o1)
    | inr p1Json =>
        a2 ← sp_httpACL p2;
        c2 ← config a2;
        match AnyToJson (dm_filter_config c2) with
        | inl _ => Some (p1, o1)
        | inr p2Json =>
            let finish (j : json) :=
              match JsonToAny j with
              | inl _ => Some (p1, o1)
              | inr anyMsg =>
                  Some (set_httpACL (Some (mkDMIR (Some (copyWithFilterConfig (config a1) anyMsg)))) p1,
                        mo_append o1 "httpACL" ref o2)
              end in
            if negb p1HasHttpACL || is_null p1Json then finish p2Json
            else if is_null p2Json then Some (p1, o1)
            else match p1Json, p2Json with
                 | JObj p1Map, JObj p2Map =>
                     conflicts ← detectHttpACLMergeConflict p1Map p2Map;
                     match conflicts with
                     | _ :: _ =>
                         let p1 := if negb p1HasHttpACL then set_httpACL None p1 else p1 in
                         Some (defaultMerge acc_httpACL "httpACL" p1 p2 ref o2
                                 (mkMO (shallow_of (mo_strategy opts)) (mo_same_hierarchy opts)) o1)
                     | [] =>
                         match mo_strategy opts with
                         | OverridableDeepMerge => finish (JObj (mergeHttpACLJsonInPlace p2Map p1Map))
                         | _ => finish (JObj (mergeHttpACLJsonInPlace p1Map p2Map))
                         end
                     end
                 | _, _ => Some (p1, o1)
                 end
        end
    end in
  match mo_strategy opts with
  | AugmentedShallowMerge | OverridableShallowMerge =>
      Some (defaultMerge acc_httpACL "httpACL" p1 p2 ref o2 opts o1)
  | AugmentedDeepMerge | OverridableDeepMerge => deep
  | OtherStrategy _ => Some (p1, o1)
  end.

(** ** Buffering and HTTP upgrades *)

Definition bufferEnabled (b : option (bufferIR V)) : bool :=
  match b with Some (mkBuffer (Some (Some _)) _) => true | _ => false end.

Definition hasUpgrade (p : trafficPolicySpecIr) : bool :=
  match sp_plain p !! httpUpgrade with Some _ => true | None => false end.

Definition resolveBufferHTTPUpgradeConflict (p1 p2 : trafficPolicySpecIr) (opts : MergeOptions)
    (o1 : MergeOrigins) (p1HadBuffer p1HadHTTPUpgrade : bool) : trafficPolicySpecIr * MergeOrigins :=
  if negb (bufferEnabled (sp_buffer p1)) || negb (hasUpgrade p1) then (p1, o1) else
  let dropBuffer := (set_buffer None p1, delete "buffer" o1) in
  let dropUpgrade := (set_plain httpUpgrade None p1, delete "httpUpgrade" o1) in
  match mo_strategy opts with
  | AugmentedShallowMerge | AugmentedDeepMerge =>
      if p1HadHTTPUpgrade then dropBuffer else if p1HadBuffer then dropUpgrade else (p1, o1)
  | OverridableShallowMerge | OverridableDeepMerge =>
      if bufferEnabled (sp_buffer p2) then dropUpgrade
      else if hasUpgrade p2 then dropBuffer else (p1, o1)
  | OtherStrategy _ => (p1, o1)
  end.

Definition mergeFuncs : list MergeFunc :=
  [mergeExtProc; mergeRustformation; mergeExtAuth; mergeLocalRateLimit; mergeGlobalRateLimit;
   mergeCORS; mergeCSRF; mergeHeaderModifiers; mergeRequestMirror; mergeBuffer;
   mergeAutoHostRewrite; mergeTimeouts; mergeRetry; mergeInternalRedirect; mergeRBAC; mergeJwt;
   mergeCompression; mergeBasicAuth; mergeURLRewrite; mergeAPIKeyAuth; mergeOAuth;
   mergeRouteTracing; mergeFaultInjection; mergeHttpACL; mergeStatPrefix; mergeHTTPUpgrade].

Fixpoint run_merges (fs : list MergeFunc) (p2 : trafficPolicySpecIr) (ref : option AttachedPolicyRef)
    (o2 : MergeOrigins) (opts : MergeOptions) (tp : TrafficPolicyMergeOpts)
    (p1 : trafficPolicySpecIr) (o1 : MergeOrigins) : option (trafficPolicySpecIr * MergeOrigins) :=
  match fs with
  | [] => Some (p1, o1)
  | f :: fs => '(p1, o1) ← f p1 p2 ref o2 opts o1 tp; run_merges fs p2 ref o2 opts tp p1 o1
  end.

(** [MergeTrafficPolicies], on non-nil policies. *)
Definition MergeTrafficPolicies : MergeFunc := λ p1 p2 ref o2 opts o1 tp,
  let p1HadBuffer := bufferEnabled (sp_buffer p1) in
  let p1HadHTTPUpgrade := hasUpgrade p1 in
  '(p1, o1) ← run_merges mergeFuncs p2 ref o2 opts tp p1 o1;
  Some (resolveBufferHTTPUpgradeConflict p1 p2 opts o1 p1HadBuffer p1HadHTTPUpgrade).

(** [mergeTrafficPolicies]: [parse] decodes the merge settings. *)
Definition mergeTrafficPolicies (parse : string → error + TrafficPolicyMergeOpts) :
    MergeFn trafficPolicySpecIr := λ p1 p2 ref o2 opts o1 settings,
  if String.eqb settings "" then MergeTrafficPolicies p1 p2 ref o2 opts o1 zeroTPOpts
  else match parse settings with
       | inl _ => Some (p1, o1)
       | inr tp => MergeTrafficPolicies p1 p2 ref o2 opts o1 tp
       end.

End traffic_policy.
Arguments mkFA {V Any A}. Arguments fa_get {V Any A}. Arguments fa_set {V Any A}.

(** ** The outcome of one field

    Which value a field that is moved as a whole gets, and the origin recorded
    for it. *)

Definition isSome {A} (o : option A) : bool := match o with Some _ => true | None => false end.

Definition picks {A} (opts : MergeOptions) (v1 v2 : option A) : bool :=
  match mo_strategy opts with
  | OverridableShallowMerge => isSome v2
  | AugmentedShallowMerge | AugmentedDeepMerge | OverridableDeepMerge => negb (isSome v1) && isSome v2
  | OtherStrategy _ => false
  end.

Definition origin_of (ref : option AttachedPolicyRef) (o2 : MergeOrigins) (name : string) : gset string :=
  match ref with Some r => {[apr_id r]} | None => default ∅ (o2 !! name) end.

Definition field_outcome {A} (opts : MergeOptions) (ref : option AttachedPolicyRef) (o2 : MergeOrigins)
    (name : string) (v1 v2 : option A) (origin : option (gset string)) :
    option A * option (gset string) :=
  if picks opts v1 v2 then (v2, Some (origin_of ref o2 name)) else (v1, origin).

(** The name under which the origin of a field is recorded. *)
Definition field_name (f : PlainField) : string :=
  match f with
  | localRateLimit => "rateLimit.local" | globalRateLimit => "rateLimit.global" | cors => "cors"
  | csrf => "csrf" | headerModifiers => "headerModifiers" | requestMirror => "requestMirror"
  | autoHostRewrite => "autoHostRewrite" | retry => "retry" | timeouts => "timeouts"
  | internalRedirect => "internalRedirect" | rbac => "rbac" | jwt => "jwt"
  | compression => "compression" | decompression => "decompression" | basicAuth => "basicAuth"
  | urlRewrite => "urlRewrite" | apiKeyAuth => "apiKeyAuth" | oauth2 => "oidc"
  | tracing => "tracing" | faultInjection => "faultInjection" | statPrefix => "statPrefix"
  | httpUpgrade => "httpUpgrade"
  end.

#[global] Instance field_name_inj : Inj (=) (=) field_name.
Proof. intros f g. by destruct f, g. Qed.

Definition special_names : list string := ["extProc"; "extAuth"; "transformation"; "httpACL"].

Lemma field_name_special f n : n ∈ "buffer" :: special_names → field_name f ≠ n.
Proof. intros Hn Hf. rewrite <- Hf in Hn. apply (bool_decide_pack _) in Hn. by destruct f. Qed.

Lemma mo_set_one_lookup m n ref o k :
  mo_set_one m n ref o !! k = if decide (n = k) then Some (origin_of ref o n) else m !! k.
Proof. unfold mo_set_one, origin_of. destruct ref; rewrite lookup_insert; done. Qed.

Lemma mo_append_ne m n ref o k : k ≠ n → mo_append m n ref o !! k = m !! k.
Proof. intros. unfold mo_append. destruct ref; by rewrite lookup_insert_ne. Qed.

Section facts.
Context {V Any Text : Type} `{JsonLib Any Text}.

Abbreviation Spec := (@trafficPolicySpecIr V Any).
Abbreviation MF :=
  (Spec → Spec → option AttachedPolicyRef → MergeOrigins →
   MergeOptions → MergeOrigins → TrafficPolicyMergeOpts → option (Spec * MergeOrigins)).

Lemma defaultMerge_cases {A} (acc : fieldAccessor A) name (p1 p2 : Spec) ref o2 opts o1 :
  defaultMerge acc name p1 p2 ref o2 opts o1 =
  if picks opts (fa_get acc p1) (fa_get acc p2)
  then (fa_set acc (fa_get acc p2) p1, mo_set_one o1 name ref o2) else (p1, o1).
Proof.
  unfold defaultMerge, picks, IsMergeable, go_ptr.
  destruct (mo_strategy opts), (fa_get acc p1), (fa_get acc p2); reflexivity.
Qed.

(** A merge function tracks a field: it performs its outcome once ([b]), or
    leaves both the field and its origin alone. *)
Definition tracks {A} (g : Spec → option A) (name : string) (m : MF) (b : bool) : Prop :=
  ∀ p1 p2 ref o2 opts o1 tp p1' o1', m p1 p2 ref o2 opts o1 tp = Some (p1', o1') →
    (g p1', o1' !! name) =
    if b then field_outcome opts ref o2 name (g p1) (g p2) (o1 !! name) else (g p1, o1 !! name).

(** Exactly one of the flags is set. *)
Fixpoint once (bs : list bool) : bool :=
  match bs with [] => false | true :: bs => forallb negb bs | false :: bs => once bs end.

Lemma run_frame {A} (g : Spec → option A) name fs bs p1 p2 ref o2 opts o1 tp p1' o1' :
  Forall2 (tracks g name) fs bs → forallb negb bs = true →
  run_merges fs p2 ref o2 opts tp p1 o1 = Some (p1', o1') → (g p1', o1' !! name) = (g p1, o1 !! name).
Proof.
  intros Hf. revert p1 o1. induction Hf as [|m b fs bs Hm Hf IH]; intros p1 o1 Hb Hr; simpl in *.
  - by simplify_eq.
  - destruct (m p1 p2 ref o2 opts o1 tp) as [[q o]|] eqn:Em; simpl in Hr; [|done].
    destruct b; [done|]. rewrite (IH q o Hb Hr). by apply Hm in Em.
Qed.

Lemma run_once {A} (g : Spec → option A) name fs bs p1 p2 ref o2 opts o1 tp p1' o1' :
  Forall2 (tracks g name) fs bs → once bs = true →
  run_merges fs p2 ref o2 opts tp p1 o1 = Some (p1', o1') →
  (g p1', o1' !! name) = field_outcome opts ref o2 name (g p1) (g p2) (o1 !! name).
Proof.
  intros Hf. revert p1 o1. induction Hf as [|m b fs bs Hm Hf IH]; intros p1 o1 Hb Hr; simpl in *; [done|].
  destruct (m p1 p2 ref o2 opts o1 tp) as [[q o]|] eqn:Em; simpl in Hr; [|done].
  apply Hm in Em. destruct b.
  - by rewrite (run_frame g name fs bs q p2 ref o2 opts o tp p1' o1' Hf Hb Hr).
  - rewrite (IH q o Hb Hr). by injection Em as -> ->.
Qed.

(** The special functions write one origin and neither a plain field nor the buffer. *)
Definition stays (name : string) (p1 : Spec) (o1 : MergeOrigins) (r : Spec * MergeOrigins) : Prop :=
  sp_plain r.1 = sp_plain p1 ∧ sp_buffer r.1 = sp_buffer p1 ∧ ∀ k, k ≠ name → r.2 !! k = o1 !! k.

Definition confined (name : string) (m : MF) : Prop :=
  ∀ p1 p2 ref o2 opts o1 tp r, m p1 p2 ref o2 opts o1 tp = Some r → stays name p1 o1 r.

Lemma stays_refl name p1 o1 : stays name p1 o1 (p1, o1).
Proof. done. Qed.

Lemma set_one_confined (name : string) ref o2 (o1 : MergeOrigins) k :
  k ≠ name → mo_set_one o1 name ref o2 !! k = o1 !! k.
Proof. intros. rewrite mo_set_one_lookup. by case_decide. Qed.

(** Setters of the special fields. *)
Class SpecialAcc {A} (acc : fieldAccessor A) : Prop := {
  sa_plain : ∀ v (p : Spec), sp_plain (fa_set acc v p) = sp_plain p;
  sa_buffer : ∀ v (p : Spec), sp_buffer (fa_set acc v p) = sp_buffer p }.
#[local] Instance sa_extProc : SpecialAcc acc_extProc. Proof. done. Qed.
#[local] Instance sa_extAuth : SpecialAcc acc_extAuth. Proof. done. Qed.
#[local] Instance sa_rustformation : SpecialAcc acc_rustformation. Proof. done. Qed.
#[local] Instance sa_httpACL : SpecialAcc acc_httpACL. Proof. done. Qed.

Lemma default_stays {A} (acc : fieldAccessor A) `{!SpecialAcc acc} name (p0 p1 p2 : Spec) ref o2 opts o1 :
  sp_plain p1 = sp_plain p0 → sp_buffer p1 = sp_buffer p0 →
  stays name p0 o1 (defaultMerge acc name p1 p2 ref o2 opts o1).
Proof.
  intros Hp Hb. rewrite defaultMerge_cases. destruct (picks _ _ _); [|done].
  split_and!; simpl; [by rewrite sa_plain|by rewrite sa_buffer|]. intros. by apply set_one_confined.
Qed.

Lemma deep_stays pre acc `{!SpecialAcc acc} name (p1 : Spec) q2 ref o2 o1 :
  stays name p1 o1 (deepMergeProviders pre acc name p1 q2 ref o2 o1).
Proof.
  unfold deepMergeProviders.
  destruct (bool_decide _ && _), (disableAllProviders q2); split_and!; simpl;
    rewrite ?sa_plain, ?sa_buffer; try done; intros k Hk; by rewrite ?set_one_confined, ?mo_append_ne.
Qed.

(** Split the branches of a merge function that returned. *)
Ltac branches :=
  repeat match goal with
  | Hm : _ ≫= _ = Some _ |- _ => apply bind_Some in Hm as (? & ? & Hm)
  | Hm : match _ with _ => _ end = Some _ |- _ => case_match
  | Hm : (if _ then _ else _) = Some _ |- _ => case_match
  | Hm : Some _ = Some _ |- _ => injection Hm as <-
  | Hm : None = Some _ |- _ => discriminate Hm
  end;
  try apply stays_refl; try (apply default_stays; by repeat case_match); try (by apply deep_stays).

Lemma providers_confined acc `{!SpecialAcc acc} name setting :
  confined name (λ p1 p2 ref o2 opts o1 tp,
    mergeProviders acc name (setting tp) p1 p2 ref o2 opts o1).
Proof. intros p1 p2 ref o2 opts o1 tp r Hm. unfold mergeProviders in Hm. branches. Qed.

Lemma rustformation_confined : confined "transformation" mergeRustformation.
Proof.
  intros p1 p2 ref o2 opts o1 tp r Hm. unfold mergeRustformation in Hm. branches.
  all: split_and!; simpl; [done..|]; intros; by rewrite ?mo_append_ne.
Qed.

Lemma httpACL_confined : confined "httpACL" mergeHttpACL.
Proof.
  intros p1 p2 ref o2 opts o1 tp r Hm. unfold mergeHttpACL in Hm. branches.
  all: split_and!; simpl; [done..|]; intros; by rewrite ?mo_append_ne.
Qed.

(** ** Tracking through the list of merge functions *)

Lemma confined_plain name m f : name ∈ special_names → confined name m →
  tracks (λ p, sp_plain p !! f) (field_name f) m false.
Proof.
  intros Hn Hc p1 p2 ref o2 opts o1 tp p1' o1' Hm. apply Hc in Hm as (Hp & _ & Ho). simpl in *.
  rewrite Hp, Ho; [done|]. apply field_name_special. by right.
Qed.

Lemma confined_buffer name m : name ∈ special_names → confined name m →
  tracks sp_buffer "buffer" m false.
Proof.
  intros Hn Hc p1 p2 ref o2 opts o1 tp p1' o1' Hm. apply Hc in Hm as (_ & Hb & Ho). simpl in *.
  rewrite Hb, Ho; [done|]. intros <-. by apply (bool_decide_pack _) in Hn.
Qed.

Lemma plain_tracks f g name : name = field_name g →
  tracks (λ p, sp_plain p !! f) (field_name f) (plainMerge g name) (bool_decide (g = f)).
Proof.
  intros -> p1 p2 ref o2 opts o1 tp p1' o1' Hm. unfold plainMerge in Hm. injection Hm as Hm.
  rewrite defaultMerge_cases in Hm. simpl in Hm. unfold field_outcome.
  case_bool_decide as Hgf; [subst g|];
    destruct (picks opts (sp_plain p1 !! _) (sp_plain p2 !! _)); simplify_eq/=; try done.
  - by rewrite lookup_partial_alter, mo_set_one_lookup, !decide_True.
  - rewrite lookup_partial_alter_ne by done. rewrite mo_set_one_lookup, decide_False; [done|].
    by intros ->%(inj field_name).
Qed.

Lemma plain_tracks_buffer g name : name = field_name g →
  tracks sp_buffer "buffer" (plainMerge g name) false.
Proof.
  intros -> p1 p2 ref o2 opts o1 tp p1' o1' Hm. unfold plainMerge in Hm. injection Hm as Hm.
  rewrite defaultMerge_cases in Hm. destruct (picks _ _ _); simplify_eq/=; [|done].
  rewrite mo_set_one_lookup, decide_False; [done|]. apply field_name_special. by left.
Qed.

Lemma compression_tracks f :
  tracks (λ p, sp_plain p !! f) (field_name f) mergeCompression
    (bool_decide (compression = f) || bool_decide (decompression = f)).
Proof.
  intros p1 p2 ref o2 opts o1 tp p1' o1' Hm. unfold mergeCompression in Hm.
  destruct (plainMerge compression _ _ _ _ _ _ _ _) as [[q o]|] eqn:E1; simpl in Hm; [|done].
  apply (plain_tracks f) in E1, Hm; [|done..].
  rewrite Hm. do 2 case_bool_decide; subst; simpl; try done. by injection E1 as -> ->.
Qed.

Lemma compression_tracks_buffer : tracks sp_buffer "buffer" mergeCompression false.
Proof.
  intros p1 p2 ref o2 opts o1 tp p1' o1' Hm. unfold mergeCompression in Hm.
  destruct (plainMerge compression _ _ _ _ _ _ _ _) as [[q o]|] eqn:E1; simpl in Hm; [|done].
  apply plain_tracks_buffer in E1, Hm; [|done..]. by rewrite Hm.
Qed.

Lemma buffer_tracks_plain f : tracks (λ p, sp_plain p !! f) (field_name f) mergeBuffer false.
Proof.
  intros p1 p2 ref o2 opts o1 tp p1' o1' Hm. unfold mergeBuffer in Hm. injection Hm as Hm.
  rewrite defaultMerge_cases in Hm. destruct (picks _ _ _); simplify_eq/=; [|done].
  rewrite mo_set_one_lookup, decide_False; [done|]. apply not_eq_sym, field_name_special. by left.
Qed.

Lemma buffer_tracks : tracks sp_buffer "buffer" mergeBuffer true.
Proof.
  intros p1 p2 ref o2 opts o1 tp p1' o1' Hm. unfold mergeBuffer in Hm. injection Hm as Hm.
  rewrite defaultMerge_cases in Hm. unfold field_outcome. simpl in Hm.
  destruct (picks _ _ _); simplify_eq/=; [|done]. by rewrite mo_set_one_lookup.
Qed.

Ltac track :=
  first [by apply plain_tracks | by apply plain_tracks_buffer | apply compression_tracks
        | apply compression_tracks_buffer | apply buffer_tracks_plain | apply buffer_tracks
        | (eapply confined_plain || eapply confined_buffer);
          [|first [apply providers_confined; apply _ | apply rustformation_confined | apply httpACL_confined]];
          by apply (bool_decide_unpack _)].

Lemma mergeFuncs_track_plain f :
  ∃ bs, Forall2 (tracks (λ p, sp_plain p !! f) (field_name f)) mergeFuncs bs ∧ once bs = true.
Proof.
  eexists. split; [unfold mergeFuncs; repeat (apply Forall2_cons; split; [track|]); apply Forall2_nil; done|].
  by destruct f.
Qed.

Lemma mergeFuncs_track_buffer :
  ∃ bs, Forall2 (tracks sp_buffer "buffer") mergeFuncs bs ∧ once bs = true.
Proof.
  eexists. split; [unfold mergeFuncs; repeat (apply Forall2_cons; split; [track|]); apply Forall2_nil; done|].
  done.
Qed.

(** ** Merging does not panic

    [well_formed]: the dynamic-module configs are set, and an access list compares
    only scalars when it looks for conflicts. *)

Context `{!JsonLaws Any Text}.

Definition composite (j : json) : bool := match j with JArr _ | JObj _ => true | _ => false end.
Definition scalar_key (dr : gmap string json) (k : string) : bool :=
  match dr !! k with Some v => negb (composite v) | None => true end.
Definition acl_ok (j : json) : bool :=
  match j with
  | JObj m =>
      match as_obj (m !! "denyResponse") with
      | Some dr => scalar_key dr "statusCode" && scalar_key dr "blockedByHeaderName"
      | None => true
      end
  | _ => true
  end.

Definition acl_good (a : dynModIR Any) : Prop :=
  ∃ c, config a = Some c ∧ ∀ j, AnyToJson (dm_filter_config c) = inr j → acl_ok j = true.

Definition well_formed (p : Spec) : Prop :=
  (∀ r, sp_rustformation p = Some r → is_Some (config r)) ∧
  (∀ a, sp_httpACL p = Some a → acl_good a).

Lemma any_roundtrip j a : JsonToAny j = inr a → AnyToJson (Some a) = inr j.
Proof.
  unfold JsonToAny, AnyToJson. destruct (json_marshal j) as [|t] eqn:Em; [done|].
  destruct (wrap_text t) as [b [e|]] eqn:Ew; [done|]. intros [= ->].
  by rewrite (wrap_roundtrip t a Ew), (json_roundtrip j t Em).
Qed.

Lemma emptyConfig_good m n : acl_good (emptyConfig m n).
Proof.
  eexists. split; [done|]. simpl. intros j. pose proof empty_object_ok as Hw.
  destruct (wrap_text text_empty_object) as [a e] eqn:E. simpl in *. subst e.
  rewrite (wrap_roundtrip _ _ E), empty_object_json. by intros [= <-].
Qed.

Lemma go_neq_scalar a b : composite a = false → is_Some (go_neq a b).
Proof. by destruct a, b. Qed.

Lemma key_conflict_total k dr1 dr2 : scalar_key dr1 k = true → is_Some (detect_key_conflict k dr1 dr2).
Proof.
  unfold scalar_key, detect_key_conflict. destruct (dr1 !! k) as [v1|], (dr2 !! k) as [v2|]; try done.
  intros Hs%negb_true_iff. destruct (go_neq_scalar v1 v2 Hs) as [b ->]. by eexists.
Qed.

Lemma detect_total m1 m2 : acl_ok (JObj m1) = true → is_Some (detectHttpACLMergeConflict m1 m2).
Proof.
  unfold acl_ok, detectHttpACLMergeConflict.
  destruct (as_obj (m1 !! "denyResponse")) as [dr1|], (as_obj (m2 !! "denyResponse")) as [dr2|]; try done.
  intros [Hs Hb]%andb_true_iff. destruct (key_conflict_total _ _ dr2 Hs) as [c1 ->].
  destruct (key_conflict_total _ _ dr2 Hb) as [c2 ->]. by eexists.
Qed.

Lemma union_key_ne key m1 m2 k : k ≠ key → union_key key m1 m2 !! k = m1 !! k.
Proof. intros. unfold union_key. repeat case_match; by rewrite ?lookup_insert_ne. Qed.

Lemma merge_acl_ok m1 m2 :
  acl_ok (JObj m1) = true → acl_ok (JObj m2) = true →
  acl_ok (JObj (mergeHttpACLJsonInPlace m1 m2)) = true.
Proof.
  unfold acl_ok, mergeHttpACLJsonInPlace. rewrite union_key_ne by done. intros H1 H2.
  destruct (as_obj (m2 !! "denyResponse")) as [dr2|] eqn:E2; [|by rewrite union_key_ne].
  destruct (as_obj (m1 !! "denyResponse")) as [dr1|] eqn:E1; rewrite lookup_insert_eq; simpl; [|done].
  apply andb_true_iff in H1 as [Hs1 Hb1], H2 as [_ Hb2]. apply andb_true_iff.
  unfold scalar_key in *. rewrite !union_key_ne by done.
  destruct (dr1 !! "blockedByHeaderName") as [v1|] eqn:Eb1, (dr2 !! "blockedByHeaderName") as [v2|] eqn:Eb2;
    rewrite ?lookup_insert_eq, ?lookup_insert_ne, ?Eb1 by done; done.
Qed.

(** A merge function that returns and keeps the invariant. *)
Definition total (m : MF) : Prop :=
  ∀ p1 p2 ref o2 opts o1 tp, well_formed p1 → well_formed p2 →
    ∃ r, m p1 p2 ref o2 opts o1 tp = Some r ∧ well_formed r.1.

Lemma wf_same (p q : Spec) :
  sp_rustformation q = sp_rustformation p → sp_httpACL q = sp_httpACL p → well_formed p → well_formed q.
Proof. intros Hr Ha. unfold well_formed. by rewrite Hr, Ha. Qed.

(** Setters of the fields the invariant ignores. *)
Class NeutralAcc {A} (acc : fieldAccessor A) : Prop := {
  na_rust : ∀ v (p : Spec), sp_rustformation (fa_set acc v p) = sp_rustformation p;
  na_acl : ∀ v (p : Spec), sp_httpACL (fa_set acc v p) = sp_httpACL p }.
#[local] Instance na_extProc : NeutralAcc acc_extProc. Proof. done. Qed.
#[local] Instance na_extAuth : NeutralAcc acc_extAuth. Proof. done. Qed.
#[local] Instance na_buffer : NeutralAcc acc_buffer. Proof. done. Qed.
#[local] Instance na_plain f : NeutralAcc (acc_plain f). Proof. done. Qed.

Lemma neutral_default {A} (acc : fieldAccessor A) `{!NeutralAcc acc} name p1 p2 ref o2 opts o1 :
  well_formed p1 → well_formed (defaultMerge acc name p1 p2 ref o2 opts o1).1.
Proof.
  intros Hw. rewrite defaultMerge_cases. destruct (picks _ _ _); [|done].
  eapply wf_same; [apply na_rust|apply na_acl|done].
Qed.

Lemma plain_total f name : total (plainMerge f name).
Proof. intros p1 p2 ref o2 opts o1 tp H1 H2. eexists. split; [done|]. by apply neutral_default; [apply _|]. Qed.

Lemma buffer_total : total mergeBuffer.
Proof. intros p1 p2 ref o2 opts o1 tp H1 H2. eexists. split; [done|]. by apply neutral_default; [apply _|]. Qed.

Lemma compression_total : total mergeCompression.
Proof.
  intros p1 p2 ref o2 opts o1 tp H1 H2. unfold mergeCompression.
  destruct (plain_total compression "compression" p1 p2 ref o2 opts o1 tp H1 H2) as ([q o] & -> & Hq).
  by apply plain_total.
Qed.

Lemma mergeable_some {A B} (a : option A) (b : option B) opts :
  negb (IsMergeable (go_ptr a) (go_ptr b) opts) = false → is_Some b.
Proof.
  unfold IsMergeable, go_ptr. destruct b as [b|]; [by eexists|].
  by destruct (mo_strategy opts), a.
Qed.

Lemma deep_neutral pre acc `{!NeutralAcc acc} name (p1 : Spec) q2 ref o2 o1 :
  well_formed p1 → well_formed (deepMergeProviders pre acc name p1 q2 ref o2 o1).1.
Proof.
  intros Hw. unfold deepMergeProviders.
  destruct (bool_decide _ && _), (disableAllProviders q2); simpl;
    (eapply wf_same; [apply na_rust|apply na_acl|done]).
Qed.

Lemma providers_total acc `{!NeutralAcc acc} name setting :
  total (λ p1 p2 ref o2 opts o1 tp, mergeProviders acc name (setting tp) p1 p2 ref o2 opts o1).
Proof.
  intros p1 p2 ref o2 opts o1 tp H1 H2. unfold mergeProviders.
  destruct (negb _) eqn:Em; [by eexists|]. apply mergeable_some in Em as [q2 Hq2]. rewrite Hq2.
  destruct (mo_strategy _); (eexists; split; [done|]);
    first [by apply neutral_default; [apply _|] | by apply deep_neutral; [apply _|]].
Qed.

Lemma rustformation_total : total mergeRustformation.
Proof.
  intros p1 p2 ref o2 opts o1 tp H1 H2. unfold mergeRustformation.
  destruct (negb _) eqn:Em; [by eexists|]. apply mergeable_some in Em as [r2 Hr2]. rewrite Hr2.
  assert (∀ r, is_Some (config r) → well_formed (set_rustformation (Some r) p1)) as Hset.
  { intros r Hr. split; simpl; [by intros ? [= <-]|apply H1]. }
  assert (is_Some (config (default (emptyConfig "rust_module" "rustformation") (sp_rustformation p1)))) as Hd.
  { destruct (sp_rustformation p1) as [r1|] eqn:E1; simpl; [by apply H1|by eexists]. }
  destruct (proj1 H2 r2 Hr2) as [c2 Hc2]. destruct Hd as [c1 Hc1].
  assert (∀ p2, well_formed p2 → well_formed (defaultMerge acc_rustformation "transformation" p1 p2 ref o2
    (override_strategy (o_transformation tp) opts) o1).1) as Hdef.
  { intros q Hq. rewrite defaultMerge_cases. destruct (picks _ _ _); [|done]. simpl.
    split; simpl; [apply Hq|apply H1]. }
  destruct (mo_strategy _); try (eexists; split; [done|by apply Hdef]); try by eexists.
  all: rewrite Hc1; simpl; rewrite ?Hc2; simpl.
  all: repeat match goal with |- ∃ r, match ?x with _ => _ end = _ ∧ _ => destruct x
       | |- ∃ r, (if ?x then _ else _) = _ ∧ _ => destruct x end.
  all: eexists; split; [done|]; simpl; apply Hset; simpl; rewrite ?Hc1; by eexists.
Qed.

Lemma httpACL_total : total mergeHttpACL.
Proof.
  intros p1 p2 ref o2 opts o1 tp H1 H2. unfold mergeHttpACL.
  destruct (negb _) eqn:Em; [by eexists|]. apply mergeable_some in Em as [a2 Ha2]. rewrite Ha2.
  assert (∀ a, acl_good a → well_formed (set_httpACL (Some a) p1)) as Hset.
  { intros a Ha. split; simpl; [apply H1|by intros ? [= <-]]. }
  assert (∀ q opts, sp_rustformation q = sp_rustformation p1 → well_formed q →
    well_formed (defaultMerge acc_httpACL "httpACL" q p2 ref o2 opts o1).1) as Hdef.
  { intros q opts' Hq Hwq. rewrite defaultMerge_cases. destruct (picks _ _ _); [|done]. simpl.
    split; simpl; [apply Hwq|apply H2]. }
  assert (acl_good (default (emptyConfig "rust_module" "http-acl") (sp_httpACL p1))) as Hd.
  { destruct (sp_httpACL p1) as [a1|] eqn:E1; simpl; [by apply H1|apply emptyConfig_good]. }
  destruct (proj2 H2 a2 Ha2) as (c2 & Hc2 & Hok2). destruct Hd as (c1 & Hc1 & Hok1).
  assert (∀ j fc, JsonToAny j = inr fc → acl_ok j = true →
    acl_good (mkDMIR (Some (copyWithFilterConfig (Some c1) fc)))) as Hnew.
  { intros j fc Hj Hok. eexists. split; [done|]. cbn [dm_filter_config copyWithFilterConfig].
    intros j'. rewrite (any_roundtrip j fc Hj). by intros [= <-]. }
  assert (acl_good (default (emptyConfig "rust_module" "http-acl") (sp_httpACL p1))) as Hd by (by exists c1).
  destruct (mo_strategy _); try (eexists; split; [done|by apply Hdef]); try by eexists.
  all: rewrite Hc1; simpl; destruct (AnyToJson (dm_filter_config c1)) as [|j1]; [by eexists; split; [reflexivity|apply Hset]|].
  all: rewrite ?Hc2; simpl; destruct (AnyToJson (dm_filter_config c2)) as [|j2]; [by eexists; split; [reflexivity|apply Hset]|].
  all: specialize (Hok1 j1 eq_refl); specialize (Hok2 j2 eq_refl).
  all: repeat match goal with
       | |- ∃ r, (if ?x then _ else _) = _ ∧ _ => destruct x
       | |- ∃ r, match JsonToAny ?x with _ => _ end = _ ∧ _ => destruct (JsonToAny x) eqn:?
       | |- ∃ r, match ?x with JNull => _ | _ => _ end = _ ∧ _ => destruct x
       | |- ∃ r, (detectHttpACLMergeConflict ?x ?y ≫= _) = _ ∧ _ =>
           let E := fresh in destruct (detect_total x y) as [? E]; [assumption|]; rewrite E; simpl
       | |- ∃ r, match ?x with [] => _ | _ :: _ => _ end = _ ∧ _ => destruct x
       end.
  all: eexists; (split; [done|]); simpl.
  all: first [ by apply Hset
             | apply Hset; eapply Hnew; [done|first [done|by apply merge_acl_ok]]
             | apply Hdef; (destruct (negb _); [split; [apply H1|done]|by apply Hset]) || (by destruct (negb _)) ].
Qed.

Ltac func_total :=
  first [apply plain_total | apply buffer_total | apply compression_total | apply rustformation_total
        | apply httpACL_total | apply providers_total; apply _].

Lemma mergeFuncs_total : Forall total mergeFuncs.
Proof. unfold mergeFuncs. repeat (apply Forall_cons; split; [func_total|]). by apply Forall_nil. Qed.

Lemma run_total fs p1 p2 ref o2 opts o1 tp :
  Forall total fs → well_formed p1 → well_formed p2 →
  ∃ r, run_merges fs p2 ref o2 opts tp p1 o1 = Some r ∧ well_formed r.1.
Proof.
  intros Hf. revert p1 o1. induction Hf as [|m fs Hm Hf IH]; intros p1 o1 H1 H2; simpl; [by eexists|].
  destruct (Hm p1 p2 ref o2 opts o1 tp H1 H2) as ([q o] & -> & Hq). simpl. by apply IH.
Qed.

Lemma resolve_wf (p1 p2 : Spec) opts o1 b u :
  well_formed p1 → well_formed (resolveBufferHTTPUpgradeConflict p1 p2 opts o1 b u).1.
Proof. intros Hw. unfold resolveBufferHTTPUpgradeConflict. repeat case_match; done. Qed.

Lemma MergeTrafficPolicies_total : total MergeTrafficPolicies.
Proof.
  intros p1 p2 ref o2 opts o1 tp H1 H2. unfold MergeTrafficPolicies.
  destruct (run_total mergeFuncs p1 p2 ref o2 opts o1 tp mergeFuncs_total H1 H2) as ([q o] & -> & Hq).
  eexists. split; [done|]. by apply resolve_wf.
Qed.

(** The policy kind of the plugin: its IRs are the specs themselves. *)
#[global] Program Instance traffic_policy_kind : PolicyKind Spec Spec :=
  {| pk_as := Some; pk_of := id; pk_zero := zeroTP |}.
Next Obligation. done. Qed.

#[global] Instance traffic_policy_laws parse :
  MergeFnLaws (P := Spec) (mergeTrafficPolicies parse) well_formed.
Proof.
  split; [done|]. intros p1 p2 ref o opts origins settings H1 H2. unfold mergeTrafficPolicies.
  case_match; [|case_match; [by eexists _, _|]].
  all: edestruct (MergeTrafficPolicies_total p1 p2) as ([u o'] & -> & Hu); [done..|]; by eexists _, _.
Qed.

(** Merging TrafficPolicies never panics: on policies whose dynamic-module
    configurations are set and whose access lists carry scalar deny-response
    fields, [MergePolicies] with the plugin's merge function returns a merged
    policy, whatever the settings, strategies and hierarchy levels. *)
Theorem merge_traffic_policies_total parse (policies : list (PolicyAtt Spec)) settings :
  policies ≠ [] → Forall (λ p, well_formed (pa_ir p)) policies →
  ∃ out, MergePolicies (mergeTrafficPolicies parse) policies settings = Some (Some out).
Proof.
  intros Hne Hw. edestruct (MergePolicies_total (mergeTrafficPolicies parse) well_formed policies settings)
    as (out & Ho & _); [done| |by exists out].
  eapply Forall_impl; [done|]. intros p Hp. by eexists.
Qed.

(** ** Fields moved as a whole *)

Lemma resolve_plain (p1 p2 : Spec) opts o1 b u f :
  f ≠ httpUpgrade →
  let r := resolveBufferHTTPUpgradeConflict p1 p2 opts o1 b u in
  sp_plain r.1 !! f = sp_plain p1 !! f ∧ r.2 !! field_name f = o1 !! field_name f.
Proof.
  intros Hf. pose proof (field_name_special f "buffer" ltac:(by left)) as Hb.
  assert (field_name f ≠ "httpUpgrade") as Hu by (by intros ?%(inj field_name f httpUpgrade)).
  unfold resolveBufferHTTPUpgradeConflict.
  repeat case_match; simpl; rewrite ?lookup_partial_alter_ne, ?lookup_delete_ne by done; done.
Qed.

Lemma merge_plain_outcome f (p1 p2 : Spec) ref o2 opts o1 tp (p1' : Spec) o1' :
  f ≠ httpUpgrade → MergeTrafficPolicies p1 p2 ref o2 opts o1 tp = Some (p1', o1') →
  (sp_plain p1' !! f, o1' !! field_name f) =
  field_outcome opts ref o2 (field_name f) (sp_plain p1 !! f) (sp_plain p2 !! f) (o1 !! field_name f).
Proof.
  intros Hf Hm. unfold MergeTrafficPolicies in Hm. apply bind_Some in Hm as ([q o] & Hr & [= Hm]).
  destruct (mergeFuncs_track_plain f) as (bs & Hbs & Ho).
  rewrite <- (run_once _ _ _ _ _ _ _ _ _ _ _ _ _ Hbs Ho Hr).
  destruct (resolve_plain q p2 opts o (bufferEnabled (sp_buffer p1)) (hasUpgrade p1) f Hf) as [Hp Hk].
  by rewrite Hm in Hp, Hk; simpl in Hp, Hk; rewrite Hp, Hk.
Qed.

(** Every field without a deep merge is decided on its own, by the strategy
    alone: a shallow override takes the second policy's value when it is set,
    all other strategies keep a value that is already set and fill an unset
    one; the recorded origin of the field changes exactly when its value does,
    and then names the policy the value came from. *)
Theorem merge_plain_fields (p1 p2 : Spec) ref o2 opts o1 tp :
  well_formed p1 → well_formed p2 →
  ∃ (p1' : Spec) o1', MergeTrafficPolicies p1 p2 ref o2 opts o1 tp = Some (p1', o1') ∧
    ∀ f, f ≠ httpUpgrade →
      (sp_plain p1' !! f, o1' !! field_name f) =
      field_outcome opts ref o2 (field_name f) (sp_plain p1 !! f) (sp_plain p2 !! f) (o1 !! field_name f).
Proof.
  intros H1 H2. destruct (MergeTrafficPolicies_total p1 p2 ref o2 opts o1 tp H1 H2) as ([p1' o1'] & Hm & _).
  exists p1', o1'. split; [done|]. intros f Hf. by eapply merge_plain_outcome.
Qed.

(** ** Buffering excludes upgrading *)

Definition exclusive (p : Spec) : bool := negb (bufferEnabled (sp_buffer p) && hasUpgrade p).

Lemma merge_buffer_upgrade (p1 p2 : Spec) ref o2 opts o1 tp (q : Spec) o :
  run_merges mergeFuncs p2 ref o2 opts tp p1 o1 = Some (q, o) →
  sp_buffer q = (if picks opts (sp_buffer p1) (sp_buffer p2) then sp_buffer p2 else sp_buffer p1) ∧
  sp_plain q !! httpUpgrade =
    (if picks opts (sp_plain p1 !! httpUpgrade) (sp_plain p2 !! httpUpgrade)
     then sp_plain p2 !! httpUpgrade else sp_plain p1 !! httpUpgrade).
Proof.
  intros Hr. destruct mergeFuncs_track_buffer as (bs & Hbs & Hb).
  destruct (mergeFuncs_track_plain httpUpgrade) as (us & Hus & Hu).
  pose proof (run_once _ _ _ _ _ _ _ _ _ _ _ _ _ Hbs Hb Hr) as HB.
  pose proof (run_once _ _ _ _ _ _ _ _ _ _ _ _ _ Hus Hu Hr) as HU.
  unfold field_outcome in *. split.
  - by destruct (picks opts (sp_buffer p1) (sp_buffer p2)); injection HB.
  - by destruct (picks opts (sp_plain p1 !! _) (sp_plain p2 !! _)); injection HU.
Qed.

Definition known_strategy (s : MergeStrategy) : bool :=
  match s with OtherStrategy _ => false | _ => true end.

Lemma hasUpgrade_isSome (p : Spec) : hasUpgrade p = isSome (sp_plain p !! httpUpgrade).
Proof. done. Qed.

(** What [resolveBufferHTTPUpgradeConflict] does to the two fields. *)
Definition resolve_bits (s : MergeStrategy) (b u hb hu b2 u2 : bool) : bool * bool :=
  if negb b || negb u then (b, u) else
  match s with
  | AugmentedShallowMerge | AugmentedDeepMerge =>
      if hu then (false, u) else if hb then (b, false) else (b, u)
  | OverridableShallowMerge | OverridableDeepMerge =>
      if b2 then (b, false) else if u2 then (false, u) else (b, u)
  | OtherStrategy _ => (b, u)
  end.

Lemma resolve_bits_spec (p1 p2 : Spec) opts o1 hb hu :
  let r := resolveBufferHTTPUpgradeConflict p1 p2 opts o1 hb hu in
  (bufferEnabled (sp_buffer r.1), hasUpgrade r.1) =
  resolve_bits (mo_strategy opts) (bufferEnabled (sp_buffer p1)) (hasUpgrade p1) hb hu
    (bufferEnabled (sp_buffer p2)) (hasUpgrade p2).
Proof.
  assert (hasUpgrade (set_plain httpUpgrade None p1) = false) as Hd
    by (unfold hasUpgrade; simpl; by rewrite lookup_partial_alter_eq).
  unfold resolveBufferHTTPUpgradeConflict, resolve_bits.
  destruct (negb _ || negb _); [done|].
  destruct (mo_strategy opts), hb, hu, (bufferEnabled (sp_buffer p2)), (hasUpgrade p2); simpl;
    rewrite ?Hd; done.
Qed.

(** The merged policy never both buffers and upgrades a stream: if neither input
    does, the result does not, under every merge strategy; when the strategy
    prefers the accumulated policy, what that policy had enabled stays enabled. *)
Theorem buffer_upgrade_exclusive (p1 p2 : Spec) ref o2 opts o1 tp :
  well_formed p1 → well_formed p2 → known_strategy (mo_strategy opts) = true →
  exclusive p1 = true → exclusive p2 = true →
  ∃ (p1' : Spec) o1', MergeTrafficPolicies p1 p2 ref o2 opts o1 tp = Some (p1', o1') ∧
    exclusive p1' = true ∧
    (mo_strategy opts = AugmentedShallowMerge ∨ mo_strategy opts = AugmentedDeepMerge →
     (bufferEnabled (sp_buffer p1) = true → bufferEnabled (sp_buffer p1') = true) ∧
     (hasUpgrade p1 = true → hasUpgrade p1' = true)).
Proof.
  intros H1 H2 Hk He1 He2. unfold MergeTrafficPolicies.
  destruct (run_total mergeFuncs p1 p2 ref o2 opts o1 tp mergeFuncs_total H1 H2) as ([q o] & Hr & _).
  rewrite Hr. apply merge_buffer_upgrade in Hr as [Hb Hu]. eexists _, _.
  split; [simpl; f_equal; apply surjective_pairing|].
  pose proof (resolve_bits_spec q p2 opts o (bufferEnabled (sp_buffer p1)) (hasUpgrade p1)) as Hbits.
  pose proof (f_equal fst Hbits) as Hbb. pose proof (f_equal snd Hbits) as Hbu. cbn [fst snd] in Hbb, Hbu.
  unfold exclusive in *. rewrite Hbb, Hbu. clear Hbits Hbb Hbu.
  rewrite !hasUpgrade_isSome, Hb, Hu in *. unfold picks, resolve_bits.
  destruct (mo_strategy opts); try discriminate Hk;
    destruct (sp_buffer p1) as [[[[?|]|] ?]|], (sp_buffer p2) as [[[[?|]|] ?]|],
      (sp_plain p1 !! httpUpgrade), (sp_plain p2 !! httpUpgrade); simpl in *;
    try discriminate; (split; [done|]); intros [|]; done.
Qed.

End facts.
