(* ===== verification/TrafficPolicyTree.v ===== *)
(** * The effective TrafficPolicy of a route

    What [MergePolicies] with the TrafficPolicy merge function computes along a
    configuration tree: the value of every field that is moved as a whole, the
    external providers, the transformation and access-list documents; and the
    two places where the result departs from the documented precedence. *)

From S2P Require Import Prelude IR PolicyMerge TrafficPolicyMerge.

Section facts.
Context {V Any Text : Type} `{JsonLib Any Text} `{!JsonLaws Any Text}.

Abbreviation Spec := (@trafficPolicySpecIr V Any).

(** ** The effective value along the configuration tree *)

Definition first_set (f : PlainField) (policies : list (PolicyAtt Spec)) : option V :=
  head (omap (λ p, sp_plain (pa_ir p) !! f) policies).

Lemma first_set_cons f p ps :
  first_set f (p :: ps) = match sp_plain (pa_ir p) !! f with Some v => Some v | None => first_set f ps end.
Proof. unfold first_set. simpl. by destruct (sp_plain (pa_ir p) !! f). Qed.

Lemma first_set_app f ps qs :
  first_set f (ps ++ qs) = match first_set f ps with Some v => Some v | None => first_set f qs end.
Proof. unfold first_set. rewrite omap_app. by destruct (omap _ ps). Qed.

(** The policies that do not ask for their values to be preferred to those of their children. *)
Definition prefers_child (p : PolicyAtt Spec) : Prop :=
  match pa_inherited p with ShallowMergePreferParent | DeepMergePreferParent => False | _ => True end.

Definition settings_ok (parse : string → error + TrafficPolicyMergeOpts) (settings : string) : Prop :=
  settings = "" ∨ ∃ tp, parse settings = inr tp.

Lemma settings_run parse settings : settings_ok parse settings →
  ∃ tp, ∀ (p1 p2 : Spec) ref o2 opts o1,
    mergeTrafficPolicies parse p1 p2 ref o2 opts o1 settings = MergeTrafficPolicies p1 p2 ref o2 opts o1 tp.
Proof.
  intros Hs. unfold mergeTrafficPolicies. destruct (String.eqb_spec settings "") as [->|Hne];
    [by exists zeroTPOpts|]. destruct Hs as [->|[tp Htp]]; [done|]. exists tp. by rewrite Htp.
Qed.

Lemma fold_valid_first parse same settings policies (acc r : Spec * MergeOrigins) f :
  f ≠ httpUpgrade → settings_ok parse settings →
  (same = false → Forall prefers_child policies) →
  fold_valid (mergeTrafficPolicies parse) same settings acc policies = Some r →
  sp_plain r.1 !! f =
    match sp_plain acc.1 !! f with Some v => Some v | None => first_set f policies end.
Proof.
  intros Hf Hs. destruct (settings_run parse settings Hs) as [tp Htp].
  revert acc. induction policies as [|p ps IH]; intros acc Hc Hr; simpl in Hr.
  - simplify_eq. by destruct (sp_plain r.1 !! f).
  - apply bind_Some in Hr as ([q o] & Hm & Hr). rewrite Htp in Hm.
    apply (merge_plain_outcome f) in Hm; [|done].
    apply IH in Hr; [|intros ->; by apply Forall_cons in Hc as [_ ?]]. simpl in Hr.
    rewrite Hr, first_set_cons. apply (f_equal fst) in Hm. simpl in Hm. rewrite Hm.
    unfold field_outcome, picks. simpl.
    assert (GetMergeStrategy (pa_inherited p) same ≠ OverridableShallowMerge ∧
      known_strategy (GetMergeStrategy (pa_inherited p) same) = true) as [Hn Hk].
    { destruct same; [done|]. specialize (Hc eq_refl). apply Forall_cons in Hc as [Hp _].
      unfold prefers_child in Hp. by destruct (pa_inherited p). }
    destruct (GetMergeStrategy _ _), (sp_plain acc.1 !! f), (sp_plain (pa_ir p) !! f); done.
Qed.

Lemma fold_valid_typed parse same settings (policies : list (PolicyAtt Spec)) acc :
  Forall (λ p, well_formed (pa_ir p)) policies → well_formed acc.1 →
  ∃ r, fold_valid (mergeTrafficPolicies parse) same settings acc policies = Some r ∧ well_formed r.1.
Proof.
  intros Hw. revert acc. induction Hw as [|p ps Hp Hw IH]; intros acc Ha; simpl; [by eexists|].
  edestruct (mfl_step (MergeFnLaws := traffic_policy_laws parse) acc.1 (pa_ir p))
    as (t & o & -> & Ht); [done..|]. simpl. by apply IH.
Qed.

(** One level: the merged value, and what the next stage needs of it. *)
Lemma merge_level_first parse same settings (policies : list (PolicyAtt Spec)) f :
  f ≠ httpUpgrade → settings_ok parse settings → policies ≠ [] →
  Forall (λ p, well_formed (pa_ir p)) policies → valid policies → Forall prefers_child policies →
  ∃ out, merge (mergeTrafficPolicies parse) policies same settings = Some out ∧
    well_formed (pa_ir out) ∧ pa_errors out = [] ∧ prefers_child out ∧
    sp_plain (pa_ir out) !! f = first_set f policies.
Proof.
  intros Hf Hs Hne Hw Hv Hc. destruct policies as [|p0 ps]; [done|].
  rewrite (merge_valid _ _ _ (p0 :: ps) p0) by done.
  destruct (fold_valid_typed parse same settings (p0 :: ps) (pk_zero, ∅) Hw) as ([t o] & Hr & Ht); [done|].
  rewrite Hr. eexists. split; [done|]. apply (fold_valid_first _ _ _ _ _ _ f) in Hr; [|done..].
  split_and!; [done|done| |exact Hr].
  unfold prefers_child. simpl. destruct same; [|done]. destruct (last (p0 :: ps)) as [q|] eqn:El; [|done].
  apply last_Some_elem_of in El. rewrite Forall_forall in Hc. by apply Hc.
Qed.

Lemma Forall_level (Q : PolicyAtt Spec → Prop) policies h : Forall Q policies → Forall Q (level policies h).
Proof.
  rewrite !Forall_forall. intros HQ p [_ Hp]%list_elem_of_filter. by apply HQ.
Qed.

(** C38: The effective value of a field along the configuration tree: when all
    policies are valid and none has an inherited priority that prefers parents,
    the merge returns a policy, and each of its fields that is moved as a whole,
    other than the upgrades, which buffering excludes, has the value of the
    first policy that sets the field, going from the highest hierarchical
    priority (the most specific resource) down and in attachment order within a
    level. *)
Theorem merge_policies_first_set parse (policies : list (PolicyAtt Spec)) settings f :
  f ≠ httpUpgrade → settings_ok parse settings → policies ≠ [] →
  Forall (λ p, well_formed (pa_ir p)) policies → valid policies → Forall prefers_child policies →
  ∃ out, MergePolicies (mergeTrafficPolicies parse) policies settings = Some (Some out) ∧
    sp_plain (pa_ir out) !! f = first_set f (merge_order policies).
Proof.
  intros Hf Hs Hne Hw Hv Hc. destruct policies as [|p0 ps0] eqn:Ep; [done|]. rewrite <- Ep in *.
  assert (∃ ms, mapM (λ h, merge (mergeTrafficPolicies parse)
      (default [] (groupPoliciesByHierarchicalPriority policies !! h)) true settings)
      (keys_desc (groupPoliciesByHierarchicalPriority policies)) = Some ms ∧
    length ms = length (keys_desc (groupPoliciesByHierarchicalPriority policies)) ∧
    Forall (λ p, well_formed (pa_ir p)) ms ∧ valid ms ∧ Forall prefers_child ms ∧
    first_set f ms = first_set f (merge_order policies)) as (ms & Hms & Hl & Hmw & Hmv & Hmc & Hmf).
  { unfold merge_order. pose proof (level_ne policies) as Hh.
    induction (keys_desc _) as [|h hs IH]; [exists []; split_and!; try done; constructor|].
    destruct IH as (ms & Hms & Hl & Hmw & Hmv & Hmc & Hmf); [intros k Hk; apply Hh; by right|].
    destruct (merge_level_first parse true settings (level policies h) f) as (out & Ho & Hw' & He & Hp & Hfo);
      [done|done|apply Hh; by left|by apply Forall_level..|].
    exists (out :: ms). simpl. rewrite group_get, Ho. simpl. rewrite Hms. simpl.
    split_and!; [done|by rewrite Hl|by constructor..|].
    by rewrite first_set_cons, first_set_app, Hfo, Hmf. }
  destruct (merge_level_first parse false "" ms f) as (out & Ho & _ & _ & _ & Hfo); try done; [by left| |].
  { intros ->. pose proof (keys_level policies p0) as Hk. rewrite Ep in Hk at 1.
    destruct (keys_desc _); [|done]. apply not_elem_of_nil in Hk; [done|by left]. }
  exists out. unfold MergePolicies. rewrite Ep at 1. simpl pk_as. cbv beta iota.
  rewrite Hms. simpl. rewrite Ho. simpl. by rewrite Hfo.
Qed.

(** ** External providers *)

Section providers.
Context (pname : V → string).

(** The tracked names are those of the configured providers, each once. *)
Definition providers_ok (q : providersIR V) : Prop :=
  NoDup (map pname (perProviderConfig q)) ∧ providerNames q = list_to_set (map pname (perProviderConfig q)).

(** The provider list of a deep merge. *)
Definition deep_providers (pre : bool) (q1 q2 : providersIR V) : providersIR V :=
  mkProv (if bool_decide (providerNames q2 ⊆ providerNames q1) then perProviderConfig q1
          else if pre then perProviderConfig q2 ++ perProviderConfig q1
          else perProviderConfig q1 ++ perProviderConfig q2)
    (disableAllProviders q1 || disableAllProviders q2) (providerNames q1 ∪ providerNames q2).

Lemma deepMergeProviders_spec pre acc name (p1 : Spec) q2 ref o2 o1 :
  (deepMergeProviders pre acc name p1 q2 ref o2 o1).1 =
  fa_set acc (Some (deep_providers pre (copyForMerge (fa_get acc p1)) q2)) p1.
Proof.
  unfold deepMergeProviders, deep_providers. set (q := copyForMerge (fa_get acc p1)).
  destruct (decide (providerNames q2 ⊆ providerNames q)) as [Hs|Hs].
  - rewrite (bool_decide_eq_true_2 (_ ⊆ _)) by done. rewrite andb_false_r.
    assert (providerNames q ∪ providerNames q2 = providerNames q) as -> by set_solver.
    destruct q as [c d n]; simpl. destruct (disableAllProviders q2), d; done.
  - rewrite (bool_decide_eq_false_2 (_ ⊆ _)) by done.
    assert (0 < size (providerNames q2)) as Hz.
    { destruct (decide (size (providerNames q2) = 0)) as [He|He]; [|lia].
      apply size_empty_inv in He. set_solver. }
    rewrite (bool_decide_eq_true_2 (0 < _)) by done. simpl.
    destruct (disableAllProviders q2), (disableAllProviders q), pre; done.
Qed.

Lemma providers_ok_app q1 q2 :
  providers_ok q1 → providers_ok q2 → providerNames q1 ## providerNames q2 → ∀ pre,
  let l := if pre : bool then perProviderConfig q2 ++ perProviderConfig q1
           else perProviderConfig q1 ++ perProviderConfig q2 in
  NoDup (map pname l) ∧ providerNames q1 ∪ providerNames q2 = list_to_set (map pname l).
Proof.
  intros [N1 E1] [N2 E2] Hd pre. rewrite E1, E2 in *.
  destruct pre; simpl; rewrite map_app, list_to_set_app_L, NoDup_app; set_solver.
Qed.

(** A deep merge of external providers keeps them distinct and tracked: when each
    input tracks distinct providers and the merged-in policy has at most one
    (an unmerged policy references a single provider), the result tracks
    exactly the union, each provider once, in the order of precedence, and is
    disabled when either input is. *)
Theorem deep_merge_providers pre acc name (p1 : Spec) q2 ref o2 o1 :
  let q1 := copyForMerge (fa_get acc p1) in
  providers_ok q1 → providers_ok q2 → (size (providerNames q2) ≤ 1)%nat →
  (deepMergeProviders pre acc name p1 q2 ref o2 o1).1 = fa_set acc (Some (deep_providers pre q1 q2)) p1 ∧
  providers_ok (deep_providers pre q1 q2) ∧
  providerNames (deep_providers pre q1 q2) = providerNames q1 ∪ providerNames q2 ∧
  disableAllProviders (deep_providers pre q1 q2) = disableAllProviders q1 || disableAllProviders q2.
Proof.
  intros q1 H1 H2 Hz. split; [apply deepMergeProviders_spec|]. split; [|done].
  unfold deep_providers, providers_ok. simpl.
  destruct (decide (providerNames q2 ⊆ providerNames q1)) as [Hs|Hs].
  - rewrite bool_decide_eq_true_2 by done.
    assert (providerNames q1 ∪ providerNames q2 = providerNames q1) as -> by set_solver. exact H1.
  - rewrite bool_decide_eq_false_2 by done. apply (providers_ok_app q1 q2); [done..|].
    intros x Hx1 Hx2. apply Hs. assert (providerNames q2 = {[x]}) as ->; [|set_solver].
    symmetry. apply set_subseteq_size_eq; [set_solver|]. rewrite size_singleton. lia.
Qed.

End providers.

(** ** Documents *)

Definition rules_of (m : gmap string json) : list json := default [] (as_arr (m !! "rules")).

(** A deep merge of access lists keeps every rule and the first list's defaults:
    when the lists do not conflict, the merged list has the rules of both, the
    preferred list's first, the default action both agree on, and the deny
    status of the preferred list. *)
Theorem acl_deep_merge m1 m2 :
  detectHttpACLMergeConflict m1 m2 = Some [] →
  let m := mergeHttpACLJsonInPlace m1 m2 in
  rules_of m = rules_of m1 ++ rules_of m2 ∧
  as_str (m !! "defaultAction") = as_str (m2 !! "defaultAction") ∧
  m !! "defaultAction" = m1 !! "defaultAction" ∧
  ∀ dr1, as_obj (m1 !! "denyResponse") = Some dr1 →
    ∃ dr, as_obj (m !! "denyResponse") = Some dr ∧ dr !! "statusCode" = dr1 !! "statusCode".
Proof.
  intros Hc m.
  assert (as_str (m1 !! "defaultAction") = as_str (m2 !! "defaultAction")) as Hda.
  { unfold detectHttpACLMergeConflict in Hc.
    destruct (as_str (m1 !! "defaultAction")) as [a|], (as_str (m2 !! "defaultAction")) as [b|];
      try destruct (String.eqb_spec a b) as [->|]; try done;
      repeat case_match; simplify_eq/=; repeat (apply bind_Some in Hc as (? & ? & Hc)); done. }
  assert (∀ k, k ≠ "denyResponse" → m !! k = union_key "rules" m1 m2 !! k) as Hk.
  { intros k Hk. unfold m, mergeHttpACLJsonInPlace. repeat case_match; by rewrite ?lookup_insert_ne. }
  split_and!.
  - unfold rules_of. rewrite Hk by done. unfold union_key.
    destruct (as_arr (m1 !! "rules")) as [l1|] eqn:E1, (as_arr (m2 !! "rules")) as [l2|]; simpl;
      rewrite ?lookup_insert_eq, ?E1, ?app_nil_r; done.
  - by rewrite Hk, union_key_ne, Hda.
  - by rewrite Hk, union_key_ne.
  - intros dr1 Hdr1. unfold m, mergeHttpACLJsonInPlace. rewrite union_key_ne, Hdr1 by done.
    destruct (as_obj (m2 !! "denyResponse")) as [dr2|]; [|exists dr1; by rewrite union_key_ne].
    rewrite lookup_insert_eq. eexists. split; [done|]. rewrite union_key_ne by done.
    destruct (dr1 !! "blockedByHeaderName"), (dr2 !! "blockedByHeaderName"); by rewrite ?lookup_insert_ne.
Qed.

Definition actions_of (field action : string) (j : json) : list json :=
  match j with
  | JObj m => match as_obj (m !! field) with Some o => default [] (as_arr (o !! action)) | None => [] end
  | _ => []
  end.

Lemma action_list_other a a' obj1 obj2 :
  a' ≠ a → mergeRustFormationActionListJson a obj1 obj2 !! a' = obj1 !! a'.
Proof. intros. unfold mergeRustFormationActionListJson. repeat case_match; by rewrite ?lookup_insert_ne. Qed.

Lemma action_body_other a obj1 obj2 :
  a ≠ "body" → mergeRustFormationActionBody obj1 obj2 !! a = obj1 !! a.
Proof. intros. unfold mergeRustFormationActionBody. case_match; by rewrite ?lookup_insert_ne. Qed.

Lemma action_list_same a obj1 obj2 :
  default [] (as_arr (mergeRustFormationActionListJson a obj1 obj2 !! a)) =
  default [] (as_arr (obj1 !! a)) ++ default [] (as_arr (obj2 !! a)).
Proof.
  unfold mergeRustFormationActionListJson.
  destruct (as_arr (obj1 !! a)) eqn:E1, (as_arr (obj2 !! a)); simpl;
    rewrite ?lookup_insert_eq, ?E1, ?app_nil_r; done.
Qed.

Lemma request_response_other f f' m1 m2 :
  f' ≠ f → mergeRustFormationRequestResponseJson f m1 m2 !! f' = m1 !! f'.
Proof. intros. unfold mergeRustFormationRequestResponseJson. repeat case_match; by rewrite ?lookup_insert_ne. Qed.

Lemma request_response_actions f a m1 m2 :
  a ∈ ["add"; "remove"; "set"] →
  actions_of f a (JObj (mergeRustFormationRequestResponseJson f m1 m2)) =
  actions_of f a (JObj m1) ++ actions_of f a (JObj m2).
Proof.
  intros Ha. unfold actions_of, mergeRustFormationRequestResponseJson.
  destruct (as_obj (m1 !! f)) as [obj1|] eqn:E1, (as_obj (m2 !! f)) as [obj2|];
    rewrite ?lookup_insert_eq, ?E1, ?app_nil_r; simpl; try done.
  rewrite !elem_of_cons, elem_of_nil in Ha. destruct Ha as [->|[->|[->|[]]]];
    rewrite action_body_other by done;
    repeat first [rewrite action_list_same | rewrite action_list_other by done]; done.
Qed.

(** A deep merge of transformations runs the actions of both policies: for the
    request and for the response, the header actions (add, remove, set) of the
    merged document are those of the first document followed by those of the
    second. *)
Theorem rustformation_deep_merge m1 m2 side action :
  side ∈ ["request"; "response"] → action ∈ ["add"; "remove"; "set"] →
  ∃ j, mergeRustformationJsonInPlace (JObj m1) (JObj m2) = inr j ∧
    actions_of side action j = actions_of side action (JObj m1) ++ actions_of side action (JObj m2).
Proof.
  intros Hs Ha. eexists. split; [done|].
  rewrite !elem_of_cons, elem_of_nil in Hs. destruct Hs as [->|[->|[]]].
  - rewrite request_response_actions by done. f_equal. unfold actions_of.
    by rewrite request_response_other.
  - rewrite <- request_response_actions by done. unfold actions_of.
    by rewrite request_response_other.
Qed.

End facts.

(** ** Concrete policies *)

(** A JSON library whose texts and messages are the values themselves. *)
#[local] Instance ex_lib : JsonLib json json := {|
  text_empty_object := JObj ∅; json_marshal := inr; json_unmarshal := inr;
  wrap_text t := (t, None); unwrap_text := inr |}.
#[local] Instance ex_laws : JsonLaws json json.
Proof. split; by intros; simplify_eq/=. Qed.

Abbreviation ExSpec := (@trafficPolicySpecIr Z json).

Definition ex_parse (s : string) : error + TrafficPolicyMergeOpts :=
  if String.eqb s "deep" then inr (mkTPOpts "" "DeepMerge" "" "") else inl (EMsg "bad json").

Definition ex_timeouts (v : Z) : ExSpec := mkTP None None None None None {[timeouts := v]}.
Definition ex_extProc (n : string) (v : Z) : ExSpec :=
  mkTP None (Some (mkProv [v] false {[n]})) None None None ∅.
Definition ex_acl (action : string) : ExSpec :=
  mkTP None None None None (Some (mkDMIR (Some (mkDM None "" "" (Some
    (JObj {["defaultAction" := JStr action; "rules" := JArr [JNum 1]]})))))) ∅.
Definition ex_upgrade : ExSpec := mkTP None None None None None {[httpUpgrade := 1%Z]}.
Definition ex_buffer : ExSpec := mkTP (Some (mkBuffer (Some (Some 7%Z)) None)) None None None None ∅.

Definition ex_att (name : string) (h : Z) (inh : InheritedPolicyPriorityValue) (s : ExSpec) :
    PolicyAtt ExSpec :=
  mkPA (mkGK "g" "TrafficPolicy") 1 s (Some (mkAPR "g" "TrafficPolicy" name "ns" "")) inh [] h 0 ∅.

Lemma ex_timeouts_wf v : well_formed (ex_timeouts v).
Proof. done. Qed.

Lemma ex_acl_wf a : well_formed (ex_acl a).
Proof. split; [done|]. intros ? [= <-]. eexists. split; [done|]. simpl. by intros j [= <-]. Qed.

Lemma merge_traffic_policies_total_witness :
  ∃ out, MergePolicies (mergeTrafficPolicies ex_parse)
    [ex_att "a" 1 UnsetPriority (ex_acl "allow"); ex_att "b" 0 DeepMergePreferParent (ex_acl "deny")] ""
    = Some (Some out).
Proof.
  apply (merge_traffic_policies_total ex_parse); [discriminate|].
  repeat constructor; apply ex_acl_wf.
Defined.

Lemma merge_plain_fields_witness :
  ∃ (p : ExSpec) o, MergeTrafficPolicies (ex_timeouts 1) (ex_timeouts 2) None ∅
    (mkMO OverridableShallowMerge false) ∅ zeroTPOpts = Some (p, o) ∧ sp_plain p !! timeouts = Some 2%Z.
Proof.
  destruct (merge_plain_fields (ex_timeouts 1) (ex_timeouts 2) None ∅
    (mkMO OverridableShallowMerge false) ∅ zeroTPOpts) as (p & o & Hm & Hf);
    [apply ex_timeouts_wf..|].
  exists p, o. split; [exact Hm|]. exact (f_equal fst (Hf timeouts ltac:(discriminate))).
Defined.

Lemma buffer_upgrade_exclusive_witness :
  ∃ (p : ExSpec) o, MergeTrafficPolicies ex_buffer ex_upgrade None ∅
    (mkMO AugmentedDeepMerge false) ∅ zeroTPOpts = Some (p, o) ∧ exclusive p = true.
Proof.
  destruct (buffer_upgrade_exclusive ex_buffer ex_upgrade None ∅
    (mkMO AugmentedDeepMerge false) ∅ zeroTPOpts) as (p & o & Hm & He & _);
    [done|done|reflexivity|reflexivity|reflexivity|].
  exists p, o. split; [exact Hm|exact He].
Defined.

Lemma merge_policies_first_set_witness :
  ∃ out, MergePolicies (mergeTrafficPolicies ex_parse)
      [ex_att "parent" 0 DeepMergePreferChild (ex_timeouts 1);
       ex_att "child" 1 UnsetPriority (ex_timeouts 2)] "" = Some (Some out) ∧
    sp_plain (pa_ir out) !! timeouts = Some 2%Z.
Proof.
  destruct (merge_policies_first_set ex_parse
      [ex_att "parent" 0 DeepMergePreferChild (ex_timeouts 1);
       ex_att "child" 1 UnsetPriority (ex_timeouts 2)] "" timeouts) as (out & Ho & Hv);
    [discriminate|by left|discriminate| | | |].
  - apply Forall_cons; split; [done|]. apply Forall_cons; split; [done|]. by apply Forall_nil.
  - apply Forall_cons; split; [done|]. apply Forall_cons; split; [done|]. by apply Forall_nil.
  - apply Forall_cons; split; [done|]. apply Forall_cons; split; [done|]. by apply Forall_nil.
  - exists out. split; [exact Ho|]. rewrite Hv. vm_compute. reflexivity.
Defined.

Lemma deep_merge_providers_witness :
  (deepMergeProviders false acc_extProc "extProc" (ex_extProc "a" 1) (mkProv [2%Z] false {["b"]})
     None ∅ ∅).1 = set_extProc (Some (mkProv [1; 2]%Z false {["a"; "b"]})) (ex_extProc "a" 1).
Proof.
  refine (eq_trans (proj1 (deep_merge_providers (λ v, if Z.eqb v 1 then "a" else "b") false acc_extProc "extProc"
    (ex_extProc "a" 1) (mkProv [2%Z] false {["b"]}) None ∅ ∅ _ _ _)) _).
  - split; [by apply (bool_decide_unpack _)|by vm_compute].
  - split; [by apply (bool_decide_unpack _)|by vm_compute].
  - by vm_compute; lia.
  - reflexivity.
Defined.

Lemma acl_deep_merge_witness :
  rules_of (mergeHttpACLJsonInPlace
    {["defaultAction" := JStr "deny"; "rules" := JArr [JNum 1]]}
    {["defaultAction" := JStr "deny"; "rules" := JArr [JNum 2]]}) = [JNum 1; JNum 2].
Proof.
  exact (proj1 (acl_deep_merge {["defaultAction" := JStr "deny"; "rules" := JArr [JNum 1]]}
    {["defaultAction" := JStr "deny"; "rules" := JArr [JNum 2]]} eq_refl)).
Defined.

Lemma rustformation_deep_merge_witness :
  ∃ j, mergeRustformationJsonInPlace
    (JObj {["request" := JObj {["add" := JArr [JNum 1]]}]})
    (JObj {["request" := JObj {["add" := JArr [JNum 2]]}]}) = inr j ∧
    actions_of "request" "add" j = [JNum 1; JNum 2].
Proof.
  destruct (rustformation_deep_merge {["request" := JObj {["add" := JArr [JNum 1]]}]}
    {["request" := JObj {["add" := JArr [JNum 2]]}]} "request" "add") as (j & Hj & Ha);
    [by apply (bool_decide_unpack _)..|].
  exists j. split; [exact Hj|]. rewrite Ha. vm_compute. reflexivity.
Defined.

(** ** Departures from the documented precedence *)

(** With the inherited priority DeepMergePreferParent, a field without a deep
    merge keeps the child's value although the parent sets it too; the same
    tree under ShallowMergePreferParent gives the parent's value.  The design
    document promises the parent's value in both cases. *)
Theorem deep_prefer_parent_keeps_child :
  let tree inh := [ex_att "parent" 0 inh (ex_timeouts 1); ex_att "child" 1 UnsetPriority (ex_timeouts 2)] in
  let value inh := out ← MergePolicies (mergeTrafficPolicies ex_parse) (tree inh) "";
                   o ← out; sp_plain (pa_ir o) !! timeouts in
  value DeepMergePreferParent = Some 2%Z ∧ value ShallowMergePreferParent = Some 1%Z.
Proof. by vm_compute. Qed.

(** Providers are repeated when a level with several providers is merged in: two
    parent policies that reference the processors a and b, deep-merged by the
    settings, and a child that references a, yield the list a, a, b, although
    the tracked names are meant to prevent duplicates. *)
Theorem deep_merge_repeats_provider :
  (out ← MergePolicies (mergeTrafficPolicies ex_parse)
     [ex_att "p1" 0 DeepMergePreferChild (ex_extProc "a" 1);
      ex_att "p2" 0 DeepMergePreferChild (ex_extProc "b" 2);
      ex_att "child" 1 UnsetPriority (ex_extProc "a" 1)] "deep";
   o ← out; perProviderConfig <$> sp_extProc (pa_ir o)) = Some [1; 1; 2]%Z.
Proof. by vm_compute. Qed.
