(* ===== verification/RouteTree.v ===== *)
(** * Route delegation trees (pkg/kgateway/query/route.go, backendmap.go;
      the HTTPRoute selector index of pkg/krtcollections/policy.go)

    [getDelegatedChildren] resolves the routes an HTTPRoute delegates to, and
    theirs in turn.  The route collection is a list of IRs; the recursion takes
    fuel, and [delegated_children_total] shows that one more than the number of
    routes is always enough. *)

From S2P Require Import Prelude IR Delegation.

(** ** Backend maps *)

(** [backendToRefKey]. *)
Definition backendToRefKey (ref : ObjectSource) : string :=
  os_group ref +:+ "~" +:+ os_kind ref +:+ "~" +:+ os_name ref +:+ "~" +:+ os_namespace ref.

Record BackendMap (T : Type) := mkBM { bm_items : gmap string T; bm_errors : gmap string error }.
Arguments mkBM {T}. Arguments bm_items {T}. Arguments bm_errors {T}.

Definition NewBackendMap {T} : BackendMap T := mkBM ∅ ∅.

Definition bm_add {T} (bm : BackendMap T) (ref : ObjectSource) (value : T) : BackendMap T :=
  mkBM (<[backendToRefKey ref := value]> (bm_items bm)) (bm_errors bm).

Definition bm_add_error {T} (bm : BackendMap T) (ref : ObjectSource) (err : error) : BackendMap T :=
  mkBM (bm_items bm) (<[backendToRefKey ref := err]> (bm_errors bm)).

(** [BackendMap.get]: the error when there is one, even if items were found. *)
Definition bm_get {T} (bm : BackendMap T) (ref : ObjectSource) : error + T :=
  match bm_errors bm !! backendToRefKey ref with
  | Some err => inl err
  | None =>
      match bm_items bm !! backendToRefKey ref with
      | Some res => inr res
      | None => inl (ESentinel ErrUnresolvedReference)
      end
  end.

(** ** Routes *)

(** [TcpRouteIR] and [TlsRouteIR]; a [TcpRouteIR] has no hostnames.  Of the rules of the
    source object only their number is read. *)
Record L4Route (P : Type) := mkL4 {
  l4_source : ObjectSource; l4_object : Object; l4_rules : nat;
  l4_parent_refs : list ParentReference; l4_hostnames : list string;
  l4_policies : AttachedPolicies P; l4_backends : list (BackendRefIR P) }.
Arguments mkL4 {P}. Arguments l4_source {P}. Arguments l4_object {P}. Arguments l4_rules {P}.
Arguments l4_parent_refs {P}. Arguments l4_hostnames {P}. Arguments l4_policies {P}. Arguments l4_backends {P}.

Section tree.
Context {P : Type}.

Inductive Route := RHttp (r : HttpRouteIR P) | RTcp (r : L4Route P) | RTls (r : L4Route P).

Definition route_source (r : Route) : ObjectSource :=
  match r with RHttp r => hr_source r | RTcp r | RTls r => l4_source r end.
(** [GetSourceObject]. *)
Definition route_object (r : Route) : Object :=
  match r with RHttp r => hr_object r | RTcp r | RTls r => l4_object r end.
Definition route_parent_refs (r : Route) : list ParentReference :=
  match r with RHttp r => hr_parent_refs r | RTcp r | RTls r => l4_parent_refs r end.

(** [RouteInfo]; its [Children] map is kept as its two fields. *)
#[warnings="-register-all"]
Inductive RouteInfo := mkRI {
  ri_object : Route;
  ri_parent_ref : ParentReference;
  ri_listener_ref : ParentReference;
  ri_hostname_overrides : list string;
  ri_items : gmap string (list RouteInfo);
  ri_errors : gmap string error }.

Definition ri_children (r : RouteInfo) : BackendMap (list RouteInfo) :=
  mkBM (ri_items r) (ri_errors r).

(** [RouteInfo.Hostnames] and [GetChildrenForRef]. *)
Definition ri_hostnames (r : RouteInfo) : list string :=
  match ri_hostname_overrides r with
  | [] => match ri_object r with RHttp hr => hr_hostnames hr | _ => [] end
  | l => l
  end.

Definition GetChildrenForRef (r : RouteInfo) (backendRef : ObjectSource) : error + list RouteInfo :=
  bm_get (ri_children r) backendRef.

(** [UniqueRouteName]. *)
Definition UniqueRouteName (r : RouteInfo) (ruleIdx matchIdx : nat) (ruleName : string) : string :=
  let src := route_source (ri_object r) in
  let base := to_lower (os_kind src) +:+ "-" +:+ os_name src +:+ "-" +:+ os_namespace src +:+ "-" +:+
              pretty ruleIdx +:+ "-" +:+ pretty matchIdx in
  if String.eqb ruleName "" then base else base +:+ "-" +:+ ruleName.

(** ** The HTTPRoute collection *)

Definition DelegationLabelSelector : string := "delegation.kgateway.dev/label".

(** [DelegationLabelSelectorWildcardNamespace], "all" unless the environment overrides it. *)
Context (wildcardNs : string).

Definition isDelegationLabelSelectorRef (ref : ObjectSource) : bool :=
  String.eqb (os_group ref +:+ "/" +:+ os_kind ref) DelegationLabelSelector.

Record HTTPRouteSelector := mkSel { sel_label : string; sel_namespace : string }.
#[global] Instance HTTPRouteSelector_eq_dec : EqDecision HTTPRouteSelector.
Proof. solve_decision. Defined.

(** The keys of the selector index. *)
Definition selector_keys (r : HttpRouteIR P) : list HTTPRouteSelector :=
  let ns := os_namespace (hr_source r) in
  match obj_labels (hr_object r) !! DelegationLabelSelector with
  | None => [mkSel "" ns]
  | Some value => [mkSel "" ns; mkSel value ns; mkSel value ""]
  end.

Definition FetchHTTPRoutesBySelector (routes : list (HttpRouteIR P)) (sel : HTTPRouteSelector) :
    list (HttpRouteIR P) := filter (λ r, sel ∈ selector_keys r) routes.

(** [FetchHttp]: by the key of the object. *)
Definition FetchHttp (routes : list (HttpRouteIR P)) (ns n : string) : option (HttpRouteIR P) :=
  head (filter (λ r, os_resource_name (hr_source r) =
                     os_resource_name (mkOS GatewayGroup HTTPRouteKind ns n)) routes).

Definition unresolved : error := ESentinel ErrUnresolvedReference.

Definition fetchRoutesByRef (routes : list (HttpRouteIR P)) (backend : HttpBackendOrDelegate P) :
    error + list (HttpRouteIR P) :=
  match bd_delegate backend with
  | None => inr []
  | Some backendRef =>
      let delegatedNs := os_namespace backendRef in
      let found :=
        if isDelegationLabelSelectorRef backendRef then
          inr (FetchHTTPRoutesBySelector routes
            (mkSel (os_name backendRef)
               (if negb (String.eqb delegatedNs wildcardNs) then delegatedNs else "")))
        else if String.eqb (os_name backendRef) "" || String.eqb (os_name backendRef) "*" then
          inr (FetchHTTPRoutesBySelector routes (mkSel "" delegatedNs))
        else
          match FetchHttp routes delegatedNs (os_name backendRef) with
          | None => inl unresolved
          | Some route => inr [route]
          end in
      match found with
      | inl e => inl e
      | inr [] => inl unresolved
      | inr l => inr l
      end
  end.

(** ** Resolution of delegates *)

Definition cyclic_error (child parent : NamespacedName) : error :=
  EWrap ("ignoring child route " +:+ nn_string child +:+ " for parent " +:+ nn_string parent)
    (ESentinel ErrCyclicReference).

Definition child_parent_ref (parent : HttpRouteIR P) : ParentReference :=
  mkPR (Some GatewayGroup) (Some HTTPRouteKind) (Some (os_namespace (hr_source parent)))
    (os_name (hr_source parent)) None None.

(** The children map and the [refChildren] slice of the current rule. *)
Abbreviation ChildState := (BackendMap (list RouteInfo) * list RouteInfo)%type.

(** [visited] is the chain of routes being resolved: the source removes a route
    from the shared set when its children are done, so the set a call sees is
    the set of its ancestors. *)
Fixpoint getDelegatedChildren (fuel : nat) (routes : list (HttpRouteIR P))
    (listenerRef : ParentReference) (parent : HttpRouteIR P) (visited : gset NamespacedName) :
    option (BackendMap (list RouteInfo)) :=
  match fuel with
  | O => None
  | S fuel =>
      let parentRef := hr_nn parent in
      let visited := {[parentRef]} ∪ visited in
      let child_step (ref : ObjectSource) (st : ChildState) (childRoute : HttpRouteIR P) :=
        let '(children, refChildren) := st in
        let childRef := hr_nn childRoute in
        if negb (ChildRouteCanAttachToParentRef (os_namespace (hr_source childRoute))
                   (hr_parent_refs childRoute) parentRef) then Some st
        else if bool_decide (childRef ∈ visited) then
          Some (bm_add_error children ref (cyclic_error childRef parentRef), refChildren)
        else
          sub ← getDelegatedChildren fuel routes listenerRef childRoute visited;
          Some (children,
                refChildren ++ [mkRI (RHttp childRoute) (child_parent_ref parent) listenerRef []
                                  (bm_items sub) (bm_errors sub)]) in
      let backend_step (st : ChildState) (backendRef : HttpBackendOrDelegate P) :=
        match bd_delegate backendRef with
        | None => Some st
        | Some ref =>
            match fetchRoutesByRef routes backendRef with
            | inl err => Some (bm_add_error st.1 ref err, st.2)
            | inr referencedRoutes =>
                '(children, refChildren) ← foldM (child_step ref) st referencedRoutes;
                Some (bm_add children ref refChildren, refChildren)
            end
        end in
      let rule_step (children : BackendMap (list RouteInfo)) (parentRule : HttpRouteRuleIR P) :=
        '(children, _) ← foldM backend_step (children, []) (rr_backends parentRule);
        Some children in
      foldM rule_step NewBackendMap (hr_rules parent)
  end.

(** ** Correctness *)

(** What the tree promises: a route is not one of its own ancestors; every child
    comes from the collection, accepts its parent, points at it, and carries
    the listener of the root. *)
Inductive delegated (routes : list (HttpRouteIR P)) (listenerRef : ParentReference) :
    gset NamespacedName → HttpRouteIR P → RouteInfo → Prop :=
| delegated_intro ancestors parent child items errors :
    child ∈ routes →
    hr_nn child ∉ ancestors →
    ChildRouteCanAttachToParentRef (os_namespace (hr_source child)) (hr_parent_refs child)
      (hr_nn parent) = true →
    (∀ k l ri, items !! k = Some l → ri ∈ l →
       delegated routes listenerRef ({[hr_nn child]} ∪ ancestors) child ri) →
    delegated routes listenerRef ancestors parent
      (mkRI (RHttp child) (child_parent_ref parent) listenerRef [] items errors).

Lemma fetch_selector_in routes sel r : r ∈ FetchHTTPRoutesBySelector routes sel → r ∈ routes.
Proof. unfold FetchHTTPRoutesBySelector. by intros [_ ?]%list_elem_of_filter. Qed.

Lemma fetch_http_in routes ns n r : FetchHttp routes ns n = Some r → r ∈ routes.
Proof.
  unfold FetchHttp. intros Hh. apply head_Some_elem_of in Hh. by apply list_elem_of_filter in Hh as [_ ?].
Qed.

Lemma fetch_in routes b l r : fetchRoutesByRef routes b = inr l → r ∈ l → r ∈ routes.
Proof.
  unfold fetchRoutesByRef. intros Hf Hr.
  destruct (bd_delegate b) as [ref|]; [|simplify_eq; by apply not_elem_of_nil in Hr].
  repeat case_match; simplify_eq; try by apply not_elem_of_nil in Hr.
  all: repeat match goal with E : inr _ = inr _ |- _ => injection E as E end; subst.
  all: try (eapply fetch_selector_in; match goal with E : FetchHTTPRoutesBySelector _ _ = _ |- _ => by rewrite E end).
  all: apply elem_of_cons in Hr as [->|Hr]; [by eapply fetch_http_in|by apply not_elem_of_nil in Hr].
Qed.

(** The routes that can still be entered. *)
Definition unvisited (routes : list (HttpRouteIR P)) (visited : gset NamespacedName) : nat :=
  size ((list_to_set (map hr_nn routes) : gset NamespacedName) ∖ visited).

Lemma unvisited_lt routes visited child :
  child ∈ routes → hr_nn child ∉ visited →
  unvisited routes ({[hr_nn child]} ∪ visited) < unvisited routes visited.
Proof.
  intros Hin Hv. unfold unvisited. apply subset_size. split; [set_solver|].
  intros Hs. assert (hr_nn child ∈ (list_to_set (map hr_nn routes) : gset NamespacedName)) as Hc.
  { apply elem_of_list_to_set, list_elem_of_fmap. by exists child. }
  set_solver.
Qed.

Lemma delegated_children_spec fuel routes listenerRef parent visited :
  unvisited routes ({[hr_nn parent]} ∪ visited) < fuel →
  ∃ bm, getDelegatedChildren fuel routes listenerRef parent visited = Some bm ∧
    ∀ k l ri, bm_items bm !! k = Some l → ri ∈ l →
      delegated routes listenerRef ({[hr_nn parent]} ∪ visited) parent ri.
Proof.
  revert parent visited. induction fuel as [|fuel IH]; intros parent visited Hfuel; [lia|].
  simpl. set (V := {[hr_nn parent]} ∪ visited) in *.
  set (ok := λ bm : BackendMap (list RouteInfo),
    ∀ k l ri, bm_items bm !! k = Some l → ri ∈ l → delegated routes listenerRef V parent ri).
  set (okl := λ l : list RouteInfo, ∀ ri, ri ∈ l → delegated routes listenerRef V parent ri).
  apply (foldM_invariant ok); [|intros k l ri Hk; simpl in Hk; by rewrite lookup_empty in Hk].
  intros bm rule _ Hbm.
  match goal with |- context [foldM ?f (bm, []) _] => 
    destruct (foldM_invariant (λ st, ok st.1 ∧ okl st.2) f (rr_backends rule) (bm, []))
      as ([bm' rc] & -> & [Hok _]) end; [| |by exists bm'].
  2: { split; [done|]. by intros ri ?%not_elem_of_nil. }
  intros [ch rc] b _ [Hch Hrc]. simpl in Hch, Hrc.
  destruct (bd_delegate b) as [ref|]; [|by eexists].
  destruct (fetchRoutesByRef routes b) as [err|l] eqn:El; [by eexists|].
  match goal with |- context [foldM ?f (ch, rc) l] =>
    destruct (foldM_invariant (λ st, ok st.1 ∧ okl st.2) f l (ch, rc))
      as ([ch' rc'] & -> & [Hch' Hrc']) end; [|done|].
  - intros [c r] child Hchild [Hc Hr]. simpl in Hc, Hr.
    destruct (ChildRouteCanAttachToParentRef _ _ _) eqn:Ea; [|by eexists]. simpl.
    case_bool_decide as Hv; [by eexists|].
    assert (child ∈ routes) as Hin by (by eapply fetch_in).
    destruct (IH child V) as (sub & -> & Hsub).
    { pose proof (unvisited_lt routes V child Hin Hv). lia. }
    eexists. split; [done|]. split; [done|]. intros ri Hri. apply elem_of_app in Hri as [Hri|Hri]; [by apply Hr|].
    apply list_elem_of_singleton in Hri as ->.
    constructor; [done..|]. exact Hsub.
  - eexists. split; [done|]. split; [|done]. intros k l' ri. simpl.
    intros [[_ <-]|[_ Hk]]%lookup_insert_Some; [exact (Hrc' ri)|exact (Hch' k l' ri Hk)].
Qed.

Lemma unvisited_bound routes visited : (unvisited routes visited <= length routes)%nat.
Proof.
  unfold unvisited. etransitivity; [apply subseteq_size, subseteq_difference_l; reflexivity|].
  induction routes as [|r routes IH]; [reflexivity|]. simpl.
  rewrite size_union_alt, size_singleton. simpl. apply le_n_S.
  etransitivity; [apply subseteq_size, subseteq_difference_l; reflexivity|exact IH].
Qed.

(** [getDelegatedChildren] of the top of a chain, with enough fuel. *)
Definition delegatedChildren (routes : list (HttpRouteIR P)) (listenerRef : ParentReference)
    (parent : HttpRouteIR P) : BackendMap (list RouteInfo) :=
  default NewBackendMap (getDelegatedChildren (S (length routes)) routes listenerRef parent ∅).

(** C4: Resolving delegates terminates on every collection of routes, also on cyclic
    ones: with one unit of fuel more than there are routes the recursion
    returns.  In the resulting tree no route is its own ancestor, and every
    child is a route of the collection that accepts its parent and carries the
    root's listener. *)
Theorem delegated_children_total routes listenerRef parent :
  ∃ bm, getDelegatedChildren (S (length routes)) routes listenerRef parent ∅ = Some bm ∧
    ∀ k l ri, bm_items bm !! k = Some l → ri ∈ l →
      delegated routes listenerRef {[hr_nn parent]} parent ri.
Proof.
  destruct (delegated_children_spec (S (length routes)) routes listenerRef parent ∅) as (bm & Hbm & Hd).
  - pose proof (unvisited_bound routes ({[hr_nn parent]} ∪ ∅)). lia.
  - exists bm. split; [done|]. by rewrite (right_id_L ∅ (∪)) in Hd.
Qed.

End tree.

(** ** Concrete collections *)

Definition ex_route (ns n : string) (prefs : list ParentReference) (rules : list (list ObjectSource)) :
    HttpRouteIR unit :=
  mkHttpRoute (mkOS GatewayGroup HTTPRouteKind ns n) (mkObj ns n 0 1 "" "" ∅ ∅) prefs [] ∅
    (map (λ refs, mkRule ∅ ∅ (map (λ r, mkBOD ∅ None (Some r)) refs) [] "" None) rules) 0 false.

Definition ex_ref (ns n : string) : ObjectSource := mkOS GatewayGroup HTTPRouteKind ns n.
Definition ex_gw_ref : ParentReference :=
  mkPR (Some GatewayGroup) (Some GatewayKind) (Some "infra") "gw" None None.

Definition child_names (r : error + list (@RouteInfo unit)) : error + list NamespacedName :=
  match r with
  | inl e => inl e
  | inr l => inr (map (λ ri, os_nn (route_source (ri_object ri))) l)
  end.

(** Two delegates of one rule are not kept apart: the children of the second
    reference include those of the first, because the slice that collects them
    is reset per rule only.  The routes of the first child are then translated
    under both references. *)
Theorem delegates_of_a_rule_accumulate :
  let root := ex_route "infra" "root" [ex_gw_ref] [[ex_ref "a" "b"; ex_ref "a" "c"]] in
  let routes := [root; ex_route "a" "b" [] []; ex_route "a" "c" [] []] in
  let bm := delegatedChildren "all" routes ex_gw_ref root in
  child_names (bm_get bm (ex_ref "a" "b")) = inr [mkNN "a" "b"] ∧
  child_names (bm_get bm (ex_ref "a" "c")) = inr [mkNN "a" "b"; mkNN "a" "c"].
Proof. by vm_compute. Qed.

(** A cyclic child hides its siblings: a route that delegates to all routes of its
    own namespace meets itself, and although only the offending child is
    skipped while resolving, the error recorded for the reference makes the
    lookup fail, so the other resolved child is never used. *)
Theorem cyclic_child_hides_siblings :
  let root := ex_route "infra" "root" [ex_gw_ref] [[ex_ref "a" "b"]] in
  let b := ex_route "a" "b" [] [[ex_ref "a" "*"]] in
  let c := ex_route "a" "c" [] [] in
  let bm := delegatedChildren "all" [root; b; c] ex_gw_ref root in
  ∃ rb, bm_get bm (ex_ref "a" "b") = inr [rb] ∧
    child_names (inr (default [] (ri_items rb !! backendToRefKey (ex_ref "a" "*")))) = inr [mkNN "a" "c"] ∧
    GetChildrenForRef rb (ex_ref "a" "*") = inl (cyclic_error (mkNN "a" "b") (mkNN "a" "b")).
Proof. eexists. split; [vm_compute; reflexivity|]. by vm_compute. Qed.
