(* ===== verification/Query.v ===== *)
(** * Attaching routes to listeners (pkg/kgateway/query/query.go, route.go, utils.go,
      pkg/krtcollections/namespaceselector.go and the parent index of policy.go)

    [processRoute] decides, for every parent reference of a route and every
    listener of the referenced Gateway or ListenerSet, whether the route
    attaches, and records one error for a reference that attaches nowhere.  The
    label-selector library is a parameter. *)

From S2P Require Import Prelude IR Delegation RouteTree.

(** ** Hostnames *)

Definition IntersectHostnames (listenerHostname routeHostname : string) : string * bool :=
  if String.eqb listenerHostname "" then (routeHostname, true)
  else if String.eqb routeHostname "" then (listenerHostname, true)
  else
    let listenerWildcard := has_prefix listenerHostname "*." in
    let routeWildcard := has_prefix routeHostname "*." in
    let l1 := str_drop 1 listenerHostname in
    let r1 := str_drop 1 routeHostname in
    match listenerWildcard, routeWildcard with
    | false, false => (listenerHostname, String.eqb listenerHostname routeHostname)
    | true, false => if has_suffix routeHostname l1 then (routeHostname, true) else ("", false)
    | false, true => if has_suffix listenerHostname r1 then (listenerHostname, true) else ("", false)
    | true, true =>
        if has_suffix l1 r1 then (listenerHostname, true)
        else if has_suffix r1 l1 then (routeHostname, true)
        else ("", false)
    end.

(** ** Listeners *)

Record LabelSelector := mkLS { ls_match_labels : gmap string string; ls_expressions : list string }.

Record RouteNamespaces := mkRN { rn_from : option string; rn_selector : option LabelSelector }.

Record AllowedRoutes := mkAR {
  ar_namespaces : option RouteNamespaces;
  ar_kinds : option (list (option string * string)) }.

Record Listener := mkListener {
  l_name : string;
  l_hostname : option string;
  l_port : Z;
  l_protocol : string;
  l_tls_mode : option (option string);
  l_allowed : option AllowedRoutes }.

(** The Go type of a parent resource. *)
Inductive ResourceType := TGateway | TListenerSet | TListenerCollection | TOther.

Record Resource := mkRes {
  res_type : ResourceType;
  res_gvk : GroupKind;
  res_namespace : string;
  res_name : string;
  res_listeners : list Listener }.

Definition ListenerSetKind : string := "ListenerSet".

(** The group and kind of a resource; typed objects may come without them. *)
Definition resource_gk (r : Resource) : GroupKind :=
  if bool_decide (res_gvk r = mkGK "" "") then
    match res_type r with
    | TGateway => mkGK GatewayGroup GatewayKind
    | TListenerSet => mkGK GatewayGroup ListenerSetKind
    | _ => res_gvk r
    end
  else res_gvk r.

Definition isParentRefForResource (pRef : ParentReference) (resource : Resource) (defaultNs : string) :
    bool :=
  let gvk := resource_gk resource in
  match pr_group pRef with Some g => String.eqb g (gk_group gvk) | None => true end &&
  match pr_kind pRef with Some k => String.eqb k (gk_kind gvk) | None => true end &&
  (String.eqb (str_or (pr_namespace pRef) defaultNs) (res_namespace resource) &&
   String.eqb (pr_name pRef) (res_name resource)).

Definition parentRefMatchListener (ref : ParentReference) (l : Listener) : bool :=
  match pr_port ref with Some p => (p =? l_port l)%Z | None => true end &&
  match pr_section ref with Some s => String.eqb s (l_name l) | None => true end.

(** [hostnameIntersect], on a non-nil listener. *)
Definition intersect_step (listenerHostname : string) (hostnames : list string) (routeHostname : string) :
    list string :=
  let '(intersection, ok) := IntersectHostnames listenerHostname routeHostname in
  if negb ok || bool_decide (intersection ∈ hostnames) then hostnames else hostnames ++ [intersection].

Definition hostnameIntersect (l : Listener) (routeHostnames : list string) : bool * list string :=
  let listenerHostname := str_or (l_hostname l) "" in
  match routeHostnames with
  | [] => if String.eqb listenerHostname "" then (true, []) else (true, [listenerHostname])
  | _ =>
      if String.eqb listenerHostname "" then (true, routeHostnames)
      else
        let hostnames := foldl (intersect_step listenerHostname) [] routeHostnames in
        ((0 <? length hostnames)%nat, hostnames)
  end.

(** ** Allowed routes *)

Definition defaultAllowedRouteKinds (l : Listener) : list GroupKind :=
  let gk k := mkGK GatewayGroup k in
  if String.eqb (l_protocol l) "HTTPS" || String.eqb (l_protocol l) "HTTP" then
    [gk HTTPRouteKind; gk GRPCRouteKind]
  else if String.eqb (l_protocol l) "TLS" then
    if bool_decide (l_tls_mode l = Some (Some "Terminate"))
    then [gk TLSRouteKind; gk TCPRouteKind] else [gk TLSRouteKind]
  else if String.eqb (l_protocol l) "TCP" then [gk TCPRouteKind]
  else if String.eqb (l_protocol l) "UDP" then [mkGK "" ""]
  else [gk HTTPRouteKind].

Definition filterSupportedRouteKinds (requested supported : list GroupKind) : list GroupKind :=
  filter (λ k, k ∈ supported) requested.

Definition isKindAllowed (routeKind : string) (allowedKinds : list GroupKind) : bool :=
  existsb (λ k, String.eqb (gk_kind k) routeKind) allowedKinds.

(** [metav1.LabelSelectorAsSelector] and [labels.Selector]. *)
Class SelectorLib (Selector : Type) := {
  LabelSelectorAsSelector : LabelSelector → error + Selector;
  sel_empty : Selector → bool;
  sel_matches : Selector → gmap string string → bool }.

Section attach.
Context {Selector : Type} `{SelectorLib Selector} (namespaces : gmap string (gmap string string)).

Definition SameNamespace (ns namespace : string) : bool := String.eqb ns namespace.
Definition AllNamespace (namespace : string) : bool := true.
Definition NamespaceSelector (sel : Selector) (namespace : string) : bool :=
  match namespaces !! namespace with
  | None => sel_empty sel
  | Some labels => sel_matches sel labels
  end.

Definition allowedRoutes (resource : Resource) (l : Listener) :
    error + ((string → bool) * list GroupKind) :=
  let allowedKinds := defaultAllowedRouteKinds l in
  let sameNs := SameNamespace (res_namespace resource) in
  match l_allowed l with
  | None => inr (sameNs, allowedKinds)
  | Some ar =>
      let allowedKinds :=
        match ar_kinds ar with
        | None => allowedKinds
        | Some ks =>
            filterSupportedRouteKinds (map (λ '(g, k), mkGK (str_or g GatewayGroup) k) ks) allowedKinds
        end in
      match ar_namespaces ar with
      | Some (mkRN (Some from) selector) =>
          if String.eqb from "All" then inr (AllNamespace, allowedKinds)
          else if String.eqb from "Selector" then
            match selector with
            | None => inl (EMsg "selector must be set")
            | Some s =>
                match LabelSelectorAsSelector s with
                | inl err => inl err
                | inr sel => inr (NamespaceSelector sel, allowedKinds)
                end
            end
          else inr (sameNs, allowedKinds)
      | _ => inr (sameNs, allowedKinds)
      end
  end.

(** ** Results *)

Context {P : Type} (wildcardNs : string) (httpRoutes : list (HttpRouteIR P)).

Definition defaultParentRef (ref : ParentReference) (routeNamespace : string) : ParentReference :=
  mkPR (Some (str_or (pr_group ref) GatewayGroup)) (Some (str_or (pr_kind ref) GatewayKind))
    (match pr_namespace ref with
     | None => if negb (String.eqb routeNamespace "") then Some routeNamespace else None
     | Some ns => Some ns
     end) (pr_name ref) (pr_section ref) (pr_port ref).

Definition GetRouteChain (route : @Route P) (hostnames : list string) (parentRef : ParentReference) :
    @RouteInfo P :=
  let ref := defaultParentRef parentRef (os_namespace (route_source route)) in
  let children :=
    match route with
    | RHttp r => delegatedChildren wildcardNs httpRoutes ref r
    | RTcp _ | RTls _ => NewBackendMap
    end in
  mkRI route parentRef ref hostnames (bm_items children) (bm_errors children).

Record ListenerResult := mkLR { lr_error : option error; lr_routes : list (@RouteInfo P) }.

(** A [RouteError]; its reason is determined by the sentinel. *)
Record RouteError := mkRE { re_route : @Route P; re_parent_ref : ParentReference; re_error : sentinel }.

Definition re_reason (e : RouteError) : string :=
  match re_error e with
  | ErrNotAllowedByListeners => "NotAllowedByListeners"
  | ErrNoMatchingParent => "NoMatchingParent"
  | ErrNoMatchingListenerHostname => "NoMatchingListenerHostname"
  | _ => ""
  end.

Record RoutesForGwResult := mkRGR {
  listenerResults : gmap string ListenerResult;
  RouteErrors : list RouteError }.

Definition NewRoutesForGwResult : RoutesForGwResult := mkRGR ∅ [].

(** [RoutesForGwResult.merge]. *)
Definition rgr_merge (r r2 : RoutesForGwResult) : RoutesForGwResult :=
  mkRGR (listenerResults r2 ∪ listenerResults r) (RouteErrors r ++ RouteErrors r2).

Definition GenerateRouteKey (parent : Resource) (listenerName : string) : string :=
  match res_type parent with
  | TGateway => listenerName
  | _ => res_namespace parent +:+ "/" +:+ res_name parent +:+ "/" +:+ listenerName
  end.

Definition getListeners (resource : Resource) : error + list Listener :=
  match res_type resource with
  | TOther => inl (EMsg "unknown type")
  | _ => inr (res_listeners resource)
  end.

Definition getParentRefsForResource (resource : Resource) (route : @Route P) : list ParentReference :=
  filter (λ ref, isParentRefForResource ref resource (os_namespace (route_source route)) = true)
    (route_parent_refs route).

(** The hostname check of [processRoute]: [None] when the route's kind has none. *)
Definition route_hosts (route : @Route P) : option (list string) :=
  let kind := os_kind (route_source route) in
  match route with
  | RHttp r =>
      if String.eqb kind HTTPRouteKind || String.eqb kind GRPCRouteKind then Some (hr_hostnames r) else None
  | RTls r => if String.eqb kind TLSRouteKind then Some (l4_hostnames r) else None
  | RTcp _ => None
  end.

(** The flags of the loop over the listeners of one reference. *)
Record Flags := mkFlags { anyRoutesAllowed : bool; anyListenerMatched : bool; anyHostsMatch : bool }.

(** One iteration of the loop over the listeners. *)
Definition listener_step (resource : Resource) (route : @Route P) (ref : ParentReference)
    (st : RoutesForGwResult * Flags) (l : Listener) : RoutesForGwResult * Flags :=
  let '(ret, fl) := st in
  let key := GenerateRouteKey resource (l_name l) in
  let lr := default (mkLR None []) (listenerResults ret !! key) in
  let put lr := mkRGR (<[key := lr]> (listenerResults ret)) (RouteErrors ret) in
  match allowedRoutes resource l with
  | inl err => (put (mkLR (Some err) (lr_routes lr)), fl)
  | inr (allowedNs, allowedKinds) =>
      if negb (isKindAllowed (os_kind (route_source route)) allowedKinds) then (put lr, fl)
      else if negb (allowedNs (os_namespace (route_source route))) then (put lr, fl)
      else
        let fl := mkFlags true (anyListenerMatched fl) (anyHostsMatch fl) in
        if negb (parentRefMatchListener ref l) then (put lr, fl)
        else
          let fl := mkFlags true true (anyHostsMatch fl) in
          match route_hosts route with
          | None =>
              (put (mkLR (lr_error lr) (lr_routes lr ++ [GetRouteChain route [] ref])), fl)
          | Some hosts =>
              let '(ok, hostnames) := hostnameIntersect l hosts in
              if negb ok then (put lr, fl)
              else (put (mkLR (lr_error lr) (lr_routes lr ++ [GetRouteChain route hostnames ref])),
                    mkFlags true true true)
          end
  end.

Definition host_kind (kind : string) : bool :=
  String.eqb kind HTTPRouteKind || String.eqb kind TLSRouteKind || String.eqb kind GRPCRouteKind.

(** One reference: the listeners, then at most one error. *)
Definition ref_step (resource : Resource) (route : @Route P) (listeners : list Listener)
    (ret : RoutesForGwResult) (ref : ParentReference) : RoutesForGwResult :=
  let '(ret, fl) := foldl (listener_step resource route ref) (ret, mkFlags false false false) listeners in
  let fail s := mkRGR (listenerResults ret) (RouteErrors ret ++ [mkRE route ref s]) in
  if negb (anyRoutesAllowed fl) then fail ErrNotAllowedByListeners
  else if negb (anyListenerMatched fl) then fail ErrNoMatchingParent
  else if host_kind (os_kind (route_source route)) && negb (anyHostsMatch fl)
  then fail ErrNoMatchingListenerHostname
  else ret.

Definition processRoute (resource : Resource) (route : @Route P) (ret : RoutesForGwResult) :
    error + RoutesForGwResult :=
  match getParentRefsForResource resource route with
  | [] => inr ret
  | refs =>
      match getListeners resource with
      | inl err => inl err
      | inr listeners => inr (foldl (ref_step resource route listeners) ret refs)
      end
  end.

(** The index of routes by parent. *)
Definition parent_key (routeNs : string) (pRef : ParentReference) : GroupKind * NamespacedName :=
  let ns := str_or (pr_namespace pRef) "" in
  let ns := if String.eqb ns "" then routeNs else ns in
  (mkGK (str_or (pr_group pRef) GatewayGroup) (str_or (pr_kind pRef) GatewayKind), mkNN ns (pr_name pRef)).

Definition RoutesFor (routes : list (@Route P)) (nns : NamespacedName) (gk : GroupKind) : list (@Route P) :=
  filter (λ r, (gk, nns) ∈ map (parent_key (os_namespace (route_source r))) (route_parent_refs r)) routes.

Fixpoint process_all (resource : Resource) (routes : list (@Route P)) (ret : RoutesForGwResult) :
    error + RoutesForGwResult :=
  match routes with
  | [] => inr ret
  | r :: rs =>
      match processRoute resource r ret with
      | inl err => inl err
      | inr ret => process_all resource rs ret
      end
  end.

Definition GetRoutesForResource (routes : list (@Route P)) (resource : Resource) :
    error + RoutesForGwResult :=
  process_all resource
    (RoutesFor routes (mkNN (res_namespace resource) (res_name resource)) (resource_gk resource))
    NewRoutesForGwResult.

Fixpoint merge_listener_sets (routes : list (@Route P)) (ls : list Resource) (acc : RoutesForGwResult) :
    error + RoutesForGwResult :=
  match ls with
  | [] => inr acc
  | l :: ls =>
      match GetRoutesForResource routes l with
      | inl err => inl err
      | inr r => merge_listener_sets routes ls (rgr_merge acc r)
      end
  end.

(** [GetRoutesForGateway]: the Gateway, then its allowed listener sets. *)
Definition GetRoutesForGateway (routes : list (@Route P)) (gw : Resource)
    (allowedListenerSets : list (list Resource)) : error + RoutesForGwResult :=
  match GetRoutesForResource routes gw with
  | inl err => inl err
  | inr r => merge_listener_sets routes (concat allowedListenerSets) r
  end.

(** ** Attachment, declaratively *)

(** What a listener decides about a reference of a route. *)
Inductive Verdict :=
| VError (e : error)
| VForbidden
| VOtherListener
| VNoHost
| VAttach (hostnames : list string).

Definition verdict (resource : Resource) (route : @Route P) (ref : ParentReference) (l : Listener) : Verdict :=
  match allowedRoutes resource l with
  | inl e => VError e
  | inr (allowedNs, allowedKinds) =>
      if negb (isKindAllowed (os_kind (route_source route)) allowedKinds &&
               allowedNs (os_namespace (route_source route))) then VForbidden
      else if negb (parentRefMatchListener ref l) then VOtherListener
      else match route_hosts route with
           | None => VAttach []
           | Some hosts =>
               let '(ok, hostnames) := hostnameIntersect l hosts in
               if negb ok then VNoHost else VAttach hostnames
           end
  end.

Definition permits (v : Verdict) : bool := match v with VError _ | VForbidden => false | _ => true end.
Definition selects (v : Verdict) : bool := match v with VNoHost | VAttach _ => true | _ => false end.
Definition attaches (v : Verdict) : bool := match v with VAttach _ => true | _ => false end.

(** The chain a listener gets from a reference, if it attaches. *)
Definition attached_chain (resource : Resource) (route : @Route P) (key : string) (ref : ParentReference)
    (l : Listener) : option (@RouteInfo P) :=
  if String.eqb (GenerateRouteKey resource (l_name l)) key then
    match verdict resource route ref l with
    | VAttach hostnames => Some (GetRouteChain route hostnames ref)
    | _ => None
    end
  else None.

Definition host_checked (route : @Route P) : bool :=
  match route_hosts route with Some _ => true | None => false end.

(** The error of a reference: the furthest check that no listener passed. *)
Definition ref_error (resource : Resource) (route : @Route P) (listeners : list Listener)
    (ref : ParentReference) : option RouteError :=
  let vs := map (verdict resource route ref) listeners in
  if negb (existsb permits vs) then Some (mkRE route ref ErrNotAllowedByListeners)
  else if negb (existsb selects vs) then Some (mkRE route ref ErrNoMatchingParent)
  else if host_kind (os_kind (route_source route)) && negb (host_checked route && existsb attaches vs)
  then Some (mkRE route ref ErrNoMatchingListenerHostname)
  else None.

Definition routes_at (ret : RoutesForGwResult) (key : string) : list (@RouteInfo P) :=
  default [] (lr_routes <$> (listenerResults ret !! key)).

#[local] Arguments listener_step : simpl never.
#[local] Arguments ref_step : simpl never.

Lemma routes_at_put ret lr key k errs :
  routes_at (mkRGR (<[key := lr]> (listenerResults ret)) errs) k =
  if String.eqb key k then lr_routes lr else routes_at ret k.
Proof.
  unfold routes_at. simpl. destruct (String.eqb_spec key k) as [->|Hne];
    [by rewrite lookup_insert_eq|by rewrite lookup_insert_ne].
Qed.

Lemma routes_at_default ret key :
  lr_routes (default (mkLR None []) (listenerResults ret !! key)) = routes_at ret key.
Proof. unfold routes_at. by destruct (listenerResults ret !! key). Qed.

Lemma listener_step_spec resource route ref ret fl l key :
  let r := listener_step resource route ref (ret, fl) l in
  routes_at r.1 key = routes_at ret key ++ option_list (attached_chain resource route key ref l) ∧
  RouteErrors r.1 = RouteErrors ret ∧
  anyRoutesAllowed r.2 = anyRoutesAllowed fl || permits (verdict resource route ref l) ∧
  anyListenerMatched r.2 = anyListenerMatched fl || selects (verdict resource route ref l) ∧
  anyHostsMatch r.2 = anyHostsMatch fl || (host_checked route && attaches (verdict resource route ref l)).
Proof.
  unfold listener_step, attached_chain, verdict, host_checked.
  destruct (allowedRoutes resource l) as [e|[ns ks]]; simpl.
  { rewrite routes_at_put, routes_at_default. destruct fl, (String.eqb_spec (GenerateRouteKey resource (l_name l)) key)
      as [->|]; simpl; by rewrite ?app_nil_r, ?orb_false_r, ?andb_false_r, ?orb_false_r. }
  destruct (isKindAllowed _ ks), (ns _), (parentRefMatchListener ref l); simpl;
    try destruct (route_hosts route) as [hosts|]; try destruct (hostnameIntersect l hosts) as [[|] hs]; simpl;
    rewrite routes_at_put; simpl; rewrite ?routes_at_default;
    destruct fl, (String.eqb_spec (GenerateRouteKey resource (l_name l)) key) as [->|]; simpl;
    by rewrite ?app_nil_r, ?orb_false_r, ?orb_true_r, ?andb_false_r, ?orb_false_r.
Qed.

Lemma listeners_spec resource route ref listeners ret fl key :
  let r := foldl (listener_step resource route ref) (ret, fl) listeners in
  let vs := map (verdict resource route ref) listeners in
  routes_at r.1 key = routes_at ret key ++ omap (attached_chain resource route key ref) listeners ∧
  RouteErrors r.1 = RouteErrors ret ∧
  anyRoutesAllowed r.2 = anyRoutesAllowed fl || existsb permits vs ∧
  anyListenerMatched r.2 = anyListenerMatched fl || existsb selects vs ∧
  anyHostsMatch r.2 = anyHostsMatch fl || (host_checked route && existsb attaches vs).
Proof.
  revert ret fl. induction listeners as [|l ls IH]; intros ret fl; simpl.
  { by rewrite app_nil_r, andb_false_r, !orb_false_r. }
  destruct (listener_step_spec resource route ref ret fl l key) as (H1 & H2 & H3 & H4 & H5).
  destruct (listener_step resource route ref (ret, fl) l) as [ret' fl']. simpl in *.
  destruct (IH ret' fl') as (I1 & I2 & I3 & I4 & I5).
  rewrite I1, I2, I3, I4, I5, H1, H2, H3, H4, H5. split_and!.
  - destruct (attached_chain resource route key ref l); simpl; by rewrite <- ?app_assoc, ?app_nil_r.
  - done.
  - by rewrite orb_assoc.
  - by rewrite orb_assoc.
  - by rewrite <- orb_assoc, andb_orb_distrib_r.
Qed.

Lemma ref_step_spec resource route listeners ret ref key :
  let r := ref_step resource route listeners ret ref in
  routes_at r key = routes_at ret key ++ omap (attached_chain resource route key ref) listeners ∧
  RouteErrors r = RouteErrors ret ++ option_list (ref_error resource route listeners ref).
Proof.
  unfold ref_step, ref_error.
  destruct (listeners_spec resource route ref listeners ret (mkFlags false false false) key)
    as (H1 & H2 & H3 & H4 & H5).
  destruct (foldl _ _ _) as [ret' fl]. simpl in *. rewrite H3, H4, H5.
  destruct (existsb permits _); simpl; [|by rewrite H2].
  destruct (existsb selects _); simpl; [|by rewrite H2].
  destruct (host_kind _ && _); simpl; rewrite H2; [done|by rewrite app_nil_r].
Qed.

Lemma refs_spec resource route listeners refs ret key :
  let r := foldl (ref_step resource route listeners) ret refs in
  routes_at r key =
    routes_at ret key ++ flat_map (λ ref, omap (attached_chain resource route key ref) listeners) refs ∧
  RouteErrors r = RouteErrors ret ++ omap (ref_error resource route listeners) refs.
Proof.
  revert ret. induction refs as [|ref refs IH]; intros ret; simpl; [by rewrite !app_nil_r|].
  destruct (ref_step_spec resource route listeners ret ref key) as [H1 H2].
  destruct (IH (ref_step resource route listeners ret ref)) as [I1 I2]. rewrite I1, I2, H1, H2.
  rewrite <- app_assoc. split; [done|].
  destruct (ref_error resource route listeners ref); simpl; by rewrite <- ?app_assoc, ?app_nil_r.
Qed.

(** C1: [processRoute] implements the attachment rules: a listener receives the route's
    chain once for every reference whose kind, namespace, section, port and
    hostname checks it passes, with the intersected hostnames; and a reference
    is reported with the furthest check no listener passed (not allowed, no
    matching parent, no matching hostname), or not at all.  Nothing else in the
    result changes. *)
Theorem process_route_spec resource route ret :
  res_type resource ≠ TOther →
  ∃ ret', processRoute resource route ret = inr ret' ∧
    (∀ key, routes_at ret' key = routes_at ret key ++
       flat_map (λ ref, omap (attached_chain resource route key ref) (res_listeners resource))
         (getParentRefsForResource resource route)) ∧
    RouteErrors ret' = RouteErrors ret ++
      omap (ref_error resource route (res_listeners resource)) (getParentRefsForResource resource route).
Proof.
  intros Ht. unfold processRoute.
  assert (getListeners resource = inr (res_listeners resource)) as -> by (unfold getListeners; by destruct (res_type resource)).
  destruct (getParentRefsForResource resource route) as [|ref refs] eqn:E.
  - exists ret. split; [done|]. simpl. split; [intros key|]; by rewrite app_nil_r.
  - eexists. split; [done|]. split; [intros key|]; apply (refs_spec resource route (res_listeners resource) (ref :: refs) ret).
    exact "".
Qed.

(** Routes whose kind is that of their IR. *)
Definition kind_consistent (route : @Route P) : bool :=
  Bool.eqb (host_kind (os_kind (route_source route))) (host_checked route).

(** A reference is reported exactly when it attaches nowhere: for a route whose kind
    matches its IR, [processRoute] records an error for a reference if and only
    if no listener accepts the route through it. *)
Theorem ref_error_iff_unattached resource route listeners ref :
  kind_consistent route = true →
  (ref_error resource route listeners ref = None ↔
   existsb attaches (map (verdict resource route ref) listeners) = true).
Proof.
  intros Hk%Bool.eqb_prop. unfold ref_error. rewrite Hk.
  assert (∀ vs, existsb attaches vs = true → existsb selects vs = true) as Has.
  { intros vs (v & Hv & Ha)%existsb_exists. apply existsb_exists. exists v. by destruct v. }
  assert (∀ vs, existsb selects vs = true → existsb permits vs = true) as Hsp.
  { intros vs (v & Hv & Ha)%existsb_exists. apply existsb_exists. exists v. by destruct v. }
  set (vs := map _ _). pose proof (Has vs) as H1. pose proof (Hsp vs) as H2.
  destruct (existsb attaches vs) eqn:Ea.
  { rewrite H1, H2 by auto. simpl. by destruct (host_checked route). }
  split; [|done]. destruct (existsb permits vs), (existsb selects vs) eqn:Es; simpl; try done.
  destruct (host_checked route) eqn:Hc; [done|]. intros _.
  apply existsb_exists in Es as (v & Hv & Hs). apply in_map_iff in Hv as (l & <- & Hl).
  rewrite <- Ea. apply existsb_exists. exists (verdict resource route ref l). split; [by apply in_map|].
  unfold verdict, host_checked in *. destruct (route_hosts route); [done|]. by repeat case_match.
Qed.

End attach.

(** ** Hostname intersection is exact *)

(** The hosts a Gateway API hostname pattern stands for; an empty one matches all. *)
Definition host_matches (pattern h : string) : bool :=
  if String.eqb pattern "" then true
  else if has_prefix pattern "*." then has_suffix h (str_drop 1 pattern)
  else String.eqb h pattern.

Lemma suffix_both (a b h : string) :
  has_suffix a b = true → has_suffix h a && has_suffix h b = has_suffix h a.
Proof.
  intros Hab. destruct (has_suffix h a) eqn:Ha; [|done]. by rewrite (has_suffix_trans h a b).
Qed.

Lemma suffix_disjoint (a b h : string) :
  has_suffix a b = false → has_suffix b a = false → has_suffix h a && has_suffix h b = false.
Proof.
  intros Hab Hba. destruct (has_suffix h a) eqn:Ha, (has_suffix h b) eqn:Hb; try done.
  destruct (suffix_comparable h a b Ha Hb) as [H|H]; congruence.
Qed.

Lemma eqb_and (h a : string) (b : bool) (Q : string → bool) :
  Q a = b → String.eqb h a && Q h = b && String.eqb h a.
Proof. intros <-. destruct (String.eqb_spec h a) as [->|]; [by rewrite andb_comm|by rewrite andb_false_r]. Qed.

(** [IntersectHostnames] is exact: for every host name, both hostnames match it if
    and only if the intersection exists and matches it. *)
Theorem intersect_hostnames_exact l r h :
  host_matches l h && host_matches r h =
  (let '(i, ok) := IntersectHostnames l r in ok && host_matches i h).
Proof.
  unfold IntersectHostnames.
  destruct (String.eqb_spec l "") as [->|Hl]; [done|].
  destruct (String.eqb_spec r "") as [->|Hr]; [by rewrite andb_true_r|].
  apply String.eqb_neq in Hl, Hr. unfold host_matches.
  destruct (has_prefix l "*.") eqn:El, (has_prefix r "*.") eqn:Er; rewrite ?Hl, ?Hr.
  - destruct (has_suffix (str_drop 1 l) (str_drop 1 r)) eqn:E1.
    + rewrite Hl, El. by apply suffix_both.
    + destruct (has_suffix (str_drop 1 r) (str_drop 1 l)) eqn:E2; [|by apply suffix_disjoint].
      rewrite Hr, Er, andb_comm. by apply suffix_both.
  - rewrite andb_comm, (eqb_and h r _ (λ x, has_suffix x (str_drop 1 l)) eq_refl).
    destruct (has_suffix r (str_drop 1 l)); [by rewrite Hr, Er|done].
  - rewrite (eqb_and h l _ (λ x, has_suffix x (str_drop 1 r)) eq_refl).
    destruct (has_suffix l (str_drop 1 r)); [by rewrite Hl, El|done].
  - rewrite ?Hl, ?El. by apply (eqb_and h l _ (λ x, String.eqb x r)).
Qed.

(** A list of hostnames; the empty list matches every host. *)
Definition accepts (hosts : list string) (h : string) : bool :=
  match hosts with [] => true | _ => existsb (λ p, host_matches p h) hosts end.

Lemma existsb_elem {A} (f : A → bool) l x : x ∈ l → f x = true → existsb f l = true.
Proof. intros Hx Hf. apply existsb_exists. exists x. by rewrite <- list_elem_of_In. Qed.

Lemma intersect_step_spec lh acc r h :
  existsb (λ p, host_matches p h) (intersect_step lh acc r) =
  existsb (λ p, host_matches p h) acc || (host_matches lh h && host_matches r h).
Proof.
  rewrite intersect_hostnames_exact. unfold intersect_step.
  destruct (IntersectHostnames lh r) as [i [|]]; simpl; [|by rewrite orb_false_r].
  case_bool_decide as Hin; [|by rewrite existsb_app; simpl; rewrite orb_false_r].
  destruct (host_matches i h) eqn:Em; [|by rewrite orb_false_r].
  rewrite (existsb_elem _ acc i); done.
Qed.

Lemma intersect_fold_spec lh rs acc h :
  existsb (λ p, host_matches p h) (foldl (intersect_step lh) acc rs) =
  existsb (λ p, host_matches p h) acc || (host_matches lh h && existsb (λ p, host_matches p h) rs).
Proof.
  revert acc. induction rs as [|r rs IH]; intros acc; simpl; [by rewrite andb_false_r, orb_false_r|].
  rewrite IH, intersect_step_spec, <- orb_assoc. f_equal. by rewrite <- andb_orb_distrib_r.
Qed.

Lemma intersect_fold_NoDup lh rs acc : NoDup acc → NoDup (foldl (intersect_step lh) acc rs).
Proof.
  revert acc. induction rs as [|r rs IH]; intros acc Ha; simpl; [done|]. apply IH.
  unfold intersect_step. destruct (IntersectHostnames lh r) as [i ok].
  destruct (negb ok); simpl; [done|]. case_bool_decide as Hin; [done|].
  apply NoDup_app. split; [done|]. split; [set_solver|apply NoDup_singleton].
Qed.

(** [hostnameIntersect] is exact: a host is served by the listener and matched by
    the route if and only if the intersection is reported and one of its
    hostnames (or their absence) matches the host; for a listener with a
    hostname the result has no duplicates. *)
Theorem hostname_intersect_exact l rs h :
  host_matches (str_or (l_hostname l) "") h && accepts rs h =
    (let '(ok, hs) := hostnameIntersect l rs in ok && accepts hs h) ∧
  (str_or (l_hostname l) "" ≠ "" → NoDup (snd (hostnameIntersect l rs))).
Proof.
  unfold hostnameIntersect. set (lh := str_or (l_hostname l) "").
  destruct rs as [|r rs].
  { split.
    - rewrite andb_true_r. destruct (String.eqb_spec lh "") as [->|]; [done|]. simpl. by rewrite orb_false_r.
    - intros Hn%String.eqb_neq. rewrite Hn. apply NoDup_singleton. }
  destruct (String.eqb_spec lh "") as [->|Hn]; [done|]. split; [|intros _; apply intersect_fold_NoDup, NoDup_nil_2].
  pose proof (intersect_fold_spec lh (r :: rs) [] h) as Hs.
  destruct (foldl (intersect_step lh) [] (r :: rs)) as [|x xs]; simpl in *; by rewrite <- Hs.
Qed.

Lemma hostname_intersect_exact_witness :
  NoDup (snd (hostnameIntersect (mkListener "l" (Some "*.example.com") 80 "HTTP" None None)
    ["a.example.com"; "a.example.com"; "other.org"])).
Proof.
  apply (hostname_intersect_exact (mkListener "l" (Some "*.example.com") 80 "HTTP" None None)
    ["a.example.com"; "a.example.com"; "other.org"] ""). discriminate.
Defined.

(** ** Listener keys *)

Definition named (r : Resource) (listener : string) : Prop :=
  (res_type r = TGateway ∨ res_type r = TListenerSet) ∧
  Forall (λ s, no_char "/"%char s = true) [res_namespace r; res_name r; listener].

Lemma no_slash_path (a b c : string) : no_char "/"%char (a +:+ "/" +:+ b +:+ "/" +:+ c) = false.
Proof. rewrite no_char_app. simpl. by rewrite andb_false_r. Qed.

(** Listener results do not collide: the keys of two listeners of one Gateway and
    its ListenerSets are equal only for the same listener of the same resource
    (the Gateway's own listeners are keyed by name alone, and names contain no
    slash), so merging the results of the listener sets overwrites nothing. *)
Theorem route_key_inj r1 n1 r2 n2 :
  named r1 n1 → named r2 n2 →
  GenerateRouteKey r1 n1 = GenerateRouteKey r2 n2 →
  n1 = n2 ∧ res_type r1 = res_type r2 ∧
  (res_type r1 = TListenerSet → res_namespace r1 = res_namespace r2 ∧ res_name r1 = res_name r2).
Proof.
  intros [Ht1 H1] [Ht2 H2]. rewrite !Forall_cons in H1, H2.
  destruct H1 as (Ns1 & Nn1 & Nl1 & _), H2 as (Ns2 & Nn2 & Nl2 & _).
  unfold GenerateRouteKey. destruct Ht1 as [-> | ->], Ht2 as [-> | ->]; intros Hk.
  - done.
  - subst n1. by rewrite no_slash_path in Nl1.
  - subst n2. by rewrite no_slash_path in Nl2.
  - apply (sep_app_inj "/"%char) in Hk as [-> Hk]; [|done..].
    apply (sep_app_inj "/"%char) in Hk as [-> ->]; done.
Qed.

Lemma route_key_inj_witness :
  let r := mkRes TListenerSet (mkGK "" "") "ns" "ls" [] in
  GenerateRouteKey r "http" = "ns/ls/http" ∧ "http" = "http".
Proof.
  intros r. split; [reflexivity|].
  assert (named r "http") as Hn by (split; [by right|by repeat constructor]).
  exact (proj1 (route_key_inj r "http" r "http" Hn Hn eq_refl)).
Defined.

(** ** Reporting backend errors *)

Definition err_as_unsupported_kind (e : error) : bool :=
  (fix go e := match e with
     | EUnsupportedRouteKind _ _ _ => true
     | EWrap _ e' | EPolicy _ e' => go e'
     | EWrap2 e1 _ e2 => go e1 || go e2
     | EJoin es => existsb go es
     | _ => false
     end) e.

(** [ProcessBackendError]: the reason of the ResolvedRefs=False condition.  The
    comparison of [errors.Is] with a fresh [BackendPortNotAllowedError] pointer
    never succeeds, and its branch has the reason of the default. *)
Definition backend_error_reason (err : error) : string :=
  if err_is err ErrUnknownBackendKind || err_as_unsupported_kind err then "InvalidKind"
  else if err_is err ErrMissingReferenceGrant then "RefNotPermitted"
  else if err_is err ErrCyclicReference then "RefNotPermitted"
  else "BackendNotFound".

(** ** Witnesses of attachment *)

#[local] Instance ex_selectors : SelectorLib unit := {|
  LabelSelectorAsSelector _ := inr tt; sel_empty _ := true; sel_matches _ _ := true |}.

Definition ex_listener (n : string) (h : option string) : Listener := mkListener n h 80 "HTTP" None None.
Definition ex_gateway : Resource :=
  mkRes TGateway (mkGK "" "") "infra" "gw" [ex_listener "a" (Some "*.a.com"); ex_listener "b" None].
Definition ex_http_route : @Route unit := RHttp (ex_route "infra" "r" [ex_gw_ref] []).

Lemma process_route_spec_witness :
  ∃ ret, processRoute ∅ "all" [] ex_gateway ex_http_route NewRoutesForGwResult = inr ret ∧
    length (routes_at ret "a") = 1%nat ∧ RouteErrors ret = [].
Proof.
  destruct (process_route_spec ∅ "all" [] ex_gateway ex_http_route NewRoutesForGwResult) as (ret & Hr & Ha & He);
    [discriminate|].
  exists ret. split; [exact Hr|]. split; [rewrite (Ha "a"); vm_compute; reflexivity|].
  rewrite He. vm_compute. reflexivity.
Defined.

Lemma ref_error_iff_unattached_witness :
  ref_error ∅ ex_gateway ex_http_route (res_listeners ex_gateway) ex_gw_ref = None.
Proof.
  apply (ref_error_iff_unattached ∅ ex_gateway ex_http_route (res_listeners ex_gateway) ex_gw_ref);
    reflexivity.
Defined.
