(* ===== verification/HttpRouteTranslator.v ===== *)
(** * Flattening HTTPRoutes (pkg/kgateway/translator/httproute)

    A route chain is flattened into the list of its (rule, match) pairs; a rule
    that delegates is replaced by the flattened rules of its children, filtered
    against the delegating match.  A child's [DelegatingParent] is a pointer to
    the parent's output route, which is completed after the child was
    translated: the model builds outputs as functions of that final value.
    Status reports are a list of events. *)

From S2P Require Import Prelude IR Delegation RouteTree Query.

(** ** Outcomes *)

Inductive outcome (A : Type) := Done (a : A) | Panicked | OutOfFuel.
Arguments Done {A}. Arguments Panicked {A}. Arguments OutOfFuel {A}.

#[global] Instance outcome_bind : MBind outcome := λ A B f o,
  match o with Done a => f a | Panicked => Panicked | OutOfFuel => OutOfFuel end.

Definition lift_option {A} (o : option A) : outcome A := match o with Some a => Done a | None => Panicked end.

Fixpoint foldO {A B} (f : B → A → outcome B) (b : B) (l : list A) : outcome B :=
  match l with [] => Done b | x :: l' => b' ← f b x; foldO f b' l' end.

(** ** Reports *)

(** A reporter writes for one route and one of its parents; requesting it creates
    the entry ([None]), [SetCondition] sets a condition by type and reason. *)
Record Reporter := mkRep { rep_route : NamespacedName; rep_parent : ParentReference }.
Record Event := mkEv { ev_reporter : Reporter; ev_condition : option (string * string) }.

Definition set_condition (r : Reporter) (type reason : string) : Event := mkEv r (Some (type, reason)).

(** [ProcessBackendError]. *)
Definition ProcessBackendError (err : error) (r : Reporter) : Event :=
  set_condition r "ResolvedRefs" (backend_error_reason err).

Section translate.
Context {P : Type}.

Abbreviation RM := (HttpRouteRuleMatchIR P).
Abbreviation Info := (@RouteInfo P).

(** Output routes as a function of the delegating parent they point to. *)
Abbreviation Outputs := (option RM → list RM).

(** ** [filterDelegatedChildren] *)

Definition with_matches (rule : HttpRouteRuleIR P) (ms : list HTTPRouteMatch) : HttpRouteRuleIR P :=
  mkRule (rr_extension_refs rule) (rr_policies rule) (rr_backends rule) ms (rr_name rule) (rr_err rule).

Definition with_rules (r : HttpRouteIR P) (rules : list (HttpRouteRuleIR P)) : HttpRouteIR P :=
  mkHttpRoute (hr_source r) (hr_object r) (hr_parent_refs r) (hr_hostnames r) (hr_policies r) rules
    (hr_weight r) (hr_inherit_matcher r).

Definition with_object (ri : Info) (o : @Route P) : Info :=
  mkRI o (ri_parent_ref ri) (ri_listener_ref ri) (ri_hostname_overrides ri) (ri_items ri) (ri_errors ri).

Fixpoint filter_rules (parentMatch : HTTPRouteMatch) (inherit : bool) (rules : list (HttpRouteRuleIR P)) :
    option (list (HttpRouteRuleIR P)) :=
  match rules with
  | [] => Some []
  | rule :: rules =>
      validMatches ← FilterDelegatedRuleMatches parentMatch (rr_matches rule) inherit;
      rest ← filter_rules parentMatch inherit rules;
      Some (match validMatches with [] => rest | _ => with_matches rule validMatches :: rest end)
  end.

Fixpoint filterDelegatedChildren (parentRef : NamespacedName) (parentMatch : HTTPRouteMatch)
    (children : list Info) : option (list Info) :=
  match children with
  | [] => Some []
  | c :: cs =>
      selected ←
        (if negb (ChildRouteCanAttachToParentRef (os_namespace (route_source (ri_object c)))
                    (route_parent_refs (ri_object c)) parentRef) then Some []
         else match ri_object c with
              | RHttp child =>
                  validRules ← filter_rules parentMatch (hr_inherit_matcher child) (hr_rules child);
                  Some (match validRules with
                        | [] => []
                        | _ => [with_object c (RHttp (with_rules child validRules))]
                        end)
              | _ => Some []
              end);
      rest ← filterDelegatedChildren parentRef parentMatch cs;
      Some (selected ++ rest)
  end.

(** [validateChildRoute]. *)
Definition validateChildRoute (route : HttpRouteIR P) : option error :=
  match hr_hostnames route with
  | [] => None
  | _ => Some (EMsg "spec.hostnames must be unset on a delegatee route as they are inherited from the parent route")
  end.

(** ** Rules *)

(** What [setRouteAction] writes to the output route, the outputs and the reports. *)
Record Action := mkAction {
  ac_delegates : bool;
  ac_backends : list (BackendRefIR P * AttachedPolicies P);
  ac_error : option error;
  ac_nested : Outputs;
  ac_events : list Event }.

Section rules.
(** [flattenDelegatedRoutes] of the current route. *)
Context (flatten : ObjectSource → HTTPRouteMatch → outcome (option error * Outputs * list Event)).
Context (gwroute : Info) (reporter : Reporter).

Definition action_step (match_ : HTTPRouteMatch) (ac : Action) (backend : HttpBackendOrDelegate P) :
    outcome Action :=
  match bd_delegate backend with
  | Some ref =>
      '(err, nested, evs) ← flatten ref match_;
      let nested' dp := ac_nested ac dp ++ nested dp in
      Done (match err with
            | Some e => mkAction true (ac_backends ac) (Some e) nested'
                          (ac_events ac ++ evs ++ [ProcessBackendError e reporter])
            | None => mkAction true (ac_backends ac) (ac_error ac) nested' (ac_events ac ++ evs)
            end)
  | None =>
      match bd_backend backend with
      | None => Panicked
      | Some b =>
          let evs := match br_err b with Some e => [ProcessBackendError e reporter] | None => [] end in
          Done (mkAction (ac_delegates ac) (ac_backends ac ++ [(b, bd_policies backend)]) (ac_error ac)
                  (ac_nested ac) (ac_events ac ++ evs))
      end
  end.

Definition setRouteAction (rule : HttpRouteRuleIR P) (match_ : HTTPRouteMatch) : outcome Action :=
  foldO (action_step match_) (mkAction false [] None (λ _, []) []) (rr_backends rule).

(** The output route of one match, given its action and its delegating parent. *)
Definition output_route (parent : HttpRouteIR P) (rule : HttpRouteRuleIR P) (ruleIdx idx : nat)
    (match_ : HTTPRouteMatch) (ac : Action) (dp : option RM) : RM :=
  mkRuleMatch (rr_extension_refs rule) (rr_policies rule) parent dp (ac_delegates ac)
    (ri_listener_ref gwroute) (ri_parent_ref gwroute) (ac_backends ac) match_ idx
    (UniqueRouteName gwroute ruleIdx idx (rr_name rule)) ruleIdx (rr_name rule) (hr_weight parent)
    (ac_error ac) (rr_err rule).

(** [translateGatewayHTTPRouteRule]: the nested outputs, the rule's own, the reports. *)
Fixpoint translateGatewayHTTPRouteRule (parent : HttpRouteIR P) (rule : HttpRouteRuleIR P)
    (ruleIdx idx : nat) (matches : list HTTPRouteMatch) : outcome (Outputs * Outputs * list Event) :=
  match matches with
  | [] => Done (λ _, [], λ _, [], [])
  | m :: ms =>
      ac ← setRouteAction rule m;
      '(nested, own, evs) ← translateGatewayHTTPRouteRule parent rule ruleIdx (S idx) ms;
      let out := output_route parent rule ruleIdx idx m ac in
      Done (λ dp, ac_nested ac (Some (out dp)) ++ nested dp, λ dp, out dp :: own dp, ac_events ac ++ evs)
  end.

(** The default match of a rule without matches. *)
Definition rule_matches (rule : HttpRouteRuleIR P) : list HTTPRouteMatch :=
  match rr_matches rule with [] => [mkMatch None [] [] None] | ms => ms end.

Fixpoint translate_rules (parent : HttpRouteIR P) (ruleIdx : nat) (rules : list (HttpRouteRuleIR P)) :
    outcome (Outputs * list Event) :=
  match rules with
  | [] => Done (λ _, [], [])
  | rule :: rules =>
      '(nested, own, evs) ← translateGatewayHTTPRouteRule parent rule ruleIdx 0 (rule_matches rule);
      '(rest, evs') ← translate_rules parent (S ruleIdx) rules;
      Done (λ dp, nested dp ++ own dp ++ rest dp, evs ++ evs')
  end.

End rules.

(** ** Delegation *)

Definition child_reporter (child : HttpRouteIR P) (parentRef : NamespacedName) : Reporter :=
  mkRep (obj_nn (hr_object child))
    (mkPR (Some GatewayGroup) (Some HTTPRouteKind) (Some (nn_namespace parentRef)) (nn_name parentRef) None None).

(** [flattenDelegatedRoutes], with [translate] for the recursive call on a child. *)
Definition flattenDelegatedRoutes
    (translate : Info → Reporter → gset NamespacedName → outcome (Outputs * list Event))
    (parentInfo : Info) (parentReporter : Reporter) (routesVisited : gset NamespacedName)
    (delegate : ObjectSource) (parentMatch : HTTPRouteMatch) :
    outcome (option error * Outputs * list Event) :=
  match ri_object parentInfo with
  | RTcp _ | RTls _ => Done (Some (EMsg "unsupported route type"), λ _, [], [])
  | RHttp parentRoute =>
      let parentRef := hr_nn parentRoute in
      let routesVisited := {[parentRef]} ∪ routesVisited in
      match GetChildrenForRef parentInfo delegate with
      | inl err => Done (Some (EWrap (os_resource_name delegate +:+ ": ") err), λ _, [], [])
      | inr rawChildren =>
          children ← lift_option (filterDelegatedChildren parentRef parentMatch rawChildren);
          let step (st : nat * Outputs * list Event) (child : Info) :=
            let '(validChildren, outs, evs) := st in
            match ri_object child with
            | RTcp _ | RTls _ => Done st
            | RHttp childRoute =>
                if bool_decide (hr_nn childRoute ∈ routesVisited) then
                  Done (validChildren, outs,
                        evs ++ [set_condition parentReporter "ResolvedRefs" "RefNotPermitted"])
                else
                  let reporter := child_reporter childRoute parentRef in
                  let evs := evs ++ [mkEv reporter None] in
                  match validateChildRoute childRoute with
                  | Some _ =>
                      Done (validChildren, outs,
                            evs ++ [set_condition reporter "Accepted" "UnsupportedValue"])
                  | None =>
                      '(o, e) ← translate child reporter routesVisited;
                      Done (S validChildren, λ dp, outs dp ++ o dp, evs ++ e)
                  end
            end in
          '(validChildren, outs, evs) ← foldO step (0, λ _, [], []) children;
          Done (match validChildren with
                | O => Some (EWrap (os_resource_name delegate +:+ ": ") (ESentinel ErrUnresolvedReference))
                | _ => None
                end, outs, evs)
      end
  end.

(** [translateGatewayHTTPRouteRulesUtil]. *)
Fixpoint translateGatewayHTTPRouteRulesUtil (fuel : nat) (routeInfo : Info) (reporter : Reporter)
    (routesVisited : gset NamespacedName) : outcome (Outputs * list Event) :=
  match fuel with
  | O => OutOfFuel
  | S fuel =>
      match ri_object routeInfo with
      | RTcp _ | RTls _ => Done (λ _, [], [])
      | RHttp route =>
          translate_rules
            (flattenDelegatedRoutes (translateGatewayHTTPRouteRulesUtil fuel) routeInfo reporter routesVisited)
            routeInfo reporter route 0 (hr_rules route)
      end
  end.

(** [TranslateGatewayHTTPRouteRules]. *)
Definition TranslateGatewayHTTPRouteRules (fuel : nat) (routeInfo : Info) (reporter : Reporter) :
    outcome (list RM * list Event) :=
  '(outs, evs) ← translateGatewayHTTPRouteRulesUtil fuel routeInfo reporter ∅;
  Done (outs None, evs).

(** ** Where flattened routes come from

    Every flattened route is one match of one rule of an HTTPRoute.  Below a
    delegating match the rule's match must meet the delegation conditions
    against it or, when the child inherits matchers, is merged with it. *)

(** The match [m] a rule contributes below the delegating match [pm]. *)
Definition source_match (pm : option HTTPRouteMatch) (inherit : bool) (rule : HttpRouteRuleIR P)
    (m : HTTPRouteMatch) : Prop :=
  match pm with
  | None => m ∈ rule_matches rule
  | Some parent =>
      if inherit
      then (rr_matches rule = [] ∧ m = parent) ∨
           ∃ m0, m0 ∈ rr_matches rule ∧ m = MergeParentChildRouteMatch parent m0
      else m ∈ rr_matches rule ∧ delegatee parent m
  end.

Section origin.
(** The collection of HTTPRoutes and the route that is attached to the listener. *)
Context (routes : list (HttpRouteIR P)) (root : HttpRouteIR P).

(** [r] is the attached route or, below a delegating match, one of the collection,
    possibly with its rules filtered; [rule] is a rule of it, possibly with its
    matches filtered; and [m] is what that rule contributes. *)
Definition allowed (pm : option HTTPRouteMatch) (r : HttpRouteIR P) (rule : HttpRouteRuleIR P)
    (m : HTTPRouteMatch) : Prop :=
  ∃ r0 rule0, match pm with None => r0 = root | Some _ => r0 ∈ routes end ∧ r = with_rules r0 (hr_rules r) ∧
    rule0 ∈ hr_rules r0 ∧ rule = with_matches rule0 (rr_matches rule) ∧
    source_match pm (hr_inherit_matcher r0) rule0 m.

(** A flattened route serves [m] with the policies of its rule. *)
Definition link_ok (o : RM) : Prop :=
  ∃ rule, rm_policies o = rr_policies rule ∧ rm_extension_refs o = rr_extension_refs rule ∧
    allowed (rm_match <$> rm_delegating_parent o) (rm_parent o) rule (rm_match o).

Fixpoint chain_ok (o : RM) : Prop :=
  link_ok o ∧ match rm_delegating_parent o with None => True | Some p => chain_ok p end.

Lemma chain_ok_unfold o :
  chain_ok o = (link_ok o ∧ match rm_delegating_parent o with None => True | Some p => chain_ok p end).
Proof. by destruct o. Qed.

(** A delegating parent whose own chain is in order and whose match is [pm]. *)
Definition good_parent (pm : option HTTPRouteMatch) (dp : option RM) : Prop :=
  rm_match <$> dp = pm ∧ ∀ p, dp = Some p → chain_ok p.

Definition contained (pm : option HTTPRouteMatch) (outs : Outputs) : Prop :=
  ∀ dp, good_parent pm dp → Forall chain_ok (outs dp).

Lemma contained_nil pm : contained pm (λ _, []).
Proof. intros dp _. constructor. Qed.

Lemma contained_app pm o1 o2 : contained pm o1 → contained pm o2 → contained pm (λ dp, o1 dp ++ o2 dp).
Proof. intros H1 H2 dp Hd. apply Forall_app. auto. Qed.

(** Rules the API server admits, and resolved by the route collection. *)
Definition backend_ok (b : HttpBackendOrDelegate P) : bool :=
  match bd_delegate b, bd_backend b with None, None => false | _, _ => true end.

Definition rule_wf (rule : HttpRouteRuleIR P) : Prop :=
  Forall (λ m, path_defaulted m = true) (rr_matches rule) ∧
  Forall (λ b, backend_ok b = true) (rr_backends rule).

Definition route_wf (r : HttpRouteIR P) : Prop := Forall rule_wf (hr_rules r).

Definition matches_allowed (pm : option HTTPRouteMatch) (r : HttpRouteIR P) : Prop :=
  ∀ rule m, rule ∈ hr_rules r → m ∈ rule_matches rule → allowed pm r rule m.

Lemma rule_matches_wf rule : rule_wf rule → Forall (λ m, path_defaulted m = true) (rule_matches rule).
Proof. unfold rule_matches. intros [Hm _]. destruct (rr_matches rule); [by repeat constructor|done]. Qed.

Lemma foldO_invariant {A B} (I : B → Prop) (f : B → A → outcome B) l b :
  (∀ b x, x ∈ l → I b → ∃ b', f b x = Done b' ∧ I b') → I b → ∃ b', foldO f b l = Done b' ∧ I b'.
Proof.
  revert b. induction l as [|x l IH]; intros b Hf Hb; simpl; [by exists b|].
  destruct (Hf b x) as (b' & -> & Hb'); [by left|done|]. simpl.
  apply IH; [|done]. intros. apply Hf; [by right|done].
Qed.

Section rules_facts.
Context (flatten : ObjectSource → HTTPRouteMatch → outcome (option error * Outputs * list Event)).
Context (gwroute : Info) (reporter : Reporter).
Hypothesis flatten_ok : ∀ ref m, path_defaulted m = true →
  ∃ err outs evs, flatten ref m = Done (err, outs, evs) ∧ contained (Some m) outs.

Lemma setRouteAction_ok rule m :
  rule_wf rule → path_defaulted m = true →
  ∃ ac, setRouteAction flatten reporter rule m = Done ac ∧ contained (Some m) (ac_nested ac).
Proof.
  intros [_ Hb] Hm. rewrite Forall_forall in Hb.
  apply (foldO_invariant (λ ac, contained (Some m) (ac_nested ac))); [|apply contained_nil].
  intros ac b Hin Hac. unfold action_step. specialize (Hb b Hin). unfold backend_ok in Hb.
  destruct (bd_delegate b) as [ref|].
  - destruct (flatten_ok ref m Hm) as (err & outs & evs & -> & Ho). simpl.
    eexists. split; [done|]. destruct err; simpl; by apply contained_app.
  - destruct (bd_backend b); [|done]. by eexists.
Qed.

Lemma translate_rule_ok parent rule ruleIdx idx ms pm :
  rule_wf rule → Forall (λ m, path_defaulted m = true) ms → (∀ m, m ∈ ms → allowed pm parent rule m) →
  ∃ nested own evs, translateGatewayHTTPRouteRule flatten gwroute reporter parent rule ruleIdx idx ms
    = Done (nested, own, evs) ∧ contained pm nested ∧ contained pm own.
Proof.
  intros Hr Hms. revert idx. induction Hms as [|m ms Hm Hms IH]; intros idx Ha; simpl.
  { eexists _, _, _. split; [done|]. split; apply contained_nil. }
  destruct (setRouteAction_ok rule m Hr Hm) as (ac & -> & Hac). simpl.
  destruct (IH (S idx)) as (nested & own & evs & -> & Hn & Ho); [intros; apply Ha; by right|]. simpl.
  assert (∀ dp, good_parent pm dp → chain_ok (output_route gwroute parent rule ruleIdx idx m ac dp)) as Hout.
  { intros dp [Hd Hc]. rewrite chain_ok_unfold. split.
    - exists rule. split_and!; [done..|]. simpl. rewrite Hd. apply Ha. by left.
    - simpl. destruct dp as [p|]; [by apply Hc|done]. }
  eexists _, _, _. split; [done|]. split; intros dp Hd.
  - apply Forall_app. split; [|by apply Hn]. apply Hac. split; [done|]. intros ? [= <-]. by apply Hout.
  - constructor; [by apply Hout|by apply Ho].
Qed.

Lemma translate_rules_ok parent rules ruleIdx pm :
  Forall rule_wf rules → (∀ rule m, rule ∈ rules → m ∈ rule_matches rule → allowed pm parent rule m) →
  ∃ outs evs, translate_rules flatten gwroute reporter parent ruleIdx rules = Done (outs, evs) ∧
    contained pm outs.
Proof.
  intros Hr. revert ruleIdx. induction Hr as [|rule rules Hr Hrs IH]; intros ruleIdx Ha; simpl.
  { eexists _, _. split; [done|apply contained_nil]. }
  destruct (translate_rule_ok parent rule ruleIdx 0 (rule_matches rule) pm Hr (rule_matches_wf rule Hr))
    as (nested & own & evs & -> & Hn & Ho); [intros; eapply Ha; [by left|done]|]. simpl.
  destruct (IH (S ruleIdx)) as (rest & evs' & -> & Hrest); [intros; eapply Ha; [by right|done]|]. simpl.
  eexists _, _. split; [done|]. by repeat apply contained_app.
Qed.

End rules_facts.

(** ** Filtering children *)

Lemma merge_defaulted parent m : path_defaulted (MergeParentChildRouteMatch parent m) = true.
Proof. unfold path_defaulted. simpl. by case_match. Qed.

Lemma filter_out_wf parent (rule : HttpRouteRuleIR P) inherit out :
  path_defaulted parent = true → Forall (λ m, path_defaulted m = true) (rr_matches rule) →
  FilterDelegatedRuleMatches parent (rr_matches rule) inherit = Some out →
  Forall (λ m, path_defaulted m = true) out ∧
  ∀ m, m ∈ out → source_match (Some parent) inherit rule m.
Proof.
  intros Hp Hms Hf. destruct (filter_delegated_out parent (rr_matches rule) inherit Hp Hms) as (out' & Ho & Hs).
  rewrite Hf in Ho. injection Ho as <-. unfold source_match. destruct inherit.
  - subst out. destruct (rr_matches rule) as [|m0 ms].
    + split; [by constructor|]. intros m ->%list_elem_of_singleton. by left.
    + split; [apply Forall_forall|]; intros m [m' [-> Hm']]%list_elem_of_fmap;
        [apply merge_defaulted|right; by exists m'].
  - destruct Hs as [_ Hin]. rewrite !Forall_forall in *. split; intros m [??]%Hin; auto.
Qed.

Lemma filter_rules_ok parent inherit rules :
  path_defaulted parent = true → Forall rule_wf rules →
  ∃ out, filter_rules parent inherit rules = Some out ∧ Forall rule_wf out ∧
    ∀ rule m, rule ∈ out → m ∈ rule_matches rule →
      ∃ rule0, rule0 ∈ rules ∧ rule = with_matches rule0 (rr_matches rule) ∧
        source_match (Some parent) inherit rule0 m.
Proof.
  intros Hp. induction 1 as [|rule rules [Hm Hb] Hrs (out & Ho & Hw & Hin)]; simpl.
  { exists []. split_and!; [done|constructor|]. by intros ? ? ?%not_elem_of_nil. }
  destruct (filter_delegated_out parent (rr_matches rule) inherit Hp Hm) as (vm & Hvm & _).
  rewrite Hvm. simpl. rewrite Ho. simpl. destruct (filter_out_wf _ _ _ _ Hp Hm Hvm) as [Hvw Hvi].
  assert (∀ r m, r ∈ out → m ∈ rule_matches r → ∃ rule0, rule0 ∈ rule :: rules ∧
    r = with_matches rule0 (rr_matches r) ∧ source_match (Some parent) inherit rule0 m) as Hrest.
  { intros r m Hr Hmm. destruct (Hin r m Hr Hmm) as (rule0 & ? & ?). exists rule0. split; [by right|done]. }
  destruct vm as [|v vm]; [by exists out|]. eexists. split; [done|]. split; [by constructor|].
  intros r m [->|Hr]%elem_of_cons; [|by apply Hrest]. intros Hmm. exists rule.
  split_and!; [by left|done|by apply Hvi].
Qed.

Definition known_child (c : Info) : Prop := ∃ hr, ri_object c = RHttp hr ∧ hr ∈ routes.

(** Trees of bounded height whose routes are well formed. *)
Inductive tree : nat → Info → Prop :=
| tree_intro n ri hr :
    ri_object ri = RHttp hr → route_wf hr →
    (∀ k l c, ri_items ri !! k = Some l → c ∈ l → tree n c) →
    (∀ k l c, ri_items ri !! k = Some l → c ∈ l → known_child c) → tree (S n) ri.

Definition filtered_child (n : nat) (pm : HTTPRouteMatch) (c : Info) : Prop :=
  tree n c ∧ ∀ hr, ri_object c = RHttp hr → matches_allowed (Some pm) hr.

Lemma filter_children_ok parentRef pm children n :
  path_defaulted pm = true → Forall (tree n) children → Forall known_child children →
  ∃ out, filterDelegatedChildren parentRef pm children = Some out ∧ Forall (filtered_child n pm) out.
Proof.
  intros Hp. induction 1 as [|c cs Hc Hcs IH]; simpl; [by exists []|].
  intros [(hr & Hobj & Hkn) Hkns]%Forall_cons. destruct (IH Hkns) as (out & Ho & Hout).
  inversion Hc as [n' ? hr' Hobj' Hwf Hch Hck]; subst. rewrite Hobj in *. injection Hobj' as <-. simpl.
  destruct (negb _); simpl; [rewrite Ho; by exists out|].
  destruct (filter_rules_ok pm (hr_inherit_matcher hr) (hr_rules hr) Hp Hwf) as (rs & -> & Hrw & Hin).
  simpl. rewrite Ho. simpl. destruct rs as [|r rs]; [by exists out|]. eexists. split; [done|].
  simpl. constructor; [|done]. split.
  - by eapply tree_intro.
  - simpl. intros ? [= <-] rule m Hrule Hm.
    destruct (Hin rule m Hrule Hm) as (rule0 & ? & ? & ?). by exists hr, rule0.
Qed.

(** ** The recursion *)

Lemma flatten_ok_of translate parentInfo reporter visited n :
  (∀ c rep vis pm, tree n c → (∀ hr, ri_object c = RHttp hr → matches_allowed pm hr) →
     ∃ outs evs, translate c rep vis = Done (outs, evs) ∧ contained pm outs) →
  tree (S n) parentInfo → ∀ ref m, path_defaulted m = true →
  ∃ err outs evs, flattenDelegatedRoutes translate parentInfo reporter visited ref m = Done (err, outs, evs) ∧
    contained (Some m) outs.
Proof.
  intros Htr Ht ref m Hm. inversion Ht as [n' ? hr Hobj Hwf Hch Hck]; subst.
  unfold flattenDelegatedRoutes. rewrite Hobj.
  unfold GetChildrenForRef, bm_get, ri_children. simpl.
  destruct (ri_errors parentInfo !! backendToRefKey ref) as [e|];
    [eexists _, _, _; split; [done|apply contained_nil]|].
  destruct (ri_items parentInfo !! backendToRefKey ref) as [raw|] eqn:Eraw;
    [|eexists _, _, _; split; [done|apply contained_nil]].
  destruct (filter_children_ok (hr_nn hr) m raw n Hm) as (children & -> & Hf).
  { apply Forall_forall. intros c Hc. by eapply Hch. }
  { apply Forall_forall. intros c Hc. by eapply Hck. }
  simpl. rewrite Forall_forall in Hf.
  match goal with |- context [foldO ?f (0, ?o, []) children] =>
    destruct (foldO_invariant (λ st : nat * Outputs * list Event, contained (Some m) st.1.2) f children (0, o, []))
      as ([[v outs] evs] & -> & Ho) end; [|apply contained_nil|].
  - intros [[v outs] evs] c Hc Ho. simpl in Ho. destruct (Hf c Hc) as [Htc Hac].
    inversion Htc as [n'' ? chr Hcobj _ _ _]; subst. rewrite Hcobj.
    case_bool_decide; [by eexists|]. destruct (validateChildRoute chr); [by eexists|].
    destruct (Htr c (child_reporter chr (hr_nn hr)) ({[hr_nn hr]} ∪ visited) (Some m) Htc Hac)
      as (o & e & -> & Hoc). simpl. eexists. split; [done|]. by apply contained_app.
  - eexists _, _, _. split; [done|]. exact Ho.
Qed.

Lemma translate_ok fuel n ri reporter visited pm :
  (n <= fuel)%nat → tree n ri → (∀ hr, ri_object ri = RHttp hr → matches_allowed pm hr) →
  ∃ outs evs, translateGatewayHTTPRouteRulesUtil fuel ri reporter visited = Done (outs, evs) ∧
    contained pm outs.
Proof.
  revert n ri reporter visited pm. induction fuel as [|fuel IH]; intros n ri reporter visited pm Hn Ht Ha.
  { inversion Ht; subst; lia. }
  inversion Ht as [n' ? hr Hobj Hwf Hch Hck]; subst. simpl. rewrite Hobj.
  apply translate_rules_ok; [|done|by apply Ha].
  apply (flatten_ok_of _ _ _ _ n'); [|done]. intros c rep vis pm' Hc Hac. apply (IH n'); [lia|done..].
Qed.

Lemma delegated_tree lref anc parent ri n :
  Forall route_wf routes → delegated routes lref anc parent ri →
  (unvisited routes anc <= n)%nat → tree n ri ∧ known_child ri.
Proof.
  intros Hw Hd. revert n. induction Hd as [anc parent child items errors Hin Hv Ha Hch IH]; intros n Hn.
  pose proof (unvisited_lt routes anc child Hin Hv) as Hlt.
  destruct n as [|n]; [lia|]. split; [|by exists child].
  eapply tree_intro; [done| |intros k l c Hk Hc; apply (IH k l c Hk Hc n); lia..].
  rewrite Forall_forall in Hw. by apply Hw.
Qed.

Lemma chain_tree wildcardNs hostnames ref :
  Forall route_wf routes → route_wf root →
  tree (S (length routes)) (GetRouteChain wildcardNs routes (RHttp root) hostnames ref).
Proof.
  intros Hw Hr. unfold GetRouteChain, delegatedChildren. simpl.
  set (lref := defaultParentRef ref (os_namespace (hr_source root))).
  destruct (delegated_children_spec wildcardNs (S (length routes)) routes lref root ∅)
    as (bm & Hbm & Hd); [pose proof (unvisited_bound routes ({[hr_nn root]} ∪ ∅)); lia|].
  cbn [getDelegatedChildren] in Hbm. rewrite Hbm.
  eapply tree_intro; [done..| |]; simpl; intros k l c Hk Hc;
    (destruct (delegated_tree lref ({[hr_nn root]} ∪ ∅) root c (length routes)); [done|by eapply Hd|apply unvisited_bound|done]).
Qed.

Lemma root_allowed : matches_allowed None root.
Proof.
  intros rule m Hrule Hm. exists root, rule.
  split_and!; [done|by destruct root|done|by destruct rule|done].
Qed.

(** The flattening of a chain: it returns, and every route it returns comes from
    its rule. *)
Lemma translate_chain_ok wildcardNs hostnames ref reporter :
  Forall route_wf routes → route_wf root →
  ∃ outs evs, TranslateGatewayHTTPRouteRules (S (length routes))
    (GetRouteChain wildcardNs routes (RHttp root) hostnames ref) reporter = Done (outs, evs) ∧
    Forall chain_ok outs.
Proof.
  intros Hw Hr. unfold TranslateGatewayHTTPRouteRules.
  destruct (translate_ok (S (length routes)) _ _ reporter ∅ None (le_n _)
    (chain_tree wildcardNs hostnames ref Hw Hr)) as (outs & evs & -> & Hc).
  - intros hr [= <-]. apply root_allowed.
  - eexists _, _. split; [done|]. by apply Hc.
Qed.

(** The matches of a route as the API server admits them. *)
Definition names_admitted (r : HttpRouteIR P) : Prop :=
  ∀ rule m, rule ∈ hr_rules r → m ∈ rr_matches rule → names_distinct m.

Lemma rule_matches_distinct r rule m :
  names_admitted r → rule ∈ hr_rules r → m ∈ rule_matches rule → names_distinct m.
Proof.
  intros Hn Hr. unfold rule_matches. destruct (rr_matches rule) eqn:E.
  - intros ->%list_elem_of_singleton. split; constructor.
  - intros Hm. apply (Hn rule); [done|by rewrite E].
Qed.

Lemma source_match_keeps pm r rule m :
  names_admitted r → rule ∈ hr_rules r → (∀ a, pm = Some a → names_distinct a) →
  source_match pm (hr_inherit_matcher r) rule m →
  names_distinct m ∧ ∀ a, pm = Some a → keeps a m.
Proof.
  intros Hn Hr Hpm. destruct pm as [a|]; simpl.
  2: { intros Hm. split; [|done]. by eapply rule_matches_distinct. }
  specialize (Hpm a eq_refl). destruct (hr_inherit_matcher r).
  - intros [[_ ->]|(m0 & _ & ->)]; [split; [done|by intros ? [= <-]]|].
    split; [apply merge_distinct|]. intros ? [= <-]. by apply merge_keeps.
  - intros [Hm (? & ? & ? & _ & _ & _ & Hh & Hq & Hmeth)]. split; [by eapply Hn|].
    by intros ? [= <-].
Qed.

(** The delegating routes above a flattened route, nearest first. *)
Fixpoint ancestors (o : RM) : list RM :=
  match rm_delegating_parent o with None => [] | Some p => p :: ancestors p end.

Lemma ancestors_unfold o :
  ancestors o = match rm_delegating_parent o with None => [] | Some p => p :: ancestors p end.
Proof. by destruct o. Qed.

Lemma link_keeps o :
  Forall names_admitted routes → names_admitted root →
  link_ok o → (∀ p, rm_delegating_parent o = Some p → names_distinct (rm_match p)) →
  names_distinct (rm_match o) ∧ ∀ p, rm_delegating_parent o = Some p → keeps (rm_match p) (rm_match o).
Proof.
  intros Hn Hroot (rule & _ & _ & r0 & rule0 & Hr0 & _ & Hin & _ & Hs) Hp.
  assert (names_admitted r0) as Hr.
  { destruct (rm_delegating_parent o); simpl in Hr0; [|by subst].
    rewrite Forall_forall in Hn. by apply Hn. }
  eapply source_match_keeps in Hs as [Hd Hk]; [|done..|].
  - split; [done|]. intros p E. rewrite E in Hk. by apply Hk.
  - destruct (rm_delegating_parent o) as [p|]; intros a; [intros [= <-]; by apply Hp|done].
Qed.

Lemma chain_keeps :
  Forall names_admitted routes → names_admitted root → ∀ o, chain_ok o →
  names_distinct (rm_match o) ∧ ∀ a, a ∈ ancestors o → keeps (rm_match a) (rm_match o).
Proof.
  intros Hn Hroot. fix IH 1. intros o. rewrite chain_ok_unfold, ancestors_unfold. intros [Hl Hc].
  destruct o as [? ? ? [p|] ? ? ? ? ? ? ? ? ? ? ? ?]; simpl in *.
  - destruct (IH p Hc) as [Hdp Hkp].
    destruct (link_keeps _ Hn Hroot Hl) as [Hd Hk]; [by intros ? [= <-]|]. split; [done|].
    specialize (Hk p eq_refl). intros a [->|Ha]%elem_of_cons; [done|].
    etrans; [by apply Hkp|done].
  - destruct (link_keeps _ Hn Hroot Hl) as [Hd _]; [done|]. split; [done|]. by intros a ?%not_elem_of_nil.
Qed.

End origin.

Lemma tree_translates routes fuel ri reporter :
  tree routes fuel ri → ∃ outs evs, TranslateGatewayHTTPRouteRules fuel ri reporter = Done (outs, evs).
Proof.
  intros Ht. unfold TranslateGatewayHTTPRouteRules. inversion Ht as [n ? hr Hobj _ _ _]; subst.
  destruct (translate_ok routes hr (S n) (S n) ri reporter ∅ None (le_n _) Ht) as (outs & evs & -> & _).
  - intros hr' E. rewrite Hobj in E. injection E as <-. apply root_allowed.
  - by eexists _, _.
Qed.

(** C3: Flattening a route chain always produces its routes: for admitted routes the
    translation of an HTTPRoute neither runs out of fuel (one unit more than
    there are routes) nor dereferences nil, whatever the delegation graph looks
    like. *)
Theorem translate_route_chain_total wildcardNs routes root hostnames ref reporter :
  Forall route_wf routes → route_wf root →
  ∃ outs evs, TranslateGatewayHTTPRouteRules (S (length routes))
    (GetRouteChain wildcardNs routes (RHttp root) hostnames ref) reporter = Done (outs, evs).
Proof.
  intros Hw Hr.
  destruct (translate_chain_ok routes root wildcardNs hostnames ref reporter Hw Hr) as (outs & evs & -> & _).
  by eexists _, _.
Qed.

(** C2: Where flattened routes come from: each is one match of one rule, with the
    policies and extensions of that rule, of the attached route or, below a
    delegating match, of a route of the collection.  Below a delegating match
    it is a match of the rule that meets the documented delegation conditions,
    or, when the child inherits matchers, the merge of the delegating match
    with a match of the rule (the delegating match itself for a rule without
    matches).  Either way it keeps every header, query and method condition of
    all the routes above it. *)
Theorem translated_routes_contained wildcardNs routes root hostnames ref reporter outs evs :
  Forall route_wf routes → route_wf root →
  Forall names_admitted routes → names_admitted root →
  TranslateGatewayHTTPRouteRules (S (length routes))
    (GetRouteChain wildcardNs routes (RHttp root) hostnames ref) reporter = Done (outs, evs) →
  ∀ o, o ∈ outs → chain_ok routes root o ∧ ∀ a, a ∈ ancestors o → keeps (rm_match a) (rm_match o).
Proof.
  intros Hw Hr Hn Hroot Ht o Ho.
  destruct (translate_chain_ok routes root wildcardNs hostnames ref reporter Hw Hr) as (outs' & evs' & Ht' & Hc).
  rewrite Ht in Ht'. injection Ht' as <- <-. rewrite Forall_forall in Hc.
  split; [by apply Hc|]. by apply (chain_keeps routes root Hn Hroot o), Hc.
Qed.

End translate.

(** ** A concrete chain *)

Definition ex_prefix (p : string) : HTTPRouteMatch :=
  mkMatch (Some (mkPath (Some PathPrefix) (Some p))) [] [] None.

Definition ex_rule (p : string) (delegates : list ObjectSource) : HttpRouteRuleIR unit :=
  mkRule ∅ ∅ (map (λ r, mkBOD ∅ None (Some r)) delegates) [ex_prefix p] "" None.

Definition ex_http (ns n : string) (prefs : list ParentReference) (rules : list (HttpRouteRuleIR unit)) :
    HttpRouteIR unit :=
  mkHttpRoute (mkOS GatewayGroup HTTPRouteKind ns n) (mkObj ns n 0 1 "" "" ∅ ∅) prefs [] ∅ rules 0 false.

Definition ex_root : HttpRouteIR unit :=
  ex_http "infra" "root" [ex_gw_ref] [ex_rule "/a" [ex_ref "a" "b"; ex_ref "a" "c"]].
Definition ex_routes : list (HttpRouteIR unit) :=
  [ex_root; ex_http "a" "b" [] [ex_rule "/a/b" []]; ex_http "a" "c" [] [ex_rule "/a/c" []; ex_rule "/z" []]].

Definition ex_reporter : Reporter := mkRep (mkNN "infra" "root") ex_gw_ref.

Definition route_names (o : outcome (list (HttpRouteRuleMatchIR unit) * list Event)) : list string :=
  match o with Done (outs, _) => map rm_name outs | _ => [] end.

Lemma ex_rule_wf p ds : rule_wf (ex_rule p ds).
Proof.
  split; [by repeat constructor|]. apply Forall_forall. by intros b [r [-> _]]%list_elem_of_fmap.
Qed.

Lemma ex_routes_wf : Forall route_wf ex_routes.
Proof. repeat (apply Forall_cons; split; [by repeat (constructor; [apply ex_rule_wf|]); constructor|]); constructor. Qed.

Lemma ex_root_wf : route_wf ex_root.
Proof. pose proof ex_routes_wf as Hw. by apply Forall_cons in Hw as [? _]. Qed.

Lemma translate_route_chain_total_witness :
  ∃ outs evs, TranslateGatewayHTTPRouteRules 4
    (GetRouteChain "all" ex_routes (RHttp ex_root) [] ex_gw_ref) ex_reporter = Done (outs, evs).
Proof.
  exact (translate_route_chain_total "all" ex_routes ex_root [] ex_gw_ref ex_reporter ex_routes_wf ex_root_wf).
Defined.

Lemma ex_names : Forall names_admitted ex_routes.
Proof.
  repeat (apply Forall_cons; split; [|try apply Forall_nil_2]);
    intros rule m Hr Hm; repeat (apply elem_of_cons in Hr as [->|Hr]; [|try by apply not_elem_of_nil in Hr]);
    apply list_elem_of_singleton in Hm as ->; split; constructor.
Qed.

Lemma ex_root_names : names_admitted ex_root.
Proof. pose proof ex_names as Hn. by apply Forall_cons in Hn as [? _]. Qed.

Lemma translated_routes_contained_witness :
  ∃ outs evs, TranslateGatewayHTTPRouteRules 4
    (GetRouteChain "all" ex_routes (RHttp ex_root) [] ex_gw_ref) ex_reporter = Done (outs, evs) ∧
    length outs = 4 ∧
    ∀ o, o ∈ outs → chain_ok ex_routes ex_root o ∧ ∀ a, a ∈ ancestors o → keeps (rm_match a) (rm_match o).
Proof.
  eexists _, _. split; [vm_compute; reflexivity|]. split; [reflexivity|].
  eapply (translated_routes_contained "all" ex_routes ex_root [] ex_gw_ref ex_reporter);
    [exact ex_routes_wf|exact ex_root_wf|exact ex_names|exact ex_root_names|vm_compute; reflexivity].
Defined.

(** A rule with two delegates translates the first child twice: its route appears
    once for the first reference and once more for the second, whose child list
    still contains it; the rule of the second child outside the delegated
    prefix is dropped. *)
Theorem two_delegates_duplicate_routes :
  route_names (TranslateGatewayHTTPRouteRules 4
    (GetRouteChain "all" ex_routes (RHttp ex_root) [] ex_gw_ref) ex_reporter) =
  ["httproute-b-a-0-0"; "httproute-b-a-0-0"; "httproute-c-a-0-0"; "httproute-root-infra-0-0"].
Proof. by vm_compute. Qed.
