(* ===== verification/References.v ===== *)
(** * References between objects (pkg/krtcollections/policy.go, secrets.go)

    Which object may refer to which: the ReferenceGrant index, the secret index
    and the backend index, up to [resolveRouteBackend], through which every
    route kind resolves its backendRefs.  A KRT collection is the list of its
    objects in the order a fetch returns them; that order is arbitrary, and the
    theorems hold for every order.  Dereferencing a nil object panics: the
    lookups that can do so return [option]. *)

From S2P Require Import Prelude IR.

(** ** KRT lookups *)

(** [krt.Fetch] with [krt.FilterIndex]: the objects indexed under the key. *)
Definition fetch_index {A K} `{EqDecision K} (idx : A → list K) (k : K) (col : list A) : list A :=
  filter (λ a, k ∈ idx a) col.

(** [krt.FetchOne] with [krt.FilterKey]. *)
Definition fetch_one {A} (key : A → string) (k : string) (col : list A) : option A :=
  head (filter (λ a, key a = k) col).

Lemma elem_of_fetch_index {A K} `{EqDecision K} (idx : A → list K) k col (a : A) :
  a ∈ fetch_index idx k col ↔ a ∈ col ∧ k ∈ idx a.
Proof. unfold fetch_index. rewrite list_elem_of_filter. tauto. Qed.

Lemma fetch_one_Some {A} (key : A → string) k col (a : A) :
  fetch_one key k col = Some a → a ∈ col ∧ key a = k.
Proof. intros [H1 H2]%head_Some_elem_of%list_elem_of_filter. done. Qed.

Lemma fetch_one_None {A} (key : A → string) k col (a : A) :
  fetch_one key k col = None → a ∈ col → key a ≠ k.
Proof.
  unfold fetch_one. rewrite head_None. intros H Ha Hk.
  assert (a ∈ filter (λ a, key a = k) col) as Hin by (by apply list_elem_of_filter).
  rewrite H in Hin. by apply not_elem_of_nil in Hin.
Qed.

(** ** Reference grants *)

(** [emptyIfCore]: the core API group is the empty one. *)
Definition emptyIfCore (s : string) : string := if String.eqb s "core" then "" else s.

Record GrantFrom := mkFrom { gf_group : string; gf_kind : string; gf_namespace : string }.
Record GrantTo := mkTo { gt_group : string; gt_kind : string; gt_name : option string }.
Record ReferenceGrant := mkGrant {
  rg_namespace : string; rg_from : list GrantFrom; rg_to : list GrantTo }.

Record refGrantIndexKey := mkRGK {
  rk_grant_ns : string; rk_to_gk : GroupKind; rk_to_name : string;
  rk_from_gk : GroupKind; rk_from_ns : string }.
#[global] Instance refGrantIndexKey_eq_dec : EqDecision refGrantIndexKey.
Proof. solve_decision. Defined.

Inductive ReferenceGrantMode := ReferenceGrantOff | ReferenceGrantPermissive | ReferenceGrantStrict.
#[global] Instance ReferenceGrantMode_eq_dec : EqDecision ReferenceGrantMode.
Proof. solve_decision. Defined.

Record RefGrantIndex := mkRGI { rgi_grants : list ReferenceGrant; rgi_mode : ReferenceGrantMode }.

(** The index function of [NewRefGrantIndex]: a key per pair of entries. *)
Definition grant_keys (p : ReferenceGrant) : list refGrantIndexKey :=
  from ← rg_from p;
  to ← rg_to p;
  [mkRGK (rg_namespace p) (mkGK (emptyIfCore (gt_group to)) (gt_kind to))
         (str_or (gt_name to) "")
         (mkGK (emptyIfCore (gf_group from)) (gf_kind from)) (gf_namespace from)].

Definition HostnameGK : GroupKind := mkGK "networking.istio.io" "Hostname".
Definition GlobalRefGKs : list GroupKind := [HostnameGK].

Definition ReferenceAllowed (r : RefGrantIndex) (fromgk : GroupKind) (fromns : string)
    (to : ObjectSource) : bool :=
  if bool_decide (rgi_mode r = ReferenceGrantOff) then true
  else if String.eqb fromns (os_namespace to) then true
  else
    let to_gk := mkGK (emptyIfCore (os_group to)) (os_kind to) in
    let from_gk := mkGK (emptyIfCore (gk_group fromgk)) (gk_kind fromgk) in
    if String.eqb (os_namespace to) "" && bool_decide (to_gk ∈ GlobalRefGKs) then true
    else
      let key n := mkRGK (os_namespace to) to_gk n from_gk fromns in
      match fetch_index grant_keys (key "") (rgi_grants r) with
      | _ :: _ => true
      | [] => match fetch_index grant_keys (key (os_name to)) (rgi_grants r) with
              | _ :: _ => true
              | [] => false
              end
      end.

(** The Gateway API rule: what a grant permits. *)
Definition grant_permits (g : ReferenceGrant) (fromgk : GroupKind) (fromns : string)
    (to : ObjectSource) : Prop :=
  rg_namespace g = os_namespace to ∧
  (∃ f, f ∈ rg_from g ∧ emptyIfCore (gf_group f) = emptyIfCore (gk_group fromgk) ∧
        gf_kind f = gk_kind fromgk ∧ gf_namespace f = fromns) ∧
  ∃ t, t ∈ rg_to g ∧ emptyIfCore (gt_group t) = emptyIfCore (os_group to) ∧
       gt_kind t = os_kind to ∧ (str_or (gt_name t) "" = "" ∨ gt_name t = Some (os_name to)).

Lemma elem_of_grant_keys k g :
  k ∈ grant_keys g ↔
  rk_grant_ns k = rg_namespace g ∧
  (∃ f, f ∈ rg_from g ∧ rk_from_gk k = mkGK (emptyIfCore (gf_group f)) (gf_kind f) ∧
        rk_from_ns k = gf_namespace f) ∧
  ∃ t, t ∈ rg_to g ∧ rk_to_gk k = mkGK (emptyIfCore (gt_group t)) (gt_kind t) ∧
       rk_to_name k = str_or (gt_name t) "".
Proof.
  unfold grant_keys. rewrite list_elem_of_bind. setoid_rewrite list_elem_of_bind.
  setoid_rewrite list_elem_of_singleton. destruct k; simpl. naive_solver.
Qed.

(** The two lookups find a grant exactly when one permits the reference. *)
Lemma grant_lookup_iff (grants : list ReferenceGrant) fromgk fromns to :
  (∃ g n, g ∈ grants ∧ (n = "" ∨ n = os_name to) ∧
     mkRGK (os_namespace to) (mkGK (emptyIfCore (os_group to)) (os_kind to)) n
       (mkGK (emptyIfCore (gk_group fromgk)) (gk_kind fromgk)) fromns ∈ grant_keys g) ↔
  ∃ g, g ∈ grants ∧ grant_permits g fromgk fromns to.
Proof.
  setoid_rewrite elem_of_grant_keys. unfold grant_permits. simpl. split.
  - intros (g & n & Hg & Hn & Hns & (f & Hf & [= -> ->] & ->) & t & Ht & [= Hgr Hk] & Hname).
    exists g. split; [done|]. split; [done|]. split; [by exists f|].
    exists t. split; [done|]. split; [done|]. split; [done|].
    unfold str_or in *. destruct (gt_name t) as [m|]; simpl in *; [|by left].
    destruct Hn as [->| ->]; [by left|right; by subst].
  - intros (g & Hg & Hns & (f & Hf & Hfg & Hfk & Hfn) & t & Ht & Htg & Htk & Hname).
    exists g, (str_or (gt_name t) ""). split; [done|]. split.
    + destruct Hname as [H|H]; [by left|right; by rewrite H].
    + split; [done|]. split; [exists f; by rewrite Hfg, Hfk, Hfn|exists t; by rewrite Htg, Htk].
Qed.

Lemma either_nonempty {A} (l1 l2 : list A) :
  match l1 with
  | _ :: _ => true
  | [] => match l2 with _ :: _ => true | [] => false end
  end = true ↔ (∃ x, x ∈ l1) ∨ ∃ x, x ∈ l2.
Proof. destruct l1, l2; set_solver. Qed.

(** A reference is allowed exactly when checking is off, or it stays in its
    namespace, or it is a global Hostname reference, or a grant permits it. *)
Lemma ReferenceAllowed_spec r fromgk fromns to :
  ReferenceAllowed r fromgk fromns to = true ↔
  rgi_mode r = ReferenceGrantOff ∨ fromns = os_namespace to ∨
  (os_namespace to = "" ∧ mkGK (emptyIfCore (os_group to)) (os_kind to) = HostnameGK) ∨
  ∃ g, g ∈ rgi_grants r ∧ grant_permits g fromgk fromns to.
Proof.
  unfold ReferenceAllowed. case_bool_decide as Hm; [tauto|].
  destruct (String.eqb_spec fromns (os_namespace to)) as [Hn|Hn]; [tauto|].
  destruct (String.eqb _ "" && _) eqn:Hg; bool_hyps.
  { unfold GlobalRefGKs in *. rewrite list_elem_of_singleton in *. tauto. }
  assert (¬ (os_namespace to = "" ∧ mkGK (emptyIfCore (os_group to)) (os_kind to) = HostnameGK)) as Hglob.
  { intros [H1 H2]. rewrite H1, H2 in Hg. unfold GlobalRefGKs in Hg.
    rewrite bool_decide_eq_true_2 in Hg by set_solver. done. }
  rewrite <- grant_lookup_iff. cbv zeta. rewrite either_nonempty.
  setoid_rewrite elem_of_fetch_index. naive_solver.
Qed.

(** ** Secrets *)

Record Secret := mkSecret {
  sec_source : ObjectSource; sec_obj : option Object; sec_data : gmap string string }.

Record From := mkFromRef { from_gk : GroupKind; from_ns : string }.

Record SecretObjectReference := mkSecretRef {
  sr_group : option string; sr_kind : option string; sr_namespace : option string; sr_name : string }.

Record SecretIndex := mkSI {
  si_secrets : gmap GroupKind (list Secret); si_refgrants : RefGrantIndex }.

Definition secret_target (from : From) (ref : SecretObjectReference) : ObjectSource :=
  mkOS (default "" (sr_group ref)) (default "Secret" (sr_kind ref))
       (str_or (sr_namespace ref) (from_ns from)) (sr_name ref).

Definition GetSecret (s : SecretIndex) (from : From) (ref : SecretObjectReference) : error + Secret :=
  let to := secret_target from ref in
  match si_secrets s !! os_gk to with
  | None => inl (EMsg ("internal error looking up secret " +:+ nn_string (os_nn to)))
  | Some col =>
      if negb (ReferenceAllowed (si_refgrants s) (from_gk from) (from_ns from) to) then
        inl (EWrap ("cannot reference secret " +:+ nn_string (os_nn to) +:+ " : ")
               (ESentinel ErrMissingReferenceGrant))
      else
        match fetch_one (λ x, os_resource_name (sec_source x)) (os_resource_name to) col with
        | None => inl (ENotFound to)
        | Some x => inr x
        end
  end.

Definition GetSecretWithoutRefGrant (s : SecretIndex) (secretName ns : string) : error + Secret :=
  GetSecret s (mkFromRef (mkGK "" "") ns) (mkSecretRef None None None secretName).

(** The label filter.  An object without labels carries a nil map; a label that
    is absent reads as the empty string. *)
Definition labels_selected (matchLabels : gmap string string) (x : Secret) : bool :=
  match sec_obj x with
  | None => false
  | Some o =>
      if bool_decide (obj_labels o = ∅) then false
      else bool_decide (map_Forall (λ k v, default "" (obj_labels o !! k) = v) matchLabels)
  end.

(** One turn of the loop over the selected secrets: the permitted ones so far
    and whether one was skipped. *)
Definition secret_step (s : SecretIndex) (from : From) (acc : list Secret * bool) (x : Secret) :
    list Secret * bool :=
  if negb (String.eqb (from_ns from) (os_namespace (sec_source x))) &&
     negb (ReferenceAllowed (si_refgrants s) (from_gk from) (from_ns from) (sec_source x))
  then (acc.1, true)
  else (acc.1 ++ [x], acc.2).

Definition GetSecretsBySelector (s : SecretIndex) (from : From) (secretGK : GroupKind)
    (matchLabels : gmap string string) : list Secret * option error :=
  match si_secrets s !! secretGK with
  | None => ([], Some (ESentinel ErrUnknownBackendKind))
  | Some col =>
      let matched := filter (λ x, labels_selected matchLabels x = true) col in
      let '(allowed, missing) := foldl (secret_step s from) ([], false) matched in
      match allowed with
      | [] => (allowed, if missing then Some (ESentinel ErrMissingReferenceGrant) else None)
      | _ => (allowed, None)
      end
  end.

(** A secret may be read from [from]. *)
Definition secret_permitted (s : SecretIndex) (from : From) (x : Secret) : Prop :=
  ReferenceAllowed (si_refgrants s) (from_gk from) (from_ns from) (sec_source x) = true.
#[global] Instance secret_permitted_dec s from x : Decision (secret_permitted s from x).
Proof. unfold secret_permitted. apply _. Defined.

Lemma same_namespace_allowed r gk ns to : os_namespace to = ns → ReferenceAllowed r gk ns to = true.
Proof. intros <-. apply ReferenceAllowed_spec. tauto. Qed.

Lemma secret_step_eq s from acc x :
  secret_step s from acc x =
  if decide (secret_permitted s from x) then (acc.1 ++ [x], acc.2) else (acc.1, true).
Proof.
  unfold secret_step. destruct (String.eqb_spec (from_ns from) (os_namespace (sec_source x))) as [Hn|Hn]; simpl.
  - rewrite decide_True; [done|]. by apply same_namespace_allowed.
  - case_decide as Hp; unfold secret_permitted in Hp; [by rewrite Hp|].
    by apply not_true_is_false in Hp as ->.
Qed.

Lemma secret_loop s from l acc :
  foldl (secret_step s from) acc l =
  (acc.1 ++ filter (secret_permitted s from) l,
   acc.2 || bool_decide (Exists (λ x, ¬ secret_permitted s from x) l)).
Proof.
  revert acc. induction l as [|x l IH]; intros [a m]; cbn [foldl fst snd].
  { rewrite filter_nil, app_nil_r. by destruct m. }
  rewrite secret_step_eq, IH, filter_cons.
  case_decide as Hp; simpl; [rewrite <- app_assoc; simpl|]; f_equal.
  - f_equal. apply bool_decide_ext. rewrite Exists_cons. naive_solver.
  - symmetry. rewrite bool_decide_eq_true_2; [by destruct m|]. by left.
Qed.

(** Secrets picked by labels: the result is exactly the selected secrets
    that a namespace match or a ReferenceGrant permits, in collection order,
    and the missing-grant error is reported exactly when some secret was
    selected but none was permitted. *)
Theorem secrets_by_selector_exact s from gk sel col :
  si_secrets s !! gk = Some col →
  let matched := filter (λ x, labels_selected sel x = true) col in
  let allowed := filter (secret_permitted s from) matched in
  GetSecretsBySelector s from gk sel =
    (allowed, if decide (allowed = [] ∧ matched ≠ [])
              then Some (ESentinel ErrMissingReferenceGrant) else None).
Proof.
  intros Hc matched allowed. unfold GetSecretsBySelector. rewrite Hc. fold matched.
  rewrite secret_loop. simpl. fold allowed.
  destruct allowed as [|x a'] eqn:Ha; [|by rewrite decide_False by naive_solver].
  case_bool_decide as Hex.
  - rewrite decide_True; [done|]. split; [done|]. intros ->. by apply Exists_nil in Hex.
  - rewrite decide_False; [done|]. intros [_ Hm]. destruct matched as [|y m]; [done|].
    apply Hex. left. intros Hy. unfold allowed in Ha. rewrite filter_cons, decide_True in Ha by done.
    done.
Qed.

(** Kubernetes groups, kinds and namespaces contain no slash. *)
Definition no_slash (o : ObjectSource) : bool :=
  no_char "/"%char (os_group o) && no_char "/"%char (os_kind o) && no_char "/"%char (os_namespace o).

Lemma os_resource_name_inj o1 o2 :
  no_slash o1 = true → no_slash o2 = true → os_resource_name o1 = os_resource_name o2 → o1 = o2.
Proof.
  destruct o1 as [g1 k1 ns1 n1], o2 as [g2 k2 ns2 n2].
  unfold no_slash, os_resource_name, buildObjectSourceName. simpl. intros H1 H2 He. bool_hyps.
  apply sep_app_inj in He as [-> He]; [|done|done].
  apply sep_app_inj in He as [-> He]; [|done|done].
  apply sep_app_inj in He as [-> He]; [|done|done].
  by subst.
Qed.

(** The secret that [GetSecret] returns is the referenced one and may be
    read from the referencing object: no secret crosses a namespace without a
    grant. *)
Theorem get_secret_permitted s from ref x :
  GetSecret s from ref = inr x →
  no_slash (sec_source x) = true → no_slash (secret_target from ref) = true →
  sec_source x = secret_target from ref ∧ secret_permitted s from x.
Proof.
  unfold GetSecret. intros H Hx Ht.
  destruct (si_secrets s !! _) as [col|]; [|done].
  destruct (ReferenceAllowed _ _ _ _) eqn:Ha; [|done]. cbn [negb] in H.
  destruct (fetch_one _ _ _) as [y|] eqn:Hf; [|done]. simplify_eq.
  apply fetch_one_Some in Hf as [_ Hn]. apply os_resource_name_inj in Hn; [|done|done].
  unfold secret_permitted. by rewrite Hn.
Qed.

(** ** Backends *)

Section backends.
Context {P : Type}.

Record BackendIndex := mkBI {
  bi_cols : gmap GroupKind (list (BackendObjectIR P));
  bi_gk_aliases : gmap GroupKind (list GroupKind);
  bi_refgrants : RefGrantIndex }.

Record BackendObjectReference := mkBOR {
  bor_group : option string; bor_kind : option string; bor_name : string;
  bor_namespace : option string; bor_port : option Z }.

Definition BackendGK : GroupKind := mkGK "gateway.kgateway.dev" "Backend".
Definition BlackholeClusterName : string := "blackhole-cluster".

Definition toFromBackendRef (fromns : string) (ref : BackendObjectReference) : ObjectSource :=
  let gk := mkGK (str_or (bor_group ref) "") (str_or (bor_kind ref) "Service") in
  let defNs := if bool_decide (gk ∈ GlobalRefGKs) then "" else fromns in
  mkOS (gk_group gk) (gk_kind gk) (str_or (bor_namespace ref) defNs) (bor_name ref).

(** The keys of the alias index (with the port) and of the name index. *)
Definition alias_keys (b : BackendObjectIR P) : list (ObjectSource * Z) :=
  map (λ a, (a, bo_port b)) (bo_aliases b).
Definition name_keys (b : BackendObjectIR P) : list ObjectSource := bo_source b :: bo_aliases b.

Definition fetchBackendsNamed (i : BackendIndex) (gk : GroupKind) (key : ObjectSource) : bool :=
  match bi_cols i !! gk with
  | None => false
  | Some col => match fetch_index name_keys key col with [] => false | _ => true end
  end.

Definition aliases_of (i : BackendIndex) (gk : GroupKind) : list GroupKind :=
  default [] (bi_gk_aliases i !! gk).

Definition hasBackendNamed (i : BackendIndex) (gk : GroupKind) (key : ObjectSource) : bool :=
  fetchBackendsNamed i gk key ||
  existsb (λ actual, negb (bool_decide (actual = gk)) && fetchBackendsNamed i actual key)
          (aliases_of i gk).

Definition notFoundErr (i : BackendIndex) (gk : GroupKind) (key : ObjectSource) (gwport : option Z) :
    error :=
  match gwport with
  | Some p => if hasBackendNamed i gk key then EPortNotFound key p else ENotFound key
  | None => ENotFound key
  end.

(** One turn of the loop that keeps a single result: the older object, then the
    smaller name.  A backend without an object panics in the comparison. *)
Definition alias_step (out : option (BackendObjectIR P)) (res : BackendObjectIR P) :
    option (option (BackendObjectIR P)) :=
  match out with
  | None => Some (Some res)
  | Some o =>
      r ← bo_obj res;
      oo ← bo_obj o;
      Some (Some (if bool_decide (obj_creation r < obj_creation oo)%Z then res
                  else if bool_decide (obj_creation r = obj_creation oo) &&
                          str_ltb (bo_resource_name res) (bo_resource_name o) then res
                  else o))
  end.

Definition alias_fetch (i : BackendIndex) (key : ObjectSource * Z) (gk : GroupKind) :
    list (BackendObjectIR P) :=
  match bi_cols i !! gk with None => [] | Some col => fetch_index alias_keys key col end.

Definition getBackendFromAlias (i : BackendIndex) (gk : GroupKind) (n : NamespacedName) (port : Z) :
    option (error + BackendObjectIR P) :=
  let src := mkOS (gk_group gk) (gk_kind gk) (nn_namespace n) (nn_name n) in
  let results := aliases_of i gk ≫= alias_fetch i (src, port) in
  let didFetch := existsb (λ a, bool_decide (is_Some (bi_cols i !! a))) (aliases_of i gk) in
  if negb didFetch then Some (inl (ESentinel ErrUnknownBackendKind))
  else
    out ← foldM alias_step None results;
    Some (match out with None => inl (ENotFound src) | Some b => inr b end).

Definition getBackend (i : BackendIndex) (gk : GroupKind) (n : NamespacedName) (gwport : option Z) :
    option (error + BackendObjectIR P) :=
  let key := mkOS (emptyIfCore (gk_group gk)) (gk_kind gk) (nn_namespace n) (nn_name n) in
  if bool_decide (gk = BackendGK) && bool_decide (is_Some gwport) then
    Some (inl (EPortNotAllowed (os_name key)))
  else
    let port := default 0%Z gwport in
    let col := bi_cols i !! gk in
    match col ≫= fetch_one bo_resource_name (BackendResourceName key port "") with
    | Some up => Some (inr up)
    | None =>
        r ← getBackendFromAlias i gk n port;
        Some (match r with
              | inr b => inr b
              | inl err =>
                  if bool_decide (col = None) && err_is err ErrUnknownBackendKind then inl err
                  else inl (notFoundErr i gk key gwport)
              end)
    end.

Definition getBackendFromRef (i : BackendIndex) (localns : string) (ref : BackendObjectReference) :
    option (error + BackendObjectIR P) :=
  let resolved := toFromBackendRef localns ref in
  getBackend i (os_gk resolved) (os_nn resolved) (bor_port ref).

Definition GetBackendFromRef (i : BackendIndex) (src : ObjectSource) (ref : BackendObjectReference) :
    option (error + BackendObjectIR P) :=
  let fromNs := os_namespace src in
  if negb (ReferenceAllowed (bi_refgrants i) (os_gk src) fromNs (toFromBackendRef fromNs ref)) then
    Some (inl (ESentinel ErrMissingReferenceGrant))
  else getBackendFromRef i fromNs ref.

(** Backend, cluster name and error of a route's backendRef.  [GetBackendFromRef]
    returns a backend or an error, never both or neither. *)
Definition resolveRouteBackend (i : BackendIndex) (src : ObjectSource) (ref : BackendObjectReference) :
    option (option (BackendObjectIR P) * string * option error) :=
  r ← GetBackendFromRef i src ref;
  Some (match r with
        | inr backend =>
            if negb (SupportsRouteKind backend (os_gk src)) then
              (None, BlackholeClusterName,
               Some (EUnsupportedRouteKind (bo_source backend) (os_gk src)
                       (bo_supported_route_kinds backend)))
            else (Some backend, bo_cluster_name backend, None)
        | inl err => (None, BlackholeClusterName, Some err)
        end).

(** [weight]: a conversion to [uint32]. *)
Definition weight (w : option Z) : Z := match w with None => 1%Z | Some w => (w mod 2 ^ 32)%Z end.

Definition getTcpBackends (i : BackendIndex) (src : ObjectSource)
    (refs : list (BackendObjectReference * option Z)) : option (list (BackendRefIR P)) :=
  mapM (λ ref, '(backend, clusterName, err) ← resolveRouteBackend i src ref.1;
               Some (mkBackendRef clusterName (weight ref.2) backend err)) refs.

(** *** The alias loop *)

Definition creation (b : BackendObjectIR P) : Z := default 0%Z (obj_creation <$> bo_obj b).

(** Older first, then by name. *)
Definition alias_cmp : BackendObjectIR P → BackendObjectIR P → comparison :=
  (cmp_on creation Z.compare ▷ cmp_on bo_resource_name String.compare)%cmp.

#[local] Instance alias_cmp_wo : WeakOrder alias_cmp.
Proof. unfold alias_cmp. apply _. Qed.

Definition has_obj (b : BackendObjectIR P) : Prop := is_Some (bo_obj b).

Lemma alias_step_spec o res :
  has_obj o → has_obj res →
  alias_step (Some o) res = Some (Some (match alias_cmp res o with Lt => res | _ => o end)).
Proof.
  intros [oo Ho] [r Hr]. unfold alias_step. rewrite Hr, Ho. simpl.
  unfold alias_cmp, then_cmp, cmp_on, creation. rewrite Hr, Ho. simpl. do 2 f_equal.
  destruct (Z.compare_spec (obj_creation r) (obj_creation oo)) as [He|Hlt|Hgt].
  - rewrite bool_decide_eq_false_2 by lia. rewrite bool_decide_eq_true_2 by done. simpl.
    unfold str_ltb, String.ltb. by destruct (String.compare _ _).
  - by rewrite bool_decide_eq_true_2 by lia.
  - rewrite bool_decide_eq_false_2 by lia. by rewrite bool_decide_eq_false_2 by lia.
Qed.

Lemma alias_step_member o res out : alias_step o res = Some out → out = Some res ∨ (out = o ∧ is_Some o).
Proof.
  destruct o as [o|]; simpl; [|naive_solver].
  destruct (bo_obj res), (bo_obj o); simpl; intros ?; simplify_eq.
  repeat case_match; simplify_eq; eauto.
Qed.

Lemma alias_loop_member l out w :
  foldM alias_step out l = Some (Some w) → out = Some w ∨ w ∈ l.
Proof.
  revert out. induction l as [|x l IH]; intros out H; simpl in H; [naive_solver|].
  apply bind_Some in H as (out' & Hs & H). apply IH in H as [->|Hl]; [|right; by right].
  apply alias_step_member in Hs as [Hs|[Hs _]]; simplify_eq; [right; by left|by left].
Qed.

Lemma alias_loop_none l out : foldM alias_step out l = Some None → out = None ∧ l = [].
Proof.
  revert out. induction l as [|x l IH]; intros out H; simpl in H; [naive_solver|].
  apply bind_Some in H as (out' & Hs & H). apply IH in H as [-> ->].
  by apply alias_step_member in Hs as [?|[<- [? ?]]].
Qed.

Lemma alias_loop_least l o :
  has_obj o → Forall has_obj l →
  ∃ w, foldM alias_step (Some o) l = Some (Some w) ∧ ∀ x, x ∈ o :: l → cmp_le alias_cmp w x.
Proof.
  revert o. induction l as [|y l IH]; intros o Ho Hl; cbn [foldM].
  { exists o. split; [done|]. intros x ->%list_elem_of_singleton. by apply (reflexivity (R := cmp_le alias_cmp)). }
  apply Forall_cons in Hl as [Hy Hl]. rewrite alias_step_spec by done. simpl.
  set (z := match alias_cmp y o with Lt => y | _ => o end).
  assert (has_obj z ∧ cmp_le alias_cmp z y ∧ cmp_le alias_cmp z o) as (Hz & Hzy & Hzo).
  { unfold z, cmp_le. destruct (alias_cmp y o) eqn:E.
    - by rewrite (wo_eq_sym alias_cmp y o), (wo_refl alias_cmp).
    - by rewrite E, (wo_refl alias_cmp).
    - apply (wo_lt_gt alias_cmp) in E. by rewrite E, (wo_refl alias_cmp). }
  destruct (IH z Hz Hl) as (w & Hw & Hall). exists w. split; [done|].
  assert (cmp_le alias_cmp w z) by (apply Hall; by left).
  intros x [->|[->|Hx]%elem_of_cons]%elem_of_cons; [by transitivity z|by transitivity z|].
  apply Hall. by right.
Qed.

(** The choice of the loop: a least candidate. *)
Lemma alias_loop_choice l :
  l ≠ [] → Forall has_obj l →
  ∃ w, foldM alias_step None l = Some (Some w) ∧ w ∈ l ∧ ∀ x, x ∈ l → cmp_le alias_cmp w x.
Proof.
  destruct l as [|o l]; [done|]. intros _ [Ho Hl]%Forall_cons.
  destruct (alias_loop_least l o Ho Hl) as (w & Hw & Hle). exists w.
  cbn [foldM alias_step]. simpl. split; [done|]. split; [|done].
  apply alias_loop_member in Hw as [[= ->]|?]; [by left|by right].
Qed.

Lemma alias_loop_perm l1 l2 :
  Forall has_obj l1 → l1 ≡ₚ l2 →
  (∀ x y, x ∈ l1 → y ∈ l1 → bo_resource_name x = bo_resource_name y → x = y) →
  foldM alias_step None l1 = foldM alias_step None l2.
Proof.
  intros H1 Hperm Hname. destruct (decide (l1 = [])) as [->|Hne].
  { apply Permutation_nil_l in Hperm as <-. done. }
  destruct (alias_loop_choice l1 Hne H1) as (w1 & -> & Hin1 & Hle1).
  destruct (alias_loop_choice l2) as (w2 & -> & Hin2 & Hle2);
    [intros ->; by apply Permutation_nil_r in Hperm|by rewrite <- Hperm|].
  do 2 f_equal. apply Hname; [done|by rewrite Hperm|]. apply string_compare_eq.
  assert (alias_cmp w1 w2 = Eq) as He.
  { apply (cmp_le_antisym_eq alias_cmp); [apply Hle1; by rewrite Hperm|].
    apply Hle2. by rewrite <- Hperm. }
  unfold alias_cmp, then_cmp in He. by destruct (cmp_on creation Z.compare w1 w2).
Qed.

(** *** What a lookup answers *)

(** The backends that serve the reference under an alias. *)
Definition alias_candidates (i : BackendIndex) (gk : GroupKind) (n : NamespacedName) (port : Z) :
    list (BackendObjectIR P) :=
  aliases_of i gk ≫= alias_fetch i (mkOS (gk_group gk) (gk_kind gk) (nn_namespace n) (nn_name n), port).

Lemma elem_of_alias_candidates i gk n port b :
  b ∈ alias_candidates i gk n port ↔
  ∃ actual col, actual ∈ aliases_of i gk ∧ bi_cols i !! actual = Some col ∧ b ∈ col ∧
    mkOS (gk_group gk) (gk_kind gk) (nn_namespace n) (nn_name n) ∈ bo_aliases b ∧ bo_port b = port.
Proof.
  unfold alias_candidates, alias_fetch. rewrite list_elem_of_bind. split.
  - intros (a & Hb & Ha). destruct (bi_cols i !! a) as [col|] eqn:Hc; [|by apply not_elem_of_nil in Hb].
    apply elem_of_fetch_index in Hb as [Hcol Hk]. unfold alias_keys in Hk.
    apply list_elem_of_fmap in Hk as (x & [= -> ->] & Hx). by exists a, col.
  - intros (a & col & Ha & Hc & Hb & Hal & <-). exists a. split; [|done]. rewrite Hc.
    apply elem_of_fetch_index. split; [done|]. unfold alias_keys. apply list_elem_of_fmap. eauto.
Qed.

Definition ref_key (gk : GroupKind) (n : NamespacedName) : ObjectSource :=
  mkOS (emptyIfCore (gk_group gk)) (gk_kind gk) (nn_namespace n) (nn_name n).

(** The backends found under the key of the referenced object itself. *)
Definition direct_candidates (i : BackendIndex) (gk : GroupKind) (n : NamespacedName) (port : Z) :
    list (BackendObjectIR P) :=
  filter (λ b, bo_resource_name b = BackendResourceName (ref_key gk n) port "")
    (default [] (bi_cols i !! gk)).

(** The backends that carry the referenced name on any port. *)
Definition named (i : BackendIndex) (gk : GroupKind) (n : NamespacedName) (b : BackendObjectIR P) : Prop :=
  ∃ gk' col, (gk' = gk ∨ gk' ∈ aliases_of i gk) ∧ bi_cols i !! gk' = Some col ∧ b ∈ col ∧
    ref_key gk n ∈ name_keys b.

(** The contract of a backend lookup: which answer is due when. *)
Inductive LookupAnswer (i : BackendIndex) (gk : GroupKind) (n : NamespacedName) (gwport : option Z) :
    error + BackendObjectIR P → Prop :=
| LA_port_not_allowed :
    gk = BackendGK → is_Some gwport →
    LookupAnswer i gk n gwport (inl (EPortNotAllowed (nn_name n)))
| LA_direct b :
    ¬ (gk = BackendGK ∧ is_Some gwport) →
    b ∈ direct_candidates i gk n (default 0%Z gwport) → LookupAnswer i gk n gwport (inr b)
| LA_alias b :
    ¬ (gk = BackendGK ∧ is_Some gwport) →
    direct_candidates i gk n (default 0%Z gwport) = [] →
    b ∈ alias_candidates i gk n (default 0%Z gwport) → LookupAnswer i gk n gwport (inr b)
| LA_unknown :
    bi_cols i !! gk = None → (∀ a, a ∈ aliases_of i gk → bi_cols i !! a = None) →
    LookupAnswer i gk n gwport (inl (ESentinel ErrUnknownBackendKind))
| LA_port p b :
    gwport = Some p → direct_candidates i gk n p = [] → alias_candidates i gk n p = [] →
    named i gk n b → LookupAnswer i gk n gwport (inl (EPortNotFound (ref_key gk n) p))
| LA_missing :
    direct_candidates i gk n (default 0%Z gwport) = [] →
    alias_candidates i gk n (default 0%Z gwport) = [] →
    (gwport = None ∨ ∀ b, ¬ named i gk n b) →
    LookupAnswer i gk n gwport (inl (ENotFound (ref_key gk n))).

Lemma fetchBackendsNamed_spec i gk key :
  fetchBackendsNamed i gk key = true ↔
  ∃ col b, bi_cols i !! gk = Some col ∧ b ∈ col ∧ key ∈ name_keys b.
Proof.
  unfold fetchBackendsNamed. destruct (bi_cols i !! gk) as [col|]; [|naive_solver].
  transitivity (∃ b, b ∈ fetch_index name_keys key col).
  - destruct (fetch_index _ _ _) as [|b l]; [set_solver|]. split; [exists b; set_solver|done].
  - setoid_rewrite elem_of_fetch_index. naive_solver.
Qed.

Lemma hasBackendNamed_spec i gk n :
  hasBackendNamed i gk (ref_key gk n) = true ↔ ∃ b, named i gk n b.
Proof.
  unfold hasBackendNamed, named. rewrite orb_true_iff, existsb_exists.
  setoid_rewrite andb_true_iff. setoid_rewrite fetchBackendsNamed_spec.
  setoid_rewrite <- list_elem_of_In. split.
  - intros [(col & b & ?)|(a & ? & _ & col & b & ?)]; exists b; [exists gk, col|exists a, col]; naive_solver.
  - intros (b & gk' & col & [->|Ha] & ?); [left; eauto|].
    destruct (decide (gk' = gk)) as [->|Hne]; [left; eauto|right].
    exists gk'. split; [done|]. rewrite bool_decide_eq_false_2 by done. eauto.
Qed.

Lemma notFoundErr_answers i gk n gwport :
  direct_candidates i gk n (default 0%Z gwport) = [] →
  alias_candidates i gk n (default 0%Z gwport) = [] →
  LookupAnswer i gk n gwport (inl (notFoundErr i gk (ref_key gk n) gwport)).
Proof.
  intros Hd Ha. unfold notFoundErr. destruct gwport as [p|]; [|apply LA_missing; auto].
  destruct (hasBackendNamed _ _ _) eqn:Hn.
  - apply hasBackendNamed_spec in Hn as [b Hb]. by eapply LA_port.
  - apply LA_missing; [done|done|]. right. intros b Hb.
    apply not_true_iff_false in Hn. apply Hn, hasBackendNamed_spec. eauto.
Qed.

Lemma getBackendFromAlias_answers i gk n port r :
  getBackendFromAlias i gk n port = Some r →
  match r with
  | inr b => b ∈ alias_candidates i gk n port
  | inl e => alias_candidates i gk n port = [] ∧
             (err_is e ErrUnknownBackendKind = true →
              e = ESentinel ErrUnknownBackendKind ∧ ∀ a, a ∈ aliases_of i gk → bi_cols i !! a = None)
  end.
Proof.
  unfold getBackendFromAlias. fold (alias_candidates i gk n port).
  destruct (existsb _ _) eqn:Hd; simpl; intros H.
  - apply bind_Some in H as (out & Hf & H). destruct out as [b|]; simplify_eq.
    + by apply alias_loop_member in Hf as [?|?].
    + apply alias_loop_none in Hf as [_ ->]. split; [done|]. done.
  - simplify_eq. assert (∀ a, a ∈ aliases_of i gk → bi_cols i !! a = None) as Hn.
    { intros a Ha. apply eq_None_not_Some. intros Hs. apply not_true_iff_false in Hd. apply Hd.
      apply existsb_exists. exists a. rewrite <- list_elem_of_In. by rewrite bool_decide_eq_true_2. }
    split; [|done]. apply elem_of_nil_inv. intros b (a & col & Ha & Hc & _)%elem_of_alias_candidates.
    by rewrite Hn in Hc.
Qed.

Lemma direct_fetch i gk n port :
  (bi_cols i !! gk) ≫= fetch_one bo_resource_name (BackendResourceName (ref_key gk n) port "") =
  head (direct_candidates i gk n port).
Proof. unfold direct_candidates. by destruct (bi_cols i !! gk). Qed.

Lemma getBackend_answers i gk n gwport r :
  getBackend i gk n gwport = Some r → LookupAnswer i gk n gwport r.
Proof.
  unfold getBackend. fold (ref_key gk n). destruct (_ && _) eqn:Hp; bool_hyps.
  { intros [= <-]. by apply LA_port_not_allowed. }
  assert (¬ (gk = BackendGK ∧ is_Some gwport)) as Hok.
  { intros [H1 H2]. by rewrite !bool_decide_eq_true_2 in Hp. }
  rewrite direct_fetch. set (port := default 0%Z gwport).
  destruct (direct_candidates i gk n port) as [|b l] eqn:Hd; simpl.
  - intros H. apply bind_Some in H as (ra & Hra & [= <-]). apply getBackendFromAlias_answers in Hra.
    destruct ra as [e|b]; [|by apply LA_alias].
    destruct Hra as [Hc Hu]. destruct (bool_decide (bi_cols i !! gk = None) && _) eqn:Hk; bool_hyps;
      [|by apply notFoundErr_answers].
    destruct Hu as [-> Hu]; [done|]. by apply LA_unknown.
  - intros [= <-]. apply LA_direct; [done|]. fold port. rewrite Hd. by left.
Qed.

(** The index over objects that exist: every backend carries its object. *)
Definition objects_present (i : BackendIndex) : Prop :=
  ∀ gk col b, bi_cols i !! gk = Some col → b ∈ col → has_obj b.

Lemma candidates_have_objects i gk n port :
  objects_present i → Forall has_obj (alias_candidates i gk n port).
Proof.
  intros Hi. apply Forall_forall.
  intros b (a & col & _ & Hc & Hb & _)%elem_of_alias_candidates. by eapply Hi.
Qed.

Lemma getBackendFromAlias_total i gk n port :
  objects_present i → ∃ r, getBackendFromAlias i gk n port = Some r.
Proof.
  intros Hi. unfold getBackendFromAlias. fold (alias_candidates i gk n port).
  destruct (negb _); [eauto|]. pose proof (candidates_have_objects i gk n port Hi) as Hall.
  destruct (decide (alias_candidates i gk n port = [])) as [->|Hne]; [eauto|].
  destruct (alias_loop_choice _ Hne Hall) as (w & -> & _). simpl. eauto.
Qed.

(** A backend lookup never panics on backends that carry their objects, and
    gives the answer its contract calls for: a served backend (under its own key
    before any alias), a port forbidden on Backend resources, an unknown kind, an
    existing backend without that port, or a missing backend. *)
Theorem get_backend_answers i gk n gwport :
  objects_present i → ∃ r, getBackend i gk n gwport = Some r ∧ LookupAnswer i gk n gwport r.
Proof.
  intros Hi. destruct (getBackend i gk n gwport) as [r|] eqn:Hg;
    [exists r; split; [done|by apply getBackend_answers]|].
  exfalso. revert Hg. unfold getBackend. destruct (_ && _); [done|]. case_match; [done|].
  destruct (getBackendFromAlias_total i gk n (default 0%Z gwport) Hi) as (r & ->). done.
Qed.

(** A resolved backendRef is safe to program: its backend may be referenced from
    [src] and carries the kind of [src]; without a backend it is a blackhole that
    reports its error. *)
Definition resolved_safely (i : BackendIndex) (src : ObjectSource) (ref : BackendObjectReference)
    (b : option (BackendObjectIR P)) (cluster : string) (err : option error) : Prop :=
  match b with
  | Some b => err = None ∧ cluster = bo_cluster_name b ∧ SupportsRouteKind b (os_gk src) = true ∧
              let to := toFromBackendRef (os_namespace src) ref in
              ReferenceAllowed (bi_refgrants i) (os_gk src) (os_namespace src) to = true ∧
              LookupAnswer i (os_gk to) (os_nn to) (bor_port ref) (inr b)
  | None => cluster = BlackholeClusterName ∧ is_Some err
  end.

Lemma resolve_safe i src ref b cluster err :
  resolveRouteBackend i src ref = Some (b, cluster, err) → resolved_safely i src ref b cluster err.
Proof.
  unfold resolveRouteBackend. intros H. apply bind_Some in H as (r & Hr & H).
  destruct r as [e|b']; [by simplify_eq|].
  destruct (SupportsRouteKind b' (os_gk src)) eqn:Hs; simpl in H; [|by simplify_eq].
  simplify_eq. repeat (split; [done|]). unfold GetBackendFromRef in Hr.
  destruct (ReferenceAllowed _ _ _ _) eqn:Ha; [|done]. split; [done|].
  by apply getBackend_answers.
Qed.

(** Every route kind resolves its backends safely: a programmed cluster is
    that of a backend the route may reference and whose declared route kinds
    include the route's; any failure routes to the blackhole cluster, carries no
    backend and reports its error. *)
Theorem route_backend_safe i src ref b cluster err :
  resolveRouteBackend i src ref = Some (b, cluster, err) → resolved_safely i src ref b cluster err.
Proof. apply resolve_safe. Qed.

(** A reference served by several aliased backends resolves to the oldest
    one, ties going to the smaller name, so the choice does not depend on the
    order in which the collections list their objects. *)
Theorem alias_choice_deterministic i1 i2 gk n port :
  objects_present i1 → aliases_of i1 gk = aliases_of i2 gk →
  (∀ a, a ∈ aliases_of i1 gk → is_Some (bi_cols i1 !! a) ↔ is_Some (bi_cols i2 !! a)) →
  alias_candidates i1 gk n port ≡ₚ alias_candidates i2 gk n port →
  (∀ x y, x ∈ alias_candidates i1 gk n port → y ∈ alias_candidates i1 gk n port →
     bo_resource_name x = bo_resource_name y → x = y) →
  getBackendFromAlias i1 gk n port = getBackendFromAlias i2 gk n port.
Proof.
  intros Hi Hal Hcols Hperm Hname. unfold getBackendFromAlias.
  fold (alias_candidates i1 gk n port) (alias_candidates i2 gk n port).
  assert (existsb (λ a, bool_decide (is_Some (bi_cols i1 !! a))) (aliases_of i1 gk) =
          existsb (λ a, bool_decide (is_Some (bi_cols i2 !! a))) (aliases_of i2 gk)) as ->.
  { rewrite <- Hal. apply eq_true_iff_eq. rewrite !existsb_exists. setoid_rewrite <- list_elem_of_In.
    setoid_rewrite bool_decide_eq_true. naive_solver. }
  destruct (negb _); [done|]. f_equal. apply alias_loop_perm; [|done|done].
  by apply candidates_have_objects.
Qed.

End backends.

Arguments BackendIndex : clear implicits.

(** C5: [ReferenceAllowed] implements the ReferenceGrant rule: a reference is
    allowed exactly when grants are switched off, or it stays in its namespace,
    or it is a global Hostname reference, or a grant in the target's namespace
    names the referrer's kind and namespace and the target's kind and, if it
    names an object at all, that object. *)
Theorem reference_allowed_iff r fromgk fromns to :
  ReferenceAllowed r fromgk fromns to = true ↔
  rgi_mode r = ReferenceGrantOff ∨ fromns = os_namespace to ∨
  (os_namespace to = "" ∧ mkGK (emptyIfCore (os_group to)) (os_kind to) = HostnameGK) ∨
  ∃ g, g ∈ rgi_grants r ∧ grant_permits g fromgk fromns to.
Proof. apply ReferenceAllowed_spec. Qed.

(** ** Witnesses *)

Definition ex_object (ns n : string) (t : Z) : Object :=
  mkObj ns n t 1 "1" "u" {[ "app" := "web" ]} ∅.
Definition ex_secret (ns n : string) : Secret :=
  mkSecret (mkOS "" "Secret" ns n) (Some (ex_object ns n 5)) ∅.
Definition ex_grants : RefGrantIndex :=
  mkRGI [mkGrant "vault" [mkFrom "gateway.networking.k8s.io" "Gateway" "infra"]
           [mkTo "core" "Secret" (Some "a")]] ReferenceGrantStrict.
Definition ex_secrets : SecretIndex :=
  mkSI {[ mkGK "" "Secret" := [ex_secret "vault" "a"; ex_secret "vault" "b"; ex_secret "infra" "c"] ]}
       ex_grants.
Definition ex_from : From := mkFromRef (mkGK "gateway.networking.k8s.io" "Gateway") "infra".

Lemma secrets_by_selector_exact_witness :
  (GetSecretsBySelector ex_secrets ex_from (mkGK "" "Secret") {[ "app" := "web" ]}) =
  ([ex_secret "vault" "a"; ex_secret "infra" "c"], None).
Proof.
  etransitivity.
  - apply (secrets_by_selector_exact ex_secrets ex_from (mkGK "" "Secret") {[ "app" := "web" ]}
      [ex_secret "vault" "a"; ex_secret "vault" "b"; ex_secret "infra" "c"]). reflexivity.
  - vm_compute. reflexivity.
Defined.

Lemma get_secret_permitted_witness :
  secret_permitted ex_secrets ex_from (ex_secret "vault" "a").
Proof.
  apply (get_secret_permitted ex_secrets ex_from (mkSecretRef None None (Some "vault") "a")
    (ex_secret "vault" "a")); vm_compute; reflexivity.
Defined.

(** A service entry and a service that both answer to the host [api]. *)
Definition ex_backend (n : string) (t : Z) : BackendObjectIR unit :=
  let b := NewBackendObjectIR (P := unit) (mkOS "networking.istio.io" "ServiceEntry" "infra" n) 80 "" "" in
  mkBackend (bo_source b) 80 "" "" "" (bo_gv_prefix b) (Some (ex_object "infra" n t))
    [mkOS "networking.istio.io" "Hostname" "" "api"] "" false ∅ [] TDAny false
    (bo_resource_name b) (bo_cluster_name b) None [mkGK "gateway.networking.k8s.io" "HTTPRoute"].
Definition ServiceEntryGK : GroupKind := mkGK "networking.istio.io" "ServiceEntry".
Definition ex_backends (l : list (BackendObjectIR unit)) : BackendIndex unit :=
  mkBI {[ ServiceEntryGK := l ]} {[ HostnameGK := [ServiceEntryGK] ]} ex_grants.
Definition ex_entries := [ex_backend "young" 9; ex_backend "old" 3].

Lemma ex_objects_present : objects_present (ex_backends ex_entries).
Proof.
  intros gk col b Hc Hb. cbn [ex_backends bi_cols] in Hc.
  apply lookup_singleton_Some in Hc as [_ <-]. unfold ex_entries in Hb.
  apply elem_of_cons in Hb as [->|Hb]; [eexists; reflexivity|].
  apply list_elem_of_singleton in Hb as ->. eexists; reflexivity.
Qed.

Lemma get_backend_answers_witness :
  ∃ r, getBackend (ex_backends ex_entries) HostnameGK (mkNN "" "api") (Some 81%Z) = Some r ∧
       LookupAnswer (ex_backends ex_entries) HostnameGK (mkNN "" "api") (Some 81%Z) r ∧
       r = inl (EPortNotFound (mkOS "networking.istio.io" "Hostname" "" "api") 81).
Proof.
  destruct (get_backend_answers (ex_backends ex_entries) HostnameGK (mkNN "" "api") (Some 81%Z)
    ex_objects_present) as (r & Hr & Ha).
  exists r. split; [exact Hr|]. split; [exact Ha|]. vm_compute in Hr. injection Hr as <-. reflexivity.
Defined.

Lemma route_backend_safe_witness :
  SupportsRouteKind (ex_backend "old" 3) (mkGK "gateway.networking.k8s.io" "HTTPRoute") = true.
Proof.
  refine (proj1 (proj2 (proj2 (route_backend_safe (ex_backends ex_entries)
    (mkOS "gateway.networking.k8s.io" "HTTPRoute" "infra" "r")
    (mkBOR (Some "networking.istio.io") (Some "Hostname") "api" None (Some 80%Z))
    (Some (ex_backend "old" 3)) "serviceentry_infra_old_80" None _)))).
  vm_compute. reflexivity.
Defined.

Lemma alias_choice_deterministic_witness :
  getBackendFromAlias (ex_backends ex_entries) HostnameGK (mkNN "" "api") 80 =
  getBackendFromAlias (ex_backends (reverse ex_entries)) HostnameGK (mkNN "" "api") 80.
Proof.
  apply (alias_choice_deterministic (ex_backends ex_entries) (ex_backends (reverse ex_entries))).
  - apply ex_objects_present.
  - reflexivity.
  - intros a Ha. apply list_elem_of_singleton in Ha as ->. split; intros _; eexists; reflexivity.
  - apply Permutation_swap.
  - intros x y Hx Hy. vm_compute in Hx, Hy.
    repeat (apply elem_of_cons in Hx as [->|Hx]); repeat (apply elem_of_cons in Hy as [->|Hy]);
      try (intros _; reflexivity); try (intros H; discriminate H);
      first [by apply not_elem_of_nil in Hx|by apply not_elem_of_nil in Hy].
Defined.

(** A reference that spells the core group is not served, although grants and
    keys treat it as the empty group: the collections are looked up by the kind
    as written. *)
Example core_group_not_served :
  let b := NewBackendObjectIR (P := unit) (mkOS "" "Service" "infra" "web") 80 "" "" in
  let i := mkBI {[ mkGK "" "Service" := [b] ]} ∅ ex_grants in
  let src := mkOS "gateway.networking.k8s.io" "HTTPRoute" "infra" "r" in
  GetBackendFromRef i src (mkBOR None None "web" None (Some 80%Z)) = Some (inr b) ∧
  GetBackendFromRef i src (mkBOR (Some "core") None "web" None (Some 80%Z)) =
    Some (inl (ESentinel ErrUnknownBackendKind)).
Proof. split; vm_compute; reflexivity. Qed.
