(* ===== verification/PolicyIndex.v ===== *)
(** * Policy attachment (pkg/krtcollections/policy.go)

    The policy index: which policies target an object by name or by labels,
    their order, and how they end up on backends and routes.  [availablePolicies]
    is a Go map, so the collections are listed in an arbitrary order.  Label
    matching is Istio's [labels.Instance.Match]; the built-in policies of a
    filter or a rule are parameters. *)

From S2P Require Import Prelude IR References.

(** ** The index *)

Record PolicyRef := mkPolicyRef {
  tr_group : string; tr_kind : string; tr_name : string; tr_section : string;
  tr_match_labels : gmap string string }.

Record TargetRefIndexKey := mkTRK {
  trk_group : string; trk_kind : string; trk_name : string; trk_namespace : string;
  trk_section : string }.
#[global] Instance TargetRefIndexKey_eq_dec : EqDecision TargetRefIndexKey.
Proof. solve_decision. Defined.

Definition BackendTLSPolicyGK : GroupKind := mkGK "gateway.networking.k8s.io" "BackendTLSPolicy".
Definition VirtualBuiltInGK : GroupKind := mkGK "builtin" "builtin".

(** [schema.GroupKind.String]. *)
Definition gk_string (gk : GroupKind) : string :=
  if String.eqb (gk_group gk) "" then gk_kind gk else gk_kind gk +:+ "." +:+ gk_group gk.

Section policies.
Context {P : Type} `{PO : PolicyIrOps P}.
Context (labels_match : gmap string string → gmap string string → bool).

Record PolicyWrapper := mkPW {
  pw_source : ObjectSource; pw_policy : option Object; pw_errors : list error; pw_ir : P;
  pw_target_refs : list PolicyRef; pw_weight : Z }.

Record policyAndIndex := mkPAI { pai_policies : list PolicyWrapper; pai_for_backends : bool }.

(** [policiesFetch] and [globalPolicies] call into plugins: a lookup that may
    find nothing, and a policy that may be nil. *)
Record PolicyIndex := mkPI {
  pi_global_ns : string;
  pi_available : list (GroupKind * policyAndIndex);
  pi_fetch : gmap GroupKind (string → string → option P);
  pi_globals : list (GroupKind * option P) }.

(** [policiesByTargetRef]: the policies with target refs. *)
Definition policies_by_target_ref (c : policyAndIndex) : list PolicyWrapper :=
  filter (λ p, pw_target_refs p ≠ []) (pai_policies c).

(** The index function of [NewPolicyIndex]: by full reference, then by
    reference without the name. *)
Definition target_keys (p : PolicyWrapper) : list TargetRefIndexKey :=
  map (λ t, mkTRK (tr_group t) (tr_kind t) (tr_name t) (os_namespace (pw_source p)) (tr_section t))
      (pw_target_refs p) ++
  map (λ t, mkTRK (tr_group t) (tr_kind t) "" (os_namespace (pw_source p)) (tr_section t))
      (pw_target_refs p).

Definition fetchByTargetRef (pi : PolicyIndex) (key : TargetRefIndexKey) (onlyBackends : bool) :
    list PolicyWrapper :=
  pi_available pi ≫= λ c,
    if onlyBackends && negb (pai_for_backends c.2) then []
    else fetch_index target_keys key (policies_by_target_ref c.2).

(** The generic filter of [fetchByTargetRefLabels]. *)
Definition selects_labels (key : TargetRefIndexKey) (targetLabels : gmap string string)
    (p : PolicyWrapper) : bool :=
  existsb (λ t, bool_decide (key = mkTRK (tr_group t) (tr_kind t) "" (os_namespace (pw_source p))
                                         (tr_section t)) &&
                labels_match (tr_match_labels t) targetLabels) (pw_target_refs p).

Definition fetchByTargetRefLabels (pi : PolicyIndex) (key : TargetRefIndexKey) (onlyBackends : bool)
    (targetLabels : gmap string string) : list PolicyWrapper :=
  pi_available pi ≫= λ c,
    if onlyBackends && negb (pai_for_backends c.2) then []
    else filter (λ p, selects_labels key targetLabels p = true)
           (fetch_index target_keys key (policies_by_target_ref c.2)).

(** ** The order of policies *)

Definition policyAttSortKey (a : PolicyAtt P) : string :=
  match pa_ref a with Some r => apr_id_section r | None => gk_string (pa_gk a) end.

(** The comparator of the final sort. *)
Definition policy_tie (a b : PolicyAtt P) : comparison :=
  match (pi_creation_time (pa_ir a) ?= pi_creation_time (pa_ir b))%Z with
  | Eq => String.compare (policyAttSortKey a) (policyAttSortKey b)
  | c => c
  end.

Definition policy_cmp (a b : PolicyAtt P) : comparison :=
  if bool_decide (pa_gk a = pa_gk b) then
    if bool_decide (pa_weight a > pa_weight b)%Z then Lt
    else if bool_decide (pa_weight a < pa_weight b)%Z then Gt
    else policy_tie a b
  else policy_tie a b.

(** The attachment of a policy; a wrapper without its object panics. *)
Definition policy_att (sectionName : string) (p : PolicyWrapper) : option (PolicyAtt P) :=
  let s := pw_source p in
  o ← pw_policy p;
  Some (mkPA (os_gk s) (obj_generation o) (pw_ir p)
    (Some (mkAPR (os_group s) (os_kind s) (os_name s) (os_namespace s) sectionName))
    UnsetPriority (pw_errors p) 0 (pw_weight p) ∅).

Definition global_atts (pi : PolicyIndex) : list (PolicyAtt P) :=
  omap (λ g, (λ i, mkPA g.1 0 i None UnsetPriority [] 0 0 ∅) <$> g.2) (pi_globals pi).

(** The policies found by name, then by labels in the target's namespace, then
    by labels in the global policy namespace. *)
Definition found_policies (pi : PolicyIndex) (targetRef : ObjectSource) (sectionName : string)
    (onlyBackends : bool) (targetLabels : gmap string string) : list PolicyWrapper :=
  let key n ns := mkTRK (os_group targetRef) (os_kind targetRef) n ns sectionName in
  fetchByTargetRef pi (key (os_name targetRef) (os_namespace targetRef)) onlyBackends ++
  (if bool_decide (targetLabels = ∅) then [] else
     fetchByTargetRefLabels pi (key "" (os_namespace targetRef)) onlyBackends targetLabels ++
     (if negb (String.eqb (pi_global_ns pi) "") &&
         negb (String.eqb (os_namespace targetRef) (pi_global_ns pi))
      then fetchByTargetRefLabels pi (key "" (pi_global_ns pi)) onlyBackends targetLabels
      else [])).

Definition getTargetingPoliciesMaybeForBackends (pi : PolicyIndex) (targetRef : ObjectSource)
    (sectionName : string) (onlyBackends excludeGlobal : bool) (targetLabels : gmap string string) :
    option (list (PolicyAtt P)) :=
  atts ← mapM (policy_att sectionName)
           (found_policies pi targetRef sectionName onlyBackends targetLabels);
  Some (sort_stable policy_cmp ((if excludeGlobal then [] else global_atts pi) ++ atts)).

Definition getTargetingPoliciesForBackends (pi : PolicyIndex) (targetRef : ObjectSource)
    (sectionName : string) (targetLabels : gmap string string) (excludeGlobal : bool) :=
  getTargetingPoliciesMaybeForBackends pi targetRef sectionName true excludeGlobal targetLabels.

Definition GetTargetingPolicies (pi : PolicyIndex) (targetRef : ObjectSource)
    (sectionName : string) (targetLabels : gmap string string) :=
  getTargetingPoliciesMaybeForBackends pi targetRef sectionName false false targetLabels.

(** [fetchPolicy]: a plugin's own lookup first, its wrapper without an object. *)
Definition fetchPolicy (pi : PolicyIndex) (ref : ObjectSource) : option PolicyWrapper :=
  match (pi_fetch pi !! os_gk ref) ≫= λ f, f (os_name ref) (os_namespace ref) with
  | Some polIr => Some (mkPW (mkOS "" "" "" "") None [] polIr [] 0)
  | None =>
      c ← list_find (λ c, c.1 = os_gk ref) (pi_available pi);
      fetch_one (λ p, os_resource_name (pw_source p)) (os_resource_name ref) (pai_policies c.2.2)
  end.

(** ** Attachment *)

(** [ToAttachedPolicies]: a fresh attachment per policy, grouped by kind. *)
Definition fresh_att (opts : list (PolicyAtt P → PolicyAtt P)) (p : PolicyAtt P) : PolicyAtt P :=
  foldl (λ a o, o a)
    (mkPA (pa_gk p) (pa_generation p) (pa_ir p) (pa_ref p) UnsetPriority (pa_errors p) 0
          (pa_weight p) ∅) opts.

Definition ToAttachedPolicies (policies : list (PolicyAtt P)) (opts : list (PolicyAtt P → PolicyAtt P)) :
    AttachedPolicies P :=
  foldl (λ ret p, <[pa_gk p := default [] (ret !! pa_gk p) ++ [fresh_att opts p]]> ret) ∅ policies.

Definition preferPortSpecificBackendTLSPolicies (base port : list (PolicyAtt P)) : list (PolicyAtt P) :=
  if existsb (λ p, bool_decide (pa_gk p = BackendTLSPolicyGK)) port
  then filter (λ p, pa_gk p ≠ BackendTLSPolicyGK) base
  else base.

(** The policies of one name of a backend: service-wide, then port-specific. *)
Definition name_policies (pi : PolicyIndex) (src : ObjectSource) (portName : string)
    (labels : gmap string string) (excludeGlobal : bool) : option (list (PolicyAtt P)) :=
  base ← getTargetingPoliciesForBackends pi src "" labels excludeGlobal;
  if String.eqb portName "" then Some base
  else
    port ← getTargetingPoliciesForBackends pi src portName labels true;
    Some (preferPortSpecificBackendTLSPolicies base port ++ port).

(** [BackendObjectIR.GetObjectLabels]. *)
Definition backend_labels (b : BackendObjectIR P) : gmap string string :=
  match bo_obj b with None => ∅ | Some o => obj_labels o end.

(** An alias without a namespace is looked up in the backend's. *)
Definition alias_source (b : BackendObjectIR P) (a : ObjectSource) : ObjectSource :=
  mkOS (os_group a) (os_kind a)
    (if String.eqb (os_namespace a) "" then os_namespace (bo_source b) else os_namespace a) (os_name a).

Definition set_policies (b : BackendObjectIR P) (req : bool) (ap : AttachedPolicies P) :
    BackendObjectIR P :=
  mkBackend (bo_source b) (bo_port b) (bo_port_name b) (bo_app_protocol b) (bo_canonical_hostname b)
    (bo_gv_prefix b) (bo_obj b) (bo_aliases b) (bo_extra_key b) req ap (bo_errors b)
    (bo_traffic_distribution b) (bo_disable_istio_mtls b) (bo_resource_name b) (bo_cluster_name b)
    (bo_client_cert b) (bo_supported_route_kinds b).

(** One turn of the loop over the aliases: the policies so far and whether one
    of them has a reference. *)
Definition alias_policies_step (pi : PolicyIndex) (b : BackendObjectIR P)
    (acc : list (PolicyAtt P) * bool) (a : ObjectSource) : option (list (PolicyAtt P) * bool) :=
  ps ← name_policies pi (alias_source b a) (bo_port_name b) (backend_labels b) true;
  Some (acc.1 ++ ps, acc.2 || existsb (λ p, bool_decide (is_Some (pa_ref p))) ps).

Definition attachPoliciesToBackend (pi : PolicyIndex) (b : BackendObjectIR P) :
    option (BackendObjectIR P) :=
  own ← name_policies pi (bo_source b) (bo_port_name b) (backend_labels b) false;
  '(policies, anyHasRef) ←
    foldM (alias_policies_step pi b)
      (own, existsb (λ p, bool_decide (is_Some (pa_ref p))) own) (bo_aliases b);
  Some (set_policies b anyHasRef (ToAttachedPolicies policies [])).

(** [AddBackends]: registers the collection with its policies attached and the
    kinds that alias it. *)
Definition AddBackends (pi : PolicyIndex) (i : BackendIndex P) (gk : GroupKind)
    (col : list (BackendObjectIR P)) (aliasKinds : list GroupKind) : option (BackendIndex P) :=
  col' ← mapM (attachPoliciesToBackend pi) col;
  Some (mkBI (<[gk := col']> (bi_cols i))
    (foldl (λ m a, <[a := default [] (m !! a) ++ [gk]]> m) (bi_gk_aliases i) aliasKinds)
    (bi_refgrants i)).

(** ** Lemmas: grouping by kind *)

Lemma fold_attach_get opts ps (m : AttachedPolicies P) gk :
  ap_get (foldl (λ ret p, <[pa_gk p := default [] (ret !! pa_gk p) ++ [fresh_att opts p]]> ret) m ps) gk =
  ap_get m gk ++ map (fresh_att opts) (filter (λ p, pa_gk p = gk) ps).
Proof.
  revert m. induction ps as [|p ps IH]; intros m; cbn [foldl]; [by rewrite filter_nil, app_nil_r|].
  rewrite IH, filter_cons. unfold ap_get. case_decide as Hgk.
  - subst gk. rewrite lookup_insert_eq. simpl. by rewrite <- app_assoc.
  - by rewrite lookup_insert_ne.
Qed.

Lemma ToAttachedPolicies_get ps opts gk :
  ap_get (ToAttachedPolicies ps opts) gk = map (fresh_att opts) (filter (λ p, pa_gk p = gk) ps).
Proof. unfold ToAttachedPolicies. by rewrite fold_attach_get. Qed.

Lemma fresh_att_ref p : pa_ref (fresh_att [] p) = pa_ref p.
Proof. done. Qed.

(** ** Lemmas: targeting *)

(** The rule of attachment: a target ref of the policy names the object, or
    selects its labels from its own or the global policy namespace. *)
Definition targets (pi : PolicyIndex) (p : PolicyWrapper) (o : ObjectSource) (sectionName : string)
    (labels : gmap string string) : Prop :=
  ∃ t, t ∈ pw_target_refs p ∧ tr_group t = os_group o ∧ tr_kind t = os_kind o ∧
    tr_section t = sectionName ∧
    ((tr_name t = os_name o ∧ os_namespace (pw_source p) = os_namespace o) ∨
     (labels ≠ ∅ ∧ labels_match (tr_match_labels t) labels = true ∧
      (os_namespace (pw_source p) = os_namespace o ∨
       (os_namespace (pw_source p) = pi_global_ns pi ∧ pi_global_ns pi ≠ "")))).

(** The policies a lookup considers. *)
Definition registered (pi : PolicyIndex) (onlyBackends : bool) (p : PolicyWrapper) : Prop :=
  ∃ c, c ∈ pi_available pi ∧ (onlyBackends = true → pai_for_backends c.2 = true) ∧
       p ∈ pai_policies c.2.

Lemma elem_of_target_keys g k n ns s p :
  mkTRK g k n ns s ∈ target_keys p ↔
  os_namespace (pw_source p) = ns ∧
  ∃ t, t ∈ pw_target_refs p ∧ tr_group t = g ∧ tr_kind t = k ∧ tr_section t = s ∧
       (tr_name t = n ∨ n = "").
Proof.
  unfold target_keys. rewrite elem_of_app, !list_elem_of_fmap. split.
  - intros [(t & [= -> -> -> -> ->] & Ht)|(t & [= -> -> -> -> ->] & Ht)]; naive_solver.
  - intros (<- & t & Ht & <- & <- & <- & [<-| ->]); [left|right]; eauto.
Qed.

Lemma elem_of_available pi onlyBackends (f : policyAndIndex → list PolicyWrapper) p :
  p ∈ (pi_available pi ≫= λ c, if onlyBackends && negb (pai_for_backends c.2) then [] else f c.2) ↔
  ∃ c, c ∈ pi_available pi ∧ (onlyBackends = true → pai_for_backends c.2 = true) ∧ p ∈ f c.2.
Proof.
  rewrite list_elem_of_bind. split; intros (c & Hc); exists c.
  - destruct Hc as [Hp Hc]. split; [done|].
    destruct onlyBackends, (pai_for_backends c.2); simpl in *; try done.
    by apply not_elem_of_nil in Hp.
  - destruct Hc as (Hc & Hb & Hp). split; [|done].
    destruct onlyBackends; [rewrite Hb by done|]; done.
Qed.

Lemma elem_of_fetchByTargetRef pi g k n ns s ob p :
  n ≠ "" →
  p ∈ fetchByTargetRef pi (mkTRK g k n ns s) ob ↔
  registered pi ob p ∧ os_namespace (pw_source p) = ns ∧
  ∃ t, t ∈ pw_target_refs p ∧ tr_group t = g ∧ tr_kind t = k ∧ tr_section t = s ∧ tr_name t = n.
Proof.
  intros Hn. etransitivity;
    [exact (elem_of_available pi ob
       (λ c, fetch_index target_keys (mkTRK g k n ns s) (policies_by_target_ref c)) p)|].
  unfold registered.
  setoid_rewrite elem_of_fetch_index. setoid_rewrite elem_of_target_keys.
  unfold policies_by_target_ref. setoid_rewrite list_elem_of_filter. split.
  - naive_solver.
  - intros ((c & Hc & Hb & Hp) & Hns & t & Ht & ?). exists c. split_and!; try done; [|naive_solver].
    intros Hnil. rewrite Hnil in Ht. by apply not_elem_of_nil in Ht.
Qed.

Lemma elem_of_fetchByTargetRefLabels pi g k ns s ob labels p :
  p ∈ fetchByTargetRefLabels pi (mkTRK g k "" ns s) ob labels ↔
  registered pi ob p ∧ os_namespace (pw_source p) = ns ∧
  ∃ t, t ∈ pw_target_refs p ∧ tr_group t = g ∧ tr_kind t = k ∧ tr_section t = s ∧
       labels_match (tr_match_labels t) labels = true.
Proof.
  etransitivity;
    [exact (elem_of_available pi ob
       (λ c, filter (λ p, selects_labels (mkTRK g k "" ns s) labels p = true)
          (fetch_index target_keys (mkTRK g k "" ns s) (policies_by_target_ref c))) p)|].
  unfold registered.
  setoid_rewrite list_elem_of_filter. setoid_rewrite elem_of_fetch_index.
  setoid_rewrite elem_of_target_keys.
  unfold policies_by_target_ref, selects_labels. setoid_rewrite list_elem_of_filter.
  setoid_rewrite existsb_exists. setoid_rewrite <- list_elem_of_In.
  setoid_rewrite andb_true_iff. setoid_rewrite bool_decide_eq_true. split.
  - intros (c & Hc & Hb & (t & Ht & [= -> -> <- ->] & Hm) & (_ & Hp) & _). naive_solver.
  - intros ((c & Hc & Hb & Hp) & <- & t & Ht & <- & <- & <- & Hm).
    exists c. split_and!; try done; [by exists t| |exists t; naive_solver].
    intros Hnil. rewrite Hnil in Ht. by apply not_elem_of_nil in Ht.
Qed.

(** A policy is found for an object exactly when it is registered (for
    backends, with a plugin that processes backends) and one of its target refs
    names the object in its own namespace, or selects the object's labels from
    the object's namespace or from the global policy namespace; the section
    name always has to agree. *)
Theorem found_policies_iff pi o sectionName ob labels p :
  os_name o ≠ "" →
  p ∈ found_policies pi o sectionName ob labels ↔
  registered pi ob p ∧ targets pi p o sectionName labels.
Proof.
  intros Hn. unfold found_policies, targets.
  rewrite elem_of_app, elem_of_fetchByTargetRef by done.
  case_bool_decide as Hl.
  { rewrite elem_of_nil. naive_solver. }
  rewrite elem_of_app, elem_of_fetchByTargetRefLabels.
  destruct (_ && _) eqn:Hg.
  - rewrite elem_of_fetchByTargetRefLabels. bool_hyps. naive_solver.
  - rewrite elem_of_nil. apply andb_false_iff in Hg. setoid_rewrite negb_false_iff in Hg.
    setoid_rewrite String.eqb_eq in Hg.
    assert (∀ ns, ns = os_namespace o ∨ (ns = pi_global_ns pi ∧ pi_global_ns pi ≠ "") ↔
                  ns = os_namespace o) as Hns by (intros ns; destruct Hg; naive_solver congruence).
    setoid_rewrite Hns. clear Hg Hns. naive_solver.
Qed.

(** ** Lemmas: the order *)

Definition tie_order : PolicyAtt P → PolicyAtt P → comparison :=
  (cmp_on (λ a, pi_creation_time (pa_ir a)) Z.compare ▷ cmp_on policyAttSortKey String.compare)%cmp.

(** The documented order: weight first, then age, then identity. *)
Definition weight_order : PolicyAtt P → PolicyAtt P → comparison :=
  (cmp_desc (cmp_on pa_weight Z.compare) ▷ tie_order)%cmp.

#[local] Instance tie_order_wo : WeakOrder tie_order.
Proof. unfold tie_order. apply _. Qed.
#[local] Instance weight_order_wo : WeakOrder weight_order.
Proof. unfold weight_order. apply _. Qed.

Lemma policy_tie_order a b : policy_tie a b = tie_order a b.
Proof. unfold policy_tie, tie_order, then_cmp, cmp_on. by destruct (_ ?= _)%Z. Qed.

Lemma policy_cmp_same_kind a b : pa_gk a = pa_gk b → policy_cmp a b = weight_order a b.
Proof.
  intros Hgk. unfold policy_cmp, weight_order. rewrite bool_decide_eq_true_2 by done.
  unfold then_cmp, cmp_desc at 1, cmp_on at 1.
  destruct (Z.compare_spec (pa_weight b) (pa_weight a)) as [He|Hlt|Hgt].
  - rewrite !bool_decide_eq_false_2 by lia. apply policy_tie_order.
  - by rewrite bool_decide_eq_true_2 by lia.
  - rewrite bool_decide_eq_false_2 by lia. by rewrite bool_decide_eq_true_2 by lia.
Qed.

Lemma policy_cmp_tie a b : (pa_gk a = pa_gk b → pa_weight a = pa_weight b) → policy_cmp a b = tie_order a b.
Proof.
  intros Hw. unfold policy_cmp. case_bool_decide as Hgk; [|apply policy_tie_order].
  rewrite !bool_decide_eq_false_2 by (rewrite Hw by done; lia). apply policy_tie_order.
Qed.

(** The order that governs a list: by weight for the policies of one kind, by
    age and identity when the policies of each kind weigh the same. *)
Inductive governed : (PolicyAtt P → PolicyAtt P → comparison) → list (PolicyAtt P) → Prop :=
| governed_one_kind l :
    (∀ a b, a ∈ l → b ∈ l → pa_gk a = pa_gk b) → governed weight_order l
| governed_even_weights l :
    (∀ a b, a ∈ l → b ∈ l → pa_gk a = pa_gk b → pa_weight a = pa_weight b) → governed tie_order l.

Lemma governed_wo c l : governed c l → WeakOrder c.
Proof. destruct 1; apply _. Qed.

Lemma governed_sort c l : governed c l → sort_stable policy_cmp l = sort_stable c l.
Proof.
  destruct 1 as [l Hg|l Hw]; apply sort_stable_ext; intros a b Ha Hb.
  - by apply policy_cmp_same_kind, Hg.
  - by apply policy_cmp_tie, Hw.
Qed.

Lemma governed_perm c l1 l2 : l1 ≡ₚ l2 → governed c l1 → governed c l2.
Proof.
  intros Hp. destruct 1 as [l Hg|l Hw]; constructor; intros a b; rewrite <- Hp; auto.
Qed.

Lemma governed_key c l a b : governed c l → c a b = Eq → policyAttSortKey a = policyAttSortKey b.
Proof.
  assert (tie_order a b = Eq → policyAttSortKey a = policyAttSortKey b) as Htie.
  { unfold tie_order, then_cmp. destruct (cmp_on _ Z.compare a b); [|done|done].
    apply string_cmp_on_eq. }
  destruct 1; [|done]. unfold weight_order, then_cmp. by destruct (cmp_desc _ a b).
Qed.

Lemma mapM_omap {A B} (f : A → option B) l k : mapM f l = Some k → k = omap f l.
Proof.
  revert k. induction l as [|x l IH]; intros k; simpl; [by intros [= <-]|].
  intros (y & -> & (ys & Hys & [= <-])%bind_Some)%bind_Some.
  f_equal. by apply IH.
Qed.

Lemma found_policies_perm pi1 pi2 o s ob labels :
  pi_available pi1 ≡ₚ pi_available pi2 → pi_global_ns pi1 = pi_global_ns pi2 →
  found_policies pi1 o s ob labels ≡ₚ found_policies pi2 o s ob labels.
Proof.
  intros Hp Hns. unfold found_policies, fetchByTargetRef, fetchByTargetRefLabels.
  rewrite Hns. apply Permutation_app; [by rewrite Hp|].
  case_bool_decide; [done|]. apply Permutation_app; [by rewrite Hp|].
  case_match; [by rewrite Hp|done].
Qed.

(** The policies of an object come out sorted by the order that governs
    them, and their order does not depend on the iteration order of the maps of
    policy collections and global policies. *)
Theorem policy_order_deterministic pi1 pi2 o s ob eg labels r1 r2 c :
  pi_available pi1 ≡ₚ pi_available pi2 → pi_globals pi1 ≡ₚ pi_globals pi2 →
  pi_global_ns pi1 = pi_global_ns pi2 →
  getTargetingPoliciesMaybeForBackends pi1 o s ob eg labels = Some r1 →
  getTargetingPoliciesMaybeForBackends pi2 o s ob eg labels = Some r2 →
  governed c r1 →
  (∀ a b, a ∈ r1 → b ∈ r1 → policyAttSortKey a = policyAttSortKey b → a = b) →
  r1 = r2 ∧ StronglySorted (cmp_le c) r1.
Proof.
  intros Hav Hgl Hns H1 H2 Hgov Hkey. unfold getTargetingPoliciesMaybeForBackends in *.
  apply bind_Some in H1 as (k1 & Hk1 & [= <-]). apply bind_Some in H2 as (k2 & Hk2 & [= <-]).
  set (l1 := _ ++ k1) in *. set (l2 := _ ++ k2).
  assert (l1 ≡ₚ l2) as Hp.
  { unfold l1, l2. rewrite (mapM_omap _ _ _ Hk1), (mapM_omap _ _ _ Hk2). f_equiv.
    - destruct eg; [done|]. unfold global_atts. by rewrite Hgl.
    - by rewrite (found_policies_perm pi1 pi2). }
  assert (governed c l1) as Hg1 by (eapply governed_perm; [apply sort_stable_perm|done]).
  pose proof (governed_wo _ _ Hg1) as Hwo.
  rewrite (governed_sort c l1 Hg1), (governed_sort c l2) by (by eapply governed_perm).
  split; [|apply (sort_stable_sorted c)]. apply (sort_stable_perm_eq c); [|done].
  intros a b Ha Hb He. apply Hkey; [by apply sort_stable_elem_of|by apply sort_stable_elem_of|].
  by eapply governed_key.
Qed.

(** ** Backends *)

(** The attachment rule for one name of a backend: of the BackendTLSPolicies the
    port-specific ones shadow the service-wide ones; of any other kind both
    apply, service-wide first. *)
Definition winning (pi : PolicyIndex) (gk : GroupKind) (src : ObjectSource) (portName : string)
    (labels : gmap string string) (excludeGlobal : bool) : list (PolicyAtt P) :=
  let kind := filter (λ p, pa_gk p = gk) in
  let base := kind (default [] (getTargetingPoliciesForBackends pi src "" labels excludeGlobal)) in
  if String.eqb portName "" then base
  else
    let port := kind (default [] (getTargetingPoliciesForBackends pi src portName labels true)) in
    if decide (gk = BackendTLSPolicyGK ∧ port ≠ []) then port else base ++ port.

Lemma prefer_port_kind base port gk :
  filter (λ p, pa_gk p = gk) (preferPortSpecificBackendTLSPolicies base port) =
  if decide (gk = BackendTLSPolicyGK ∧ filter (λ p, pa_gk p = gk) port ≠ []) then []
  else filter (λ p, pa_gk p = gk) base.
Proof.
  unfold preferPortSpecificBackendTLSPolicies.
  assert (existsb (λ p, bool_decide (pa_gk p = BackendTLSPolicyGK)) port = true ↔
          filter (λ p, pa_gk p = BackendTLSPolicyGK) port ≠ []) as Hex.
  { rewrite existsb_exists. setoid_rewrite <- list_elem_of_In. setoid_rewrite bool_decide_eq_true.
    split.
    - intros (x & Hx & Hk) Hnil. assert (x ∈ filter (λ p, pa_gk p = BackendTLSPolicyGK) port) as Hin
        by (by apply list_elem_of_filter). rewrite Hnil in Hin. by apply not_elem_of_nil in Hin.
    - destruct (filter _ port) as [|x l] eqn:Hf; [done|]. intros _. exists x.
      assert (x ∈ filter (λ p, pa_gk p = BackendTLSPolicyGK) port) as Hin by (rewrite Hf; by left).
      apply list_elem_of_filter in Hin. tauto. }
  destruct (existsb _ port) eqn:He.
  - case_decide as Hd.
    + destruct Hd as [-> _]. apply elem_of_nil_inv. intros x [Hx [Hx' _]%list_elem_of_filter]%list_elem_of_filter. done.
    + rewrite list_filter_filter_l; [done|]. intros x <- Hk. apply Hd. split; [done|].
      rewrite Hk. by apply Hex.
  - rewrite decide_False; [done|]. intros [-> Hne]. apply Hex in Hne. congruence.
Qed.

Lemma name_policies_winning pi src portName labels eg ps gk :
  name_policies pi src portName labels eg = Some ps →
  filter (λ p, pa_gk p = gk) ps = winning pi gk src portName labels eg.
Proof.
  unfold name_policies, winning. intros (base & -> & Hb)%bind_Some. simpl.
  destruct (String.eqb portName ""); [by simplify_eq|].
  apply bind_Some in Hb as (port & -> & [= <-]). simpl.
  rewrite filter_app, prefer_port_kind. by case_decide.
Qed.

Lemma alias_policies_loop pi b l acc acc' :
  foldM (alias_policies_step pi b) acc l = Some acc' →
  acc.2 = existsb (λ p, bool_decide (is_Some (pa_ref p))) acc.1 →
  acc'.2 = existsb (λ p, bool_decide (is_Some (pa_ref p))) acc'.1 ∧
  ∀ gk, filter (λ p, pa_gk p = gk) acc'.1 =
        filter (λ p, pa_gk p = gk) acc.1 ++
        (l ≫= λ a, winning pi gk (alias_source b a) (bo_port_name b) (backend_labels b) true).
Proof.
  revert acc. induction l as [|a l IH]; intros acc H Hacc; cbn [foldM] in H.
  { simplify_eq. split; [done|]. intros gk. by rewrite app_nil_r. }
  apply bind_Some in H as (acc1 & Hs & H). unfold alias_policies_step in Hs.
  apply bind_Some in Hs as (ps & Hps & [= <-]).
  apply IH in H as [Hr Hk]; [|simpl; by rewrite existsb_app, Hacc].
  split; [done|]. intros gk. rewrite (Hk gk). simpl.
  by rewrite filter_app, (name_policies_winning _ _ _ _ _ _ gk Hps), <- app_assoc.
Qed.

(** The policies of a backend: for each kind, those that target the backend
    followed by those that target its aliases, a port-specific BackendTLSPolicy
    shadowing the service-wide ones of the same name; and the backend asks for
    policy status exactly when an attached policy has a reference to report on. *)
Theorem attached_policies_spec pi b b' :
  attachPoliciesToBackend pi b = Some b' →
  (∀ gk, ap_get (bo_policies b') gk =
     map (fresh_att [])
       (winning pi gk (bo_source b) (bo_port_name b) (backend_labels b) false ++
        (bo_aliases b ≫= λ a, winning pi gk (alias_source b a) (bo_port_name b) (backend_labels b) true))) ∧
  (bo_requires_status b' = true ↔
   ∃ gk p, p ∈ ap_get (bo_policies b') gk ∧ is_Some (pa_ref p)).
Proof.
  unfold attachPoliciesToBackend. intros (own & Hown & H')%bind_Some.
  apply bind_Some in H' as ([ps any] & Hl & [= <-]). simpl.
  apply alias_policies_loop in Hl as [Hany Hk]; [|done]. simpl in Hany, Hk. split.
  - intros gk. rewrite ToAttachedPolicies_get, (Hk gk).
    by rewrite (name_policies_winning _ _ _ _ _ _ gk Hown).
  - rewrite Hany, existsb_exists. setoid_rewrite <- list_elem_of_In.
    setoid_rewrite bool_decide_eq_true. setoid_rewrite ToAttachedPolicies_get.
    setoid_rewrite list_elem_of_fmap. setoid_rewrite list_elem_of_filter. split.
    + intros (p & Hp & Hr). exists (pa_gk p), (fresh_att [] p). split; [by exists p|done].
    + intros (gk & q & (p & -> & _ & Hp) & Hr). by exists p.
Qed.

End policies.

Arguments PolicyIndex : clear implicits.
Arguments PolicyWrapper : clear implicits.

(** ** Witnesses *)

(** Policies whose IR is their creation time; labels match when they agree. *)
#[local] Instance ex_policy_ir : PolicyIrOps Z := {| pi_creation_time t := t |}.
Definition ex_match (sel labels : gmap string string) : bool :=
  bool_decide (sel ≠ ∅ ∧ sel ⊆ labels).

Definition TrafficPolicyGK : GroupKind := mkGK "gateway.kgateway.dev" "TrafficPolicy".
Definition ServiceRef (section : string) : PolicyRef := mkPolicyRef "" "Service" "web" section ∅.

Definition ex_policy (gk : GroupKind) (n : string) (t w : Z) (refs : list PolicyRef) : PolicyWrapper Z :=
  mkPW (mkOS (gk_group gk) (gk_kind gk) "infra" n) (Some (ex_object "infra" n t)) [] t refs w.

Definition ex_index (l : list (GroupKind * policyAndIndex)) : PolicyIndex Z := mkPI "" l ∅ [].
Definition ex_collection (gk : GroupKind) (l : list (PolicyWrapper Z)) : GroupKind * policyAndIndex :=
  (gk, mkPAI l true).
Definition ex_traffic := ex_collection TrafficPolicyGK
  [ex_policy TrafficPolicyGK "light" 1 1 [ServiceRef ""];
   ex_policy TrafficPolicyGK "heavy" 3 5 [ServiceRef ""]].
Definition ex_tls := ex_collection BackendTLSPolicyGK
  [ex_policy BackendTLSPolicyGK "all" 2 0 [ServiceRef ""];
   ex_policy BackendTLSPolicyGK "port" 4 0 [ServiceRef "https"]].
Definition ex_service : ObjectSource := mkOS "" "Service" "infra" "web".

Lemma found_policies_iff_witness :
  registered (ex_index [ex_traffic]) true (ex_policy TrafficPolicyGK "light" 1 1 [ServiceRef ""]).
Proof.
  refine (proj1 (proj1 (found_policies_iff ex_match (ex_index [ex_traffic]) ex_service "" true ∅ _ _) _)).
  - discriminate.
  - vm_compute. left.
Defined.

Definition ex_att (n : string) (t w : Z) : PolicyAtt Z :=
  mkPA TrafficPolicyGK 1 t (Some (mkAPR "gateway.kgateway.dev" "TrafficPolicy" n "infra" ""))
    UnsetPriority [] 0 w ∅.

(** The heavier policy comes first whatever the order of the collections. *)
Lemma policy_order_deterministic_witness :
  getTargetingPoliciesMaybeForBackends ex_match (ex_index [ex_traffic; (BackendTLSPolicyGK, mkPAI [] true)])
    ex_service "" true false ∅ =
  getTargetingPoliciesMaybeForBackends ex_match (ex_index [(BackendTLSPolicyGK, mkPAI [] true); ex_traffic])
    ex_service "" true false ∅.
Proof.
  set (c1 := ex_index [ex_traffic; (BackendTLSPolicyGK, mkPAI [] true)]).
  set (c2 := ex_index [(BackendTLSPolicyGK, mkPAI [] true); ex_traffic]).
  set (r := [ex_att "heavy" 3 5; ex_att "light" 1 1]).
  assert (∀ a, a ∈ r → a = ex_att "heavy" 3 5 ∨ a = ex_att "light" 1 1) as Hr.
  { intros a Ha. apply elem_of_cons in Ha as [->|Ha]; [left; reflexivity|].
    apply list_elem_of_singleton in Ha as ->. right. reflexivity. }
  assert (getTargetingPoliciesMaybeForBackends ex_match c1 ex_service "" true false ∅ = Some r) as H1
    by (vm_compute; reflexivity).
  rewrite H1. symmetry.
  transitivity (Some r); [|reflexivity].
  assert (∃ r2, getTargetingPoliciesMaybeForBackends ex_match c2 ex_service "" true false ∅ = Some r2)
    as (r2 & H2) by (eexists; vm_compute; reflexivity).
  rewrite H2. f_equal. symmetry.
  refine (proj1 (policy_order_deterministic ex_match c1 c2 ex_service "" true false ∅ r r2 weight_order
    _ _ _ H1 H2 _ _)).
  - apply Permutation_swap.
  - reflexivity.
  - reflexivity.
  - constructor. intros a b Ha Hb.
    destruct (Hr a Ha) as [->| ->], (Hr b Hb) as [->| ->]; reflexivity.
  - intros a b Ha Hb.
    destruct (Hr a Ha) as [->| ->], (Hr b Hb) as [->| ->]; intros He;
      first [reflexivity|vm_compute in He; discriminate He].
Defined.

(** A service port: the port-specific BackendTLSPolicy shadows the other. *)
Definition ex_port_backend : BackendObjectIR Z :=
  mkBackend ex_service 443 "https" "" "" "" None [] "" false ∅ [] TDAny false "" "" None [].

Lemma attached_policies_spec_witness :
  ∃ b', attachPoliciesToBackend ex_match (ex_index [ex_traffic; ex_tls]) ex_port_backend = Some b' ∧
        map (λ p, apr_name <$> pa_ref p) (ap_get (bo_policies b') BackendTLSPolicyGK) = [Some "port"].
Proof.
  assert (∃ b', attachPoliciesToBackend ex_match (ex_index [ex_traffic; ex_tls]) ex_port_backend = Some b')
    as (b' & Hb) by (eexists; vm_compute; reflexivity).
  exists b'. split; [exact Hb|].
  rewrite (proj1 (attached_policies_spec ex_match _ _ _ Hb) BackendTLSPolicyGK).
  vm_compute. reflexivity.
Defined.

(** ** The order across kinds

    The comparator weighs policies of one kind only, so it is not transitive,
    and a sort by it depends on the order it is given. *)

Definition traffic_names (pi : PolicyIndex Z) : option (list (option string)) :=
  ps ← getTargetingPoliciesForBackends ex_match pi ex_service "" ∅ false;
  Some (map (λ p, apr_name <$> pa_ref p) (ap_get (ToAttachedPolicies ps []) TrafficPolicyGK)).

(** Across kinds the order is not deterministic and weights can be ignored:
    with an unrelated policy between two TrafficPolicies in age, the heavier one
    comes first or last depending on the iteration order of the map of policy
    collections. *)
Theorem weights_lost_across_kinds :
  let other := ex_collection BackendTLSPolicyGK
    [ex_policy BackendTLSPolicyGK "all" 2 0 [ServiceRef ""]] in
  traffic_names (ex_index [ex_traffic; other]) = Some [Some "heavy"; Some "light"] ∧
  traffic_names (ex_index [other; ex_traffic]) = Some [Some "light"; Some "heavy"].
Proof. vm_compute. auto. Qed.
