(* ===== verification/RoutesIndex.v ===== *)
(** * Routes as the translators see them (pkg/krtcollections/policy.go, grpc_route.go)

    The transformation of HTTPRoute and GRPCRoute resources into [HttpRouteIR]:
    filters become extension policies, backendRefs become resolved backends or
    delegates, gRPC matches become HTTP matches, annotations become the
    inherited-policy priority and the route weight.  The policies built for a
    core filter or for the timeouts, retry and session persistence of a rule
    ([NewBuiltInIr], [NewBuiltInRuleIr] of builtin.go) are parameters, as are the
    payloads of filters and rules they read. *)

From S2P Require Import Prelude IR Delegation References PolicyIndex.

(** ** Annotations *)

Definition InheritedPolicyPriority : string := "kgateway.dev/inherited-policy-priority".
Definition RoutePrecedenceWeight : string := "kgateway.dev/route-weight".

Definition getInheritedPolicyPriority (annotations : gmap string string) : InheritedPolicyPriorityValue :=
  match annotations !! InheritedPolicyPriority with
  | None => ShallowMergePreferChild
  | Some v =>
      if String.eqb v "ShallowMergePreferChild" then ShallowMergePreferChild
      else if String.eqb v "ShallowMergePreferParent" then ShallowMergePreferParent
      else if String.eqb v "DeepMergePreferChild" then DeepMergePreferChild
      else if String.eqb v "DeepMergePreferParent" then DeepMergePreferParent
      else ShallowMergePreferChild
  end.

(** [strconv.ParseInt] in base 10: digits after an optional sign. *)
Definition digit (a : Ascii.ascii) : option Z :=
  let n := Z.of_nat (Ascii.nat_of_ascii a) in
  if bool_decide (48 <= n <= 57)%Z then Some (n - 48)%Z else None.

Fixpoint parse_digits (acc : Z) (s : string) : option Z :=
  match s with
  | EmptyString => Some acc
  | String a s' => d ← digit a; parse_digits (10 * acc + d) s'
  end.

Definition parse_nat (s : string) : option Z :=
  match s with EmptyString => None | _ => parse_digits 0 s end.

(** ... of 32 bits: a value out of range is an error. *)
Definition in_int32 (z : Z) : Prop := (- 2 ^ 31 <= z < 2 ^ 31)%Z.
#[global] Instance in_int32_dec z : Decision (in_int32 z).
Proof. unfold in_int32. apply _. Defined.

Definition parse_int32 (s : string) : option Z :=
  z ← match s with
      | String "-"%char s' => Z.opp <$> parse_nat s'
      | String "+"%char s' => parse_nat s'
      | _ => parse_nat s
      end;
  guard (in_int32 z);; Some z.

Definition ParsePrecedenceWeightAnnotation (annotations : gmap string string) (key : string) : error + Z :=
  match annotations !! key with
  | None => inr 0%Z
  | Some val =>
      match parse_int32 val with
      | None => inl (EMsg ("invalid value for annotation " +:+ key +:+ ": " +:+ val +:+
                           "; must be a valid integer"))
      | Some w => inr w
      end
  end.

(** ** gRPC matches *)

Inductive GRPCMethodMatchType := GRPCExact | GRPCRegex | GRPCOther (s : string).

Record GRPCMethodMatch := mkGM {
  gm_type : option GRPCMethodMatchType; gm_service : option string; gm_method : option string }.

Record GRPCRouteMatch := mkGRM { grm_method : option GRPCMethodMatch; grm_headers : list NamedMatch }.

(** The unset [PathMatchType] is the empty string. *)
Definition buildGRPCPathMatch (method : option GRPCMethodMatch) : string * PathMatchType :=
  match method with
  | None => ("/", PathPrefix)
  | Some m =>
      match default GRPCExact (gm_type m) with
      | GRPCRegex =>
          (match gm_service m, gm_method m with
           | Some s, Some n => "/" +:+ s +:+ "/" +:+ n
           | Some s, None => "/" +:+ s +:+ "/.+"
           | None, Some n => "/.+/" +:+ n
           | None, None => ""
           end, PathRegex)
      | _ =>
          match gm_service m, gm_method m with
          | Some s, Some n => ("/" +:+ s +:+ "/" +:+ n, PathExact)
          | Some s, None => ("/" +:+ s, PathPrefix)
          | None, Some n => ("/.+/" +:+ n, PathRegex)
          | None, None => ("", PathOther "")
          end
      end
  end.

Definition grpcToHTTPRouteMatch (m : GRPCRouteMatch) : HTTPRouteMatch :=
  let '(path, pathType) := buildGRPCPathMatch (grm_method m) in
  mkMatch (Some (mkPath (Some pathType) (Some path))) (grm_headers m) [] None.

(** ** Transformation *)

Section routes.
Context {P : Type} `{PO : PolicyIrOps P}.
Context (labels_match : gmap string string → gmap string string → bool).

(** Payloads of filters and rules, and the policies built from them. *)
Context {FilterBody RuleBody : Type}.

Record LocalObjectReference := mkLOR { lor_group : string; lor_kind : string; lor_name : string }.
Record HTTPRouteFilter := mkFilter {
  f_type : string; f_extension_ref : option LocalObjectReference; f_body : FilterBody }.

Record HTTPBackendRef := mkHBR {
  hbr_ref : BackendObjectReference; hbr_weight : option Z; hbr_filters : list HTTPRouteFilter }.

Record HTTPRouteRule := mkHRR {
  hrr_name : option string; hrr_matches : list HTTPRouteMatch; hrr_filters : list HTTPRouteFilter;
  hrr_backend_refs : list HTTPBackendRef; hrr_body : RuleBody }.

Record HTTPRoute := mkHTTPRoute {
  ht_object : Object; ht_parent_refs : list ParentReference; ht_hostnames : list string;
  ht_rules : list HTTPRouteRule }.

Record GRPCRouteRule := mkGRR {
  grr_name : option string; grr_matches : list GRPCRouteMatch; grr_filters : list HTTPRouteFilter;
  grr_backend_refs : list (BackendObjectReference * option Z); grr_body : RuleBody }.

Record GRPCRoute := mkGRPCRoute {
  gr_object : Object; gr_parent_refs : list ParentReference; gr_hostnames : list string;
  gr_rules : list GRPCRouteRule }.

Context (NewBuiltInIr : HTTPRouteFilter → string → option string → gmap string string → option (error + P)).
Context (NewBuiltInRuleIr : RuleBody → option P).

Record RoutesIndex := mkRIdx {
  ri_policies : @PolicyIndex P; ri_backends : BackendIndex P; ri_weighted : bool }.

(** [backendref.IsHTTPRoute], [IsHTTPRouteDelegationLabelSelector],
    [IsDelegatedHTTPRoute]. *)
Definition IsHTTPRoute (ref : BackendObjectReference) : bool :=
  bool_decide (bor_kind ref = Some HTTPRouteKind) && bool_decide (bor_group ref = Some GatewayGroup).
Definition IsHTTPRouteDelegationLabelSelector (ref : BackendObjectReference) : bool :=
  match bor_group ref, bor_kind ref with
  | Some g, Some k => String.eqb (g +:+ "/" +:+ k) "delegation.kgateway.dev/label"
  | _, _ => false
  end.
Definition IsDelegatedHTTPRoute (ref : BackendObjectReference) : bool :=
  IsHTTPRoute ref || IsHTTPRouteDelegationLabelSelector ref.

(** What a filter resolves to: a policy, an error, or nothing (an ExtensionRef
    filter without its reference).  A policy a plugin fetched itself has no
    object, and reading its generation panics. *)
Definition resolveExtension (h : RoutesIndex) (ns : string) (ext : HTTPRouteFilter)
    (ruleName : option string) (annotations : gmap string string) : option (option (error + PolicyAtt P)) :=
  if String.eqb (f_type ext) "ExtensionRef" then
    match f_extension_ref ext with
    | None => Some None
    | Some ref =>
        let key := mkOS (lor_group ref) (lor_kind ref) ns (lor_name ref) in
        match fetchPolicy (ri_policies h) key with
        | None => Some (Some (inl (EWrap (os_resource_name key +:+ ": ") (ESentinel ErrPolicyNotFound))))
        | Some policy =>
            o ← pw_policy policy;
            Some (Some (inr (mkPA (mkGK (lor_group ref) (lor_kind ref)) (obj_generation o)
              (pw_ir policy) (Some (mkAPR (lor_group ref) (lor_kind ref) (lor_name ref) ns ""))
              UnsetPriority (pw_errors policy) 0 (pw_weight policy) ∅)))
        end
    end
  else
    r ← NewBuiltInIr ext ns ruleName annotations;
    Some (Some (match r with
                | inl e => inl e
                | inr p => inr (mkPA VirtualBuiltInGK 0 p None UnsetPriority [] 0 0 ∅)
                end)).

(** One turn of the loop of [getExtensionRefs]. *)
Definition extension_step (h : RoutesIndex) (ns : string) (ruleName : option string)
    (annotations : gmap string string) (opts : list (PolicyAtt P → PolicyAtt P))
    (acc : AttachedPolicies P * list error) (ext : HTTPRouteFilter) :
    option (AttachedPolicies P * list error) :=
  r ← resolveExtension h ns ext ruleName annotations;
  Some (match r with
        | None => acc
        | Some (inl e) => (acc.1, acc.2 ++ [e])
        | Some (inr p) =>
            let p' := foldl (λ a o, o a) p opts in
            (<[pa_gk p' := default [] (acc.1 !! pa_gk p') ++ [p']]> acc.1, acc.2)
        end).

(** [errors.Join]: nil when there is nothing to join. *)
Definition join_errors (errs : list error) : option error :=
  match errs with [] => None | _ => Some (EJoin errs) end.

Definition getExtensionRefs (h : RoutesIndex) (ns : string) (filters : list HTTPRouteFilter)
    (ruleName : option string) (annotations : gmap string string)
    (opts : list (PolicyAtt P → PolicyAtt P)) : option (AttachedPolicies P * option error) :=
  '(ret, errs) ← foldM (extension_step h ns ruleName annotations opts) (∅, []) filters;
  Some (ret, join_errors errs).

(** The attachment is filed under the built-in kind; its own kind stays unset. *)
Definition getBuiltInRulePolicies (body : RuleBody) (opts : list (PolicyAtt P → PolicyAtt P)) :
    AttachedPolicies P :=
  match NewBuiltInRuleIr body with
  | None => ∅
  | Some policy =>
      {[ VirtualBuiltInGK :=
           [foldl (λ a o, o a) (mkPA (mkGK "" "") 0 policy None UnsetPriority [] 0 0 ∅) opts] ]}
  end.

Definition backend_ref_ir (r : option (BackendObjectIR P) * string * option error) (w : option Z) :
    BackendRefIR P :=
  let '(backend, clusterName, err) := r in mkBackendRef clusterName (weight w) backend err.

Definition get_backend_or_delegate (h : RoutesIndex) (src : ObjectSource) (ref : HTTPBackendRef) :
    option (HttpBackendOrDelegate P) :=
  '(extensionRefs, _) ← getExtensionRefs h (os_namespace src) (hbr_filters ref) None ∅ [];
  if IsDelegatedHTTPRoute (hbr_ref ref) then
    Some (mkBOD extensionRefs None (Some (toFromBackendRef (os_namespace src) (hbr_ref ref))))
  else
    r ← resolveRouteBackend (ri_backends h) src (hbr_ref ref);
    Some (mkBOD extensionRefs (Some (backend_ref_ir r (hbr_weight ref))) None).

Definition getBackends (h : RoutesIndex) (src : ObjectSource) (refs : list HTTPBackendRef) :
    option (list (HttpBackendOrDelegate P)) := mapM (get_backend_or_delegate h src) refs.

(** Policies that target the rule by its name, then the built-in ones. *)
Definition rule_policies (h : RoutesIndex) (src : ObjectSource) (name : option string)
    (labels : gmap string string) (body : RuleBody) (opts bopts : list (PolicyAtt P → PolicyAtt P)) :
    option (AttachedPolicies P) :=
  named ← match name with
          | None => Some ∅
          | Some n => ps ← GetTargetingPolicies labels_match (ri_policies h) src n labels;
                      Some (ToAttachedPolicies ps opts)
          end;
  Some (ap_append named [getBuiltInRulePolicies body bopts]).

Definition transform_rule (h : RoutesIndex) (src : ObjectSource) (labels annotations : gmap string string)
    (opts : list (PolicyAtt P → PolicyAtt P)) (r : HTTPRouteRule) : option (HttpRouteRuleIR P) :=
  '(extensionRefs, err) ← getExtensionRefs h (os_namespace src) (hrr_filters r) (hrr_name r) annotations opts;
  policies ← rule_policies h src (hrr_name r) labels (hrr_body r) opts opts;
  backends ← getBackends h src (hrr_backend_refs r);
  Some (mkRule extensionRefs policies backends (hrr_matches r) (str_or (hrr_name r) "") err).

Definition transformRules (h : RoutesIndex) (src : ObjectSource) (rules : list HTTPRouteRule)
    (labels annotations : gmap string string) (opts : list (PolicyAtt P → PolicyAtt P)) :
    option (list (HttpRouteRuleIR P)) := mapM (transform_rule h src labels annotations opts) rules.

Definition transformHttpRoute (h : RoutesIndex) (i : HTTPRoute) : option (HttpRouteIR P) :=
  let o := ht_object i in
  let src := mkOS GatewayGroup HTTPRouteKind (obj_namespace o) (obj_name o) in
  let opts := [pa_set_inherited (getInheritedPolicyPriority (obj_annotations o))] in
  let w := if ri_weighted h then
             match ParsePrecedenceWeightAnnotation (obj_annotations o) RoutePrecedenceWeight with
             | inl _ => 0%Z | inr w => w
             end
           else 0%Z in
  rules ← transformRules h src (ht_rules i) (obj_labels o) (obj_annotations o) opts;
  ps ← GetTargetingPolicies labels_match (ri_policies h) src "" (obj_labels o);
  Some (mkHttpRoute src o (ht_parent_refs i) (ht_hostnames i) (ToAttachedPolicies ps opts) rules w
          (ShouldInheritParentMatcher (obj_annotations o))).

(** *** GRPCRoutes *)

(** [convertFiltersToHTTP] drops the extension reference. *)
Definition convertFiltersToHTTP (filters : list HTTPRouteFilter) : list HTTPRouteFilter :=
  map (λ f, mkFilter (f_type f) None (f_body f)) filters.

Definition convertGRPCBackendsToHTTP (h : RoutesIndex) (src : ObjectSource)
    (refs : list (BackendObjectReference * option Z)) : option (list (HttpBackendOrDelegate P)) :=
  mapM (λ ref, r ← resolveRouteBackend (ri_backends h) src ref.1;
               Some (mkBOD ∅ (Some (backend_ref_ir r ref.2)) None)) refs.

Definition transform_grpc_rule (h : RoutesIndex) (src : ObjectSource)
    (labels annotations : gmap string string) (r : GRPCRouteRule) : option (HttpRouteRuleIR P) :=
  backends ← convertGRPCBackendsToHTTP h src (grr_backend_refs r);
  '(extensionRefs, _) ← getExtensionRefs h (os_namespace src) (convertFiltersToHTTP (grr_filters r))
                          (grr_name r) annotations [];
  policies ← rule_policies h src (grr_name r) labels (grr_body r) [] [];
  Some (mkRule extensionRefs policies backends (map grpcToHTTPRouteMatch (grr_matches r))
          (str_or (grr_name r) "") None).

Definition transformGRPCRoute (h : RoutesIndex) (i : GRPCRoute) : option (HttpRouteIR P) :=
  let o := gr_object i in
  let src := mkOS GatewayGroup "GRPCRoute" (obj_namespace o) (obj_name o) in
  rules ← mapM (transform_grpc_rule h src (obj_labels o) (obj_annotations o)) (gr_rules i);
  ps ← GetTargetingPolicies labels_match (ri_policies h) src "" (obj_labels o);
  Some (mkHttpRoute src o (gr_parent_refs i) (gr_hostnames i) (ToAttachedPolicies ps []) rules 0 false).

(** ** Lemmas: extension policies *)

(** What the filters of a rule resolve to, in order. *)
Definition resolutions (h : RoutesIndex) (ns : string) (ruleName : option string)
    (annotations : gmap string string) (filters : list HTTPRouteFilter) : list (error + PolicyAtt P) :=
  omap (λ f, mjoin (resolveExtension h ns f ruleName annotations)) filters.

Lemma extension_loop h ns rn ann opts filters acc acc' :
  foldM (extension_step h ns rn ann opts) acc filters = Some acc' →
  let rs := resolutions h ns rn ann filters in
  (∀ gk, ap_get acc'.1 gk =
         ap_get acc.1 gk ++ filter (λ p, pa_gk p = gk)
           (map (λ p, foldl (λ a o, o a) p opts) (omap (maybe inr) rs))) ∧
  acc'.2 = acc.2 ++ omap (maybe inl) rs.
Proof.
  revert acc. induction filters as [|f fs IH]; intros acc H; cbn [foldM] in H.
  { simplify_eq. split; [intros gk; simpl; by rewrite filter_nil, app_nil_r|by rewrite app_nil_r]. }
  apply bind_Some in H as (acc1 & Hs & H). unfold extension_step in Hs.
  apply bind_Some in Hs as (r & Hr & [= <-]). apply IH in H as [Hp He].
  unfold resolutions. cbn [omap list_omap]. rewrite Hr. cbn [mjoin option_join].
  destruct r as [[e|p]|]; cbn [omap list_omap maybe maybe_inl maybe_inr fst snd map] in *.
  - split; [done|]. by rewrite He, <- app_assoc.
  - split; [|done]. intros gk. rewrite (Hp gk), filter_cons. unfold ap_get.
    case_decide as Hgk.
    + subst gk. rewrite lookup_insert_eq. simpl. by rewrite <- app_assoc.
    + by rewrite lookup_insert_ne.
  - done.
Qed.

(** No filter is lost: the extension policies of a rule are, kind by kind
    and in order, those its filters resolve to, stamped with the attachment
    options, and the rule's error joins exactly the errors of the filters that
    did not resolve. *)
Theorem extension_refs_exact h ns rn ann opts filters ret err :
  getExtensionRefs h ns filters rn ann opts = Some (ret, err) →
  let rs := resolutions h ns rn ann filters in
  (∀ gk, ap_get ret gk =
         filter (λ p, pa_gk p = gk)
           (map (λ p, foldl (λ a o, o a) p opts) (omap (maybe inr) rs))) ∧
  err = join_errors (omap (maybe inl) rs).
Proof.
  unfold getExtensionRefs. intros ([m es] & Hl & [= <- <-])%bind_Some.
  apply extension_loop in Hl as [Hp He]. simpl in Hp, He. split; [done|by rewrite He].
Qed.

(** ** Backends of a route *)

(** The backendRefs of a rule, as written. *)
Definition backends_safe (h : RoutesIndex) (r : HttpRouteIR P) : Prop :=
  ∀ rule bd br, rule ∈ hr_rules r → bd ∈ rr_backends rule → bd_backend bd = Some br →
  ∃ ref, resolved_safely (ri_backends h) (hr_source r) ref (br_object br) (br_cluster br) (br_err br).

Lemma mapM_elem {A B} (f : A → option B) l k y : mapM f l = Some k → y ∈ k → ∃ x, x ∈ l ∧ f x = Some y.
Proof.
  intros Hm Hy. apply mapM_omap in Hm as ->. apply list_elem_of_omap in Hy as (x & ? & ?). eauto.
Qed.

Lemma backend_ref_ir_safe h src ref r w :
  resolveRouteBackend (ri_backends h) src ref = Some r →
  resolved_safely (ri_backends h) src ref (br_object (backend_ref_ir r w))
    (br_cluster (backend_ref_ir r w)) (br_err (backend_ref_ir r w)).
Proof. destruct r as [[b c] e]. apply resolve_safe. Qed.

Lemma http_backends_safe h i r : transformHttpRoute h i = Some r → backends_safe h r.
Proof.
  unfold transformHttpRoute. intros (rules & Hr & (ps & _ & [= <-])%bind_Some)%bind_Some.
  intros rule bd br Hrule Hbd Hbr. simpl in *.
  destruct (mapM_elem _ _ _ _ Hr Hrule) as (x & _ & Hx). unfold transform_rule in Hx.
  apply bind_Some in Hx as ([ers e] & _ & Hx). apply bind_Some in Hx as (pol & _ & Hx).
  apply bind_Some in Hx as (bs & Hbs & [= <-]). simpl in Hbd.
  destruct (mapM_elem _ _ _ _ Hbs Hbd) as (ref & _ & Href). unfold get_backend_or_delegate in Href.
  apply bind_Some in Href as ([e1 e2] & _ & Href).
  destruct (IsDelegatedHTTPRoute _); [by simplify_eq|].
  apply bind_Some in Href as (res & Hres & [= <-]). simplify_eq/=.
  exists (hbr_ref ref). by apply backend_ref_ir_safe.
Qed.

Lemma grpc_backends_safe h i r : transformGRPCRoute h i = Some r → backends_safe h r.
Proof.
  unfold transformGRPCRoute. intros (rules & Hr & (ps & _ & [= <-])%bind_Some)%bind_Some.
  intros rule bd br Hrule Hbd Hbr. simpl in *.
  destruct (mapM_elem _ _ _ _ Hr Hrule) as (x & _ & Hx). unfold transform_grpc_rule in Hx.
  apply bind_Some in Hx as (bs & Hbs & Hx). apply bind_Some in Hx as ([ers e] & _ & Hx).
  apply bind_Some in Hx as (pol & _ & [= <-]). simpl in Hbd.
  destruct (mapM_elem _ _ _ _ Hbs Hbd) as (ref & _ & Href).
  apply bind_Some in Href as (res & Hres & [= <-]). simplify_eq/=.
  exists ref.1. by apply backend_ref_ir_safe.
Qed.

(** C10: Every backend of a transformed HTTPRoute or GRPCRoute is safe to
    program: permitted by the reference rules and able to carry the route's kind,
    or the blackhole with its error. *)
Theorem transformed_backends_safe h r :
  (∃ i, transformHttpRoute h i = Some r) ∨ (∃ i, transformGRPCRoute h i = Some r) →
  backends_safe h r.
Proof. intros [[i Hi]|[i Hi]]; [by eapply http_backends_safe|by eapply grpc_backends_safe]. Qed.

End routes.

(** ** Route weights *)

Lemma digit_pretty x : (x < 10)%N → digit (pretty_N_char x) = Some (Z.of_N x).
Proof.
  intros Hx. destruct x as [|p]; [done|]. do 4 (destruct p as [p|p|]; try reflexivity; try lia).
Qed.

Lemma parse_pretty_go x s : parse_digits 0 (pretty_N_go x s) = parse_digits (Z.of_N x) s.
Proof.
  revert s. induction (N.lt_wf_0 x) as [x _ IH]; intros s.
  destruct (decide (0 < x)%N) as [Hx|Hx].
  - rewrite pretty_N_go_step by done. rewrite IH by (apply N.div_lt; lia). simpl.
    rewrite digit_pretty by (apply N.mod_lt; lia). simpl. f_equal.
    pose proof (N.div_mod x 10 ltac:(lia)) as He. lia.
  - assert (x = 0%N) as -> by lia. by rewrite pretty_N_go_0.
Qed.

Lemma parse_pretty_N x : parse_nat (pretty x) = Some (Z.of_N x).
Proof.
  destruct (decide (x = 0%N)) as [->|Hx]; [done|].
  pose proof (parse_pretty_go x "") as Hp.
  unfold pretty, pretty_N. rewrite decide_False by done. unfold parse_nat.
  destruct (pretty_N_go x "") eqn:He; [|done]. simpl in Hp. simplify_eq. lia.
Qed.

(** The sign is told apart from the digits by the first byte. *)
Lemma pretty_N_head (x : N) : ∃ a s, pretty x = String a s ∧ is_Some (digit a).
Proof.
  pose proof (parse_pretty_N x) as Hp. destruct (pretty x) as [|a s]; [done|].
  exists a, s. split; [done|]. unfold parse_nat in Hp. simpl in Hp.
  apply bind_Some in Hp as (d & -> & _). eauto.
Qed.

Lemma parse_int32_digits s z :
  (∃ a s', s = String a s' ∧ is_Some (digit a)) → parse_nat s = Some z → in_int32 z →
  parse_int32 s = Some z.
Proof.
  intros (a & s' & -> & [d Hd]) Hp Hr. unfold parse_int32.
  assert (a ≠ "-"%char ∧ a ≠ "+"%char) as [H1 H2] by (split; intros ->; done).
  assert (∀ x y : option Z, match a with "-"%char => x | "+"%char => y | _ => parse_nat (String a s') end
                          = parse_nat (String a s')) as Hm.
  { intros x y. destruct a as [[] [] [] [] [] [] [] []]; done. }
  rewrite Hm, Hp. simpl. by rewrite option_guard_True.
Qed.

(** A weight annotation round-trips: every 32-bit integer written in
    decimal is read back as itself, and nothing outside 32 bits is ever read. *)
Theorem weight_annotation_roundtrip (key : string) (z : Z) :
  in_int32 z → ParsePrecedenceWeightAnnotation {[ key := pretty z ]} key = inr z ∧
  (∀ m w, ParsePrecedenceWeightAnnotation m key = inr w → in_int32 w).
Proof.
  intros Hz. split.
  - unfold ParsePrecedenceWeightAnnotation. rewrite lookup_singleton_eq.
    assert (parse_int32 (pretty z) = Some z) as ->; [|done].
    destruct z as [|p|p]; [done| |].
    + change (pretty (Z.pos p)) with (pretty (N.pos p)).
      apply parse_int32_digits; [apply pretty_N_head|apply parse_pretty_N|done].
    + change (pretty (Z.neg p)) with ("-" +:+ pretty (N.pos p)). rewrite str_app_cons, str_app_nil_l.
      unfold parse_int32. rewrite parse_pretty_N. simpl. by rewrite option_guard_True.
  - intros m w. unfold ParsePrecedenceWeightAnnotation. destruct (m !! key) as [v|].
    + unfold parse_int32. destruct (match v with "" => _ | _ => _ end) as [x|]; simpl; [|done].
      case_guard; [|done]. by intros [= <-].
    + intros [= <-]. unfold in_int32. lia.
Qed.

(** ** gRPC methods *)

(** The paths an HTTP path match accepts (regular expressions are Envoy's). *)
Definition path_accepts (t : PathMatchType) (v p : string) : bool :=
  match t with
  | PathExact => String.eqb p v
  | PathPrefix => String.eqb p v || has_prefix p (if has_suffix v "/" then v else v +:+ "/")
  | _ => false
  end.

(** The path of a gRPC call. *)
Definition grpc_path (service method : string) : string := "/" +:+ service +:+ "/" +:+ method.

Lemma no_trailing_slash s : s ≠ "" → no_char "/"%char s = true → has_suffix ("/" +:+ s) "/" = false.
Proof.
  intros Hne Hs. apply not_true_iff_false. rewrite has_suffix_spec. intros [q Hq].
  destruct q as [|a q].
  - rewrite str_app_cons, !str_app_nil_l in Hq. by simplify_eq.
  - rewrite !str_app_cons, str_app_nil_l in Hq. simplify_eq. rewrite no_char_app in Hs. bool_hyps. done.
Qed.

(** An exact gRPC match on a service becomes an HTTP match that accepts
    precisely the calls of that service, and of the method if one is given. *)
Theorem grpc_match_exact m s0 service method :
  gm_type m = None ∨ gm_type m = Some GRPCExact →
  gm_service m = Some s0 → s0 ≠ "" → no_char "/"%char s0 = true → no_char "/"%char service = true →
  let '(v, t) := buildGRPCPathMatch (Some m) in
  path_accepts t v (grpc_path service method) = true ↔
  service = s0 ∧ ∀ n0, gm_method m = Some n0 → method = n0.
Proof.
  intros Hty Hs0 Hne Hc0 Hc. unfold buildGRPCPathMatch. rewrite Hs0.
  assert (default GRPCExact (gm_type m) = GRPCExact) as -> by (by destruct Hty as [->| ->]).
  destruct (gm_method m) as [n0|]; unfold path_accepts, grpc_path.
  - rewrite String.eqb_eq, !str_app_cons, !str_app_nil_l. split.
    + intros [= He]. apply sep_app_inj in He as [-> ->]; [|done|done]. naive_solver.
    + intros [-> Hm]. by rewrite (Hm n0).
  - rewrite no_trailing_slash by done. rewrite orb_true_iff, String.eqb_eq, has_prefix_spec.
    setoid_rewrite <- str_app_assoc. setoid_rewrite str_app_cons. setoid_rewrite str_app_nil_l. split.
    + intros [[= He]|[t [= He]]].
      * exfalso. rewrite <- He in Hc0. rewrite no_char_app in Hc0. bool_hyps. done.
      * apply sep_app_inj in He as [-> _]; [|done|done]. naive_solver.
    + intros [-> _]. right. by exists method.
Qed.

Lemma grpc_match_exact_witness :
  path_accepts PathPrefix "/pkg.Greeter" (grpc_path "pkg.Greeter" "Hello") = true.
Proof.
  apply (grpc_match_exact (mkGM None (Some "pkg.Greeter") None) "pkg.Greeter" "pkg.Greeter" "Hello").
  - left. reflexivity.
  - reflexivity.
  - discriminate.
  - reflexivity.
  - reflexivity.
  - split; [reflexivity|]. intros n0 H. discriminate H.
Defined.

Lemma weight_annotation_roundtrip_witness :
  ParsePrecedenceWeightAnnotation {[ RoutePrecedenceWeight := "-2147483648" ]} RoutePrecedenceWeight =
  inr (-2147483648)%Z.
Proof.
  refine (proj1 (weight_annotation_roundtrip RoutePrecedenceWeight (-2147483648) _)). split; lia.
Defined.

(** ** Witnesses *)

#[local] Instance ex_route_ir : PolicyIrOps Z := {| pi_creation_time t := t |}.

Definition ex_no_builtin (f : @HTTPRouteFilter unit) (ns : string) (rn : option string)
    (ann : gmap string string) : option (error + Z) := Some (inl (EMsg "unsupported")).
Definition ex_routes_index : @RoutesIndex Z :=
  mkRIdx (ex_index [ex_traffic]) (mkBI ∅ ∅ ex_grants) false.
Definition ex_ext (n : string) : @HTTPRouteFilter unit :=
  mkFilter "ExtensionRef" (Some (mkLOR "gateway.kgateway.dev" "TrafficPolicy" n)) tt.
Definition ex_http : @HTTPRoute unit unit :=
  mkHTTPRoute (ex_object "infra" "r" 1) [] []
    [mkHRR None [] [ex_ext "heavy"; ex_ext "gone"]
       [mkHBR (mkBOR None None "web" None (Some 80%Z)) None []] tt].

Lemma extension_refs_exact_witness :
  match getExtensionRefs ex_no_builtin ex_routes_index "infra" [ex_ext "heavy"; ex_ext "gone"] None ∅ [] with
  | Some (ret, err) =>
      length (ap_get ret TrafficPolicyGK) = 1%nat ∧ option_map (λ e, err_is e ErrPolicyNotFound) err = Some true
  | None => False
  end.
Proof.
  assert (match getExtensionRefs ex_no_builtin ex_routes_index "infra" [ex_ext "heavy"; ex_ext "gone"] None ∅ [] with
          | Some _ => true | None => false end = true) as Hsome by (vm_compute; reflexivity).
  destruct (getExtensionRefs ex_no_builtin ex_routes_index "infra" [ex_ext "heavy"; ex_ext "gone"] None ∅ [])
    as [[ret err]|] eqn:E.
  - destruct (extension_refs_exact ex_no_builtin ex_routes_index "infra" None ∅ []
      [ex_ext "heavy"; ex_ext "gone"] ret err E) as [Hp Hj].
    split; [rewrite (Hp TrafficPolicyGK); vm_compute; reflexivity|].
    rewrite Hj. vm_compute. reflexivity.
  - discriminate Hsome.
Defined.

Lemma transformed_backends_safe_witness :
  match transformHttpRoute ex_match ex_no_builtin (λ _ : unit, None) ex_routes_index ex_http with
  | Some r => backends_safe ex_routes_index r
  | None => False
  end.
Proof.
  assert (match transformHttpRoute ex_match ex_no_builtin (λ _ : unit, None) ex_routes_index ex_http with
          | Some _ => true | None => false end = true) as Hsome by (vm_compute; reflexivity).
  destruct (transformHttpRoute ex_match ex_no_builtin (λ _ : unit, None) ex_routes_index ex_http)
    as [r|] eqn:E.
  - apply (transformed_backends_safe ex_match ex_no_builtin (λ _ : unit, None) ex_routes_index r).
    left. exists ex_http. exact E.
  - discriminate Hsome.
Defined.
