(* ===== verification/GoNum.v ===== *)
(** * Numbers of Go's standard library

    [float64] arithmetic as IEEE 754 binary64 with round-to-nearest-even, on integers
    (Stdlib's specification of floats), and the parsers [time.ParseDuration] and
    [strconv.Atoi] that annotations and durations of routes go through. *)

From S2P Require Import Prelude RoutesIndex.
From Stdlib Require Import Floats.SpecFloat.

(** ** float64 *)

Module Float64.
Definition of_Z (z : Z) : spec_float := binary_normalize 53 1024 z 0 false.
Definition div : spec_float → spec_float → spec_float := SFdiv 53 1024.
Definition mul : spec_float → spec_float → spec_float := SFmul 53 1024.

(** Conversion to an integer truncates; it is not defined on infinities and NaN. *)
Definition trunc (f : spec_float) : option Z :=
  match f with
  | S754_zero _ => Some 0
  | S754_finite s m e =>
      let n := if (0 <=? e)%Z then (Zpos m * 2 ^ e)%Z else (Zpos m / 2 ^ (- e))%Z in
      Some (if s then - n else n)
  | S754_infinity _ | S754_nan => None
  end%Z.
End Float64.

(** ** Integers *)

Definition max63 : Z := 2 ^ 63.

(** [strconv.Atoi], with [int] of 64 bits. *)
Definition Atoi (s : string) : option Z :=
  z ← match s with
      | String "-"%char s' => Z.opp <$> parse_nat s'
      | String "+"%char s' => parse_nat s'
      | _ => parse_nat s
      end;
  guard (- max63 <= z < max63)%Z;; Some z.

(** ** Durations *)

(** Nanoseconds of a unit; the micro sign and the Greek letter are two spellings of it. *)
Definition byte (n : nat) : string := String (Ascii.ascii_of_nat n) "".

Definition unitMap (u : string) : option Z :=
 (if String.eqb u "ns" then Some 1
  else if String.eqb u "us" then Some 1000
  else if String.eqb u (byte 194 +:+ byte 181 +:+ "s") then Some 1000
  else if String.eqb u (byte 206 +:+ byte 188 +:+ "s") then Some 1000
  else if String.eqb u "ms" then Some 1000000
  else if String.eqb u "s" then Some 1000000000
  else if String.eqb u "m" then Some 60000000000
  else if String.eqb u "h" then Some 3600000000000
  else None)%Z.

(** [leadingInt]: the value of the leading digits and the rest; overflow is an error. *)
Fixpoint leadingInt (x : Z) (s : string) : option (Z * string) :=
  match s with
  | EmptyString => Some (x, s)
  | String a s' =>
      match digit a with
      | None => Some (x, s)
      | Some d =>
          if (max63 / 10 <? x)%Z then None
          else let y := (x * 10 + d)%Z in
               if (max63 <? y)%Z then None else leadingInt y s'
      end
  end.

(** [leadingFraction]: digits that do not fit are dropped.  The scale is a power of ten. *)
Fixpoint leadingFraction (x : Z) (scale : spec_float) (overflow : bool) (s : string) : Z * spec_float * string :=
  match s with
  | EmptyString => (x, scale, s)
  | String a s' =>
      match digit a with
      | None => (x, scale, s)
      | Some d =>
          if overflow then leadingFraction x scale true s'
          else if ((max63 - 1) / 10 <? x)%Z then leadingFraction x scale true s'
          else let y := (x * 10 + d)%Z in
               if (max63 <? y)%Z then leadingFraction x scale true s'
               else leadingFraction y (Float64.mul scale (Float64.of_Z 10)) false s'
      end
  end.

Definition is_number_char (a : Ascii.ascii) : bool :=
  Ascii.eqb a "."%char || bool_decide (is_Some (digit a)).

(** The unit: everything up to the next digit or dot. *)
Fixpoint take_unit (s : string) : string * string :=
  match s with
  | EmptyString => ("", "")
  | String a s' => if is_number_char a then ("", s) else let '(u, r) := take_unit s' in (String a u, r)
  end.

Definition starts_number (s : string) : bool :=
  match s with String a _ => is_number_char a | EmptyString => false end.

(** The digits after a dot, their scale, the rest, and whether there were any. *)
Definition fraction_part (s : string) : Z * spec_float * string * bool :=
  let none := (0%Z, Float64.of_Z 1, s, false) in
  match s with
  | EmptyString => none
  | String a r =>
      if Ascii.eqb a "."%char then
        let '(f, scale, r') := leadingFraction 0 (Float64.of_Z 1) false r in
        (f, scale, r', negb (String.length r' =? String.length r)%nat)
      else none
  end.

(** One turn of the loop: the nanoseconds of the next number with its unit, and the rest. *)
Definition duration_part (s : string) : option (Z * string) :=
  if negb (starts_number s) then None
  else
    '(v, s1) ← leadingInt 0 s;
    let pre := negb (String.length s1 =? String.length s)%nat in
    let '(f, scale, s2, post) := fraction_part s1 in
    if negb pre && negb post then None
    else
      let '(u, s3) := take_unit s2 in
      if String.eqb u "" then None
      else
        unit ← unitMap u;
        if (max63 / unit <? v)%Z then None
        else
          let v := (v * unit)%Z in
          if (0 <? f)%Z then
            t ← Float64.trunc (Float64.mul (Float64.of_Z f) (Float64.div (Float64.of_Z unit) scale));
            if (max63 <? v + t)%Z then None else Some ((v + t)%Z, s3)
          else Some (v, s3).

(** The loop; every turn consumes a byte, so the length of the text is enough fuel. *)
Fixpoint duration_parts (fuel : nat) (d : Z) (s : string) : option Z :=
  match s with
  | EmptyString => Some d
  | _ =>
      match fuel with
      | O => None
      | S fuel =>
          '(v, s') ← duration_part s;
          if (max63 <? d + v)%Z then None else duration_parts fuel (d + v) s'
      end
  end.

(** [time.ParseDuration], in nanoseconds; every error is [None]. *)
Definition ParseDuration (s : string) : option Z :=
  let '(neg, s) := match s with
                   | String a r => if Ascii.eqb a "-"%char then (true, r)
                                   else if Ascii.eqb a "+"%char then (false, r) else (false, s)
                   | EmptyString => (false, s)
                   end in
  if String.eqb s "0" then Some 0%Z
  else if String.eqb s "" then None
  else
    d ← duration_parts (String.length s) 0 s;
    if neg then Some (- d)%Z else if (max63 - 1 <? d)%Z then None else Some d.

(** ** Lemmas *)

Lemma leading_int_rest x s z r : leadingInt x s = Some (z, r) → ∃ p, s = p +:+ r.
Proof.
  revert x. induction s as [|a s IH]; intros x H; simpl in H; [simplify_eq; by exists ""|].
  destruct (digit a); [|simplify_eq; by exists ""]. repeat case_match; try done.
  apply IH in H as [p ->]. by exists (String a p).
Qed.

Lemma leading_fraction_rest s x sc o f sc' r : leadingFraction x sc o s = (f, sc', r) → ∃ p, s = p +:+ r.
Proof.
  revert x sc o. induction s as [|a s IH]; intros x sc o H; simpl in H; [simplify_eq; by exists ""|].
  destruct (digit a); [|simplify_eq; by exists ""].
  repeat case_match; apply IH in H as [p ->]; by exists (String a p).
Qed.

Lemma take_unit_rest s u r : take_unit s = (u, r) → s = u +:+ r.
Proof.
  revert u. induction s as [|a s IH]; intros u H; simpl in H; [by simplify_eq|].
  case_match; [by simplify_eq|]. destruct (take_unit s) as [u' r'] eqn:E. simplify_eq. by rewrite (IH u' eq_refl).
Qed.

Lemma fraction_part_rest s f sc r post : fraction_part s = (f, sc, r, post) → ∃ p, s = p +:+ r.
Proof.
  unfold fraction_part. destruct s as [|a s]; [intros; simplify_eq; by exists ""|].
  case_match; [|intros; simplify_eq; by exists ""].
  destruct (leadingFraction 0 (Float64.of_Z 1) false s) as [[f' sc'] r'] eqn:Ef. intros ?. simplify_eq.
  apply leading_fraction_rest in Ef as [w ->]. by exists (String a w).
Qed.

(** A turn of the loop consumes at least the unit. *)
Lemma duration_part_shorter s v r : duration_part s = Some (v, r) → (String.length r < String.length s)%nat.
Proof.
  intros H. unfold duration_part in H. destruct (negb (starts_number s)); [done|].
  apply bind_Some in H as ([x s1] & H1 & H). apply leading_int_rest in H1 as [p ->].
  destruct (fraction_part s1) as [[[f sc] s2] post] eqn:E2. apply fraction_part_rest in E2 as [q ->].
  destruct (negb _ && negb post); [done|]. destruct (take_unit s2) as [u s3] eqn:Eu. apply take_unit_rest in Eu as ->.
  destruct (String.eqb u "") eqn:Hu; [done|]. apply String.eqb_neq in Hu. apply bind_Some in H as (unit & _ & H).
  assert (r = s3) as ->.
  { repeat case_match; simplify_eq; try done. apply bind_Some in H as (t & _ & H). case_match; by simplify_eq. }
  rewrite !str_length_app. destruct u; [done|]. simpl. lia.
Qed.

(** The fuel is enough: more never changes the answer. *)
Lemma duration_parts_fuel fuel d s :
  (String.length s <= fuel)%nat → duration_parts fuel d s = duration_parts (String.length s) d s.
Proof.
  remember (String.length s) as n eqn:Hn. assert (String.length s <= n)%nat as Hle by lia. clear Hn.
  revert fuel d s Hle. induction n as [n IH] using lt_wf_ind. intros fuel d s Hle Hf.
  destruct s as [|a s]; [by destruct fuel, n|]. destruct n as [|n]; [simpl in Hle; lia|].
  destruct fuel as [|fuel]; [lia|]. cbn [duration_parts].
  destruct (duration_part (String a s)) as [[v r]|] eqn:Hp; [|done]. cbn [mbind option_bind].
  apply duration_part_shorter in Hp. case_match; [done|].
  rewrite (IH (String.length r)) by (simpl in *; lia).
  symmetry. apply IH; simpl in *; lia.
Qed.

Lemma parse_digits_mono x s z : parse_digits x s = Some z → (0 <= x)%Z → (x <= z)%Z.
Proof.
  revert x. induction s as [|a s IH]; intros x H Hx; simpl in *; [by simplify_eq|].
  destruct (digit a) as [d|] eqn:Hd; [|done]. cbn [mbind option_bind] in H.
  assert (0 <= d)%Z by (unfold digit in Hd; case_bool_decide; simplify_eq; lia).
  specialize (IH (10 * x + d)%Z H). lia.
Qed.

(** Digits that are read as a number are read back by [leadingInt]. *)
Lemma leading_int_digits x s u z :
  parse_digits x s = Some z → (0 <= x)%Z → (z <= max63)%Z → (∀ a r, u = String a r → digit a = None) →
  leadingInt x (s +:+ u) = Some (z, u).
Proof.
  revert x. induction s as [|a s IH]; intros x H Hx Hz Hu; simpl in *.
  - simplify_eq. destruct u as [|a r]; [done|]. simpl. by rewrite (Hu a r).
  - destruct (digit a) as [d|] eqn:Hd; [|done]. cbn [mbind option_bind] in H.
    assert (0 <= d < 10)%Z as Hdr by (unfold digit in Hd; case_bool_decide; simplify_eq; lia).
    assert (10 * x + d <= z)%Z as Hle by (eapply parse_digits_mono; [exact H|lia]).
    assert (x <= max63 / 10)%Z by (apply Z.div_le_lower_bound; lia).
    assert ((max63 / 10 <? x)%Z = false) as -> by (apply Z.ltb_ge; lia).
    assert ((max63 <? x * 10 + d)%Z = false) as -> by (apply Z.ltb_ge; lia).
    apply IH; [|lia|done|done]. by replace (x * 10 + d)%Z with (10 * x + d)%Z by lia.
Qed.

(** The units of Gateway API durations, and the smaller ones. *)
Definition plain_units : list (string * Z) :=
  [("ns", 1); ("us", 1000); ("ms", 1000000); ("s", 1000000000); ("m", 60000000000); ("h", 3600000000000)]%Z.

Lemma plain_unit_part s n u unit :
  starts_number s = true → leadingInt 0 s = Some (n, u) → (u, unit) ∈ plain_units → (n * unit < max63)%Z →
  (String.length u < String.length s)%nat → duration_part s = Some ((n * unit)%Z, "").
Proof.
  intros Hs Hl Hu Hr Hlen. unfold duration_part. rewrite Hs, Hl. cbn [mbind option_bind negb].
  assert ((String.length u =? String.length s)%nat = false) as -> by (apply Nat.eqb_neq; lia).
  assert (n <= max63 / unit)%Z as Hov.
  { assert (0 < unit)%Z by (unfold plain_units in Hu; rewrite !elem_of_cons, elem_of_nil in Hu; naive_solver lia).
    apply Z.div_le_lower_bound; lia. }
  assert (fraction_part u = (0%Z, Float64.of_Z 1, u, false) ∧ take_unit u = (u, "") ∧ unitMap u = Some unit ∧ String.eqb u "" = false)
    as (-> & -> & -> & ->) by (unfold plain_units in Hu; rewrite !elem_of_cons, elem_of_nil in Hu; naive_solver).
  cbn [mbind option_bind negb andb]. apply Z.ltb_ge in Hov. by rewrite Hov.
Qed.

(** A whole number with a unit denotes that many units, whatever its digits, as long as it
    fits the 64 bits of a duration. *)
Theorem duration_exact (digits u : string) n unit :
  parse_nat digits = Some n → (u, unit) ∈ plain_units → (n * unit < max63)%Z →
  ParseDuration (digits +:+ u) = Some (n * unit)%Z.
Proof.
  intros Hp Hu Hr. destruct digits as [|a ds]; [done|]. unfold parse_nat in Hp.
  assert (is_Some (digit a)) as Ha by (simpl in Hp; by destruct (digit a)).
  assert (0 <= n)%Z as Hn by (eapply parse_digits_mono; [exact Hp|lia]).
  assert (0 < unit ∧ ∀ b r, u = String b r → digit b = None)%Z as [Hpos Hd]
    by (unfold plain_units in Hu; rewrite !elem_of_cons, elem_of_nil in Hu; naive_solver lia).
  assert (duration_part (String a ds +:+ u) = Some ((n * unit)%Z, "")) as Hpart.
  { eapply plain_unit_part; [|apply leading_int_digits; [done|lia|nia|done]|done|done|].
    - simpl. unfold is_number_char. rewrite (bool_decide_true _ Ha). by destruct (Ascii.eqb a "."%char).
    - rewrite str_length_app. simpl. lia. }
  assert (ParseDuration (String a ds +:+ u) =
          (d ← duration_parts (String.length (String a ds +:+ u)) 0 (String a ds +:+ u);
           if (max63 - 1 <? d)%Z then None else Some d)) as ->.
  { assert (∀ b, digit b = None → Ascii.eqb a b = false) as Hne.
    { intros b Hb. destruct (Ascii.eqb_spec a b) as [->|]; [|done]. rewrite Hb in Ha. by apply is_Some_None in Ha. }
    change (String a ds +:+ u) with (String a (ds +:+ u)). unfold ParseDuration. rewrite !Hne by done.
    assert (String.length u ≠ 0)%nat as Hu0
      by (unfold plain_units in Hu; rewrite !elem_of_cons, elem_of_nil in Hu; naive_solver).
    assert (String.eqb (String a (ds +:+ u)) "0" = false) as ->; [|done].
    apply String.eqb_neq. intros [= _ He]. apply (f_equal String.length) in He. rewrite str_length_app in He. simpl in He. lia. }
  change (String a ds +:+ u) with (String a (ds +:+ u)) in *. cbn [String.length duration_parts]. rewrite Hpart. cbn [mbind option_bind].
  assert ((max63 <? 0 + n * unit)%Z = false) as -> by (apply Z.ltb_ge; lia).
  destruct (String.length (ds +:+ u)); cbn [duration_parts]; cbn [mbind option_bind];
    (assert ((max63 - 1 <? 0 + n * unit)%Z = false) as -> by (apply Z.ltb_ge; lia)); f_equal; lia.
Qed.

Example durations : map ParseDuration ["1h15m30.5s"; "100ms"; "-1.5h"; "0"; "1"; "9223372037s"; ".s"] =
  [Some 4530500000000; Some 100000000; Some (-5400000000000); Some 0; None; None; None]%Z.
Proof. by vm_compute. Qed.
