(* ===== verification/ListenerValidation.v ===== *)
(** * Listener validation (pkg/kgateway/translator/listener/validation.go)

    Which listeners of a Gateway and its ListenerSets are programmed: supported
    route kinds, then conflicts of protocol, hostname and TLS mode per port, then
    reserved ports.  The status conditions the code reports are the sequence of
    calls on the reporter, in order.  The listeners of a port are visited through
    a Go map, so the iteration order of ports is a parameter. *)

From S2P Require Import Prelude IR SortableRoute Delegation RouteTree Query.

(** ** Data *)

(** The parent object of a listener, as reports and names identify it. *)
Record Parent := mkParent {
  par_type : ResourceType; par_kind : string; par_namespace : string; par_name : string }.
#[global] Instance ResourceType_eq_dec : EqDecision ResourceType.
Proof. solve_decision. Defined.
#[global] Instance Parent_eq_dec : EqDecision Parent.
Proof. solve_decision. Defined.

(** [ir.Listener]; what validation does not look at is in [il_extra]. *)
Section of_listeners.
Context {X : Type}.

Record IRListener := mkIRL { il_listener : Listener; il_parent : Parent; il_extra : X }.

Record ListenerSetIR := mkLSIR {
  lsi_source : ObjectSource; lsi_obj : Parent; lsi_listeners : list IRListener; lsi_err : option string }.

Record GatewayIR := mkGW {
  gw_obj : Parent;
  gw_spec_listeners : nat;
  gw_listeners : list IRListener;
  gw_allowed_sets : list (list ListenerSetIR);
  gw_denied_sets : list (list ListenerSetIR) }.

Record Condition := mkCond { c_type : string; c_status : bool; c_reason : string; c_message : string }.

(** The calls on the reporter. *)
Inductive Report :=
| RListenerCondition (p : Parent) (listener : string) (c : Condition)
| RSupportedKinds (p : Parent) (listener : string) (kinds : list GroupKind)
| RParentCondition (p : Parent) (c : Condition)
| RAttachedListenerSets (p : Parent) (count : Z).

(** ** Supported route kinds *)

Definition getSupportedTLSRouteKindsForMode (tls : option (option string)) : gmap string (list string) :=
  if bool_decide (tls = Some (Some "Terminate"))
  then {[ GatewayGroup := [TLSRouteKind; TCPRouteKind] ]}
  else {[ GatewayGroup := [TLSRouteKind] ]}.

Definition getSupportedRouteKindsForListener (l : Listener) : option (gmap string (list string)) :=
  let p := l_protocol l in
  if String.eqb p "HTTP" || String.eqb p "HTTPS" then
    Some {[ GatewayGroup := [HTTPRouteKind; GRPCRouteKind] ]}
  else if String.eqb p "TCP" then Some {[ GatewayGroup := [TCPRouteKind] ]}
  else if String.eqb p "TLS" then Some (getSupportedTLSRouteKindsForMode (l_tls_mode l))
  else if String.eqb p "HBONE" then
    Some {[ GatewayGroup := [HTTPRouteKind; GRPCRouteKind; TCPRouteKind; TLSRouteKind] ]}
  else None.

(** The map has one group, so its order does not matter. *)
Definition buildDefaultRouteKindsForProtocol (m : gmap string (list string)) : list GroupKind :=
  '(group, kinds) ← map_to_list m; map (mkGK group) kinds.

(** The requested kinds, an unset group being the Gateway API's. *)
Definition requested_kinds (l : Listener) : list GroupKind :=
  match l_allowed l with
  | None => []
  | Some ar => map (λ '(g, k), mkGK (str_or g GatewayGroup) k) (default [] (ar_kinds ar))
  end.

Definition kind_supported (m : gmap string (list string)) (rgk : GroupKind) : bool :=
  match m !! gk_group rgk with None => false | Some ks => bool_decide (gk_kind rgk ∈ ks) end.

(** One turn of the loop of [validateSupportedRoutes]. *)
Definition supported_step (acc : list IRListener * list Report) (il : IRListener) :
    list IRListener * list Report :=
  let '(valid, rep) := acc in
  let l := il_listener il in
  let p := il_parent il in
  match getSupportedRouteKindsForListener l with
  | None =>
      (valid, rep ++ [RListenerCondition p (l_name l)
         (mkCond "Accepted" false "UnsupportedProtocol" ("Protocol " +:+ l_protocol l +:+ " is unsupported."))])
  | Some m =>
      match requested_kinds l with
      | [] => (valid ++ [il],
               rep ++ [RSupportedKinds p (l_name l) (buildDefaultRouteKindsForProtocol m)])
      | kinds =>
          let found := filter (λ k, kind_supported m k = true) kinds in
          let invalid := filter (λ k, kind_supported m k = false) kinds in
          (if bool_decide (found = []) then valid else valid ++ [il],
           rep ++ [RSupportedKinds p (l_name l) found] ++
           (if bool_decide (invalid = []) then []
            else [RListenerCondition p (l_name l)
                    (mkCond "ResolvedRefs" false "InvalidRouteKinds"
                       ("Found invalid route kinds: [" +:+ join ", " (map gk_kind invalid) +:+ "]"))]))
      end
  end.

#[local] Arguments supported_step : simpl never.

Definition validateSupportedRoutes (ls : list IRListener) (rep : list Report) :
    list IRListener * list Report := foldl supported_step ([], rep) ls.

(** ** Conflicts *)

Record portProtocol := mkPP {
  pp_hostnames : gmap string string; pp_protocol : gset string; pp_listeners : list IRListener }.

(** [kubeutils.DetectListenerPortNumber]. *)
Definition DetectListenerPortNumber (protocol : string) (port : Z) : string + Z :=
  if bool_decide (port ≠ 0%Z) then inr port
  else if String.eqb protocol "HTTP" then inr 80%Z
  else if String.eqb protocol "HTTPS" then inr 443%Z
  else inl ("protocol " +:+ protocol +:+ " requires a port to be set").

(** [validate.ListenerPort]. *)
Definition staticReservedPorts : list Z := [9091; 8082; 19000]%Z.
Definition ListenerPort (port : Z) : option string :=
  if bool_decide (port ∈ staticReservedPorts)
  then Some ("invalid port " +:+ pretty port +:+ " in listener: port is reserved") else None.

Definition NormalizedHTTPSTLSType : string := "HTTPS/TLS".
Definition normalize (protocol : string) : string :=
  if String.eqb protocol "HTTPS" || String.eqb protocol "TLS" then NormalizedHTTPSTLSType else protocol.

Definition getOrDefaultHostname (h : option string) : string :=
  match h with None => "*" | Some h => if String.eqb h "" then "*" else h end.

Definition il_hostname (il : IRListener) : string := getOrDefaultHostname (l_hostname (il_listener il)).

Definition generateUniqueListenerName (il : IRListener) : string :=
  let p := il_parent il in
  par_kind p +:+ "/" +:+ par_namespace p +:+ "/" +:+ par_name p +:+ "." +:+ l_name (il_listener il).

Definition not_valid_cond : Condition := mkCond "Accepted" true "ListenersNotValid" "".

Definition rejectInvalidListener (il : IRListener) (message : string) : list Report :=
  let p := il_parent il in
  let n := l_name (il_listener il) in
  [RListenerCondition p n (mkCond "Accepted" false "Invalid" message);
   RListenerCondition p n (mkCond "Programmed" false "Invalid" message);
   RParentCondition p not_valid_cond].

Definition rejectConflictedListener (il : IRListener) (reason message : string) : list Report :=
  let p := il_parent il in
  let n := l_name (il_listener il) in
  [RListenerCondition p n (mkCond "Conflicted" true reason message);
   RListenerCondition p n (mkCond "Accepted" false reason message);
   RListenerCondition p n (mkCond "Programmed" false reason message);
   RParentCondition p not_valid_cond].

Definition set_port (il : IRListener) (port : Z) : IRListener :=
  let l := il_listener il in
  mkIRL (mkListener (l_name l) (l_hostname l) port (l_protocol l) (l_tls_mode l) (l_allowed l))
    (il_parent il) (il_extra il).

(** One turn of the first loop of [validateListeners]: group by port, remember
    the protocols seen and the first listener of each hostname. *)
Definition group_step (acc : gmap Z portProtocol * list Report) (il : IRListener) :
    gmap Z portProtocol * list Report :=
  let '(ports, rep) := acc in
  let protocol := l_protocol (il_listener il) in
  match DetectListenerPortNumber protocol (l_port (il_listener il)) with
  | inl e => (ports, rep ++ rejectInvalidListener (set_port il 0) e)
  | inr port =>
      let il := set_port il port in
      let protocol := normalize protocol in
      let hostname := il_hostname il in
      (match ports !! port with
       | Some pp =>
           <[port := mkPP (match pp_hostnames pp !! hostname with
                           | Some _ => pp_hostnames pp
                           | None => <[hostname := generateUniqueListenerName il]> (pp_hostnames pp)
                           end)
                          ({[ protocol ]} ∪ pp_protocol pp) (pp_listeners pp ++ [il])]> ports
       | None =>
           <[port := mkPP {[ hostname := generateUniqueListenerName il ]} {[ protocol ]} [il]]> ports
       end, rep)
  end.

Definition unsupportedMixedTLSModeConflict (pp : portProtocol) (il : IRListener) (experimental : bool) : bool :=
  if experimental then false
  else if negb (String.eqb (l_protocol (il_listener il)) "TLS") then false
  else
    let has mode := existsb (λ x, String.eqb (l_protocol (il_listener x)) "TLS" &&
                                  bool_decide (l_tls_mode (il_listener x) = Some (Some mode)))
                            (pp_listeners pp) in
    has "Terminate" && has "Passthrough".

(** [pp_listeners] is never empty where this is called. *)
Definition protocolConflict (pp : portProtocol) (il : IRListener) : bool :=
  if (1 <? size (pp_protocol pp))%nat then
    match pp_listeners pp with
    | first :: _ => negb (String.eqb (l_protocol (il_listener il)) (l_protocol (il_listener first)))
    | [] => true
    end
  else false.

(** A missing map entry reads as the empty string. *)
Definition hostNameConflict (pp : portProtocol) (il : IRListener) : bool :=
  negb (String.eqb (generateUniqueListenerName il) (default "" (pp_hostnames pp !! il_hostname il))).

Definition ListenerMessageProtocolConflict : string :=
  "Found conflicting protocols on listeners, a single port can only contain listeners with compatible protocols".
Definition ListenerMessageHostnameConflict : string :=
  "Found conflicting hostnames on listeners, all listeners on a single port must have unique hostnames".

(** The verdict on one listener of a port: accepted, or the reports of its
    rejection. *)
Definition judge (experimental : bool) (port : Z) (pp : portProtocol) (il : IRListener) : option (list Report) :=
  if unsupportedMixedTLSModeConflict pp il experimental then
    Some (RSupportedKinds (il_parent il) (l_name (il_listener il)) [] ::
          rejectConflictedListener il "ProtocolConflict" ListenerMessageProtocolConflict)
  else if protocolConflict pp il then
    Some (rejectConflictedListener il "ProtocolConflict" ListenerMessageProtocolConflict)
  else if hostNameConflict pp il then
    Some (rejectConflictedListener il "HostnameConflict" ListenerMessageHostnameConflict)
  else match ListenerPort port with
       | Some err => Some (rejectConflictedListener il "Invalid" err)
       | None => None
       end.

(** State of the second loop: accepted listeners, reports, attached ListenerSets. *)
Definition judge_step (experimental : bool) (port : Z) (pp : portProtocol)
    (acc : list IRListener * list Report * gset string) (il : IRListener) :
    list IRListener * list Report * gset string :=
  let '(valid, rep, sets) := acc in
  match judge experimental port pp il with
  | Some rs => (valid, rep ++ rs, sets)
  | None =>
      let p := il_parent il in
      (valid ++ [il], rep,
       if bool_decide (par_type p = TGateway) then sets
       else {[ par_namespace p +:+ "/" +:+ par_name p ]} ∪ sets)
  end.

Definition inferKind (p : Parent) : string :=
  if negb (String.eqb (par_kind p) "") then par_kind p
  else match par_type p with TGateway => "Gateway" | TListenerSet => "ListenerSet" | _ => "" end.

Definition parent_count_key (p : Parent) : string :=
  inferKind p +:+ "/" +:+ par_namespace p +:+ "/" +:+ par_name p.

(** [validListenersPerParent]. *)
Definition valid_for (valid : list IRListener) (key : string) : nat :=
  length (filter (λ il, parent_count_key (il_parent il) = key) valid).

Definition not_all_valid_reports (gw : GatewayIR) (valid : list IRListener) : list Report :=
  (if (valid_for valid ("Gateway/" +:+ par_namespace (gw_obj gw) +:+ "/" +:+ par_name (gw_obj gw))
         <? gw_spec_listeners gw)%nat
   then [RParentCondition (gw_obj gw) not_valid_cond] else []) ++
  (lsSets ← gw_allowed_sets gw;
   ls ← lsSets;
   let s := lsi_source ls in
   if (valid_for valid (os_kind s +:+ "/" +:+ os_namespace s +:+ "/" +:+ os_name s)
         <? length (lsi_listeners ls))%nat
   then [RParentCondition (lsi_obj ls) not_valid_cond] else []).

Section listeners.
(** The iteration order of the map of ports. *)
Context (iter : gmap Z portProtocol → list (Z * portProtocol)).

Definition validateListeners (gw : GatewayIR) (experimental : bool) (rep : list Report) :
    list IRListener * list Report :=
  let '(candidates, rep) := validateSupportedRoutes (gw_listeners gw) rep in
  let '(ports, rep) := foldl group_step (∅, rep) candidates in
  let '(valid, rep, sets) :=
    foldl (λ acc pp, foldl (judge_step experimental pp.1 pp.2) acc (pp_listeners pp.2))
          ([], rep, ∅) (iter ports) in
  match valid with
  | [] => ([], rep ++ [RParentCondition (gw_obj gw) (mkCond "Accepted" false "ListenersNotValid" "No valid listeners");
                       RParentCondition (gw_obj gw) (mkCond "Programmed" false "Invalid" "")])
  | _ => (valid, rep ++ not_all_valid_reports gw valid ++
                 (if (0 <? size sets)%nat
                  then [RAttachedListenerSets (gw_obj gw) (Z.of_nat (size sets))] else []))
  end.

Definition rejectDeniedListenerSets (gw : GatewayIR) : list Report :=
  lsSets ← gw_denied_sets gw;
  ls ← lsSets;
  [RParentCondition (lsi_obj ls) (mkCond "Accepted" false "NotAllowed" (default "" (lsi_err ls)));
   RParentCondition (lsi_obj ls) (mkCond "Programmed" false "NotAllowed" (default "" (lsi_err ls)))].

Definition validateGatewayWithSettings (gw : GatewayIR) (experimental : bool) :
    list IRListener * list Report :=
  validateListeners gw experimental (rejectDeniedListenerSets gw).

(** ** The listeners of a port *)

(** Detected port of a candidate. *)
Definition port_of (il : IRListener) : option Z :=
  match DetectListenerPortNumber (l_protocol (il_listener il)) (l_port (il_listener il)) with
  | inl _ => None | inr p => Some p
  end.

(** The candidates of a port, in precedence order. *)
Definition on_port (p : Z) (cands : list IRListener) : list IRListener :=
  map (λ il, set_port il p) (filter (λ il, port_of il = Some p) cands).

Definition add_host (m : gmap string string) (il : IRListener) : gmap string string :=
  match m !! il_hostname il with
  | Some _ => m
  | None => <[il_hostname il := generateUniqueListenerName il]> m
  end.

Definition protocol_of (il : IRListener) : string := normalize (l_protocol (il_listener il)).

(** What the first loop computes for a port. *)
Definition group (ls : list IRListener) : portProtocol :=
  mkPP (foldl add_host ∅ ls) (list_to_set (map protocol_of ls)) ls.

Lemma group_snoc ls il :
  group (ls ++ [il]) =
  mkPP (match pp_hostnames (group ls) !! il_hostname il with
        | Some _ => pp_hostnames (group ls)
        | None => <[il_hostname il := generateUniqueListenerName il]> (pp_hostnames (group ls))
        end) ({[ protocol_of il ]} ∪ pp_protocol (group ls)) (pp_listeners (group ls) ++ [il]).
Proof.
  unfold group. simpl. rewrite foldl_app, map_app, list_to_set_app_L. simpl. f_equal. set_solver.
Qed.

Definition grouped (cands : list IRListener) (p : Z) : option portProtocol :=
  match on_port p cands with [] => None | ls => Some (group ls) end.

Lemma on_port_snoc p cands il :
  on_port p (cands ++ [il]) =
  on_port p cands ++ (if decide (port_of il = Some p) then [set_port il p] else []).
Proof.
  unfold on_port. rewrite filter_app, map_app, filter_cons, filter_nil. by case_decide.
Qed.

Lemma hosts_lookup ls h m :
  foldl add_host m ls !! h =
  match m !! h with
  | Some n => Some n
  | None => generateUniqueListenerName <$> head (filter (λ il, il_hostname il = h) ls)
  end.
Proof.
  revert m. induction ls as [|il ls IH]; intros m; cbn [foldl].
  { rewrite filter_nil. by destruct (m !! h). }
  rewrite IH, filter_cons. unfold add_host. destruct (m !! il_hostname il) as [n|] eqn:Hm.
  - case_decide as Hh; [subst h; by rewrite Hm|done].
  - case_decide as Hh.
    + subst h. by rewrite lookup_insert_eq, Hm.
    + by rewrite lookup_insert_ne.
Qed.

Lemma group_loop cands : ∀ acc pre,
  (∀ p, acc.1 !! p = grouped pre p) →
  ∀ p, (foldl group_step acc cands).1 !! p = grouped (pre ++ cands) p.
Proof.
  induction cands as [|il cands IH]; intros [ports rep] pre Hinv p; cbn [foldl];
    [by rewrite app_nil_r|].
  rewrite cons_middle, app_assoc. apply IH. clear IH. intros q. unfold grouped. rewrite on_port_snoc.
  specialize (Hinv q) as Hq. unfold grouped in Hq. simpl in Hq. unfold group_step.
  destruct (DetectListenerPortNumber _ _) as [e|port] eqn:Hd.
  { rewrite decide_False by (unfold port_of; by rewrite Hd). by rewrite app_nil_r. }
  assert (port_of il = Some port) as Hp by (unfold port_of; by rewrite Hd).
  rewrite Hp. destruct (decide (Some port = Some q)) as [[= ->]|Hne]; simpl.
  - rewrite Hq. destruct (on_port q pre) as [|x ls] eqn:Hon; rewrite lookup_insert_eq; simpl.
    + unfold group. simpl. unfold add_host. rewrite lookup_empty. f_equal. f_equal. set_solver.
    + f_equal. rewrite app_comm_cons, group_snoc. done.
  - rewrite app_nil_r. destruct (ports !! port); rewrite lookup_insert_ne; naive_solver.
Qed.

(** The first loop in one line: a port maps to the group of its candidates. *)
Lemma ports_spec cands rep p : (foldl group_step (∅, rep) cands).1 !! p = grouped cands p.
Proof. apply (group_loop cands (∅, rep) []). intros q. apply lookup_empty. Qed.

Lemma judge_loop e p pp ls valid rep sets :
  (foldl (judge_step e p pp) (valid, rep, sets) ls).1.1 =
  valid ++ filter (λ il, judge e p pp il = None) ls.
Proof.
  revert valid rep sets. induction ls as [|il ls IH]; intros valid rep sets; cbn [foldl].
  { by rewrite filter_nil, app_nil_r. }
  unfold judge_step at 2. rewrite filter_cons.
  destruct (judge e p pp il) as [rs|] eqn:Hj; rewrite IH; [by rewrite decide_False|].
  rewrite decide_True by done. by rewrite <- app_assoc.
Qed.

Lemma judge_ports e l acc :
  (foldl (λ acc pp, foldl (judge_step e pp.1 pp.2) acc (pp_listeners pp.2)) acc l).1.1 =
  acc.1.1 ++ (l ≫= λ pp, filter (λ il, judge e pp.1 pp.2 il = None) (pp_listeners pp.2)).
Proof.
  revert acc. induction l as [|pp l IH]; intros [[valid rep] sets]; cbn [foldl];
    [by rewrite app_nil_r|].
  rewrite IH, judge_loop. simpl. by rewrite <- app_assoc.
Qed.

(** The listeners that pass the route-kind check. *)
Definition candidates (gw : GatewayIR) : list IRListener := (validateSupportedRoutes (gw_listeners gw) []).1.

Lemma supported_fst ls valid rep rep' :
  (foldl supported_step (valid, rep) ls).1 = (foldl supported_step (valid, rep') ls).1.
Proof.
  revert valid rep rep'. induction ls as [|il ls IH]; intros valid rep rep'; cbn [foldl]; [done|].
  unfold supported_step at 2 4. repeat case_match; apply IH.
Qed.

Lemma supported_step_spec valid rep il :
  (supported_step (valid, rep) il).1 = valid ∨
  ((supported_step (valid, rep) il).1 = valid ++ [il] ∧
   ∃ m, getSupportedRouteKindsForListener (il_listener il) = Some m ∧
        (requested_kinds (il_listener il) ≠ [] →
         ∃ k, k ∈ requested_kinds (il_listener il) ∧ kind_supported m k = true)).
Proof.
  unfold supported_step. destruct (getSupportedRouteKindsForListener _) as [m|]; [|by left].
  destruct (requested_kinds _) as [|k ks] eqn:Hr; simpl; [right; naive_solver|].
  case_bool_decide as Hf; [by left|right]. split; [done|]. exists m. split; [done|]. intros _.
  destruct (filter (λ k, kind_supported m k = true) (k :: ks)) as [|k' ks'] eqn:Hfil; [done|].
  assert (k' ∈ filter (λ k, kind_supported m k = true) (k :: ks)) as Hin by (rewrite Hfil; by left).
  apply list_elem_of_filter in Hin as [? ?]. eauto.
Qed.

(** The protocol of a listener, and a kind it asks for, are supported. *)
Definition listener_supported (il : IRListener) : Prop :=
  ∃ m, getSupportedRouteKindsForListener (il_listener il) = Some m ∧
       (requested_kinds (il_listener il) ≠ [] →
        ∃ k, k ∈ requested_kinds (il_listener il) ∧ kind_supported m k = true).

Lemma supported_loop ls valid rep il :
  il ∈ (foldl supported_step (valid, rep) ls).1 → il ∈ valid ∨ (il ∈ ls ∧ listener_supported il).
Proof.
  revert valid rep. induction ls as [|x ls IH]; intros valid rep Hin; cbn [foldl] in Hin; [by left|].
  pose proof (supported_step_spec valid rep x) as Hs.
  destruct (supported_step (valid, rep) x) as [valid' rep']. simpl in Hs.
  apply IH in Hin as [Hin|[Hin Hm]]; [|right; split; [by right|done]].
  destruct Hs as [->|[-> Hm]]; [by left|].
  apply elem_of_app in Hin as [Hin| ->%list_elem_of_singleton]; [by left|right].
  split; [by left|done].
Qed.

Lemma supported_candidates gw il : il ∈ candidates gw → il ∈ gw_listeners gw ∧ listener_supported il.
Proof. by intros [?%not_elem_of_nil|?]%supported_loop. Qed.

(** The step decides on its listener alone. *)
Lemma supported_step_fst valid rep il :
  (supported_step (valid, rep) il).1 = valid ++ (supported_step ([], []) il).1.
Proof.
  unfold supported_step. simpl. destruct (getSupportedRouteKindsForListener _) as [m|];
    [|by rewrite app_nil_r].
  destruct (requested_kinds _); [done|]. simpl. case_bool_decide; [by rewrite app_nil_r|done].
Qed.

Lemma supported_step_snd valid rep il :
  (supported_step (valid, rep) il).2 = rep ++ (supported_step ([], []) il).2.
Proof.
  unfold supported_step. simpl. destruct (getSupportedRouteKindsForListener _); [|done].
  by destruct (requested_kinds _).
Qed.

Lemma candidate_kept ls valid rep il :
  il ∈ ls → (supported_step ([], []) il).1 ≠ [] → il ∈ (foldl supported_step (valid, rep) ls).1.
Proof.
  intros Hin Hne. revert valid rep.
  assert (∀ ls valid rep, il ∈ valid → il ∈ (foldl supported_step (valid, rep) ls).1) as Hmono.
  { clear. induction ls as [|x ls IH]; intros valid rep Hv; cbn [foldl]; [done|].
    pose proof (supported_step_fst valid rep x) as Hs.
    destruct (supported_step (valid, rep) x) as [v r]. simpl in Hs. apply IH. set_solver. }
  induction ls as [|x ls IH]; intros valid rep; cbn [foldl]; [by apply not_elem_of_nil in Hin|].
  pose proof (supported_step_fst valid rep x) as Hs.
  pose proof (supported_step_spec [] [] x) as Hx.
  destruct (supported_step (valid, rep) x) as [v r]. simpl in Hs.
  apply elem_of_cons in Hin as [<-|Hin]; [|by apply IH].
  destruct Hx as [Hx|[Hx _]]; [done|]. apply Hmono. rewrite Hs, Hx. set_solver.
Qed.

(** A Go map is iterated over in some order. *)
Context (Hiter : ∀ m, iter m ≡ₚ map_to_list m).

(** The accepted listeners: those of some port that its group lets pass. *)
Lemma elem_of_accepted gw e rep il :
  il ∈ (validateListeners gw e rep).1 ↔
  ∃ p, il ∈ on_port p (candidates gw) ∧ judge e p (group (on_port p (candidates gw))) il = None.
Proof.
  unfold validateListeners, candidates.
  rewrite (supported_fst (gw_listeners gw) [] [] rep : (validateSupportedRoutes _ _).1 = _).
  change (foldl supported_step ([], rep) (gw_listeners gw)) with
    (validateSupportedRoutes (gw_listeners gw) rep).
  destruct (validateSupportedRoutes (gw_listeners gw) rep) as [cands rep1]. simpl.
  pose proof (ports_spec cands rep1) as Hports.
  destruct (foldl group_step (∅, rep1) cands) as [ports rep2]. simpl in Hports.
  pose proof (judge_ports e (iter ports) ([], rep2, ∅)) as Hj.
  destruct (foldl _ _ (iter ports)) as [[valid rep3] sets]. simpl in Hj.
  transitivity (il ∈ valid); [by destruct valid|]. rewrite Hj, list_elem_of_bind.
  setoid_rewrite list_elem_of_filter. setoid_rewrite Hiter. split.
  - intros ([p pp] & [Hok Hin] & Hpp). simpl in *. apply elem_of_map_to_list in Hpp.
    rewrite Hports in Hpp. unfold grouped in Hpp. exists p.
    destruct (on_port p cands) eqn:Hon; [done|]. simplify_eq. done.
  - intros (p & Hin & Hok). exists (p, group (on_port p cands)). split; [done|].
    apply elem_of_map_to_list. rewrite Hports. unfold grouped.
    destruct (on_port p cands); [by apply not_elem_of_nil in Hin|done].
Qed.

(** ** What acceptance guarantees *)

Lemma elem_of_on_port p cands il :
  il ∈ on_port p cands ↔ ∃ x, x ∈ cands ∧ port_of x = Some p ∧ il = set_port x p.
Proof.
  unfold on_port. rewrite list_elem_of_fmap. setoid_rewrite list_elem_of_filter. naive_solver.
Qed.

Lemma on_port_port p cands il : il ∈ on_port p cands → l_port (il_listener il) = p.
Proof. by intros (x & _ & _ & ->)%elem_of_on_port. Qed.

Lemma port_of_nonzero il p : port_of il = Some p → p ≠ 0%Z.
Proof.
  unfold port_of, DetectListenerPortNumber. case_bool_decide; [naive_solver|].
  repeat case_match; naive_solver.
Qed.

Lemma judge_None e p pp il :
  judge e p pp il = None ↔
  unsupportedMixedTLSModeConflict pp il e = false ∧ protocolConflict pp il = false ∧
  hostNameConflict pp il = false ∧ p ∉ staticReservedPorts.
Proof.
  unfold judge, ListenerPort.
  destruct (unsupportedMixedTLSModeConflict _ _ _), (protocolConflict _ _), (hostNameConflict _ _);
    try naive_solver.
  case_bool_decide; naive_solver.
Qed.

(** Two listeners of a port without protocol conflict speak compatible protocols. *)
Lemma no_protocol_conflict ls a b :
  a ∈ ls → b ∈ ls → protocolConflict (group ls) a = false → protocolConflict (group ls) b = false →
  protocol_of a = protocol_of b.
Proof.
  intros Ha Hb. unfold protocolConflict. simpl. destruct (1 <? _)%nat eqn:Hs.
  - destruct ls as [|x ls]; [done|]. rewrite !negb_false_iff, !String.eqb_eq. unfold protocol_of.
    by intros -> ->.
  - intros _ _. apply Nat.ltb_ge in Hs.
    assert (∀ x, x ∈ ls → protocol_of x ∈ (list_to_set (map protocol_of ls) : gset string)) as Hin.
    { intros x Hx. apply elem_of_list_to_set, list_elem_of_fmap. eauto. }
    apply (size_singleton_inv (C := gset string) (list_to_set (map protocol_of ls))); [|auto|auto].
    assert (size (list_to_set (map protocol_of ls) : gset string) ≠ 0%nat); [|lia].
    apply size_non_empty_iff. specialize (Hin a Ha). set_solver.
Qed.

(** What identifies a listener, and identifiers whose parts the unique name separates: no
    slash in the kind and the namespace of the parent, no dot in the listener's own name. *)
Definition listener_id (il : IRListener) : string * string * string * string :=
  let p := il_parent il in (par_kind p, par_namespace p, par_name p, l_name (il_listener il)).

Definition plain_id (il : IRListener) : bool :=
  no_char "/"%char (par_kind (il_parent il)) && no_char "/"%char (par_namespace (il_parent il)) &&
  no_char "."%char (l_name (il_listener il)).

Lemma unique_name_inj a b :
  plain_id a = true → plain_id b = true → generateUniqueListenerName a = generateUniqueListenerName b →
  listener_id a = listener_id b.
Proof.
  unfold plain_id, generateUniqueListenerName, listener_id. intros Ha Hb. bool_hyps. intros He.
  apply sep_app_inj in He as [-> He]; [|done..]. apply sep_app_inj in He as [-> He]; [|done..].
  apply sep_app_inj_last in He as [-> ->]; [|done..]. done.
Qed.

(** C15: The accepted listeners of a gateway can share its ports: none listens on a
    reserved port or on port zero, and on one port they speak compatible protocols
    (HTTPS and TLS count as one).  Two of them with the same hostname have the same
    unique name, and so, unless a listener name contains a dot, the same parent kind,
    namespace and name and the same listener name. *)
Theorem accepted_listeners_compatible gw e rep a b :
  a ∈ (validateListeners gw e rep).1 → b ∈ (validateListeners gw e rep).1 →
  (l_port (il_listener a) ∉ staticReservedPorts) ∧ l_port (il_listener a) ≠ 0%Z ∧
  (l_port (il_listener a) = l_port (il_listener b) →
   protocol_of a = protocol_of b ∧
   (il_hostname a = il_hostname b →
    generateUniqueListenerName a = generateUniqueListenerName b ∧
    (plain_id a = true → plain_id b = true → listener_id a = listener_id b))).
Proof.
  intros (p & Ha & Hja)%elem_of_accepted. intros (q & Hb & Hjb)%elem_of_accepted.
  apply judge_None in Hja as (_ & Hpa & Hha & Hra). apply judge_None in Hjb as (_ & Hpb & Hhb & _).
  rewrite (on_port_port _ _ _ Ha), (on_port_port _ _ _ Hb).
  split; [done|]. split; [by apply elem_of_on_port in Ha as (x & _ & Hx%port_of_nonzero & _)|].
  intros <-. split; [by eapply no_protocol_conflict|]. intros Hh.
  unfold hostNameConflict in *. bool_hyps.
  assert (generateUniqueListenerName a = generateUniqueListenerName b) as Hn by by rewrite Hha, Hhb, Hh.
  split; [done|]. intros. by apply unique_name_inj.
Qed.

(** Listener precedence: unless its port is reserved, the first candidate of
    a port is always accepted, whatever the listeners after it ask for. *)
Theorem first_listener_accepted gw rep pre il post p :
  candidates gw = pre ++ il :: post → port_of il = Some p → p ∉ staticReservedPorts →
  (∀ x, x ∈ pre → port_of x ≠ Some p) →
  set_port il p ∈ (validateListeners gw true rep).1.
Proof.
  intros Hc Hp Hr Hpre. apply elem_of_accepted. exists p.
  assert (on_port p (candidates gw) = set_port il p :: on_port p post) as Hon.
  { rewrite Hc. unfold on_port. rewrite filter_app, filter_cons, decide_True by done.
    assert (filter (λ x, port_of x = Some p) pre = []) as ->; [|done].
    apply elem_of_nil_inv. intros x [Hx1 Hx2]%list_elem_of_filter. by eapply Hpre. }
  rewrite Hon. split; [by left|]. apply judge_None. split; [done|]. split.
  - unfold protocolConflict. simpl. case_match; [|done]. by rewrite String.eqb_refl.
  - split; [|done]. unfold hostNameConflict. simpl. rewrite hosts_lookup. unfold add_host.
    rewrite lookup_empty, lookup_insert_eq. by rewrite String.eqb_refl.
Qed.

(** Validation never invents a listener: an accepted listener is one of the
    gateway's with its port filled in, its protocol supports some route kind, and
    it supports at least one kind among those it asks for. *)
Theorem accepted_listeners_supported gw e rep il :
  il ∈ (validateListeners gw e rep).1 →
  ∃ x, x ∈ gw_listeners gw ∧ listener_supported x ∧ port_of x = Some (l_port (il_listener il)) ∧
       il = set_port x (l_port (il_listener il)).
Proof.
  intros (p & Hin & _)%elem_of_accepted. rewrite (on_port_port _ _ _ Hin).
  apply elem_of_on_port in Hin as (x & Hx & Hp & ->). exists x.
  by apply supported_candidates in Hx as [? ?].
Qed.

(** ** What rejection reports *)

Lemma supported_reports ls valid rep :
  (foldl supported_step (valid, rep) ls).2 = rep ++ (ls ≫= λ il, (supported_step ([], []) il).2).
Proof.
  revert valid rep. induction ls as [|il ls IH]; intros valid rep; cbn [foldl];
    [by rewrite app_nil_r|].
  pose proof (supported_step_snd valid rep il) as Hs.
  destruct (supported_step (valid, rep) il) as [v r]. simpl in Hs.
  rewrite IH, Hs. simpl. by rewrite <- app_assoc.
Qed.

Lemma group_reports ls ports rep :
  (foldl group_step (ports, rep) ls).2 = rep ++ (ls ≫= λ il, (group_step (∅, []) il).2).
Proof.
  revert ports rep. induction ls as [|il ls IH]; intros ports rep; cbn [foldl];
    [by rewrite app_nil_r|].
  unfold group_step at 2. simpl.
  destruct (DetectListenerPortNumber _ _); rewrite IH; [by rewrite <- app_assoc|done].
Qed.

Lemma judge_reports e p pp ls valid rep sets :
  (foldl (judge_step e p pp) (valid, rep, sets) ls).1.2 =
  rep ++ (ls ≫= λ il, default [] (judge e p pp il)).
Proof.
  revert valid rep sets. induction ls as [|il ls IH]; intros valid rep sets; cbn [foldl];
    [by rewrite app_nil_r|].
  unfold judge_step at 2. simpl. destruct (judge e p pp il); rewrite IH; simpl; by rewrite <- ?app_assoc.
Qed.

Lemma judge_ports_reports e l acc :
  (foldl (λ acc pp, foldl (judge_step e pp.1 pp.2) acc (pp_listeners pp.2)) acc l).1.2 =
  acc.1.2 ++ (l ≫= λ pp, pp_listeners pp.2 ≫= λ il, default [] (judge e pp.1 pp.2 il)).
Proof.
  revert acc. induction l as [|pp l IH]; intros [[valid rep] sets]; cbn [foldl];
    [by rewrite app_nil_r|].
  rewrite IH, judge_reports. simpl. by rewrite <- app_assoc.
Qed.

(** All the reports of the three loops are kept, and those made before. *)
Lemma reports_kept gw e rep r :
  r ∈ (gw_listeners gw ≫= λ il, (supported_step ([], []) il).2) ∨
  r ∈ (candidates gw ≫= λ il, (group_step (∅, []) il).2) ∨
  (∃ p il, il ∈ on_port p (candidates gw) ∧
           r ∈ default [] (judge e p (group (on_port p (candidates gw))) il)) ∨
  r ∈ rep →
  r ∈ (validateListeners gw e rep).2.
Proof.
  unfold validateListeners, candidates.
  rewrite (supported_fst (gw_listeners gw) [] [] rep : (validateSupportedRoutes _ _).1 = _).
  change (foldl supported_step ([], rep) (gw_listeners gw)) with
    (validateSupportedRoutes (gw_listeners gw) rep).
  pose proof (supported_reports (gw_listeners gw) [] rep) as H1.
  change (foldl supported_step ([], rep) (gw_listeners gw)) with
    (validateSupportedRoutes (gw_listeners gw) rep) in H1.
  destruct (validateSupportedRoutes (gw_listeners gw) rep) as [cands rep1]. simpl in H1. simpl.
  pose proof (ports_spec cands rep1) as Hports. pose proof (group_reports cands ∅ rep1) as H2.
  destruct (foldl group_step (∅, rep1) cands) as [ports rep2]. simpl in Hports, H2.
  pose proof (judge_ports_reports e (iter ports) ([], rep2, ∅)) as H3.
  destruct (foldl _ _ (iter ports)) as [[valid rep3] sets]. simpl in H3. intros Hr.
  enough (r ∈ rep3) by (destruct valid; simpl; rewrite elem_of_app; by left).
  rewrite H3, H2, H1, !elem_of_app. destruct Hr as [Hr|[Hr|[(p & il & Hin & Hr)|Hr]]]; [tauto|tauto| |tauto].
  right. apply list_elem_of_bind. exists (p, group (on_port p cands)). split.
  - apply list_elem_of_bind. by exists il.
  - rewrite Hiter. apply elem_of_map_to_list. rewrite Hports. unfold grouped.
    destruct (on_port p cands); [by apply not_elem_of_nil in Hin|done].
Qed.

(** A condition that tells the owner of a listener it is not (fully) accepted. *)
Definition negative_report (il : IRListener) (r : Report) : Prop :=
  ∃ c, r = RListenerCondition (il_parent il) (l_name (il_listener il)) c ∧ c_status c = false ∧
       (c_type c = "Accepted" ∨ c_type c = "ResolvedRefs").

Lemma unsupported_reported gw il :
  il ∈ gw_listeners gw → il ∈ candidates gw ∨ ∃ r, r ∈ (supported_step ([], []) il).2 ∧ negative_report il r.
Proof.
  intros Hin. destruct (decide (((supported_step ([], []) il).1 = []))) as [Hnil|Hne].
  - right. unfold supported_step in *. destruct (getSupportedRouteKindsForListener _) as [m|].
    + destruct (requested_kinds _) as [|k ks] eqn:Hk; [done|].
      simpl in Hnil. case_bool_decide as Hf; [|done].
      rewrite bool_decide_eq_false_2.
      { eexists. split; [simpl; right; left|]. eexists. split; [done|]. split; [done|by right]. }
      intros Hi. assert (k ∈ filter (λ k, kind_supported m k = true) (k :: ks) ∨
                         k ∈ filter (λ k, kind_supported m k = false) (k :: ks)) as Hor.
      { rewrite !list_elem_of_filter. destruct (kind_supported m k); set_solver. }
      rewrite Hf, Hi in Hor. set_solver.
    + eexists. split; [simpl; left|]. eexists. split; [done|]. split; [done|by left].
  - left. unfold candidates, validateSupportedRoutes. by apply candidate_kept.
Qed.

Lemma conflict_negative il reason msg :
  ∃ r, r ∈ rejectConflictedListener il reason msg ∧ negative_report il r.
Proof.
  eexists. split; [right; left|]. eexists. split; [done|]. split; [done|by left].
Qed.

Lemma judge_negative e p pp il rs :
  judge e p pp (set_port il p) = Some rs → ∃ r, r ∈ rs ∧ negative_report il r.
Proof.
  unfold judge. intros Hj.
  destruct (unsupportedMixedTLSModeConflict _ _ _); simplify_eq.
  { destruct (conflict_negative (set_port il p) "ProtocolConflict" ListenerMessageProtocolConflict)
      as (r & Hr & Hn). exists r. split; [by right|done]. }
  repeat case_match; simplify_eq; apply (conflict_negative (set_port il p)).
Qed.

Lemma no_port_negative il :
  port_of il = None → ∃ r, r ∈ (group_step (∅, []) il).2 ∧ negative_report il r.
Proof.
  unfold port_of, group_step. destruct (DetectListenerPortNumber _ _); [|done]. intros _.
  eexists. split; [simpl; left|]. eexists. split; [done|]. split; [done|by left].
Qed.

(** No listener is dropped silently: every listener of the gateway is
    accepted, or a condition on it says it is not accepted or that its route
    kinds do not resolve. *)
Theorem rejected_listeners_reported gw e rep il :
  il ∈ gw_listeners gw →
  (∃ p, set_port il p ∈ (validateListeners gw e rep).1) ∨
  ∃ r, r ∈ (validateListeners gw e rep).2 ∧ negative_report il r.
Proof.
  intros Hin. destruct (unsupported_reported gw il Hin) as [Hc|(r & Hr & Hneg)].
  - destruct (port_of il) as [p|] eqn:Hp.
    + assert (set_port il p ∈ on_port p (candidates gw)) as Hon by (apply elem_of_on_port; eauto).
      destruct (judge e p (group (on_port p (candidates gw))) (set_port il p)) as [rs|] eqn:Hj.
      * right. destruct (judge_negative _ _ _ _ _ Hj) as (r & Hr & Hneg).
        exists r. split; [|done]. apply reports_kept. right. right. left. exists p, (set_port il p).
        rewrite Hj. done.
      * left. exists p. apply elem_of_accepted. eauto.
    + right. destruct (no_port_negative il Hp) as (r & Hr & Hneg). exists r. split; [|done].
      apply reports_kept. right. left. apply list_elem_of_bind. eauto.
  - right. exists r. split; [|done]. apply reports_kept. left. apply list_elem_of_bind. eauto.
Qed.

End listeners.
End of_listeners.

(** ** Witnesses *)

Definition ex_parent : Parent := mkParent TGateway "Gateway" "infra" "gw".
Definition ex_il (n : string) (h : option string) (port : Z) (protocol : string) : @IRListener unit :=
  mkIRL (mkListener n h port protocol None None) ex_parent tt.
Definition ex_gw (ls : list (@IRListener unit)) : @GatewayIR unit := mkGW ex_parent (length ls) ls [] [].
Definition ex_validate (ls : list (@IRListener unit)) : list string :=
  map (λ il, l_name (il_listener il)) (validateListeners map_to_list (ex_gw ls) true []).1.

Definition ex_https := ex_il "https" (Some "a.com") 443 "HTTPS".
Definition ex_tls_l := ex_il "tls" (Some "b.com") 443 "TLS".
Definition ex_tcp := ex_il "tcp" None 443 "TCP".

Lemma ex_iter : ∀ m : gmap Z (@portProtocol unit), map_to_list m ≡ₚ map_to_list m.
Proof. reflexivity. Qed.

Lemma accepted_listeners_compatible_witness : protocol_of ex_https = protocol_of ex_tls_l.
Proof.
  refine (proj1 (proj2 (proj2 (accepted_listeners_compatible map_to_list ex_iter
    (ex_gw [ex_https; ex_tls_l]) true [] ex_https ex_tls_l _ _)) _)).
  - vm_compute. left.
  - vm_compute. right. left.
  - reflexivity.
Defined.

(** Two listeners of two ListenerSets on one port and hostname, both accepted: their unique
    names coincide because the name of a listener may contain a dot. *)
Definition ex_set_listener (set name : string) : @IRListener unit :=
  mkIRL (mkListener name (Some "a.com") 443 "HTTPS" None None) (mkParent TListenerSet "ListenerSet" "infra" set) tt.

Theorem dotted_listener_names_collide :
  let a := ex_set_listener "a" "b.c" in let b := ex_set_listener "a.b" "c" in
  (validateListeners map_to_list (ex_gw [a; b]) true []).1 = [a; b] ∧
  il_hostname a = il_hostname b ∧ listener_id a ≠ listener_id b.
Proof. by vm_compute. Qed.

Lemma first_listener_accepted_witness :
  ex_https ∈ (validateListeners map_to_list (ex_gw [ex_https; ex_tcp]) true []).1.
Proof.
  refine (first_listener_accepted map_to_list ex_iter (ex_gw [ex_https; ex_tcp]) [] [] ex_https [ex_tcp] 443
    _ _ _ _).
  - vm_compute. reflexivity.
  - reflexivity.
  - apply (bool_decide_unpack _). vm_compute. exact I.
  - intros x Hx. apply not_elem_of_nil in Hx. destruct Hx.
Defined.

Lemma accepted_listeners_supported_witness : listener_supported ex_https.
Proof.
  destruct (accepted_listeners_supported map_to_list ex_iter (ex_gw [ex_https]) true [] ex_https)
    as (x & Hx & Hs & _).
  - vm_compute. left.
  - apply list_elem_of_singleton in Hx as ->. exact Hs.
Defined.

Lemma rejected_listeners_reported_witness :
  (∃ p, set_port ex_tcp p ∈ (validateListeners map_to_list (ex_gw [ex_https; ex_tcp]) true []).1) ∨
  ∃ r, r ∈ (validateListeners map_to_list (ex_gw [ex_https; ex_tcp]) true []).2 ∧ negative_report ex_tcp r.
Proof.
  apply (rejected_listeners_reported map_to_list ex_iter (ex_gw [ex_https; ex_tcp]) true [] ex_tcp).
  right. left.
Defined.

(** ** Conflicts with rejected listeners

    Protocols are compared as written once a port has seen a conflict, although
    HTTPS and TLS count as one when conflicts are detected; and the owner of a
    hostname may itself be rejected for its protocol. *)

(** A rejected listener still does damage: a TCP listener of lower
    precedence takes down the TLS listener that shares the port with an HTTPS
    one, and a rejected TCP listener keeps the catch-all hostname from the HTTP
    listener after it. *)
Theorem rejected_listener_interferes :
  ex_validate [ex_https; ex_tls_l] = ["https"; "tls"] ∧
  ex_validate [ex_https; ex_tls_l; ex_tcp] = ["https"] ∧
  let http n h := ex_il n h 80 "HTTP" in
  ex_validate [http "first" (Some "a.com"); http "all" None] = ["first"; "all"] ∧
  ex_validate [http "first" (Some "a.com"); ex_il "tcp" None 80 "TCP"; http "all" None] = ["first"].
Proof. vm_compute. auto. Qed.
