(* ===== verification/Endpoints.v ===== *)
(** * Endpoint prioritisation (pkg/kgateway/endpoints/prioritize.go)

    A backend's endpoints, grouped by locality, become a ClusterLoadAssignment
    for one connected client: priorities either from the client's labels
    ([FailoverPriority]) or from its locality.  Envoy endpoints carry their
    socket address, their weight and an opaque rest.  [uint32] sums and products
    wrap. *)

From S2P Require Import Prelude IR.

Definition uint32 (z : Z) : Z := (z mod 2 ^ 32)%Z.

(** ** Data *)

Record PodLocality := mkLoc { loc_region : string; loc_zone : string; loc_subzone : string }.
#[global] Instance PodLocality_eq_dec : EqDecision PodLocality.
Proof. solve_decision. Defined.
#[global] Instance PodLocality_countable : Countable PodLocality.
Proof.
  apply (inj_countable' (λ l, (loc_region l, loc_zone l, loc_subzone l))
    (λ p, mkLoc p.1.1 p.1.2 p.2)). by intros [].
Defined.

(** [le_socket] is [None] for an endpoint that is not a socket address; [le_health_host] is the
    hostname of its health check configuration, if it has one. *)
Record LbEndpoint := mkLbEp {
  le_socket : option string; le_weight : option Z; le_health_host : option string; le_rest : string }.

Record EndpointWithMd := mkEp { ep_lb : LbEndpoint; ep_labels : gmap string string }.

Record LocalityLbEndpoints := mkLLE {
  lle_locality : option PodLocality; lle_endpoints : list LbEndpoint;
  lle_weight : option Z; lle_priority : Z }.

Record ClusterLoadAssignment := mkCLA { cla_cluster : string; cla_endpoints : list LocalityLbEndpoints }.

Record Prioritizer := mkPrioritizer {
  pr_labels : list string; pr_overrides : gmap string string; pr_lowest : Z }.

Record FailoverSetting := mkFailover { fo_from : string; fo_to : string }.

Record PriorityInfo := mkPInfo { pi_failover_priority : option Prioritizer; pi_failover : list FailoverSetting }.

Record EndpointsForBackend := mkEFB {
  efb_lb_eps : gmap PodLocality (list EndpointWithMd); efb_cluster : string;
  efb_traffic_distribution : TrafficDistribution }.

Record EndpointsInputs := mkEI { ei_endpoints : EndpointsForBackend; ei_priority_info : option PriorityInfo }.

Record UniquelyConnectedClient := mkUCC {
  ucc_role : string; ucc_labels : gmap string string; ucc_locality : PodLocality;
  ucc_namespace : string; ucc_knows_local_cluster : bool; ucc_resource_name : string }.

Record LoadBalancingInfo := mkLBI {
  lbi_labels : gmap string string; lbi_locality : PodLocality; lbi_priority_info : option PriorityInfo }.

(** ** Label priorities *)

Definition override_step (acc : list string * gmap string string) (labelWithValue : string) :
    list string * gmap string string :=
  match split "="%char labelWithValue with
  | [k; v] => (acc.1 ++ [k], <[k := v]> acc.2)
  | k :: _ => (acc.1 ++ [k], acc.2)
  | [] => acc
  end.

Definition priorityLabelOverrides (labels : list string) : list string * gmap string string :=
  foldl override_step ([], ∅) labels.

Definition NewPriorities (failoverPriority : list string) : option Prioritizer :=
  match failoverPriority with
  | [] => None
  | _ => let '(ls, o) := priorityLabelOverrides failoverPriority in
         Some (mkPrioritizer ls o (Z.of_nat (length failoverPriority)))
  end.

(** The client's value of a label: the override, or its own label; a missing
    label reads as the empty string. *)
Definition proxy_value (p : Prioritizer) (proxyLabels : gmap string string) (label : string) : string :=
  default (default "" (proxyLabels !! label)) (pr_overrides p !! label).

Fixpoint priority_loop (p : Prioritizer) (proxyLabels epLabels : gmap string string) (j : Z)
    (labels : list string) : Z :=
  match labels with
  | [] => 0%Z
  | label :: rest =>
      if negb (String.eqb (proxy_value p proxyLabels label) (default "" (epLabels !! label)))
      then (pr_lowest p - j)%Z
      else priority_loop p proxyLabels epLabels (j + 1) rest
  end.

Definition GetPriority (p : Prioritizer) (proxyLabels epLabels : gmap string string) : Z :=
  priority_loop p proxyLabels epLabels 0 (pr_labels p).

Definition TopologyNetwork : string := "topology.istio.io/network".
Definition LabelZoneRegion : string := "failure-domain.beta.kubernetes.io/region".
Definition LabelTopologyZone : string := "topology.kubernetes.io/zone".
Definition TopologySubzone : string := "topology.istio.io/subzone".
Definition LabelHostname : string := "kubernetes.io/hostname".

Definition priorityInfoFromTrafficDistribution (td : TrafficDistribution) : option PriorityInfo :=
  let priorities :=
    match td with
    | TDPreferSameZone => NewPriorities [TopologyNetwork; LabelZoneRegion; LabelTopologyZone]
    | TDPreferSameNode =>
        NewPriorities [TopologyNetwork; LabelZoneRegion; LabelTopologyZone; TopologySubzone; LabelHostname]
    | TDPreferNetwork => NewPriorities [TopologyNetwork]
    | TDAny => None
    end in
  (λ p, mkPInfo (Some p) []) <$> priorities.

Definition ResolvedPriorityInfo (inputs : EndpointsInputs) : option PriorityInfo :=
  match ei_priority_info inputs with
  | Some p => Some p
  | None => priorityInfoFromTrafficDistribution (efb_traffic_distribution (ei_endpoints inputs))
  end.

Definition DependsOnClient (inputs : EndpointsInputs) : bool :=
  bool_decide (is_Some (ResolvedPriorityInfo inputs)).

Definition loadBalancingInfoFor (ucc : UniquelyConnectedClient) (inputs : EndpointsInputs) : LoadBalancingInfo :=
  mkLBI (ucc_labels ucc) (ucc_locality ucc) (ResolvedPriorityInfo inputs).

(** ** Endpoints of a locality *)

Definition lbWeight (e : LbEndpoint) : Z := match le_weight e with Some w => w | None => 1%Z end.

Definition filterInvalidEps (eps : list EndpointWithMd) : list EndpointWithMd :=
  filter (λ e, le_socket (ep_lb e) ≠ Some "") eps.

(** The weight of a group of endpoints, unset when it sums to zero. *)
Definition total_weight (eps : list LbEndpoint) : option Z :=
  let w := foldl (λ acc e, uint32 (acc + lbWeight e)) 0%Z eps in
  if bool_decide (0 < w)%Z then Some w else None.

(** [priorityMap]: the indices of each priority, in order. *)
Definition add_index (m : gmap Z (list nat)) (p : Z) (i : nat) : gmap Z (list nat) :=
  <[p := default [] (m !! p) ++ [i]]> m.

Definition priority_map (ps : list Z) : gmap Z (list nat) :=
  foldl (λ m ip, add_index m ip.2 ip.1) ∅ (imap pair ps).

Definition sorted_priorities (m : gmap Z (list nat)) : list Z :=
  sort_stable Z.compare (map fst (map_to_list m)).

Definition applyFailoverPriorityPerLocality (eps : list EndpointWithMd) (p : Prioritizer)
    (podLabels : gmap string string) : list LocalityLbEndpoints :=
  let m := priority_map (map (λ e, GetPriority p podLabels (ep_labels e)) eps) in
  map (λ prio,
    let group := omap (λ i, ep_lb <$> eps !! i) (default [] (m !! prio)) in
    mkLLE None group (total_weight group) (uint32 prio)) (sorted_priorities m).

Definition getEndpoints (eps : list EndpointWithMd) (lbinfo : LoadBalancingInfo) : list LocalityLbEndpoints :=
  match lbi_priority_info lbinfo with
  | Some (mkPInfo (Some p) _) => applyFailoverPriorityPerLocality eps p (lbi_labels lbinfo)
  | _ => let l := map ep_lb eps in [mkLLE None l (total_weight l) 0]
  end.

(** ** Locality failover *)

Definition no_locality : PodLocality := mkLoc "" "" "".

(** A nil locality reads as empty fields. *)
Definition LbPriority (proxy : PodLocality) (endpoints : option PodLocality) : Z :=
  let e := default no_locality endpoints in
  if String.eqb (loc_region proxy) (loc_region e) then
    if String.eqb (loc_zone proxy) (loc_zone e) then
      if String.eqb (loc_subzone proxy) (loc_subzone e) then 0 else 1
    else 2
  else 3.

(** The first failover setting from the client's region decides. *)
Definition failover_priority (proxy : PodLocality) (failover : list FailoverSetting)
    (loc : option PodLocality) : Z :=
  let priority := LbPriority proxy loc in
  if bool_decide (priority = 3%Z) then
    match list_find (λ f, fo_from f = loc_region proxy) failover with
    | Some (_, f) =>
        match loc with
        | None => 4
        | Some l => if String.eqb (loc_region l) (fo_to f) then 3 else 4
        end
    | None => 3
    end
  else priority.

Definition set_priority (l : LocalityLbEndpoints) (p : Z) : LocalityLbEndpoints :=
  mkLLE (lle_locality l) (lle_endpoints l) (lle_weight l) p.

Definition priority_int (proxy : PodLocality) (failover : list FailoverSetting)
    (l : LocalityLbEndpoints) : Z :=
  uint32 (lle_priority l * 5) + failover_priority proxy failover (lle_locality l).

(** Step 2.2: write the index of each priority to the endpoints that have it. *)
Definition renumber (m : gmap Z (list nat)) (eps : list LocalityLbEndpoints) (ip : nat * Z) :
    list LocalityLbEndpoints :=
  if bool_decide (Z.of_nat ip.1 ≠ ip.2) then
    foldl (λ eps index, alter (λ l, set_priority l (uint32 (Z.of_nat ip.1))) index eps) eps
      (default [] (m !! ip.2))
  else eps.

Definition applyLocalityFailover (proxy : PodLocality) (eps : list LocalityLbEndpoints)
    (failover : list FailoverSetting) : list LocalityLbEndpoints :=
  let ps := map (priority_int proxy failover) eps in
  let eps := zip_with (λ l p, set_priority l (uint32 p)) eps ps in
  let m := priority_map ps in
  foldl (renumber m) eps (imap pair (sorted_priorities m)).

(** ** The assignment *)

Definition locality_cmp : PodLocality → PodLocality → comparison :=
  (cmp_on loc_region String.compare ▷ cmp_on loc_zone String.compare ▷
   cmp_on loc_subzone String.compare)%cmp.

(** [sortedLocalities]: the keys of the map come in an arbitrary order. *)
Definition sortedLocalities (keys : list PodLocality) : list PodLocality := sort_stable locality_cmp keys.

Definition locality_endpoints (lbInfo : LoadBalancingInfo) (loc : PodLocality)
    (eps : list EndpointWithMd) : list LocalityLbEndpoints :=
  let l := if bool_decide (loc = no_locality) then None else Some loc in
  map (λ e, mkLLE l (lle_endpoints e) (lle_weight e) (lle_priority e))
      (getEndpoints (filterInvalidEps eps) lbInfo).

Section prioritize.
(** The iteration order of the endpoint map. *)
Context (keys : gmap PodLocality (list EndpointWithMd) → list PodLocality).

Definition prioritizeWithLbInfo (ep : EndpointsForBackend) (lbInfo : LoadBalancingInfo) :
    ClusterLoadAssignment :=
  let eps := sortedLocalities (keys (efb_lb_eps ep)) ≫= λ loc,
               locality_endpoints lbInfo loc (default [] (efb_lb_eps ep !! loc)) in
  mkCLA (efb_cluster ep)
    (match lbi_priority_info lbInfo with
     | Some (mkPInfo None failover) => applyLocalityFailover (lbi_locality lbInfo) eps failover
     | _ => eps
     end).

Definition PrioritizeEndpoints (ucc : UniquelyConnectedClient) (inputs : EndpointsInputs) :
    ClusterLoadAssignment := prioritizeWithLbInfo (ei_endpoints inputs) (loadBalancingInfoFor ucc inputs).

(** The fields [LoadBalancingContextHash] feeds to the hasher; nothing is hashed
    when the endpoints do not depend on the client. *)
Definition lb_context (ucc : UniquelyConnectedClient) (inputs : EndpointsInputs) : option (list string) :=
  match ResolvedPriorityInfo inputs with
  | None => None
  | Some (mkPInfo (Some p) _) =>
      Some (pr_labels p ≫= λ label, [label; proxy_value p (ucc_labels ucc) label])
  | Some (mkPInfo None _) =>
      let l := ucc_locality ucc in Some [loc_region l; loc_zone l; loc_subzone l]
  end.

(** [LoadBalancingContextHash], over any hash of a sequence of fields. *)
Definition LoadBalancingContextHash (hash : list string → Z) (ucc : UniquelyConnectedClient)
    (inputs : EndpointsInputs) : Z :=
  match lb_context ucc inputs with None => 0 | Some fields => hash fields end.
End prioritize.

(** ** Lemmas: label priorities *)

Lemma override_labels l acc :
  length (foldl override_step acc l).1 = (length acc.1 + length l)%nat.
Proof.
  revert acc. induction l as [|x l IH]; intros acc; simpl; [lia|]. rewrite IH.
  unfold override_step. destruct (split_nonempty "="%char x) as (k & r & ->).
  destruct r as [|v [|? ?]]; simpl; rewrite length_app; simpl; lia.
Qed.

(** How many of the labels agree before the first that does not. *)
Fixpoint matched (p : Prioritizer) (proxyLabels epLabels : gmap string string) (labels : list string) : nat :=
  match labels with
  | [] => 0
  | label :: rest =>
      if String.eqb (proxy_value p proxyLabels label) (default "" (epLabels !! label))
      then S (matched p proxyLabels epLabels rest) else 0
  end.

Lemma matched_le p pl el labels : (matched p pl el labels ≤ length labels)%nat.
Proof. induction labels as [|x l IH]; simpl; [lia|]. case_match; lia. Qed.

Lemma priority_loop_matched p pl el labels j :
  (pr_lowest p = j + Z.of_nat (length labels))%Z →
  priority_loop p pl el j labels = Z.of_nat (length labels - matched p pl el labels).
Proof.
  revert j. induction labels as [|x l IH]; intros j Hj; simpl in *; [lia|].
  destruct (String.eqb _ _); simpl; [|lia]. rewrite IH by lia. lia.
Qed.

(** The priority of an endpoint counts the labels from the first mismatch
    on: zero when all agree with the client, and one step better for every
    further label of the list that agrees. *)
Theorem priority_counts_mismatches fp p pl el :
  NewPriorities fp = Some p →
  GetPriority p pl el = Z.of_nat (length fp - matched p pl el (pr_labels p)) ∧
  (matched p pl el (pr_labels p) ≤ length fp)%nat.
Proof.
  unfold NewPriorities. destruct fp as [|x fp]; [done|].
  pose proof (override_labels (x :: fp) ([], ∅)) as Hlen.
  change (foldl override_step ([], ∅) (x :: fp)) with (priorityLabelOverrides (x :: fp)) in Hlen.
  destruct (priorityLabelOverrides (x :: fp)) as [ls o]. simpl in Hlen. intros [= <-].
  unfold GetPriority. set (p := mkPrioritizer _ _ _). rewrite (priority_loop_matched p); simpl; [|lia].
  pose proof (matched_le p pl el ls). simpl in *. rewrite Hlen in *. split; lia.
Qed.

(** ** Lemmas: grouping by priority *)

Lemma add_index_values m p i :
  (map_to_list (add_index m p i) ≫= snd) ≡ₚ (map_to_list m ≫= snd) ++ [i].
Proof.
  unfold add_index. destruct (m !! p) as [l|] eqn:Hp; simpl.
  - rewrite <- insert_delete_eq.
    rewrite map_to_list_insert by apply lookup_delete_eq.
    rewrite <- (insert_delete_id m p l Hp) at 2.
    rewrite map_to_list_insert by apply lookup_delete_eq. simpl.
    rewrite <- !app_assoc. apply Permutation_app_head, Permutation_app_comm.
  - rewrite map_to_list_insert by done. simpl. apply Permutation_cons_append.
Qed.

Lemma priority_map_fold ps k m :
  (map_to_list (foldl (λ m ip, add_index m ip.2 ip.1) m (imap (λ i p, (k + i, p)%nat) ps)) ≫= snd) ≡ₚ
  (map_to_list m ≫= snd) ++ seq k (length ps).
Proof.
  revert k m. induction ps as [|p ps IH]; intros k m; simpl; [by rewrite app_nil_r|].
  rewrite Nat.add_0_r. rewrite imap_ext with (g := λ i p, (S k + i, p)%nat) by (intros; unfold compose; simpl; f_equal; lia).
  rewrite IH, add_index_values. simpl. by rewrite <- app_assoc.
Qed.

(** Every index is filed under exactly one priority. *)
Lemma priority_map_values ps : (map_to_list (priority_map ps) ≫= snd) ≡ₚ seq 0 (length ps).
Proof.
  unfold priority_map. rewrite imap_ext with (g := λ i p, (0 + i, p)%nat) by done.
  by rewrite priority_map_fold, map_to_list_empty.
Qed.

Lemma add_index_lookup m p i q :
  default [] (add_index m p i !! q) = default [] (m !! q) ++ (if decide (p = q) then [i] else []).
Proof.
  unfold add_index. case_decide as Hq.
  - subst q. by rewrite lookup_insert_eq.
  - rewrite lookup_insert_ne by done. by rewrite app_nil_r.
Qed.

Lemma priority_map_elem_fold ps k m q i :
  i ∈ default [] (foldl (λ m ip, add_index m ip.2 ip.1) m (imap (λ i p, (k + i, p)%nat) ps) !! q) ↔
  i ∈ default [] (m !! q) ∨ (∃ j, i = (k + j)%nat ∧ ps !! j = Some q).
Proof.
  revert k m. induction ps as [|p ps IH]; intros k m; simpl.
  { setoid_rewrite lookup_nil. naive_solver. }
  rewrite Nat.add_0_r. rewrite imap_ext with (g := λ i p, (S k + i, p)%nat) by (intros; unfold compose; simpl; f_equal; lia).
  rewrite IH, add_index_lookup, elem_of_app. split.
  - intros [[H|H]|(j & -> & H)]; [by left| |right; exists (S j); split; [lia|done]].
    case_decide as Hp; [|by apply not_elem_of_nil in H]. apply list_elem_of_singleton in H as ->.
    right. exists 0%nat. subst. split; [lia|done].
  - intros [H|(j & -> & H)]; [by left; left|]. destruct j as [|j]; simpl in H.
    + simplify_eq. left. right. rewrite decide_True by done. rewrite Nat.add_0_r. by left.
    + right. exists j. split; [lia|done].
Qed.

Lemma priority_map_elem ps q i : i ∈ default [] (priority_map ps !! q) ↔ ps !! i = Some q.
Proof.
  unfold priority_map. rewrite imap_ext with (g := λ i p, (0 + i, p)%nat) by done.
  rewrite priority_map_elem_fold, lookup_empty. simpl. split.
  - intros [H|(j & -> & H)]; [by apply not_elem_of_nil in H|done].
  - intros H. right. eauto.
Qed.

Lemma priority_map_dom_fold (l : list (nat * Z)) m q :
  is_Some (foldl (λ m ip, add_index m ip.2 ip.1) m l !! q) ↔ is_Some (m !! q) ∨ q ∈ map snd l.
Proof.
  revert m. induction l as [|[i p] l IH]; intros m; simpl.
  { rewrite elem_of_nil. tauto. }
  rewrite IH, elem_of_cons. unfold add_index. destruct (decide (p = q)) as [->|Hne].
  - rewrite lookup_insert_eq. naive_solver.
  - rewrite lookup_insert_ne by done. naive_solver.
Qed.

Lemma snd_imap_pair (ps : list Z) : map snd (imap pair ps) = ps.
Proof.
  apply list_eq. intros i. change (map snd (imap pair ps)) with (snd <$> imap pair ps).
  rewrite list_lookup_fmap, list_lookup_imap. by destruct (ps !! i).
Qed.

Lemma priority_map_dom ps q : is_Some (priority_map ps !! q) ↔ q ∈ ps.
Proof.
  unfold priority_map. rewrite priority_map_dom_fold, snd_imap_pair, lookup_empty.
  split; [intros [[? ?]|?]; done|by right].
Qed.

Lemma elem_of_sorted_priorities m p : p ∈ sorted_priorities m ↔ is_Some (m !! p).
Proof.
  unfold sorted_priorities. rewrite sort_stable_elem_of, list_elem_of_fmap. split.
  - intros ([q l] & -> & Hq). apply elem_of_map_to_list in Hq. eauto.
  - intros [l Hl]. exists (p, l). by rewrite elem_of_map_to_list.
Qed.

Lemma sorted_priorities_nodup m : NoDup (sorted_priorities m).
Proof. unfold sorted_priorities. rewrite sort_stable_perm. apply NoDup_fst_map_to_list. Qed.

(** The distinct priorities, in strictly increasing order. *)
Lemma sorted_priorities_lt m : StronglySorted Z.lt (sorted_priorities m).
Proof.
  pose proof (sorted_priorities_nodup m) as Hn. revert Hn. unfold sorted_priorities.
  pose proof (sort_stable_sorted Z.compare (map fst (map_to_list m))) as Hs. revert Hs.
  generalize (sort_stable Z.compare (map fst (map_to_list m))). intros l Hs.
  induction Hs as [|x l Hs IH Hall]; intros Hn; [constructor|]. apply NoDup_cons in Hn as [Hx Hn].
  constructor; [by apply IH|]. rewrite Forall_forall in Hall |- *. intros y Hy.
  specialize (Hall y Hy). unfold cmp_le in Hall. apply Z.compare_ngt_iff in Hall.
  assert (x ≠ y) by (intros ->; done). lia.
Qed.

(** ** Lemmas: renumbering *)

Lemma alter_all (f : LocalityLbEndpoints → LocalityLbEndpoints) (idxs : list nat) (eps : list LocalityLbEndpoints) i :
  (∀ l, f (f l) = f l) →
  foldl (λ eps index, alter f index eps) eps idxs !! i =
  if decide (i ∈ idxs) then f <$> eps !! i else eps !! i.
Proof.
  intros Hf. revert eps. induction idxs as [|j idxs IH]; intros eps; cbn [foldl].
  { by rewrite decide_False by apply not_elem_of_nil. }
  rewrite IH. destruct (decide (i = j)) as [->|Hne].
  - rewrite list_lookup_alter_eq. destruct (decide (j ∈ j :: idxs)) as [_|Hj]; [|set_solver].
    destruct (eps !! j); simpl; case_decide; simpl; by rewrite ?Hf.
  - rewrite list_lookup_alter_ne by done.
    destruct (decide (i ∈ idxs)); destruct (decide (i ∈ j :: idxs)); set_solver.
Qed.

Lemma renumber_lookup ps eps k p i :
  renumber (priority_map ps) eps (k, p) !! i =
  if decide (ps !! i = Some p ∧ Z.of_nat k ≠ p)
  then (λ l, set_priority l (uint32 (Z.of_nat k))) <$> eps !! i else eps !! i.
Proof.
  unfold renumber. simpl. case_bool_decide as Hk.
  - rewrite alter_all by done. destruct (decide (i ∈ _)) as [Hi|Hi]; rewrite priority_map_elem in Hi.
    + by rewrite decide_True.
    + rewrite decide_False; [done|tauto].
  - rewrite decide_False; [done|tauto].
Qed.

(** A priority that is not in the list is left alone. *)
Lemma renumber_absent ps sorted : ∀ k eps i l p,
  eps !! i = Some l → ps !! i = Some p → p ∉ sorted →
  foldl (renumber (priority_map ps)) eps (imap (λ j q, (k + j, q)%nat) sorted) !! i = Some l.
Proof.
  induction sorted as [|q sorted IH]; intros k eps i l p Hl Hp Hn; simpl; [done|].
  rewrite imap_ext with (g := λ j q, (S k + j, q)%nat) by (intros; unfold compose; simpl; f_equal; lia).
  apply not_elem_of_cons in Hn as [Hne Hn]. eapply IH; [|done|done].
  rewrite renumber_lookup, decide_False by naive_solver. done.
Qed.

(** Renumbering along a list of distinct priorities: the endpoints of the [k]-th
    get [k], the others keep theirs. *)
Lemma renumber_fold ps sorted : ∀ k eps i l p,
  NoDup sorted → eps !! i = Some l → ps !! i = Some p →
  (∀ j q, sorted !! j = Some q → (0 ≤ Z.of_nat (k + j) < 2 ^ 32)%Z) →
  lle_priority l = p →
  foldl (renumber (priority_map ps)) eps (imap (λ j q, (k + j, q)%nat) sorted) !! i =
  Some (match list_find (λ q, q = p) sorted with
        | Some (j, _) => set_priority l (Z.of_nat (k + j))
        | None => l
        end).
Proof.
  induction sorted as [|q sorted IH]; intros k eps i l p Hn Hl Hp Hk Hprio; simpl; [done|].
  apply NoDup_cons in Hn as [Hq Hn]. rewrite Nat.add_0_r.
  rewrite imap_ext with (g := λ j q, (S k + j, q)%nat) by (intros; unfold compose; simpl; f_equal; lia).
  assert (∀ j r, sorted !! j = Some r → (0 ≤ Z.of_nat (S k + j) < 2 ^ 32)%Z) as Hk'.
  { intros j r Hj. specialize (Hk (S j) r Hj). lia. }
  destruct (decide (q = p)) as [->|Hne].
  - pose proof (renumber_lookup ps eps k p i) as Hr. rewrite Hl in Hr. simpl in Hr.
    assert (renumber (priority_map ps) eps (k, p) !! i = Some (set_priority l (Z.of_nat k))) as Hset.
    { rewrite Hr. case_decide as Hd.
      - unfold uint32. rewrite Z.mod_small; [done|]. specialize (Hk 0%nat p eq_refl). lia.
      - destruct l as [a b c d]. simpl in *. unfold set_priority. simpl. do 2 f_equal.
        destruct (decide (Z.of_nat k = p)); naive_solver. }
    rewrite (renumber_absent ps sorted (S k) _ i _ p Hset Hp Hq).
    destruct (decide (p = p)) as [_|[]]; [|done]. do 2 f_equal. lia.
  - rewrite (IH (S k) _ i l p Hn); [|rewrite renumber_lookup, decide_False by naive_solver; done|done|done|done].
    destruct (decide (q = p)) as [|_]; [done|].
    destruct (list_find _ sorted) as [[j r]|]; simpl; [|done]. do 2 f_equal. lia.
Qed.

Lemma failover_priority_bound proxy fo loc : (0 ≤ failover_priority proxy fo loc ≤ 4)%Z.
Proof.
  unfold failover_priority, LbPriority. cbv zeta.
  repeat (case_match || case_bool_decide); lia.
Qed.

(** Priorities that leave room for the five locality levels. *)
Definition priority_fits (l : LocalityLbEndpoints) : Prop := (0 ≤ lle_priority l ∧ lle_priority l * 5 + 4 < 2 ^ 32)%Z.

Lemma priority_int_fits proxy fo l :
  priority_fits l →
  priority_int proxy fo l = (lle_priority l * 5 + failover_priority proxy fo (lle_locality l))%Z ∧
  uint32 (priority_int proxy fo l) = priority_int proxy fo l.
Proof.
  intros [H1 H2]. unfold priority_int, uint32. pose proof (failover_priority_bound proxy fo (lle_locality l)).
  rewrite (Z.mod_small (lle_priority l * 5)) by lia. split; [done|]. apply Z.mod_small. lia.
Qed.

Lemma sorted_priorities_length ps : (length (sorted_priorities (priority_map ps)) ≤ length ps)%nat.
Proof.
  apply submseteq_length, NoDup_submseteq; [apply sorted_priorities_nodup|].
  intros p. rewrite elem_of_sorted_priorities. apply priority_map_dom.
Qed.

(** Locality failover hands out priorities without gaps: with [ranks] the
    distinct raw priorities (5 times the given one plus 0 to 4 by locality and
    failover setting) in increasing order, every group of endpoints keeps its
    content and gets the position of its raw priority, so nearer localities come
    first and priorities run from zero up. *)
Theorem failover_priorities_compact proxy fo eps :
  Forall priority_fits eps → (Z.of_nat (length eps) < 2 ^ 32)%Z →
  let raw l := (lle_priority l * 5 + failover_priority proxy fo (lle_locality l))%Z in
  ∃ ranks, StronglySorted Z.lt ranks ∧ (∀ p, p ∈ ranks ↔ p ∈ map raw eps) ∧
    ∀ i l, eps !! i = Some l →
      ∃ k, ranks !! k = Some (raw l) ∧
           applyLocalityFailover proxy eps fo !! i = Some (set_priority l (Z.of_nat k)).
Proof.
  intros Hfit Hlen raw. rewrite Forall_forall in Hfit.
  assert (map raw eps = map (priority_int proxy fo) eps) as Hraw.
  { apply map_ext_in. intros l Hl. symmetry. apply priority_int_fits, Hfit. by apply list_elem_of_In. }
  set (ps := map (priority_int proxy fo) eps).
  exists (sorted_priorities (priority_map ps)). split; [apply sorted_priorities_lt|]. split.
  { intros p. rewrite Hraw, elem_of_sorted_priorities. apply priority_map_dom. }
  intros i l Hi. assert (l ∈ eps) as Hl by (by eapply list_elem_of_lookup_2).
  destruct (priority_int_fits proxy fo l (Hfit l Hl)) as [Hp Hu].
  assert (ps !! i = Some (raw l)) as Hps.
  { unfold ps, raw. change (map (priority_int proxy fo) eps) with (priority_int proxy fo <$> eps).
    by rewrite list_lookup_fmap, Hi, <- Hp. }
  assert (raw l ∈ sorted_priorities (priority_map ps)) as Hin.
  { rewrite elem_of_sorted_priorities, priority_map_dom. by eapply list_elem_of_lookup_2. }
  destruct (list_find_elem_of (λ q, q = raw l) _ _ Hin eq_refl) as [[k q] Hk].
  pose proof Hk as (Hk1 & -> & _)%list_find_Some. exists k. split; [done|].
  unfold applyLocalityFailover. cbv zeta. fold ps.
  rewrite imap_ext with (g := λ j q, (0 + j, q)%nat) by done.
  rewrite (renumber_fold ps _ 0 _ i (set_priority l (raw l)) (raw l)); [by rewrite Hk|..].
  - apply sorted_priorities_nodup.
  - rewrite lookup_zip_with, Hi, Hps. simpl. unfold raw. by rewrite <- Hp, Hu.
  - done.
  - intros j q Hj. apply lookup_lt_Some in Hj. pose proof (sorted_priorities_length ps) as Hle.
    unfold ps in Hle. rewrite length_map in Hle. fold ps in Hle. lia.
  - done.
Qed.

(** ** Lemmas: no endpoint is lost *)

Lemma omap_bind {A B C} (f : B → option C) (g : A → list B) l :
  omap f (l ≫= g) = l ≫= λ x, omap f (g x).
Proof.
  induction l as [|x l IH]; [done|]. rewrite bind_cons, omap_app, IH. done.
Qed.

Lemma omap_ext_in {A B} (f g : A → option B) (l : list A) :
  (∀ x, x ∈ l → f x = g x) → omap f l = omap g l.
Proof.
  induction l as [|x l IH]; intros H; [done|]. cbn [omap list_omap]. rewrite (H x) by (by left).
  rewrite IH; [done|]. intros y Hy. apply H. by right.
Qed.

Lemma omap_seq {A B} (f : A → B) (l : list A) k :
  omap (λ i, f <$> l !! (i - k)%nat) (seq k (length l)) = map f l.
Proof.
  revert k. induction l as [|x l IH]; intros k; simpl; [done|].
  rewrite Nat.sub_diag. simpl. f_equal. rewrite <- (IH (S k)). apply omap_ext_in.
  intros i. rewrite elem_of_seq. intros Hi.
  replace (i - k)%nat with (S (i - S k)) by lia. done.
Qed.

Lemma list_bind_fmap_map {A B C} (f : A → B) (g : B → list C) (l : list A) : map f l ≫= g = l ≫= λ x, g (f x).
Proof. induction l as [|x l IH]; [done|]. cbn [map]. by rewrite !bind_cons, IH. Qed.

Lemma bind_ext_in {A B} (f g : A → list B) (l : list A) : (∀ x, x ∈ l → f x = g x) → l ≫= f = l ≫= g.
Proof.
  induction l as [|x l IH]; intros H; [done|]. rewrite !bind_cons, (H x) by (by left).
  f_equal. apply IH. intros y Hy. apply H. by right.
Qed.

Lemma group_by_priority_perm eps p pl :
  (applyFailoverPriorityPerLocality eps p pl ≫= lle_endpoints) ≡ₚ map ep_lb eps.
Proof.
  unfold applyFailoverPriorityPerLocality. cbv zeta.
  set (ps := map _ eps). set (m := priority_map ps).
  set (f := λ i, ep_lb <$> eps !! i).
  transitivity (sorted_priorities m ≫= λ prio, omap f (default [] (m !! prio))).
  { rewrite list_bind_fmap_map. done. }
  unfold sorted_priorities. rewrite sort_stable_perm, list_bind_fmap_map.
  transitivity (omap f (map_to_list m ≫= snd)).
  { rewrite omap_bind. apply reflexive_eq. apply bind_ext_in. intros [k v] Hkv%elem_of_map_to_list.
    simpl. by rewrite Hkv. }
  unfold m. rewrite priority_map_values. unfold ps. rewrite length_map.
  rewrite <- (omap_seq ep_lb eps 0). apply reflexive_eq. apply omap_ext_in.
  intros i _. by rewrite Nat.sub_0_r.
Qed.

Lemma getEndpoints_perm eps lbi : (getEndpoints eps lbi ≫= lle_endpoints) ≡ₚ map ep_lb eps.
Proof.
  unfold getEndpoints. destruct (lbi_priority_info lbi) as [[[p|] fo]|];
    [apply group_by_priority_perm|..]; simpl; by rewrite app_nil_r.
Qed.

Lemma renumber_endpoints m l : ∀ eps,
  map lle_endpoints (foldl (renumber m) eps l) = map lle_endpoints eps.
Proof.
  assert (∀ idxs f eps, (∀ x, lle_endpoints (f x) = lle_endpoints x) →
    map lle_endpoints (foldl (λ eps index, alter f index eps) eps idxs) = map lle_endpoints eps) as Halter.
  { induction idxs as [|j idxs IH]; intros f eps Hf; simpl; [done|]. rewrite IH by done.
    change (lle_endpoints <$> alter f j eps = lle_endpoints <$> eps).
    apply list_eq. intros i. rewrite !list_lookup_fmap. destruct (decide (i = j)) as [->|Hne].
    - rewrite list_lookup_alter_eq. destruct (eps !! j); simpl; by rewrite ?Hf.
    - by rewrite list_lookup_alter_ne. }
  induction l as [|ip l IH]; intros eps; simpl; [done|]. rewrite IH. unfold renumber.
  case_bool_decide; [|done]. by apply Halter.
Qed.

Lemma failover_endpoints proxy eps fo :
  (applyLocalityFailover proxy eps fo ≫= lle_endpoints) = eps ≫= lle_endpoints.
Proof.
  assert (map lle_endpoints (applyLocalityFailover proxy eps fo) = map lle_endpoints eps) as Hm.
  { unfold applyLocalityFailover. cbv zeta. rewrite renumber_endpoints.
    induction eps as [|l eps IH]; simpl; [done|]. by rewrite IH. }
  assert (∀ l : list LocalityLbEndpoints, l ≫= lle_endpoints = map lle_endpoints l ≫= id) as Hb.
  { intros l. by rewrite list_bind_fmap_map. }
  by rewrite !Hb, Hm.
Qed.

(** A Go map is iterated over in some order. *)
Definition iterates (keys : gmap PodLocality (list EndpointWithMd) → list PodLocality) : Prop :=
  ∀ m, keys m ≡ₚ map fst (map_to_list m).

Lemma locality_endpoints_perm lbi loc eps :
  (locality_endpoints lbi loc eps ≫= lle_endpoints) ≡ₚ map ep_lb (filterInvalidEps eps).
Proof.
  unfold locality_endpoints. rewrite list_bind_fmap_map. simpl. apply getEndpoints_perm.
Qed.

Lemma bind_bind {A B C} (f : A → list B) (g : B → list C) (l : list A) :
  (l ≫= f) ≫= g = l ≫= λ x, f x ≫= g.
Proof. induction l as [|x l IH]; [done|]. by rewrite !bind_cons, bind_app, IH. Qed.

Lemma bind_Permutation_fun {A B} (f g : A → list B) (l : list A) :
  (∀ x, x ∈ l → f x ≡ₚ g x) → l ≫= f ≡ₚ l ≫= g.
Proof.
  induction l as [|x l IH]; intros H; [done|]. rewrite !bind_cons. rewrite (H x) by (by left).
  f_equiv. apply IH. intros y Hy. apply H. by right.
Qed.

(** No endpoint is lost or duplicated: for every client the assignment
    lists exactly the backend's endpoints that have a usable address, each
    once. *)
Theorem assignment_lists_every_endpoint keys ucc inputs :
  iterates keys →
  (cla_endpoints (PrioritizeEndpoints keys ucc inputs) ≫= lle_endpoints) ≡ₚ
  (map_to_list (efb_lb_eps (ei_endpoints inputs)) ≫= λ kv, map ep_lb (filterInvalidEps kv.2)).
Proof.
  intros Hk. unfold PrioritizeEndpoints, prioritizeWithLbInfo. simpl.
  set (lbi := loadBalancingInfoFor ucc inputs). set (m := efb_lb_eps (ei_endpoints inputs)).
  set (eps := sortedLocalities (keys m) ≫= _).
  transitivity (eps ≫= lle_endpoints).
  { destruct (ResolvedPriorityInfo inputs) as [[[p|] fo]|]; [done| |done]. by rewrite failover_endpoints. }
  unfold eps, sortedLocalities. rewrite sort_stable_perm, (Hk m), list_bind_fmap_map.
  rewrite bind_bind. apply bind_Permutation_fun. intros [loc l] Hl%elem_of_map_to_list.
  simpl. rewrite Hl. apply locality_endpoints_perm.
Qed.

(** ** Lemmas: what an assignment depends on *)

#[local] Instance locality_cmp_wo : WeakOrder locality_cmp.
Proof. unfold locality_cmp. apply _. Qed.

Lemma locality_cmp_eq a b : locality_cmp a b = Eq → a = b.
Proof.
  destruct a as [r1 z1 s1], b as [r2 z2 s2]. unfold locality_cmp, then_cmp, cmp_on. simpl.
  destruct (String.compare r1 r2) eqn:E1; [|done|done].
  destruct (String.compare z1 z2) eqn:E2; [|done|done]. intros E3.
  apply string_compare_eq in E1, E2, E3. by subst.
Qed.

Lemma priority_loop_context p pl1 pl2 el j labels :
  (∀ x, x ∈ labels → proxy_value p pl1 x = proxy_value p pl2 x) →
  priority_loop p pl1 el j labels = priority_loop p pl2 el j labels.
Proof.
  revert j. induction labels as [|x l IH]; intros j H; simpl; [done|].
  rewrite (H x) by (by left). case_match; [done|]. apply IH. intros y Hy. apply H. by right.
Qed.

Lemma context_values p pl1 pl2 labels :
  (labels ≫= λ label, [label; proxy_value p pl1 label]) =
  (labels ≫= λ label, [label; proxy_value p pl2 label]) →
  ∀ x, x ∈ labels → proxy_value p pl1 x = proxy_value p pl2 x.
Proof.
  induction labels as [|y l IH]; intros He x Hx; [by apply not_elem_of_nil in Hx|].
  rewrite !bind_cons in He. simpl in He. injection He as Hy He.
  apply elem_of_cons in Hx as [->|Hx]; [done|by apply IH].
Qed.

(** Clients with the same load-balancing context get the same assignment,
    whatever else distinguishes them and in whatever order the endpoint map is
    iterated over: the context covers everything prioritisation reads of a
    client, and a backend without priorities has one assignment for all. *)
Theorem assignment_determined_by_context keys1 keys2 ucc1 ucc2 inputs :
  iterates keys1 → iterates keys2 →
  lb_context ucc1 inputs = lb_context ucc2 inputs →
  PrioritizeEndpoints keys1 ucc1 inputs = PrioritizeEndpoints keys2 ucc2 inputs.
Proof.
  intros Hk1 Hk2 Hc. unfold PrioritizeEndpoints, prioritizeWithLbInfo. simpl.
  set (m := efb_lb_eps (ei_endpoints inputs)).
  assert (sortedLocalities (keys1 m) = sortedLocalities (keys2 m)) as ->.
  { apply (sort_stable_perm_eq locality_cmp); [|by rewrite (Hk1 m), (Hk2 m)].
    intros x y _ _. apply locality_cmp_eq. }
  assert (∀ loc eps, locality_endpoints (loadBalancingInfoFor ucc1 inputs) loc eps =
                     locality_endpoints (loadBalancingInfoFor ucc2 inputs) loc eps) as Heps.
  { intros loc eps. unfold locality_endpoints. f_equal. unfold getEndpoints. simpl.
    unfold lb_context in Hc. destruct (ResolvedPriorityInfo inputs) as [[[p|] fo]|]; [|done|done].
    injection Hc as Hc. unfold applyFailoverPriorityPerLocality.
    assert (∀ e, GetPriority p (ucc_labels ucc1) (ep_labels e) =
                 GetPriority p (ucc_labels ucc2) (ep_labels e)) as He.
    { intros e. apply priority_loop_context. by apply context_values. }
    by rewrite (map_ext _ _ He). }
  rewrite (bind_ext_in _ _ _ (λ loc _, Heps loc _)).
  f_equal. unfold lb_context in Hc. destruct (ResolvedPriorityInfo inputs) as [[[p|] fo]|]; [done| |done].
  destruct (ucc_locality ucc1), (ucc_locality ucc2). simpl in Hc. by simplify_eq.
Qed.

(** ** Locality labels (pkg/krtcollections/pods.go) *)

Definition LabelTopologyRegion : string := "topology.kubernetes.io/region".

Definition AugmentLabels (l : PodLocality) (labels : gmap string string) : gmap string string :=
  let add (k v : string) (m : gmap string string) := if String.eqb v "" then m else <[k := v]> m in
  add TopologySubzone (loc_subzone l)
    (add LabelTopologyZone (loc_zone l) (add LabelTopologyRegion (loc_region l) labels)).

(** [LocalityFromLabels]. *)
Definition LocalityFromLabels (labels : gmap string string) : PodLocality :=
  mkLoc (default "" (labels !! LabelTopologyRegion)) (default "" (labels !! LabelTopologyZone))
        (default "" (labels !! TopologySubzone)).

(** Locality labels round-trip: the locality written into a label set that
    carries none is the one read back. *)
Theorem locality_labels_roundtrip l labels :
  LocalityFromLabels labels = no_locality → LocalityFromLabels (AugmentLabels l labels) = l.
Proof.
  destruct l as [r z s]. unfold LocalityFromLabels, AugmentLabels. simpl. intros [= Hr Hz Hs].
  assert (∀ (k k' v : string) (m : gmap string string), k ≠ k' →
    default "" ((if String.eqb v "" then m else <[k' := v]> m) !! k) = default "" (m !! k)) as Hne.
  { intros k k' v m Hk. case_match; [done|]. by rewrite lookup_insert_ne. }
  assert (∀ (k v : string) (m : gmap string string), default "" (m !! k) = "" →
    default "" ((if String.eqb v "" then m else <[k := v]> m) !! k) = v) as Heq.
  { intros k v m Hm. destruct (String.eqb_spec v "") as [->|Hv]; [done|]. by rewrite lookup_insert_eq. }
  f_equal.
  - rewrite !(Hne LabelTopologyRegion) by done. by apply Heq.
  - rewrite (Hne LabelTopologyZone) by done. apply Heq. by rewrite Hne.
  - apply Heq. by rewrite !Hne.
Qed.

(** ** Witnesses *)

Definition ex_keys (m : gmap PodLocality (list EndpointWithMd)) : list PodLocality := map fst (map_to_list m).

Lemma ex_keys_iterates : iterates ex_keys.
Proof. intros m. reflexivity. Qed.

Definition ex_ep (addr : string) (l : PodLocality) : EndpointWithMd :=
  mkEp (mkLbEp (Some addr) None None "") (AugmentLabels l ∅).
Definition ex_near := mkLoc "r1" "z1" "".
Definition ex_far := mkLoc "r2" "z9" "".
Definition ex_inputs (pi : option PriorityInfo) : EndpointsInputs :=
  mkEI (mkEFB {[ ex_near := [ex_ep "10.0.0.1" ex_near; ex_ep "" ex_near]; ex_far := [ex_ep "10.0.0.2" ex_far] ]}
          "c" TDAny) pi.
Definition ex_client (l : PodLocality) (extra : string) : UniquelyConnectedClient :=
  mkUCC "" (AugmentLabels l {[ "app" := extra ]}) l "" false "".

Lemma locality_labels_roundtrip_witness :
  LocalityFromLabels (AugmentLabels ex_near {[ "app" := "web" ]}) = ex_near.
Proof. apply (locality_labels_roundtrip ex_near {[ "app" := "web" ]}). vm_compute. reflexivity. Defined.

Lemma priority_counts_mismatches_witness :
  ∃ p, NewPriorities ["a"; "b=1"] = Some p ∧
       GetPriority p {[ "a" := "x" ]} {[ "a" := "x"; "b" := "2" ]} = 1%Z.
Proof.
  eexists. split; [reflexivity|].
  rewrite (proj1 (priority_counts_mismatches ["a"; "b=1"] _ {[ "a" := "x" ]} {[ "a" := "x"; "b" := "2" ]}
    eq_refl)). vm_compute. reflexivity.
Defined.

Lemma failover_priorities_compact_witness :
  let eps := [mkLLE (Some ex_far) [] None 0; mkLLE (Some ex_near) [] None 0] in
  ∃ ranks, StronglySorted Z.lt ranks ∧
    ∀ i l, eps !! i = Some l →
      ∃ k, ranks !! k = Some (lle_priority l * 5 + failover_priority ex_near [] (lle_locality l))%Z ∧
           applyLocalityFailover ex_near eps [] !! i = Some (set_priority l (Z.of_nat k)).
Proof.
  intros eps. destruct (failover_priorities_compact ex_near [] eps) as (ranks & Hs & _ & Hr).
  - repeat constructor; vm_compute; discriminate.
  - vm_compute. reflexivity.
  - exists ranks. split; [exact Hs|exact Hr].
Defined.

Lemma assignment_lists_every_endpoint_witness :
  (cla_endpoints (PrioritizeEndpoints ex_keys (ex_client ex_near "x") (ex_inputs None)) ≫= lle_endpoints) ≡ₚ
  [mkLbEp (Some "10.0.0.1") None None ""; mkLbEp (Some "10.0.0.2") None None ""].
Proof.
  etransitivity.
  - apply (assignment_lists_every_endpoint ex_keys (ex_client ex_near "x") (ex_inputs None) ex_keys_iterates).
  - apply reflexive_eq. vm_compute. reflexivity.
Defined.

Lemma assignment_determined_by_context_witness :
  PrioritizeEndpoints ex_keys (ex_client ex_near "x") (ex_inputs (Some (mkPInfo None []))) =
  PrioritizeEndpoints ex_keys (ex_client ex_near "y") (ex_inputs (Some (mkPInfo None []))).
Proof.
  apply (assignment_determined_by_context ex_keys ex_keys (ex_client ex_near "x") (ex_client ex_near "y")).
  - apply ex_keys_iterates.
  - apply ex_keys_iterates.
  - vm_compute. reflexivity.
Defined.

(** ** Gaps and regions

    Label priorities are not renumbered as locality priorities are, and the
    region label of the traffic distributions is the deprecated one, which
    localities are not written to. *)

(** With label priorities the assignment may start below priority zero, and
    under PreferSameZone an endpoint of the client's region is no better than
    one of another region. *)
Theorem label_priorities_skip :
  let prio c l := map lle_priority (cla_endpoints (PrioritizeEndpoints ex_keys (ex_client c "x")
     (mkEI (mkEFB {[ l := [ex_ep "10.0.0.1" l] ]} "c" TDPreferSameZone) None))) in
  prio ex_near ex_near = [0%Z] ∧
  prio ex_near (mkLoc "r1" "z2" "") = [1%Z] ∧ prio ex_near ex_far = [1%Z].
Proof. vm_compute. auto. Qed.
