(* ===== verification/Reports.v ===== *)
(** * Status reports (pkg/reports)

    Translation records facts about objects in a [ReportMap]; the builders turn
    one report into the status of its object.  Reports carry only what
    translation found wrong; missing conditions are filled with positive
    defaults, and the conditions of the live object lend their transition time.
    [meta.FindStatusCondition] and [meta.SetStatusCondition] of apimachinery are
    the class [ConditionLib], with the behaviour their documentation states as
    [ConditionLaws].  Every operation that may read the clock takes the time
    [now]; the zero time is [0].  A Go map is a [gmap], and where the code ranges
    over one the order of its keys is an argument.  A nil slice and an empty one
    are not distinguished. *)

From S2P Require Import Prelude IR.

(** ** Conditions *)

Record metav1_Condition := mkMC {
  mc_type : string; mc_status : string; mc_reason : string; mc_message : string;
  mc_generation : Z; mc_time : Z }.
#[global] Instance metav1_Condition_eq_dec : EqDecision metav1_Condition.
Proof. solve_decision. Defined.

Abbreviation Conditions := (list metav1_Condition).

(** A condition as the code writes it: generation and time unset. *)
Definition cond (type status reason message : string) : metav1_Condition :=
  mkMC type status reason message 0 0.

(** The condition [SetStatusCondition] appends: the transition time is set to now
    if unset. *)
Definition stamped (now : Z) (c : metav1_Condition) : metav1_Condition :=
  mkMC (mc_type c) (mc_status c) (mc_reason c) (mc_message c) (mc_generation c)
    (if bool_decide (mc_time c = 0%Z) then now else mc_time c).

(** The condition it turns an existing one into: every field of the new one, but
    the transition time only when the status differs. *)
Definition transition (now : Z) (old c : metav1_Condition) : metav1_Condition :=
  mkMC (mc_type old) (mc_status c) (mc_reason c) (mc_message c) (mc_generation c)
    (if bool_decide (mc_status old = mc_status c) then mc_time old else mc_time (stamped now c)).

Class ConditionLib := {
  FindStatusCondition : Conditions → string → option metav1_Condition;
  SetStatusCondition : Z → Conditions → metav1_Condition → Conditions }.

Class ConditionLaws `{ConditionLib} : Prop := {
  find_first : ∀ l t, FindStatusCondition l t = head (filter (λ c, mc_type c = t) l);
  set_absent : ∀ now l c, FindStatusCondition l (mc_type c) = None →
    SetStatusCondition now l c = l ++ [stamped now c];
  set_present : ∀ now l1 old l2 c, FindStatusCondition l1 (mc_type c) = None →
    mc_type old = mc_type c →
    SetStatusCondition now (l1 ++ old :: l2) c = l1 ++ transition now old c :: l2 }.

(** ** Parent references *)

Record ParentRefKey := mkPRK {
  prk_group : string; prk_kind : string; prk_nn : NamespacedName; prk_section : string }.
#[global] Instance ParentRefKey_eq_dec : EqDecision ParentRefKey.
Proof. solve_decision. Defined.
#[global] Instance ParentRefKey_countable : Countable ParentRefKey.
Proof.
  refine (inj_countable' (λ k, (prk_group k, prk_kind k, prk_nn k, prk_section k))
    (λ '(g, k, n, s), mkPRK g k n s) _). by intros [].
Defined.

Definition getParentRefKey (ref : ParentReference) : ParentRefKey :=
  mkPRK (str_or (pr_group ref) "") (str_or (pr_kind ref) "")
    (mkNN (str_or (pr_namespace ref) "") (pr_name ref)) (str_or (pr_section ref) "").

(** The reference [parentRefs] and [ancestorRefs] rebuild from a key. *)
Definition key_ref (k : ParentRefKey) : ParentReference :=
  mkPR (Some (prk_group k)) (Some (prk_kind k))
    (if String.eqb (nn_namespace (prk_nn k)) "" then None else Some (nn_namespace (prk_nn k)))
    (nn_name (prk_nn k))
    (if String.eqb (prk_section k) "" then None else Some (prk_section k)) None.

Definition ParentString (ref : ParentReference) : string :=
  str_or (pr_group ref) "" +:+ "/" +:+ str_or (pr_kind ref) "" +:+ "/" +:+ pr_name ref +:+ "/" +:+
  str_or (pr_section ref) "" +:+ "/" +:+ pretty (default 0%Z (pr_port ref)) +:+ "." +:+
  str_or (pr_namespace ref) "".

Definition optionalRefEqual {T} `{EqDecision T} (a b : option T) : bool :=
  match a, b with
  | Some x, Some y => bool_decide (x = y)
  | None, None => true
  | _, _ => false
  end.

Definition ParentRefEqual (a b : ParentReference) : bool :=
  String.eqb (pr_name a) (pr_name b) && optionalRefEqual (pr_group a) (pr_group b) &&
  optionalRefEqual (pr_kind a) (pr_kind b) && optionalRefEqual (pr_namespace a) (pr_namespace b) &&
  optionalRefEqual (pr_section a) (pr_section b) && optionalRefEqual (pr_port a) (pr_port b).

(** ** Reports *)

Record ListenerStatus := mkLSt {
  lst_name : string; lst_kinds : list (option string * string); lst_routes : Z;
  lst_conditions : Conditions }.
#[global] Instance ListenerStatus_eq_dec : EqDecision ListenerStatus.
Proof. solve_decision. Defined.

Record GatewayReport := mkGWR {
  gr_conditions : Conditions; gr_listeners : gmap string ListenerStatus;
  gr_generation : Z; gr_attached : Z }.

Record ListenerSetReport := mkLSR {
  lsr_conditions : Conditions; lsr_listeners : gmap string ListenerStatus; lsr_generation : Z }.

Record RouteReport := mkRR { rr_parents : gmap ParentRefKey Conditions; rr_generation : Z }.

Record AncestorRefReport := mkARR { ar_conditions : Conditions; ar_state : Z }.

Record PolicyReport := mkPRep { pp_ancestors : gmap ParentRefKey AncestorRefReport; pp_generation : Z }.

Record BackendReport := mkBR { br_conditions : Conditions; br_generation : Z }.

Record PolicyKey := mkPK {
  pk_group : string; pk_kind : string; pk_namespace : string; pk_name : string }.
#[global] Instance PolicyKey_eq_dec : EqDecision PolicyKey.
Proof. solve_decision. Defined.
#[global] Instance PolicyKey_countable : Countable PolicyKey.
Proof.
  refine (inj_countable' (λ k, (pk_group k, pk_kind k, pk_namespace k, pk_name k))
    (λ '(g, k, ns, n), mkPK g k ns n) _). by intros [].
Defined.

Record ReportMap := mkRM {
  rm_gateways : gmap NamespacedName GatewayReport;
  rm_listener_sets : gmap GroupVersionKind (gmap NamespacedName ListenerSetReport);
  rm_http : gmap NamespacedName RouteReport;
  rm_grpc : gmap NamespacedName RouteReport;
  rm_tcp : gmap NamespacedName RouteReport;
  rm_tls : gmap NamespacedName RouteReport;
  rm_policies : gmap PolicyKey PolicyReport;
  rm_backends : gmap NamespacedName BackendReport }.

Definition NewReportMap : ReportMap := mkRM ∅ ∅ ∅ ∅ ∅ ∅ ∅ ∅.

(** ** The reporter

    The source hands out pointers into the map; an operation through one is the
    update of the entry. *)

(** What the reporter reads of an object. *)
Record ObjectMeta := mkOM { om_nn : NamespacedName; om_generation : Z }.

Inductive RouteType := THTTP | TGRPC | TTCP | TTLS.
#[global] Instance RouteType_eq_dec : EqDecision RouteType.
Proof. solve_decision. Defined.

Definition routes_of (t : RouteType) (rm : ReportMap) : gmap NamespacedName RouteReport :=
  match t with
  | THTTP => rm_http rm | TGRPC => rm_grpc rm | TTCP => rm_tcp rm | TTLS => rm_tls rm
  end.

Definition with_routes (t : RouteType) (m : gmap NamespacedName RouteReport) (rm : ReportMap) : ReportMap :=
  let '(mkRM g ls h gr tc tl p b) := rm in
  match t with
  | THTTP => mkRM g ls m gr tc tl p b
  | TGRPC => mkRM g ls h m tc tl p b
  | TTCP => mkRM g ls h gr m tl p b
  | TTLS => mkRM g ls h gr tc m p b
  end.

Section reporter.
Context `{CL : ConditionLib}.

Definition NewListenerReport (name : string) : ListenerStatus := mkLSt name [] 0 [].

(** [listener]: the report of a listener, created on first use. *)
Definition report_listener (name : string) (f : ListenerStatus → ListenerStatus)
    (m : gmap string ListenerStatus) : gmap string ListenerStatus :=
  <[name := f (default (NewListenerReport name) (m !! name))]> m.

Definition ListenerReport_SetCondition (now : Z) (c : metav1_Condition) (l : ListenerStatus) :
    ListenerStatus :=
  mkLSt (lst_name l) (lst_kinds l) (lst_routes l) (SetStatusCondition now (lst_conditions l) c).

Definition SetSupportedKinds (ks : list (option string * string)) (l : ListenerStatus) : ListenerStatus :=
  mkLSt (lst_name l) ks (lst_routes l) (lst_conditions l).

(** [int32] of a [uint]. *)
Definition int32 (n : Z) : Z := ((n + 2 ^ 31) mod 2 ^ 32 - 2 ^ 31)%Z.

Definition SetAttachedRoutes (n : Z) (l : ListenerStatus) : ListenerStatus :=
  mkLSt (lst_name l) (lst_kinds l) (int32 n) (lst_conditions l).

Definition GatewayReport_SetCondition (now : Z) (c : metav1_Condition) (g : GatewayReport) : GatewayReport :=
  mkGWR (SetStatusCondition now (gr_conditions g) c) (gr_listeners g) (gr_generation g) (gr_attached g).

Definition SetAttachedListenerSets (n : Z) (g : GatewayReport) : GatewayReport :=
  mkGWR (gr_conditions g) (gr_listeners g) (gr_generation g) n.

Definition GatewayReport_Listener (name : string) (f : ListenerStatus → ListenerStatus)
    (g : GatewayReport) : GatewayReport :=
  mkGWR (gr_conditions g) (report_listener name f (gr_listeners g)) (gr_generation g) (gr_attached g).

(** [statusReporter.Gateway] followed by an operation on the report. *)
Definition statusReporter_Gateway (o : ObjectMeta) (f : GatewayReport → GatewayReport) (rm : ReportMap) :
    ReportMap :=
  let '(mkRM g ls h gr tc tl p b) := rm in
  let r := match g !! om_nn o with
           | None => mkGWR [] ∅ (om_generation o) 0
           | Some r => mkGWR (gr_conditions r) (gr_listeners r) (om_generation o) (gr_attached r)
           end in
  mkRM (<[om_nn o := f r]> g) ls h gr tc tl p b.

Definition ListenerSetReport_SetCondition (now : Z) (c : metav1_Condition) (r : ListenerSetReport) :
    ListenerSetReport :=
  mkLSR (SetStatusCondition now (lsr_conditions r) c) (lsr_listeners r) (lsr_generation r).

Definition ListenerSetReport_Listener (name : string) (f : ListenerStatus → ListenerStatus)
    (r : ListenerSetReport) : ListenerSetReport :=
  mkLSR (lsr_conditions r) (report_listener name f (lsr_listeners r)) (lsr_generation r).

(** An object without a GVK is taken for a promoted ListenerSet. *)
Definition gvk_or_default (gvk : GroupVersionKind) : GroupVersionKind :=
  if bool_decide (gvk = mkGVK "" "" "") then ListenerSetGVK else gvk.

Definition ReportMap_ListenerSet (gvk : GroupVersionKind) (nn : NamespacedName) (rm : ReportMap) :
    option ListenerSetReport := rm_listener_sets rm !! gvk_or_default gvk ≫= (!!) nn.

Definition statusReporter_ListenerSet (gvk : GroupVersionKind) (o : ObjectMeta)
    (f : ListenerSetReport → ListenerSetReport) (rm : ReportMap) : ReportMap :=
  let r := match ReportMap_ListenerSet gvk (om_nn o) rm with
           | None => mkLSR [] ∅ (om_generation o)
           | Some r => mkLSR (lsr_conditions r) (lsr_listeners r) (om_generation o)
           end in
  let '(mkRM g ls h gr tc tl p b) := rm in
  let k := gvk_or_default gvk in
  mkRM g (<[k := <[om_nn o := f r]> (default ∅ (ls !! k))]> ls) h gr tc tl p b.

Definition ParentRefReport_SetCondition (now : Z) (c : metav1_Condition) (cs : Conditions) : Conditions :=
  SetStatusCondition now cs c.

(** [ParentRef]: the report of a parent, created on first use. *)
Definition RouteReport_ParentRef (ref : ParentReference) (f : Conditions → Conditions) (r : RouteReport) :
    RouteReport :=
  let k := getParentRefKey ref in
  mkRR (<[k := f (default [] (rr_parents r !! k))]> (rr_parents r)) (rr_generation r).

Definition statusReporter_Route (t : RouteType) (o : ObjectMeta) (f : RouteReport → RouteReport)
    (rm : ReportMap) : ReportMap :=
  let r := match routes_of t rm !! om_nn o with
           | None => mkRR ∅ (om_generation o)
           | Some r => mkRR (rr_parents r) (om_generation o)
           end in
  with_routes t (<[om_nn o := f r]> (routes_of t rm)) rm.

Definition BackendReport_SetCondition (now : Z) (c : metav1_Condition) (r : BackendReport) : BackendReport :=
  mkBR (SetStatusCondition now (br_conditions r) c) (br_generation r).

(** The generation of a Backend is the one it was first reported with. *)
Definition statusReporter_Backend (o : ObjectMeta) (f : BackendReport → BackendReport) (rm : ReportMap) :
    ReportMap :=
  let '(mkRM g ls h gr tc tl p b) := rm in
  mkRM g ls h gr tc tl p (<[om_nn o := f (default (mkBR [] (om_generation o)) (b !! om_nn o))]> b).

(** [PolicyAttachmentState]: bit flags. *)
Definition PolicyAttachmentStatePending : Z := 0.
Definition PolicyAttachmentStateAttached : Z := 2.
Definition PolicyAttachmentStateMerged : Z := 4.
Definition PolicyAttachmentStateOverridden : Z := 8.

Definition state_has (a b : Z) : bool := negb (Z.land a b =? 0)%Z.

Definition AncestorRefReport_SetCondition (now : Z) (c : metav1_Condition) (a : AncestorRefReport) :
    AncestorRefReport := mkARR (SetStatusCondition now (ar_conditions a) c) (ar_state a).

Definition SetAttachmentState (s : Z) (a : AncestorRefReport) : AncestorRefReport :=
  mkARR (ar_conditions a) (Z.lor (ar_state a) s).

Definition PolicyReport_AncestorRef (ref : ParentReference) (f : AncestorRefReport → AncestorRefReport)
    (r : PolicyReport) : PolicyReport :=
  let k := getParentRefKey ref in
  mkPRep (<[k := f (default (mkARR [] PolicyAttachmentStatePending) (pp_ancestors r !! k))]>
            (pp_ancestors r)) (pp_generation r).

Definition statusReporter_Policy (k : PolicyKey) (generation : Z) (f : PolicyReport → PolicyReport)
    (rm : ReportMap) : ReportMap :=
  let '(mkRM g ls h gr tc tl p b) := rm in
  let r := match p !! k with
           | None => mkPRep ∅ generation
           | Some r => mkPRep (pp_ancestors r) generation
           end in
  mkRM g ls h gr tc tl (<[k := f r]> p) b.

End reporter.

(** ** Building statuses *)

Record GatewayStatus := mkGS {
  gs_addresses : list string; gs_conditions : Conditions; gs_listeners : list ListenerStatus;
  gs_attached : option Z }.
#[global] Instance GatewayStatus_eq_dec : EqDecision GatewayStatus.
Proof. solve_decision. Defined.

(** A Gateway: the names of its listeners, the types of the requested addresses,
    the validation modes of its frontend TLS (default, per port), its status. *)
Record Gateway := mkGateway {
  gw_listener_names : list string;
  gw_addresses : list (option string);
  gw_frontend : option (option string * list (option string));
  gw_status : GatewayStatus }.

Record ListenerSetStatus := mkLSS { lss_conditions : Conditions; lss_listeners : list ListenerStatus }.
#[global] Instance ListenerSetStatus_eq_dec : EqDecision ListenerSetStatus.
Proof. solve_decision. Defined.

Record ListenerSet := mkLS { ls_listener_names : list string; ls_status : ListenerSetStatus }.

Record RouteParentStatus := mkRPS {
  rps_ref : ParentReference; rps_controller : string; rps_conditions : Conditions }.
#[global] Instance RouteParentStatus_eq_dec : EqDecision RouteParentStatus.
Proof. solve_decision. Defined.

(** [RouteStatus.Parents] and [PolicyStatus.Ancestors] have the same fields. *)
Abbreviation RouteStatus := (list RouteParentStatus).
Abbreviation PolicyStatus := (list RouteParentStatus).

Record RouteObject := mkRO { ro_parent_refs : list ParentReference; ro_status : RouteStatus }.

Definition with_generation (og : Z) (c : metav1_Condition) : metav1_Condition :=
  mkMC (mc_type c) (mc_status c) (mc_reason c) (mc_message c) og (mc_time c).

Section build.
Context `{CL : ConditionLib}.

Definition missing (l : Conditions) (t : string) : bool :=
  match FindStatusCondition l t with None => true | Some _ => false end.

(** A default for a type that has no condition yet. *)
Definition add_default (now : Z) (c : metav1_Condition) (out : Conditions) : Conditions :=
  if missing out (mc_type c) then SetStatusCondition now out c else out.

(** One turn of the loop each builder runs: the live condition is copied first so
    that an unchanged status keeps its transition time. *)
Definition stamp_step (now og : Z) (live final : Conditions) (c : metav1_Condition) : Conditions :=
  let c := with_generation og c in
  let final := match FindStatusCondition live (mc_type c) with
               | Some old => final ++ [old]
               | None => final
               end in
  SetStatusCondition now final c.

(** The live conditions that are kept: those of a type that is not in the result. *)
Definition preserve_step (keep : metav1_Condition → bool) (final : Conditions) (c : metav1_Condition) :
    Conditions := if missing final (mc_type c) && keep c then final ++ [c] else final.

Definition final_conditions (keep : metav1_Condition → bool) (now og : Z) (live cs : Conditions) :
    Conditions :=
  foldl (preserve_step keep) (foldl (stamp_step now og live) [] cs) live.

Definition ListenerAccepted : metav1_Condition :=
  cond "Accepted" "True" "Accepted" "Successfully accepted Listener".
Definition ListenerNoConflicts : metav1_Condition :=
  cond "Conflicted" "False" "NoConflicts" "Successfully verified that Listener has no conflicts".
Definition ListenerResolvedRefs : metav1_Condition :=
  cond "ResolvedRefs" "True" "ResolvedRefs" "Successfully resolved all references".
Definition ListenerProgrammed : metav1_Condition :=
  cond "Programmed" "True" "Programmed" "Successfully programmed Listener".

Definition listenerConditionsWithDefaults (now : Z) (cs : Conditions) : Conditions :=
  foldl (λ out c, add_default now c out) cs
    [ListenerAccepted; ListenerNoConflicts; ListenerResolvedRefs; ListenerProgrammed].

Definition listenerStatusFromReports (now : Z) (m : gmap string ListenerStatus) (name : string) :
    ListenerStatus :=
  let s := default (NewListenerReport name) (m !! name) in
  mkLSt (lst_name s) (lst_kinds s) (lst_routes s) (listenerConditionsWithDefaults now (lst_conditions s)).

(** [slices.IndexFunc] on the names of the live listener statuses. *)
Definition live_listener (live : list ListenerStatus) (name : string) : Conditions :=
  match head (filter (λ l, lst_name l = name) live) with Some l => lst_conditions l | None => [] end.

Definition not_programmed (c : metav1_Condition) : bool :=
  String.eqb (mc_type c) "Programmed" && String.eqb (mc_status c) "False".

(** One condition of a listener: stamped, and noted if it is [Programmed=False]. *)
Definition listener_condition_step (now og : Z) (live : Conditions) (name : string)
    (acc : Conditions * list string * list string) (c : metav1_Condition) :
    Conditions * list string * list string :=
  let '(final, invalid, messages) := acc in
  let final := stamp_step now og live final c in
  if not_programmed c then
    (final, invalid ++ [name],
     if String.eqb (mc_message c) "" then messages else messages ++ [name +:+ ": " +:+ mc_message c])
  else (final, invalid, messages).

(** One listener; [attached] overrides the number of attached routes. *)
Definition listener_status_step (now og : Z) (reports : gmap string ListenerStatus)
    (live : list ListenerStatus) (attached : gmap string Z)
    (acc : list ListenerStatus * list string * list string) (name : string) :
    list ListenerStatus * list string * list string :=
  let '(finals, invalid, messages) := acc in
  let s := listenerStatusFromReports now reports name in
  let routes := match attached !! name with Some n => int32 n | None => lst_routes s end in
  let '(final, invalid, messages) :=
    foldl (listener_condition_step now og (live_listener live name) name) ([], invalid, messages)
      (lst_conditions s) in
  (finals ++ [mkLSt (lst_name s) (lst_kinds s) routes final], invalid, messages).

Definition build_listeners (now og : Z) (reports : gmap string ListenerStatus)
    (live : list ListenerStatus) (attached : gmap string Z) (names : list string) :
    list ListenerStatus * list string * list string :=
  foldl (listener_status_step now og reports live attached) ([], [], []) names.

Definition not_programmed_message (invalid messages : list string) : string :=
  "Some listeners are not programmed: " +:+
  match messages with [] => join ", " invalid | _ => join "; " messages end.

Definition handleInvalidAddresses (now : Z) (cs : Conditions) (g : Gateway) : Conditions :=
  foldl (λ cs type,
    match type with
    | None => cs
    | Some t =>
        if String.eqb t "IPAddress" then cs
        else if String.eqb t "Hostname" then
          SetStatusCondition now cs
            (cond "Programmed" "False" "AddressNotUsable" "Hostname addresses may not be used")
        else SetStatusCondition now cs
            (cond "Accepted" "False" "UnsupportedAddress" "Unknown address kind")
    end) cs (gw_addresses g).

Definition validationUsesInsecureFrontendMode (mode : option string) : bool :=
  bool_decide (mode = Some "AllowInsecureFallback").

Definition gatewayUsesInsecureFrontendValidationMode (g : Gateway) : bool :=
  match gw_frontend g with
  | None => false
  | Some (dflt, perPort) =>
      validationUsesInsecureFrontendMode dflt || existsb validationUsesInsecureFrontendMode perPort
  end.

Definition handleInsecureFrontendValidationMode (now : Z) (cs : Conditions) (g : Gateway) : Conditions :=
  if gatewayUsesInsecureFrontendValidationMode g then
    SetStatusCondition now cs
      (cond "InsecureFrontendValidationMode" "True" "ConfigurationChanged"
         "Gateway frontend validation is configured to allow insecure fallback")
  else cs.

Definition GatewayAccepted : metav1_Condition :=
  cond "Accepted" "True" "Accepted" "Successfully accepted Gateway".
Definition GatewayProgrammed : metav1_Condition :=
  cond "Programmed" "True" "Programmed" "Successfully programmed Gateway".

(** [Accepted=False] for invalid parameters, which the deployer writes. *)
Definition invalid_params (c : metav1_Condition) : bool :=
  String.eqb (mc_type c) "Accepted" && String.eqb (mc_status c) "False" &&
  String.eqb (mc_reason c) "InvalidParameters".

Definition listener_unresolved (s : ListenerStatus) : bool :=
  match FindStatusCondition (lst_conditions s) "ResolvedRefs" with
  | Some c => String.eqb (mc_status c) "False"
  | None => false
  end.

Definition GatewayResolvedRefs (listeners : list ListenerStatus) : metav1_Condition :=
  if existsb listener_unresolved listeners
  then cond "ResolvedRefs" "False" "ListenersNotResolved" "One or more listeners have unresolved references"
  else cond "ResolvedRefs" "True" "ResolvedRefs" "Successfully resolved all Gateway references".

Definition has_invalid_params (live : Conditions) : bool :=
  match FindStatusCondition live "Accepted" with Some c => invalid_params c | None => false end.

Definition gatewayConditionsWithDefaults (now : Z) (cs live : Conditions) (listeners : list ListenerStatus) :
    Conditions :=
  let out := if has_invalid_params live then cs else add_default now GatewayAccepted cs in
  add_default now (GatewayResolvedRefs listeners) (add_default now GatewayProgrammed out).

Definition isReporterOwnedGatewayConditionType (t : string) : bool :=
  bool_decide (t ∈ ["Accepted"; "Programmed"; "ResolvedRefs"; "InsecureFrontendValidationMode"]).

(** The part of [shouldPreserveGatewayCondition] that does not look at the result. *)
Definition keep_gateway_condition (c : metav1_Condition) : bool :=
  invalid_params c || negb (isReporterOwnedGatewayConditionType (mc_type c)).

Definition BuildGWStatus (now : Z) (report : option GatewayReport) (gw : Gateway)
    (attachedRoutes : gmap string Z) : option GatewayStatus :=
  r ← report;
  let '(listeners, invalid, messages) :=
    build_listeners now (gr_generation r) (gr_listeners r) (gs_listeners (gw_status gw)) attachedRoutes
      (gw_listener_names gw) in
  let cs := gr_conditions r in
  let cs := match invalid with
            | [] => cs
            | _ => SetStatusCondition now cs
                     (cond "Accepted" "True" "ListenersNotValid" (not_programmed_message invalid messages))
            end in
  let cs := handleInvalidAddresses now cs gw in
  let cs := handleInsecureFrontendValidationMode now cs gw in
  let live := gs_conditions (gw_status gw) in
  let cs := gatewayConditionsWithDefaults now cs live listeners in
  Some (mkGS (gs_addresses (gw_status gw))
          (final_conditions keep_gateway_condition now (gr_generation r) live cs) listeners
          (if (0 <? gr_attached r)%Z then Some (gr_attached r) else None)).

Definition ListenerSetAccepted : metav1_Condition :=
  cond "Accepted" "True" "Accepted" "Successfully accepted ListenerSet".
Definition ListenerSetProgrammed : metav1_Condition :=
  cond "Programmed" "True" "Programmed" "Successfully programmed ListenerSet".

Definition listenerSetConditionsWithDefaults (now : Z) (cs : Conditions) : Conditions :=
  add_default now ListenerSetProgrammed (add_default now ListenerSetAccepted cs).

Definition listenerSetRejected (cs : Conditions) : bool :=
  match FindStatusCondition cs "Accepted" with
  | Some c => String.eqb (mc_status c) "False"
  | None => false
  end.

Definition BuildListenerSetStatus (now : Z) (report : option ListenerSetReport) (ls : ListenerSet) :
    option ListenerSetStatus :=
  r ← report;
  let '(listeners, invalid, messages) :=
    if listenerSetRejected (lsr_conditions r) then ([], [], [])
    else build_listeners now (lsr_generation r) (lsr_listeners r) (lss_listeners (ls_status ls)) ∅
           (ls_listener_names ls) in
  let cs := lsr_conditions r in
  let cs := match invalid with
            | [] => cs
            | _ => SetStatusCondition now cs
                     (cond "Accepted" "True" "ListenersNotValid" (not_programmed_message invalid messages))
            end in
  let cs := if bool_decide (listeners ≠ []) && bool_decide (length invalid = length listeners) then
              SetStatusCondition now
                (SetStatusCondition now cs (cond "Accepted" "False" "ListenersNotValid" "No valid listeners"))
                (cond "Programmed" "False" "ListenersNotValid" "No valid listeners")
            else cs in
  let cs := listenerSetConditionsWithDefaults now cs in
  Some (mkLSS (final_conditions (λ _, true) now (lsr_generation r) (lss_conditions (ls_status ls)) cs)
          listeners).

(** The types of [backendConditionTypesOwnedByKgateway]. *)
Definition backend_owned (t : string) : bool := bool_decide (t ∈ ["Accepted"; "EndpointsDiscovered"]).

Definition BuildBackendStatus (now : Z) (report : option BackendReport) (current : Conditions) :
    option Conditions :=
  r ← report;
  Some (final_conditions (λ c, negb (backend_owned (mc_type c))) now (br_generation r) current
          (br_conditions r)).

Definition RouteAccepted : metav1_Condition :=
  cond "Accepted" "True" "Accepted" "Successfully accepted Route".
Definition RouteResolvedRefs : metav1_Condition :=
  cond "ResolvedRefs" "True" "ResolvedRefs" "Successfully resolved all references".
Definition RouteProgrammed : metav1_Condition :=
  cond "kgateway.dev/Programmed" "True" "Programmed" "Successfully programmed Route".

Definition parentRefConditionsWithDefaults (now : Z) (cs : Conditions) : Conditions :=
  foldl (λ out c, add_default now c out) cs [RouteAccepted; RouteResolvedRefs; RouteProgrammed].

(** The live conditions of a parent: those of the first entry with that reference. *)
Definition live_parent (live : list RouteParentStatus) (ref : ParentReference) : Conditions :=
  match head (filter (λ s, rps_ref s = ref) live) with Some s => rps_conditions s | None => [] end.

(** The same for an ancestor, found with [ParentRefEqual]. *)
Definition live_ancestor (live : list RouteParentStatus) (ref : ParentReference) : Conditions :=
  match head (filter (λ s, ParentRefEqual (rps_ref s) ref = true) live) with
  | Some s => rps_conditions s
  | None => []
  end.

(** [parentRefs] and [ancestorRefs] over the keys in iteration order. *)
Definition refs_of_keys (keys : list ParentRefKey) : list ParentReference := map key_ref keys.

Definition sort_parents (l : list RouteParentStatus) : list RouteParentStatus :=
  sort_stable (cmp_on (ParentString ∘ rps_ref) String.compare) l.

Definition RouteReport_parentRefs (keys : list ParentRefKey) : list ParentReference :=
  sort_stable (cmp_on ParentString String.compare) (refs_of_keys keys).

(** The status of one parent, if the report knows it. *)
Definition parent_status (now : Z) (r : RouteReport) (live : RouteStatus) (controller : string)
    (ref : ParentReference) : option RouteParentStatus :=
  cs ← rr_parents r !! getParentRefKey ref;
  Some (mkRPS ref controller
          (final_conditions (λ _, true) now (rr_generation r) (live_parent live ref)
             (parentRefConditionsWithDefaults now cs))).

(** [keys] are the keys of the report in iteration order. *)
Definition BuildRouteStatus (now : Z) (keys : list ParentRefKey) (report : option RouteReport)
    (obj : RouteObject) (controller : string) : option RouteStatus :=
  r ← report;
  let refs := match ro_parent_refs obj with [] => RouteReport_parentRefs keys | refs => refs end in
  Some (sort_parents (omap (parent_status now r (ro_status obj) controller) refs)).

Definition PolicyPending (type : string) : metav1_Condition := cond type "False" "Pending" "".

Definition ancestorRefConditionsWithDefaults (now : Z) (cs : Conditions) : Conditions :=
  add_default now (PolicyPending "Attached") (add_default now (PolicyPending "Accepted") cs).

Definition addAttachmentCondition (now : Z) (cs : Conditions) (state : Z) : Conditions :=
  if (state =? PolicyAttachmentStatePending)%Z then cs
  else if state_has state PolicyAttachmentStateOverridden then
    SetStatusCondition now cs (cond "Attached" "False" "Overridden"
      "Overridden due to conflict with higher priority policy in target(s)")
  else if state_has state PolicyAttachmentStateMerged then
    SetStatusCondition now cs (cond "Attached" "True" "Merged"
      "Merged with other policies in target(s) and attached")
  else if state_has state PolicyAttachmentStateAttached then
    SetStatusCondition now cs (cond "Attached" "True" "Attached" "Attached to all targets")
  else cs.

Definition ancestor_status (now : Z) (r : PolicyReport) (live : PolicyStatus) (controller : string)
    (ref : ParentReference) : option RouteParentStatus :=
  a ← pp_ancestors r !! getParentRefKey ref;
  Some (mkRPS ref controller
          (final_conditions (λ _, true) now (pp_generation r) (live_ancestor live ref)
             (addAttachmentCondition now (ancestorRefConditionsWithDefaults now (ar_conditions a))
                (ar_state a)))).

Definition BuildPolicyStatus (now : Z) (keys : list ParentRefKey) (report : option PolicyReport)
    (controller : string) (current : PolicyStatus) : option PolicyStatus :=
  r ← report;
  Some (sort_parents (omap (ancestor_status now r current controller) (refs_of_keys keys))).

End build.

(** ** Lemmas on conditions *)

Definition types (l : Conditions) : list string := map mc_type l.

(** Equal but for the transition time. *)
Definition same_facts (a b : metav1_Condition) : Prop :=
  mc_type a = mc_type b ∧ mc_status a = mc_status b ∧ mc_reason a = mc_reason b ∧
  mc_message a = mc_message b ∧ mc_generation a = mc_generation b.

#[global] Instance same_facts_equiv : Equivalence same_facts.
Proof. split; red; unfold same_facts; naive_solver congruence. Qed.

(** Equal facts in the same order. *)
Definition same_list : relation Conditions := Forall2 same_facts.

#[global] Instance same_list_equiv : Equivalence same_list.
Proof. apply _. Qed.

Lemma same_list_types l l' : same_list l l' → types l = types l'.
Proof. induction 1 as [|a b l l' (Ht & _) _ IH]; simpl; [done|]. by rewrite Ht, IH. Qed.

Lemma parent_ref_equal_iff a b : ParentRefEqual a b = true ↔ a = b.
Proof.
  assert (Ho : ∀ T `{EqDecision T} (x y : option T), optionalRefEqual x y = true ↔ x = y).
  { intros T ? [x|] [y|]; simpl; [|done|done|done]. rewrite bool_decide_eq_true. naive_solver. }
  unfold ParentRefEqual. rewrite !andb_true_iff, String.eqb_eq, !Ho.
  destruct a, b; naive_solver.
Qed.

Lemma live_ancestor_parent live ref : live_ancestor live ref = live_parent live ref.
Proof.
  unfold live_ancestor, live_parent.
  rewrite (list_filter_iff (λ s, ParentRefEqual (rps_ref s) ref = true) (λ s, rps_ref s = ref) live); [done|].
  intros s. apply parent_ref_equal_iff.
Qed.

Section lemmas.
Context `{CL : ConditionLib} {LW : ConditionLaws}.

Lemma find_None l t : FindStatusCondition l t = None ↔ t ∉ types l.
Proof.
  rewrite find_first. unfold types.
  induction l as [|c l IH]; simpl; [split; [intros _; set_solver|done]|].
  rewrite filter_cons. case_decide as Hc; simpl.
  - split; [done|]. intros Hn. exfalso. set_solver.
  - rewrite IH. set_solver.
Qed.

Lemma missing_iff l t : missing l t = true ↔ t ∉ types l.
Proof. unfold missing. rewrite <- find_None. by destruct (FindStatusCondition l t). Qed.

Lemma missing_false l t : missing l t = false ↔ t ∈ types l.
Proof.
  rewrite <- not_true_iff_false, missing_iff.
  destruct (decide (t ∈ types l)); naive_solver.
Qed.

Lemma find_Some_type l t c : FindStatusCondition l t = Some c → mc_type c = t ∧ c ∈ l.
Proof.
  rewrite find_first. intros H.
  assert (c ∈ filter (λ c, mc_type c = t) l) as Hc.
  { destruct (filter _ l); simpl in *; simplify_eq. set_solver. }
  by apply list_elem_of_filter in Hc.
Qed.

Lemma find_app l1 l2 t :
  FindStatusCondition (l1 ++ l2) t =
  match FindStatusCondition l1 t with Some c => Some c | None => FindStatusCondition l2 t end.
Proof. rewrite !find_first, filter_app. by destruct (filter _ l1). Qed.

Lemma find_one c t :
  FindStatusCondition [c] t = if decide (mc_type c = t) then Some c else None.
Proof. rewrite find_first, filter_cons, filter_nil. by case_decide. Qed.

Lemma find_unique l c : NoDup (types l) → c ∈ l → FindStatusCondition l (mc_type c) = Some c.
Proof.
  intros Hn Hc. rewrite find_first. induction l as [|d l IH]; [set_solver|].
  simpl in Hn. apply NoDup_cons in Hn as [Hd Hn]. rewrite filter_cons.
  apply elem_of_cons in Hc as [<-|Hc]; [by rewrite decide_True|].
  rewrite decide_False; [by apply IH|]. intros Heq. apply Hd. rewrite Heq. by apply list_elem_of_fmap_2.
Qed.

(** Where a type occurs, the list splits at its first condition. *)
Lemma find_split l t c :
  FindStatusCondition l t = Some c → ∃ l1 l2, l = l1 ++ c :: l2 ∧ FindStatusCondition l1 t = None.
Proof.
  induction l as [|d l IH]; [by rewrite find_first|].
  change (d :: l) with ([d] ++ l). rewrite find_app, find_one.
  case_decide as Hd; intros H; simplify_eq/=.
  - exists [], l. by rewrite find_first.
  - destruct (IH H) as (l1 & l2 & -> & Hn). exists (d :: l1), l2. split; [done|].
    change (d :: l1) with ([d] ++ l1). by rewrite find_app, find_one, decide_False.
Qed.

(** [SetStatusCondition] as a map update. *)
Lemma find_set now l c t :
  FindStatusCondition (SetStatusCondition now l c) t =
  if decide (mc_type c = t)
  then Some (match FindStatusCondition l t with None => stamped now c | Some old => transition now old c end)
  else FindStatusCondition l t.
Proof.
  destruct (FindStatusCondition l (mc_type c)) as [old|] eqn:Hf.
  - pose proof (find_Some_type _ _ _ Hf) as [Ht _].
    destruct (find_split _ _ _ Hf) as (l1 & l2 & -> & Hn). rewrite set_present by done.
    change (transition now old c :: l2) with ([transition now old c] ++ l2).
    change (old :: l2) with ([old] ++ l2). rewrite !find_app, !find_one. simpl. rewrite Ht.
    case_decide as Hc; [subst t; by rewrite Hn|done].
  - rewrite set_absent by done. rewrite find_app, find_one. simpl.
    case_decide as Hc; [subst t; by rewrite Hf|by destruct (FindStatusCondition l t)].
Qed.

Lemma types_set now l c :
  types (SetStatusCondition now l c) = if missing l (mc_type c) then types l ++ [mc_type c] else types l.
Proof.
  unfold missing. destruct (FindStatusCondition l (mc_type c)) as [old|] eqn:Hf.
  - pose proof (find_Some_type _ _ _ Hf) as [Ht _].
    destruct (find_split _ _ _ Hf) as (l1 & l2 & -> & Hn). rewrite set_present by done.
    unfold types. by rewrite !map_app.
  - rewrite set_absent by done. unfold types. by rewrite map_app.
Qed.

(** Types stay unique. *)
Lemma set_NoDup now l c : NoDup (types l) → NoDup (types (SetStatusCondition now l c)).
Proof.
  intros Hn. rewrite types_set. destruct (missing l (mc_type c)) eqn:Hm; [|done].
  apply missing_iff in Hm. apply NoDup_app. split; [done|]. split; [set_solver|apply NoDup_singleton].
Qed.

Lemma add_default_NoDup now l c : NoDup (types l) → NoDup (types (add_default now c l)).
Proof. unfold add_default. destruct (missing _ _); [apply set_NoDup|done]. Qed.

Lemma find_add_default now l c t :
  FindStatusCondition (add_default now c l) t =
  match FindStatusCondition l t with
  | Some d => Some d
  | None => if decide (mc_type c = t) then Some (stamped now c) else None
  end.
Proof.
  unfold add_default, missing. destruct (FindStatusCondition l (mc_type c)) eqn:Hf.
  - destruct (FindStatusCondition l t) eqn:Ht; [done|]. case_decide; [congruence|done].
  - rewrite find_set. case_decide as Hc; [subst t; by rewrite Hf|].
    by destruct (FindStatusCondition l t).
Qed.

(** *** Congruence up to transition times *)

Lemma same_find l l' t :
  same_list l l' →
  match FindStatusCondition l t, FindStatusCondition l' t with
  | Some a, Some b => same_facts a b | None, None => True | _, _ => False
  end.
Proof.
  induction 1 as [|a b l l' Hab _ IH]; [by rewrite !find_first|].
  change (a :: l) with ([a] ++ l). change (b :: l') with ([b] ++ l').
  rewrite !find_app, !find_one. pose proof Hab as (Ht & _). rewrite Ht. by case_decide.
Qed.

Lemma same_missing l l' t : same_list l l' → missing l t = missing l' t.
Proof.
  intros H. pose proof (same_find l l' t H) as Hf. unfold missing.
  by destruct (FindStatusCondition l t), (FindStatusCondition l' t).
Qed.

Lemma same_set now now' l l' c c' :
  same_list l l' → same_facts c c' → same_list (SetStatusCondition now l c) (SetStatusCondition now' l' c').
Proof.
  intros Hl Hc. pose proof (same_find l l' (mc_type c) Hl) as Hf. pose proof Hc as (Ht & Hs & Hr & Hm & Hg).
  destruct (FindStatusCondition l (mc_type c)) as [old|] eqn:H1; rewrite Ht in Hf;
    destruct (FindStatusCondition l' (mc_type c')) as [old'|] eqn:H2; try done.
  - pose proof (find_Some_type _ _ _ H1) as [Ho _]. pose proof (find_Some_type _ _ _ H2) as [Ho' _].
    destruct (find_split _ _ _ H1) as (l1 & l2 & -> & Hn).
    destruct (find_split _ _ _ H2) as (l1' & l2' & -> & Hn').
    rewrite !set_present by congruence.
    assert (length l1 = length l1') as Hlen.
    { apply find_None in Hn, Hn'. apply same_list_types in Hl. unfold types in *. rewrite !map_app in Hl.
      simpl in Hl. rewrite Ho, Ho', Ht in Hl. rewrite Ht in Hn. clear -Hl Hn Hn'.
      revert l1' Hl Hn'. induction l1 as [|x l1 IH]; intros [|y l1'] Hl Hn'; simpl in *; [done|..].
      - injection Hl as Hx _. exfalso. apply Hn'. rewrite Hx. set_solver.
      - injection Hl as Hx _. exfalso. apply Hn. rewrite <- Hx. set_solver.
      - injection Hl as _ Hl. f_equal. apply IH; set_solver. }
    apply Forall2_app_inv in Hl as [Hl1 Hl2]; [|done]. inversion Hl2; subst.
    apply Forall2_app; [done|]. constructor; [|done]. repeat split; simpl; congruence.
  - rewrite !set_absent by congruence. apply Forall2_app; [done|]. by repeat constructor.
Qed.

Lemma same_add_default now now' l l' c :
  same_list l l' → same_list (add_default now c l) (add_default now' c l').
Proof.
  intros Hl. unfold add_default. rewrite (same_missing l l') by done.
  destruct (missing l' _); [by apply same_set|done].
Qed.

(** *** The common part of the builders *)

(** The published form of a reported condition. *)
Definition published (now og : Z) (live : Conditions) (c : metav1_Condition) : metav1_Condition :=
  match FindStatusCondition live (mc_type c) with
  | Some old => transition now old (with_generation og c)
  | None => stamped now (with_generation og c)
  end.

Lemma published_type now og live c : mc_type (published now og live c) = mc_type c.
Proof.
  unfold published. destruct (FindStatusCondition _ _) eqn:Hf; [|done].
  by apply find_Some_type in Hf as [? _].
Qed.

Lemma published_types now og live cs : types (map (published now og live) cs) = types cs.
Proof. unfold types. rewrite map_map. apply map_ext. intros c. apply published_type. Qed.

Lemma published_facts now og live c : same_facts (published now og live c) (with_generation og c).
Proof.
  unfold published. destruct (FindStatusCondition _ _) eqn:Hf; [|done].
  apply find_Some_type in Hf as [? _]. by repeat split.
Qed.

Lemma stamp_step_new now og live final c :
  mc_type c ∉ types final →
  stamp_step now og live final c = final ++ [published now og live c].
Proof.
  intros Hn. unfold stamp_step, published. cbn [with_generation mc_type].
  destruct (FindStatusCondition live _) as [old|] eqn:Hf.
  - apply find_Some_type in Hf as [? _]. rewrite set_present; [done| |done]. by apply find_None.
  - rewrite set_absent; [done|]. by apply find_None.
Qed.

Lemma stamp_loop now og live final cs :
  NoDup (types cs) → (∀ t, t ∈ types cs → t ∉ types final) →
  foldl (stamp_step now og live) final cs = final ++ map (published now og live) cs.
Proof.
  revert final. induction cs as [|c cs IH]; intros final Hn Hd; cbn [foldl map]; [by rewrite app_nil_r|].
  simpl in Hn. apply NoDup_cons in Hn as [Hc Hn].
  rewrite stamp_step_new by (apply Hd; set_solver). rewrite IH; [by rewrite <- app_assoc|done|].
  intros t Ht. unfold types. rewrite map_app. simpl. rewrite published_type.
  specialize (Hd t). set_solver.
Qed.

(** What the loop over the live conditions adds. *)
Lemma preserve_loop keep live final :
  ∃ rest, foldl (preserve_step keep) final live = final ++ rest ∧
    Forall (λ c, keep c = true) rest ∧ NoDup (types rest) ∧ (∀ t, t ∈ types rest → t ∉ types final).
Proof.
  revert final. induction live as [|c live IH]; intros final; cbn [foldl].
  - exists []. rewrite app_nil_r. repeat split; [constructor|constructor|set_solver].
  - unfold preserve_step at 2. destruct (missing final _ && keep c) eqn:Hk; [|apply IH].
    bool_hyps. destruct (IH (final ++ [c])) as (rest & -> & Hr & Hn & Hd).
    assert (Hd' : ∀ t, t ∈ types rest → (t ∉ types final) ∧ (t ≠ mc_type c)).
    { intros t Ht. specialize (Hd t Ht). unfold types in Hd. rewrite map_app in Hd. set_solver. }
    exists (c :: rest). rewrite <- app_assoc. split; [done|]. split; [by constructor|]. split.
    + simpl. constructor; [|done]. intros Hc. by apply Hd' in Hc as [_ ?].
    + simpl. intros t Ht. apply elem_of_cons in Ht as [->|Ht]; [by apply missing_iff|by apply Hd'].
Qed.

Lemma preserve_present keep live final :
  (∀ t, t ∈ types live → t ∈ types final) → foldl (preserve_step keep) final live = final.
Proof.
  induction live as [|c live IH]; intros Hl; cbn [foldl]; [done|].
  unfold preserve_step at 2. rewrite (proj2 (missing_false _ _)) by (apply Hl; set_solver).
  apply IH. set_solver.
Qed.

Lemma preserve_new keep final rest :
  Forall (λ c, keep c = true) rest → NoDup (types rest) → (∀ t, t ∈ types rest → t ∉ types final) →
  foldl (preserve_step keep) final rest = final ++ rest.
Proof.
  revert final. induction rest as [|c rest IH]; intros final Hk Hn Hd; cbn [foldl]; [by rewrite app_nil_r|].
  simpl in Hn. apply NoDup_cons in Hn as [Hc Hn]. apply Forall_cons in Hk as [Hkc Hk].
  unfold preserve_step at 2.
  rewrite (proj2 (missing_iff _ _)), Hkc by (apply Hd; set_solver). simpl.
  rewrite IH; [by rewrite <- app_assoc|done|done|].
  intros t Ht. unfold types. rewrite map_app. simpl. specialize (Hd t). set_solver.
Qed.

Lemma find_preserve keep live final t :
  FindStatusCondition (foldl (preserve_step keep) final live) t =
  match FindStatusCondition final t with
  | Some c => Some c
  | None => FindStatusCondition (filter (λ c, keep c = true) live) t
  end.
Proof.
  revert final. induction live as [|c live IH]; intros final; cbn [foldl].
  - rewrite filter_nil, (find_first [] t), filter_nil. by destruct (FindStatusCondition final t).
  - rewrite IH, filter_cons. unfold preserve_step.
    destruct (missing final (mc_type c)) eqn:Hm, (decide (keep c = true)) as [Hk|Hk]; simpl.
    + rewrite Hk, find_app, find_one. destruct (FindStatusCondition final t); [done|].
      change (c :: ?l) with ([c] ++ l). rewrite find_app, find_one. by case_decide.
    + apply not_true_is_false in Hk. by rewrite Hk.
    + destruct (FindStatusCondition final t) eqn:Ht; [done|].
      change (c :: ?l) with ([c] ++ l). rewrite find_app, find_one.
      case_decide as Hc; [|done]. exfalso. apply missing_false in Hm. apply find_None in Ht. by subst.
    + done.
Qed.

Lemma filter_keep_all (live : Conditions) : filter (λ c, (λ _, true) c = true) live = live.
Proof. induction live as [|c l IH]; [done|]. rewrite filter_cons. by rewrite decide_True, IH. Qed.

(** The conditions of a status, type by type: reported ones are published with the
    report's generation, the kept ones of the live object follow. *)
Lemma find_final keep now og live cs t :
  NoDup (types cs) →
  FindStatusCondition (final_conditions keep now og live cs) t =
  match FindStatusCondition cs t with
  | Some c => Some (published now og live c)
  | None => FindStatusCondition (filter (λ c, keep c = true) live) t
  end.
Proof.
  intros Hn. unfold final_conditions.
  rewrite find_preserve, (stamp_loop now og live [] cs) by set_solver. simpl.
  destruct (FindStatusCondition cs t) as [c|] eqn:Hc.
  - apply find_Some_type in Hc as [<- Hc].
    rewrite <- (published_type now og live c), find_unique; [done|by rewrite published_types|].
    by apply list_elem_of_fmap_2.
  - apply find_None in Hc. rewrite <- (published_types now og live cs) in Hc.
    apply find_None in Hc. by rewrite Hc.
Qed.

Lemma final_NoDup keep now og live cs :
  NoDup (types cs) → NoDup (types (final_conditions keep now og live cs)).
Proof.
  intros Hn. unfold final_conditions. rewrite (stamp_loop now og live [] cs) by set_solver. simpl.
  destruct (preserve_loop keep live (map (published now og live) cs)) as (rest & -> & _ & Hr & Hd).
  unfold types in *. rewrite map_app. apply NoDup_app. split; [by rewrite published_types|].
  split; [|done]. intros t H1 H2. by apply (Hd t).
Qed.

(** Publishing again what was published changes nothing: neither the clock nor the
    transition times of the report matter any more. *)
Lemma final_idem keep now now' og live cs cs' :
  NoDup (types cs) → same_list cs cs' →
  final_conditions keep now' og (final_conditions keep now og live cs) cs' =
  final_conditions keep now og live cs.
Proof.
  intros Hn Hs. pose proof (same_list_types _ _ Hs) as Ht.
  unfold final_conditions at 2 3. rewrite (stamp_loop now og live [] cs) by set_solver. simpl.
  set (M := map (published now og live) cs).
  assert (HM : types M = types cs) by apply published_types.
  destruct (preserve_loop keep live M) as (R & -> & Hk & HR & Hd).
  unfold final_conditions. rewrite (stamp_loop now' og (M ++ R) [] cs') by (rewrite <- Ht; set_solver). simpl.
  assert (map (published now' og (M ++ R)) cs' = M) as ->.
  { unfold M at 2. symmetry.
    assert (Hfix : ∀ c c', c ∈ cs → same_facts c c' → published now' og (M ++ R) c' = published now og live c).
    { intros c c' Hc Hcc. unfold published at 1. pose proof Hcc as (<- & _).
      rewrite find_app, <- (published_type now og live c), find_unique;
        [|by rewrite HM|by apply list_elem_of_fmap_2].
      destruct (published_facts now og live c) as (Pt & Ps & Pr & Pm & Pg).
      destruct Hcc as (Ct & Cs & Cr & Cm & Cg).
      unfold transition. rewrite bool_decide_true by (simpl in *; congruence).
      destruct (published now og live c) eqn:Hp. simpl in *. congruence. }
    revert Hfix. generalize (M ++ R). intros L Hfix. clear -Hs Hfix. induction Hs as [|c c' cs cs' Hc _ IH]; [done|]. simpl.
    rewrite (Hfix c c') by set_solver. f_equal. apply IH. intros d d' Hd. apply Hfix. set_solver. }
  rewrite foldl_app, (preserve_present keep M M) by done. by apply preserve_new.
Qed.

End lemmas.

(** ** The reporter as a sequence of calls *)

Inductive listener_call :=
| LSetCondition (now : Z) (c : metav1_Condition)
| LSetSupportedKinds (ks : list (option string * string))
| LSetAttachedRoutes (n : Z).

Inductive reporter_call :=
| CGatewayCondition (o : ObjectMeta) (now : Z) (c : metav1_Condition)
| CGatewayListener (o : ObjectMeta) (name : string) (l : listener_call)
| CAttachedListenerSets (o : ObjectMeta) (n : Z)
| CListenerSetCondition (gvk : GroupVersionKind) (o : ObjectMeta) (now : Z) (c : metav1_Condition)
| CListenerSetListener (gvk : GroupVersionKind) (o : ObjectMeta) (name : string) (l : listener_call)
| CRouteParent (t : RouteType) (o : ObjectMeta) (ref : ParentReference)
| CRouteCondition (t : RouteType) (o : ObjectMeta) (ref : ParentReference) (now : Z) (c : metav1_Condition)
| CPolicyCondition (k : PolicyKey) (generation : Z) (ref : ParentReference) (now : Z) (c : metav1_Condition)
| CPolicyState (k : PolicyKey) (generation : Z) (ref : ParentReference) (s : Z)
| CBackendCondition (o : ObjectMeta) (now : Z) (c : metav1_Condition).

Section calls.
Context `{CL : ConditionLib}.

Definition apply_listener_call (l : listener_call) : ListenerStatus → ListenerStatus :=
  match l with
  | LSetCondition now c => ListenerReport_SetCondition now c
  | LSetSupportedKinds ks => SetSupportedKinds ks
  | LSetAttachedRoutes n => SetAttachedRoutes n
  end.

Definition apply_call (rm : ReportMap) (c : reporter_call) : ReportMap :=
  match c with
  | CGatewayCondition o now c => statusReporter_Gateway o (GatewayReport_SetCondition now c) rm
  | CGatewayListener o n l => statusReporter_Gateway o (GatewayReport_Listener n (apply_listener_call l)) rm
  | CAttachedListenerSets o n => statusReporter_Gateway o (SetAttachedListenerSets n) rm
  | CListenerSetCondition gvk o now c =>
      statusReporter_ListenerSet gvk o (ListenerSetReport_SetCondition now c) rm
  | CListenerSetListener gvk o n l =>
      statusReporter_ListenerSet gvk o (ListenerSetReport_Listener n (apply_listener_call l)) rm
  | CRouteParent t o ref => statusReporter_Route t o (RouteReport_ParentRef ref id) rm
  | CRouteCondition t o ref now c =>
      statusReporter_Route t o (RouteReport_ParentRef ref (ParentRefReport_SetCondition now c)) rm
  | CPolicyCondition k g ref now c =>
      statusReporter_Policy k g (PolicyReport_AncestorRef ref (AncestorRefReport_SetCondition now c)) rm
  | CPolicyState k g ref s => statusReporter_Policy k g (PolicyReport_AncestorRef ref (SetAttachmentState s)) rm
  | CBackendCondition o now c => statusReporter_Backend o (BackendReport_SetCondition now c) rm
  end.

Definition reported (calls : list reporter_call) : ReportMap := foldl apply_call NewReportMap calls.

(** ** Well-formed reports: no condition type twice, listeners under their name. *)

Definition wf_conditions (l : Conditions) : Prop := NoDup (types l).

Definition wf_listeners (m : gmap string ListenerStatus) : Prop :=
  map_Forall (λ n s, lst_name s = n ∧ wf_conditions (lst_conditions s)) m.

Definition wf_gateway (r : GatewayReport) : Prop := wf_conditions (gr_conditions r) ∧ wf_listeners (gr_listeners r).
Definition wf_listener_set (r : ListenerSetReport) : Prop :=
  wf_conditions (lsr_conditions r) ∧ wf_listeners (lsr_listeners r).
Definition wf_route_report (r : RouteReport) : Prop := map_Forall (λ _, wf_conditions) (rr_parents r).
Definition wf_policy (r : PolicyReport) : Prop := map_Forall (λ _ a, wf_conditions (ar_conditions a)) (pp_ancestors r).
Definition wf_backend (r : BackendReport) : Prop := wf_conditions (br_conditions r).

Record wf_reports (rm : ReportMap) : Prop := {
  wf_gateways : map_Forall (λ _, wf_gateway) (rm_gateways rm);
  wf_listener_sets : map_Forall (λ _, map_Forall (λ _, wf_listener_set)) (rm_listener_sets rm);
  wf_routes : ∀ t, map_Forall (λ _, wf_route_report) (routes_of t rm);
  wf_policies : map_Forall (λ _, wf_policy) (rm_policies rm);
  wf_backends : map_Forall (λ _, wf_backend) (rm_backends rm) }.

Context {LW : ConditionLaws}.

Lemma wf_apply_listener l s n :
  lst_name s = n ∧ wf_conditions (lst_conditions s) →
  lst_name (apply_listener_call l s) = n ∧ wf_conditions (lst_conditions (apply_listener_call l s)).
Proof. intros [? ?]. destruct l; split; try done. by apply set_NoDup. Qed.

Lemma wf_report_listener n l m :
  wf_listeners m → wf_listeners (report_listener n (apply_listener_call l) m).
Proof.
  intros Hm. apply map_Forall_insert_2; [|done]. apply wf_apply_listener.
  destruct (m !! n) eqn:Hn; simpl; [by apply (Hm n)|]. split; [done|constructor].
Qed.

Lemma wf_statusReporter_Gateway o f rm :
  (∀ r, wf_gateway r → wf_gateway (f r)) → wf_reports rm → wf_reports (statusReporter_Gateway o f rm).
Proof.
  intros Hf [Hg Hl Hr Hp Hb]. destruct rm as [g ls h gr tc tl p b]. simpl in *.
  split; try done. apply map_Forall_insert_2; [|done]. apply Hf.
  destruct (g !! om_nn o) eqn:Hn; [by apply (Hg _ _ Hn)|]. split; [constructor|]. apply map_Forall_empty.
Qed.

Lemma wf_statusReporter_ListenerSet gvk o f rm :
  (∀ r, wf_listener_set r → wf_listener_set (f r)) → wf_reports rm →
  wf_reports (statusReporter_ListenerSet gvk o f rm).
Proof.
  intros Hf [Hg Hl Hr Hp Hb]. destruct rm as [g ls h gr tc tl p b].
  unfold statusReporter_ListenerSet, ReportMap_ListenerSet. simpl in *. split; try done.
  set (k := gvk_or_default gvk). apply map_Forall_insert_2; [|done]. destruct (ls !! k) as [m|] eqn:Hk; simpl.
  - pose proof (Hl _ _ Hk) as Hm. apply map_Forall_insert_2; [|done]. apply Hf.
    destruct (m !! om_nn o) eqn:Hn; [by apply (Hm _ _ Hn)|].
    split; [constructor|apply map_Forall_empty].
  - apply map_Forall_insert_2; [|apply map_Forall_empty]. apply Hf.
    split; [constructor|apply map_Forall_empty].
Qed.

Lemma routes_of_with t t' m rm :
  routes_of t (with_routes t' m rm) = if decide (t = t') then m else routes_of t rm.
Proof. by destruct rm, t, t'. Qed.

Lemma wf_statusReporter_Route t o f rm :
  (∀ r, wf_route_report r → wf_route_report (f r)) → wf_reports rm → wf_reports (statusReporter_Route t o f rm).
Proof.
  intros Hf Hw. destruct Hw as [Hg Hl Hr Hp Hb]. unfold statusReporter_Route. split.
  1,2,4,5: by destruct rm, t.
  intros t'. rewrite routes_of_with. case_decide; [|done]. subst t'.
  apply map_Forall_insert_2; [|done]. apply Hf.
  destruct (routes_of t rm !! om_nn o) eqn:Hn; [by apply (Hr t _ _ Hn)|]. apply map_Forall_empty.
Qed.

Lemma wf_statusReporter_Policy k g f rm :
  (∀ r, wf_policy r → wf_policy (f r)) → wf_reports rm → wf_reports (statusReporter_Policy k g f rm).
Proof.
  intros Hf [Hg Hl Hr Hp Hb]. destruct rm as [gw ls h gr tc tl p b]. simpl in *. split; try done.
  apply map_Forall_insert_2; [|done]. apply Hf.
  destruct (p !! k) eqn:Hn; [by apply (Hp _ _ Hn)|]. apply map_Forall_empty.
Qed.

Lemma wf_parent_ref ref f r :
  (∀ cs, wf_conditions cs → wf_conditions (f cs)) → wf_route_report r → wf_route_report (RouteReport_ParentRef ref f r).
Proof.
  intros Hf Hr. apply map_Forall_insert_2; [|done]. apply Hf.
  destruct (rr_parents r !! _) eqn:Hn; simpl; [by apply (Hr _ _ Hn)|constructor].
Qed.

Lemma wf_ancestor_ref ref f r :
  (∀ a, wf_conditions (ar_conditions a) → wf_conditions (ar_conditions (f a))) →
  wf_policy r → wf_policy (PolicyReport_AncestorRef ref f r).
Proof.
  intros Hf Hr. apply map_Forall_insert_2; [|done]. apply Hf.
  destruct (pp_ancestors r !! _) eqn:Hn; simpl; [by apply (Hr _ _ Hn)|constructor].
Qed.

Lemma wf_apply_call rm c : wf_reports rm → wf_reports (apply_call rm c).
Proof.
  intros Hw. destruct c; simpl.
  - apply wf_statusReporter_Gateway; [|done]. intros r [? ?]. split; [by apply set_NoDup|done].
  - apply wf_statusReporter_Gateway; [|done]. intros r [? ?]. split; [done|by apply wf_report_listener].
  - by apply wf_statusReporter_Gateway.
  - apply wf_statusReporter_ListenerSet; [|done]. intros r [? ?]. split; [by apply set_NoDup|done].
  - apply wf_statusReporter_ListenerSet; [|done]. intros r [? ?]. split; [done|by apply wf_report_listener].
  - apply wf_statusReporter_Route; [|done]. intros r. by apply wf_parent_ref.
  - apply wf_statusReporter_Route; [|done]. intros r. apply wf_parent_ref. intros cs. apply set_NoDup.
  - apply wf_statusReporter_Policy; [|done]. intros r. apply wf_ancestor_ref. intros a. apply set_NoDup.
  - apply wf_statusReporter_Policy; [|done]. intros r. by apply wf_ancestor_ref.
  - destruct Hw as [Hg Hl Hr Hp Hb]. destruct rm as [g ls h gr tc tl p b]. simpl in *. split; try done.
    apply map_Forall_insert_2; [|done]. apply set_NoDup.
    destruct (b !! _) eqn:Hn; simpl; [by apply (Hb _ _ Hn)|constructor].
Qed.

Lemma reported_wf calls : wf_reports (reported calls).
Proof.
  assert (H0 : wf_reports NewReportMap).
  { split; simpl; try apply map_Forall_empty. intros []; apply map_Forall_empty. }
  unfold reported. revert H0. generalize NewReportMap.
  induction calls as [|c calls IH]; intros rm Hw; simpl; [done|]. by apply IH, wf_apply_call.
Qed.

End calls.

(** ** The library as documented *)

Fixpoint go_set (now : Z) (l : Conditions) (c : metav1_Condition) : Conditions :=
  match l with
  | [] => [stamped now c]
  | d :: l' => if bool_decide (mc_type d = mc_type c) then transition now d c :: l' else d :: go_set now l' c
  end.

Definition go_conditions : ConditionLib := {|
  FindStatusCondition l t := head (filter (λ c, mc_type c = t) l);
  SetStatusCondition := go_set |}.

Lemma go_conditions_laws : @ConditionLaws go_conditions.
Proof.
  split; simpl; [done| |].
  - intros now l c. induction l as [|d l IH]; [done|]. rewrite filter_cons. simpl.
    case_decide as Hd; [done|]. intros H. rewrite bool_decide_false by done. by rewrite IH.
  - intros now l1 old l2 c. induction l1 as [|d l1 IH]; simpl.
    + intros _ Ho. by rewrite bool_decide_true.
    + rewrite filter_cons. case_decide as Hd; [done|]. intros H Ho. rewrite bool_decide_false by done.
      by rewrite IH.
Qed.
