(* ===== verification/StatusBuilders.v ===== *)
(** * What the status builders publish (pkg/reports/status.go, policy.go)

    Specifications of the builders of [Reports], condition type by condition type,
    and the round trip from the calls translation makes on the reporter to the
    status of the object. *)

From S2P Require Import Prelude IR Reports.

Section builders.
Context `{CL : ConditionLib} {LW : ConditionLaws}.

(** ** Defaults *)

Definition add_defaults (now : Z) (cs ds : Conditions) : Conditions :=
  foldl (λ out c, add_default now c out) cs ds.

Lemma find_add_defaults now cs ds t :
  FindStatusCondition (add_defaults now cs ds) t =
  match FindStatusCondition cs t with
  | Some c => Some c
  | None => stamped now <$> FindStatusCondition ds t
  end.
Proof.
  unfold add_defaults. revert cs. induction ds as [|d ds IH]; intros cs; cbn [foldl].
  - rewrite (find_first [] t), filter_nil. by destruct (FindStatusCondition cs t).
  - rewrite IH, find_add_default. change (d :: ds) with ([d] ++ ds). rewrite find_app, find_one.
    destruct (FindStatusCondition cs t); [done|]. by case_decide.
Qed.

Lemma add_defaults_NoDup now cs ds : NoDup (types cs) → NoDup (types (add_defaults now cs ds)).
Proof.
  unfold add_defaults. revert cs. induction ds as [|d ds IH]; intros cs Hn; cbn [foldl]; [done|].
  by apply IH, add_default_NoDup.
Qed.

Lemma same_add_defaults now now' cs cs' ds :
  same_list cs cs' → same_list (add_defaults now cs ds) (add_defaults now' cs' ds).
Proof.
  unfold add_defaults. revert cs cs'. induction ds as [|d ds IH]; intros cs cs' Hs; cbn [foldl]; [done|].
  by apply IH, same_add_default.
Qed.

(** A published default keeps its facts, whatever the clock. *)
Lemma published_stamped_facts now og live d :
  same_facts (published now og live (stamped now d)) (with_generation og d).
Proof. etrans; [apply published_facts|]. done. Qed.

Lemma published_same_facts now og live c c' :
  same_facts c c' → same_facts (published now og live c) (with_generation og c').
Proof. intros (?&?&?&?&?). etrans; [apply published_facts|]. by repeat split. Qed.

(** ** Routes *)

Definition route_defaults : Conditions := [RouteAccepted; RouteResolvedRefs; RouteProgrammed].

Lemma parent_defaults now cs : parentRefConditionsWithDefaults now cs = add_defaults now cs route_defaults.
Proof. done. Qed.

(** The conditions of one parent of a route. *)
Definition parent_conditions (now : Z) (r : RouteReport) (live cs : Conditions) : Conditions :=
  final_conditions (λ _, true) now (rr_generation r) live (parentRefConditionsWithDefaults now cs).

Lemma find_parent_conditions now r live cs t :
  wf_conditions cs →
  FindStatusCondition (parent_conditions now r live cs) t =
  match FindStatusCondition cs t, FindStatusCondition route_defaults t with
  | Some c, _ => Some (published now (rr_generation r) live c)
  | None, Some d => Some (published now (rr_generation r) live (stamped now d))
  | None, None => FindStatusCondition live t
  end.
Proof.
  intros Hw. unfold parent_conditions. rewrite parent_defaults, find_final by by apply add_defaults_NoDup.
  rewrite find_add_defaults. destruct (FindStatusCondition cs t); [done|].
  destruct (FindStatusCondition route_defaults t); [done|]. simpl. by rewrite filter_keep_all.
Qed.

(** The references a route status is built for. *)
Definition status_refs (keys : list ParentRefKey) (obj : RouteObject) : list ParentReference :=
  match ro_parent_refs obj with [] => refs_of_keys keys | refs => refs end.

Definition known (r : RouteReport) (ref : ParentReference) : bool :=
  bool_decide (is_Some (rr_parents r !! getParentRefKey ref)).

Lemma omap_parent_status now r live ctrl refs :
  omap (parent_status now r live ctrl) refs =
  map (λ ref, mkRPS ref ctrl (parent_conditions now r (live_parent live ref)
                (default [] (rr_parents r !! getParentRefKey ref))))
    (filter (λ ref, known r ref = true) refs).
Proof.
  induction refs as [|ref refs IH]; [done|]. cbn [omap list_omap]. rewrite filter_cons.
  unfold parent_status at 1. case_decide as Hk.
  - apply bool_decide_eq_true in Hk as [cs Hcs]. cbn [map]. rewrite Hcs. simpl. f_equal. apply IH.
  - unfold known in Hk. rewrite bool_decide_eq_true, <- eq_None_not_Some in Hk. rewrite Hk. apply IH.
Qed.

Lemma sort_parents_perm l : sort_parents l ≡ₚ l.
Proof. apply sort_stable_perm. Qed.

Lemma route_status_parts now keys r obj ctrl st :
  wf_route_report r → BuildRouteStatus now keys (Some r) obj ctrl = Some st →
  map rps_ref st ≡ₚ filter (λ ref, known r ref = true) (status_refs keys obj) ∧
  StronglySorted (cmp_le (cmp_on (ParentString ∘ rps_ref) String.compare)) st ∧
  ∀ e, e ∈ st → rps_controller e = ctrl ∧
    ∃ cs, rr_parents r !! getParentRefKey (rps_ref e) = Some cs ∧
    ∀ t, let live := live_parent (ro_status obj) (rps_ref e) in
      FindStatusCondition (rps_conditions e) t =
      match FindStatusCondition cs t, FindStatusCondition route_defaults t with
      | Some c, _ => Some (published now (rr_generation r) live c)
      | None, Some d => Some (published now (rr_generation r) live (stamped now d))
      | None, None => FindStatusCondition live t
      end.
Proof.
  intros Hw Hb. unfold BuildRouteStatus in Hb. simpl in Hb. injection Hb as <-.
  set (refs := match ro_parent_refs obj with [] => _ | _ => _ end).
  assert (Hrefs : refs ≡ₚ status_refs keys obj).
  { unfold refs, status_refs. destruct (ro_parent_refs obj); [apply sort_stable_perm|done]. }
  split; [|split].
  - rewrite sort_parents_perm, omap_parent_status, map_map. simpl. rewrite map_id. by rewrite Hrefs.
  - apply sort_stable_sorted, _.
  - intros e He. rewrite sort_parents_perm, omap_parent_status in He.
    apply list_elem_of_fmap in He as (ref & -> & Hr). apply list_elem_of_filter in Hr as [Hr _]. simpl.
    split; [done|]. apply bool_decide_eq_true in Hr as [cs Hcs]. exists cs. split; [done|]. intros t.
    rewrite Hcs. simpl. apply find_parent_conditions. by apply (Hw _ _ Hcs).
Qed.

(** The status of a route has exactly one entry per parent reference that translation
    reported (the references of the spec, or those of the report for a delegatee that names
    none), sorted by [ParentString], all owned by this controller.  A condition type has
    the reported condition with the report's generation, else the positive default, else
    the condition the live entry has. *)
Theorem route_status_spec now keys r obj ctrl st :
  wf_route_report r → BuildRouteStatus now keys (Some r) obj ctrl = Some st →
  map rps_ref st ≡ₚ filter (λ ref, known r ref = true) (status_refs keys obj) ∧
  StronglySorted (cmp_le (cmp_on (ParentString ∘ rps_ref) String.compare)) st ∧
  ∀ e, e ∈ st → rps_controller e = ctrl ∧
    ∃ cs, rr_parents r !! getParentRefKey (rps_ref e) = Some cs ∧
    ∀ t, let live := live_parent (ro_status obj) (rps_ref e) in
      FindStatusCondition (rps_conditions e) t =
      match FindStatusCondition cs t, FindStatusCondition route_defaults t with
      | Some c, _ => Some (published now (rr_generation r) live c)
      | None, Some d => Some (published now (rr_generation r) live (stamped now d))
      | None, None => FindStatusCondition live t
      end.
Proof. apply route_status_parts. Qed.

(** ** Listeners *)

Definition listener_defaults : Conditions :=
  [ListenerAccepted; ListenerNoConflicts; ListenerResolvedRefs; ListenerProgrammed].

(** The reported conditions of a listener, with the defaults. *)
Definition listener_facts (now : Z) (reports : gmap string ListenerStatus) (name : string) : Conditions :=
  lst_conditions (listenerStatusFromReports now reports name).

(** The published status of a listener. *)
Definition listener_out (now og : Z) (reports : gmap string ListenerStatus) (live : list ListenerStatus)
    (attached : gmap string Z) (name : string) : ListenerStatus :=
  let s := listenerStatusFromReports now reports name in
  mkLSt (lst_name s) (lst_kinds s) (match attached !! name with Some n => int32 n | None => lst_routes s end)
    (map (published now og (live_listener live name)) (listener_facts now reports name)).

Definition listener_invalid (now : Z) (reports : gmap string ListenerStatus) (name : string) : bool :=
  existsb not_programmed (listener_facts now reports name).

Lemma wf_listener_default reports name :
  wf_listeners reports →
  lst_name (default (NewListenerReport name) (reports !! name)) = name ∧
  wf_conditions (lst_conditions (default (NewListenerReport name) (reports !! name))).
Proof.
  intros Hw. destruct (reports !! name) as [s|] eqn:Hs; simpl; [by apply (Hw name s)|].
  split; [done|constructor].
Qed.

Lemma listener_facts_NoDup now reports name :
  wf_listeners reports → NoDup (types (listener_facts now reports name)).
Proof. intros Hw. apply add_defaults_NoDup. by apply wf_listener_default. Qed.

Lemma listener_out_name now og reports live attached name :
  wf_listeners reports → lst_name (listener_out now og reports live attached name) = name.
Proof. intros Hw. by apply wf_listener_default. Qed.

(** What the conditions of a listener contribute to the verdict on its parent. *)
Definition invalid_names (name : string) (cs : Conditions) : list string :=
  map (λ _, name) (filter (λ c, not_programmed c = true) cs).
Definition invalid_messages (name : string) (cs : Conditions) : list string :=
  map (λ c, name +:+ ": " +:+ mc_message c)
    (filter (λ c, not_programmed c = true ∧ mc_message c ≠ "") cs).

Lemma listener_condition_loop now og live name final inv msgs cs :
  foldl (listener_condition_step now og live name) (final, inv, msgs) cs =
    (foldl (stamp_step now og live) final cs, inv ++ invalid_names name cs, msgs ++ invalid_messages name cs).
Proof.
  revert final inv msgs. induction cs as [|c cs IH]; intros final inv msgs; cbn [foldl].
  - unfold invalid_names, invalid_messages. by rewrite !filter_nil, !app_nil_r.
  - unfold listener_condition_step at 2, invalid_names, invalid_messages. rewrite !filter_cons.
    destruct (not_programmed c) eqn:Hc.
    + rewrite IH, decide_True, <- app_assoc by done. f_equal.
      destruct (String.eqb_spec (mc_message c) "") as [He|He].
      * by rewrite decide_False by naive_solver.
      * by rewrite decide_True, <- app_assoc.
    + by rewrite !decide_False, IH by naive_solver.
Qed.

Lemma not_programmed_type c : not_programmed c = true → mc_type c = "Programmed".
Proof. unfold not_programmed. intros. by bool_hyps. Qed.

(** At most one condition of a listener is [Programmed=False]. *)
Lemma count_not_programmed (cs : Conditions) :
  NoDup (types cs) →
  length (filter (λ c, not_programmed c = true) cs) = if existsb not_programmed cs then 1 else 0.
Proof.
  induction cs as [|c cs IH]; intros Hn; [done|]. simpl in Hn. apply NoDup_cons in Hn as [Hc Hn].
  rewrite filter_cons. simpl. destruct (not_programmed c) eqn:Hp; simpl; [|by apply IH].
  rewrite IH by done. destruct (existsb not_programmed cs) eqn:He; [|done].
  exfalso. apply existsb_exists in He as (d & Hd & Hd'). apply Hc.
  rewrite (not_programmed_type c Hp), <- (not_programmed_type d Hd').
  apply list_elem_of_fmap_2. by apply list_elem_of_In.
Qed.

Lemma invalid_names_one name cs :
  NoDup (types cs) → invalid_names name cs = if existsb not_programmed cs then [name] else [].
Proof.
  intros Hn. pose proof (count_not_programmed cs Hn) as Hc. unfold invalid_names.
  destruct (existsb not_programmed cs), (filter _ cs) as [|x [|y l]]; by simpl in *.
Qed.

Definition listener_messages (now : Z) (reports : gmap string ListenerStatus) (names : list string) :
    list string := names ≫= λ n, invalid_messages n (listener_facts now reports n).

Lemma build_listeners_spec now og reports live attached names :
  wf_listeners reports →
  build_listeners now og reports live attached names =
    (map (listener_out now og reports live attached) names,
     filter (λ n, listener_invalid now reports n = true) names, listener_messages now reports names).
Proof.
  intros Hw. unfold build_listeners, listener_messages.
  assert (Hg : ∀ fs inv msgs, foldl (listener_status_step now og reports live attached) (fs, inv, msgs) names =
    (fs ++ map (listener_out now og reports live attached) names,
     inv ++ filter (λ n, listener_invalid now reports n = true) names,
     msgs ++ (names ≫= λ n, invalid_messages n (listener_facts now reports n)))).
  { induction names as [|n names IH]; intros fs inv msgs; cbn [foldl].
    - by rewrite filter_nil, !app_nil_r.
    - unfold listener_status_step at 2.
      change (lst_conditions (listenerStatusFromReports now reports n)) with (listener_facts now reports n).
      rewrite listener_condition_loop, stamp_loop by (set_solver || by apply listener_facts_NoDup).
      etrans; [apply (IH (fs ++ [listener_out now og reports live attached n]))|].
      rewrite bind_cons, <- !app_assoc. f_equal. f_equal. f_equal. rewrite filter_cons.
      rewrite invalid_names_one by by apply listener_facts_NoDup.
      fold (listener_invalid now reports n). case_decide as Hn; [by rewrite Hn|].
      apply not_true_is_false in Hn. by rewrite Hn. }
  apply (Hg [] [] []).
Qed.

Lemma find_map_published now og live cs t :
  NoDup (types cs) →
  FindStatusCondition (map (published now og live) cs) t = published now og live <$> FindStatusCondition cs t.
Proof.
  intros Hn. pose proof (find_final (λ _, false) now og live cs t Hn) as H.
  unfold final_conditions in H. rewrite find_preserve, stamp_loop in H by set_solver. simpl in H.
  assert (filter (λ c : metav1_Condition, false = true) live = []) as Hf.
  { clear. induction live as [|c l IH]; [done|]. by rewrite filter_cons, decide_False. }
  rewrite Hf, (find_first [] t), filter_nil in H.
  destruct (FindStatusCondition (map _ cs) t), (FindStatusCondition cs t); simpl in *; congruence.
Qed.

(** ** Gateways *)

(** The facts a Gateway status is built from, once its listeners are. *)
Definition gateway_facts (now : Z) (r : GatewayReport) (gw : Gateway)
    (listeners : list ListenerStatus) (invalid messages : list string) : Conditions :=
  let cs := match invalid with
            | [] => gr_conditions r
            | _ => SetStatusCondition now (gr_conditions r)
                     (cond "Accepted" "True" "ListenersNotValid" (not_programmed_message invalid messages))
            end in
  gatewayConditionsWithDefaults now
    (handleInsecureFrontendValidationMode now (handleInvalidAddresses now cs gw) gw)
    (gs_conditions (gw_status gw)) listeners.

Lemma build_gateway now r gw att :
  wf_gateway r →
  BuildGWStatus now (Some r) gw att = Some
    (let live := gs_conditions (gw_status gw) in
     let listeners := map (listener_out now (gr_generation r) (gr_listeners r)
       (gs_listeners (gw_status gw)) att) (gw_listener_names gw) in
     let invalid := filter (λ n, listener_invalid now (gr_listeners r) n = true) (gw_listener_names gw) in
     let msgs := listener_messages now (gr_listeners r) (gw_listener_names gw) in
     mkGS (gs_addresses (gw_status gw))
       (final_conditions keep_gateway_condition now (gr_generation r) live
          (gateway_facts now r gw listeners invalid msgs)) listeners
       (if (0 <? gr_attached r)%Z then Some (gr_attached r) else None)).
Proof.
  intros [_ Hw]. unfold BuildGWStatus. cbn [mbind option_bind].
  by rewrite build_listeners_spec.
Qed.

Lemma find_set_other now l c t :
  mc_type c ≠ t → FindStatusCondition (SetStatusCondition now l c) t = FindStatusCondition l t.
Proof. intros Ht. by rewrite find_set, decide_False. Qed.

Lemma find_set_same now l c :
  ∃ d, FindStatusCondition (SetStatusCondition now l c) (mc_type c) = Some d ∧ same_facts d c.
Proof.
  rewrite find_set, decide_True by done. destruct (FindStatusCondition l _) eqn:Hf; eexists; (split; [done|]).
  - apply find_Some_type in Hf as [? _]. by repeat split.
  - by repeat split.
Qed.

(** The loop over the addresses only ever sets these two conditions. *)
Lemma addresses_ind now gw (Q : Conditions → Prop) cs :
  (∀ cs, Q cs → Q (SetStatusCondition now cs
     (cond "Programmed" "False" "AddressNotUsable" "Hostname addresses may not be used"))) →
  (∀ cs, Q cs → Q (SetStatusCondition now cs (cond "Accepted" "False" "UnsupportedAddress" "Unknown address kind"))) →
  Q cs → Q (handleInvalidAddresses now cs gw).
Proof.
  intros H1 H2. unfold handleInvalidAddresses. revert cs.
  induction (gw_addresses gw) as [|[t|] l IH]; intros cs Hq; cbn [foldl]; [done| |by apply IH].
  apply IH. destruct (String.eqb t "IPAddress"); [done|]. destruct (String.eqb t "Hostname"); auto.
Qed.

Lemma gateway_facts_NoDup now r gw ls inv msgs :
  wf_conditions (gr_conditions r) → NoDup (types (gateway_facts now r gw ls inv msgs)).
Proof.
  intros Hw. unfold gateway_facts, gatewayConditionsWithDefaults.
  apply add_default_NoDup, add_default_NoDup.
  assert (NoDup (types (handleInsecureFrontendValidationMode now (handleInvalidAddresses now
    (match inv with [] => gr_conditions r | _ => SetStatusCondition now (gr_conditions r)
       (cond "Accepted" "True" "ListenersNotValid" (not_programmed_message inv msgs)) end) gw) gw))) as Hc.
  { unfold handleInsecureFrontendValidationMode.
    assert (Ha : ∀ cs, NoDup (types cs) → NoDup (types (handleInvalidAddresses now cs gw))).
    { intros cs Hn. apply addresses_ind; [..|done]; intros; by apply set_NoDup. }
    destruct (gatewayUsesInsecureFrontendValidationMode gw); [apply set_NoDup|]; apply Ha;
      destruct inv; try done; by apply set_NoDup. }
  destruct (has_invalid_params _); [done|]. by apply add_default_NoDup.
Qed.

(** A type no step of the builder writes. *)
Lemma find_gateway_facts_other now r gw ls inv msgs t :
  isReporterOwnedGatewayConditionType t = false →
  FindStatusCondition (gateway_facts now r gw ls inv msgs) t = FindStatusCondition (gr_conditions r) t.
Proof.
  intros Ho. unfold isReporterOwnedGatewayConditionType in Ho. apply bool_decide_eq_false in Ho.
  assert ("Accepted" ≠ t ∧ "Programmed" ≠ t ∧ "ResolvedRefs" ≠ t ∧ "InsecureFrontendValidationMode" ≠ t)
    as (Ha & Hp & Hr & Hi) by set_solver.
  unfold gateway_facts, gatewayConditionsWithDefaults. rewrite !find_add_default.
  rewrite (decide_False (P:=mc_type (GatewayResolvedRefs ls) = t)) by (unfold GatewayResolvedRefs; by case_match).
  rewrite (decide_False (P:=mc_type GatewayProgrammed = t)) by done.
  set (cs := match inv with [] => _ | _ => _ end).
  assert (Hc : FindStatusCondition (handleInsecureFrontendValidationMode now (handleInvalidAddresses now cs gw) gw) t
    = FindStatusCondition (gr_conditions r) t).
  { unfold handleInsecureFrontendValidationMode.
    assert (Hadd : FindStatusCondition (handleInvalidAddresses now cs gw) t = FindStatusCondition (gr_conditions r) t).
    { apply (addresses_ind now gw (λ l, FindStatusCondition l t = FindStatusCondition (gr_conditions r) t)).
      1,2: intros l <-; by rewrite find_set_other.
      unfold cs. destruct inv; [done|]. by rewrite find_set_other. }
    case_match; [by rewrite find_set_other|done]. }
  assert (Ha' : FindStatusCondition (if has_invalid_params (gs_conditions (gw_status gw))
      then handleInsecureFrontendValidationMode now (handleInvalidAddresses now cs gw) gw
      else add_default now GatewayAccepted
        (handleInsecureFrontendValidationMode now (handleInvalidAddresses now cs gw) gw)) t
    = FindStatusCondition (gr_conditions r) t).
  { destruct (has_invalid_params _); [done|]. rewrite find_add_default, Hc, decide_False by done.
    by destruct (FindStatusCondition (gr_conditions r) t). }
  rewrite Ha'. by destruct (FindStatusCondition (gr_conditions r) t).
Qed.

(** With an invalid listener, the verdict on acceptance says so. *)
Lemma find_gateway_facts_invalid now r gw ls inv msgs :
  inv ≠ [] →
  ∃ c, FindStatusCondition (gateway_facts now r gw ls inv msgs) "Accepted" = Some c ∧
    mc_reason c ∈ ["ListenersNotValid"; "UnsupportedAddress"].
Proof.
  intros Hi. unfold gateway_facts, gatewayConditionsWithDefaults. rewrite !find_add_default.
  set (cs := match inv with [] => _ | _ => _ end).
  set (Q := λ l, ∃ c, FindStatusCondition l "Accepted" = Some c ∧
    mc_reason c ∈ ["ListenersNotValid"; "UnsupportedAddress"]).
  assert (Hset : ∀ l c, mc_type c = "Accepted" → mc_reason c ∈ ["ListenersNotValid"; "UnsupportedAddress"] →
    Q (SetStatusCondition now l c)).
  { intros l c Ht Hr. destruct (find_set_same now l c) as (d & Hd & (_ & _ & Hr' & _)).
    exists d. rewrite <- Ht, Hr'. done. }
  assert (Q (handleInsecureFrontendValidationMode now (handleInvalidAddresses now cs gw) gw)) as (c & Hc & Hr).
  { unfold handleInsecureFrontendValidationMode.
    assert (Q (handleInvalidAddresses now cs gw)) as Hq.
    { apply addresses_ind.
      - intros l (c & Hc & Hr). exists c. split; [by rewrite find_set_other|done].
      - intros l _. apply Hset; [done|set_solver].
      - unfold cs. destruct inv; [done|]. apply Hset; [done|set_solver]. }
    case_match; [|done]. destruct Hq as (c & Hc & Hr). exists c. split; [by rewrite find_set_other|done]. }
  exists c. split; [|done]. destruct (has_invalid_params _); rewrite ?find_add_default; by rewrite Hc.
Qed.

(** [ResolvedRefs], when translation does not report it, is the default. *)
Lemma find_gateway_facts_refs now r gw ls inv msgs :
  FindStatusCondition (gr_conditions r) "ResolvedRefs" = None →
  FindStatusCondition (gateway_facts now r gw ls inv msgs) "ResolvedRefs" =
  Some (stamped now (GatewayResolvedRefs ls)).
Proof.
  intros Hr. unfold gateway_facts, gatewayConditionsWithDefaults. rewrite !find_add_default.
  set (cs := match inv with [] => _ | _ => _ end).
  rewrite (decide_False (P:=mc_type GatewayProgrammed = _)) by done.
  rewrite (decide_True (P:=mc_type (GatewayResolvedRefs ls) = _)) by (unfold GatewayResolvedRefs; by case_match).
  assert (FindStatusCondition (handleInsecureFrontendValidationMode now (handleInvalidAddresses now cs gw) gw)
    "ResolvedRefs" = None) as Hc.
  { unfold handleInsecureFrontendValidationMode.
    assert (FindStatusCondition (handleInvalidAddresses now cs gw) "ResolvedRefs" = None) as Hadd.
    { apply (addresses_ind now gw (λ l, FindStatusCondition l "ResolvedRefs" = None)).
      1,2: intros l <-; by rewrite find_set_other.
      unfold cs. destruct inv; [done|]. by rewrite find_set_other. }
    case_match; [by rewrite find_set_other|done]. }
  destruct (has_invalid_params _); rewrite ?find_add_default, Hc; [done|].
  by rewrite (decide_False (P:=mc_type GatewayAccepted = _)).
Qed.

(** No verdict on acceptance when nothing has one. *)
Lemma find_gateway_facts_silent now r gw ls msgs :
  has_invalid_params (gs_conditions (gw_status gw)) = true → gw_addresses gw = [] →
  FindStatusCondition (gr_conditions r) "Accepted" = None →
  FindStatusCondition (gateway_facts now r gw ls [] msgs) "Accepted" = None.
Proof.
  intros Hp Ha Hr. unfold gateway_facts, gatewayConditionsWithDefaults. rewrite Hp, !find_add_default.
  rewrite (decide_False (P:=mc_type GatewayProgrammed = _)) by done.
  rewrite (decide_False (P:=mc_type (GatewayResolvedRefs ls) = _)) by (unfold GatewayResolvedRefs; by case_match).
  unfold handleInvalidAddresses. rewrite Ha. simpl. unfold handleInsecureFrontendValidationMode.
  destruct (gatewayUsesInsecureFrontendValidationMode gw); [rewrite find_set_other by done|]; by rewrite Hr.
Qed.

Lemma find_filter_keep keep l t c :
  FindStatusCondition l t = Some c → keep c = true →
  FindStatusCondition (filter (λ c, keep c = true) l) t = Some c.
Proof.
  intros Hf Hk. pose proof (find_Some_type _ _ _ Hf) as [Ht _].
  destruct (find_split _ _ _ Hf) as (l1 & l2 & -> & Hn).
  rewrite filter_app, find_app. apply find_None in Hn.
  assert (FindStatusCondition (filter (λ c, keep c = true) l1) t = None) as ->.
  { apply find_None. intros Hin. apply Hn. apply list_elem_of_fmap in Hin as (d & -> & Hd).
    apply list_elem_of_filter in Hd as [_ Hd]. by apply list_elem_of_fmap_2. }
  rewrite filter_cons, decide_True by done. change (c :: ?l) with ([c] ++ l).
  by rewrite find_app, find_one, decide_True.
Qed.

(** A listener status that shows a condition as [False]. *)
Definition shows_false (t : string) (l : ListenerStatus) : Prop :=
  ∃ c, FindStatusCondition (lst_conditions l) t = Some c ∧ mc_status c = "False".

Lemma listener_unresolved_iff l : listener_unresolved l = true ↔ shows_false "ResolvedRefs" l.
Proof.
  unfold listener_unresolved, shows_false. destruct (FindStatusCondition _ _) as [c|]; [|naive_solver].
  rewrite String.eqb_eq. naive_solver.
Qed.

Lemma find_listener_out now og reports live att n t :
  wf_listeners reports →
  FindStatusCondition (lst_conditions (listener_out now og reports live att n)) t =
  published now og (live_listener live n) <$>
    match FindStatusCondition (lst_conditions (default (NewListenerReport n) (reports !! n))) t with
    | Some c => Some c
    | None => stamped now <$> FindStatusCondition listener_defaults t
    end.
Proof.
  intros Hw. unfold listener_out. cbn [lst_conditions].
  rewrite find_map_published by by apply listener_facts_NoDup. f_equal.
  apply (find_add_defaults now _ listener_defaults).
Qed.

Lemma listener_invalid_iff now og reports live att n :
  wf_listeners reports →
  listener_invalid now reports n = true ↔ shows_false "Programmed" (listener_out now og reports live att n).
Proof.
  intros Hw. unfold shows_false, listener_out. cbn [lst_conditions].
  rewrite find_map_published by by apply listener_facts_NoDup.
  unfold listener_invalid. rewrite existsb_exists. split.
  - intros (c & Hc & Hn). apply list_elem_of_In in Hc. pose proof (not_programmed_type c Hn) as Ht.
    rewrite <- Ht, find_unique by (done || by apply listener_facts_NoDup). simpl. eexists. split; [done|].
    destruct (published_facts now og (live_listener live n) c) as (_ & -> & _).
    unfold not_programmed in Hn. by bool_hyps.
  - intros (c & Hc & Hs). apply fmap_Some in Hc as (d & Hd & ->).
    destruct (published_facts now og (live_listener live n) d) as (_ & Hs' & _). rewrite Hs in Hs'.
    apply find_Some_type in Hd as [Ht Hd]. exists d. split; [by apply list_elem_of_In|].
    unfold not_programmed. simpl in Hs'. by rewrite Ht, <- Hs'.
Qed.

(** The status of a Gateway has one entry per listener of the spec, in order, in which
    every condition is the reported one, else the default, with the report's generation. *)
Theorem gateway_listener_statuses now r gw att st :
  wf_gateway r → BuildGWStatus now (Some r) gw att = Some st →
  map lst_name (gs_listeners st) = gw_listener_names gw ∧
  ∀ l t, l ∈ gs_listeners st →
    let rep := default (NewListenerReport (lst_name l)) (gr_listeners r !! lst_name l) in
    match FindStatusCondition (lst_conditions rep) t, FindStatusCondition listener_defaults t with
    | Some c, _ | None, Some c =>
        ∃ c', FindStatusCondition (lst_conditions l) t = Some c' ∧
          same_facts c' (with_generation (gr_generation r) c)
    | None, None => FindStatusCondition (lst_conditions l) t = None
    end.
Proof.
  intros Hw Hb. rewrite (build_gateway now r gw att Hw) in Hb.
  injection Hb as <-. cbn zeta. cbn [gs_listeners]. destruct Hw as [_ Hw]. split.
  - rewrite map_map. rewrite <- (map_id (gw_listener_names gw)) at 2. apply map_ext. intros n.
    by apply listener_out_name.
  - intros l t Hl. apply list_elem_of_fmap in Hl as (n & -> & _).
    rewrite listener_out_name, find_listener_out by done.
    destruct (FindStatusCondition (lst_conditions _) t) as [c|]; simpl.
    + eexists. split; [done|apply published_facts].
    + destruct (FindStatusCondition listener_defaults t) as [d|]; simpl; [|done].
      eexists. split; [done|apply published_stamped_facts].
Qed.

(** A Gateway status is honest about its listeners and keeps what it does not own: with
    a listener that shows [Programmed=False] the Gateway is not plainly accepted; unless
    translation reports otherwise, [ResolvedRefs] is false exactly when some listener's is;
    a condition type outside the reporter's four that translation did not report is the
    live object's; and the deployer's [InvalidParameters] verdict survives unless
    translation, a listener or an address has a verdict on acceptance. *)
Theorem gateway_status_honest now r gw att st :
  wf_gateway r → BuildGWStatus now (Some r) gw att = Some st →
  let live := gs_conditions (gw_status gw) in
  ((∃ l, l ∈ gs_listeners st ∧ shows_false "Programmed" l) →
    ∃ c, FindStatusCondition (gs_conditions st) "Accepted" = Some c ∧
      mc_reason c ∈ ["ListenersNotValid"; "UnsupportedAddress"]) ∧
  (FindStatusCondition (gr_conditions r) "ResolvedRefs" = None →
    ∃ c, FindStatusCondition (gs_conditions st) "ResolvedRefs" = Some c ∧
      (mc_status c = "False" ↔ ∃ l, l ∈ gs_listeners st ∧ shows_false "ResolvedRefs" l)) ∧
  (∀ t, isReporterOwnedGatewayConditionType t = false →
    FindStatusCondition (gr_conditions r) t = None →
    FindStatusCondition (gs_conditions st) t = FindStatusCondition live t) ∧
  (has_invalid_params live = true → FindStatusCondition (gr_conditions r) "Accepted" = None →
    (∀ l, l ∈ gs_listeners st → ¬ shows_false "Programmed" l) → gw_addresses gw = [] →
    FindStatusCondition (gs_conditions st) "Accepted" = FindStatusCondition live "Accepted").
Proof.
  intros Hw Hb live. rewrite (build_gateway now r gw att Hw) in Hb.
  injection Hb as <-. cbn zeta. cbn [gs_listeners gs_conditions]. fold live.
  set (msgs := listener_messages _ _ _).
  set (inv := filter _ _). set (ls := map _ _).
  pose proof (gateway_facts_NoDup now r gw ls inv msgs (proj1 Hw)) as Hn. destruct Hw as [_ Hw].
  assert (Hinv : ∀ l, l ∈ ls → shows_false "Programmed" l → inv ≠ []).
  { intros l Hl Hs. unfold ls in Hl. apply list_elem_of_fmap in Hl as (n & -> & Hn').
    apply listener_invalid_iff in Hs; [|done].
    assert (n ∈ inv) by by apply list_elem_of_filter. intros He. rewrite He in *. set_solver. }
  split; [|split; [|split]].
  - intros (l & Hl & Hs). rewrite find_final by done.
    destruct (find_gateway_facts_invalid now r gw ls inv msgs (Hinv l Hl Hs)) as (c & -> & Hr).
    eexists. split; [done|]. by destruct (published_facts now (gr_generation r) live c) as (_ & _ & -> & _).
  - intros Hr. rewrite find_final by done. rewrite find_gateway_facts_refs by done.
    eexists. split; [done|].
    destruct (published_stamped_facts now (gr_generation r) live (GatewayResolvedRefs ls)) as (_ & -> & _).
    cbn [with_generation mc_status]. unfold GatewayResolvedRefs.
    assert (existsb listener_unresolved ls = true ↔ ∃ l, l ∈ ls ∧ shows_false "ResolvedRefs" l) as Hex.
    { rewrite existsb_exists. setoid_rewrite <- list_elem_of_In. by setoid_rewrite listener_unresolved_iff. }
    rewrite <- Hex. by destruct (existsb listener_unresolved ls).
  - intros t Ht Hr. rewrite find_final, find_gateway_facts_other, Hr by done.
    rewrite !find_first. f_equal. rewrite list_filter_filter. apply list_filter_iff.
    intros c. unfold keep_gateway_condition. split; [naive_solver|]. intros <-. split; [done|].
    rewrite Ht. by destruct (invalid_params c).
  - intros Hp Hr Hl Ha. assert (inv = []) as Hi.
    { apply elem_of_nil_inv. intros n [Hi Hn']%list_elem_of_filter. apply (Hl (listener_out now
        (gr_generation r) (gr_listeners r) (gs_listeners (gw_status gw)) att n)); [by apply list_elem_of_fmap_2|].
      by apply listener_invalid_iff. }
    rewrite find_final, Hi, find_gateway_facts_silent by done.
    unfold has_invalid_params in Hp. destruct (FindStatusCondition live "Accepted") as [c|] eqn:Hc; [|done].
    apply find_filter_keep; [done|]. unfold keep_gateway_condition. by rewrite Hp.
Qed.

(** ** From calls on the reporter to the status of a route *)

(** The generation a call reports for a route. *)
Definition call_generation (t : RouteType) (nn : NamespacedName) (c : reporter_call) : option Z :=
  match c with
  | CRouteParent t' o _ | CRouteCondition t' o _ _ _ =>
      if bool_decide (t = t' ∧ om_nn o = nn) then Some (om_generation o) else None
  | _ => None
  end.

(** Whether a call concerns a parent of the route. *)
Definition call_names (t : RouteType) (nn : NamespacedName) (k : ParentRefKey) (c : reporter_call) : bool :=
  match c with
  | CRouteParent t' o ref | CRouteCondition t' o ref _ _ =>
      bool_decide (t = t' ∧ om_nn o = nn ∧ getParentRefKey ref = k)
  | _ => false
  end.

(** The condition of type [ty] a call sets on a parent of the route. *)
Definition call_sets (t : RouteType) (nn : NamespacedName) (k : ParentRefKey) (ty : string)
    (c : reporter_call) : option metav1_Condition :=
  match c with
  | CRouteCondition t' o ref _ c =>
      if bool_decide (t = t' ∧ om_nn o = nn ∧ getParentRefKey ref = k ∧ mc_type c = ty) then Some c else None
  | _ => None
  end.

(** The last answer of a sequence of calls. *)
Definition last_call {A} (f : reporter_call → option A) (calls : list reporter_call) : option A :=
  last (omap f calls).

Lemma last_call_snoc {A} (f : reporter_call → option A) calls c :
  last_call f (calls ++ [c]) = match f c with Some a => Some a | None => last_call f calls end.
Proof.
  unfold last_call. rewrite omap_app. cbn. destruct (f c); [apply last_snoc|]. by rewrite app_nil_r.
Qed.

(** The report of a route says exactly what the calls said. *)
Definition route_matches (t : RouteType) (nn : NamespacedName) (calls : list reporter_call)
    (o : option RouteReport) : Prop :=
  (rr_generation <$> o) = last_call (call_generation t nn) calls ∧
  ∀ k, let p := o ≫= λ r, rr_parents r !! k in
    (is_Some p ↔ existsb (call_names t nn k) calls = true) ∧
    ∀ ty, option_Forall2 same_facts (FindStatusCondition (default [] p) ty)
            (last_call (call_sets t nn k ty) calls).

(** A call about something else leaves the report of a route as it is. *)
Lemma route_matches_skip t nn calls c o :
  call_generation t nn c = None → route_matches t nn calls o → route_matches t nn (calls ++ [c]) o.
Proof.
  intros Hc [Hg Hk].
  assert (Hn : ∀ k, call_names t nn k c = false).
  { intros k. destruct c; try done; simpl in *; case_bool_decide; try done; apply bool_decide_eq_false; naive_solver. }
  assert (Hs : ∀ k ty, call_sets t nn k ty c = None).
  { intros k ty. destruct c; try done; simpl in *. repeat case_bool_decide; naive_solver. }
  split; [by rewrite last_call_snoc, Hc|]. intros k. specialize (Hk k) as [H1 H2]. split.
  - by rewrite H1, existsb_app, orb_true_iff; simpl; rewrite Hn; naive_solver.
  - intros ty. by rewrite last_call_snoc, Hs.
Qed.

(** A call about a parent of the route updates that parent's conditions. *)
Lemma route_matches_update t nn calls c o ref g f :
  call_generation t nn c = Some g →
  (∀ k, call_names t nn k c = bool_decide (getParentRefKey ref = k)) →
  (∀ k ty cs, option_Forall2 same_facts (FindStatusCondition cs ty) (last_call (call_sets t nn k ty) calls) →
     option_Forall2 same_facts
       (FindStatusCondition (if decide (getParentRefKey ref = k) then f cs else cs) ty)
       (last_call (call_sets t nn k ty) (calls ++ [c]))) →
  route_matches t nn calls o →
  route_matches t nn (calls ++ [c])
    (Some (RouteReport_ParentRef ref f
      (match o with None => mkRR ∅ g | Some r => mkRR (rr_parents r) g end))).
Proof.
  intros Hg Hn Hs [_ Hk]. split; [rewrite last_call_snoc, Hg; by destruct o|].
  intros k. specialize (Hk k) as [H1 H2]. cbn [mbind option_bind RouteReport_ParentRef rr_parents].
  set (m := rr_parents (match o with None => mkRR ∅ g | Some r => mkRR (rr_parents r) g end)).
  assert (Hm : m !! k = o ≫= λ r, rr_parents r !! k).
  { unfold m. destruct o; simpl; [done|apply lookup_empty]. }
  rewrite <- Hm in H1, H2. rewrite existsb_app, orb_true_iff. simpl. rewrite Hn, orb_false_r, bool_decide_eq_true.
  destruct (decide (getParentRefKey ref = k)) as [<-|Hne].
  - rewrite lookup_insert_eq. split; [naive_solver|]. intros ty. simpl.
    specialize (Hs (getParentRefKey ref) ty _ (H2 ty)). by rewrite decide_True in Hs.
  - rewrite lookup_insert_ne by done. split; [naive_solver|]. intros ty.
    specialize (Hs k ty _ (H2 ty)). by rewrite decide_False in Hs.
Qed.

Lemma reported_route t nn calls : route_matches t nn calls (routes_of t (reported calls) !! nn).
Proof.
  unfold reported. induction calls as [|c calls IH] using rev_ind.
  - simpl. split; [by destruct t|]. intros k. assert (routes_of t NewReportMap !! nn = None) as -> by by destruct t.
    simpl. split; [split; [by intros [? ?]|done]|]. intros ty. rewrite find_first, filter_nil. constructor.
  - rewrite foldl_app. cbn [foldl]. set (rm := foldl _ _ calls) in *.
    destruct (call_generation t nn c) as [g|] eqn:Hg.
    + destruct c as [| | | | |t' o ref|t' o ref now c| | |]; try done; simpl in Hg;
        case_bool_decide as Hc; try done; destruct Hc as [<- <-]; injection Hg as <-; simpl;
        unfold statusReporter_Route; rewrite routes_of_with, decide_True, lookup_insert_eq by done;
        (apply route_matches_update; [by simpl; rewrite bool_decide_true| | |done]).
      * intros k. simpl. apply bool_decide_ext. naive_solver.
      * intros k ty cs Hf. rewrite last_call_snoc. simpl. by case_decide.
      * intros k. simpl. apply bool_decide_ext. naive_solver.
      * intros k ty cs Hf. rewrite last_call_snoc. simpl. case_decide as Hk; [|by rewrite bool_decide_false by naive_solver].
        subst k. unfold ParentRefReport_SetCondition. rewrite find_set. case_decide as Ht.
        -- subst ty. rewrite bool_decide_true by done. constructor.
           destruct (FindStatusCondition cs _) eqn:Ho; [|by repeat split].
           apply find_Some_type in Ho as [? _]. by repeat split.
        -- by rewrite bool_decide_false by naive_solver.
    + assert (routes_of t (apply_call rm c) !! nn = routes_of t rm !! nn) as ->;
        [|by apply route_matches_skip].
      destruct c as [| | | | |t' o ref|t' o ref now c| | |]; try by destruct rm, t.
      all: simpl in *; case_bool_decide as Hc; try done; unfold statusReporter_Route; rewrite routes_of_with;
        case_decide; try done; subst; rewrite lookup_insert_ne; naive_solver.
Qed.

(** C14: What translation said about a route is what its status says, for every sequence of
    calls on the reporter: a route no call concerns has no status; otherwise a parent of
    the spec is published exactly when some call named it, and each condition type shows
    the last condition set for that parent, or the positive default, at the generation
    last reported for the route. *)
Theorem route_status_reflects_calls t nn calls now keys obj ctrl :
  match BuildRouteStatus now keys (routes_of t (reported calls) !! nn) obj ctrl with
  | None => last_call (call_generation t nn) calls = None
  | Some st => ∃ g, last_call (call_generation t nn) calls = Some g ∧
      (∀ ref, ref ∈ ro_parent_refs obj →
        (ref ∈ map rps_ref st ↔ existsb (call_names t nn (getParentRefKey ref)) calls = true)) ∧
      ∀ e ty, e ∈ st →
        match last_call (call_sets t nn (getParentRefKey (rps_ref e)) ty) calls,
              FindStatusCondition route_defaults ty with
        | Some c, _ | None, Some c => ∃ c', FindStatusCondition (rps_conditions e) ty = Some c' ∧
            same_facts c' (with_generation g c)
        | None, None => FindStatusCondition (rps_conditions e) ty =
            FindStatusCondition (live_parent (ro_status obj) (rps_ref e)) ty
        end
  end.
Proof.
  pose proof (reported_route t nn calls) as [Hg Hk].
  destruct (routes_of t (reported calls) !! nn) as [r|] eqn:Hr; [|by simpl in *].
  destruct (BuildRouteStatus now keys (Some r) obj ctrl) as [st|] eqn:Hb; [|done].
  pose proof (wf_routes _ (reported_wf calls) t _ _ Hr) as Hw.
  destruct (route_status_parts now keys r obj ctrl st Hw Hb) as (Hp & _ & He).
  exists (rr_generation r). split; [done|]. split.
  - intros ref Href. rewrite <- (proj1 (Hk (getParentRefKey ref))). simpl. rewrite Hp, list_elem_of_filter.
    unfold known. rewrite bool_decide_eq_true. unfold status_refs. destruct (ro_parent_refs obj); naive_solver set_solver.
  - intros e ty Hin. destruct (He e Hin) as (_ & cs & Hcs & Hf). rewrite Hf.
    specialize (Hk (getParentRefKey (rps_ref e))) as [_ Hk]. specialize (Hk ty). simpl in Hk. rewrite Hcs in Hk.
    simpl in Hk. destruct Hk as [c c' Hcc|].
    + eexists. split; [done|]. by apply published_same_facts.
    + destruct (FindStatusCondition route_defaults ty); [|done]. eexists. split; [done|]. apply published_stamped_facts.
Qed.

End builders.

(** ** Examples *)

Section examples.
#[local] Existing Instance go_conditions.
#[local] Existing Instance go_conditions_laws.

Definition ex_ref (n : string) : ParentReference := mkPR None None None n None None.
Definition ex_route : ObjectMeta := mkOM (mkNN "infra" "web") 7.

(** Translation rejects the route for [gw1], then accepts it; [gw2] is only named. *)
Definition ex_calls : list reporter_call :=
  [CRouteCondition THTTP ex_route (ex_ref "gw1") 10 (cond "Accepted" "False" "NoMatchingParent" "");
   CRouteParent THTTP ex_route (ex_ref "gw2");
   CRouteCondition THTTP ex_route (ex_ref "gw1") 11 (cond "Accepted" "True" "Accepted" "ok");
   CRouteCondition TTCP ex_route (ex_ref "gw1") 11 (cond "Accepted" "False" "Other" "");
   CGatewayListener ex_route "http" (LSetCondition 12 (cond "Programmed" "False" "Invalid" "no cert"))].

(** The live status has a condition of another writer on [gw1]. *)
Definition ex_object : RouteObject :=
  mkRO [ex_ref "gw2"; ex_ref "gw3"; ex_ref "gw1"]
    [mkRPS (ex_ref "gw1") "kgateway" [mkMC "Audited" "True" "Ok" "" 3 5]].

Definition ex_report : RouteReport :=
  default (mkRR ∅ 0) (routes_of THTTP (reported ex_calls) !! mkNN "infra" "web").

Lemma route_status_spec_witness :
  ∃ st, BuildRouteStatus 20 [] (Some ex_report) ex_object "kgateway" = Some st ∧
    map rps_ref st ≡ₚ filter (λ ref, known ex_report ref = true) (status_refs [] ex_object).
Proof.
  eexists. split; [reflexivity|].
  refine (proj1 (route_status_spec 20 [] ex_report ex_object "kgateway" _ _ _)).
  - apply (wf_routes _ (reported_wf ex_calls) THTTP (mkNN "infra" "web")). vm_compute. reflexivity.
  - reflexivity.
Defined.

Lemma route_status_reflects_calls_witness :
  match BuildRouteStatus 20 [] (routes_of THTTP (reported ex_calls) !! mkNN "infra" "web") ex_object "kgateway" with
  | None => False
  | Some st => ∃ g, last_call (call_generation THTTP (mkNN "infra" "web")) ex_calls = Some g ∧
      ∀ ref, ref ∈ ro_parent_refs ex_object →
        (ref ∈ map rps_ref st ↔ existsb (call_names THTTP (mkNN "infra" "web") (getParentRefKey ref)) ex_calls = true)
  end.
Proof.
  pose proof (route_status_reflects_calls THTTP (mkNN "infra" "web") ex_calls 20 [] ex_object "kgateway") as H.
  destruct (BuildRouteStatus 20 [] _ ex_object "kgateway") eqn:Hb.
  - destruct H as (g & Hg & Hr & _). exists g. split; [exact Hg|exact Hr].
  - assert (match BuildRouteStatus 20 [] (routes_of THTTP (reported ex_calls) !! mkNN "infra" "web")
      ex_object "kgateway" with Some _ => true | None => false end = true) as Ht by (vm_compute; reflexivity).
    rewrite Hb in Ht. discriminate Ht.
Defined.

Definition ex_gateway : Gateway :=
  mkGateway ["http"; "https"] [] None
    (mkGS ["10.0.0.1"] [mkMC "Audited" "True" "Ok" "" 3 5] [] None).

Definition ex_gateway_report : GatewayReport :=
  default (mkGWR [] ∅ 0 0) (rm_gateways (reported ex_calls) !! mkNN "infra" "web").

Lemma ex_gateway_report_wf : wf_gateway ex_gateway_report.
Proof. apply (wf_gateways _ (reported_wf ex_calls) (mkNN "infra" "web")). vm_compute. reflexivity. Qed.

Definition ex_gateway_status : GatewayStatus :=
  default (mkGS [] [] [] None) (BuildGWStatus 20 (Some ex_gateway_report) ex_gateway ∅).

Lemma gateway_listener_statuses_witness : map lst_name (gs_listeners ex_gateway_status) = ["http"; "https"].
Proof.
  refine (proj1 (gateway_listener_statuses 20 ex_gateway_report ex_gateway ∅ ex_gateway_status _ _)).
  - exact ex_gateway_report_wf.
  - reflexivity.
Defined.

(** One listener is not programmed: the Gateway says so. *)
Lemma gateway_status_honest_witness :
  ∃ c, FindStatusCondition (gs_conditions ex_gateway_status) "Accepted" = Some c ∧
    mc_reason c ∈ ["ListenersNotValid"; "UnsupportedAddress"].
Proof.
  refine (proj1 (gateway_status_honest 20 ex_gateway_report ex_gateway ∅ ex_gateway_status _ _) _).
  - exact ex_gateway_report_wf.
  - reflexivity.
  - exists (mkLSt "http" [] 0 (match gs_listeners ex_gateway_status with l :: _ => lst_conditions l | [] => [] end)).
    split; [left|]. eexists. split; [vm_compute; reflexivity|reflexivity].
Defined.

End examples.
