(* ===== verification/StatusContributions.v ===== *)
(** * Status contributions (pkg/reports/status_contribution.go, report_map.go)

    Each translation unit contributes a report fragment per object; the fragments of
    an object are reduced to one report.  A reduction is recomputed only when a
    contribution differs by [Equals], so that comparison must see everything the
    builders publish.  Clones are values here.  A report fragment has one report, as
    the source requires. *)

From S2P Require Import Prelude IR Reports StatusBuilders.

Record StatusReport := mkSRep {
  sr_gateway : option GatewayReport; sr_listener_set : option ListenerSetReport;
  sr_route : option RouteReport; sr_policy : option PolicyReport; sr_backend : option BackendReport }.

Record StatusKey := mkSK { sk_gk : GroupKind; sk_nn : NamespacedName }.
Record StatusSource := mkSS { ss_kind : string; ss_name : string }.
Record StatusContribution := mkSC {
  sc_target : StatusKey; sc_source : StatusSource; sc_report : StatusReport }.

Definition compareStatusContributions : StatusContribution → StatusContribution → comparison :=
  (cmp_on (λ c, gk_group (sk_gk (sc_target c))) String.compare ▷
   cmp_on (λ c, gk_kind (sk_gk (sc_target c))) String.compare ▷
   cmp_on (λ c, nn_namespace (sk_nn (sc_target c))) String.compare ▷
   cmp_on (λ c, nn_name (sk_nn (sc_target c))) String.compare ▷
   cmp_on (λ c, ss_kind (sc_source c)) String.compare ▷
   cmp_on (λ c, ss_name (sc_source c)) String.compare)%cmp.

(** ** Splitting a report map

    The maps are ranged over in an arbitrary order: [order] lists the entries of one. *)

Section split.
Context (order : ∀ {K V} `{Countable K}, gmap K V → list (K * V)).
Arguments order {_ _ _ _}.

Definition only_gateway (r : GatewayReport) : StatusReport := mkSRep (Some r) None None None None.
Definition only_listener_set (r : ListenerSetReport) : StatusReport := mkSRep None (Some r) None None None.
Definition only_route (r : RouteReport) : StatusReport := mkSRep None None (Some r) None None.
Definition only_policy (r : PolicyReport) : StatusReport := mkSRep None None None (Some r) None.
Definition only_backend (r : BackendReport) : StatusReport := mkSRep None None None None (Some r).

Definition gateway_api (kind : string) : GroupKind := mkGK "gateway.networking.k8s.io" kind.

Definition contribution (source : StatusSource) (gk : GroupKind) (nn : NamespacedName) (r : StatusReport) :
    StatusContribution := mkSC (mkSK gk nn) source r.

Definition StatusContributionsFromReportMap (source : StatusSource) (rm : ReportMap) :
    list StatusContribution :=
  let routes kind m := map (λ '(nn, r), contribution source (gateway_api kind) nn (only_route r)) (order m) in
  sort_stable compareStatusContributions
    (map (λ '(nn, r), contribution source (gateway_api "Gateway") nn (only_gateway r)) (order (rm_gateways rm)) ++
     ('(gvk, m) ← order (rm_listener_sets rm);
      map (λ '(nn, r), contribution source (mkGK (gvk_group gvk) (gvk_kind gvk)) nn (only_listener_set r)) (order m)) ++
     routes "HTTPRoute" (rm_http rm) ++ routes "GRPCRoute" (rm_grpc rm) ++
     routes "TCPRoute" (rm_tcp rm) ++ routes "TLSRoute" (rm_tls rm) ++
     map (λ '(k, r), contribution source (mkGK (pk_group k) (pk_kind k)) (mkNN (pk_namespace k) (pk_name k))
                       (only_policy r)) (order (rm_policies rm)) ++
     map (λ '(nn, r), contribution source (mkGK "gateway.kgateway.dev" "Backend") nn (only_backend r))
       (order (rm_backends rm))).

End split.

(** ** Reducing *)

(** [mergeParentReports]: the parents of [src] replace those of [dst]; the generation
    stays that of [dst]. *)
Definition mergeParentReports (dst src : RouteReport) : RouteReport :=
  mkRR (rr_parents src ∪ rr_parents dst) (rr_generation dst).

Definition mergeAncestorReports (dst src : PolicyReport) : PolicyReport :=
  mkPRep (pp_ancestors src ∪ pp_ancestors dst) (pp_generation dst).

Definition empty_report : StatusReport := mkSRep None None None None None.

Definition reduce_step (acc : StatusReport) (c : StatusContribution) : StatusReport :=
  let '(mkSRep g ls r p b) := acc in
  let rep := sc_report c in
  match sr_gateway rep, sr_listener_set rep, sr_route rep, sr_policy rep, sr_backend rep with
  | Some g', _, _, _, _ => mkSRep (Some g') ls r p b
  | _, Some ls', _, _, _ => mkSRep g (Some ls') r p b
  | _, _, Some r', _, _ => mkSRep g ls (Some (match r with None => r' | Some r => mergeParentReports r r' end)) p b
  | _, _, _, Some p', _ => mkSRep g ls r (Some (match p with None => p' | Some p => mergeAncestorReports p p' end)) b
  | _, _, _, _, Some b' => mkSRep g ls r p (Some b')
  | _, _, _, _, _ => acc
  end.

Definition ReduceStatusContributions (l : list StatusContribution) : StatusReport :=
  foldl reduce_step empty_report (sort_stable compareStatusContributions l).

(** ** Comparing *)

(** [maps.EqualFunc]. *)
Definition maps_equal {K V} `{Countable K} (eq : V → V → bool) (a b : gmap K V) : bool :=
  bool_decide (size a = size b) &&
  forallb (λ '(k, x), match b !! k with Some y => eq x y | None => false end) (map_to_list a).

Definition option_equal {A} (eq : A → A → bool) (a b : option A) : bool :=
  match a, b with Some x, Some y => eq x y | None, None => true | _, _ => false end.

Section equality.
Context `{CL : ConditionLib}.

Definition conditionsEqual (a b : Conditions) : bool :=
  bool_decide (length a = length b) &&
  forallb (λ c, match FindStatusCondition b (mc_type c) with
                | None => false
                | Some d => String.eqb (mc_status c) (mc_status d) && String.eqb (mc_reason c) (mc_reason d) &&
                            String.eqb (mc_message c) (mc_message d) &&
                            (mc_generation c =? mc_generation d)%Z
                end) a.

Definition listenerStatusEqual (a b : ListenerStatus) : bool :=
  String.eqb (lst_name a) (lst_name b) && (lst_routes a =? lst_routes b)%Z &&
  bool_decide (lst_kinds a = lst_kinds b) && conditionsEqual (lst_conditions a) (lst_conditions b).

Definition gatewayReportEqual : option GatewayReport → option GatewayReport → bool :=
  option_equal (λ a b, (gr_generation a =? gr_generation b)%Z && (gr_attached a =? gr_attached b)%Z &&
    conditionsEqual (gr_conditions a) (gr_conditions b) &&
    maps_equal listenerStatusEqual (gr_listeners a) (gr_listeners b)).

Definition listenerSetReportEqual : option ListenerSetReport → option ListenerSetReport → bool :=
  option_equal (λ a b, (lsr_generation a =? lsr_generation b)%Z &&
    conditionsEqual (lsr_conditions a) (lsr_conditions b) &&
    maps_equal listenerStatusEqual (lsr_listeners a) (lsr_listeners b)).

Definition routeReportEqual : option RouteReport → option RouteReport → bool :=
  option_equal (λ a b, (rr_generation a =? rr_generation b)%Z &&
    maps_equal conditionsEqual (rr_parents a) (rr_parents b)).

Definition policyReportEqual : option PolicyReport → option PolicyReport → bool :=
  option_equal (λ a b, (pp_generation a =? pp_generation b)%Z &&
    maps_equal (λ x y, (ar_state x =? ar_state y)%Z && conditionsEqual (ar_conditions x) (ar_conditions y))
      (pp_ancestors a) (pp_ancestors b)).

Definition backendReportEqual : option BackendReport → option BackendReport → bool :=
  option_equal (λ a b, (br_generation a =? br_generation b)%Z &&
    conditionsEqual (br_conditions a) (br_conditions b)).

Definition StatusReport_Equals (a b : StatusReport) : bool :=
  gatewayReportEqual (sr_gateway a) (sr_gateway b) &&
  listenerSetReportEqual (sr_listener_set a) (sr_listener_set b) &&
  routeReportEqual (sr_route a) (sr_route b) && policyReportEqual (sr_policy a) (sr_policy b) &&
  backendReportEqual (sr_backend a) (sr_backend b).

End equality.

(** ** The reduction *)

#[global] Instance compareStatusContributions_wo : WeakOrder compareStatusContributions.
Proof. unfold compareStatusContributions. apply _. Qed.

Lemma contributions_same_identity a b :
  compareStatusContributions a b = Eq → sc_target a = sc_target b ∧ sc_source a = sc_source b.
Proof.
  unfold compareStatusContributions, then_cmp, cmp_on. intros Hc. repeat case_match; try done.
  repeat match goal with H : String.compare _ _ = Eq |- _ => apply string_compare_eq in H end.
  destruct a as [[[] []] [] ?], b as [[[] []] [] ?]. simpl in *. by subst.
Qed.

(** The reduction does not depend on the order in which contributions are fetched:
    contributions of distinct producers reduce to the same report in every order. *)
Theorem reduction_order_independent l1 l2 :
  (∀ x y, x ∈ l1 → y ∈ l1 → sc_target x = sc_target y → sc_source x = sc_source y → x = y) →
  l1 ≡ₚ l2 → ReduceStatusContributions l1 = ReduceStatusContributions l2.
Proof.
  intros Hid Hp. unfold ReduceStatusContributions. f_equal. apply sort_stable_perm_eq; [apply _| |done].
  intros x y Hx Hy Hc. apply contributions_same_identity in Hc as [? ?]. by apply Hid.
Qed.

(** The parents a contribution reports. *)
Definition contributed (k : ParentRefKey) (c : StatusContribution) : option Conditions :=
  r ← sr_route (sc_report c); rr_parents r !! k.

Definition is_route (c : StatusContribution) : Prop := ∃ r, sc_report c = only_route r.

Lemma reduce_route_steps l acc k :
  Forall is_route l →
  (r ← sr_route (foldl reduce_step acc l); rr_parents r !! k) =
  match last (omap (contributed k) l) with
  | Some cs => Some cs
  | None => r ← sr_route acc; rr_parents r !! k
  end.
Proof.
  intros Hl. induction l as [|c l IH] using rev_ind; [done|].
  apply Forall_app in Hl as [Hl Hc]. specialize (IH Hl). apply Forall_singleton in Hc as [r Hr].
  rewrite foldl_app, omap_app. cbn [foldl].
  destruct (foldl reduce_step acc l) as [g ls o p b] eqn:Hf. simpl in IH.
  unfold reduce_step. rewrite Hr. cbn [only_route sr_gateway sr_listener_set sr_route sr_policy sr_backend mbind option_bind].
  cbn [omap list_omap]. unfold contributed at 2. rewrite Hr. cbn [only_route sr_route mbind option_bind].
  destruct o as [r0|]; cbn [mbind option_bind mergeParentReports rr_parents] in *.
  - rewrite lookup_union. destruct (rr_parents r !! k) as [cs|] eqn:Hk.
    + rewrite last_snoc. by destruct (rr_parents r0 !! k).
    + rewrite app_nil_r, <- IH. by destruct (rr_parents r0 !! k).
  - destruct (rr_parents r !! k) as [cs|] eqn:Hk; [by rewrite last_snoc|]. by rewrite app_nil_r, <- IH.
Qed.

(** A route that several Gateways translate keeps every parent they report: the reduced
    report has a parent exactly when some contribution has it, with the conditions of the
    last such contribution in the order of their producers. *)
Theorem reduction_keeps_parents l k :
  Forall is_route l →
  (r ← sr_route (ReduceStatusContributions l); rr_parents r !! k) =
    last (omap (contributed k) (sort_stable compareStatusContributions l)) ∧
  (is_Some (r ← sr_route (ReduceStatusContributions l); rr_parents r !! k) ↔
    ∃ c, c ∈ l ∧ is_Some (contributed k c)).
Proof.
  intros Hl. unfold ReduceStatusContributions.
  rewrite reduce_route_steps by by rewrite (sort_stable_perm compareStatusContributions l).
  cbn [empty_report sr_route mbind option_bind].
  assert (Hlast : ∀ ls : list Conditions, match last ls with Some cs => Some cs | None => None end = last ls)
    by (intros ls; by destruct (last ls)).
  rewrite Hlast. split; [done|].
  rewrite last_is_Some. set (sorted := sort_stable compareStatusContributions l).
  assert (Hin : ∀ c, c ∈ l ↔ c ∈ sorted) by (intros c; symmetry; apply sort_stable_elem_of).
  setoid_rewrite Hin. split.
  - destruct (omap (contributed k) sorted) as [|cs ls] eqn:Ho; [done|]. intros _.
    assert (cs ∈ omap (contributed k) sorted) as Hcs by (rewrite Ho; by left).
    apply list_elem_of_omap in Hcs as (c & Hc & Hk). eauto.
  - intros (c & Hc & cs & Hk) He.
    assert (cs ∈ omap (contributed k) sorted) as Hcs by (apply list_elem_of_omap; eauto).
    rewrite He in Hcs. set_solver.
Qed.

(** ** Comparison sees what is published *)

Section equal.
Context `{CL : ConditionLib} {LW : ConditionLaws}.

(** The facts of two lists of conditions agree, type by type. *)
Definition facts_agree (a b : Conditions) : Prop :=
  ∀ t, option_Forall2 same_facts (FindStatusCondition a t) (FindStatusCondition b t).

Lemma find_is_Some l t : is_Some (FindStatusCondition l t) ↔ t ∈ types l.
Proof.
  rewrite <- not_eq_None_Some, find_None. destruct (decide (t ∈ types l)); naive_solver.
Qed.

Lemma same_facts_iff c d :
  mc_type c = mc_type d →
  String.eqb (mc_status c) (mc_status d) && String.eqb (mc_reason c) (mc_reason d) &&
  String.eqb (mc_message c) (mc_message d) && (mc_generation c =? mc_generation d)%Z = true ↔ same_facts c d.
Proof.
  intros Ht. rewrite !andb_true_iff, !String.eqb_eq, Z.eqb_eq. unfold same_facts. naive_solver.
Qed.

Lemma conditionsEqual_agree a b :
  wf_conditions a → wf_conditions b → conditionsEqual a b = true ↔ facts_agree a b.
Proof.
  intros Ha Hb. unfold conditionsEqual. rewrite andb_true_iff, bool_decide_eq_true, forallb_forall.
  setoid_rewrite <- list_elem_of_In. split.
  - intros [Hlen Hall].
    assert (Hsub : ∀ c, c ∈ a → ∃ d, FindStatusCondition b (mc_type c) = Some d ∧ same_facts c d).
    { intros c Hc. specialize (Hall c Hc). destruct (FindStatusCondition b (mc_type c)) as [d|] eqn:Hd; [|done].
      exists d. split; [done|]. apply same_facts_iff; [by apply find_Some_type in Hd as [-> _]|done]. }
    assert (types a ≡ₚ types b) as Hperm.
    { apply submseteq_length_Permutation; [|unfold types; rewrite !length_map; lia].
      apply NoDup_submseteq; [done|]. intros t Ht. apply list_elem_of_fmap in Ht as (c & -> & Hc).
      destruct (Hsub c Hc) as (d & Hd & _). apply find_is_Some. eauto. }
    intros t. destruct (FindStatusCondition a t) as [c|] eqn:Hc.
    + pose proof (find_Some_type _ _ _ Hc) as [<- Hin]. destruct (Hsub c Hin) as (d & -> & Hs). by constructor.
    + destruct (FindStatusCondition b t) as [d|] eqn:Hd; [|constructor].
      apply find_None in Hc. exfalso. apply Hc. rewrite Hperm. apply find_is_Some. eauto.
  - intros Hag. assert (types a ≡ₚ types b) as Hperm.
    { apply NoDup_Permutation; [done|done|]. intros t. rewrite <- !find_is_Some. specialize (Hag t).
      split; intros [c Hc]; rewrite Hc in Hag; inversion Hag; eauto. }
    split; [apply Permutation_length in Hperm; unfold types in Hperm; by rewrite !length_map in Hperm|].
    intros c Hc. specialize (Hag (mc_type c)). rewrite find_unique in Hag by done.
    inversion Hag as [x d Hs Hx Hd|]; subst. apply same_facts_iff; [|done].
    by destruct Hs as (? & _).
Qed.

Lemma maps_equal_lookup {K V} `{Countable K} (eq : V → V → bool) (a b : gmap K V) k :
  maps_equal eq a b = true →
  match a !! k, b !! k with Some x, Some y => eq x y = true | None, None => True | _, _ => False end.
Proof.
  unfold maps_equal. rewrite andb_true_iff, bool_decide_eq_true, forallb_forall. intros [Hs Hall].
  assert (Hsub : ∀ i x, a !! i = Some x → ∃ y, b !! i = Some y ∧ eq x y = true).
  { intros i x Hi. specialize (Hall (i, x)). simpl in Hall. rewrite <- list_elem_of_In, elem_of_map_to_list in Hall.
    specialize (Hall Hi). destruct (b !! i); [eauto|done]. }
  destruct (a !! k) as [x|] eqn:Hx.
  - destruct (Hsub k x Hx) as (y & -> & He). done.
  - destruct (b !! k) as [y|] eqn:Hy; [|done].
    assert (dom a = dom b) as Hd.
    { apply set_subseteq_size_eq; [|rewrite !size_dom; lia]. intros i Hi. apply elem_of_dom in Hi as [x Hi].
      destruct (Hsub i x Hi) as (z & Hz & _). apply elem_of_dom. eauto. }
    apply not_elem_of_dom in Hx. apply Hx. rewrite Hd. apply elem_of_dom. eauto.
Qed.

(** Suppressing recomputation is safe for routes: reports that compare equal publish
    the same parents with the same facts, whatever the order of their conditions. *)
Theorem equal_reports_same_route_status now keys1 keys2 a b obj ctrl st1 st2 :
  wf_route_report a → wf_route_report b → keys1 ≡ₚ keys2 → routeReportEqual (Some a) (Some b) = true →
  BuildRouteStatus now keys1 (Some a) obj ctrl = Some st1 →
  BuildRouteStatus now keys2 (Some b) obj ctrl = Some st2 →
  map rps_ref st1 ≡ₚ map rps_ref st2 ∧
  ∀ e1 e2, e1 ∈ st1 → e2 ∈ st2 → rps_ref e1 = rps_ref e2 →
    rps_controller e1 = rps_controller e2 ∧ facts_agree (rps_conditions e1) (rps_conditions e2).
Proof.
  intros Ha Hb Hk Heq H1 H2. simpl in Heq. apply andb_true_iff in Heq as [Hg Hm]. apply Z.eqb_eq in Hg.
  destruct (route_status_parts _ _ _ _ _ _ Ha H1) as (P1 & _ & E1).
  destruct (route_status_parts _ _ _ _ _ _ Hb H2) as (P2 & _ & E2). split.
  - rewrite P1, P2. unfold status_refs. rewrite (list_filter_iff (λ ref, known a ref = true) (λ ref, known b ref = true)).
    + destruct (ro_parent_refs obj); [|done]. unfold refs_of_keys. by rewrite Hk.
    + intros ref. unfold known. rewrite !bool_decide_eq_true.
      pose proof (maps_equal_lookup _ _ _ (getParentRefKey ref) Hm) as Hl.
      destruct (rr_parents a !! _), (rr_parents b !! _); try done; by split; intros [? ?]; eauto.
  - intros e1 e2 Hin1 Hin2 Hr. destruct (E1 e1 Hin1) as (C1 & cs1 & L1 & F1).
    destruct (E2 e2 Hin2) as (C2 & cs2 & L2 & F2). split; [congruence|]. intros t.
    rewrite F1, F2. rewrite Hr in *.
    pose proof (maps_equal_lookup _ _ _ (getParentRefKey (rps_ref e2)) Hm) as Hl. rewrite L1, L2 in Hl.
    apply conditionsEqual_agree in Hl; [|by apply (Ha _ _ L1)|by apply (Hb _ _ L2)]. specialize (Hl t).
    destruct Hl as [c d Hcd|].
    + constructor. rewrite Hg. etrans; [by apply published_same_facts|]. symmetry. apply published_facts.
    + destruct (FindStatusCondition route_defaults t) as [d|].
      * constructor. rewrite Hg. etrans; [apply published_stamped_facts|]. symmetry. apply published_stamped_facts.
      * by destruct (FindStatusCondition (live_parent _ _) t); constructor.
Qed.

End equal.

(** ** Examples *)

Section examples.
#[local] Existing Instance go_conditions.
#[local] Existing Instance go_conditions_laws.

(** Two Gateways translate one route. *)
Definition ex_contribution (gw : string) (cs : Conditions) : StatusContribution :=
  contribution (mkSS "gateway" gw) (gateway_api "HTTPRoute") (mkNN "infra" "web")
    (only_route (mkRR {[ getParentRefKey (ex_ref gw) := cs ]} 7)).
Definition ex_c1 : StatusContribution := ex_contribution "gw1" [].
Definition ex_c2 : StatusContribution := ex_contribution "gw2" [cond "Accepted" "False" "NoMatchingParent" ""].

Lemma reduction_order_independent_witness :
  ReduceStatusContributions [ex_c1; ex_c2] = ReduceStatusContributions [ex_c2; ex_c1].
Proof.
  apply reduction_order_independent; [|apply perm_swap].
  intros x y Hx Hy _ Hs.
  apply elem_of_cons in Hx as [->|Hx]; [|apply list_elem_of_singleton in Hx as ->];
    (apply elem_of_cons in Hy as [->|Hy]; [|apply list_elem_of_singleton in Hy as ->]); try reflexivity;
    discriminate Hs.
Defined.

Lemma reduction_keeps_parents_witness :
  is_Some (r ← sr_route (ReduceStatusContributions [ex_c2; ex_c1]); rr_parents r !! getParentRefKey (ex_ref "gw1")).
Proof.
  apply (reduction_keeps_parents [ex_c2; ex_c1] (getParentRefKey (ex_ref "gw1"))).
  - repeat constructor; eexists; reflexivity.
  - exists ex_c1. split; [right; left|]. vm_compute. eauto.
Defined.

(** The same facts, set in another order. *)
Definition ex_conditions : Conditions :=
  [cond "Accepted" "False" "NoMatchingParent" ""; cond "ResolvedRefs" "False" "BackendNotFound" ""].
Definition ex_report_with (cs : Conditions) : RouteReport :=
  mkRR {[ getParentRefKey (ex_ref "gw1") := cs ]} 7.

Lemma equal_reports_same_route_status_witness :
  ∃ st1 st2, BuildRouteStatus 20 [] (Some (ex_report_with ex_conditions)) ex_object "kgateway" = Some st1 ∧
    BuildRouteStatus 20 [] (Some (ex_report_with (reverse ex_conditions))) ex_object "kgateway" = Some st2 ∧
    map rps_ref st1 ≡ₚ map rps_ref st2.
Proof.
  eexists _, _. split; [reflexivity|]. split; [reflexivity|].
  refine (proj1 (equal_reports_same_route_status 20 [] [] (ex_report_with ex_conditions)
    (ex_report_with (reverse ex_conditions)) ex_object "kgateway" _ _ _ _ _ _ _ _)).
  - apply map_Forall_singleton. apply (bool_decide_unpack (NoDup (types ex_conditions))). vm_compute. exact I.
  - apply map_Forall_singleton. apply (bool_decide_unpack (NoDup (types (reverse ex_conditions)))). vm_compute. exact I.
  - reflexivity.
  - vm_compute. reflexivity.
  - reflexivity.
  - reflexivity.
Defined.

End examples.
