(* ===== verification/StatusSync.v ===== *)
(** * Writing statuses (pkg/pluginsdk/statussync/writer.go, idempotence.go,
      pkg/kgateway/proxy_syncer/status_collections.go, pluginutils/policy_status.go)

    A writer builds the status an object should have, merges it with what other
    controllers wrote, and writes it unless the object already has it.  Every write
    comes back as an event on the object, so the writer must be a fixed point of
    itself.  A writer is a function of the clock and of the iteration order of the
    maps it ranges over; two decisions see two of them. *)

From S2P Require Import Prelude IR Reports StatusBuilders StatusContributions.

(** ** Reports per object *)

Record Resource := mkRes { res_gvk : GroupVersionKind; res_nn : NamespacedName }.

(** [StatusKey.String]. *)
Definition target_string (res : Resource) : string :=
  gvk_group (res_gvk res) +:+ "/" +:+ gvk_kind (res_gvk res) +:+ "/" +:+
  nn_namespace (res_nn res) +:+ "/" +:+ nn_name (res_nn res).

(** A collection of reductions by key; [None] is the nil collection. *)
Definition ReportFor (col : option (gmap string StatusReport)) (res : Resource) : option StatusReport :=
  m ← col; m !! target_string res.

(** ** Writers *)

Record Writer (O S : Type) := mkWriter {
  w_desired : Resource → O → option S;
  w_get_status : option (O → S);
  w_merge : option (O → S → S) }.
Arguments mkWriter {O S}. Arguments w_desired {O S}. Arguments w_get_status {O S}. Arguments w_merge {O S}.

Section writer.
Context {O S : Type} `{EqDecision S}.

(** The merged status and whether it is written; [None] when there is no status. *)
Definition decide_write (w : Writer O S) (res : Resource) (current : O) : option (S * bool) :=
  desired ← w_desired w res current;
  let merged := match w_merge w with Some f => f current desired | None => desired end in
  Some (merged, match w_get_status w with Some g => negb (bool_decide (g current = merged)) | None => true end).

Definition WriterWouldWrite (w : Writer O S) (res : Resource) (current : O) : bool :=
  match decide_write w res current with Some (_, b) => b | None => false end.

Inductive idempotence_error := ApplyDidNotStore | NotIdempotent.

(** [w1] and [w2] are the writer at the first and at the second decision. *)
Definition CheckWriterIdempotent (w1 w2 : Writer O S) (res : Resource) (current : O)
    (apply : O → S → O) : option idempotence_error :=
  match decide_write w1 res current with
  | Some (status, true) =>
      let next := apply current status in
      if match w_get_status w1 with Some g => bool_decide (g next = status) | None => true end then
        if WriterWouldWrite w2 res next then Some NotIdempotent else None
      else Some ApplyDidNotStore
  | _ => None
  end.

(** ** One synchronisation: up to five attempts *)

Inductive api_result := ApiOk | ApiConflict | ApiNotFound | ApiError.
#[global] Instance api_result_eq_dec : EqDecision api_result.
Proof. solve_decision. Defined.

(** What one attempt sees: the writer at that time, the current object, and the
    answer of the API server to a write. *)
Record attempt_input := mkAttempt {
  at_writer : Writer O S; at_current : option O; at_update : S → api_result }.

(** The result of one attempt: the error it returns, the status it computed, and the
    write it issued. *)
Record attempt_result := mkAR { ar_error : bool; ar_status : option S; ar_written : option (S * api_result) }.

Definition attempt (res : Resource) (i : attempt_input) : attempt_result :=
  match at_current i with
  | None => mkAR false None None
  | Some current =>
      match decide_write (at_writer i) res current with
      | None => mkAR false None None
      | Some (status, false) => mkAR false (Some status) None
      | Some (status, true) =>
          let r := at_update i status in
          mkAR (bool_decide (r = ApiError)) (Some status) (Some (status, r))
      end
  end.

Definition maxRetryAttempts : nat := 5.

(** [retry.Do]: attempts until one returns no error, at most [n]. *)
Fixpoint retryStatusWrite (n : nat) (res : Resource) (inputs : list attempt_input) : list attempt_result :=
  match n, inputs with
  | Datatypes.S n', i :: rest =>
      let r := attempt res i in
      if ar_error r then r :: retryStatusWrite n' res rest else [r]
  | _, _ => []
  end.

Definition ApplyStatus (res : Resource) (inputs : list attempt_input) : list attempt_result :=
  retryStatusWrite maxRetryAttempts res inputs.

End writer.
Arguments attempt_input : clear implicits. Arguments attempt_result : clear implicits.

(** ** Merging with the entries of other controllers *)

Definition comparePortNumberPtr (a b : option Z) : comparison :=
  match a, b with
  | None, None => Eq
  | None, Some _ => Lt
  | Some _, None => Gt
  | Some x, Some y => Z.compare x y
  end.

(** Unset group and kind stand for the Gateway API's [Gateway]. *)
Definition compareParentReference : ParentReference → ParentReference → comparison :=
  (cmp_on (λ r, str_or (pr_group r) "gateway.networking.k8s.io") String.compare ▷
   cmp_on (λ r, str_or (pr_kind r) "Gateway") String.compare ▷
   cmp_on (λ r, str_or (pr_namespace r) "") String.compare ▷
   cmp_on pr_name String.compare ▷
   cmp_on (λ r, str_or (pr_section r) "") String.compare ▷
   cmp_on pr_port comparePortNumberPtr)%cmp.

Definition capMergedStatusEntries {T} (entries : list T) (limit : nat) : list T :=
  if (length entries <=? limit)%nat then entries else take limit entries.

Definition owned (ours : string) (e : RouteParentStatus) : bool := String.eqb (rps_controller e) ours.

Definition ownsAnyEntry (ours : string) (l : list RouteParentStatus) : bool := existsb (owned ours) l.

(** Our entries in the order that decides which of them survive the cap. *)
Definition order_ours (l : list RouteParentStatus) : list RouteParentStatus :=
  sort_stable (cmp_on rps_controller String.compare ▷ cmp_on rps_ref compareParentReference)%cmp l.

Definition mergeOwnedStatusEntries (limit : nat) (ours : string)
    (existing desired : list RouteParentStatus) : list RouteParentStatus :=
  let foreign := filter (λ e, owned ours e = false) existing in
  let mine := order_ours (filter (λ e, owned ours e = true) desired) in
  sort_parents (capMergedStatusEntries (foreign ++ mine) limit).

Definition MaxPolicyStatusAncestors : nat := 16.
Definition MaxRouteStatusParents : nat := 32.

Definition MergePolicyAncestorStatuses : string → PolicyStatus → PolicyStatus → PolicyStatus :=
  mergeOwnedStatusEntries MaxPolicyStatusAncestors.
Definition MergeRouteParentStatuses : string → RouteStatus → RouteStatus → RouteStatus :=
  mergeOwnedStatusEntries MaxRouteStatusParents.

(** ** The writers of each kind *)

Section writers.
Context `{CL : ConditionLib}.
Variable col : option (gmap string StatusReport).

Definition gatewayWriter (now : Z) : Writer Gateway GatewayStatus :=
  mkWriter
    (λ res gw, r ← ReportFor col res; BuildGWStatus now (sr_gateway r) gw ∅)
    (Some gw_status)
    (Some (λ current desired,
       mkGS (gs_addresses (gw_status current)) (gs_conditions desired) (gs_listeners desired)
         (gs_attached desired))).

Definition listenerSetWriter (now : Z) : Writer ListenerSet ListenerSetStatus :=
  mkWriter
    (λ res ls, r ← ReportFor col res; BuildListenerSetStatus now (sr_listener_set r) ls)
    (Some ls_status) None.

(** A Backend is its live conditions. *)
Definition backendWriter (now : Z) : Writer Conditions Conditions :=
  mkWriter
    (λ res be, r ← ReportFor col res; BuildBackendStatus now (sr_backend r) be)
    (Some id) None.

(** A route without a report is cleared only if there is something to clear. *)
Definition routeWriter (controller : string) (now : Z) (keys : list ParentRefKey) :
    Writer RouteObject RouteStatus :=
  mkWriter
    (λ res current,
       r ← ReportFor col res;
       match sr_route r with
       | None => if ownsAnyEntry controller (ro_status current) then Some [] else None
       | Some rr => BuildRouteStatus now keys (Some rr) current controller
       end)
    (Some ro_status)
    (Some (λ current desired, MergeRouteParentStatuses controller (ro_status current) desired)).

(** A policy is its live status; [RegisterPolicyStatus] with the standard builder. *)
Definition policyWriter (controller : string) (now : Z) (keys : list ParentRefKey) :
    Writer PolicyStatus PolicyStatus :=
  mkWriter
    (λ res current,
       r ← ReportFor col res;
       match BuildPolicyStatus now keys (sr_policy r) controller current with
       | None => if ownsAnyEntry controller current then Some [] else None
       | Some st => Some st
       end)
    (Some id)
    (Some (λ current desired, MergePolicyAncestorStatuses controller current desired)).

End writers.

(** ** Lemmas on sorting and merging *)

#[global] Instance port_compare_wo : WeakOrder comparePortNumberPtr.
Proof.
  split.
  - intros [x|] [y|]; simpl; try done. apply Z.compare_antisym.
  - intros [x|] [y|] [z|]; simpl; try done. apply (wo_trans Z.compare).
Qed.

#[global] Instance compareParentReference_wo : WeakOrder compareParentReference.
Proof. unfold compareParentReference. apply _. Qed.

Lemma ins_map {A B} (g : A → B) (c : B → B → comparison) x l :
  ins c (g x) (map g l) = map g (ins (cmp_on g c) x l).
Proof.
  induction l as [|y l IH]; [done|]. simpl. unfold cmp_on at 1. destruct (c (g x) (g y)); simpl; [done| |done].
  by rewrite IH.
Qed.

(** Sorting images by a key is sorting by the key. *)
Lemma sort_stable_map {A B} (g : A → B) (c : B → B → comparison) l :
  sort_stable c (map g l) = map g (sort_stable (cmp_on g c) l).
Proof.
  unfold sort_stable. etrans; [|symmetry; apply (fmap_reverse g)]. f_equal.
  change (@nil B) with (map g []). generalize (@nil A).
  induction l as [|x l IH]; intros acc; simpl; [done|]. by rewrite ins_map, IH.
Qed.

Section sorted_merge.
Context {A : Type} (c : A → A → comparison) `{!WeakOrder c}.

Lemma filter_comm (P Q : A → Prop) `{∀ x, Decision (P x)} `{∀ x, Decision (Q x)} (l : list A) :
  filter P (filter Q l) = filter Q (filter P l).
Proof. rewrite !list_filter_filter. apply list_filter_iff. naive_solver. Qed.

Lemma filter_sort_stable (P : A → Prop) `{∀ x, Decision (P x)} (l : list A) :
  filter P (sort_stable c l) = sort_stable c (filter P l).
Proof.
  apply stable_sort_unique; [done|apply StronglySorted_filter, sort_stable_sorted, _|].
  intros z. unfold ties. rewrite filter_comm. fold (ties c z (sort_stable c l)).
  rewrite sort_stable_ties by done. unfold ties. apply filter_comm.
Qed.

Lemma sort_stable_app_sorted l1 l2 : sort_stable c (sort_stable c l1 ++ l2) = sort_stable c (l1 ++ l2).
Proof.
  symmetry. apply stable_sort_unique; [done|apply sort_stable_sorted, _|]. intros z.
  rewrite sort_stable_ties by done. unfold ties. rewrite !filter_app. f_equal. symmetry.
  apply (sort_stable_ties c z l1).
Qed.

End sorted_merge.

Lemma cap_take {T} (l : list T) n : capMergedStatusEntries l n = take n l.
Proof.
  unfold capMergedStatusEntries. destruct (Nat.leb_spec (length l) n); [|done]. by rewrite take_ge.
Qed.

Lemma merge_eq limit ours existing desired :
  mergeOwnedStatusEntries limit ours existing desired =
  let foreign := filter (λ e, owned ours e = false) existing in
  let mine := order_ours (filter (λ e, owned ours e = true) desired) in
  sort_parents (take limit foreign ++ take (limit - length foreign) mine).
Proof. unfold mergeOwnedStatusEntries. by rewrite cap_take, take_app. Qed.

Lemma sort_parents_filter (P : RouteParentStatus → Prop) `{∀ x, Decision (P x)} l :
  filter P (sort_parents l) = sort_parents (filter P l).
Proof. apply filter_sort_stable, _. Qed.

Lemma filter_owned_none ours b (l : list RouteParentStatus) :
  (∀ e, e ∈ l → owned ours e = negb b) → filter (λ e, owned ours e = b) l = [].
Proof.
  intros Hl. apply elem_of_nil_inv. intros e [He Hin]%list_elem_of_filter. specialize (Hl e Hin).
  rewrite He in Hl. by destruct b.
Qed.

Lemma filter_owned_all ours b (l : list RouteParentStatus) :
  (∀ e, e ∈ l → owned ours e = b) → filter (λ e, owned ours e = b) l = l.
Proof.
  induction l as [|e l IH]; intros Hl; [done|].
  rewrite filter_cons, decide_True by (apply Hl; set_solver). f_equal. apply IH. set_solver.
Qed.

Lemma elem_of_take {A} (x : A) n l : x ∈ take n l → x ∈ l.
Proof. intros Hx. rewrite <- (take_drop n l). apply elem_of_app. by left. Qed.

Section merged.
Context (limit : nat) (ours : string) (existing desired : list RouteParentStatus).
Let foreign := filter (λ e, owned ours e = false) existing.
Let mine := order_ours (filter (λ e, owned ours e = true) desired).
Let merged := mergeOwnedStatusEntries limit ours existing desired.

Lemma elem_foreign e : e ∈ take limit foreign → owned ours e = false ∧ e ∈ existing.
Proof. intros He%elem_of_take. by apply list_elem_of_filter in He. Qed.

Lemma elem_mine e n : e ∈ take n mine → owned ours e = true ∧ e ∈ desired.
Proof. intros He%elem_of_take. unfold mine, order_ours in He. rewrite sort_stable_perm in He.
  by apply list_elem_of_filter in He. Qed.

(** The entries of others after the merge. *)
Lemma merged_foreign : filter (λ e, owned ours e = false) merged = sort_parents (take limit foreign).
Proof.
  unfold merged. rewrite merge_eq. cbn zeta. fold foreign mine. rewrite sort_parents_filter, filter_app.
  rewrite (filter_owned_all ours false (take limit foreign)) by (intros e He; by apply elem_foreign in He as []).
  rewrite (filter_owned_none ours false (take _ mine)); [by rewrite app_nil_r|].
  intros e He. by apply elem_mine in He as [].
Qed.

Lemma merged_mine :
  filter (λ e, owned ours e = true) merged = sort_parents (take (limit - length foreign) mine).
Proof.
  unfold merged. rewrite merge_eq. cbn zeta. fold foreign mine. rewrite sort_parents_filter, filter_app.
  rewrite (filter_owned_none ours true (take limit foreign)) by (intros e He; by apply elem_foreign in He as []).
  rewrite (filter_owned_all ours true (take _ mine)); [done|].
  intros e He. by apply elem_mine in He as [].
Qed.

Lemma elem_merged e :
  e ∈ merged ↔ e ∈ take limit foreign ∨ e ∈ take (limit - length foreign) mine.
Proof.
  unfold merged. rewrite merge_eq. cbn zeta. fold foreign mine. by rewrite sort_parents_perm, elem_of_app.
Qed.

End merged.

(** ** The merge of rebuilt entries is a fixed point *)

Section fixpoint.
Context (limit : nat) (ctrl : string).

Definition entry (f : ParentReference → Conditions) (ref : ParentReference) : RouteParentStatus :=
  mkRPS ref ctrl (f ref).

(** The references of our entries, in merge order. *)
Definition ordered (refs : list ParentReference) : list ParentReference :=
  sort_stable compareParentReference (sort_stable (cmp_on ParentString String.compare) refs).

Lemma ordered_perm refs : ordered refs ≡ₚ refs.
Proof. unfold ordered. by rewrite !sort_stable_perm. Qed.

Lemma order_entries f refs :
  order_ours (filter (λ e, owned ctrl e = true) (sort_parents (map (entry f) refs))) =
  map (entry f) (ordered refs).
Proof.
  rewrite filter_owned_all.
  - unfold sort_parents, order_ours, ordered. rewrite !sort_stable_map. f_equal.
    apply sort_stable_ext. intros x y. unfold cmp_on, then_cmp. simpl.
    by rewrite (proj2 (string_compare_eq ctrl ctrl) eq_refl).
  - intros e He. rewrite sort_parents_perm in He. apply list_elem_of_fmap in He as (ref & -> & _).
    apply String.eqb_refl.
Qed.

(** The live conditions of a reference all of whose entries are ours. *)
Lemma live_parent_ours (l : list RouteParentStatus) (ref : ParentReference) (cs : Conditions) :
  mkRPS ref ctrl cs ∈ l → (∀ e, e ∈ l → rps_ref e = ref → e = mkRPS ref ctrl cs) →
  live_parent l ref = cs.
Proof.
  intros Hin Hall. unfold live_parent.
  destruct (filter (λ s, rps_ref s = ref) l) as [|e l'] eqn:Hf.
  - exfalso. eapply (filter_nil_not_elem_of _ _ (mkRPS ref ctrl cs) Hf); [done|done].
  - simpl. assert (e ∈ filter (λ s, rps_ref s = ref) l) as He by (rewrite Hf; set_solver).
    apply list_elem_of_filter in He as [Hr He]. by rewrite (Hall e He Hr).
Qed.

(** Entries rebuilt over the merged list, where rebuilding a published condition list
    gives it back. *)
Lemma merge_fixpoint existing (B1 B2 : Conditions → ParentReference → Conditions) refs1 refs2 :
  (∀ live ref, ref ∈ refs1 → B2 (B1 live ref) ref = B1 live ref) →
  ordered refs1 = ordered refs2 →
  (∀ e, e ∈ existing → owned ctrl e = false → rps_ref e ∉ refs1) →
  let build B refs l := sort_parents (map (entry (λ ref, B (live_parent l ref) ref)) refs) in
  let merged := mergeOwnedStatusEntries limit ctrl existing (build B1 refs1 existing) in
  mergeOwnedStatusEntries limit ctrl merged (build B2 refs2 merged) = merged.
Proof.
  intros Hfix Hord Hfor build merged.
  set (f := λ ref, B1 (live_parent existing ref) ref).
  set (foreign := filter (λ e, owned ctrl e = false) existing).
  set (k := limit - length foreign).
  assert (Hm : merged = sort_parents (take limit foreign ++ map (entry f) (take k (ordered refs1)))).
  { unfold merged, build. rewrite merge_eq. cbn zeta. fold foreign f. rewrite order_entries. by rewrite firstn_map. }
  rewrite merge_eq. cbn zeta. unfold build. rewrite order_entries, <- Hord.
  assert (Hmf : filter (λ e, owned ctrl e = false) merged = sort_parents (take limit foreign))
    by apply merged_foreign.
  rewrite Hmf, firstn_map.
  assert (Hlen : length (sort_parents (take limit foreign)) = limit `min` length foreign)
    by (unfold sort_parents; by rewrite sort_stable_length, length_take).
  rewrite Hlen, take_ge by lia. replace (limit - limit `min` length foreign) with k by lia.
  assert (Hsame : map (entry (λ ref, B2 (live_parent merged ref) ref)) (take k (ordered refs1)) =
    map (entry f) (take k (ordered refs1))).
  { apply map_ext_in. intros ref Hin. apply list_elem_of_In in Hin. unfold entry. f_equal.
    assert (ref ∈ refs1) as Href by (rewrite <- ordered_perm; by eapply elem_of_take).
    rewrite (live_parent_ours merged ref (f ref)); [by apply Hfix| |].
    - rewrite Hm, sort_parents_perm, elem_of_app. right. by apply (list_elem_of_fmap_2 (entry f)).
    - intros e He Hr. rewrite Hm, sort_parents_perm, elem_of_app in He. destruct He as [He|He].
      + exfalso. apply elem_foreign in He as [Ho He]. apply (Hfor e He Ho). by rewrite Hr.
      + apply list_elem_of_fmap in He as (ref' & -> & _). simpl in Hr. by subst ref'. }
  rewrite Hsame, Hm. apply sort_stable_app_sorted, _.
Qed.

End fixpoint.

(** ** The writers are fixed points of themselves *)

Section check.
Context {O S : Type} `{EqDecision S}.

(** A writer is idempotent when the second decision reaches the status of the first. *)
Lemma check_idempotent (w1 w2 : Writer O S) res current apply g :
  w_get_status w1 = Some g → w_get_status w2 = Some g → (∀ o s, g (apply o s) = s) →
  (∀ st b, decide_write w1 res current = Some (st, b) →
    match decide_write w2 res (apply current st) with Some (st', _) => st' = st | None => True end) →
  CheckWriterIdempotent w1 w2 res current apply = None.
Proof.
  intros H1 H2 Happ Hdec. unfold CheckWriterIdempotent, WriterWouldWrite. rewrite H1.
  destruct (decide_write w1 res current) as [[st [|]]|] eqn:Hd; [|done|done].
  rewrite bool_decide_true by apply Happ. specialize (Hdec st true eq_refl).
  destruct (decide_write w2 res (apply current st)) as [[st' b]|] eqn:Hd2; [|done].
  subst st'. unfold decide_write in Hd2. rewrite H2 in Hd2.
  destruct (w_desired w2 res (apply current st)) as [d|]; [|done]. simpl in Hd2. injection Hd2 as Hm <-.
  by rewrite Hm, bool_decide_true by apply Happ.
Qed.

End check.

Lemma key_ref_inj a b : compareParentReference (key_ref a) (key_ref b) = Eq → a = b.
Proof.
  unfold compareParentReference, then_cmp, cmp_on, key_ref. intros H. repeat case_match; try done.
  all: repeat match goal with H : String.compare _ _ = Eq |- _ => apply string_compare_eq in H end.
  all: simpl in *; destruct a as [? ? [] ?], b as [? ? [] ?]; simpl in *.
  all: repeat match goal with H : String.eqb _ _ = true |- _ => apply String.eqb_eq in H end; by subst.
Qed.

Lemma ordered_keys keys1 keys2 (P : ParentReference → Prop) `{∀ r, Decision (P r)} refs1 refs2 :
  keys1 ≡ₚ keys2 → refs1 ≡ₚ refs_of_keys keys1 → refs2 ≡ₚ refs_of_keys keys2 →
  ordered (filter P refs1) = ordered (filter P refs2).
Proof.
  intros Hk H1 H2. unfold ordered. apply sort_stable_perm_eq; [apply _| |].
  - intros x y Hx Hy Hxy. rewrite sort_stable_perm in Hx, Hy.
    apply list_elem_of_filter in Hx as [_ Hx], Hy as [_ Hy]. rewrite H1 in Hx, Hy.
    apply list_elem_of_fmap in Hx as (a & -> & _), Hy as (b & -> & _). by rewrite (key_ref_inj a b Hxy).
  - rewrite !sort_stable_perm, H1, H2. unfold refs_of_keys. by rewrite Hk.
Qed.

Section idempotence.
Context `{CL : ConditionLib} {LW : ConditionLaws}.
Variable col : option (gmap string StatusReport).

(** The references a route status publishes. *)
Definition published_refs (keys : list ParentRefKey) (rr : RouteReport) (obj : RouteObject) :
    list ParentReference := filter (λ ref, known rr ref = true) (status_refs keys obj).

Lemma build_route_entries now keys rr obj ctrl :
  BuildRouteStatus now keys (Some rr) obj ctrl = Some
    (sort_parents (map (entry ctrl (λ ref, parent_conditions now rr (live_parent (ro_status obj) ref)
        (default [] (rr_parents rr !! getParentRefKey ref))))
      (filter (λ ref, known rr ref = true)
        (match ro_parent_refs obj with [] => RouteReport_parentRefs keys | refs => refs end)))).
Proof. unfold BuildRouteStatus. simpl. by rewrite omap_parent_status. Qed.

Lemma parent_conditions_idem now1 now2 rr live cs :
  wf_conditions cs →
  parent_conditions now2 rr (parent_conditions now1 rr live cs) cs = parent_conditions now1 rr live cs.
Proof.
  intros Hw. unfold parent_conditions. rewrite !parent_defaults.
  apply final_idem; [by apply add_defaults_NoDup|by apply same_add_defaults].
Qed.

Lemma wf_default_parents rr ref : wf_route_report rr → wf_conditions (default [] (rr_parents rr !! getParentRefKey ref)).
Proof.
  intros Hw. destruct (rr_parents rr !! getParentRefKey ref) eqn:Hk; [by apply (Hw _ _ Hk)|constructor].
Qed.

Lemma owns_merged_empty limit ctrl l : ownsAnyEntry ctrl (mergeOwnedStatusEntries limit ctrl l []) = false.
Proof.
  apply not_true_is_false. intros H. apply existsb_exists in H as (e & He & Ho).
  apply list_elem_of_In in He. apply elem_merged in He as [He|He].
  - apply elem_foreign in He as [He _]. congruence.
  - apply elem_mine in He as [_ He]. set_solver.
Qed.

(** C11: The writer of routes reaches a fixed point after one write: asked again about the
    route it just wrote, at any later time and whatever the iteration order of its maps, it
    does not write, provided no other controller has an entry for a parent reference this
    one publishes.  This is the invariant [CheckWriterIdempotent] states for the whole
    status pipeline; the cap on the number of parents does not break it. *)
Theorem route_writer_idempotent ctrl res now1 now2 keys1 keys2 obj :
  keys1 ≡ₚ keys2 →
  (∀ sr rr, ReportFor col res = Some sr → sr_route sr = Some rr → wf_route_report rr ∧
    ∀ e, e ∈ ro_status obj → rps_controller e ≠ ctrl → rps_ref e ∉ published_refs keys1 rr obj) →
  CheckWriterIdempotent (routeWriter col ctrl now1 keys1) (routeWriter col ctrl now2 keys2) res obj
    (λ o st, mkRO (ro_parent_refs o) st) = None.
Proof.
  intros Hkeys Hrep. apply (check_idempotent _ _ _ _ _ ro_status); [done..|].
  intros st b. unfold decide_write. cbn [routeWriter w_desired w_merge w_get_status].
  destruct (ReportFor col res) as [sr|] eqn:Hr; [|done]. cbn [mbind option_bind].
  destruct (sr_route sr) as [rr|] eqn:Hrr.
  - destruct (Hrep sr rr eq_refl Hrr) as [Hw Hf]. rewrite !build_route_entries. cbn [mbind option_bind].
    intros Hst. injection Hst as <- _. cbn [ro_parent_refs ro_status].
    apply (merge_fixpoint MaxRouteStatusParents ctrl (ro_status obj)
      (λ live ref, parent_conditions now1 rr live (default [] (rr_parents rr !! getParentRefKey ref)))
      (λ live ref, parent_conditions now2 rr live (default [] (rr_parents rr !! getParentRefKey ref)))).
    + intros live ref _. by apply parent_conditions_idem, wf_default_parents.
    + destruct (ro_parent_refs obj) as [|ref refs]; [|done].
      apply (ordered_keys keys1 keys2); [done|apply sort_stable_perm|apply sort_stable_perm].
    + intros e He Ho Hin. apply (Hf e He); [by apply String.eqb_neq|].
      apply list_elem_of_filter in Hin as [Hk Hin]. apply list_elem_of_filter. split; [done|].
      unfold status_refs. destruct (ro_parent_refs obj); [|done].
      unfold RouteReport_parentRefs in Hin. by rewrite sort_stable_perm in Hin.
  - destruct (ownsAnyEntry ctrl (ro_status obj)); [|done]. cbn [mbind option_bind].
    intros Hst. injection Hst as <- _. cbn [ro_status]. unfold MergeRouteParentStatuses.
    by rewrite owns_merged_empty.
Qed.

(** *** Policies *)

Definition ancestor_facts (now : Z) (a : AncestorRefReport) : Conditions :=
  addAttachmentCondition now (ancestorRefConditionsWithDefaults now (ar_conditions a)) (ar_state a).

Lemma ancestor_facts_NoDup now a : wf_conditions (ar_conditions a) → NoDup (types (ancestor_facts now a)).
Proof.
  intros Hw. unfold ancestor_facts, addAttachmentCondition.
  assert (NoDup (types (ancestorRefConditionsWithDefaults now (ar_conditions a)))) as Hn
    by by apply add_default_NoDup, add_default_NoDup.
  repeat case_match; try done; by apply set_NoDup.
Qed.

Lemma same_ancestor_facts now1 now2 a : same_list (ancestor_facts now1 a) (ancestor_facts now2 a).
Proof.
  unfold ancestor_facts, addAttachmentCondition.
  assert (same_list (ancestorRefConditionsWithDefaults now1 (ar_conditions a))
            (ancestorRefConditionsWithDefaults now2 (ar_conditions a))) as Hs
    by by apply same_add_default, same_add_default.
  repeat case_match; try done; by apply same_set.
Qed.

Definition ancestor_conditions (now : Z) (pr : PolicyReport) (live : Conditions) (ref : ParentReference) :
    Conditions :=
  match pp_ancestors pr !! getParentRefKey ref with
  | Some a => final_conditions (λ _, true) now (pp_generation pr) live (ancestor_facts now a)
  | None => []
  end.

Definition known_ancestor (pr : PolicyReport) (ref : ParentReference) : bool :=
  bool_decide (is_Some (pp_ancestors pr !! getParentRefKey ref)).

Lemma build_policy_entries now keys pr ctrl current :
  BuildPolicyStatus now keys (Some pr) ctrl current = Some
    (sort_parents (map (entry ctrl (λ ref, ancestor_conditions now pr (live_parent current ref) ref))
      (filter (λ ref, known_ancestor pr ref = true) (refs_of_keys keys)))).
Proof.
  unfold BuildPolicyStatus. simpl. do 2 f_equal. induction (refs_of_keys keys) as [|ref refs IH]; [done|].
  cbn [omap list_omap]. rewrite filter_cons. unfold ancestor_status at 1. case_decide as Hk.
  - apply bool_decide_eq_true in Hk as [a Ha]. cbn [map]. unfold entry at 1, ancestor_conditions at 1.
    rewrite Ha, live_ancestor_parent. cbn [mbind option_bind]. f_equal. apply IH.
  - unfold known_ancestor in Hk. rewrite bool_decide_eq_true, <- eq_None_not_Some in Hk. rewrite Hk. apply IH.
Qed.

(** The writer of policies reaches a fixed point after one write, under the same
    condition on the ancestors other controllers report. *)
Theorem policy_writer_idempotent ctrl res now1 now2 keys1 keys2 current :
  keys1 ≡ₚ keys2 →
  (∀ sr pr, ReportFor col res = Some sr → sr_policy sr = Some pr → wf_policy pr ∧
    ∀ e, e ∈ current → rps_controller e ≠ ctrl → rps_ref e ∉ refs_of_keys keys1) →
  CheckWriterIdempotent (policyWriter col ctrl now1 keys1) (policyWriter col ctrl now2 keys2) res current
    (λ _ st, st) = None.
Proof.
  intros Hkeys Hrep. apply (check_idempotent _ _ _ _ _ id); [done..|].
  intros st b. unfold decide_write. cbn [policyWriter w_desired w_merge w_get_status].
  destruct (ReportFor col res) as [sr|] eqn:Hr; [|done]. cbn [mbind option_bind].
  destruct (sr_policy sr) as [pr|] eqn:Hpr.
  - destruct (Hrep sr pr eq_refl Hpr) as [Hw Hf]. rewrite !build_policy_entries. cbn [mbind option_bind].
    intros Hst. injection Hst as <- _.
    apply (merge_fixpoint MaxPolicyStatusAncestors ctrl current
      (ancestor_conditions now1 pr) (ancestor_conditions now2 pr)).
    + intros live ref _. unfold ancestor_conditions.
      destruct (pp_ancestors pr !! getParentRefKey ref) as [a|] eqn:Ha; [|done].
      apply final_idem; [by apply ancestor_facts_NoDup, (Hw _ _ Ha)|apply same_ancestor_facts].
    + by apply (ordered_keys keys1 keys2).
    + intros e He Ho Hin. apply (Hf e He); [by apply String.eqb_neq|].
      by apply list_elem_of_filter in Hin as [_ ?].
  - cbn [BuildPolicyStatus mbind option_bind].
    destruct (ownsAnyEntry ctrl current); [|done]. cbn [mbind option_bind].
    intros Hst. injection Hst as <- _. unfold MergePolicyAncestorStatuses. by rewrite owns_merged_empty.
Qed.

(** *** Backends *)

Lemma backend_writer_fixed res now1 now2 current :
  (∀ sr br, ReportFor col res = Some sr → sr_backend sr = Some br → wf_backend br) →
  CheckWriterIdempotent (backendWriter col now1) (backendWriter col now2) res current (λ _ st, st) = None.
Proof.
  intros Hrep. apply (check_idempotent _ _ _ _ _ id); [done..|].
  intros st b. unfold decide_write. cbn [backendWriter w_desired w_merge w_get_status].
  destruct (ReportFor col res) as [sr|] eqn:Hr; [|done]. cbn [mbind option_bind].
  destruct (sr_backend sr) as [br|] eqn:Hbr; [|done]. cbn [BuildBackendStatus mbind option_bind].
  intros Hst. injection Hst as <- _. apply final_idem; [by apply (Hrep sr)|done].
Qed.

(** *** Listeners *)

Lemma published_idem now1 now2 og live cs cs' :
  NoDup (types cs) → same_list cs cs' →
  map (published now2 og (map (published now1 og live) cs)) cs' = map (published now1 og live) cs.
Proof.
  intros Hn Hs. assert (Hfc : ∀ now live cs, NoDup (types cs) →
    final_conditions (λ _, false) now og live cs = map (published now og live) cs).
  { clear -LW. intros now live cs Hn. unfold final_conditions. rewrite stamp_loop by set_solver. simpl.
    generalize (map (published now og live) cs). induction live as [|c l IH]; intros acc; [done|]. cbn [foldl].
    unfold preserve_step at 2. by rewrite andb_false_r. }
  pose proof (final_idem (λ _, false) now1 now2 og live cs cs' Hn Hs) as Hi.
  by rewrite !Hfc in Hi by (done || by rewrite <- (same_list_types cs cs')).
Qed.

Lemma same_listener_facts now1 now2 reports n :
  same_list (listener_facts now1 reports n) (listener_facts now2 reports n).
Proof. by apply same_add_defaults. Qed.

Lemma same_not_programmed cs cs' n :
  same_list cs cs' →
  existsb not_programmed cs = existsb not_programmed cs' ∧ invalid_messages n cs = invalid_messages n cs'.
Proof.
  unfold invalid_messages. induction 1 as [|c c' cs cs' (Ht & Hs & _ & Hm & _) _ [IH1 IH2]]; [done|]. simpl.
  assert (not_programmed c = not_programmed c') as Hp by (unfold not_programmed; by rewrite Ht, Hs).
  rewrite Hp, IH1. split; [done|]. rewrite !filter_cons, Hp, Hm.
  case_decide; simpl; by rewrite ?IH2, ?Hm.
Qed.

Lemma listener_invalid_now now1 now2 reports n :
  listener_invalid now1 reports n = listener_invalid now2 reports n.
Proof. apply same_not_programmed; [exact n|apply same_listener_facts]. Qed.

Lemma listener_messages_now now1 now2 reports names :
  listener_messages now1 reports names = listener_messages now2 reports names.
Proof.
  unfold listener_messages. induction names as [|n names IH]; [done|]. rewrite !bind_cons, IH. f_equal.
  apply same_not_programmed, same_listener_facts.
Qed.

Lemma live_listener_out (f : string → ListenerStatus) names n :
  (∀ n, lst_name (f n) = n) → n ∈ names → live_listener (map f names) n = lst_conditions (f n).
Proof.
  intros Hf Hn. unfold live_listener.
  destruct (filter (λ l, lst_name l = n) (map f names)) as [|l ls] eqn:Hl.
  - exfalso. eapply (filter_nil_not_elem_of _ _ (f n) Hl); [apply Hf|by apply list_elem_of_fmap_2].
  - assert (l ∈ filter (λ l, lst_name l = n) (map f names)) as Hin by (rewrite Hl; set_solver).
    apply list_elem_of_filter in Hin as [Hln Hin]. apply list_elem_of_fmap in Hin as (n' & -> & _).
    rewrite Hf in Hln. by subst.
Qed.

(** Rebuilding the listeners over the published ones gives them back. *)
Lemma listeners_fixed now1 now2 og reports live att names :
  wf_listeners reports →
  map (listener_out now2 og reports (map (listener_out now1 og reports live att) names) att) names =
  map (listener_out now1 og reports live att) names.
Proof.
  intros Hw. apply map_ext_in. intros n Hn. apply list_elem_of_In in Hn. unfold listener_out at 1 3.
  rewrite live_listener_out by (done || intros; by apply listener_out_name).
  f_equal. unfold listener_out. cbn [lst_conditions].
  apply published_idem; [by apply listener_facts_NoDup|apply same_listener_facts].
Qed.

(** *** Gateways *)

Definition set_status (gw : Gateway) (st : GatewayStatus) : Gateway :=
  mkGateway (gw_listener_names gw) (gw_addresses gw) (gw_frontend gw) st.

(** The facts before the defaults. *)
Definition gateway_verdicts (now : Z) (r : GatewayReport) (gw : Gateway) (invalid messages : list string) :
    Conditions :=
  handleInsecureFrontendValidationMode now
    (handleInvalidAddresses now
       (match invalid with
        | [] => gr_conditions r
        | _ => SetStatusCondition now (gr_conditions r)
                 (cond "Accepted" "True" "ListenersNotValid" (not_programmed_message invalid messages))
        end) gw) gw.

Lemma same_verdicts now1 now2 r gw st inv msgs :
  same_list (gateway_verdicts now1 r gw inv msgs) (gateway_verdicts now2 r (set_status gw st) inv msgs).
Proof.
  unfold gateway_verdicts, handleInsecureFrontendValidationMode.
  change (gatewayUsesInsecureFrontendValidationMode (set_status gw st))
    with (gatewayUsesInsecureFrontendValidationMode gw).
  assert (Ha : ∀ cs cs', same_list cs cs' →
    same_list (handleInvalidAddresses now1 cs gw) (handleInvalidAddresses now2 cs' (set_status gw st))).
  { unfold handleInvalidAddresses. cbn [set_status gw_addresses].
    induction (gw_addresses gw) as [|[t|] l IH]; intros cs cs' Hs; cbn [foldl]; [done| |by apply IH].
    apply IH. repeat case_match; try done; by apply same_set. }
  destruct (gatewayUsesInsecureFrontendValidationMode gw); [apply same_set; [|done]|];
    apply Ha; destruct inv; try done; by apply same_set.
Qed.

Lemma same_defaults now1 now2 cs cs' live1 live2 ls :
  same_list cs cs' → (missing cs "Accepted" = true → has_invalid_params live1 = has_invalid_params live2) →
  same_list (gatewayConditionsWithDefaults now1 cs live1 ls) (gatewayConditionsWithDefaults now2 cs' live2 ls).
Proof.
  intros Hs Hl. unfold gatewayConditionsWithDefaults. apply same_add_default, same_add_default.
  pose proof (same_missing cs cs' "Accepted" Hs) as Hm.
  destruct (missing cs "Accepted") eqn:Hc.
  - rewrite (Hl eq_refl). destruct (has_invalid_params live2); [done|by apply same_add_default].
  - assert (∀ now l, missing l "Accepted" = false → add_default now GatewayAccepted l = l) as Hd.
    { intros now l Hl'. unfold add_default. cbn [GatewayAccepted cond mc_type]. by rewrite Hl'. }
    rewrite !Hd by done. by destruct (has_invalid_params live1), (has_invalid_params live2).
Qed.

(** Whether the deployer's verdict stands does not change by publishing. *)
Lemma invalid_params_published now r gw ls inv msgs :
  wf_conditions (gr_conditions r) →
  missing (gateway_verdicts now r gw inv msgs) "Accepted" = true →
  has_invalid_params (final_conditions keep_gateway_condition now (gr_generation r)
    (gs_conditions (gw_status gw)) (gateway_facts now r gw ls inv msgs)) =
  has_invalid_params (gs_conditions (gw_status gw)).
Proof.
  intros Hw Hm. set (live := gs_conditions (gw_status gw)). unfold has_invalid_params at 1.
  rewrite find_final by by apply gateway_facts_NoDup.
  assert (FindStatusCondition (gateway_facts now r gw ls inv msgs) "Accepted" =
    if has_invalid_params live then None else Some (stamped now GatewayAccepted)) as ->.
  { change (gateway_facts now r gw ls inv msgs) with
      (gatewayConditionsWithDefaults now (gateway_verdicts now r gw inv msgs) live ls).
    unfold gatewayConditionsWithDefaults. rewrite !find_add_default.
    rewrite (decide_False (P:=mc_type GatewayProgrammed = _)) by done.
    rewrite (decide_False (P:=mc_type (GatewayResolvedRefs ls) = _)) by (unfold GatewayResolvedRefs; by case_match).
    unfold missing in Hm. destruct (FindStatusCondition (gateway_verdicts now r gw inv msgs) "Accepted") eqn:Hv; [done|].
    destruct (has_invalid_params live); rewrite ?find_add_default, Hv; [done|].
    by rewrite (decide_True (P:=mc_type GatewayAccepted = _)). }
  destruct (has_invalid_params live) eqn:Hp.
  - unfold has_invalid_params in Hp. destruct (FindStatusCondition live "Accepted") as [c|] eqn:Hc; [|done].
    rewrite (find_filter_keep keep_gateway_condition live "Accepted" c); [done|done|].
    unfold keep_gateway_condition. by rewrite Hp.
  - destruct (published_stamped_facts now (gr_generation r) live GatewayAccepted) as (_ & Hs & _).
    unfold invalid_params. rewrite Hs. simpl. by rewrite andb_false_r.
Qed.

(** The writer of Gateways reaches a fixed point after one write, at any later time:
    listeners, addresses, conditions of other controllers and the deployer's verdict on
    the parameters included. *)
Theorem gateway_writer_idempotent res now1 now2 gw :
  (∀ sr r, ReportFor col res = Some sr → sr_gateway sr = Some r → wf_gateway r) →
  CheckWriterIdempotent (gatewayWriter col now1) (gatewayWriter col now2) res gw set_status = None.
Proof.
  intros Hrep. apply (check_idempotent _ _ _ _ _ gw_status); [done..|].
  intros st b. unfold decide_write. cbn [gatewayWriter w_desired w_merge w_get_status].
  destruct (ReportFor col res) as [sr|] eqn:Hr; [|done]. cbn [mbind option_bind].
  destruct (sr_gateway sr) as [r|] eqn:Hgr; [|done]. pose proof (Hrep sr r eq_refl Hgr) as Hw.
  rewrite build_gateway by done. cbn [mbind option_bind]. intros Hst. injection Hst as <- _.
  rewrite build_gateway by done. cbn [mbind option_bind].
  cbn [set_status gw_status gs_addresses gs_conditions gs_listeners gs_attached gw_listener_names].
  rewrite listeners_fixed by apply Hw. f_equal.
  rewrite (list_filter_iff (λ n, listener_invalid now2 (gr_listeners r) n = true)
    (λ n, listener_invalid now1 (gr_listeners r) n = true))
    by (intros n; by rewrite (listener_invalid_now now2 now1)).
  rewrite (listener_messages_now now2 now1).
  set (ls := map _ _). set (inv := filter _ _). set (msgs := listener_messages _ _ _).
  apply final_idem; [by apply gateway_facts_NoDup, Hw|].
  set (live := gs_conditions (gw_status gw)).
  change (same_list (gatewayConditionsWithDefaults now1 (gateway_verdicts now1 r gw inv msgs) live ls)
    (gatewayConditionsWithDefaults now2 (gateway_verdicts now2 r (set_status gw
      (mkGS (gs_addresses (gw_status gw)) (final_conditions keep_gateway_condition now1 (gr_generation r) live
          (gateway_facts now1 r gw ls inv msgs)) ls
        (if (0 <? gr_attached r)%Z then Some (gr_attached r) else None))) inv msgs)
      (final_conditions keep_gateway_condition now1 (gr_generation r) live
          (gateway_facts now1 r gw ls inv msgs)) ls)).
  apply same_defaults; [apply same_verdicts|]. intros Hm. symmetry.
  apply invalid_params_published; [apply Hw|done].
Qed.

(** *** ListenerSets *)

Definition set_ls_status (ls : ListenerSet) (st : ListenerSetStatus) : ListenerSet :=
  mkLS (ls_listener_names ls) st.

Definition listener_set_facts (now : Z) (cs : Conditions) (count : nat) (invalid messages : list string) :
    Conditions :=
  let cs := match invalid with
            | [] => cs
            | _ => SetStatusCondition now cs
                     (cond "Accepted" "True" "ListenersNotValid" (not_programmed_message invalid messages))
            end in
  let cs := if bool_decide (count ≠ 0) && bool_decide (length invalid = count) then
              SetStatusCondition now
                (SetStatusCondition now cs (cond "Accepted" "False" "ListenersNotValid" "No valid listeners"))
                (cond "Programmed" "False" "ListenersNotValid" "No valid listeners")
            else cs in
  listenerSetConditionsWithDefaults now cs.

Lemma listener_set_facts_NoDup now cs n inv msgs :
  NoDup (types cs) → NoDup (types (listener_set_facts now cs n inv msgs)).
Proof.
  intros Hn. apply add_default_NoDup, add_default_NoDup. case_match; [apply set_NoDup, set_NoDup|];
    (destruct inv; [done|by apply set_NoDup]).
Qed.

Lemma same_listener_set_facts now1 now2 cs n inv msgs :
  same_list (listener_set_facts now1 cs n inv msgs) (listener_set_facts now2 cs n inv msgs).
Proof.
  apply same_add_default, same_add_default.
  case_match; [apply same_set; [apply same_set; [|done]|done]|]; (destruct inv; [done|by apply same_set]).
Qed.

Lemma build_listener_set now r ls :
  wf_listener_set r →
  BuildListenerSetStatus now (Some r) ls = Some
    (let names := if listenerSetRejected (lsr_conditions r) then [] else ls_listener_names ls in
     let invalid := filter (λ n, listener_invalid now (lsr_listeners r) n = true) names in
     mkLSS (final_conditions (λ _, true) now (lsr_generation r) (lss_conditions (ls_status ls))
              (listener_set_facts now (lsr_conditions r) (length names) invalid
                 (listener_messages now (lsr_listeners r) names)))
       (map (listener_out now (lsr_generation r) (lsr_listeners r) (lss_listeners (ls_status ls)) ∅) names)).
Proof.
  intros [_ Hw]. unfold BuildListenerSetStatus. cbn [mbind option_bind].
  destruct (listenerSetRejected (lsr_conditions r)); [done|]. rewrite build_listeners_spec by done.
  do 3 f_equal. unfold listener_set_facts. f_equal.
  rewrite length_map. erewrite (bool_decide_ext (map _ _ ≠ []) (length (ls_listener_names ls) ≠ 0)); [done|].
  destruct (ls_listener_names ls); naive_solver.
Qed.

(** The writer of ListenerSets reaches a fixed point after one write. *)
Theorem listener_set_writer_idempotent res now1 now2 ls :
  (∀ sr r, ReportFor col res = Some sr → sr_listener_set sr = Some r → wf_listener_set r) →
  CheckWriterIdempotent (listenerSetWriter col now1) (listenerSetWriter col now2) res ls set_ls_status = None.
Proof.
  intros Hrep. apply (check_idempotent _ _ _ _ _ ls_status); [done..|].
  intros st b. unfold decide_write. cbn [listenerSetWriter w_desired w_merge w_get_status].
  destruct (ReportFor col res) as [sr|] eqn:Hr; [|done]. cbn [mbind option_bind].
  destruct (sr_listener_set sr) as [r|] eqn:Hlr; [|done]. pose proof (Hrep sr r eq_refl Hlr) as Hw.
  rewrite build_listener_set by done. cbn [mbind option_bind]. intros Hst. injection Hst as <- _.
  rewrite build_listener_set by done. cbn [mbind option_bind].
  cbn [set_ls_status ls_status lss_conditions lss_listeners ls_listener_names].
  set (names := if listenerSetRejected _ then _ else _).
  rewrite listeners_fixed by apply Hw. f_equal.
  rewrite (list_filter_iff (λ n, listener_invalid now2 (lsr_listeners r) n = true)
    (λ n, listener_invalid now1 (lsr_listeners r) n = true))
    by (intros n; by rewrite (listener_invalid_now now2 now1)).
  rewrite (listener_messages_now now2 now1).
  apply final_idem; [by apply listener_set_facts_NoDup, Hw|apply same_listener_set_facts].
Qed.

End idempotence.

(** ** What the merge publishes *)

(** Merging our entries into a status list that several controllers write: the list
    never exceeds the API limit and is sorted by [ParentString]; as long as the entries of
    others fit they are all kept, untouched; every entry of ours is a desired one, none is
    dropped while there is room, and when there is not, those that survive come first in
    the order of [compareParentReference]. *)
Theorem merge_statuses_spec limit ours existing desired :
  let merged := mergeOwnedStatusEntries limit ours existing desired in
  let foreign := filter (λ e, owned ours e = false) existing in
  let mine := filter (λ e, owned ours e = true) desired in
  (length merged ≤ limit)%nat ∧
  StronglySorted (cmp_le (cmp_on (ParentString ∘ rps_ref) String.compare)) merged ∧
  ((length foreign ≤ limit)%nat → filter (λ e, owned ours e = false) merged ≡ₚ foreign) ∧
  (∀ e, e ∈ merged → owned ours e = true → e ∈ desired) ∧
  ((length foreign + length mine ≤ limit)%nat → filter (λ e, owned ours e = true) merged ≡ₚ mine) ∧
  (∀ n, n = length (filter (λ e, owned ours e = true) merged) →
    ∃ kept dropped, filter (λ e, owned ours e = true) merged ≡ₚ kept ∧ kept ++ dropped ≡ₚ mine ∧
      length kept = n ∧
      ∀ a b, a ∈ kept → b ∈ dropped → compareParentReference (rps_ref a) (rps_ref b) ≠ Gt).
Proof.
  intros merged foreign mine. set (ordered_mine := order_ours mine).
  assert (Hlen : length ordered_mine = length mine) by apply sort_stable_length.
  split; [|split; [|split; [|split; [|split]]]].
  - unfold merged. rewrite merge_eq. cbn zeta. fold foreign mine ordered_mine. unfold sort_parents.
    rewrite sort_stable_length, length_app, !length_take. lia.
  - unfold merged. rewrite merge_eq. apply sort_stable_sorted, _.
  - intros Hf. unfold merged. rewrite merged_foreign. fold foreign. by rewrite sort_parents_perm, take_ge.
  - intros e He Ho. apply elem_merged in He as [He|He]; [|by apply elem_mine in He as []].
    apply elem_foreign in He as [He _]. congruence.
  - intros Hf. unfold merged. rewrite merged_mine. fold foreign mine ordered_mine.
    rewrite sort_parents_perm, take_ge by lia. apply sort_stable_perm.
  - intros n ->. exists (take (limit - length foreign) ordered_mine), (drop (limit - length foreign) ordered_mine).
    unfold merged. rewrite merged_mine. fold foreign mine ordered_mine. split; [by rewrite sort_parents_perm|].
    split; [rewrite take_drop; apply sort_stable_perm|]. split; [unfold sort_parents; by rewrite sort_stable_length|].
    intros a b Ha Hb.
    assert (Hs : StronglySorted (cmp_le (cmp_on rps_controller String.compare ▷
      cmp_on rps_ref compareParentReference)%cmp) ordered_mine) by (apply sort_stable_sorted, _).
    rewrite <- (take_drop (limit - length foreign) ordered_mine) in Hs.
    pose proof (proj1 (StronglySorted_app _ _ _) Hs) as (Hab & _ & _).
    specialize (Hab a b Ha Hb). unfold cmp_le, then_cmp, cmp_on in Hab.
    assert (Hctrl : ∀ e, e ∈ ordered_mine → rps_controller e = ours).
    { intros e He. unfold ordered_mine, order_ours in He. rewrite sort_stable_perm in He.
      apply list_elem_of_filter in He as [He _]. by apply String.eqb_eq. }
    rewrite (Hctrl a), (Hctrl b) in Hab;
      [|rewrite <- (take_drop (limit - length foreign)); apply elem_of_app; by (left + right)..].
    by rewrite (proj2 (string_compare_eq ours ours) eq_refl) in Hab.
Qed.

(** ** Examples *)

Section examples.
#[local] Existing Instance go_conditions.
#[local] Existing Instance go_conditions_laws.

Definition ex_route_resource : Resource :=
  mkRes (mkGVK "gateway.networking.k8s.io" "v1" "HTTPRoute") (mkNN "infra" "web").

(** The route was translated for [gw1] without any finding. *)
Definition ex_parent_key : ParentRefKey := getParentRefKey (ex_ref "gw1").
Definition ex_route_report : RouteReport := mkRR {[ ex_parent_key := [] ]} 7.

Definition ex_col : option (gmap string StatusReport) :=
  Some {[ target_string ex_route_resource :=
            mkSRep (Some (mkGWR [] ∅ 4 1)) (Some (mkLSR [] ∅ 4)) (Some ex_route_report)
              (Some (mkPRep {[ ex_parent_key := mkARR [] 2 ]} 3)) None ]}.

(** Another controller reports on another parent. *)
Definition ex_shared_route : RouteObject :=
  mkRO [ex_ref "gw1"] [mkRPS (ex_ref "gw9") "other" [mkMC "Accepted" "False" "NoMatchingParent" "" 1 1]].

Lemma ex_report_of sr : ReportFor ex_col ex_route_resource = Some sr →
  sr_gateway sr = Some (mkGWR [] ∅ 4 1) ∧ sr_listener_set sr = Some (mkLSR [] ∅ 4) ∧
  sr_route sr = Some ex_route_report ∧ sr_policy sr = Some (mkPRep {[ ex_parent_key := mkARR [] 2 ]} 3).
Proof. unfold ReportFor, ex_col. simpl. rewrite lookup_singleton_eq. by intros [= <-]. Qed.

Lemma route_writer_idempotent_witness :
  WriterWouldWrite (routeWriter ex_col "kgateway" 10 []) ex_route_resource ex_shared_route = true ∧
  CheckWriterIdempotent (routeWriter ex_col "kgateway" 10 []) (routeWriter ex_col "kgateway" 20 [])
    ex_route_resource ex_shared_route (λ o st, mkRO (ro_parent_refs o) st) = None.
Proof.
  split; [vm_compute; reflexivity|]. apply route_writer_idempotent; [reflexivity|].
  intros sr rr Hsr Hrr. destruct (ex_report_of sr Hsr) as (_ & _ & Hr & _). rewrite Hr in Hrr. injection Hrr as <-.
  split; [apply map_Forall_singleton; constructor|].
  intros e He Hc Hin. apply list_elem_of_singleton in He as ->. vm_compute in Hin. set_solver.
Defined.

Lemma policy_writer_idempotent_witness :
  WriterWouldWrite (policyWriter ex_col "kgateway" 10 [ex_parent_key]) ex_route_resource [] = true ∧
  CheckWriterIdempotent (policyWriter ex_col "kgateway" 10 [ex_parent_key])
    (policyWriter ex_col "kgateway" 20 [ex_parent_key]) ex_route_resource [] (λ _ st, st) = None.
Proof.
  split; [vm_compute; reflexivity|]. apply policy_writer_idempotent; [reflexivity|].
  intros sr pr Hsr Hpr. destruct (ex_report_of sr Hsr) as (_ & _ & _ & Hp). rewrite Hp in Hpr. injection Hpr as <-.
  split; [apply map_Forall_singleton; constructor|]. intros e He. set_solver.
Defined.

Lemma gateway_writer_idempotent_witness :
  WriterWouldWrite (gatewayWriter ex_col 10) ex_route_resource ex_gateway = true ∧
  CheckWriterIdempotent (gatewayWriter ex_col 10) (gatewayWriter ex_col 20) ex_route_resource ex_gateway
    set_status = None.
Proof.
  split; [vm_compute; reflexivity|]. apply gateway_writer_idempotent.
  intros sr r Hsr Hr. destruct (ex_report_of sr Hsr) as (Hg & _). rewrite Hg in Hr. injection Hr as <-.
  split; [constructor|apply map_Forall_empty].
Defined.

Lemma listener_set_writer_idempotent_witness :
  WriterWouldWrite (listenerSetWriter ex_col 10) ex_route_resource (mkLS ["a"] (mkLSS [] [])) = true ∧
  CheckWriterIdempotent (listenerSetWriter ex_col 10) (listenerSetWriter ex_col 20) ex_route_resource
    (mkLS ["a"] (mkLSS [] [])) set_ls_status = None.
Proof.
  split; [vm_compute; reflexivity|]. apply listener_set_writer_idempotent.
  intros sr r Hsr Hr. destruct (ex_report_of sr Hsr) as (_ & Hl & _). rewrite Hl in Hr. injection Hr as <-.
  split; [constructor|apply map_Forall_empty].
Defined.

(** Another controller still reports the parent that this one has taken over. *)
Definition ex_taken_over : RouteObject :=
  mkRO [ex_ref "gw1"] [mkRPS (ex_ref "gw1") "other" [mkMC "Accepted" "False" "NoMatchingParent" "" 1 1]].

(** The builder takes the live conditions of a parent from the first entry with that
    reference, whoever wrote it.  With an entry of another controller for the same parent
    in a different state, the transition time of the default condition is the time of the
    build, and every event writes the status again. *)
Theorem shared_parent_write_loop :
  CheckWriterIdempotent (routeWriter ex_col "kgateway" 10 []) (routeWriter ex_col "kgateway" 20 [])
    ex_route_resource ex_taken_over (λ o st, mkRO (ro_parent_refs o) st) = Some NotIdempotent.
Proof. vm_compute. reflexivity. Qed.

End examples.
