(* ===== verification/WorkQueue.v ===== *)
(** * The status write queue (pkg/pluginsdk/statussync/workerpool.go)

    A queue of resource identities served by at most [maxWorkers] goroutines.  The
    operations of the queue are atomic (its mutex); a push holds the lock of the pool
    between its enqueue and the decision to start a worker, while workers dequeue and
    mark done without that lock.  A goroutine is a program counter, and the system is
    a step relation over the interleavings of pushes, workers and the shutdown. *)

From S2P Require Import Prelude.

Section queue.
Context {R : Type} `{Countable R}.

(** ** The queue *)

Record WorkQueue := mkWQ {
  q_queue : list R; q_pending : gset R; q_processing : gmap R bool; q_shutting : bool }.

Definition push_back (con : R) (p : WorkQueue) : WorkQueue :=
  mkWQ (q_queue p ++ [con]) ({[con]} ∪ q_pending p) (q_processing p) (q_shutting p).

Definition Enqueue (con : R) (p : WorkQueue) : WorkQueue :=
  if q_shutting p then p
  else match q_processing p !! con with
       | Some _ => mkWQ (q_queue p) (q_pending p) (<[con := true]> (q_processing p)) (q_shutting p)
       | None => if decide (con ∈ q_pending p) then p else push_back con p
       end.

Definition Dequeue (p : WorkQueue) : option (R * WorkQueue) :=
  match q_queue p with
  | [] => None
  | con :: rest =>
      Some (con, mkWQ rest (q_pending p ∖ {[con]}) (<[con := false]> (q_processing p)) (q_shutting p))
  end.

Definition MarkDone (con : R) (p : WorkQueue) : WorkQueue :=
  let requeue := default false (q_processing p !! con) in
  let p := mkWQ (q_queue p) (q_pending p) (delete con (q_processing p)) (q_shutting p) in
  if requeue && negb (q_shutting p) then push_back con p else p.

Definition ShutDown (p : WorkQueue) : WorkQueue := mkWQ [] ∅ ∅ true.

Definition Length (p : WorkQueue) : nat := length (q_queue p).

(** ** The pool *)

(** [wp_locked]: a push holds the lock of the pool. *)
Record WorkerPool := mkWP {
  wp_q : WorkQueue; wp_closing : bool; wp_count : nat; wp_max : nat; wp_locked : bool }.

Definition NewWorkerPool (maxWorkers : nat) : WorkerPool :=
  mkWP (mkWQ [] ∅ ∅ false) false 0 maxWorkers false.

Definition with_q (q : WorkQueue) (wp : WorkerPool) : WorkerPool :=
  mkWP q (wp_closing wp) (wp_count wp) (wp_max wp) (wp_locked wp).

(** Whether a worker is started, and the pool after that. *)
Definition maybeAddWorkerLocked (wp : WorkerPool) : WorkerPool * bool :=
  if (wp_max wp <=? wp_count wp)%nat || (Length (wp_q wp) =? 0)%nat then (wp, false)
  else (mkWP (wp_q wp) (wp_closing wp) (S (wp_count wp)) (wp_max wp) (wp_locked wp), true).

(** The program counter of a goroutine of the pool. *)
Inductive worker := AtCheck | AtDequeue | Working (r : R).

Inductive label := LPush (r : R) | LStart (r : R) | LClose | LNone.

#[global] Instance label_eq_dec : EqDecision label.
Proof. solve_decision. Defined.

(** One atomic action of a goroutine: its next program counter ([None]: it exits). *)
Definition worker_turn (w : worker) (wp : WorkerPool) : option (option worker * WorkerPool * label) :=
  match w with
  | AtCheck =>
      if wp_locked wp then None
      else if wp_closing wp || (Length (wp_q wp) =? 0)%nat then
        Some (None, mkWP (wp_q wp) (wp_closing wp) (pred (wp_count wp)) (wp_max wp) (wp_locked wp), LNone)
      else Some (Some AtDequeue, wp, LNone)
  | AtDequeue =>
      match Dequeue (wp_q wp) with
      | None => Some (Some AtCheck, wp, LNone)
      | Some (r, q) => Some (Some (Working r), with_q q wp, LStart r)
      end
  | Working r => Some (Some AtCheck, with_q (MarkDone r (wp_q wp)) wp, LNone)
  end.

Definition state : Type := WorkerPool * list worker.

(** The steps of the pool and its workers alone, given that [work] returns. *)
Inductive internal : label → state → state → Prop :=
| step_spawn wp ws wp' spawned :
    wp_locked wp = true → maybeAddWorkerLocked wp = (wp', spawned) →
    internal LNone (wp, ws)
      (mkWP (wp_q wp') (wp_closing wp') (wp_count wp') (wp_max wp') false,
       if spawned then ws ++ [AtCheck] else ws)
| step_worker wp ws1 w ws2 w' wp' l :
    worker_turn w wp = Some (w', wp', l) →
    internal l (wp, ws1 ++ w :: ws2) (wp', ws1 ++ option_list w' ++ ws2).

Inductive step : label → state → state → Prop :=
| step_internal l s s' : internal l s s' → step l s s'
| step_push r wp ws :
    wp_locked wp = false → wp_closing wp = false →
    step (LPush r) (wp, ws)
      (mkWP (Enqueue r (wp_q wp)) (wp_closing wp) (wp_count wp) (wp_max wp) true, ws)
| step_push_closing (r : R) wp ws :
    wp_locked wp = false → wp_closing wp = true → step LNone (wp, ws) (wp, ws)
| step_close wp ws :
    wp_locked wp = false →
    step LClose (wp, ws) (mkWP (ShutDown (wp_q wp)) true (wp_count wp) (wp_max wp) false, ws).

(** Runs, with their labels. *)
Inductive run (max : nat) : list label → state → Prop :=
| run_init : run max [] (NewWorkerPool max, [])
| run_step tr l s s' : run max tr s → step l s s' → run max (tr ++ [l]) s'.

(** ** Executing a schedule *)

Inductive command := DoPush (r : R) | DoSpawn | DoWorker (i : nat) | DoClose.

Definition exec (c : command) (s : state) : option (label * state) :=
  let '(wp, ws) := s in
  match c with
  | DoPush r =>
      if wp_locked wp then None
      else if wp_closing wp then Some (LNone, s)
      else Some (LPush r, (mkWP (Enqueue r (wp_q wp)) (wp_closing wp) (wp_count wp) (wp_max wp) true, ws))
  | DoSpawn =>
      if wp_locked wp then
        let '(wp', spawned) := maybeAddWorkerLocked wp in
        Some (LNone, (mkWP (wp_q wp') (wp_closing wp') (wp_count wp') (wp_max wp') false,
                      if spawned then ws ++ [AtCheck] else ws))
      else None
  | DoWorker i =>
      w ← ws !! i;
      '(w', wp', l) ← worker_turn w wp;
      Some (l, (wp', take i ws ++ option_list w' ++ drop (S i) ws))
  | DoClose =>
      if wp_locked wp then None
      else Some (LClose, (mkWP (ShutDown (wp_q wp)) true (wp_count wp) (wp_max wp) false, ws))
  end.

Fixpoint exec_all (cs : list command) (tr : list label) (s : state) : option (list label * state) :=
  match cs with
  | [] => Some (tr, s)
  | c :: cs => '(l, s') ← exec c s; exec_all cs (tr ++ [l]) s'
  end.

(** The resources pushed and not started since. *)
Definition owed_step (owed : gset R) (l : label) : gset R :=
  match l with
  | LPush r => {[r]} ∪ owed
  | LStart r => owed ∖ {[r]}
  | LClose => ∅
  | LNone => owed
  end.
Definition owed (tr : list label) : gset R := foldl owed_step ∅ tr.

Definition pushes (r : R) (tr : list label) : nat := length (filter (λ l, l = LPush r) tr).
Definition starts (r : R) (tr : list label) : nat := length (filter (λ l, l = LStart r) tr).

(** The resources being written. *)
Definition in_flight (ws : list worker) : list R :=
  omap (λ w, match w with Working r => Some r | _ => None end) ws.

(** ** The invariant *)

Record queue_ok (q : WorkQueue) (closing : bool) : Prop := {
  qo_nodup : NoDup (q_queue q);
  qo_pending : q_pending q = list_to_set (q_queue q);
  qo_disjoint : ∀ r, r ∈ q_queue q → q_processing q !! r = None;
  qo_shutting : q_shutting q = closing;
  qo_closed : closing = true → q_queue q = [] }.

Record pool_ok (tr : list label) (wp : WorkerPool) (ws : list worker) : Prop := {
  po_queue : queue_ok (wp_q wp) (wp_closing wp);
  po_flight : NoDup (in_flight ws);
  po_processing : wp_closing wp = false → ∀ r, is_Some (q_processing (wp_q wp) !! r) ↔ r ∈ in_flight ws;
  po_count : wp_count wp = length ws;
  po_max : (wp_count wp ≤ wp_max wp)%nat;
  po_served : wp_closing wp = false → wp_locked wp = false → (0 < wp_max wp)%nat →
    q_queue (wp_q wp) ≠ [] → ws ≠ [];
  po_owed : wp_closing wp = false →
    ∀ r, r ∈ owed tr → r ∈ q_queue (wp_q wp) ∨ q_processing (wp_q wp) !! r = Some true;
  po_starts : ∀ r,
    (starts r tr + (if decide (r ∈ q_queue (wp_q wp)) then 1 else 0) +
     (if decide (wp_closing wp = false ∧ q_processing (wp_q wp) !! r = Some true) then 1 else 0)
     ≤ pushes r tr)%nat }.

Lemma in_flight_app ws1 ws2 : in_flight (ws1 ++ ws2) = in_flight ws1 ++ in_flight ws2.
Proof. apply omap_app. Qed.

Lemma owed_snoc tr l : owed (tr ++ [l]) = owed_step (owed tr) l.
Proof. unfold owed. by rewrite foldl_app. Qed.

Lemma pushes_snoc r tr l : pushes r (tr ++ [l]) = (pushes r tr + (if decide (l = LPush r) then 1 else 0))%nat.
Proof. unfold pushes. rewrite filter_app, length_app, filter_cons, filter_nil. by case_decide. Qed.

Lemma starts_snoc r tr l : starts r (tr ++ [l]) = (starts r tr + (if decide (l = LStart r) then 1 else 0))%nat.
Proof. unfold starts. rewrite filter_app, length_app, filter_cons, filter_nil. by case_decide. Qed.

(** *** Operations of the queue *)

Lemma push_back_ok con q closing :
  queue_ok q closing → con ∉ q_queue q → q_processing q !! con = None → closing = false →
  queue_ok (push_back con q) closing.
Proof.
  intros [Hn Hp Hd Hs Hc] Hcon Hproc ->. split; simpl; [| | |done|done].
  - apply NoDup_app. split; [done|]. split; [set_solver|apply NoDup_singleton].
  - rewrite Hp, list_to_set_app_L. set_solver.
  - intros r Hr. apply elem_of_app in Hr as [Hr|Hr]; [by apply Hd|]. apply list_elem_of_singleton in Hr. by subst.
Qed.

Lemma Enqueue_cases con q closing :
  queue_ok q closing → closing = false →
  (is_Some (q_processing q !! con) ∧
     Enqueue con q = mkWQ (q_queue q) (q_pending q) (<[con := true]> (q_processing q)) (q_shutting q)) ∨
  (q_processing q !! con = None ∧ con ∈ q_queue q ∧ Enqueue con q = q) ∨
  (q_processing q !! con = None ∧ (con ∉ q_queue q) ∧ Enqueue con q = push_back con q).
Proof.
  intros [Hn Hp Hd Hs Hc] ->. unfold Enqueue. rewrite Hs.
  destruct (q_processing q !! con) eqn:Hq; [left; by eauto|]. right. rewrite Hp.
  case_decide as Hin; [left|right]; rewrite elem_of_list_to_set in Hin; done.
Qed.

Lemma Enqueue_ok con q closing : queue_ok q closing → closing = false → queue_ok (Enqueue con q) closing.
Proof.
  intros Hok Hc. destruct (Enqueue_cases con q closing Hok Hc) as [([? Hs] & ->)|[(_ & _ & ->)|(? & ? & ->)]];
    [|done|by apply push_back_ok].
  destruct Hok as [Hn Hp Hd Hsh Hcl]. split; simpl; try done.
  intros r Hr. rewrite lookup_insert_ne; [by apply Hd|]. intros <-. rewrite (Hd _ Hr) in Hs. done.
Qed.

Lemma Dequeue_ok q r q' closing :
  queue_ok q closing → Dequeue q = Some (r, q') →
  queue_ok q' closing ∧ closing = false ∧ q_queue q = r :: q_queue q' ∧
  q_processing q' = <[r := false]> (q_processing q).
Proof.
  intros [Hn Hp Hd Hs Hc]. unfold Dequeue. destruct (q_queue q) as [|con rest] eqn:Hq; [done|].
  intros [= <- <-]. simpl. apply NoDup_cons in Hn as [Hcon Hn].
  assert (closing = false) as -> by (destruct closing; [by specialize (Hc eq_refl)|done]).
  split; [|done]. split; simpl; [done| | |done|done].
  - rewrite Hp. simpl. apply set_eq. intros x. rewrite elem_of_difference, elem_of_union, elem_of_singleton,
      elem_of_list_to_set. split; [naive_solver|]. intros Hx. split; [by right|]. by intros ->.
  - intros x Hx. rewrite lookup_insert_ne by (by intros ->). apply Hd. by right.
Qed.

Lemma MarkDone_cases con q closing :
  queue_ok q closing →
  let p := mkWQ (q_queue q) (q_pending q) (delete con (q_processing q)) (q_shutting q) in
  queue_ok p closing ∧
  ((closing = false ∧ q_processing q !! con = Some true ∧ MarkDone con q = push_back con p) ∨
   ((closing = true ∨ q_processing q !! con ≠ Some true) ∧ MarkDone con q = p)).
Proof.
  intros Hok p. pose proof Hok as [Hn Hp Hd Hs Hc]. split.
  - split; simpl; try done. intros r Hr. rewrite lookup_delete_None. right. by apply Hd.
  - unfold MarkDone, p. rewrite Hs. destruct (q_processing q !! con) as [[|]|] eqn:Hq; simpl.
    + destruct closing; [right; split; [by left|done]|by left].
    + right. auto.
    + right. auto.
Qed.

(** *** Steps *)

Lemma starts_none r tr : starts r (tr ++ [LNone]) = starts r tr.
Proof. rewrite starts_snoc, decide_False by done. lia. Qed.

Lemma pushes_none r tr : pushes r (tr ++ [LNone]) = pushes r tr.
Proof. rewrite pushes_snoc, decide_False by done. lia. Qed.

(** A step that leaves the queue alone. *)
Lemma same_queue_ok tr wp ws wp' ws' :
  pool_ok tr wp ws → wp_q wp' = wp_q wp → wp_closing wp' = wp_closing wp → wp_max wp' = wp_max wp →
  in_flight ws' = in_flight ws → wp_count wp' = length ws' → (wp_count wp' ≤ wp_max wp)%nat →
  (wp_closing wp = false → wp_locked wp' = false → (0 < wp_max wp)%nat → q_queue (wp_q wp) ≠ [] → ws' ≠ []) →
  pool_ok (tr ++ [LNone]) wp' ws'.
Proof.
  intros [Hq Hf Hp Hc Hm Hs Ho Hst] Eq Ec Em Ef Hc' Hm' Hs'. split; rewrite ?Eq, ?Ec, ?Em, ?Ef; try done.
  - by rewrite owed_snoc.
  - intros r. rewrite starts_none, pushes_none. apply Hst.
Qed.

Lemma spawn_ok tr wp ws wp' spawned :
  pool_ok tr wp ws → maybeAddWorkerLocked wp = (wp', spawned) →
  pool_ok (tr ++ [LNone])
    (mkWP (wp_q wp') (wp_closing wp') (wp_count wp') (wp_max wp') false)
    (if spawned then ws ++ [AtCheck] else ws).
Proof.
  intros Hok Ha. pose proof Hok as [Hq Hf Hp Hc Hm Hs Ho Hst]. unfold maybeAddWorkerLocked in Ha.
  destruct ((wp_max wp <=? wp_count wp)%nat || (Length (wp_q wp) =? 0)%nat) eqn:Hb; injection Ha as <- <-.
  - apply (same_queue_ok tr wp ws); try done. simpl. intros _ _ Hmax Hne. apply orb_true_iff in Hb as [Hb|Hb].
    + apply Nat.leb_le in Hb. intros ->. simpl in Hc. lia.
    + exfalso. apply Nat.eqb_eq in Hb. unfold Length in Hb. by destruct (q_queue (wp_q wp)).
  - apply orb_false_iff in Hb as [Hb _]. apply Nat.leb_gt in Hb.
    apply (same_queue_ok tr wp ws); simpl; try done.
    + rewrite in_flight_app. simpl. by rewrite app_nil_r.
    + rewrite length_app. simpl. lia.
    + intros _ _ _ _. by destruct ws.
Qed.

Lemma check_ok tr wp ws1 ws2 w' wp' l :
  pool_ok tr wp (ws1 ++ AtCheck :: ws2) → worker_turn AtCheck wp = Some (w', wp', l) →
  l = LNone ∧ pool_ok (tr ++ [LNone]) wp' (ws1 ++ option_list w' ++ ws2).
Proof.
  intros Hok Ht. pose proof Hok as [Hq Hf Hp Hc Hm Hs Ho Hst]. simpl in Ht.
  destruct (wp_locked wp) eqn:Hl; [done|].
  assert (Hlen : wp_count wp = S (length (ws1 ++ ws2))) by (rewrite Hc, !length_app; simpl; lia).
  destruct (wp_closing wp || (Length (wp_q wp) =? 0)%nat) eqn:Hb; injection Ht as <- <- <-; (split; [done|]).
  - apply (same_queue_ok tr wp (ws1 ++ AtCheck :: ws2)); simpl; try done.
    + by rewrite !in_flight_app.
    + lia.
    + lia.
    + intros Hcl _ _ Hne. exfalso. rewrite Hcl in Hb. simpl in Hb. apply Nat.eqb_eq in Hb.
      unfold Length in Hb. by destruct (q_queue (wp_q wp)).
  - apply (same_queue_ok tr wp (ws1 ++ AtCheck :: ws2)); simpl; try done.
    + by rewrite !in_flight_app.
    + rewrite Hc, !length_app. simpl. lia.
    + intros _ _ _ _. by destruct ws1.
Qed.

Lemma dequeue_ok tr wp ws1 ws2 w' wp' l :
  pool_ok tr wp (ws1 ++ AtDequeue :: ws2) → worker_turn AtDequeue wp = Some (w', wp', l) →
  pool_ok (tr ++ [l]) wp' (ws1 ++ option_list w' ++ ws2).
Proof.
  intros Hok Ht. pose proof Hok as [Hq Hf Hp Hc Hm Hs Ho Hst]. simpl in Ht.
  destruct (Dequeue (wp_q wp)) as [[r q']|] eqn:Hd; injection Ht as <- <- <-.
  - destruct (Dequeue_ok _ _ _ _ Hq Hd) as (Hq' & Hcl & Hhead & Hproc).
    assert (Hr : q_processing (wp_q wp) !! r = None) by (apply (qo_disjoint _ _ Hq); rewrite Hhead; by left).
    assert (Hnf : r ∉ in_flight (ws1 ++ AtDequeue :: ws2)).
    { rewrite <- (Hp Hcl r), Hr. by intros [? ?]. }
    assert (Hfl : in_flight (ws1 ++ option_list (Some (Working r)) ++ ws2) ≡ₚ
      r :: in_flight (ws1 ++ AtDequeue :: ws2)).
    { rewrite !in_flight_app. simpl. symmetry. apply Permutation_middle. }
    pose proof (qo_nodup _ _ Hq) as Hnd. rewrite Hhead in Hnd. apply NoDup_cons in Hnd as [Hnr _].
    split; simpl; try done.
    + rewrite Hfl. by constructor.
    + intros _ x. rewrite Hproc, Hfl, elem_of_cons, <- (Hp Hcl x). destruct (decide (x = r)) as [->|Hne].
      * rewrite lookup_insert_eq. split; [by left|by eauto].
      * rewrite lookup_insert_ne by done. naive_solver.
    + rewrite Hc, !length_app. simpl. lia.
    + intros _ _ _ _. by destruct ws1.
    + intros _ x. rewrite owed_snoc. simpl. intros [Hx Hxr]%elem_of_difference.
      rewrite not_elem_of_singleton in Hxr. rewrite Hproc, lookup_insert_ne by done.
      destruct (Ho Hcl x Hx) as [Hin|Hin]; [|by right]. left. rewrite Hhead in Hin. by apply elem_of_cons in Hin as [?|?].
    + intros x. specialize (Hst x). rewrite starts_snoc, pushes_snoc, Hproc. rewrite Hhead in Hst.
      destruct (decide (x = r)) as [->|Hne].
      * rewrite lookup_insert_eq. rewrite decide_True in Hst by by left.
        rewrite (decide_True (P:=LStart r = LStart r)), (decide_False (P:=LStart r = LPush r)) by done.
        rewrite (decide_False (P:=r ∈ q_queue q')), (decide_False (P:=_ ∧ Some false = Some true)) by naive_solver.
        lia.
      * rewrite lookup_insert_ne by done.
        rewrite (decide_False (P:=LStart r = LStart x)), (decide_False (P:=LStart r = LPush x)) by congruence.
        destruct (decide (x ∈ q_queue q')) as [Hin|Hin].
        -- rewrite decide_True in Hst by by right. lia.
        -- rewrite decide_False in Hst by (rewrite elem_of_cons; naive_solver). lia.
  - apply (same_queue_ok tr wp (ws1 ++ AtDequeue :: ws2)); simpl; try done.
    + by rewrite !in_flight_app.
    + rewrite Hc, !length_app. simpl. lia.
    + intros _ _ _ _. by destruct ws1.
Qed.

Lemma done_ok tr wp ws1 r ws2 :
  pool_ok tr wp (ws1 ++ Working r :: ws2) →
  pool_ok (tr ++ [LNone]) (with_q (MarkDone r (wp_q wp)) wp) (ws1 ++ AtCheck :: ws2).
Proof.
  intros [Hq Hf Hp Hc Hm Hs Ho Hst].
  assert (Hfl : in_flight (ws1 ++ Working r :: ws2) ≡ₚ r :: in_flight (ws1 ++ AtCheck :: ws2)).
  { rewrite !in_flight_app. simpl. symmetry. apply Permutation_middle. }
  rewrite Hfl in Hf. apply NoDup_cons in Hf as [Hnr Hf].
  destruct (MarkDone_cases r (wp_q wp) (wp_closing wp) Hq) as [Hq' Hcases].
  set (p := mkWQ _ _ (delete r _) _) in *.
  assert (Hpp : wp_closing wp = false →
    ∀ x, is_Some (q_processing p !! x) ↔ x ∈ in_flight (ws1 ++ AtCheck :: ws2)).
  { intros Hcl x. specialize (Hp Hcl x). rewrite Hfl, elem_of_cons in Hp. simpl.
    destruct (decide (x = r)) as [->|Hne].
    - rewrite lookup_delete_eq. split; [by intros [? ?]|done].
    - rewrite lookup_delete_ne by done. rewrite Hp. naive_solver. }
  assert (Hlen : wp_count wp = length (ws1 ++ AtCheck :: ws2)) by (rewrite Hc, !length_app; done).
  destruct Hcases as [(Hcl & Hd & ->)|(Hd & ->)].
  - assert (Hnq : r ∉ q_queue p).
    { intros Hin. apply (qo_disjoint _ _ Hq) in Hin. congruence. }
    split; simpl; try done.
    + by apply push_back_ok; [|done|apply lookup_delete_eq|].
    + intros _ _ _ _. by destruct ws1.
    + intros _ x Hx. rewrite owed_snoc in Hx. destruct (decide (x = r)) as [->|Hne].
      * left. apply elem_of_app. right. by left.
      * rewrite lookup_delete_ne by done. destruct (Ho Hcl x Hx) as [Hin|Hin]; [|by right].
        left. apply elem_of_app. by left.
    + intros x. specialize (Hst x). rewrite starts_none, pushes_none.
      destruct (decide (x = r)) as [->|Hne].
      * rewrite lookup_delete_eq. rewrite (decide_False (P:=_ ∧ None = Some true)) by naive_solver.
        rewrite (decide_True (P:=r ∈ _ ++ [r])) by (apply elem_of_app; right; by left).
        rewrite (decide_False (P:=r ∈ q_queue (wp_q wp))), decide_True in Hst by done. lia.
      * rewrite lookup_delete_ne by done.
        rewrite (decide_ext (x ∈ q_queue (wp_q wp) ++ [r]) (x ∈ q_queue (wp_q wp))
          1 0) by (rewrite elem_of_app, list_elem_of_singleton; naive_solver).
        done.
  - split; simpl; try done.
    + intros _ _ _ _. by destruct ws1.
    + intros Hcl x Hx. rewrite owed_snoc in Hx. destruct (Ho Hcl x Hx) as [Hin|Hin]; [by left|].
      right. rewrite lookup_delete_ne; [done|]. intros <-. destruct Hd; congruence.
    + intros x. specialize (Hst x). rewrite starts_none, pushes_none.
      destruct (decide (x = r)) as [->|Hne]; [|by rewrite lookup_delete_ne].
      rewrite lookup_delete_eq, (decide_False (P:=_ ∧ None = Some true)) by naive_solver. lia.
Qed.

Lemma push_ok tr wp ws r :
  pool_ok tr wp ws → wp_locked wp = false → wp_closing wp = false →
  pool_ok (tr ++ [LPush r])
    (mkWP (Enqueue r (wp_q wp)) (wp_closing wp) (wp_count wp) (wp_max wp) true) ws.
Proof.
  intros [Hq Hf Hp Hc Hm Hs Ho Hst] Hl Hcl.
  pose proof (Enqueue_ok r _ _ Hq Hcl) as Hq'.
  destruct (Enqueue_cases r _ _ Hq Hcl) as [([b Hb] & Heq)|[(Hb & Hin & Heq)|(Hb & Hin & Heq)]];
    rewrite Heq in *; (split; simpl; try done).
  - intros _ x. rewrite <- (Hp Hcl x). destruct (decide (x = r)) as [->|Hne].
    + rewrite lookup_insert_eq, Hb. split; eauto.
    + by rewrite lookup_insert_ne.
  - intros _ x Hx. rewrite owed_snoc in Hx. simpl in Hx. destruct (decide (x = r)) as [->|Hne].
    + right. apply lookup_insert_eq.
    + rewrite lookup_insert_ne by done. apply Ho; set_solver.
  - intros x. specialize (Hst x). rewrite starts_snoc, pushes_snoc.
    rewrite (decide_False (P:=LPush r = LStart x)) by done. destruct (decide (x = r)) as [->|Hne].
    + rewrite (decide_True (P:=LPush r = LPush r)) by done.
      assert (r ∉ q_queue (wp_q wp)) as Hnq by (intros Hin; apply (qo_disjoint _ _ Hq) in Hin; congruence).
      rewrite (decide_False (P:=r ∈ _)) by done. rewrite (decide_False (P:=r ∈ _)) in Hst by done.
      repeat case_decide; lia.
    + rewrite lookup_insert_ne by done. lia.
  - intros _ x Hx. rewrite owed_snoc in Hx. simpl in Hx. apply elem_of_union in Hx as [Hx|Hx]; [|by apply Ho].
    apply elem_of_singleton in Hx as ->. by left.
  - intros x. specialize (Hst x). rewrite starts_snoc, pushes_snoc.
    rewrite (decide_False (P:=LPush r = LStart x)) by done. lia.
  - intros _ x Hx. rewrite owed_snoc in Hx. simpl in Hx. rewrite elem_of_app, list_elem_of_singleton.
    apply elem_of_union in Hx as [Hx|Hx]; [left; right; set_solver|].
    destruct (Ho Hcl x Hx); [left; by left|by right].
  - intros x. specialize (Hst x). rewrite starts_snoc, pushes_snoc.
    rewrite (decide_False (P:=LPush r = LStart x)) by done. destruct (decide (x = r)) as [->|Hne].
    + rewrite (decide_True (P:=LPush r = LPush r)) by done. repeat case_decide; lia.
    + rewrite (decide_ext (x ∈ q_queue (wp_q wp) ++ [r]) (x ∈ q_queue (wp_q wp)) 1 0)
        by (rewrite elem_of_app, list_elem_of_singleton; naive_solver). lia.
Qed.

Lemma close_ok tr wp ws :
  pool_ok tr wp ws →
  pool_ok (tr ++ [LClose]) (mkWP (ShutDown (wp_q wp)) true (wp_count wp) (wp_max wp) false) ws.
Proof.
  intros [Hq Hf Hp Hc Hm Hs Ho Hst]. split; simpl; try done.
  - split; simpl; try done. constructor.
  - intros x. specialize (Hst x). rewrite starts_snoc, pushes_snoc.
    repeat case_decide; try lia; naive_solver.
Qed.

Lemma init_ok max : pool_ok [] (NewWorkerPool max) [].
Proof.
  split; simpl; try done; try lia.
  - split; simpl; try done. constructor.
  - constructor.
  - intros _ r. rewrite lookup_empty. split; [by intros [? ?]|by rewrite elem_of_nil].
Qed.

Lemma internal_ok tr wp ws l wp' ws' :
  internal l (wp, ws) (wp', ws') → pool_ok tr wp ws → pool_ok (tr ++ [l]) wp' ws'.
Proof.
  inversion 1 as [? ? wp0 spawned Hl Ha|? ws1 w ws2 w' ? ? Ht]; subst; intros Hok.
  - by apply spawn_ok with (wp := wp).
  - destruct w as [| |r].
    + by destruct (check_ok tr wp ws1 ws2 w' wp' l Hok Ht) as [-> ?].
    + by apply dequeue_ok with (wp := wp).
    + simpl in Ht. injection Ht as <- <- <-. by apply done_ok.
Qed.

Lemma run_ok max tr s : run max tr s → pool_ok tr s.1 s.2 ∧ wp_max s.1 = max.
Proof.
  induction 1 as [|tr l s s' Hr [IH Hmax] Hstep]; [split; [apply init_ok|done]|].
  destruct Hstep as [l [wp ws] [wp' ws'] Hi|r wp ws Hl Hc|r wp ws Hl Hc|wp ws Hl]; simpl in *.
  - split; [by eapply internal_ok|]. inversion Hi as [? ? wp0 spawned Hl Ha|? ws1 w ws2 w' ? ? Ht]; subst; simpl.
    + unfold maybeAddWorkerLocked in Ha. by case_match; simplify_eq.
    + destruct w; simpl in Ht; repeat case_match; by simplify_eq.
  - split; [by apply push_ok|done].
  - split; [|done]. destruct IH as [Hq Hf Hp Hc' Hm Hs Ho Hst]. split; try done.
    + by rewrite owed_snoc.
    + intros x. rewrite starts_none, pushes_none. apply Hst.
  - split; [by apply close_ok|done].
Qed.

(** ** Termination

    Without new pushes the pool does finitely much: an item counts twice while it waits,
    once while it is written, and a dirty mark three times; among steps that change none
    of these, workers only move towards the dequeue while there are items and towards the
    exit when there are none. *)

Definition dirty (q : WorkQueue) : nat := size (filter (λ kv, kv.2 = true) (q_processing q)).

Definition is_check (w : worker) : nat := match w with AtCheck => 1 | _ => 0 end.
Definition is_dequeue (w : worker) : nat := match w with AtDequeue => 1 | _ => 0 end.
Definition is_working (w : worker) : nat := match w with Working _ => 1 | _ => 0 end.

Definition load (s : state) : nat :=
  2 * Length (wp_q s.1) + 3 * dirty (wp_q s.1) + sum_list_with is_working s.2.

Definition distance (s : state) : nat :=
  (if decide (q_queue (wp_q s.1) = []) then 2 * sum_list_with is_dequeue s.2 else 0) +
  sum_list_with is_check s.2.

Definition locked_one (s : state) : nat := if wp_locked s.1 then 1 else 0.

Definition measure (s : state) : nat :=
  load s * (2 * (length s.2 + locked_one s) + 1) + distance s + 2 * locked_one s.

Lemma distance_bound s : (distance s ≤ 2 * length s.2)%nat.
Proof.
  unfold distance. assert (sum_list_with is_dequeue s.2 + sum_list_with is_check s.2 ≤ length s.2)%nat as Hb.
  { induction s.2 as [|[| |r] ws IH]; simpl in *; lia. }
  case_decide; lia.
Qed.

Lemma dirty_delete r q :
  (dirty (mkWQ (q_queue q) (q_pending q) (delete r (q_processing q)) (q_shutting q)) +
   (if decide (q_processing q !! r = Some true) then 1 else 0) = dirty q)%nat.
Proof.
  unfold dirty. simpl. rewrite map_filter_delete, map_size_delete.
  assert (filter (λ kv : R * bool, kv.2 = true) (q_processing q) !! r =
    if decide (q_processing q !! r = Some true) then Some true else None) as ->.
  { case_decide as Hr; [by apply map_lookup_filter_Some|]. apply map_lookup_filter_None.
    destruct (q_processing q !! r) as [[|]|] eqn:Hq; [done| |by left]. right. by intros b [= <-]. }
  case_decide as Hr; [|unfold id; lia].
  assert (size (filter (λ kv : R * bool, kv.2 = true) (q_processing q)) ≠ 0)%nat.
  { intros Hz. apply map_size_empty_inv in Hz. assert (filter (λ kv : R * bool, kv.2 = true) (q_processing q) !! r = Some true)
      as Hl by by apply map_lookup_filter_Some. rewrite Hz, lookup_empty in Hl. done. }
  lia.
Qed.

Lemma dirty_insert_false r p q :
  q_processing q = <[r := false]> (q_processing p) → (dirty q ≤ dirty p)%nat.
Proof.
  intros Hq. pose proof (dirty_delete r p) as Hd. unfold dirty in *. simpl in Hd.
  rewrite Hq, map_filter_insert_False by done. case_decide; lia.
Qed.

Lemma measure_load s s' :
  (load s' < load s)%nat → length s'.2 = length s.2 → wp_locked s'.1 = wp_locked s.1 →
  (measure s' < measure s)%nat.
Proof.
  intros Hl Hlen Hlock. unfold measure, locked_one. rewrite Hlen, Hlock.
  pose proof (distance_bound s'). rewrite Hlen in *. destruct (wp_locked s.1); nia.
Qed.

Lemma turn_measure wp ws1 w ws2 w' wp' l :
  worker_turn w wp = Some (w', wp', l) →
  (measure (wp', ws1 ++ option_list w' ++ ws2) < measure (wp, ws1 ++ w :: ws2))%nat.
Proof.
  intros Ht. destruct w as [| |r]; simpl in Ht.
  - destruct (wp_locked wp) eqn:Hl; [done|].
    destruct (wp_closing wp || (Length (wp_q wp) =? 0)%nat) eqn:Hb; injection Ht as <- <- _.
    + unfold measure, load, distance, locked_one. simpl. rewrite Hl, !sum_list_with_app, !length_app. simpl.
      case_decide; nia.
    + unfold measure, load, distance, locked_one. simpl. rewrite Hl, !sum_list_with_app, !length_app. simpl.
      apply orb_false_iff in Hb as [_ Hb]. apply Nat.eqb_neq in Hb. unfold Length in Hb.
      rewrite !decide_False by (intros Hq; by rewrite Hq in Hb). nia.
  - unfold Dequeue in Ht. destruct (q_queue (wp_q wp)) as [|r rest] eqn:Hq; injection Ht as <- <- _.
    + unfold measure, load, distance, locked_one. simpl. rewrite Hq, !sum_list_with_app, !length_app. simpl.
      lia.
    + apply measure_load; simpl; [|rewrite !length_app; done|done].
      unfold load, Length. simpl. rewrite Hq, !sum_list_with_app. simpl.
      assert (dirty (mkWQ rest (q_pending (wp_q wp) ∖ {[r]}) (<[r:=false]> (q_processing (wp_q wp)))
        (q_shutting (wp_q wp))) ≤ dirty (wp_q wp))%nat by by eapply dirty_insert_false. lia.
  - injection Ht as <- <- _. apply measure_load; simpl; [|rewrite !length_app; done|done].
    unfold load. simpl. rewrite !sum_list_with_app. simpl. pose proof (dirty_delete r (wp_q wp)) as Hd.
    set (p := mkWQ _ _ (delete r _) _) in *.
    assert (dirty (push_back r p) = dirty p ∧ Length (push_back r p) = S (Length (wp_q wp)) ∧
      Length p = Length (wp_q wp)) as (Hpd & Hpl & Hl).
    { split; [done|]. split; [|done]. unfold Length. simpl. rewrite length_app. simpl. lia. }
    unfold MarkDone. fold p. destruct (q_processing (wp_q wp) !! r) as [[|]|] eqn:Hq; cbn [default from_option id andb].
    + rewrite decide_True in Hd by done. destruct (negb _); lia.
    + rewrite decide_False in Hd by done. lia.
    + rewrite decide_False in Hd by done. lia.
Qed.

Lemma internal_measure l s s' : internal l s s' → (measure s' < measure s)%nat.
Proof.
  destruct 1 as [wp ws wp' spawned Hl Ha|wp ws1 w ws2 w' wp' l Ht]; [|by eapply turn_measure].
  unfold maybeAddWorkerLocked in Ha. case_match; injection Ha as <- <-.
  - unfold measure, load, distance, locked_one. simpl. rewrite Hl. nia.
  - unfold measure, load, distance, locked_one. simpl. rewrite Hl, !sum_list_with_app, length_app. simpl.
    case_decide; nia.
Qed.

(** *** Schedules are runs *)

Lemma exec_step c s l s' : exec c s = Some (l, s') → step l s s'.
Proof.
  destruct s as [wp ws]. destruct c as [r| |i|]; simpl.
  - destruct (wp_locked wp) eqn:Hl; [done|]. destruct (wp_closing wp) eqn:Hc; intros [= <- <-].
    + by apply (step_push_closing r).
    + rewrite <- Hc. by apply step_push.
  - destruct (wp_locked wp) eqn:Hl; [|done]. destruct (maybeAddWorkerLocked wp) as [wp' b] eqn:Ha.
    intros [= <- <-]. apply step_internal. by eapply step_spawn.
  - destruct (ws !! i) as [w|] eqn:Hw; [|done]. simpl.
    destruct (worker_turn w wp) as [[[w' wp'] l']|] eqn:Ht; [|done]. simpl. intros [= <- <-].
    apply step_internal. rewrite <- (take_drop_middle ws i w Hw) at 1. by apply step_worker.
  - destruct (wp_locked wp) eqn:Hl; [done|]. intros [= <- <-]. by apply step_close.
Qed.

Lemma exec_all_run max cs tr s tr' s' :
  run max tr s → exec_all cs tr s = Some (tr', s') → run max tr' s'.
Proof.
  revert tr s. induction cs as [|c cs IH]; intros tr s Hr; simpl; [by intros [= <- <-]|].
  destruct (exec c s) as [[l s'']|] eqn:He; [|done]. simpl. apply IH. econstructor; [done|by eapply exec_step].
Qed.

(** ** Theorems *)

(** At most one write per resource is in flight, at most [maxWorkers] goroutines run,
    and no write is started without a request for it: in every interleaving of pushes,
    workers and shutdown. *)
Theorem single_writer_per_resource max tr wp ws :
  run max tr (wp, ws) →
  NoDup (in_flight ws) ∧ (length ws ≤ max)%nat ∧ ∀ r, (starts r tr ≤ pushes r tr)%nat.
Proof.
  intros Hr. destruct (run_ok _ _ _ Hr) as [[Hq Hf Hp Hc Hm Hs Ho Hst] Hmax]. simpl in *.
  split; [done|]. split; [lia|]. intros r. specialize (Hst r). lia.
Qed.

(** C13: No request is lost: until the pool closes, a resource pushed since its last write
    started is waiting in the queue or marked for one more write after the current one. *)
Theorem no_request_lost max tr wp ws r :
  run max tr (wp, ws) → wp_closing wp = false → r ∈ owed tr →
  r ∈ q_queue (wp_q wp) ∨ (r ∈ in_flight ws ∧ q_processing (wp_q wp) !! r = Some true).
Proof.
  intros Hr Hc Ho. destruct (run_ok _ _ _ Hr) as [Hok _]. simpl in Hok.
  destruct (po_owed _ _ _ Hok Hc r Ho) as [?|Hd]; [by left|]. right. split; [|done].
  apply (po_processing _ _ _ Hok Hc r). eauto.
Qed.

(** Runs of the pool and its workers alone. *)
Inductive internal_run : list label → state → state → Prop :=
| internal_nil s : internal_run [] s s
| internal_cons l s s' tr s'' : internal l s s' → internal_run tr s' s'' → internal_run (l :: tr) s s''.

Definition quiescent (s : state) : Prop := ∀ l s', ¬ internal l s s'.

(** A goroutine can always move when no push holds the lock. *)
Lemma turn_total w wp : wp_locked wp = false → is_Some (worker_turn w wp).
Proof. intros Hl. destruct w; simpl; rewrite ?Hl; repeat case_match; eauto. Qed.

Lemma quiescent_idle wp ws : quiescent (wp, ws) → wp_locked wp = false ∧ ws = [].
Proof.
  intros Hq. destruct (wp_locked wp) eqn:Hl.
  - exfalso. destruct (maybeAddWorkerLocked wp) as [wp' b] eqn:Ha. by eapply Hq, step_spawn.
  - split; [done|]. destruct ws as [|w ws]; [done|]. exfalso.
    destruct (turn_total w wp Hl) as [[[w' wp'] l] Ht]. by eapply Hq, (step_worker wp [] w ws).
Qed.

Lemma idle_quiescent wp : wp_locked wp = false → quiescent (wp, []).
Proof.
  intros Hl l s' Hi. inversion Hi as [? ? ? ? Hl' _|? ws1 ? ? ? ? ? _ Hw]; subst; [congruence|].
  by destruct ws1.
Qed.

Lemma run_internal max tr s tr' s' : run max tr s → internal_run tr' s s' → run max (tr ++ tr') s'.
Proof.
  intros Hr Hi. revert tr Hr. induction Hi as [s|l s s' tr' s'' Hl _ IH]; intros tr Hr; [by rewrite app_nil_r|].
  replace (tr ++ l :: tr') with ((tr ++ [l]) ++ tr') by by rewrite <- app_assoc.
  apply IH. econstructor; [done|by constructor].
Qed.

(** C12: The pool drains: from any reachable state, when pushes stop and each write returns,
    every execution of the workers is finite, of length at most [measure]; and once no
    worker can move, all goroutines have exited, the queue is empty and, unless the pool
    closed, every request ever made has been served by a write started after it. *)
Theorem pool_drains max tr s tr' s' :
  run max tr s → internal_run tr' s s' →
  (length tr' ≤ measure s)%nat ∧
  (quiescent s' → s'.2 = [] ∧
    ((0 < max)%nat → wp_closing s'.1 = false → q_queue (wp_q s'.1) = [] ∧ owed (tr ++ tr') = ∅)).
Proof.
  intros Hr Hi. split.
  - clear Hr. induction Hi as [s|l s s' tr' s'' Hl _ IH]; simpl; [lia|].
    apply internal_measure in Hl. lia.
  - intros Hq. destruct (run_ok _ _ _ (run_internal _ _ _ _ _ Hr Hi)) as [Hok Hmax].
    destruct s' as [wp ws]. destruct (quiescent_idle wp ws Hq) as [Hl ->]. simpl in *. split; [done|].
    intros Hm Hc. assert (He : q_queue (wp_q wp) = []).
    { apply dec_stable. intros Hne. by apply (po_served _ _ _ Hok Hc Hl); [lia|..]. }
    split; [done|]. apply set_eq. intros r. split; [|set_solver]. intros Ho.
    destruct (po_owed _ _ _ Hok Hc r Ho) as [Hin|Hd]; [rewrite He in Hin; set_solver|].
    assert (r ∈ in_flight []) as Hin by (apply (po_processing _ _ _ Hok Hc r); eauto). set_solver.
Qed.

End queue.
Arguments worker : clear implicits. Arguments label : clear implicits.
Arguments command : clear implicits. Arguments WorkQueue R {_ _}. Arguments WorkerPool R {_ _}. Arguments state R {_ _}.

(** ** Examples *)

(** [a] is requested again while it is being written, [b] waits; one worker. *)
Definition ex_schedule : list (command string) :=
  [DoPush "a"; DoSpawn; DoWorker 0; DoWorker 0; DoPush "a"; DoSpawn; DoPush "b"; DoSpawn].

(** The worker serves [b], then [a] again, and exits. *)
Definition ex_drain : list (command string) :=
  [DoWorker 0; DoWorker 0; DoWorker 0; DoWorker 0; DoWorker 0; DoWorker 0; DoWorker 0; DoWorker 0].

Definition ex_run : list (label string) * state string :=
  default ([], (NewWorkerPool 1, [])) (exec_all ex_schedule [] (NewWorkerPool 1, [])).

Lemma ex_run_ok : run 1 ex_run.1 ex_run.2.
Proof.
  apply (exec_all_run 1 ex_schedule [] (NewWorkerPool 1, [])); [constructor|]. vm_compute. reflexivity.
Qed.

Lemma single_writer_per_resource_witness :
  in_flight ex_run.2.2 = ["a"] ∧ (starts "a" ex_run.1 ≤ pushes "a" ex_run.1)%nat.
Proof.
  split; [vm_compute; reflexivity|].
  apply (single_writer_per_resource 1 ex_run.1 ex_run.2.1 ex_run.2.2). apply ex_run_ok.
Defined.

Lemma no_request_lost_witness :
  "a" ∈ q_queue (wp_q ex_run.2.1) ∨
  ("a" ∈ in_flight ex_run.2.2 ∧ q_processing (wp_q ex_run.2.1) !! "a" = Some true).
Proof.
  apply (no_request_lost 1 ex_run.1 ex_run.2.1 ex_run.2.2 "a"); [apply ex_run_ok|vm_compute; reflexivity|].
  vm_compute. reflexivity.
Defined.

(** The same schedule as internal steps only. *)
Lemma exec_worker_internal {R} `{Countable R} i (s : state R) l s' :
  exec (DoWorker i) s = Some (l, s') → internal l s s'.
Proof.
  destruct s as [wp ws]. simpl. destruct (ws !! i) as [w|] eqn:Hw; [|done]. simpl.
  destruct (worker_turn w wp) as [[[w' wp'] l']|] eqn:Ht; [|done]. simpl. intros [= <- <-].
  rewrite <- (take_drop_middle ws i w Hw) at 1. by apply step_worker.
Qed.

Lemma exec_workers_internal {R} `{Countable R} n tr (s : state R) tr' s' :
  exec_all (replicate n (DoWorker 0)) tr s = Some (tr', s') → ∃ tl, tr' = tr ++ tl ∧ internal_run tl s s'.
Proof.
  revert tr s. induction n as [|n IH]; intros tr s; cbn [replicate exec_all].
  - intros [= <- <-]. exists []. split; [by rewrite app_nil_r|constructor].
  - destruct (exec (DoWorker 0) s) as [[l s'']|] eqn:He; [|done]. cbn [mbind option_bind].
    intros Hx. destruct (IH _ _ Hx) as (tl & -> & Hi).
    exists (l :: tl). split; [by rewrite <- app_assoc|]. econstructor; [by eapply exec_worker_internal|done].
Qed.

Lemma pool_drains_witness :
  ∃ tr' s', internal_run tr' ex_run.2 s' ∧ (length tr' ≤ measure ex_run.2)%nat ∧
    owed (ex_run.1 ++ tr') = ∅.
Proof.
  assert (match exec_all ex_drain ex_run.1 ex_run.2 with
          | Some (_, (wp, [])) => negb (wp_locked wp) && negb (wp_closing wp) | _ => false end = true) as Ht
    by (vm_compute; reflexivity).
  destruct (exec_all ex_drain ex_run.1 ex_run.2) as [[tr2 [wp [|w ws]]]|] eqn:Hx; [|discriminate Ht..].
  apply andb_true_iff in Ht as [Hl Hc]. apply negb_true_iff in Hl, Hc.
  destruct (exec_workers_internal 8 ex_run.1 ex_run.2 tr2 _ Hx) as (tl & Htl & Hi).
  exists tl, (wp, []). split; [exact Hi|].
  destruct (pool_drains 1 ex_run.1 ex_run.2 tl (wp, []) ex_run_ok Hi) as [Hlen Hq]. split; [exact Hlen|].
  apply (Hq (idle_quiescent wp Hl)); [lia|exact Hc].
Defined.
