(* ===== verification/Hashing.v ===== *)
(** * Hashes (pkg/kgateway/utils/hash.go, pkg/utils/kubeutils/dns.go)

    The 64-bit hashes that version the collections: FNV-1 and FNV-1a over bytes, the
    order-independent hashes of label maps and protobuf structs, and the truncation of
    gateway names to label values, which uses SHA-256.  A hash state is the 64-bit sum as
    an integer, and every operation wraps at its width. *)

From S2P Require Import Prelude.

(** ** Bytes and machine words *)

Definition u64 (z : Z) : Z := (z mod 2 ^ 64)%Z.
Definition u32 (z : Z) : Z := (z mod 2 ^ 32)%Z.

Definition byte_of (a : Ascii.ascii) : Z := Z.of_N (Ascii.N_of_ascii a).

Fixpoint bytes_of (s : string) : list Z :=
  match s with EmptyString => [] | String a s' => byte_of a :: bytes_of s' end.

(** [binary.LittleEndian.PutUint64], and the value the bytes stand for. *)
Fixpoint le_bytes (n : nat) (z : Z) : list Z :=
  match n with O => [] | S n => (z mod 256)%Z :: le_bytes n (z / 256)%Z end.

Fixpoint le_value (l : list Z) : Z :=
  match l with [] => 0%Z | b :: l => (b + 256 * le_value l)%Z end.

Definition byte_range (b : Z) : Prop := (0 ≤ b < 256)%Z.
Definition u64_range (z : Z) : Prop := (0 ≤ z < 2 ^ 64)%Z.

(** ** [hash.Hash64] *)

(** A new hash and the effect of one byte. *)
Record Hash64 := mkHash { h_new : Z; h_byte : Z → Z → Z }.

Definition Write (H : Hash64) (h : Z) (bs : list Z) : Z := foldl (h_byte H) h bs.
Definition write_string (H : Hash64) (h : Z) (s : string) : Z := Write H h (bytes_of s).

Definition fnv_offset : Z := 14695981039346656037.
Definition fnv_prime : Z := 1099511628211.

(** [fnv.New64]: multiply, then xor.  [fnv.New64a]: xor, then multiply. *)
Definition fnv64 : Hash64 := mkHash fnv_offset (λ h b, Z.lxor (u64 (h * fnv_prime)) b).
Definition fnv64a : Hash64 := mkHash fnv_offset (λ h b, u64 (Z.lxor h b * fnv_prime)).

(** ** hash.go *)

Definition HashString (s : string) : Z := write_string fnv64a (h_new fnv64a) s.

Definition HashStringField (H : Hash64) (hasher : Z) (value : string) : Z :=
  Write H (write_string H hasher value) [0%Z].

Definition HashUint64 (H : Hash64) (hasher : Z) (value : Z) : Z := Write H hasher (le_bytes 8 value).

(** The contribution of one label; a map is visited in an arbitrary order, here that of
    a list of its entries. *)
Definition label_hash (kv : string * string) : Z :=
  HashStringField fnv64 (HashStringField fnv64 (h_new fnv64) kv.1) kv.2.

Definition hash_labels_in (order : list (string * string)) : Z :=
  foldl (λ finalHash kv, Z.lxor finalHash (label_hash kv)) 0%Z order.

Definition HashLabels (labels : gmap string string) : Z := hash_labels_in (map_to_list labels).

(** A protobuf [Value]; a number is given by the bits of its float64, [VUnset] is a value
    without a kind, and a struct by its fields in the order they are visited. *)
Inductive Value :=
| VNull
| VNumber (bits : Z)
| VString (s : string)
| VBool (b : bool)
| VStruct (fields : list (string * Value))
| VList (values : list Value)
| VUnset.

Section value_hash.
Context (newhash : Hash64).

Fixpoint hashValue (h : Z) (value : Value) : option Z :=
  match value with
  | VNull => Some (write_string newhash h "null")
  | VNumber bits => Some (HashUint64 newhash h bits)
  | VString s => Some (write_string newhash h s)
  | VBool b => Some (write_string newhash h (if b then "true" else "false"))
  | VStruct fields =>
      HashUint64 newhash h <$>
        (fix fields_hash (finalHash : Z) (l : list (string * Value)) : option Z :=
           match l with
           | [] => Some finalHash
           | (key, v) :: l =>
               match hashValue (write_string newhash (h_new newhash) key) v with
               | Some sum => fields_hash (Z.lxor finalHash sum) l
               | None => None
               end
           end) 0%Z fields
  | VList values =>
      (fix values_hash (h : Z) (l : list Value) : option Z :=
         match l with
         | [] => Some h
         | v :: l => match hashValue h v with Some h' => values_hash h' l | None => None end
         end) h values
  | VUnset => None
  end.

(** [None] is the panic on a value of unknown kind. *)
Definition HashProtoStruct (fields : list (string * Value)) : option Z :=
  foldM (λ finalHash kv,
           sum ← hashValue (write_string newhash (h_new newhash) kv.1) kv.2;
           Some (Z.lxor finalHash sum)) 0%Z fields.

Definition HashMetadata (md : option (list (string * list (string * Value)))) : option Z :=
  match md with
  | None => Some 0%Z
  | Some filters =>
      foldM (λ finalHash kv,
               inner ← HashProtoStruct kv.2;
               Some (Z.lxor finalHash
                       (HashUint64 newhash (write_string newhash (h_new newhash) kv.1) inner)))
            0%Z filters
  end.
End value_hash.

(** ** SHA-256 *)

Definition add32 (a b : Z) : Z := u32 (a + b).
Definition rotr (x n : Z) : Z := Z.lor (Z.shiftr x n) (u32 (Z.shiftl x (32 - n))).
Definition not32 (x : Z) : Z := (2 ^ 32 - 1 - x)%Z.

(** The constants are the first 32 bits of the fractional parts of the cube roots (square
    roots for the initial state) of the first primes. *)
Definition is_prime (n : nat) : bool := forallb (λ d, negb (n mod d =? 0)%nat) (seq 2 (n - 2)).
Definition primes : list Z := map Z.of_nat (List.filter is_prime (seq 2 310)).

Fixpoint cube_root (bits : nat) (z acc : Z) : Z :=
  match bits with
  | O => acc
  | S b => let acc' := (acc + 2 ^ Z.of_nat b)%Z in
           cube_root b z (if (acc' * acc' * acc' <=? z)%Z then acc' else acc)
  end.

Definition sha_k : list Z := map (λ p, u32 (cube_root 35 (p * 2 ^ 96) 0)) primes.

Record sha_state := mkSha { sa : Z; sb : Z; sc : Z; sd : Z; se : Z; sf : Z; sg : Z; sh : Z }.

Definition sha_init : sha_state :=
  let root i := u32 (Z.sqrt (nth i primes 0 * 2 ^ 64)%Z) in
  mkSha (root 0) (root 1) (root 2) (root 3) (root 4) (root 5) (root 6) (root 7).

(** The message schedule, latest word first. *)
Definition schedule_step (r : list Z) : list Z :=
  let w i := nth i r 0%Z in
  let s0 := Z.lxor (Z.lxor (rotr (w 14) 7) (rotr (w 14) 18)) (Z.shiftr (w 14) 3) in
  let s1 := Z.lxor (Z.lxor (rotr (w 1) 17) (rotr (w 1) 19)) (Z.shiftr (w 1) 10) in
  add32 (add32 (w 15) s0) (add32 (w 6) s1) :: r.

Definition schedule (block : list Z) : list Z := reverse (Nat.iter 48 schedule_step (reverse block)).

Definition sha_round (s : sha_state) (kw : Z * Z) : sha_state :=
  let S1 := Z.lxor (Z.lxor (rotr (se s) 6) (rotr (se s) 11)) (rotr (se s) 25) in
  let ch := Z.lxor (Z.land (se s) (sf s)) (Z.land (not32 (se s)) (sg s)) in
  let t1 := u32 (sh s + S1 + ch + kw.1 + kw.2) in
  let S0 := Z.lxor (Z.lxor (rotr (sa s) 2) (rotr (sa s) 13)) (rotr (sa s) 22) in
  let maj := Z.lxor (Z.lxor (Z.land (sa s) (sb s)) (Z.land (sa s) (sc s))) (Z.land (sb s) (sc s)) in
  mkSha (u32 (t1 + S0 + maj)) (sa s) (sb s) (sc s) (add32 (sd s) t1) (se s) (sf s) (sg s).

Definition sha_block (s : sha_state) (block : list Z) : sha_state :=
  let r := foldl sha_round s (zip sha_k (schedule block)) in
  mkSha (add32 (sa s) (sa r)) (add32 (sb s) (sb r)) (add32 (sc s) (sc r)) (add32 (sd s) (sd r))
        (add32 (se s) (se r)) (add32 (sf s) (sf r)) (add32 (sg s) (sg r)) (add32 (sh s) (sh r)).

Fixpoint be_words (n : nat) (l : list Z) : list Z :=
  match n, l with
  | S n, a :: b :: c :: d :: l => (((a * 256 + b) * 256 + c) * 256 + d)%Z :: be_words n l
  | _, _ => []
  end.

Definition sha_pad (bs : list Z) : list Z :=
  let n := length bs in
  bs ++ [128%Z] ++ replicate ((119 - n mod 64) mod 64) 0%Z ++ reverse (le_bytes 8 (8 * Z.of_nat n)).

Fixpoint sha_blocks (n : nat) (s : sha_state) (words : list Z) : sha_state :=
  match n with O => s | S n => sha_blocks n (sha_block s (take 16 words)) (drop 16 words) end.

Definition sha256 (s : string) : sha_state :=
  let bs := sha_pad (bytes_of s) in
  sha_blocks (length bs / 64) sha_init (be_words (length bs) bs).

Definition hex_digit (d : Z) : Ascii.ascii :=
  Ascii.ascii_of_N (Z.to_N (if d <? 10 then 48 + d else 87 + d)%Z).

Fixpoint hex (n : nat) (z : Z) : string :=
  match n with O => "" | S n => hex n (z / 16)%Z +:+ String (hex_digit (z mod 16)%Z) "" end.

(** [hex.EncodeToString] of the digest. *)
Definition sha256_hex (s : string) : string :=
  let r := sha256 s in
  join "" (map (hex 8) [sa r; sb r; sc r; sd r; se r; sf r; sg r; sh r]).

(** ** dns.go *)

Definition maxLabelLength : nat := 63.
Definition truncateLength : nat := 50.
Definition hashLength : nat := 12.

Definition trim_suffix (s suf : string) : string :=
  if has_suffix s suf then String.substring 0 (String.length s - String.length suf) s else s.

Definition SafeGatewayLabelValue (name : string) : string :=
  if (String.length name <=? maxLabelLength)%nat then name
  else
    let hashStr := String.substring 0 hashLength (sha256_hex name) in
    let truncated := trim_suffix (String.substring 0 truncateLength name) "-" in
    truncated +:+ "-" +:+ hashStr.

(** ** Test vectors: those of dns_test.go, of FIPS 180 and of the FNV specification *)

Example sha256_abc :
  sha256_hex "abc" = "ba7816bf8f01cfea414140de5dae2223b00361a396177a9cb410ff61f20015ad".
Proof. vm_compute. reflexivity. Qed.

Example safe_label_long :
  SafeGatewayLabelValue "this-is-a-very-long-gateway-name-that-exceeds-sixty-three-characters-long"
  = "this-is-a-very-long-gateway-name-that-exceeds-sixt-42d6992a3ffd".
Proof. vm_compute. reflexivity. Qed.

Example safe_label_65 :
  SafeGatewayLabelValue "abcdefghijklmnopqrstuvwxyzabcdefghijklmnopqrstuvwxyz1234567890123"
  = "abcdefghijklmnopqrstuvwxyzabcdefghijklmnopqrstuvwx-fa41f1dd8585".
Proof. vm_compute. reflexivity. Qed.

Example fnv_vectors : HashString "a" = 0xaf63dc4c8601ec8c%Z ∧ write_string fnv64 fnv_offset "a" = 0xaf63bd4c8601b7be%Z.
Proof. vm_compute. split; reflexivity. Qed.

(** ** Bounds *)

Lemma byte_of_range a : byte_range (byte_of a).
Proof. destruct a as [[] [] [] [] [] [] [] []]; vm_compute; split; congruence. Qed.

Lemma bytes_of_range s : Forall byte_range (bytes_of s).
Proof. induction s; simpl; auto using byte_of_range. Qed.

Lemma le_bytes_range n z : Forall byte_range (le_bytes n z).
Proof.
  revert z; induction n as [|n IH]; intros z; simpl; [done|].
  constructor; [apply Z.mod_pos_bound; lia|apply IH].
Qed.

(** Xor stays within a width. *)
Lemma lxor_range n a b :
  (0 ≤ n)%Z → (0 ≤ a < 2 ^ n)%Z → (0 ≤ b < 2 ^ n)%Z → (0 ≤ Z.lxor a b < 2 ^ n)%Z.
Proof.
  intros Hn Ha Hb. split; [apply Z.lxor_nonneg; lia|].
  assert (Z.lxor a b = Z.lxor a b mod 2 ^ n)%Z as ->; [|apply Z.mod_pos_bound; lia].
  apply Z.bits_inj'; intros i Hi.
  destruct (Z.ltb_spec i n) as [Hlt|Hge].
  - by rewrite Z.mod_pow2_bits_low by lia.
  - rewrite Z.mod_pow2_bits_high by lia. rewrite Z.lxor_spec.
    rewrite <-(Z.mod_small a (2 ^ n)), <-(Z.mod_small b (2 ^ n)) by lia.
    by rewrite !Z.mod_pow2_bits_high by lia.
Qed.

(** What a hash promises: sums are 64-bit words. *)
Class HashLaws (H : Hash64) : Prop := {
  hash_new_range : u64_range (h_new H);
  hash_byte_range : ∀ h b, u64_range h → byte_range b → u64_range (h_byte H h b)
}.

Lemma u64_in_range z : u64_range (u64 z).
Proof. unfold u64_range, u64. apply Z.mod_pos_bound. lia. Qed.

#[global] Instance fnv64_laws : HashLaws fnv64.
Proof.
  split; [done|]. intros h b _ Hb. apply lxor_range; [lia|apply u64_in_range|].
  unfold byte_range in Hb. lia.
Qed.

#[global] Instance fnv64a_laws : HashLaws fnv64a.
Proof. split; [done|]. intros h b _ _. apply u64_in_range. Qed.

Section hash_range.
Context (H : Hash64) `{!HashLaws H}.

Lemma write_range h bs : u64_range h → Forall byte_range bs → u64_range (Write H h bs).
Proof.
  intros Hh Hbs. revert h Hh. induction Hbs as [|b bs Hb _ IH]; intros h Hh; [done|].
  apply IH, hash_byte_range; done.
Qed.

Lemma write_string_range h s : u64_range h → u64_range (write_string H h s).
Proof. intros. by apply write_range, bytes_of_range. Qed.

Lemma hash_string_field_range h s : u64_range h → u64_range (HashStringField H h s).
Proof. intros. apply write_range; [by apply write_string_range|repeat constructor; lia]. Qed.

Lemma hash_uint64_range h z : u64_range h → u64_range (HashUint64 H h z).
Proof. intros. by apply write_range, le_bytes_range. Qed.

(** The hash of a stream of fields is that of its concatenation. *)
Lemma write_app h l1 l2 : Write H h (l1 ++ l2) = Write H (Write H h l1) l2.
Proof. apply foldl_app. Qed.
End hash_range.

#[export] Hint Resolve write_string_range hash_string_field_range hash_uint64_range
  hash_new_range fnv64_laws fnv64a_laws : kgw.

(** Putting a word into bytes loses nothing: fields written by [HashUint64] differ. *)
Lemma le_bytes_roundtrip n z : (0 ≤ z < 256 ^ Z.of_nat n)%Z → le_value (le_bytes n z) = z.
Proof.
  revert z; induction n as [|n IH]; intros z Hz; simpl in *; [lia|].
  rewrite IH; [pose proof (Z.div_mod z 256); lia|].
  rewrite Nat2Z.inj_succ, Z.pow_succ_r in Hz by lia.
  split; [apply Z.div_pos; lia|apply Z.div_lt_upper_bound; lia].
Qed.

(** ** Order independence *)

Lemma foldl_lxor_shift {A} (f : A → Z) (l : list A) a :
  foldl (λ acc x, Z.lxor acc (f x)) a l = Z.lxor a (foldl (λ acc x, Z.lxor acc (f x)) 0%Z l).
Proof.
  revert a; induction l as [|x l IH]; intros a; cbn [foldl]; [by rewrite Z.lxor_0_r|].
  rewrite IH, Z.lxor_0_l, (IH (f x)). by rewrite Z.lxor_assoc.
Qed.

Lemma foldl_lxor_cons {A} (f : A → Z) x (l : list A) :
  foldl (λ acc x, Z.lxor acc (f x)) 0%Z (x :: l) =
  Z.lxor (f x) (foldl (λ acc x, Z.lxor acc (f x)) 0%Z l).
Proof. cbn [foldl]. rewrite Z.lxor_0_l. apply foldl_lxor_shift. Qed.

#[global] Instance foldl_lxor_proper {A} (f : A → Z) :
  Proper ((≡ₚ) ==> (=)) (foldl (λ acc x, Z.lxor acc (f x)) 0%Z).
Proof.
  intros l l' Hp; induction Hp as [|x l l' _ IH|x y l|l1 l2 l3 _ IH1 _ IH2].
  - done.
  - by rewrite !foldl_lxor_cons, IH.
  - rewrite !foldl_lxor_cons, <-!Z.lxor_assoc. by rewrite (Z.lxor_comm (f y)).
  - by rewrite IH1.
Qed.

Lemma hash_labels_any_order (labels : gmap string string) (order : list (string * string)) :
  order ≡ₚ map_to_list labels → hash_labels_in order = HashLabels labels.
Proof. intros Hp. unfold hash_labels_in, HashLabels. by rewrite Hp. Qed.

Lemma hash_labels_insert (labels : gmap string string) k v :
  labels !! k = None → HashLabels (<[k := v]> labels) = Z.lxor (label_hash (k, v)) (HashLabels labels).
Proof.
  intros Hk. unfold HashLabels, hash_labels_in. rewrite map_to_list_insert by done.
  apply foldl_lxor_cons.
Qed.

Lemma hash_labels_range (labels : gmap string string) : u64_range (HashLabels labels).
Proof.
  unfold HashLabels, hash_labels_in. generalize (map_to_list labels) as l.
  induction l as [|kv l IH]; [split; simpl; lia|].
  rewrite foldl_lxor_cons. apply lxor_range; [lia| |exact IH].
  unfold label_hash. apply hash_string_field_range; [apply _|]. apply hash_string_field_range; [apply _|].
  apply hash_new_range.
Qed.

(** ** Protobuf structs

    A struct is a Go map: at every level its fields are visited in an arbitrary order. *)

Section value_order.
Context (newhash : Hash64).

Definition field_hash (kv : string * Value) : option Z :=
  hashValue newhash (write_string newhash (h_new newhash) kv.1) kv.2.

Lemma hashValue_struct h fields :
  hashValue newhash h (VStruct fields) = HashUint64 newhash h <$> HashProtoStruct newhash fields.
Proof.
  unfold HashProtoStruct. cbn [hashValue]. f_equal. generalize 0%Z as a.
  induction fields as [|[k v] l IH]; intros a; cbn [foldM]; [done|].
  cbn [fst snd]. destruct (hashValue newhash (write_string newhash (h_new newhash) k) v); [apply IH|done].
Qed.

Lemma hashValue_list h values : hashValue newhash h (VList values) = foldM (hashValue newhash) h values.
Proof.
  cbn [hashValue]. revert h; induction values as [|v l IH]; intros h; [done|].
  cbn [foldM]. destruct (hashValue newhash h v); [apply IH|done].
Qed.

(** The struct hash: the xor of the hashes of the fields, when all have a kind. *)
Lemma hash_struct_spec fields :
  HashProtoStruct newhash fields =
  foldl (λ acc x, Z.lxor acc x) 0%Z <$> mapM field_hash fields.
Proof.
  unfold HashProtoStruct. generalize 0%Z as a.
  induction fields as [|kv l IH]; intros a; [done|].
  cbn [foldM]. rewrite mapM_cons_eq.
  destruct (field_hash kv) as [x|] eqn:E; unfold field_hash in E; rewrite E; [|reflexivity].
  cbn. rewrite IH. by destruct (mapM field_hash l).
Qed.

(** Equal values up to the order of struct fields. *)
Inductive value_equiv : Value → Value → Prop :=
| ve_refl v : value_equiv v v
| ve_struct fs fs' fs2 :
    fs ≡ₚ fs' → Forall2 (λ a b, a.1 = b.1 ∧ value_equiv a.2 b.2) fs' fs2 →
    value_equiv (VStruct fs) (VStruct fs2)
| ve_list l l2 : Forall2 value_equiv l l2 → value_equiv (VList l) (VList l2).
End value_order.

Lemma mapM_perm {A B} (f : A → option B) l l' :
  l ≡ₚ l' → match mapM f l, mapM f l' with
            | Some k, Some k' => k ≡ₚ k'
            | None, None => True
            | _, _ => False
            end.
Proof.
  intros Hp. destruct (mapM f l) as [k|] eqn:E1, (mapM f l') as [k'|] eqn:E2; [| | |done].
  - apply mapM_Some in E1, E2. revert k k' E1 E2.
    induction Hp as [|x l l' _ IH|x y l|l1 l2 l3 Hp1 IH1 _ IH2]; intros k k' H1 H2.
    + by inversion H1; inversion H2.
    + inversion H1; inversion H2; simplify_eq. constructor. by apply IH.
    + inversion H1 as [|? ? ? ? ? Ha]; inversion H2 as [|? ? ? ? ? Hb]; simplify_eq.
      inversion Ha; inversion Hb; simplify_eq.
      match goal with Hx : Forall2 _ l ?a, Hy : Forall2 _ l ?b |- _ =>
        apply mapM_Some_2 in Hx, Hy; assert (a = b) as -> by congruence; constructor end.
    + destruct (mapM f l2) as [k2|] eqn:E; [apply mapM_Some in E; transitivity k2; [by apply IH1|by apply IH2]|].
      exfalso. apply eq_None_not_Some in E. apply E. apply mapM_is_Some.
      rewrite <-Hp1. apply mapM_is_Some. exists k. by apply mapM_Some_2.
  - apply eq_None_not_Some in E2. apply E2, mapM_is_Some. rewrite <-Hp. apply mapM_is_Some. by exists k.
  - apply eq_None_not_Some in E1. apply E1, mapM_is_Some. rewrite Hp. apply mapM_is_Some. by exists k'.
Qed.

(** Values that differ in the order of struct fields only have the same hash. *)
Lemma hash_value_order_independent newhash v w h :
  value_equiv v w → hashValue newhash h v = hashValue newhash h w.
Proof.
  revert v w h. fix IH 4. intros v w h [v0|fs fs' fs2 Hp Hf|l l2 Hl].
  - reflexivity.
  - rewrite !hashValue_struct, !hash_struct_spec. f_equal.
    assert (mapM (field_hash newhash) fs' = mapM (field_hash newhash) fs2) as Heq.
    { clear Hp fs. revert fs' fs2 Hf. fix IHf 3. intros fs' fs2 [|a b fs1 fs3 [Hk Hv] Hr]; [reflexivity|].
      rewrite !mapM_cons_eq, (IHf _ _ Hr). unfold field_hash. rewrite Hk, (IH _ _ _ Hv). reflexivity. }
    rewrite <-Heq. pose proof (mapM_perm (field_hash newhash) fs fs' Hp) as Hm.
    destruct (mapM (field_hash newhash) fs), (mapM (field_hash newhash) fs'); [|done..].
    cbn. f_equal. by apply (foldl_lxor_proper (λ x, x)).
  - rewrite !hashValue_list. revert h l l2 Hl. fix IHl 4. intros h l l2 [|a b l1 l3 Ha Hr]; [reflexivity|].
    cbn [foldM]. rewrite (IH _ _ _ Ha). destruct (hashValue newhash h b) as [h'|]; [apply IHl, Hr|reflexivity].
Qed.

(** ** Gateway names as label values *)

Lemma hex_length n z : String.length (hex n z) = n.
Proof. revert z; induction n as [|n IH]; intros z; [done|]. cbn [hex]. rewrite str_length_app, IH. simpl. lia. Qed.

Lemma substring_length_le n s : (String.length (String.substring 0 n s) ≤ n)%nat.
Proof. revert s; induction n as [|n IH]; intros [|a s]; simpl; [lia..|]. pose proof (IH s). lia. Qed.

Lemma trim_suffix_length s suf : (String.length (trim_suffix s suf) ≤ String.length s)%nat.
Proof.
  unfold trim_suffix. destruct (has_suffix s suf); [|done].
  etrans; [apply substring_length_le|lia].
Qed.

(** a gateway name always becomes a value that fits a Kubernetes label of 63 characters,
    a name that fits is unchanged, and a longer one keeps its hash. *)
Theorem safe_label_bounds name :
  (String.length (SafeGatewayLabelValue name) ≤ 63)%nat ∧
  ((String.length name ≤ 63)%nat → SafeGatewayLabelValue name = name) ∧
  ((63 < String.length name)%nat →
     ∃ p, SafeGatewayLabelValue name = p +:+ "-" +:+ String.substring 0 12 (sha256_hex name)).
Proof.
  unfold SafeGatewayLabelValue, maxLabelLength, truncateLength, hashLength.
  destruct (Nat.leb_spec (String.length name) 63) as [Hle|Hgt].
  - repeat split; [lia|lia].
  - split; [|split; [lia|eauto]].
    rewrite !str_length_app.
    pose proof (trim_suffix_length (String.substring 0 50 name) "-").
    pose proof (substring_length_le 50 name). pose proof (substring_length_le 12 (sha256_hex name)).
    change (String.length "-") with 1%nat. lia.
Qed.
