(* ===== verification/ConnectedClients.v ===== *)
(** * Connected clients (pkg/krtcollections/uniqueclients.go, pkg/kgateway/xds)

    Envoy proxies connect over xDS streams.  Streams of proxies with the same role,
    namespace and labels share a bucket, for which translation runs once.  This file
    models the callbacks that maintain the buckets: first as the code of each handler,
    then as a step relation over the interleavings of handlers of different streams,
    whose atomic actions are the critical sections of [stateLock]. *)

From S2P Require Import Prelude Hashing Endpoints.

(** ** Names *)

Definition KeyDelimiter : string := "~".
Definition RoleKey : string := "role".
Definition GatewayApiProxyValue : string := "kgateway-kube-gateway-api".
Definition GatewayNameLabel : string := "gateway.networking.k8s.io/gateway-name".
Definition GatewayNameAnnotation : string := "gateway.kgateway.dev/gateway-full-name".
Definition FallbackNodeCacheKey : string := "misconfigured-node".
Definition EndpointType : string := "type.googleapis.com/envoy.config.endpoint.v3.ClusterLoadAssignment".

Definition IsKubeGatewayCacheKey (key : string) : bool := has_prefix key GatewayApiProxyValue.

Definition OwnerNamespaceNameID (owner namespace name : string) : string :=
  join KeyDelimiter [owner; namespace; name].

Definition GatewayNameFromLabels (labels : gmap string string) : string :=
  let gatewayName := default "" (labels !! GatewayNameAnnotation) in
  if negb (String.eqb gatewayName "") then gatewayName
  else default "" (labels !! GatewayNameLabel).

Definition LocalClusterName (gatewayName gatewayNamespace : string) : string :=
  SafeGatewayLabelValue gatewayName +:+ "." +:+ gatewayNamespace.

Definition LocalClusterInfo (c : UniquelyConnectedClient) : string * string * string :=
  let gatewayNamespace := ucc_namespace c in
  let gatewayName := GatewayNameFromLabels (ucc_labels c) in
  let '(gatewayNamespace, gatewayName) :=
    match split "~"%char (ucc_role c) with
    | [_; p1; p2] => (if String.eqb gatewayNamespace "" then p1 else gatewayNamespace,
                      if String.eqb gatewayName "" then p2 else gatewayName)
    | _ => (gatewayNamespace, gatewayName)
    end in
  if String.eqb gatewayName "" || String.eqb gatewayNamespace "" then ("", gatewayName, gatewayNamespace)
  else (LocalClusterName gatewayName gatewayNamespace, gatewayName, gatewayNamespace).

Definition labeledRole (role : string) (labels : gmap string string) : string :=
  role +:+ KeyDelimiter +:+ pretty (HashLabels labels).

Definition NewUniquelyConnectedClient (roleFromEnvoy ns : string) (labels : gmap string string)
    (locality : PodLocality) : UniquelyConnectedClient :=
  let resourceName :=
    if negb (String.eqb ns "") then labeledRole roleFromEnvoy labels +:+ KeyDelimiter +:+ ns
    else roleFromEnvoy in
  mkUCC roleFromEnvoy labels locality ns false resourceName.

(** ** Requests *)

Inductive UserAgentVersion :=
| UANone
| UABuild (v : option (Z * Z * Z))   (** major, minor, patch *)
| UAString (s : string).

(** The metadata struct; a nil struct has no fields. *)
Record Node := mkNode {
  node_id : string; node_metadata : gmap string Value; node_version : UserAgentVersion }.

Record DiscoveryRequest := mkReq {
  req_node : option Node; req_type_url : string; req_resource_names : list string }.

(** [Value.GetStringValue]. *)
Definition string_value (v : option Value) : string :=
  match v with Some (VString s) => s | _ => "" end.

Definition roleFromRequest (r : DiscoveryRequest) : string :=
  match req_node r with Some n => string_value (node_metadata n !! RoleKey) | None => "" end.

(** [nodeRoleHasher.ID]: the key under which the xDS cache serves a node. *)
Definition node_hash_id (n : Node) : string :=
  match node_metadata n !! RoleKey with
  | Some v => string_value (Some v)
  | None => FallbackNodeCacheKey
  end.

(** [strings.SplitN(s, ".", 2)] when the separator occurs. *)
Fixpoint split_once (sep : Ascii.ascii) (s : string) : option (string * string) :=
  match s with
  | EmptyString => None
  | String a s' =>
      if Ascii.eqb a sep then Some ("", s')
      else '(x, y) ← split_once sep s'; Some (String a x, y)
  end.

Record NamespacedName := mkNN { nn_namespace : string; nn_name : string }.

Definition getRef (n : Node) : NamespacedName :=
  match split_once "."%char (node_id n) with
  | Some (name, ns) => mkNN ns name
  | None => mkNN "" ""
  end.

(** [krt.Named.ResourceName]. *)
Definition pod_key (p : NamespacedName) : string := nn_namespace p +:+ "/" +:+ nn_name p.

Record LocalityPod := mkPod {
  pod_name : string; pod_namespace : string; pod_locality : PodLocality;
  pod_labels : gmap string string; pod_addresses : list string }.

Definition minEnvoyMinorVersion : Z := 37.
Definition minEnvoyPatchVersion : Z := 2.

Definition version_too_old (v : Z * Z * Z) : bool :=
  let '(major, minor, patch) := v in
  ((major <? 1) || ((major =? 1) && (minor <? minEnvoyMinorVersion)) ||
   ((major =? 1) && (minor =? minEnvoyMinorVersion) && (patch <? minEnvoyPatchVersion)))%Z.

(** The errors the callbacks return. *)
Inductive stream_error :=
| NotInitialized
| PeerNotFound (sid : Z)
| InvalidPeerCtx
| PodNotFound (node_id : string)
| IdentityChanged (old new : string)
| IncompatibleVersion (v : Z * Z * Z)
| EmptyClientName (sid : Z)
| ExtraError (e : string)
| FetchWithAuth
| NilNode.                            (** nil dereference *)

Definition logAndCheckEnvoyVersion (n : option Node) : option stream_error :=
  match n with
  | Some (mkNode _ _ (UABuild (Some v))) =>
      if version_too_old v then Some (IncompatibleVersion v) else None
  | _ => None
  end.

(** ** State *)

Record ConnectedClient := mkCC { uniqueClientName : string; originalRole : string }.

Record callbacksCollection := mkCol {
  clients : gmap Z ConnectedClient;
  uniqClientsCount : gmap string Z;
  uniqClients : gmap string UniquelyConnectedClient;
  knownLocalClusterBySid : gmap Z bool }.

Definition empty_collection : callbacksCollection := mkCol ∅ ∅ ∅ ∅.

(** The authenticated peer of a stream ([security.Caller]). *)
Record Caller := mkCaller { pod_namespace_of : string; service_account : string; pod_name_of : string }.

Record peerInfo := mkPeer { peer_role : string; peer_podRef : option NamespacedName }.

(** ** Identity *)

Definition NormalizeGatewayRole (originalRole namespace : string) (labels : gmap string string) : string :=
  let gwName := GatewayNameFromLabels labels in
  if String.eqb gwName "" then originalRole
  else OwnerNamespaceNameID GatewayApiProxyValue namespace gwName.

Definition getPeerInfo (xdsAuth : bool) (peers : gmap Z Caller) (sid : Z) (r : DiscoveryRequest)
    (usePod : bool) : stream_error + peerInfo :=
  if negb xdsAuth then
    inr (mkPeer (roleFromRequest r)
           (if usePod then getRef <$> req_node r else None))
  else
    match peers !! sid with
    | None => inl (PeerNotFound sid)
    | Some caller =>
        inr (mkPeer (OwnerNamespaceNameID GatewayApiProxyValue (pod_namespace_of caller) (service_account caller))
               (if usePod then Some (mkNN (pod_namespace_of caller) (pod_name_of caller)) else None))
    end.

Definition no_pod_locality : PodLocality := mkLoc "" "" "".

Definition deriveClientIdentity (pods : gmap string LocalityPod) (r : DiscoveryRequest) (peer : peerInfo) :
    stream_error + UniquelyConnectedClient :=
  match peer_podRef peer with
  | None => inr (NewUniquelyConnectedClient (peer_role peer) "" ∅ no_pod_locality)
  | Some ref =>
      match pods !! pod_key ref with
      | None => inl (PodNotFound (from_option node_id "" (req_node r)))
      | Some pod =>
          inr (NewUniquelyConnectedClient
                 (NormalizeGatewayRole (peer_role peer) (pod_namespace pod) (pod_labels pod))
                 (pod_namespace pod) (pod_labels pod) (pod_locality pod))
      end
  end.

(** ** Handlers *)

Inductive add_decision :=
| AddErr (e : stream_error)
| AddKeep (name : string)
| AddNew (ucc : UniquelyConnectedClient) (c : ConnectedClient).

(** [add] between its two critical sections: what it does given the entry it read. *)
Definition add_decide (pods : gmap string LocalityPod) (r : DiscoveryRequest) (peer : peerInfo)
    (entry : option ConnectedClient) : add_decision :=
  let peer := match entry with
              | Some c => mkPeer (originalRole c) (peer_podRef peer)
              | None => peer
              end in
  let derived := deriveClientIdentity pods r peer in
  match entry with
  | Some c =>
      match derived with
      | inl _ => AddKeep (uniqueClientName c)
      | inr ucc =>
          if negb (String.eqb (uniqueClientName c) (ucc_resource_name ucc))
          then AddErr (IdentityChanged (uniqueClientName c) (ucc_resource_name ucc))
          else AddKeep (uniqueClientName c)
      end
  | None =>
      match logAndCheckEnvoyVersion (req_node r) with
      | Some e => AddErr e
      | None =>
          match derived with
          | inl e => AddErr e
          | inr ucc => AddNew ucc (mkCC (ucc_resource_name ucc) (peer_role peer))
          end
      end
  end.

(** The second critical section of [add]. *)
Definition publish (sid : Z) (ucc : UniquelyConnectedClient) (c : ConnectedClient)
    (x : callbacksCollection) : callbacksCollection :=
  let name := ucc_resource_name ucc in
  let currentUnique := default 0%Z (uniqClientsCount x !! name) in
  mkCol (<[sid := c]> (clients x))
        (<[name := u64 (currentUnique + 1)]> (uniqClientsCount x))
        (if (currentUnique =? 0)%Z then <[name := ucc]> (uniqClients x) else uniqClients x)
        (knownLocalClusterBySid x).

Definition add (pods : gmap string LocalityPod) (sid : Z) (r : DiscoveryRequest) (peer : peerInfo)
    (x : callbacksCollection) : (stream_error + string * bool) * callbacksCollection :=
  match add_decide pods r peer (clients x !! sid) with
  | AddErr e => (inl e, x)
  | AddKeep name => (inr (name, false), x)
  | AddNew ucc c => (inr (uniqueClientName c, true), publish sid ucc c x)
  end.

Definition del (sid : Z) (x : callbacksCollection) : callbacksCollection :=
  let cs := delete sid (clients x) in
  let known := delete sid (knownLocalClusterBySid x) in
  match clients x !! sid with
  | None => mkCol cs (uniqClientsCount x) (uniqClients x) known
  | Some c =>
      let resourceName := uniqueClientName c in
      let current := default 0%Z (uniqClientsCount x !! resourceName) in
      if (current =? 1)%Z then
        mkCol cs (delete resourceName (uniqClientsCount x)) (delete resourceName (uniqClients x)) known
      else
        mkCol cs (<[resourceName := u64 (current - 1)]> (uniqClientsCount x)) (uniqClients x) known
  end.

Definition tryConfirmLocalCluster (sid : Z) (uccName : string) (r : DiscoveryRequest)
    (x : callbacksCollection) : bool * callbacksCollection :=
  if default false (knownLocalClusterBySid x !! sid) then (false, x)
  else match uniqClients x !! uccName with
       | None => (false, x)
       | Some ucc =>
           let localClusterName := (LocalClusterInfo ucc).1.1 in
           if String.eqb localClusterName "" then (false, x)
           else if negb (bool_decide (localClusterName ∈ req_resource_names r)) then (false, x)
           else (true, mkCol (clients x) (uniqClientsCount x) (uniqClients x)
                         (<[sid := true]> (knownLocalClusterBySid x)))
       end.

(** The flag is whether recomputation is triggered. *)
Definition observeLocalClusterRequest (sid : Z) (uccName : string) (r : DiscoveryRequest)
    (x : callbacksCollection) : bool * callbacksCollection :=
  if negb (String.eqb (req_type_url r) EndpointType) then (false, x)
  else tryConfirmLocalCluster sid uccName r x.

Definition set_role (role : string) (n : Node) : Node :=
  mkNode (node_id n) (<[RoleKey := VString role]> (node_metadata n)) (node_version n).

(** A handled request: the node as rewritten, and whether recomputation was triggered. *)
Definition newStream (pods : gmap string LocalityPod) (sid : Z) (r : DiscoveryRequest) (peer : peerInfo)
    (x : callbacksCollection) : (stream_error + Node * bool) * callbacksCollection :=
  match add pods sid r peer x with
  | (inl e, x) => (inl e, x)
  | (inr (ucc, isNewStream), x) =>
      if String.eqb ucc "" then (inl (EmptyClientName sid), x)
      else
        let '(confirmed, x) := observeLocalClusterRequest sid ucc r x in
        match req_node r with
        | None => (inl NilNode, x)
        | Some n => (inr (set_role ucc n, confirmed || isNewStream), x)
        end
  end.

(** A bucket knows the local cluster when all its streams confirmed it. *)
Definition unconfirmedBuckets (x : callbacksCollection) : gset string :=
  list_to_set (omap (λ kv : Z * ConnectedClient,
    if default false (knownLocalClusterBySid x !! kv.1) then None else Some (uniqueClientName kv.2))
    (map_to_list (clients x))).

Definition getClients (x : callbacksCollection) : list UniquelyConnectedClient :=
  map (λ kv : string * UniquelyConnectedClient,
    let c := kv.2 in
    mkUCC (ucc_role c) (ucc_labels c) (ucc_locality c) (ucc_namespace c)
      (negb (bool_decide (kv.1 ∈ unconfirmedBuckets x))) (ucc_resource_name c))
    (map_to_list (uniqClients x)).

(** ** The callbacks of the xDS server *)

(** [cb_collection] is [None] until the collection is built; [cb_pods] is [None] when pod
    locality is not used; [extra] is the callback of other components, with its error. *)
Record callbacks := mkCb {
  cb_auth : bool; cb_peers : gmap Z Caller; cb_collection : option callbacksCollection;
  cb_pods : option (gmap string LocalityPod);
  cb_extra : Z → DiscoveryRequest → option string }.

Definition with_collection (c : callbacksCollection) (x : callbacks) : callbacks :=
  mkCb (cb_auth x) (cb_peers x) (Some c) (cb_pods x) (cb_extra x).

Definition OnStreamOpen (peer : option Caller) (sid : Z) (x : callbacks) : option stream_error * callbacks :=
  if cb_auth x then
    match peer with
    | None => (Some InvalidPeerCtx, x)
    | Some p => (None, mkCb (cb_auth x) (<[sid := p]> (cb_peers x)) (cb_collection x) (cb_pods x) (cb_extra x))
    end
  else (None, x).

Definition OnStreamClosed (sid : Z) (x : callbacks) : callbacks :=
  mkCb (cb_auth x) (if cb_auth x then delete sid (cb_peers x) else cb_peers x)
    (del sid <$> cb_collection x) (cb_pods x) (cb_extra x).

(** The answer: an error, or the request's node (rewritten, unless the client is not one
    of ours) and whether recomputation was triggered. *)
Definition OnStreamRequest (sid : Z) (r : DiscoveryRequest) (x : callbacks) :
    (stream_error + option Node * bool) * callbacks :=
  match cb_extra x sid r with
  | Some e => (inl (ExtraError e), x)
  | None =>
      match cb_collection x with
      | None => (inl NotInitialized, x)
      | Some c =>
          match getPeerInfo (cb_auth x) (cb_peers x) sid r (bool_decide (is_Some (cb_pods x))) with
          | inl e => (inl e, x)
          | inr peer =>
              if negb (IsKubeGatewayCacheKey (peer_role peer)) then (inr (req_node r, false), x)
              else
                match newStream (default ∅ (cb_pods x)) sid r peer c with
                | (inl e, c) => (inl e, with_collection c x)
                | (inr (n, t), c) => (inr (Some n, t), with_collection c x)
                end
          end
      end
  end.

Definition fetchRequest (pods : option (gmap string LocalityPod)) (r : DiscoveryRequest) :
    stream_error + option Node :=
  match pods with
  | None => inr (req_node r)
  | Some pods =>
      match req_node r with
      | None =>
          match deriveClientIdentity pods r (mkPeer "" (Some (mkNN "" ""))) with
          | inl e => inl e
          | inr _ => inl NilNode
          end
      | Some n =>
          match deriveClientIdentity pods r (mkPeer (roleFromRequest r) (Some (getRef n))) with
          | inl e => inl e
          | inr ucc => inr (Some (set_role (ucc_resource_name ucc) n))
          end
      end
  end.

Definition OnFetchRequest (extra : DiscoveryRequest → option string) (x : callbacks) (r : DiscoveryRequest) :
    stream_error + option Node :=
  if cb_auth x then inl FetchWithAuth
  else match extra r with
       | Some e => inl (ExtraError e)
       | None =>
           if negb (IsKubeGatewayCacheKey (roleFromRequest r)) then inr (req_node r)
           else match cb_collection x with
                | None => inl NotInitialized
                | Some _ => fetchRequest (cb_pods x) r
                end
       end.

(** ** Interleavings

    Handlers of one stream run one after the other, handlers of different streams and the
    recomputation of the collection interleave.  The program counter of a stream names the
    action its handler does next. *)

Inductive pc :=
| Idle
| Reading (r : DiscoveryRequest) (peer : peerInfo)
| Deriving (r : DiscoveryRequest) (peer : peerInfo) (entry : option ConnectedClient)
| Publishing (r : DiscoveryRequest) (ucc : UniquelyConnectedClient) (c : ConnectedClient)
| Observing (r : DiscoveryRequest) (name : string) (isNew : bool)
| Triggering (confirmed isNew : bool)
| TriggeringNew (isNew : bool)
| TriggeringClosed.

(** [s_recompute]: a recomputation is due; [s_published]: the result of the last one. *)
Record sys := mkSys {
  s_col : callbacksCollection; s_pods : gmap string LocalityPod; s_pcs : gmap Z pc;
  s_recompute : bool; s_published : list UniquelyConnectedClient }.

(** Collection, program counter of the acting stream and recomputation flag after one
    action of a handler. *)
Definition handler_turn (pods : gmap string LocalityPod) (sid : Z) (p : pc) (x : callbacksCollection) :
    option (callbacksCollection * pc * bool) :=
  match p with
  | Idle => None
  | Reading r peer => Some (x, Deriving r peer (clients x !! sid), false)
  | Deriving r peer entry =>
      match add_decide pods r peer entry with
      | AddErr _ => Some (x, Idle, false)
      | AddKeep name => Some (x, if String.eqb name "" then Idle else Observing r name false, false)
      | AddNew ucc c => Some (x, Publishing r ucc c, false)
      end
  | Publishing r ucc c =>
      Some (publish sid ucc c x,
            if String.eqb (uniqueClientName c) "" then Idle else Observing r (uniqueClientName c) true, false)
  | Observing r name isNew =>
      let '(confirmed, x') := observeLocalClusterRequest sid name r x in
      Some (x', Triggering confirmed isNew, false)
  | Triggering confirmed isNew => Some (x, TriggeringNew isNew, confirmed)
  | TriggeringNew isNew => Some (x, Idle, isNew)
  | TriggeringClosed => Some (x, Idle, true)
  end.

Definition set_pc (sid : Z) (p : pc) (s : sys) : sys :=
  mkSys (s_col s) (s_pods s) (<[sid := p]> (s_pcs s)) (s_recompute s) (s_published s).

(** Stream identifiers are positive [int64]s counted up by the xDS server, and a stream
    is closed only between its requests.  A request is one the collection handles: its
    role is that of a gateway proxy. *)
Inductive stream_step : sys → sys → Prop :=
| step_request sid r peer s :
    default Idle (s_pcs s !! sid) = Idle → (0 < sid < 2 ^ 63)%Z →
    IsKubeGatewayCacheKey (peer_role peer) = true →
    stream_step s (set_pc sid (Reading r peer) s)
| step_handler sid p s x' p' t :
    s_pcs s !! sid = Some p → handler_turn (s_pods s) sid p (s_col s) = Some (x', p', t) →
    stream_step s (mkSys x' (s_pods s) (<[sid := p']> (s_pcs s)) (s_recompute s || t) (s_published s))
| step_close sid s :
    default Idle (s_pcs s !! sid) = Idle →
    stream_step s (mkSys (del sid (s_col s)) (s_pods s) (<[sid := TriggeringClosed]> (s_pcs s))
              (s_recompute s) (s_published s))
| step_pods pods s :
    stream_step s (mkSys (s_col s) pods (s_pcs s) (s_recompute s) (s_published s))
| step_recompute s l :
    s_recompute s = true → l ≡ₚ getClients (s_col s) →
    stream_step s (mkSys (s_col s) (s_pods s) (s_pcs s) false l).

(** A new recompute trigger starts synced, with the collection computed once. *)
Definition init (pods : gmap string LocalityPod) : sys := mkSys empty_collection pods ∅ false [].

Definition reachable (s : sys) : Prop := ∃ pods, rtc stream_step (init pods) s.

(** ** Buckets *)

Definition in_bucket (name : string) (kv : Z * ConnectedClient) : Prop := uniqueClientName kv.2 = name.

#[global] Instance in_bucket_dec name kv : Decision (in_bucket name kv).
Proof. unfold in_bucket. apply _. Defined.

Definition streams_of (name : string) (x : callbacksCollection) : gmap Z ConnectedClient :=
  filter (in_bucket name) (clients x).

Definition streams_count (name : string) (x : callbacksCollection) : Z := Z.of_nat (size (streams_of name x)).

(** The counts are the numbers of streams, and buckets without streams are gone. *)
Record wf_col (x : callbacksCollection) : Prop := {
  wf_count : ∀ name, default 0%Z (uniqClientsCount x !! name) = streams_count name x;
  wf_bucket : ∀ name, is_Some (uniqClients x !! name) ↔ (0 < streams_count name x)%Z;
  wf_named : ∀ name c, uniqClients x !! name = Some c → ucc_resource_name c = name;
  wf_known : ∀ sid, default false (knownLocalClusterBySid x !! sid) = true → is_Some (clients x !! sid);
  wf_sids : ∀ sid, is_Some (clients x !! sid) → (0 < sid < 2 ^ 63)%Z }.

(** What the program counter of a stream says about the collection. *)
Definition pc_ok (x : callbacksCollection) (sid : Z) (p : pc) : Prop :=
  match p with
  | Idle | TriggeringClosed => True
  | Reading r peer => (0 < sid < 2 ^ 63)%Z ∧ IsKubeGatewayCacheKey (peer_role peer) = true
  | Deriving r peer entry =>
      (0 < sid < 2 ^ 63)%Z ∧ IsKubeGatewayCacheKey (peer_role peer) = true ∧ entry = clients x !! sid
  | Publishing r ucc c =>
      (0 < sid < 2 ^ 63)%Z ∧ clients x !! sid = None ∧ uniqueClientName c = ucc_resource_name ucc ∧
      IsKubeGatewayCacheKey (uniqueClientName c) = true
  | Observing r name _ => uniqueClientName <$> clients x !! sid = Some name
  | Triggering _ _ | TriggeringNew _ => is_Some (clients x !! sid)
  end.

(** Program counters at which a recomputation is still to be triggered. *)
Definition pending (p : pc) : bool :=
  match p with
  | Observing _ _ isNew => isNew
  | Triggering confirmed isNew => confirmed || isNew
  | TriggeringNew isNew => isNew
  | TriggeringClosed => true
  | _ => false
  end.

Record inv (s : sys) : Prop := {
  inv_col : wf_col (s_col s);
  inv_pcs : ∀ sid p, s_pcs s !! sid = Some p → pc_ok (s_col s) sid p;
  inv_named : ∀ sid c, clients (s_col s) !! sid = Some c → IsKubeGatewayCacheKey (uniqueClientName c) = true;
  inv_fresh : s_published s ≡ₚ getClients (s_col s) ∨ s_recompute s = true ∨
              ∃ sid p, s_pcs s !! sid = Some p ∧ pending p = true }.

Lemma streams_of_insert name sid c x u k n :
  clients x !! sid = None →
  streams_count name (mkCol (<[sid := c]> (clients x)) u k n) =
  (streams_count name x + if String.eqb (uniqueClientName c) name then 1 else 0)%Z.
Proof.
  intros Hsid. unfold streams_count, streams_of. cbn [clients].
  destruct (String.eqb_spec (uniqueClientName c) name) as [He|Hne].
  - rewrite map_filter_insert_True by done. rewrite map_size_insert_None; [lia|].
    by apply map_lookup_filter_None; left.
  - rewrite map_filter_insert_False by done. rewrite delete_id by done. lia.
Qed.

Lemma streams_of_delete name sid c x u k n :
  clients x !! sid = Some c →
  streams_count name (mkCol (delete sid (clients x)) u k n) =
  (streams_count name x - if String.eqb (uniqueClientName c) name then 1 else 0)%Z.
Proof.
  intros Hsid. unfold streams_count, streams_of. cbn [clients]. rewrite map_filter_delete.
  destruct (String.eqb_spec (uniqueClientName c) name) as [<-|Hne].
  - assert (filter (in_bucket (uniqueClientName c)) (clients x) !! sid = Some c) as Hl
      by (by apply map_lookup_filter_Some).
    rewrite map_size_delete, Hl. cbn.
    assert (size (filter (in_bucket (uniqueClientName c)) (clients x)) ≠ 0)%nat
      by (intros He%map_size_empty_inv; by rewrite He in Hl).
    lia.
  - rewrite delete_id; [lia|]. apply map_lookup_filter_None; right.
    intros c' Hc'. simplify_eq. done.
Qed.

(** Stream identifiers are distinct [int64]s, so counts do not wrap. *)
Lemma streams_count_bound name x :
  (∀ sid, is_Some (clients x !! sid) → (0 < sid < 2 ^ 63)%Z) → (0 ≤ streams_count name x < 2 ^ 63)%Z.
Proof.
  intros Hs. unfold streams_count. split; [lia|].
  assert (size (streams_of name x) ≤ size (list_to_set (C := gset Z) (seqZ 1 (2 ^ 63 - 1))))%nat as Hle.
  { rewrite <-size_dom. apply subseteq_size. intros sid (c & Hc)%elem_of_dom.
    apply map_lookup_filter_Some in Hc as [Hc _]. apply elem_of_list_to_set, elem_of_seqZ.
    specialize (Hs sid ltac:(by rewrite Hc)). lia. }
  rewrite size_list_to_set in Hle by apply NoDup_seqZ. rewrite length_seqZ in Hle.
  apply Nat2Z.inj_le in Hle. rewrite Z2Nat.id in Hle by lia. lia.
Qed.

(** ** The collection under each operation *)

Lemma streams_count_pos sid c x :
  clients x !! sid = Some c → (0 < streams_count (uniqueClientName c) x)%Z.
Proof.
  intros Hc. unfold streams_count.
  assert (streams_of (uniqueClientName c) x !! sid = Some c) as Hl by (by apply map_lookup_filter_Some).
  assert (size (streams_of (uniqueClientName c) x) ≠ 0)%nat by (intros He%map_size_empty_inv; by rewrite He in Hl).
  lia.
Qed.

Lemma publish_wf sid ucc c x :
  wf_col x → clients x !! sid = None → (0 < sid < 2 ^ 63)%Z → uniqueClientName c = ucc_resource_name ucc →
  wf_col (publish sid ucc c x).
Proof.
  intros [Hc Hb Hn Hk Hs] Hsid Hr Hname. unfold publish.
  set (name := ucc_resource_name ucc) in *. rewrite (Hc name).
  pose proof (streams_count_bound name x Hs) as Hbd. split; cbn [uniqClientsCount uniqClients clients knownLocalClusterBySid].
  - intros n. rewrite streams_of_insert by done. rewrite Hname.
    destruct (String.eqb_spec name n) as [<-|Hne].
    + rewrite lookup_insert_eq. cbn. unfold u64. apply Z.mod_small. lia.
    + rewrite lookup_insert_ne by done. rewrite Hc. lia.
  - intros n. rewrite streams_of_insert by done. rewrite Hname.
    pose proof (streams_count_bound n x Hs). destruct (Z.eqb_spec (streams_count name x) 0) as [Hz|Hz].
    + destruct (String.eqb_spec name n) as [<-|Hne].
      * rewrite lookup_insert_eq. split; [lia|eauto].
      * rewrite lookup_insert_ne by done. rewrite Hb. lia.
    + rewrite Hb. destruct (String.eqb_spec name n) as [<-|Hne]; lia.
  - intros n c'. destruct (Z.eqb_spec (streams_count name x) 0); [|apply Hn].
    destruct (decide (name = n)) as [<-|]; [rewrite lookup_insert_eq; naive_solver|].
    rewrite lookup_insert_ne by done. apply Hn.
  - intros s' Hs'. destruct (decide (sid = s')) as [<-|]; [by rewrite lookup_insert_eq|].
    rewrite lookup_insert_ne by done. by apply Hk.
  - intros s'. destruct (decide (sid = s')) as [<-|]; [done|].
    rewrite lookup_insert_ne by done. apply Hs.
Qed.

Lemma del_wf sid x : wf_col x → wf_col (del sid x).
Proof.
  intros [Hc Hb Hn Hk Hs].
  assert (∀ s' : Z, default false (delete sid (knownLocalClusterBySid x) !! s') = true →
            is_Some (delete sid (clients x) !! s')) as Hk'.
  { intros s'. destruct (decide (sid = s')) as [<-|]; [by rewrite lookup_delete_eq|].
    rewrite !lookup_delete_ne by done. apply Hk. }
  assert (∀ s', is_Some (delete sid (clients x) !! s') → (0 < s' < 2 ^ 63)%Z) as Hs'.
  { intros s' [c' [_ Hc']%lookup_delete_Some]. apply Hs. eauto. }
  unfold del. destruct (clients x !! sid) as [c|] eqn:E.
  - set (name := uniqueClientName c). rewrite (Hc name).
    pose proof (streams_count_bound name x Hs).
    pose proof (streams_count_pos sid c x E) as Hpos. fold name in Hpos.
    destruct (Z.eqb_spec (streams_count name x) 1) as [H1|H1]; split;
      cbn [uniqClientsCount uniqClients clients knownLocalClusterBySid]; try done.
    + intros n. rewrite (streams_of_delete n sid c) by done. fold name.
      destruct (String.eqb_spec name n) as [<-|Hne].
      * rewrite lookup_delete_eq. cbn. lia.
      * rewrite lookup_delete_ne by done. rewrite Hc. lia.
    + intros n. rewrite (streams_of_delete n sid c) by done. fold name.
      destruct (String.eqb_spec name n) as [<-|Hne].
      * rewrite lookup_delete_eq. split; [by intros []|lia].
      * rewrite lookup_delete_ne by done. rewrite Hb. lia.
    + intros n c' [_ Hc']%lookup_delete_Some. by apply Hn.
    + intros n. rewrite (streams_of_delete n sid c) by done. fold name.
      destruct (String.eqb_spec name n) as [<-|Hne].
      * rewrite lookup_insert_eq. cbn. unfold u64. apply Z.mod_small. lia.
      * rewrite lookup_insert_ne by done. rewrite Hc. lia.
    + intros n. rewrite (streams_of_delete n sid c) by done. fold name. rewrite Hb.
      destruct (String.eqb_spec name n) as [<-|Hne]; lia.
  - split; cbn [uniqClientsCount uniqClients clients knownLocalClusterBySid]; try done;
      unfold streams_count, streams_of; cbn [clients]; rewrite delete_id by done; done.
Qed.

Lemma confirm_wf sid r x name b x' :
  wf_col x → is_Some (clients x !! sid) → observeLocalClusterRequest sid name r x = (b, x') →
  wf_col x' ∧ clients x' = clients x ∧ uniqClients x' = uniqClients x ∧ (b = false → x' = x).
Proof.
  intros Hwf Hsid. unfold observeLocalClusterRequest, tryConfirmLocalCluster.
  repeat case_match; intros; simplify_eq; try done.
  destruct Hwf as [Hc Hb Hn Hk Hs]. split_and!; [|done..]. split; try done. cbn. intros s'.
  destruct (decide (sid = s')) as [<-|]; [done|]. rewrite lookup_insert_ne by done. apply Hk.
Qed.

(** ** Names of gateway proxies *)

Lemma kube_key_app a b : IsKubeGatewayCacheKey a = true → IsKubeGatewayCacheKey (a +:+ b) = true.
Proof.
  unfold IsKubeGatewayCacheKey. rewrite !has_prefix_spec. intros [t ->].
  exists (t +:+ b). by rewrite str_app_assoc.
Qed.

Lemma kube_key_owner ns name : IsKubeGatewayCacheKey (OwnerNamespaceNameID GatewayApiProxyValue ns name) = true.
Proof.
  unfold IsKubeGatewayCacheKey. apply has_prefix_spec.
  exists ("~" +:+ ns +:+ "~" +:+ name). reflexivity.
Qed.

Lemma kube_key_nonempty a : IsKubeGatewayCacheKey a = true → String.eqb a "" = false.
Proof. by destruct a. Qed.

#[export] Hint Resolve kube_key_app kube_key_owner : kgw.

(** The identity of a gateway proxy is a name of a gateway proxy. *)
Lemma derive_kube_key pods r peer ucc :
  IsKubeGatewayCacheKey (peer_role peer) = true →
  deriveClientIdentity pods r peer = inr ucc → IsKubeGatewayCacheKey (ucc_resource_name ucc) = true.
Proof.
  intros Hr. unfold deriveClientIdentity, NewUniquelyConnectedClient, labeledRole, NormalizeGatewayRole.
  destruct (peer_podRef peer) as [ref|]; [|by intros [= <-]].
  destruct (pods !! pod_key ref) as [pod|]; intros [= <-]. cbn [ucc_resource_name].
  assert (∀ role, IsKubeGatewayCacheKey role = true →
    IsKubeGatewayCacheKey (if negb (String.eqb (pod_namespace pod) "")
      then (role +:+ KeyDelimiter +:+ pretty (HashLabels (pod_labels pod))) +:+ KeyDelimiter +:+ pod_namespace pod
      else role) = true) as Hif.
  { intros role Hk. destruct (negb _); [|done]. by do 2 apply kube_key_app. }
  apply Hif. destruct (String.eqb (GatewayNameFromLabels (pod_labels pod)) ""); [done|apply kube_key_owner].
Qed.

Lemma add_decide_keep pods r peer entry name :
  add_decide pods r peer entry = AddKeep name → ∃ c, entry = Some c ∧ name = uniqueClientName c.
Proof. unfold add_decide. destruct entry as [c|]; repeat case_match; naive_solver. Qed.

Lemma add_decide_new pods r peer entry ucc c :
  add_decide pods r peer entry = AddNew ucc c →
  entry = None ∧ deriveClientIdentity pods r peer = inr ucc ∧ c = mkCC (ucc_resource_name ucc) (peer_role peer).
Proof. unfold add_decide. destruct entry as [c0|]; repeat case_match; naive_solver. Qed.

(** ** The invariant *)

(** The actions of a handler leave the entries of other streams alone. *)
Lemma handler_turn_frame pods sid p x x' p' t sid' :
  handler_turn pods sid p x = Some (x', p', t) → sid ≠ sid' → clients x' !! sid' = clients x !! sid'.
Proof.
  intros Ht Hne. destruct p; cbn in Ht; simplify_eq; try done.
  - by destruct (add_decide pods r peer entry); simplify_eq.
  - cbn. by rewrite lookup_insert_ne.
  - unfold observeLocalClusterRequest, tryConfirmLocalCluster in Ht. repeat case_match; by simplify_eq.
Qed.

Lemma pc_ok_frame x x' sid p : clients x' !! sid = clients x !! sid → pc_ok x sid p → pc_ok x' sid p.
Proof. intros He. destruct p; cbn; by rewrite ?He. Qed.

Lemma handler_turn_inv pods sid p x x' p' t :
  wf_col x → (∀ sid c, clients x !! sid = Some c → IsKubeGatewayCacheKey (uniqueClientName c) = true) →
  pc_ok x sid p → handler_turn pods sid p x = Some (x', p', t) →
  wf_col x' ∧ (∀ sid c, clients x' !! sid = Some c → IsKubeGatewayCacheKey (uniqueClientName c) = true) ∧
  pc_ok x' sid p' ∧ (getClients x' = getClients x ∨ pending p' = true) ∧
  (pending p = true → pending p' = true ∨ t = true).
Proof.
  intros Hwf Hnm Hp Ht. destruct p as [|r peer|r peer entry|r ucc c|r name isNew|confirmed isNew|isNew|]; cbn in Ht, Hp.
  - done.
  - simplify_eq. cbn. naive_solver.
  - destruct Hp as (Hr & Hk & ->). destruct (add_decide pods r peer (clients x !! sid)) as [e|name|ucc c] eqn:E.
    + simplify_eq. cbn. naive_solver.
    + apply add_decide_keep in E as (c & Hc & ->). rewrite kube_key_nonempty in Ht by eauto.
      simplify_eq. cbn. rewrite Hc. naive_solver.
    + apply add_decide_new in E as (Hc & Hd & ->). simplify_eq.
      pose proof (derive_kube_key _ _ _ _ Hk Hd). cbn. naive_solver.
  - destruct Hp as (Hr & Hn & He & Hk). rewrite kube_key_nonempty in Ht by done. simplify_eq.
    split_and!; [by apply publish_wf| |by cbn; rewrite lookup_insert_eq|by right|done].
    intros s' c'. cbn. destruct (decide (sid = s')) as [<-|]; [rewrite lookup_insert_eq; naive_solver|].
    rewrite lookup_insert_ne by done. apply Hnm.
  - destruct (observeLocalClusterRequest sid name r x) as [b x1] eqn:E. simplify_eq.
    assert (is_Some (clients x !! sid)) as Hs by (destruct (clients x !! sid); naive_solver).
    destruct (confirm_wf _ _ _ _ _ _ Hwf Hs E) as (Hw & Hcl & _ & Hsame).
    rewrite Hcl. split_and!; [done|done|cbn; by rewrite Hcl| |cbn; intros ->; rewrite orb_true_r; auto].
    destruct b; [by right|left]. by rewrite Hsame.
  - simplify_eq. cbn. split_and!; auto. intros [->| ->]%orb_true_iff; auto.
  - simplify_eq. cbn. split_and!; auto.
  - simplify_eq. cbn. split_and!; auto.
Qed.

(** One stream acts: the published collection stays fresh or a recomputation is due. *)
Lemma fresh_step (x x' : callbacksCollection) pub rc t (pcs : gmap Z pc) sid p' :
  pub ≡ₚ getClients x ∨ rc = true ∨ (∃ s p, pcs !! s = Some p ∧ pending p = true) →
  getClients x' = getClients x ∨ pending p' = true →
  (∀ p, pcs !! sid = Some p → pending p = true → pending p' = true ∨ t = true) →
  pub ≡ₚ getClients x' ∨ rc || t = true ∨ (∃ s p, <[sid := p']> pcs !! s = Some p ∧ pending p = true).
Proof.
  intros Hf Hg Hp.
  destruct Hg as [->|Hg]; [|right; right; exists sid, p'; by rewrite lookup_insert_eq].
  destruct Hf as [Hf|[->|(s & p & Hs & Hpend)]]; [by left|by right; left|].
  destruct (decide (sid = s)) as [<-|Hne].
  - destruct (Hp p Hs Hpend) as [Hp'| ->].
    + right; right; exists sid, p'. by rewrite lookup_insert_eq.
    + right; left. by rewrite orb_true_r.
  - right; right; exists s, p. by rewrite lookup_insert_ne.
Qed.

(** Program counters after one stream moved on. *)
Lemma pcs_step (x x' : callbacksCollection) (pcs : gmap Z pc) sid p' :
  (∀ s p, pcs !! s = Some p → pc_ok x s p) → (∀ s, sid ≠ s → clients x' !! s = clients x !! s) →
  pc_ok x' sid p' → ∀ s p, <[sid := p']> pcs !! s = Some p → pc_ok x' s p.
Proof.
  intros Hall Hfr Hp s p. destruct (decide (sid = s)) as [<-|Hne].
  - rewrite lookup_insert_eq. by intros [= <-].
  - rewrite lookup_insert_ne by done. intros Hs. eapply pc_ok_frame; [by apply Hfr|eauto].
Qed.

Lemma del_clients sid x : clients (del sid x) = delete sid (clients x).
Proof. unfold del. by repeat case_match. Qed.

Lemma step_inv s s' : inv s → stream_step s s' → inv s'.
Proof.
  intros [Hwf Hpc Hnm Hf] Hstep. destruct Hstep as [sid r peer s Hi Hr Hk|sid p s x' p' t Hp Ht|sid s Hi|pods s|s l Hr Hl].
  - split; cbn; [done| |done|].
    + by apply (pcs_step (s_col s)).
    + destruct Hf as [Hf|[Hf|(s0 & p & Hs & Hp)]]; [auto..|]. right; right.
      exists s0, p. split; [|done]. destruct (decide (sid = s0)) as [<-|]; [|by rewrite lookup_insert_ne].
      rewrite Hs in Hi. cbn in Hi. by subst.
  - destruct (handler_turn_inv _ _ _ _ _ _ _ Hwf Hnm (Hpc _ _ Hp) Ht) as (Hwf' & Hnm' & Hpc' & Hg & Hpend).
    split; cbn; [done| |done|].
    + eapply pcs_step; [exact Hpc| |done]. intros s0 Hne. by eapply handler_turn_frame.
    + eapply fresh_step; [done..|]. intros p0 Hp0. simplify_eq. done.
  - split; cbn; [by apply del_wf| | |].
    + apply (pcs_step (s_col s)); [done| |done]. intros s0 Hne. rewrite del_clients. by rewrite lookup_delete_ne.
    + intros s0 c. rewrite del_clients. intros [_ Hc]%lookup_delete_Some. eauto.
    + right; right. exists sid, TriggeringClosed. by rewrite lookup_insert_eq.
  - by split.
  - split; cbn; [done..|]. by left.
Qed.

Lemma init_inv pods : inv (init pods).
Proof.
  split; [|done..|by left].
  split; [done|intros name|done..| |].
  - cbn. rewrite lookup_empty. split; [by intros []|done].
  - intros sid. cbn. rewrite lookup_empty. done.
  - intros sid. cbn. rewrite lookup_empty. by intros [].
Qed.

Lemma reachable_inv s : reachable s → inv s.
Proof.
  intros [pods Hs]. pose proof (init_inv pods) as Hi. revert Hi.
  induction Hs as [s|s1 s2 s3 Hstep _ IH]; [done|]. intros Hi. by eapply IH, step_inv.
Qed.

(** ** What the collection promises *)

Lemma elem_of_unconfirmed name x :
  name ∈ unconfirmedBuckets x ↔
  ∃ sid c, clients x !! sid = Some c ∧ uniqueClientName c = name ∧
           default false (knownLocalClusterBySid x !! sid) = false.
Proof.
  unfold unconfirmedBuckets. rewrite elem_of_list_to_set, list_elem_of_omap. split.
  - intros ([sid c] & Hin & Hn). apply elem_of_map_to_list in Hin. cbn in Hn.
    destruct (default false (knownLocalClusterBySid x !! sid)) eqn:E; naive_solver.
  - intros (sid & c & Hc & <- & Hk). exists (sid, c). cbn. rewrite elem_of_map_to_list. by rewrite Hk.
Qed.

Lemma getClients_elem u x :
  u ∈ getClients x ↔
  ∃ name c, uniqClients x !! name = Some c ∧
    u = mkUCC (ucc_role c) (ucc_labels c) (ucc_locality c) (ucc_namespace c)
          (negb (bool_decide (name ∈ unconfirmedBuckets x))) (ucc_resource_name c).
Proof.
  unfold getClients. change (map ?f ?l) with (f <$> l). rewrite list_elem_of_fmap. split.
  - intros ([name c] & -> & Hin%elem_of_map_to_list). eauto.
  - intros (name & c & Hc & ->). exists (name, c). by rewrite elem_of_map_to_list.
Qed.

Lemma bucket_iff_stream x name :
  wf_col x →
  is_Some (uniqClients x !! name) ↔ ∃ sid c, clients x !! sid = Some c ∧ uniqueClientName c = name.
Proof.
  intros Hwf. rewrite (wf_bucket _ Hwf). split.
  - intros Hpos. destruct (map_choose (streams_of name x)) as (sid & c & Hl).
    { intros He. unfold streams_count in Hpos. rewrite He, map_size_empty in Hpos. lia. }
    apply map_lookup_filter_Some in Hl as [Hl Hn]. eauto.
  - intros (sid & c & Hl & <-). by eapply streams_count_pos.
Qed.

(** C39: in every interleaving of xDS streams the reference counts are exactly the numbers of
    connected streams and never wrap around; a bucket is kept while it has a stream and is
    gone with its last one. *)
Theorem client_counts_exact s :
  reachable s → ∀ name,
  default 0%Z (uniqClientsCount (s_col s) !! name) = streams_count name (s_col s) ∧
  (0 ≤ streams_count name (s_col s) < 2 ^ 63)%Z ∧
  (is_Some (uniqClients (s_col s) !! name) ↔
     ∃ sid c, clients (s_col s) !! sid = Some c ∧ uniqueClientName c = name).
Proof.
  intros [Hwf _ _ _]%reachable_inv name. split; [apply (wf_count _ Hwf)|split].
  - apply streams_count_bound, (wf_sids _ Hwf).
  - by apply bucket_iff_stream.
Qed.

(** the collection lists one client per bucket that has a stream, and says it knows its
    local cluster exactly when every stream of the bucket has asked for it: an unconfirmed
    stream is never sent the resource. *)
Theorem get_clients_exact s :
  reachable s →
  NoDup (ucc_resource_name <$> getClients (s_col s)) ∧
  ∀ u, u ∈ getClients (s_col s) →
    (∃ sid c, clients (s_col s) !! sid = Some c ∧ uniqueClientName c = ucc_resource_name u) ∧
    (ucc_knows_local_cluster u = true ↔
       ∀ sid c, clients (s_col s) !! sid = Some c → uniqueClientName c = ucc_resource_name u →
         knownLocalClusterBySid (s_col s) !! sid = Some true).
Proof.
  intros [Hwf _ _ _]%reachable_inv.
  split.
  - unfold getClients. change (map ?f ?l) with (f <$> l). rewrite <-list_fmap_compose.
    rewrite (list_fmap_ext _ fst).
    + apply NoDup_fst_map_to_list.
    + intros i [name c] Hi%list_elem_of_lookup_2%elem_of_map_to_list. cbn. by eapply wf_named.
  - intros u (name & c & Hc & ->)%getClients_elem. cbn.
    pose proof (wf_named _ Hwf _ _ Hc) as Hn. rewrite Hn. split.
    + apply bucket_iff_stream; eauto.
    + rewrite negb_true_iff, bool_decide_eq_false, elem_of_unconfirmed. split.
      * intros Hno sid c' Hc' Hnm. destruct (knownLocalClusterBySid (s_col s) !! sid) as [[]|] eqn:E; [done|..];
          exfalso; apply Hno; exists sid, c'; rewrite E; done.
      * intros Hall (sid & c' & Hc' & Hnm & Hk). rewrite (Hall sid c' Hc' Hnm) in Hk. done.
Qed.

(** no change of the connected clients is missed: whenever no recomputation is due and no
    handler is about to trigger one, the published clients are the current ones. *)
Theorem no_missed_recompute s :
  reachable s → s_recompute s = false → (∀ sid p, s_pcs s !! sid = Some p → pending p = false) →
  s_published s ≡ₚ getClients (s_col s).
Proof.
  intros [_ _ _ Hf]%reachable_inv Hr Hp. destruct Hf as [Hf|[Hf|(sid & p & Hs & Hpend)]]; [done|congruence|].
  rewrite (Hp _ _ Hs) in Hpend. done.
Qed.

(** ** The handlers as sequences of actions *)

Definition error_or_trigger (res : stream_error + Node * bool) : bool :=
  match res with inr (_, t) => t | inl _ => false end.

(** At most [n] actions of one stream in a row. *)
Fixpoint turns (n : nat) (pods : gmap string LocalityPod) (sid : Z) (x : callbacksCollection) (p : pc)
    (t : bool) : callbacksCollection * pc * bool :=
  match n with
  | O => (x, p, t)
  | S n => match handler_turn pods sid p x with
           | None => (x, p, t)
           | Some (x', p', t') => turns n pods sid x' p' (t || t')
           end
  end.

Lemma turns_steps n s sid p x' p' t' :
  s_pcs s !! sid = Some p → turns n (s_pods s) sid (s_col s) p (s_recompute s) = (x', p', t') →
  rtc stream_step s (mkSys x' (s_pods s) (<[sid := p']> (s_pcs s)) t' (s_published s)).
Proof.
  assert (∀ s p, s_pcs s !! sid = Some p →
    mkSys (s_col s) (s_pods s) (<[sid := p]> (s_pcs s)) (s_recompute s) (s_published s) = s) as Hid.
  { intros s0 p0 Hp. rewrite insert_id by done. by destruct s0. }
  revert s p. induction n as [|n IH]; intros s p Hp; cbn [turns]; [intros [= <- <- <-]; by rewrite Hid|].
  destruct (handler_turn (s_pods s) sid p (s_col s)) as [[[x1 p1] t1]|] eqn:E;
    [|intros [= <- <- <-]; by rewrite Hid].
  intros Ht. eapply rtc_l; [by eapply step_handler|].
  rewrite <-(insert_insert_eq (s_pcs s) sid p' p1). apply (IH (mkSys _ _ _ _ _) p1); [apply lookup_insert_eq|done].
Qed.

Lemma turns_newStream pods sid r peer x n t :
  req_node r = Some n →
  turns 6 pods sid x (Reading r peer) t =
  ((newStream pods sid r peer x).2, Idle, t || error_or_trigger (newStream pods sid r peer x).1).
Proof.
  intros Hn. unfold newStream, add. rewrite Hn. cbn [turns handler_turn].
  destruct (add_decide pods r peer (clients x !! sid)) as [e|name|ucc c]; cbn [turns handler_turn].
  - cbn. by rewrite !orb_false_r.
  - destruct (String.eqb name ""); cbn [turns handler_turn]; [cbn; by rewrite !orb_false_r|].
    destruct (observeLocalClusterRequest sid name r x) as [b x']. cbn. by rewrite !orb_false_r.
  - destruct (String.eqb (uniqueClientName c) ""); cbn [turns handler_turn]; [cbn; by rewrite !orb_false_r|].
    destruct (observeLocalClusterRequest sid _ r _) as [b x']. cbn. by rewrite !orb_false_r, orb_assoc.
Qed.

(** A request that no other stream interrupts has the effect of [newStream]. *)
Theorem request_refines_newStream s sid r peer n :
  s_pcs s !! sid = Some (Reading r peer) → req_node r = Some n →
  ∃ s', rtc stream_step s s' ∧ s_pcs s' !! sid = Some Idle ∧
    s_col s' = (newStream (s_pods s) sid r peer (s_col s)).2 ∧
    s_recompute s' =
      s_recompute s || error_or_trigger (newStream (s_pods s) sid r peer (s_col s)).1.
Proof.
  intros Hpc Hn. eexists. split_and!; [eapply turns_steps; [done|by eapply turns_newStream]|..]; [|done..].
  apply lookup_insert_eq.
Qed.

(** ** Follow-up requests

    Envoy omits the node after the first request and the server then hands in the node of
    the first one, whose role has been rewritten to the name of the bucket. *)

Lemma derive_node_irrelevant pods r r' peer ucc :
  deriveClientIdentity pods r peer = inr ucc → deriveClientIdentity pods r' peer = inr ucc.
Proof. unfold deriveClientIdentity. by repeat case_match. Qed.

Lemma newStream_entry pods sid r peer x n t x' :
  clients x !! sid = None → newStream pods sid r peer x = (inr (n, t), x') →
  ∃ n0 ucc, req_node r = Some n0 ∧ deriveClientIdentity pods r peer = inr ucc ∧
    n = set_role (ucc_resource_name ucc) n0 ∧
    clients x' !! sid = Some (mkCC (ucc_resource_name ucc) (peer_role peer)).
Proof.
  intros Hn. unfold newStream, add. rewrite Hn.
  destruct (add_decide pods r peer None) as [e|name|ucc c] eqn:E; [done| |].
  - apply add_decide_keep in E as (c & ? & _). done.
  - apply add_decide_new in E as (_ & Hd & ->). cbn [uniqueClientName].
    destruct (String.eqb _ ""); [done|]. destruct (observeLocalClusterRequest _ _ _ _) as [b x1] eqn:Ho.
    destruct (req_node r) as [n0|]; [|done]. intros [= <- <- <-]. exists n0, ucc. split_and!; [done..|].
    unfold observeLocalClusterRequest, tryConfirmLocalCluster in Ho.
    repeat case_match; simplify_eq; cbn; by rewrite lookup_insert_eq.
Qed.

(** Without xDS auth, the next request of a stream reads its peer from the rewritten node. *)
Lemma follow_up_peer n0 name usePod peers sid r :
  req_node r = Some (set_role name n0) →
  getPeerInfo false peers sid r usePod =
  inr (mkPeer name (if usePod then Some (getRef n0) else None)).
Proof.
  intros Hr. unfold getPeerInfo, roleFromRequest. rewrite Hr. cbn. rewrite lookup_insert_eq.
  by destruct usePod.
Qed.

(** [newStream] on an established stream changes no bucket, and closes the stream exactly
    when the identity derived from its original role differs. *)
Lemma newStream_established pods sid r peer x c n :
  clients x !! sid = Some c → String.eqb (uniqueClientName c) "" = false → req_node r = Some n →
  ∃ x', clients x' = clients x ∧ uniqClients x' = uniqClients x ∧ uniqClientsCount x' = uniqClientsCount x ∧
  match deriveClientIdentity pods r (mkPeer (originalRole c) (peer_podRef peer)) with
  | inr ucc =>
      if String.eqb (uniqueClientName c) (ucc_resource_name ucc)
      then ∃ t, newStream pods sid r peer x = (inr (set_role (uniqueClientName c) n, t), x')
      else newStream pods sid r peer x = (inl (IdentityChanged (uniqueClientName c) (ucc_resource_name ucc)), x')
  | inl _ => ∃ t, newStream pods sid r peer x = (inr (set_role (uniqueClientName c) n, t), x')
  end.
Proof.
  intros Hc He Hn. unfold newStream, add. rewrite Hc, Hn. unfold add_decide.
  destruct (observeLocalClusterRequest sid (uniqueClientName c) r x) as [b x1] eqn:Ho.
  assert (clients x1 = clients x ∧ uniqClients x1 = uniqClients x ∧ uniqClientsCount x1 = uniqClientsCount x)
    as (H1 & H2 & H3).
  { unfold observeLocalClusterRequest, tryConfirmLocalCluster in Ho. repeat case_match; by simplify_eq. }
  destruct (deriveClientIdentity pods r _) as [e|ucc].
  - exists x1. split_and!; [done..|]. rewrite He, Ho. eauto.
  - destruct (String.eqb (uniqueClientName c) (ucc_resource_name ucc)); cbn [negb].
    + exists x1. split_and!; [done..|]. rewrite He, Ho. eauto.
    + exists x. done.
Qed.

(** a follow-up request is recognised although its node carries the role that the first
    request was rewritten to: while the pod keeps its identity the stream stays open under
    the same cache key and the node is not rewritten again; when the identity drifts the
    stream is closed with an error.  Buckets do not change either way. *)
Theorem follow_up_keeps_identity pods x sid r n t x' pods' y r' c1 c1' :
  cb_auth x = false → cb_pods x = Some pods → cb_collection x = Some c1 → clients c1 !! sid = None →
  IsKubeGatewayCacheKey (roleFromRequest r) = true →
  OnStreamRequest sid r x = (inr (Some n, t), x') →
  (** any later state of the callbacks in which the stream is still registered *)
  cb_auth y = false → cb_pods y = Some pods' → cb_collection y = Some c1' →
  clients c1' !! sid = (cb_collection x' ≫= λ c, clients c !! sid) →
  cb_extra y sid r' = None → req_node r' = Some n →
  ∃ ucc y',
    deriveClientIdentity pods r (mkPeer (roleFromRequest r) (getRef <$> req_node r)) = inr ucc ∧
    node_hash_id n = ucc_resource_name ucc ∧
    (cb_collection y' ≫= λ c, Some (clients c, uniqClients c, uniqClientsCount c)) =
      Some (clients c1', uniqClients c1', uniqClientsCount c1') ∧
    (** the identity now, derived from the role the stream first presented *)
    match deriveClientIdentity pods' r (mkPeer (roleFromRequest r) (getRef <$> req_node r)) with
    | inr ucc' =>
        if String.eqb (ucc_resource_name ucc) (ucc_resource_name ucc')
        then ∃ t', OnStreamRequest sid r' y = (inr (Some n, t'), y')
        else OnStreamRequest sid r' y =
               (inl (IdentityChanged (ucc_resource_name ucc) (ucc_resource_name ucc')), y')
    | inl _ => ∃ t', OnStreamRequest sid r' y = (inr (Some n, t'), y')
    end.
Proof.
  intros Hax Hpx Hcx Hno Hk Hreq Hay Hpy Hcy Hsame Hex Hr'.
  unfold OnStreamRequest in Hreq. rewrite Hcx, Hax, Hpx in Hreq.
  destruct (cb_extra x sid r); [done|]. rewrite bool_decide_eq_true_2 in Hreq by eauto.
  cbn [getPeerInfo negb peer_role default] in Hreq. rewrite Hk in Hreq. cbn [negb] in Hreq. change (id pods) with pods in Hreq.
  destruct (newStream pods sid r (mkPeer (roleFromRequest r) (getRef <$> req_node r)) c1) as [[e|[n1 t1]] c2] eqn:Hns; [done|]. simplify_eq.
  destruct (newStream_entry _ _ _ _ _ _ _ _ Hno Hns) as (n0 & ucc & Hn0 & Hd & -> & Hc2). cbn in Hsame.
  rewrite Hc2 in Hsame. cbn [peer_role] in Hsame.
  pose proof (derive_kube_key pods r (mkPeer _ _) ucc Hk Hd) as Hk'.
  rewrite Hn0 in Hd |- *. change (getRef <$> Some n0) with (Some (getRef n0)) in Hd |- *.
  destruct (newStream_established pods' sid r' (mkPeer (ucc_resource_name ucc) (Some (getRef n0))) c1' _ _ Hsame
              (kube_key_nonempty _ Hk') Hr') as (c3 & E1 & E2 & E3 & Hres).
  cbn [uniqueClientName originalRole peer_podRef] in Hres. exists ucc, (with_collection c3 y).
  split_and!; [done|unfold node_hash_id; cbn; by rewrite lookup_insert_eq|cbn; by rewrite E1, E2, E3|].
  unfold OnStreamRequest. rewrite Hex, Hcy, Hay, Hpy.
  rewrite (follow_up_peer n0 (ucc_resource_name ucc)) by done.
  rewrite bool_decide_eq_true_2 by eauto. cbn [peer_role]. rewrite Hk'. cbn [negb default].
  assert (set_role (ucc_resource_name ucc) (set_role (ucc_resource_name ucc) n0) = set_role (ucc_resource_name ucc) n0)
    as Hid by (unfold set_role; cbn; by rewrite insert_insert_eq).
  rewrite Hid in Hres.
  destruct (deriveClientIdentity pods' r' _) as [e'|ucc'] eqn:Hd'.
  - destruct (deriveClientIdentity pods' r (mkPeer _ _)) as [|u2] eqn:Hd2;
      [|by rewrite (derive_node_irrelevant _ _ r' _ _ Hd2) in Hd'].
    destruct Hres as [t' Hres]. exists t'. unfold default, id. by rewrite Hres.
  - rewrite (derive_node_irrelevant _ _ r _ _ Hd'). destruct (String.eqb _ (ucc_resource_name ucc')).
    + destruct Hres as [t' Hres]. exists t'. unfold default, id. by rewrite Hres.
    + unfold default, id. by rewrite Hres.
Qed.

(** ** A rolling upgrade

    Two replicas of a gateway share a bucket because they have the same labels; one of them
    has asked for the local cluster. *)

Definition run_request (sid : Z) (r : DiscoveryRequest) (peer : peerInfo) (s : sys) : sys :=
  let s := set_pc sid (Reading r peer) s in
  let '(x, p, t) := turns 6 (s_pods s) sid (s_col s) (Reading r peer) (s_recompute s) in
  mkSys x (s_pods s) (<[sid := p]> (s_pcs s)) t (s_published s).

Lemma run_request_reachable sid r peer s :
  reachable s → default Idle (s_pcs s !! sid) = Idle → (0 < sid < 2 ^ 63)%Z →
  IsKubeGatewayCacheKey (peer_role peer) = true → reachable (run_request sid r peer s).
Proof.
  intros [pods Hs] Hi Hr Hk. exists pods. etrans; [exact Hs|].
  eapply rtc_l; [by apply (step_request sid r peer)|]. unfold run_request.
  destruct (turns 6 _ sid _ _ _) as [[x p] t] eqn:E.
  eapply turns_steps; [|exact E]. apply lookup_insert_eq.
Qed.

Definition ex_labels : gmap string string := {[ GatewayNameLabel := "gw" ]}.
Definition ex_locality : PodLocality := mkLoc "r" "z" "".
Definition ex_pods : gmap string LocalityPod :=
  {[ "ns/p1" := mkPod "p1" "ns" ex_locality ex_labels []; "ns/p2" := mkPod "p2" "ns" ex_locality ex_labels [] ]}.
Definition ex_role : string := OwnerNamespaceNameID GatewayApiProxyValue "ns" "gw".
Definition ex_node (pod : string) : Node :=
  mkNode (pod +:+ ".ns") {[ RoleKey := VString ex_role ]} (UABuild (Some (1, 38, 0)))%Z.
Definition ex_req (pod : string) : DiscoveryRequest :=
  mkReq (Some (ex_node pod)) EndpointType (if String.eqb pod "p1" then ["gw.ns"] else []).
Definition ex_peer (pod : string) : peerInfo := mkPeer ex_role (Some (mkNN "ns" pod)).

Definition ex_sys : sys :=
  run_request 2 (ex_req "p2") (ex_peer "p2") (run_request 1 (ex_req "p1") (ex_peer "p1") (init ex_pods)).

Definition ex_bucket : string :=
  ex_role +:+ "~" +:+ pretty (HashLabels ex_labels) +:+ "~ns".

Lemma ex_sys_reachable : reachable ex_sys.
Proof.
  apply run_request_reachable; [|by vm_compute..].
  apply run_request_reachable; [|by vm_compute..].
  exists ex_pods. reflexivity.
Defined.

Lemma client_counts_exact_witness :
  reachable ex_sys ∧ default 0%Z (uniqClientsCount (s_col ex_sys) !! ex_bucket) = 2%Z.
Proof.
  split; [apply ex_sys_reachable|].
  rewrite (proj1 (client_counts_exact ex_sys ex_sys_reachable ex_bucket)). vm_compute. reflexivity.
Defined.

Definition knows_locals (s : sys) : list bool := ucc_knows_local_cluster <$> getClients (s_col s).

Lemma get_clients_exact_witness :
  reachable ex_sys ∧ knows_locals ex_sys = [false] ∧
  knownLocalClusterBySid (s_col ex_sys) !! 1%Z = Some true ∧
  NoDup (ucc_resource_name <$> getClients (s_col ex_sys)).
Proof.
  split; [apply ex_sys_reachable|]. split; [vm_compute; reflexivity|]. split; [vm_compute; reflexivity|].
  exact (proj1 (get_clients_exact ex_sys ex_sys_reachable)).
Defined.

Definition ex_sys_published : sys :=
  mkSys (s_col ex_sys) (s_pods ex_sys) (s_pcs ex_sys) false (getClients (s_col ex_sys)).

Lemma ex_published_reachable : reachable ex_sys_published.
Proof.
  destruct ex_sys_reachable as [pods Hs]. exists pods. eapply rtc_r; [exact Hs|].
  apply (step_recompute ex_sys); [vm_compute; reflexivity|reflexivity].
Defined.

Lemma no_missed_recompute_witness :
  s_published ex_sys_published ≡ₚ getClients (s_col ex_sys_published) ∧
  length (s_published ex_sys_published) = 1%nat.
Proof.
  split; [|vm_compute; reflexivity].
  apply (no_missed_recompute ex_sys_published ex_published_reachable); [reflexivity|].
  intros sid p. cbn.
  destruct (decide (sid = 2)%Z) as [->|H2]; [vm_compute; by intros [= <-]|].
  destruct (decide (sid = 1)%Z) as [->|H1]; [vm_compute; by intros [= <-]|].
  intros Hp. assert (s_pcs ex_sys = <[2 := Idle]> (<[1 := Idle]> ∅))%Z as He by (vm_compute; reflexivity).
  change (s_pcs ex_sys !! sid = Some p) in Hp.
  rewrite He in Hp. clear He. rewrite !lookup_insert_ne in Hp by congruence. by rewrite lookup_empty in Hp.
Defined.

Definition ex_callbacks : callbacks := mkCb false ∅ (Some empty_collection) (Some ex_pods) (λ _ _, None).
Definition ex_first : (stream_error + option Node * bool) * callbacks :=
  OnStreamRequest 1 (ex_req "p1") ex_callbacks.

(** The pod of the client moved to another zone. *)
Definition ex_moved : gmap string LocalityPod :=
  <[ "ns/p1" := mkPod "p1" "ns" ex_locality (<[ "zone" := "b" ]> ex_labels) [] ]> ex_pods.

Definition ex_rewritten : Node := set_role ex_bucket (ex_node "p1").

Lemma follow_up_keeps_identity_witness :
  ∃ y', OnStreamRequest 1 (mkReq (Some ex_rewritten) EndpointType [])
          (mkCb false ∅ (cb_collection ex_first.2) (Some ex_moved) (λ _ _, None)) =
        (inl (IdentityChanged ex_bucket
                (ex_role +:+ "~" +:+ pretty (HashLabels (<[ "zone" := "b" ]> ex_labels)) +:+ "~ns")), y').
Proof.
  destruct (follow_up_keeps_identity ex_pods ex_callbacks 1 (ex_req "p1") ex_rewritten true ex_first.2 ex_moved
              (mkCb false ∅ (cb_collection ex_first.2) (Some ex_moved) (λ _ _, None))
              (mkReq (Some ex_rewritten) EndpointType []) empty_collection
              (default empty_collection (cb_collection ex_first.2)))
    as (ucc & y' & Hd & _ & _ & Hres);
    [vm_compute; reflexivity..|].
  exists y'. vm_compute in Hd. injection Hd as <-. vm_compute in Hres. vm_compute. exact Hres.
Defined.

(** The version floor is 1.37.2, and versions are compared lexicographically. *)
Theorem version_gate major minor patch :
  (0 ≤ major)%Z → (0 ≤ minor)%Z → (0 ≤ patch)%Z →
  version_too_old (major, minor, patch) = false ↔
  (1 < major ∨ major = 1 ∧ (37 < minor ∨ minor = 37 ∧ 2 ≤ patch))%Z.
Proof. unfold version_too_old, minEnvoyMinorVersion, minEnvoyPatchVersion. lia. Qed.
