(* ===== verification/GatewayIndex.v ===== *)
(** * The Gateway index (pkg/krtcollections/policy.go, option.go, configmaps.go)

    From a Gateway object and the ListenerSets that name it to the Gateway IR: whether the
    class is ours, the handshake that admits ListenerSets, the order of the listeners, the
    policies attached to each, and the frontend TLS configuration.  The IR is what listener
    validation and translation start from. *)

From S2P Require Import Prelude IR SortableRoute Delegation RouteTree Query References PolicyIndex ListenerValidation.

(** ** Objects *)

Record ObjectReference := mkObjRef {
  or_group : string; or_kind : string; or_namespace : option string; or_name : string }.
#[global] Instance ObjectReference_eq_dec : EqDecision ObjectReference.
Proof. solve_decision. Defined.

(** A listener of the API with the TLS fields that validation does not read; they count
    when the listener has a TLS block, that is when [l_tls_mode] is set. *)
Record GwListener := mkGL {
  gl_listener : Listener; gl_cert_refs : list SecretObjectReference; gl_tls_options : gmap string string }.

Record ListenerSetObj := mkLSO {
  lso_gvk : GroupVersionKind; lso_namespace : string; lso_name : string; lso_creation : Z;
  lso_labels : gmap string string;
  lso_parent_kind : option string; lso_parent_namespace : option string; lso_parent_name : string;
  lso_listeners : list GwListener }.

Record FrontendTLSValidation := mkFTV { ftv_refs : list ObjectReference; ftv_mode : string }.

(** [gwv1.FrontendTLSConfig]: the default and the per-port validations. *)
Record FrontendTLSConfig := mkFTC {
  ftc_default : option FrontendTLSValidation; ftc_per_port : list (Z * option FrontendTLSValidation) }.

Record GatewayObj := mkGO {
  go_gvk : GroupVersionKind; go_namespace : string; go_name : string; go_labels : gmap string string;
  go_class : string; go_listeners : list GwListener; go_allowed : option (option RouteNamespaces);
  go_frontend : option FrontendTLSConfig; go_backend : option (option SecretObjectReference) }.

Record GatewayClass := mkGC { gc_name : string; gc_controller : string }.

(** ** Frontend TLS *)

Record ClientCertificateValidationIR := mkCCV {
  ccv_refs : list ObjectReference; ccv_require : bool; ccv_insecure_fallback : bool }.

(** Joined errors are lists. *)
Record FrontendTLSConfigIR := mkFTI {
  fti_default : option ClientCertificateValidationIR;
  fti_per_port : gmap Z ClientCertificateValidationIR;
  fti_port_errors : gmap Z (list error);
  fti_default_error : list error }.

Definition ErrInvalidCACertificateKindDetails (n ns kind : string) : error :=
  EWrap ("invalid ca.crt kind " +:+ kind +:+ " in " +:+ ns +:+ "/" +:+ n +:+ ": ")
    (ESentinel ErrInvalidCACertificateKind).

Definition validateCAReferenceType (ref : ObjectReference) : option error :=
  let err kind := Some (ErrInvalidCACertificateKindDetails (or_name ref) (str_or (or_namespace ref) "") kind) in
  if String.eqb (or_kind ref) "" then err ""
  else if String.eqb (or_group ref) "" && String.eqb (or_kind ref) "ConfigMap" then None
  else if String.eqb (or_group ref) "" && String.eqb (or_kind ref) "Secret" then None
  else err (or_kind ref).

Definition AllowValidOnly : string := "AllowValidOnly".
Definition AllowInsecureFallback : string := "AllowInsecureFallback".

Definition getRequiredClientCertificate (mode : string) : bool :=
  String.eqb mode AllowValidOnly || String.eqb mode "".

(** The two results of the loop over the CA references of one validation. *)
Definition ca_refs_step (acc : list ObjectReference * list error) (ref : ObjectReference) :
    list ObjectReference * list error :=
  match validateCAReferenceType ref with
  | Some err => (acc.1, acc.2 ++ [err])
  | None => (acc.1 ++ [ref], acc.2)
  end.

Definition validation_ir (v : FrontendTLSValidation) (validCARefs : list ObjectReference) :
    option ClientCertificateValidationIR :=
  match validCARefs with
  | [] => None
  | _ => Some (mkCCV validCARefs (getRequiredClientCertificate (ftv_mode v))
                 (String.eqb (ftv_mode v) AllowInsecureFallback))
  end.

Definition per_port_step (r : FrontendTLSConfigIR) (pc : Z * option FrontendTLSValidation) : FrontendTLSConfigIR :=
  match pc.2 with
  | None => r
  | Some v =>
      let '(valid, errs) := foldl ca_refs_step ([], []) (ftv_refs v) in
      mkFTI (fti_default r)
        (match validation_ir v valid with Some c => <[pc.1 := c]> (fti_per_port r) | None => fti_per_port r end)
        (match errs with
         | [] => fti_port_errors r
         | _ => <[pc.1 := default [] (fti_port_errors r !! pc.1) ++ errs]> (fti_port_errors r)
         end) (fti_default_error r)
  end.

Definition getFrontendTLSConfig (f : FrontendTLSConfig) : FrontendTLSConfigIR :=
  let '(d, derr) :=
    match ftc_default f with
    | None => (None, [])
    | Some v => let '(valid, errs) := foldl ca_refs_step ([], []) (ftv_refs v) in (validation_ir v valid, errs)
    end in
  foldl per_port_step (mkFTI d ∅ ∅ derr) (ftc_per_port f).

(** [resolveFrontendTLSConfig] of the listener translator: the validation of a port and the
    joined error ([[]]: nil). *)
Definition resolveFrontendTLSConfig (port : Z) (f : option FrontendTLSConfigIR) :
    option ClientCertificateValidationIR * list error :=
  match f with
  | None => (None, [])
  | Some f =>
      match fti_port_errors f !! port with
      | Some (e :: es) => (fti_per_port f !! port, e :: es)
      | _ => match fti_per_port f !! port with
             | Some c => (Some c, [])
             | None => (fti_default f, fti_default_error f)
             end
      end
  end.

(** [getGatewayBackendTLSConfig]. *)
Definition getGatewayBackendTLSConfig (b : option (option SecretObjectReference)) : option SecretObjectReference :=
  match b with Some (Some r) => Some r | _ => None end.

(** ** ConfigMaps *)

Record ConfigMap := mkCM { cm_namespace : string; cm_name : string; cm_data : gmap string string }.
Record ConfigMapIndex := mkCMI { cmi_configmaps : list ConfigMap; cmi_refgrants : RefGrantIndex }.

Definition GetConfigMap (c : ConfigMapIndex) (from : From) (ref : ObjectReference) : error + ConfigMap :=
  let toNs := str_or (or_namespace ref) (from_ns from) in
  let to := mkOS "" "ConfigMap" toNs (or_name ref) in
  if negb (ReferenceAllowed (cmi_refgrants c) (from_gk from) (from_ns from) to)
  then inl (ESentinel ErrMissingReferenceGrant)
  else match head (filter (λ x, cm_namespace x = toNs ∧ cm_name x = or_name ref) (cmi_configmaps c)) with
       | None => inl (ENotFound to)
       | Some cm => inr cm
       end.

Section index.
Context {P : Type} `{PO : PolicyIrOps P}.
Context {Selector : Type} `{SL : SelectorLib Selector} (namespaces : gmap string (gmap string string)).
Context (labels_match : gmap string string → gmap string string → bool).

(** What a listener carries besides what validation reads. *)
Record ListenerExtra := mkLE {
  le_parent_gvk : GroupVersionKind;
  le_cert_refs : list SecretObjectReference; le_tls_options : gmap string string;
  le_policies : AttachedPolicies P; le_ancestor : ParentReference }.

Record Gateway := mkGateway {
  g_source : ObjectSource;
  g_obj : Parent;
  g_spec_listeners : nat;
  g_listeners : list (@IRListener ListenerExtra);
  g_denied : gmap GroupVersionKind (list (@ListenerSetIR ListenerExtra));
  g_allowed : gmap GroupVersionKind (list (@ListenerSetIR ListenerExtra));
  g_policies : AttachedPolicies P;
  g_frontend : option FrontendTLSConfigIR;
  g_backend_tls : option SecretObjectReference }.

(** ** Indexes *)

Definition NoNamespace (namespace : string) : bool := false.

(** The index function of [processGatewayIndexConfig]. *)
Definition parent_ref_keys (ls : ListenerSetObj) : list TargetRefIndexKey :=
  let ns := str_or (lso_parent_namespace ls) "" in
  let ns := if String.eqb ns "" then lso_namespace ls else ns in
  [mkTRK GatewayGroup GatewayKind (lso_parent_name ls) ns ""].

Definition sets_of (listenerSets : list ListenerSetObj) (gw : GatewayObj) : list ListenerSetObj :=
  fetch_index parent_ref_keys (mkTRK GatewayGroup GatewayKind (go_name gw) (go_namespace gw) "") listenerSets.

Definition class_of (classes : list GatewayClass) (gw : GatewayObj) : option GatewayClass :=
  fetch_one gc_name (go_class gw) classes.

(** ** The deployer's view *)

Record GatewayForDeployer := mkGFD { gfd_source : ObjectSource; gfd_controller : string; gfd_ports : gset Z }.

Definition set_ports (ports : gset Z) (ls : ListenerSetObj) : gset Z :=
  foldl (λ ports l,
    match DetectListenerPortNumber (l_protocol (gl_listener l)) (l_port (gl_listener l)) with
    | inl _ => ports
    | inr port => {[ port ]} ∪ ports
    end) ports (lso_listeners ls).

Definition GatewaysForDeployerTransformationFunc (controllerNames : gset string) (classes : list GatewayClass)
    (listenerSets : list ListenerSetObj) (gw : GatewayObj) : option GatewayForDeployer :=
  match class_of classes gw with
  | None => None
  | Some gwClass =>
      if negb (bool_decide (gc_controller gwClass ∈ controllerNames)) then None
      else
        let ports := foldl (λ ports l, {[ l_port (gl_listener l) ]} ∪ ports) (∅ : gset Z) (go_listeners gw) in
        Some (mkGFD (mkOS GatewayGroup GatewayKind (go_namespace gw) (go_name gw)) (gc_controller gwClass)
                (foldl set_ports ports (sets_of listenerSets gw)))
  end.

(** ** The handshake *)

Definition AllowedListenerSet (allowed : option (option RouteNamespaces)) (parentNamespace : string) :
    error + (string → bool) :=
  match allowed with
  | Some (Some (mkRN (Some from) selector)) =>
      if String.eqb from "All" then inr (λ ns, AllNamespace ns)
      else if String.eqb from "Same" then inr (SameNamespace parentNamespace)
      else if String.eqb from "Selector" then
        match selector with
        | None => inl (EMsg "selector must be set")
        | Some s =>
            match LabelSelectorAsSelector s with
            | inl err => inl err
            | inr sel => inr (NamespaceSelector namespaces sel)
            end
        end
      else inr NoNamespace
  | _ => inr NoNamespace
  end.

(** Why a ListenerSet does not attach; [None] when it does. *)
Definition set_denied (allowed : option (option RouteNamespaces)) (allowedNs : error + (string → bool))
    (ls : ListenerSetObj) : option string :=
  match allowed with
  | None => Some "Unable to attach to parent, gateway has not enabled allowedListeners"
  | Some _ =>
      match allowedNs with
      | inl _ => Some "Unable to parse allowedListeners"
      | inr allowedNs => if allowedNs (lso_namespace ls) then None else Some "Attachment not allowed"
      end
  end.

(** Older first, then by [{namespace}/{name}]. *)
Definition set_key (ls : ListenerSetObj) : string := lso_namespace ls +:+ "/" +:+ lso_name ls.
Definition set_cmp : ListenerSetObj → ListenerSetObj → comparison :=
  (cmp_on lso_creation Z.compare ▷ cmp_on set_key String.compare)%cmp.

Definition set_gvk (ls : ListenerSetObj) : GroupVersionKind :=
  if bool_decide (lso_gvk ls = mkGVK "" "" "") then ListenerSetGVK else lso_gvk ls.

Definition set_parent (ls : ListenerSetObj) : Parent :=
  mkParent TListenerSet (gvk_kind (set_gvk ls)) (lso_namespace ls) (lso_name ls).

Definition set_source (ls : ListenerSetObj) : ObjectSource :=
  mkOS (gvk_group (set_gvk ls)) (gvk_kind (set_gvk ls)) (lso_namespace ls) (lso_name ls).

Definition gw_source (gw : GatewayObj) : ObjectSource :=
  mkOS GatewayGroup GatewayKind (go_namespace gw) (go_name gw).

Definition gw_parent (gw : GatewayObj) : Parent :=
  mkParent TGateway (gvk_kind (go_gvk gw)) (go_namespace gw) (go_name gw).

(** [ToListener] copies a listener entry; sharing is not observable. *)
Definition set_listener (pi : @PolicyIndex P) (ls : ListenerSetObj) (setPolicies : list (PolicyAtt P))
    (l : GwListener) : option (@IRListener ListenerExtra) :=
  specific ← GetTargetingPolicies labels_match pi (set_source ls) (l_name (gl_listener l)) (lso_labels ls);
  Some (mkIRL (gl_listener l) (set_parent ls)
          (mkLE (set_gvk ls) (gl_cert_refs l) (gl_tls_options l) (ToAttachedPolicies (specific ++ setPolicies) [])
             (mkPR (Some (gvk_group (set_gvk ls))) (Some (gvk_kind (set_gvk ls))) (Some (lso_namespace ls))
                (lso_name ls) None None))).

Definition set_ir (pi : @PolicyIndex P) (ls : ListenerSetObj) : option (@ListenerSetIR ListenerExtra) :=
  setPolicies ← GetTargetingPolicies labels_match pi (set_source ls) "" (lso_labels ls);
  listeners ← mapM (set_listener pi ls setPolicies) (lso_listeners ls);
  Some (mkLSIR (set_source ls) (set_parent ls) listeners None).

Definition append_set (gvk : GroupVersionKind) (x : @ListenerSetIR ListenerExtra)
    (m : gmap GroupVersionKind (list (@ListenerSetIR ListenerExtra))) :=
  <[gvk := default [] (m !! gvk) ++ [x]]> m.

(** One turn of the loop over the ListenerSets. *)
Definition attach_step (pi : @PolicyIndex P) (allowed : option (option RouteNamespaces))
    (allowedNs : error + (string → bool)) (g : Gateway) (ls : ListenerSetObj) : option Gateway :=
  lsIR ← set_ir pi ls;
  match set_denied allowed allowedNs ls with
  | Some err =>
      let lsIR := mkLSIR (lsi_source lsIR) (lsi_obj lsIR) (lsi_listeners lsIR) (Some err) in
      Some (mkGateway (g_source g) (g_obj g) (g_spec_listeners g) (g_listeners g)
              (append_set (set_gvk ls) lsIR (g_denied g)) (g_allowed g) (g_policies g) (g_frontend g) (g_backend_tls g))
  | None =>
      Some (mkGateway (g_source g) (g_obj g) (g_spec_listeners g) (g_listeners g ++ lsi_listeners lsIR)
              (g_denied g) (append_set (set_gvk ls) lsIR (g_allowed g)) (g_policies g) (g_frontend g) (g_backend_tls g))
  end.

Definition gw_listener (pi : @PolicyIndex P) (gw : GatewayObj) (l : GwListener) :
    option (@IRListener ListenerExtra) :=
  policies ← GetTargetingPolicies labels_match pi (gw_source gw) (l_name (gl_listener l)) (go_labels gw);
  Some (mkIRL (gl_listener l) (gw_parent gw)
          (mkLE (go_gvk gw) (gl_cert_refs l) (gl_tls_options l) (ToAttachedPolicies policies [])
             (mkPR (Some GatewayGroup) (Some GatewayKind) (Some (go_namespace gw)) (go_name gw) None None))).

(** [None] is a nil dereference, [Some None] a Gateway that is not ours. *)
Definition GatewaysForEnvoyTransformationFunc (envoyControllerName : string) (classes : list GatewayClass)
    (pi : @PolicyIndex P) (listenerSets : list ListenerSetObj) (gw : GatewayObj) : option (option Gateway) :=
  match class_of classes gw with
  | None => Some None
  | Some gwClass =>
      if negb (String.eqb (gc_controller gwClass) envoyControllerName) then Some None
      else
        policies ← GetTargetingPolicies labels_match pi (gw_source gw) "" (go_labels gw);
        listeners ← mapM (gw_listener pi gw) (go_listeners gw);
        let allowedNs := AllowedListenerSet (go_allowed gw) (go_namespace gw) in
        let g := mkGateway (gw_source gw) (gw_parent gw) (length (go_listeners gw)) listeners ∅ ∅
                   (ToAttachedPolicies policies [])
                   (getFrontendTLSConfig <$> go_frontend gw) (getGatewayBackendTLSConfig (go_backend gw)) in
        g ← foldM (attach_step pi (go_allowed gw) allowedNs) g
              (sort_stable set_cmp (sets_of listenerSets gw));
        Some (Some g)
  end.

(** ** Attached ListenerSets *)

Definition admitted (gw : GatewayObj) (listenerSets : list ListenerSetObj) : list ListenerSetObj :=
  filter (λ ls, set_denied (go_allowed gw) (AllowedListenerSet (go_allowed gw) (go_namespace gw)) ls = None)
    (sort_stable set_cmp (sets_of listenerSets gw)).

(** The handshake, as the API defines it. *)
Definition handshake (gw : GatewayObj) (ns : string) : Prop :=
  ∃ from selector, go_allowed gw = Some (Some (mkRN (Some from) selector)) ∧
    (from = "All" ∨ from = "Same" ∧ ns = go_namespace gw ∨
     from = "Selector" ∧ ∃ s sel, selector = Some s ∧ LabelSelectorAsSelector s = inr sel ∧
       match namespaces !! ns with
       | Some labels => sel_matches sel labels = true
       | None => sel_empty sel = true
       end).

(** What listener validation reads of a Gateway, the ListenerSets of the kinds in some order. *)
Definition gateway_view (order : gmap GroupVersionKind (list (@ListenerSetIR ListenerExtra)) →
      list (list (@ListenerSetIR ListenerExtra))) (g : Gateway) : @GatewayIR ListenerExtra :=
  mkGW (g_obj g) (g_spec_listeners g) (g_listeners g) (order (g_allowed g)) (order (g_denied g)).

Lemma set_denied_None gw ls :
  set_denied (go_allowed gw) (AllowedListenerSet (go_allowed gw) (go_namespace gw)) ls = None ↔
  handshake gw (lso_namespace ls).
Proof.
  unfold set_denied, AllowedListenerSet, handshake.
  destruct (go_allowed gw) as [[[[from|] selector]|]|]; [|naive_solver..].
  destruct (String.eqb_spec from "All") as [->|HA]; [naive_solver|].
  destruct (String.eqb_spec from "Same") as [->|HS].
  { unfold SameNamespace. destruct (String.eqb_spec (go_namespace gw) (lso_namespace ls)); naive_solver. }
  destruct (String.eqb_spec from "Selector") as [->|HL]; [|naive_solver].
  destruct selector as [s|]; [|naive_solver].
  destruct (LabelSelectorAsSelector s) as [err|sel] eqn:E.
  { split; [done|]. intros (f & sel' & Heq & Hor). simplify_eq.
    destruct Hor as [?|[[? _]|(_ & s' & x & ? & Hx & Hm)]]; congruence. }
  transitivity (NamespaceSelector namespaces sel (lso_namespace ls) = true);
    [by destruct (NamespaceSelector namespaces sel (lso_namespace ls))|].
  assert (NamespaceSelector namespaces sel (lso_namespace ls) = true ↔
    match namespaces !! lso_namespace ls with
    | Some labels => sel_matches sel labels = true | None => sel_empty sel = true end) as ->.
  { unfold NamespaceSelector. by destruct (namespaces !! lso_namespace ls). }
  split.
  - intros Hm. exists "Selector", (Some s). split; [done|]. right; right. split; [done|]. by exists s, sel.
  - intros (f & sel' & Heq & Hor). simplify_eq. destruct Hor as [?|[[? _]|(_ & s' & x & ? & Hx & Hm)]]; simplify_eq.
    by rewrite E in Hx; simplify_eq.
Qed.

(** The accumulated listeners and sets of the loop. *)
Lemma attach_loop pi allowed allowedNs sets g g' :
  foldM (attach_step pi allowed allowedNs) g sets = Some g' →
  ∃ irs, mapM (set_ir pi) (filter (λ ls, set_denied allowed allowedNs ls = None) sets) = Some irs ∧
    g_listeners g' = g_listeners g ++ (irs ≫= lsi_listeners) ∧
    (∀ gvk x, x ∈ default [] (g_allowed g' !! gvk) ↔
       x ∈ default [] (g_allowed g !! gvk) ∨
       ∃ ls, ls ∈ sets ∧ set_denied allowed allowedNs ls = None ∧ set_gvk ls = gvk ∧ set_ir pi ls = Some x) ∧
    (∀ gvk x, x ∈ default [] (g_denied g' !! gvk) ↔
       x ∈ default [] (g_denied g !! gvk) ∨
       ∃ ls err y, ls ∈ sets ∧ set_denied allowed allowedNs ls = Some err ∧ set_gvk ls = gvk ∧
         set_ir pi ls = Some y ∧ x = mkLSIR (lsi_source y) (lsi_obj y) (lsi_listeners y) (Some err)) ∧
    g_frontend g' = g_frontend g ∧ g_obj g' = g_obj g ∧ Forall (λ ls, is_Some (set_ir pi ls)) sets.
Proof.
  revert g. induction sets as [|ls sets IH]; intros g.
  { cbn. intros [= <-]. exists []. rewrite app_nil_r. split_and!; try done; set_solver. }
  cbn [foldM]. destruct (attach_step pi allowed allowedNs g ls) as [g1|] eqn:E1; [|done]. intros H.
  unfold attach_step in E1. destruct (set_ir pi ls) as [x|] eqn:Ex; [|done]. cbn [mbind option_bind] in E1.
  destruct (set_denied allowed allowedNs ls) as [err|] eqn:Ed; injection E1 as <-.
  - destruct (IH _ H) as (irs & Hm & Hl & Ha & Hd & Hf & Hob & Hrest). exists irs. rewrite filter_cons_False by (by rewrite Ed).
    split; [done|]. split; [done|]. split; [|split; [|split_and!; [done..|by constructor]]].
    + intros gvk y. rewrite Ha. cbn. setoid_rewrite elem_of_cons. clear IH H Hm Hl Ha Hd Hrest. naive_solver.
    + intros gvk y. rewrite Hd. cbn. unfold append_set.
      destruct (decide (set_gvk ls = gvk)) as [<-|Hne].
      * rewrite lookup_insert_eq. cbn. rewrite elem_of_app, list_elem_of_singleton. setoid_rewrite elem_of_cons. clear IH H Hm Hl Ha Hd Hrest. naive_solver.
      * rewrite lookup_insert_ne by done. setoid_rewrite elem_of_cons. clear IH H Hm Hl Ha Hd Hrest. naive_solver.
  - destruct (IH _ H) as (irs & Hm & Hl & Ha & Hd & Hf & Hob & Hrest). exists (x :: irs). rewrite filter_cons_True by done.
    cbn [mapM]. split; [by rewrite Ex; cbn; rewrite Hm|].
    split; [rewrite Hl; cbn; by rewrite app_assoc|]. split; [|split; [|split_and!; [done..|by constructor]]].
    + intros gvk y. rewrite Ha. cbn. unfold append_set.
      destruct (decide (set_gvk ls = gvk)) as [<-|Hne].
      * rewrite lookup_insert_eq. cbn. rewrite elem_of_app, list_elem_of_singleton. setoid_rewrite elem_of_cons. clear IH H Hm Hl Ha Hd Hrest. naive_solver.
      * rewrite lookup_insert_ne by done. setoid_rewrite elem_of_cons. clear IH H Hm Hl Ha Hd Hrest. naive_solver.
    + intros gvk y. rewrite Hd. cbn. setoid_rewrite elem_of_cons. clear IH H Hm Hl Ha Hd Hrest. naive_solver.
Qed.

Lemma set_ir_parts pi ls x :
  set_ir pi ls = Some x →
  lsi_source x = set_source ls ∧ lsi_obj x = set_parent ls ∧
  il_listener <$> lsi_listeners x = gl_listener <$> lso_listeners ls ∧
  Forall (λ il, il_parent il = set_parent ls) (lsi_listeners x).
Proof.
  unfold set_ir. destruct (GetTargetingPolicies _ _ _ _ _) as [sp|]; [|done]. cbn [mbind option_bind].
  destruct (mapM _ _) as [ls'|] eqn:Em; [|done]. intros [= <-]. cbn.
  apply mapM_Some in Em. split_and!; [done..| |].
  - induction Em as [|l il l1 l2 Hl _ IH]; [done|]. cbn. f_equal; [|exact IH].
    unfold set_listener in Hl. destruct (GetTargetingPolicies _ _ _ _ _); by simplify_eq/=.
  - induction Em as [|l il l1 l2 Hl _ IH]; [done|]. constructor; [|exact IH].
    unfold set_listener in Hl. destruct (GetTargetingPolicies _ _ _ _ _); by simplify_eq/=.
Qed.

Lemma gw_listeners_parts pi gw ls :
  mapM (gw_listener pi gw) (go_listeners gw) = Some ls →
  il_listener <$> ls = gl_listener <$> go_listeners gw ∧ Forall (λ il, il_parent il = gw_parent gw) ls.
Proof.
  intros Em%mapM_Some. split.
  - induction Em as [|l il l1 l2 Hl _ IH]; [done|]. cbn. f_equal; [|exact IH].
    unfold gw_listener in Hl. destruct (GetTargetingPolicies _ _ _ _ _); by simplify_eq/=.
  - induction Em as [|l il l1 l2 Hl _ IH]; [done|]. constructor; [|exact IH].
    unfold gw_listener in Hl. destruct (GetTargetingPolicies _ _ _ _ _); by simplify_eq/=.
Qed.

(** The IR of a Gateway that is ours. *)
Lemma gateway_ir_parts envoy classes pi sets gw g :
  GatewaysForEnvoyTransformationFunc envoy classes pi sets gw = Some (Some g) →
  ∃ own irs, mapM (gw_listener pi gw) (go_listeners gw) = Some own ∧
    mapM (set_ir pi) (admitted gw sets) = Some irs ∧
    g_listeners g = own ++ (irs ≫= lsi_listeners) ∧
    g_obj g = gw_parent gw ∧ g_frontend g = getFrontendTLSConfig <$> go_frontend gw ∧
    Forall (λ ls, is_Some (set_ir pi ls)) (sets_of sets gw) ∧
    (∀ gvk x, x ∈ default [] (g_allowed g !! gvk) ↔
       ∃ ls, ls ∈ sets_of sets gw ∧ handshake gw (lso_namespace ls) ∧ set_gvk ls = gvk ∧ set_ir pi ls = Some x) ∧
    (∀ gvk x, x ∈ default [] (g_denied g !! gvk) ↔
       ∃ ls err y, ls ∈ sets_of sets gw ∧
         set_denied (go_allowed gw) (AllowedListenerSet (go_allowed gw) (go_namespace gw)) ls = Some err ∧
         set_gvk ls = gvk ∧ set_ir pi ls = Some y ∧
         x = mkLSIR (lsi_source y) (lsi_obj y) (lsi_listeners y) (Some err)).
Proof.
  unfold GatewaysForEnvoyTransformationFunc. destruct (class_of classes gw) as [c|]; [|done].
  destruct (negb _); [done|]. destruct (GetTargetingPolicies _ _ _ _ _) as [pol|]; [|done]. cbn [mbind option_bind].
  destruct (mapM (gw_listener pi gw) (go_listeners gw)) as [own|] eqn:Eo; [|done].
  cbn [mbind option_bind].
  match goal with |- context [foldM ?f ?b ?l] => destruct (foldM f b l) as [g1|] eqn:Ef; [|done] end.
  intros [= <-].
  apply attach_loop in Ef as (irs & Hm & Hl & Ha & Hd & Hfr & Hob & Hall). exists own, irs. cbn in *.
  rewrite (sort_stable_perm set_cmp) in Hall. split_and!; [done..| |].
  - intros gvk x. rewrite Ha, lookup_empty. setoid_rewrite set_denied_None. setoid_rewrite sort_stable_elem_of.
    cbn. split; [intros [[]%elem_of_nil|?]; done|auto].
  - intros gvk x. rewrite Hd, lookup_empty. setoid_rewrite sort_stable_elem_of.
    cbn. split; [intros [[]%elem_of_nil|?]; done|auto].
Qed.

(** Every listener of the IR belongs to the Gateway or to an admitted ListenerSet. *)
Lemma gateway_listener_origin envoy classes pi sets gw g il :
  GatewaysForEnvoyTransformationFunc envoy classes pi sets gw = Some (Some g) → il ∈ g_listeners g →
  (il_parent il = gw_parent gw ∧ il_listener il ∈ gl_listener <$> go_listeners gw) ∨
  ∃ ls, ls ∈ sets_of sets gw ∧ handshake gw (lso_namespace ls) ∧ il_parent il = set_parent ls ∧
        il_listener il ∈ gl_listener <$> lso_listeners ls.
Proof.
  intros (own & irs & Ho & Hi & Hl & _)%gateway_ir_parts. rewrite Hl, elem_of_app, list_elem_of_bind.
  intros [Hin|(x & Hin & Hx)].
  - left. apply gw_listeners_parts in Ho as [Hm Hp]. rewrite Forall_forall in Hp.
    split; [by apply Hp|]. rewrite <-Hm. by apply list_elem_of_fmap_2.
  - right. apply mapM_Some in Hi.
    apply list_elem_of_lookup in Hx as [k Hk].
    destruct (Forall2_lookup_r _ _ _ _ _ Hi Hk) as (ls & Hls & Hir).
    apply list_elem_of_lookup_2 in Hls. unfold admitted in Hls.
    apply list_elem_of_filter in Hls as [Hd Hs%sort_stable_elem_of].
    apply set_ir_parts in Hir as (_ & _ & Hm & Hp). rewrite Forall_forall in Hp. exists ls.
    split_and!; [done|by apply set_denied_None|by apply Hp|]. rewrite <-Hm. by apply list_elem_of_fmap_2.
Qed.

(** a ListenerSet is attached to the Gateway it names exactly when the Gateway allows its
    namespace; otherwise it is recorded as denied, with the reason, and contributes no
    listener. *)
Theorem listener_set_handshake envoy classes pi sets gw g :
  GatewaysForEnvoyTransformationFunc envoy classes pi sets gw = Some (Some g) →
  ∀ ls, ls ∈ sets_of sets gw →
  (handshake gw (lso_namespace ls) →
     ∃ x, x ∈ default [] (g_allowed g !! set_gvk ls) ∧ lsi_source x = set_source ls ∧
          il_listener <$> lsi_listeners x = gl_listener <$> lso_listeners ls ∧
          ∀ il, il ∈ lsi_listeners x → il ∈ g_listeners g) ∧
  (¬ handshake gw (lso_namespace ls) →
     (∃ x, x ∈ default [] (g_denied g !! set_gvk ls) ∧ lsi_source x = set_source ls ∧ is_Some (lsi_err x)) ∧
     ∀ il, il ∈ g_listeners g → il_parent il ≠ set_parent ls).
Proof.
  intros Hg ls Hls. pose proof Hg as (own & irs & Ho & Hi & Hl & _ & _ & Hall & Ha & Hd)%gateway_ir_parts.
  rewrite Forall_forall in Hall. destruct (Hall ls Hls) as [x Hx].
  pose proof Hx as (Hsrc & Hobj & Hm & _)%set_ir_parts. split.
  - intros Hh. exists x. split_and!; [rewrite Ha; eauto|done|done|].
    intros il Hil. rewrite Hl, elem_of_app, list_elem_of_bind. right. exists x. split; [done|].
    apply mapM_Some in Hi. assert (ls ∈ admitted gw sets) as Hadm.
    { apply list_elem_of_filter. split; [by apply set_denied_None|by apply sort_stable_elem_of]. }
    apply list_elem_of_lookup in Hadm as [k Hk].
    destruct (Forall2_lookup_l _ _ _ _ _ Hi Hk) as (y & Hy & Hxy). rewrite Hx in Hxy. simplify_eq.
    by eapply list_elem_of_lookup_2.
  - intros Hh. split.
    + destruct (set_denied (go_allowed gw) (AllowedListenerSet (go_allowed gw) (go_namespace gw)) ls) as [err|] eqn:Ed.
      * eexists. split; [rewrite Hd; eauto 10|]. cbn. eauto.
      * apply set_denied_None in Ed. done.
    + intros il Hil Hp. destruct (gateway_listener_origin _ _ _ _ _ _ _ Hg Hil) as [[Hp' _]|(ls' & _ & Hh' & Hp' & _)].
      * rewrite Hp' in Hp. unfold gw_parent, set_parent in Hp. by simplify_eq.
      * rewrite Hp' in Hp. apply (f_equal par_namespace) in Hp. cbn in Hp. by rewrite Hp in Hh'.
Qed.

(** Acceptance keeps the parent of a listener and what validation does not read. *)
Lemma accepted_origin {X} iter (Hiter : ∀ m, iter m ≡ₚ map_to_list m) (gw : @GatewayIR X) e rep il :
  il ∈ (validateListeners iter gw e rep).1 →
  ∃ il0, il0 ∈ gw_listeners gw ∧ il_parent il = il_parent il0 ∧ il_extra il = il_extra il0 ∧
    port_of il0 = Some (l_port (il_listener il)) ∧ l_name (il_listener il) = l_name (il_listener il0).
Proof.
  intros Hin. rewrite (elem_of_accepted iter Hiter) in Hin. destruct Hin as (p & Hin & _).
  pose proof (on_port_port _ _ _ Hin) as Hport.
  apply elem_of_on_port in Hin as (il0 & Hc & Hp & Heq). subst il.
  apply supported_candidates in Hc as [Hc _]. exists il0. by split_and!.
Qed.

(** C40: end to end from the objects: every programmed listener belongs to the Gateway or to a
    ListenerSet whose namespace the Gateway allows, and every other ListenerSet that names the
    Gateway is told that it is not allowed. *)
Theorem programmed_listeners_admitted iter order envoy classes pi sets gw g e :
  (∀ m, iter m ≡ₚ map_to_list m) → (∀ m, order m ≡ₚ (map_to_list m).*2) →
  GatewaysForEnvoyTransformationFunc envoy classes pi sets gw = Some (Some g) →
  (∀ il, il ∈ (validateGatewayWithSettings iter (gateway_view order g) e).1 →
     il_parent il = gw_parent gw ∨
     ∃ ls, ls ∈ sets_of sets gw ∧ handshake gw (lso_namespace ls) ∧ il_parent il = set_parent ls) ∧
  (∀ ls, ls ∈ sets_of sets gw → ¬ handshake gw (lso_namespace ls) →
     ∃ msg, RParentCondition (set_parent ls) (mkCond "Accepted" false "NotAllowed" msg) ∈
              (validateGatewayWithSettings iter (gateway_view order g) e).2).
Proof.
  intros Hiter Horder Hg. unfold validateGatewayWithSettings. split.
  - intros il (il0 & Hin & -> & _)%(accepted_origin iter Hiter). cbn in Hin.
    destruct (gateway_listener_origin _ _ _ _ _ _ _ Hg Hin) as [[? _]|(ls & ? & ? & ? & _)]; [auto|].
    right. by exists ls.
  - intros ls Hls Hh. pose proof Hg as (own & irs & _ & _ & _ & _ & _ & Hall & _ & Hd)%gateway_ir_parts.
    rewrite Forall_forall in Hall. destruct (Hall ls Hls) as [x Hx].
    destruct (set_denied (go_allowed gw) (AllowedListenerSet (go_allowed gw) (go_namespace gw)) ls) as [err|] eqn:Ed;
      [|by apply set_denied_None in Ed].
    exists err. apply (reports_kept iter Hiter). do 3 right. unfold rejectDeniedListenerSets.
    assert (mkLSIR (lsi_source x) (lsi_obj x) (lsi_listeners x) (Some err) ∈ default [] (g_denied g !! set_gvk ls)) as Hin
      by (apply Hd; eauto 10).
    destruct (g_denied g !! set_gvk ls) as [l|] eqn:El; [|by apply elem_of_nil in Hin]. cbn in Hin.
    apply list_elem_of_bind. exists l. split.
    + apply list_elem_of_bind. eexists. split; [|exact Hin]. cbn.
      apply set_ir_parts in Hx as (_ & -> & _). apply elem_of_cons. by left.
    + cbn. rewrite Horder. apply list_elem_of_fmap. exists (set_gvk ls, l).
      by rewrite elem_of_map_to_list.
Qed.

(** ** Precedence *)

#[local] Instance set_cmp_wo : WeakOrder set_cmp.
Proof. unfold set_cmp. apply _. Qed.

Lemma set_cmp_eq a b : set_cmp a b = Eq → set_key a = set_key b.
Proof.
  unfold set_cmp, then_cmp, cmp_on. destruct (Z.compare _ _); [|done..]. by apply string_compare_eq.
Qed.

(** listeners of the Gateway take precedence over those of ListenerSets, older ListenerSets
    over newer ones and then by name; the result does not depend on the order in which the
    collection returns the ListenerSets. *)
Theorem listener_precedence envoy classes pi sets sets' gw g :
  NoDup (set_key <$> sets) → sets ≡ₚ sets' →
  GatewaysForEnvoyTransformationFunc envoy classes pi sets gw = Some (Some g) →
  il_listener <$> g_listeners g =
    gl_listener <$> go_listeners gw ++ (admitted gw sets ≫= lso_listeners) ∧
  StronglySorted (cmp_le set_cmp) (admitted gw sets) ∧
  GatewaysForEnvoyTransformationFunc envoy classes pi sets' gw = Some (Some g).
Proof.
  intros Hnd Hp Hg. split; [|split].
  - apply gateway_ir_parts in Hg as (own & irs & Ho & Hi & -> & _).
    apply gw_listeners_parts in Ho as [Ho _]. rewrite !fmap_app, Ho. f_equal.
    apply mapM_Some in Hi. induction Hi as [|ls x l1 l2 Hx _ IH]; [done|].
    apply set_ir_parts in Hx as (_ & _ & Hm & _).
    change ((x :: l2) ≫= lsi_listeners) with (lsi_listeners x ++ (l2 ≫= lsi_listeners)).
    change ((ls :: l1) ≫= lso_listeners) with (lso_listeners ls ++ (l1 ≫= lso_listeners)).
    by rewrite !fmap_app, Hm, IH.
  - unfold admitted. apply StronglySorted_filter, sort_stable_sorted, _.
  - rewrite <-Hg. unfold GatewaysForEnvoyTransformationFunc.
    rewrite (sort_stable_perm_eq set_cmp (sets_of sets gw) (sets_of sets' gw)); [done| |].
    + intros x y [Hx _]%elem_of_fetch_index [Hy _]%elem_of_fetch_index Hk%set_cmp_eq.
      by eapply (NoDup_key_inj set_key).
    + unfold sets_of, fetch_index. by rewrite Hp.
Qed.

(** ** Exposed ports *)

Lemma set_ports_elem ls ports p :
  p ∈ set_ports ports ls ↔ p ∈ ports ∨
    ∃ l, l ∈ lso_listeners ls ∧ DetectListenerPortNumber (l_protocol (gl_listener l)) (l_port (gl_listener l)) = inr p.
Proof.
  unfold set_ports. revert ports. induction (lso_listeners ls) as [|l ll IH]; intros ports; cbn [foldl]; [set_solver|].
  rewrite IH. setoid_rewrite elem_of_cons.
  destruct (DetectListenerPortNumber (l_protocol (gl_listener l)) (l_port (gl_listener l))) as [er|q] eqn:E.
  - split; [intros [?|(l' & ? & ?)]; eauto|intros [?|(l' & [->|?] & Hd)]; [auto|congruence|eauto]].
  - rewrite elem_of_union, elem_of_singleton. split.
    + intros [[->|?]|(l' & ? & ?)]; eauto.
    + intros [?|(l' & [->|?] & Hd)]; [auto|rewrite E in Hd; injection Hd; auto|eauto].
Qed.

Lemma all_set_ports_elem lss ports p :
  p ∈ foldl set_ports ports lss ↔ p ∈ ports ∨
    ∃ ls l, ls ∈ lss ∧ l ∈ lso_listeners ls ∧
      DetectListenerPortNumber (l_protocol (gl_listener l)) (l_port (gl_listener l)) = inr p.
Proof.
  revert ports. induction lss as [|ls lss IH]; intros ports; cbn [foldl]; [set_solver|].
  rewrite IH, set_ports_elem. setoid_rewrite elem_of_cons. naive_solver.
Qed.

Lemma own_ports_elem (ls : list GwListener) (ports : gset Z) p :
  p ∈ foldl (λ ports l, {[ l_port (gl_listener l) ]} ∪ ports) ports ls ↔
  p ∈ ports ∨ ∃ l, l ∈ ls ∧ p = l_port (gl_listener l).
Proof.
  revert ports. induction ls as [|l ls IH]; intros ports; cbn [foldl]; [set_solver|].
  rewrite IH, elem_of_union, elem_of_singleton. setoid_rewrite elem_of_cons. naive_solver.
Qed.

(** the deployer exposes the port of every listener the translator programs, whether the
    listener comes from the Gateway or from a ListenerSet. *)
Theorem programmed_ports_exposed iter order envoy names classes pi sets gw g d e il :
  (∀ m, iter m ≡ₚ map_to_list m) →
  (** the API requires a port on the listeners of a Gateway *)
  Forall (λ l, l_port (gl_listener l) ≠ 0%Z) (go_listeners gw) →
  GatewaysForEnvoyTransformationFunc envoy classes pi sets gw = Some (Some g) →
  GatewaysForDeployerTransformationFunc names classes sets gw = Some d →
  il ∈ (validateGatewayWithSettings iter (gateway_view order g) e).1 →
  l_port (il_listener il) ∈ gfd_ports d.
Proof.
  intros Hiter Hnz Hg Hd (il0 & Hin & _ & _ & Hport & _)%(accepted_origin iter Hiter). cbn in Hin.
  unfold GatewaysForDeployerTransformationFunc in Hd. destruct (class_of classes gw); [|done].
  destruct (negb _); [done|]. injection Hd as <-. cbn [gfd_ports].
  rewrite all_set_ports_elem, own_ports_elem. unfold port_of in Hport.
  destruct (gateway_listener_origin _ _ _ _ _ _ _ Hg Hin) as [[_ Hl]|(ls & Hls & _ & _ & Hl)];
    apply list_elem_of_fmap in Hl as (l & Hl & Hlin); rewrite Hl in Hport.
  - left. right. exists l. split; [done|]. rewrite Forall_forall in Hnz. specialize (Hnz _ Hlin).
    unfold DetectListenerPortNumber in Hport. rewrite bool_decide_eq_true_2 in Hport by done. by simplify_eq.
  - right. exists ls, l. split_and!; [done..|].
    by destruct (DetectListenerPortNumber _ _); simplify_eq.
Qed.
End index.

(** ** Frontend TLS *)

Lemma ca_refs_loop refs acc :
  foldl ca_refs_step acc refs =
  (acc.1 ++ filter (λ r, validateCAReferenceType r = None) refs, acc.2 ++ omap validateCAReferenceType refs).
Proof.
  revert acc. induction refs as [|r refs IH]; intros [v errs]; cbn [foldl]; [by rewrite !app_nil_r|].
  rewrite IH, omap_cons_eq. unfold ca_refs_step.
  destruct (validateCAReferenceType r) as [err|] eqn:E; cbn [fst snd].
  - rewrite filter_cons_False by (by rewrite E). by rewrite <-app_assoc.
  - rewrite filter_cons_True by done. by rewrite <-app_assoc.
Qed.

(** The validations a configuration has for a port, its errors and the last usable one. *)
Definition port_validations (f : FrontendTLSConfig) (port : Z) : list FrontendTLSValidation :=
  omap (λ pc, if (pc.1 =? port)%Z then pc.2 else None) (ftc_per_port f).
Definition ref_errors (v : FrontendTLSValidation) : list error := omap validateCAReferenceType (ftv_refs v).
Definition usable (v : FrontendTLSValidation) : option ClientCertificateValidationIR :=
  validation_ir v (filter (λ r, validateCAReferenceType r = None) (ftv_refs v)).

Lemma per_port_loop pcs r port :
  let vs := omap (λ pc : Z * option FrontendTLSValidation, if (pc.1 =? port)%Z then pc.2 else None) pcs in
  let r' := foldl per_port_step r pcs in
  default [] (fti_port_errors r' !! port) = default [] (fti_port_errors r !! port) ++ (vs ≫= ref_errors) ∧
  fti_per_port r' !! port =
    match last (omap usable vs) with Some c => Some c | None => fti_per_port r !! port end ∧
  fti_default r' = fti_default r ∧ fti_default_error r' = fti_default_error r.
Proof.
  revert r. induction pcs as [|[q [v|]] pcs IH]; intros r; cbn [foldl]; [cbn; by rewrite app_nil_r| |].
  2:{ specialize (IH r). rewrite omap_cons_eq. cbn [fst snd]. destruct (q =? port)%Z; exact IH. }
  destruct (IH (per_port_step r (q, Some v))) as (H1 & H2 & H3 & H4). clear IH. cbn zeta in H1, H2.
  cbn zeta. rewrite H1, H2, H3, H4. clear H1 H2 H3 H4. unfold per_port_step. cbn [snd fst].
  rewrite ca_refs_loop, omap_cons_eq. cbn [fst snd app].
  change (validation_ir v (filter _ (ftv_refs v))) with (usable v). change (omap validateCAReferenceType (ftv_refs v)) with (ref_errors v).
  destruct (Z.eqb_spec q port) as [->|Hne]; cbn [fti_port_errors fti_per_port fti_default fti_default_error].
  - split_and!; [| |done..].
    + change ((v :: ?l) ≫= ref_errors) with (ref_errors v ++ (l ≫= ref_errors)).
      destruct (ref_errors v) as [|er ers]; [done|].
      rewrite lookup_insert_eq. cbn [from_option id default]. by rewrite <-app_assoc.
    + rewrite omap_cons_eq. destruct (usable v) as [c|]; [|done].
      rewrite lookup_insert_eq, last_cons. by destruct (last _).
  - split_and!; [| |done..].
    + destruct (ref_errors v); [done|]. by rewrite lookup_insert_ne.
    + destruct (usable v); [|done]. by rewrite lookup_insert_ne.
Qed.

(** The client validation of a port: the errors of all its configurations with the last
    usable one, or the default when the port has neither. *)
Lemma resolve_frontend_spec f port :
  let vs := port_validations f port in
  resolveFrontendTLSConfig port (Some (getFrontendTLSConfig f)) =
  match vs ≫= ref_errors with
  | e :: es => (last (omap usable vs), e :: es)
  | [] => match last (omap usable vs) with
          | Some c => (Some c, [])
          | None => (ftc_default f ≫= usable, from_option ref_errors [] (ftc_default f))
          end
  end.
Proof.
  unfold getFrontendTLSConfig, resolveFrontendTLSConfig, port_validations. cbn zeta.
  set (d := match ftc_default f with None => _ | Some v => _ end).
  assert (d = (ftc_default f ≫= usable, from_option ref_errors [] (ftc_default f))) as ->.
  { unfold d. destruct (ftc_default f) as [v|]; [|done]. by rewrite ca_refs_loop. }
  pose proof (per_port_loop (ftc_per_port f) (mkFTI (ftc_default f ≫= usable) ∅ ∅
    (from_option ref_errors [] (ftc_default f))) port) as (H1 & H2 & H3 & H4).
  cbn [fti_port_errors fti_per_port fti_default fti_default_error] in H1, H2, H3, H4.
  match type of H2 with _ = match ?o with Some c => _ | None => _ end =>
    assert (fti_per_port (foldl per_port_step (mkFTI (ftc_default f ≫= usable) ∅ ∅
      (from_option ref_errors [] (ftc_default f))) (ftc_per_port f)) !! port = o) as H2'
      by (rewrite H2; by destruct o) end.
  rewrite lookup_empty in H1. cbn [default from_option id app] in H1. rewrite <-H1, H2', H3, H4.
  by destruct (fti_port_errors _ !! port) as [[|e es]|].
Qed.

Lemma usable_refs v c :
  usable v = Some c → ccv_refs c ≠ [] ∧ Forall (λ r, validateCAReferenceType r = None) (ccv_refs c).
Proof.
  unfold usable, validation_ir. set (l := filter _ (ftv_refs v)).
  assert (Forall (λ r, validateCAReferenceType r = None) l) as Hl.
  { apply Forall_forall. intros r [Hr _]%list_elem_of_filter. done. }
  destruct l as [|r l]; [done|]. by intros [= <-].
Qed.

(** What the frontend configuration has for a port comes from one of its validations; when it
    requires client certificates it does not fall back to accepting uncertified clients. *)
Lemma resolved_usable f port c :
  (resolveFrontendTLSConfig port (Some (getFrontendTLSConfig f))).1 = Some c → ∃ v, usable v = Some c.
Proof.
  pose proof (resolve_frontend_spec f port) as ->. cbn zeta.
  assert (∀ l, last (omap usable l) = Some c → ∃ v, usable v = Some c) as Hl.
  { intros l Hc%last_Some_elem_of. apply list_elem_of_omap in Hc as (v & _ & Hv). by exists v. }
  destruct (_ ≫= ref_errors); [|by apply Hl].
  destruct (last _) as [c'|] eqn:E; cbn [fst]; [intros [= ->]; by eapply Hl|].
  destruct (ftc_default f) as [v|]; [|done]. by exists v.
Qed.

Lemma resolved_required f port c :
  (resolveFrontendTLSConfig port (Some (getFrontendTLSConfig f))).1 = Some c → ccv_require c = true →
  ccv_refs c ≠ [] ∧ ccv_insecure_fallback c = false.
Proof.
  intros [v Hv]%resolved_usable Hr. split; [by eapply usable_refs|].
  unfold usable, validation_ir in Hv. destruct (filter _ _); [done|]. injection Hv as <-. cbn in *.
  unfold getRequiredClientCertificate in Hr. apply orb_true_iff in Hr as [->%String.eqb_eq| ->%String.eqb_eq]; done.
Qed.

Lemma usable_or_error v : ftv_refs v ≠ [] → is_Some (usable v) ∨ ref_errors v ≠ [].
Proof.
  unfold usable, ref_errors, validation_ir. intros Hne. destruct (ftv_refs v) as [|r l]; [done|].
  rewrite omap_cons_eq. destruct (validateCAReferenceType r) as [err|] eqn:E; [by right|].
  left. rewrite filter_cons_True by done. eauto.
Qed.

(** client certificate validation fails closed: when a port, or else the default, names CA
    certificates, the listener is given a validation with at least one of them or an error;
    an entry of an unsupported kind is always reported. *)
Theorem frontend_validation_fails_closed f port v :
  v ∈ port_validations f port ∨ port_validations f port = [] ∧ ftc_default f = Some v →
  ftv_refs v ≠ [] →
  let '(validation, errs) := resolveFrontendTLSConfig port (Some (getFrontendTLSConfig f)) in
  (validation ≠ None ∨ errs ≠ []) ∧
  (∀ c, validation = Some c → ccv_refs c ≠ [] ∧ Forall (λ r, validateCAReferenceType r = None) (ccv_refs c)) ∧
  (∀ r err, r ∈ ftv_refs v → validateCAReferenceType r = Some err → err ∈ errs).
Proof.
  intros Hv Hne. pose proof (resolve_frontend_spec f port) as ->. cbn zeta.
  assert (∀ w r err, r ∈ ftv_refs w → validateCAReferenceType r = Some err → err ∈ ref_errors w) as Herr.
  { intros w r err Hr He. apply list_elem_of_omap. eauto. }
  assert (∀ c, last (omap usable (port_validations f port)) = Some c →
    ccv_refs c ≠ [] ∧ Forall (λ r, validateCAReferenceType r = None) (ccv_refs c)) as Hlast.
  { intros c Hc%last_Some_elem_of. apply list_elem_of_omap in Hc as (w & _ & Hw). by eapply usable_refs. }
  destruct Hv as [Hv|[Hnil Hd]].
  - assert (∀ e, e ∈ ref_errors v → e ∈ port_validations f port ≫= ref_errors) as Hin
      by (intros e He; apply list_elem_of_bind; eauto).
    destruct (port_validations f port ≫= ref_errors) as [|e es].
    + assert (ref_errors v = []) as Hnil.
      { destruct (ref_errors v) as [|e l]; [done|]. exfalso. apply (not_elem_of_nil e), Hin. by left. }
      destruct (usable_or_error v Hne) as [[c Hc]|?]; [|done].
      destruct (last (omap usable (port_validations f port))) as [c'|] eqn:El.
      * split_and!; [by left| |].
        -- intros ? [= <-]. by apply Hlast.
        -- intros r err Hr He. rewrite <-Hnil. by eapply Herr.
      * apply last_None in El. exfalso. apply (not_elem_of_nil c). rewrite <-El. apply list_elem_of_omap. eauto.
    + split_and!; [by right|exact Hlast|]. intros r err Hr He. by eapply Hin, Herr.
  - rewrite Hnil, Hd. cbn. split_and!; [|by apply usable_refs|by apply Herr].
    destruct (usable_or_error v Hne) as [[c ->]|?]; auto.
Qed.

(** ** Witnesses *)

#[local] Instance ex_ops : PolicyIrOps unit := {| pi_creation_time := λ _, 0%Z |}.
#[local] Instance ex_selectors : SelectorLib unit := {|
  LabelSelectorAsSelector := λ _, inr tt; sel_empty := λ _, false;
  sel_matches := λ _ labels, bool_decide (labels !! "team" = Some "a") |}.

Definition ex_namespaces : gmap string (gmap string string) :=
  {[ "a" := {[ "team" := "a" ]}; "b" := {[ "team" := "b" ]} ]}.
Definition ex_pi : @PolicyIndex unit := mkPI "" [] ∅ [].
Definition ex_gwl (n : string) (port : Z) : GwListener :=
  mkGL (mkListener n None port "HTTP" None None) [] ∅.
Definition ex_gateway : GatewayObj :=
  mkGO (mkGVK GatewayGroup "v1" GatewayKind) "infra" "gw" ∅ "kgateway" [ex_gwl "own" 80]
    (Some (Some (mkRN (Some "Selector") (Some (mkLS ∅ []))))) None None.
Definition ex_set (ns n : string) (created : Z) (port : Z) : ListenerSetObj :=
  mkLSO (mkGVK "" "" "") ns n created ∅ None (Some "infra") "gw" [ex_gwl "l" port].
Definition ex_sets : list ListenerSetObj := [ex_set "a" "new" 2 8081; ex_set "b" "foreign" 0 8083; ex_set "a" "old" 1 8080].
Definition ex_classes : list GatewayClass := [mkGC "kgateway" "kgateway.dev/kgateway"].

Definition ex_transform (sets : list ListenerSetObj) : option (option Gateway) :=
  GatewaysForEnvoyTransformationFunc ex_namespaces (λ _ _, false) "kgateway.dev/kgateway" ex_classes ex_pi sets
    ex_gateway.
Definition ex_ir : Gateway := match ex_transform ex_sets with Some (Some g) => g | _ =>
  mkGateway (mkOS "" "" "" "") (mkParent TOther "" "" "") 0 [] ∅ ∅ ∅ None None end.

Lemma ex_transform_eq : ex_transform ex_sets = Some (Some ex_ir).
Proof. vm_cast_no_check (eq_refl (Some (Some ex_ir))). Qed.

Definition ex_order {A} (m : gmap GroupVersionKind A) : list A := (map_to_list m).*2.

Lemma listener_set_handshake_witness :
  ∃ x, x ∈ default [] (g_denied ex_ir !! ListenerSetGVK) ∧ os_name (lsi_source x) = "foreign".
Proof.
  destruct (listener_set_handshake ex_namespaces (λ _ _, false) _ _ _ _ _ _ ex_transform_eq
              (ex_set "b" "foreign" 0 8083)) as [_ Hd].
  - apply elem_of_fetch_index. split; [right; left|left].
  - destruct Hd as [(x & Hx & Hs & _) _].
    + rewrite <-set_denied_None. vm_compute. discriminate.
    + exists x. split; [exact Hx|]. rewrite Hs. reflexivity.
Defined.

Lemma programmed_listeners_admitted_witness :
  ∃ msg, RParentCondition (mkParent TListenerSet "ListenerSet" "b" "foreign") (mkCond "Accepted" false "NotAllowed" msg)
    ∈ (validateGatewayWithSettings map_to_list (gateway_view ex_order ex_ir) true).2.
Proof.
  destruct (programmed_listeners_admitted ex_namespaces (λ _ _, false) map_to_list ex_order _ _ _ _ _ _ true
              (λ m, reflexivity _) (λ m, reflexivity _) ex_transform_eq) as [_ Hd].
  apply (Hd (ex_set "b" "foreign" 0 8083)).
  - apply elem_of_fetch_index. split; [right; left|left].
  - rewrite <-set_denied_None. vm_compute. discriminate.
Defined.

Lemma listener_precedence_witness :
  l_port <$> (il_listener <$> g_listeners ex_ir) = [80; 8080; 8081]%Z ∧
  ex_transform (reverse ex_sets) = Some (Some ex_ir).
Proof.
  destruct (listener_precedence ex_namespaces (λ _ _, false) "kgateway.dev/kgateway" ex_classes ex_pi ex_sets
              (reverse ex_sets) ex_gateway ex_ir
              ltac:(apply (bool_decide_unpack _); vm_compute; exact I) (symmetry (reverse_Permutation ex_sets))
              ex_transform_eq) as (Hl & _ & Hp).
  split; [|exact Hp]. rewrite Hl. vm_compute. reflexivity.
Defined.

Definition ex_deployed : option GatewayForDeployer :=
  GatewaysForDeployerTransformationFunc {[ "kgateway.dev/kgateway" ]} ex_classes ex_sets ex_gateway.

Lemma programmed_ports_exposed_witness :
  ∃ d, ex_deployed = Some d ∧ 8080%Z ∈ gfd_ports d.
Proof.
  eexists. split; [reflexivity|].
  refine (programmed_ports_exposed ex_namespaces (λ _ _, false) map_to_list ex_order "kgateway.dev/kgateway"
    {[ "kgateway.dev/kgateway" ]} ex_classes ex_pi ex_sets ex_gateway ex_ir _ true
    (nth 1 (g_listeners ex_ir) (mkIRL (mkListener "" None 0 "" None None) (mkParent TOther "" "" "")
       (mkLE (mkGVK "" "" "") [] ∅ ∅ (mkPR None None None "" None None)))) (λ m, reflexivity _) _ ex_transform_eq eq_refl _).
  - repeat constructor. vm_compute. discriminate.
  - vm_compute. right. left.
Defined.

Definition ex_frontend : FrontendTLSConfig :=
  mkFTC (Some (mkFTV [mkObjRef "" "ConfigMap" None "ca"] ""))
    [(8443%Z, Some (mkFTV [mkObjRef "apps" "Deployment" None "x"] "AllowInsecureFallback"))].

Lemma frontend_validation_fails_closed_witness :
  snd (resolveFrontendTLSConfig 8443 (Some (getFrontendTLSConfig ex_frontend))) ≠ [].
Proof.
  pose proof (frontend_validation_fails_closed ex_frontend 8443
    (mkFTV [mkObjRef "apps" "Deployment" None "x"] "AllowInsecureFallback")) as H.
  cbn in H. destruct H as ([H|H] & _ & _).
  - left. left.
  - discriminate.
  - destruct H. reflexivity.
  - exact H.
Defined.

(** ** Unexpected behaviour *)

(** The port of a ListenerSet that the Gateway does not admit is exposed by the deployer. *)
Theorem denied_ports_exposed :
  (∃ d, ex_deployed = Some d ∧ 8083%Z ∈ gfd_ports d) ∧
  ¬ handshake ex_namespaces ex_gateway "b" ∧
  8083%Z ∉ l_port <$> (il_listener <$> g_listeners ex_ir).
Proof.
  split_and!.
  - eexists. split; [reflexivity|]. apply (bool_decide_unpack _). vm_compute. exact I.
  - rewrite <-(set_denied_None ex_namespaces ex_gateway (ex_set "b" "foreign" 0 8083)). vm_compute. discriminate.
  - apply (bool_decide_unpack _). vm_compute. exact I.
Qed.

(** A ListenerSet is looked up by the namespace and name of its parent only: one that names a
    parent of another kind attaches to the Gateway of that name. *)
Theorem parent_kind_ignored :
  let ls := mkLSO (mkGVK "" "" "") "a" "odd" 0 ∅ (Some "Service") (Some "infra") "gw" [ex_gwl "l" 8090] in
  match ex_transform [ls] with
  | Some (Some g) => l_port <$> (il_listener <$> g_listeners g) = [80; 8090]%Z
  | _ => False
  end.
Proof. vm_compute. reflexivity. Qed.
