(* ===== verification/SslUtils.v ===== *)
(** * TLS utilities (pkg/kgateway/translator/sslutils, pkg/pluginsdk/ir/gw2.go)

    Certificates out of Secrets and ConfigMaps, and the TLS options of a listener: cipher
    suites, curves, protocol versions, subject alternative names and certificate hashes.
    Parsing and encoding of certificates is the class [CertLib]. *)

From S2P Require Import Prelude IR References GatewayIndex Hashing.

(** ** Data *)

(** The protocols of Envoy's [TlsParameters] that the options can name, with their enum values. *)
Inductive TlsProtocol := TLSv1_0 | TLSv1_1 | TLSv1_2 | TLSv1_3.
#[global] Instance TlsProtocol_eq_dec : EqDecision TlsProtocol.
Proof. solve_decision. Defined.

Definition tls_value (p : TlsProtocol) : Z :=
  match p with TLSv1_0 => 1 | TLSv1_1 => 2 | TLSv1_2 => 3 | TLSv1_3 => 4 end.
Definition tls_string (p : TlsProtocol) : string :=
  match p with TLSv1_0 => "TLSv1_0" | TLSv1_1 => "TLSv1_1" | TLSv1_2 => "TLSv1_2" | TLSv1_3 => "TLSv1_3" end.

(** [ir.ClientCertificateValidation]. *)
Record ClientCertificateValidation := mkClientCert {
  ccv_ca_certificates : list string; ccv_require_cert : bool; ccv_allow_insecure : bool }.

Record TLSConfig := mkTLS {
  tls_alpn : list string;
  tls_certificates : list TLSCertificate;
  tls_cipher_suites : list string;
  tls_ecdh_curves : list string;
  tls_signature_algorithms : list string;
  tls_min : option TlsProtocol;
  tls_max : option TlsProtocol;
  tls_verify_sans : list string;
  tls_verify_hashes : list string;
  tls_client_validation : option ClientCertificateValidation }.

(** ** Certificates *)

(** The certificate functions of [crypto/tls] and [k8s.io/client-go/util/cert]. *)
Class CertLib (Cert : Type) := {
  X509KeyPair : string → string → option error;
  ParseCertsPEM : string → error + list Cert;
  EncodeCertificates : list Cert → error + string }.

Definition TLSCertKey : string := "tls.crt".
Definition TLSPrivateKeyKey : string := "tls.key".
Definition ServiceAccountRootCAKey : string := "ca.crt".

(** A missing key of a Go map reads as the zero value. *)
Definition data_get (m : gmap string string) (k : string) : string := default "" (m !! k).

Section certs.
Context {Cert : Type} `{CL : CertLib Cert}.

Definition cleanedSslKeyPair (certChain privateKey rootCa : string) : error + string :=
  if String.eqb certChain "" && String.eqb privateKey "" && negb (String.eqb rootCa "") then inr certChain
  else match X509KeyPair certChain privateKey with
       | Some err => inl err
       | None => match ParseCertsPEM certChain with
                 | inl err => inl err
                 | inr certs => EncodeCertificates certs
                 end
       end.

Definition InvalidTlsSecretError (n ns : string) (err : error) : error :=
  EWrap2 (ESentinel ErrInvalidTlsSecret) (" " +:+ ns +:+ "/" +:+ n +:+ ": ") err.

Definition ValidateTlsSecretData (n ns : string) (data : gmap string string) : error + string :=
  match cleanedSslKeyPair (data_get data TLSCertKey) (data_get data TLSPrivateKeyKey)
          (data_get data ServiceAccountRootCAKey) with
  | inl err => inl (InvalidTlsSecretError n ns err)
  | inr c => inr c
  end.

Definition ErrInvalidCACertificate (n ns : string) (err : error) : error :=
  EWrap ("invalid ca.crt in ConfigMap " +:+ ns +:+ "/" +:+ n +:+ ": ") err.

Definition getCACertFromBytes (caCrt name namespace : string) : error + string :=
  if String.eqb caCrt "" then inl (ESentinel ErrMissingCACertKey)
  else match ParseCertsPEM caCrt with
       | inl err => inl (ErrInvalidCACertificate name namespace err)
       | inr certs => match EncodeCertificates certs with
                      | inl err => inl (ErrInvalidCACertificate name namespace err)
                      | inr c => inr c
                      end
       end.

Definition GetCACertFromConfigMap (cm : ConfigMap) : error + string :=
  match cm_data cm !! "ca.crt" with
  | None => inl (ESentinel ErrMissingCACertKey)
  | Some c => getCACertFromBytes c (cm_name cm) (cm_namespace cm)
  end.

Definition GetCACertFromSecret (s : Secret) : error + string :=
  match sec_data s !! "ca.crt" with
  | None => inl (ESentinel ErrMissingCACertKey)
  | Some c => getCACertFromBytes c (os_name (sec_source s)) (os_namespace (sec_source s))
  end.

End certs.

(** ** Trimming *)

Fixpoint bytes (l : list nat) : string :=
  match l with [] => "" | b :: l' => String (Ascii.ascii_of_nat b) (bytes l') end.

(** The UTF-8 encodings of the characters of [unicode.IsSpace]. *)
Definition space_runes : list string :=
  map bytes
    ([[9]; [10]; [11]; [12]; [13]; [32]; [194; 133]; [194; 160]; [225; 154; 128]]
     ++ map (λ b, [226; 128; b]) (seq 128 11)
     ++ [[226; 128; 168]; [226; 128; 169]; [226; 128; 175]; [226; 129; 159]; [227; 128; 128]])%nat.

Fixpoint trim_left (fuel : nat) (s : string) : string :=
  match fuel with
  | O => s
  | S fuel => match List.find (has_prefix s) space_runes with
              | Some r => trim_left fuel (str_drop (String.length r) s)
              | None => s
              end
  end.

Fixpoint trim_right (fuel : nat) (s : string) : string :=
  match fuel with
  | O => s
  | S fuel => match List.find (has_suffix s) space_runes with
              | Some r => trim_right fuel (String.substring 0 (String.length s - String.length r) s)
              | None => s
              end
  end.

(** [strings.TrimSpace], and [strings.TrimFunc] with [unicode.IsSpace]. *)
Definition trim_space (s : string) : string :=
  let s := trim_left (String.length s) s in trim_right (String.length s) s.

(** ** Options *)

(** An option function writes a field of the configuration, or leaves it and fails. *)
Definition OptionFunc : Type := string → TLSConfig → option error * TLSConfig.

Definition split_trim (s : string) : list string := map trim_space (split ","%char s).

Definition ApplyCipherSuites : OptionFunc := λ input out,
  (None, mkTLS (tls_alpn out) (tls_certificates out) (split_trim input) (tls_ecdh_curves out)
           (tls_signature_algorithms out) (tls_min out) (tls_max out) (tls_verify_sans out)
           (tls_verify_hashes out) (tls_client_validation out)).

Definition ApplyEcdhCurves : OptionFunc := λ input out,
  (None, mkTLS (tls_alpn out) (tls_certificates out) (tls_cipher_suites out) (split_trim input)
           (tls_signature_algorithms out) (tls_min out) (tls_max out) (tls_verify_sans out)
           (tls_verify_hashes out) (tls_client_validation out)).

Definition ApplySignatureAlgorithms : OptionFunc := λ input out,
  (None, mkTLS (tls_alpn out) (tls_certificates out) (tls_cipher_suites out) (tls_ecdh_curves out)
           (split_trim input) (tls_min out) (tls_max out) (tls_verify_sans out)
           (tls_verify_hashes out) (tls_client_validation out)).

Definition ApplyAlpnProtocols : OptionFunc := λ input out,
  (None, mkTLS (split_trim input) (tls_certificates out) (tls_cipher_suites out) (tls_ecdh_curves out)
           (tls_signature_algorithms out) (tls_min out) (tls_max out) (tls_verify_sans out)
           (tls_verify_hashes out) (tls_client_validation out)).

Definition tlsProtocolMap : gmap string TlsProtocol :=
  list_to_map [("1.0", TLSv1_0); ("1.1", TLSv1_1); ("1.2", TLSv1_2); ("1.3", TLSv1_3)].

Definition ApplyMinTLSVersion : OptionFunc := λ input out,
  match tlsProtocolMap !! input with
  | None => (Some (EMsg ("invalid minimum tls version: " +:+ input)), out)
  | Some p =>
      (None, mkTLS (tls_alpn out) (tls_certificates out) (tls_cipher_suites out) (tls_ecdh_curves out)
               (tls_signature_algorithms out) (Some p) (tls_max out) (tls_verify_sans out)
               (tls_verify_hashes out) (tls_client_validation out))
  end.

Definition ApplyMaxTLSVersion : OptionFunc := λ input out,
  match tlsProtocolMap !! input with
  | None => (Some (EMsg ("invalid maximum tls version: " +:+ input)), out)
  | Some p =>
      (None, mkTLS (tls_alpn out) (tls_certificates out) (tls_cipher_suites out) (tls_ecdh_curves out)
               (tls_signature_algorithms out) (tls_min out) (Some p) (tls_verify_sans out)
               (tls_verify_hashes out) (tls_client_validation out))
  end.

Definition ApplyVerifySubjectAltNames : OptionFunc := λ input out,
  (None, mkTLS (tls_alpn out) (tls_certificates out) (tls_cipher_suites out) (tls_ecdh_curves out)
           (tls_signature_algorithms out) (tls_min out) (tls_max out) (split_trim input)
           (tls_verify_hashes out) (tls_client_validation out)).

Definition is_xdigit (a : Ascii.ascii) : bool :=
  let n := Ascii.nat_of_ascii a in
  ((48 <=? n) && (n <=? 57) || (65 <=? n) && (n <=? 70) || (97 <=? n) && (n <=? 102))%nat.

Fixpoint all_xdigits (s : string) : bool :=
  match s with EmptyString => true | String a s' => is_xdigit a && all_xdigits s' end.

(** [(:[[:xdigit:]]{2}){n}$]. *)
Fixpoint colon_pairs (n : nat) (s : string) : bool :=
  match n, s with
  | O, EmptyString => true
  | S n, String c (String a (String b s')) =>
      Ascii.eqb c ":"%char && is_xdigit a && is_xdigit b && colon_pairs n s'
  | _, _ => false
  end.

Definition sha256HashRegexHexPairs (s : string) : bool := colon_pairs 31 (str_drop 2 s) &&
  match s with String a (String b _) => is_xdigit a && is_xdigit b | _ => false end.

(** [hex.DecodeString] of 64 characters fails exactly when one is not a digit. *)
Definition validateCertificateHash (hash : string) : option error :=
  let invalid := Some (EMsg ("invalid certificate hash: " +:+ hash)) in
  if (String.length hash =? 64)%nat then if all_xdigits hash then None else invalid
  else if sha256HashRegexHexPairs hash then None
  else invalid.

Definition splitFakeYamlArray (input : string) : list string :=
  flat_map (λ part, filter (λ h, h ≠ "") (map trim_space (split "-"%char part))) (split ","%char input).

Definition ApplyVerifyCertificateHash : OptionFunc := λ input out,
  let hashes := splitFakeYamlArray input in
  match omap validateCertificateHash hashes with
  | [] =>
      (None, mkTLS (tls_alpn out) (tls_certificates out) (tls_cipher_suites out) (tls_ecdh_curves out)
               (tls_signature_algorithms out) (tls_min out) (tls_max out) (tls_verify_sans out)
               hashes (tls_client_validation out))
  | errs => (Some (EJoin errs), out)
  end.

Definition AlpnProtocols : string := "kgateway.dev/alpn-protocols".
Definition AllowEmptyAlpnProtocols : string := "allow-empty".
Definition CipherSuites : string := "kgateway.dev/cipher-suites".
Definition EcdhCurves : string := "kgateway.dev/ecdh-curves".
Definition SignatureAlgorithms : string := "kgateway.dev/signature-algorithms".
Definition MinTLSVersion : string := "kgateway.dev/min-tls-version".
Definition MaxTLSVersion : string := "kgateway.dev/max-tls-version".
Definition VerifySubjectAltNames : string := "kgateway.dev/verify-subject-alt-names".
Definition VerifyCertificateHash : string := "kgateway.dev/verify-certificate-hash".

Definition TLSExtensionOptionFuncs : list (string * OptionFunc) :=
  [(CipherSuites, ApplyCipherSuites); (MinTLSVersion, ApplyMinTLSVersion);
   (MaxTLSVersion, ApplyMaxTLSVersion); (VerifySubjectAltNames, ApplyVerifySubjectAltNames);
   (EcdhCurves, ApplyEcdhCurves); (SignatureAlgorithms, ApplySignatureAlgorithms);
   (AlpnProtocols, ApplyAlpnProtocols); (VerifyCertificateHash, ApplyVerifyCertificateHash)].

Definition option_func (key : string) : option OptionFunc :=
  snd <$> head (filter (λ p : string * OptionFunc, p.1 = key) TLSExtensionOptionFuncs).

Definition validateTLSVersions (out : TLSConfig) : option error :=
  match tls_min out, tls_max out with
  | Some lo, Some hi =>
      if (tls_value hi <? tls_value lo)%Z
      then Some (EMsg ("maximum tls version " +:+ tls_string hi +:+ " is less than minimum tls version " +:+ tls_string lo))
      else None
  | _, _ => None
  end.

Definition apply_option (kv : string * string) (out : TLSConfig) : list error * TLSConfig :=
  match option_func kv.1 with
  | Some f => let '(err, out) := f kv.2 out in (option_list err, out)
  | None => ([EWrap2 (ESentinel ErrUnknownTLSExtensionOption) (": " +:+ kv.1) (EMsg "")], out)
  end.

Definition option_step (acc : list error * TLSConfig) (kv : string * string) : list error * TLSConfig :=
  let '(errs, out) := apply_option kv acc.2 in (acc.1 ++ errs, out).

(** [ApplyTLSExtensionOptions] with the options in the order of the iteration; the joined
    error is a list, nil when it is empty. *)
Definition ApplyTLSExtensionOptions (options : list (string * string)) (out : TLSConfig) :
    list error * TLSConfig :=
  let '(errs, out) := foldl option_step ([], out) options in
  (errs ++ option_list (validateTLSVersions out), out).

(** ** Lemmas: certificate hashes *)

(** A property of every byte. *)
Fixpoint str_forall (f : Ascii.ascii → bool) (s : string) : bool :=
  match s with EmptyString => true | String a s' => f a && str_forall f s' end.

Lemma str_forall_app f a b : str_forall f (a +:+ b) = str_forall f a && str_forall f b.
Proof. induction a as [|c a IH]; [done|]. rewrite str_app_cons. simpl. by rewrite IH, andb_assoc. Qed.

Lemma all_xdigits_forall s : all_xdigits s = str_forall is_xdigit s.
Proof. by induction s as [|a s IH]; simpl; [|rewrite IH]. Qed.

Definition pair_string (p : Ascii.ascii * Ascii.ascii) : string := String p.1 (String p.2 "").
Definition hex_pair (p : Ascii.ascii * Ascii.ascii) : Prop := is_xdigit p.1 = true ∧ is_xdigit p.2 = true.

(** The two notations of a digest: its bytes in hexadecimal, with and without colons. *)
Definition plain_hash (ps : list (Ascii.ascii * Ascii.ascii)) : string := join "" (map pair_string ps).
Definition colon_hash (ps : list (Ascii.ascii * Ascii.ascii)) : string := join ":" (map pair_string ps).

Fixpoint colon_tail (ps : list (Ascii.ascii * Ascii.ascii)) : string :=
  match ps with [] => "" | p :: ps' => ":" +:+ pair_string p +:+ colon_tail ps' end.

Lemma plain_hash_cons p ps : plain_hash (p :: ps) = pair_string p +:+ plain_hash ps.
Proof. unfold plain_hash, join. destruct ps; simpl; [|done]. by rewrite ?str_app_nil_r. Qed.

Lemma colon_hash_cons p ps : colon_hash (p :: ps) = pair_string p +:+ colon_tail ps.
Proof.
  revert p. induction ps as [|q ps IH]; intros p; [done|].
  change (pair_string p +:+ (":" +:+ colon_hash (q :: ps)) = pair_string p +:+ colon_tail (q :: ps)).
  by rewrite IH.
Qed.

Lemma plain_hash_iff n s :
  all_xdigits s = true ∧ String.length s = (2 * n)%nat ↔
  ∃ ps, length ps = n ∧ Forall hex_pair ps ∧ s = plain_hash ps.
Proof.
  revert s. induction n as [|n IH]; intros s.
  - split.
    + intros [_ Hl]. destruct s; [|done]. by exists [].
    + intros ([|] & Hl & _ & ->); done.
  - split.
    + intros [Hx Hl]. destruct s as [|a [|b s]]; simpl in Hl; [lia..|].
      simpl in Hx. apply andb_true_iff in Hx as [Ha [Hb Hs]%andb_true_iff].
      destruct (proj1 (IH s)) as (ps & <- & Hps & ->); [split; [done|lia]|].
      exists ((a, b) :: ps). split; [done|]. split; [by constructor|]. by rewrite plain_hash_cons.
    + intros ([|[a b] ps] & Hl & Hps & ->); [done|]. apply Forall_cons in Hps as [[Ha Hb] Hps]. simpl in *.
      destruct (proj2 (IH (plain_hash ps))) as [Hx Hn]; [exists ps; split; [lia|done]|].
      rewrite plain_hash_cons. change (pair_string (a, b) +:+ plain_hash ps) with (String a (String b (plain_hash ps))).
      cbn [all_xdigits String.length]. rewrite Ha, Hb, Hx, Hn. split; [done|lia].
Qed.

Lemma colon_pairs_iff n s :
  colon_pairs n s = true ↔ ∃ ps, length ps = n ∧ Forall hex_pair ps ∧ s = colon_tail ps.
Proof.
  revert s. induction n as [|n IH]; intros s; simpl.
  - split; [|by intros ([|] & ? & _ & ->)]. destruct s; [|done]. intros _. by exists [].
  - split.
    + destruct s as [|c [|a [|b s]]]; try done.
      intros [[[Hc Ha]%andb_true_iff Hb]%andb_true_iff Hs]%andb_true_iff.
      apply Ascii.eqb_eq in Hc as ->. apply IH in Hs as (ps & <- & Hps & ->).
      exists ((a, b) :: ps). split; [done|]. split; [by constructor|done].
    + intros ([|[a b] ps] & Hl & Hps & ->); [done|]. apply Forall_cons in Hps as [[Ha Hb] Hps]. simpl in *.
      rewrite Ha, Hb. apply IH. exists ps. split; [lia|done].
Qed.

Lemma regex_pairs_iff s :
  sha256HashRegexHexPairs s = true ↔ ∃ ps, length ps = 32%nat ∧ Forall hex_pair ps ∧ s = colon_hash ps.
Proof.
  unfold sha256HashRegexHexPairs. rewrite andb_true_iff, colon_pairs_iff. split.
  - intros [(ps & Hl & Hps & Hs) H]. destruct s as [|a [|b s]]; try done. simpl in Hs.
    apply andb_true_iff in H as [Ha Hb]. exists ((a, b) :: ps). split; [simpl; lia|].
    split; [by constructor|]. rewrite colon_hash_cons. unfold pair_string. simpl. by subst.
  - intros ([|[a b] ps] & Hl & Hps & ->); [done|]. apply Forall_cons in Hps as [[Ha Hb] Hps].
    rewrite colon_hash_cons. unfold pair_string. simpl. simpl in Ha, Hb. rewrite Ha, Hb. split; [|done].
    exists ps. simpl in Hl. split; [lia|done].
Qed.

Lemma colon_tail_length ps : String.length (colon_tail ps) = (3 * length ps)%nat.
Proof. induction ps as [|p ps IH]; [done|]. cbn [colon_tail]. rewrite !str_length_app, IH. simpl. lia. Qed.

(** A certificate hash passes validation exactly when it is 32 pairs of hexadecimal digits,
    written one after the other or separated by colons: the two documented notations of a
    SHA-256 digest, and nothing else. *)
Theorem certificate_hash_iff hash :
  validateCertificateHash hash = None ↔
  ∃ ps, length ps = 32%nat ∧ Forall hex_pair ps ∧ (hash = plain_hash ps ∨ hash = colon_hash ps).
Proof.
  unfold validateCertificateHash. destruct (Nat.eqb_spec (String.length hash) 64) as [Hl|Hl].
  - destruct (all_xdigits hash) eqn:Hx; (split; [intros H; try done|]).
    + destruct (proj1 (plain_hash_iff 32 hash)) as (ps & ? & ? & ?); [done|]. exists ps. auto.
    + done.
    + intros (ps & Hn & Hps & [->| ->]).
      * destruct (proj2 (plain_hash_iff 32 (plain_hash ps))) as [Hy _]; [by exists ps|congruence].
      * destruct ps as [|p ps]; [done|]. rewrite colon_hash_cons, str_length_app, colon_tail_length in Hl.
        simpl in *. lia.
  - destruct (sha256HashRegexHexPairs hash) eqn:Hr; (split; [intros H; try done|]).
    + apply regex_pairs_iff in Hr as (ps & ? & ? & ?). exists ps. auto.
    + done.
    + intros (ps & Hn & Hps & [->| ->]).
      * destruct (proj2 (plain_hash_iff 32 (plain_hash ps))) as [_ Hy]; [by exists ps|lia].
      * rewrite (proj2 (regex_pairs_iff (colon_hash ps))) in Hr; [done|by exists ps].
Qed.

Lemma hex_xdigits n z : all_xdigits (hex n z) = true.
Proof.
  revert z. induction n as [|n IH]; intros z; [done|]. cbn [hex]. rewrite all_xdigits_forall, str_forall_app.
  rewrite <- !all_xdigits_forall, IH. cbn [all_xdigits andb]. rewrite andb_true_r.
  pose proof (Z.mod_pos_bound z 16 ltac:(lia)) as Hb. generalize dependent (z mod 16)%Z. intros d Hb.
  assert (d ∈ [0; 1; 2; 3; 4; 5; 6; 7; 8; 9; 10; 11; 12; 13; 14; 15]%Z) as Hd
    by (rewrite !elem_of_cons; lia).
  clear Hb. revert d Hd. apply Forall_forall. repeat constructor.
Qed.

Lemma digest_xdigits s : all_xdigits (sha256_hex s) = true ∧ String.length (sha256_hex s) = 64%nat.
Proof.
  unfold sha256_hex, join. cbn [map String.concat]. rewrite all_xdigits_forall, !str_forall_app, !str_length_app.
  rewrite <- !all_xdigits_forall, !hex_xdigits, !hex_length. done.
Qed.

(** The digests the hashing code prints are hashes the validation admits. *)
Lemma digest_admitted s : validateCertificateHash (sha256_hex s) = None.
Proof. unfold validateCertificateHash. destruct (digest_xdigits s) as [-> ->]. done. Qed.

(** ** Lemmas: lists in annotations *)

(** The bytes of a hash; none of them separates, and none of them is space. *)
Definition hash_char (a : Ascii.ascii) : bool := is_xdigit a || Ascii.eqb a ":"%char.

Lemma space_runes_other : Forall (λ r, str_forall hash_char r = false) space_runes.
Proof. repeat constructor. Qed.

Lemma trim_space_hash s : str_forall hash_char s = true → trim_space s = s.
Proof.
  intros Hs. unfold trim_space.
  assert (∀ f : string → bool, (∀ r, f r = true → str_forall hash_char r = true) →
    List.find f space_runes = None) as Hnone.
  { intros f Hf. destruct (List.find f space_runes) as [r|] eqn:E; [|done].
    apply List.find_some in E as [Hr%list_elem_of_In Hf'].
    pose proof (proj1 (Forall_forall _ _) space_runes_other r Hr) as Hx. simpl in Hx.
    rewrite (Hf r Hf') in Hx. done. }
  assert (trim_left (String.length s) s = s) as ->.
  { destruct (String.length s); [done|]. cbn [trim_left trim_right]. rewrite Hnone; [done|].
    intros r (t & ->)%has_prefix_spec. rewrite str_forall_app in Hs. by apply andb_true_iff in Hs as [? _]. }
  destruct (String.length s); [done|]. cbn [trim_left trim_right]. rewrite Hnone; [done|].
  intros r (t & ->)%has_suffix_spec. rewrite str_forall_app in Hs. by apply andb_true_iff in Hs as [_ ?].
Qed.

Lemma hash_char_no_char a s : hash_char a = false → str_forall hash_char s = true → no_char a s = true.
Proof.
  intros Ha. induction s as [|b s IH]; [done|]. simpl. intros [Hb Hs]%andb_true_iff.
  rewrite IH by done. destruct (Ascii.eqb_spec a b) as [->|]; [congruence|done].
Qed.

Lemma split_no_char sep s : no_char sep s = true → split sep s = [s].
Proof.
  induction s as [|a s IH]; [done|]. simpl. intros [Ha Hs]%andb_true_iff.
  rewrite (IH Hs). rewrite Ascii.eqb_sym in Ha. by apply negb_true_iff in Ha as ->.
Qed.

Lemma split_app sep s t : no_char sep s = true → split sep (s +:+ String sep t) = s :: split sep t.
Proof.
  induction s as [|a s IH]; [simpl; by rewrite Ascii.eqb_refl|]. cbn [no_char]. intros [Ha Hs]%andb_true_iff.
  rewrite Ascii.eqb_sym in Ha. apply negb_true_iff in Ha. rewrite str_app_cons. cbn [split]. by rewrite Ha, IH.
Qed.

Lemma split_join sep l :
  l ≠ [] → Forall (λ s, no_char sep s = true) l → split sep (join (String sep "") l) = l.
Proof.
  intros Hne Hl. induction l as [|x l IH]; [done|]. apply Forall_cons in Hl as [Hx Hl].
  destruct l as [|y l]; [by apply split_no_char|].
  change (join (String sep "") (x :: y :: l)) with (x +:+ String sep (join (String sep "") (y :: l))).
  by rewrite split_app, IH.
Qed.

Lemma xdigits_hash_char s : all_xdigits s = true → str_forall hash_char s = true.
Proof.
  induction s as [|a s IH]; [done|]. simpl. intros [Ha Hs]%andb_true_iff. unfold hash_char at 1. by rewrite Ha, IH.
Qed.

Lemma valid_hash_chars hash : validateCertificateHash hash = None → str_forall hash_char hash = true ∧ hash ≠ "".
Proof.
  intros (ps & Hl & Hps & Hh)%certificate_hash_iff.
  assert (∀ p, hex_pair p → str_forall hash_char (pair_string p) = true) as Hp.
  { intros [a b] [Ha Hb]. apply xdigits_hash_char. cbn in *. by rewrite Ha, Hb. }
  destruct ps as [|p ps]; [done|]. apply Forall_cons in Hps as [Hp0 Hps]. destruct Hh as [-> | ->].
  - rewrite plain_hash_cons. split; [|done]. rewrite str_forall_app, Hp by done. simpl.
    clear Hl. induction Hps as [|q ps Hq Hps IH]; [done|]. rewrite plain_hash_cons, str_forall_app, Hp by done. done.
  - rewrite colon_hash_cons. split; [|done]. rewrite str_forall_app, Hp by done. simpl.
    clear Hl. induction Hps as [|q ps Hq Hps IH]; [done|]. cbn [colon_tail].
    rewrite !str_forall_app, Hp by done. done.
Qed.

(** C30: Certificate hashes survive the annotation: a comma-separated list of valid hashes, in
    either notation, is read back as exactly that list, and the option stores it. *)
Theorem hash_option_roundtrip hashes out :
  Forall (λ h, validateCertificateHash h = None) hashes →
  let '(err, out') := ApplyVerifyCertificateHash (join "," hashes) out in
  err = None ∧ tls_verify_hashes out' = hashes.
Proof.
  intros Hh. unfold ApplyVerifyCertificateHash.
  assert (splitFakeYamlArray (join "," hashes) = hashes) as ->.
  { destruct hashes as [|h hs]; [done|]. unfold splitFakeYamlArray. rewrite split_join; [|done|].
    - clear -Hh. induction Hh as [|x l Hx Hl IH]; [done|]. simpl. rewrite IH.
      destruct (valid_hash_chars x Hx) as [Hc Hne]. rewrite (split_no_char "-"%char) by (by apply hash_char_no_char).
      cbn [map]. rewrite trim_space_hash by done. by rewrite filter_cons_True by done.
    - eapply Forall_impl; [exact Hh|]. intros x [Hc _]%valid_hash_chars. by apply hash_char_no_char. }
  assert (omap validateCertificateHash hashes = []) as ->; [|done].
  induction Hh as [|x l Hx Hl IH]; [done|]. rewrite omap_cons_eq, Hx. exact IH.
Qed.

(** ** Lemmas: options *)

Lemma option_func_in k f : option_func k = Some f → (k, f) ∈ TLSExtensionOptionFuncs.
Proof.
  unfold option_func. intros ([k' f'] & Hh%head_Some_elem_of & ->)%fmap_Some.
  by apply list_elem_of_filter in Hh as [<- ?].
Qed.

(** Case analysis on the option a key names. *)
Ltac option_cases k :=
  let f := fresh "f" in let E := fresh "E" in
  unfold apply_option; cbn [fst snd];
  destruct (option_func k) as [f|] eqn:E;
  [apply option_func_in in E; unfold TLSExtensionOptionFuncs in E;
   repeat (apply elem_of_cons in E as [E|E]; [injection E as ? ?; subst|]); [..|by apply not_elem_of_nil in E]|].

(** Neither the error of an option nor the field it writes depends on the others. *)
Lemma option_errors_local kv out1 out2 : (apply_option kv out1).1 = (apply_option kv out2).1.
Proof.
  destruct kv as [k v]. option_cases k; try done.
  - unfold ApplyMinTLSVersion. by destruct (tlsProtocolMap !! v).
  - unfold ApplyMaxTLSVersion. by destruct (tlsProtocolMap !! v).
  - unfold ApplyVerifyCertificateHash. by destruct (omap validateCertificateHash (splitFakeYamlArray v)).
Qed.

Definition option_errors (kv : string * string) : list error :=
  (apply_option kv (mkTLS [] [] [] [] [] None None [] [] None)).1.

Lemma option_loop opts errs out :
  foldl option_step (errs, out) opts =
  (errs ++ flat_map option_errors opts, foldl (λ o kv, (apply_option kv o).2) out opts).
Proof.
  revert errs out. induction opts as [|kv opts IH]; intros errs out; simpl; [by rewrite app_nil_r|].
  unfold option_step at 2. cbn [fst snd].
  pose proof (option_errors_local kv out (mkTLS [] [] [] [] [] None None [] [] None)) as He.
  fold (option_errors kv) in He. destruct (apply_option kv out) as [es o]. simpl in *.
  rewrite IH, He. by rewrite <- app_assoc.
Qed.

Lemma options_commute kv1 kv2 out :
  kv1.1 ≠ kv2.1 → (apply_option kv2 (apply_option kv1 out).2).2 = (apply_option kv1 (apply_option kv2 out).2).2.
Proof.
  destruct kv1 as [k1 v1], kv2 as [k2 v2]. cbn [fst]. intros Hk.
  option_cases k1; option_cases k2; try done;
    unfold ApplyMinTLSVersion, ApplyMaxTLSVersion, ApplyVerifyCertificateHash;
    destruct (tlsProtocolMap !! v1), (tlsProtocolMap !! v2),
      (omap validateCertificateHash (splitFakeYamlArray v1)),
      (omap validateCertificateHash (splitFakeYamlArray v2)); done.
Qed.

Lemma options_perm opts1 opts2 out :
  opts1 ≡ₚ opts2 → NoDup opts1.*1 →
  foldl (λ o kv, (apply_option kv o).2) out opts1 = foldl (λ o kv, (apply_option kv o).2) out opts2.
Proof.
  intros Hp. revert out. induction Hp as [|kv l1 l2 Hp IH|kv1 kv2 l|l1 l2 l3 H1 IH1 H2 IH2]; intros out Hn.
  - done.
  - cbn in Hn. apply NoDup_cons in Hn as [_ Hn]. simpl. by apply IH.
  - cbn in Hn. apply NoDup_cons in Hn as [Hx _]. simpl. rewrite options_commute; [done|].
    intros He. apply Hx. rewrite He. by left.
  - rewrite IH1 by done. apply IH2. by rewrite <- H1.
Qed.

(** Reading an option out of the list. *)
Definition option_at (opts : list (string * string)) (key : string) : option string :=
  (list_to_map opts : gmap string string) !! key.

Section field.
Context {A : Type} (field : TLSConfig → A) (key : string).

Definition frames : Prop := ∀ kv out, kv.1 ≠ key → field (apply_option kv out).2 = field out.

Lemma option_field opts out :
  frames → NoDup opts.*1 →
  match option_at opts key with
  | None => field (foldl (λ o kv, (apply_option kv o).2) out opts) = field out
  | Some v => ∃ o, field (foldl (λ o kv, (apply_option kv o).2) out opts) = field (apply_option (key, v) o).2
  end.
Proof.
  intros Hf. revert out. induction opts as [|[k v] opts IH]; intros out Hn; [done|].
  cbn in Hn. apply NoDup_cons in Hn as [Hx Hn]. unfold option_at in *. cbn [list_to_map foldr uncurry foldl].
  destruct (decide (k = key)) as [->|Hk].
  - cbn. rewrite lookup_insert_eq. specialize (IH (apply_option (key, v) out).2 Hn).
    rewrite not_elem_of_list_to_map_1 in IH by done. exists out. exact IH.
  - cbn. rewrite lookup_insert_ne by done. specialize (IH (apply_option (k, v) out).2 Hn).
    destruct (_ !! key); [done|]. by rewrite IH, Hf.
Qed.

End field.

Ltac prove_frames :=
  let k := fresh "k" in let v := fresh "v" in
  intros [k v] ? ?; option_cases k; try done;
  unfold ApplyMinTLSVersion, ApplyMaxTLSVersion, ApplyVerifyCertificateHash;
  destruct (tlsProtocolMap !! v), (omap validateCertificateHash (splitFakeYamlArray v)); done.

Lemma min_frames : frames tls_min MinTLSVersion.
Proof. prove_frames. Qed.
Lemma max_frames : frames tls_max MaxTLSVersion.
Proof. prove_frames. Qed.
Lemma hashes_frames : frames tls_verify_hashes VerifyCertificateHash.
Proof. prove_frames. Qed.
Lemma sans_frames : frames tls_verify_sans VerifySubjectAltNames.
Proof. prove_frames. Qed.
Lemma other_frames kv out :
  tls_certificates (apply_option kv out).2 = tls_certificates out ∧
  tls_client_validation (apply_option kv out).2 = tls_client_validation out.
Proof.
  destruct kv as [k v]. option_cases k; try done;
  unfold ApplyMinTLSVersion, ApplyMaxTLSVersion, ApplyVerifyCertificateHash;
  destruct (tlsProtocolMap !! v), (omap validateCertificateHash (splitFakeYamlArray v)); done.
Qed.

(** The options leave the certificates alone. *)
Lemma options_other opts out :
  tls_certificates (ApplyTLSExtensionOptions opts out).2 = tls_certificates out ∧
  tls_client_validation (ApplyTLSExtensionOptions opts out).2 = tls_client_validation out.
Proof.
  unfold ApplyTLSExtensionOptions. rewrite option_loop. cbn [fst snd].
  revert out. induction opts as [|kv opts IH]; intros out; [done|]. cbn [foldl].
  destruct (IH (apply_option kv out).2) as [-> ->]. apply other_frames.
Qed.

Lemma known_option k f v out :
  option_func k = Some f → apply_option (k, v) out = let '(err, o) := f v out in (option_list err, o).
Proof. unfold apply_option. cbn [fst snd]. by intros ->. Qed.

Lemma no_option_errors opts k v :
  flat_map option_errors opts = [] → option_at opts k = Some v → option_errors (k, v) = [].
Proof.
  intros He Hv. unfold option_at in Hv. apply elem_of_list_to_map_2, list_elem_of_In in Hv.
  destruct (option_errors (k, v)) as [|e es] eqn:E; [done|]. exfalso.
  assert (e ∈ flat_map option_errors opts) as Hx.
  { apply list_elem_of_In, in_flat_map. exists (k, v). split; [done|]. rewrite E. by left. }
  rewrite He in Hx. by apply not_elem_of_nil in Hx.
Qed.

(** The order in which Go iterates the options of a listener does not matter: any two
    orders give the same TLS configuration, and the same errors up to their order. *)
Theorem tls_options_order_independent opts1 opts2 out :
  opts1 ≡ₚ opts2 → NoDup opts1.*1 →
  (ApplyTLSExtensionOptions opts1 out).2 = (ApplyTLSExtensionOptions opts2 out).2 ∧
  (ApplyTLSExtensionOptions opts1 out).1 ≡ₚ (ApplyTLSExtensionOptions opts2 out).1.
Proof.
  intros Hp Hn. unfold ApplyTLSExtensionOptions. rewrite !option_loop. cbn [fst snd app].
  rewrite (options_perm opts1 opts2 out Hp Hn). split; [done|]. by rewrite Hp.
Qed.

(** What a version option says. *)
Definition version_option (opts : list (string * string)) (key : string) (old : option TlsProtocol) :
    option TlsProtocol :=
  match option_at opts key with None => old | Some v => tlsProtocolMap !! v end.

(** When the options of a listener are applied without error, every option was one the
    gateway knows, the protocol versions are the ones the options name and the minimum is not
    above the maximum, and every certificate hash of the configuration is a valid digest. *)
Theorem tls_options_exact opts out cfg :
  NoDup opts.*1 → ApplyTLSExtensionOptions opts out = ([], cfg) →
  (∀ k v, option_at opts k = Some v → k ∈ TLSExtensionOptionFuncs.*1) ∧
  tls_min cfg = version_option opts MinTLSVersion (tls_min out) ∧
  tls_max cfg = version_option opts MaxTLSVersion (tls_max out) ∧
  (∀ lo hi, tls_min cfg = Some lo → tls_max cfg = Some hi → (tls_value lo ≤ tls_value hi)%Z) ∧
  (∀ v, option_at opts VerifyCertificateHash = Some v →
     tls_verify_hashes cfg = splitFakeYamlArray v ∧
     Forall (λ h, validateCertificateHash h = None) (tls_verify_hashes cfg)).
Proof.
  intros Hn. unfold ApplyTLSExtensionOptions. rewrite option_loop. cbn [fst snd app].
  intros [= [Hf Hv]%app_eq_nil <-]. set (c := foldl _ out opts) in *.
  assert (∀ k v, option_at opts k = Some v → option_errors (k, v) = []) as Herr
    by (intros k v; by apply no_option_errors).
  split; [|split; [|split; [|split]]].
  - intros k v Hk. apply Herr in Hk. unfold option_errors, apply_option in Hk. cbn [fst] in Hk.
    destruct (option_func k) as [f|] eqn:E; [|done]. apply option_func_in in E.
    apply list_elem_of_fmap. by exists (k, f).
  - pose proof (option_field tls_min _ opts out min_frames Hn) as Hm. fold c in Hm. unfold version_option.
    destruct (option_at opts MinTLSVersion) as [v|] eqn:E; [|done]. destruct Hm as [o ->].
    apply Herr in E. revert E. unfold option_errors. rewrite !(known_option MinTLSVersion ApplyMinTLSVersion) by done.
    unfold ApplyMinTLSVersion. by destruct (tlsProtocolMap !! v).
  - pose proof (option_field tls_max _ opts out max_frames Hn) as Hm. fold c in Hm. unfold version_option.
    destruct (option_at opts MaxTLSVersion) as [v|] eqn:E; [|done]. destruct Hm as [o ->].
    apply Herr in E. revert E. unfold option_errors. rewrite !(known_option MaxTLSVersion ApplyMaxTLSVersion) by done.
    unfold ApplyMaxTLSVersion. by destruct (tlsProtocolMap !! v).
  - intros lo hi Hlo Hhi. unfold validateTLSVersions in Hv. rewrite Hlo, Hhi in Hv.
    destruct (Z.ltb_spec (tls_value hi) (tls_value lo)); [done|lia].
  - intros v Hk. pose proof (option_field tls_verify_hashes _ opts out hashes_frames Hn) as Hm. fold c in Hm.
    rewrite Hk in Hm. destruct Hm as [o ->]. apply Herr in Hk.
    unfold option_errors in Hk. rewrite (known_option VerifyCertificateHash ApplyVerifyCertificateHash) in Hk |- * by done.
    unfold ApplyVerifyCertificateHash in *.
    destruct (omap validateCertificateHash (splitFakeYamlArray v)) as [|e es] eqn:E; [|done]. split; [done|].
    simpl. clear -E. apply Forall_forall. intros h Hh.
    destruct (validateCertificateHash h) as [e|] eqn:Ev; [|done].
    assert (e ∈ omap validateCertificateHash (splitFakeYamlArray v)) as Hx by (apply list_elem_of_omap; by exists h).
    rewrite E in Hx. by apply not_elem_of_nil in Hx.
Qed.

(** ** Witnesses *)

Definition ex_hash : string := "ba7816bf8f01cfea414140de5dae2223b00361a396177a9cb410ff61f20015ad".
Definition ex_options : list (string * string) :=
  [(MinTLSVersion, "1.2"); (MaxTLSVersion, "1.3"); (VerifyCertificateHash, ex_hash)].
Definition ex_tls : TLSConfig := mkTLS [] [] [] [] [] None None [] [] None.

Lemma hash_option_roundtrip_witness :
  (ApplyVerifyCertificateHash (ex_hash +:+ "," +:+ ex_hash) ex_tls).1 = None.
Proof.
  refine (proj1 (hash_option_roundtrip [ex_hash; ex_hash] ex_tls _)). repeat constructor; vm_compute; reflexivity.
Defined.

Lemma ex_options_keys : NoDup ex_options.*1.
Proof. vm_compute. repeat constructor; set_solver. Qed.

Lemma tls_options_order_independent_witness :
  (ApplyTLSExtensionOptions ex_options ex_tls).2 = (ApplyTLSExtensionOptions (reverse ex_options) ex_tls).2.
Proof.
  exact (proj1 (tls_options_order_independent ex_options (reverse ex_options) ex_tls
    (symmetry (reverse_Permutation ex_options)) ex_options_keys)).
Defined.

Lemma tls_options_exact_witness :
  tls_min (ApplyTLSExtensionOptions ex_options ex_tls).2 = Some TLSv1_2.
Proof.
  exact (proj1 (proj2 (tls_options_exact ex_options ex_tls (ApplyTLSExtensionOptions ex_options ex_tls).2
    ex_options_keys eq_refl))).
Defined.
