(* ===== verification/ListenerTLS.v ===== *)
(** * TLS of listeners (pkg/kgateway/translator/listener/gateway_listener_translator.go)

    The TLS configuration of a filter chain: server certificates out of Secrets, the options
    of the listener, and the validation of client certificates, from the Gateway's frontend
    configuration or from the ListenerPolicies of the listener.  Joined errors are lists. *)

From S2P Require Import Prelude IR Delegation RouteTree Query References ListenerValidation GatewayIndex SslUtils.

(** [gwv1.ListenerTLSConfig]. *)
Record ListenerTLSConfig := mkLTC {
  ltc_mode : option string; ltc_refs : list SecretObjectReference; ltc_options : gmap string string }.

(** [query.GatewayQueries], as far as TLS uses it. *)
Record GatewayQueries := mkGQ { gq_secrets : SecretIndex; gq_configmaps : ConfigMapIndex }.

Definition GetSecretForRef (q : GatewayQueries) (fromGk : GroupKind) (fromns : string)
    (ref : SecretObjectReference) : error + Secret := GetSecret (gq_secrets q) (mkFromRef fromGk fromns) ref.

Definition GetConfigMapForRef (q : GatewayQueries) (fromGk : GroupKind) (fromns : string)
    (ref : ObjectReference) : error + ConfigMap := GetConfigMap (gq_configmaps q) (mkFromRef fromGk fromns) ref.

Definition GatewayGVK : GroupVersionKind := mkGVK GatewayGroup "v1" GatewayKind.
Definition XListenerSetGVK : GroupVersionKind := mkGVK "gateway.networking.x-k8s.io" "v1alpha1" "XListenerSet".
Definition gvk_gk (k : GroupVersionKind) : GroupKind := mkGK (gvk_group k) (gvk_kind k).
Definition ListenerPolicyGK : GroupKind := mkGK "gateway.kgateway.dev" "ListenerPolicy".

(** The type assertion to [*ListenerPolicyIR] and [GetClientCertificateValidation]. *)
Class ListenerPolicyView (P : Type) := {
  client_certificate_validation : P → option (option ClientCertificateValidationIR) }.

(** [buildCaCertificateReference]. *)
Section ca.
Context {Cert : Type} `{CL : CertLib Cert} (q : GatewayQueries).

Definition buildCaCertificateReference (ref : ObjectReference) (parentGVK : GroupVersionKind)
    (parentNamespace : string) : error + string :=
  if String.eqb (or_group ref) "" && String.eqb (or_kind ref) "ConfigMap" then
    let prefix := "failed to fetch CA certificate ConfigMap " +:+ or_name ref +:+ "/" +:+ parentNamespace +:+ ": " in
    match GetConfigMapForRef q (gvk_gk parentGVK) parentNamespace ref with
    | inl err =>
        if err_is err ErrMissingReferenceGrant then inl (EWrap prefix (ESentinel ErrMissingCaCertificateRefGrant))
        else inl (EWrap prefix (ESentinel ErrInvalidCACertificateRef))
    | inr cm =>
        match GetCACertFromConfigMap cm with
        | inl err => inl (EWrap ("failed to extract CA certificate from ConfigMap " +:+ cm_namespace cm +:+ "/" +:+
                                 cm_name cm +:+ ": ") err)
        | inr c => inr c
        end
    end
  else if String.eqb (or_group ref) "" && String.eqb (or_kind ref) "Secret" then
    let sref := mkSecretRef (if String.eqb (or_group ref) "" then None else Some (or_group ref))
                  (if String.eqb (or_kind ref) "" then None else Some (or_kind ref))
                  (or_namespace ref) (or_name ref) in
    match GetSecretForRef q (gvk_gk parentGVK) parentNamespace sref with
    | inl err => inl (EWrap ("failed to fetch CA certificate Secret " +:+ or_name ref +:+ "/" +:+ parentNamespace +:+ ": ") err)
    | inr s =>
        match GetCACertFromSecret s with
        | inl err => inl (EWrap ("failed to extract CA certificate from Secret " +:+ os_namespace (sec_source s) +:+ "/" +:+
                                 os_name (sec_source s) +:+ ": ") err)
        | inr c => inr c
        end
    end
  else inl (EMsg ("unsupported CA certificate reference type: " +:+ or_group ref +:+ "/" +:+ or_kind ref)).

(** One reference: the certificates so far and the errors so far. *)
Definition ca_step (parentGVK : GroupVersionKind) (parentNamespace : string) (acc : list string * list error)
    (ref : ObjectReference) : list string * list error :=
  match buildCaCertificateReference ref parentGVK parentNamespace with
  | inl err => (acc.1, acc.2 ++ [err])
  | inr c => (acc.1 ++ [c], acc.2)
  end.

Definition with_client_validation (v : ClientCertificateValidation) (t : TLSConfig) : TLSConfig :=
  mkTLS (tls_alpn t) (tls_certificates t) (tls_cipher_suites t) (tls_ecdh_curves t) (tls_signature_algorithms t)
    (tls_min t) (tls_max t) (tls_verify_sans t) (tls_verify_hashes t) (Some v).

(** Whether a validation was set, the errors, and the configuration. *)
Definition applyClientCertificateValidation (vc : ClientCertificateValidationIR) (t : TLSConfig)
    (parentGVK : GroupVersionKind) (parentNamespace : string) : bool * list error * TLSConfig :=
  let '(cas, errs) := foldl (ca_step parentGVK parentNamespace) ([], []) (ccv_refs vc) in
  match cas with
  | [] => (false, errs, t)
  | _ => (true, errs, with_client_validation (mkClientCert cas (ccv_require vc) (ccv_insecure_fallback vc)) t)
  end.

End ca.

Section tls.
Context {P : Type} `{LP : ListenerPolicyView P} {Cert : Type} `{CL : CertLib Cert}.
Context (q : GatewayQueries).
(** The iteration order of the map of options. *)
Context (iter_options : gmap string string → list (string * string)).

Abbreviation Lis := (@IRListener (@ListenerExtra P)).

(** [listener.TLS]. *)
Definition listener_tls (l : Lis) : option ListenerTLSConfig :=
  match l_tls_mode (il_listener l) with
  | None => None
  | Some mode => Some (mkLTC mode (le_cert_refs (il_extra l)) (le_tls_options (il_extra l)))
  end.

(** The group, version and kind of the parent; typed objects may come without them. *)
Definition parent_gvk (l : Lis) : GroupVersionKind :=
  if bool_decide (le_parent_gvk (il_extra l) = mkGVK "" "" "") then
    match par_type (il_parent l) with
    | TGateway => GatewayGVK
    | TListenerSet => XListenerSetGVK
    | _ => mkGVK "" "" ""
    end
  else le_parent_gvk (il_extra l).

(** One [certificateRef]: the certificates so far and the errors so far. *)
Definition cert_step (l : Lis) (acc : list TLSCertificate * list error) (ref : SecretObjectReference) :
    list TLSCertificate * list error :=
  match GetSecretForRef q (gvk_gk (parent_gvk l)) (par_namespace (il_parent l)) ref with
  | inl err => (acc.1, acc.2 ++ [err])
  | inr s =>
      match ValidateTlsSecretData (os_name (sec_source s)) (os_namespace (sec_source s)) (sec_data s) with
      | inl err => (acc.1, acc.2 ++ [err])
      | inr _ =>
          (acc.1 ++ [mkCert (data_get (sec_data s) ServiceAccountRootCAKey)
                       (data_get (sec_data s) TLSPrivateKeyKey) (data_get (sec_data s) TLSCertKey)], acc.2)
      end
  end.

(** [getCertValidationFromAttached]; references are compared as their JSON. *)
Definition policy_cert_step (acc : list ObjectReference * bool) (pol : PolicyAtt P) : list ObjectReference * bool :=
  match client_certificate_validation (pa_ir pol) with
  | Some (Some v) =>
      (foldl (λ certs ref, if bool_decide (ref ∈ certs) then certs else certs ++ [ref]) acc.1 (ccv_refs v),
       acc.2 || ccv_require v)
  | _ => acc
  end.

Definition getCertValidationFromAttached (l : Lis) : option ClientCertificateValidationIR :=
  let '(certs, require) := foldl policy_cert_step ([], false) (ap_get (le_policies (il_extra l)) ListenerPolicyGK) in
  match certs with
  | [] => None
  | _ => Some (mkCCV certs require false)
  end.

Definition has_trusted_ca (v : option ClientCertificateValidationIR) : bool :=
  match v with Some v => bool_decide (ccv_refs v ≠ []) | None => false end.

(** The Gateway-level validation: [inl] fails the listener. *)
Definition apply_gateway_validation (resolved : option ClientCertificateValidationIR) (t : TLSConfig)
    (gatewayNamespace : string) : list error + list error * TLSConfig :=
  match resolved with
  | Some v =>
      if has_trusted_ca resolved then
        let '(generated, caErr, t) := applyClientCertificateValidation q v t GatewayGVK gatewayNamespace in
        if negb generated && ccv_require v then inl caErr else inr (caErr, t)
      else inr ([], t)
  | None => inr ([], t)
  end.

(** The server side of the configuration: certificates and options. *)
Definition server_config (tls : ListenerTLSConfig) (certificates : list TLSCertificate) : list error * TLSConfig :=
  let alpn := data_get (ltc_options tls) AlpnProtocols in
  ApplyTLSExtensionOptions (iter_options (ltc_options tls))
    (mkTLS (if String.eqb alpn "" then [] else split ","%char alpn) certificates [] [] [] None None [] [] None).

Definition translateTLSConfig (l : Lis) (tls : option ListenerTLSConfig)
    (resolved : option ClientCertificateValidationIR) (gatewayNamespace : string) : option TLSConfig * list error :=
  match tls with
  | None => (None, [])
  | Some tls =>
      if negb (bool_decide (ltc_mode tls = Some "Terminate")) then (None, [])
      else
        let '(certificates, certErr) := foldl (cert_step l) ([], []) (ltc_refs tls) in
        if bool_decide (certificates = []) && negb (bool_decide (certErr = [])) then (None, certErr)
        else
          match server_config tls certificates with
          | ((_ :: _) as errs, _) => (None, errs)
          | ([], t) =>
              if negb (bool_decide (tls_verify_sans t = [])) && negb (has_trusted_ca resolved)
              then (None, [ESentinel ErrVerifySubjectAltNamesRequiresCA])
              else
                match apply_gateway_validation resolved t gatewayNamespace with
                | inl caErr => (None, certErr ++ caErr)
                | inr (caErr, t) =>
                    match getCertValidationFromAttached l with
                    | None => (Some t, certErr ++ caErr)
                    | Some v =>
                        if bool_decide (parent_gvk l = mkGVK "" "" "")
                        then (None, [EMsg "unsupported parent type for ListenerPolicy clientCertificateValidation"])
                        else
                          let '(generated, caErr, t) :=
                            applyClientCertificateValidation q v t (parent_gvk l) (par_namespace (il_parent l)) in
                          if negb generated then
                            if negb (ccv_require v) then (Some t, []) else (None, certErr ++ caErr)
                          else (Some t, certErr ++ caErr)
                    end
                end
          end
  end.

(** [reportTLSConfigError]. *)
Definition ResourceNotFoundMessage (o : ObjectSource) : string :=
  (if String.eqb (os_kind o) "" then "Resource" else os_kind o) +:+ " " +:+ os_namespace o +:+ "/" +:+ os_name o +:+
  " not found.".

(** Reason of ResolvedRefs, reason of Accepted, message, and whether the references are fine. *)
Definition tls_error_verdict (err : error) : string * string * string * bool :=
  if err_is err ErrMissingReferenceGrant
  then ("RefNotPermitted", "Invalid", "Reference not permitted by ReferenceGrant.", false)
  else if err_is err ErrMissingCaCertificateRefGrant
  then ("RefNotPermitted", "NoValidCACertificate", err_text err, false)
  else if err_is err ErrInvalidTlsSecret then ("InvalidCertificateRef", "Invalid", err_text err, false)
  else if err_is err ErrVerifySubjectAltNamesRequiresCA then ("InvalidCertificateRef", "Invalid", err_text err, true)
  else if err_is err ErrInvalidCACertificateRef
  then ("InvalidCACertificateRef", "NoValidCACertificate", err_text err, false)
  else if err_is err ErrInvalidCACertificateKind
  then ("InvalidCACertificateKind", "NoValidCACertificate", err_text err, false)
  else if err_is err ErrUnknownTLSExtensionOption then ("InvalidCertificateRef", "Invalid", err_text err, true)
  else ("InvalidCertificateRef", "Invalid", "Invalid certificate ref(s).", false).

Definition reportTLSConfigError (errs : list error) (l : Lis) (partiallyValid : bool) : list Report :=
  let err := EJoin errs in
  let '(reason, acceptedReason, message, resolvedRefsOK) := tls_error_verdict err in
  let message := match err_as_not_found err with Some o => ResourceNotFoundMessage o | None => message end in
  let report c := RListenerCondition (il_parent l) (l_name (il_listener l)) c in
  (if resolvedRefsOK then [] else [report (mkCond "ResolvedRefs" false reason message)]) ++
  [report (mkCond "Programmed" partiallyValid "Invalid" message);
   report (mkCond "Accepted" partiallyValid acceptedReason message)].

End tls.

(** ** Lemmas: fetched certificates *)

Section fetched.
Context {Cert : Type} `{CL : CertLib Cert} (q : GatewayQueries).

(** The certificates a validation can use, and the validation Envoy gets. *)
Definition fetched_cas (v : ClientCertificateValidationIR) (gvk : GroupVersionKind) (ns : string) : list string :=
  omap (λ ref, match buildCaCertificateReference q ref gvk ns with inr c => Some c | inl _ => None end) (ccv_refs v).

Definition enforced (v : ClientCertificateValidationIR) (gvk : GroupVersionKind) (ns : string) :
    option ClientCertificateValidation :=
  match fetched_cas v gvk ns with
  | [] => None
  | cas => Some (mkClientCert cas (ccv_require v) (ccv_insecure_fallback v))
  end.

Definition ca_errors (v : ClientCertificateValidationIR) (gvk : GroupVersionKind) (ns : string) : list error :=
  omap (λ ref, match buildCaCertificateReference q ref gvk ns with inr _ => None | inl e => Some e end) (ccv_refs v).

Lemma ca_loop gvk ns refs acc :
  foldl (ca_step q gvk ns) acc refs =
  (acc.1 ++ omap (λ ref, match buildCaCertificateReference q ref gvk ns with inr c => Some c | inl _ => None end) refs,
   acc.2 ++ omap (λ ref, match buildCaCertificateReference q ref gvk ns with inr _ => None | inl e => Some e end) refs).
Proof.
  revert acc. induction refs as [|ref refs IH]; intros [cas errs]; cbn [foldl]; [by rewrite !app_nil_r|].
  rewrite IH, !omap_cons_eq. unfold ca_step. destruct (buildCaCertificateReference q ref gvk ns); cbn [fst snd];
    by rewrite <- ?app_assoc.
Qed.

Lemma apply_validation_spec v t gvk ns :
  applyClientCertificateValidation q v t gvk ns =
  match enforced v gvk ns with
  | None => (false, ca_errors v gvk ns, t)
  | Some e => (true, ca_errors v gvk ns, with_client_validation e t)
  end.
Proof.
  unfold applyClientCertificateValidation, enforced, fetched_cas, ca_errors. rewrite ca_loop. cbn [fst snd app].
  by destruct (omap _ (ccv_refs v)).
Qed.

(** A reference gives a certificate or an error. *)
Lemma unfetched_errors v gvk ns : ccv_refs v ≠ [] → enforced v gvk ns = None → ca_errors v gvk ns ≠ [].
Proof.
  unfold enforced, fetched_cas, ca_errors. destruct (ccv_refs v) as [|ref refs]; [done|]. intros _.
  rewrite !omap_cons_eq. by destruct (buildCaCertificateReference q ref gvk ns).
Qed.

Lemma enforced_Some v gvk ns e :
  enforced v gvk ns = Some e →
  ccv_ca_certificates e = fetched_cas v gvk ns ∧ fetched_cas v gvk ns ≠ [] ∧
  ccv_require_cert e = ccv_require v ∧ ccv_allow_insecure e = ccv_insecure_fallback v.
Proof. unfold enforced. destruct (fetched_cas v gvk ns); [done|]. by intros [= <-]. Qed.

End fetched.

Section tls_facts.
Context {P : Type} `{LP : ListenerPolicyView P} {Cert : Type} `{CL : CertLib Cert}.
Context (q : GatewayQueries) (iter_options : gmap string string → list (string * string)).

Abbreviation Lis := (@IRListener (@ListenerExtra P)).

Lemma attached_validation_refs l v : getCertValidationFromAttached l = Some v → ccv_refs v ≠ [].
Proof.
  unfold getCertValidationFromAttached. destruct (foldl _ _ _) as [[|c cs] r]; [done|]. by intros [= <-].
Qed.

(** What [apply_gateway_validation] leaves: the validation of the Gateway that is enforced. *)
Definition gateway_enforced (resolved : option ClientCertificateValidationIR) (ns : string) :
    option ClientCertificateValidation :=
  match resolved with Some g => if has_trusted_ca resolved then enforced q g GatewayGVK ns else None | None => None end.

Definition with_validation (v : option ClientCertificateValidation) (t : TLSConfig) : TLSConfig :=
  match v with Some v => with_client_validation v t | None => t end.

Lemma gateway_validation_spec resolved t ns :
  match apply_gateway_validation q resolved t ns with
  | inl errs => errs ≠ [] ∧ ∃ g, resolved = Some g ∧ ccv_require g = true ∧ gateway_enforced resolved ns = None
  | inr (_, t') =>
      t' = with_validation (gateway_enforced resolved ns) t ∧
      (∀ g, resolved = Some g → ccv_refs g ≠ [] → ccv_require g = true → gateway_enforced resolved ns ≠ None)
  end.
Proof.
  unfold apply_gateway_validation, gateway_enforced. destruct resolved as [g|]; [|done]. cbn [has_trusted_ca].
  case_bool_decide as Hr; [|split; [done|]; intros ? [= <-] H; by contradict H].
  rewrite apply_validation_spec. destruct (enforced q g GatewayGVK ns) as [e|] eqn:E; cbn [negb andb].
  - split; [done|]. by intros ? [= <-].
  - destruct (ccv_require g) eqn:Hq.
    + split; [by apply unfetched_errors|]. by exists g.
    + split; [done|]. intros ? [= <-]. congruence.
Qed.

(** The successful runs of [translateTLSConfig], as one list of conditions. *)
Lemma translate_tls_cases l tls resolved ns t errs :
  translateTLSConfig q iter_options l (Some tls) resolved ns = (Some t, errs) →
  ltc_mode tls = Some "Terminate" ∧
  ∃ certificates certErr t0,
    foldl (cert_step q l) ([], []) (ltc_refs tls) = (certificates, certErr) ∧
    (certificates = [] → certErr = []) ∧
    server_config iter_options tls certificates = ([], t0) ∧
    (tls_verify_sans t0 ≠ [] → has_trusted_ca resolved = true) ∧
    (∀ g, resolved = Some g → ccv_refs g ≠ [] → ccv_require g = true → gateway_enforced resolved ns ≠ None) ∧
    match getCertValidationFromAttached l with
    | None => t = with_validation (gateway_enforced resolved ns) t0
    | Some v =>
        t = with_validation (enforced q v (parent_gvk l) (par_namespace (il_parent l)))
              (with_validation (gateway_enforced resolved ns) t0) ∧
        (ccv_require v = true → enforced q v (parent_gvk l) (par_namespace (il_parent l)) ≠ None)
    end.
Proof.
  unfold translateTLSConfig. case_bool_decide as Hm; cbn [negb]; [|done]. intros H. split; [done|].
  destruct (foldl (cert_step q l) ([], []) (ltc_refs tls)) as [certificates certErr].
  exists certificates, certErr.
  destruct (bool_decide (certificates = []) && negb (bool_decide (certErr = []))) eqn:Hc; [done|].
  destruct (server_config iter_options tls certificates) as [[|e es] t0]; [|done]. exists t0.
  destruct (negb (bool_decide (tls_verify_sans t0 = [])) && negb (has_trusted_ca resolved)) eqn:Hs; [done|].
  pose proof (gateway_validation_spec resolved t0 ns) as Hg.
  destruct (apply_gateway_validation q resolved t0 ns) as [ge|[ce t1]]; [done|]. destruct Hg as [-> Hreq].
  split; [done|]. split.
  { intros ->. rewrite bool_decide_eq_true_2 in Hc by done. by apply negb_false_iff, bool_decide_eq_true in Hc. }
  split; [done|]. split.
  { intros Hn. rewrite bool_decide_eq_false_2 in Hs by done. cbn [negb andb] in Hs. by destruct (has_trusted_ca resolved). }
  split; [done|].
  destruct (getCertValidationFromAttached l) as [v|]; [|by injection H as <- _].
  case_bool_decide as Hp; [done|]. rewrite apply_validation_spec in H.
  destruct (enforced q v _ _) as [e|] eqn:E; cbn [negb] in H.
  - injection H as <- _. done.
  - destruct (ccv_require v); cbn [negb] in H; [done|]. injection H as <- _. done.
Qed.

Lemma server_config_other tls certificates :
  tls_certificates (server_config iter_options tls certificates).2 = certificates ∧
  tls_client_validation (server_config iter_options tls certificates).2 = None.
Proof. unfold server_config. apply (options_other _ (mkTLS _ certificates [] [] [] None None [] [] None)). Qed.

(** Client certificates are validated as configured.  In the TLS configuration of a chain,
    the validation is the one of the listener's policies when a CA certificate of theirs could
    be fetched, and else the one of the Gateway when a CA certificate of it could be fetched;
    and when the configuration that applies demands client certificates, the chain demands them
    and has a CA to check them against. *)
Theorem client_certificates_enforced l tls resolved ns t errs :
  translateTLSConfig q iter_options l (Some tls) resolved ns = (Some t, errs) →
  tls_client_validation t =
    match getCertValidationFromAttached l with
    | Some v => match enforced q v (parent_gvk l) (par_namespace (il_parent l)) with
                | Some e => Some e | None => gateway_enforced resolved ns end
    | None => gateway_enforced resolved ns
    end ∧
  (∀ v, getCertValidationFromAttached l = Some v ∨
        getCertValidationFromAttached l = None ∧ resolved = Some v ∧ ccv_refs v ≠ [] →
     ccv_require v = true →
     ∃ e, tls_client_validation t = Some e ∧ ccv_require_cert e = true ∧ ccv_ca_certificates e ≠ [] ∧
          ccv_allow_insecure e = ccv_insecure_fallback v ∧ ∃ gvk n, ccv_ca_certificates e = fetched_cas q v gvk n).
Proof.
  intros (_ & certs & certErr & t0 & _ & _ & Hsc & _ & Hg & Ht)%translate_tls_cases.
  assert (tls_client_validation t0 = None) as Ht0.
  { pose proof (proj2 (server_config_other tls certs)) as H. by rewrite Hsc in H. }
  assert (∀ v t, tls_client_validation (with_validation v t) =
    match v with Some e => Some e | None => tls_client_validation t end) as Hw by by intros [].
  assert (∀ v gvk n, ccv_require v = true → enforced q v gvk n ≠ None → ∃ e, enforced q v gvk n = Some e ∧
    ccv_require_cert e = true ∧ ccv_ca_certificates e ≠ [] ∧ ccv_allow_insecure e = ccv_insecure_fallback v ∧
    ∃ gvk n, ccv_ca_certificates e = fetched_cas q v gvk n) as Henf.
  { intros v gvk n Hr Hn. destruct (enforced q v gvk n) as [e|] eqn:E; [|done].
    apply enforced_Some in E as (H1 & H2 & H3 & H4). exists e. rewrite H1, H3. split_and!; [done..|by exists gvk, n]. }
  destruct (getCertValidationFromAttached l) as [v|]; [destruct Ht as [-> Hpol]|subst t]; rewrite !Hw, Ht0.
  - split; [destruct (enforced q v _ _); [done|by destruct (gateway_enforced resolved ns)]|].
    intros ? [[= <-]|[? _]] Hr; [|done]. destruct (Henf v _ _ Hr (Hpol Hr)) as (e & -> & ?). by exists e.
  - split; [by destruct (gateway_enforced resolved ns)|].
    intros v [?|(_ & -> & Hrefs)] Hr; [done|]. specialize (Hg v eq_refl Hrefs Hr).
    unfold gateway_enforced in *. destruct (has_trusted_ca (Some v)); [|done].
    destruct (Henf v _ _ Hr Hg) as (e & -> & ?). by exists e.
Qed.

(** The certificate of a reference, when it is one a listener can serve. *)
Definition served_certificate (l : Lis) (ref : SecretObjectReference) : option TLSCertificate :=
  match GetSecretForRef q (gvk_gk (parent_gvk l)) (par_namespace (il_parent l)) ref with
  | inl _ => None
  | inr s =>
      match ValidateTlsSecretData (os_name (sec_source s)) (os_namespace (sec_source s)) (sec_data s) with
      | inl _ => None
      | inr _ => Some (mkCert (data_get (sec_data s) ServiceAccountRootCAKey)
                         (data_get (sec_data s) TLSPrivateKeyKey) (data_get (sec_data s) TLSCertKey))
      end
  end.

Lemma cert_loop l refs acc :
  (foldl (cert_step q l) acc refs).1 = acc.1 ++ omap (served_certificate l) refs ∧
  (length (foldl (cert_step q l) acc refs).2 + length (omap (served_certificate l) refs) =
   length acc.2 + length refs)%nat.
Proof.
  revert acc. induction refs as [|ref refs IH]; intros acc; cbn [foldl].
  { by rewrite app_nil_r. }
  destruct (IH (cert_step q l acc ref)) as [H1 H2]. rewrite H1, !omap_cons_eq.
  revert H2. unfold cert_step, served_certificate.
  destruct (GetSecretForRef _ _ _ _) as [|s]; cbn [fst snd length]; rewrite ?length_app; cbn [length]; [split; [done|lia]|].
  destruct (ValidateTlsSecretData _ _ _); cbn [fst snd length]; rewrite ?length_app; cbn [length];
    (split; [by rewrite <- ?app_assoc|lia]).
Qed.

(** A TLS chain serves exactly the certificates of its references that the reference grants
    permit and that are valid key pairs, in the order of the references, and it serves at
    least one unless the listener names none. *)
Theorem served_certificates_exact l tls resolved ns t errs :
  translateTLSConfig q iter_options l (Some tls) resolved ns = (Some t, errs) →
  tls_certificates t = omap (served_certificate l) (ltc_refs tls) ∧
  (ltc_refs tls ≠ [] → tls_certificates t ≠ []).
Proof.
  intros (_ & certs & certErr & t0 & Hl & Hne & Hsc & _ & _ & Ht)%translate_tls_cases.
  pose proof (cert_loop l (ltc_refs tls) ([], [])) as [H1 H2]. rewrite Hl in H1, H2. cbn in H1, H2.
  assert (tls_certificates t = certs) as ->.
  { assert (tls_certificates t0 = certs) as Ht0.
    { pose proof (proj1 (server_config_other tls certs)) as H. by rewrite Hsc in H. }
    assert (∀ v t, tls_certificates (with_validation v t) = tls_certificates t) as Hw by by intros [].
    destruct (getCertValidationFromAttached l); [destruct Ht as [-> _]|subst t]; by rewrite !Hw. }
  split; [done|]. intros Hrefs Hc. specialize (Hne Hc). subst certErr.
  rewrite <- H1, Hc in H2. destruct (ltc_refs tls); [done|]. simpl in H2. lia.
Qed.

(** A terminating listener that gets no TLS configuration gets an error: the failure never
    passes silently, so the listener's status says why. *)
Theorem tls_failure_reported l tls resolved ns errs :
  ltc_mode tls = Some "Terminate" →
  translateTLSConfig q iter_options l (Some tls) resolved ns = (None, errs) → errs ≠ [].
Proof.
  intros Hm. unfold translateTLSConfig. rewrite bool_decide_eq_true_2 by done. cbn [negb].
  destruct (foldl (cert_step q l) ([], []) (ltc_refs tls)) as [certs certErr].
  destruct (bool_decide (certs = []) && negb (bool_decide (certErr = []))) eqn:Hc.
  { intros [= <-]. apply andb_true_iff in Hc as [_ Hc]. by apply negb_true_iff, bool_decide_eq_false in Hc. }
  destruct (server_config iter_options tls certs) as [[|e es] t0]; [|intros [= <-]; discriminate].
  destruct (negb (bool_decide (tls_verify_sans t0 = [])) && negb (has_trusted_ca resolved)); [by intros [= <-]|].
  pose proof (gateway_validation_spec resolved t0 ns) as Hg.
  destruct (apply_gateway_validation q resolved t0 ns) as [ge|[ce t1]].
  { intros [= <-]. destruct Hg as [Hg _]. intros [_ ?]%app_eq_nil. done. }
  destruct (getCertValidationFromAttached l) as [v|] eqn:Ev; [|done].
  destruct (bool_decide (parent_gvk l = mkGVK "" "" "")); [by intros [= <-]|]. rewrite apply_validation_spec.
  destruct (enforced q v _ _) as [e|] eqn:E; cbn [negb]; [done|].
  destruct (ccv_require v); cbn [negb]; [|done]. intros [= <-] [_ He]%app_eq_nil.
  by apply (unfetched_errors q v (parent_gvk l) (par_namespace (il_parent l)) (attached_validation_refs l v Ev) E).
Qed.

End tls_facts.

(** ** Witnesses *)

#[local] Instance ex_certs : CertLib string := {|
  X509KeyPair c k := None; ParseCertsPEM s := inr [s]; EncodeCertificates l := inr (join "" l) |}.
#[local] Instance ex_view : ListenerPolicyView (option ClientCertificateValidationIR) := {|
  client_certificate_validation p := Some p |}.

Definition ex_grants : RefGrantIndex := mkRGI [] ReferenceGrantStrict.
Definition ex_queries : GatewayQueries :=
  mkGQ (mkSI {[ mkGK "" "Secret" := [mkSecret (mkOS "" "Secret" "infra" "cert") None
                {[ "tls.crt" := "CERT"; "tls.key" := "KEY" ]}] ]} ex_grants)
    (mkCMI [mkCM "infra" "ca" {[ "ca.crt" := "CA" ]}] ex_grants).

Definition ex_ca_ref (n : string) : ObjectReference := mkObjRef "" "ConfigMap" None n.
Definition ex_cert_ref (n : string) : SecretObjectReference := mkSecretRef None None None n.

Definition ex_tls_listener (refs : list string) (options : gmap string string)
    (pol : option ClientCertificateValidationIR) : @IRListener (@ListenerExtra (option ClientCertificateValidationIR)) :=
  mkIRL (mkListener "https" None 443 "HTTPS" (Some (Some "Terminate")) None)
    (mkParent TGateway GatewayKind "infra" "gw")
    (mkLE GatewayGVK (map ex_cert_ref refs) options
       (match pol with
        | None => ∅
        | Some v => {[ ListenerPolicyGK := [mkPA ListenerPolicyGK 1 (Some v) None UnsetPriority [] 0 0 ∅] ]}
        end)
       (mkPR (Some GatewayGroup) (Some GatewayKind) (Some "infra") "gw" None None)).

Definition ex_translate (refs : list string) (options : gmap string string) (pol : option ClientCertificateValidationIR)
    (resolved : option ClientCertificateValidationIR) : option TLSConfig * list error :=
  translateTLSConfig ex_queries map_to_list (ex_tls_listener refs options pol)
    (listener_tls (ex_tls_listener refs options pol)) resolved "infra".

Definition ex_required : ClientCertificateValidationIR := mkCCV [ex_ca_ref "ca"; ex_ca_ref "missing"] true false.
Definition ex_required_tls : TLSConfig :=
  mkTLS [] [mkCert "" "KEY" "CERT"] [] [] [] None None [] [] (Some (mkClientCert ["CA"] true false)).

Lemma client_certificates_enforced_witness :
  ∃ e, tls_client_validation ex_required_tls = Some e ∧ ccv_require_cert e = true ∧ ccv_ca_certificates e ≠ [] ∧
    ccv_allow_insecure e = false ∧ ∃ gvk n, ccv_ca_certificates e = fetched_cas ex_queries ex_required gvk n.
Proof.
  exact (proj2 (client_certificates_enforced ex_queries map_to_list (ex_tls_listener ["cert"] ∅ None)
    (mkLTC (Some "Terminate") [ex_cert_ref "cert"] ∅) (Some ex_required) "infra" ex_required_tls
    (ex_translate ["cert"] ∅ None (Some ex_required)).2 eq_refl)
    ex_required (or_intror (conj eq_refl (conj eq_refl (not_eq_sym (List.nil_cons (l:=_)))))) eq_refl).
Defined.

Lemma served_certificates_exact_witness : tls_certificates ex_required_tls ≠ [].
Proof.
  exact (proj2 (served_certificates_exact ex_queries map_to_list (ex_tls_listener ["cert"; "absent"] ∅ None)
    (mkLTC (Some "Terminate") [ex_cert_ref "cert"; ex_cert_ref "absent"] ∅) (Some ex_required) "infra" ex_required_tls
    (ex_translate ["cert"; "absent"] ∅ None (Some ex_required)).2 eq_refl) (not_eq_sym (List.nil_cons (l:=_)))).
Defined.

Lemma tls_failure_reported_witness : (ex_translate ["absent"] ∅ None None).2 ≠ [].
Proof.
  exact (tls_failure_reported ex_queries map_to_list (ex_tls_listener ["absent"] ∅ None)
    (mkLTC (Some "Terminate") [ex_cert_ref "absent"] ∅) None "infra" (ex_translate ["absent"] ∅ None None).2
    eq_refl eq_refl).
Defined.

(** ** Corner cases *)

(** With an optional ListenerPolicy validation whose CA cannot be fetched, the error of a
    [certificateRef] that cannot be served is lost: the same listener without the policy
    reports it. *)
Theorem optional_policy_hides_errors :
  let optional := mkCCV [ex_ca_ref "missing"] false false in
  (ex_translate ["cert"; "absent"] ∅ None None).2 ≠ [] ∧
  (ex_translate ["cert"; "absent"] ∅ (Some optional) None).2 = [] ∧
  (ex_translate ["cert"; "absent"] ∅ (Some optional) None).1 ≠ None.
Proof. vm_compute. done. Qed.

(** Subject alternative names are checked to come with CA references, not with a CA: with the
    fallback mode and a CA that cannot be fetched, the chain keeps the names and has no CA. *)
Theorem sans_without_ca :
  let fallback := mkCCV [ex_ca_ref "missing"] false true in
  let r := ex_translate ["cert"] {[ VerifySubjectAltNames := "client.example.com" ]} None (Some fallback) in
  option_map tls_verify_sans r.1 = Some ["client.example.com"] ∧
  option_map tls_client_validation r.1 = Some None.
Proof. vm_compute. done. Qed.
