(* ===== verification/ListenerTranslator.v ===== *)
(** * Listener translation (pkg/kgateway/translator/listener/gateway_listener_translator.go)

    From the listeners of a Gateway that passed validation, and the routes attached to each,
    to the listeners of Envoy: listeners of one port are merged, with one HTTP filter chain
    for all HTTP listeners of the port (where a hostname belongs to its most specific
    listener), one chain for each HTTPS listener, and one for each TCP listener or TLS route.
    The log of status reports is written by a small monad over [outcome]. *)

From S2P Require Import Prelude IR SortableRoute Delegation RouteTree Query HttpRouteTranslator References.
From S2P Require Import ListenerValidation GatewayIndex Hashing SslUtils ListenerTLS.

(** ** Reports and the writer monad *)

Inductive TEvent :=
| EvRule (e : Event)
| EvRoute (r : Reporter) (type : string) (status : bool) (reason : string)
| EvListener (r : Report).

Definition W (A : Type) : Type := outcome (A * list TEvent).
Definition wret {A} (a : A) : W A := Done (a, []).
Definition wbind {A B} (m : W A) (f : A → W B) : W B :=
  match m with
  | Done (a, l1) => match f a with Done (b, l2) => Done (b, l1 ++ l2) | Panicked => Panicked | OutOfFuel => OutOfFuel end
  | Panicked => Panicked
  | OutOfFuel => OutOfFuel
  end.
Definition tell (l : list TEvent) : W unit := Done (tt, l).

Declare Scope writer_scope.
Delimit Scope writer_scope with writer.
Notation "x <~ m ; k" := (wbind m (λ x, k)) (at level 20, m at level 100, k at level 200) : writer_scope.
#[local] Open Scope writer_scope.

Fixpoint wfold {A B} (f : B → A → W B) (b : B) (l : list A) : W B :=
  match l with [] => wret b | x :: l' => b' <~ f b x; wfold f b' l' end.
Fixpoint wmap {A B} (f : A → W B) (l : list A) : W (list B) :=
  match l with [] => wret [] | x :: l' => y <~ f x; ys <~ wmap f l'; wret (y :: ys) end.

(** ** Names *)

(** [SanitizeForEnvoy]. *)
Fixpoint SanitizeForEnvoy (s : string) : string :=
  match s with
  | EmptyString => EmptyString
  | String a s' => String (if Ascii.eqb a "."%char then "_"%char else a) (SanitizeForEnvoy s')
  end.

Definition makeVhostName (parentName domain : string) : string :=
  SanitizeForEnvoy (parentName +:+ "~" +:+ domain).

Definition GenerateListenerNameFromPort (port : Z) : string := "listener~" +:+ pretty port.

(** ** Hostnames of merged listeners *)

Definition isHostContained (host : string) (maybeLhost : option string) : bool :=
  match maybeLhost with
  | None => true
  | Some h => has_prefix h "*." && has_suffix host (str_drop 1 h) || String.eqb host h
  end.

Fixpoint count_char (c : Ascii.ascii) (s : string) : nat :=
  match s with EmptyString => 0 | String a s' => (if Ascii.eqb a c then 1 else 0) + count_char c s' end.

Definition listenerHostnamePrecedence (hostname : option string) : nat * nat :=
  match hostname with
  | None | Some EmptyString => (0, 0)
  | Some h => if has_prefix h "*." then (1, count_char "."%char (str_drop 2 h)) else (2, 0)
  end%nat.

Definition listenerHostnamePrecedes (current candidate : option string) : bool :=
  let '(curRank, curSpec) := listenerHostnamePrecedence current in
  let '(candRank, candSpec) := listenerHostnamePrecedence candidate in
  if negb (curRank =? candRank)%nat then (curRank <? candRank)%nat else (curSpec <? candSpec)%nat.

Definition listenerHostnameCoversRouteHostname (listenerHostname : option string) (routeHostname : string) : bool :=
  match listenerHostname with
  | None | Some EmptyString => true
  | Some lh =>
      if String.eqb routeHostname "*" then false
      else let '(intersection, ok) := IntersectHostnames lh routeHostname in ok && String.eqb intersection routeHostname
  end.

Section listeners.
Context {P : Type} `{LP : ListenerPolicyView P} {Cert : Type} `{CL : CertLib Cert}.
Context (q : GatewayQueries) (iter_options : gmap string string → list (string * string)).
(** The iteration order of the map of hosts, and the fuel of the route translation. *)
Context (iter_hosts : gmap string (list (@SortableRoute P)) → list (string * list (@SortableRoute P))).
Context (fuel : nat).

Abbreviation Lis := (@IRListener (@ListenerExtra P)).
Abbreviation Info := (@RouteInfo P).
Abbreviation SRoute := (@SortableRoute P).

(** ** Output *)

Record VirtualHost := mkVH {
  vh_name : string; vh_hostname : string; vh_rules : list (HttpRouteRuleMatchIR P);
  vh_policies : AttachedPolicies P; vh_parent : option Lis }.

(** [HttpFilterChainIR] and [TcpIR]; of the common part, what translation sets. *)
Record HttpFilterChainIR := mkHFC {
  hfc_name : string; hfc_sni : list string; hfc_tls : option TLSConfig;
  hfc_vhosts : list VirtualHost; hfc_policies : AttachedPolicies P }.

Record TcpIR := mkTcp {
  tcp_name : string; tcp_sni : list string; tcp_tls : option TLSConfig; tcp_backends : list (BackendRefIR P) }.

Record ListenerIR := mkLIR {
  li_name : string; li_bind_address : string; li_bind_port : Z;
  li_http : list HttpFilterChainIR; li_tcp : list TcpIR; li_ancestor : ParentReference }.

(** ** Merged listeners; a listener reporter is identified by its listener *)

Record httpFilterChainParent := mkHP {
  hp_name : string; hp_listener : Lis; hp_routes : list Info; hp_policies : AttachedPolicies P }.

Record httpsFilterChain := mkHS {
  hs_name : string; hs_listener : Lis; hs_sni : option string; hs_tls : ListenerTLSConfig;
  hs_routes : list Info; hs_policies : AttachedPolicies P }.

Record tcpFilterChain := mkTF {
  tf_name : string; tf_listener : Lis; tf_routes : list Info;
  tf_tls : option ListenerTLSConfig; tf_sni : list string }.

Record MergedListener := mkML {
  ml_name : string; ml_port : Z;
  ml_http : option (list httpFilterChainParent);
  ml_https : list httpsFilterChain;
  ml_tcp : list tcpFilterChain;
  ml_listener : Lis;
  ml_gateway : @Gateway P }.

Record ListenerTranslatorConfig := mkLTCfg { ltcfg_bind_ipv6 : bool; ltcfg_experimental : bool }.

Definition listener_port (l : Lis) : Z := l_port (il_listener l).
Definition GenerateListenerName (l : Lis) : string := GenerateListenerNameFromPort (listener_port l).

Definition parent_resource (p : Parent) : Resource := mkRes (par_type p) (mkGK "" (par_kind p)) (par_namespace p) (par_name p) [].
Definition listener_key (l : Lis) : string := GenerateRouteKey (parent_resource (il_parent l)) (l_name (il_listener l)).

(** The zero value of [ir.Gateway]. *)
Definition zero_gateway : @Gateway P :=
  mkGateway (mkOS "" "" "" "") (mkParent TOther "" "" "") 0 [] ∅ ∅ ∅ None None.

(** The loop over the merged listeners: update the first one of the port. *)
Fixpoint update_port (port : Z) (f : MergedListener → MergedListener) (ls : list MergedListener) :
    option (list MergedListener) :=
  match ls with
  | [] => None
  | lis :: ls' =>
      if (ml_port lis =? port)%Z then Some (f lis :: ls')
      else match update_port port f ls' with Some ls'' => Some (lis :: ls'') | None => None end
  end.

Definition merge_into (port : Z) (f : MergedListener → MergedListener) (new : MergedListener)
    (ls : list MergedListener) : list MergedListener :=
  match update_port port f ls with Some ls' => ls' | None => ls ++ [new] end.

Definition appendHttpListener (gw : @Gateway P) (ls : list MergedListener) (l : Lis) (routes : list Info) :
    list MergedListener :=
  let parent := mkHP (listener_key l) l routes (le_policies (il_extra l)) in
  merge_into (listener_port l)
    (λ lis, mkML (ml_name lis) (ml_port lis)
              (Some (match ml_http lis with Some ps => ps ++ [parent] | None => [parent] end))
              (ml_https lis) (ml_tcp lis) (ml_listener lis) (ml_gateway lis))
    (mkML (GenerateListenerName l) (listener_port l) (Some [parent]) [] [] l gw) ls.

Definition appendHttpsListener (gw : @Gateway P) (ls : list MergedListener) (l : Lis) (routes : list Info) :
    list MergedListener :=
  let mfc := mkHS (listener_key l) l (l_hostname (il_listener l)) (default (mkLTC None [] ∅) (listener_tls l))
               routes (le_policies (il_extra l)) in
  merge_into (listener_port l)
    (λ lis, mkML (ml_name lis) (ml_port lis) (ml_http lis) (ml_https lis ++ [mfc]) (ml_tcp lis) (ml_listener lis) (ml_gateway lis))
    (mkML (GenerateListenerName l) (listener_port l) None [mfc] [] l gw) ls.

Definition append_tcp_chains (gw : @Gateway P) (ls : list MergedListener) (l : Lis) (chains : list tcpFilterChain) :
    list MergedListener :=
  merge_into (listener_port l)
    (λ lis, mkML (ml_name lis) (ml_port lis) (ml_http lis) (ml_https lis) (ml_tcp lis ++ chains) (ml_listener lis) (ml_gateway lis))
    (mkML (GenerateListenerName l) (listener_port l) None [] chains l gw) ls.

Definition AppendTcpListener (gw : @Gateway P) (ls : list MergedListener) (l : Lis) (routes : list Info) :
    list MergedListener :=
  append_tcp_chains gw ls l [mkTF (listener_key l) l routes None []].

Definition listenerSNIDomains (l : Lis) : list string := option_list (l_hostname (il_listener l)).

Definition tlsRouteSNIDomains (l : Lis) (ri : Info) : list string :=
  match ri_object ri with
  | RTls _ => match ri_hostnames ri with [] => listenerSNIDomains l | hs => hs end
  | _ => listenerSNIDomains l
  end.

(** The merged listener that a TLS listener creates carries no Gateway. *)
Definition AppendTlsListener (ls : list MergedListener) (l : Lis) (routes : list Info) : list MergedListener :=
  let tls := Some (default (mkLTC None [] ∅) (listener_tls l)) in
  append_tcp_chains zero_gateway ls l
    (match routes with
     | [] => [mkTF (listener_key l) l [] tls (listenerSNIDomains l)]
     | _ => map (λ ri, mkTF (listener_key l) l [ri] tls (tlsRouteSNIDomains l ri)) routes
     end).

(** [AppendListener]; the error of another protocol is dropped by its caller. *)
Definition AppendListener (gw : @Gateway P) (ls : list MergedListener) (l : Lis) (routes : list Info) :
    list MergedListener :=
  let p := l_protocol (il_listener l) in
  if String.eqb p "HTTP" then appendHttpListener gw ls l routes
  else if String.eqb p "HTTPS" then appendHttpsListener gw ls l routes
  else if String.eqb p "TCP" then AppendTcpListener gw ls l routes
  else if String.eqb p "TLS" then AppendTlsListener ls l routes
  else ls.

(** [GetListenerResult] and [mergeGWListeners]. *)
Definition listener_routes (r : @RoutesForGwResult P) (l : Lis) : list Info :=
  match listenerResults r !! listener_key l with Some lr => lr_routes lr | None => [] end.

Definition mergeGWListeners (gw : @Gateway P) (listeners : list Lis) (r : @RoutesForGwResult P) : list MergedListener :=
  foldl (λ ls l, AppendListener gw ls l (listener_routes r l)) [] listeners.

(** ** Isolation of HTTP listeners *)

Definition hp_hostname (p : httpFilterChainParent) : option string := l_hostname (il_listener (hp_listener p)).

Definition hostnameOwnedByMoreSpecificHTTPListener (parent : httpFilterChainParent)
    (parents : list httpFilterChainParent) (routeHostname : string) : bool :=
  existsb (λ candidate,
    negb (String.eqb (hp_name candidate) (hp_name parent)) &&
    listenerHostnameCoversRouteHostname (hp_hostname candidate) routeHostname &&
    listenerHostnamePrecedes (hp_hostname parent) (hp_hostname candidate)) parents.

Definition filterHTTPListenerIsolationHostnames (parent : httpFilterChainParent)
    (parents : list httpFilterChainParent) (hostnames : list string) : list string :=
  filter (λ h, hostnameOwnedByMoreSpecificHTTPListener parent parents h = false) hostnames.

Definition routeHostnamesOrCatchAll (ri : Info) : list string :=
  match ri_hostnames ri with [] => ["*"] | hs => hs end.

Definition route_reporter (ri : Info) : Reporter := mkRep (obj_nn (route_object (ri_object ri))) (ri_parent_ref ri).

Definition append_host (obj : Object) (routes : list (HttpRouteRuleMatchIR P)) (m : gmap string (list SRoute))
    (host : string) : gmap string (list SRoute) :=
  <[host := default [] (m !! host) ++ ToSortable obj routes]> m.

(** One route of [buildRoutesPerHostWithHostnamesFilter]. *)
Definition route_step (hostFilter : list string → list string) (routesByHost : gmap string (list SRoute)) (ri : Info) :
    W (gmap string (list SRoute)) :=
  let reporter := route_reporter ri in
  match TranslateGatewayHTTPRouteRules fuel ri reporter with
  | Panicked => Panicked
  | OutOfFuel => OutOfFuel
  | Done (routes, evs) =>
      Done (match routes with
            | [] => routesByHost
            | _ => foldl (append_host (route_object (ri_object ri)) routes) routesByHost
                     (hostFilter (routeHostnamesOrCatchAll ri))
            end, EvRule (mkEv reporter None) :: map EvRule evs)
  end.

Definition buildRoutesPerHostWithHostnamesFilter (hostFilter : list string → list string)
    (routesByHost : gmap string (list SRoute)) (routes : list Info) : W (gmap string (list SRoute)) :=
  wfold (route_step hostFilter) routesByHost routes.

Definition buildRoutesPerHost (routes : list Info) : W (gmap string (list SRoute)) :=
  buildRoutesPerHostWithHostnamesFilter id ∅ routes.

(** The listener a host takes its policies from: the longest hostname that contains it. *)
Definition owner_step (host : string) (acc : option (httpFilterChainParent) * Z) (p : httpFilterChainParent) :
    option httpFilterChainParent * Z :=
  if isHostContained host (hp_hostname p) then
    let n := match hp_hostname p with Some h => Z.of_nat (String.length h) | None => 0%Z end in
    if (acc.2 <? n)%Z then (Some p, n) else acc
  else acc.

Definition host_owner (parents : list httpFilterChainParent) (host : string) : option httpFilterChainParent :=
  (foldl (owner_step host) (None, (-1)%Z) parents).1.

(** The loop over the hosts: skip the names that are taken. *)
Definition vhost_step (mk : string * list SRoute → VirtualHost) (acc : gset string * list VirtualHost)
    (hr : string * list SRoute) : gset string * list VirtualHost :=
  let vh := mk hr in
  if bool_decide (vh_name vh ∈ acc.1) then acc else ({[ vh_name vh ]} ∪ acc.1, acc.2 ++ [vh]).

Definition vhost_cmp : VirtualHost → VirtualHost → comparison := cmp_on vh_name String.compare.

Definition virtual_hosts (mk : string * list SRoute → VirtualHost) (m : gmap string (list SRoute)) : list VirtualHost :=
  sort_stable vhost_cmp (foldl (vhost_step mk) (∅, []) (iter_hosts m)).2.

Definition http_vhost (parentName : string) (parents : list httpFilterChainParent) (hr : string * list SRoute) : VirtualHost :=
  let owner := host_owner parents hr.1 in
  mkVH (makeVhostName parentName hr.1) hr.1 (ToRoutes (sort_stable CompareTo hr.2))
    (match owner with Some p => hp_policies p | None => ∅ end) (hp_listener <$> owner).

Definition http_routes_by_host (parents : list httpFilterChainParent) : W (gmap string (list SRoute)) :=
  wfold (λ m parent, buildRoutesPerHostWithHostnamesFilter
           (filterHTTPListenerIsolationHostnames parent parents) m (hp_routes parent)) ∅ parents.

Definition translateHttpFilterChain (parents : list httpFilterChainParent) (parentName : string) : W HttpFilterChainIR :=
  m <~ http_routes_by_host parents;
  wret (mkHFC parentName [] None (virtual_hosts (http_vhost parentName parents) m) ∅).

(** ** HTTPS *)

Definition https_vhost (parentName : string) (hr : string * list SRoute) : VirtualHost :=
  mkVH (makeVhostName parentName hr.1) hr.1 (ToRoutes (sort_stable CompareTo hr.2)) ∅ None.

(** Resolution and translation of TLS, shared by the chains: [None] drops the chain. *)
Definition chain_tls (l : Lis) (tls : option ListenerTLSConfig) (frontend : option FrontendTLSConfigIR)
    (gatewayNamespace : string) : option (option TLSConfig) * list TEvent :=
  let '(resolved, errs) := resolveFrontendTLSConfig (listener_port l) frontend in
  let ev1 := match errs with [] => [] | _ => map EvListener (reportTLSConfigError errs l (bool_decide (is_Some resolved))) end in
  if bool_decide (errs ≠ []) && bool_decide (resolved = None) then (None, ev1)
  else
    let '(cfg, errs2) := translateTLSConfig q iter_options l tls resolved gatewayNamespace in
    let ev2 := match errs2 with
               | [] => []
               | _ => map EvListener (reportTLSConfigError errs2 l (match cfg with Some _ => true | None => false end))
               end in
    match errs2, cfg with
    | _ :: _, None => (None, ev1 ++ ev2)
    | _, _ => (Some cfg, ev1 ++ ev2)
    end.

Definition translateHttpsFilterChain (hfc : httpsFilterChain) (frontend : option FrontendTLSConfigIR)
    (gatewayNamespace : string) : W (option HttpFilterChainIR) :=
  m <~ buildRoutesPerHost (hs_routes hfc);
  let '(cfg, evs) := chain_tls (hs_listener hfc) (Some (hs_tls hfc)) frontend gatewayNamespace in
  _ <~ tell evs;
  wret (tlsConfig ← cfg;
        Some (mkHFC (hs_name hfc) (option_list (hs_sni hfc)) tlsConfig
                (virtual_hosts (https_vhost (hs_name hfc)) m) (hs_policies hfc))).

(** ** TCP and TLS passthrough *)

(** [slices.MinFunc] by creation time: the index of the first oldest route. *)
Fixpoint oldest_loop (i best : nat) (bestRoute : Info) (rest : list Info) : nat * Info :=
  match rest with
  | [] => (best, bestRoute)
  | ri :: rest' =>
      if (obj_creation (route_object (ri_object ri)) <? obj_creation (route_object (ri_object bestRoute)))%Z
      then oldest_loop (S i) i ri rest' else oldest_loop (S i) best bestRoute rest'
  end.

Definition KgatewayConditionProgrammed : string := "kgateway.dev/Programmed".

(** [rejectConflictingRoute]. *)
Definition rejectConflictingRoute (ri : Info) : list TEvent :=
  match ri_object ri with
  | RTcp _ | RTls _ => [EvRoute (route_reporter ri) KgatewayConditionProgrammed false "Conflicted"]
  | RHttp _ => []
  end.

(** The errors of the backends, on every parent of the route. *)
Definition backend_events (reporters : list Reporter) (b : BackendRefIR P) : list TEvent :=
  match br_err b, br_object b with
  | None, Some _ => []
  | Some err, _ => map (λ r, EvRule (ProcessBackendError err r)) reporters
  | None, None => map (λ r, EvRule (ProcessBackendError (EMsg "not found") r)) reporters
  end.

Definition set_alpn (t : TLSConfig) : TLSConfig :=
  match tls_alpn t with
  | [] => mkTLS [AllowEmptyAlpnProtocols] (tls_certificates t) (tls_cipher_suites t) (tls_ecdh_curves t)
            (tls_signature_algorithms t) (tls_min t) (tls_max t) (tls_verify_sans t) (tls_verify_hashes t)
            (tls_client_validation t)
  | _ => t
  end.

(** The common body of the two route kinds; [sni] is empty for a TCPRoute. *)
Definition translate_l4 (tc : tcpFilterChain) (parentName : string) (frontend : option FrontendTLSConfigIR)
    (gatewayNamespace : string) (r : L4Route P) (sni : list string) : option TcpIR * list TEvent :=
  if negb (l4_rules r =? 1)%nat then (None, [])
  else
    let reporters := map (mkRep (obj_nn (l4_object r))) (l4_parent_refs r) in
    let ev1 := map (λ rep, EvRoute rep "Accepted" true "Accepted") reporters in
    let ev2 := flat_map (backend_events reporters) (l4_backends r) in
    match l4_backends r with
    | [] => (None, ev1 ++ ev2)
    | _ =>
        let '(cfg, evs) := chain_tls (tf_listener tc) (tf_tls tc) frontend gatewayNamespace in
        (tlsConfig ← cfg;
         Some (mkTcp (parentName +:+ "-" +:+ os_namespace (l4_source r) +:+ "." +:+ os_name (l4_source r) +:+ "-rule-0")
                 sni (set_alpn <$> tlsConfig) (l4_backends r)), ev1 ++ ev2 ++ evs)
    end.

Definition translateTcpFilterChain (tc : tcpFilterChain) (parentName : string) (frontend : option FrontendTLSConfigIR)
    (gatewayNamespace : string) : option TcpIR * list TEvent :=
  match tf_routes tc with
  | [] => (None, [])
  | r0 :: rest =>
      let '(i, r) := oldest_loop 1 0 r0 rest in
      let rejected := flat_map (λ jo : nat * Info, if (jo.1 =? i)%nat then [] else rejectConflictingRoute jo.2)
                        (imap pair (tf_routes tc)) in
      let '(out, evs) := match ri_object r with
                         | RTcp t => translate_l4 tc parentName frontend gatewayNamespace t []
                         | RTls t => translate_l4 tc parentName frontend gatewayNamespace t (tf_sni tc)
                         | RHttp _ => (None, [])
                         end in
      (out, rejected ++ evs)
  end.

(** ** Listeners *)

Definition TcpTlsListenerNoBackendsMessage : string := "TCP/TLS listener has no valid backends or routes".

Definition TranslateListener (settings : ListenerTranslatorConfig) (ml : MergedListener) : W ListenerIR :=
  let frontend := g_frontend (ml_gateway ml) in
  let ns := os_namespace (g_source (ml_gateway ml)) in
  http <~ match ml_http ml with
          | Some parents => fc <~ translateHttpFilterChain parents (ml_name ml); wret [fc]
          | None => wret []
          end;
  https <~ wmap (λ mfc, translateHttpsFilterChain mfc frontend ns) (ml_https ml);
  let tcp := map (λ tfc, translateTcpFilterChain tfc (ml_name ml) frontend ns) (ml_tcp ml) in
  let matched := omap fst tcp in
  _ <~ tell (flat_map snd tcp);
  _ <~ tell (if bool_decide (ml_tcp ml ≠ []) && bool_decide (length matched = 0%nat)
             then map (λ tfc, EvListener (RListenerCondition (il_parent (tf_listener tfc)) (l_name (il_listener (tf_listener tfc)))
                                (mkCond "Programmed" false "Invalid" TcpTlsListenerNoBackendsMessage))) (ml_tcp ml)
             else []);
  wret (mkLIR (ml_name ml) (if ltcfg_bind_ipv6 settings then "::" else "0.0.0.0") (ml_port ml mod 2 ^ 32)%Z
          (http ++ omap id https) matched (le_ancestor (il_extra (ml_listener ml)))).

Definition translateListeners (settings : ListenerTranslatorConfig) (mls : list MergedListener) : W (list ListenerIR) :=
  wmap (TranslateListener settings) mls.

(** [TranslateListeners], with the iteration orders validation uses. *)
Definition TranslateListeners (iter_ports : gmap Z portProtocol → list (Z * portProtocol))
    (order_sets : gmap GroupVersionKind (list (@ListenerSetIR (@ListenerExtra P))) →
                  list (list (@ListenerSetIR (@ListenerExtra P))))
    (settings : ListenerTranslatorConfig) (gw : @Gateway P) (routes : @RoutesForGwResult P) : W (list ListenerIR) :=
  let '(valid, reports) :=
    validateGatewayWithSettings iter_ports (gateway_view order_sets gw) (ltcfg_experimental settings) in
  _ <~ tell (map EvListener reports);
  translateListeners settings (mergeGWListeners gw valid routes).

(** ** Merging by port *)

(** What a listener contributes to the chains of its port. *)
Definition http_of (r : @RoutesForGwResult P) (l : Lis) : list httpFilterChainParent :=
  if String.eqb (l_protocol (il_listener l)) "HTTP"
  then [mkHP (listener_key l) l (listener_routes r l) (le_policies (il_extra l))] else [].

Definition https_of (r : @RoutesForGwResult P) (l : Lis) : list httpsFilterChain :=
  if String.eqb (l_protocol (il_listener l)) "HTTPS"
  then [mkHS (listener_key l) l (l_hostname (il_listener l)) (default (mkLTC None [] ∅) (listener_tls l))
          (listener_routes r l) (le_policies (il_extra l))] else [].

Definition tcp_of (r : @RoutesForGwResult P) (l : Lis) : list tcpFilterChain :=
  if String.eqb (l_protocol (il_listener l)) "TCP" then [mkTF (listener_key l) l (listener_routes r l) None []]
  else if String.eqb (l_protocol (il_listener l)) "TLS" then
    let tls := Some (default (mkLTC None [] ∅) (listener_tls l)) in
    match listener_routes r l with
    | [] => [mkTF (listener_key l) l [] tls (listenerSNIDomains l)]
    | routes => map (λ ri, mkTF (listener_key l) l [ri] tls (tlsRouteSNIDomains l ri)) routes
    end
  else [].

Definition supported_protocol (l : Lis) : bool :=
  let p := l_protocol (il_listener l) in
  String.eqb p "HTTP" || String.eqb p "HTTPS" || String.eqb p "TCP" || String.eqb p "TLS".

(** The Gateway of the merged listener that [l] creates. *)
Definition gateway_of (gw : @Gateway P) (l : Lis) : @Gateway P :=
  if String.eqb (l_protocol (il_listener l)) "TLS" then zero_gateway else gw.

Definition add_http (o : option (list httpFilterChainParent)) (ps : list httpFilterChainParent) :
    option (list httpFilterChainParent) :=
  match ps with [] => o | _ => Some (default [] o ++ ps) end.

Definition add_chains (r : @RoutesForGwResult P) (l : Lis) (lis : MergedListener) : MergedListener :=
  mkML (ml_name lis) (ml_port lis) (add_http (ml_http lis) (http_of r l)) (ml_https lis ++ https_of r l)
    (ml_tcp lis ++ tcp_of r l) (ml_listener lis) (ml_gateway lis).

Definition new_chains (gw : @Gateway P) (r : @RoutesForGwResult P) (l : Lis) : MergedListener :=
  mkML (GenerateListenerName l) (listener_port l) (add_http None (http_of r l)) (https_of r l) (tcp_of r l) l
    (gateway_of gw l).

Lemma merge_into_ext port f g new ls :
  (∀ x, f x = g x) → merge_into port f new ls = merge_into port g new ls.
Proof.
  intros H. unfold merge_into. assert (update_port port f ls = update_port port g ls) as ->; [|done].
  induction ls as [|x ls IH]; [done|]. simpl. by rewrite IH, H.
Qed.

Lemma append_listener_view gw r ls l :
  AppendListener gw ls l (listener_routes r l) =
  if supported_protocol l then merge_into (listener_port l) (add_chains r l) (new_chains gw r l) ls else ls.
Proof.
  unfold AppendListener, supported_protocol, new_chains, gateway_of, add_chains, http_of, https_of, tcp_of. cbv zeta.
  destruct (String.eqb_spec (l_protocol (il_listener l)) "HTTP") as [Hp|H1]; [rewrite ?Hp|]; cbn [orb].
  { apply merge_into_ext. intros x. cbn. rewrite !app_nil_r. by destruct (ml_http x). }
  destruct (String.eqb_spec (l_protocol (il_listener l)) "HTTPS") as [Hp|H2]; [rewrite ?Hp|]; cbn [orb].
  { apply merge_into_ext. intros x. cbn. by rewrite !app_nil_r. }
  destruct (String.eqb_spec (l_protocol (il_listener l)) "TCP") as [Hp|H3]; [rewrite ?Hp|]; cbn [orb].
  { apply merge_into_ext. intros x. cbn. by rewrite !app_nil_r. }
  destruct (String.eqb_spec (l_protocol (il_listener l)) "TLS") as [Hp|H4]; cbn [orb]; [|done].
  unfold AppendTlsListener, append_tcp_chains. destruct (listener_routes r l); apply merge_into_ext;
    intros x; cbn; by rewrite !app_nil_r.
Qed.

Lemma update_port_spec port f ls :
  (∀ x, ml_port (f x) = ml_port x) →
  match update_port port f ls with
  | None => port ∉ map ml_port ls
  | Some ls' => map ml_port ls' = map ml_port ls ∧ port ∈ map ml_port ls ∧
      (NoDup (map ml_port ls) → ∀ x, x ∈ ls' →
         ml_port x ≠ port ∧ x ∈ ls ∨ ∃ y, y ∈ ls ∧ ml_port y = port ∧ x = f y)
  end.
Proof.
  intros Hf. induction ls as [|y ls IH]; [apply not_elem_of_nil|]. simpl.
  destruct (Z.eqb_spec (ml_port y) port) as [<-|Hne].
  - split; [by simpl; rewrite Hf|]. split; [by left|]. intros [Hn _]%NoDup_cons x [->|Hx]%elem_of_cons.
    + right. exists y. split; [by left|done].
    + left. split; [|by right]. intros He. apply Hn. rewrite <- He. apply list_elem_of_In, in_map, list_elem_of_In, Hx.
  - destruct (update_port port f ls) as [ls'|].
    + destruct IH as (Hm & Hp & Hx). split; [by simpl; rewrite Hm|]. split; [by right|].
      intros [_ Hn]%NoDup_cons x [->|Hi]%elem_of_cons; [left; split; [done|by left]|].
      destruct (Hx Hn x Hi) as [[? ?]|(z & ? & ? & ?)]; [left; split; [done|by right]|].
      right. exists z. split; [by right|done].
    + intros [->|?]%elem_of_cons; done.
Qed.

(** The merged listener of a port, as a function of the listeners. *)
Definition on_port (p : Z) (ls : list Lis) : list Lis := filter (λ l, listener_port l = p) ls.

Definition merged_ok (r : @RoutesForGwResult P) (ls : list Lis) (ml : MergedListener) : Prop :=
  ml_name ml = GenerateListenerNameFromPort (ml_port ml) ∧
  default [] (ml_http ml) = flat_map (http_of r) (on_port (ml_port ml) ls) ∧
  ml_http ml ≠ Some [] ∧
  ml_https ml = flat_map (https_of r) (on_port (ml_port ml) ls) ∧
  ml_tcp ml = flat_map (tcp_of r) (on_port (ml_port ml) ls).

Lemma add_http_ne o ps : o ≠ Some [] → add_http o ps ≠ Some [].
Proof. destruct ps; [done|]. intros _ [= H]. by apply app_eq_nil in H as [_ ?]. Qed.
Lemma add_http_default o ps : default [] (add_http o ps) = default [] o ++ ps.
Proof. destruct ps; [by rewrite app_nil_r|done]. Qed.

Lemma unsupported_chains r l :
  supported_protocol l = false → http_of r l = [] ∧ https_of r l = [] ∧ tcp_of r l = [].
Proof.
  unfold supported_protocol, http_of, https_of, tcp_of.
  destruct (String.eqb _ "HTTP"), (String.eqb _ "HTTPS"), (String.eqb _ "TCP"), (String.eqb _ "TLS"); done.
Qed.

Lemma on_port_none_chains r p ls :
  (∀ l, l ∈ ls → supported_protocol l = true → listener_port l ≠ p) →
  flat_map (http_of r) (on_port p ls) = [] ∧ flat_map (https_of r) (on_port p ls) = [] ∧
  flat_map (tcp_of r) (on_port p ls) = [].
Proof.
  unfold on_port. induction ls as [|l ls IH]; intros H; [done|].
  assert (∀ x, x ∈ ls → supported_protocol x = true → listener_port x ≠ p) as H' by (intros x Hx; apply H; by right).
  rewrite filter_cons. destruct (decide (listener_port l = p)) as [Hp|Hp]; [|by apply IH].
  destruct (supported_protocol l) eqn:E.
  - exfalso. apply (H l); [by left|done|done].
  - destruct (unsupported_chains r l E) as (E1 & E2 & E3). cbn [flat_map]. rewrite E1, E2, E3. by apply IH.
Qed.

Lemma merged_ok_other r ls l ml :
  listener_port l ≠ ml_port ml ∨ supported_protocol l = false → merged_ok r ls ml → merged_ok r (ls ++ [l]) ml.
Proof.
  intros Hl (H1 & H2 & H3 & H4 & H5). unfold merged_ok, on_port in *. rewrite filter_app, !flat_map_app.
  rewrite H2, H4, H5. rewrite filter_cons.
  destruct (decide (listener_port l = ml_port ml)) as [Hp|Hp]; [|cbn; by rewrite !app_nil_r].
  destruct Hl as [Hl|Hl]; [done|]. destruct (unsupported_chains r l Hl) as (E1 & E2 & E3).
  cbn. rewrite E1, E2, E3. cbn. by rewrite !app_nil_r.
Qed.

Lemma merged_ok_add r ls l ml :
  listener_port l = ml_port ml → merged_ok r ls ml → merged_ok r (ls ++ [l]) (add_chains r l ml).
Proof.
  intros Hl (H1 & H2 & H3 & H4 & H5). unfold merged_ok, on_port in *. cbn [ml_name ml_port ml_http ml_https ml_tcp add_chains].
  rewrite filter_app, !flat_map_app, filter_cons_True by done. rewrite filter_nil. cbn [flat_map].
  rewrite add_http_default, H2, H4, H5, !app_nil_r. split; [done|]. split; [done|]. split; [by apply add_http_ne|done].
Qed.

Lemma merged_ok_new gw r ls l :
  (∀ x, x ∈ ls → supported_protocol x = true → listener_port x ≠ listener_port l) →
  merged_ok r (ls ++ [l]) (new_chains gw r l).
Proof.
  intros Hl. unfold merged_ok, on_port. cbn [ml_name ml_port ml_http ml_https ml_tcp new_chains].
  destruct (on_port_none_chains r (listener_port l) ls Hl) as (E1 & E2 & E3). unfold on_port in *.
  rewrite filter_app, !flat_map_app, E1, E2, E3, filter_cons_True by done. rewrite filter_nil. cbn [flat_map app].
  rewrite add_http_default, !app_nil_r. split; [done|]. split; [done|]. split; [by apply add_http_ne|done].
Qed.

Lemma merge_listeners_spec gw r ls :
  NoDup (map ml_port (mergeGWListeners gw ls r)) ∧
  (∀ p, p ∈ map ml_port (mergeGWListeners gw ls r) ↔
        ∃ l, l ∈ ls ∧ supported_protocol l = true ∧ listener_port l = p) ∧
  (∀ ml, ml ∈ mergeGWListeners gw ls r → merged_ok r ls ml).
Proof.
  unfold mergeGWListeners. induction ls as [|l ls (Hn & Hp & Hok)] using rev_ind.
  { split; [constructor|]. split; [|by intros ? ?%not_elem_of_nil].
    intros p. split; [by intros ?%not_elem_of_nil|by intros (? & ?%not_elem_of_nil & _)]. }
  rewrite foldl_app. cbn [foldl]. rewrite append_listener_view.
  set (mls := foldl _ [] ls) in *. destruct (supported_protocol l) eqn:Es.
  - unfold merge_into. pose proof (update_port_spec (listener_port l) (add_chains r l) mls (λ x, eq_refl)) as Hu.
    destruct (update_port _ _ _) as [mls'|].
    + destruct Hu as (Hm & Hin & Hx). rewrite Hm. split; [done|]. split.
      * intros p. rewrite Hp. split.
        -- intros (x & Hxl & ?). exists x. split; [apply elem_of_app; by left|done].
        -- intros (x & [Hxl| ->%list_elem_of_singleton]%elem_of_app & Hs & <-); [by exists x|]. by apply Hp.
      * intros ml Hml. destruct (Hx Hn ml Hml) as [[Hne Hi]|(y & Hy & Hyp & ->)].
        -- apply merged_ok_other; [by left|by apply Hok].
        -- apply merged_ok_add; [done|by apply Hok].
    + rewrite map_app. cbn [map]. split; [|split].
      * apply NoDup_app. split; [done|]. split; [|apply NoDup_singleton].
        intros x Hx ->%list_elem_of_singleton. done.
      * intros p. rewrite elem_of_app, Hp, list_elem_of_singleton. split.
        -- intros [(x & Hxl & ?)| ->]; [exists x; split; [apply elem_of_app; by left|done]|].
           exists l. split; [apply elem_of_app; right; by left|done].
        -- intros (x & [Hxl| ->%list_elem_of_singleton]%elem_of_app & Hs & <-); [left; by exists x|by right].
      * assert (∀ x, x ∈ ls → supported_protocol x = true → listener_port x ≠ listener_port l) as Hnew.
        { intros x Hxl Hs He. apply Hu, Hp. by exists x. }
        intros ml [Hml| ->%list_elem_of_singleton]%elem_of_app; [|by apply merged_ok_new].
        apply merged_ok_other; [left|by apply Hok]. intros He. apply Hu. rewrite He.
        apply list_elem_of_In, in_map, list_elem_of_In, Hml.
  - split; [done|]. split.
    + intros p. rewrite Hp. split.
      * intros (x & Hxl & ?). exists x. split; [apply elem_of_app; by left|done].
      * intros (x & [Hxl| ->%list_elem_of_singleton]%elem_of_app & Hs & <-); [by exists x|congruence].
    + intros ml Hml. apply merged_ok_other; [by right|by apply Hok].
Qed.

(** The listener that creates the merged listener of a port, and the frontend TLS configuration
    the port is translated with: none when that is a TLS listener. *)
Definition first_on (p : Z) (ls : list Lis) : option Lis :=
  head (filter (λ l, supported_protocol l = true ∧ listener_port l = p) ls).

Definition frontend_of (gw : @Gateway P) (ls : list Lis) (p : Z) : option FrontendTLSConfigIR :=
  l ← first_on p ls; g_frontend (gateway_of gw l).

Lemma first_on_snoc p ls l :
  first_on p (ls ++ [l]) =
  match first_on p ls with
  | Some x => Some x
  | None => if decide (supported_protocol l = true ∧ listener_port l = p) then Some l else None
  end.
Proof.
  unfold first_on. rewrite filter_app, filter_cons, filter_nil. by destruct (filter _ ls), (decide _).
Qed.

Lemma first_on_Some p ls l : l ∈ ls → supported_protocol l = true → listener_port l = p → first_on p ls ≠ None.
Proof.
  intros Hl Hs Hp. unfold first_on.
  assert (l ∈ filter (λ l, supported_protocol l = true ∧ listener_port l = p) ls) as H by by apply list_elem_of_filter.
  destruct (filter _ ls); [by apply not_elem_of_nil in H|done].
Qed.

Lemma first_on_None p ls :
  (∀ l, l ∈ ls → supported_protocol l = true → listener_port l ≠ p) → first_on p ls = None.
Proof.
  intros H. unfold first_on. destruct (filter _ ls) as [|x xs] eqn:E; [done|]. exfalso.
  assert (x ∈ filter (λ l, supported_protocol l = true ∧ listener_port l = p) ls) as Hx by (rewrite E; by left).
  apply list_elem_of_filter in Hx as [[Hs Hp] Hx]. by apply (H x).
Qed.

Lemma merged_gateway gw r ls ml :
  ml ∈ mergeGWListeners gw ls r → Some (ml_gateway ml) = gateway_of gw <$> first_on (ml_port ml) ls.
Proof.
  revert ml. induction ls as [|l ls IH] using rev_ind; [by intros ml ?%not_elem_of_nil|]. intros ml.
  destruct (merge_listeners_spec gw r ls) as (Hn & Hp & _). rewrite first_on_snoc.
  unfold mergeGWListeners. rewrite foldl_app. cbn [foldl]. rewrite append_listener_view.
  fold (mergeGWListeners gw ls r) in *. set (mls := mergeGWListeners gw ls r) in *.
  assert (∀ x, x ∈ mls → Some (ml_gateway x) = gateway_of gw <$>
    match first_on (ml_port x) ls with Some y => Some y | None =>
      if decide (supported_protocol l = true ∧ listener_port l = ml_port x) then Some l else None end) as Hold.
  { intros x Hx. pose proof (IH x Hx) as He. by destruct (first_on (ml_port x) ls). }
  destruct (supported_protocol l) eqn:Es; [|by apply Hold]. unfold merge_into.
  pose proof (update_port_spec (listener_port l) (add_chains r l) mls (λ x, eq_refl)) as Hu.
  destruct (update_port _ _ _) as [mls'|].
  - destruct Hu as (_ & _ & Hx). intros Hml. destruct (Hx Hn ml Hml) as [[_ Hi]|(y & Hy & _ & ->)]; [by apply Hold|].
    by apply (Hold y).
  - intros [Hml| ->%list_elem_of_singleton]%elem_of_app; [by apply Hold|].
    cbn [ml_gateway ml_port new_chains]. rewrite first_on_None, decide_True; [done..|].
    intros x Hxl Hs He. apply Hu, Hp. by exists x.
Qed.

Lemma merged_frontend gw r ls ml :
  ml ∈ mergeGWListeners gw ls r → g_frontend (ml_gateway ml) = frontend_of gw ls (ml_port ml).
Proof.
  intros Hml. pose proof (merged_gateway gw r ls ml Hml) as H. unfold frontend_of.
  destruct (first_on _ _) as [l|]; [|done]. cbn in *. by injection H as ->.
Qed.

(** ** The routes of a host *)

Lemma wbind_Done {A B} (m : W A) (f : A → W B) b l :
  wbind m f = Done (b, l) → ∃ a l1 l2, m = Done (a, l1) ∧ f a = Done (b, l2) ∧ l = l1 ++ l2.
Proof.
  unfold wbind. destruct m as [[a l1]| |]; [|done..]. destruct (f a) as [[b' l2]| |] eqn:E; [|done..].
  intros [= -> <-]. by exists a, l1, l2.
Qed.

(** The rules of a route, and the routes of a host. *)
Definition rules_of (ri : Info) : list (HttpRouteRuleMatchIR P) :=
  match TranslateGatewayHTTPRouteRules fuel ri (route_reporter ri) with Done (rs, _) => rs | _ => [] end.

Definition host_contribution (hosts : list string) (ri : Info) (h : string) : list SRoute :=
  flat_map (λ _, ToSortable (route_object (ri_object ri)) (rules_of ri)) (filter (λ x, x = h) hosts).

Definition routes_at_host (m : gmap string (list SRoute)) (h : string) : list SRoute := default [] (m !! h).

(** A host is in the map when it has a route. *)
Definition no_empty_host (m : gmap string (list SRoute)) : Prop := ∀ h, m !! h ≠ Some [].

Lemma append_hosts obj rs hosts m h :
  routes_at_host (foldl (append_host obj rs) m hosts) h =
  routes_at_host m h ++ flat_map (λ _, ToSortable obj rs) (filter (λ x, x = h) hosts).
Proof.
  revert m. induction hosts as [|x hosts IH]; intros m; [by rewrite app_nil_r|].
  cbn [foldl]. rewrite IH. unfold routes_at_host, append_host. rewrite filter_cons.
  destruct (decide (x = h)) as [->|Hx].
  - rewrite lookup_insert_eq. cbn [default flat_map]. unfold default, id. by rewrite <- app_assoc.
  - by rewrite lookup_insert_ne.
Qed.

Lemma append_hosts_ne obj rs hosts m :
  rs ≠ [] → no_empty_host m → no_empty_host (foldl (append_host obj rs) m hosts).
Proof.
  intros Hr. revert m. induction hosts as [|x hosts IH]; intros m Hm; [done|]. apply IH.
  intros h. unfold append_host. destruct (decide (x = h)) as [->|Hx].
  - rewrite lookup_insert_eq. intros [= H]. apply app_eq_nil in H as [_ H]. unfold ToSortable in H.
    by destruct rs.
  - rewrite lookup_insert_ne by done. apply Hm.
Qed.

Lemma route_step_spec F m ri m' evs :
  route_step F m ri = Done (m', evs) →
  (∀ h, routes_at_host m' h = routes_at_host m h ++ host_contribution (F (routeHostnamesOrCatchAll ri)) ri h) ∧
  (no_empty_host m → no_empty_host m').
Proof.
  unfold route_step, host_contribution, rules_of.
  destruct (TranslateGatewayHTTPRouteRules fuel ri (route_reporter ri)) as [[rs es]| |]; [|done..].
  intros [= <- _]. destruct rs as [|r rs].
  - split; [|done]. intros h. unfold ToSortable. cbn [imap]. induction (filter _ _); by rewrite ?app_nil_r in *.
  - split; [intros h; apply append_hosts|by apply append_hosts_ne].
Qed.

Lemma routes_fold_spec F routes m m' evs :
  buildRoutesPerHostWithHostnamesFilter F m routes = Done (m', evs) →
  (∀ h, routes_at_host m' h =
        routes_at_host m h ++ flat_map (λ ri, host_contribution (F (routeHostnamesOrCatchAll ri)) ri h) routes) ∧
  (no_empty_host m → no_empty_host m').
Proof.
  unfold buildRoutesPerHostWithHostnamesFilter. revert m evs. induction routes as [|ri routes IH]; intros m evs.
  - intros [= <- _]. split; [|done]. intros h. by rewrite app_nil_r.
  - cbn [wfold]. intros (m1 & l1 & l2 & [H1 E1]%route_step_spec & [H2 E2]%IH & _)%wbind_Done.
    split; [|auto]. intros h. rewrite H2, H1. cbn [flat_map]. by rewrite <- app_assoc.
Qed.

(** The routes of a host in the HTTP chain of a port. *)
Definition isolated_routes (parents : list httpFilterChainParent) (h : string) : list SRoute :=
  flat_map (λ p, flat_map (λ ri,
    host_contribution (filterHTTPListenerIsolationHostnames p parents (routeHostnamesOrCatchAll ri)) ri h) (hp_routes p)) parents.

Lemma http_routes_spec parents m evs :
  http_routes_by_host parents = Done (m, evs) →
  (∀ h, routes_at_host m h = isolated_routes parents h) ∧ no_empty_host m.
Proof.
  unfold http_routes_by_host, isolated_routes.
  assert (∀ ps m0 m evs, wfold (λ m parent, buildRoutesPerHostWithHostnamesFilter
      (filterHTTPListenerIsolationHostnames parent parents) m (hp_routes parent)) m0 ps = Done (m, evs) →
    (∀ h, routes_at_host m h = routes_at_host m0 h ++ flat_map (λ p, flat_map (λ ri,
      host_contribution (filterHTTPListenerIsolationHostnames p parents (routeHostnamesOrCatchAll ri)) ri h) (hp_routes p)) ps) ∧
    (no_empty_host m0 → no_empty_host m)) as Hgen.
  { induction ps as [|p ps IH]; intros m0 m1 es.
    - intros [= <- _]. split; [|done]. intros h. by rewrite app_nil_r.
    - cbn [wfold]. intros (m2 & l1 & l2 & [H1 E1]%routes_fold_spec & [H2 E2]%IH & _)%wbind_Done.
      split; [|auto]. intros h. rewrite H2, H1. cbn [flat_map]. by rewrite <- app_assoc. }
  intros [H1 H2]%Hgen. split.
  - intros h. rewrite H1. unfold routes_at_host. by rewrite lookup_empty.
  - apply H2. intros h. by rewrite lookup_empty.
Qed.

(** ** Virtual hosts *)

Lemma sanitize_app a b : SanitizeForEnvoy (a +:+ b) = SanitizeForEnvoy a +:+ SanitizeForEnvoy b.
Proof. induction a as [|c a IH]; [done|]. rewrite str_app_cons. cbn. by rewrite IH. Qed.

Lemma sanitize_inj a b :
  no_char "_"%char a = true → no_char "_"%char b = true → SanitizeForEnvoy a = SanitizeForEnvoy b → a = b.
Proof.
  revert b. induction a as [|c a IH]; intros [|d b]; cbn [no_char SanitizeForEnvoy]; [done..|].
  intros [Hc Ha]%andb_true_iff [Hd Hb]%andb_true_iff [= Hcd Hab]. f_equal; [|by apply IH].
  destruct (Ascii.eqb_spec c "."%char) as [->|Hc'], (Ascii.eqb_spec d "."%char) as [->|Hd']; subst; done.
Qed.

Lemma vhost_name_inj name a b :
  no_char "_"%char a = true → no_char "_"%char b = true → makeVhostName name a = makeVhostName name b → a = b.
Proof.
  intros Ha Hb. unfold makeVhostName. rewrite !sanitize_app. intros H. apply sanitize_inj; [done..|].
  apply (str_app_inj_len (SanitizeForEnvoy name) (SanitizeForEnvoy name)) in H as [_ H]; [|done].
  by apply (str_app_inj_len (SanitizeForEnvoy "~") (SanitizeForEnvoy "~")) in H as [_ H].
Qed.

Section vhosts.
Context (mk : string * list SRoute → VirtualHost) (parentName : string).
Context (Hname : ∀ hr, vh_name (mk hr) = makeVhostName parentName hr.1).

Lemma vhost_loop hrs names vhs :
  NoDup (map (λ hr, vh_name (mk hr)) hrs) → (∀ hr, hr ∈ hrs → vh_name (mk hr) ∉ names) →
  (foldl (vhost_step mk) (names, vhs) hrs).2 = vhs ++ map mk hrs.
Proof.
  revert names vhs. induction hrs as [|hr hrs IH]; intros names vhs Hn Hd; [by rewrite app_nil_r|].
  cbn [map] in Hn. apply NoDup_cons in Hn as [Hx Hn]. cbn [foldl]. unfold vhost_step at 2. cbn [fst snd].
  rewrite bool_decide_eq_false_2 by (apply Hd; by left).
  rewrite IH; [cbn [map]; by rewrite <- app_assoc|done|].
  intros y Hy. rewrite elem_of_union, elem_of_singleton. intros [He|He].
  - apply Hx. rewrite <- He. apply list_elem_of_In, in_map_iff. exists y. split; [done|by apply list_elem_of_In].
  - apply (Hd y); [by right|done].
Qed.

(** Dots are the only bytes that sanitizing changes: hosts without underscores keep their names apart. *)
Definition clean_hosts (m : gmap string (list SRoute)) : Prop := ∀ h l, m !! h = Some l → no_char "_"%char h = true.

Lemma virtual_hosts_perm m hrs :
  hrs ≡ₚ map_to_list m → clean_hosts m → NoDup (map (λ hr, vh_name (mk hr)) hrs).
Proof.
  intros Hp Hc. assert (NoDup hrs.*1) as Hn by (rewrite Hp; apply NoDup_fst_map_to_list).
  assert (∀ hr, hr ∈ hrs → no_char "_"%char hr.1 = true) as Hcl.
  { intros [h l] Hx. rewrite Hp in Hx. apply elem_of_map_to_list in Hx. by apply (Hc h l). }
  clear Hp. induction hrs as [|hr hrs IH]; [constructor|]. cbn in Hn |- *. apply NoDup_cons in Hn as [Hx Hn].
  apply NoDup_cons. split; [|apply IH; [done|]; intros y Hy; apply Hcl; by right].
  intros (y & He & Hy%list_elem_of_In)%list_elem_of_In%in_map_iff. rewrite !Hname in He.
  apply vhost_name_inj in He; [|apply Hcl; by right|apply Hcl; by left].
  apply Hx. rewrite <- He. by apply list_elem_of_fmap_2.
Qed.

Lemma virtual_hosts_spec m :
  iter_hosts m ≡ₚ map_to_list m → clean_hosts m →
  virtual_hosts mk m ≡ₚ map mk (map_to_list m) ∧
  NoDup (map vh_name (virtual_hosts mk m)) ∧
  StronglySorted (cmp_le vhost_cmp) (virtual_hosts mk m).
Proof.
  intros Hp Hc. unfold virtual_hosts.
  rewrite (vhost_loop _ ∅ []); [|by eapply virtual_hosts_perm|intros ? _; apply not_elem_of_empty]. cbn [app].
  assert (sort_stable vhost_cmp (map mk (iter_hosts m)) ≡ₚ map mk (map_to_list m)) as H.
  { rewrite sort_stable_perm. by rewrite Hp. }
  split; [done|]. split; [|apply sort_stable_sorted; apply _].
  rewrite H, map_map. by apply (virtual_hosts_perm m).
Qed.

End vhosts.

Lemma vhost_loop_elem mk hrs acc vh :
  vh ∈ (foldl (vhost_step mk) acc hrs).2 → vh ∈ acc.2 ∨ ∃ hr, hr ∈ hrs ∧ vh = mk hr.
Proof.
  revert acc. induction hrs as [|hr hrs IH]; intros acc Hx; [by left|]. cbn [foldl] in Hx.
  apply IH in Hx as [Hx|(y & Hy & ->)]; [|right; exists y; split; [by right|done]].
  unfold vhost_step in Hx. case_bool_decide; [by left|]. cbn [snd] in Hx.
  apply elem_of_app in Hx as [Hx| ->%list_elem_of_singleton]; [by left|].
  right. exists hr. split; [by left|done].
Qed.

Section chains.
Context (Hiter : ∀ m, iter_hosts m ≡ₚ map_to_list m).

Lemma virtual_host_origin mk m vh :
  vh ∈ virtual_hosts mk m → ∃ h l, m !! h = Some l ∧ vh = mk (h, l).
Proof.
  unfold virtual_hosts. rewrite sort_stable_elem_of. intros [Hx|([h l] & Hx & ->)]%vhost_loop_elem.
  { by apply not_elem_of_nil in Hx. }
  rewrite Hiter in Hx. apply elem_of_map_to_list in Hx. by exists h, l.
Qed.

(** No other listener of the port that covers the host is more specific than [p]. *)
Definition owns_host (parents : list httpFilterChainParent) (p : httpFilterChainParent) (h : string) : Prop :=
  ∀ c, c ∈ parents → hp_name c ≠ hp_name p →
    listenerHostnameCoversRouteHostname (hp_hostname c) h = true →
    listenerHostnamePrecedes (hp_hostname p) (hp_hostname c) = false.

Lemma not_owned_iff parents p h :
  hostnameOwnedByMoreSpecificHTTPListener p parents h = false ↔ owns_host parents p h.
Proof.
  unfold hostnameOwnedByMoreSpecificHTTPListener, owns_host. split.
  - intros H c Hc Hn Hcov. destruct (listenerHostnamePrecedes _ _) eqn:E; [|done].
    rewrite (existsb_elem _ _ c Hc) in H; [done|]. rewrite Hcov, E. by destruct (String.eqb_spec (hp_name c) (hp_name p)).
  - intros H. apply not_true_iff_false. intros (c & Hc%list_elem_of_In & [[Hn Hcov]%andb_true_iff Hp]%andb_true_iff)%existsb_exists.
    destruct (String.eqb_spec (hp_name c) (hp_name p)) as [|Hne]; [done|].
    rewrite (H c Hc Hne Hcov) in Hp. done.
Qed.

Lemma isolated_routes_elem parents h sr :
  sr ∈ isolated_routes parents h ↔
  ∃ p ri, p ∈ parents ∧ ri ∈ hp_routes p ∧ h ∈ routeHostnamesOrCatchAll ri ∧ owns_host parents p h ∧
    sr ∈ ToSortable (route_object (ri_object ri)) (rules_of ri).
Proof.
  unfold isolated_routes, host_contribution, filterHTTPListenerIsolationHostnames. rewrite list_elem_of_In, in_flat_map. split.
  - intros (p & Hp%list_elem_of_In & (ri & Hri%list_elem_of_In & (x & Hx & Hs)%in_flat_map)%in_flat_map).
    apply list_elem_of_In, list_elem_of_filter in Hx as [-> [Ho Hh]%list_elem_of_filter].
    apply list_elem_of_In in Hs. exists p, ri. by rewrite <- not_owned_iff.
  - intros (p & ri & Hp & Hri & Hh & Ho%not_owned_iff & Hs). exists p. split; [by apply list_elem_of_In|].
    apply in_flat_map. exists ri. split; [by apply list_elem_of_In|]. apply in_flat_map. exists h.
    split; [|by apply list_elem_of_In]. apply list_elem_of_In, list_elem_of_filter. split; [done|]. by apply list_elem_of_filter.
Qed.

(** C18: Listener isolation.  When several HTTP listeners share a port, a virtual host has exactly
    the rules of the routes that serve its hostname through a listener that owns the
    hostname: no other listener of the port that covers it has a more specific hostname. *)
Theorem listener_isolation parents name fc evs vh rule :
  translateHttpFilterChain parents name = Done (fc, evs) → vh ∈ hfc_vhosts fc →
  rule ∈ vh_rules vh ↔
  ∃ p ri, p ∈ parents ∧ ri ∈ hp_routes p ∧ vh_hostname vh ∈ routeHostnamesOrCatchAll ri ∧
    owns_host parents p (vh_hostname vh) ∧ rule ∈ rules_of ri.
Proof.
  intros (m & l1 & l2 & [Hm _]%http_routes_spec & [= <- _] & _)%wbind_Done. cbn [hfc_vhosts].
  intros (h & l & Hl & ->)%virtual_host_origin. cbn [http_vhost vh_rules vh_hostname fst snd].
  specialize (Hm h). unfold routes_at_host in Hm. rewrite Hl in Hm. cbn in Hm. unfold id in Hm. subst l.
  unfold ToRoutes. rewrite list_elem_of_In, in_map_iff. split.
  - intros (sr & <- & Hsr%list_elem_of_In). rewrite sort_stable_elem_of in Hsr.
    apply isolated_routes_elem in Hsr as (p & ri & Hp & Hri & Hh & Ho & Hs). exists p, ri.
    split; [done|]. split; [done|]. split; [done|]. split; [done|].
    rewrite <- (ToRoutes_ToSortable (route_object (ri_object ri)) (rules_of ri)).
    apply list_elem_of_In, in_map, list_elem_of_In, Hs.
  - intros (p & ri & Hp & Hri & Hh & Ho & Hr).
    rewrite <- (ToRoutes_ToSortable (route_object (ri_object ri)) (rules_of ri)) in Hr.
    apply list_elem_of_In, in_map_iff in Hr as (sr & <- & Hs%list_elem_of_In). exists sr. split; [done|].
    apply list_elem_of_In, sort_stable_elem_of, isolated_routes_elem. by exists p, ri.
Qed.

(** The hosts of the HTTP chain of a port. *)
Definition serves (parents : list httpFilterChainParent) (h : string) : Prop :=
  ∃ p ri, p ∈ parents ∧ ri ∈ hp_routes p ∧ h ∈ routeHostnamesOrCatchAll ri ∧ owns_host parents p h ∧ rules_of ri ≠ [].

Lemma served_iff parents m evs h :
  http_routes_by_host parents = Done (m, evs) → is_Some (m !! h) ↔ serves parents h.
Proof.
  intros [Hm Hne]%http_routes_spec. specialize (Hm h). specialize (Hne h). unfold routes_at_host in Hm.
  assert (is_Some (m !! h) ↔ isolated_routes parents h ≠ []) as ->.
  { destruct (m !! h) as [[|x l]|]; cbn in Hm; rewrite <- Hm; split; [done|done|done|by eexists|by intros []|done]. }
  unfold serves. split.
  - destruct (isolated_routes parents h) as [|sr l] eqn:E; [done|]. intros _.
    assert (sr ∈ isolated_routes parents h) as Hsr by (rewrite E; by left).
    apply isolated_routes_elem in Hsr as (p & ri & Hp & Hri & Hh & Ho & Hs). exists p, ri. repeat (split; [done|]).
    intros Hr. rewrite Hr in Hs. by apply not_elem_of_nil in Hs.
  - intros (p & ri & Hp & Hri & Hh & Ho & Hr) E. destruct (rules_of ri) as [|r rs] eqn:Er; [done|].
    assert (mkSR r (route_object (ri_object ri)) 0 ∈ isolated_routes parents h) as Hx.
    { apply isolated_routes_elem. exists p, ri. rewrite Er. repeat (split; [done|]). by left. }
    rewrite E in Hx. by apply not_elem_of_nil in Hx.
Qed.

(** The HTTP chain of a port has one virtual host for every hostname that some listener owns
    and serves a rule for, and none else; their names are distinct and in order, whatever
    the order in which Go iterates its map of hosts. *)
Theorem http_virtual_hosts_exact parents name fc evs :
  translateHttpFilterChain parents name = Done (fc, evs) →
  (∀ h, serves parents h → no_char "_"%char h = true) →
  NoDup (map vh_name (hfc_vhosts fc)) ∧ StronglySorted (cmp_le vhost_cmp) (hfc_vhosts fc) ∧
  NoDup (map vh_hostname (hfc_vhosts fc)) ∧
  (∀ h, h ∈ map vh_hostname (hfc_vhosts fc) ↔ serves parents h).
Proof.
  intros (m & l1 & l2 & Hm & [= <- _] & _)%wbind_Done Hclean. cbn [hfc_vhosts].
  assert (clean_hosts m) as Hc.
  { intros h l Hl. apply Hclean. eapply served_iff; [done|]. by exists l. }
  destruct (virtual_hosts_spec (http_vhost name parents) name (λ _, eq_refl) m (Hiter m) Hc)
    as (Hp & Hn & Hs).
  split; [done|]. split; [done|].
  assert (map vh_hostname (virtual_hosts (http_vhost name parents) m) ≡ₚ (map_to_list m).*1) as Hh.
  { rewrite Hp, map_map. done. }
  split; [rewrite Hh; apply NoDup_fst_map_to_list|].
  intros h. rewrite <- (served_iff parents m l1 h Hm), Hh, list_elem_of_fmap. split.
  - intros ([h' l] & -> & Hl%elem_of_map_to_list). by exists l.
  - intros [l Hl]. exists (h, l). split; [done|]. by apply elem_of_map_to_list.
Qed.

End chains.

(** ** TLS of the chains *)

(** The validation of client certificates that applies to a listener. *)
Definition applicable (l : Lis) (frontend : option FrontendTLSConfigIR) (v : ClientCertificateValidationIR) : Prop :=
  getCertValidationFromAttached l = Some v ∨
  getCertValidationFromAttached l = None ∧ (resolveFrontendTLSConfig (listener_port l) frontend).1 = Some v ∧
    ccv_refs v ≠ [].

(** What a chain that terminates TLS owes: certificates when the listener names some, and the
    validation of client certificates that applies, which is the one of its policies or, when
    they have none, the one the frontend configuration has for its port. *)
Definition secured (l : Lis) (tls : option ListenerTLSConfig) (frontend : option FrontendTLSConfigIR)
    (cfg : option TLSConfig) : Prop :=
  let resolved := resolveFrontendTLSConfig (listener_port l) frontend in
  (resolved.2 ≠ [] → resolved.1 ≠ None) ∧
  ∀ tls', tls = Some tls' → ltc_mode tls' = Some "Terminate" →
    ∃ t, cfg = Some t ∧ (ltc_refs tls' ≠ [] → tls_certificates t ≠ []) ∧
      ∀ v, applicable l frontend v →
        ccv_require v = true →
        ∃ e, tls_client_validation t = Some e ∧ ccv_require_cert e = true ∧ ccv_ca_certificates e ≠ [] ∧
             ccv_allow_insecure e = ccv_insecure_fallback v ∧ ∃ gvk n, ccv_ca_certificates e = fetched_cas q v gvk n.

Lemma chain_tls_secured l tls frontend ns cfg evs :
  chain_tls l tls frontend ns = (Some cfg, evs) → secured l tls frontend cfg.
Proof.
  unfold chain_tls, secured, applicable. destruct (resolveFrontendTLSConfig _ _) as [resolved errs]. cbn [fst snd].
  destruct (bool_decide (errs ≠ []) && bool_decide (resolved = None)) eqn:Hr; [done|].
  destruct (translateTLSConfig _ _ _ _ _ _) as [c errs2] eqn:Ht.
  intros H. assert (c = cfg ∧ (cfg = None → errs2 = [])) as [-> Hnone]
    by (destruct errs2, c; simplify_eq; done).
  split.
  { intros He ->. rewrite !bool_decide_eq_true_2 in Hr by done. done. }
  intros tls' -> Hm. destruct cfg as [t|].
  - exists t. split; [done|]. split.
    + intros Hrefs. by apply (served_certificates_exact _ _ _ _ _ _ _ _ Ht).
    + apply (client_certificates_enforced _ _ _ _ _ _ _ _ Ht).
  - by destruct (tls_failure_reported _ _ _ _ _ _ _ Hm Ht (Hnone eq_refl)).
Qed.

Lemma set_alpn_secured l tls frontend cfg :
  secured l tls frontend cfg → secured l tls frontend (set_alpn <$> cfg).
Proof.
  intros [H1 H2]. split; [done|]. intros tls' Ht Hm. destruct (H2 tls' Ht Hm) as (t & -> & Hc & Hv).
  exists (set_alpn t). split; [done|]. unfold set_alpn. by destruct (tls_alpn t).
Qed.

Lemma https_secured hs frontend ns fc evs :
  translateHttpsFilterChain hs frontend ns = Done (Some fc, evs) →
  hfc_name fc = hs_name hs ∧ secured (hs_listener hs) (Some (hs_tls hs)) frontend (hfc_tls fc).
Proof.
  intros (m & l1 & l2 & _ & H & _)%wbind_Done.
  destruct (chain_tls _ _ _ _) as [cfg es] eqn:E.
  apply wbind_Done in H as (? & ? & ? & _ & [= H _] & _).
  destruct cfg as [cfg|]; [|done]. cbn in H. injection H as <-. split; [done|]. by eapply chain_tls_secured.
Qed.

Lemma l4_secured tc name frontend ns r sni out evs :
  translate_l4 tc name frontend ns r sni = (Some out, evs) →
  tcp_backends out = l4_backends r ∧ tcp_sni out = sni ∧ secured (tf_listener tc) (tf_tls tc) frontend (tcp_tls out).
Proof.
  unfold translate_l4. destruct (negb _); [done|]. destruct (l4_backends r) as [|b bs]; [done|].
  destruct (chain_tls _ _ _ _) as [cfg es] eqn:E. intros [= H _].
  destruct cfg as [cfg|]; [|done]. cbn in H. injection H as <-. split; [done|]. split; [done|].
  apply set_alpn_secured. by eapply chain_tls_secured.
Qed.

Lemma tcp_secured tc name frontend ns out evs :
  translateTcpFilterChain tc name frontend ns = (Some out, evs) →
  secured (tf_listener tc) (tf_tls tc) frontend (tcp_tls out).
Proof.
  unfold translateTcpFilterChain. destruct (tf_routes tc) as [|r0 rest]; [done|].
  destruct (oldest_loop 1 0 r0 rest) as [i r].
  destruct (ri_object r) as [h|t|t]; [done|..];
    (destruct (translate_l4 _ _ _ _ _ _) as [o es] eqn:E; intros [= -> _]; by apply l4_secured in E as (_ & _ & ?)).
Qed.

Lemma wmap_Done {A B} (f : A → W B) l ys evs :
  wmap f l = Done (ys, evs) → Forall2 (λ x y, ∃ e, f x = Done (y, e)) l ys.
Proof.
  revert ys evs. induction l as [|x l IH]; intros ys evs; [intros [= <- _]; constructor|].
  cbn [wmap]. intros (y & l1 & l2 & Hy & H & _)%wbind_Done.
  apply wbind_Done in H as (zs & ? & ? & Hz%IH & [= <- _] & _). constructor; [by exists l1|done].
Qed.

Lemma translate_listener_parts settings ml out evs :
  TranslateListener settings ml = Done (out, evs) →
  let frontend := g_frontend (ml_gateway ml) in
  let ns := os_namespace (g_source (ml_gateway ml)) in
  ∃ http https,
    li_http out = http ++ omap id https ∧
    match ml_http ml with
    | Some parents => ∃ fc e, http = [fc] ∧ translateHttpFilterChain parents (ml_name ml) = Done (fc, e)
    | None => http = []
    end ∧
    Forall2 (λ hs o, ∃ e, translateHttpsFilterChain hs frontend ns = Done (o, e)) (ml_https ml) https ∧
    li_tcp out = omap (λ tf, (translateTcpFilterChain tf (ml_name ml) frontend ns).1) (ml_tcp ml) ∧
    li_name out = ml_name ml ∧ li_bind_port out = (ml_port ml mod 2 ^ 32)%Z.
Proof.
  intros (http & l1 & l2 & Hh & H & _)%wbind_Done.
  apply wbind_Done in H as (https & ? & ? & Hs%wmap_Done & H & _).
  apply wbind_Done in H as (? & ? & ? & _ & H & _). apply wbind_Done in H as (? & ? & ? & _ & [= <- _] & _).
  exists http, https. cbn [li_http li_tcp li_name li_bind_port]. split; [done|]. split.
  { destruct (ml_http ml); [|by injection Hh as <- _].
    apply wbind_Done in Hh as (fc & e & ? & Hf & [= <- _] & _). by exists fc, e. }
  split; [done|]. split; [|done].
  induction (ml_tcp ml) as [|tf tfs IH]; [done|]. cbn [map]. rewrite !omap_cons_eq, IH. done.
Qed.

(** The chains of a translated merged listener. *)
Lemma listener_chains_secured settings ml out evs :
  TranslateListener settings ml = Done (out, evs) →
  let frontend := g_frontend (ml_gateway ml) in
  (∀ fc, fc ∈ li_http out →
     (∃ parents e, ml_http ml = Some parents ∧ translateHttpFilterChain parents (ml_name ml) = Done (fc, e)) ∨
     (∃ hs, hs ∈ ml_https ml ∧ hfc_name fc = hs_name hs ∧
        secured (hs_listener hs) (Some (hs_tls hs)) frontend (hfc_tls fc))) ∧
  (∀ tcp, tcp ∈ li_tcp out → ∃ tf, tf ∈ ml_tcp ml ∧ secured (tf_listener tf) (tf_tls tf) frontend (tcp_tls tcp)).
Proof.
  intros (http & https & Hh & Hhttp & Hhttps & Htcp & _)%translate_listener_parts. cbv zeta. split.
  - intros fc. rewrite Hh. intros [Hf|Hf]%elem_of_app.
    + left. destruct (ml_http ml) as [parents|]; [|subst; by apply not_elem_of_nil in Hf].
      destruct Hhttp as (fc' & e & -> & Hd). apply list_elem_of_singleton in Hf as ->. by exists parents, e.
    + right. apply list_elem_of_omap in Hf as (o & Ho & Hid). cbn in Hid. subst o.
      apply list_elem_of_lookup in Ho as [i Ho]. destruct (Forall2_lookup_r _ _ _ _ _ Hhttps Ho) as (hs & Hhs & e & He).
      exists hs. split; [by eapply list_elem_of_lookup_2|]. by eapply https_secured.
  - intros tcp. rewrite Htcp. intros (tf & Htf & Ho)%list_elem_of_omap. exists tf. split; [done|].
    destruct (translateTcpFilterChain tf _ _ _) as [o es] eqn:E. cbn in Ho. subst o. by eapply tcp_secured.
Qed.

(** ** One Envoy listener for each port *)

(** The listeners of a Gateway become one Envoy listener for each port: the bind ports are
    distinct, they are the ports of the valid listeners with a protocol the gateway serves,
    and each is the translation of exactly the chains of the listeners of its port, in
    the order of the listeners, under a name made from the port. *)
Theorem one_listener_per_port iter_ports order_sets settings gw routes out evs :
  let valid := (validateGatewayWithSettings iter_ports (gateway_view order_sets gw) (ltcfg_experimental settings)).1 in
  TranslateListeners iter_ports order_sets settings gw routes = Done (out, evs) →
  (∀ l, l ∈ valid → (0 ≤ listener_port l < 2 ^ 32)%Z) →
  NoDup (map li_bind_port out) ∧
  (∀ p, p ∈ map li_bind_port out ↔ ∃ l, l ∈ valid ∧ supported_protocol l = true ∧ listener_port l = p) ∧
  (∀ li, li ∈ out → ∃ ml e, merged_ok routes valid ml ∧ ml_port ml = li_bind_port li ∧
     li_name li = GenerateListenerNameFromPort (li_bind_port li) ∧ TranslateListener settings ml = Done (li, e)).
Proof.
  unfold TranslateListeners. destruct (validateGatewayWithSettings _ _ _) as [valid reports]. cbn [fst].
  intros (? & ? & ? & _ & H%wmap_Done & _)%wbind_Done Hports.
  destruct (merge_listeners_spec gw routes valid) as (Hn & Hp & Hok). set (mls := mergeGWListeners gw valid routes) in *.
  assert (∀ ml li, ml ∈ mls → (∃ e, TranslateListener settings ml = Done (li, e)) → li_bind_port li = ml_port ml) as Hb.
  { intros ml li Hml [e He]. apply translate_listener_parts in He as (_ & _ & _ & _ & _ & _ & _ & ->).
    apply Z.mod_small. assert (ml_port ml ∈ map ml_port mls) as Hin by (by apply list_elem_of_fmap_2).
    apply Hp in Hin as (l & Hl & _ & <-). by apply Hports. }
  assert (map li_bind_port out = map ml_port mls) as ->.
  { clear Hn Hp Hok. induction H as [|ml li mls' out' Hx H IH]; [done|]. cbn [map].
    rewrite (Hb ml li) by (by left || done). f_equal. apply IH. intros ml' li' Hml'. apply Hb. by right. }
  split; [done|]. split; [done|].
  intros li [i Hi]%list_elem_of_lookup. destruct (Forall2_lookup_r _ _ _ _ _ H Hi) as (ml & Hml & e & He).
  apply list_elem_of_lookup_2 in Hml. pose proof (Hb ml li Hml (ex_intro _ e He)) as Hbp.
  exists ml, e. split; [by apply Hok|]. split; [done|]. split; [|done].
  destruct (Hok ml Hml) as [Hname _]. rewrite Hbp, <- Hname.
  by apply translate_listener_parts in He as (_ & _ & _ & _ & _ & _ & -> & _).
Qed.

Lemma on_port_in p ls l : l ∈ on_port p ls → l ∈ ls ∧ listener_port l = p.
Proof. unfold on_port. by intros [? ?]%list_elem_of_filter. Qed.

(** The TLS configuration that the chains of a listener use. *)
Definition chain_tls_config (l : Lis) : ListenerTLSConfig := default (mkLTC None [] ∅) (listener_tls l).

(** What the translation promises of an HTTP chain of a Gateway whose valid listeners are
    [valid]: it is plain HTTP, or belongs to an HTTPS listener and is secured. *)
Definition http_chain_secured (gw : @Gateway P) (valid : list Lis) (fc : HttpFilterChainIR) : Prop :=
  hfc_tls fc = None ∧ (∃ l, l ∈ valid ∧ l_protocol (il_listener l) = "HTTP") ∨
  ∃ l, l ∈ valid ∧ l_protocol (il_listener l) = "HTTPS" ∧ hfc_name fc = listener_key l ∧
    secured l (Some (chain_tls_config l)) (frontend_of gw valid (listener_port l)) (hfc_tls fc).

Definition tcp_chain_secured (gw : @Gateway P) (valid : list Lis) (tcp : TcpIR) : Prop :=
  ∃ l, l ∈ valid ∧
    (l_protocol (il_listener l) = "TCP" ∧ tcp_tls tcp = None ∨
     l_protocol (il_listener l) = "TLS" ∧
       secured l (Some (chain_tls_config l)) (frontend_of gw valid (listener_port l)) (tcp_tls tcp)).

Lemma http_chain_plain parents name fc e : translateHttpFilterChain parents name = Done (fc, e) → hfc_tls fc = None.
Proof. by intros (m & ? & ? & _ & [= <- _] & _)%wbind_Done. Qed.

Lemma tcp_chain_plain tf name frontend ns tcp es :
  tf_tls tf = None → translateTcpFilterChain tf name frontend ns = (Some tcp, es) → tcp_tls tcp = None.
Proof.
  intros Ht. unfold translateTcpFilterChain. destruct (tf_routes tf) as [|r0 rest]; [done|].
  destruct (oldest_loop 1 0 r0 rest) as [i r].
  assert (∀ t sni o es', translate_l4 tf name frontend ns t sni = (Some o, es') → tcp_tls o = None) as H.
  { intros t sni o es'. unfold translate_l4, chain_tls. rewrite Ht. cbn [translateTLSConfig].
    destruct (negb _); [done|]. destruct (l4_backends t); [done|].
    destruct (resolveFrontendTLSConfig _ _) as [res errs]. destruct (_ && _); [done|]. by intros [= <- _]. }
  destruct (ri_object r) as [h|t|t]; [done|..];
    (destruct (translate_l4 _ _ _ _ _ _) as [o es'] eqn:E; intros [= -> _]; by eapply H).
Qed.

Lemma gateway_chains_secured iter_ports order_sets settings gw routes out evs :
  let valid := (validateGatewayWithSettings iter_ports (gateway_view order_sets gw) (ltcfg_experimental settings)).1 in
  TranslateListeners iter_ports order_sets settings gw routes = Done (out, evs) →
  ∀ li, li ∈ out → Forall (http_chain_secured gw valid) (li_http li) ∧ Forall (tcp_chain_secured gw valid) (li_tcp li).
Proof.
  unfold TranslateListeners. destruct (validateGatewayWithSettings _ _ _) as [valid reports]. cbn [fst].
  intros (? & ? & ? & _ & H%wmap_Done & _)%wbind_Done li [i Hi]%list_elem_of_lookup.
  destruct (Forall2_lookup_r _ _ _ _ _ H Hi) as (ml & Hml & e & He). apply list_elem_of_lookup_2 in Hml.
  destruct (merge_listeners_spec gw routes valid) as (_ & _ & Hok).
  destruct (Hok ml Hml) as (_ & Hhttp & Hne & Hhttps & Htcp). clear Hok.
  pose proof (merged_frontend gw routes valid ml Hml) as Hf.
  destruct (listener_chains_secured settings ml li e He) as [Hh Ht]. rewrite Hf in Hh, Ht.
  apply translate_listener_parts in He as (_ & _ & _ & _ & _ & Hli & _).
  split; apply Forall_forall.
  - intros fc Hfc. destruct (Hh fc Hfc) as [(parents & e' & Hp & Hd)|(hs & Hhs & Hname & Hs)].
    + left. split; [by eapply http_chain_plain|]. rewrite Hp in Hhttp. cbn in Hhttp.
      destruct parents as [|p ps]; [by rewrite Hp in Hne|].
      assert (p ∈ flat_map (http_of routes) (on_port (ml_port ml) valid)) as Hin by (rewrite <- Hhttp; by left).
      apply list_elem_of_In, in_flat_map in Hin as (l & [Hl _]%list_elem_of_In%on_port_in & Hin).
      exists l. split; [done|]. unfold http_of in Hin. by destruct (String.eqb_spec (l_protocol (il_listener l)) "HTTP").
    + right. rewrite Hhttps in Hhs. apply list_elem_of_In, in_flat_map in Hhs as (l & Hl%list_elem_of_In & Hhs).
      apply on_port_in in Hl as [Hl Hport]. unfold https_of in Hhs.
      destruct (String.eqb_spec (l_protocol (il_listener l)) "HTTPS") as [Hp|]; [|done].
      destruct Hhs as [<-|[]]. exists l. by rewrite Hport.
  - intros tcp. rewrite Hli. intros (tf & Htf & Ho)%list_elem_of_omap.
    destruct (translateTcpFilterChain tf _ _ _) as [o es] eqn:E. cbn in Ho. subst o.
    assert (secured (tf_listener tf) (tf_tls tf) (frontend_of gw valid (ml_port ml)) (tcp_tls tcp)) as Hs.
    { rewrite <- Hf. by eapply tcp_secured. }
    rewrite Htcp in Htf. apply list_elem_of_In, in_flat_map in Htf as (l & Hl%list_elem_of_In & Htf).
    apply on_port_in in Hl as [Hl Hport]. exists l. split; [done|]. rewrite Hport. unfold tcp_of in Htf.
    destruct (String.eqb_spec (l_protocol (il_listener l)) "TCP") as [Hp|].
    { left. split; [done|]. destruct Htf as [<-|[]]. by eapply tcp_chain_plain in E. }
    destruct (String.eqb_spec (l_protocol (il_listener l)) "TLS") as [Hp|]; [|done]. right. split; [done|].
    destruct (listener_routes routes l) as [|r0 rs]; [destruct Htf as [<-|[]]; exact Hs|].
    apply in_map_iff in Htf as (ri & <- & _). exact Hs.
Qed.

(** C16: The chains of a translated Gateway fail closed.  An HTTPS or TLS chain that terminates TLS
    has certificates when its listener names some.  When the validation of client certificates
    that applies to the listener demands them, the chain demands them, has a CA to check them
    with, fetched from the references of that validation, and accepts untrusted certificates only
    if that validation does.  What applies is the
    validation of the listener's policies, which overrides that of the Gateway; without one, the
    frontend validation of the Gateway for the port of the listener, where a port whose first
    listener is a TLS listener has none.  A port whose frontend validation is broken
    altogether gets no HTTPS or TLS chain. *)
Theorem tls_chains_fail_closed iter_ports order_sets settings gw routes out evs :
  let valid := (validateGatewayWithSettings iter_ports (gateway_view order_sets gw) (ltcfg_experimental settings)).1 in
  TranslateListeners iter_ports order_sets settings gw routes = Done (out, evs) →
  ∀ li, li ∈ out → Forall (http_chain_secured gw valid) (li_http li) ∧ Forall (tcp_chain_secured gw valid) (li_tcp li).
Proof. apply gateway_chains_secured. Qed.

(** ** The oldest route of a TCP listener *)

Definition created (ri : Info) : Z := obj_creation (route_object (ri_object ri)).

Lemma oldest_loop_spec routes pre rest best r :
  routes = pre ++ rest → pre !! best = Some r →
  (∀ j x, pre !! j = Some x → (created r ≤ created x)%Z ∧ ((j < best)%nat → (created r < created x)%Z)) →
  let '(i, w) := oldest_loop (length pre) best r rest in
  routes !! i = Some w ∧
  ∀ j x, routes !! j = Some x → (created w ≤ created x)%Z ∧ ((j < i)%nat → (created w < created x)%Z).
Proof.
  revert pre best r. induction rest as [|y rest IH]; intros pre best r -> Hb Hm; cbn [oldest_loop].
  { by rewrite app_nil_r. }
  assert (pre ++ y :: rest = (pre ++ [y]) ++ rest) as Heq by (by rewrite <- app_assoc).
  assert (length (pre ++ [y]) = S (length pre)) as Hlen by (rewrite length_app; simpl; lia).
  assert (∀ j x, (pre ++ [y]) !! j = Some x → pre !! j = Some x ∨ j = length pre ∧ x = y) as Hsplit.
  { intros j x [Hj|[Hj Hx]]%lookup_app_Some; [by left|]. apply list_lookup_singleton_Some in Hx as [Hx ->].
    right. split; [lia|done]. }
  fold (created y) (created r). destruct (Z.ltb_spec (created y) (created r)) as [Hlt|Hge].
  - specialize (IH (pre ++ [y]) (length pre) y Heq). rewrite Hlen in IH. apply IH.
    + by apply list_lookup_middle.
    + intros j x [Hj|[-> ->]]%Hsplit; [|lia]. destruct (Hm j x Hj) as [? _]. lia.
  - specialize (IH (pre ++ [y]) best r Heq). rewrite Hlen in IH. apply IH; [by apply lookup_app_l_Some|].
    intros j x [Hj|[-> ->]]%Hsplit; [by apply Hm|]. split; [lia|]. intros Hj.
    apply lookup_lt_Some in Hb. lia.
Qed.

(** The L4 route of an attachment. *)
Definition l4_of (ri : Info) : option (L4Route P) :=
  match ri_object ri with RTcp t | RTls t => Some t | RHttp _ => None end.

(** Of the routes attached to a TCP listener the oldest one wins, the first of them when
    several are equally old: a chain that is produced has its backends, and every other
    TCP or TLS route is reported as not programmed because of the conflict. *)
Theorem tcp_oldest_route_wins tc name frontend ns out evs :
  translateTcpFilterChain tc name frontend ns = (out, evs) → tf_routes tc ≠ [] →
  ∃ i r, tf_routes tc !! i = Some r ∧
    (∀ j x, tf_routes tc !! j = Some x →
       (created r ≤ created x)%Z ∧ ((j < i)%nat → (created r < created x)%Z)) ∧
    (∀ o, out = Some o → ∃ t, l4_of r = Some t ∧ tcp_backends o = l4_backends t) ∧
    (∀ j x t, tf_routes tc !! j = Some x → j ≠ i → l4_of x = Some t →
       EvRoute (route_reporter x) KgatewayConditionProgrammed false "Conflicted" ∈ evs).
Proof.
  unfold translateTcpFilterChain. destruct (tf_routes tc) as [|r0 rest]; [done|]. intros H _.
  pose proof (oldest_loop_spec (r0 :: rest) [r0] rest 0 r0 eq_refl eq_refl) as Hw.
  change (length [r0]) with 1%nat in Hw. destruct (oldest_loop 1 0 r0 rest) as [i r].
  destruct Hw as [Hi Hmin]; [intros j x [-> <-]%list_lookup_singleton_Some; lia|].
  exists i, r. split; [done|]. split; [done|].
  destruct (match ri_object r with RTcp t => _ | RTls t => _ | RHttp _ => _ end) as [o es] eqn:E.
  apply pair_equal_spec in H as [<- <-]. split.
  - intros o' ->. unfold l4_of. destruct (ri_object r) as [h|t|t]; [done|..];
      (exists t; split; [done|]; by apply l4_secured in E as [? _]).
  - intros j x t Hj Hne Hx. apply elem_of_app. left. apply list_elem_of_In, in_flat_map. exists (j, x). split.
    + apply list_elem_of_In, list_elem_of_lookup. exists j. rewrite list_lookup_imap, Hj. done.
    + cbn [fst snd]. destruct (Nat.eqb_spec j i); [done|]. unfold rejectConflictingRoute, l4_of in *.
      destruct (ri_object x); [done|by left|by left].
Qed.

(** ** Chains that are dropped *)

(** A TLS chain is never dropped in silence: when a listener loses its chain over TLS, the
    log of reports has Programmed=False and Accepted=False for that listener. *)
Theorem dropped_chain_reported l tls frontend ns evs :
  chain_tls l tls frontend ns = (None, evs) →
  ∃ message reason,
    EvListener (RListenerCondition (il_parent l) (l_name (il_listener l)) (mkCond "Programmed" false "Invalid" message)) ∈ evs ∧
    EvListener (RListenerCondition (il_parent l) (l_name (il_listener l)) (mkCond "Accepted" false reason message)) ∈ evs.
Proof.
  assert (∀ errs, ∃ message reason,
    RListenerCondition (il_parent l) (l_name (il_listener l)) (mkCond "Programmed" false "Invalid" message) ∈
      reportTLSConfigError errs l false ∧
    RListenerCondition (il_parent l) (l_name (il_listener l)) (mkCond "Accepted" false reason message) ∈
      reportTLSConfigError errs l false) as Hrep.
  { intros errs. unfold reportTLSConfigError. destruct (tls_error_verdict _) as [[[reason areason] msg] ok].
    eexists _, _. split; apply elem_of_app; right; [by left|right; by left]. }
  assert (∀ errs l1 l2, ∃ message reason,
    EvListener (RListenerCondition (il_parent l) (l_name (il_listener l)) (mkCond "Programmed" false "Invalid" message)) ∈
      l1 ++ map EvListener (reportTLSConfigError errs l false) ++ l2 ∧
    EvListener (RListenerCondition (il_parent l) (l_name (il_listener l)) (mkCond "Accepted" false reason message)) ∈
      l1 ++ map EvListener (reportTLSConfigError errs l false) ++ l2) as Hlog.
  { intros errs l1 l2. destruct (Hrep errs) as (m & r & H1 & H2). exists m, r.
    split; (apply elem_of_app; right; apply elem_of_app; left; by apply (list_elem_of_fmap_2 EvListener)). }
  unfold chain_tls. destruct (resolveFrontendTLSConfig _ _) as [resolved errs].
  destruct (bool_decide (errs ≠ []) && bool_decide (resolved = None)) eqn:Hr.
  - apply andb_true_iff in Hr as [He%bool_decide_eq_true Hn%bool_decide_eq_true]. subst resolved.
    destruct errs as [|e errs]; [done|]. intros [= <-]. destruct (Hlog (e :: errs) [] []) as (m & r & ?).
    exists m, r. by rewrite app_nil_r in *.
  - destruct (translateTLSConfig _ _ _ _ _ _) as [[c|] [|e errs2]]; [done..|]. intros [= <-].
    match goal with |- context [?l1 ++ map EvListener (reportTLSConfigError ?es ?l false)] =>
      destruct (Hlog es l1 []) as (m & r & H) end. exists m, r. by rewrite app_nil_r in H.
Qed.

(** ** Totality *)

(** Attached routes whose chains the fuel suffices for. *)
Definition translatable (ri : Info) : Prop :=
  (∃ routes, tree routes fuel ri) ∨ (0 < fuel)%nat ∧ l4_of ri ≠ None.

Lemma rules_total ri rep : translatable ri → ∃ rs evs, TranslateGatewayHTTPRouteRules fuel ri rep = Done (rs, evs).
Proof.
  intros [[routes Ht]|[Hf Hl]].
  - by eapply tree_translates.
  - unfold TranslateGatewayHTTPRouteRules. destruct fuel; [lia|]. cbn. unfold l4_of in Hl. destruct (ri_object ri); [done|by eexists _, _..].
Qed.

Lemma wfold_total {A B} (f : B → A → W B) l b :
  (∀ b x, x ∈ l → ∃ r, f b x = Done r) → ∃ r, wfold f b l = Done r.
Proof.
  revert b. induction l as [|x l IH]; intros b H; [by eexists|]. cbn [wfold].
  destruct (H b x) as [[b' l1] Hb]; [by left|]. unfold wbind. rewrite Hb.
  destruct (IH b') as [[b2 l2] ->]; [|by eexists]. intros c y Hy. apply H. by right.
Qed.

Lemma wmap_total {A B} (f : A → W B) l : (∀ x, x ∈ l → ∃ r, f x = Done r) → ∃ r, wmap f l = Done r.
Proof.
  induction l as [|x l IH]; intros H; [by eexists|]. cbn [wmap].
  destruct (H x) as [[y l1] Hy]; [by left|]. unfold wbind. rewrite Hy.
  destruct IH as [[ys l2] ->]; [|by eexists]. intros z Hz. apply H. by right.
Qed.

Lemma wbind_total {A B} (m : W A) (f : A → W B) :
  (∃ r, m = Done r) → (∀ a, ∃ r, f a = Done r) → ∃ r, wbind m f = Done r.
Proof. intros [[a l] ->] Hf. unfold wbind. destruct (Hf a) as [[b l2] ->]. by eexists. Qed.

Lemma routes_total F m routes :
  Forall translatable routes → ∃ r, buildRoutesPerHostWithHostnamesFilter F m routes = Done r.
Proof.
  intros Ht. apply wfold_total. intros b ri Hri. rewrite Forall_forall in Ht.
  destruct (rules_total ri (route_reporter ri) (Ht ri Hri)) as (rs & evs & He). unfold route_step. rewrite He. by eexists.
Qed.

Lemma translate_listener_total settings ml :
  (∀ parents p, ml_http ml = Some parents → p ∈ parents → Forall translatable (hp_routes p)) →
  (∀ hs, hs ∈ ml_https ml → Forall translatable (hs_routes hs)) →
  ∃ r, TranslateListener settings ml = Done r.
Proof.
  intros Hh Hs. apply wbind_total.
  - destruct (ml_http ml) as [parents|]; [|by eexists]. apply wbind_total; [|by eexists].
    apply wbind_total; [|by eexists]. apply wfold_total. intros m p Hp. apply routes_total. by eapply Hh.
  - intros http. apply wbind_total; [|by eexists]. apply wmap_total. intros hs Hhs. apply wbind_total.
    + apply routes_total. by apply Hs.
    + intros m. destruct (chain_tls _ _ _ _). by eexists.
Qed.

Lemma listener_routes_at r l : listener_routes r l = routes_at r (listener_key l).
Proof. unfold listener_routes, routes_at. by destruct (listenerResults r !! listener_key l). Qed.

Lemma translate_listeners_total iter_ports order_sets settings gw routes :
  (∀ key, Forall translatable (routes_at routes key)) →
  ∃ r, TranslateListeners iter_ports order_sets settings gw routes = Done r.
Proof.
  intros Ht. unfold TranslateListeners. destruct (validateGatewayWithSettings _ _ _) as [valid reports].
  apply wbind_total; [by eexists|]. intros _. apply wmap_total. intros ml Hml.
  destruct (merge_listeners_spec gw routes valid) as (_ & _ & Hok). destruct (Hok ml Hml) as (_ & Hh & _ & Hs & _).
  apply translate_listener_total.
  - intros parents p Hp Hin. rewrite Hp in Hh. cbn in Hh. unfold id in Hh. subst parents.
    apply list_elem_of_In, in_flat_map in Hin as (l & _ & Hin). unfold http_of in Hin.
    destruct (String.eqb _ "HTTP"); [|done]. destruct Hin as [<-|[]]. cbn. rewrite listener_routes_at. apply Ht.
  - intros hs Hin. rewrite Hs in Hin. apply list_elem_of_In, in_flat_map in Hin as (l & _ & Hin). unfold https_of in Hin.
    destruct (String.eqb _ "HTTPS"); [|done]. destruct Hin as [<-|[]]. cbn. rewrite listener_routes_at. apply Ht.
Qed.

End listeners.

(** ** From the attached routes to the listeners *)

Section gateway.
Context {Selector : Type} `{SL : SelectorLib Selector} (namespaces : gmap string (gmap string string)).
Context {P : Type} (wildcardNs : string) (httpRoutes : list (HttpRouteIR P)).

(** Every attached route is the chain of one of the routes. *)
Definition chains_of (routes : list (@Route P)) (r : @RoutesForGwResult P) : Prop :=
  ∀ key ri, ri ∈ routes_at r key →
    ∃ route hostnames ref, route ∈ routes ∧ ri = GetRouteChain wildcardNs httpRoutes route hostnames ref.

Lemma process_all_chains routes resource rs ret ret' :
  (∀ x, x ∈ rs → x ∈ routes) → chains_of routes ret →
  process_all namespaces wildcardNs httpRoutes resource rs ret = inr ret' → chains_of routes ret'.
Proof.
  revert ret. induction rs as [|route rs IH]; intros ret Hin Hc; cbn [process_all]; [by intros [= <-]|].
  destruct (processRoute _ _ _ _ _ _) as [|ret1] eqn:E; [done|]. apply IH; [intros x Hx; apply Hin; by right|].
  unfold processRoute in E. destruct (getParentRefsForResource resource route) as [|ref0 refs]; [by injection E as <-|].
  destruct (getListeners resource) as [|listeners]; [done|].
  assert (ret1 = foldl (ref_step namespaces wildcardNs httpRoutes resource route listeners) ret (ref0 :: refs)) as -> by congruence.
  intros key ri.
  rewrite (proj1 (refs_spec namespaces wildcardNs httpRoutes resource route listeners (ref0 :: refs) ret key)).
  intros [Hx|Hx]%elem_of_app; [by apply (Hc key)|].
  apply list_elem_of_In, in_flat_map in Hx as (ref & _ & Hx%list_elem_of_In).
  apply list_elem_of_omap in Hx as (l & _ & Hx). unfold attached_chain in Hx.
  destruct (String.eqb _ key); [|done]. destruct (verdict _ _ _ _ _) as [| | | |hs]; try done. injection Hx as <-.
  exists route, hs, ref. split; [apply Hin; by left|done].
Qed.

Lemma new_result_chains routes : chains_of routes NewRoutesForGwResult.
Proof. intros key ri. unfold routes_at. cbn. rewrite lookup_empty. by intros ?%not_elem_of_nil. Qed.

Lemma gateway_chains routes gw sets r :
  GetRoutesForGateway namespaces wildcardNs httpRoutes routes gw sets = inr r → chains_of routes r.
Proof.
  assert (∀ res r, GetRoutesForResource namespaces wildcardNs httpRoutes routes res = inr r → chains_of routes r) as Hres.
  { intros res r1. apply process_all_chains; [|apply new_result_chains]. intros x. unfold RoutesFor.
    by intros [_ ?]%list_elem_of_filter. }
  unfold GetRoutesForGateway. destruct (GetRoutesForResource _ _ _ _ gw) as [|r0] eqn:E; [done|].
  pose proof (Hres _ _ E) as H0. clear E. revert r0 H0. induction (concat sets) as [|x xs IH]; intros r0 H0.
  - by intros [= <-].
  - cbn [merge_listener_sets]. destruct (GetRoutesForResource _ _ _ _ x) as [|r1] eqn:E; [done|].
    apply IH. pose proof (Hres _ _ E) as H1. intros key ri. unfold routes_at, rgr_merge. cbn [listenerResults].
    rewrite lookup_union. specialize (H0 key ri). specialize (H1 key ri). unfold routes_at in *.
    by destruct (listenerResults r1 !! key), (listenerResults r0 !! key).
Qed.

(** Translating a Gateway always ends with a result: with the routes the query attaches to it
    and fuel for one more than there are HTTP routes, the translation neither panics nor runs
    out of fuel, whatever the routes delegate to and whatever certificates, options and
    orders of iteration there are. *)
Theorem gateway_translation_total `{LP : ListenerPolicyView P} {Cert : Type} `{CL : CertLib Cert} q iter_options
    iter_hosts iter_ports order_sets settings gw routes gwResource sets r :
  Forall route_wf httpRoutes → (∀ hr, RHttp hr ∈ routes → route_wf hr) →
  GetRoutesForGateway namespaces wildcardNs httpRoutes routes gwResource sets = inr r →
  ∃ out evs, TranslateListeners q iter_options iter_hosts (S (length httpRoutes)) iter_ports order_sets settings gw r
             = Done (out, evs).
Proof.
  intros Hw Hr Hg%gateway_chains.
  destruct (translate_listeners_total q iter_options iter_hosts (S (length httpRoutes)) iter_ports order_sets settings gw r)
    as [[out evs] ->]; [|by eexists _, _].
  intros key. apply Forall_forall. intros ri Hri. destruct (Hg key ri Hri) as (route & hosts & ref & Hin & ->).
  destruct route as [hr|t|t]; [left; eexists; apply (chain_tree httpRoutes); [done|by apply Hr]|right; split; [lia|done]..].
Qed.

End gateway.

(** ** Witnesses *)

#[local] Instance ex_certs : CertLib string := {|
  X509KeyPair c k := None; ParseCertsPEM s := inr [s]; EncodeCertificates l := inr (join "" l) |}.
#[local] Instance ex_view : ListenerPolicyView unit := {| client_certificate_validation _ := Some None |}.

Definition ex_grants : RefGrantIndex := mkRGI [] ReferenceGrantStrict.
Definition ex_queries : GatewayQueries :=
  mkGQ (mkSI {[ mkGK "" "Secret" := [mkSecret (mkOS "" "Secret" "infra" "cert") None
                {[ "tls.crt" := "CERT"; "tls.key" := "KEY" ]}] ]} ex_grants)
    (mkCMI [mkCM "infra" "ca" {[ "ca.crt" := "CA" ]}] ex_grants).

Definition ex_gw_parent : Parent := mkParent TGateway GatewayKind "infra" "gw".
Definition ex_lis (n : string) (h : option string) (port : Z) (protocol : string) (mode : option (option string)) :
    @IRListener (@ListenerExtra unit) :=
  mkIRL (mkListener n h port protocol mode None) ex_gw_parent
    (mkLE GatewayGVK [mkSecretRef None None None "cert"] ∅ ∅
       (mkPR (Some GatewayGroup) (Some GatewayKind) (Some "infra") "gw" None None)).

Definition ex_info (n : string) (hosts : list string) : @RouteInfo unit :=
  GetRouteChain "all" [] (RHttp (ex_http "infra" n [ex_gw_ref] [ex_rule "/" []])) hosts ex_gw_ref.

Definition ex_policy (n : string) : AttachedPolicies unit :=
  {[ mkGK "g" "TrafficPolicy" := [mkPA (mkGK "g" "TrafficPolicy") 1 tt (Some (mkAPR "g" "TrafficPolicy" n "infra" ""))
       UnsetPriority [] 0 0 ∅] ]}.

(** A wildcard listener and an exact one on the same port; both get routes for the same host. *)
Definition ex_parents : list (httpFilterChainParent (P:=unit)) :=
  [mkHP "wild" (ex_lis "wild" (Some "*.example.com") 80 "HTTP" None) [ex_info "w" ["*.example.com"; "a.example.com"]] (ex_policy "wild");
   mkHP "exact" (ex_lis "exact" (Some "a.example.com") 80 "HTTP" None) [ex_info "e" ["a.example.com"]] (ex_policy "exact")].

Definition ex_run : W (HttpFilterChainIR (P:=unit)) := translateHttpFilterChain map_to_list 2 ex_parents "listener~80".
Definition ex_chain : HttpFilterChainIR (P:=unit) * list TEvent :=
  match ex_run with Done r => r | _ => (mkHFC "" [] None [] ∅, []) end.
Lemma ex_run_eq : ex_run = Done (ex_chain.1, ex_chain.2).
Proof. vm_cast_no_check (eq_refl (Done (ex_chain.1, ex_chain.2))). Qed.

(** The virtual hosts: name, and the routes their rules come from. *)
Definition vhost_view (vh : VirtualHost (P:=unit)) : string * list string := (vh_hostname vh, map rm_name (vh_rules vh)).

Example ex_vhosts : map vhost_view (hfc_vhosts ex_chain.1) =
  [("*.example.com", ["httproute-w-infra-0-0"]); ("a.example.com", ["httproute-e-infra-0-0"])].
Proof. vm_compute. reflexivity. Qed.

Definition ex_vhost : VirtualHost (P:=unit) :=
  match filter (λ vh, vh_hostname vh = "a.example.com") (hfc_vhosts ex_chain.1) with
  | vh :: _ => vh | [] => mkVH "" "" [] ∅ None end.
Lemma ex_vhost_in : ex_vhost ∈ hfc_vhosts ex_chain.1.
Proof. apply list_elem_of_lookup. exists 1%nat. vm_compute. reflexivity. Qed.

Lemma listener_isolation_witness :
  ∃ rule, rule ∈ vh_rules ex_vhost ∧
    ∃ p ri, p ∈ ex_parents ∧ ri ∈ hp_routes p ∧ vh_hostname ex_vhost ∈ routeHostnamesOrCatchAll ri ∧
      owns_host ex_parents p (vh_hostname ex_vhost) ∧ rule ∈ rules_of 2 ri.
Proof.
  destruct (vh_rules ex_vhost) as [|rule rules] eqn:E; [exfalso; revert E; vm_compute; discriminate|].
  exists rule. split; [left|].
  apply (listener_isolation map_to_list 2 (λ m, reflexivity _) ex_parents "listener~80" ex_chain.1 ex_chain.2 ex_vhost rule
    ex_run_eq ex_vhost_in). rewrite E. left.
Defined.

Lemma http_virtual_hosts_exact_witness : NoDup (map vh_hostname (hfc_vhosts ex_chain.1)).
Proof.
  refine (proj1 (proj2 (proj2 (http_virtual_hosts_exact map_to_list 2 (λ m, reflexivity _) ex_parents "listener~80"
    ex_chain.1 ex_chain.2 ex_run_eq _)))).
  intros h (p & ri & Hp & Hri & Hh & _). unfold ex_parents in Hp.
  apply elem_of_cons in Hp as [->|Hp]; [|apply list_elem_of_singleton in Hp as ->];
    cbn [hp_routes] in Hri; apply list_elem_of_singleton in Hri as ->; cbn in Hh;
    repeat (apply elem_of_cons in Hh as [->|Hh]; [reflexivity|]); by apply not_elem_of_nil in Hh.
Defined.

(** A Gateway that demands client certificates on every port. *)
Definition ex_frontend : FrontendTLSConfigIR :=
  mkFTI (Some (mkCCV [mkObjRef "" "ConfigMap" None "ca"] true false)) ∅ ∅ [].
Definition ex_gateway (ls : list (@IRListener (@ListenerExtra unit))) : @Gateway unit :=
  mkGateway (mkOS GatewayGroup GatewayKind "infra" "gw") ex_gw_parent (length ls) ls ∅ ∅ ∅ (Some ex_frontend) None.
Definition ex_no_routes : @RoutesForGwResult unit := NewRoutesForGwResult.
Definition ex_settings : ListenerTranslatorConfig := mkLTCfg false true.
Definition ex_order (m : gmap GroupVersionKind (list (@ListenerSetIR (@ListenerExtra unit)))) := (map_to_list m).*2.

Definition ex_https : @IRListener (@ListenerExtra unit) := ex_lis "https" (Some "a.example.com") 443 "HTTPS" (Some (Some "Terminate")).
Definition ex_tls_lis : @IRListener (@ListenerExtra unit) := ex_lis "tls" (Some "b.example.com") 443 "TLS" (Some (Some "Terminate")).

Definition ex_translate (ls : list (@IRListener (@ListenerExtra unit))) : W (list (ListenerIR (P:=unit))) :=
  TranslateListeners ex_queries map_to_list map_to_list 1 map_to_list ex_order ex_settings (ex_gateway ls) ex_no_routes.
Definition ex_out (ls : list (@IRListener (@ListenerExtra unit))) : list (ListenerIR (P:=unit)) * list TEvent :=
  match ex_translate ls with Done r => r | _ => ([], []) end.
Lemma ex_translate_eq : ex_translate [ex_https; ex_tls_lis] =
  Done ((ex_out [ex_https; ex_tls_lis]).1, (ex_out [ex_https; ex_tls_lis]).2).
Proof. vm_compute. reflexivity. Qed.

Lemma one_listener_per_port_witness : map li_bind_port (ex_out [ex_https; ex_tls_lis]).1 = [443%Z] ∧
  NoDup (map li_bind_port (ex_out [ex_https; ex_tls_lis]).1).
Proof.
  split; [vm_compute; reflexivity|].
  refine (proj1 (one_listener_per_port ex_queries map_to_list map_to_list 1 map_to_list ex_order ex_settings
    (ex_gateway [ex_https; ex_tls_lis]) ex_no_routes _ _ ex_translate_eq _)).
  assert (map listener_port (validateGatewayWithSettings map_to_list (gateway_view ex_order (ex_gateway [ex_https; ex_tls_lis]))
    (ltcfg_experimental ex_settings)).1 = [443; 443]%Z) as E by (vm_compute; reflexivity).
  intros l Hl. assert (listener_port l ∈ [443; 443]%Z) as Hp by (rewrite <- E; by apply (list_elem_of_fmap_2 listener_port)).
  apply elem_of_cons in Hp as [->|Hp]; [|apply list_elem_of_singleton in Hp as ->]; (split; [apply Z.leb_le|apply Z.ltb_lt]; reflexivity).
Defined.

Definition ex_merged : MergedListener (P:=unit) :=
  match mergeGWListeners (ex_gateway [ex_https]) [ex_https] ex_no_routes with
  | ml :: _ => ml | [] => mkML "" 0 None [] [] ex_https zero_gateway end.
Definition ex_listener_run : W (ListenerIR (P:=unit)) := TranslateListener ex_queries map_to_list map_to_list 1 ex_settings ex_merged.
Definition ex_listener_out : ListenerIR (P:=unit) * list TEvent :=
  match ex_listener_run with Done r => r | _ => (mkLIR "" "" 0 [] [] ex_gw_ref, []) end.
Lemma ex_listener_eq : ex_listener_run = Done (ex_listener_out.1, ex_listener_out.2).
Proof. vm_compute. reflexivity. Qed.

(** The HTTPS listener of the example demands client certificates, as its Gateway does. *)
Lemma tls_chains_fail_closed_witness :
  ∃ li fc, li ∈ (ex_out [ex_https; ex_tls_lis]).1 ∧ fc ∈ li_http li ∧
    (∃ e t, hfc_tls fc = Some t ∧ tls_client_validation t = Some e ∧ ccv_require_cert e = true) ∧
    http_chain_secured ex_queries (ex_gateway [ex_https; ex_tls_lis]) [ex_https; ex_tls_lis] fc.
Proof.
  destruct (ex_out [ex_https; ex_tls_lis]).1 as [|li lis] eqn:E; [exfalso; revert E; vm_compute; discriminate|].
  destruct (li_http li) as [|fc fcs] eqn:Ef; [exfalso; revert E; vm_compute; intros [= <- _]; discriminate Ef|].
  exists li, fc. split; [left|]. split; [rewrite Ef; left|].
  split; [revert E; vm_compute; intros [= <- _]; injection Ef as <- _; by eexists _, _|].
  destruct (tls_chains_fail_closed ex_queries map_to_list map_to_list 1 map_to_list ex_order ex_settings
    (ex_gateway [ex_https; ex_tls_lis]) ex_no_routes _ _ ex_translate_eq li) as [H _]; [rewrite E; left|].
  rewrite Ef in H. apply Forall_cons in H as [H _].
  assert ((validateGatewayWithSettings map_to_list (gateway_view ex_order (ex_gateway [ex_https; ex_tls_lis]))
    (ltcfg_experimental ex_settings)).1 = [ex_https; ex_tls_lis]) as Hv by (vm_compute; reflexivity).
  rewrite Hv in H. exact H.
Defined.

Definition ex_tcp_route (n : string) (t : Z) : @RouteInfo unit :=
  GetRouteChain "all" [] (RTcp (mkL4 (mkOS GatewayGroup TCPRouteKind "infra" n) (mkObj "infra" n t 1 "" "" ∅ ∅) 1
    [ex_gw_ref] [] ∅ [mkBackendRef ("cluster-" +:+ n) 1 None None])) [] ex_gw_ref.
Definition ex_tcp_chain : tcpFilterChain (P:=unit) :=
  mkTF "tcp" (ex_lis "tcp" None 9000 "TCP" None) [ex_tcp_route "young" 9; ex_tcp_route "old" 3] None [].

Lemma tcp_oldest_route_wins_witness :
  let '(out, evs) := translateTcpFilterChain ex_queries map_to_list ex_tcp_chain "listener~9000" None "infra" in
  map br_cluster (default [] (tcp_backends <$> out)) = ["cluster-old"] ∧
  ∃ i r, tf_routes ex_tcp_chain !! i = Some r ∧
    (∀ j x, tf_routes ex_tcp_chain !! j = Some x → (created r ≤ created x)%Z ∧ ((j < i)%nat → (created r < created x)%Z)).
Proof.
  destruct (translateTcpFilterChain ex_queries map_to_list ex_tcp_chain "listener~9000" None "infra") as [out evs] eqn:E.
  split; [revert E; vm_compute; intros [= <- _]; reflexivity|].
  destruct (tcp_oldest_route_wins ex_queries map_to_list ex_tcp_chain "listener~9000" None "infra" out evs E
    (not_eq_sym (List.nil_cons (l:=_)))) as (i & r & Hi & Hm & _).
  exists i, r. split; [exact Hi|exact Hm].
Defined.

(** A frontend validation that is broken altogether. *)
Definition ex_broken : FrontendTLSConfigIR := mkFTI None ∅ ∅ [ESentinel ErrInvalidCACertificateKind].

Lemma dropped_chain_reported_witness :
  ∃ message reason,
    EvListener (RListenerCondition ex_gw_parent "https" (mkCond "Programmed" false "Invalid" message)) ∈
      (chain_tls ex_queries map_to_list ex_https (listener_tls ex_https) (Some ex_broken) "infra").2 ∧
    EvListener (RListenerCondition ex_gw_parent "https" (mkCond "Accepted" false reason message)) ∈
      (chain_tls ex_queries map_to_list ex_https (listener_tls ex_https) (Some ex_broken) "infra").2.
Proof.
  exact (dropped_chain_reported ex_queries map_to_list ex_https (listener_tls ex_https) (Some ex_broken) "infra"
    (chain_tls ex_queries map_to_list ex_https (listener_tls ex_https) (Some ex_broken) "infra").2 eq_refl).
Defined.

#[local] Instance ex_selectors : SelectorLib unit := {|
  LabelSelectorAsSelector _ := inr tt; sel_empty _ := true; sel_matches _ _ := true |}.

Lemma gateway_translation_total_witness :
  ∃ r out evs, GetRoutesForGateway ∅ "all" ex_routes [RHttp ex_root] Query.ex_gateway [] = inr r ∧
    TranslateListeners ex_queries map_to_list map_to_list 4 map_to_list ex_order ex_settings (ex_gateway [ex_https]) r
      = Done (out, evs).
Proof.
  destruct (GetRoutesForGateway ∅ "all" ex_routes [RHttp ex_root] Query.ex_gateway []) as [e|r] eqn:E;
    [exfalso; revert E; vm_compute; discriminate|].
  destruct (gateway_translation_total ∅ "all" ex_routes ex_queries map_to_list map_to_list map_to_list ex_order ex_settings
    (ex_gateway [ex_https]) [RHttp ex_root] Query.ex_gateway [] r ex_routes_wf) as (out & evs & H).
  - intros hr Hin. apply list_elem_of_singleton in Hin. injection Hin as ->. exact ex_root_wf.
  - exact E.
  - exists r, out, evs. split; [reflexivity|exact H].
Defined.

(** ** Corner cases *)

(** The merged listener that a TLS listener creates carries no Gateway, hence no frontend TLS
    configuration: of two listeners of one port, an HTTPS chain validates client certificates
    when its listener comes first, and does not when the TLS listener comes first. *)
Theorem tls_listener_first_skips_validation :
  let validations ls := map (λ li, map (λ fc, option_map tls_client_validation (hfc_tls fc)) (li_http li)) (ex_out ls).1 in
  validations [ex_https; ex_tls_lis] = [[Some (Some (mkClientCert ["CA"] true false))]] ∧
  validations [ex_tls_lis; ex_https] = [[Some None]].
Proof. vm_compute. split; reflexivity. Qed.

(** The policies of a virtual host come from the longest hostname that contains it, not from the
    listener that owns it: with hostnames of the same length, the wildcard listener that is
    listed first gives its policies to a host whose rules all come from the exact listener. *)
Theorem virtual_host_policies_of_other_listener :
  map rm_name (vh_rules ex_vhost) = ["httproute-e-infra-0-0"] ∧
  option_map (λ l, l_name (il_listener l)) (vh_parent ex_vhost) = Some "wild" ∧
  map (λ p, option_map apr_name (pa_ref p)) (ap_get (vh_policies ex_vhost) (mkGK "g" "TrafficPolicy")) = [Some "wild"].
Proof. vm_compute. split; [|split]; reflexivity. Qed.
