(* ===== verification/EnvoyRoute.v ===== *)
(** * Envoy routes (translator/irtranslator/route.go and validate.go, pkg/xds/bootstrap)

    Envoy's route messages as far as the translation reads or writes them, the
    translation of a Gateway API match to an Envoy match, and the validation of routes before
    they are sent to a proxy: path rules, weights, in-process checks of matchers and the
    bootstrap that Envoy's validation mode is asked about.

    Elements of repeated message fields are not nil; a nil map field is the empty map. *)

From S2P Require Import Prelude IR SortableRoute Hashing SslUtils.

(** ** Matches *)

(** [StringMatcher]; a nil [RegexMatcher] is [None]. *)
Inductive StringMatcher := SMExact (s : string) | SMPrefix (s : string) | SMRegex (regex : option string) | SMOther.

Inductive PathSpecifier :=
| PSPrefix (s : string)
| PSSeparated (s : string)
| PSPath (s : string)
| PSRegex (regex : option string)
| PSConnect
| PSOther.

(** [HeaderMatcher] and [QueryParameterMatcher] have the same shape. *)
Inductive MatchSpecifier := MPresent (b : bool) | MString (m : option StringMatcher) | MOther.

Record NamedMatcher := mkNamed { nmt_name : string; nmt_spec : MatchSpecifier }.

(** [em_advanced]: one of runtime fraction, gRPC, TLS context or dynamic metadata is set. *)
Record RouteMatch := mkRM {
  em_path : option PathSpecifier; em_headers : list NamedMatcher; em_query : list NamedMatcher;
  em_advanced : bool }.

(** ** Translation of matches *)

Definition is_query_or_fragment (a : Ascii.ascii) : bool := Ascii.eqb a "?"%char || Ascii.eqb a "#"%char.

(** [isValidPathSeparated]: the expression [^[^?#]+[^?#/]$].  Paths start with a slash, so two
    bytes are two runes. *)
Definition isValidPathSeparated (path : string) : bool :=
  (2 <=? String.length path)%nat && str_forall (λ a, negb (is_query_or_fragment a)) path &&
  negb (has_suffix path "/").

(** [isDefaultPathConnectMatch]. *)
Definition isDefaultPathConnectMatch (m : HTTPRouteMatch) : bool :=
  match m_method m with
  | Some method =>
      if negb (String.eqb method "CONNECT") then false
      else let '(pathType, pathValue) := ParsePath (m_path m) in
           bool_decide (pathType = PathPrefix) && String.eqb pathValue "/"
  | None => false
  end.

(** [setEnvoyPathMatcher]: the path specifier that is set, [None] when none is. *)
Definition setEnvoyPathMatcher (m : HTTPRouteMatch) : option PathSpecifier :=
  let '(pathType, pathValue) := ParsePath (m_path m) in
  match pathType with
  | PathPrefix =>
      let pathValue := if (1 <? String.length pathValue)%nat then trim_suffix pathValue "/" else pathValue in
      Some (if isValidPathSeparated pathValue then PSSeparated pathValue else PSPrefix pathValue)
  | PathExact => Some (PSPath pathValue)
  | PathRegex => Some (PSRegex (Some pathValue))
  | PathOther _ => None
  end.

(** [envoyHeaderMatcher] and [envoyQueryMatcher], the same code at two types. *)
Definition named_matcher (h : NamedMatch) : NamedMatcher :=
  let regex := bool_decide (nm_type h = Some "RegularExpression") in
  mkNamed (nm_name h)
    (if String.eqb (nm_value h) "" then MPresent true
     else if regex then MString (Some (SMRegex (Some (nm_value h))))
     else MString (Some (SMExact (nm_value h)))).

Definition envoyHeaderMatcher (l : list NamedMatch) : list NamedMatcher := map named_matcher l.
Definition envoyQueryMatcher (l : list NamedMatch) : list NamedMatcher := map named_matcher l.

(** [translateMatcher]. *)
Definition translateMatcher (m : HTTPRouteMatch) : RouteMatch :=
  let isConnectMatch := isDefaultPathConnectMatch m in
  let headers := envoyHeaderMatcher (m_headers m) ++
    match m_method m with
    | Some method =>
        if negb isConnectMatch then [mkNamed ":method" (MString (Some (SMExact method)))] else []
    | None => []
    end in
  mkRM (if isConnectMatch then Some PSConnect else setEnvoyPathMatcher m) headers
    (envoyQueryMatcher (m_query m)) false.

(** ** Route paths (validate.go) *)

(** [strings.Contains]. *)
Fixpoint contains (s sub : string) : bool :=
  has_prefix s sub || match s with EmptyString => false | String _ s' => contains s' sub end.

Definition invalidPathSequences : list string := ["//"; "/./"; "/../"; "%2f"; "%2F"; "#"].
Definition invalidPathSuffixes : list string := ["/.."; "/."].

Definition is_alnum (a : Ascii.ascii) : bool :=
  let n := Ascii.nat_of_ascii a in
  ((48 <=? n) && (n <=? 57) || (65 <=? n) && (n <=? 90) || (97 <=? n) && (n <=? 122))%nat.

Definition path_char (a : Ascii.ascii) : bool :=
  is_alnum a || existsb (Ascii.eqb a) (String.list_ascii_of_string "/:@._~!$&'()*+,:=;-").

(** [validPathRegex]: path characters and percent-encoded bytes. *)
Fixpoint validPathRegex (s : string) : bool :=
  match s with
  | EmptyString => true
  | String a s' =>
      if path_char a then validPathRegex s'
      else if Ascii.eqb a "%"%char then
        match s' with
        | String x (String y s'') => is_xdigit x && is_xdigit y && validPathRegex s''
        | _ => false
        end
      else false
  end.

Definition validPathRegexCharacters : string :=
  "^(?:([A-Za-z0-9/:@._~!$&'()*+,:=;-]*|[%][0-9a-fA-F]{2}))*$".
Definition ValidRoutePatternError : error :=
  EMsg ("must only contain valid characters matching pattern " +:+ validPathRegexCharacters).
Definition PathContainsInvalidCharacterError (s invalid : string) : error :=
  EMsg ("path [" +:+ s +:+ "] cannot contain [" +:+ invalid +:+ "]").
Definition PathEndsWithInvalidCharactersError (s invalid : string) : error :=
  EMsg ("path [" +:+ s +:+ "] cannot end with [" +:+ invalid +:+ "]").

(** [ValidateRoutePath]. *)
Definition ValidateRoutePath (s : string) : option error :=
  if String.eqb s "" then None
  else if negb (validPathRegex s) then Some ValidRoutePatternError
  else match find (contains s) invalidPathSequences with
       | Some invalid => Some (PathContainsInvalidCharacterError s invalid)
       | None =>
           match find (has_suffix s) invalidPathSuffixes with
           | Some invalid => Some (PathEndsWithInvalidCharactersError s invalid)
           | None => None
           end
       end.

(** [url.Parse], of which the path is used, [regexp.Compile], of which the error is. *)
Class GoSyntax := {
  url_Parse_Path : string → error + string;
  regexp_Compile : string → option error
}.

(** [strconv.Quote], which [%q] prints: quotes, backslashes and control bytes are escaped,
    other runes are printed as they are. *)
Definition hex_digit (n : nat) : Ascii.ascii := Ascii.ascii_of_nat (if (n <? 10)%nat then 48 + n else 87 + n).

Definition quote_char (a : Ascii.ascii) : string :=
  let n := Ascii.nat_of_ascii a in
  let esc (c : Ascii.ascii) := String "\"%char (String c "") in
  match n with
  | 7 => esc "a"%char | 8 => esc "b"%char | 9 => esc "t"%char | 10 => esc "n"%char
  | 11 => esc "v"%char | 12 => esc "f"%char | 13 => esc "r"%char
  | 34 | 92 => esc a
  | _ => if ((n <? 32) || (n =? 127))%nat
         then esc "x"%char +:+ String (hex_digit (n / 16)) (String (hex_digit (n mod 16)) "")
         else String a ""
  end%nat.

Definition quoted (s : string) : string :=
  quote +:+ join "" (map quote_char (String.list_ascii_of_string s)) +:+ quote.

(** ** Validation of generated matchers

    The first component of a result says whether the matcher is of a generated shape. *)

Section matchers.
Context `{GS : GoSyntax}.

(** [strings.Index] of a byte. *)
Fixpoint from_char (a : Ascii.ascii) (s : string) : option string :=
  match s with
  | EmptyString => None
  | String b s' => if Ascii.eqb a b then Some s else from_char a s'
  end.

Definition envoyRegexError (pattern : string) (err : error) : string :=
  let errText := err_text err in
  if contains errText "missing closing ]"
  then "missing ]: " +:+ default pattern (from_char "["%char pattern)
  else if contains errText "invalid named capture" then "invalid named capture group: " +:+ pattern
  else errText.

Definition CheckRegexString (candidateRegex : string) : option error := regexp_Compile candidateRegex.

Definition validateRegexMatcher (m : option string) (field : string) : option error :=
  match m with
  | None => Some (EMsg (field +:+ " is missing"))
  | Some regex =>
      match CheckRegexString regex with
      | None => None
      | Some err =>
          Some (EWrap2 (EWrap "validation failed: " (ESentinel ErrInvalidXDS))
                  ": error initializing configuration '/dev/fd/0': " (EMsg (envoyRegexError regex err)))
      end
  end.

Definition validateGeneratedStringMatcher (m : option StringMatcher) (field : string) : bool * option error :=
  match m with
  | None => (false, None)
  | Some (SMExact _) => (true, None)
  | Some (SMRegex r) => (true, validateRegexMatcher r (field +:+ " regex"))
  | Some (SMPrefix _ | SMOther) => (false, None)
  end.

(** [validateGeneratedHeaderMatcher] and [validateGeneratedQueryMatcher] differ in the name of
    the field. *)
Definition validateGeneratedNamedMatcher (what : string) (h : NamedMatcher) : bool * option error :=
  match nmt_spec h with
  | MPresent _ => (true, None)
  | MString m => validateGeneratedStringMatcher m (what +:+ " " +:+ quoted (nmt_name h))
  | MOther => (false, None)
  end.

Definition validateGeneratedHeaderMatcher := validateGeneratedNamedMatcher "header".
Definition validateGeneratedQueryMatcher := validateGeneratedNamedMatcher "query parameter".

Definition validateGeneratedPathMatcher (p : option PathSpecifier) : bool * option error :=
  match p with
  | Some (PSPath _) | Some (PSPrefix _) => (true, None)
  | Some (PSSeparated s) =>
      if negb (isValidPathSeparated s)
      then (true, Some (EMsg ("path separated prefix " +:+ quoted s +:+ " is invalid")))
      else (true, None)
  | Some (PSRegex r) => (true, validateRegexMatcher r "path regex")
  | _ => (false, None)
  end.

(** The loops over headers and query parameters stop at the first matcher that is not
    handled or is wrong. *)
Fixpoint all_handled (check : NamedMatcher → bool * option error) (l : list NamedMatcher)
    (rest : bool * option error) : bool * option error :=
  match l with
  | [] => rest
  | h :: l' => match check h with (true, None) => all_handled check l' rest | r => r end
  end.

Definition validateGeneratedMatcher (m : option RouteMatch) : bool * option error :=
  match m with
  | None => (false, None)
  | Some m =>
      if em_advanced m then (false, None)
      else match validateGeneratedPathMatcher (em_path m) with
           | (true, None) =>
               all_handled validateGeneratedHeaderMatcher (em_headers m)
                 (all_handled validateGeneratedQueryMatcher (em_query m) (true, None))
           | r => r
           end
  end.

Definition ValidatePrefixRewrite (s : string) : option error :=
  match url_Parse_Path s with inl e => Some e | inr path => ValidateRoutePath path end.

(** [validatePath] and [validatePrefixRewrite]: the errors they append. *)
Definition validatePath (path : string) : list error :=
  match ValidateRoutePath path with
  | Some e => [EWrap ("the " +:+ quote +:+ path +:+ quote +:+ " path is invalid: ") e]
  | None => []
  end.

Definition validatePrefixRewrite (rewrite : string) : list error :=
  match ValidatePrefixRewrite rewrite with
  | Some e => [EWrap ("the rewrite " +:+ rewrite +:+ " is invalid: ") e]
  | None => []
  end.

End matchers.

(** [apisettings.ValidationMode]. *)
Inductive ValidationMode := ValidationStandard | ValidationStrict | ValidationOther (s : string).

(** ** Routes

    [Cfg] stands for protobuf messages packed in an [Any], [Hdr] for header options, [Rest]
    for the fields of a message that the translation does not touch. *)

Record HeaderEdits (Hdr : Type) := mkHE {
  he_request_add : list Hdr; he_request_remove : list string;
  he_response_add : list Hdr; he_response_remove : list string }.
Arguments mkHE {Hdr}. Arguments he_request_add {Hdr}. Arguments he_request_remove {Hdr}.
Arguments he_response_add {Hdr}. Arguments he_response_remove {Hdr}.

Definition no_edits {Hdr} : HeaderEdits Hdr := mkHE [] [] [] [].

(** [RetryPolicy], with the base interval of its back-off; durations are in nanoseconds. *)
Record RetryPolicy := mkRetry {
  rp_on : string; rp_num : option Z; rp_codes : list Z; rp_per_try : option Z; rp_backoff : option Z }.

Inductive DenominatorType := HUNDRED | TEN_THOUSAND | MILLION.
Record FractionalPercent := mkFrac { fr_numerator : Z; fr_denominator : DenominatorType }.
Record RequestMirrorPolicy := mkMirror { mp_cluster : string; mp_fraction : option FractionalPercent }.

(** [RegexMatchAndSubstitute]. *)
Record RegexRewrite := mkRegex { rx_pattern : string; rx_substitution : string }.

(** The alternatives of a redirect: what replaces the path, and the scheme. *)
Inductive PathRewriteSpecifier := PathRedirect (s : string) | PrefixRewrite (s : string) | RegexRedirect.
Inductive SchemeRewriteSpecifier := HttpsRedirect (b : bool) | SchemeRedirect (s : string).

Inductive RedirectResponseCode := MOVED_PERMANENTLY | FOUND | SEE_OTHER | TEMPORARY_REDIRECT | PERMANENT_REDIRECT.

Section routes.
Context {Cfg Hdr Rest : Type}.

Record ClusterWeight := mkCW {
  cw_name : string; cw_weight : Z; cw_config : gmap string Cfg; cw_edits : HeaderEdits Hdr }.

Inductive ClusterSpecifier :=
| CSCluster (name : string)
| CSWeighted (clusters : list ClusterWeight)
| CSOther (r : Rest).

Inductive HostRewriteSpecifier := HostRewriteLiteral (s : string) | HROther (r : Rest).

Record RouteAction := mkRA {
  ra_cluster : option ClusterSpecifier; ra_not_found_500 : bool; ra_prefix_rewrite : string;
  ra_upgrades : list string; ra_timeout : option Z; ra_retry : option RetryPolicy;
  ra_mirrors : list RequestMirrorPolicy; ra_host_rewrite : option HostRewriteSpecifier;
  ra_regex_rewrite : option RegexRewrite; ra_rest : option Rest }.

Record RedirectAction := mkRD {
  rd_path_spec : option PathRewriteSpecifier; rd_host : string; rd_scheme_spec : option SchemeRewriteSpecifier;
  rd_port : Z; rd_code : RedirectResponseCode; rd_rest : option Rest }.

(** Getters of the alternatives. *)
Definition rd_path (r : RedirectAction) : string :=
  match rd_path_spec r with Some (PathRedirect s) => s | _ => "" end.
Definition rd_prefix_rewrite (r : RedirectAction) : string :=
  match rd_path_spec r with Some (PrefixRewrite s) => s | _ => "" end.
Definition rd_scheme (r : RedirectAction) : string :=
  match rd_scheme_spec r with Some (SchemeRedirect s) => s | _ => "" end.

Inductive Action :=
| ARoute (r : RouteAction)
| ARedirect (r : RedirectAction)
| ADirectResponse (status : Z) (body : string)
| AOther (r : Rest).

(** Values of the filter metadata: merge origins, the source of a route, and what others set. *)
Inductive MetaStruct := MOrigins (m : MergeOrigins) | MSource (fields : gmap string string) | MStruct (r : Rest).

Record EnvoyRoute := mkER {
  er_name : string;
  er_match : option RouteMatch;
  er_action : option Action;
  er_metadata : gmap string MetaStruct;
  er_config : gmap string Cfg;
  er_edits : HeaderEdits Hdr;
  er_rest : option Rest }.

Definition route_action_of (r : EnvoyRoute) : option RouteAction :=
  match er_action r with Some (ARoute a) => Some a | _ => None end.
Definition redirect_of (r : EnvoyRoute) : option RedirectAction :=
  match er_action r with Some (ARedirect a) => Some a | _ => None end.

(** Getters of protobuf answer the zero value on nil. *)
Definition path_at (f : PathSpecifier → option string) (r : EnvoyRoute) : string :=
  default "" (m ← er_match r; p ← em_path m; f p).
Definition get_path := path_at (λ p, match p with PSPath s => Some s | _ => None end).
Definition get_prefix := path_at (λ p, match p with PSPrefix s => Some s | _ => None end).
Definition get_separated := path_at (λ p, match p with PSSeparated s => Some s | _ => None end).
Definition redirect_at (f : RedirectAction → string) (r : EnvoyRoute) : string := default "" (f <$> redirect_of r).

Definition weighted_clusters (r : EnvoyRoute) : list ClusterWeight :=
  match (a ← route_action_of r; ra_cluster a) with Some (CSWeighted cs) => cs | _ => [] end.

(** [validateWeightedClusters]: the errors it appends. *)
Definition validateWeightedClusters (clusters : list ClusterWeight) : list error :=
  match clusters with
  | [] => []
  | _ => if existsb (λ c, 0 <? cw_weight c)%Z clusters then []
         else [EMsg "All backend weights are 0. At least one backendRef in the HTTPRoute rule must specify a non-zero weight"]
  end.

Context `{GS : GoSyntax}.

(** [validateEnvoyRoute]. *)
Definition validateEnvoyRoute (r : EnvoyRoute) : option error :=
  let errs := validatePath (get_path r) ++ validatePath (get_prefix r) ++ validatePath (get_separated r) ++
    validatePath (redirect_at rd_path r) ++ validatePath (redirect_at rd_host r) ++
    validatePath (redirect_at rd_scheme r) ++
    validatePrefixRewrite (default "" (ra_prefix_rewrite <$> route_action_of r)) ++
    validatePrefixRewrite (redirect_at rd_prefix_rewrite r) ++
    validateWeightedClusters (weighted_clusters r) in
  match errs with
  | [] => None
  | _ => Some (EWrap ("error " +:+ er_name r +:+ ": ") (EJoin errs))
  end.

(** [validateRoutePreEnvoy]; the route is never nil here. *)
Definition validateRoutePreEnvoy (route : EnvoyRoute) (mode : ValidationMode) : option error :=
  match validateEnvoyRoute route with
  | Some err => Some (EWrap2 (ESentinel ErrInvalidRoute) ": " err)
  | None =>
      match mode with
      | ValidationStrict =>
          match validateGeneratedMatcher (er_match route) with
          | (true, Some err) => Some (EWrap2 (ESentinel ErrInvalidMatcher) ": " err)
          | _ => None
          end
      | _ => None
      end
  end.

End routes.
Arguments ClusterWeight : clear implicits.
Arguments ClusterSpecifier : clear implicits.
Arguments RouteAction : clear implicits.
Arguments Action : clear implicits.
Arguments EnvoyRoute : clear implicits.

(** ** The validation bootstrap (pkg/xds/bootstrap/builder.go) *)

Definition SystemCaSecretName : string := "SYSTEM_CA_CERT".

(** The validation context of an upstream TLS configuration, by the name of its SDS secret. *)
Inductive ValidationContextType := VCombined (sds : string) | VSds (sds : string) | VOther.

(** [SystemCAValidationSecretPlaceholder] and the secrets callers add. *)
Inductive BootstrapSecret := SystemCAPlaceholder | NamedSecret (name : string).

Definition secret_name (s : BootstrapSecret) : string :=
  match s with SystemCAPlaceholder => SystemCaSecretName | NamedSecret n => n end.

Section bootstrap.
Context {Cfg Hdr Rest : Type}.
Abbreviation Route := (EnvoyRoute Cfg Hdr Rest).

Record EnvoyCluster := mkEC { ec_name : string; ec_transport_socket : option Cfg; ec_rest : option Rest }.

Record HttpConnectionManager := mkHCM {
  hcm_vhost_config : gmap string Cfg; hcm_routes : list Route; hcm_filters : list Cfg }.

Record Bootstrap := mkBS {
  bs_listener : Cfg; bs_clusters : list EnvoyCluster; bs_secrets : list BootstrapSecret }.

(** Packing and unpacking of messages, and Envoy's validation of a bootstrap. *)
Class EnvoyLib := {
  router_ToAny : error + Cfg;
  hcm_ToAny : HttpConnectionManager → error + Cfg;
  UnmarshalTo_UpstreamTls : Cfg → option (option ValidationContextType);
  Validate : Bootstrap → option error
}.
Context `{EL : EnvoyLib} `{GS : GoSyntax}.

Record ConfigBuilder := mkCB {
  cb_config : gmap string Cfg; cb_routes : list Route; cb_clusters : list EnvoyCluster;
  cb_secrets : list BootstrapSecret; cb_filters : list Cfg }.

Definition New : ConfigBuilder := mkCB ∅ [] [] [] [].
Definition AddRoute (r : Route) (b : ConfigBuilder) : ConfigBuilder :=
  mkCB (cb_config b) (cb_routes b ++ [r]) (cb_clusters b) (cb_secrets b) (cb_filters b).
Definition AddCluster (c : EnvoyCluster) (b : ConfigBuilder) : ConfigBuilder :=
  mkCB (cb_config b) (cb_routes b) (cb_clusters b ++ [c]) (cb_secrets b) (cb_filters b).
Definition AddSecret (s : BootstrapSecret) (b : ConfigBuilder) : ConfigBuilder :=
  mkCB (cb_config b) (cb_routes b) (cb_clusters b) (cb_secrets b ++ [s]) (cb_filters b).
Definition AddFilterConfig (name : string) (c : Cfg) (b : ConfigBuilder) : ConfigBuilder :=
  mkCB (<[name := c]> (cb_config b)) (cb_routes b) (cb_clusters b) (cb_secrets b) (cb_filters b).
Definition AddHttpFilter (f : Cfg) (b : ConfigBuilder) : ConfigBuilder :=
  mkCB (cb_config b) (cb_routes b) (cb_clusters b) (cb_secrets b) (cb_filters b ++ [f]).

Definition ClusterReferencesSystemCASecret (c : EnvoyCluster) : bool :=
  match ec_transport_socket c with
  | None => false
  | Some typed =>
      match UnmarshalTo_UpstreamTls typed with
      | Some (Some (VCombined n)) | Some (Some (VSds n)) => String.eqb n SystemCaSecretName
      | _ => false
      end
  end.

Definition clustersReferenceSystemCASecret (l : list EnvoyCluster) : bool := existsb ClusterReferencesSystemCASecret l.

Definition hasSecretNamed (l : list BootstrapSecret) (name : string) : bool :=
  existsb (λ s, String.eqb (secret_name s) name) l.

Definition Build (b : ConfigBuilder) : error + Bootstrap :=
  match router_ToAny with
  | inl e => inl (EWrap "failed to marshal Router filter: " e)
  | inr router =>
      match hcm_ToAny (mkHCM (cb_config b) (cb_routes b) (cb_filters b ++ [router])) with
      | inl e => inl (EWrap "failed to marshal HttpConnectionManager: " e)
      | inr hcm =>
          inr (mkBS hcm (cb_clusters b)
                 (cb_secrets b ++
                  if clustersReferenceSystemCASecret (cb_clusters b) &&
                     negb (hasSecretNamed (cb_secrets b) SystemCaSecretName)
                  then [SystemCAPlaceholder] else []))
      end
  end.

(** ** Validation with Envoy (validate.go) *)

Definition runValidation (b : ConfigBuilder) : option error :=
  match Build b with
  | inl e => Some (EWrap "failed to build bootstrap config: " e)
  | inr bootstrap =>
      match Validate bootstrap with
      | Some e => Some (EWrap "validation failed: " e)
      | None => None
      end
  end.

(** [appendClusterNames]: the names so far and the set of seen names. *)
Definition appendClusterName (acc : list string * gset string) (name : string) : list string * gset string :=
  if String.eqb name "" then acc
  else if bool_decide (name ∈ acc.2) then acc
  else (acc.1 ++ [name], {[ name ]} ∪ acc.2).

Definition appendClusterNames (acc : list string * gset string) (r : Route) : list string * gset string :=
  match (a ← route_action_of r; ra_cluster a) with
  | Some (CSCluster name) => appendClusterName acc name
  | Some (CSWeighted cs) => foldl appendClusterName acc (map cw_name cs)
  | _ => acc
  end.

Definition stub_cluster (name : string) : EnvoyCluster := mkEC name None None.

Definition createStubClusters (names : list string) : list EnvoyCluster :=
  map stub_cluster (filter (λ n, n ≠ "") names).

(** [validateFullRoutes]. *)
Definition full_routes_builder (routes : list Route) : ConfigBuilder :=
  let '(builder, acc) := foldl (λ st r, (AddRoute r st.1, appendClusterNames st.2 r)) (New, ([], ∅)) routes in
  foldl (λ b c, AddCluster c b) builder (createStubClusters acc.1).

Definition validateFullRoutes (routes : list Route) : option error := runValidation (full_routes_builder routes).

(** The route of [validateMatcherOnlyEnvoy]: the match with a placeholder action. *)
Definition matcher_only (r : Route) : Route :=
  mkER (er_name r) (er_match r) (Some (ARoute (mkRA (Some (CSCluster "dummy-cluster")) false "" [] None None [] None None None))) ∅ ∅ no_edits None.

Definition validateMatcherOnlyEnvoy (r : Route) : option error :=
  runValidation (AddCluster (stub_cluster "dummy-cluster") (AddRoute (matcher_only r) New)).

Definition validateRouteWithEnvoy (r : Route) : option error :=
  match validateFullRoutes [r] with
  | None => None
  | Some fullErr =>
      match validateMatcherOnlyEnvoy r with
      | Some matcherErr => Some (EWrap2 (ESentinel ErrInvalidMatcher) ": " matcherErr)
      | None => Some (EWrap2 (ESentinel ErrInvalidRoute) ": " fullErr)
      end
  end.

Definition validateRoute (r : Route) (mode : ValidationMode) : option error :=
  match validateRoutePreEnvoy r mode with
  | Some err => Some err
  | None => match mode with ValidationStrict => validateRouteWithEnvoy r | _ => None end
  end.

End bootstrap.
Arguments EnvoyCluster : clear implicits.
Arguments EnvoyLib : clear implicits.
Arguments Bootstrap : clear implicits.
Arguments ConfigBuilder : clear implicits.

(** ** What a match means

    Requests as a proxy sees them: header names in lower case, the path without the query
    string.  How Envoy evaluates a match, and regular expressions, are parameters; the laws
    are the documented meaning of the messages. *)

Record Request := mkRq {
  rq_method : string; rq_path : string; rq_headers : gmap string string; rq_query : gmap string string }.

Class EnvoyMatching := {
  regex_full_match : string → string → bool;
  path_matches : PathSpecifier → Request → bool;
  header_matches : NamedMatcher → Request → bool;
  query_matches : NamedMatcher → Request → bool
}.

Definition header_value (rq : Request) (name : string) : option string :=
  if String.eqb name ":method" then Some (rq_method rq) else rq_headers rq !! to_lower name.

(** The value of a header or parameter against a specifier. *)
Definition spec_matches `{EnvoyMatching} (spec : MatchSpecifier) (v : option string) (b : bool) : Prop :=
  match spec with
  | MPresent present => b = eqb present (bool_decide (is_Some v))
  | MString (Some (SMExact s)) => b = bool_decide (v = Some s)
  | MString (Some (SMRegex (Some r))) => b = match v with Some x => regex_full_match r x | None => false end
  | _ => True
  end.

Class EnvoyMatchingLaws `{EM : EnvoyMatching} : Prop := {
  prefix_law p rq : path_matches (PSPrefix p) rq = has_prefix (rq_path rq) p;
  separated_law p rq :
    path_matches (PSSeparated p) rq = String.eqb (rq_path rq) p || has_prefix (rq_path rq) (p +:+ "/");
  path_law p rq : path_matches (PSPath p) rq = String.eqb (rq_path rq) p;
  regex_law r rq : path_matches (PSRegex (Some r)) rq = regex_full_match r (rq_path rq);
  connect_law rq : path_matches PSConnect rq = String.eqb (rq_method rq) "CONNECT";
  header_law h rq : spec_matches (nmt_spec h) (header_value rq (nmt_name h)) (header_matches h rq);
  query_law h rq : spec_matches (nmt_spec h) (rq_query rq !! nmt_name h) (query_matches h rq)
}.

(** A route match holds when its path, all headers and all parameters do. *)
Definition envoy_matches `{EnvoyMatching} (m : RouteMatch) (rq : Request) : bool :=
  match em_path m with Some p => path_matches p rq | None => false end &&
  forallb (λ h, header_matches h rq) (em_headers m) && forallb (λ h, query_matches h rq) (em_query m).

(** The Gateway API: a prefix matches element by element, a trailing slash is ignored. *)
Definition element_prefix (prefix path : string) : bool :=
  bool_decide (split "/"%char (trim_suffix prefix "/") `prefix_of` split "/"%char path).

Definition named_matches `{EnvoyMatching} (h : NamedMatch) (v : option string) : bool :=
  match v with
  | None => false
  | Some x => if bool_decide (nm_type h = Some "RegularExpression") then regex_full_match (nm_value h) x
              else String.eqb x (nm_value h)
  end.

(** Of entries with equivalent names only the first counts. *)
Fixpoint first_named (key : NamedMatch → string) (seen : list string) (l : list NamedMatch) : list NamedMatch :=
  match l with
  | [] => []
  | h :: l' => if bool_decide (key h ∈ seen) then first_named key seen l'
               else h :: first_named key (key h :: seen) l'
  end.

Definition header_key (h : NamedMatch) : string := to_lower (nm_name h).

Definition gateway_matches `{EnvoyMatching} (m : HTTPRouteMatch) (rq : Request) : bool :=
  let '(pathType, pathValue) := ParsePath (m_path m) in
  match pathType with
  | PathPrefix => element_prefix pathValue (rq_path rq)
  | PathExact => String.eqb (rq_path rq) pathValue
  | PathRegex => regex_full_match pathValue (rq_path rq)
  | PathOther _ => false
  end &&
  forallb (λ h, named_matches h (rq_headers rq !! header_key h)) (first_named header_key [] (m_headers m)) &&
  forallb (λ h, named_matches h (rq_query rq !! nm_name h)) (first_named nm_name [] (m_query m)) &&
  match m_method m with Some method => String.eqb (rq_method rq) method | None => true end.

(** Matches the API server admits: prefixes are absolute paths in the allowed characters,
    parameter names are distinct, values are not empty, header names are no pseudo-headers.
    Header names are distinct as text only: [foo] and [Foo] may both be listed. *)
Record match_wf (m : HTTPRouteMatch) : Prop := {
  wf_prefix : (ParsePath (m_path m)).1 = PathPrefix →
    has_prefix (ParsePath (m_path m)).2 "/" = true ∧ ValidateRoutePath (ParsePath (m_path m)).2 = None;
  wf_query_names : NoDup (map nm_name (m_query m));
  wf_headers : Forall (λ h, nm_value h ≠ "" ∧ nm_name h ≠ ":method") (m_headers m);
  wf_query : Forall (λ h, nm_value h ≠ "") (m_query m) }.

(** ** Lemmas: paths *)

Lemma split_snoc sep s t : split sep (s +:+ String sep t) = split sep s ++ split sep t.
Proof.
  induction s as [|a s IH]; [simpl; by rewrite Ascii.eqb_refl|]. rewrite str_app_cons. cbn [split].
  destruct (Ascii.eqb a sep); rewrite IH; [done|].
  by destruct (split_nonempty sep s) as (x & l & ->).
Qed.

Lemma join_split sep s : join (String sep "") (split sep s) = s.
Proof.
  induction s as [|a s IH]; [done|]. cbn [split]. destruct (split_nonempty sep s) as (x & l & E). rewrite E in *.
  destruct (Ascii.eqb_spec a sep) as [->|_].
  - change (String sep (join (String sep "") (x :: l)) = String sep s). by rewrite IH.
  -    assert (join (String sep "") (String a x :: l) = String a (join (String sep "") (x :: l))) as -> by (by destruct l).
    by rewrite IH.
Qed.

Lemma join_app_split sep l s :
  l ≠ [] → join (String sep "") (split sep s ++ l) = s +:+ String sep (join (String sep "") l).
Proof.
  intros Hl. rewrite <- (join_split sep s) at 2. destruct (split_nonempty sep s) as (x0 & l0 & ->).
  revert x0. induction l0 as [|y l0 IH]; intros x.
  - destruct l; [done|]. done.
  - change (join (String sep "") ((x :: y :: l0) ++ l)) with (x +:+ String sep (join (String sep "") ((y :: l0) ++ l))).
    rewrite IH.
    change (join (String sep "") (x :: y :: l0)) with (x +:+ String sep (join (String sep "") (y :: l0))).
    by rewrite <- str_app_assoc, str_app_cons.
Qed.

(** Element-wise prefixes are Envoy's path-separated prefixes. *)
Lemma split_prefix sep w s :
  split sep w `prefix_of` split sep s ↔ s = w ∨ ∃ t, s = w +:+ String sep t.
Proof.
  split.
  - intros [l Hl]. destruct l as [|x l].
    + left. rewrite app_nil_r in Hl. by rewrite <- (join_split sep s), Hl, join_split.
    + right. exists (join (String sep "") (x :: l)). by rewrite <- (join_split sep s), Hl, join_app_split.
  - intros [->|[t ->]]; [done|]. rewrite split_snoc. by apply prefix_app_r.
Qed.

Lemma contains_spec s sub : contains s sub = true ↔ ∃ a b, s = a +:+ sub +:+ b.
Proof.
  induction s as [|x s IH]; cbn [contains]; rewrite orb_true_iff, has_prefix_spec.
  - split; [|intros (a & b & H); left; exists b; by destruct a].
    intros [[t Ht]|?]; [|done]. by exists "", t.
  - rewrite IH. split.
    + intros [[t ->]|(a & b & ->)]; [by exists "", t|]. by exists (String x a), b.
    + intros ([|y a] & b & H); [left; by exists b|]. rewrite str_app_cons in H. injection H as -> ->. right. by exists a, b.
Qed.

Lemma valid_path_sequences s : ValidateRoutePath s = None → s ≠ "" →
  validPathRegex s = true ∧ Forall (λ q, contains s q = false) invalidPathSequences.
Proof.
  unfold ValidateRoutePath. intros H Hs. apply String.eqb_neq in Hs. rewrite Hs in H.
  destruct (validPathRegex s); [|done]. split; [done|]. cbn [negb] in H.
  destruct (find (contains s) invalidPathSequences) eqn:E; [done|]. apply Forall_forall. intros q Hq.
  eapply find_none; [exact E|]. by apply list_elem_of_In.
Qed.

Lemma valid_path_chars s : validPathRegex s = true → str_forall (λ a, negb (is_query_or_fragment a)) s = true.
Proof.
  assert (∀ n s, (String.length s ≤ n)%nat → validPathRegex s = true →
    str_forall (λ a, negb (is_query_or_fragment a)) s = true) as Hn; [|by apply (Hn (String.length s))].
  assert (∀ a, path_char a = true ∨ is_xdigit a = true ∨ a = "%"%char → negb (is_query_or_fragment a) = true) as Hc.
  { intros a Ha. unfold is_query_or_fragment. destruct (Ascii.eqb_spec a "?"%char) as [->|_];
      [by destruct Ha as [?|[?|?]]|]. by destruct (Ascii.eqb_spec a "#"%char) as [->|_];
      [by destruct Ha as [?|[?|?]]|]. }
  intros n. induction n as [|n IH]; intros [|a t]; [done|simpl; lia|done|]. cbn [String.length validPathRegex str_forall].
  intros Hl. destruct (path_char a) eqn:Ha; [intros; by rewrite Hc, IH by (auto || lia)|].
  destruct (Ascii.eqb_spec a "%"%char) as [->|_]; [|done].
  destruct t as [|x [|y t]]; [done..|]. cbn [String.length str_forall] in *.
  intros [[Hx Hy]%andb_true_iff Ht]%andb_true_iff. rewrite !Hc, IH by (auto || lia). done.
Qed.

(** A valid absolute prefix is sent to Envoy as [/] or as a path-separated prefix without
    trailing slash. *)
Lemma valid_prefix v :
  has_prefix v "/" = true → ValidateRoutePath v = None →
  v = "/" ∨ ((1 < String.length v)%nat ∧ isValidPathSeparated (trim_suffix v "/") = true).
Proof.
  intros [t ->]%has_prefix_spec. change ("/" +:+ t) with (String "/"%char t). destruct t as [|c t]; [by left|].
  intros H. apply valid_path_sequences in H as [Hc Hseq]; [|done]. right. split; [simpl; lia|].
  set (v := String "/"%char (String c t)) in *. unfold invalidPathSequences in Hseq. apply Forall_cons in Hseq as [Hss _].
  apply valid_path_chars in Hc.
  assert (¬ ∃ a b, v = a +:+ "//" +:+ b) as Hno by (by rewrite <- contains_spec, Hss).
  unfold isValidPathSeparated, trim_suffix. destruct (has_suffix v "/") eqn:Hs.
  - apply has_suffix_spec in Hs as [p Hp]. rewrite Hp in *.
    replace (String.substring 0 _ (p +:+ "/")) with p.
    2: { rewrite str_length_app, Nat.add_sub. clear. induction p as [|a p IH]; [done|]. rewrite str_app_cons. simpl. by f_equal. }
    rewrite str_forall_app in Hc. apply andb_true_iff in Hc as [-> _]. rewrite andb_true_r.
    assert (has_suffix p "/" = false) as ->.
    { apply not_true_is_false. intros [p' ->]%has_suffix_spec. apply Hno. exists p', "". by rewrite <- str_app_assoc. }
    rewrite andb_true_r, Nat.leb_le. subst v. destruct p as [|a [|b p]]; [done| |simpl; lia].
    rewrite str_app_cons in Hp. injection Hp as <- Hp. destruct Hno. exists "", "". done.
  - by rewrite Hs, Hc.
Qed.

Lemma element_prefix_spec w path :
  bool_decide (split "/"%char w `prefix_of` split "/"%char path) = String.eqb path w || has_prefix path (w +:+ "/").
Proof.
  apply eq_true_iff_eq. rewrite bool_decide_eq_true, split_prefix, orb_true_iff, String.eqb_eq, has_prefix_spec.
  apply or_iff_compat_l. split; intros [t ->]; exists t; by rewrite <- ?str_app_assoc.
Qed.

(** ** The translated match means what the Gateway API says *)

Lemma first_named_all key (f : NamedMatch → bool) seen l :
  forallb f l = true → forallb f (first_named key seen l) = true.
Proof.
  revert seen. induction l as [|h l IH]; intros seen; [done|]. cbn [forallb first_named].
  intros [Hh Hl]%andb_true_iff. case_bool_decide; [by apply IH|]. cbn [forallb]. by rewrite Hh, IH.
Qed.

Lemma first_named_id key l seen :
  NoDup (map key l) → (∀ h, h ∈ l → key h ∉ seen) → first_named key seen l = l.
Proof.
  revert seen. induction l as [|h l IH]; intros seen Hn Hs; [done|]. cbn [map first_named] in *.
  apply NoDup_cons in Hn as [Hh Hn]. rewrite bool_decide_eq_false_2 by (apply Hs; by left). f_equal.
  apply IH; [done|]. intros h' Hin [E|Hseen]%elem_of_cons; [|by apply (Hs h'); [right|]].
  apply Hh. rewrite <- E. by apply (list_elem_of_fmap_2 key).
Qed.

Lemma connect_match_inv m :
  isDefaultPathConnectMatch m = true → m_method m = Some "CONNECT" ∧ ParsePath (m_path m) = (PathPrefix, "/").
Proof.
  unfold isDefaultPathConnectMatch. destruct (m_method m) as [method|]; [|done].
  destruct (negb (String.eqb method "CONNECT")) eqn:Hm; [done|]. apply negb_false_iff, String.eqb_eq in Hm. subst.
  destruct (ParsePath (m_path m)) as [ty v]. intros [->%bool_decide_eq_true ->%String.eqb_eq]%andb_true_iff. done.
Qed.

Section meaning.
Context `{EM : EnvoyMatching} `{!EnvoyMatchingLaws}.

Lemma named_matcher_exact h v b :
  nm_value h ≠ "" → spec_matches (nmt_spec (named_matcher h)) v b → b = named_matches h v.
Proof.
  intros Hv. unfold named_matcher, named_matches. cbn [nmt_spec]. apply String.eqb_neq in Hv. rewrite Hv.
  destruct (bool_decide (nm_type h = Some "RegularExpression")); cbn [spec_matches]; [done|]. intros ->.
  destruct v as [x|]; [|done]. apply eq_true_iff_eq. rewrite bool_decide_eq_true, String.eqb_eq. by split; [intros [= ->]|intros ->].
Qed.

Lemma all_headers_exact l rq :
  Forall (λ h, nm_value h ≠ "" ∧ nm_name h ≠ ":method") l →
  forallb (λ h, header_matches h rq) (envoyHeaderMatcher l) = forallb (λ h, named_matches h (rq_headers rq !! header_key h)) l.
Proof.
  induction 1 as [|h l [Hv Hn] _ IH]; [done|]. cbn [envoyHeaderMatcher map forallb]. f_equal; [|exact IH].
  apply named_matcher_exact; [done|]. pose proof (header_law (named_matcher h) rq) as Hl.
  apply String.eqb_neq in Hn. unfold header_value in Hl. cbn [nmt_name named_matcher] in Hl. by rewrite Hn in Hl.
Qed.

Lemma all_query_exact l rq :
  Forall (λ h, nm_value h ≠ "") l →
  forallb (λ h, query_matches h rq) (envoyQueryMatcher l) = forallb (λ h, named_matches h (rq_query rq !! nm_name h)) l.
Proof.
  induction 1 as [|h l Hv _ IH]; [done|]. cbn [envoyQueryMatcher map forallb]. f_equal; [|exact IH].
  apply named_matcher_exact; [done|]. apply (query_law (named_matcher h)).
Qed.

Lemma method_matches method rq :
  header_matches (mkNamed ":method" (MString (Some (SMExact method)))) rq = String.eqb (rq_method rq) method.
Proof.
  pose proof (header_law (mkNamed ":method" (MString (Some (SMExact method)))) rq) as ->. cbn.
  apply eq_true_iff_eq. rewrite bool_decide_eq_true, String.eqb_eq. by split; [intros [= ->]|intros ->].
Qed.

(** The path of a match, on requests with a path. *)
Lemma prefix_exact v rq :
  has_prefix v "/" = true → ValidateRoutePath v = None → has_prefix (rq_path rq) "/" = true →
  let w := if (1 <? String.length v)%nat then trim_suffix v "/" else v in
  path_matches (if isValidPathSeparated w then PSSeparated w else PSPrefix w) rq = element_prefix v (rq_path rq).
Proof.
  intros Hp Hv Hrq. unfold element_prefix. rewrite element_prefix_spec.
  destruct (valid_prefix v Hp Hv) as [->|[Hl Hs]].
  - cbn. rewrite prefix_law, Hrq. change (true = String.eqb (rq_path rq) "" || has_prefix (rq_path rq) "/").
    by rewrite Hrq, orb_true_r.
  - apply Nat.ltb_lt in Hl as ->. cbv zeta. rewrite Hs, separated_law. done.
Qed.

(** What the generated matcher requires: as the Gateway API describes it, but all the
    header entries, also those with equivalent names. *)
Definition all_entries_match (m : HTTPRouteMatch) (rq : Request) : bool :=
  forallb (λ h, named_matches h (rq_headers rq !! header_key h)) (m_headers m).

Lemma generated_match m rq :
  match_wf m → has_prefix (rq_path rq) "/" = true ∨ isDefaultPathConnectMatch m = true ∧ rq_path rq = "" →
  envoy_matches (translateMatcher m) rq = gateway_matches m rq && all_entries_match m rq.
Proof.
  intros [Hpre Hqn Hh Hq] Hrq. unfold envoy_matches, gateway_matches, translateMatcher. cbn [em_path em_headers em_query].
  rewrite (first_named_id nm_name) by (done || (intros; apply not_elem_of_nil)).
  rewrite forallb_app, (all_headers_exact _ _ Hh), (all_query_exact _ _ Hq). fold (all_entries_match m rq).
  pose proof (first_named_all header_key (λ h, named_matches h (rq_headers rq !! header_key h)) [] (m_headers m)) as Hfirst.
  fold (all_entries_match m rq) in Hfirst.
  destruct (isDefaultPathConnectMatch m) eqn:Hc.
  - apply connect_match_inv in Hc as [-> ->].
    cbn [forallb negb]. rewrite connect_law.
    assert (element_prefix "/" (rq_path rq) = true) as ->.
    { unfold element_prefix. rewrite element_prefix_spec. destruct Hrq as [Hs|[_ ->]]; [|done]. apply orb_true_iff. by right. }
    destruct (all_entries_match m rq); [rewrite Hfirst by done|]; cbn [andb]; rewrite ?andb_true_r, ?andb_false_r;
      [|done]. by rewrite andb_comm.
  - destruct Hrq as [Hrq|[? _]]; [|done]. cbn [negb].
    assert (forallb (λ h, header_matches h rq)
      match m_method m with Some method => [mkNamed ":method" (MString (Some (SMExact method)))] | None => [] end
      = match m_method m with Some method => String.eqb (rq_method rq) method | None => true end) as ->.
    { destruct (m_method m); [|done]. cbn [forallb]. by rewrite method_matches, andb_true_r. }
    unfold setEnvoyPathMatcher. destruct (ParsePath (m_path m)) as [ty v] eqn:Ep. cbn [fst snd] in Hpre.
    match goal with |- ?p && (?h && ?me) && ?q = ?p' && ?f && ?q && ?me && ?h => assert (p = p') as ->;
      [|destruct h; [rewrite Hfirst by done|]; by destruct p', f, q, me] end.
    destruct ty; [|apply path_law|apply regex_law|done].
    destruct Hpre as [Hs Hv]; [done|]. by apply prefix_exact.
Qed.

(** C7: The match sent to Envoy, for every match the API admits and every request with a
    path: it accepts only requests the Gateway API match describes (prefixes match element by
    element with a trailing slash ignored, exact and regular expression paths, headers, query
    parameters and the method match as specified), and exactly those when the header names
    of the match are distinct in lower case.  Of header entries with equivalent names, of
    which the API considers the first alone, all must hold.  A CONNECT match with the default
    path is treated likewise for authority-form requests, which have no path. *)
Theorem translated_match_exact m rq :
  match_wf m → has_prefix (rq_path rq) "/" = true ∨ isDefaultPathConnectMatch m = true ∧ rq_path rq = "" →
  envoy_matches (translateMatcher m) rq = gateway_matches m rq && all_entries_match m rq ∧
  (NoDup (map header_key (m_headers m)) → envoy_matches (translateMatcher m) rq = gateway_matches m rq).
Proof.
  intros Hm Hrq. rewrite (generated_match m rq Hm Hrq). split; [done|]. intros Hn.
  unfold gateway_matches. rewrite (first_named_id header_key) by (done || (intros; apply not_elem_of_nil)).
  fold (all_entries_match m rq). destruct (ParsePath (m_path m)) as [ty v].
  by destruct (all_entries_match m rq); rewrite ?andb_false_r, ?andb_true_r.
Qed.

End meaning.

(** ** Validation *)

Section checks.
Context `{GS : GoSyntax}.

(** The regular expressions of a match. *)
Definition named_regexes (l : list NamedMatch) : list string :=
  omap (λ h, if bool_decide (nm_type h = Some "RegularExpression") && negb (String.eqb (nm_value h) "")
             then Some (nm_value h) else None) l.

Definition match_regexes (m : HTTPRouteMatch) : list string :=
  match ParsePath (m_path m) with (PathRegex, v) => [v] | _ => [] end ++
  named_regexes (m_headers m) ++ named_regexes (m_query m).

Lemma regex_checked r field : validateRegexMatcher (Some r) field = None ↔ regexp_Compile r = None.
Proof. unfold validateRegexMatcher, CheckRegexString. by destruct (regexp_Compile r). Qed.

Lemma all_handled_app check l1 l2 rest :
  all_handled check (l1 ++ l2) rest = all_handled check l1 (all_handled check l2 rest).
Proof. induction l1 as [|h l1 IH]; [done|]. cbn [app all_handled]. destruct (check h) as [[] []]; [done|exact IH|done..]. Qed.

(** The verdict of a loop over generated matchers. *)
Lemma all_handled_generated what l rest :
  (∃ e, all_handled (validateGeneratedNamedMatcher what) (map named_matcher l) rest = (true, Some e) ∧
        ¬ Forall (λ r, regexp_Compile r = None) (named_regexes l)) ∨
  (all_handled (validateGeneratedNamedMatcher what) (map named_matcher l) rest = rest ∧
   Forall (λ r, regexp_Compile r = None) (named_regexes l)).
Proof.
  induction l as [|h l IH]; [right; by split; [|constructor]|]. cbn [map all_handled].
  unfold named_regexes. rewrite omap_cons_eq. fold (named_regexes l).
  unfold validateGeneratedNamedMatcher at 1 3. cbn [nmt_spec named_matcher nmt_name].
  destruct (String.eqb (nm_value h) ""); [rewrite andb_false_r; exact IH|].
  destruct (bool_decide (nm_type h = Some "RegularExpression")); [|exact IH]. cbn [negb andb validateGeneratedStringMatcher].
  destruct (validateRegexMatcher _ _) as [e|] eqn:E.
  - left. exists e. split; [done|]. intros [Hr _]%Forall_cons. by rewrite (proj2 (regex_checked _ _) Hr) in E.
  - apply regex_checked in E. destruct IH as [(e & He & Hn)|[He Hn]]; [left|right].
    + exists e. split; [done|]. by intros [_ ?]%Forall_cons.
    + split; [done|]. by constructor.
Qed.

(** The in-process check decides every match the translation generates, CONNECT matches and
    unknown path types apart: it is accepted exactly when all its regular expressions compile,
    and no generated path-separated prefix is ever refused. *)
Theorem generated_matcher_decided m :
  isDefaultPathConnectMatch m = false → (∀ s, (ParsePath (m_path m)).1 ≠ PathOther s) →
  ∃ verdict, validateGeneratedMatcher (Some (translateMatcher m)) = (true, verdict) ∧
    (verdict = None ↔ Forall (λ r, regexp_Compile r = None) (match_regexes m)).
Proof.
  intros Hc Ht. unfold validateGeneratedMatcher, translateMatcher, match_regexes. rewrite Hc.
  cbn [em_advanced em_path em_headers em_query negb]. unfold setEnvoyPathMatcher.
  destruct (ParsePath (m_path m)) as [ty v]. cbn [fst] in Ht.
  set (rest := all_handled validateGeneratedHeaderMatcher _ _).
  assert (∃ verdict, rest = (true, verdict) ∧
    (verdict = None ↔ Forall (λ r, regexp_Compile r = None) (named_regexes (m_headers m) ++ named_regexes (m_query m))))
    as (verdict & Hr & Hv).
  { subst rest. rewrite all_handled_app.
    assert (∀ r, all_handled validateGeneratedHeaderMatcher
      match m_method m with Some method => [mkNamed ":method" (MString (Some (SMExact method)))] | None => [] end r = r)
      as -> by (by destruct (m_method m)).
    setoid_rewrite Forall_app.
    destruct (all_handled_generated "query parameter" (m_query m) (true, None)) as [(e & He & Hq)|[He Hq]];
      destruct (all_handled_generated "header" (m_headers m) (all_handled validateGeneratedQueryMatcher (envoyQueryMatcher (m_query m)) (true, None)))
        as [(e' & He' & Hh)|[He' Hh]];
      unfold validateGeneratedHeaderMatcher, validateGeneratedQueryMatcher, envoyHeaderMatcher, envoyQueryMatcher in *;
      rewrite He', ?He; eexists; (split; [done|]); naive_solver. }
  destruct ty as [| | |s]; [| | |by destruct (Ht s)].
  - exists verdict. split; [|done].
    match goal with |- context [if isValidPathSeparated ?w then _ else _] => destruct (isValidPathSeparated w) eqn:Hw end; cbn [validateGeneratedPathMatcher]; [by rewrite Hw|done].
  - exists verdict. by split.
  - cbn [validateGeneratedPathMatcher app]. setoid_rewrite Forall_cons.
    destruct (validateRegexMatcher (Some v) "path regex") as [e|] eqn:E.
    + exists (Some e). split; [done|]. split; [done|]. intros [Hn _]. by rewrite (proj2 (regex_checked _ _) Hn) in E.
    + apply regex_checked in E. exists verdict. split; [done|]. rewrite Hv. naive_solver.
Qed.

End checks.

Lemma filter_keeps {A} (P : A → Prop) `{∀ x, Decision (P x)} (l : list A) : (∀ x, x ∈ l → P x) → filter P l = l.
Proof.
  induction l as [|x l IH]; intros Hl; [done|]. rewrite filter_cons_True by (apply Hl; by left).
  f_equal. apply IH. intros y Hy. apply Hl. by right.
Qed.

Section stubs.
Context {Cfg Hdr Rest : Type}.
Abbreviation Route := (EnvoyRoute Cfg Hdr Rest).

(** The clusters a route sends traffic to. *)
Definition route_clusters (r : Route) : list string :=
  match (a ← route_action_of r; ra_cluster a) with
  | Some (CSCluster name) => [name]
  | Some (CSWeighted cs) => map cw_name cs
  | _ => []
  end.

Lemma appendClusterNames_eq acc (r : Route) : appendClusterNames acc r = foldl appendClusterName acc (route_clusters r).
Proof. unfold appendClusterNames, route_clusters. by destruct (_ ≫= _) as [[n|cs|x]|]. Qed.

(** The names collected so far: distinct, non-empty, and the set of seen ones. *)
Definition names_ok (l : list string) (acc : list string * gset string) : Prop :=
  NoDup acc.1 ∧ (∀ n, n ∈ acc.2 ↔ n ∈ acc.1) ∧ (∀ n, n ∈ acc.1 ↔ n ≠ "" ∧ n ∈ l).

Lemma append_name_ok l acc name : names_ok l acc → names_ok (l ++ [name]) (appendClusterName acc name).
Proof.
  intros (Hn & Hs & Hl). unfold appendClusterName. destruct (String.eqb_spec name "") as [->|Hne].
  { split; [done|]. split; [done|]. intros n. rewrite Hl, elem_of_app, list_elem_of_singleton. naive_solver. }
  destruct (bool_decide (name ∈ acc.2)) eqn:E.
  - apply bool_decide_eq_true in E. split; [done|]. split; [done|]. intros n.
    rewrite Hl, elem_of_app, list_elem_of_singleton. split; [naive_solver|]. intros [? [?|H]]; [done|]. subst n.
    by apply Hl, Hs.
  - apply bool_decide_eq_false in E. cbn [fst snd]. split; [|split].
    + apply NoDup_app. split; [done|]. split; [|apply NoDup_singleton]. intros n Hin ->%list_elem_of_singleton. by apply E, Hs.
    + intros n. cbn [snd fst]. rewrite elem_of_union, elem_of_singleton, elem_of_app, list_elem_of_singleton, Hs. tauto.
    + intros n. cbn [fst]. rewrite !elem_of_app, !list_elem_of_singleton, Hl. naive_solver.
Qed.

Lemma append_names_ok l acc names : names_ok l acc → names_ok (l ++ names) (foldl appendClusterName acc names).
Proof.
  revert l acc. induction names as [|n names IH]; intros l acc H; [by rewrite app_nil_r|].
  cbn [foldl]. rewrite cons_middle, app_assoc. by apply IH, append_name_ok.
Qed.

Lemma add_clusters (l : list (EnvoyCluster Cfg Rest)) (b : ConfigBuilder Cfg Hdr Rest) :
  let b' := foldl (λ b c, AddCluster c b) b l in cb_routes b' = cb_routes b ∧ cb_clusters b' = cb_clusters b ++ l.
Proof.
  cbv zeta. revert b. induction l as [|c l IH]; intros b; [by rewrite app_nil_r|]. cbn [foldl].
  destruct (IH (AddCluster c b)) as [-> ->]. cbn [AddCluster cb_routes cb_clusters]. by rewrite <- app_assoc.
Qed.

(** The bootstrap of a batch of routes has the routes in order and exactly one stub for every
    cluster they name. *)
Lemma full_routes_bootstrap (routes : list Route) :
  let b := full_routes_builder routes in
  cb_routes b = routes ∧ NoDup (map ec_name (cb_clusters b)) ∧
  ∀ n, n ∈ map ec_name (cb_clusters b) ↔ n ≠ "" ∧ n ∈ flat_map route_clusters routes.
Proof.
  cbv zeta. unfold full_routes_builder.
  assert (∀ st done, names_ok (flat_map route_clusters done) st.2 → cb_routes st.1 = done → cb_clusters st.1 = [] →
    let st' := foldl (λ st (r : Route), (AddRoute r st.1, appendClusterNames st.2 r)) st routes in
    names_ok (flat_map route_clusters (done ++ routes)) st'.2 ∧ cb_routes st'.1 = done ++ routes ∧ cb_clusters st'.1 = []) as H.
  { induction routes as [|r rs IH]; intros [b acc] dn Hok Hr Hc; cbn [foldl fst snd] in *; [by rewrite app_nil_r|].
    rewrite cons_middle, app_assoc. apply IH; cbn [fst snd].
    - rewrite flat_map_app, appendClusterNames_eq. cbn [flat_map]. rewrite app_nil_r. by apply append_names_ok.
    - cbn [AddRoute cb_routes]. by rewrite Hr.
    - done. }
  destruct (H (New, ([], ∅)) []) as (Hok & Hr & Hc); [|done..|].
  { split; [constructor|]. split; [set_solver|]. intros n. split; [by intros ?%not_elem_of_nil|by intros [_ ?%not_elem_of_nil]]. }
  cbn [app] in *. destruct (foldl _ _ _) as [b acc]. cbn [fst snd] in *.
  destruct (add_clusters (createStubClusters acc.1) b) as [-> ->]. rewrite Hc, Hr. cbn [app]. split; [done|].
  destruct Hok as (Hn & _ & Hl). unfold createStubClusters.
  assert (map ec_name (map stub_cluster (filter (λ n, n ≠ "") acc.1)) = acc.1 :> list string) as ->; [|done].
  rewrite map_map. cbn [stub_cluster ec_name]. rewrite map_id. apply filter_keeps. intros n ?%Hl. tauto.
Qed.

End stubs.

(** ** Witnesses *)

#[local] Instance ex_syntax : GoSyntax := {|
  url_Parse_Path s := inr s;
  regexp_Compile r := if contains r "[" then Some (EMsg "missing closing ]") else None |}.

(** An evaluator of matches that satisfies the laws, with literal regular expressions. *)
Definition ex_spec (spec : MatchSpecifier) (v : option string) : bool :=
  match spec with
  | MPresent present => eqb present (bool_decide (is_Some v))
  | MString (Some (SMExact s)) => bool_decide (v = Some s)
  | MString (Some (SMRegex (Some r))) => match v with Some x => String.eqb r x | None => false end
  | _ => false
  end.

#[local] Instance ex_matching : EnvoyMatching := {|
  regex_full_match := String.eqb;
  path_matches p rq :=
    match p with
    | PSPrefix s => has_prefix (rq_path rq) s
    | PSSeparated s => String.eqb (rq_path rq) s || has_prefix (rq_path rq) (s +:+ "/")
    | PSPath s => String.eqb (rq_path rq) s
    | PSRegex (Some r) => String.eqb r (rq_path rq)
    | PSConnect => String.eqb (rq_method rq) "CONNECT"
    | _ => false
    end;
  header_matches h rq := ex_spec (nmt_spec h) (header_value rq (nmt_name h));
  query_matches h rq := ex_spec (nmt_spec h) (rq_query rq !! nmt_name h) |}.

#[local] Instance ex_matching_laws : EnvoyMatchingLaws.
Proof.
  split; try done; intros [name spec] rq; cbn [nmt_spec nmt_name header_matches query_matches ex_matching];
    by destruct spec as [b|[[| | [|]|]|]|].
Qed.

Definition ex_match : HTTPRouteMatch :=
  mkMatch (Some (mkPath (Some PathPrefix) (Some "/shop/"))) [mkNM None "X-Tenant" "blue"]
    [mkNM (Some "RegularExpression") "page" "1"] (Some "GET").
Definition ex_request (path : string) : Request := mkRq "GET" path {[ "x-tenant" := "blue" ]} {[ "page" := "1" ]}.

Lemma ex_match_wf : match_wf ex_match.
Proof.
  split.
  - intros _. split; vm_compute; reflexivity.
  - cbn. apply NoDup_singleton.
  - repeat constructor; discriminate.
  - repeat constructor; discriminate.
Qed.

Lemma translated_match_exact_witness :
  envoy_matches (translateMatcher ex_match) (ex_request "/shop/cart") = true ∧
  gateway_matches ex_match (ex_request "/shop/cart") = true ∧
  gateway_matches ex_match (ex_request "/shops") = false.
Proof.
  split; [|split; vm_compute; reflexivity].
  rewrite (proj2 (translated_match_exact ex_match (ex_request "/shop/cart") ex_match_wf (or_introl eq_refl))
    (NoDup_singleton _)).
  vm_compute. reflexivity.
Defined.

(** Two entries for equivalent names: by the API the first alone counts and the request is
    described by the match, but the generated matcher requires both and rejects it. *)
Definition twice_named : HTTPRouteMatch :=
  mkMatch None [mkNM None "foo" "a"; mkNM None "Foo" "b"] [] None.

Theorem equivalent_headers_all_required :
  let rq := mkRq "GET" "/" {[ "foo" := "a" ]} ∅ in
  NoDup (map nm_name (m_headers twice_named)) ∧ gateway_matches twice_named rq = true ∧
  envoy_matches (translateMatcher twice_named) rq = false.
Proof. split; [|split; vm_compute; reflexivity]. apply (bool_decide_unpack _). by vm_compute. Qed.

Lemma generated_matcher_decided_witness :
  ∃ verdict, validateGeneratedMatcher (Some (translateMatcher ex_match)) = (true, verdict) ∧
    (verdict = None ↔ Forall (λ r, regexp_Compile r = None) (match_regexes ex_match)).
Proof. exact (generated_matcher_decided ex_match eq_refl (λ s H, ltac:(discriminate H))). Defined.
