(* ===== verification/RouteConfig.v ===== *)
(** * Route configurations (translator/irtranslator/route.go and policy.go)

    From the virtual hosts of a filter chain to Envoy's route configuration: every rule
    becomes a route to which backends and plugins contribute; invalid policies and routes
    that would be refused are replaced by direct responses or dropped; the status of policies,
    routes and listeners is reported on the way.

    Plugins are records of functions.  They keep state during a translation, of the opaque
    type [S], and change the messages they are given; both are threaded by the monad [T],
    which also collects the calls on the reporter.  Rules have a source route: synthetic rules
    of other translators are not modelled. *)

From S2P Require Import Prelude Reports IR SortableRoute Delegation Query References PolicyIndex.
From S2P Require Import ListenerValidation GatewayIndex ListenerTranslator EnvoyRoute.

(** ** Calls on the reporter *)

Inductive RTEvent :=
| EvPolicyCondition (k : PolicyKey) (generation : Z) (ancestor : ParentReference) (c : metav1_Condition)
| EvPolicyState (k : PolicyKey) (generation : Z) (ancestor : ParentReference) (s : Z)
| EvRouteParent (route : ObjectSource) (ref : ParentReference)
| EvRouteCondition (route : ObjectSource) (ref : ParentReference) (c : metav1_Condition)
| EvReport (r : Report).

(** ** Errors *)

(** [errors.Join]. *)
Definition errors_join (l : list (option error)) : option error :=
  match omap id l with [] => None | es => Some (EJoin es) end.

(** [errors.As(err, *PolicyError)]: the first one in the tree. *)
Fixpoint find_policy_error (e : error) : option (option AttachedPolicyRef * error) :=
  match e with
  | EPolicy r e' => Some (r, e')
  | EWrap _ e' => find_policy_error e'
  | EWrap2 e1 _ e2 => match find_policy_error e1 with Some x => Some x | None => find_policy_error e2 end
  | EJoin es => head (omap find_policy_error es)
  | _ => None
  end.

(** The items of [summarizeRuleErrors]: reference, message, rendered text. *)
Definition error_item (e : error) : string * string * string :=
  match find_policy_error e with
  | Some (ref, e') => (match ref with Some r => apr_id_section r | None => "" end, err_text e', err_text e)
  | None => ("", err_text e, err_text e)
  end.

Definition item_step (acc : list (string * string) * list (string * string * string)) (e : error) :
    list (string * string) * list (string * string * string) :=
  let it := error_item e in
  if bool_decide (it.1 ∈ acc.1) then acc else (it.1 :: acc.1, acc.2 ++ [it]).

Definition item_cmp : string * string * string → string * string * string → comparison :=
  (cmp_on (λ it, it.1.1) String.compare ▷ cmp_on (λ it, it.1.2) String.compare)%cmp.

(** [summarizeRuleErrors].  Keys are distinct, so the unstable sort has one result. *)
Definition summarizeRuleErrors (err : option error) : string :=
  match err with
  | None => ""
  | Some e =>
      join newline (map snd (sort_stable item_cmp (foldl item_step ([], []) (FlattenJoinedErr e)).2))
  end.

(** ** Status of policies (policy.go) *)

Section status.
Context {P : Type}.

(** [PolicyAtt.FormatErrors]. *)
Definition FormatErrors (p : PolicyAtt P) : string := join "; " (map err_text (pa_errors p)).

Definition policy_key (r : AttachedPolicyRef) : PolicyKey :=
  mkPK (apr_group r) (apr_kind r) (apr_namespace r) (apr_name r).

Definition policy_condition (p : PolicyAtt P) (type status reason message : string) : metav1_Condition :=
  mkMC type status reason message (pa_generation p) 0.

Definition acceptance_events (ancestor : ParentReference) (p : PolicyAtt P) : list RTEvent :=
  match pa_ref p with
  | None => []
  | Some r =>
      [EvPolicyCondition (policy_key r) (pa_generation p) ancestor
         (match pa_errors p with
          | _ :: _ => policy_condition p "Accepted" "False" "Invalid" (FormatErrors p)
          | [] => policy_condition p "Accepted" "True" "Valid" "Policy accepted"
          end)]
  end.

Definition reportPolicyAcceptanceStatus (ancestor : ParentReference) (l : list (PolicyAtt P)) : list RTEvent :=
  flat_map (acceptance_events ancestor) l.

(** The attachment state of a policy in a merge. *)
Definition attachment_state (origins : MergeOrigins) (r : AttachedPolicyRef) : Z :=
  if bool_decide (origins = ∅) then PolicyAttachmentStateAttached
  else match mo_ref_count origins (Some r) with
       | RefCountNone => PolicyAttachmentStateOverridden
       | RefCountPartial => PolicyAttachmentStateMerged
       | RefCountAll => PolicyAttachmentStateAttached
       end.

Definition attachment_events (ancestor : ParentReference) (origins : MergeOrigins) (p : PolicyAtt P) : list RTEvent :=
  match pa_errors p with
  | _ :: _ => []
  | [] =>
      match pa_ref p with
      | None => []
      | Some r => [EvPolicyState (policy_key r) (pa_generation p) ancestor (attachment_state origins r)]
      end
  end.

Definition reportPolicyAttachmentStatus (ancestor : ParentReference) (origins : MergeOrigins)
    (l : list (PolicyAtt P)) : list RTEvent :=
  flat_map (attachment_events ancestor origins) l.

Definition addMergeOriginsToFilterMetadata {Rest} (gk : GroupKind) (origins : MergeOrigins)
    (metadata : gmap string (@MetaStruct Rest)) : gmap string (@MetaStruct Rest) :=
  if bool_decide (origins = ∅) then metadata else <["merge." +:+ gk_string gk := MOrigins origins]> metadata.

Definition str_field (key v : string) (m : gmap string string) : gmap string string :=
  if String.eqb v "" then m else <[key := v]> m.

(** The fields of [addRouteSourceMetadata]. *)
Definition route_source_fields (rule : HttpRouteRuleMatchIR P) : gmap string string :=
  let src := hr_source (rm_parent rule) in
  let m := str_field "namespace" (os_namespace src) (str_field "name" (os_name src)
             (str_field "group" (os_group src) (str_field "kind" (os_kind src) ∅))) in
  let m := if negb (String.eqb (rm_rule_name rule) "") then <["rule" := rm_rule_name rule]> m
           else if negb (String.eqb (rm_name rule) "") then <["rule" := "_rule-" +:+ pretty (rm_rule_index rule)]> m
           else m in
  if negb (String.eqb (rm_name rule) "") then <["match" := "_match-" +:+ pretty (rm_match_index rule)]> m else m.

Definition addRouteSourceMetadata {Rest} (rule : HttpRouteRuleMatchIR P)
    (metadata : gmap string (@MetaStruct Rest)) : gmap string (@MetaStruct Rest) :=
  let fields := route_source_fields rule in
  if bool_decide (fields = ∅) then metadata else <["dev.kgateway.route_source" := MSource fields]> metadata.

(** [ApplyOrderedGroupKinds]: built-in kinds first, then in the order of the map. *)
Definition kind_cmp (a b : GroupKind) : comparison :=
  if String.eqb (gk_group a) (gk_group VirtualBuiltInGK) then Lt
  else if String.eqb (gk_group b) (gk_group VirtualBuiltInGK) then Gt else Eq.

Definition ApplyOrderedGroupKinds (iter_kinds : AttachedPolicies P → list GroupKind) (a : AttachedPolicies P) :
    list GroupKind := sort_stable kind_cmp (iter_kinds a).

(** [routeAncestorRef]. *)
Definition routeAncestorRef (rule : HttpRouteRuleMatchIR P) (fallbackRef : ParentReference) : ParentReference :=
  if String.eqb (pr_name (rm_listener_parent_ref rule)) "" then fallbackRef else rm_listener_parent_ref rule.

(** [getReporterForFilterChain]: whose listener the reporter is for. *)
Definition getReporterForFilterChain (gw : @GatewayIndex.Gateway P) (filterChainName : string) : Parent * string :=
  match head (filter (λ l, listener_key l = filterChainName) (g_listeners gw)) with
  | None => (g_obj gw, filterChainName)
  | Some l => (il_parent l, l_name (il_listener l))
  end.

(** [reportRouteConfigPolicyErrors]. *)
Definition route_config_error_events (gw : @GatewayIndex.Gateway P) (ancestor : ParentReference) (routeConfigName : string)
    (p : PolicyAtt P) : list RTEvent :=
  match pa_ref p with
  | None => []
  | Some r =>
      match pa_errors p with
      | [] => []
      | _ =>
          if negb (String.eqb (apr_section r) "") || bool_decide (pr_kind ancestor = Some "XListenerSet")
          then let '(par, name) := getReporterForFilterChain gw routeConfigName in
               [EvReport (RListenerCondition par name (mkCond "Accepted" false "ListenerReplaced" (FormatErrors p)))]
          else [EvReport (RParentCondition (g_obj gw) (mkCond "Accepted" false "GatewayReplaced" (FormatErrors p)))]
      end
  end.

Definition reportRouteConfigPolicyErrors (gw : @GatewayIndex.Gateway P) (ancestor : ParentReference) (routeConfigName : string)
    (l : list (PolicyAtt P)) : list RTEvent :=
  flat_map (route_config_error_events gw ancestor routeConfigName) l.

End status.

(** ** Messages and contexts *)

Section messages.
Context {P Msg Cfg Hdr Rest : Type}.
Abbreviation Route := (EnvoyRoute Cfg Hdr Rest).

Record EnvoyVirtualHost := mkEVH {
  ev_name : string; ev_domains : list string; ev_routes : list Route; ev_require_tls : bool;
  ev_metadata : gmap string (@MetaStruct Rest); ev_config : gmap string Cfg; ev_rest : option Rest }.

Record RouteConfiguration := mkRCfg {
  rcf_name : string; rcf_vhosts : list EnvoyVirtualHost; rcf_ignore_port : bool;
  rcf_metadata : gmap string (@MetaStruct Rest); rcf_config : gmap string Cfg; rcf_rest : option Rest }.

(** [TypedFilterConfigMap]: messages by filter name. *)
Abbreviation Typed := (gmap string Msg).

Record RouteContext := mkRCtx {
  rx_chain : string; rx_policy : P; rx_class : string; rx_in : HttpRouteRuleMatchIR P; rx_port : Z;
  rx_tls : bool; rx_inherited : InheritedPolicyPriorityValue }.

(** [VirtualHostContext] and [RouteConfigContext]. *)
Record ScopeContext := mkSCtx { sx_chain : string; sx_policy : P; sx_class : string }.

(** [RouteBackendContext]: what plugins read, and what they write. *)
Record BackendContext := mkBCtx { bx_chain : string; bx_class : string; bx_backend : option (BackendObjectIR P) }.
Record BackendOut := mkBOut { bo_typed : Typed; bo_edits : HeaderEdits Hdr }.

(** [TranslationPass]: the hooks the route translation calls. *)
Record TranslationPass (S : Type) := mkPass {
  tp_merge : option (list (PolicyAtt P) → PolicyAtt P);
  tp_route_config : ScopeContext → RouteConfiguration * Typed * S → RouteConfiguration * Typed * S;
  tp_vhost : ScopeContext → EnvoyVirtualHost * Typed * S → EnvoyVirtualHost * Typed * S;
  tp_route : RouteContext → Route * Typed * S → option error * (Route * Typed * S);
  tp_backend : BackendContext → BackendRefIR P * AttachedPolicies P → Route * BackendOut * S → option error * (Route * BackendOut * S);
  tp_route_backend : P → BackendContext → BackendOut * S → option error * (BackendOut * S) }.

(** [mergePolicies]. *)
Definition mergePolicies {S} (pass : TranslationPass S) (l : list (PolicyAtt P)) : list (PolicyAtt P) * MergeOrigins :=
  match tp_merge S pass with
  | Some merge => let m := merge l in ([m], pa_origins m)
  | None => (l, ∅)
  end.

(** [setFallBackConfig]. *)
Definition directResponseActionBody : string :=
  "invalid route configuration detected and replaced with a direct response.".

Definition direct_500 : Action Cfg Hdr Rest := ADirectResponse 500 directResponseActionBody.

Definition setFallBackConfig (name domain : string) : EnvoyVirtualHost :=
  mkEVH name [domain]
    [mkER "" (Some (mkRM (Some (PSPrefix "/")) [] [] false)) (Some direct_500) ∅ ∅ no_edits None]
    false ∅ ∅ None.

(** *** Field updates *)
Definition er_with_action (a : option (Action Cfg Hdr Rest)) (r : Route) : Route :=
  mkER (er_name r) (er_match r) a (er_metadata r) (er_config r) (er_edits r) (er_rest r).
Definition er_with_metadata m (r : Route) : Route :=
  mkER (er_name r) (er_match r) (er_action r) m (er_config r) (er_edits r) (er_rest r).
Definition er_with_config c (r : Route) : Route :=
  mkER (er_name r) (er_match r) (er_action r) (er_metadata r) c (er_edits r) (er_rest r).
Definition er_with_edits e (r : Route) : Route :=
  mkER (er_name r) (er_match r) (er_action r) (er_metadata r) (er_config r) e (er_rest r).
Definition ev_with_metadata m (v : EnvoyVirtualHost) : EnvoyVirtualHost :=
  mkEVH (ev_name v) (ev_domains v) (ev_routes v) (ev_require_tls v) m (ev_config v) (ev_rest v).
Definition ev_with_config c (v : EnvoyVirtualHost) : EnvoyVirtualHost :=
  mkEVH (ev_name v) (ev_domains v) (ev_routes v) (ev_require_tls v) (ev_metadata v) c (ev_rest v).
Definition ev_with_routes rs (v : EnvoyVirtualHost) : EnvoyVirtualHost :=
  mkEVH (ev_name v) (ev_domains v) rs (ev_require_tls v) (ev_metadata v) (ev_config v) (ev_rest v).
Definition rcf_with_metadata m (c : RouteConfiguration) : RouteConfiguration :=
  mkRCfg (rcf_name c) (rcf_vhosts c) (rcf_ignore_port c) m (rcf_config c) (rcf_rest c).
Definition rcf_with_config m (c : RouteConfiguration) : RouteConfiguration :=
  mkRCfg (rcf_name c) (rcf_vhosts c) (rcf_ignore_port c) (rcf_metadata c) m (rcf_rest c).
Definition rcf_with_vhosts vs (c : RouteConfiguration) : RouteConfiguration :=
  mkRCfg (rcf_name c) vs (rcf_ignore_port c) (rcf_metadata c) (rcf_config c) (rcf_rest c).

Definition append_edits (a b : HeaderEdits Hdr) : HeaderEdits Hdr :=
  mkHE (he_request_add a ++ he_request_add b) (he_request_remove a ++ he_request_remove b)
    (he_response_add a ++ he_response_add b) (he_response_remove a ++ he_response_remove b).

End messages.

(** ** The monad *)

Definition T (S A : Type) : Type := S → A * S * list RTEvent.

Section monad.
Context {S : Type}.
Definition tret {A} (a : A) : T S A := λ s, (a, s, []).
Definition tbind {A B} (m : T S A) (f : A → T S B) : T S B :=
  λ s, let '(a, s1, l1) := m s in let '(b, s2, l2) := f a s1 in (b, s2, l1 ++ l2).
Definition log (l : list RTEvent) : T S unit := λ s, (tt, s, l).
(** Calls of hooks. *)
Definition hook {A B} (f : A * S → B * (A * S)) (a : A) : T S (B * A) :=
  λ s, let '(b, (a', s')) := f (a, s) in ((b, a'), s', []).
Fixpoint tfold {A B} (f : B → A → T S B) (b : B) (l : list A) : T S B :=
  match l with [] => tret b | x :: l' => tbind (f b x) (λ b', tfold f b' l') end.
Fixpoint tmap {A B} (f : A → T S B) (l : list A) : T S (list B) :=
  match l with [] => tret [] | x :: l' => tbind (f x) (λ y, tbind (tmap f l') (λ ys, tret (y :: ys))) end.
End monad.

Declare Scope pass_scope.
Delimit Scope pass_scope with pass.
Notation "x <~ m ; k" := (tbind m (λ x, k)) (at level 20, m at level 100, k at level 200) : pass_scope.
Notation "' pat <~ m ; k" := (tbind m (λ pat, k)) (at level 20, pat pattern, m at level 100, k at level 200) : pass_scope.

Section translator.
#[local] Open Scope pass_scope.
Context {P Msg Cfg Hdr Rest S : Type} `{EL : EnvoyLib Cfg Hdr Rest} `{GS : GoSyntax}.
Abbreviation Route := (EnvoyRoute Cfg Hdr Rest).
Abbreviation Rule := (HttpRouteRuleMatchIR P).
Abbreviation Typed := (gmap string Msg).
Abbreviation Pass := (@TranslationPass P Msg Cfg Hdr Rest S).
Abbreviation VHost := (@EnvoyVirtualHost Cfg Hdr Rest).
Abbreviation RConfig := (@RouteConfiguration Cfg Hdr Rest).

(** Marshalling of a message, the order in which kinds are ranged over, the conditions of a
    BackendTLSPolicy (plugins/backendtlspolicy). *)
Context (MessageToAny : Msg → error + Cfg) (iter_kinds : AttachedPolicies P → list GroupKind).
Context (BuildPolicyConditions : PolicyAtt P → option (PolicyAtt P) → list metav1_Condition).

(** [httpRouteConfigurationTranslator]. *)
Record HttpRouteConfigurationTranslator := mkHT {
  ht_gw : @GatewayIndex.Gateway P;
  ht_class : string;
  ht_bind_port : Z;
  ht_ancestor : ParentReference;
  ht_chain : string;
  ht_has_tls : bool;
  ht_policies : AttachedPolicies P;
  ht_route_config_name : string;
  ht_require_tls : bool;
  ht_passes : gmap GroupKind Pass;
  ht_mode : ValidationMode;
  ht_source_metadata : bool }.
Context (h : HttpRouteConfigurationTranslator).

(** [ToAnyMap]: messages that do not marshal are left out. *)
Definition ToAnyMap (t : Typed) : gmap string Cfg :=
  omap (λ m, match MessageToAny m with inr c => Some c | inl _ => None end) t.

(** [reportBackendObjectPolicyStatus]. *)
Definition reportBackendObjectPolicyStatus (ancestor : ParentReference) (backend : option (BackendObjectIR P)) :
    list RTEvent :=
  match backend with
  | None => []
  | Some b =>
      match ap_get (bo_policies b) BackendTLSPolicyGK with
      | [] => []
      | (p0 :: _) as pols =>
          let effective :=
            match ht_passes h !! BackendTLSPolicyGK with
            | Some pass => default p0 (head (mergePolicies pass pols).1)
            | None => p0
            end in
          flat_map (λ p, match pa_ref p with
                         | None => []
                         | Some r => map (EvPolicyCondition (policy_key r) (pa_generation p) ancestor)
                                         (BuildPolicyConditions p (Some effective))
                         end) pols
      end
  end.

(** *** Backends *)

(** [runBackend]. *)
Definition runBackend (pctx : BackendContext) (b : BackendRefIR P * AttachedPolicies P) (st : Route * @BackendOut Msg Hdr) :
    T S (option error * (Route * @BackendOut Msg Hdr)) :=
  match br_object b.1 ≫= λ o, ht_passes h !! os_gk (bo_source o) with
  | Some pass => hook (tp_backend S pass pctx b) st
  | None => tret (None, st)
  end.

(** [runBackendPolicies]; the errors it returns are only logged. *)
Definition runBackendPolicies (ancestor : ParentReference) (pctx : @BackendContext P) (b : BackendRefIR P * AttachedPolicies P)
    (out : @BackendOut Msg Hdr) : T S (@BackendOut Msg Hdr) :=
  tfold (λ out gk,
    let pols := ap_get b.2 gk in
    match ht_passes h !! gk with
    | None => tret out
    | Some pass =>
        _ <~ log (reportPolicyAcceptanceStatus ancestor pols);
        tfold (λ out pol, r <~ hook (tp_route_backend S pass (pa_ir pol) pctx) out; tret r.2)
          out (mergePolicies pass pols).1
    end) out (ApplyOrderedGroupKinds iter_kinds b.2).

(** One backend of [translateRouteAction]: the cluster weight, the route the backend plugin may
    have changed, and the configuration and headers it left in the context. *)
Definition translate_backend (rule : Rule) (parentCtx : option (@BackendOut Msg Hdr)) (outRoute : Route)
    (b : BackendRefIR P * AttachedPolicies P) : T S (ClusterWeight Cfg Hdr * Route * @BackendOut Msg Hdr) :=
  let backendConfigCtx := default (mkBOut ∅ no_edits) parentCtx in
  let pctx := mkBCtx (ht_chain h) (ht_class h) (br_object b.1) in
  let ancestor := routeAncestorRef rule (ht_ancestor h) in
  _ <~ log (reportBackendObjectPolicyStatus ancestor (br_object b.1));
  r <~ runBackend pctx b (outRoute, mkBOut (bo_typed backendConfigCtx) no_edits);
  let '(outRoute, out) := r.2 in
  out <~ runBackendPolicies ancestor pctx b out;
  tret (mkCW (br_cluster b.1) (br_weight b.1) (ToAnyMap (bo_typed out)) (bo_edits out), outRoute, out).

Definition backend_step (rule : Rule) (single : bool) (acc : list (ClusterWeight Cfg Hdr) * Route * @BackendOut Msg Hdr)
    (b : BackendRefIR P * AttachedPolicies P) : T S (list (ClusterWeight Cfg Hdr) * Route * @BackendOut Msg Hdr) :=
  let '(clusters, outRoute, ctx) := acc in
  r <~ translate_backend rule (if single then Some ctx else None) outRoute b;
  let '(cw, outRoute, out) := r in
  tret (clusters ++ [cw], outRoute, if single then out else ctx).

Definition add_websocket (upgrades : list string) (b : BackendRefIR P * AttachedPolicies P) : list string :=
  match br_object b.1 with
  | Some back =>
      if String.eqb (bo_app_protocol back) "ws" && negb (bool_decide ("websocket" ∈ upgrades))
      then upgrades ++ ["websocket"] else upgrades
  | None => upgrades
  end.

(** [translateRouteAction]: the action, the route after the backend plugins, and the context of
    the single backend. *)
Definition translateRouteAction (rule : Rule) (outRoute : Route) (single : bool) (ctx : @BackendOut Msg Hdr) :
    T S (Action Cfg Hdr Rest * Route * @BackendOut Msg Hdr) :=
  r <~ tfold (backend_step rule single) ([], outRoute, ctx) (rm_backends rule);
  let '(clusters, outRoute, ctx) := r in
  let action := default (mkRA None true "" [] None None [] None None None) (route_action_of outRoute) in
  let spec := match ra_cluster action with
              | Some c => Some c
              | None => match clusters with
                        | [c] => Some (CSCluster (cw_name c))
                        | _ => Some (CSWeighted clusters)
                        end
              end in
  let upgrades := foldl add_websocket (ra_upgrades action) (rm_backends rule) in
  tret (ARoute (mkRA spec (ra_not_found_500 action) (ra_prefix_rewrite action) upgrades (ra_timeout action)
                 (ra_retry action) (ra_mirrors action) (ra_host_rewrite action) (ra_regex_rewrite action)
                 (ra_rest action)), outRoute, ctx).

(** *** Routes *)

(** [initRoutes]. *)
Definition initRoutes (rule : Rule) (generatedName : string) : Route :=
  let matchIdx := pretty (rm_match_index rule) in
  mkER (if String.eqb (rm_name rule) "" then generatedName +:+ "-matcher-" +:+ matchIdx
        else generatedName +:+ "-" +:+ rm_name rule +:+ "-matcher-" +:+ matchIdx)
    (Some (translateMatcher (rm_match rule))) None ∅ ∅ no_edits None.

(** The policies of the parents of a rule, each level with a lower priority. *)
Fixpoint delegating_policies (priority : Z) (a : AttachedPolicies P) (p : Rule) {struct p} : AttachedPolicies P :=
  let a' := ap_append_with_priority priority a [rm_extension_refs p; rm_policies p; hr_policies (rm_parent p)] in
  match rm_delegating_parent p with
  | None => a'
  | Some q => delegating_policies (priority - 1) a' q
  end.

Definition route_policies (rule : Rule) : AttachedPolicies P :=
  let a := ap_append (ap_append ∅ [rm_extension_refs rule; rm_policies rule]) [hr_policies (rm_parent rule)] in
  match rm_delegating_parent rule with None => a | Some p => delegating_policies (-1) a p end.

(** One policy of [runRoutePlugins]. *)
Definition route_policy_step (rule : Rule) (pass : Pass) (acc : list error * (Route * Typed)) (pol : PolicyAtt P) :
    T S (list error * (Route * Typed)) :=
  let '(errs, out) := acc in
  match pa_errors pol with
  | _ :: _ => tret (errs ++ WrapPolicyErrors (pa_ref pol) (pa_errors pol), out)
  | [] =>
      r <~ hook (tp_route S pass (mkRCtx (ht_chain h) (pa_ir pol) (ht_class h) rule (ht_bind_port h)
                                    (ht_has_tls h) (pa_inherited pol))) out;
      tret (match r.1 with Some e => errs ++ [e] | None => errs end, r.2)
  end.

Definition route_kind_step (rule : Rule) (policies : AttachedPolicies P) (acc : list error * (Route * Typed))
    (gk : GroupKind) : T S (list error * (Route * Typed)) :=
  let pols := ap_get policies gk in
  match ht_passes h !! gk with
  | None => tret acc
  | Some pass =>
      let ancestor := routeAncestorRef rule (ht_ancestor h) in
      let '(effective, origins) := mergePolicies pass pols in
      _ <~ log (reportPolicyAcceptanceStatus ancestor pols);
      acc <~ tfold (route_policy_step rule pass) acc effective;
      let '(errs, (out, typed)) := acc in
      _ <~ log (reportPolicyAttachmentStatus ancestor origins pols);
      tret (errs, (er_with_metadata (addMergeOriginsToFilterMetadata gk origins (er_metadata out)) out, typed))
  end.

(** [runRoutePlugins]. *)
Definition runRoutePlugins (rule : Rule) (out : Route) (typed : Typed) : T S (option error * (Route * Typed)) :=
  let policies := route_policies rule in
  r <~ tfold (route_kind_step rule policies) ([], (out, typed)) (ApplyOrderedGroupKinds iter_kinds policies);
  tret (errors_join (map Some r.1), r.2).

Definition programmed_false (rule : Rule) (reason message : string) : list RTEvent :=
  [EvRouteCondition (hr_source (rm_parent rule)) (rm_parent_ref rule)
     (cond KgatewayConditionProgrammed "False" reason message)].

(** The replacement of an invalid route in [finalizeRoute]. *)
Definition replace_invalid (out : Route) : Route :=
  match ht_mode h with
  | ValidationStandard | ValidationStrict =>
      mkER (er_name out) (er_match out) (Some direct_500) (er_metadata out) ∅ no_edits (er_rest out)
  | ValidationOther _ => out
  end.

(** [finalizeRoute]. *)
Definition finalizeRoute (rule : Rule) (out : Route) (routeProcessingErr : option error) : T S (option Route) :=
  let routeAcceptanceErr := errors_join [routeProcessingErr; rm_acceptance_error rule] in
  let routeReplacementErr := errors_join [routeProcessingErr; rm_replacement_error rule; routeAcceptanceErr] in
  if rm_delegates rule && bool_decide (routeAcceptanceErr = None) && bool_decide (routeReplacementErr = None)
  then tret None
  else
    let acceptanceMsg := summarizeRuleErrors routeAcceptanceErr in
    let idx := pretty (rm_match_index rule) in
    match routeAcceptanceErr with
    | Some e =>
        if err_is e ErrInvalidMatcher then
          _ <~ log (programmed_false rule "RouteRuleDropped" ("Dropped Rule (" +:+ idx +:+ "): " +:+ acceptanceMsg));
          tret None
        else
          _ <~ log (programmed_false rule "RouteRuleReplaced" ("Replaced Rule (" +:+ idx +:+ "): " +:+ acceptanceMsg));
          tret (Some (replace_invalid out))
    | None =>
        match routeReplacementErr with
        | Some _ => tret (Some (replace_invalid out))
        | None => tret (Some out)
        end
    end.

(** [envoyRoutes]. *)
Definition envoyRoutes (rule : Rule) (generatedName : string) : T S (option Route) :=
  let out := initRoutes rule generatedName in
  let out := if ht_source_metadata h then er_with_metadata (addRouteSourceMetadata rule (er_metadata out)) out else out in
  let ctx := mkBOut ∅ no_edits in
  r <~ match rm_backends rule with
       | [] => tret (out, ctx)
       | bs => r <~ translateRouteAction rule out (bool_decide (length bs = 1)) ctx;
               let '(action, out, ctx) := r in tret (er_with_action (Some action) out, ctx)
       end;
  let '(out, ctx) := r in
  r <~ runRoutePlugins rule out (bo_typed ctx);
  let '(routeProcessingErr, (out, typed)) := r in
  let out := er_with_edits (append_edits (er_edits out) (bo_edits ctx))
               (er_with_config (er_config out ∪ ToAnyMap typed) out) in
  let routeProcessingErr :=
    if rm_delegates rule then routeProcessingErr
    else match routeProcessingErr with
         | Some e => Some e
         | None => match er_action out with
                   | None => Some (EMsg "no action specified")
                   | Some _ => validateRoutePreEnvoy out (ht_mode h)
                   end
         end in
  finalizeRoute rule out routeProcessingErr.

(** *** Virtual hosts *)

Definition zero_ref : ParentReference := mkPR None None None "" None None.

Definition vhost_ancestor (vh : @VirtualHost P) : ParentReference :=
  match vh_parent vh with Some l => le_ancestor (il_extra l) | None => zero_ref end.

(** The condition a virtual host leaves on its listener.  Only HTTP listeners have policies on
    their virtual hosts, and those have a parent. *)
Definition listener_replaced (vh : @VirtualHost P) (message : string) : list RTEvent :=
  match vh_parent vh with
  | Some l => [EvReport (RListenerCondition (il_parent l) (l_name (il_listener l))
                           (mkCond "Accepted" false "ListenerReplaced" message))]
  | None => []
  end.

(** One policy of [runVhostPlugins]. *)
Definition vhost_policy_step (pass : Pass) (acc : list error * (VHost * Typed)) (pol : PolicyAtt P) :
    T S (list error * (VHost * Typed)) :=
  let '(errs, out) := acc in
  match pa_errors pol with
  | _ :: _ => tret (errs ++ WrapPolicyErrors (pa_ref pol) (pa_errors pol), out)
  | [] =>
      r <~ hook (λ x, (tt, tp_vhost S pass (mkSCtx (ht_chain h) (pa_ir pol) (ht_class h)) x)) out;
      tret (errs, r.2)
  end.

Definition vhost_kind_step (vh : @VirtualHost P) (acc : list error * (VHost * Typed)) (gk : GroupKind) :
    T S (list error * (VHost * Typed)) :=
  let pols := ap_get (vh_policies vh) gk in
  match ht_passes h !! gk with
  | None => tret acc
  | Some pass =>
      let '(effective, origins) := mergePolicies pass pols in
      _ <~ log (reportPolicyAcceptanceStatus (vhost_ancestor vh) pols);
      acc <~ tfold (vhost_policy_step pass) acc effective;
      let '(errs, (out, typed)) := acc in
      _ <~ log (reportPolicyAttachmentStatus (vhost_ancestor vh) origins pols);
      tret (errs, (ev_with_metadata (addMergeOriginsToFilterMetadata gk origins (ev_metadata out)) out, typed))
  end.

(** [runVhostPlugins]. *)
Definition runVhostPlugins (vh : @VirtualHost P) (out : VHost) (typed : Typed) : T S (option error * (VHost * Typed)) :=
  r <~ tfold (vhost_kind_step vh) ([], (out, typed)) (ApplyOrderedGroupKinds iter_kinds (vh_policies vh));
  tret (errors_join (map Some r.1), r.2).

(** One route of the isolation in [validateStrictRouteBatch]. *)
Definition isolate_route (cr : Rule * Route) : T S (option Route) :=
  match validateRoute cr.2 (ht_mode h) with
  | Some err => finalizeRoute cr.1 cr.2 (Some err)
  | None => tret (Some cr.2)
  end.

(** [validateStrictRouteBatch].  The routes computed for the rules are those of the virtual
    host: plugins change them in place and leave the list alone. *)
Definition validateStrictRouteBatch (vh : @VirtualHost P) (out : VHost) (computedRules : list Rule) : T S VHost :=
  match ht_mode h with
  | ValidationStrict =>
      if bool_decide (length (ev_routes out) = 0) then tret out
      else match validateFullRoutes (ev_routes out) with
           | None => tret out
           | Some _ =>
               isolated <~ tmap isolate_route (zip computedRules (ev_routes out));
               let out := ev_with_routes (omap id isolated) out in
               if bool_decide (length (ev_routes out) = 0) then tret out
               else match validateFullRoutes (ev_routes out) with
                    | None => tret out
                    | Some err =>
                        _ <~ log (listener_replaced vh (err_text err));
                        tret (setFallBackConfig (ev_name out) (default "*" (head (ev_domains out))))
                    end
           end
  | _ => tret out
  end.

(** The rules of a virtual host with their routes, those without one dropped. *)
Definition compute_rule (vhName : string) (ir : nat * Rule) : T S (option (Rule * Route)) :=
  _ <~ log [EvRouteParent (hr_source (rm_parent ir.2)) (rm_parent_ref ir.2)];
  r <~ envoyRoutes ir.2 (vhName +:+ "-route-" +:+ pretty ir.1);
  tret ((λ route, (ir.2, route)) <$> r).

Definition vhost_domains (vh : @VirtualHost P) : list string :=
  if String.eqb (vh_hostname vh) "" then ["*"] else [vh_hostname vh].

(** [computeVirtualHost]. *)
Definition computeVirtualHost (vh : @VirtualHost P) : T S VHost :=
  let sanitizedName := SanitizeForEnvoy (vh_name vh) in
  computed <~ tmap (compute_rule (vh_name vh)) (imap pair (vh_rules vh));
  let computed := omap id computed in
  let out := mkEVH sanitizedName (vhost_domains vh) (map snd computed) (ht_require_tls h) ∅ ∅ None in
  r <~ runVhostPlugins vh out ∅;
  let '(err, (out, typed)) := r in
  match err with
  | Some err =>
      _ <~ log (listener_replaced vh (err_text err));
      tret (setFallBackConfig sanitizedName (default "*" (head (vhost_domains vh))))
  | None =>
      validateStrictRouteBatch vh (ev_with_config (ToAnyMap typed) out) (map fst computed)
  end.

(** *** Route configurations *)

Definition route_config_policy_step (pass : Pass) (acc : list error * (RConfig * Typed)) (pol : PolicyAtt P) :
    T S (list error * (RConfig * Typed)) :=
  let '(errs, out) := acc in
  match pa_errors pol with
  | _ :: _ => tret (errs ++ WrapPolicyErrors (pa_ref pol) (pa_errors pol), out)
  | [] =>
      r <~ hook (λ x, (tt, tp_route_config S pass (mkSCtx (ht_chain h) (pa_ir pol) (ht_class h)) x)) out;
      tret (errs, r.2)
  end.

Definition route_config_kind_step (policies : AttachedPolicies P) (acc : list error * (RConfig * Typed))
    (gk : GroupKind) : T S (list error * (RConfig * Typed)) :=
  let pols := ap_get policies gk in
  match ht_passes h !! gk with
  | None => tret acc
  | Some pass =>
      let '(effective, origins) := mergePolicies pass pols in
      _ <~ log (reportPolicyAcceptanceStatus (ht_ancestor h) pols);
      _ <~ log (reportRouteConfigPolicyErrors (ht_gw h) (ht_ancestor h) (ht_route_config_name h) pols);
      acc <~ tfold (route_config_policy_step pass) acc effective;
      let '(errs, (out, typed)) := acc in
      _ <~ log (reportPolicyAttachmentStatus (ht_ancestor h) origins pols);
      tret (errs, (rcf_with_metadata (addMergeOriginsToFilterMetadata gk origins (rcf_metadata out)) out, typed))
  end.

(** Listener policies before those of the Gateway. *)
Definition route_config_policies : AttachedPolicies P := ap_append ∅ [ht_policies h; g_policies (ht_gw h)].

(** [ComputeRouteConfiguration]. *)
Definition ComputeRouteConfiguration (vhosts : list (@VirtualHost P)) : T S RConfig :=
  vs <~ tmap computeVirtualHost vhosts;
  let cfg := mkRCfg (ht_route_config_name h) vs true ∅ ∅ None in
  r <~ tfold (route_config_kind_step route_config_policies) ([], (cfg, ∅))
         (ApplyOrderedGroupKinds iter_kinds route_config_policies);
  let '(errs, (cfg, typed)) := r in
  match errs with
  | _ :: _ => tret (rcf_with_vhosts [setFallBackConfig "default" "*"] cfg)
  | [] => tret (rcf_with_config (ToAnyMap typed) cfg)
  end.

End translator.

(** ** Lemmas: the monad *)

Section monad_lemmas.
Context {S : Type}.

Lemma tbind_inv {A B} (m : T S A) (f : A → T S B) s b s' l :
  tbind m f s = (b, s', l) →
  ∃ a s1 l1 l2, m s = (a, s1, l1) ∧ f a s1 = (b, s', l2) ∧ l = l1 ++ l2.
Proof.
  unfold tbind. destruct (m s) as [[a s1] l1]. destruct (f a s1) as [[b' s2] l2] eqn:E. intros [= <- <- <-].
  by exists a, s1, l1, l2.
Qed.

Lemma log_inv l (s : S) u s' l' : log l s = (u, s', l') → s' = s ∧ l' = l.
Proof. by intros [= _ <- <-]. Qed.

(** Invariants of loops, over the elements already visited. *)
Lemma tfold_ind {A B} (f : B → A → T S B) (Q : list A → B → Prop) b l s b' s' log' :
  tfold f b l s = (b', s', log') → Q [] b →
  (∀ pre x y y' s1 s2 l1, x ∈ l → Q pre y → f y x s1 = (y', s2, l1) → Q (pre ++ [x]) y') → Q l b'.
Proof.
  intros H H0 Hstep. cut (∀ pre b s log', Q pre b → tfold f b l s = (b', s', log') → Q (pre ++ l) b').
  { intros Hc. by eapply (Hc [] b s). }
  clear H H0. induction l as [|x l IH]; intros pre y s0 lg Hq H; cbn [tfold] in H.
  - injection H as <- _ _. by rewrite app_nil_r.
  - apply tbind_inv in H as (y1 & s1 & l1 & l2 & H1 & H2 & ->). rewrite cons_middle, app_assoc.
    eapply IH; [|eapply Hstep; [by left|done|done]|done]. intros. eapply Hstep; [by right|done|done].
Qed.

Lemma tmap_inv {A B} (f : A → T S B) l s ys s' log' :
  tmap f l s = (ys, s', log') → Forall2 (λ x y, ∃ s1 s2 l1, f x s1 = (y, s2, l1)) l ys.
Proof.
  revert s ys s' log'. induction l as [|x l IH]; intros s ys s' lg H; cbn [tmap] in H.
  - injection H as <- _ _. constructor.
  - apply tbind_inv in H as (y & s1 & l1 & l2 & H1 & H2 & ->).
    apply tbind_inv in H2 as (ys' & s2 & l3 & l4 & H2 & [= <- <- <-] & ->).
    constructor; [by eexists _, _, _|by eapply IH].
Qed.

End monad_lemmas.

Lemma flat_map_nil {A B} (f : A → list B) l : flat_map f l = [] ↔ ∀ x, x ∈ l → f x = [].
Proof.
  induction l as [|x l IH]; [by split; [intros _ x ?%not_elem_of_nil|]|]. cbn [flat_map]. rewrite app_nil, IH.
  split; [by intros [Hx Hl] y [->|?]%elem_of_cons; [|apply Hl]|]. intros H. split; [apply H; by left|]. intros y Hy. apply H. by right.
Qed.

(** Invert a run of the monad. *)
Ltac run_inv H :=
  let a := fresh "r" in let s1 := fresh "s" in let l1 := fresh "l" in let l2 := fresh "l" in
  let H1 := fresh "Hrun" in let E := fresh "E" in
  apply tbind_inv in H as (a & s1 & l1 & l2 & H1 & H & E).

Lemma omap_map_id {A} (l : list A) : omap id (map Some l) = l.
Proof. induction l as [|x l IH]; [done|]. cbn [map]. rewrite omap_cons_eq. cbn. by f_equal. Qed.

Lemma joined_Some l : is_Some (errors_join (map Some l)) ↔ l ≠ [].
Proof. unfold errors_join. rewrite omap_map_id. destruct l; split; [by intros [? ?]|by intros []|done|by eauto]. Qed.

(** Loops that collect errors. *)
Lemma tfold_errors {S A B} (f : list error * B → A → T S (list error * B)) (g : A → list error) acc l s acc' s' lg :
  (∀ y x y' s1 s2 l1, f y x s1 = (y', s2, l1) → y'.1 = y.1 ++ g x) →
  tfold f acc l s = (acc', s', lg) → acc'.1 = acc.1 ++ flat_map g l.
Proof.
  intros Hf H. refine (tfold_ind _ (λ pre b, b.1 = acc.1 ++ flat_map g pre) _ _ _ _ _ _ H _ _); [by rewrite app_nil_r|].
  intros pre x y y' s1 s2 l1 _ Hq Hs. apply Hf in Hs. rewrite Hs, Hq, flat_map_app. cbn. by rewrite app_nil_r, app_assoc.
Qed.

(** ** Summaries of errors *)

(** The items after a prefix of the errors: distinct keys, one for every error. *)
Definition items_ok (l : list error) (acc : list (string * string) * list (string * string * string)) : Prop :=
  NoDup (map fst acc.2) ∧ (∀ k, k ∈ acc.1 ↔ k ∈ map fst acc.2) ∧
  (∀ it, it ∈ acc.2 → ∃ e, e ∈ l ∧ it = error_item e) ∧ (∀ e, e ∈ l → (error_item e).1 ∈ acc.1).

Lemma item_step_ok l acc e : items_ok l acc → items_ok (l ++ [e]) (item_step acc e).
Proof.
  intros (Hn & Hk & Hi & Ha). unfold item_step. destruct (bool_decide _) eqn:E.
  - apply bool_decide_eq_true in E. split; [done|]. split; [done|]. split.
    + intros it (x & Hx & ->)%Hi. exists x. split; [apply elem_of_app; by left|done].
    + intros x [Hx|Hx%list_elem_of_singleton]%elem_of_app; [by apply Ha|by subst].
  - apply bool_decide_eq_false in E. split; [|split; [|split]]; cbn [fst snd].
    + rewrite map_app. apply NoDup_app. split; [done|]. split; [|apply NoDup_singleton].
      intros k Hin Hk'%list_elem_of_singleton. subst k. by apply E, Hk.
    + intros k. rewrite map_app, elem_of_app, elem_of_cons, Hk. cbn [map]. rewrite list_elem_of_singleton. tauto.
    + intros it [Hin|Hin%list_elem_of_singleton]%elem_of_app.
      * apply Hi in Hin as (x & Hx & ->). exists x. split; [apply elem_of_app; by left|done].
      * subst it. exists e. split; [apply elem_of_app; right; by left|done].
    + intros x [Hx|Hx%list_elem_of_singleton]%elem_of_app; [right; by apply Ha|subst; by left].
Qed.

Lemma item_loop l : items_ok l (foldl item_step ([], []) l).
Proof.
  assert (∀ done acc, items_ok done acc → items_ok (done ++ l) (foldl item_step acc l)) as H.
  { induction l as [|e l IH]; intros dn acc Hacc; [by rewrite app_nil_r|]. cbn [foldl].
    rewrite cons_middle, app_assoc. by apply IH, item_step_ok. }
  apply (H [] ([], [])). split; [constructor|]. split; [done|]. by split; intros ? ?%not_elem_of_nil.
Qed.

(** The message about the errors of a rule does not depend on the order in which they were
    found or on repetitions, when errors with the same policy and message read the same: it
    lists each error once, by policy and message. *)
Theorem rule_summary_deterministic e1 e2 :
  (∀ e, e ∈ FlattenJoinedErr e1 ↔ e ∈ FlattenJoinedErr e2) →
  (∀ a b, a ∈ FlattenJoinedErr e1 → b ∈ FlattenJoinedErr e1 → (error_item a).1 = (error_item b).1 → err_text a = err_text b) →
  summarizeRuleErrors (Some e1) = summarizeRuleErrors (Some e2).
Proof.
  intros Hset Hkey. unfold summarizeRuleErrors. do 2 f_equal.
  destruct (item_loop (FlattenJoinedErr e1)) as (Hn1 & Hk1 & Hi1 & Ha1).
  destruct (item_loop (FlattenJoinedErr e2)) as (Hn2 & Hk2 & Hi2 & Ha2).
  set (l1 := (foldl item_step ([], []) (FlattenJoinedErr e1)).2) in *.
  set (l2 := (foldl item_step ([], []) (FlattenJoinedErr e2)).2) in *.
  assert (∀ a b, a ∈ FlattenJoinedErr e1 → b ∈ FlattenJoinedErr e1 → (error_item a).1 = (error_item b).1 → error_item a = error_item b) as Hitem.
  { intros a b Ha Hb He. specialize (Hkey a b Ha Hb He). revert He Hkey. unfold error_item.
    destruct (find_policy_error a) as [[ra ea]|], (find_policy_error b) as [[rb eb]|]; cbn [fst]; by intros -> ->. }
  apply sort_stable_perm_eq; [apply _|..].
  - intros x y Hx Hy Hc. apply (NoDup_key_inj fst l1); [done..|]. unfold item_cmp, then_cmp in Hc.
    destruct x as [[r1 m1] t1], y as [[r2 m2] t2]. unfold cmp_on in Hc. cbn [fst snd] in Hc.
    destruct (String.compare r1 r2) eqn:Er; [|done..]. apply string_compare_eq in Er, Hc. cbn. congruence.
  - apply NoDup_Permutation; [by apply (NoDup_fmap_1 fst)..|]. intros it. split.
    + intros Hin. destruct (Hi1 it Hin) as (a & Ha & ->). pose proof (Ha2 a (proj1 (Hset a) Ha)) as Hk.
      apply Hk2, list_elem_of_fmap in Hk as (it2 & Heq & Hit2). destruct (Hi2 it2 Hit2) as (b & Hb & ->).
      by rewrite (Hitem a b Ha (proj2 (Hset b) Hb) Heq).
    + intros Hin. destruct (Hi2 it Hin) as (a & Ha & ->). pose proof (Ha1 a (proj2 (Hset a) Ha)) as Hk.
      apply Hk1, list_elem_of_fmap in Hk as (it1 & Heq & Hit1). destruct (Hi1 it1 Hit1) as (b & Hb & ->).
      by rewrite (Hitem a b (proj2 (Hset a) Ha) Hb Heq).
Qed.

(** ** Errors of policies *)

Section properties.
#[local] Open Scope pass_scope.
Context {P Msg Cfg Hdr Rest S : Type} `{EL : EnvoyLib Cfg Hdr Rest} `{GS : GoSyntax}.
Context (MessageToAny : Msg → error + Cfg) (iter_kinds : AttachedPolicies P → list GroupKind).
Context (BuildPolicyConditions : PolicyAtt P → option (PolicyAtt P) → list metav1_Condition).
Context (h : @HttpRouteConfigurationTranslator P Msg Cfg Hdr Rest S).

(** Go ranges over the kinds of a map in some order. *)
Hypothesis Hiter : ∀ a gk, gk ∈ iter_kinds a ↔ is_Some (a !! gk).

(** The errors a policy contributes; none exactly when it has none, as no Go error is an
    empty join. *)
Definition policy_errors (p : PolicyAtt P) : list error := WrapPolicyErrors (pa_ref p) (pa_errors p).

Fixpoint no_empty_join (e : error) : bool :=
  match e with EJoin es => negb (bool_decide (length es = 0)) && forallb no_empty_join es | _ => true end.

(** The policies of a kind that are applied: the merged one, or each. *)
Definition effective (a : AttachedPolicies P) (gk : GroupKind) : list (PolicyAtt P) :=
  match ht_passes h !! gk with Some pass => (mergePolicies pass (ap_get a gk)).1 | None => [] end.

(** Some policy of some kind that is applied is invalid. *)
Definition some_invalid (a : AttachedPolicies P) : Prop :=
  ∃ gk p, is_Some (a !! gk) ∧ p ∈ effective a gk ∧ policy_errors p ≠ [].

Lemma apply_order_elem a gk : gk ∈ ApplyOrderedGroupKinds iter_kinds a ↔ is_Some (a !! gk).
Proof. unfold ApplyOrderedGroupKinds. by rewrite sort_stable_elem_of. Qed.

(** Scopes without plugin errors: the errors are those of the applied policies, in order. *)
Lemma scope_errors a kinds :
  flat_map (λ gk, flat_map policy_errors (effective a gk)) kinds = [] ↔
  ∀ gk p, gk ∈ kinds → p ∈ effective a gk → policy_errors p = [].
Proof.
  rewrite flat_map_nil. split.
  - intros H gk p Hgk Hp. specialize (H gk Hgk). rewrite flat_map_nil in H. by apply H.
  - intros H gk Hgk. apply flat_map_nil. by eauto.
Qed.

Lemma some_invalid_nil a :
  ¬ some_invalid a ↔ flat_map (λ gk, flat_map policy_errors (effective a gk)) (ApplyOrderedGroupKinds iter_kinds a) = [].
Proof.
  rewrite scope_errors. split.
  - intros Hn gk p Hgk%apply_order_elem Hp. destruct (policy_errors p) eqn:E; [done|].
    destruct Hn. exists gk, p. by rewrite E.
  - intros H (gk & p & Hgk & Hp & He). by apply He, (H gk), Hp; apply apply_order_elem.
Qed.

Lemma some_invalid_cons a : some_invalid a ↔
  flat_map (λ gk, flat_map policy_errors (effective a gk)) (ApplyOrderedGroupKinds iter_kinds a) ≠ [].
Proof.
  split.
  - intros (gk & p & Hgk & Hp & He) H. rewrite scope_errors in H. by apply He, (H gk), Hp; apply apply_order_elem.
  - intros H. destruct (flat_map _ _) as [|e l] eqn:E; [done|]. assert (e ∈ e :: l) as Hin by (by left).
    rewrite <- E in Hin. apply list_elem_of_In, in_flat_map in Hin as (gk & Hgk & Hin).
    apply in_flat_map in Hin as (p & Hp & He). exists gk, p.
    apply list_elem_of_In in Hgk, Hp, He. split; [by apply apply_order_elem|]. split; [done|]. intros Hn.
    rewrite Hn in He. by apply not_elem_of_nil in He.
Qed.

(** *** Virtual hosts *)

Lemma vhost_policy_errors pass acc l s acc' s' lg :
  tfold (vhost_policy_step h pass) acc l s = (acc', s', lg) → acc'.1 = acc.1 ++ flat_map policy_errors l.
Proof.
  apply tfold_errors. clear. intros [errs out] p acc' s s' lg Hs. unfold vhost_policy_step, policy_errors in *.
  destruct (pa_errors p); [run_inv Hs|]; injection Hs as <- _ _; [by rewrite app_nil_r|done].
Qed.

Lemma vhost_errors vh out typed s err out' s' lg :
  runVhostPlugins iter_kinds h vh out typed s = ((err, out'), s', lg) → is_Some err ↔ some_invalid (vh_policies vh).
Proof.
  intros H. unfold runVhostPlugins in H. run_inv H. injection H as <- _ _ _. rewrite some_invalid_cons, joined_Some.
  apply (tfold_errors _ (λ gk, flat_map policy_errors (effective (vh_policies vh) gk))) in Hrun; [by rewrite Hrun|].
  clear. intros [errs [o t]] gk acc' s s' lg Hs. cbn [fst].
  unfold vhost_kind_step, effective in *. destruct (ht_passes h !! gk) as [pass|]; [|injection Hs as <- _ _; by rewrite app_nil_r].
  destruct (mergePolicies pass _) as [eff origins]. run_inv Hs. run_inv Hs. destruct r0 as [errs' [o' t']].
  run_inv Hs. injection Hs as <- _ _. by apply vhost_policy_errors in Hrun0.
Qed.

(** *** Route configurations *)

Lemma route_config_policy_errors pass acc l s acc' s' lg :
  tfold (route_config_policy_step h pass) acc l s = (acc', s', lg) → acc'.1 = acc.1 ++ flat_map policy_errors l.
Proof.
  apply tfold_errors. clear. intros [errs out] p acc' s s' lg Hs. unfold route_config_policy_step, policy_errors in *.
  destruct (pa_errors p); [run_inv Hs|]; injection Hs as <- _ _; [by rewrite app_nil_r|done].
Qed.

Lemma route_config_errors a acc s acc' s' lg :
  tfold (route_config_kind_step h a) acc (ApplyOrderedGroupKinds iter_kinds a) s = (acc', s', lg) →
  acc'.1 = acc.1 ++ flat_map (λ gk, flat_map policy_errors (effective a gk)) (ApplyOrderedGroupKinds iter_kinds a).
Proof.
  apply tfold_errors. clear. intros [errs [o t]] gk acc' s s' lg Hs. cbn [fst].
  unfold route_config_kind_step, effective in *. destruct (ht_passes h !! gk) as [pass|]; [|injection Hs as <- _ _; by rewrite app_nil_r].
  destruct (mergePolicies pass _) as [eff origins]. run_inv Hs. run_inv Hs. run_inv Hs. destruct r1 as [errs' [o' t']].
  run_inv Hs. injection Hs as <- _ _. by apply route_config_policy_errors in Hrun1.
Qed.

(** *** Routes: plugins may fail as well *)

Lemma route_policy_errors rule pass acc l s acc' s' lg :
  tfold (route_policy_step h rule pass) acc l s = (acc', s', lg) →
  ∃ errs, acc'.1 = acc.1 ++ errs ∧ (errs = [] → flat_map policy_errors l = []).
Proof.
  intros H. refine (tfold_ind _ (λ pre b, ∃ errs, b.1 = acc.1 ++ errs ∧ (errs = [] → flat_map policy_errors pre = [])) _ _ _ _ _ _ H _ _).
  - exists []. by rewrite app_nil_r.
  - clear. intros pre p [errs out] acc' s s' lg _ (es & Hq & Hn) Hs. cbn [fst] in *. subst errs. rewrite flat_map_app. cbn [flat_map].
    unfold route_policy_step in Hs. destruct (pa_errors p) as [|e0 es0] eqn:E.
    + run_inv Hs. injection Hs as <- _ _. assert (policy_errors p = []) as -> by (unfold policy_errors; by rewrite E).
      destruct r as [[e|] out']; cbn [fst snd].
      * exists (es ++ [e]). rewrite app_assoc. split; [done|]. by intros [_ ?]%app_nil.
      * exists es. split; [done|]. intros Hes. by rewrite (Hn Hes).
    + assert (acc' = ((acc.1 ++ es) ++ WrapPolicyErrors (pa_ref p) (e0 :: es0), out)) as -> by (unfold tret in Hs; congruence).
      exists (es ++ policy_errors p). cbn [fst].
      assert (WrapPolicyErrors (pa_ref p) (e0 :: es0) = policy_errors p) as -> by (unfold policy_errors; by rewrite E).
      split; [by rewrite app_assoc|]. intros [Hes Hp]%app_nil. by rewrite (Hn Hes), Hp.
Qed.

Lemma route_errors rule out typed s err out' s' lg :
  runRoutePlugins iter_kinds h rule out typed s = ((err, out'), s', lg) → err = None → ¬ some_invalid (route_policies rule).
Proof.
  intros H He. unfold runRoutePlugins in H. run_inv H. injection H as <- _ _ _. rewrite some_invalid_nil.
  assert (r.1 = []) as Hr. { destruct (r.1) eqn:Hr; [done|]. cbn in He. by rewrite omap_map_id in He. }
  refine (tfold_ind _ (λ pre b, b.1 = [] → flat_map (λ gk, flat_map policy_errors (effective (route_policies rule) gk)) pre = [])
    _ _ _ _ _ _ Hrun _ _ Hr); [done|].
  clear. intros pre gk [errs [o t]] acc' s s' lg _ Hq Hs Hacc. rewrite flat_map_app. cbn [flat_map]. rewrite app_nil_r.
  unfold route_kind_step, effective in *.
  destruct (ht_passes h !! gk) as [pass|]; [|injection Hs as <- _ _; by rewrite (Hq Hacc)].
  destruct (mergePolicies pass _) as [eff origins]. run_inv Hs. run_inv Hs. destruct r0 as [errs' [o' t']].
  run_inv Hs. injection Hs as <- _ _. apply route_policy_errors in Hrun0 as (es & He & Hn). cbn [fst] in *. subst errs'.
  apply app_nil in Hacc as [-> ->]. by rewrite Hq, Hn.
Qed.

Lemma errors_join_None l : errors_join l = None ↔ Forall (λ e, e = None) l.
Proof.
  unfold errors_join. induction l as [|[e|] l IH]; [by split|..]; rewrite omap_cons_eq; cbn [id].
  - split; [done|]. by intros [? _]%Forall_cons.
  - rewrite Forall_cons, IH. naive_solver.
Qed.

(** What becomes of a route at the end. *)
Lemma finalize_cases rule out err s res s' lg :
  finalizeRoute h rule out err s = (res, s', lg) →
  (err = None ∧ rm_acceptance_error rule = None ∧ rm_replacement_error rule = None ∧ lg = [] ∧
   res = if rm_delegates rule then None else Some out) ∨
  ((res = None ∨ res = Some (replace_invalid h out)) ∧
   (is_Some err ∨ is_Some (rm_acceptance_error rule) →
      ∃ reason message, reason ∈ ["RouteRuleDropped"; "RouteRuleReplaced"] ∧ lg = programmed_false rule reason message)).
Proof.
  unfold finalizeRoute.
  destruct (errors_join [err; rm_acceptance_error rule]) as [e|] eqn:Ea.
  - rewrite (bool_decide_eq_false_2 (Some e = None)), andb_false_r by done. cbn [andb].
    destruct (err_is e ErrInvalidMatcher); intros H; run_inv H; apply log_inv in Hrun as [-> ->];
      injection H as <- <- <-; right; (split; [by (left + right)|]); intros _; rewrite app_nil_r in E; subst lg.
    + eexists "RouteRuleDropped", _. split; [by left|done].
    + eexists "RouteRuleReplaced", _. split; [by right; left|done].
  - apply errors_join_None in Ea as Ha. apply Forall_cons in Ha as [-> [-> _]%Forall_cons].
    destruct (errors_join [None; rm_replacement_error rule; None]) as [e|] eqn:Er.
    + rewrite (bool_decide_eq_false_2 (Some e = None)), andb_false_r by done. intros [= <- <- <-].
      right. split; [by right|]. by intros [[? ?]|[? ?]].
    + apply errors_join_None in Er as Hr. apply Forall_cons in Hr as [_ [-> _]%Forall_cons].
      rewrite !bool_decide_eq_true_2, !andb_true_r by done.
      destruct (rm_delegates rule); intros [= <- <- <-]; by left.
Qed.

(** A route that answers 500 and nothing else. *)
Definition answers_500 (r : EnvoyRoute Cfg Hdr Rest) : Prop :=
  er_action r = Some direct_500 ∧ er_config r = ∅ ∧ er_edits r = no_edits.

Lemma replaced_answers_500 out : (∀ m, ht_mode h ≠ ValidationOther m) → answers_500 (replace_invalid h out).
Proof. unfold replace_invalid. destruct (ht_mode h) as [| |m]; [done|done|]. intros Hm. by destruct (Hm m). Qed.

(** The parts of a run of [envoyRoutes]. *)
Lemma envoy_routes_parts rule name s res s' lg :
  envoyRoutes MessageToAny iter_kinds BuildPolicyConditions h rule name s = (res, s', lg) →
  ∃ out err s1 l1 l2,
    finalizeRoute h rule out err s1 = (res, s', l2) ∧ lg = l1 ++ l2 ∧
    (err = None → ¬ some_invalid (route_policies rule) ∧
       (rm_delegates rule = false → is_Some (er_action out) ∧ validateRoutePreEnvoy out (ht_mode h) = None)).
Proof.
  intros H. unfold envoyRoutes in H. run_inv H. destruct r as [out ctx]. run_inv H. destruct r as [err [out' typed]].
  eexists _, _, _, _, _. split; [exact H|]. split; [by rewrite E, E0, app_assoc|].
  intros He. destruct (rm_delegates rule).
  - split; [|done]. by eapply route_errors.
  - destruct err as [e|]; [done|]. split; [by eapply route_errors|]. intros _. cbn [er_action er_with_edits er_with_config] in *.
    by destruct (er_action out').
Qed.

(** C6: No route with invalid configuration reaches a backend: a route that is produced for a
    rule either answers 500, with filter configuration and header changes removed, or every
    policy applied to the rule along its delegation chain is valid, the rule has no error of
    its own, no plugin failed, and the route passed validation with an action. *)
Theorem served_route_valid rule name s r s' lg :
  (∀ m, ht_mode h ≠ ValidationOther m) →
  envoyRoutes MessageToAny iter_kinds BuildPolicyConditions h rule name s = (Some r, s', lg) →
  answers_500 r ∨
  (¬ some_invalid (route_policies rule) ∧ rm_acceptance_error rule = None ∧ rm_replacement_error rule = None ∧
   rm_delegates rule = false ∧ is_Some (er_action r) ∧ validateRoutePreEnvoy r (ht_mode h) = None).
Proof.
  intros Hm (out & err & s1 & l1 & l2 & Hf & _ & Hok)%envoy_routes_parts.
  apply finalize_cases in Hf as [(-> & Ha & Hr & _ & Hres)|[[?|[= ->]] _]]; [|done|left; by apply replaced_answers_500].
  right. destruct (rm_delegates rule); [done|]. injection Hres as ->. destruct Hok as [Hp Hok]; [done|].
  destruct Hok as [Hact Hv]; [done|]. done.
Qed.

(** A rule with an invalid policy, or that is not accepted, is told: its route has the
    Programmed condition set to False on the parent of the rule, with the reason that the rule
    was dropped or replaced. *)
Theorem invalid_rule_reported rule name s res s' lg :
  envoyRoutes MessageToAny iter_kinds BuildPolicyConditions h rule name s = (res, s', lg) →
  some_invalid (route_policies rule) ∨ is_Some (rm_acceptance_error rule) →
  ∃ reason message, reason ∈ ["RouteRuleDropped"; "RouteRuleReplaced"] ∧
    EvRouteCondition (hr_source (rm_parent rule)) (rm_parent_ref rule)
      (cond KgatewayConditionProgrammed "False" reason message) ∈ lg.
Proof.
  intros (out & err & s1 & l1 & l2 & Hf & -> & Hok)%envoy_routes_parts Hbad.
  apply finalize_cases in Hf as [(-> & Ha & _)|[_ Hrep]].
  - exfalso. destruct Hbad as [Hi|Hi]; [by apply Hok|]. rewrite Ha in Hi. by destruct Hi.
  - destruct Hrep as (reason & message & Hr & ->).
    { destruct Hbad as [Hi|Hi]; [|by right]. left. destruct err; [done|]. by destruct (proj1 (Hok eq_refl)). }
    exists reason, message. split; [done|]. apply elem_of_app. right. by left.
Qed.

(** *** Virtual hosts and route configurations *)

(** An invalid policy of a listener takes down the virtual hosts of that listener and no
    others: such a virtual host keeps its name and domain and answers 500 to everything, and
    the listener it belongs to is reported as not accepted. *)
Theorem invalid_listener_policy_isolated vh s v s' lg :
  computeVirtualHost MessageToAny iter_kinds BuildPolicyConditions h vh s = (v, s', lg) →
  some_invalid (vh_policies vh) →
  v = setFallBackConfig (SanitizeForEnvoy (vh_name vh)) (if String.eqb (vh_hostname vh) "" then "*" else vh_hostname vh) ∧
  Forall answers_500 (ev_routes v) ∧
  ∀ l, vh_parent vh = Some l → ∃ message,
    EvReport (RListenerCondition (il_parent l) (l_name (il_listener l)) (mkCond "Accepted" false "ListenerReplaced" message)) ∈ lg.
Proof.
  intros H Hi. unfold computeVirtualHost in H. run_inv H. run_inv H. destruct r0 as [err [out typed]].
  apply vhost_errors in Hrun0 as Herr. apply Herr in Hi as [e ->]. run_inv H. apply log_inv in Hrun1 as [_ ->].
  injection H as <- <- <-. split; [unfold vhost_domains; by destruct (String.eqb (vh_hostname vh) "")|]. split; [by constructor|].
  intros l' Hl. exists (err_text e). unfold listener_replaced in *. rewrite Hl in *. rewrite E, E0, E1.
  apply elem_of_app. right. apply elem_of_app. right. by left.
Qed.

Lemma strict_batch vh out rules s v s' lg :
  ht_mode h = ValidationStrict → validateStrictRouteBatch h vh out rules s = (v, s', lg) →
  ev_routes v = [] ∨ validateFullRoutes (ev_routes v) = None ∨ ∃ name domain, v = setFallBackConfig name domain.
Proof.
  intros Hm. unfold validateStrictRouteBatch. rewrite Hm.
  destruct (bool_decide (length (ev_routes out) = 0)) eqn:E0.
  { intros [= <- _ _]. left. apply bool_decide_eq_true in E0. by apply nil_length_inv. }
  destruct (validateFullRoutes (ev_routes out)) as [err|] eqn:E1; [|intros [= <- _ _]; by right; left].
  intros H. run_inv H. cbv zeta in H. set (out' := ev_with_routes (omap id r) out) in H.
  destruct (bool_decide (length (ev_routes out') = 0)) eqn:E2.
  { injection H as <- _ _. left. apply bool_decide_eq_true in E2. by apply nil_length_inv. }
  destruct (validateFullRoutes (ev_routes out')) as [err'|] eqn:E3; [|injection H as <- _ _; by right; left].
  run_inv H. injection H as <- _ _. right. right. by eexists _, _.
Qed.

(** C9: In strict mode every virtual host that is produced is empty, or its routes passed one
    validation by Envoy together, or it is the fallback that answers 500. *)
Theorem strict_routes_validated vh s v s' lg :
  ht_mode h = ValidationStrict →
  computeVirtualHost MessageToAny iter_kinds BuildPolicyConditions h vh s = (v, s', lg) →
  ev_routes v = [] ∨ validateFullRoutes (ev_routes v) = None ∨ ∃ name domain, v = setFallBackConfig name domain.
Proof.
  intros Hm H. unfold computeVirtualHost in H. run_inv H. run_inv H. destruct r0 as [[err|] [out typed]].
  - run_inv H. injection H as <- _ _. right. right. by eexists _, _.
  - by eapply strict_batch.
Qed.

(** A policy of the Gateway, or of an HTTPS listener, that is invalid replaces the whole
    route configuration by one virtual host that answers 500 to every request. *)
Theorem invalid_gateway_policy_replaces vhosts s c s' lg :
  ComputeRouteConfiguration MessageToAny iter_kinds BuildPolicyConditions h vhosts s = (c, s', lg) →
  some_invalid (route_config_policies h) →
  rcf_vhosts c = [setFallBackConfig "default" "*"].
Proof.
  intros H Hi. unfold ComputeRouteConfiguration in H. run_inv H. run_inv H. destruct r0 as [errs [cfg typed]].
  apply route_config_errors in Hrun0. cbn [fst app] in Hrun0. apply some_invalid_cons in Hi. rewrite <- Hrun0 in Hi.
  destruct errs; [done|]. by injection H as <- _ _.
Qed.

(** *** Policies along the delegation chain *)

(** The policies of one rule: its own before those of the whole route. *)
Definition rule_own (gk : GroupKind) (rule : HttpRouteRuleMatchIR P) : list (PolicyAtt P) :=
  ap_get (rm_extension_refs rule) gk ++ ap_get (rm_policies rule) gk ++ ap_get (hr_policies (rm_parent rule)) gk.

(** The policies of the delegating parents, from the nearest one up. *)
Fixpoint parents_own (gk : GroupKind) (priority : Z) (rule : HttpRouteRuleMatchIR P) : list (PolicyAtt P) :=
  match rm_delegating_parent rule with
  | None => []
  | Some p => map (pa_set_hierarchy priority) (rule_own gk p) ++ parents_own gk (priority - 1) p
  end.

Lemma delegating_policies_get gk priority a p :
  ap_get (delegating_policies priority a p) gk =
  ap_get a gk ++ map (pa_set_hierarchy priority) (rule_own gk p) ++ parents_own gk (priority - 1) p.
Proof.
  revert p priority a. fix IH 1. intros [ext pol par [q|] dg lref ref bs m mi nm ri rn w re ae] priority a;
    cbn [delegating_policies parents_own rm_delegating_parent rm_extension_refs rm_policies rm_parent].
  - rewrite (IH q), ap_append_with_priority_get, <- !app_assoc. f_equal. unfold rule_own.
    cbn [flat_map rm_extension_refs rm_policies rm_parent]. by rewrite !map_app, !app_nil_r, <- !app_assoc.
  - rewrite ap_append_with_priority_get. f_equal. unfold rule_own.
    cbn [flat_map rm_extension_refs rm_policies rm_parent]. by rewrite !map_app, !app_nil_r.
Qed.

(** The policies applied to a rule are, kind by kind and in this order: those of the rule,
    those of its route, and those of every delegating parent from the nearest up, each level
    of parents marked with a lower priority, so that merging prefers the child by default. *)
Theorem rule_policies_ordered rule gk :
  ap_get (route_policies rule) gk = rule_own gk rule ++ parents_own gk (-1) rule.
Proof.
  unfold route_policies.
  assert (ap_get (ap_append (ap_append ∅ [rm_extension_refs rule; rm_policies rule]) [hr_policies (rm_parent rule)]) gk
    = rule_own gk rule) as Hown.
  { rewrite !ap_append_get. unfold rule_own. cbn [flat_map]. rewrite !app_nil_r.
    assert (ap_get (∅ : AttachedPolicies P) gk = []) as -> by (unfold ap_get; by rewrite lookup_empty). cbn [app]. by rewrite <- app_assoc. }
  destruct rule as [ext pol par [q|] dg lref ref bs m mi nm ri rn w re ae]; cbn [rm_delegating_parent parents_own].
  - by rewrite delegating_policies_get, Hown.
  - by rewrite Hown, app_nil_r.
Qed.

(** *** Backends *)

(** No plugin handles the backends of a rule, so that nothing but the references decides. *)
Definition plain_backends (bs : list (BackendRefIR P * AttachedPolicies P)) : Prop :=
  ∀ b o, b ∈ bs → br_object b.1 = Some o → ht_passes h !! os_gk (bo_source o) = None.

Lemma translate_backend_plain rule ctx out b s cw out' ctx' s' lg :
  (∀ o, br_object b.1 = Some o → ht_passes h !! os_gk (bo_source o) = None) →
  translate_backend MessageToAny iter_kinds BuildPolicyConditions h rule ctx out b s = ((cw, out', ctx'), s', lg) →
  cw_name cw = br_cluster b.1 ∧ cw_weight cw = br_weight b.1 ∧ out' = out.
Proof.
  intros Hb H. unfold translate_backend in H. run_inv H. run_inv H. unfold runBackend in Hrun0.
  destruct (br_object b.1) as [o|]; cbn [mbind option_bind] in Hrun0; [rewrite (Hb o eq_refl) in Hrun0|];
    injection Hrun0 as <- _ _; run_inv H; injection H as <- <- _ _ _; done.
Qed.

(** The backends of a rule are programmed as written: a single backend becomes the cluster
    of the route, several become weighted clusters with their names and weights in order; and
    when all weights of several backends are zero the route is refused, to be replaced. *)
Theorem backends_programmed rule out single ctx s action out' ctx' s' lg :
  rm_backends rule ≠ [] → plain_backends (rm_backends rule) → route_action_of out = None →
  translateRouteAction MessageToAny iter_kinds BuildPolicyConditions h rule out single ctx s = ((action, out', ctx'), s', lg) →
  ∃ ra, action = ARoute ra ∧ ra_not_found_500 ra = true ∧
    match rm_backends rule with
    | [b] => ra_cluster ra = Some (CSCluster (br_cluster b.1))
    | bs => ∃ cs, ra_cluster ra = Some (CSWeighted cs) ∧ map cw_name cs = map (λ b, br_cluster b.1) bs ∧
              map cw_weight cs = map (λ b, br_weight b.1) bs ∧
              (Forall (λ b, br_weight b.1 = 0%Z) bs → validateEnvoyRoute (er_with_action (Some action) out') ≠ None)
    end.
Proof.
  intros Hne Hplain Hout H. unfold translateRouteAction in H. run_inv H. destruct r as [[clusters out1] ctx1].
  pose proof (tfold_ind _ (λ pre b, map cw_name b.1.1 = map (λ x, br_cluster x.1) pre ∧
    map cw_weight b.1.1 = map (λ x, br_weight x.1) pre ∧ b.1.2 = out) _ _ _ _ _ _ Hrun) as Hq.
  destruct Hq as (Hn & Hw & Ho); [done|..].
  { clear -Hplain. intros pre b [[cs o] c] [[cs' o'] c'] s s' lg Hb (Hn & Hw & Ho) Hs. cbn [fst snd] in *. subst o.
    unfold backend_step in Hs. run_inv Hs. destruct r as [[cw o1] c1]. injection Hs as <- <- <- _ _.
    apply translate_backend_plain in Hrun as (H1 & H2 & ->); [|intros o Hbo; by apply (Hplain b)].
    rewrite !map_app. cbn [map]. by rewrite Hn, Hw, H1, H2. }
  cbn [fst snd] in *. subst out1. rewrite Hout in H. cbn [default ra_cluster] in H.
  destruct (rm_backends rule) as [|b [|b2 bs]]; [done|..]; destruct clusters as [|c [|c2 cs]]; try done;
    injection H as <- <- _ _ _; (eexists; split; [done|]; split; [done|]); cbn [ra_cluster].
  - by injection Hn as ->.
  - exists (c :: c2 :: cs). split; [done|]. split; [done|]. split; [done|]. intros Hz.
    unfold validateEnvoyRoute. rewrite !app_assoc.
    match goal with |- context [?e ++ validateWeightedClusters ?w] => assert (validateWeightedClusters w ≠ []) as Hv; [|by destruct e, (validateWeightedClusters w)] end.
    cbn [weighted_clusters er_with_action route_action_of er_action ra_cluster mbind option_bind].
    change (weighted_clusters _) with (c :: c2 :: cs). unfold validateWeightedClusters.
    assert (existsb (λ c, (0 <? cw_weight c)%Z) (c :: c2 :: cs) = false) as ->; [|done].
    apply not_true_is_false. intros (x & Hx & Hpos)%existsb_exists.
    assert (cw_weight x ∈ map cw_weight (c :: c2 :: cs)) as Hin by (apply (list_elem_of_fmap_2 cw_weight), list_elem_of_In, Hx).
    rewrite Hw in Hin. apply list_elem_of_fmap in Hin as (y & Hy & Hyin). rewrite Forall_forall in Hz. specialize (Hz y Hyin).
    apply Z.ltb_lt in Hpos. lia.
Qed.
End properties.

(** ** Witnesses *)

(** Envoy refuses a configuration with a route named after "bad". *)
#[local] Instance ex_envoy : EnvoyLib string string unit := {|
  router_ToAny := inr "router";
  hcm_ToAny m := inr (join "," (map er_name (hcm_routes m)));
  UnmarshalTo_UpstreamTls _ := None;
  Validate b := if contains (bs_listener b) "bad" then Some (ESentinel ErrInvalidXDS) else None |}.
#[local] Instance ex_go : GoSyntax := {| url_Parse_Path s := inr s; regexp_Compile _ := None |}.

Definition ex_gk : GroupKind := mkGK "gateway.kgateway.dev" "TrafficPolicy".
Definition ex_iter {P} (a : AttachedPolicies P) : list GroupKind := (map_to_list a).*1.

Lemma ex_iter_elem {P} (a : AttachedPolicies P) gk : gk ∈ ex_iter a ↔ is_Some (a !! gk).
Proof.
  unfold ex_iter. rewrite list_elem_of_fmap. split.
  - intros ([k v] & -> & Hin%elem_of_map_to_list). by exists v.
  - intros [v Hv]. exists (gk, v). split; [done|]. by apply elem_of_map_to_list.
Qed.

(** A plugin that sets a filter configuration and counts its calls. *)
Definition ex_pass : @TranslationPass string string string string unit nat :=
  mkPass nat None (λ _ x, x) (λ _ x, x)
    (λ ctx '(out, typed, s), (None, (out, <["filter" := rx_policy ctx]> typed, Datatypes.S s)))
    (λ _ _ x, (None, x)) (λ _ _ x, (None, x)).

Definition ex_policy (errs : list error) : PolicyAtt string :=
  mkPA ex_gk 1 "limit" (Some (mkAPR "gateway.kgateway.dev" "TrafficPolicy" "tp" "ns" "")) UnsetPriority errs 0 0 ∅.

Definition ex_gateway (errs : list error) : @GatewayIndex.Gateway string :=
  mkGateway (mkOS "gateway.networking.k8s.io" "Gateway" "ns" "gw") (mkParent TGateway "Gateway" "ns" "gw") 1 [] ∅ ∅
    (match errs with [] => ∅ | _ => {[ ex_gk := [ex_policy errs] ]} end) None None.

Definition ex_translator (mode : ValidationMode) (gwErrs : list error) :
    @HttpRouteConfigurationTranslator string string string string unit nat :=
  mkHT (ex_gateway gwErrs) "kgateway" 80 (mkPR None (Some "Gateway") (Some "ns") "gw" None None) "http" false ∅ "http" false
    {[ ex_gk := ex_pass ]} mode false.

Definition ex_source : ObjectSource := mkOS "gateway.networking.k8s.io" "HTTPRoute" "ns" "route".
Definition ex_route : HttpRouteIR string :=
  mkHttpRoute ex_source (mkObj "ns" "route" 0 1 "1" "u" ∅ ∅) [] [] ∅ [] 0 false.

Definition ex_ref (cluster : string) (weight : Z) : BackendRefIR string * AttachedPolicies string :=
  (mkBackendRef cluster weight None None, ∅).

Definition ex_rule (name : string) (errs : list error) (bs : list (BackendRefIR string * AttachedPolicies string)) :
    HttpRouteRuleMatchIR string :=
  mkRuleMatch ∅ {[ ex_gk := [ex_policy errs] ]} ex_route None false zero_ref zero_ref bs
    (mkMatch (Some (mkPath (Some PathPrefix) (Some "/"))) [] [] None) 0 name 0 "" 0 None None.

Abbreviation ex_conditions := (λ (_ : PolicyAtt string) (_ : option (PolicyAtt string)), @nil metav1_Condition).
Abbreviation ex_envoyRoutes := (envoyRoutes (λ m, inr m) ex_iter ex_conditions).

Lemma ex_invalid : some_invalid (ex_translator ValidationStandard []) (route_policies (ex_rule "" [EMsg "broken"] [ex_ref "c" 1])).
Proof.
  exists ex_gk, (ex_policy [EMsg "broken"]). split; [vm_compute; eauto|]. split; [|discriminate].
  unfold effective. cbn [ht_passes ex_translator]. rewrite lookup_singleton_eq.
  rewrite rule_policies_ordered. unfold rule_own, ap_get. cbn. by left.
Qed.

Definition ex_run errs := ex_envoyRoutes (ex_translator ValidationStandard []) (ex_rule "" errs [ex_ref "c" 1]) "vh-route-0" 0%nat.

Lemma served_route_valid_witness :
  ∃ r s lg, ex_run [] = (Some r, s, lg) ∧ s = 1%nat ∧
    (answers_500 r ∨ (¬ some_invalid (ex_translator ValidationStandard []) (route_policies (ex_rule "" [] [ex_ref "c" 1])) ∧
       rm_acceptance_error (ex_rule "" [] [ex_ref "c" 1]) = None ∧ rm_replacement_error (ex_rule "" [] [ex_ref "c" 1]) = None ∧
       rm_delegates (ex_rule "" [] [ex_ref "c" 1]) = false ∧ is_Some (er_action r) ∧
       validateRoutePreEnvoy r ValidationStandard = None)).
Proof.
  destruct (ex_run []) as [[[r|] s] lg] eqn:E; [|exfalso; vm_compute in E; discriminate].
  exists r, s, lg. split; [done|]. split; [vm_compute in E; congruence|].
  refine (served_route_valid (λ m, inr m) ex_iter ex_conditions (ex_translator ValidationStandard []) ex_iter_elem
    (ex_rule "" [] [ex_ref "c" 1]) "vh-route-0" 0%nat r s lg _ E).
  intros m. discriminate.
Defined.

Lemma invalid_rule_reported_witness :
  ∃ res s lg, ex_run [EMsg "broken"] = (res, s, lg) ∧ ∃ reason message, reason ∈ ["RouteRuleDropped"; "RouteRuleReplaced"] ∧
    EvRouteCondition ex_source zero_ref (cond KgatewayConditionProgrammed "False" reason message) ∈ lg.
Proof.
  destruct (ex_run [EMsg "broken"]) as [[res s] lg] eqn:E. exists res, s, lg. split; [done|].
  exact (invalid_rule_reported (λ m, inr m) ex_iter ex_conditions (ex_translator ValidationStandard []) ex_iter_elem
    (ex_rule "" [EMsg "broken"] [ex_ref "c" 1]) "vh-route-0" 0%nat res s lg E (or_introl ex_invalid)).
Defined.

Definition ex_listener : @IRListener (@ListenerExtra string) :=
  mkIRL (mkListener "web" None 80 "HTTP" None None) (mkParent TGateway "Gateway" "ns" "gw")
    (mkLE (mkGVK "gateway.networking.k8s.io" "v1" "Gateway") [] ∅ ∅ zero_ref).

Definition ex_vhost (errs : list error) (rules : list (HttpRouteRuleMatchIR string)) : @VirtualHost string :=
  mkVH "http~a.com" "a.com" rules (match errs with [] => ∅ | _ => {[ ex_gk := [ex_policy errs] ]} end) (Some ex_listener).

Abbreviation ex_computeVirtualHost := (computeVirtualHost (λ m, inr m) ex_iter ex_conditions).

Lemma invalid_listener_policy_isolated_witness :
  ∃ v s lg, ex_computeVirtualHost (ex_translator ValidationStandard []) (ex_vhost [EMsg "broken"] []) 0%nat = (v, s, lg) ∧
    v = setFallBackConfig "http~a_com" "a.com" ∧ Forall answers_500 (ev_routes v) ∧
    ∀ l, Some ex_listener = Some l → ∃ message,
      EvReport (RListenerCondition (il_parent l) (l_name (il_listener l)) (mkCond "Accepted" false "ListenerReplaced" message)) ∈ lg.
Proof.
  destruct (ex_computeVirtualHost (ex_translator ValidationStandard []) (ex_vhost [EMsg "broken"] []) 0%nat) as [[v s] lg] eqn:E.
  exists v, s, lg. split; [done|].
  apply (invalid_listener_policy_isolated (λ m, inr m) ex_iter ex_conditions (ex_translator ValidationStandard []) ex_iter_elem
    (ex_vhost [EMsg "broken"] []) 0%nat v s lg E).
  exists ex_gk, (ex_policy [EMsg "broken"]). split; [vm_compute; eauto|]. split; [|discriminate]. vm_compute. by left.
Defined.

Lemma strict_routes_validated_witness :
  ∃ v s lg, ex_computeVirtualHost (ex_translator ValidationStrict []) (ex_vhost [] [ex_rule "bad" [] [ex_ref "c" 1]]) 0%nat = (v, s, lg) ∧
    (ev_routes v = [] ∨ validateFullRoutes (ev_routes v) = None ∨ ∃ name domain, v = setFallBackConfig name domain).
Proof.
  destruct (ex_computeVirtualHost (ex_translator ValidationStrict []) (ex_vhost [] [ex_rule "bad" [] [ex_ref "c" 1]]) 0%nat) as [[v s] lg] eqn:E.
  exists v, s, lg. split; [done|].
  exact (strict_routes_validated (λ m, inr m) ex_iter ex_conditions (ex_translator ValidationStrict []) _ 0%nat v s lg eq_refl E).
Defined.

Lemma invalid_gateway_policy_replaces_witness :
  ∃ c s lg, ComputeRouteConfiguration (λ m, inr m) ex_iter ex_conditions (ex_translator ValidationStandard [EMsg "broken"])
      [ex_vhost [] []] 0%nat = (c, s, lg) ∧ rcf_vhosts c = [setFallBackConfig "default" "*"].
Proof.
  destruct (ComputeRouteConfiguration (λ m, inr m) ex_iter ex_conditions (ex_translator ValidationStandard [EMsg "broken"])
    [ex_vhost [] []] 0%nat) as [[c s] lg] eqn:E.
  exists c, s, lg. split; [done|].
  apply (invalid_gateway_policy_replaces (λ m, inr m) ex_iter ex_conditions (ex_translator ValidationStandard [EMsg "broken"]) ex_iter_elem
    [ex_vhost [] []] 0%nat c s lg E).
  exists ex_gk, (ex_policy [EMsg "broken"]). split; [vm_compute; eauto|]. split; [|discriminate]. vm_compute. by left.
Defined.

Lemma backends_programmed_witness :
  let rule := ex_rule "" [] [ex_ref "a" 0; ex_ref "b" 3] in
  ∃ action out ctx s lg,
    translateRouteAction (λ m, inr m) ex_iter ex_conditions (ex_translator ValidationStandard []) rule (initRoutes rule "r") false
      (mkBOut ∅ no_edits) 0%nat = ((action, out, ctx), s, lg) ∧
    ∃ ra, action = ARoute ra ∧ ra_not_found_500 ra = true ∧
      ∃ cs, ra_cluster ra = Some (CSWeighted cs) ∧ map cw_name cs = ["a"; "b"] ∧ map cw_weight cs = [0%Z; 3%Z] ∧
        (Forall (λ b, br_weight b.1 = 0%Z) (rm_backends rule) → validateEnvoyRoute (er_with_action (Some action) out) ≠ None).
Proof.
  cbv zeta. set (rule := ex_rule "" [] [ex_ref "a" 0; ex_ref "b" 3]).
  destruct (translateRouteAction (λ m, inr m) ex_iter ex_conditions (ex_translator ValidationStandard []) rule (initRoutes rule "r")
    false (mkBOut ∅ no_edits) 0%nat) as [[[[action out] ctx] s] lg] eqn:E.
  exists action, out, ctx, s, lg. split; [done|].
  refine (backends_programmed (λ m, inr m) ex_iter ex_conditions (ex_translator ValidationStandard []) rule (initRoutes rule "r") false
    (mkBOut ∅ no_edits) 0%nat action out ctx s lg _ _ eq_refl E); [discriminate|].
  intros b o Hb Ho. apply elem_of_cons in Hb as [->|Hb]; [discriminate|]. by apply list_elem_of_singleton in Hb as ->.
Defined.

Lemma rule_summary_deterministic_witness :
  summarizeRuleErrors (Some (EJoin [EMsg "b"; EMsg "a"; EMsg "b"])) = summarizeRuleErrors (Some (EJoin [EMsg "a"; EMsg "b"])).
Proof.
  apply (rule_summary_deterministic (EJoin [EMsg "b"; EMsg "a"; EMsg "b"]) (EJoin [EMsg "a"; EMsg "b"])).
  - intros e. cbn. rewrite !elem_of_cons. naive_solver.
  - intros a b Ha Hb. cbn in Ha, Hb.
    repeat (apply elem_of_cons in Ha as [->|Ha]; [|]); try (by apply not_elem_of_nil in Ha);
    repeat (apply elem_of_cons in Hb as [->|Hb]; [|]); try (by apply not_elem_of_nil in Hb);
      intros He; (reflexivity || (exfalso; vm_compute in He; discriminate He)).
Defined.

(** A single backend of weight zero gets all the traffic: the weight is dropped before the check
    that one weight is positive. *)
Theorem single_zero_weight_served :
  let rule := ex_rule "" [] [ex_ref "c" 0] in
  ∃ r s lg, ex_envoyRoutes (ex_translator ValidationStandard []) rule "vh-route-0" 0%nat = (Some r, s, lg) ∧
    route_clusters r = ["c"].
Proof. eexists _, _, _. split; [vm_compute; reflexivity|]. vm_compute. reflexivity. Qed.

(** An invalid policy of a ListenerSet that names no section is blamed on the Gateway. *)
Theorem listener_set_policy_blames_gateway :
  reportRouteConfigPolicyErrors (ex_gateway []) (mkPR None (Some "ListenerSet") (Some "ns") "set" None None) "https"
    [ex_policy [EMsg "broken"]] =
  [EvReport (RParentCondition (mkParent TGateway "Gateway" "ns" "gw")
     (mkCond "Accepted" false "GatewayReplaced" "broken"))].
Proof. vm_compute. reflexivity. Qed.

(** The policies attached to a backend reference are applied whether or not they are valid. *)
Theorem invalid_backend_policy_applied :
  let pass : @TranslationPass string string string string unit nat := mkPass nat None (λ _ x, x) (λ _ x, x) (λ _ x, (None, x)) (λ _ _ x, (None, x))
    (λ p _ '(out, s), (None, (mkBOut (<["filter" := p]> (bo_typed out)) (bo_edits out), s))) in
  let h := mkHT (ex_gateway []) "kgateway" 80 zero_ref "http" false ∅ "http" false {[ ex_gk := pass ]} ValidationStrict false in
  let backend := (mkBackendRef "c" 1 None None, {[ ex_gk := [ex_policy [EMsg "broken"]] ]}) in
  ∃ r s lg, ex_envoyRoutes h (mkRuleMatch ∅ ∅ ex_route None false zero_ref zero_ref [backend]
      (mkMatch None [] [] None) 0 "" 0 "" 0 None None) "r" 0%nat = (Some r, s, lg) ∧
    route_clusters r = ["c"] ∧ map_to_list (er_config r) = [("filter", "limit")].
Proof. eexists _, _, _. split; [vm_compute; reflexivity|]. by vm_compute. Qed.
