(* ===== verification/Builtin.v ===== *)
(** * Built-in policies (pkg/krtcollections/builtin.go, pluginsdk/policy/retry.go and cors.go,
    kgateway/utils/sanitize.go)

    The filters, timeouts, retries and session persistence of an HTTPRoute or GRPCRoute rule:
    their conversion to an IR when the route is indexed, and the translation pass that applies
    them to an Envoy route, once per policy from the most specific rule to its delegating
    parents.

    The route handed to the pass is never nil.  Texts of the API are ASCII where Go changes
    their case; names of cookies and headers are arbitrary bytes. *)

From S2P Require Import Prelude Reports IR SortableRoute Delegation RouteTree Query Filters PolicyMerge References PolicyIndex RoutesIndex.
From S2P Require Import ListenerValidation GatewayIndex ListenerTranslator GoNum Hashing SslUtils EnvoyRoute RouteConfig.

(** ** The Gateway API *)

Module Gw.
Record Header := mkHeader { h_name : string; h_value : string }.
Record HTTPHeaderFilter := mkHeaderFilter { hf_set : list Header; hf_add : list Header; hf_remove : list string }.
Record Fraction := mkFraction { fr_num : Z; fr_den : option Z }.
Record HTTPRequestMirrorFilter := mkMirrorFilter {
  mf_ref : BackendObjectReference; mf_percent : option Z; mf_fraction : option Fraction }.
Record HTTPPathModifier := mkPathModifier {
  pm_type : string; pm_full : option string; pm_prefix : option string }.
Record HTTPRequestRedirectFilter := mkRedirectFilter {
  rf_scheme : option string; rf_hostname : option string; rf_path : option HTTPPathModifier;
  rf_port : option Z; rf_status : option Z }.
Record HTTPURLRewriteFilter := mkRewriteFilter { uf_hostname : option string; uf_path : option HTTPPathModifier }.
Record HTTPCORSFilter := mkCorsFilter {
  cf_origins : list string; cf_credentials : option bool; cf_methods : list string; cf_headers : list string;
  cf_expose : list string; cf_max_age : Z }.

(** The alternatives of [HTTPRouteFilter] other than the extension reference. *)
Record FilterBody := mkBody {
  fb_request_headers : option HTTPHeaderFilter; fb_response_headers : option HTTPHeaderFilter;
  fb_mirror : option HTTPRequestMirrorFilter; fb_redirect : option HTTPRequestRedirectFilter;
  fb_rewrite : option HTTPURLRewriteFilter; fb_cors : option HTTPCORSFilter }.

Record HTTPRouteTimeouts := mkTimeouts { t_request : option string; t_backend : option string }.
Record HTTPRouteRetry := mkRetrySpec { r_codes : list Z; r_attempts : option Z; r_backoff : option string }.
(** The configuration of the cookie is its lifetime type. *)
Record SessionPersistence := mkSession {
  sp_name : option string; sp_timeout : option string; sp_type : option string; sp_cookie : option (option string) }.
Record RuleBody := mkRuleBody {
  rb_timeouts : option HTTPRouteTimeouts; rb_retry : option HTTPRouteRetry; rb_session : option SessionPersistence }.
End Gw.
Import Gw.

(** ** Envoy messages *)

Inductive HeaderAppendAction := APPEND_IF_EXISTS_OR_ADD | OVERWRITE_IF_EXISTS_OR_ADD.
Record HeaderValueOption := mkHVO { hvo_key : string; hvo_value : string; hvo_action : HeaderAppendAction }.

Record SessionCookie := mkCookie { ck_name : string; ck_ttl : option Z; ck_path : string }.
Inductive SessionState := CookieBased (c : SessionCookie) | HeaderBased (name : string).

Record CorsPolicy := mkCors {
  co_origins : list StringMatcher; co_methods : string; co_headers : string; co_credentials : option bool;
  co_expose : string; co_max_age : string; co_forward_preflights : option bool;
  co_filter_enabled : option (FractionalPercent * string) }.

(** The messages that are packed: a state of a session, the session of a route with its
    extension, CORS of a route, and the empty configurations of the two filters. *)
Inductive BuiltinMsg (Any : Type) :=
| MState (s : SessionState)
| MPerRoute (name : string) (state : Any)
| MCors (c : CorsPolicy)
| MCorsFilter
| MSessionFilter.
Arguments MState {Any}. Arguments MPerRoute {Any}. Arguments MCors {Any}.
Arguments MCorsFilter {Any}. Arguments MSessionFilter {Any}.

Definition statefulSessionFilterName : string := "envoy.filters.http.stateful_session".
Definition CORS : string := "envoy.filters.http.cors".

(** ** Names (sanitize.go) *)

(** The number of bytes of the next rune: a well-formed UTF-8 sequence, or one byte. *)
Definition continuation (lo hi : nat) (a : Ascii.ascii) : bool :=
  let n := Ascii.nat_of_ascii a in ((lo <=? n) && (n <=? hi))%nat.

Definition utf8_width (s : list Ascii.ascii) : nat :=
  match s with
  | a :: r =>
      let n := Ascii.nat_of_ascii a in
      let c := continuation 128 191 in
      let lo := if (n =? 224)%nat then 160 else if (n =? 240)%nat then 144 else 128 in
      let hi := if (n =? 237)%nat then 159 else if (n =? 244)%nat then 143 else 191 in
      match r with
      | b :: r =>
          if ((194 <=? n) && (n <=? 223))%nat then (if c b then 2 else 1)
          else match r with
               | d :: r =>
                   if ((224 <=? n) && (n <=? 239))%nat then (if continuation lo hi b && c d then 3 else 1)
                   else match r with
                        | e :: _ => if ((240 <=? n) && (n <=? 244))%nat && (continuation lo hi b && c d && c e) then 4 else 1
                        | [] => 1
                        end
               | [] => 1
               end
      | [] => 1
      end
  | [] => 1
  end%nat.

(** [strings.Map] with a function that maps ASCII to ASCII and every other rune to one byte:
    [skip] bytes of the current rune are left. *)
Fixpoint map_runes (f : Ascii.ascii → Ascii.ascii) (other : Ascii.ascii) (skip : nat) (s : list Ascii.ascii) :
    list Ascii.ascii :=
  match s with
  | [] => []
  | a :: r =>
      match skip with
      | S k => map_runes f other k r
      | O => if (Ascii.nat_of_ascii a <? 128)%nat then f a :: map_runes f other 0 r
             else other :: map_runes f other (utf8_width s - 1) r
      end
  end.

Definition is_control (a : Ascii.ascii) : bool :=
  let n := Ascii.nat_of_ascii a in ((n <? 32) || (n =? 127))%nat.
Definition cookie_separators : list Ascii.ascii :=
  String.list_ascii_of_string ("()<>@,;:\" +:+ quote +:+ "/[]?={} " +:+ byte 9).
Definition cookie_char (a : Ascii.ascii) : bool := negb (is_control a || existsb (Ascii.eqb a) cookie_separators).
Definition header_char (a : Ascii.ascii) : bool :=
  is_alnum a || existsb (Ascii.eqb a) (String.list_ascii_of_string "!#$%&'*+-.^_`|~").

Definition SanitizeCookieName (name : string) : string :=
  if String.eqb name "" then "cookie"
  else String.string_of_list_ascii
         (map_runes (λ c, if cookie_char c then c else "_"%char) "_"%char 0 (String.list_ascii_of_string name)).
Definition SanitizeHeaderName (name : string) : string :=
  if String.eqb name "" then "header"
  else String.string_of_list_ascii
         (map_runes (λ c, if header_char c then c else "-"%char) "-"%char 0 (String.list_ascii_of_string name)).

(** ** Retries (retry.go) *)

(** [kgateway.Retry]; durations in nanoseconds. *)
Record Retry := mkKRetry {
  kr_on : list string; kr_attempts : Z; kr_per_try : option Z; kr_codes : list Z; kr_backoff : option Z }.

Definition to_uint32 (z : Z) : Z := z mod 2 ^ 32.
Definition to_int32 (z : Z) : Z := (z + 2 ^ 31) mod 2 ^ 32 - 2 ^ 31.

(** The sorted list of a set of strings. *)
Definition set_list (l : list string) : list string := sort_stable String.compare (remove_dups l).

Definition retryOnToString (retryOn : list string) (forStatusCodes : bool) : string :=
  join "," (set_list (retryOn ++ if forStatusCodes then ["retriable-status-codes"] else [])).

Definition retryCodesToUint32 (codes : list Z) : list Z := map to_uint32 codes.

Definition BuildRetryPolicy (i : Retry) : RetryPolicy :=
  mkRetry (retryOnToString (kr_on i) (negb (bool_decide (kr_codes i = [])))) (Some (to_uint32 (kr_attempts i)))
    (retryCodesToUint32 (kr_codes i)) (kr_per_try i) (kr_backoff i).

(** [convertRetry]; durations that do not parse are left out. *)
Definition convertRetry (retry : HTTPRouteRetry) (timeout : option HTTPRouteTimeouts) : RetryPolicy :=
  BuildRetryPolicy
    (mkKRetry ["cancelled"; "connect-failure"; "refused-stream"; "retriable-headers"; "retriable-status-codes"; "unavailable"; "reset"]
       (match r_attempts retry with Some a => to_int32 a | None => 1 end)
       (t ← timeout; b ← t_backend t; ParseDuration b) (r_codes retry)
       (b ← r_backoff retry; ParseDuration b)).

(** ** Timeouts *)

Record timeouts := mkTO { to_request : option Z; to_backend : option Z }.

Definition convertTimeouts (timeout : option HTTPRouteTimeouts) : option timeouts :=
  t ← timeout; Some (mkTO (t_request t ≫= ParseDuration) (t_backend t ≫= ParseDuration)).

(** ** Redirects *)

Definition translatePathRewrite (m : option HTTPPathModifier) : option PathRewriteSpecifier :=
  p ← m;
  if String.eqb (pm_type p) "ReplaceFullPath" then Some (PathRedirect (default "/" (pm_full p)))
  else if String.eqb (pm_type p) "ReplacePrefixMatch" then Some (PrefixRewrite (default "/" (pm_prefix p)))
  else None.

Definition translateScheme (scheme : option string) : option SchemeRewriteSpecifier :=
  s ← scheme; Some (if String.eqb (to_lower s) "https" then HttpsRedirect true else SchemeRedirect s).

Definition defaultPortForScheme (scheme : string) : Z :=
  let s := to_lower scheme in
  if String.eqb s "http" then 80 else if String.eqb s "https" then 443 else 0.

Definition translateHostname (hostname : option string) : string := default "" hostname.

Definition httpRedirectStatusCodesAllowedMsg : string := "must be one of 301, 302, 303, 307, 308".
Definition HTTPRedirectStatusCode : string := "kgateway.dev/http-redirect-status-code".

(** [parseRedirectStatusCode]: the code, nothing for another rule, or an error. *)
Definition parseRedirectStatusCode (val : string) (ruleName : option string) : error + option Z :=
  let '(forRule, val) := match split "="%char val with [r; v] => (r, trim_space v) | _ => ("", val) end in
  match ruleName with
  | Some n =>
      if negb (String.eqb forRule "") && negb (String.eqb forRule n) then inr None
      else match Atoi val with
           | None => inl (EMsg ("invalid redirect status code: " +:+ val +:+ "; " +:+ httpRedirectStatusCodesAllowedMsg))
           | Some c => inr (Some c)
           end
  | None =>
      match Atoi val with
      | None => inl (EMsg ("invalid redirect status code: " +:+ val +:+ "; " +:+ httpRedirectStatusCodesAllowedMsg))
      | Some c => inr (Some c)
      end
  end.

(** The loop of [parseRedirectStatusCodeAnnotation]. *)
Fixpoint first_code (l : list string) (ruleName : option string) : error + option Z :=
  match l with
  | [] => inr None
  | v :: l =>
      match parseRedirectStatusCode (trim_space v) ruleName with
      | inl e => inl e
      | inr (Some c) => inr (Some c)
      | inr None => first_code l ruleName
      end
  end.

Definition parseRedirectStatusCodeAnnotation (value : string) (ruleName : option string) : error + option Z :=
  if String.eqb value "" then inl (EMsg "missing value") else first_code (split ","%char value) ruleName.

(** The codes a redirect can have. *)
Definition response_code (c : Z) : option RedirectResponseCode :=
  (if c =? 301 then Some MOVED_PERMANENTLY else if c =? 302 then Some FOUND else if c =? 303 then Some SEE_OTHER
   else if c =? 307 then Some TEMPORARY_REDIRECT else if c =? 308 then Some PERMANENT_REDIRECT else None)%Z.

Definition translateStatusCode (statusCode : option Z) (ruleName : option string) (annotations : gmap string string) :
    error + RedirectResponseCode :=
  match match annotations !! HTTPRedirectStatusCode with
        | Some v => parseRedirectStatusCodeAnnotation v ruleName
        | None => inr None
        end with
  | inl e => inl e
  | inr override =>
      match (match override with Some c => Some c | None => statusCode end) with
      | None => inr FOUND
      | Some c =>
          match response_code c with
          | Some r => inr r
          | None => inl (EMsg ("invalid redirect status code: " +:+ pretty c +:+ "; " +:+ httpRedirectStatusCodesAllowedMsg))
          end
      end
  end.

(** ** CORS (cors.go) *)

(** [regexp.QuoteMeta]. *)
Definition is_meta (a : Ascii.ascii) : bool := existsb (Ascii.eqb a) (String.list_ascii_of_string "\.+*?()|[]{}^$").
Fixpoint QuoteMeta (s : string) : string :=
  match s with
  | EmptyString => ""
  | String a s' => if is_meta a then String "\"%char (String a (QuoteMeta s')) else String a (QuoteMeta s')
  end.

(** [strings.ReplaceAll] of an escaped star by [.*]. *)
Fixpoint unescape_stars (s : string) : string :=
  match s with
  | String a ((String b s') as r) =>
      if Ascii.eqb a "\"%char && Ascii.eqb b "*"%char then String "."%char (String "*"%char (unescape_stars s'))
      else String a (unescape_stars r)
  | _ => s
  end.

Section cors.
Context `{GS : GoSyntax}.

(** [ConvertOriginToEnvoyStringMatcher]. *)
Definition ConvertOriginToEnvoyStringMatcher (origin : string) : option StringMatcher :=
  if String.eqb origin "*" then Some (SMRegex (Some "^[a-zA-Z][a-zA-Z0-9+.-]*://[^/\s?#]+$"))
  else if (count_char "*"%char origin =? 0)%nat then Some (SMExact origin)
  else if (count_char "*"%char origin =? 1)%nat && has_suffix origin "*" then Some (SMPrefix (trim_suffix origin "*"))
  else
    let regexPattern := unescape_stars (QuoteMeta origin) in
    match CheckRegexString regexPattern with
    | Some _ => None
    | None => Some (SMRegex (Some ("^" +:+ regexPattern +:+ "$")))
    end.

(** [BuildCorsPolicy]. *)
Definition BuildCorsPolicy (f : option HTTPCORSFilter) (disable : bool) : option CorsPolicy :=
  if disable then
    Some (mkCors [] "" "" None "" "" None (Some (mkFrac 0 HUNDRED, "envoy.cors.filter_enabled")))
  else
    f ← f;
    Some (mkCors (omap ConvertOriginToEnvoyStringMatcher (cf_origins f)) (join ", " (cf_methods f)) (join ", " (cf_headers f))
            (match cf_credentials f with Some true => Some true | _ => None end) (join ", " (cf_expose f))
            (if (cf_max_age f =? 0)%Z then "" else pretty (cf_max_age f)) (Some false) None).
End cors.

(** ** The IR *)

Record mirrorIr := mkMI { mi_cluster : string; mi_fraction : option FractionalPercent }.
Record headerModifierIr := mkHM { hm_add : list HeaderValueOption; hm_remove : list string; hm_request : bool }.
(** The rewrite of the host is a literal. *)
Record urlRewriteIr := mkUR { ur_host : option string; ur_full : string; ur_prefix : string }.

Section ir.
Context {Any Rest : Type}.

Record requestRedirectIr := mkRR { rr_redir : @RedirectAction Rest; rr_scheme : option string; rr_port : option Z }.

Inductive filterPolicy :=
| FMirror (m : mirrorIr)
| FHeaders (h : headerModifierIr)
| FRedirect (r : requestRedirectIr)
| FRewrite (u : urlRewriteIr)
| FCors (c : Any).

Record filterIR := mkFIR { fi_type : string; fi_policy : filterPolicy }.

Record ruleIR := mkRIR { ru_timeouts : option timeouts; ru_retry : option RetryPolicy; ru_session : option (BuiltinMsg Any) }.

Record builtinPlugin := mkBP { bp_filter : option filterIR; bp_rule : ruleIR; bp_cors : bool }.
End ir.
Arguments requestRedirectIr : clear implicits.
Arguments filterPolicy : clear implicits.
Arguments filterIR : clear implicits.
Arguments ruleIR : clear implicits.
Arguments builtinPlugin : clear implicits.

(** The packing of messages; a nil message is an error. *)
Class BuiltinLib (Any : Type) := { builtin_to_any : BuiltinMsg Any → error + Any }.

Section convert.
Context {Any Rest : Type} `{BL : BuiltinLib Any} `{GS : GoSyntax}.
Context {P : Type} `{PO : PolicyIrOps P}.

Definition zero_rule : ruleIR Any := mkRIR None None None.

(** *** Sessions *)

Definition CookieType : string := "Cookie".
Definition HeaderType : string := "Header".

(** The lifetime of the cookie: none for a session, at least a year for a permanent one. *)
Definition cookie_ttl (s : SessionPersistence) : option Z :=
  let ttl := sp_timeout s ≫= ParseDuration in
  match mjoin (sp_cookie s) with
  | Some l => if String.eqb l "Session" then None
              else if String.eqb l "Permanent" then Some (default (365 * 24 * 3600 * 1000000000)%Z ttl)
              else ttl
  | None => ttl
  end.

Definition session_state (spType : string) (s : SessionPersistence) : option SessionState :=
  if String.eqb spType CookieType then
    Some (CookieBased (mkCookie (SanitizeCookieName (default "sessionPersistence" (sp_name s))) (cookie_ttl s) "/"))
  else if String.eqb spType HeaderType then
    Some (HeaderBased (SanitizeHeaderName (default "x-session-persistence" (sp_name s))))
  else None.

Definition convertSessionPersistence (s : SessionPersistence) : option (BuiltinMsg Any) :=
  let spType := default CookieType (sp_type s) in
  match MState <$> session_state spType s with
  | None => None
  | Some m =>
      match builtin_to_any m with
      | inl _ => None
      | inr a => Some (MPerRoute ("envoy.http.stateful_session." +:+ to_lower spType) a)
      end
  end.

(** *** Rules *)

Definition buildHTTPRouteRulePolicy (experimental : bool) (rule : RuleBody) : ruleIR Any :=
  mkRIR (convertTimeouts (rb_timeouts rule))
    (r ← rb_retry rule; if experimental then Some (convertRetry r (rb_timeouts rule)) else None)
    (s ← rb_session rule; if experimental then convertSessionPersistence s else None).

Definition NewBuiltInRuleIr (experimental : bool) (rule : RuleBody) : option (builtinPlugin Any Rest) :=
  match rb_timeouts rule, rb_retry rule, rb_session rule with
  | None, None, None => None
  | _, _, _ => Some (mkBP None (buildHTTPRouteRulePolicy experimental rule) false)
  end.

(** *** Mirrors *)

Definition getFractionPercent (f : HTTPRequestMirrorFilter) : option FractionalPercent :=
  match mf_percent f with
  | Some p => Some (mkFrac (to_uint32 p) HUNDRED)
  | None =>
      fr ← mf_fraction f;
      let denom := Float64.of_Z (default 100%Z (fr_den fr)) in
      let ratio := Float64.div (Float64.of_Z (fr_num fr)) denom in
      Some (mkFrac (to_uint32 (default 0%Z (Float64.trunc (Float64.mul ratio (Float64.of_Z 1000000))))) MILLION)
  end.

(** [convertMirrorIR]: nothing for a reference that is not allowed or not found. *)
Definition convertMirrorIR (f : option HTTPRequestMirrorFilter) (fromgk : GroupKind) (fromns : string)
    (refgrants : RefGrantIndex) (ups : BackendIndex P) : option (option mirrorIr) :=
  match f with
  | None => Some None
  | Some f =>
      if negb (ReferenceAllowed refgrants fromgk fromns (toFromBackendRef fromns (mf_ref f))) then Some None
      else
        up ← getBackendFromRef ups fromns (mf_ref f);
        Some (match up with
              | inl _ => None
              | inr up => Some (mkMI (bo_cluster_name up) (getFractionPercent f))
              end)
  end.

(** *** Headers, rewrites and redirects *)

Definition header_option (action : HeaderAppendAction) (h : Header) : HeaderValueOption := mkHVO (h_name h) (h_value h) action.

Definition convertHeaderModifierIR (f : option HTTPHeaderFilter) (isRequest : bool) : option headerModifierIr :=
  f ← f;
  Some (mkHM (map (header_option APPEND_IF_EXISTS_OR_ADD) (hf_add f) ++ map (header_option OVERWRITE_IF_EXISTS_OR_ADD) (hf_set f))
          (hf_remove f) isRequest).

Definition convertURLRewriteIR (config : option HTTPURLRewriteFilter) : option urlRewriteIr :=
  c ← config;
  let '(full, prefix) :=
    match uf_path c with
    | Some p =>
        if String.eqb (pm_type p) "ReplaceFullPath" then (default "/" (pm_full p), "")
        else if String.eqb (pm_type p) "ReplacePrefixMatch" then ("", default "/" (pm_prefix p))
        else ("", "")
    | None => ("", "")
    end in
  Some (mkUR (uf_hostname c) full prefix).

Definition convertRequestRedirectIR (f : option HTTPRequestRedirectFilter) (ruleName : option string)
    (annotations : gmap string string) : error + option (requestRedirectIr Rest) :=
  match f with
  | None => inr None
  | Some f =>
      match translateStatusCode (rf_status f) ruleName annotations with
      | inl e => inl e
      | inr code =>
          inr (Some (mkRR (mkRD (translatePathRewrite (rf_path f)) (translateHostname (rf_hostname f))
                             (translateScheme (rf_scheme f)) 0 code None) (rf_scheme f) (rf_port f)))
      end
  end.

Definition convertCORSIR (f : option HTTPCORSFilter) : option Any :=
  match BuildCorsPolicy f false with
  | None => None
  | Some p => match builtin_to_any (MCors p) with inl _ => None | inr a => Some a end
  end.

(** *** Filters *)

Definition policy_of {A} (f : A → filterPolicy Any Rest) (o : option A) : error + option (filterPolicy Any Rest) := inr (f <$> o).

(** The policy of a filter by its type; [None] where the backend index panics. *)
Definition filter_policy (type : string) (b : FilterBody) (fromgk : GroupKind) (fromns : string) (refgrants : RefGrantIndex)
    (ups : BackendIndex P) (ruleName : option string) (annotations : gmap string string) :
    option (error + option (filterPolicy Any Rest)) :=
  if String.eqb type "RequestMirror" then
    m ← convertMirrorIR (fb_mirror b) fromgk fromns refgrants ups; Some (policy_of FMirror m)
  else if String.eqb type "RequestHeaderModifier" then Some (policy_of FHeaders (convertHeaderModifierIR (fb_request_headers b) true))
  else if String.eqb type "ResponseHeaderModifier" then Some (policy_of FHeaders (convertHeaderModifierIR (fb_response_headers b) false))
  else if String.eqb type "RequestRedirect" then
    Some (match convertRequestRedirectIR (fb_redirect b) ruleName annotations with
          | inl e => inl e
          | inr r => policy_of FRedirect r
          end)
  else if String.eqb type "URLRewrite" then Some (policy_of FRewrite (convertURLRewriteIR (fb_rewrite b)))
  else if String.eqb type "CORS" then Some (policy_of FCors (convertCORSIR (fb_cors b)))
  else Some (inr None).

Definition convertfilterIR (type : string) (b : FilterBody) (fromgk : GroupKind) (fromns : string) (refgrants : RefGrantIndex)
    (ups : BackendIndex P) (ruleName : option string) (annotations : gmap string string) :
    option (error + option (filterIR Any Rest)) :=
  match filter_policy type b fromgk fromns refgrants ups ruleName annotations with
  | None => None
  | Some (inl e) => Some (inl e)
  | Some (inr p) => Some (inr (mkFIR type <$> p))
  end.

Definition NewBuiltInIr (refgrants : RefGrantIndex) (ups : BackendIndex P) (f : @HTTPRouteFilter FilterBody) (fromgk : GroupKind)
    (fromns : string) (ruleName : option string) (annotations : gmap string string) : option (error + builtinPlugin Any Rest) :=
  let cors := if String.eqb (f_type f) "CORS" then fb_cors (f_body f) else None in
  match convertfilterIR (f_type f) (f_body f) fromgk fromns refgrants ups ruleName annotations with
  | None => None
  | Some (inl e) => Some (inl e)
  | Some (inr fi) =>
      Some (inr (mkBP fi zero_rule (match cors, fi with Some _, Some _ => true | _, _ => false end)))
  end.

(** How the index of routes calls it: the referrer is an HTTPRoute. *)
Definition HTTPRouteGK : GroupKind := mkGK GatewayGroup HTTPRouteKind.
Definition index_builtin (h : @RoutesIndex P) (f : @HTTPRouteFilter FilterBody) (ns : string) (ruleName : option string)
    (annotations : gmap string string) : option (error + builtinPlugin Any Rest) :=
  NewBuiltInIr (bi_refgrants (ri_backends h)) (ri_backends h) f HTTPRouteGK ns ruleName annotations.
End convert.

(** ** The translation pass *)

Section pass.
Context {P Msg Any Rest : Type} `{BL : BuiltinLib Any} `{PK : PolicyKind P (builtinPlugin Any Rest)}.
(** An [Any] is itself a message. *)
Context (any_msg : Any → Msg).

Abbreviation Route := (EnvoyRoute Any HeaderValueOption Rest).
Abbreviation RAction := (RouteAction Any HeaderValueOption Rest).
Abbreviation Typed := (gmap string Msg).

(** [builtinPluginGwPass]: the filter chains that need the CORS and the session filter. *)
Record PassState := mkPS { ps_cors : gmap string bool; ps_session : gmap string bool }.
Definition need_cors (chain : string) (s : PassState) : PassState := mkPS (<[chain := true]> (ps_cors s)) (ps_session s).
Definition need_session (chain : string) (s : PassState) : PassState := mkPS (ps_cors s) (<[chain := true]> (ps_session s)).

(** Field updates of the action. *)
Definition ra_set (timeout : option Z) (retry : option RetryPolicy) (mirrors : list RequestMirrorPolicy)
    (host : option (@HostRewriteSpecifier Rest)) (regex : option RegexRewrite) (prefix : string) (a : RAction) : RAction :=
  mkRA (ra_cluster a) (ra_not_found_500 a) prefix (ra_upgrades a) timeout retry mirrors host regex (ra_rest a).
Definition ra_with_timeout t (a : RAction) : RAction :=
  ra_set t (ra_retry a) (ra_mirrors a) (ra_host_rewrite a) (ra_regex_rewrite a) (ra_prefix_rewrite a) a.
Definition ra_with_retry r (a : RAction) : RAction :=
  ra_set (ra_timeout a) r (ra_mirrors a) (ra_host_rewrite a) (ra_regex_rewrite a) (ra_prefix_rewrite a) a.
Definition ra_add_mirror m (a : RAction) : RAction :=
  ra_set (ra_timeout a) (ra_retry a) (ra_mirrors a ++ [m]) (ra_host_rewrite a) (ra_regex_rewrite a) (ra_prefix_rewrite a) a.
Definition ra_with_host h (a : RAction) : RAction :=
  ra_set (ra_timeout a) (ra_retry a) (ra_mirrors a) h (ra_regex_rewrite a) (ra_prefix_rewrite a) a.
Definition ra_with_path regex prefix (a : RAction) : RAction :=
  ra_set (ra_timeout a) (ra_retry a) (ra_mirrors a) (ra_host_rewrite a) regex prefix a.

(** What is done to the route action, where the route has one. *)
Definition on_action (f : RAction → RAction) (out : Route) : Route :=
  match route_action_of out with Some a => er_with_action (Some (ARoute (f a))) out | None => out end.

(** *** Rules *)

Definition applyTimeouts (t : option timeouts) (hasRetry : bool) (opts : MergeOptions) (a : RAction) : RAction :=
  match t with
  | None => a
  | Some t =>
      if negb (IsSettable (go_ptr (ra_timeout a)) opts) then a
      else match to_backend t, to_request t with
           | Some b, Some q => ra_with_timeout (Some (if hasRetry then q else b)) a
           | Some b, None => ra_with_timeout (if hasRetry then None else Some b) a
           | None, Some q => ra_with_timeout (Some q) a
           | None, None => a
           end
  end.

Definition applyRetry (r : option RetryPolicy) (opts : MergeOptions) (a : RAction) : RAction :=
  match r with
  | None => a
  | Some _ => if IsSettable (go_ptr (ra_retry a)) opts then ra_with_retry r a else a
  end.

Definition set_config (name : string) (c : Any) (out : Route) : Route := er_with_config (<[name := c]> (er_config out)) out.
Definition config_settable (name : string) (opts : MergeOptions) (out : Route) : bool :=
  IsSettable (go_ptr (er_config out !! name)) opts.

Definition applySession (chain : string) (m : option (BuiltinMsg Any)) (opts : MergeOptions) (x : Route * PassState) :
    Route * PassState :=
  match m with
  | None => x
  | Some m =>
      if config_settable statefulSessionFilterName opts x.1 then
        match builtin_to_any m with
        | inl _ => x
        | inr a => (set_config statefulSessionFilterName a x.1, need_session chain x.2)
        end
      else x
  end.

(** [applyRulePolicy]; its error is dropped by the caller. *)
Definition applyRulePolicy (chain : string) (r : ruleIR Any) (opts : MergeOptions) (x : Route * PassState) : Route * PassState :=
  match route_action_of x.1 with
  | None => x
  | Some _ =>
      let out := on_action (λ a, applyRetry (ru_retry r) opts
                                   (applyTimeouts (ru_timeouts r) (bool_decide (is_Some (ru_retry r))) opts a)) x.1 in
      applySession chain (ru_session r) opts (out, x.2)
  end.

(** *** Filters *)

Definition mirror_apply (m : mirrorIr) : Route → Route := on_action (ra_add_mirror (mkMirror (mi_cluster m) (mi_fraction m))).

Definition header_edits (h : headerModifierIr) : HeaderEdits HeaderValueOption :=
  if hm_request h then mkHE (hm_add h) (hm_remove h) [] [] else mkHE [] [] (hm_add h) (hm_remove h).
Definition headers_apply (h : headerModifierIr) (out : Route) : Route :=
  er_with_edits (append_edits (er_edits out) (header_edits h)) out.

Definition redirect_apply (r : requestRedirectIr Rest) (opts : MergeOptions) (out : Route) : Route :=
  if IsSettable (go_ptr (redirect_of out)) opts then er_with_action (Some (ARedirect (rr_redir r))) out else out.

(** [isPathRewriteSettable]. *)
Definition isPathRewriteSettable (opts : MergeOptions) (a : RAction) : bool :=
  IsSettable (go_ptr (ra_regex_rewrite a)) opts && IsSettable (GString (ra_prefix_rewrite a)) opts.

(** The path of the matcher that a prefix rewrite replaces. *)
Definition matched_path (out : Route) : string :=
  if negb (String.eqb (get_prefix out) "") then get_prefix out
  else if negb (String.eqb (get_path out) "") then get_path out else get_separated out.

Definition rewrite_host (u : urlRewriteIr) (opts : MergeOptions) (a : RAction) : RAction :=
  match ur_host u with
  | None => a
  | Some h => if IsSettable (go_ptr (ra_host_rewrite a)) opts then ra_with_host (Some (HostRewriteLiteral h)) a else a
  end.

Definition rewrite_full (u : urlRewriteIr) (opts : MergeOptions) (a : RAction) : RAction :=
  if negb (String.eqb (ur_full u) "") && isPathRewriteSettable opts a
  then ra_with_path (Some (mkRegex ".*" (ur_full u))) (ra_prefix_rewrite a) a else a.

Definition rewrite_prefix (path : string) (u : urlRewriteIr) (opts : MergeOptions) (a : RAction) : RAction :=
  if negb (String.eqb (ur_prefix u) "") && isPathRewriteSettable opts a then
    if negb (String.eqb path "") && String.eqb (ur_prefix u) "/"
    then ra_with_path (Some (mkRegex ("^" +:+ path +:+ "\/*") "/")) "" a
    else ra_with_path None (ur_prefix u) a
  else a.

Definition rewrite_apply (u : urlRewriteIr) (opts : MergeOptions) (out : Route) : Route :=
  on_action (λ a, rewrite_prefix (matched_path out) u opts (rewrite_full u opts (rewrite_host u opts a))) out.

Definition cors_apply (c : Any) (opts : MergeOptions) (out : Route) : Route :=
  if config_settable CORS opts out then set_config CORS c out else out.

(** [filterIR.apply]. *)
Definition filter_apply (p : filterPolicy Any Rest) (opts : MergeOptions) (out : Route) : Route :=
  match p with
  | FMirror m => mirror_apply m out
  | FHeaders h => headers_apply h out
  | FRedirect r => redirect_apply r opts out
  | FRewrite u => rewrite_apply u opts out
  | FCors c => cors_apply c opts out
  end.

(** [applyRedirectPortPostProcessing]. *)
Definition effective_scheme (r : requestRedirectIr Rest) (tls : bool) : string :=
  let s := to_lower (default "" (rr_scheme r)) in
  if String.eqb s "" then (if tls then "https" else "http") else s.

Definition effective_port (r : requestRedirectIr Rest) (tls : bool) (listenerPort : Z) : Z :=
  match rr_port r, rr_scheme r with
  | Some p, _ => to_uint32 p
  | None, Some _ => defaultPortForScheme (effective_scheme r tls)
  | None, None => listenerPort
  end.

Definition with_port (p : Z) (r : @RedirectAction Rest) : @RedirectAction Rest :=
  mkRD (rd_path_spec r) (rd_host r) (rd_scheme_spec r) p (rd_code r) (rd_rest r).

Definition applyRedirectPortPostProcessing (tls : bool) (listenerPort : Z) (fi : filterIR Any Rest) (out : Route) : Route :=
  match fi_policy fi, redirect_of out with
  | FRedirect r, Some redirect =>
      let port := effective_port r tls listenerPort in
      er_with_action (Some (ARedirect
        (with_port (if (port =? defaultPortForScheme (effective_scheme r tls))%Z then 0 else port) redirect))) out
  | _, _ => out
  end.

(** *** Hooks *)

Definition apply_filter (ctx : @RouteContext P) (fi : filterIR Any Rest) (opts : MergeOptions) (out : Route) : Route :=
  let canPostProcessRedirect :=
    String.eqb (fi_type fi) "RequestRedirect" && IsSettable (go_ptr (redirect_of out)) opts in
  let out := filter_apply (fi_policy fi) opts out in
  if canPostProcessRedirect then applyRedirectPortPostProcessing (rx_tls ctx) (rx_port ctx) fi out else out.

Definition ApplyForRoute (ctx : @RouteContext P) (x : Route * Typed * PassState) : option error * (Route * Typed * PassState) :=
  let '(out, typed, s) := x in
  match pk_as (rx_policy ctx) with
  | None => (None, x)
  | Some pol =>
      let opts := mkMO (GetMergeStrategy (rx_inherited ctx) false) false in
      let out := match bp_filter pol with Some fi => apply_filter ctx fi opts out | None => out end in
      let '(out, s) := applyRulePolicy (rx_chain ctx) (bp_rule pol) opts (out, s) in
      (None, (out, typed, if bp_cors pol then need_cors (rx_chain ctx) s else s))
  end.

(** [applyToBackend] of the filters that support it. *)
Definition filter_apply_backend (p : filterPolicy Any Rest) (out : @BackendOut Msg HeaderValueOption) :
    @BackendOut Msg HeaderValueOption :=
  match p with
  | FHeaders h =>
      let e := bo_edits out in
      mkBOut (bo_typed out)
        (if hm_request h then mkHE (hm_add h) (hm_remove h) (he_response_add e) (he_response_remove e)
         else mkHE (he_request_add e) (he_request_remove e) (hm_add h) (hm_remove h))
  | FCors c => mkBOut (<[CORS := any_msg c]> (bo_typed out)) (bo_edits out)
  | FMirror _ | FRedirect _ | FRewrite _ => out
  end.

Definition ApplyForRouteBackend (policy : P) (ctx : @BackendContext P) (x : @BackendOut Msg HeaderValueOption * PassState) :
    option error * (@BackendOut Msg HeaderValueOption * PassState) :=
  match pk_as policy ≫= bp_filter, pk_as policy with
  | Some fi, Some pol =>
      (None, (filter_apply_backend (fi_policy fi) x.1, if bp_cors pol then need_cors (bx_chain ctx) x.2 else x.2))
  | _, _ => (None, x)
  end.

(** [NewGatewayTranslationPass]; the other hooks do nothing. *)
Definition NewGatewayTranslationPass : @TranslationPass P Msg Any HeaderValueOption Rest PassState :=
  mkPass PassState None (λ _ x, x) (λ _ x, x) ApplyForRoute (λ _ _ x, (None, x)) ApplyForRouteBackend.
Definition new_pass : PassState := mkPS ∅ ∅.

End pass.

(** *** The filters of a chain *)

Section filters.
Context `{BL : BuiltinLib Filters.Any}.

Definition disabled_filter (name : string) (config : BuiltinMsg Filters.Any) (stage : FilterStage) :
    error + StagedFilter (option HttpFilter) :=
  match NewStagedFilter builtin_to_any name (Some config) stage with
  | (_, Some e) => inl e
  | (sf, None) =>
      inr (mkSF ((λ f, mkHttpFilter (hf_name f) (hf_typed_config f) true) <$> sf_filter sf) (sf_stage sf) (sf_weight sf))
  end.

(** [HttpFilters]. *)
Definition HttpFilters (chain : string) (s : PassState) : error + list (StagedFilter (option HttpFilter)) :=
  match (if default false (ps_cors s !! chain)
         then match disabled_filter CORS MCorsFilter (DuringStage CorsStage) with inl e => inl e | inr f => inr [f] end
         else inr []) with
  | inl e => inl e
  | inr l =>
      if default false (ps_session s !! chain) then
        match disabled_filter statefulSessionFilterName MSessionFilter (DuringStage AcceptedStage) with
        | inl e => inl e
        | inr f => inr (l ++ [f])
        end
      else inr l
  end.
End filters.

(** ** Settings along the delegation chain *)

Section lemmas.
Context {P Msg Any Rest : Type} `{BL : BuiltinLib Any} `{PK : PolicyKind P (builtinPlugin Any Rest)}.

Abbreviation Route := (EnvoyRoute Any HeaderValueOption Rest).
Abbreviation RAction := (RouteAction Any HeaderValueOption Rest).
Abbreviation Typed := (gmap string Msg).
Abbreviation Plugin := (builtinPlugin Any Rest).

(** A policy overrides what is set already unless its priority is that of a shallow merge that
    prefers the child. *)
Definition overriding (i : InheritedPolicyPriorityValue) : bool :=
  match i with ShallowMergePreferParent | DeepMergePreferParent | DeepMergePreferChild => true | _ => false end.

Definition route_opts (i : InheritedPolicyPriorityValue) : MergeOptions := mkMO (GetMergeStrategy i false) false.

Lemma settable_spec v i : IsSettable v (route_opts i) = isNil v || overriding i.
Proof. unfold IsSettable, IsMergeable, route_opts. destruct i, v; simpl; by rewrite ?andb_true_r, ?orb_false_r, ?orb_true_r. Qed.

(** The value a sequence of policies leaves in a field: of those that set it, the last one that
    overrides, else what was there, else the first one. *)
Definition winner {A} (init : option A) (l : list (bool * option A)) : option A :=
  match last (omap (λ ov, if ov.1 : bool then ov.2 else None) l) with
  | Some x => Some x
  | None => match init with Some x => Some x | None => head (omap snd l) end
  end.

Definition set_field {A} (cur : option A) (ov : bool * option A) : option A :=
  match ov.2 with
  | None => cur
  | Some x => if isNil (go_ptr cur) || ov.1 then Some x else cur
  end.

Lemma winner_fold {A} (l : list (bool * option A)) init : foldl set_field init l = winner init l.
Proof.
  revert init. induction l as [|[o [x|]] l IH]; intros init; cbn [foldl]; [by destruct init|..]; rewrite IH; unfold winner, set_field; simpl.
  - destruct o; simpl.
    + rewrite last_cons, orb_true_r. by destruct (last _).
    + rewrite orb_false_r. by destruct (last _), init.
  - by destruct o.
Qed.

(** What a policy sets. *)
Definition policy_ir (ctx : @RouteContext P) : Plugin := default (mkBP None zero_rule false) (pk_as (rx_policy ctx)).
Definition filter_of (p : Plugin) : option (filterPolicy Any Rest) := fi_policy <$> bp_filter p.
Definition redirect_of_policy (p : Plugin) : option (requestRedirectIr Rest) :=
  match filter_of p with Some (FRedirect r) => Some r | _ => None end.
Definition host_of (p : Plugin) : option (@HostRewriteSpecifier Rest) :=
  match filter_of p with Some (FRewrite u) => HostRewriteLiteral <$> ur_host u | _ => None end.
Definition cors_of (p : Plugin) : option Any := match filter_of p with Some (FCors c) => Some c | _ => None end.
Definition mirror_of (p : Plugin) : option RequestMirrorPolicy :=
  match filter_of p with Some (FMirror m) => Some (mkMirror (mi_cluster m) (mi_fraction m)) | _ => None end.
Definition edits_of (p : Plugin) : option (HeaderEdits HeaderValueOption) :=
  match filter_of p with Some (FHeaders h) => Some (header_edits h) | _ => None end.
Definition retry_of (p : Plugin) : option RetryPolicy := ru_retry (bp_rule p).
Definition session_of (p : Plugin) : option Any :=
  m ← ru_session (bp_rule p); match builtin_to_any m with inl _ => None | inr a => Some a end.

(** The timeout of a rule: with retries the request timeout, which spans the attempts, without
    them the more specific backend timeout. *)
Definition timeout_of (p : Plugin) : option Z :=
  t ← ru_timeouts (bp_rule p);
  match to_backend t, to_request t with
  | Some b, Some q => Some (if bool_decide (is_Some (retry_of p)) then q else b)
  | Some b, None => if bool_decide (is_Some (retry_of p)) then None else Some b
  | None, q => q
  end.
(** ... and the case in which a timeout that is set already is taken away. *)
Definition clears_timeout (p : Plugin) : bool :=
  match ru_timeouts (bp_rule p), retry_of p with
  | Some (mkTO None (Some _)), Some _ => true
  | _, _ => false
  end.

Definition setters {A} (f : Plugin → option A) (ctxs : list (@RouteContext P)) : list (bool * option A) :=
  map (λ c, (overriding (rx_inherited c), f (policy_ir c))) ctxs.

(** All policies of a route, in order. *)
Definition apply_all (ctxs : list (@RouteContext P)) (x : Route * Typed * PassState) : Route * Typed * PassState :=
  foldl (λ x c, (ApplyForRoute c x).2) x ctxs.

(** *** One policy *)

Lemma on_action_some f (out : Route) a :
  route_action_of out = Some a → on_action f out = er_with_action (Some (ARoute (f a))) out.
Proof. unfold on_action. by intros ->. Qed.

(** What a policy does to a route that has an action and keeps it. *)
Record stepped (i : InheritedPolicyPriorityValue) (p : Plugin) (rule : bool) (out out' : Route) (a a' : RAction) : Prop := mkStepped {
  st_action : route_action_of out' = Some a';
  st_cluster : ra_cluster a' = ra_cluster a;
  st_timeout : rule && clears_timeout p = false →
    ra_timeout a' = set_field (ra_timeout a) (overriding i, if rule then timeout_of p else None);
  st_retry : ra_retry a' = set_field (ra_retry a) (overriding i, if rule then retry_of p else None);
  st_session : er_config out' !! statefulSessionFilterName =
    set_field (er_config out !! statefulSessionFilterName) (overriding i, if rule then session_of p else None);
  st_host : ra_host_rewrite a' = set_field (ra_host_rewrite a) (overriding i, if rule then None else host_of p);
  st_cors : er_config out' !! CORS = set_field (er_config out !! CORS) (overriding i, if rule then None else cors_of p);
  st_mirrors : ra_mirrors a' = ra_mirrors a ++ option_list (if rule then None else mirror_of p);
  st_edits : er_edits out' = from_option (append_edits (er_edits out)) (er_edits out) (if rule then None else edits_of p) }.

Lemma set_field_settable {A} (cur : option A) i x :
  (if IsSettable (go_ptr cur) (route_opts i) then Some x else cur) = set_field cur (overriding i, Some x).
Proof. by rewrite settable_spec. Qed.

Lemma action_no_redirect (x : Route) y : route_action_of x = Some y → redirect_of x = None.
Proof. unfold route_action_of, redirect_of. by destruct (er_action x) as [[]|]. Qed.

(** Without a redirect nothing is post-processed. *)
Lemma no_post_processing tls port fi (b : bool) (x : Route) :
  redirect_of x = None → (if b then applyRedirectPortPostProcessing tls port fi x else x) = x.
Proof. intros Hx. unfold applyRedirectPortPostProcessing. rewrite Hx. by destruct b, (fi_policy fi). Qed.

Ltac policy_fields Hf Ep :=
  unfold host_of, cors_of, mirror_of, edits_of, filter_of; rewrite ?Hf; simpl; rewrite ?Ep, ?app_nil_r; simpl.

Lemma rewrite_keeps path u i (a : RAction) :
  let a' := rewrite_prefix path u (route_opts i) (rewrite_full u (route_opts i) (rewrite_host u (route_opts i) a)) in
  ra_cluster a' = ra_cluster a ∧ ra_timeout a' = ra_timeout a ∧ ra_retry a' = ra_retry a ∧ ra_mirrors a' = ra_mirrors a ∧
  ra_host_rewrite a' = set_field (ra_host_rewrite a) (overriding i, HostRewriteLiteral <$> ur_host u).
Proof.
  intros a'. set (b := rewrite_host u (route_opts i) a) in *.
  assert (ra_cluster a' = ra_cluster b ∧ ra_timeout a' = ra_timeout b ∧ ra_retry a' = ra_retry b ∧ ra_mirrors a' = ra_mirrors b ∧
          ra_host_rewrite a' = ra_host_rewrite b) as (-> & -> & -> & -> & ->).
  { subst a'. unfold rewrite_prefix, rewrite_full. by repeat case_match. }
  subst b. unfold rewrite_host. destruct (ur_host u) as [h|]; simpl; [|done].
  pose proof (set_field_settable (ra_host_rewrite a) i (HostRewriteLiteral h)) as <-. by case_match.
Qed.

Lemma filter_step (ctx : @RouteContext P) fi p i out a :
  bp_filter p = Some fi → redirect_of_policy p = None → route_action_of out = Some a →
  ∃ a', stepped i p false out (apply_filter ctx fi (route_opts i) out) a a'.
Proof.
  intros Hf Hr Ha. unfold apply_filter, redirect_of_policy, filter_of in *. rewrite Hf in Hr. simpl in Hr.
  destruct (fi_policy fi) as [m|h|r|u|c] eqn:Ep; try done; cbn [filter_apply].
  - unfold mirror_apply. rewrite (on_action_some _ _ _ Ha), no_post_processing by done.
    eexists. split; policy_fields Hf Ep; done.
  - unfold headers_apply. rewrite no_post_processing by (by eapply action_no_redirect).
    exists a. split; policy_fields Hf Ep; done.
  - unfold rewrite_apply. rewrite (on_action_some _ _ _ Ha), no_post_processing by done.
    destruct (rewrite_keeps (matched_path out) u i a) as (H1 & H2 & H3 & H4 & H5).
    eexists. split; policy_fields Hf Ep; done.
  - unfold cors_apply, config_settable. rewrite no_post_processing by (case_match; by eapply action_no_redirect).
    exists a. pose proof (set_field_settable (er_config out !! CORS) i c) as Hs.
    destruct (IsSettable (go_ptr (er_config out !! CORS)) (route_opts i));
      split; policy_fields Hf Ep; try done; by rewrite ?lookup_insert_eq, ?lookup_insert_ne.
Qed.

Lemma rule_action p i (a : RAction) :
  let r := bp_rule p in
  let a' := applyRetry (ru_retry r) (route_opts i)
              (applyTimeouts (ru_timeouts r) (bool_decide (is_Some (ru_retry r))) (route_opts i) a) in
  (clears_timeout p = false → ra_timeout a' = set_field (ra_timeout a) (overriding i, timeout_of p)) ∧
  ra_retry a' = set_field (ra_retry a) (overriding i, retry_of p) ∧
  ra_cluster a' = ra_cluster a ∧ ra_host_rewrite a' = ra_host_rewrite a ∧ ra_mirrors a' = ra_mirrors a.
Proof.
  intros r a'. unfold clears_timeout, timeout_of, retry_of in *. fold r.
  set (b := applyTimeouts _ _ _ a) in *.
  assert (ra_timeout a' = ra_timeout b ∧ ra_retry a' = set_field (ra_retry b) (overriding i, ru_retry r) ∧
          ra_cluster a' = ra_cluster b ∧ ra_host_rewrite a' = ra_host_rewrite b ∧ ra_mirrors a' = ra_mirrors b) as (-> & -> & -> & -> & ->).
  { subst a'. unfold applyRetry. destruct (ru_retry r) as [rp|]; [|done]. rewrite <- set_field_settable. by destruct (IsSettable _ _). }
  subst b. unfold applyTimeouts. rewrite settable_spec.
  destruct (ru_timeouts r) as [[[q|] [b|]]|], (ru_retry r) as [rp|]; simpl in *; try done;
    split_and!; try done; try (intros _); by destruct (isNil (go_ptr (ra_timeout a)) || overriding i) eqn:E; simpl in E; unfold set_field; simpl; rewrite ?E.
Qed.

Lemma rule_step p i chain out s a :
  route_action_of out = Some a →
  ∃ out' s' a', applyRulePolicy chain (bp_rule p) (route_opts i) (out, s) = (out', s') ∧ stepped i p true out out' a a'.
Proof.
  intros Ha. unfold applyRulePolicy, applySession. cbn [fst]. rewrite Ha, (on_action_some _ _ _ Ha).
  destruct (rule_action p i a) as (H1 & H2 & H3 & H4 & H5). set (a' := applyRetry _ _ _) in *.
  set (b := match ru_session (bp_rule p) with None => _ | Some _ => _ end).
  exists b.1, b.2, a'. split; [by destruct b|]. subst b.
  pose proof (λ x, set_field_settable (er_config out !! statefulSessionFilterName) i x) as Hs.
  unfold config_settable. cbn [fst snd er_with_action er_config].
  destruct (ru_session (bp_rule p)) as [m|] eqn:Em; [|split; unfold session_of; rewrite ?Em, ?app_nil_r; done].
  destruct (builtin_to_any m) as [e|c] eqn:Eb;
    [case_match; split; unfold session_of; rewrite ?Em; simpl; rewrite ?Eb, ?app_nil_r; done|].
  specialize (Hs c). destruct (IsSettable _ _); split; unfold session_of; rewrite ?Em; simpl; rewrite ?Eb, ?app_nil_r; try done;
    by rewrite ?lookup_insert_eq, ?lookup_insert_ne.
Qed.

(** One policy: its filter, then its rule. *)
Record applied (i : InheritedPolicyPriorityValue) (p : Plugin) (out out' : Route) (a a' : RAction) : Prop := mkApplied {
  ap_action : route_action_of out' = Some a';
  ap_cluster : ra_cluster a' = ra_cluster a;
  ap_timeout : clears_timeout p = false → ra_timeout a' = set_field (ra_timeout a) (overriding i, timeout_of p);
  ap_retry : ra_retry a' = set_field (ra_retry a) (overriding i, retry_of p);
  ap_session : er_config out' !! statefulSessionFilterName =
    set_field (er_config out !! statefulSessionFilterName) (overriding i, session_of p);
  ap_host : ra_host_rewrite a' = set_field (ra_host_rewrite a) (overriding i, host_of p);
  ap_cors : er_config out' !! CORS = set_field (er_config out !! CORS) (overriding i, cors_of p);
  ap_mirrors : ra_mirrors a' = ra_mirrors a ++ option_list (mirror_of p);
  ap_edits : er_edits out' = from_option (append_edits (er_edits out)) (er_edits out) (edits_of p) }.

Lemma set_field_none {A} (cur : option A) o : set_field cur (o, None) = cur.
Proof. done. Qed.

Lemma no_filter_step p i out a :
  bp_filter p = None → route_action_of out = Some a → stepped i p false out out a a.
Proof.
  intros Hf Ha. split; unfold host_of, cors_of, mirror_of, edits_of, filter_of; rewrite ?Hf; simpl; by rewrite ?app_nil_r.
Qed.

Lemma apply_step ctx out (typed : Typed) s a :
  let p := policy_ir ctx in
  redirect_of_policy p = None → route_action_of out = Some a →
  ∃ out' s' a', ApplyForRoute ctx (out, typed, s) = (None, (out', typed, s')) ∧ applied (rx_inherited ctx) p out out' a a'.
Proof.
  intros p Hr Ha. unfold ApplyForRoute, p, policy_ir in *. clear p.
  destruct (pk_as (rx_policy ctx)) as [p|] eqn:Ep; cbn [from_option] in *; unfold id in *;
    [|exists out, s, a; split; [done|]; split; simpl; by rewrite ?app_nil_r].
  change (mkMO _ false) with (route_opts (rx_inherited ctx)). cbv zeta.
  assert (∃ out1 a1, match bp_filter p with Some fi => apply_filter ctx fi (route_opts (rx_inherited ctx)) out | None => out end = out1 ∧
    stepped (rx_inherited ctx) p false out out1 a a1) as (out1 & a1 & -> & [A1 A2 A3 A4 A5 A6 A7 A8 A9]).
  { destruct (bp_filter p) as [fi|] eqn:Ef.
    - edestruct (filter_step ctx fi p (rx_inherited ctx) out a Ef Hr Ha) as [a1 H]. eauto.
    - exists out, a. split; [done|]. by apply no_filter_step. }
  destruct (rule_step p (rx_inherited ctx) (rx_chain ctx) out1 s a1 A1) as (out2 & s2 & a2 & -> & [B1 B2 B3 B4 B5 B6 B7 B8 B9]).
  eexists out2, _, a2. split; [done|]. cbn beta iota in *.
  split; [done|congruence|intros Hc; rewrite (B3 Hc), (A3 eq_refl), set_field_none; done|..]; rewrite ?B4, ?B5, ?B6, ?B7, ?B8, ?B9, ?A4, ?A5, ?A6, ?A7, ?A8, ?A9, ?set_field_none; simpl; rewrite ?app_nil_r; done.
Qed.

(** What the policies of a rule and of its delegating parents leave on its route: a field that
    several of them set has the value of the last one that overrides, or else of the first,
    which is the most specific; mirrors and header modifications of all of them add up. *)
Theorem route_settings_resolved ctxs out typed s a :
  Forall (λ c, redirect_of_policy (policy_ir c) = None) ctxs →
  route_action_of out = Some a →
  ∃ out' s' a', apply_all ctxs (out, typed, s) = (out', typed, s') ∧ route_action_of out' = Some a' ∧
    ra_cluster a' = ra_cluster a ∧
    (Forall (λ c, clears_timeout (policy_ir c) = false) ctxs →
     ra_timeout a' = winner (ra_timeout a) (setters timeout_of ctxs)) ∧
    ra_retry a' = winner (ra_retry a) (setters retry_of ctxs) ∧
    ra_host_rewrite a' = winner (ra_host_rewrite a) (setters host_of ctxs) ∧
    er_config out' !! CORS = winner (er_config out !! CORS) (setters cors_of ctxs) ∧
    er_config out' !! statefulSessionFilterName = winner (er_config out !! statefulSessionFilterName) (setters session_of ctxs) ∧
    ra_mirrors a' = ra_mirrors a ++ omap (mirror_of ∘ policy_ir) ctxs ∧
    er_edits out' = foldl append_edits (er_edits out) (omap (edits_of ∘ policy_ir) ctxs).
Proof.
  rewrite <- !winner_fold. unfold apply_all, setters. intros H. revert out s a.
  induction H as [|c ctxs Hr _ IH]; intros out s a Ha; cbn [foldl map].
  { exists out, s, a. simpl. by rewrite app_nil_r. }
  destruct (apply_step c out typed s a Hr Ha) as (out1 & s1 & a1 & -> & [A1 A2 A3 A4 A5 A6 A7 A8 A9]).
  destruct (IH out1 s1 a1 A1) as (out' & s' & a' & Hrun & Ha' & B1 & B2 & B3 & B4 & B5 & B6 & B7 & B8).
  exists out', s', a'. cbn [snd]. rewrite Hrun, B1, B3, B4, B5, B6, B7, B8, A2, A4, A5, A6, A7, A8, A9.
  split_and!; try done.
  - intros [Hc Hcs]%Forall_cons. by rewrite (B2 Hcs), (A3 Hc).
  - cbn [omap list_omap]. unfold compose. rewrite <- app_assoc. by destruct (mirror_of (policy_ir c)).
  - cbn [omap list_omap]. unfold compose. by destruct (edits_of (policy_ir c)).
Qed.

(** *** Redirects *)

(** The redirect of a policy on a listener, with its port resolved. *)
Definition resolved_redirect (ctx : @RouteContext P) : option (@RedirectAction Rest) :=
  r ← redirect_of_policy (policy_ir ctx);
  let port := effective_port r (rx_tls ctx) (rx_port ctx) in
  Some (with_port (if (port =? defaultPortForScheme (effective_scheme r (rx_tls ctx)))%Z then 0 else port) (rr_redir r)).

(** A filter with a redirect is of that type. *)
Definition well_typed (p : Plugin) : Prop :=
  ∀ fi r, bp_filter p = Some fi → fi_policy fi = FRedirect r → fi_type fi = "RequestRedirect".

Lemma on_action_redirect f (out : Route) : redirect_of (on_action f out) = redirect_of out.
Proof. unfold on_action, route_action_of, redirect_of. by destruct (er_action out) as [[]|] eqn:E; simpl; rewrite ?E. Qed.

Lemma rule_redirect chain r i (x : Route * PassState) : redirect_of (applyRulePolicy chain r (route_opts i) x).1 = redirect_of x.1.
Proof.
  unfold applyRulePolicy, applySession. destruct (route_action_of x.1); [|done]. cbn [fst snd].
  set (f := λ a, applyRetry _ _ _). rewrite <- (on_action_redirect f x.1). generalize (on_action f x.1). intros out.
  by repeat case_match.
Qed.

Lemma filter_redirect (ctx : @RouteContext P) fi i out p :
  bp_filter p = Some fi → well_typed p → policy_ir ctx = p →
  redirect_of (apply_filter ctx fi (route_opts i) out) = set_field (redirect_of out) (overriding i, resolved_redirect ctx).
Proof.
  intros Hf Hw Hp. unfold resolved_redirect, redirect_of_policy, filter_of. rewrite Hp, Hf. simpl. unfold apply_filter.
  destruct (fi_policy fi) as [m|h|r|u|c] eqn:Ep; cbn [filter_apply mbind option_bind].
  1,2,4,5: assert (∀ x : Route, applyRedirectPortPostProcessing (rx_tls ctx) (rx_port ctx) fi x = x) as Hno
    by (intros x; unfold applyRedirectPortPostProcessing; by rewrite Ep); rewrite Hno.
  - assert (∀ b (x : Route), (if b : bool then x else x) = x) as -> by (by intros []). by apply on_action_redirect.
  - by case_match.
  - assert (∀ b (x : Route), (if b : bool then x else x) = x) as -> by (by intros []). by apply on_action_redirect.
  - unfold cors_apply. by repeat case_match.
  - rewrite (Hw fi r Hf Ep), String.eqb_refl. cbn [andb]. unfold redirect_apply. rewrite settable_spec. unfold set_field. cbn [fst snd].
    destruct (isNil (go_ptr (redirect_of out)) || overriding i); [|done].
    unfold applyRedirectPortPostProcessing. rewrite Ep. done.
Qed.

Lemma apply_redirect ctx x : well_typed (policy_ir ctx) →
  redirect_of (ApplyForRoute (Msg := Msg) ctx x).2.1.1 = set_field (redirect_of x.1.1) (overriding (rx_inherited ctx), resolved_redirect ctx).
Proof.
  destruct x as [[out typed] s]. intros Hw. unfold ApplyForRoute.
  destruct (pk_as (rx_policy ctx)) as [p|] eqn:Ep.
  2:{ unfold resolved_redirect, policy_ir. by rewrite Ep. }
  assert (policy_ir ctx = p) as Hp by (unfold policy_ir; by rewrite Ep). rewrite Hp in Hw.
  cbv zeta. change (mkMO _ false) with (route_opts (rx_inherited ctx)).
  pose proof (rule_redirect (rx_chain ctx) (bp_rule p) (rx_inherited ctx)) as Hr.
  destruct (bp_filter p) as [fi|] eqn:Ef.
  - specialize (Hr (apply_filter ctx fi (route_opts (rx_inherited ctx)) out, s)). destruct (applyRulePolicy _ _ _ _) as [out2 s2].
    cbn [fst snd] in *. rewrite Hr. by eapply filter_redirect.
  - specialize (Hr (out, s)). destruct (applyRulePolicy _ _ _ _) as [out2 s2]. cbn [fst snd] in *. rewrite Hr.
    unfold resolved_redirect, redirect_of_policy, filter_of. by rewrite Hp, Ef.
Qed.

(** Among the redirects of a rule and its delegating parents one wins as any other setting
    does; its port is resolved for the listener at hand, and the policies that lost do not
    touch it. *)
Theorem redirect_resolved ctxs (x : Route * Typed * PassState) :
  Forall (λ c, well_typed (policy_ir c)) ctxs →
  redirect_of (apply_all ctxs x).1.1 =
  winner (redirect_of x.1.1) (map (λ c, (overriding (rx_inherited c), resolved_redirect c)) ctxs).
Proof.
  rewrite <- winner_fold. unfold apply_all. intros H. revert x.
  induction H as [|c ctxs Hw _ IH]; intros x; cbn [foldl map]; [done|].
  by rewrite IH, apply_redirect.
Qed.

(** *** Rewrites of the path *)

(** Envoy rejects a route action with both rewrites. *)
Definition exclusive (out : Route) : Prop :=
  ∀ a, route_action_of out = Some a → ra_regex_rewrite a = None ∨ ra_prefix_rewrite a = "".

Definition full_of (p : Plugin) : string := match filter_of p with Some (FRewrite u) => ur_full u | _ => "" end.

Lemma rewrite_path_exclusive path u i (a : RAction) :
  overriding i = false ∨ ur_full u = "" →
  ra_regex_rewrite a = None ∨ ra_prefix_rewrite a = "" →
  let a' := rewrite_prefix path u (route_opts i) (rewrite_full u (route_opts i) (rewrite_host u (route_opts i) a)) in
  ra_regex_rewrite a' = None ∨ ra_prefix_rewrite a' = "".
Proof.
  intros Hi Ha a'. set (b := rewrite_full u (route_opts i) (rewrite_host u (route_opts i) a)) in *.
  assert (ra_regex_rewrite b = None ∨ ra_prefix_rewrite b = "") as Hb.
  { subst b. unfold rewrite_full.
    set (c := rewrite_host u (route_opts i) a).
    assert (ra_regex_rewrite c = ra_regex_rewrite a ∧ ra_prefix_rewrite c = ra_prefix_rewrite a) as [Hc1 Hc2]
      by (subst c; unfold rewrite_host; by repeat case_match).
    destruct (negb (String.eqb (ur_full u) "") && _) eqn:E; [|by rewrite Hc1, Hc2]. bool_hyps.
    destruct Hi as [Hi|Hi]; [|done]. right. simpl. unfold isPathRewriteSettable in *. bool_hyps.
    match goal with H : IsSettable (GString _) _ = true |- _ => rewrite settable_spec, Hi, orb_false_r in H; simpl in H end.
    by bool_hyps. }
  subst a'. unfold rewrite_prefix. repeat case_match; simpl; auto.
Qed.

Lemma exclusive_action (out out' : Route) :
  (∀ a', route_action_of out' = Some a' → ∃ a, route_action_of out = Some a ∧
     ra_regex_rewrite a' = ra_regex_rewrite a ∧ ra_prefix_rewrite a' = ra_prefix_rewrite a) →
  exclusive out → exclusive out'.
Proof. intros H He a' Ha'. destruct (H a' Ha') as (a & Ha & -> & ->). by apply He. Qed.

Lemma filter_exclusive (ctx : @RouteContext P) fi i out :
  overriding i = false ∨ full_of (mkBP (Some fi) zero_rule false) = "" →
  exclusive out → exclusive (apply_filter ctx fi (route_opts i) out).
Proof.
  intros Hi He. unfold apply_filter.
  assert (∀ x : Route, exclusive x → ∀ b : bool, exclusive (if b then applyRedirectPortPostProcessing (rx_tls ctx) (rx_port ctx) fi x else x)) as Hp.
  { intros x Hx []; [|done]. unfold applyRedirectPortPostProcessing. by repeat case_match. }
  apply Hp. clear Hp. unfold full_of, filter_of in Hi. simpl in Hi.
  destruct (fi_policy fi) as [m|h|r|u|c]; cbn [filter_apply].
  - unfold mirror_apply, on_action. destruct (route_action_of out) as [a|] eqn:Ea; [|done].
    intros a' [= <-]. simpl. by apply He.
  - done.
  - unfold redirect_apply. by case_match.
  - unfold rewrite_apply, on_action. destruct (route_action_of out) as [a|] eqn:Ea; [|done].
    intros a' [= <-]. apply rewrite_path_exclusive; auto.
  - unfold cors_apply. by case_match.
Qed.

Lemma rule_exclusive chain r opts (x : Route * PassState) : exclusive x.1 → exclusive (applyRulePolicy chain r opts x).1.
Proof.
  intros He. unfold applyRulePolicy, applySession. destruct (route_action_of x.1) as [a|] eqn:Ea; [|done]. cbn [fst snd].
  set (out := on_action _ x.1).
  assert (exclusive out) as Ho.
  { subst out. unfold on_action. rewrite Ea. intros a' [= <-]. specialize (He a Ea).
    unfold applyRetry, applyTimeouts. by repeat case_match. }
  clearbody out. repeat case_match; done.
Qed.

(** As long as only policies that prefer the child replace whole paths, no sequence of policies
    leaves an action that Envoy would reject for its two rewrites. *)
Theorem path_rewrites_exclusive ctxs (x : Route * Typed * PassState) :
  Forall (λ c, overriding (rx_inherited c) = false ∨ full_of (policy_ir c) = "") ctxs →
  exclusive x.1.1 → exclusive (apply_all ctxs x).1.1.
Proof.
  unfold apply_all. intros H. revert x. induction H as [|c ctxs Hc _ IH]; intros x He; cbn [foldl]; [done|].
  apply IH. clear IH. destruct x as [[out typed] s]. unfold ApplyForRoute, policy_ir in *.
  destruct (pk_as (rx_policy c)) as [p|] eqn:Ep; [|done]. cbv zeta. change (mkMO _ false) with (route_opts (rx_inherited c)).
  cbn [from_option] in Hc. unfold id in Hc.
  pose proof (rule_exclusive (rx_chain c) (bp_rule p) (route_opts (rx_inherited c))) as Hr.
  destruct (bp_filter p) as [fi|] eqn:Ef.
  - specialize (Hr (apply_filter c fi (route_opts (rx_inherited c)) out, s)). destruct (applyRulePolicy _ _ _ _) as [out2 s2].
    apply Hr. cbn [fst]. apply filter_exclusive; [|done]. unfold full_of, filter_of in *. by rewrite Ef in Hc.
  - specialize (Hr (out, s)). destruct (applyRulePolicy _ _ _ _) as [out2 s2]. by apply Hr.
Qed.
End lemmas.

(** ** The pass within the route translation *)

Section composition.
Context {P Msg Any Rest : Type} `{BL : BuiltinLib Any} `{PK : PolicyKind P (builtinPlugin Any Rest)}.
Context (any_msg : Any → Msg) (h : @HttpRouteConfigurationTranslator P Msg Any HeaderValueOption Rest PassState).
Abbreviation Route := (EnvoyRoute Any HeaderValueOption Rest).

(** What the pass is told of a policy of a rule. *)
Definition route_ctx (rule : HttpRouteRuleMatchIR P) (pol : PolicyAtt P) : @RouteContext P :=
  mkRCtx (ht_chain h) (pa_ir pol) (ht_class h) rule (ht_bind_port h) (ht_has_tls h) (pa_inherited pol).

(** The built-in policies of a rule, then those of its parents, from the nearest. *)
Definition builtin_policies (rule : HttpRouteRuleMatchIR P) : list (PolicyAtt P) :=
  rule_own VirtualBuiltInGK rule ++ parents_own VirtualBuiltInGK (-1) rule.

Lemma builtin_steps rule pols out (typed : gmap string Msg) s :
  Forall (λ p, pa_errors p = []) pols →
  tfold (route_policy_step h rule (NewGatewayTranslationPass any_msg)) ([], (out, typed)) pols s =
  let '(out', typed', s') := apply_all (map (route_ctx rule) pols) (out, typed, s) in (([], (out', typed')), s', []).
Proof.
  intros H. revert out typed s. induction H as [|p pols He _ IH]; intros out typed s; [done|].
  cbn [tfold map apply_all foldl]. unfold tbind, route_policy_step at 1. rewrite He.
  unfold tbind, hook, tret. cbn [tp_route NewGatewayTranslationPass].
  change (mkRCtx _ (pa_ir p) _ _ _ _ _) with (route_ctx rule p).
  assert ((ApplyForRoute (route_ctx rule p) (out, typed, s)).1 = None) as Hn.
  { unfold ApplyForRoute. destruct (pk_as _); [|done]. by destruct (applyRulePolicy _ _ _ _). }
  destruct (ApplyForRoute (route_ctx rule p) (out, typed, s)) as [e [[out1 typed1] s1]]. cbn [fst] in Hn. subst e.
  cbn [fst snd]. rewrite IH. unfold apply_all. cbn [fst snd]. by destruct (foldl _ _ _) as [[? ?] ?].
Qed.

Lemma er_with_metadata_id (out : Route) : er_with_metadata (er_metadata out) out = out.
Proof. by destruct out. Qed.

Lemma builtin_kind_step rule out typed s :
  ht_passes h !! VirtualBuiltInGK = Some (NewGatewayTranslationPass any_msg) →
  Forall (λ p, pa_errors p = []) (builtin_policies rule) →
  ∃ ev, route_kind_step h rule (route_policies rule) ([], (out, typed)) VirtualBuiltInGK s =
    let '(out', typed', s') := apply_all (map (route_ctx rule) (builtin_policies rule)) (out, typed, s) in
    (([], (out', typed')), s', ev).
Proof.
  intros Hp He. unfold route_kind_step. rewrite Hp, rule_policies_ordered. fold (builtin_policies rule).
  cbn [mergePolicies tp_merge NewGatewayTranslationPass]. unfold tbind at 1, log at 1.
  unfold tbind at 1. rewrite builtin_steps by done.
  destruct (apply_all _ _) as [[out' typed'] s']. unfold tbind, log, tret.
  unfold addMergeOriginsToFilterMetadata. rewrite bool_decide_true by done. rewrite er_with_metadata_id. by eexists.
Qed.

(** The priorities that are documented to prefer the parent. *)
Definition prefers_parent (i : InheritedPolicyPriorityValue) : bool :=
  match i with ShallowMergePreferParent | DeepMergePreferParent => true | _ => false end.

(** What the policies of [ctxs] set, and whether they are preferred to more specific ones. *)
Definition preferences {A} (f : builtinPlugin Any Rest → option A) (ctxs : list (@RouteContext P)) : list (bool * option A) :=
  map (λ c, (prefers_parent (rx_inherited c), f (policy_ir c))) ctxs.

Lemma setters_preferences {A} (f : builtinPlugin Any Rest → option A) (ctxs : list (@RouteContext P)) :
  Forall (λ c, rx_inherited c ≠ DeepMergePreferChild) ctxs → setters f ctxs = preferences f ctxs.
Proof.
  unfold setters, preferences. induction 1 as [|c ctxs Hc _ IH]; [done|]. cbn [map]. f_equal; [|exact IH].
  by destruct (rx_inherited c).
Qed.

(** C8: The settings that the route translation leaves on the route of a rule that forwards, when
    all its built-in policies, its own and those of its delegating parents from the nearest, are
    valid and none has the priority DeepMergePreferChild.  For retries, host rewrite, CORS and
    session persistence: of the policies that set the field the last one with a priority that
    prefers the parent, else what the route had, else the first, which is the most specific.
    The same holds of the timeout unless a policy has retries and only a backend timeout.
    Mirrors and header changes of all of them add up. *)
Theorem delegated_route_settings rule out typed s a :
  ht_passes h !! VirtualBuiltInGK = Some (NewGatewayTranslationPass any_msg) →
  Forall (λ p, pa_errors p = []) (builtin_policies rule) →
  let ctxs := map (route_ctx rule) (builtin_policies rule) in
  Forall (λ c, redirect_of_policy (policy_ir c) = None) ctxs →
  Forall (λ c, rx_inherited c ≠ DeepMergePreferChild) ctxs →
  route_action_of out = Some a →
  ∃ out' s' a' ev,
    route_kind_step h rule (route_policies rule) ([], (out, typed)) VirtualBuiltInGK s = (([], (out', typed)), s', ev) ∧
    route_action_of out' = Some a' ∧ ra_cluster a' = ra_cluster a ∧
    (Forall (λ c, clears_timeout (policy_ir c) = false) ctxs →
     ra_timeout a' = winner (ra_timeout a) (preferences timeout_of ctxs)) ∧
    ra_retry a' = winner (ra_retry a) (preferences retry_of ctxs) ∧
    ra_host_rewrite a' = winner (ra_host_rewrite a) (preferences host_of ctxs) ∧
    er_config out' !! CORS = winner (er_config out !! CORS) (preferences cors_of ctxs) ∧
    er_config out' !! statefulSessionFilterName = winner (er_config out !! statefulSessionFilterName) (preferences session_of ctxs) ∧
    ra_mirrors a' = ra_mirrors a ++ omap (mirror_of ∘ policy_ir) ctxs ∧
    er_edits out' = foldl append_edits (er_edits out) (omap (edits_of ∘ policy_ir) ctxs).
Proof.
  intros Hp He ctxs Hc Hd Ha. rewrite <- !(setters_preferences _ _ Hd). destruct (route_settings_resolved ctxs out typed s a Hc Ha) as (out' & s' & a' & Hrun & H).
  destruct (builtin_kind_step rule out typed s Hp He) as [ev Hk]. fold ctxs in Hk. rewrite Hrun in Hk.
  by exists out', s', a', ev.
Qed.
End composition.

(** ** Filters of the chain *)

#[local] Instance filters_any_eq_dec : EqDecision Filters.Any.
Proof. solve_decision. Defined.

Section needs.
Context {P Msg Rest : Type} `{BL : BuiltinLib Filters.Any} `{PK : PolicyKind P (builtinPlugin Filters.Any Rest)}.
Context (any_msg : Filters.Any → Msg).
Abbreviation Route := (EnvoyRoute Filters.Any HeaderValueOption Rest).

(** Calls of the hooks of a pass, on routes and backends of any chain. *)
Inductive hook_call :=
| OnRoute (ctx : @RouteContext P) (out : Route) (typed : gmap string Msg)
| OnBackend (policy : P) (ctx : @BackendContext P) (out : @BackendOut Msg HeaderValueOption).

Definition call_state (s : PassState) (c : hook_call) : PassState :=
  match c with
  | OnRoute ctx out typed => (ApplyForRoute ctx (out, typed, s)).2.2
  | OnBackend p ctx out => (ApplyForRouteBackend any_msg p ctx (out, s)).2.2
  end.

(** The call has configured the filter of that name for a route or backend of the chain. *)
Definition configures (name chain : string) (s : PassState) (c : hook_call) : Prop :=
  match c with
  | OnRoute ctx out typed =>
      rx_chain ctx = chain ∧ er_config (ApplyForRoute ctx (out, typed, s)).2.1.1 !! name ≠ er_config out !! name
  | OnBackend p ctx out =>
      bx_chain ctx = chain ∧ bo_typed (ApplyForRouteBackend any_msg p ctx (out, s)).2.1 !! name ≠ bo_typed out !! name
  end.

(** The flag of a policy agrees with its filter, as [NewBuiltInIr] makes it. *)
Definition flagged (p : builtinPlugin Filters.Any Rest) : Prop :=
  (∃ fi c, bp_filter p = Some fi ∧ fi_policy fi = FCors c) → bp_cors p = true.
Definition call_policy (c : hook_call) : P := match c with OnRoute ctx _ _ => rx_policy ctx | OnBackend p _ _ => p end.
Definition call_flagged (c : hook_call) : Prop := ∀ p, pk_as (call_policy c) = Some p → flagged p.

Definition needs (name chain : string) (s : PassState) : bool :=
  if String.eqb name CORS then default false (ps_cors s !! chain)
  else default false (ps_session s !! chain).

Lemma needs_cors_mono name chain c s : needs name chain s = true → needs name chain (need_cors c s) = true.
Proof.
  unfold needs. destruct (String.eqb name CORS); simpl; [|done].
  destruct (decide (c = chain)) as [->|]; [by rewrite lookup_insert_eq|by rewrite lookup_insert_ne].
Qed.
Lemma needs_session_mono name chain c s : needs name chain s = true → needs name chain (need_session c s) = true.
Proof.
  unfold needs. destruct (String.eqb name CORS); simpl; [done|].
  destruct (decide (c = chain)) as [->|]; [by rewrite lookup_insert_eq|by rewrite lookup_insert_ne].
Qed.
#[local] Hint Resolve needs_cors_mono needs_session_mono : core.

Lemma rule_needs name chain c r opts (x : Route * PassState) : needs name chain x.2 = true → needs name chain (applyRulePolicy c r opts x).2 = true.
Proof. intros H. unfold applyRulePolicy, applySession. repeat case_match; simpl in *; auto. Qed.

Lemma call_needs name chain s c : needs name chain s = true → needs name chain (call_state s c) = true.
Proof.
  intros H. destruct c as [ctx out typed|p ctx out]; simpl.
  - unfold ApplyForRoute. destruct (pk_as _) as [p|]; [|done]. cbv zeta.
    pose proof (rule_needs name chain (rx_chain ctx) (bp_rule p) (mkMO (GetMergeStrategy (rx_inherited ctx) false) false)
      (match bp_filter p with Some fi => apply_filter ctx fi (mkMO (GetMergeStrategy (rx_inherited ctx) false) false) out | None => out end, s) H) as Hr.
    destruct (applyRulePolicy _ _ _ _) as [out2 s2]. simpl in *. destruct (bp_cors p); auto.
  - unfold ApplyForRouteBackend. destruct (pk_as p) as [q|]; simpl; [|done]. destruct (bp_filter q); simpl; [|done].
    destruct (bp_cors q); auto.
Qed.

Lemma calls_need name chain s l : needs name chain s = true → needs name chain (foldl call_state s l) = true.
Proof. revert s. induction l as [|c l IH]; intros s H; simpl; [done|]. by apply IH, call_needs. Qed.

(** What the rule of a policy configures is the session filter. *)
Lemma rule_configures c r opts (x : Route * PassState) name :
  er_config (applyRulePolicy c r opts x).1 !! name ≠ er_config x.1 !! name →
  name = statefulSessionFilterName ∧ ps_session (applyRulePolicy c r opts x).2 !! c = Some true.
Proof.
  unfold applyRulePolicy, applySession. destruct (route_action_of x.1) eqn:Ea; [|done]. cbn [fst snd].
  rewrite (on_action_some _ _ _ Ea).
  repeat case_match; simpl; try done. intros Hd.
  destruct (decide (name = statefulSessionFilterName)) as [->|Hn]; [|by rewrite lookup_insert_ne in Hd].
  split; [done|]. by rewrite lookup_insert_eq.
Qed.

Lemma filter_configures (ctx : @RouteContext P) fi opts (out : Route) name :
  er_config (apply_filter ctx fi opts out) !! name ≠ er_config out !! name → name = CORS ∧ ∃ c, fi_policy fi = FCors c.
Proof.
  unfold apply_filter. set (b := String.eqb _ _ && _).
  assert (∀ x : Route, er_config (if b then applyRedirectPortPostProcessing (rx_tls ctx) (rx_port ctx) fi x else x) = er_config x) as ->.
  { intros x. destruct b; [|done]. unfold applyRedirectPortPostProcessing. by repeat case_match. }
  destruct (fi_policy fi) as [m|h|r|u|c]; cbn [filter_apply].
  1,4: unfold mirror_apply, rewrite_apply, on_action; by case_match.
  - done.
  - unfold redirect_apply. by case_match.
  - unfold cors_apply, set_config. case_match; [|done]. simpl. intros Hd.
    destruct (decide (name = CORS)) as [->|Hn]; [split; [done|by exists c]|by rewrite lookup_insert_ne in Hd].
Qed.

Lemma configured_needed name chain s c : call_flagged c → configures name chain s c →
  needs name chain (call_state s c) = true ∧ (name = CORS ∨ name = statefulSessionFilterName).
Proof.
  unfold call_flagged. destruct c as [ctx out typed|p ctx out]; simpl; intros Hf [<- H]; unfold needs.
  - unfold ApplyForRoute in *. destruct (pk_as _) as [p|] eqn:Ep; [|done]. specialize (Hf p eq_refl). cbv zeta in *.
    set (opts := mkMO _ false) in *.
    set (out1 := match bp_filter p with Some fi => apply_filter ctx fi opts out | None => out end) in *.
    pose proof (rule_configures (rx_chain ctx) (bp_rule p) opts (out1, s) name) as Hr.
    destruct (applyRulePolicy _ _ _ _) as [out2 s2]. cbn [fst snd] in *.
    destruct (decide (er_config out2 !! name = er_config out1 !! name)) as [Heq|Hne].
    + rewrite Heq in H. subst out1. destruct (bp_filter p) as [fi|] eqn:Efi; [|done].
      destruct (filter_configures ctx fi opts out name H) as [-> [c Hc]]. simpl.
      rewrite Hf by eauto. simpl. rewrite lookup_insert_eq. auto.
    + destruct (Hr Hne) as [-> Hs]. simpl. destruct (bp_cors p); simpl; rewrite Hs; auto.
  - unfold ApplyForRouteBackend in *. destruct (pk_as p) as [q|] eqn:Ep; simpl in *; [|done]. specialize (Hf q eq_refl).
    destruct (bp_filter q) as [fi|] eqn:Efi; simpl in *; [|done].
    destruct (fi_policy fi) as [m|h|r|u|c] eqn:Epo; simpl in H; try done.
    destruct (decide (name = CORS)) as [->|Hn]; [|by rewrite lookup_insert_ne in H].
    rewrite Hf by eauto. simpl. rewrite lookup_insert_eq. auto.
Qed.

Lemma disabled_filter_spec name m stage f :
  disabled_filter name m stage = inr f → ∃ c, builtin_to_any m = inr c ∧ sf_filter f = Some (mkHttpFilter name (Some c) true).
Proof.
  unfold disabled_filter, NewStagedFilter. destruct (builtin_to_any m) as [e|c]; [done|]. intros [= <-]. by exists c.
Qed.

(** Through any sequence of calls, what the pass configures for a route or a backend has its
    filter in the chain, disabled by default so that it acts on those routes only. *)
Theorem configured_filters_installed pre c post name chain l :
  call_flagged c → configures name chain (foldl call_state new_pass pre) c →
  HttpFilters chain (foldl call_state new_pass (pre ++ c :: post)) = inr l →
  ∃ f config, f ∈ l ∧ sf_filter f = Some (mkHttpFilter name (Some config) true).
Proof.
  intros Hf Hc. destruct (configured_needed _ _ _ _ Hf Hc) as [Hn Hname]. rewrite foldl_app. cbn [foldl].
  apply (calls_need _ _ _ post) in Hn. set (s := foldl call_state _ post) in *. clearbody s.
  unfold HttpFilters, needs in *. intros H.
  destruct Hname as [->| ->]; simpl in Hn; rewrite Hn in H.
  - destruct (disabled_filter CORS _ _) as [e|f] eqn:Ef; [done|]. apply disabled_filter_spec in Ef as (cfg & _ & Hs).
    exists f, cfg. split; [|done]. repeat case_match; simplify_eq; set_solver.
  - destruct (if default false (ps_cors s !! chain) then _ else _) as [e|l0]; [done|].
    destruct (disabled_filter statefulSessionFilterName _ _) as [e|f] eqn:Ef; [done|].
    apply disabled_filter_spec in Ef as (cfg & _ & Hs). simplify_eq. exists f, cfg. split; [|done]. set_solver.
Qed.
End needs.

(** ** The conversion *)

Section convert_lemmas.
Context {Rest : Type} `{BL : BuiltinLib Filters.Any} `{GS : GoSyntax} {P : Type} `{PO : PolicyIrOps P}.

(** What the index stores of a filter: a redirect is of its type, a CORS policy is flagged for
    the chain, and a mirror goes to a backend that exists and that the reference rules permit. *)
Theorem built_in_ir_sound (refgrants : RefGrantIndex) (ups : BackendIndex P) f fromgk fromns ruleName annotations
    (p : builtinPlugin Filters.Any Rest) :
  NewBuiltInIr refgrants ups f fromgk fromns ruleName annotations = Some (inr p) →
  well_typed p ∧ flagged p ∧
  ∀ m, filter_of p = Some (FMirror m) →
    ∃ mf up, fb_mirror (f_body f) = Some mf ∧
      ReferenceAllowed refgrants fromgk fromns (toFromBackendRef fromns (mf_ref mf)) = true ∧
      getBackendFromRef ups fromns (mf_ref mf) = Some (inr up) ∧ mi_cluster m = bo_cluster_name up.
Proof.
  unfold NewBuiltInIr, convertfilterIR. intros H.
  destruct (filter_policy _ _ _ _ _ _ _ _) as [[e|fp]|] eqn:Ef; try done. injection H as <-. unfold filter_policy in Ef.
  destruct (String.eqb (f_type f) "RequestMirror") eqn:E1.
  { apply bind_Some in Ef as (m & Hm & [= <-]). unfold policy_of. split; [|split].
    - intros fi r Hfi Hr. destruct m; [injection Hfi as <-|]; done.
    - intros (fi & c & Hfi & Hr). destruct m; [injection Hfi as <-|]; done.
    - intros m' Hm'. destruct m as [m|]; [|done]. injection Hm' as ->. unfold convertMirrorIR in Hm.
      destruct (fb_mirror (f_body f)) as [mf|]; [|done]. exists mf.
      destruct (ReferenceAllowed _ _ _ _) eqn:Ea; [|done]. cbn [negb] in Hm.
      apply bind_Some in Hm as ([e|up] & Hu & [= <-]). exists up. done. }
  split; [|split].
  - intros fi r Hfi Hr. simpl in Hfi. destruct fp as [fp|]; simplify_eq/=.
    destruct (String.eqb (f_type f) "RequestRedirect") eqn:E2; [by bool_hyps|]. unfold policy_of in Ef.
    repeat case_match; simplify_eq; repeat (match goal with H : _ <$> _ = Some _ |- _ => apply fmap_Some in H as (? & _ & [=]) end).
  - intros (fi & c & Hfi & Hr). simpl in Hfi. destruct fp as [fp|]; simplify_eq/=. unfold policy_of in Ef.
    destruct (String.eqb (f_type f) "CORS") eqn:E2.
    + bool_hyps. rewrite E2 in Ef. simpl in Ef. unfold convertCORSIR, BuildCorsPolicy in Ef. by destruct (fb_cors (f_body f)).
    + repeat case_match; simplify_eq; repeat (match goal with H : _ <$> _ = Some _ |- _ => apply fmap_Some in H as (? & _ & [=]) end).
  - intros m Hm. destruct fp as [fp|]; [|done]. injection Hm as ->. unfold policy_of in Ef.
    repeat case_match; simplify_eq; repeat (match goal with H : _ <$> _ = Some _ |- _ => apply fmap_Some in H as (? & _ & [=]) end).
Qed.
End convert_lemmas.

(** *** Names *)

Definition token_char (ok : Ascii.ascii → bool) (a : Ascii.ascii) : bool := ok a && (Ascii.nat_of_ascii a <? 128)%nat.

(** A sanitized cookie or header name consists of legal ASCII characters, whatever bytes were
    given. *)
Theorem sanitized_names_legal name :
  forallb (token_char cookie_char) (String.list_ascii_of_string (SanitizeCookieName name)) = true ∧
  forallb (token_char header_char) (String.list_ascii_of_string (SanitizeHeaderName name)) = true.
Proof.
  assert (∀ ok r s, token_char ok r = true →
    forallb (token_char ok) (map_runes (λ c, if ok c then c else r) r 0 s) = true) as Hgo.
  { intros ok r s Hr. assert (∀ k, forallb (token_char ok) (map_runes (λ c, if ok c then c else r) r k s) = true) as H; [|by apply H].
    induction s as [|a s IH]; intros k; simpl; [done|]. destruct k; [|by apply IH].
    destruct (Ascii.nat_of_ascii a <? 128)%nat eqn:E; simpl; rewrite IH, andb_true_r; [|done].
    destruct (ok a) eqn:Eo; [|done]. unfold token_char. by rewrite Eo, E. }
  unfold SanitizeCookieName, SanitizeHeaderName.
  split; (destruct (String.eqb name ""); [by vm_compute|]); rewrite String.list_ascii_of_string_of_list_ascii; apply Hgo; by vm_compute.
Qed.

(** ** Examples and witnesses *)

#[local] Instance ex_builtin_lib : BuiltinLib Filters.Any := {|
  builtin_to_any m := inr (mkAny (match m with MState _ => "state" | MPerRoute n _ => n | MCors _ => "cors"
                                  | MCorsFilter => "cors-filter" | MSessionFilter => "session-filter" end) "") |}.
#[local] Instance ex_syntax : GoSyntax := {| url_Parse_Path s := inr s; regexp_Compile _ := None |}.
Abbreviation ex_plugin := (builtinPlugin Filters.Any unit).
#[local] Instance ex_plugin_ops : PolicyIrOps ex_plugin := {| pi_creation_time _ := 0%Z |}.
#[local] Instance ex_plugin_kind : PolicyKind ex_plugin ex_plugin := {|
  pk_as := Some; pk_of p := p; pk_as_of _ := eq_refl; pk_zero := mkBP None zero_rule false |}.

Definition ex_rule_plugin (t : HTTPRouteTimeouts) (retry : bool) : ex_plugin :=
  mkBP None (buildHTTPRouteRulePolicy true (mkRuleBody (Some t) (if retry then Some (mkRetrySpec [503%Z] (Some 2%Z) None) else None) None)) false.
Definition ex_rewrite (u : urlRewriteIr) : ex_plugin := mkBP (Some (mkFIR "URLRewrite" (FRewrite u))) zero_rule false.

Definition ex_builtin_att (i : InheritedPolicyPriorityValue) (p : ex_plugin) : PolicyAtt ex_plugin :=
  mkPA VirtualBuiltInGK 0 p None i [] 0 0 ∅.
Definition ex_builtin_route : HttpRouteIR ex_plugin :=
  mkHttpRoute (mkOS "gateway.networking.k8s.io" "HTTPRoute" "ns" "route") (mkObj "ns" "route" 0 1 "1" "u" ∅ ∅) [] [] ∅ [] 0 false.
Definition ex_builtin_rule (parent : option (HttpRouteRuleMatchIR ex_plugin)) (l : list (PolicyAtt ex_plugin)) :
    HttpRouteRuleMatchIR ex_plugin :=
  mkRuleMatch ∅ {[ VirtualBuiltInGK := l ]} ex_builtin_route parent false zero_ref zero_ref []
    (mkMatch (Some (mkPath (Some PathPrefix) (Some "/shop"))) [] [] None) 0 "" 0 "" 0 None None.
Definition ex_builtin_translator : @HttpRouteConfigurationTranslator ex_plugin Filters.Any Filters.Any HeaderValueOption unit PassState :=
  mkHT (mkGateway (mkOS "gateway.networking.k8s.io" "Gateway" "ns" "gw") (mkParent TGateway "Gateway" "ns" "gw") 1 [] ∅ ∅ ∅ None None)
    "kgateway" 8443 (mkPR None (Some "Gateway") (Some "ns") "gw" None None) "https" true ∅ "https" false
    {[ VirtualBuiltInGK := NewGatewayTranslationPass id ]} ValidationStandard false.

Definition ex_out : EnvoyRoute Filters.Any HeaderValueOption unit :=
  mkER "r" (Some (mkRM (Some (PSSeparated "/shop")) [] [] false))
    (Some (ARoute (mkRA (Some (CSCluster "c")) true "" [] None None [] None None None))) ∅ ∅ no_edits None.

Definition ex_child (i : InheritedPolicyPriorityValue) : HttpRouteRuleMatchIR ex_plugin :=
  ex_builtin_rule
    (Some (ex_builtin_rule None [ex_builtin_att i (ex_rule_plugin (mkTimeouts (Some "30s") (Some "2s")) true)]))
    [ex_builtin_att ShallowMergePreferChild (ex_rule_plugin (mkTimeouts (Some "5s") None) false)].

Definition ex_applied (rule : HttpRouteRuleMatchIR ex_plugin) : option (RouteAction Filters.Any HeaderValueOption unit) :=
  route_action_of
    (route_kind_step ex_builtin_translator rule (route_policies rule) ([], (ex_out, ∅)) VirtualBuiltInGK new_pass).1.1.2.1.

(** The timeout of the child stands, and the retries of the parent are added. *)
Lemma delegated_route_settings_witness :
  ∃ out' s' a' ev,
    route_kind_step ex_builtin_translator (ex_child ShallowMergePreferChild) (route_policies (ex_child ShallowMergePreferChild))
      ([], (ex_out, ∅)) VirtualBuiltInGK new_pass = (([], (out', ∅)), s', ev) ∧
    route_action_of out' = Some a' ∧ ra_timeout a' = Some 5000000000%Z ∧
    (rp_per_try <$> ra_retry a') = Some (Some 2000000000%Z).
Proof.
  destruct (delegated_route_settings id ex_builtin_translator (ex_child ShallowMergePreferChild) ex_out ∅ new_pass
    (mkRA (Some (CSCluster "c")) true "" [] None None [] None None None)) as (out' & s' & a' & ev & Hk & Ha & _ & Ht & Hr & _).
  - reflexivity.
  - repeat constructor.
  - repeat constructor.
  - repeat constructor; discriminate.
  - reflexivity.
  - exists out', s', a', ev. split; [exact Hk|]. split; [exact Ha|].
    split; [rewrite Ht by (repeat constructor)|rewrite Hr]; by vm_compute.
Defined.

(** With a deep merge that prefers the child, the timeout of the parent replaces that of the
    child. *)
Theorem deep_prefer_child_overridden :
  (ra_timeout <$> ex_applied (ex_child ShallowMergePreferChild)) = Some (Some 5000000000%Z) ∧
  (ra_timeout <$> ex_applied (ex_child DeepMergePreferChild)) = Some (Some 30000000000%Z).
Proof. by vm_compute. Qed.

(** A parent that is preferred and has retries with only a backend timeout takes the timeout of
    the child away. *)
Theorem retry_clears_child_timeout :
  let rule := ex_builtin_rule
    (Some (ex_builtin_rule None [ex_builtin_att ShallowMergePreferParent (ex_rule_plugin (mkTimeouts None (Some "2s")) true)]))
    [ex_builtin_att ShallowMergePreferChild (ex_rule_plugin (mkTimeouts (Some "5s") None) false)] in
  (ra_timeout <$> ex_applied rule) = Some None.
Proof. by vm_compute. Qed.

(** A parent that is preferred and replaces the whole path leaves the prefix rewrite of the
    child in place: the action has both. *)
Theorem full_path_override_keeps_prefix :
  let rule := ex_builtin_rule
    (Some (ex_builtin_rule None [ex_builtin_att ShallowMergePreferParent (ex_rewrite (mkUR None "/index" ""))]))
    [ex_builtin_att ShallowMergePreferChild (ex_rewrite (mkUR None "" "/v2"))] in
  ∃ a, ex_applied rule = Some a ∧ ra_regex_rewrite a = Some (mkRegex ".*" "/index") ∧ ra_prefix_rewrite a = "/v2".
Proof. eexists. split; [by vm_compute|by vm_compute]. Qed.

Lemma path_rewrites_exclusive_witness :
  exclusive (apply_all [route_ctx ex_builtin_translator (ex_child ShallowMergePreferChild)
      (ex_builtin_att ShallowMergePreferChild (ex_rewrite (mkUR None "/index" "")))] (ex_out, (∅ : gmap string unit), new_pass)).1.1.
Proof.
  apply path_rewrites_exclusive.
  - constructor; [by left|constructor].
  - intros a [= <-]. by left.
Defined.

(** An annotation for one rule applies to every rule without a name. *)
Theorem unnamed_rule_takes_named_code :
  translateStatusCode (Some 301%Z) None {[ HTTPRedirectStatusCode := "checkout=307" ]} = inr TEMPORARY_REDIRECT ∧
  translateStatusCode (Some 301%Z) (Some "cart") {[ HTTPRedirectStatusCode := "checkout=307" ]} = inr MOVED_PERMANENTLY.
Proof. by vm_compute. Qed.

(** A header name is sanitized with dashes. *)
Example header_name_dashes : SanitizeHeaderName "x session" = "x-session" ∧ SanitizeCookieName "x session" = "x_session".
Proof. by vm_compute. Qed.

(** The origin [*] is not translated to a matcher of every origin. *)
Example wildcard_origin_regex :
  ConvertOriginToEnvoyStringMatcher "*" = Some (SMRegex (Some "^[a-zA-Z][a-zA-Z0-9+.-]*://[^/\s?#]+$")) ∧
  ConvertOriginToEnvoyStringMatcher "https://*.example.com" = Some (SMRegex (Some "^https://.*\.example\.com$")) ∧
  ConvertOriginToEnvoyStringMatcher "https://example.*" = Some (SMPrefix "https://example.").
Proof. by vm_compute. Qed.

Definition ex_service_backend : BackendObjectIR ex_plugin :=
  NewBackendObjectIR (mkOS "" "Service" "vault" "audit") 80 "" "".
Definition ex_http_grant : RefGrantIndex :=
  mkRGI [mkGrant "vault" [mkFrom "gateway.networking.k8s.io" "HTTPRoute" "infra"] [mkTo "core" "Service" None]] ReferenceGrantStrict.
Definition ex_mirror_index : BackendIndex ex_plugin := mkBI {[ mkGK "" "Service" := [ex_service_backend] ]} ∅ ex_http_grant.
Definition ex_mirror_filter : @HTTPRouteFilter FilterBody :=
  mkFilter "RequestMirror" None
    (mkBody None None (Some (mkMirrorFilter (mkBOR None None "audit" (Some "vault") (Some 80%Z)) None (Some (mkFraction 1 (Some 3%Z))))) None None None).

Lemma built_in_ir_sound_witness :
  ∃ p m, NewBuiltInIr (Rest := unit) ex_http_grant ex_mirror_index ex_mirror_filter HTTPRouteGK "infra" None ∅ = Some (inr p) ∧
    filter_of p = Some (FMirror m) ∧ mi_cluster m = bo_cluster_name ex_service_backend ∧
    mi_fraction m = Some (mkFrac 333333 MILLION).
Proof.
  eexists _, _. split; [reflexivity|]. split; [reflexivity|].
  destruct (built_in_ir_sound (Rest := unit) ex_http_grant ex_mirror_index ex_mirror_filter HTTPRouteGK "infra" None ∅ _ eq_refl) as (_ & _ & H).
  destruct (H _ eq_refl) as (mf & up & Hf & _ & Hu & Hm). injection Hf as <-. rewrite Hm. vm_compute in Hu. injection Hu as <-. split; by vm_compute.
Defined.

(** A GRPCRoute mirrors to a Service of another namespace that is granted to HTTPRoutes only. *)
Theorem grpc_mirror_uses_http_grant :
  let h := mkRIdx (mkPI "" [] ∅ []) ex_mirror_index false in
  let route := mkGRPCRoute (mkObj "infra" "grpc" 0 1 "1" "u" ∅ ∅) [] []
    [mkGRR None [] [ex_mirror_filter] [] (mkRuleBody None None None)] in
  ReferenceAllowed ex_http_grant (mkGK GatewayGroup "GRPCRoute") "infra" (mkOS "" "Service" "vault" "audit") = false ∧
  ∃ r rule pol m,
    transformGRPCRoute (λ _ _, false) (index_builtin (Rest := unit) h) (NewBuiltInRuleIr true) h route = Some r ∧
    hr_rules r = [rule] ∧ ap_get (rr_extension_refs rule) VirtualBuiltInGK = [pol] ∧
    filter_of (pa_ir pol) = Some (FMirror m) ∧ mi_cluster m = bo_cluster_name ex_service_backend.
Proof. split; [by vm_compute|]. eexists _, _, _, _. split; [by vm_compute|]. split; [done|]. by vm_compute. Qed.

Definition ex_cors_plugin : ex_plugin := mkBP (Some (mkFIR "CORS" (FCors (mkAny "cors" "")))) zero_rule true.
Definition ex_cors_call : hook_call (P := ex_plugin) (Msg := unit) :=
  OnRoute (route_ctx ex_builtin_translator (ex_child UnsetPriority) (ex_builtin_att UnsetPriority ex_cors_plugin)) ex_out ∅.

Lemma configured_filters_installed_witness :
  ∃ l f config, HttpFilters "https" (foldl (call_state (λ _, tt)) new_pass ([] ++ ex_cors_call :: [])) = inr l ∧
    f ∈ l ∧ sf_filter f = Some (mkHttpFilter CORS (Some config) true).
Proof.
  destruct (HttpFilters "https" (foldl (call_state (λ _, tt)) new_pass ([] ++ ex_cors_call :: []))) as [|l] eqn:E; [by vm_compute in E|].
  destruct (configured_filters_installed (λ _, tt) [] ex_cors_call [] CORS "https" l) as (f & config & Hf & Hs).
  - intros p [= <-] _. reflexivity.
  - split; [reflexivity|]. by vm_compute.
  - exact E.
  - by exists l, f, config.
Defined.
