(* ===== verification/ListenerConfig.v ===== *)
(** * Listener configurations (translator/irtranslator/gateway.go and fc.go)

    From the listener IR of a Gateway to Envoy's listeners: filter chains with their TLS
    settings, the network and HTTP filters that plugins contribute, TCP proxies, and the route
    configurations of RouteConfig.v.  The listener hooks of plugins are a second record next to
    the route hooks; both share the plugin state and the monad of RouteConfig.v. *)

From S2P Require Import Prelude Reports IR SortableRoute Delegation Filters Query References PolicyIndex.
From S2P Require Import RouteTree HttpRouteTranslator ListenerValidation GatewayIndex SslUtils ListenerTLS ListenerTranslator.
From S2P Require Import EnvoyRoute RouteConfig.

(** ** Addresses *)

(** [isPureIPv4Address]. *)
Fixpoint isPureIPv4Address (s : string) : bool :=
  match s with
  | EmptyString => false
  | String a s' => if Ascii.eqb a "."%char then true else if Ascii.eqb a ":"%char then false else isPureIPv4Address s'
  end.

(** [net.ParseIP]: whether the address is one, and whether [To4] succeeds on it. *)
Class NetLib := { ParseIP : string → option bool }.

(** [IsIpv4Address]. *)
Definition IsIpv4Address `{NetLib} (bindAddress : string) : error + bool * bool :=
  match ParseIP bindAddress with
  | None => inl (EMsg ("bindAddress " +:+ bindAddress +:+ " is not a valid IP address"))
  | Some false => inr (false, false)
  | Some true => inr (true, isPureIPv4Address bindAddress)
  end.

(** ** TLS *)

(** [CertificateValidationContext] and [DownstreamTlsContext], as far as they are set. *)
Record CertificateValidationContext := mkVC {
  vc_hashes : list string; vc_sans : list string; vc_trusted_ca : option string; vc_accept_untrusted : bool }.

Record DownstreamTlsContext := mkDT {
  dt_alpn : list string; dt_certificates : list (string * string);
  dt_min : option TlsProtocol; dt_max : option TlsProtocol;
  dt_ciphers : list string; dt_curves : list string; dt_signatures : list string;
  dt_validation : option CertificateValidationContext; dt_require_client : option bool }.

Definition empty_context : CertificateValidationContext := mkVC [] [] None false.

(** [buildValidationContext]. *)
Definition buildValidationContext (tls : TLSConfig) : option CertificateValidationContext :=
  let v := match tls_verify_hashes tls with [] => None | hs => Some (mkVC hs [] None false) end in
  let v := match tls_verify_sans tls with
           | [] => v
           | sans => let c := default empty_context v in
                     Some (mkVC (vc_hashes c) (vc_sans c ++ sans) (vc_trusted_ca c) (vc_accept_untrusted c))
           end in
  match tls_client_validation tls with
  | None => v
  | Some cv =>
      match ccv_ca_certificates cv with
      | [] => v
      | cas => let c := default empty_context v in
               Some (mkVC (vc_hashes c) (vc_sans c) (Some (join newline cas))
                       (if ccv_allow_insecure cv then true else vc_accept_untrusted c))
      end
  end.

Definition defaultDownstreamAlpnProtocols : list string := ["h2"; "http/1.1"].

Definition downstream_alpn (alpn : list string) : list string :=
  match alpn with
  | [] => defaultDownstreamAlpnProtocols
  | [p] => if String.eqb p AllowEmptyAlpnProtocols then [] else [p]
  | l => l
  end.

(** [toTransportSocket]; the message is kept unmarshalled. *)
Definition toTransportSocket (tls : option TLSConfig) : option DownstreamTlsContext :=
  t ← tls;
  Some (mkDT (downstream_alpn (tls_alpn t)) (map (λ c, (tls_chain c, tls_key c)) (tls_certificates t))
          (tls_min t) (tls_max t) (tls_cipher_suites t) (tls_ecdh_curves t) (tls_signature_algorithms t)
          (buildValidationContext t) (ccv_require_cert <$> tls_client_validation t)).

(** ** Messages *)

#[global] Instance Any_eq_dec : EqDecision Any.
Proof. solve_decision. Defined.
#[global] Instance HttpFilter_eq_dec : EqDecision HttpFilter.
Proof. solve_decision. Defined.

(** A network filter has the shape of an HTTP filter: a name and a typed configuration. *)
Abbreviation EnvoyFilter := HttpFilter.

Record CustomEnvoyFilter := mkCEF { cef_stage : FilterStage; cef_name : string; cef_config : option Any }.

Record EnvoyFilterChain := mkFCh {
  fch_name : string; fch_server_names : option (list string); fch_tls : option DownstreamTlsContext;
  fch_filters : list (option EnvoyFilter) }.

(** [toMatch]; destination ports and prefix ranges are set by other translators. *)
Definition toMatch (sni : list string) : option (list string) := match sni with [] => None | l => Some l end.

(** [initFilterChain]. *)
Definition initFilterChain (name : string) (sni : list string) (tls : option TLSConfig) : EnvoyFilterChain :=
  mkFCh name (toMatch sni) (toTransportSocket tls) [].

Definition with_filters (fs : list (option EnvoyFilter)) (c : EnvoyFilterChain) : EnvoyFilterChain :=
  mkFCh (fch_name c) (fch_server_names c) (fch_tls c) fs.

(** The TCP proxy: a cluster, or weighted clusters. *)
Inductive TcpCluster := TCluster (name : string) | TWeighted (l : list (string * Z)).
Record TcpProxy := mkTP { tcpp_stat_prefix : string; tcpp_cluster : TcpCluster }.

(** The router filter with its upstream filters. *)
Record RouterV3 := mkRouter { router_upstream : list (option EnvoyFilter) }.

(** ** HTTP filters *)

(** [sortHttpFilters] and [sortUpstreamHttpFilters]: sorted, adjacent equal ones once. *)
Definition dedup_step (acc : list (option EnvoyFilter)) (f : option EnvoyFilter) : list (option EnvoyFilter) :=
  if bool_decide (last acc = Some f) then acc else acc ++ [f].

Definition sortHttpFilters (l : list (StagedFilter (option EnvoyFilter))) : list (option EnvoyFilter) :=
  foldl dedup_step [] (map sf_filter (Sort l)).

(** [sortNetworkFilters]. *)
Definition sortNetworkFilters (l : list (StagedFilter (option EnvoyFilter))) : list (option EnvoyFilter) :=
  map sf_filter (Sort l).

(** [convertCustomNetworkFilters] and [convertCustomHttpFilters]. *)
Definition convertCustomFilters (l : list CustomEnvoyFilter) : list (StagedFilter (option EnvoyFilter)) :=
  map (λ c, mkSF (Some (mkHF (cef_name c) (cef_config c))) (cef_stage c) 0) l.

(** [computeTcpFilters]: the cluster of the proxy. *)
Definition tcp_cluster {P} (refs : list (BackendRefIR P)) : TcpCluster :=
  match refs with
  | [b] => TCluster (br_cluster b)
  | _ => TWeighted (map (λ b, (br_cluster b, br_weight b)) (filter (λ b, br_weight b ≠ 0%Z) refs))
  end.

(** [findOriginalListenerName] is used for logging only and omitted. *)

(** ** Translation *)

Section listeners.
#[local] Open Scope pass_scope.
Context {P Msg Hdr Rest S : Type} `{EL : EnvoyLib Any Hdr Rest} `{GS : GoSyntax} `{NL : NetLib}.
Abbreviation LIR := (@ListenerIR P).
Abbreviation HFC := (@HttpFilterChainIR P).
Abbreviation TCP := (@TcpIR P).
Abbreviation RPass := (@TranslationPass P Msg Any Hdr Rest S).
Abbreviation RConfig := (@RouteConfiguration Any Hdr Rest).
Abbreviation Meta := (gmap string (@MetaStruct Rest)).

(** [HttpConnectionManager], without the fields that are constant here and that only plugins
    change ([hm_rest]). *)
Record HCM := mkHM {
  hm_stat_prefix : string; hm_normalize_path : bool; hm_merge_slashes : bool; hm_use_remote_address : bool;
  hm_route_config : string; hm_filters : list (option EnvoyFilter); hm_rest : option Rest }.

Record EnvoyListener := mkEL {
  el_name : string; el_address : string; el_port : Z; el_ipv4_compat : bool; el_buffer_limit : option Z;
  el_chains : list EnvoyFilterChain; el_listener_filters : list EnvoyFilter; el_metadata : Meta; el_rest : option Rest }.

(** [ListenerContext]: port, policy, the chain of a post-listener call, the ancestor. *)
Record ListenerContext := mkLCtx { lx_port : Z; lx_policy : P; lx_chain : string; lx_ancestor : ParentReference }.

(** The extra resources of a plugin: names of clusters and secrets. *)
Record Resources := mkRsc { rsc_clusters : list string; rsc_secrets : list string }.

(** The listener hooks of a pass, next to its route hooks. *)
Record GatewayPass := mkGP {
  gp_routes : RPass;
  gp_listener : ListenerContext → EnvoyListener * S → EnvoyListener * S;
  gp_post_listener : ListenerContext → EnvoyListener * S → EnvoyListener * S;
  gp_hcm : Z → P → @GatewayIndex.Gateway P → HCM * S → option error * (HCM * S);
  gp_network_filters : S → (list (StagedFilter (option EnvoyFilter)) * option error) * S;
  gp_http_filters : Z → string → S → (list (StagedFilter (option EnvoyFilter)) * option error) * S;
  gp_upstream_filters : Z → string → S → (list (StagedFilter (option EnvoyFilter)) * option error) * S;
  gp_resources : S → Resources }.
Abbreviation Passes := (gmap GroupKind GatewayPass).

Context (MessageToAny : Msg → error + Any) (hcm_MessageToAny : HCM → error + Any)
        (tcp_MessageToAny : TcpProxy → error + Any) (router_MessageToAny : RouterV3 → error + Any)
        (inspector_any codec_any : Any).
Context (iter_kinds : AttachedPolicies P → list GroupKind) (iter_passes : Passes → list (GroupKind * GatewayPass)).
Context (BuildPolicyConditions : PolicyAtt P → option (PolicyAtt P) → list metav1_Condition).

(** [Translator], with the plugins of a translation, and what a Gateway adds. *)
Record Translator := mkTr { tr_mode : ValidationMode; tr_source_metadata : bool }.
Context (t : Translator) (passes : Passes).
Context (gw : @GatewayIndex.Gateway P) (gw_class : string) (gw_buffer_limit : option Z).

Abbreviation Reporter := (Parent * string)%type.

Definition not_programmed_event (rl : Reporter) (message : string) : list RTEvent :=
  [EvReport (RListenerCondition rl.1 rl.2 (mkCond "Programmed" false "Invalid" message))].

(** [computeListenerAddress]: the compat flag of the address. *)
Definition computeListenerAddress (bindAddress : string) : T S (option bool) :=
  match IsIpv4Address bindAddress with
  | inl err =>
      _ <~ log [EvReport (RParentCondition (g_obj gw)
                  (mkCond "Programmed" false "Invalid" ("Error processing listener: " +:+ err_text err)))];
      tret None
  | inr (_, isIpv4Address) => tret (Some (negb isIpv4Address))
  end.

(** The filters one hook of every plugin contributes; errors are reported and nil filters skipped. *)
Definition plugin_filters (get : GatewayPass → S → (list (StagedFilter (option EnvoyFilter)) * option error) * S)
    (what : string) (rl : Reporter) : T S (list (StagedFilter (option EnvoyFilter))) :=
  tfold (λ acc plug,
    r <~ (λ s, let '(r, s') := get plug.2 s in (r, s', []));
    _ <~ log (match r.2 with
              | Some err => not_programmed_event rl ("Error processing " +:+ what +:+ " plugin: " +:+ err_text err)
              | None => []
              end);
    tret (acc ++ filter (λ f, is_Some (sf_filter f)) r.1)) [] (iter_passes passes).

(** [computeCustomFilters]. *)
Definition computeCustomFilters (custom : list CustomEnvoyFilter) (rl : Reporter) :
    T S (list (StagedFilter (option EnvoyFilter))) :=
  l <~ plugin_filters gp_network_filters "network" rl;
  tret (l ++ convertCustomFilters custom).

(** [NewFilterWithTypedConfig]; no filter on an error. *)
Definition NewFilterWithTypedConfig (name : string) (config : error + Any) : error + EnvoyFilter :=
  match config with inl e => inl e | inr a => inr (mkHF name (Some a)) end.

(** [computeHttpFilters] of the HTTP connection manager. *)
Definition hcm_http_filters (port : Z) (chain : string) (custom : list CustomEnvoyFilter) (rl : Reporter) :
    T S (list (option EnvoyFilter)) :=
  staged <~ plugin_filters (λ p, gp_http_filters p port chain) "http" rl;
  let envoyHttpFilters := sortHttpFilters (staged ++ convertCustomFilters custom) in
  upstream <~ plugin_filters (λ p, gp_upstream_filters p port chain) "http" rl;
  let router :=
    mkRouter (match upstream with
              | [] => []
              | _ => sortHttpFilters upstream ++ [Some (mkHF "envoy.filters.http.upstream_codec" (Some codec_any))]
              end) in
  let '(f, err) := NewStagedFilter router_MessageToAny "envoy.filters.http.router" (Some router) (AfterStage RouteStage) in
  _ <~ log (match err with
            | Some e => not_programmed_event rl ("Error processing http plugins: " +:+ err_text e)
            | None => []
            end);
  tret (envoyHttpFilters ++ [sf_filter f]).

(** [initializeHCM]; the translator's [listener] field is never set, so the name is empty. *)
Definition initializeHCM (routeConfigName : string) : HCM := mkHM "http" true true true routeConfigName [] None.

Definition hcm_with_filters (fs : list (option EnvoyFilter)) (m : HCM) : HCM :=
  mkHM (hm_stat_prefix m) (hm_normalize_path m) (hm_merge_slashes m) (hm_use_remote_address m) (hm_route_config m) fs (hm_rest m).

Definition hcm_kind_step (port : Z) (ancestor : ParentReference) (rl : Reporter) (policies : AttachedPolicies P)
    (m : HCM) (gk : GroupKind) : T S HCM :=
  let pols := ap_get policies gk in
  match passes !! gk with
  | None => tret m
  | Some pass =>
      let '(effective, origins) := mergePolicies (gp_routes pass) pols in
      _ <~ log (reportPolicyAcceptanceStatus ancestor pols);
      m <~ tfold (λ m pol,
             r <~ hook (gp_hcm pass port (pa_ir pol) gw) m;
             _ <~ log (match r.1 with
                       | Some e => not_programmed_event rl ("Error processing HCM plugin: " +:+ err_text e)
                       | None => []
                       end);
             tret r.2) m effective;
      _ <~ log (reportPolicyAttachmentStatus ancestor origins pols);
      tret m
  end.

(** [computeNetworkFilters]. *)
Definition computeNetworkFilters (lis : LIR) (hfc : HFC) (rl : Reporter) :
    T S (error + EnvoyFilter) :=
  fs <~ hcm_http_filters (li_bind_port lis) (hfc_name hfc) [] rl;
  let m := hcm_with_filters fs (initializeHCM (hfc_name hfc)) in
  let policies := ap_append ∅ [hfc_policies hfc; g_policies gw] in
  m <~ tfold (hcm_kind_step (li_bind_port lis) (li_ancestor lis) rl policies) m (ApplyOrderedGroupKinds iter_kinds policies);
  tret (match NewFilterWithTypedConfig "envoy.filters.network.http_connection_manager" (hcm_MessageToAny m) with
        | inl e => inl (EWrap "failed to convert proto message to any: " e)
        | inr f => inr f
        end).

(** [computeHttpFilters] of a filter chain: none on an error. *)
Definition computeHttpFilters (lis : LIR) (hfc : HFC) (rl : Reporter) :
    T S (list (option EnvoyFilter)) :=
  custom <~ computeCustomFilters [] rl;
  r <~ computeNetworkFilters lis hfc rl;
  tret (match r with inl _ => [] | inr f => sortNetworkFilters custom ++ [Some f] end).

(** The route translator of a chain. *)
Definition route_translator (lis : LIR) (hfc : HFC) : HttpRouteConfigurationTranslator :=
  mkHT gw gw_class (li_bind_port lis) (li_ancestor lis) (hfc_name hfc) (bool_decide (is_Some (hfc_tls hfc)))
    (hfc_policies hfc) (hfc_name hfc) (bool_decide (is_Some (hfc_tls hfc))) (gp_routes <$> passes) (tr_mode t) (tr_source_metadata t).

(** [computeTcpFilters]. *)
Definition computeTcpFilters (lis : LIR) (tcp : TCP) (rl : Reporter) : T S (list (option EnvoyFilter)) :=
  custom <~ computeCustomFilters [] rl;
  _ <~ log (flat_map (λ b, reportBackendObjectPolicyStatus BuildPolicyConditions (route_translator lis (mkHFC "" [] None [] ∅))
              (li_ancestor lis) (br_object b)) (tcp_backends tcp));
  tret (sortNetworkFilters custom ++
        [match NewFilterWithTypedConfig "envoy.filters.network.tcp_proxy"
                 (tcp_MessageToAny (mkTP (tcp_name tcp) (tcp_cluster (tcp_backends tcp)))) with
         | inl _ => Some (mkHF "" None) | inr f => Some f
         end]).

Definition http_chain_step (lis : LIR) (acc : list RConfig * list EnvoyFilterChain) (hfc : HFC) :
    T S (list RConfig * list EnvoyFilterChain) :=
  rc <~ ComputeRouteConfiguration MessageToAny iter_kinds BuildPolicyConditions (route_translator lis hfc) (hfc_vhosts hfc);
  let rl := getReporterForFilterChain gw (hfc_name hfc) in
  fs <~ computeHttpFilters lis hfc rl;
  tret (acc.1 ++ [rc], acc.2 ++ [with_filters fs (initFilterChain (hfc_name hfc) (hfc_sni hfc) (hfc_tls hfc))]).

Definition tcp_chain_step (lis : LIR) (acc : list EnvoyFilterChain) (tcp : TCP) : T S (list EnvoyFilterChain) :=
  let rl := getReporterForFilterChain gw (tcp_name tcp) in
  fs <~ computeTcpFilters lis tcp rl;
  tret (acc ++ [with_filters fs (initFilterChain (tcp_name tcp) (tcp_sni tcp) (tcp_tls tcp))]).

(** *** Listener plugins *)

Definition gateway_ref : ParentReference :=
  mkPR (Some "gateway.networking.k8s.io") (Some "Gateway") (Some (os_namespace (g_source gw))) (os_name (g_source gw)) None None.

(** [ListenerIR.AttachedPolicies] is not set by the listener translation. *)
Definition listener_policies : AttachedPolicies P := ap_append ∅ [∅; g_policies gw].

Definition el_with_metadata (m : Meta) (l : EnvoyListener) : EnvoyListener :=
  mkEL (el_name l) (el_address l) (el_port l) (el_ipv4_compat l) (el_buffer_limit l) (el_chains l) (el_listener_filters l) m (el_rest l).
Definition el_with_chains (cs : list EnvoyFilterChain) (l : EnvoyListener) : EnvoyListener :=
  mkEL (el_name l) (el_address l) (el_port l) (el_ipv4_compat l) (el_buffer_limit l) cs (el_listener_filters l) (el_metadata l) (el_rest l).
Definition el_with_listener_filters (fs : list EnvoyFilter) (l : EnvoyListener) : EnvoyListener :=
  mkEL (el_name l) (el_address l) (el_port l) (el_ipv4_compat l) (el_buffer_limit l) (el_chains l) fs (el_metadata l) (el_rest l).

(** [runListenerPlugins]. *)
Definition runListenerPlugins (lis : LIR) (out : EnvoyListener) : T S EnvoyListener :=
  tfold (λ out gk,
    let pols := ap_get listener_policies gk in
    match passes !! gk with
    | None => tret out
    | Some pass =>
        let '(effective, origins) := mergePolicies (gp_routes pass) pols in
        _ <~ log (reportPolicyAcceptanceStatus (li_ancestor lis) pols);
        out <~ tfold (λ out pol,
                 r <~ hook (λ x, (tt, gp_listener pass (mkLCtx (li_bind_port lis) (pa_ir pol) "" gateway_ref) x)) out;
                 tret r.2) out effective;
        _ <~ log (reportPolicyAttachmentStatus (li_ancestor lis) origins pols);
        tret (el_with_metadata (addMergeOriginsToFilterMetadata gk origins (el_metadata out)) out)
    end) out (ApplyOrderedGroupKinds iter_kinds listener_policies).

(** [runPostListenerPlugins]: once for each chain, with the policies of the chain. *)
Definition post_chain_step (lis : LIR) (out : EnvoyListener) (chain : string * AttachedPolicies P) : T S EnvoyListener :=
  let policies := ap_append ∅ [chain.2; ∅; g_policies gw] in
  tfold (λ out gk,
    match passes !! gk with
    | None => tret out
    | Some pass =>
        tfold (λ out pol,
          r <~ hook (λ x, (tt, gp_post_listener pass (mkLCtx (li_bind_port lis) (pa_ir pol) chain.1 gateway_ref) x)) out;
          tret r.2) out (mergePolicies (gp_routes pass) (ap_get policies gk)).1
    end) out (ApplyOrderedGroupKinds iter_kinds policies).

Definition runPostListenerPlugins (lis : LIR) (out : EnvoyListener) : T S EnvoyListener :=
  tfold (post_chain_step lis) out
    (map (λ hfc, (hfc_name hfc, hfc_policies hfc)) (li_http lis) ++ map (λ tcp, (tcp_name tcp, ∅)) (li_tcp lis)).

Definition chain_cmp : EnvoyFilterChain → EnvoyFilterChain → comparison := cmp_on fch_name String.compare.

(** [tlsInspectorFilter]. *)
Definition tlsInspectorFilter : EnvoyFilter := mkHF "envoy.filters.listener.tls_inspector" (Some inspector_any).

Definition has_sni (lis : LIR) : bool :=
  existsb (λ hfc, negb (bool_decide (hfc_sni hfc = []))) (li_http lis) ||
  existsb (λ tcp, negb (bool_decide (tcp_sni tcp = []))) (li_tcp lis).

(** [ComputeListener]: [None] is the nil listener. *)
Definition ComputeListener (lis : LIR) : T S (option EnvoyListener * list RConfig) :=
  address <~ computeListenerAddress (li_bind_address lis);
  match address with
  | None => tret (None, [])
  | Some compat =>
      let ret := mkEL (li_name lis) (li_bind_address lis) (li_bind_port lis) compat gw_buffer_limit [] [] ∅ None in
      ret <~ runListenerPlugins lis ret;
      r <~ tfold (http_chain_step lis) ([], el_chains ret) (li_http lis);
      let '(routes, chains) := r in
      chains <~ tfold (tcp_chain_step lis) chains (li_tcp lis);
      let ret := el_with_chains (sort_stable chain_cmp chains) ret in
      let ret := if has_sni lis then el_with_listener_filters (el_listener_filters ret ++ [tlsInspectorFilter]) ret else ret in
      ret <~ runPostListenerPlugins lis ret;
      tret (Some ret, routes)
  end.

Record TranslationResult := mkTR {
  res_routes : list RConfig; res_listeners : list EnvoyListener; res_clusters : list string; res_secrets : list string }.

Definition gateway_listener_step (acc : list RConfig * list EnvoyListener) (lis : LIR) : T S (list RConfig * list EnvoyListener) :=
  r <~ ComputeListener lis;
  tret (match r with
        | (Some out, routes) => if bool_decide (el_chains out = []) then acc else (acc.1 ++ routes, acc.2 ++ [out])
        | (None, _) => acc
        end).

(** [Translate]. *)
Definition Translate (listeners : list LIR) : T S TranslationResult :=
  r <~ tfold gateway_listener_step ([], []) listeners;
  λ s, let rs := map (λ p, gp_resources p.2 s) (iter_passes passes) in
       (mkTR r.1 r.2 (flat_map rsc_clusters rs) (flat_map rsc_secrets rs), s, []).

End listeners.

(** ** TLS *)

(** What the TLS settings of a chain become. *)
Lemma transport_socket t :
  ∃ d, toTransportSocket (Some t) = Some d ∧
    dt_certificates d = map (λ c, (tls_chain c, tls_key c)) (tls_certificates t) ∧
    dt_require_client d = ccv_require_cert <$> tls_client_validation t ∧
    (∀ cv, tls_client_validation t = Some cv → ccv_ca_certificates cv ≠ [] →
       ∃ vc, dt_validation d = Some vc ∧ vc_trusted_ca vc = Some (join newline (ccv_ca_certificates cv)) ∧
         vc_hashes vc = tls_verify_hashes t ∧ vc_sans vc = tls_verify_sans t ∧
         vc_accept_untrusted vc = ccv_allow_insecure cv).
Proof.
  eexists. split; [done|]. cbn [dt_certificates dt_require_client dt_validation]. split; [done|]. split; [done|].
  intros cv Hcv Hca. unfold buildValidationContext. rewrite Hcv.
  destruct (ccv_ca_certificates cv) as [|ca cas]; [done|]. eexists. split; [done|]. cbn [vc_trusted_ca vc_hashes vc_sans vc_accept_untrusted].
  destruct (tls_verify_hashes t), (tls_verify_sans t), (ccv_allow_insecure cv); done.
Qed.

(** A validation that comes from attached policies has no fallback. *)
Lemma attached_no_fallback `{LP : ListenerPolicyView P} (l : @IRListener (@ListenerExtra P)) v :
  getCertValidationFromAttached l = Some v → ccv_insecure_fallback v = false.
Proof. unfold getCertValidationFromAttached. destruct (foldl _ _ _) as [[|c cs] r]; [done|]. by intros [= <-]. Qed.

(** C17: Mutual TLS reaches the proxy.  In the translation of a Gateway whose frontend TLS settings
    are those of its specification, a chain with TLS belongs to a valid HTTPS listener; when that
    listener terminates TLS and the validation of client certificates that applies to it (of its
    policies, or else of the Gateway for its port, unless a TLS listener comes first on the
    port) requires them, the filter chain made for Envoy requires a client certificate, trusts
    exactly the CA certificates fetched for that validation, of which there is one, does not
    accept untrusted certificates, and verifies the hashes and names the options ask for. *)
Theorem mtls_reaches_envoy `{LP : ListenerPolicyView P} {Cert : Type} `{CL : CertLib Cert} q iter_options iter_hosts fuel
    iter_ports order_sets settings (gw : @Gateway P) spec routes out evs li fc :
  let valid := (validateGatewayWithSettings iter_ports (gateway_view order_sets gw) (ltcfg_experimental settings)).1 in
  TranslateListeners q iter_options iter_hosts fuel iter_ports order_sets settings gw routes = Done (out, evs) →
  g_frontend gw = getFrontendTLSConfig <$> spec →
  li ∈ out → fc ∈ li_http li → hfc_tls fc ≠ None →
  ∃ l, l ∈ valid ∧ l_protocol (il_listener l) = "HTTPS" ∧ hfc_name fc = listener_key l ∧
    (ltc_mode (chain_tls_config l) = Some "Terminate" → ∀ v,
     applicable l (frontend_of gw valid (listener_port l)) v → ccv_require v = true →
     ∃ t d vc gvk n, hfc_tls fc = Some t ∧
       fch_tls (initFilterChain (hfc_name fc) (hfc_sni fc) (hfc_tls fc)) = Some d ∧
       dt_require_client d = Some true ∧ dt_validation d = Some vc ∧
       fetched_cas q v gvk n ≠ [] ∧ vc_trusted_ca vc = Some (join newline (fetched_cas q v gvk n)) ∧
       vc_accept_untrusted vc = false ∧ vc_hashes vc = tls_verify_hashes t ∧ vc_sans vc = tls_verify_sans t ∧
       (ltc_refs (chain_tls_config l) ≠ [] → dt_certificates d ≠ [])).
Proof.
  intros valid H Hspec Hli Hfc Hne.
  destruct (gateway_chains_secured q iter_options iter_hosts fuel iter_ports order_sets settings gw routes out evs H li Hli)
    as [Hh _].
  rewrite Forall_forall in Hh. destruct (Hh fc Hfc) as [[? _]|(l & Hl & Hp & Hn & _ & Hs)]; [done|].
  exists l. split_and!; [done..|]. intros Hm v Hv Hr. destruct (Hs _ eq_refl Hm) as (t & Ht & Hc & He).
  destruct (He v Hv Hr) as (e & Hcv & Hreq & Hcas & Hins & gvk & n & Hfetched).
  destruct (transport_socket t) as (d & Hd & Hcert & Hrc & Hvc).
  destruct (Hvc e Hcv Hcas) as (vc & Hdv & Hca & Hh' & Hsan & Hacc). exists t, d, vc, gvk, n.
  rewrite Ht. cbn [fch_tls initFilterChain]. rewrite Hrc, Hcv, Hcert. cbn [fmap option_fmap option_map]. rewrite Hreq.
  rewrite <- Hfetched, Hacc, Hins. split_and!; try done.
  - destruct Hv as [Hv|(_ & Hv & _)]; [by eapply attached_no_fallback|].
    unfold frontend_of in Hv. destruct (first_on _ _) as [l0|]; [|done]. cbn in Hv. unfold gateway_of in Hv.
    destruct (String.eqb _ "TLS"); [done|]. rewrite Hspec in Hv. destruct spec as [s|]; [|done].
    by eapply resolved_required.
  - intros Hrefs%Hc. by destruct (tls_certificates t).
Qed.

(** ** Filters *)

(** No element equals its successor. *)
Definition distinct_neighbours {A} (l : list A) : Prop :=
  ∀ i x y, l !! i = Some x → l !! Datatypes.S i = Some y → x ≠ y.

Lemma dedup_loop l acc :
  let r := foldl dedup_step acc l in
  (∀ x, x ∈ r ↔ x ∈ acc ∨ x ∈ l) ∧ r `sublist_of` acc ++ l ∧ (distinct_neighbours acc → distinct_neighbours r).
Proof.
  cbv zeta. revert acc. induction l as [|f l IH]; intros acc; cbn [foldl].
  - rewrite app_nil_r. split; [|done]. intros x. rewrite elem_of_nil. tauto.
  - unfold dedup_step at 2 4 6. destruct (bool_decide (last acc = Some f)) eqn:E.
    + apply bool_decide_eq_true in E. destruct (IH acc) as (H1 & H2 & H3). split; [|split; [|done]].
      * intros x. rewrite H1, elem_of_cons. split; [tauto|]. intros [?|[->|?]]; [tauto| |tauto]. left.
        rewrite last_lookup in E. by eapply list_elem_of_lookup_2.
      * etrans; [exact H2|]. apply sublist_app; [done|]. by apply sublist_cons.
    + apply bool_decide_eq_false in E. destruct (IH (acc ++ [f])) as (H1 & H2 & H3). split; [|split].
      * intros x. rewrite H1, elem_of_app, list_elem_of_singleton, elem_of_cons. tauto.
      * rewrite <- app_assoc in H2. exact H2.
      * intros Hd. apply H3. intros i x y Hx Hy.
        destruct (decide (Datatypes.S i < length acc)%nat) as [Hi|Hi].
        { rewrite lookup_app_l in Hx, Hy by lia. by eapply Hd. }
        apply lookup_lt_Some in Hy as Hlt. rewrite length_app in Hlt. cbn in Hlt.
        assert (Datatypes.S i = length acc) as Hi' by lia.
        rewrite Hi', list_lookup_middle in Hy by done. injection Hy as <-.
        rewrite lookup_app_l in Hx by lia. intros ->. apply E. rewrite last_lookup, <- Hi'. exact Hx.
Qed.

(** The HTTP filters of a chain are the staged ones in the order of their stages, with repeated
    equal ones once. *)
Lemma sortHttpFilters_spec l :
  (∀ f, f ∈ sortHttpFilters l ↔ f ∈ map sf_filter l) ∧
  sortHttpFilters l `sublist_of` map sf_filter (Sort l) ∧ distinct_neighbours (sortHttpFilters l).
Proof.
  unfold sortHttpFilters. destruct (dedup_loop (map sf_filter (Sort l)) []) as (H1 & H2 & H3). split; [|split; [done|]].
  - intros f. rewrite H1, elem_of_nil. destruct (sort_respects_stages l) as [Hp _].
    rewrite (Permutation_map sf_filter Hp). tauto.
  - apply H3. intros i x y Hx. by rewrite lookup_nil in Hx.
Qed.

(** ** Filter chains of a listener *)

Section chains.
#[local] Open Scope pass_scope.
Context {P Msg Hdr Rest S : Type} `{EL : EnvoyLib Any Hdr Rest} `{GS : GoSyntax} `{NL : NetLib}.
Context (MessageToAny : Msg → error + Any) (hcm_MessageToAny : @HCM Rest → error + Any)
        (tcp_MessageToAny : TcpProxy → error + Any) (router_MessageToAny : RouterV3 → error + Any)
        (inspector_any codec_any : Any).
Context (iter_kinds : AttachedPolicies P → list GroupKind)
        (iter_passes : gmap GroupKind (@GatewayPass P Msg Hdr Rest S) → list (GroupKind * @GatewayPass P Msg Hdr Rest S)).
Context (BuildPolicyConditions : PolicyAtt P → option (PolicyAtt P) → list metav1_Condition).
Context (t : Translator) (passes : gmap GroupKind (@GatewayPass P Msg Hdr Rest S)).
Context (gw : @GatewayIndex.Gateway P) (gw_class : string) (gw_buffer_limit : option Z).

Lemma plugin_filters_some get what rl s r s' lg :
  plugin_filters iter_passes passes get what rl s = (r, s', lg) → Forall (λ f, is_Some (sf_filter f)) r.
Proof.
  intros H. refine (tfold_ind _ (λ _ acc, Forall (λ f, is_Some (sf_filter f)) acc) _ _ _ _ _ _ H _ _); [constructor|].
  intros pre plug acc acc' s1 s2 l1 _ Hacc Hs. run_inv Hs. run_inv Hs. injection Hs as <- _ _.
  apply Forall_app. split; [done|]. apply Forall_forall. by intros f [? _]%list_elem_of_filter.
Qed.

(** The HTTP filters of a chain end with the router, which Envoy needs last; before it come
    the filters that plugins and the chain contribute, every one of them and no nil one, in the
    order of their stages, repeated equal filters once.  When there are upstream filters the
    router ends them with the upstream codec. *)
Theorem http_filters_end_with_router port chain custom rl s res s' lg :
  (∀ r, ∃ a, router_MessageToAny r = inr a) →
  hcm_http_filters router_MessageToAny codec_any iter_passes passes port chain custom rl s = (res, s', lg) →
  ∃ staged upstream router any,
    Forall (λ f, is_Some (sf_filter f)) (staged ++ upstream) ∧
    (∀ c, c ∈ custom → Some (mkHF (cef_name c) (cef_config c)) ∈ map sf_filter staged) ∧
    res = sortHttpFilters staged ++ [Some (mkHF "envoy.filters.http.router" (Some any))] ∧
    (∀ f, f ∈ sortHttpFilters staged ↔ f ∈ map sf_filter staged) ∧
    sortHttpFilters staged `sublist_of` map sf_filter (Sort staged) ∧ distinct_neighbours (sortHttpFilters staged) ∧
    router_MessageToAny router = inr any ∧
    (upstream ≠ [] → last (router_upstream router) = Some (Some (mkHF "envoy.filters.http.upstream_codec" (Some codec_any)))).
Proof.
  intros Hm H. unfold hcm_http_filters in H. run_inv H. apply plugin_filters_some in Hrun.
  run_inv H. apply plugin_filters_some in Hrun0. set (router := mkRouter _) in H. destruct (Hm router) as [any Hany].
  unfold NewStagedFilter in H. rewrite Hany in H. run_inv H. injection H as <- _ _.
  exists (r ++ convertCustomFilters custom), r0, router, any.
  destruct (sortHttpFilters_spec (r ++ convertCustomFilters custom)) as (H1 & H2 & H3).
  split; [|split; [|split; [done|split; [done|split; [done|split; [done|split; [done|]]]]]]].
  - rewrite !Forall_app. split; [|done]. split; [done|]. apply Forall_forall. intros f (c & -> & _)%list_elem_of_fmap. by eexists.
  - intros c Hc. rewrite map_app, elem_of_app. right. unfold convertCustomFilters. rewrite map_map.
    by apply (list_elem_of_fmap_2 (λ c, Some (mkHF (cef_name c) (cef_config c)))).
  - intros Hu. subst router. cbn [router_upstream]. destruct r0; [done|]. by rewrite last_snoc.
Qed.

(** What a chain is for: its name, its server names, its TLS settings. *)
Definition chain_id (c : EnvoyFilterChain) : string * option (list string) * option DownstreamTlsContext :=
  (fch_name c, fch_server_names c, fch_tls c).

Definition ir_chain_ids (lis : @ListenerIR P) : list (string * option (list string) * option DownstreamTlsContext) :=
  map (λ f, (hfc_name f, toMatch (hfc_sni f), toTransportSocket (hfc_tls f))) (li_http lis) ++
  map (λ f, (tcp_name f, toMatch (tcp_sni f), toTransportSocket (tcp_tls f))) (li_tcp lis).

(** Plugins leave the chains alone before they are built, and their identity afterwards. *)
Definition chains_kept : Prop := ∀ gk pass ctx out s, passes !! gk = Some pass →
  el_chains (gp_listener pass ctx (out, s)).1 = el_chains out ∧
  map chain_id (el_chains (gp_post_listener pass ctx (out, s)).1) = map chain_id (el_chains out).

Lemma listener_plugins_keep lis out s out' s' lg :
  chains_kept → runListenerPlugins iter_kinds passes gw lis out s = (out', s', lg) → el_chains out' = el_chains out.
Proof.
  intros Hk H. refine (tfold_ind _ (λ _ o, el_chains o = el_chains out) _ _ _ _ _ _ H _ _); [done|].
  intros pre gk o o' s1 s2 l1 _ Ho Hs. destruct (passes !! gk) as [pass|] eqn:E; [|injection Hs as <- _ _; done].
  cbv zeta in Hs. destruct (mergePolicies (gp_routes pass) (ap_get (listener_policies gw) gk)) as [eff origins].
  run_inv Hs. run_inv Hs. run_inv Hs. injection Hs as <- _ _. cbn [el_with_metadata el_chains].
  rewrite <- Ho. refine (tfold_ind _ (λ _ x, el_chains x = el_chains o) _ _ _ _ _ _ Hrun0 _ _); [done|].
  clear -Hk E. intros pre pol x x' s1 s2 l1 _ Hx Hs. run_inv Hs. injection Hs as <- _ _. unfold hook in Hrun.
  pose proof (Hk gk pass (mkLCtx (li_bind_port lis) (pa_ir pol) "" (gateway_ref gw)) x s1 E) as [Hp _].
  destruct (gp_listener pass _ (x, s1)) as [x1 s3]. injection Hrun as <- _ _. cbn [snd fst] in *. by rewrite Hp.
Qed.

Lemma post_plugins_keep lis out s out' s' lg :
  chains_kept → runPostListenerPlugins iter_kinds passes gw lis out s = (out', s', lg) →
  map chain_id (el_chains out') = map chain_id (el_chains out).
Proof.
  intros Hk H. refine (tfold_ind _ (λ _ o, map chain_id (el_chains o) = map chain_id (el_chains out)) _ _ _ _ _ _ H _ _); [done|].
  intros pre chain o o' s1 s2 l1 _ Ho Hs. rewrite <- Ho. unfold post_chain_step in Hs.
  refine (tfold_ind _ (λ _ x, map chain_id (el_chains x) = map chain_id (el_chains o)) _ _ _ _ _ _ Hs _ _); [done|].
  clear -Hk. intros pre gk x x' s1 s2 l1 _ Hx Hs. rewrite <- Hx. destruct (passes !! gk) as [pass|] eqn:E; [|injection Hs as <- _ _; done].
  refine (tfold_ind _ (λ _ y, map chain_id (el_chains y) = map chain_id (el_chains x)) _ _ _ _ _ _ Hs _ _); [done|].
  clear -Hk E. intros pre pol y y' s1 s2 l1 _ Hy Hs. run_inv Hs. injection Hs as <- _ _. unfold hook in Hrun.
  pose proof (Hk gk pass (mkLCtx (li_bind_port lis) (pa_ir pol) chain.1 (gateway_ref gw)) y s1 E) as [_ Hp].
  destruct (gp_post_listener pass _ (y, s1)) as [y1 s3]. injection Hrun as <- _ _. cbn [snd fst] in *. by rewrite Hp.
Qed.

(** An Envoy listener has exactly the filter chains of its IR, each with the server names and
    the TLS settings translated for it, in the order of their names whatever order they were
    built in, and one route configuration for each HTTP chain. *)
Theorem listener_chains_exact lis s out routes s' lg :
  chains_kept →
  ComputeListener MessageToAny hcm_MessageToAny tcp_MessageToAny router_MessageToAny inspector_any codec_any iter_kinds iter_passes
    BuildPolicyConditions t passes gw gw_class gw_buffer_limit lis s = ((Some out, routes), s', lg) →
  map chain_id (el_chains out) ≡ₚ ir_chain_ids lis ∧
  StronglySorted (λ a b, String.compare a b ≠ Gt) (map fch_name (el_chains out)) ∧
  length routes = length (li_http lis).
Proof.
  intros Hk H. unfold ComputeListener in H. run_inv H. destruct r as [compat|]; [|done].
  run_inv H. apply listener_plugins_keep in Hrun0; [|done]. cbn [el_chains] in Hrun0.
  run_inv H. destruct r0 as [routes' chains]. run_inv H. run_inv H. injection H as <- <- _ _.
  apply post_plugins_keep in Hrun3; [|done].
  pose proof (tfold_ind _ (λ pre acc, length acc.1 = length pre ∧ map chain_id acc.2 =
    map (λ f, (hfc_name f, toMatch (hfc_sni f), toTransportSocket (hfc_tls f))) pre) _ _ _ _ _ _ Hrun1) as Hh.
  destruct Hh as [Hlen Hh].
  { rewrite Hrun0. done. }
  { clear. intros pre hfc acc acc' s1 s2 l1 _ [Hl Hq] Hs. unfold http_chain_step in Hs. run_inv Hs. run_inv Hs. injection Hs as <- _ _.
    cbn [fst snd]. rewrite !map_app, !length_app, Hq, Hl. done. }
  cbn [fst snd] in *.
  assert (map chain_id r0 = ir_chain_ids lis) as Hids.
  { refine (tfold_ind _ (λ pre acc, map chain_id acc = map (λ f, (hfc_name f, toMatch (hfc_sni f), toTransportSocket (hfc_tls f))) (li_http lis) ++
      map (λ f, (tcp_name f, toMatch (tcp_sni f), toTransportSocket (tcp_tls f))) pre) _ _ _ _ _ _ Hrun2 _ _).
    { cbn [map]. by rewrite app_nil_r. }
    clear. intros pre tcp acc acc' s1 s2 l1 _ Hq Hs. unfold tcp_chain_step in Hs. run_inv Hs. injection Hs as <- _ _.
    rewrite !map_app, Hq, <- app_assoc. done. }
  assert (map chain_id (el_chains r1) = map chain_id (sort_stable chain_cmp r0)) as Hout.
  { rewrite Hrun3. by destruct (has_sni lis). }
  assert (map fch_name (el_chains r1) = map fch_name (sort_stable chain_cmp r0)) as Hnames.
  { assert (∀ cs, map fch_name cs = map (λ x, x.1.1) (map chain_id cs)) as Hm by (intros cs; by rewrite map_map). by rewrite !Hm, Hout. }
  split; [|split; [|done]].
  - rewrite Hout, (sort_stable_perm chain_cmp r0). by rewrite Hids.
  - rewrite Hnames. assert (StronglySorted (cmp_le chain_cmp) (sort_stable chain_cmp r0)) as Hs by (apply sort_stable_sorted; apply _).
    clear -Hs. induction Hs as [|c cs Hs IH Hall]; [constructor|]. cbn [map]. constructor; [done|].
    apply Forall_forall. intros n (c' & -> & Hin)%list_elem_of_fmap. rewrite Forall_forall in Hall. by apply Hall.
Qed.

End chains.

(** ** TCP proxies *)

(** Several backends: the proxy balances over exactly those of positive weight. *)
Lemma tcp_cluster_weights {P} (refs : list (BackendRefIR P)) :
  length refs ≠ 1%nat → Forall (λ b, 0 ≤ br_weight b)%Z refs →
  ∃ l, tcp_cluster refs = TWeighted l ∧ Forall (λ c, 0 < c.2)%Z l ∧
    ∀ n w, (n, w) ∈ l ↔ (0 < w)%Z ∧ ∃ b, b ∈ refs ∧ br_cluster b = n ∧ br_weight b = w.
Proof.
  intros Hlen Hpos. assert (tcp_cluster refs = TWeighted (map (λ b, (br_cluster b, br_weight b)) (filter (λ b, br_weight b ≠ 0%Z) refs))) as ->
    by (by destruct refs as [|? [|]]).
  eexists. split; [done|]. rewrite Forall_forall in Hpos.
  assert (∀ n w, (n, w) ∈ map (λ b, (br_cluster b, br_weight b)) (filter (λ b, br_weight b ≠ 0%Z) refs) ↔
    (0 < w)%Z ∧ ∃ b, b ∈ refs ∧ br_cluster b = n ∧ br_weight b = w) as H; [|split; [|done]].
  - intros n w. rewrite list_elem_of_fmap. split.
    + intros (b & [= -> ->] & [Hw Hb]%list_elem_of_filter). specialize (Hpos b Hb). split; [lia|]. by exists b.
    + intros (Hw & b & Hb & <- & <-). exists b. split; [done|]. apply list_elem_of_filter. split; [lia|done].
  - apply Forall_forall. by intros [n w] [? _]%H.
Qed.

(** ** Witnesses and corner cases *)

#[local] Existing Instance ListenerTranslator.ex_certs.
#[local] Existing Instance ListenerTranslator.ex_view.

(** The Gateway of the example requires client certificates on all its ports. *)
Definition ex_frontend_spec : FrontendTLSConfig :=
  mkFTC (Some (mkFTV [mkObjRef "" "ConfigMap" None "ca"] AllowValidOnly)) [].

Lemma mtls_reaches_envoy_witness :
  ∃ li fc d, li ∈ (ex_out [ListenerTranslator.ex_https; ex_tls_lis]).1 ∧ fc ∈ li_http li ∧
    fch_tls (initFilterChain (hfc_name fc) (hfc_sni fc) (hfc_tls fc)) = Some d ∧ dt_require_client d = Some true.
Proof.
  destruct (ex_out [ListenerTranslator.ex_https; ex_tls_lis]).1 as [|li lis] eqn:E; [exfalso; revert E; vm_compute; discriminate|].
  destruct (li_http li) as [|fc fcs] eqn:Ef; [exfalso; revert E; vm_compute; intros [= <- _]; discriminate Ef|].
  destruct (mtls_reaches_envoy ex_queries map_to_list map_to_list 1 map_to_list ex_order ex_settings
    (ListenerTranslator.ex_gateway [ListenerTranslator.ex_https; ex_tls_lis]) (Some ex_frontend_spec) ex_no_routes _ _ li fc ex_translate_eq)
    as (l & Hl & Hp & Hn & Hmtls).
  - vm_compute. reflexivity.
  - rewrite E. left.
  - rewrite Ef. left.
  - revert E. vm_compute. intros [= <- _]. injection Ef as <- _. discriminate.
  - exists li, fc.
    assert ((validateGatewayWithSettings map_to_list (gateway_view ex_order (ListenerTranslator.ex_gateway [ListenerTranslator.ex_https; ex_tls_lis]))
      (ltcfg_experimental ex_settings)).1 = [ListenerTranslator.ex_https; ex_tls_lis]) as Hv by (vm_compute; reflexivity).
    rewrite Hv in Hl, Hmtls. assert (l = ListenerTranslator.ex_https) as ->.
    { apply elem_of_cons in Hl as [->|Hl]; [reflexivity|]. apply list_elem_of_singleton in Hl as ->. discriminate Hp. }
    destruct (Hmtls eq_refl (mkCCV [mkObjRef "" "ConfigMap" None "ca"] true false)) as (t & d & vc & gvk & n & _ & Hd & Hr & _).
    + right. split; [reflexivity|]. split; [vm_compute; reflexivity|discriminate].
    + reflexivity.
    + exists d. split; [left|]. split; [rewrite Ef; left|]. split; [exact Hd|exact Hr].
Defined.

(** A plugin with one HTTP filter, one of them nil, and an upstream filter. *)
Definition ex_any (n : string) : Any := mkAny ("type." +:+ n) n.
Definition ex_staged (n : string) (stage : Z) : StagedFilter (option EnvoyFilter) :=
  mkSF (Some (mkHF n (Some (ex_any n)))) (DuringStage stage) 0.

Definition ex_gpass : @GatewayPass unit unit unit unit nat :=
  mkGP (mkPass nat None (λ _ x, x) (λ _ x, x) (λ _ x, (None, x)) (λ _ _ x, (None, x)) (λ _ _ x, (None, x)))
    (λ _ x, x) (λ _ x, x) (λ _ _ _ x, (None, x)) (λ s, ([], None, s))
    (λ _ _ s, ([ex_staged "ratelimit" RateLimitStage; mkSF None (DuringStage AuthZStage) 0; ex_staged "cors" CorsStage;
                ex_staged "cors" CorsStage], None, Datatypes.S s))
    (λ _ _ s, ([ex_staged "up" CorsStage], None, s)) (λ _, mkRsc [] []).

Definition ex_passes : gmap GroupKind (@GatewayPass unit unit unit unit nat) := {[ mkGK "g" "TrafficPolicy" := ex_gpass ]}.
Definition ex_router (r : RouterV3) : error + Any := inr (ex_any (join "," (map (λ f, default "" (hf_name <$> f)) (router_upstream r)))).

Lemma http_filters_end_with_router_witness :
  ∃ res s lg, hcm_http_filters ex_router (ex_any "codec") map_to_list ex_passes 80 "http" [] (ex_gw_parent, "web") 0%nat = (res, s, lg) ∧
    map (λ f, default "" (hf_name <$> f)) res = ["cors"; "ratelimit"; "envoy.filters.http.router"] ∧
    ∃ staged, Forall (λ f, is_Some (sf_filter f)) staged ∧ distinct_neighbours (sortHttpFilters staged).
Proof.
  destruct (hcm_http_filters ex_router (ex_any "codec") map_to_list ex_passes 80 "http" [] (ex_gw_parent, "web") 0%nat) as [[res s] lg] eqn:E.
  exists res, s, lg. split; [done|]. split; [vm_compute in E; injection E as <- _ _; reflexivity|].
  destruct (http_filters_end_with_router ex_router (ex_any "codec") map_to_list ex_passes 80 "http" [] (ex_gw_parent, "web") 0%nat res s lg
    (λ r, ex_intro _ _ eq_refl) E) as (staged & up & router & any & [Hs _]%Forall_app & _ & _ & _ & _ & Hd & _).
  exists staged. split; [exact Hs|exact Hd].
Defined.

#[local] Instance ex_lib : EnvoyLib Any unit unit := {|
  router_ToAny := inr (ex_any "router"); hcm_ToAny _ := inr (ex_any "hcm"); UnmarshalTo_UpstreamTls _ := None; Validate _ := None |}.
#[local] Instance ex_goSyntax : GoSyntax := {| url_Parse_Path s := inr s; regexp_Compile _ := None |}.
#[local] Instance ex_net : NetLib := {| ParseIP s := if isPureIPv4Address s then Some true else Some false |}.

Definition ex_lir : @ListenerIR unit :=
  mkLIR "listener~443" "0.0.0.0" 443 [mkHFC "z" ["z.com"] None [] ∅; mkHFC "a" ["a.com"] None [] ∅] [mkTcp "m" [] None []] ex_gw_ref.

Definition ex_compute := ComputeListener (λ _ : unit, inr (ex_any "m")) (λ _, inr (ex_any "hcm")) (λ _, inr (ex_any "tcp")) ex_router
  (ex_any "inspector") (ex_any "codec") ex_iter map_to_list (λ _ _, []) (mkTr ValidationStandard false) ex_passes
  (ListenerTranslator.ex_gateway []) "kgateway" None ex_lir 0%nat.

Lemma listener_chains_exact_witness :
  ∃ out routes s lg, ex_compute = ((Some out, routes), s, lg) ∧ map fch_name (el_chains out) = ["a"; "m"; "z"] ∧
    map chain_id (el_chains out) ≡ₚ ir_chain_ids ex_lir ∧ length routes = length (li_http ex_lir).
Proof.
  destruct ex_compute as [[[[out|] routes] s] lg] eqn:E; [|exfalso; vm_compute in E; discriminate].
  exists out, routes, s, lg. split; [done|]. split; [vm_compute in E; injection E as <- _ _ _; reflexivity|].
  destruct (listener_chains_exact (λ _ : unit, inr (ex_any "m")) (λ _, inr (ex_any "hcm")) (λ _, inr (ex_any "tcp")) ex_router
    (ex_any "inspector") (ex_any "codec") ex_iter map_to_list (λ _ _, []) (mkTr ValidationStandard false) ex_passes
    (ListenerTranslator.ex_gateway []) "kgateway" None ex_lir 0%nat out routes s lg) as (H1 & _ & H3); [|exact E|split; [exact H1|exact H3]].
  intros gk pass ctx o s0 Hp. unfold ex_passes in Hp. apply lookup_singleton_Some in Hp as [_ <-]. split; reflexivity.
Defined.

(** The errors of plugins on an HTTP chain, which is named after its port, are reported for a
    listener of that name, which the Gateway does not have. *)
Theorem http_chain_reporter_unknown :
  getReporterForFilterChain (ListenerTranslator.ex_gateway [ListenerTranslator.ex_lis "web" None 80 "HTTP" None])
    (GenerateListenerNameFromPort 80) = (ex_gw_parent, "listener~80").
Proof. vm_compute. reflexivity. Qed.

(** A TCP route whose only backend has weight zero sends it all traffic; with several of weight
    zero the proxy gets weighted clusters without a cluster. *)
Theorem tcp_zero_weights :
  tcp_cluster [mkBackendRef (P:=unit) "a" 0 None None] = TCluster "a" ∧
  tcp_cluster [mkBackendRef (P:=unit) "a" 0 None None; mkBackendRef "b" 0 None None] = TWeighted [].
Proof. vm_compute. split; reflexivity. Qed.
