(* ===== verification/ValidatorCache.v ===== *)
(** * Envoy validation and its caches (pkg/validator)

    The validators that run Envoy on a bootstrap (validator.go), the caching validator in
    front of them with its collapsed concurrent misses (cache.go), the memo of verdicts by
    content (memo.go) and the choice between them (factory.go).

    A call of the caching validator is a goroutine with a program counter; the calls, the
    shared cache and the flights of singleflight form a transition system over all
    interleavings.  The LRU cache and singleflight are libraries: they are classes with the
    documented behaviour of their operations as laws.  The outcome of each run of the inner
    validator is chosen by the environment: runs may fail for reasons of their own at any
    time.  Metrics are omitted. *)

From S2P Require Import Prelude IR Hashing SslUtils EnvoyRoute.

(** ** Libraries *)

(** github.com/hashicorp/golang-lru: [New] takes a positive size. *)
Class LruLib (K V : Type) := {
  Lru : Type;
  lru_New : positive → Lru;
  lru_Get : K → Lru → option V * Lru;
  lru_Add : K → V → Lru → Lru;
  lru_Peek : Lru → K → option V
}.
Arguments Lru K V {_}.

Class LruLaws (K V : Type) `{LruLib K V} : Prop := {
  lru_new_empty n k : lru_Peek (lru_New n) k = None;
  lru_get_value k c : (lru_Get k c).1 = lru_Peek c k;
  lru_get_keeps k c k' : lru_Peek (lru_Get k c).2 k' = lru_Peek c k';
  lru_add_same k v c : lru_Peek (lru_Add k v c) k = Some v;
  lru_add_other k v c k' :
    k' ≠ k → lru_Peek (lru_Add k v c) k' = lru_Peek c k' ∨ lru_Peek (lru_Add k v c) k' = None
}.

(** golang.org/x/sync/singleflight: the calls waiting for the execution of a key that is in
    flight.  [Do] either starts one, as leader, or waits for it. *)
Class Singleflight (K : Type) := {
  Flights : Type;
  sf_empty : Flights;
  sf_waiters : Flights → K → option (list nat);
  sf_Do : K → nat → Flights → bool * Flights;
  sf_done : K → Flights → Flights
}.
Arguments Flights K {_}.

Class SingleflightLaws (K : Type) `{Singleflight K} : Prop := {
  sf_empty_none k : sf_waiters sf_empty k = None;
  sf_do_leader k i f : sf_waiters f k = None → (sf_Do k i f).1 = true ∧ sf_waiters (sf_Do k i f).2 k = Some [];
  sf_do_waiter k i f ws :
    sf_waiters f k = Some ws → (sf_Do k i f).1 = false ∧ sf_waiters (sf_Do k i f).2 k = Some (ws ++ [i]);
  sf_do_other k i f k' : k' ≠ k → sf_waiters (sf_Do k i f).2 k' = sf_waiters f k';
  sf_done_same k f : sf_waiters (sf_done k f) k = None;
  sf_done_other k f k' : k' ≠ k → sf_waiters (sf_done k f) k' = sf_waiters f k'
}.

(** ** Running Envoy (validator.go) *)

(** [\s] of Go's regular expressions. *)
Definition re_space (a : Ascii.ascii) : bool :=
  existsb (Ascii.eqb a) (map Ascii.ascii_of_nat [9; 10; 12; 13; 32]%nat).

Fixpoint drop_while (p : Ascii.ascii → bool) (s : string) : string :=
  match s with
  | String a s' => if p a then drop_while p s' else s
  | EmptyString => ""
  end.

(** [ReplaceAllString] of a pattern: a literal, a character of a class repeated, and then
    what [skip] drops.  Every round consumes a character, so the length is fuel enough. *)
Fixpoint replace_tokens (fuel : nat) (literal : string) (cls : Ascii.ascii → bool) (skip : string → string)
    (new s : string) : string :=
  match fuel, s with
  | S fuel, String a s' =>
      let rest := str_drop (String.length literal) s in
      match rest with
      | String b _ =>
          if has_prefix s literal && cls b
          then new +:+ replace_tokens fuel literal cls skip new (skip (drop_while cls rest))
          else String a (replace_tokens fuel literal cls skip new s')
      | EmptyString => String a (replace_tokens fuel literal cls skip new s')
      end
  | _, _ => s
  end.

(** [protoDebugPrefixRe]: [goo\.gle/\S+\s*]. *)
Definition stripProtoDebugPrefix (s : string) : string :=
  replace_tokens (String.length s) "goo.gle/" (λ a, negb (re_space a)) (drop_while re_space) "" s.

(** [envoyDebugTokenRE]: [goo\.gle/debug[a-zA-Z0-9]+]. *)
Definition normalizeEnvoyError (raw : string) : string :=
  let normalized := trim_space raw in
  replace_tokens (String.length normalized) "goo.gle/debug" is_alnum id "goo.gle/debug" normalized.

Definition error_line (line : string) : bool := contains (trim_space line) "error initializing configuration".

Fixpoint from_error_line (lines : list string) : option (list string) :=
  match lines with
  | [] => None
  | l :: rest => if error_line l then Some (l :: rest) else from_error_line rest
  end.

Definition extractEnvoyError (stderr : string) : string :=
  match from_error_line (split (Ascii.ascii_of_nat 10) stderr) with
  | None => ""
  | Some lines => stripProtoDebugPrefix (join " " (filter (λ l, l ≠ "") (map trim_space lines)))
  end.

(** What [cmd.Run] returns: success, an [exec.ExitError], or a failure to run at all. *)
Inductive CommandResult := CmdOk | CmdExit (err : string) | CmdFailed (err : error).

Record dockerValidator := mkDocker { d_img : string; d_etc_envoy : string; d_pull : string }.

Definition docker_args (d : dockerValidator) : list string :=
  ["run"; "--rm"; "-i"] ++
  (if String.eqb (d_pull d) "" then [] else ["--pull"; d_pull d]) ++
  (if String.eqb (d_etc_envoy d) "" then [] else ["-v"; d_etc_envoy d +:+ ":/etc/envoy/:ro"]) ++
  ["--entrypoint"; "/usr/local/bin/envoy"; d_img d; "--mode"; "validate"; "--service-node"; "dummy-node";
   "--config-path"; "/dev/fd/0"; "-l"; "critical"; "--log-format"; "%v"].

Definition invalid_xds (msg : string) : error := EWrap2 (ESentinel ErrInvalidXDS) ": " (EMsg msg).

Section validators.
Context {B : Type} (without_log : B → B) (protojson_Marshal : B → error + string).

Definition prepareBootstrapConfig (bootstrap : B) : error + string := protojson_Marshal (without_log bootstrap).

(** The digest, written in hexadecimal. *)
Definition cacheKeyFor (bootstrap : B) : error + string :=
  match prepareBootstrapConfig bootstrap with
  | inl e => inl e
  | inr marshalled => inr (sha256_hex marshalled)
  end.

(** [run]: the command on its standard input, with its result and its error output. *)
Definition binary_Validate (run : string → CommandResult * string) (bootstrap : B) : option error :=
  match prepareBootstrapConfig bootstrap with
  | inl e => Some (EWrap "could not marshal bootstrap config: " e)
  | inr marshalled =>
      let '(result, stderr) := run marshalled in
      match result with
      | CmdOk => None
      | CmdExit err =>
          let rawErr := normalizeEnvoyError stderr in
          Some (invalid_xds (if String.eqb rawErr "" then err else rawErr))
      | CmdFailed e => Some (EWrap "envoy validate invocation failed: " e)
      end
  end.

Definition docker_Validate (run : list string → string → CommandResult * string) (d : dockerValidator) (bootstrap : B) :
    option error :=
  match prepareBootstrapConfig bootstrap with
  | inl e => Some (EWrap "could not marshal bootstrap config: " e)
  | inr marshalled =>
      let '(result, stderr) := run (docker_args d) marshalled in
      match result with
      | CmdOk => None
      | CmdExit err =>
          let rawErr := trim_space stderr in
          let envoyErr := extractEnvoyError rawErr in
          Some (invalid_xds (normalizeEnvoyError
            (if negb (String.eqb envoyErr "") then envoyErr else if String.eqb rawErr "" then err else rawErr)))
      | CmdFailed e => Some (EWrap "envoy validate invocation failed: " e)
      end
  end.
End validators.

(** ** Cached results (cache.go) *)

Definition DefaultCacheSize : Z := 65536.

Record cachedResult := mkCR { cr_ok : bool; cr_msg : string }.

Definition cr_err (r : cachedResult) : option error := if cr_ok r then None else Some (ECachedInvalid (cr_msg r)).

(** What is kept of the outcome of a run: nothing of a transient error. *)
Definition cacheable (outcome : option error) : option cachedResult :=
  match outcome with
  | None => Some (mkCR true "")
  | Some e => if err_is e ErrInvalidXDS then Some (mkCR false (err_text e)) else None
  end.

Definition cache_size (size : Z) : positive := Z.to_pos (if (size <=? 0)%Z then DefaultCacheSize else size).

(** ** The caching validator, with its callers *)

Section caching.
Context {B : Type} (key_of : B → error + string).
Context `{LL : LruLib string cachedResult} `{SF : Singleflight string}.

(** Where a call is: computing its key; running the inner validator without a key; reading
    the cache; entering singleflight; running as leader; leaving singleflight with the
    result; waiting for a leader; returned. *)
Inductive pc :=
| AtKey (b : B) | AtDirect (b : B) | AtGet (b : B) (k : string) | AtDo (b : B) (k : string)
| Leading (b : B) (k : string) | Leaving (b : B) (k : string) (res : error + cachedResult)
| Waiting (b : B) (k : string) | Returned (b : B) (answer : option error).

Record cachingValidator := mkCV {
  cv_cache : Lru string cachedResult; cv_flights : Flights string; cv_calls : list pc;
  cv_runs : list (B * option error) }.

Definition NewCaching (size : Z) : cachingValidator := mkCV (lru_New (cache_size size)) sf_empty [] [].

Definition with_pc (i : nat) (p : pc) (s : cachingValidator) : cachingValidator :=
  mkCV (cv_cache s) (cv_flights s) (<[i := p]> (cv_calls s)) (cv_runs s).

(** The function run under singleflight, on the outcome of the inner validator. *)
Definition flight_result (outcome : option error) : error + cachedResult :=
  match outcome, cacheable outcome with
  | Some e, None => inl e
  | _, r => inr (default (mkCR true "") r)
  end.

Definition flight_answer (res : error + cachedResult) : option error :=
  match res with inl e => Some e | inr r => cr_err r end.

(** Every waiter of the flight returns with its result. *)
Definition release (ws : list nat) (res : error + cachedResult) (calls : list pc) : list pc :=
  imap (λ j p, if bool_decide (j ∈ ws)
               then match p with Waiting b _ => Returned b (flight_answer res) | _ => p end else p) calls.

(** One step of call [i]; [outcome] is what the inner validator returns, where it is run. *)
Definition turn (i : nat) (outcome : option error) (s : cachingValidator) : option cachingValidator :=
  match cv_calls s !! i with
  | Some (AtKey b) => Some (with_pc i match key_of b with inl _ => AtDirect b | inr k => AtGet b k end s)
  | Some (AtDirect b) =>
      Some (mkCV (cv_cache s) (cv_flights s) (<[i := Returned b outcome]> (cv_calls s)) (cv_runs s ++ [(b, outcome)]))
  | Some (AtGet b k) =>
      let '(hit, cache) := lru_Get k (cv_cache s) in
      Some (mkCV cache (cv_flights s)
              (<[i := match hit with Some r => Returned b (cr_err r) | None => AtDo b k end]> (cv_calls s)) (cv_runs s))
  | Some (AtDo b k) =>
      let '(leader, flights) := sf_Do k i (cv_flights s) in
      Some (mkCV (cv_cache s) flights (<[i := if leader then Leading b k else Waiting b k]> (cv_calls s)) (cv_runs s))
  | Some (Leading b k) =>
      let cache := match cacheable outcome with Some r => lru_Add k r (cv_cache s) | None => cv_cache s end in
      Some (mkCV cache (cv_flights s) (<[i := Leaving b k (flight_result outcome)]> (cv_calls s))
              (cv_runs s ++ [(b, outcome)]))
  | Some (Leaving b k res) =>
      Some (mkCV (cv_cache s) (sf_done k (cv_flights s))
              (release (default [] (sf_waiters (cv_flights s) k)) res
                 (<[i := Returned b (flight_answer res)]> (cv_calls s))) (cv_runs s))
  | Some (Waiting _ _) | Some (Returned _ _) | None => None
  end.

Definition call (b : B) (s : cachingValidator) : cachingValidator :=
  mkCV (cv_cache s) (cv_flights s) (cv_calls s ++ [AtKey b]) (cv_runs s).

Inductive reachable (size : Z) : cachingValidator → Prop :=
| reach_new : reachable size (NewCaching size)
| reach_call b s : reachable size s → reachable size (call b s)
| reach_turn i outcome s s' : reachable size s → turn i outcome s = Some s' → reachable size s'.

(** Steps of the calls alone. *)
Inductive turns : nat → cachingValidator → cachingValidator → Prop :=
| turns_none s : turns 0 s s
| turns_more n i outcome s s' s'' : turn i outcome s = Some s' → turns n s' s'' → turns (S n) s s''.
End caching.
Arguments pc : clear implicits.
Arguments cachingValidator B {_ _}.

(** ** The memo (memo.go) *)

Section memo.
Context {K : Type} `{LL : LruLib K cachedResult}.

(** A nil memo validates every time. *)
Definition Memo : Type := option (Lru K cachedResult).

Definition NewMemo (size : Z) : Memo := Some (lru_New (cache_size size)).

Definition Memo_Validate (m : Memo) (key : K) (validate : unit → option error) : option error * Memo :=
  match m with
  | None => (validate tt, None)
  | Some cache =>
      match lru_Get key cache with
      | (Some hit, cache) => (cr_err hit, Some cache)
      | (None, cache) =>
          let err := validate tt in
          (err, Some match cacheable err with Some r => lru_Add key r cache | None => cache end)
      end
  end.
End memo.
Arguments Memo K {_}.

(** ** Lemmas: outcomes *)

(** The same verdict: both accept, or both refuse with the same text and the same answer to
    whether Envoy refused the configuration. *)
Definition same_verdict (o a : option error) : Prop :=
  match o, a with
  | None, None => True
  | Some e, Some e' => err_text e = err_text e' ∧ err_is e ErrInvalidXDS = err_is e' ErrInvalidXDS
  | _, _ => False
  end.

(** Envoy ran and decided. *)
Definition definite (o : option error) : Prop := ∀ e, o = Some e → err_is e ErrInvalidXDS = true.

Lemma same_verdict_refl o : same_verdict o o.
Proof. by destruct o. Qed.

Lemma cacheable_verdict o r : cacheable o = Some r → definite o ∧ same_verdict o (cr_err r).
Proof.
  destruct o as [e|]; simpl; [|intros [= <-]; by split]. destruct (err_is e ErrInvalidXDS) eqn:E; [|done].
  intros [= <-]. split; [by intros ? [= <-]|done].
Qed.

Lemma flight_verdict o : same_verdict o (flight_answer (flight_result o)).
Proof.
  unfold flight_result. destruct o as [e|]; [|done]. destruct (cacheable (Some e)) as [r|] eqn:E; simpl; [|done].
  apply cacheable_verdict in E as [_ E]. done.
Qed.

Lemma binary_definite {B} (wl : B → B) marshal run b e :
  binary_Validate wl marshal run b = Some e → (∀ e', err_is e' ErrInvalidXDS = true → marshal (wl b) ≠ inl e') →
  (∀ m e' stderr, run m = (CmdFailed e', stderr) → err_is e' ErrInvalidXDS = false) →
  err_is e ErrInvalidXDS = true ↔
  ∃ m err stderr, marshal (wl b) = inr m ∧ run m = (CmdExit err, stderr).
Proof.
  unfold binary_Validate, prepareBootstrapConfig. intros H Hm Hr. destruct (marshal (wl b)) as [e'|m].
  - injection H as <-. split; [intros; by destruct (Hm e')|naive_solver].
  - destruct (run m) as [[|err|e'] stderr] eqn:E; [done| |]; injection H as <-; [naive_solver|].
    simpl. split; [intros Ht; by rewrite (Hr _ _ _ E) in Ht|intros (? & ? & ? & [= <-] & ?); congruence].
Qed.

(** ** The calls of the caching validator *)

Section invariant.
Context {B : Type} (key_of : B → error + string).
Context `{LL : LruLib string cachedResult} `{LW : !LruLaws string cachedResult}.
Context `{SF : Singleflight string} `{SW : !SingleflightLaws string}.
Implicit Types (s : cachingValidator B) (runs : list (B * option error)).

Definition same_content (b b' : B) : Prop := b = b' ∨ ∃ k, key_of b = inr k ∧ key_of b' = inr k.

(** Some run on the same content had this verdict. *)
Definition faithful runs (b : B) (a : option error) : Prop :=
  ∃ b' o, (b', o) ∈ runs ∧ same_content b b' ∧ same_verdict o a.

Definition leads (p : pc B) (k : string) : Prop :=
  match p with Leading _ k' | Leaving _ k' _ => k' = k | _ => False end.

Definition call_ok (flights : Flights string) runs (i : nat) (p : pc B) : Prop :=
  match p with
  | AtKey _ => True
  | AtDirect b => ∃ e, key_of b = inl e
  | AtGet b k | AtDo b k => key_of b = inr k
  | Leading b k => key_of b = inr k ∧ is_Some (sf_waiters flights k)
  | Leaving b k res => key_of b = inr k ∧ is_Some (sf_waiters flights k) ∧
      ∃ b' o, (b', o) ∈ runs ∧ key_of b' = inr k ∧ same_verdict o (flight_answer res)
  | Waiting b k => key_of b = inr k ∧ ∃ ws, sf_waiters flights k = Some ws ∧ i ∈ ws
  | Returned b a => faithful runs b a
  end.

Definition entry_ok runs (k : string) (r : cachedResult) : Prop :=
  ∃ b o, (b, o) ∈ runs ∧ key_of b = inr k ∧ definite o ∧ same_verdict o (cr_err r).

Record inv s : Prop := mkInv {
  inv_cache k r : lru_Peek (cv_cache s) k = Some r → entry_ok (cv_runs s) k r;
  inv_call i p : cv_calls s !! i = Some p → call_ok (cv_flights s) (cv_runs s) i p;
  inv_leader i j p q k : cv_calls s !! i = Some p → cv_calls s !! j = Some q → leads p k → leads q k → i = j;
  inv_flight k ws : sf_waiters (cv_flights s) k = Some ws →
    (∃ i p, cv_calls s !! i = Some p ∧ leads p k) ∧
    ∀ j, j ∈ ws → ∃ b, cv_calls s !! j = Some (Waiting b k) }.

Lemma faithful_mono runs x b a : faithful runs b a → faithful (runs ++ x) b a.
Proof. intros (b' & o & H & ?). exists b', o. by rewrite elem_of_app; auto. Qed.

Lemma call_ok_mono f runs x i p : call_ok f runs i p → call_ok f (runs ++ x) i p.
Proof.
  destruct p; simpl; auto using faithful_mono. intros (? & ? & b' & o & ? & ?). do 2 (split; [done|]).
  exists b', o. by rewrite elem_of_app; auto.
Qed.

Lemma entry_ok_mono runs x k r : entry_ok runs k r → entry_ok (runs ++ x) k r.
Proof. intros (b' & o & H & ?). exists b', o. by rewrite elem_of_app; auto. Qed.

(** A step that only moves call [i], from a counter that neither leads nor waits. *)
Lemma lookup_moved {A} (l : list A) i x y j z :
  l !! i = Some x → <[i := y]> l !! j = Some z → (j = i ∧ z = y) ∨ (j ≠ i ∧ l !! j = Some z).
Proof.
  intros Hi Hj. destruct (decide (j = i)) as [->|Hne].
  - rewrite list_lookup_insert_eq in Hj by (by eapply lookup_lt_Some). left. split; congruence.
  - rewrite list_lookup_insert_ne in Hj by done. by right.
Qed.

Lemma inv_new size : inv (NewCaching size).
Proof.
  split; simpl; try done.
  - intros k r. by rewrite lru_new_empty.
  - intros k ws. by rewrite sf_empty_none.
Qed.

Lemma inv_called b s : inv s → inv (call b s).
Proof.
  intros [Hc Hp Hl Hf].
  assert (∀ i p, (cv_calls s ++ [AtKey b]) !! i = Some p → p = AtKey b ∨ cv_calls s !! i = Some p) as Happ.
  { intros i p [H|(_ & H)]%lookup_app_Some; [by right|]. apply list_lookup_singleton_Some in H as [_ <-]. by left. }
  split; simpl; [done| | |].
  - intros i p [->|H]%Happ; [done|by apply Hp].
  - intros i j p q k [->|Hi]%Happ Hj Hlp Hlq; [done|]. apply Happ in Hj as [->|Hj]; [done|]. by eapply Hl.
  - intros k ws H. apply Hf in H as [(i & p & Hi & Hlp) Hw]. split.
    + exists i, p. split; [by apply lookup_app_l_Some|done].
    + intros j Hj. destruct (Hw j Hj) as (b' & ?). exists b'. by apply lookup_app_l_Some.
Qed.

Definition quiet (p : pc B) : Prop :=
  match p with Leading _ _ | Leaving _ _ _ | Waiting _ _ => False | _ => True end.

Lemma inv_quiet s i p q cache x :
  inv s → cv_calls s !! i = Some p → quiet p → quiet q →
  call_ok (cv_flights s) (cv_runs s ++ x) i q →
  (∀ k r, lru_Peek cache k = Some r → entry_ok (cv_runs s ++ x) k r) →
  inv (mkCV cache (cv_flights s) (<[i := q]> (cv_calls s)) (cv_runs s ++ x)).
Proof.
  intros [Hc Hp Hl Hf] Hi Qp Qq Hq Hcache. split; simpl; [done| | |].
  - intros j z [[-> ->]|[_ Hj]]%(lookup_moved _ _ p); [done| |done]. by apply call_ok_mono, Hp.
  - intros j j' z z' k Hj Hj' Lz Lz'.
    apply (lookup_moved _ _ p) in Hj as [[-> ->]|[_ Hj]]; [by destruct q| |done].
    apply (lookup_moved _ _ p) in Hj' as [[-> ->]|[_ Hj']]; [by destruct q| |done]. by eapply Hl.
  - intros k ws H. apply Hf in H as [(j & z & Hj & Lz) Hw]. split.
    + exists j, z. split; [|done]. rewrite list_lookup_insert_ne; [done|]. intros ->.
      rewrite Hi in Hj. injection Hj as <-. by destruct p.
    + intros j' Hj'. destruct (Hw j' Hj') as (b & Hb). exists b. rewrite list_lookup_insert_ne; [done|].
      intros ->. rewrite Hi in Hb. injection Hb as ->. done.
Qed.

Lemma inv_quiet_runs s i p q cache :
  inv s → cv_calls s !! i = Some p → quiet p → quiet q → call_ok (cv_flights s) (cv_runs s) i q →
  (∀ k r, lru_Peek cache k = Some r → entry_ok (cv_runs s) k r) →
  inv (mkCV cache (cv_flights s) (<[i := q]> (cv_calls s)) (cv_runs s)).
Proof.
  intros Hinv Hi Qp Qq Hq Hc. pose proof (inv_quiet s i p q cache []) as H. rewrite app_nil_r in H. by apply H.
Qed.

Lemma call_ok_flights f f' runs i p :
  (∀ k ws, sf_waiters f k = Some ws → ∃ ws', sf_waiters f' k = Some ws' ∧ ∀ j, j ∈ ws → j ∈ ws') →
  call_ok f runs i p → call_ok f' runs i p.
Proof.
  intros Hf. destruct p; simpl; auto.
  - intros (? & ws & Hw). destruct (Hf _ _ Hw) as (? & ? & _). split; [done|by eexists].
  - intros (? & [ws Hw] & ?). destruct (Hf _ _ Hw) as (? & ? & _). split; [done|]. split; [by eexists|done].
  - intros (? & ws & Hw & ?). destruct (Hf _ _ Hw) as (? & ? & Hin). split; [done|]. eauto.
Qed.

Lemma flights_grow f k i :
  ∀ k' ws, sf_waiters f k' = Some ws → ∃ ws', sf_waiters (sf_Do k i f).2 k' = Some ws' ∧ ∀ j, j ∈ ws → j ∈ ws'.
Proof.
  intros k' ws H. destruct (decide (k' = k)) as [->|Hne].
  - destruct (sf_do_waiter _ i _ _ H) as [_ ->]. eexists. split; [done|]. intros j Hj. apply elem_of_app. by left.
  - exists ws. by rewrite sf_do_other.
Qed.

(** A call that moves keeps every other leader and waiter in place. *)
Lemma flight_kept s i p q k ws :
  inv s → cv_calls s !! i = Some p → quiet p → sf_waiters (cv_flights s) k = Some ws →
  (∃ j z, <[i := q]> (cv_calls s) !! j = Some z ∧ leads z k) ∧
  ∀ j, j ∈ ws → ∃ b, <[i := q]> (cv_calls s) !! j = Some (Waiting b k).
Proof.
  intros [_ _ _ Hf] Hi Qp H. apply Hf in H as [(j & z & Hj & Lz) Hw]. split.
  - exists j, z. split; [|done]. rewrite list_lookup_insert_ne; [done|]. intros ->.
    rewrite Hi in Hj. injection Hj as <-. by destruct p.
  - intros j' Hj'. destruct (Hw j' Hj') as (b & Hb). exists b. rewrite list_lookup_insert_ne; [done|].
    intros ->. rewrite Hi in Hb. injection Hb as ->. done.
Qed.

Lemma leader_in_flight s i p k :
  inv s → cv_calls s !! i = Some p → leads p k → is_Some (sf_waiters (cv_flights s) k).
Proof.
  intros [_ Hp _ _] Hi L. apply Hp in Hi. destruct p; simpl in L; try done; subst; simpl in Hi; tauto.
Qed.

Lemma moved_here {A} (l : list A) i x y : l !! i = Some x → <[i := y]> l !! i = Some y.
Proof. intros H. by eapply list_lookup_insert_eq, lookup_lt_Some. Qed.

Lemma inv_lead s i b k :
  inv s → cv_calls s !! i = Some (AtDo b k) → sf_waiters (cv_flights s) k = None →
  inv (mkCV (cv_cache s) (sf_Do k i (cv_flights s)).2 (<[i := Leading b k]> (cv_calls s)) (cv_runs s)).
Proof.
  intros Hinv Hi Hnone. pose proof Hinv as [Hc Hp Hl Hf]. destruct (sf_do_leader _ i _ Hnone) as [_ Hws].
  pose proof (Hp _ _ Hi) as Hk. simpl in Hk.
  assert (∀ j z, cv_calls s !! j = Some z → leads z k → False) as Hno.
  { intros j z Hj L. destruct (leader_in_flight _ _ _ _ Hinv Hj L); congruence. }
  split; simpl; [done| | |].
  - intros j z [[-> ->]|[_ Hj]]%(lookup_moved _ _ (AtDo b k)); [split; [done|by eexists]| |done].
    eapply call_ok_flights; [apply flights_grow|by apply Hp].
  - intros j j' z z' k' Hj Hj' Lz Lz'.
    apply (lookup_moved _ _ (AtDo b k)) in Hj as [[-> ->]|[_ Hj]]; [| |done];
      apply (lookup_moved _ _ (AtDo b k)) in Hj' as [[-> ->]|[_ Hj']]; try done; simpl in *; subst.
    + by destruct (Hno j' z').
    + by destruct (Hno j z).
    + by eapply Hl.
  - intros k' ws' H. destruct (decide (k' = k)) as [->|Hne].
    + rewrite Hws in H. injection H as <-. split; [|intros j; by rewrite elem_of_nil].
      exists i, (Leading b k). split; [by eapply moved_here|done].
    + rewrite sf_do_other in H by done. by eapply flight_kept.
Qed.

Lemma inv_wait s i b k ws :
  inv s → cv_calls s !! i = Some (AtDo b k) → sf_waiters (cv_flights s) k = Some ws →
  inv (mkCV (cv_cache s) (sf_Do k i (cv_flights s)).2 (<[i := Waiting b k]> (cv_calls s)) (cv_runs s)).
Proof.
  intros Hinv Hi Hsome. pose proof Hinv as [Hc Hp Hl Hf]. destruct (sf_do_waiter _ i _ _ Hsome) as [_ Hws].
  pose proof (Hp _ _ Hi) as Hk. simpl in Hk. split; simpl; [done| | |].
  - intros j z [[-> ->]|[_ Hj]]%(lookup_moved _ _ (AtDo b k)); [| |done].
    + split; [done|]. eexists. split; [done|]. apply elem_of_app. right. by left.
    + eapply call_ok_flights; [apply flights_grow|by apply Hp].
  - intros j j' z z' k' Hj Hj' Lz Lz'.
    apply (lookup_moved _ _ (AtDo b k)) in Hj as [[-> ->]|[_ Hj]]; [done| |done].
    apply (lookup_moved _ _ (AtDo b k)) in Hj' as [[-> ->]|[_ Hj']]; [done| |done]. by eapply Hl.
  - intros k' ws' H. destruct (decide (k' = k)) as [->|Hne].
    + rewrite Hws in H. injection H as <-.
      destruct (flight_kept s i (AtDo b k) (Waiting b k) k ws) as [H1 H2]; [done..|]. split; [done|].
      intros j [Hj|Hj%list_elem_of_singleton]%elem_of_app; [by apply H2|subst].
      exists b. by eapply moved_here.
    + rewrite sf_do_other in H by done. by eapply flight_kept.
Qed.

Lemma inv_ran s i b k o cache :
  inv s → cv_calls s !! i = Some (Leading b k) →
  (∀ k' r, lru_Peek cache k' = Some r → entry_ok (cv_runs s ++ [(b, o)]) k' r) →
  inv (mkCV cache (cv_flights s) (<[i := Leaving b k (flight_result o)]> (cv_calls s)) (cv_runs s ++ [(b, o)])).
Proof.
  intros Hinv Hi Hcache. pose proof Hinv as [Hc Hp Hl Hf]. pose proof (Hp _ _ Hi) as [Hk Hfl].
  assert (∀ j z, <[i := Leaving b k (flight_result o)]> (cv_calls s) !! j = Some z → ∀ k', leads z k' →
    ∃ z', cv_calls s !! j = Some z' ∧ leads z' k') as Hback.
  { intros j z [[-> ->]|[_ Hj]]%(lookup_moved _ _ (Leading b k)) k' L; [eauto..|done]. }
  split; simpl; [done| | |].
  - intros j z [[-> ->]|[_ Hj]]%(lookup_moved _ _ (Leading b k)); [|by apply call_ok_mono, Hp|done].
    split; [done|]. split; [done|]. exists b, o. split; [apply elem_of_app; right; by left|].
    split; [done|apply flight_verdict].
  - intros j j' z z' k' Hj Hj' Lz Lz'. destruct (Hback _ _ Hj _ Lz) as (? & ? & ?).
    destruct (Hback _ _ Hj' _ Lz') as (? & ? & ?). by eapply Hl.
  - intros k' ws H. apply Hf in H as [(j & z & Hj & Lz) Hw]. split.
    + destruct (decide (j = i)) as [->|Hne]; [|exists j, z; by rewrite list_lookup_insert_ne].
      rewrite Hi in Hj. injection Hj as <-. simpl in Lz. subst. eexists i, _. split; [by eapply moved_here|done].
    + intros j' Hj'. destruct (Hw j' Hj') as (b' & Hb). exists b'. rewrite list_lookup_insert_ne; [done|].
      intros ->. congruence.
Qed.

(** The calls after a flight landed. *)
Lemma released_lookup ws res calls j z :
  release (B := B) ws res calls !! j = Some z →
  ∃ z0, calls !! j = Some z0 ∧
    ((z = z0 ∧ ∀ b k, z0 = Waiting b k → j ∉ ws) ∨
     ∃ b k, j ∈ ws ∧ z0 = Waiting b k ∧ z = Returned b (flight_answer res)).
Proof.
  unfold release. rewrite list_lookup_imap. intros (z0 & Hz0 & ->)%fmap_Some. exists z0. split; [done|].
  case_bool_decide; [|by left]. destruct z0; eauto 10; left; done.
Qed.

Lemma released_quiet ws res calls j z :
  calls !! j = Some z → (∀ b k, z = Waiting b k → j ∉ ws) → release (B := B) ws res calls !! j = Some z.
Proof.
  unfold release. rewrite list_lookup_imap. intros -> H. simpl. f_equal. case_bool_decide; [|done].
  destruct z; try done. by destruct (H _ _ eq_refl).
Qed.

Lemma landed_lookup s i b k res ws j z :
  inv s → cv_calls s !! i = Some (Leaving b k res) → sf_waiters (cv_flights s) k = Some ws →
  release ws res (<[i := Returned b (flight_answer res)]> (cv_calls s)) !! j = Some z →
  (∃ b0, z = Returned b0 (flight_answer res) ∧ key_of b0 = inr k) ∨
  (j ≠ i ∧ cv_calls s !! j = Some z ∧ ∀ b0, z ≠ Waiting b0 k).
Proof.
  intros [Hc Hp Hl Hf] Hi Hws (z0 & Hz0 & Hz)%released_lookup. pose proof (Hp _ _ Hi) as (Hk & _).
  apply (lookup_moved _ _ (Leaving b k res)) in Hz0 as [[-> ->]|[Hne Hj]]; [| |done].
  - destruct Hz as [[-> _]|(? & ? & _ & ? & _)]; [left; eauto|done].
  - destruct Hz as [[-> Hn]|(b0 & k0 & Hin & -> & ->)].
    + right. split; [done|]. split; [done|]. intros b0 ->. apply (Hn _ _ eq_refl).
      apply Hp in Hj as (_ & ws' & Hw & Hin). rewrite Hws in Hw. by injection Hw as ->.
    + left. exists b0. split; [done|]. destruct (proj2 (Hf _ _ Hws) _ Hin) as (b1 & Hb1).
      rewrite Hj in Hb1. injection Hb1 as -> ->. by apply Hp in Hj as [? _].
Qed.

Lemma landed_other s i b k res ws k' j z :
  inv s → cv_calls s !! i = Some (Leaving b k res) → sf_waiters (cv_flights s) k = Some ws → k' ≠ k →
  cv_calls s !! j = Some z → (leads z k' ∨ ∃ b0, z = Waiting b0 k') →
  release ws res (<[i := Returned b (flight_answer res)]> (cv_calls s)) !! j = Some z.
Proof.
  intros [Hc Hp Hl Hf] Hi Hws Hne Hj Hz. apply released_quiet.
  - rewrite list_lookup_insert_ne; [done|]. intros ->. rewrite Hi in Hj. injection Hj as <-.
    destruct Hz as [Hz|[? Hz]]; [simpl in Hz; congruence|done].
  - intros b0 k0 -> Hin. destruct Hz as [Hz|[b1 [= -> ->]]]; [done|].
    destruct (proj2 (Hf _ _ Hws) _ Hin) as (? & ?). congruence.
Qed.

Lemma call_ok_landed f runs i p k :
  ¬ leads p k → (∀ b, p ≠ Waiting b k) → call_ok f runs i p → call_ok (sf_done k f) runs i p.
Proof.
  destruct p as [| | | |b0 k0|b0 k0 r0|b0 k0|]; simpl; auto; intros Hn Hw; try (rewrite sf_done_other by done; auto).
  assert (k0 ≠ k) by (intros ->; by eapply Hw). by rewrite sf_done_other.
Qed.

Lemma inv_left s i b k res ws :
  inv s → cv_calls s !! i = Some (Leaving b k res) → sf_waiters (cv_flights s) k = Some ws →
  inv (mkCV (cv_cache s) (sf_done k (cv_flights s))
         (release ws res (<[i := Returned b (flight_answer res)]> (cv_calls s))) (cv_runs s)).
Proof.
  intros Hinv Hi Hws. pose proof Hinv as [Hc Hp Hl Hf]. pose proof (Hp _ _ Hi) as (Hk & _ & b' & o & Hrun & Hk' & Hv).
  split; simpl; [done| | |].
  - intros j z [(b0 & -> & Hb0)|(Hne & Hj & Hz)]%(landed_lookup s i b k); try done.
    + exists b', o. split; [done|]. split; [right; by exists k|done].
    + apply call_ok_landed; [|done|by apply Hp]. intros L. apply Hne. by eapply (Hl j i).
  - intros j j' z z' k' Hj Hj' Lz Lz'.
    apply (landed_lookup s i b k) in Hj as [(? & -> & _)|(_ & Hj & _)]; try done.
    apply (landed_lookup s i b k) in Hj' as [(? & -> & _)|(_ & Hj' & _)]; try done. by eapply Hl.
  - intros k' ws' H. destruct (decide (k' = k)) as [->|Hne]; [by rewrite sf_done_same in H|].
    rewrite sf_done_other in H by done. apply Hf in H as [(j & z & Hj & Lz) Hw]. split.
    + exists j, z. split; [|done]. eapply landed_other; eauto.
    + intros j' Hj'. destruct (Hw j' Hj') as (b0 & Hb0). exists b0. eapply landed_other; eauto.
Qed.

Lemma inv_turn i o s s' : inv s → turn key_of i o s = Some s' → inv s'.
Proof.
  intros Hinv H. unfold turn in H. pose proof Hinv as [Hc Hp Hl Hf].
  destruct (cv_calls s !! i) as [p|] eqn:Hi; [|done]. pose proof (Hp _ _ Hi) as Hok.
  destruct p as [b|b|b k|b k|b k|b k res|b k|b a]; try done; simpl in Hok.
  - injection H as <-. apply (inv_quiet_runs s i (AtKey b)); [done|done|done|by destruct (key_of b)| |done].
    destruct (key_of b) eqn:E; simpl; eauto.
  - injection H as <-. apply (inv_quiet s i (AtDirect b)); [done|done|done|done| |intros; by apply entry_ok_mono, Hc].
    exists b, o. split; [apply elem_of_app; right; by left|]. split; [by left|apply same_verdict_refl].
  - destruct (lru_Get k (cv_cache s)) as [hit cache] eqn:E. injection H as <-.
    pose proof (lru_get_value k (cv_cache s)) as Hv. rewrite E in Hv. simpl in Hv.
    apply (inv_quiet_runs s i (AtGet b k)); [done|done|done|by destruct hit| |].
    + destruct hit as [r|]; [|done]. symmetry in Hv. apply Hc in Hv as (b' & o' & Hrun & Hk & _ & Hs).
      exists b', o'. split; [done|]. split; [right; by exists k|done].
    + intros k' r. pose proof (lru_get_keeps k (cv_cache s) k') as Hkeep. rewrite E in Hkeep. simpl in Hkeep.
      rewrite Hkeep. apply Hc.
  - destruct (sf_Do k i (cv_flights s)) as [leader f] eqn:E. injection H as <-.
    destruct (sf_waiters (cv_flights s) k) as [ws|] eqn:Ew.
    + destruct (sf_do_waiter _ i _ _ Ew) as [E1 _]. rewrite E in E1. simpl in E1. subst leader.
      pose proof (inv_wait s i b k ws Hinv Hi Ew) as Hd. by rewrite E in Hd.
    + destruct (sf_do_leader _ i _ Ew) as [E1 _]. rewrite E in E1. simpl in E1. subst leader.
      pose proof (inv_lead s i b k Hinv Hi Ew) as Hd. by rewrite E in Hd.
  - injection H as <-. apply inv_ran; [done|done|]. intros k' r Hr.
    destruct (cacheable o) as [r0|] eqn:Eo; [|by apply entry_ok_mono, Hc].
    apply cacheable_verdict in Eo as [Hdef Hsame]. destruct (decide (k' = k)) as [->|Hne].
    + rewrite lru_add_same in Hr. injection Hr as <-. exists b, o. split; [apply elem_of_app; right; by left|].
      by destruct Hok.
    + destruct (lru_add_other k r0 (cv_cache s) k' Hne) as [Ho|Ho]; rewrite Ho in Hr; [|done].
      by apply entry_ok_mono, Hc.
  - injection H as <-. destruct Hok as (_ & [ws Hws] & _). rewrite Hws. simpl. by apply inv_left.
Qed.

Lemma cache_reachable_inv size s : reachable key_of size s → inv s.
Proof. induction 1; eauto using inv_new, inv_called, inv_turn. Qed.

(** C29: In every interleaving of calls, a call returns the verdict of a run of Envoy on the
    same content: it accepts only if that run accepted, and otherwise has its text and its
    answer to whether the configuration was refused. *)
Theorem answers_faithful size s i b a :
  reachable key_of size s → cv_calls s !! i = Some (Returned b a) →
  ∃ b' o, (b', o) ∈ cv_runs s ∧ same_content b b' ∧ same_verdict o a.
Proof. intros Hinv%cache_reachable_inv Hi. exact (inv_call _ Hinv _ _ Hi). Qed.

(** The cache only holds verdicts of Envoy, for content with their key: a run that failed
    for a reason of its own is never answered from the cache. *)
Theorem cache_holds_verdicts size s k r :
  reachable key_of size s → lru_Peek (cv_cache s) k = Some r →
  ∃ b o, (b, o) ∈ cv_runs s ∧ key_of b = inr k ∧ definite o ∧ same_verdict o (cr_err r).
Proof. intros Hinv%cache_reachable_inv Hr. exact (inv_cache _ Hinv _ _ Hr). Qed.

(** At any time at most one call runs Envoy for a key. *)
Theorem one_run_per_key size s i j p q k :
  reachable key_of size s → cv_calls s !! i = Some p → cv_calls s !! j = Some q →
  leads p k → leads q k → i = j.
Proof. intros Hinv%cache_reachable_inv. exact (inv_leader _ Hinv i j p q k). Qed.

(** ** Every call returns *)

Definition rank (p : pc B) : nat :=
  match p with
  | AtKey _ => 5 | AtGet _ _ => 4 | AtDo _ _ => 3 | Leading _ _ => 2
  | AtDirect _ | Leaving _ _ _ | Waiting _ _ => 1
  | Returned _ _ => 0
  end.

Definition pending (calls : list (pc B)) : nat := sum_list_with rank calls.

Lemma pending_moved calls i p q :
  calls !! i = Some p → (rank q < rank p)%nat → (pending (<[i := q]> calls) < pending calls)%nat.
Proof.
  revert i. unfold pending. induction calls as [|z calls IH]; intros [|i] Hi Hr; simplify_eq/=; [lia|].
  pose proof (IH i Hi Hr). lia.
Qed.

Lemma pending_released ws res calls : (pending (release ws res calls) ≤ pending calls)%nat.
Proof.
  unfold release, pending. generalize 0%nat as n.
  assert (∀ f : nat → pc B → pc B, (∀ j p, (rank (f j p) ≤ rank p)%nat) →
    (sum_list_with rank (imap f calls) ≤ sum_list_with rank calls)%nat) as H.
  { induction calls as [|z calls IH]; intros f Hf; simpl; [done|]. specialize (IH (f ∘ S)).
    pose proof (Hf 0%nat z). specialize (IH (λ j p, Hf (S j) p)). lia. }
  intros _. apply H. intros j p. case_bool_decide; [|done]. destruct p; simpl; lia.
Qed.

Lemma turn_progress i o s s' : turn key_of i o s = Some s' → (pending (cv_calls s') < pending (cv_calls s))%nat.
Proof.
  unfold turn. destruct (cv_calls s !! i) as [p|] eqn:Hi; [|done]. intros H.
  destruct p as [b|b|b k|b k|b k|b k res|b k|b a]; try done.
  - injection H as <-. eapply pending_moved; [done|]. destruct (key_of b); simpl; lia.
  - injection H as <-. eapply pending_moved; [done|]. simpl; lia.
  - destruct (lru_Get k (cv_cache s)) as [hit cache]. injection H as <-. eapply pending_moved; [done|].
    destruct hit; simpl; lia.
  - destruct (sf_Do k i (cv_flights s)) as [[] f]; injection H as <-; (eapply pending_moved; [done|]); simpl; lia.
  - injection H as <-. eapply pending_moved; [done|]. simpl; lia.
  - injection H as <-. simpl. eapply Nat.le_lt_trans; [apply pending_released|].
    eapply pending_moved; [done|]. simpl; lia.
Qed.

Lemma stuck_returned s :
  inv s → (∀ i o, turn key_of i o s = None) → ∀ i p, cv_calls s !! i = Some p → ∃ b a, p = Returned b a.
Proof.
  intros Hinv Hstuck i p Hi.
  assert (∀ j q, cv_calls s !! j = Some q → (∃ b k, q = Waiting b k) ∨ ∃ b a, q = Returned b a) as Hrest.
  { intros j q Hj. pose proof (Hstuck j None) as H. unfold turn in H. rewrite Hj in H.
    destruct q as [b|b|b k|b k|b k|b k res|b k|b a]; try done; eauto.
    - by destruct (lru_Get k (cv_cache s)).
    - by destruct (sf_Do k j (cv_flights s)). }
  destruct (Hrest _ _ Hi) as [(b & k & ->)|?]; [|done]. exfalso.
  destruct (inv_call _ Hinv _ _ Hi) as (_ & ws & Hws & _).
  destruct (inv_flight _ Hinv _ _ Hws) as [(j & q & Hj & L) _].
  by destruct (Hrest _ _ Hj) as [(? & ? & ->)|(? & ? & ->)].
Qed.

Lemma turns_reachable size n s s' : turns key_of n s s' → reachable key_of size s → reachable key_of size s'.
Proof. induction 1; eauto using reachable. Qed.

(** When runs of Envoy return, every call returns: the steps of the calls of a reachable
    state are bounded, and when none is left all of them have an answer; nobody waits for
    ever for a flight. *)
Theorem every_call_returns size s n s' :
  reachable key_of size s → turns key_of n s s' →
  (n ≤ pending (cv_calls s))%nat ∧
  ((∀ i o, turn key_of i o s' = None) → ∀ i p, cv_calls s' !! i = Some p → ∃ b a, p = Returned b a).
Proof.
  intros Hr Ht. split.
  - clear Hr. induction Ht as [|n i o s s' s'' H _ IH]; [lia|]. apply turn_progress in H. lia.
  - apply stuck_returned. eapply cache_reachable_inv, turns_reachable; eauto.
Qed.
End invariant.

(** ** The memo *)

Section memo_laws.
Context {K : Type} `{EqDecision K} `{LL : LruLib K cachedResult} `{LW : !LruLaws K cachedResult}.
Context (verdict : K → option error → Prop).

(** Every entry is a verdict that was given for its key. *)
Definition memo_ok (m : Memo K) : Prop :=
  ∀ cache k r, m = Some cache → lru_Peek cache k = Some r →
    ∃ o, verdict k o ∧ definite o ∧ same_verdict o (cr_err r).

Lemma memo_new_ok size : memo_ok (NewMemo size).
Proof. intros cache k r [= <-]. by rewrite lru_new_empty. Qed.

(** A memoized answer is a verdict of its key, and the memo stays sound. *)
Lemma memo_validate_spec m key validate :
  memo_ok m → verdict key (validate tt) →
  memo_ok (Memo_Validate m key validate).2 ∧
  ∃ o, verdict key o ∧ same_verdict o (Memo_Validate m key validate).1.
Proof.
  intros Hm Hv. unfold Memo_Validate. destruct m as [cache|]; [|split; [done|eauto using same_verdict_refl]].
  destruct (lru_Get key cache) as [hit cache'] eqn:E.
  pose proof (lru_get_value key cache) as Hg. rewrite E in Hg. simpl in Hg.
  assert (∀ k', lru_Peek cache' k' = lru_Peek cache k') as Hk.
  { intros k'. pose proof (lru_get_keeps key cache k') as H. by rewrite E in H. }
  destruct hit as [r|]; simpl.
  - split; [intros c k r' [= <-]; rewrite Hk; by eapply Hm|].
    destruct (Hm cache key r) as (o & ? & _ & ?); eauto.
  - split; [|eauto using same_verdict_refl]. intros c k r [= <-]. destruct (cacheable (validate tt)) as [r0|] eqn:Eo.
    + destruct (decide (k = key)) as [->|Hne].
      * rewrite lru_add_same. intros [= <-]. apply cacheable_verdict in Eo as []. eauto.
      * destruct (lru_add_other key r0 cache' k Hne) as [->| ->]; [|done]. rewrite Hk. by eapply Hm.
    + rewrite Hk. by eapply Hm.
Qed.
End memo_laws.

(** ** Libraries that satisfy the laws

    A list of entries, most recently used first, and a map of the waiting calls. *)

Section lru_list.
Context {K V : Type} `{EqDecision K}.

Fixpoint find_entry (k : K) (l : list (K * V)) : option V :=
  match l with
  | [] => None
  | (k', v) :: l => if decide (k' = k) then Some v else find_entry k l
  end.

Definition without_entry (k : K) (l : list (K * V)) : list (K * V) := filter (λ e, e.1 ≠ k) l.

#[global] Instance lru_list : LruLib K V := {|
  Lru := positive * list (K * V);
  lru_New n := (n, []);
  lru_Get k c := match find_entry k c.2 with
                 | Some v => (Some v, (c.1, (k, v) :: without_entry k c.2))
                 | None => (None, c)
                 end;
  lru_Add k v c := (c.1, take (Pos.to_nat c.1) ((k, v) :: without_entry k c.2));
  lru_Peek c k := find_entry k c.2
|}.

Lemma find_without k k' l : k' ≠ k → find_entry k' (without_entry k l) = find_entry k' l.
Proof.
  intros Hne. induction l as [|[k0 v0] l IH]; [done|]. unfold without_entry in *. simpl.
  destruct (decide (k0 = k)) as [->|Hk].
  - rewrite filter_cons_False by (simpl; tauto). by rewrite decide_False by congruence.
  - rewrite filter_cons_True by done. simpl. by rewrite IH.
Qed.

Lemma find_take k n l : find_entry k (take n l) = find_entry k l ∨ find_entry k (take n l) = None.
Proof.
  revert n. induction l as [|[k0 v0] l IH]; intros [|n]; simpl; auto. destruct (decide (k0 = k)); auto.
Qed.

#[global] Instance lru_list_laws : LruLaws K V.
Proof.
  split; simpl; [done| | | |].
  - intros k c. by destruct (find_entry k c.2).
  - intros k c k'. destruct (find_entry k c.2) as [v|] eqn:E; [|done]. simpl.
    destruct (decide (k = k')) as [->|]; [done|by apply find_without].
  - intros k v c. destruct (Pos2Nat.is_succ c.1) as [n ->]. simpl. by rewrite decide_True.
  - intros k v c k' Hne. destruct (find_take k' (Pos.to_nat c.1) ((k, v) :: without_entry k c.2)) as [->|H]; [|by right].
    left. simpl. rewrite decide_False by done. by apply find_without.
Qed.
End lru_list.

#[global] Instance flight_map : Singleflight string := {|
  Flights := gmap string (list nat);
  sf_empty := ∅;
  sf_waiters f k := f !! k;
  sf_Do k i f := match f !! k with
                 | Some ws => (false, <[k := ws ++ [i]]> f)
                 | None => (true, <[k := []]> f)
                 end;
  sf_done k f := delete k f
|}.

#[global] Instance flight_map_laws : SingleflightLaws string.
Proof.
  split; simpl.
  - done.
  - intros k i f ->. simpl. by rewrite lookup_insert_eq.
  - intros k i f ws ->. simpl. by rewrite lookup_insert_eq.
  - intros k i f k' Hne. destruct (f !! k); simpl; by rewrite lookup_insert_ne by done.
  - intros k f. apply lookup_delete_eq.
  - intros k f k' Hne. by rewrite lookup_delete_ne by done.
Qed.

(** ** A run: two calls for the same content share one run, a third is answered from the cache *)

Definition ex_bootstrap_key (b : nat) : error + string :=
  match b with 0%nat => inl (EMsg "cannot marshal") | _ => inr (pretty b) end.

Definition ex_refused : option error := Some (invalid_xds "bad cluster").

Fixpoint ex_steps (l : list (nat * option error)) (s : cachingValidator nat) : option (cachingValidator nat) :=
  match l with
  | [] => Some s
  | (i, o) :: l => s ← turn ex_bootstrap_key i o s; ex_steps l s
  end.

Lemma ex_steps_reachable size l s d :
  reachable ex_bootstrap_key size s → bool_decide (is_Some (ex_steps l s)) = true →
  reachable ex_bootstrap_key size (default d (ex_steps l s)).
Proof.
  intros Hr [s' H]%bool_decide_eq_true. rewrite H. simpl. revert s Hr H.
  induction l as [|[i o] l IH]; intros s Hr H; simpl in H; [by injection H as <-|].
  destruct (turn ex_bootstrap_key i o s) as [s1|] eqn:E; [|done]. simpl in H. eapply IH; [|done].
  by eapply reach_turn.
Qed.

Lemma ex_steps_turns l s s' : ex_steps l s = Some s' → turns ex_bootstrap_key (length l) s s'.
Proof.
  revert s. induction l as [|[i o] l IH]; intros s H; simpl in H; [injection H as <-; constructor|].
  destruct (turn ex_bootstrap_key i o s) as [s1|] eqn:E; [|done]. econstructor; [done|by apply IH].
Qed.

(** Both calls miss; the second waits while the first runs Envoy. *)
Definition ex_two_calls : cachingValidator nat := call 7%nat (call 7%nat (NewCaching 4)).
Definition ex_flying : cachingValidator nat :=
  default (NewCaching 4) (ex_steps [(0, None); (1, None); (0, None); (1, None); (0, None); (1, None)]%nat ex_two_calls).
Definition ex_landed : cachingValidator nat :=
  default (NewCaching 4) (ex_steps [(0, ex_refused); (0, None)]%nat ex_flying).
Definition ex_cached : cachingValidator nat :=
  default (NewCaching 4) (ex_steps [(2, None); (2, None)]%nat (call 7%nat ex_landed)).

Lemma ex_flying_reachable : reachable ex_bootstrap_key 4 ex_flying.
Proof. apply ex_steps_reachable; [apply reach_call, reach_call, reach_new|by vm_compute]. Qed.

Lemma ex_cached_reachable : reachable ex_bootstrap_key 4 ex_cached.
Proof.
  apply ex_steps_reachable; [apply reach_call, ex_steps_reachable; [apply ex_flying_reachable|]|]; by vm_compute.
Qed.

Lemma answers_faithful_witness :
  cv_calls ex_cached !! 2%nat = Some (Returned 7%nat (Some (ECachedInvalid "invalid xds configuration: bad cluster"))) ∧
  length (cv_runs ex_cached) = 1%nat ∧
  ∃ b' o, (b', o) ∈ cv_runs ex_cached ∧ same_content ex_bootstrap_key 7%nat b' ∧
    same_verdict o (Some (ECachedInvalid "invalid xds configuration: bad cluster")).
Proof.
  split; [by vm_compute|]. split; [by vm_compute|].
  apply (answers_faithful ex_bootstrap_key 4 ex_cached 2%nat); [apply ex_cached_reachable|by vm_compute].
Defined.

Lemma cache_holds_verdicts_witness :
  ∃ b o, (b, o) ∈ cv_runs ex_cached ∧ ex_bootstrap_key b = inr "7" ∧ definite o ∧
    same_verdict o (cr_err (mkCR false "invalid xds configuration: bad cluster")).
Proof.
  apply (cache_holds_verdicts ex_bootstrap_key 4 ex_cached); [apply ex_cached_reachable|by vm_compute].
Defined.

Lemma one_run_per_key_witness :
  cv_calls ex_flying = [Leading 7%nat "7"; Waiting 7%nat "7"] ∧
  ∀ i p, cv_calls ex_flying !! i = Some p → leads p "7" → i = 0%nat.
Proof.
  split; [by vm_compute|]. intros i p Hi Hl.
  apply (one_run_per_key ex_bootstrap_key 4 ex_flying i 0%nat p (Leading 7%nat "7") "7");
    [apply ex_flying_reachable|exact Hi|by vm_compute|exact Hl|reflexivity].
Defined.

Lemma every_call_returns_witness :
  (2 ≤ pending (cv_calls ex_flying))%nat ∧
  ((∀ i o, turn ex_bootstrap_key i o ex_landed = None) →
   ∀ i p, cv_calls ex_landed !! i = Some p → ∃ b a, p = Returned b a).
Proof.
  apply (every_call_returns ex_bootstrap_key 4 ex_flying 2%nat ex_landed); [apply ex_flying_reachable|].
  change 2%nat with (length [(0, ex_refused); (0, None)]%nat). apply ex_steps_turns. by vm_compute.
Defined.
