(* ===== verification/EndpointEditor.v ===== *)
(** * Endpoint sets and their per-client edits (pkg/pluginsdk/ir/model.go,
      pkg/kgateway/endpoints/editor.go, translator/irtranslator/endpoint_plugins.go)

    The endpoints of a backend carry an equality hash that is maintained incrementally:
    KRT compares rows by it.  Plugins edit a working copy of the row per client, through an
    interface that only lets them set a few fields and install a set they built; legacy
    plugins receive a deep copy they may change at will.

    A plugin of the new kind is a program over the operations of the interface ([Edit]); views
    and builders are handles into the state of the resolver, so a program can only use what it
    was given, and use of a consumed or missing builder panics ([None]).  The deterministic
    encoding of a proto is a parameter.  Deep copies are values. *)

From S2P Require Import Prelude IR Hashing Endpoints.

(** ** Endpoint sets (model.go) *)

(** An endpoint with its cached contribution, zero when there is none. *)
Record HashedEndpoint := mkHE { he_ep : EndpointWithMd; he_hash : Z }.

(** [EndpointWithMd.Clone]. *)
Definition he_clone (e : HashedEndpoint) : HashedEndpoint := mkHE (he_ep e) 0.

Abbreviation LocalityLbMap := (gmap PodLocality (list HashedEndpoint)).

Definition traffic_byte (td : TrafficDistribution) : Z :=
  match td with TDAny => 0 | TDPreferSameZone => 1 | TDPreferSameNode => 2 | TDPreferNetwork => 3 end.

(** [hash]: of two numbers. *)
Definition hash2 (a b : Z) : Z := HashUint64 fnv64a (HashUint64 fnv64a (h_new fnv64a) a) b.

Section rows.
Context {P : Type} (encode_endpoint : LbEndpoint → string).

(** [EndpointsForBackend]; [row_folded] is the folded version hash, if there is one. *)
Record EndpointRow := mkRow {
  row_labels : gmap string string; row_policies : AttachedPolicies P; row_lb_eps : LocalityLbMap;
  row_cluster : string; row_resource : string; row_port : Z; row_hostname : string;
  row_traffic : TrafficDistribution; row_equality_hash : Z; row_upstream_hash : Z; row_eps_hash : Z;
  row_count : Z; row_folded : option Z }.

Definition hashEndpoints (l : PodLocality) (e : EndpointWithMd) : Z :=
  let hasher := write_string fnv64a (h_new fnv64a) (loc_region l) in
  let hasher := write_string fnv64a hasher (loc_zone l) in
  let hasher := write_string fnv64a hasher (loc_subzone l) in
  let hasher := HashUint64 fnv64a hasher (HashLabels (ep_labels e)) in
  write_string fnv64a hasher (encode_endpoint (ep_lb e)).

(** What [refreshLbEpsEqualityHash] computes. *)
Definition equality_hash (upstreamHash epsHash count : Z) (folded : option Z) : Z :=
  let endpointHash := if (0 <? count)%Z then hash2 epsHash upstreamHash else upstreamHash in
  match folded with Some v => hash2 endpointHash v | None => endpointHash end.

Definition refreshLbEpsEqualityHash (e : EndpointRow) : EndpointRow :=
  mkRow (row_labels e) (row_policies e) (row_lb_eps e) (row_cluster e) (row_resource e) (row_port e) (row_hostname e)
    (row_traffic e) (equality_hash (row_upstream_hash e) (row_eps_hash e) (row_count e) (row_folded e))
    (row_upstream_hash e) (row_eps_hash e) (row_count e) (row_folded e).

(** Replace the endpoints with their hash and number. *)
Definition with_endpoints (eps : LocalityLbMap) (epsHash count : Z) (e : EndpointRow) : EndpointRow :=
  refreshLbEpsEqualityHash
    (mkRow (row_labels e) (row_policies e) eps (row_cluster e) (row_resource e) (row_port e) (row_hostname e)
       (row_traffic e) (row_equality_hash e) (row_upstream_hash e) epsHash count (row_folded e)).

Definition upstream_hash (us : BackendObjectIR P) (labels : gmap string string) : Z :=
  let o := bo_source us in
  let hasher := HashStringField fnv64a (h_new fnv64a) (bo_resource_name us) in
  let hasher := HashStringField fnv64a hasher (bo_cluster_name us) in
  let hasher := HashStringField fnv64a hasher (os_group o) in
  let hasher := HashStringField fnv64a hasher (os_kind o) in
  let hasher := HashStringField fnv64a hasher (os_name o) in
  let hasher := HashStringField fnv64a hasher (os_namespace o) in
  let hasher := Write fnv64a (HashUint64 fnv64a hasher (HashLabels labels)) [0%Z] in
  Write fnv64a hasher [traffic_byte (bo_traffic_distribution us)].

Definition NewEndpointsForBackend (us : BackendObjectIR P) : EndpointRow :=
  let labels := match bo_obj us with Some o => obj_labels o | None => ∅ end in
  let upstreamHash := upstream_hash us labels in
  mkRow labels (bo_policies us) ∅ (bo_cluster_name us) (bo_resource_name us) (uint32 (bo_port us))
    (bo_canonical_hostname us) (bo_traffic_distribution us) upstreamHash upstreamHash 0 0 None.

Definition EmptyCopy (e : EndpointRow) : EndpointRow := with_endpoints ∅ 0 0 e.

Definition FoldVersion (extra : Z) (e : EndpointRow) : EndpointRow :=
  refreshLbEpsEqualityHash
    (mkRow (row_labels e) (row_policies e) (row_lb_eps e) (row_cluster e) (row_resource e) (row_port e) (row_hostname e)
       (row_traffic e) (row_equality_hash e) (row_upstream_hash e) (row_eps_hash e) (row_count e)
       (Some match row_folded e with Some v => hash2 v extra | None => extra end)).

Definition addWithEndpointHash (l : PodLocality) (emd : EndpointWithMd) (endpointHash : Z) (e : EndpointRow) : EndpointRow :=
  with_endpoints (<[l := default [] (row_lb_eps e !! l) ++ [mkHE emd endpointHash]]> (row_lb_eps e))
    (Z.lxor (row_eps_hash e) endpointHash) (row_count e + 1) e.

Definition Add (l : PodLocality) (emd : HashedEndpoint) (e : EndpointRow) : EndpointRow :=
  addWithEndpointHash l (he_ep emd) (hashEndpoints l (he_ep emd)) e.

Definition ReuseEndpoint (l : PodLocality) (emd : HashedEndpoint) (e : EndpointRow) : EndpointRow :=
  addWithEndpointHash l (he_ep emd) (if (he_hash emd =? 0)%Z then hashEndpoints l (he_ep emd) else he_hash emd) e.

Definition ReuseEndpointsFrom (base e : EndpointRow) : EndpointRow :=
  with_endpoints (row_lb_eps base) (row_eps_hash base) (row_count base) e.

Definition AdoptEndpointsFrom (src e : EndpointRow) : EndpointRow :=
  with_endpoints (row_lb_eps src) (row_eps_hash src) (row_count src) e.

Definition row_Equals (c i : EndpointRow) : bool :=
  String.eqb (row_resource c) (row_resource i) && String.eqb (row_cluster c) (row_cluster i) &&
  (row_port c =? row_port i)%Z && (row_equality_hash c =? row_equality_hash i)%Z &&
  String.eqb (row_hostname c) (row_hostname i) && bool_decide (row_traffic c = row_traffic i) &&
  (row_upstream_hash c =? row_upstream_hash i)%Z && (row_eps_hash c =? row_eps_hash i)%Z &&
  (row_count c =? row_count i)%Z && bool_decide (row_folded c = row_folded i).

(** ** The resolver and its editor (editor.go) *)

Record RowInputs := mkRI { ri_row : EndpointRow; ri_priority : option PriorityInfo }.

Record PolicyView := mkPV { pv_ir : P; pv_has_errors : bool; pv_ref : string; pv_generation : Z }.

Definition policy_view (a : PolicyAtt P) : PolicyView :=
  mkPV (pa_ir a) (bool_decide (pa_errors a ≠ [])) (PolicyRefString (pa_ref a)) (pa_generation a).

Record EndpointView := mkEV { ev_locality : PodLocality; ev_endpoint : HashedEndpoint; ev_reusable : bool }.

(** The state behind a builder; consumed by installation. *)
Record endpointSetBuilder := mkESB { esb_endpoints : EndpointRow; esb_consumed : bool }.

Record EndpointInputsResolver := mkEIR {
  eir_inputs : RowInputs; eir_isolated : bool; eir_reusable : bool;
  eir_views : list EndpointView; eir_builders : list endpointSetBuilder }.

Definition NewEndpointInputsResolver (inputs : RowInputs) : EndpointInputsResolver := mkEIR inputs false true [] [].

(** The programs of plugins.  [ForEachEndpoint] hands out the views in the order of the map;
    a callback that stops early ignores the rest.  Builders are given by their number. *)
Inductive Edit :=
| Return (contribution : Z)
| BackendLabels (k : gmap string string → Edit)
| Hostname (k : string → Edit)
| Port (k : Z → Edit)
| PoliciesFor (gk : GroupKind) (k : list PolicyView → Edit)
| SetPriorityInfo (pi : option PriorityInfo) (k : Edit)
| SetTrafficDistribution (td : TrafficDistribution) (k : Edit)
| ForEachEndpoint (k : list (nat * PodLocality * EndpointWithMd) → Edit)
| NewEndpointSet (k : nat → Edit)
| AddUnchanged (b : nat) (l : PodLocality) (view : nat) (k : Edit)
| AddModified (b : nat) (l : PodLocality) (view : nat) (modify : option (EndpointWithMd → EndpointWithMd)) (k : Edit)
| AddEndpoint (b : nat) (l : PodLocality) (e : EndpointWithMd) (k : Edit)
| ReplaceEndpoints (b : nat) (k : Edit).

Context (iter_eps : LocalityLbMap → list (PodLocality * HashedEndpoint)).

Definition with_row (f : EndpointRow → EndpointRow) (s : EndpointInputsResolver) : EndpointInputsResolver :=
  mkEIR (mkRI (f (ri_row (eir_inputs s))) (ri_priority (eir_inputs s))) (eir_isolated s) (eir_reusable s)
    (eir_views s) (eir_builders s).

Definition set_traffic (td : TrafficDistribution) (e : EndpointRow) : EndpointRow :=
  mkRow (row_labels e) (row_policies e) (row_lb_eps e) (row_cluster e) (row_resource e) (row_port e) (row_hostname e)
    td (row_equality_hash e) (row_upstream_hash e) (row_eps_hash e) (row_count e) (row_folded e).

(** [mutableState]. *)
Definition mutableState (b : nat) (s : EndpointInputsResolver) : option EndpointRow :=
  match eir_builders s !! b with
  | Some (mkESB row false) => Some row
  | _ => None
  end.

Definition set_builder (b : nat) (st : endpointSetBuilder) (s : EndpointInputsResolver) : EndpointInputsResolver :=
  mkEIR (eir_inputs s) (eir_isolated s) (eir_reusable s) (eir_views s) (<[b := st]> (eir_builders s)).

(** [AddUnchanged]. *)
Definition add_unchanged (l : PodLocality) (v : EndpointView) (e : EndpointRow) : EndpointRow :=
  if negb (bool_decide (l = ev_locality v)) || negb (ev_reusable v)
  then Add l (ev_endpoint v) e else ReuseEndpoint l (ev_endpoint v) e.

(** [ReplaceEndpoints]. *)
Definition install (b : nat) (installed : EndpointRow) (s : EndpointInputsResolver) : EndpointInputsResolver :=
  mkEIR (mkRI (AdoptEndpointsFrom installed (ri_row (eir_inputs s))) (ri_priority (eir_inputs s))) (eir_isolated s) true
    (eir_views s) (<[b := mkESB (EmptyCopy installed) true]> (eir_builders s)).

(** The views of the current endpoints. *)
Definition issued (s : EndpointInputsResolver) : list EndpointView :=
  map (λ le, mkEV le.1 le.2 (eir_reusable s)) (iter_eps (row_lb_eps (ri_row (eir_inputs s)))).

Definition with_views (vs : list EndpointView) (s : EndpointInputsResolver) : EndpointInputsResolver :=
  mkEIR (eir_inputs s) (eir_isolated s) (eir_reusable s) (eir_views s ++ vs) (eir_builders s).

Fixpoint run_edit (p : Edit) (s : EndpointInputsResolver) : option (Z * EndpointInputsResolver) :=
  let row := ri_row (eir_inputs s) in
  match p with
  | Return c => Some (c, s)
  | BackendLabels k => run_edit (k (row_labels row)) s
  | Hostname k => run_edit (k (row_hostname row)) s
  | Port k => run_edit (k (row_port row)) s
  | PoliciesFor gk k => run_edit (k (map policy_view (ap_get (row_policies row) gk))) s
  | SetPriorityInfo pi k =>
      run_edit k (mkEIR (mkRI row pi) (eir_isolated s) (eir_reusable s) (eir_views s) (eir_builders s))
  | SetTrafficDistribution td k => run_edit k (with_row (set_traffic td) s)
  | ForEachEndpoint k =>
      let vs := issued s in
      run_edit (k (imap (λ i v, ((length (eir_views s) + i)%nat, ev_locality v, he_ep (ev_endpoint v))) vs))
        (with_views vs s)
  | NewEndpointSet k =>
      run_edit (k (length (eir_builders s)))
        (mkEIR (eir_inputs s) (eir_isolated s) (eir_reusable s) (eir_views s)
           (eir_builders s ++ [mkESB (EmptyCopy row) false]))
  | AddUnchanged b l view k =>
      st ← mutableState b s; v ← eir_views s !! view;
      run_edit k (set_builder b (mkESB (add_unchanged l v st) false) s)
  | AddModified b l view modify k =>
      st ← mutableState b s; f ← modify; v ← eir_views s !! view;
      run_edit k (set_builder b (mkESB (Add l (mkHE (f (he_ep (ev_endpoint v))) 0) st) false) s)
  | AddEndpoint b l e k =>
      st ← mutableState b s; run_edit k (set_builder b (mkESB (Add l (mkHE e 0) st) false) s)
  | ReplaceEndpoints b k => st ← mutableState b s; run_edit k (install b st s)
  end.

(** [LegacyMutableInputs] and the plugin that changes what it returns. *)
Definition run_legacy (legacy : RowInputs → Z * RowInputs) (s : EndpointInputsResolver) : Z * EndpointInputsResolver :=
  let clone := λ i : RowInputs,
    mkRI (let e := ri_row i in
          mkRow (row_labels e) (row_policies e) (fmap (map he_clone) (row_lb_eps e)) (row_cluster e) (row_resource e)
            (row_port e) (row_hostname e) (row_traffic e) (row_equality_hash e) (row_upstream_hash e) (row_eps_hash e)
            (row_count e) (row_folded e)) (ri_priority i) in
  let inputs := if eir_isolated s then eir_inputs s else clone (eir_inputs s) in
  let '(contribution, inputs) := legacy inputs in
  (contribution, mkEIR inputs true false (eir_views s) (eir_builders s)).

(** ** Endpoint plugins (endpoint_plugins.go) *)

(** The endpoint hooks of a policy plugin. *)
Record EndpointHooks := mkEH {
  eh_name : string;
  eh_edit : option (UniquelyConnectedClient → Edit);
  eh_legacy : option (UniquelyConnectedClient → RowInputs → Z * RowInputs);
  eh_may_apply : option (BackendObjectIR P → bool) }.

Inductive endpointPluginFunc :=
| ProcessEdit (edit : UniquelyConnectedClient → Edit)
| ProcessLegacy (legacy : UniquelyConnectedClient → RowInputs → Z * RowInputs).

Record EndpointPlugin := mkEPl {
  ep_group_kind : GroupKind; ep_name : string; ep_process : endpointPluginFunc;
  ep_may_apply : option (BackendObjectIR P → bool) }.

Definition MayApply (p : EndpointPlugin) (b : BackendObjectIR P) : bool :=
  match ep_may_apply p with None => true | Some f => f b end.

Definition endpoint_plugin (e : GroupKind * EndpointHooks) : option EndpointPlugin :=
  match eh_edit e.2, eh_legacy e.2 with
  | Some edit, _ => Some (mkEPl e.1 (eh_name e.2) (ProcessEdit edit) (eh_may_apply e.2))
  | None, Some legacy => Some (mkEPl e.1 (eh_name e.2) (ProcessLegacy legacy) (eh_may_apply e.2))
  | None, None => None
  end.

Definition endpoint_plugin_cmp : EndpointPlugin → EndpointPlugin → comparison :=
  (cmp_on (λ p, gk_group (ep_group_kind p)) String.compare ▷ cmp_on (λ p, gk_kind (ep_group_kind p)) String.compare ▷
   cmp_on ep_name String.compare)%cmp.

(** [policies]: the entries of the map of plugins, in its iteration order. *)
Definition OrderedEndpointPlugins (policies : list (GroupKind * EndpointHooks)) : list EndpointPlugin :=
  sort_stable endpoint_plugin_cmp (omap endpoint_plugin policies).

Definition process (p : EndpointPlugin) (ucc : UniquelyConnectedClient) (s : EndpointInputsResolver) :
    option (Z * EndpointInputsResolver) :=
  match ep_process p with
  | ProcessEdit edit => run_edit (edit ucc) s
  | ProcessLegacy legacy => Some (run_legacy (legacy ucc) s)
  end.

(** One round of the loop: the resolver, the hasher and whether something was contributed. *)
Definition resolve_step (ucc : UniquelyConnectedClient) (acc : EndpointInputsResolver * Z * bool) (p : EndpointPlugin) :
    option (EndpointInputsResolver * Z * bool) :=
  let '(s, hasher, has) := acc in
  r ← process p ucc s;
  let '(contribution, s) := r in
  Some (if (contribution =? 0)%Z then (s, hasher, has)
        else
          let hasher := HashStringField fnv64a hasher (gk_group (ep_group_kind p)) in
          let hasher := HashStringField fnv64a hasher (gk_kind (ep_group_kind p)) in
          let hasher := HashStringField fnv64a hasher (ep_name p) in
          (s, HashUint64 fnv64a hasher contribution, true)).

Definition ResolveEndpointInputs (ucc : UniquelyConnectedClient) (inputs : RowInputs) (plugins : list EndpointPlugin) :
    option (RowInputs * Z) :=
  r ← foldM (resolve_step ucc) (NewEndpointInputsResolver inputs, h_new fnv64a, false) plugins;
  let '(s, hasher, has) := r in
  Some (eir_inputs s, if (has : bool) then hasher else 0%Z).

(** The inputs as prioritisation reads them. *)
Definition priority_inputs (i : RowInputs) : EndpointsInputs :=
  mkEI (mkEFB (map he_ep <$> row_lb_eps (ri_row i)) (row_cluster (ri_row i)) (row_traffic (ri_row i))) (ri_priority i).
End rows.
Arguments EndpointRow : clear implicits.
Arguments RowInputs : clear implicits.
Arguments EndpointInputsResolver : clear implicits.
Arguments Edit : clear implicits.
Arguments EndpointHooks : clear implicits.
Arguments EndpointPlugin : clear implicits.

(** ** Lemmas: the content of an endpoint set *)

Definition entries (m : LocalityLbMap) : list (PodLocality * HashedEndpoint) :=
  flat_map (λ le, map (λ e, (le.1, e)) le.2) (map_to_list m).

Lemma elem_of_entries l e m : (l, e) ∈ entries m ↔ ∃ es, m !! l = Some es ∧ e ∈ es.
Proof.
  unfold entries. rewrite list_elem_of_In, in_flat_map. split.
  - intros ([l' es] & Hl & He). apply list_elem_of_In, elem_of_map_to_list in Hl. apply in_map_iff in He as (e' & [= <- <-] & He).
    exists es. split; [done|by apply list_elem_of_In].
  - intros (es & Hl & He). exists (l, es). split; [by apply list_elem_of_In, elem_of_map_to_list|].
    apply in_map_iff. exists e. split; [done|by apply list_elem_of_In].
Qed.

Lemma entries_insert_fresh l es m : m !! l = None → entries (<[l := es]> m) ≡ₚ map (λ e, (l, e)) es ++ entries m.
Proof. intros H. unfold entries. by rewrite map_to_list_insert by done. Qed.

Lemma entries_add l e m : entries (<[l := default [] (m !! l) ++ [e]]> m) ≡ₚ (l, e) :: entries m.
Proof.
  destruct (m !! l) as [es|] eqn:E; simpl.
  - rewrite <- (insert_delete_id m l es E) at 2. rewrite <- (insert_delete_eq m).
    rewrite !entries_insert_fresh by apply lookup_delete_eq. rewrite map_app. simpl.
    rewrite <- app_assoc. simpl. by rewrite <- Permutation_middle.
  - rewrite entries_insert_fresh by done. done.
Qed.

Lemma entries_empty : entries ∅ = [].
Proof. unfold entries. by rewrite map_to_list_empty. Qed.

Definition xor_all (l : list Z) : Z := foldr Z.lxor 0%Z l.

#[global] Instance xor_all_perm : Proper (Permutation ==> eq) xor_all.
Proof.
  intros l1 l2 H. induction H; simpl; [done|congruence| |congruence].
  by rewrite <- !Z.lxor_assoc, (Z.lxor_comm x y).
Qed.

(** ** Rows whose hashes are those of their content *)

Section sound.
Context {P : Type} (encode_endpoint : LbEndpoint → string).
Abbreviation hashEndpoints := (hashEndpoints encode_endpoint).
Abbreviation Row := (EndpointRow P).

Definition content_hash (m : LocalityLbMap) : Z := xor_all (map (λ le, hashEndpoints le.1 (he_ep le.2)) (entries m)).
Definition content_count (m : LocalityLbMap) : Z := Z.of_nat (length (entries m)).

Definition hash_ok (l : PodLocality) (e : HashedEndpoint) : Prop :=
  he_hash e = 0%Z ∨ he_hash e = hashEndpoints l (he_ep e).

Record row_sound (e : Row) : Prop := mkSound {
  sound_hash : row_eps_hash e = content_hash (row_lb_eps e);
  sound_count : row_count e = content_count (row_lb_eps e);
  sound_cached l h : (l, h) ∈ entries (row_lb_eps e) → hash_ok l h;
  sound_equality : row_equality_hash e =
    equality_hash (row_upstream_hash e) (row_eps_hash e) (row_count e) (row_folded e) }.

Lemma content_hash_add l e m :
  content_hash (<[l := default [] (m !! l) ++ [e]]> m) = Z.lxor (content_hash m) (hashEndpoints l (he_ep e)).
Proof. unfold content_hash. rewrite entries_add. simpl. apply Z.lxor_comm. Qed.

Lemma content_count_add l e m : content_count (<[l := default [] (m !! l) ++ [e]]> m) = (content_count m + 1)%Z.
Proof. unfold content_count. rewrite entries_add. simpl. lia. Qed.

Lemma sound_new (us : BackendObjectIR P) : row_sound (NewEndpointsForBackend us).
Proof.
  split; simpl; unfold content_hash, content_count; try rewrite entries_empty; simpl; try done.
  intros l h. by rewrite elem_of_nil.
Qed.

Lemma sound_empty (e : Row) : row_sound (EmptyCopy e).
Proof.
  split; simpl; unfold content_hash, content_count; try rewrite entries_empty; simpl; try done.
  intros l h. by rewrite elem_of_nil.
Qed.

Lemma sound_fold v (e : Row) : row_sound e → row_sound (FoldVersion v e).
Proof. intros [? ? ? ?]. by split. Qed.

Lemma sound_add_hash l emd h (e : Row) :
  row_sound e → h = hashEndpoints l emd → row_sound (addWithEndpointHash l emd h e).
Proof.
  intros [Hh Hc Hk _] ->. split; simpl.
  - by rewrite content_hash_add, Hh.
  - by rewrite content_count_add, Hc.
  - intros l' h'. rewrite entries_add. intros [[= -> ->]|H]%elem_of_cons; [by right|by apply Hk].
  - done.
Qed.

Lemma sound_add l h (e : Row) : row_sound e → row_sound (Add encode_endpoint l h e).
Proof. intros H. by apply sound_add_hash. Qed.

Lemma sound_reuse l h (e : Row) : row_sound e → hash_ok l h → row_sound (ReuseEndpoint encode_endpoint l h e).
Proof.
  intros He Hh. apply sound_add_hash; [done|]. destruct (Z.eqb_spec (he_hash h) 0); [done|]. by destruct Hh.
Qed.

Lemma sound_adopt (src e : Row) : row_sound src → row_sound (AdoptEndpointsFrom src e).
Proof. intros [Hh Hc Hk _]. split; simpl; done. Qed.

(** The endpoints of a row, in any order and without their cached hashes. *)
Definition bare (m : LocalityLbMap) : list (PodLocality * EndpointWithMd) := map (λ le, (le.1, he_ep le.2)) (entries m).

Lemma content_of_bare m1 m2 :
  bare m1 ≡ₚ bare m2 → content_hash m1 = content_hash m2 ∧ content_count m1 = content_count m2.
Proof.
  intros H. unfold content_hash, content_count, bare in *. split.
  - pose proof (Permutation_map (λ le, hashEndpoints le.1 le.2) H) as Hp. rewrite !map_map in Hp. simpl in Hp. by rewrite Hp.
  - apply Permutation_length in H. rewrite !length_map in H. lia.
Qed.

(** The fields that identify a row. *)
Definition identity (e : Row) : string * string * Z * string * TrafficDistribution * Z * option Z :=
  (row_resource e, row_cluster e, row_port e, row_hostname e, row_traffic e, row_upstream_hash e, row_folded e).

Lemma sound_rows_equal (a b : Row) :
  row_sound a → row_sound b → identity a = identity b → bare (row_lb_eps a) ≡ₚ bare (row_lb_eps b) →
  row_Equals a b = true.
Proof.
  intros [Ha Hca _ Hea] [Hb Hcb _ Heb] Hid [Hh Hc]%content_of_bare. unfold identity in Hid.
  injection Hid as Hr Hcl Hp Hho Ht Hu Hf. unfold row_Equals.
  assert (row_eps_hash a = row_eps_hash b) as Hh' by congruence. assert (row_count a = row_count b) as Hc' by congruence.
  assert (row_equality_hash a = row_equality_hash b) as He by (rewrite Hea, Heb; congruence).
  rewrite Hr, Hcl, Hp, He, Hho, Ht, Hu, Hh', Hc', Hf, !String.eqb_refl, !Z.eqb_refl.
  by rewrite !bool_decide_eq_true_2 by done.
Qed.

(** Adding endpoints one by one. *)
Definition add_all (order : list (PodLocality * HashedEndpoint)) (e : Row) : Row :=
  foldl (λ e le, Add encode_endpoint le.1 le.2 e) e order.

Lemma add_all_spec order (e : Row) :
  row_sound e →
  row_sound (add_all order e) ∧ identity (add_all order e) = identity e ∧
  bare (row_lb_eps (add_all order e)) ≡ₚ map (λ le, (le.1, he_ep le.2)) order ++ bare (row_lb_eps e).
Proof.
  revert e. induction order as [|[l h] order IH]; intros e He; [done|]. simpl.
  destruct (IH (Add encode_endpoint l h e)) as (H1 & H2 & H3); [by apply sound_add|]. split; [done|].
  split; [by rewrite H2|]. rewrite H3. unfold bare at 1. simpl. rewrite entries_add. simpl.
  by rewrite <- Permutation_middle.
Qed.

(** Taking over the endpoints of another row with their hashes is the same, for the
    comparison KRT makes, as adding every endpoint again in any order. *)
Theorem reuse_equals_readd base (e : Row) order :
  row_sound base → order ≡ₚ entries (row_lb_eps base) →
  row_Equals (ReuseEndpointsFrom base e) (add_all order (EmptyCopy e)) = true.
Proof.
  intros Hb Ho. destruct (add_all_spec order (EmptyCopy e)) as (H1 & H2 & H3); [apply sound_empty|].
  apply sound_rows_equal; [by apply sound_adopt|done|by rewrite H2|].
  rewrite H3. simpl. unfold bare at 2. rewrite entries_empty, app_nil_r. unfold bare. by rewrite Ho.
Qed.

(** ** The resolver *)

Context (iter_eps : LocalityLbMap → list (PodLocality * HashedEndpoint)).

(** An iteration visits endpoints of the map. *)
Definition iter_visits : Prop := ∀ m l h, (l, h) ∈ iter_eps m → (l, h) ∈ entries m.

Record resolver_ok (s : EndpointInputsResolver P) : Prop := mkRok {
  rok_row : eir_reusable s = true → row_sound (ri_row (eir_inputs s));
  rok_view v : v ∈ eir_views s → ev_reusable v = true → hash_ok (ev_locality v) (ev_endpoint v);
  rok_builder b st : eir_builders s !! b = Some st → row_sound (esb_endpoints st) }.

Lemma rok_set_builder b st s : resolver_ok s → row_sound (esb_endpoints st) → resolver_ok (set_builder b st s).
Proof.
  intros [Hr Hv Hb] Hst. split; [done|done|]. simpl. intros b' st' H.
  destruct (decide (b' = b)) as [->|Hne].
  - apply lookup_lt_Some in H as Hlt. rewrite length_insert in Hlt.
    rewrite list_lookup_insert_eq in H by done. by injection H as <-.
  - rewrite list_lookup_insert_ne in H by done. by eapply Hb.
Qed.

Lemma mutable_sound b s st : resolver_ok s → mutableState b s = Some st → row_sound st.
Proof.
  intros [_ _ Hb]. unfold mutableState. destruct (eir_builders s !! b) as [[row []]|] eqn:E; try done.
  intros [= <-]. exact (Hb _ _ E).
Qed.

Lemma rok_issue s : iter_visits → resolver_ok s → resolver_ok (with_views (issued iter_eps s) s).
Proof.
  intros Hi [Hr Hv Hb]. split; simpl; [done| |done]. intros v [?|H]%elem_of_app Hu; [by apply Hv|].
  apply list_elem_of_fmap in H as ([l h] & -> & H). simpl in *. apply Hr in Hu as [_ _ Hk _]. by apply Hk, Hi.
Qed.

Lemma rok_install b st s : resolver_ok s → mutableState b s = Some st → resolver_ok (install b st s).
Proof.
  intros Hs Hm. apply mutable_sound in Hm as Hst; [|done].
  pose proof (rok_set_builder b (mkESB (EmptyCopy st) true) s Hs (sound_empty st)) as [_ Hv Hb].
  split; simpl in *; [intros _; by apply sound_adopt|done|done].
Qed.

Lemma sound_add_unchanged l v (e : Row) :
  row_sound e → (ev_reusable v = true → hash_ok (ev_locality v) (ev_endpoint v)) →
  row_sound (add_unchanged encode_endpoint l v e).
Proof.
  intros He Hv. unfold add_unchanged. case_bool_decide as Hl; simpl; [|by apply sound_add].
  destruct (ev_reusable v); simpl; [|by apply sound_add]. apply sound_reuse; [done|]. rewrite Hl. by apply Hv.
Qed.

Lemma rok_edit p s c s' :
  iter_visits → resolver_ok s → run_edit encode_endpoint iter_eps p s = Some (c, s') →
  resolver_ok s' ∧ (eir_reusable s = true → eir_reusable s' = true).
Proof.
  intros Hi. revert s. induction p as [c0|k IH|k IH|k IH|gk k IH|pi k IH|td k IH|k IH|k IH|b l v k IH|b l v f k IH|b l e k IH|b k IH];
    intros s Hs H; simpl in H; eauto.
  - by injection H as <- <-.
  - eapply (IH _) in H; [done|]. destruct Hs. by split.
  - eapply (IH _) in H; [done|]. destruct Hs as [Hr Hv Hb]. split; simpl; [|done|done]. intros Hu.
    by destruct (Hr Hu).
  - eapply (IH _) in H; [done|]. by apply rok_issue.
  - eapply (IH _) in H; [done|]. destruct Hs as [Hr Hv Hb]. split; simpl; [done|done|].
    intros b st [?|(_ & Hst)]%lookup_app_Some; [by eapply Hb|].
    apply list_lookup_singleton_Some in Hst as [_ <-]. apply sound_empty.
  - apply bind_Some in H as (st & Hm & H). apply bind_Some in H as (w & Hw & H).
    eapply (IH) in H; [done|]. apply rok_set_builder; [done|]. apply mutable_sound in Hm; [|done].
    apply sound_add_unchanged; [done|]. destruct Hs as [_ Hv _]. by apply Hv, list_elem_of_lookup_2 with v.
  - apply bind_Some in H as (st & Hm & H). apply bind_Some in H as (g & _ & H). apply bind_Some in H as (w & Hw & H).
    eapply (IH) in H; [done|]. apply rok_set_builder; [done|]. by apply sound_add, mutable_sound with b s.
  - apply bind_Some in H as (st & Hm & H). eapply (IH) in H; [done|]. apply rok_set_builder; [done|].
    by apply sound_add, mutable_sound with b s.
  - apply bind_Some in H as (st & Hm & H). apply IH in H as [? Hu]; [|by apply rok_install]. split; [done|].
    intros _. by apply Hu.
Qed.

(** What plugins of the new kind cannot change. *)
Definition fixed (e : Row) : gmap string string * AttachedPolicies P * string * string * Z * string * Z * option Z :=
  (row_labels e, row_policies e, row_cluster e, row_resource e, row_port e, row_hostname e, row_upstream_hash e, row_folded e).

Lemma edit_fixed p s c s' :
  run_edit encode_endpoint iter_eps p s = Some (c, s') →
  fixed (ri_row (eir_inputs s')) = fixed (ri_row (eir_inputs s)).
Proof.
  revert s. induction p as [c0|k IH|k IH|k IH|gk k IH|pi k IH|td k IH|k IH|k IH|b l v k IH|b l v f k IH|b l e k IH|b k IH];
    intros s H; simpl in H; eauto.
  - by injection H as <- <-.
  - by apply IH in H.
  - by apply IH in H.
  - by apply IH in H.
  - by apply IH in H.
  - apply bind_Some in H as (st & Hm & H). apply bind_Some in H as (w & Hw & H). by apply IH in H.
  - apply bind_Some in H as (st & Hm & H). apply bind_Some in H as (g & _ & H). apply bind_Some in H as (w & Hw & H).
    by apply IH in H.
  - apply bind_Some in H as (st & Hm & H). by apply IH in H.
  - apply bind_Some in H as (st & Hm & H). by apply IH in H.
Qed.

Definition is_editor (p : EndpointPlugin P) : Prop :=
  match ep_process p with ProcessEdit _ => True | ProcessLegacy _ => False end.

Lemma rok_process p ucc s c s' :
  iter_visits → resolver_ok s → process encode_endpoint iter_eps p ucc s = Some (c, s') →
  resolver_ok s' ∧
  (is_editor p → (eir_reusable s = true → eir_reusable s' = true) ∧
                 fixed (ri_row (eir_inputs s')) = fixed (ri_row (eir_inputs s))).
Proof.
  intros Hi Hs H. unfold process, is_editor in *. destruct (ep_process p) as [edit|legacy].
  - apply edit_fixed in H as Hf. apply rok_edit in H as [? ?]; [|done|done]. done.
  - split; [|done]. destruct Hs as [Hr Hv Hb]. unfold run_legacy in H.
    destruct (legacy ucc _) as [c0 i0] eqn:E. simpl in *. injection H as <- <-. by split.
Qed.

Lemma rok_loop ucc plugins s hs has s' hs' has' :
  iter_visits → resolver_ok s →
  foldM (resolve_step encode_endpoint iter_eps ucc) (s, hs, has) plugins = Some (s', hs', has') →
  resolver_ok s' ∧
  (Forall is_editor plugins → (eir_reusable s = true → eir_reusable s' = true) ∧
                              fixed (ri_row (eir_inputs s')) = fixed (ri_row (eir_inputs s))).
Proof.
  intros Hi. revert s hs has. induction plugins as [|p plugins IH]; intros s hs has Hs H; simpl in H.
  { by injection H as <- _ _. }
  destruct (process encode_endpoint iter_eps p ucc s) as [[c s1]|] eqn:Ep; [|done]. simpl in H.
  apply rok_process in Ep as [Hs1 He]; [|done|done].
  assert (∃ hs1 has1, foldM (resolve_step encode_endpoint iter_eps ucc) (s1, hs1, has1) plugins = Some (s', hs', has'))
    as (hs1 & has1 & H1) by (destruct (c =? 0)%Z; eauto).
  apply IH in H1 as [Hs' Hl]; [|done]. split; [done|]. intros [[Hu Hf]%He [Hu' Hf']%Hl]%Forall_cons. split; [eauto|congruence].
Qed.

(** C28: Whatever plugins of the new kind do, the endpoint set of a client has the equality
    hash of its own content, with the backend's identity and folded version unchanged, so a
    changed set is never published under an old version.  After legacy plugins the same holds
    of the content as soon as a later plugin installs a set it built. *)
Theorem resolved_sets_sound ucc inputs plugins s hs has :
  iter_visits → row_sound (ri_row inputs) →
  foldM (resolve_step encode_endpoint iter_eps ucc) (NewEndpointInputsResolver inputs, h_new fnv64a, false) plugins =
    Some (s, hs, has) →
  (eir_reusable s = true → row_sound (ri_row (eir_inputs s))) ∧
  (Forall is_editor plugins →
     row_sound (ri_row (eir_inputs s)) ∧ fixed (ri_row (eir_inputs s)) = fixed (ri_row inputs)).
Proof.
  intros Hi Hs H. apply rok_loop in H as [[Hr _ _] He]; [|done|].
  - split; [done|]. intros [Hu Hf]%He. split; [by apply Hr, Hu|done].
  - split; simpl; [done| |done]. intros v. by rewrite elem_of_nil.
Qed.
End sound.

(** ** The order of plugins *)

Lemma endpoint_plugin_gk {P} e (p : EndpointPlugin P) : endpoint_plugin e = Some p → ep_group_kind p = e.1.
Proof. unfold endpoint_plugin. destruct (eh_edit e.2), (eh_legacy e.2); intros; by simplify_eq. Qed.

#[global] Instance endpoint_plugin_cmp_order {P} : WeakOrder (endpoint_plugin_cmp (P := P)).
Proof. unfold endpoint_plugin_cmp. apply _. Qed.

Lemma endpoint_plugin_cmp_gk {P} (p q : EndpointPlugin P) :
  endpoint_plugin_cmp p q = Eq → ep_group_kind p = ep_group_kind q.
Proof.
  unfold endpoint_plugin_cmp, then_cmp.
  destruct (cmp_on (λ p, gk_group (ep_group_kind p)) String.compare p q) eqn:E1; try done.
  destruct (cmp_on (λ p, gk_kind (ep_group_kind p)) String.compare p q) eqn:E2; try done. intros _.
  apply string_cmp_on_eq in E1, E2. destruct (ep_group_kind p), (ep_group_kind q). simpl in *. by subst.
Qed.

(** The plugins run in an order of their kinds, which does not depend on the iteration
    order of the map they are registered in. *)
Theorem endpoint_plugin_order {P} (l1 l2 : list (GroupKind * EndpointHooks P)) :
  NoDup l1.*1 → l1 ≡ₚ l2 →
  OrderedEndpointPlugins l1 = OrderedEndpointPlugins l2 ∧
  StronglySorted (cmp_le endpoint_plugin_cmp) (OrderedEndpointPlugins l1).
Proof.
  intros Hnd Hp. split; [|apply sort_stable_sorted, _]. apply sort_stable_perm_eq; [apply _| |exact (omap_Permutation endpoint_plugin _ _ Hp)].
  intros x y Hx Hy Hxy%endpoint_plugin_cmp_gk.
  apply list_elem_of_omap in Hx as (ex & Hex & Ex). apply list_elem_of_omap in Hy as (ey & Hey & Ey).
  apply endpoint_plugin_gk in Ex as Gx. apply endpoint_plugin_gk in Ey as Gy.
  assert (ex = ey) as ->; [|congruence]. apply (NoDup_key_inj fst l1); [done..|congruence].
Qed.

(** ** Examples *)

Definition ex_encode (e : LbEndpoint) : string := default "" (le_socket e) +:+ le_rest e.
Definition ex_iter_eps (m : LocalityLbMap) : list (PodLocality * HashedEndpoint) := entries m.
Definition ex_endpoint (addr : string) : EndpointWithMd := mkEp (mkLbEp (Some addr) None None "") ∅.
Definition ex_zone (z : string) : PodLocality := mkLoc "r" z "".
Definition ex_us : BackendObjectIR unit := NewBackendObjectIR (mkOS "" "Service" "ns" "svc") 80 "" "".
Definition ex_row : EndpointRow unit :=
  Add ex_encode (ex_zone "b") (mkHE (ex_endpoint "10.0.0.2") 0)
    (Add ex_encode (ex_zone "a") (mkHE (ex_endpoint "10.0.0.1") 0) (NewEndpointsForBackend ex_us)).

Lemma ex_row_sound : row_sound ex_encode ex_row.
Proof. apply sound_add, sound_add, sound_new. Qed.

Lemma ex_iter_visits : iter_visits ex_iter_eps.
Proof. by intros m l h. Qed.

Lemma reuse_equals_readd_witness :
  let readded := add_all ex_encode [(ex_zone "b", mkHE (ex_endpoint "10.0.0.2") 0);
                                    (ex_zone "a", mkHE (ex_endpoint "10.0.0.1") 0)] (EmptyCopy ex_row) in
  row_Equals (ReuseEndpointsFrom ex_row ex_row) readded = true ∧
  row_Equals (ReuseEndpointsFrom ex_row ex_row) (add_all ex_encode (entries (row_lb_eps ex_row)) (EmptyCopy ex_row)) = true.
Proof. split; [by vm_compute|]. apply reuse_equals_readd; [apply ex_row_sound|done]. Defined.

(** A plugin that keeps the endpoints of zone [a], renames the others, prefers the node, and
    installs the result. *)
Fixpoint ex_keep (views : list (nat * PodLocality * EndpointWithMd)) (rest : Edit unit) : Edit unit :=
  match views with
  | [] => rest
  | (v, l, _) :: views =>
      if String.eqb (loc_zone l) "a" then AddUnchanged 0 l v (ex_keep views rest)
      else AddModified 0 l v (Some (λ e, mkEp (mkLbEp (Some "10.9.9.9") None None "") (ep_labels e))) (ex_keep views rest)
  end.
Definition ex_editor : EndpointPlugin unit :=
  mkEPl (mkGK "g" "Edit") "editor"
    (ProcessEdit (λ _, NewEndpointSet (λ b, ForEachEndpoint (λ views,
       ex_keep views (SetTrafficDistribution TDPreferSameNode (ReplaceEndpoints b (Return 7))))))) None.
Definition ex_legacy : EndpointPlugin unit :=
  mkEPl (mkGK "g" "Legacy") "legacy"
    (ProcessLegacy (λ _ i, (9%Z, mkRI (set_traffic TDAny (with_endpoints {[ex_zone "a" := [mkHE (ex_endpoint "10.0.0.7") 5]]} 3 1 (ri_row i))) None)))
    None.
Definition ex_ucc : UniquelyConnectedClient := mkUCC "role" ∅ (ex_zone "a") "ns" false "role".

Definition ex_resolve (plugins : list (EndpointPlugin unit)) : option (EndpointInputsResolver unit * Z * bool) :=
  foldM (resolve_step ex_encode ex_iter_eps ex_ucc) (NewEndpointInputsResolver (mkRI ex_row None), h_new fnv64a, false) plugins.

Lemma resolved_sets_sound_witness :
  ∃ s hs has, ex_resolve [ex_legacy; ex_editor] = Some (s, hs, has) ∧ eir_reusable s = true ∧
    row_traffic (ri_row (eir_inputs s)) = TDPreferSameNode ∧ row_sound ex_encode (ri_row (eir_inputs s)).
Proof.
  destruct (ex_resolve [ex_legacy; ex_editor]) as [[[s hs] has]|] eqn:E; [|by vm_compute in E].
  exists s, hs, has. split; [done|].
  assert (eir_reusable s = true ∧ row_traffic (ri_row (eir_inputs s)) = TDPreferSameNode) as [Hu Ht]
    by (vm_compute in E; injection E as <- _ _; split; reflexivity).
  split; [exact Hu|]. split; [exact Ht|].
  exact (proj1 (resolved_sets_sound ex_encode ex_iter_eps ex_ucc (mkRI ex_row None) [ex_legacy; ex_editor] s hs has
    ex_iter_visits ex_row_sound E) Hu).
Defined.

Lemma endpoint_plugin_order_witness :
  let hooks := λ n, mkEH n (Some (λ _, Return (P := unit) 0)) None None in
  map ep_name (OrderedEndpointPlugins [(mkGK "g" "B", hooks "b"); (mkGK "g" "A", hooks "a")]) = ["a"; "b"] ∧
  OrderedEndpointPlugins [(mkGK "g" "B", hooks "b"); (mkGK "g" "A", hooks "a")] =
  OrderedEndpointPlugins [(mkGK "g" "A", hooks "a"); (mkGK "g" "B", hooks "b")].
Proof.
  split; [reflexivity|]. apply endpoint_plugin_order; [|apply Permutation_swap].
  simpl. apply NoDup_cons; split; [|apply NoDup_singleton]. by intros [= ]%list_elem_of_singleton.
Defined.

(** A builder cannot be used again once it was installed. *)
Example consumed_builder_panics :
  ex_resolve [mkEPl (mkGK "g" "Twice") "twice"
    (ProcessEdit (λ _, NewEndpointSet (λ b, ReplaceEndpoints b (AddEndpoint b (ex_zone "a") (ex_endpoint "1.1.1.1") (Return 1))))) None] = None.
Proof. by vm_compute. Qed.

(** Two endpoints that are listed twice cancel out: the row with another pair is equal. *)
Theorem duplicate_endpoints_cancel :
  let twice := λ addr, add_all ex_encode [(ex_zone "a", mkHE (ex_endpoint addr) 0); (ex_zone "a", mkHE (ex_endpoint addr) 0)]
                         (NewEndpointsForBackend ex_us) in
  row_lb_eps (twice "10.0.0.1") ≠ row_lb_eps (twice "10.0.0.2") ∧
  row_Equals (twice "10.0.0.1") (twice "10.0.0.2") = true.
Proof.
  split; [|by vm_compute]. intros H. apply (f_equal (λ m, (λ l, map he_ep l) <$> m !! ex_zone "a")) in H.
  by vm_compute in H.
Qed.

(** The parts of a locality are hashed without separators: moving an endpoint between
    localities whose names concatenate to the same text is not seen. *)
Theorem locality_boundaries_collide :
  let at_ := λ l, Add ex_encode l (mkHE (ex_endpoint "10.0.0.1") 0) (NewEndpointsForBackend ex_us) in
  row_Equals (at_ (mkLoc "us-east" "-1a" "")) (at_ (mkLoc "us-east-1" "a" "")) = true.
Proof. by vm_compute. Qed.
