(* ===== verification/BackendCluster.v ===== *)
(** * Backends as Envoy clusters (translator/irtranslator/backend.go)

    A backend is translated in two phases: a base cluster that all clients share, with the
    policies that do not depend on a client, and a per-client phase in which plugins change
    a copy.  A backend that cannot be translated becomes a named cluster without endpoints.
    The client certificate of a Gateway is put on every TLS socket of the result, and in
    strict mode every published cluster is validated by Envoy, through a memo of verdicts.

    Plugins are functions on messages; the hooks of endpoint plugins may panic, which is
    [None].  The pointer comparison that recognises the load assignment the translator built
    itself is a mark on the assignment ([la_generated]), which an overlay that replaces the
    assignment does not set.  Encodings of protos are the class [TransportLib]. *)

From S2P Require Import Prelude IR Hashing PolicyIndex Endpoints SslUtils EnvoyRoute ValidatorCache EndpointEditor.

(** ** Messages *)

Section messages.
Context {Any V : Type}.

Record TransportSocket := mkTS { ts_name : string; ts_typed : option Any }.

Inductive DataSource := InlineString (s : string) | Filename (s : string).

(** [envoytlsv3.TlsParameters]; a version of [None] is [TLS_AUTO]. *)
Record TlsParameters := mkTlsParams {
  tlsp_min : option TlsProtocol; tlsp_max : option TlsProtocol; tlsp_ciphers : list string; tlsp_curves : list string;
  tlsp_signatures : list string }.

(** Matchers of subject alternative names, all exact here. *)
Inductive SanType := SanDns | SanUri.
Record SanMatcher := mkSan { san_type : SanType; san_exact : string }.

Record PeerValidation := mkCVC {
  cvc_trusted_ca : option DataSource; cvc_sans : list SanMatcher; cvc_rest : option Any }.

(** [envoytlsv3.CertificateValidationContext] is [PeerValidation], the oneof around it [UpstreamValidation].
    [SdsSecretConfig]: the name, and the cluster of its gRPC source if it has one. *)
Record SdsSecretConfig := mkSds { sds_name : string; sds_cluster : option string }.

(** A message that is nil inside a set oneof is read and encoded as the empty message. *)
Inductive UpstreamValidation :=
| ValidationContext (c : PeerValidation)
| CombinedValidationContext (c : PeerValidation) (s : SdsSecretConfig)
| ValidationContextSds (s : SdsSecretConfig).

(** [envoytlsv3.UpstreamTlsContext]: certificates are (chain, key). *)
Record CommonTlsContext := mkCTC {
  ctc_certificates : list (DataSource * DataSource); ctc_sds : list SdsSecretConfig; ctc_params : option TlsParameters;
  ctc_alpn : list string; ctc_validation : option UpstreamValidation; ctc_rest : option Any }.
Record UpstreamTlsContext := mkUTC {
  utc_common : option CommonTlsContext; utc_sni : string; utc_renegotiation : bool; utc_rest : option Any }.

Inductive ProxyProtocolVersion := PROXY_V1 | PROXY_V2.
Record ProxyProtocolTransport := mkPPT {
  ppt_socket : option TransportSocket; ppt_config : option ProxyProtocolVersion; ppt_rest : option Any }.

Inductive DnsFamily := FAuto | FV4Only | FV6Only | FV4Preferred | FAll | FUnspecified.
Record DnsCluster := mkDns {
  dns_family : DnsFamily; dns_refresh_rate : option Z; dns_jitter : option Z; dns_respect_ttl : bool;
  dns_single_endpoint : bool; dns_rest : option Any }.

Inductive ClusterType := STATIC | STRICT_DNS | LOGICAL_DNS | EDS | ORIGINAL_DST.
#[global] Instance ClusterType_eq_dec : EqDecision ClusterType.
Proof. solve_decision. Defined.

Inductive DiscoveryType := DType (t : ClusterType) | DCluster (name : string) (typed : option Any).

Inductive LocalityMode := LocalityWeighted (cfg : option Any) | ZoneAware (cfg : option Any).
Record CommonLbConfig := mkCLC {
  clc_locality : option LocalityMode; clc_panic : option Z; clc_window : option Z; clc_close : bool; clc_rest : option Any }.

(** [TypedExtensionConfig]: what a load balancing policy lists. *)
Record TypedExtensionConfig := mkTEC { tec_name : string; tec_config : option Any }.

Record SocketMatch := mkSM { sm_name : string; sm_match : option (gmap string V); sm_socket : option TransportSocket }.

Record LoadAssignment := mkLA { la_cla : ClusterLoadAssignment; la_generated : bool }.

(** Settings of a cluster that translation itself does not read; durations in nanoseconds. *)
Record TcpKeepalive := mkKeepalive { ka_probes : option Z; ka_time : option Z; ka_interval : option Z }.
Inductive HealthChecker := HttpHealthCheck (path host : string) (method : Z) | GrpcHealthCheck (service authority : string).
Record HealthCheck := mkHC {
  hc_timeout : Z; hc_interval : Z; hc_unhealthy : Z; hc_healthy : Z; hc_checker : option HealthChecker }.
Record OutlierDetection := mkOD {
  od_5xx : option Z; od_enforcing_5xx : option Z; od_split : bool; od_local : option Z; od_enforcing_local : option Z;
  od_interval : option Z; od_ejection_time : option Z; od_ejection_percent : option Z }.
Record Thresholds := mkThresholds {
  th_connections : option Z; th_pending : option Z; th_requests : option Z; th_retries : option Z; th_track : bool }.

Record ClusterSettings := mkCS {
  cs_connect_timeout : option Z; cs_buffer_limit : option Z; cs_conn_options : option (option TcpKeepalive);
  cs_health_checks : list HealthCheck; cs_outlier : option OutlierDetection; cs_breakers : option (list Thresholds);
  cs_rest : option Any }.
Definition no_settings : ClusterSettings := mkCS None None None [] None None None.

Record Cluster := mkCluster {
  c_name : string; c_discovery : option DiscoveryType; c_eds : option Any; c_common_lb : option CommonLbConfig;
  c_lb_policy : option (list TypedExtensionConfig); c_load_assignment : option LoadAssignment;
  c_socket : option TransportSocket; c_matches : list SocketMatch; c_protocol_options : gmap string Any;
  c_rest : ClusterSettings }.

(** Packing and unpacking of messages. *)
Class TransportLib := {
  Unmarshal_Tls : Any → error + UpstreamTlsContext;
  Marshal_Tls : UpstreamTlsContext → error + Any;
  Unmarshal_Proxy : Any → error + ProxyProtocolTransport;
  Marshal_Proxy : ProxyProtocolTransport → error + Any;
  Unmarshal_Dns : Any → error + DnsCluster;
  Marshal_Dns : DnsCluster → error + Any
}.

Class TransportLaws `{TransportLib} : Prop := {
  tls_roundtrip c a : Marshal_Tls c = inr a → Unmarshal_Tls a = inr c;
  proxy_roundtrip c a : Marshal_Proxy c = inr a → Unmarshal_Proxy a = inr c
}.
End messages.
Arguments TransportSocket : clear implicits.
Arguments TransportLib : clear implicits.
Arguments UpstreamTlsContext : clear implicits.
Arguments ProxyProtocolTransport : clear implicits.
Arguments DnsCluster : clear implicits.
Arguments SocketMatch : clear implicits.
Arguments Cluster : clear implicits.
Arguments DiscoveryType : clear implicits.
Arguments CommonLbConfig : clear implicits.
Arguments PeerValidation : clear implicits.
Arguments UpstreamValidation : clear implicits.
Arguments CommonTlsContext : clear implicits.
Arguments TypedExtensionConfig : clear implicits.
Arguments ClusterSettings : clear implicits.
Arguments LocalityMode : clear implicits.

(** ** Plugins *)

Section translator.
Context {P Any V Hdr : Type} `{EqDecision V} `{TL : TransportLib Any}.
Abbreviation Backend := (BackendObjectIR P).
Abbreviation Cluster := (Cluster Any V).
Abbreviation Client := UniquelyConnectedClient.

(** The hooks of a policy plugin that translation of backends calls; an overlay may have no
    mutation. *)
Record BackendHooks := mkBH {
  bh_process : option (P → Backend → Cluster → Cluster);
  bh_merge : option (list (PolicyAtt P) → PolicyAtt P);
  bh_overlay : option (Client → Backend → option (option (Cluster → Cluster)));
  bh_legacy : option (Client → Backend → Cluster → Cluster);
  bh_inputs_hash : option (Backend → Z);
  bh_endpoints : EndpointHooks P }.

Definition InitEnvoyBackend : Type := Backend → Cluster → Cluster * option (EndpointRow P).

(** [bt_policies]: the entries of the map of plugins, in its iteration order.  [bt_dns]: the
    setting of the common collections, if there are any. *)
Record BackendTranslator := mkBT {
  bt_backends : gmap GroupKind (option InitEnvoyBackend);
  bt_policies : list (GroupKind * BackendHooks);
  bt_endpoint_plugins : option (list (EndpointPlugin P));
  bt_dns : option string;
  bt_validator : bool;
  bt_mode : ValidationMode }.

(** [wholeObjectInputsHash]. *)
Definition wholeObjectInputsHash (b : Backend) : Z :=
  match bo_obj b with
  | None => 0
  | Some o =>
      HashStringField fnv64a (HashStringField fnv64a (HashStringField fnv64a (h_new fnv64a) (obj_uid o))
        (obj_resource_version o)) (pretty (obj_generation o))
  end.

Inductive OverlayHook :=
| Overlay (f : Client → Backend → option (option (Cluster → Cluster)))
| LegacyMutator (f : Client → Backend → Cluster → Cluster).

Record overlayPlugin := mkOP {
  op_gk : GroupKind; op_hook : OverlayHook; op_inputs_hash : Backend → Z; op_undeclared : bool }.

Definition overlay_plugin (e : GroupKind * BackendHooks) : option overlayPlugin :=
  let inputsHash := default wholeObjectInputsHash (bh_inputs_hash e.2) in
  let undeclared := bool_decide (bh_inputs_hash e.2 = None) in
  match bh_overlay e.2, bh_legacy e.2 with
  | Some f, _ => Some (mkOP e.1 (Overlay f) inputsHash undeclared)
  | None, Some f => Some (mkOP e.1 (LegacyMutator f) inputsHash undeclared)
  | None, None => None
  end.

Definition overlay_cmp : overlayPlugin → overlayPlugin → comparison :=
  (cmp_on (λ p, gk_group (op_gk p)) String.compare ▷ cmp_on (λ p, gk_kind (op_gk p)) String.compare)%cmp.

Definition orderedOverlayPlugins (t : BackendTranslator) : list overlayPlugin :=
  sort_stable overlay_cmp (omap overlay_plugin (bt_policies t)).

Definition HasUndeclaredOverlayInputs (t : BackendTranslator) : bool := existsb op_undeclared (orderedOverlayPlugins t).

Definition OverlayInputsHash (t : BackendTranslator) (b : Backend) : Z :=
  match orderedOverlayPlugins t with
  | [] => 0
  | plugins =>
      foldl (λ hasher p, HashUint64 fnv64a (HashStringField fnv64a (HashStringField fnv64a hasher (gk_group (op_gk p)))
               (gk_kind (op_gk p))) (op_inputs_hash p b)) (h_new fnv64a) plugins
  end.

Definition orderedEndpointPlugins (t : BackendTranslator) : list (EndpointPlugin P) :=
  match bt_endpoint_plugins t with
  | Some l => l
  | None => OrderedEndpointPlugins (map (λ e, (e.1, bh_endpoints e.2)) (bt_policies t))
  end.

(** ** Clusters *)

Definition dnsClusterExtensionName : string := "envoy.clusters.dns".

Definition with_discovery (d : option (DiscoveryType Any)) (c : Cluster) : Cluster :=
  mkCluster (c_name c) d (c_eds c) (c_common_lb c) (c_lb_policy c) (c_load_assignment c) (c_socket c) (c_matches c)
    (c_protocol_options c) (c_rest c).
Definition with_lb (l : option (CommonLbConfig Any)) (c : Cluster) : Cluster :=
  mkCluster (c_name c) (c_discovery c) (c_eds c) l (c_lb_policy c) (c_load_assignment c) (c_socket c) (c_matches c)
    (c_protocol_options c) (c_rest c).
Definition with_assignment (a : option LoadAssignment) (c : Cluster) : Cluster :=
  mkCluster (c_name c) (c_discovery c) (c_eds c) (c_common_lb c) (c_lb_policy c) a (c_socket c) (c_matches c)
    (c_protocol_options c) (c_rest c).
Definition with_sockets (s : option (TransportSocket Any)) (ms : list (SocketMatch Any V)) (c : Cluster) : Cluster :=
  mkCluster (c_name c) (c_discovery c) (c_eds c) (c_common_lb c) (c_lb_policy c) (c_load_assignment c) s ms
    (c_protocol_options c) (c_rest c).

Definition clusterSupportsInlineCLA (c : Cluster) : bool :=
  match c_discovery c with
  | Some (DCluster name _) => String.eqb name dnsClusterExtensionName
  | Some (DType t) => bool_decide (t ∈ [STATIC; STRICT_DNS; LOGICAL_DNS])
  | None => false
  end.

Definition set_locality (l : option (LocalityMode Any)) (c : CommonLbConfig Any) : CommonLbConfig Any :=
  mkCLC l (clc_panic c) (clc_window c) (clc_close c) (clc_rest c).

(** [defaultLocalityConfig]: the cluster and whether the mode was set. *)
Definition defaultLocalityConfig (c : Cluster) : Cluster * bool :=
  match c_lb_policy c, (lb ← c_common_lb c; clc_locality lb), c_eds c with
  | None, None, Some _ =>
      (with_lb (Some (set_locality (Some (LocalityWeighted None)) (default (mkCLC None None None false None) (c_common_lb c)))) c, true)
  | _, _, _ => (c, false)
  end.

Definition removeDefaultedLocalityConfig (c : Cluster) : Cluster :=
  match c_common_lb c with
  | None => c
  | Some lb =>
      with_lb (match clc_panic lb, clc_window lb, clc_close lb, clc_rest lb with
               | None, None, false, None => None
               | _, _, _, _ => Some (set_locality None lb)
               end) c
  end.

Definition lookup_family (setting : option string) : DnsFamily :=
  match setting with
  | Some s =>
      if String.eqb s "V4_ONLY" then FV4Only else if String.eqb s "V6_ONLY" then FV6Only
      else if String.eqb s "AUTO" then FAuto else if String.eqb s "ALL" then FAll else FV4Preferred
  | None => FV4Preferred
  end.

Definition processDnsLookupFamily (setting : option string) (out : Cluster) : Cluster :=
  match c_discovery out with
  | Some (DCluster name (Some typed)) =>
      if negb (String.eqb name dnsClusterExtensionName) then out
      else match Unmarshal_Dns typed with
           | inl _ => out
           | inr dns =>
               match Marshal_Dns (mkDns (lookup_family setting) (dns_refresh_rate dns) (dns_jitter dns) (dns_respect_ttl dns)
                                    (dns_single_endpoint dns) (dns_rest dns)) with
               | inl _ => out
               | inr typed => with_discovery (Some (DCluster name (Some typed))) out
               end
           end
  | _ => out
  end.

Context (h2Options : Any).
Definition clusterConnectionTimeout : Z := 5000000000.

Definition translateAppProtocol (appProtocol : string) : gmap string Any :=
  if String.eqb appProtocol "http2"
  then {["envoy.extensions.upstreams.http.v3.HttpProtocolOptions" := h2Options]} else ∅.

Definition createCommonLbConfig (b : Backend) : option (CommonLbConfig Any) :=
  match bo_traffic_distribution b with
  | TDAny => None
  | _ => Some (mkCLC (Some (LocalityWeighted None)) None None false None)
  end.

Definition initializeCluster (b : Backend) : Cluster :=
  mkCluster (bo_cluster_name b) None None (createCommonLbConfig b) None None None []
    (translateAppProtocol (bo_app_protocol b)) (mkCS (Some clusterConnectionTimeout) None None [] None None None).

Definition buildBlackholeCluster (b : Backend) : Cluster :=
  mkCluster (bo_cluster_name b) (Some (DType STATIC)) None None None
    (Some (mkLA (mkCLA (bo_cluster_name b) []) false)) None [] ∅ no_settings.

(** ** The client certificate of the Gateway *)

Definition TransportSocketTls : string := "envoy.transport_sockets.tls".
Definition proxyProtocolSocketName : string := "envoy.transport_sockets.upstream_proxy_protocol".

(** Sockets are followed for at most 16 wrappers; [fuel] counts what is left. *)
Definition socket_depth : nat := 17.

Fixpoint identity_tls (fuel : nat) (s : option (TransportSocket Any)) : bool :=
  match fuel, s with
  | S fuel, Some (mkTS name (Some typed)) =>
      if String.eqb name TransportSocketTls then
        match Unmarshal_Tls typed with inl _ => false | inr _ => true end
      else if String.eqb name proxyProtocolSocketName then
        match Unmarshal_Proxy typed with inl _ => false | inr w => identity_tls fuel (ppt_socket w) end
      else false
  | _, _ => false
  end.

Definition gatewayIdentityTLS (s : option (TransportSocket Any)) : bool := identity_tls socket_depth s.

Definition client_certificate (cert : TLSCertificate) : DataSource * DataSource :=
  (InlineString (tls_chain cert), InlineString (tls_key cert)).

(** The TLS context with the certificate as its only one. *)
Definition certified (cert : TLSCertificate) (tls : UpstreamTlsContext Any) : UpstreamTlsContext Any :=
  let c := default (mkCTC [] [] None [] None None) (utc_common tls) in
  mkUTC (Some (mkCTC [client_certificate cert] [] (ctc_params c) (ctc_alpn c) (ctc_validation c) (ctc_rest c)))
    (utc_sni tls) (utc_renegotiation tls) (utc_rest tls).

(** [injectGatewayBackendClientCertificateAtDepth]: [None] leaves the socket as it is. *)
Fixpoint inject_at (fuel : nat) (s : option (TransportSocket Any)) (cert : TLSCertificate) :
    error + option (TransportSocket Any) :=
  match fuel with
  | O => inl (EMsg "transport socket nesting exceeds limit for gateway backend client certificate")
  | S fuel =>
      match s with
      | None => inr None
      | Some (mkTS name typed) =>
          if String.eqb name proxyProtocolSocketName then
            match typed with
            | None => inl (EMsg "PROXY socket has no configuration for the gateway backend client certificate")
            | Some a =>
                match Unmarshal_Proxy a with
                | inl e => inl e
                | inr w =>
                    match inject_at fuel (ppt_socket w) cert with
                    | inl e => inl e
                    | inr None => inr None
                    | inr (Some inner) =>
                        match Marshal_Proxy (mkPPT (Some inner) (ppt_config w) (ppt_rest w)) with
                        | inl e => inl e
                        | inr config => inr (Some (mkTS name (Some config)))
                        end
                    end
                end
            end
          else if String.eqb name TransportSocketTls then
            match typed with
            | None => inl (EMsg "TLS socket has no configuration for the gateway backend client certificate")
            | Some a =>
                match Unmarshal_Tls a with
                | inl e => inl e
                | inr tls =>
                    match Marshal_Tls (certified cert tls) with
                    | inl e => inl e
                    | inr config => inr (Some (mkTS name (Some config)))
                    end
                end
            end
          else inr None
      end
  end.

Definition injectGatewayBackendClientCertificate (s : option (TransportSocket Any)) (cert : TLSCertificate) :
    error + option (TransportSocket Any) := inject_at socket_depth s cert.

Fixpoint inject_matches (cert : TLSCertificate) (ms : list (SocketMatch Any V)) : error + list (SocketMatch Any V) :=
  match ms with
  | [] => inr []
  | m :: ms =>
      match injectGatewayBackendClientCertificate (sm_socket m) cert with
      | inl e => inl e
      | inr ts =>
          match inject_matches cert ms with
          | inl e => inl e
          | inr ms => inr (mkSM (sm_name m) (sm_match m) (match ts with Some s => Some s | None => sm_socket m end) :: ms)
          end
      end
  end.

Definition applyGatewayBackendClientCertificate (out : Cluster) (b : Backend) : error + Cluster :=
  match bo_client_cert b with
  | None => inr out
  | Some cert =>
      match injectGatewayBackendClientCertificate (c_socket out) cert with
      | inl e => inl e
      | inr ts =>
          match inject_matches cert (c_matches out) with
          | inl e => inl e
          | inr ms => inr (with_sockets (match ts with Some s => Some s | None => c_socket out end) ms out)
          end
      end
  end.

Definition empty_match (m : SocketMatch Any V) : bool := bool_decide (default ∅ (sm_match m) = ∅).

(** The socket that applies when no other match does. *)
Definition fallback (c : Cluster) : option (TransportSocket Any) :=
  match List.find empty_match (c_matches c) with
  | Some m => sm_socket m
  | None => c_socket c
  end.

(** The socket of the result for the endpoints a match of the base selects. *)
Definition socket_for (out : Cluster) (before : SocketMatch Any V) : option (TransportSocket Any) :=
  match List.find (λ after, bool_decide (sm_match after = sm_match before)) (c_matches out) with
  | Some after => sm_socket after
  | None => fallback out
  end.

Fixpoint plaintext_bypass (prefixUnchanged : bool) (base after : list (SocketMatch Any V)) : bool :=
  match after with
  | [] => false
  | a :: after =>
      let unchanged := prefixUnchanged &&
        match base with b :: _ => bool_decide (sm_match b = sm_match a) | [] => false end in
      (negb (gatewayIdentityTLS (sm_socket a)) &&
       (negb unchanged || match base with b :: _ => gatewayIdentityTLS (sm_socket b) | [] => false end)) ||
      plaintext_bypass unchanged (tail base) after
  end.

Definition validateGatewayClientIdentityOverlay (base out : Cluster) : option error :=
  if gatewayIdentityTLS (fallback base) && negb (gatewayIdentityTLS (fallback out)) then
    Some (EMsg "per-client overlay removed TLS required by the gateway backend client certificate")
  else if existsb (λ before, gatewayIdentityTLS (sm_socket before) && negb (gatewayIdentityTLS (socket_for out before)))
            (c_matches base) then
    Some (EMsg "per-client overlay removed a TLS socket match required by the gateway backend client certificate")
  else if (gatewayIdentityTLS (fallback base) || existsb (λ m, gatewayIdentityTLS (sm_socket m)) (c_matches base)) &&
          plaintext_bypass true (c_matches base) (c_matches out) then
    Some (EMsg "per-client overlay added a plaintext socket match bypassing the gateway backend client certificate")
  else None.

(** ** Validation *)

Context `{EL : EnvoyLib Any Hdr Cluster} `{LL : LruLib string cachedResult}.
Context (encode_cluster : Cluster → error + string).

Definition ContentKeyOf (c : Cluster) : error + string :=
  match encode_cluster c with inl e => inl e | inr bytes => inr (sha256_hex bytes) end.

(** The cluster as the bootstrap builder reads it. *)
Definition bootstrap_cluster (c : Cluster) : EnvoyCluster Any Cluster :=
  mkEC (c_name c) (s ← c_socket c; ts_typed s) (Some c).

Definition run_validation (c : Cluster) : option error :=
  match Build (AddCluster (bootstrap_cluster c) New) with
  | inl e => Some e
  | inr bootstrap => Validate bootstrap
  end.

Definition validateClusterConfig (m : Memo string) (c : Cluster) : option error * Memo string :=
  match m with
  | None => (run_validation c, None)
  | Some _ =>
      match ContentKeyOf c with
      | inl _ => (run_validation c, m)
      | inr key => Memo_Validate m key (λ _, run_validation c)
      end
  end.

Definition strict (t : BackendTranslator) : bool :=
  match bt_mode t with ValidationStrict => bt_validator t | _ => false end.

(** ** The base cluster *)

Record BaseCluster := mkBase {
  b_cluster : Cluster; b_endpoint_inputs : option (RowInputs P); b_supports_inline : bool;
  b_defaulted_locality : bool; b_generated_cla : bool; b_error : option error }.

Definition NeedsInlineCLA (b : BaseCluster) : bool :=
  bool_decide (b_error b = None) && b_supports_inline b &&
  match b_endpoint_inputs b with Some _ => true | None => false end &&
  match c_load_assignment (b_cluster b) with None => true | Some _ => false end.

Definition errored (backend : Backend) (e : option error) : BaseCluster :=
  mkBase (buildBlackholeCluster backend) None false false false e.

(** The policies of a kind that are applied. *)
Definition effective_policies (h : BackendHooks) (policies : list (PolicyAtt P)) : list (PolicyAtt P) :=
  match bh_merge h, policies with
  | Some merge, _ :: _ => [merge policies]
  | _, _ => policies
  end.

Definition base_policy_step (f : P → Backend → Cluster → Cluster) (backend : Backend) (acc : list error * Cluster)
    (pol : PolicyAtt P) : list error * Cluster :=
  match pa_errors pol with
  | _ :: _ => (acc.1 ++ pa_errors pol, acc.2)
  | [] => (acc.1, f (pa_ir pol) backend acc.2)
  end.

Definition base_kind_step (backend : Backend) (acc : list error * Cluster) (e : GroupKind * BackendHooks) :
    list error * Cluster :=
  match bh_process e.2 with
  | None => acc
  | Some f => foldl (base_policy_step f backend) acc (effective_policies e.2 (ap_get (bo_policies backend) e.1))
  end.

Definition applyBasePolicies (t : BackendTranslator) (backend : Backend) (out : Cluster) : list error * Cluster :=
  foldl (base_kind_step backend) ([], out) (bt_policies t).

Definition inlineCLADependsOnClient (t : BackendTranslator) (backend : Backend) (inputs : RowInputs P) : bool :=
  DependsOnClient (priority_inputs inputs) || existsb (λ p, MayApply p backend) (orderedEndpointPlugins t).

Context (keys : gmap PodLocality (list EndpointWithMd) → list PodLocality).
Context (encode_endpoint : LbEndpoint → string) (iter_eps : LocalityLbMap → list (PodLocality * HashedEndpoint)).

Definition zero_client : Client := mkUCC "" ∅ (mkLoc "" "" "") "" false "".

(** The inline endpoints a backend plugin returned, with the policies of the backend. *)
Definition endpoint_inputs (backend : Backend) (e : EndpointRow P) : RowInputs P :=
  mkRI (mkRow (row_labels e) (bo_policies backend) (row_lb_eps e) (row_cluster e) (row_resource e) (row_port e)
          (row_hostname e) (row_traffic e) (row_equality_hash e) (row_upstream_hash e) (row_eps_hash e) (row_count e)
          (row_folded e)) None.

(** The base with the load assignment no client can influence. *)
Definition complete_base (t : BackendTranslator) (backend : Backend) (result : BaseCluster) : BaseCluster :=
  match b_endpoint_inputs result with
  | Some inputs =>
      if NeedsInlineCLA result && negb (inlineCLADependsOnClient t backend inputs) then
        mkBase (with_assignment (Some (mkLA (PrioritizeEndpoints keys zero_client (priority_inputs inputs)) true))
                  (b_cluster result))
          (b_endpoint_inputs result) (b_supports_inline result) (b_defaulted_locality result) true (b_error result)
      else result
  | None => result
  end.

Definition TranslateBackendBase (t : BackendTranslator) (m : Memo string) (backend : Backend) : BaseCluster * Memo string :=
  let gk := os_gk (bo_source backend) in
  match bt_backends t !! gk with
  | None => (errored backend (Some (EMsg ("no backend translator found for " +:+ gk_string gk))), m)
  | Some None => (errored backend (Some (EMsg ("no backend plugin found for " +:+ gk_string gk))), m)
  | Some (Some init) =>
      match bo_errors backend with
      | _ :: _ => (errored backend (Some (EJoin (bo_errors backend))), m)
      | [] =>
          let '(out, inlineEps) := init backend (initializeCluster backend) in
          let out := processDnsLookupFamily (bt_dns t) out in
          match applyBasePolicies t backend out with
          | (_ :: _ as errs, _) => (errored backend (Some (EJoin errs)), m)
          | ([], out) =>
              let '(out, defaultedLocality) := defaultLocalityConfig out in
              match applyGatewayBackendClientCertificate out backend with
              | inl e => (errored backend (Some e), m)
              | inr out =>
                  let result := complete_base t backend
                    (mkBase out (endpoint_inputs backend <$> inlineEps) (clusterSupportsInlineCLA out) defaultedLocality
                       false None) in
                  if strict t && negb (NeedsInlineCLA result) then
                    match validateClusterConfig m (b_cluster result) with
                    | (Some e, m) => (errored backend (Some e), m)
                    | (None, m) => (result, m)
                    end
                  else (result, m)
              end
          end
      end
  end.

(** ** The cluster of a client *)

Definition overlays_for (t : BackendTranslator) (ucc : Client) (backend : Backend) : list (Cluster → Cluster) :=
  flat_map (λ p, match op_hook p with
                 | Overlay f => match f ucc backend with Some mutate => [default id mutate] | None => [] end
                 | LegacyMutator f => [f ucc backend]
                 end) (orderedOverlayPlugins t).

(** The changes to the clone of the base before its load assignment is completed. *)
Definition overlaid (base : BaseCluster) (overlays : list (Cluster → Cluster)) : Cluster :=
  let out := b_cluster base in
  let out := if b_defaulted_locality base then removeDefaultedLocalityConfig out else out in
  let out := foldl (λ c f, f c) out overlays in
  match c_load_assignment out with
  | Some (mkLA _ true) => if b_generated_cla base && negb (clusterSupportsInlineCLA out)
                          then with_assignment None out else out
  | _ => out
  end.

(** The rest of the per-client phase, after the load assignment. *)
Definition finish_client (t : BackendTranslator) (m : Memo string) (backend : Backend) (base : BaseCluster) (out : Cluster) :
    option Cluster * option error * Memo string :=
  let out := if b_defaulted_locality base then (defaultLocalityConfig out).1 else out in
  let blackhole := λ e, (Some (buildBlackholeCluster backend), Some e, m) in
  match (if bool_decide (bo_client_cert backend = None) then None
         else validateGatewayClientIdentityOverlay (b_cluster base) out) with
  | Some e => blackhole e
  | None =>
      match applyGatewayBackendClientCertificate out backend with
      | inl e => blackhole e
      | inr out =>
          if strict t then
            match validateClusterConfig m out with
            | (Some e, m) => (Some (buildBlackholeCluster backend), Some e, m)
            | (None, m) => (Some out, None, m)
            end
          else (Some out, None, m)
      end
  end.

Definition ApplyPerClient (t : BackendTranslator) (m : Memo string) (ucc : Client) (backend : Backend) (base : BaseCluster) :
    option (option Cluster * option error * Memo string) :=
  match b_error base with
  | Some _ => Some (None, None, m)
  | None =>
      let overlays := overlays_for t ucc backend in
      if bool_decide (overlays = []) && negb (NeedsInlineCLA base) then Some (None, None, m)
      else
        let out := overlaid base overlays in
        match clusterSupportsInlineCLA out, c_load_assignment out, b_endpoint_inputs base with
        | true, None, None =>
            Some (Some (buildBlackholeCluster backend),
                  Some (EMsg "per-client overlay requires an inline load assignment but no endpoint inputs are available"), m)
        | true, None, Some inputs =>
            r ← ResolveEndpointInputs encode_endpoint iter_eps ucc inputs (orderedEndpointPlugins t);
            Some (finish_client t m backend base
                    (with_assignment (Some (mkLA (PrioritizeEndpoints keys ucc (priority_inputs r.1)) false)) out))
        | _, _, _ => Some (finish_client t m backend base out)
        end
  end.

(** The cluster a translation ends with for a client: the shared base, unless the client has its
    own.  It is sent to the client only when neither phase reports an error. *)
Definition client_cluster (base : BaseCluster) (r : option Cluster * option error * Memo string) : Cluster :=
  default (b_cluster base) r.1.1.
End translator.
Arguments BackendHooks : clear implicits.
Arguments BackendTranslator : clear implicits.
Arguments BaseCluster : clear implicits.
Arguments overlayPlugin : clear implicits.

(** ** Lemmas: the base cluster *)

Section base.
Context {P Any V Hdr : Type} `{EqDecision V} `{TL : TransportLib Any}.
Context `{EL : EnvoyLib Any Hdr (Cluster Any V)} `{LL : LruLib string cachedResult}.
Context (h2 : Any) (encode_cluster : Cluster Any V → error + string).
Context (keys : gmap PodLocality (list EndpointWithMd) → list PodLocality).
Context (encode_endpoint : LbEndpoint → string) (iter_eps : LocalityLbMap → list (PodLocality * HashedEndpoint)).
Implicit Types (t : BackendTranslator P Any V) (b : BackendObjectIR P) (m : Memo string) (base : BaseCluster P Any V).
Abbreviation base_of := (TranslateBackendBase (Hdr := Hdr) h2 encode_cluster keys).
Abbreviation validate := (validateClusterConfig (Hdr := Hdr) encode_cluster).

(** A policy that applies to the backend and is invalid. *)
Definition invalid_policy t b : Prop :=
  ∃ gk hooks pol, (gk, hooks) ∈ bt_policies t ∧ is_Some (bh_process hooks) ∧
    pol ∈ effective_policies hooks (ap_get (bo_policies b) gk) ∧ pa_errors pol ≠ [].

Lemma policy_steps_errors f b (acc : list error * Cluster Any V) (pols : list (PolicyAtt P)) :
  (foldl (base_policy_step f b) acc pols).1 = acc.1 ++ flat_map pa_errors pols.
Proof.
  revert acc. induction pols as [|pol pols IH]; intros acc; simpl; [by rewrite app_nil_r|]. rewrite IH.
  unfold base_policy_step. destruct (pa_errors pol) as [|e es]; simpl; [done|by rewrite <- app_assoc].
Qed.

(** The errors of the policies of one kind. *)
Definition kind_errors b (e : GroupKind * BackendHooks P Any V) : list error :=
  match bh_process e.2 with
  | None => []
  | Some _ => flat_map pa_errors (effective_policies e.2 (ap_get (bo_policies b) e.1))
  end.

Lemma base_policies_errors t b out : (applyBasePolicies t b out).1 = flat_map (kind_errors b) (bt_policies t).
Proof.
  unfold applyBasePolicies.
  assert (∀ l acc, (foldl (base_kind_step b) acc l).1 = acc.1 ++ flat_map (kind_errors b) l) as H; [|by rewrite H].
  induction l as [|e l IH]; intros acc; simpl; [by rewrite app_nil_r|]. rewrite IH, app_assoc. f_equal.
  unfold base_kind_step, kind_errors. destruct (bh_process e.2); [apply policy_steps_errors|by rewrite app_nil_r].
Qed.

Lemma base_policies_valid t b out : (applyBasePolicies t b out).1 = [] ↔ ¬ invalid_policy t b.
Proof.
  rewrite base_policies_errors. split.
  - intros H (gk & hooks & pol & Hin & [f Hf] & Hpol & He). apply He.
    destruct (pa_errors pol) as [|x es] eqn:E; [done|]. exfalso.
    assert (x ∈ @nil error) as Hx; [|by apply elem_of_nil in Hx]. rewrite <- H. apply list_elem_of_In, in_flat_map.
    exists (gk, hooks). split; [by apply list_elem_of_In|]. unfold kind_errors. simpl. rewrite Hf. apply in_flat_map.
    exists pol. split; [by apply list_elem_of_In|]. rewrite E. by left.
  - intros Hn. apply elem_of_nil_inv. intros x Hx. apply Hn. apply list_elem_of_In, in_flat_map in Hx as ([gk hooks] & Hin & Hx).
    unfold kind_errors in Hx. simpl in Hx. destruct (bh_process hooks) eqn:Hp; [|by destruct Hx].
    apply in_flat_map in Hx as (pol & Hpol & Hx). exists gk, hooks, pol. split; [by apply list_elem_of_In|].
    split; [by eexists|]. split; [by apply list_elem_of_In|]. intros He. by rewrite He in Hx.
Qed.

(** How a base without an error came about. *)
Record base_built t b base : Prop := mkBuilt {
  bb_translator : ∃ init, bt_backends t !! os_gk (bo_source b) = Some (Some init);
  bb_errors : bo_errors b = [];
  bb_policies : ¬ invalid_policy t b;
  bb_cluster : ∃ out0 out1 defaulted inline,
    defaultLocalityConfig out0 = (out1, defaulted) ∧
    ∃ out, applyGatewayBackendClientCertificate out1 b = inr out ∧
    base = complete_base keys t b
      (mkBase out (endpoint_inputs b <$> inline) (clusterSupportsInlineCLA out) defaulted false None) }.

Lemma complete_base_error t b base : b_error (complete_base keys t b base) = b_error base.
Proof. unfold complete_base. destruct (b_endpoint_inputs base); [by destruct (NeedsInlineCLA base && _)|done]. Qed.

Lemma base_cases t m b base m' :
  base_of t m b = (base, m') →
  (∃ e, base = errored b (Some e) ∧ (m' = m ∨ ∃ c, validate m c = (Some e, m'))) ∨
  (base_built t b base ∧ b_error base = None ∧
   if strict t && negb (NeedsInlineCLA base) then validate m (b_cluster base) = (None, m') else m' = m).
Proof.
  unfold TranslateBackendBase. intros H.
  destruct (bt_backends t !! os_gk (bo_source b)) as [[init|]|] eqn:Ei; [|injection H as <- <-; eauto..].
  destruct (bo_errors b) eqn:Eb; [|injection H as <- <-; eauto].
  destruct (init b (initializeCluster h2 b)) as [out inline].
  destruct (applyBasePolicies t b _) as [[|e es] out0] eqn:Ep; [|injection H as <- <-; eauto].
  destruct (defaultLocalityConfig out0) as [out1 defaulted] eqn:Ed.
  destruct (applyGatewayBackendClientCertificate out1 b) as [e|out2] eqn:Ec; [injection H as <- <-; eauto|].
  set (result := complete_base _ _ _ _) in *.
  assert (base_built t b result ∧ b_error result = None) as [Hb He].
  { split; [|apply complete_base_error].
    split; [by eexists|done| |exists out0, out1, defaulted, inline; eauto].
    apply (base_policies_valid t b (processDnsLookupFamily (bt_dns t) out)). by rewrite Ep. }
  destruct (strict t && negb (NeedsInlineCLA result)) eqn:Es.
  - destruct (validate m (b_cluster result)) as [[e|] m1] eqn:Ev; injection H as <- <-.
    + left. exists e. split; [done|]. right. by exists (b_cluster result).
    + right. by rewrite Es.
  - injection H as <- <-. right. by rewrite Es.
Qed.

(** A backend becomes its cluster only if a plugin translates its kind and neither the
    backend nor a policy applied to it is invalid; otherwise its base is the named cluster
    without endpoints with the error recorded, and the per-client phase leaves it at that.
    Such a base is not sent to clients. *)
Theorem base_cluster_fails_closed t m b base m' :
  base_of t m b = (base, m') →
  match b_error base with
  | None => (∃ init, bt_backends t !! os_gk (bo_source b) = Some (Some init)) ∧ bo_errors b = [] ∧ ¬ invalid_policy t b
  | Some _ => b_cluster base = buildBlackholeCluster b ∧
      ∀ ucc, ApplyPerClient (Hdr := Hdr) encode_cluster keys encode_endpoint iter_eps t m' ucc b base = Some (None, None, m')
  end.
Proof.
  intros [(e & -> & _)|([Ht He Hp _] & Hn & _)]%base_cases; [done|]. by rewrite Hn.
Qed.

(** ** What was validated *)

Context `{LW : !LruLaws string cachedResult}.
Abbreviation run := (run_validation (Hdr := Hdr)).
Abbreviation key_of := (ContentKeyOf encode_cluster).
Abbreviation client_of := (ApplyPerClient (Hdr := Hdr) encode_cluster keys encode_endpoint iter_eps).
Abbreviation finish := (finish_client (Hdr := Hdr) encode_cluster).

(** A verdict of Envoy for content with a key. *)
Definition key_verdict (k : string) (o : option error) : Prop := ∃ c, key_of c = inr k ∧ run c = o.

(** Envoy accepted the cluster, or content with the same digest. *)
Definition accepted (c : Cluster Any V) : Prop :=
  run c = None ∨ ∃ c' k, key_of c = inr k ∧ key_of c' = inr k ∧ run c' = None.

Lemma validate_sound m c r m' :
  memo_ok key_verdict m → validate m c = (r, m') → memo_ok key_verdict m' ∧ (r = None → accepted c).
Proof.
  intros Hm H. unfold validateClusterConfig in H. destruct m as [cache|].
  - destruct (key_of c) as [e|k] eqn:Ek; [injection H as <- <-; split; [done|by left]|].
    destruct (memo_validate_spec key_verdict (Some cache) k (λ _, run c)) as [Hok (o & Ho & Hs)]; [done|by exists c|].
    rewrite H in Hok, Hs. split; [done|]. intros ->. destruct o; [done|]. destruct Ho as (c' & Hk & Hr). right. eauto.
  - injection H as <- <-. split; [done|by left].
Qed.

(** The end of the per-client phase. *)
Lemma finish_cases t m b base out res err m' :
  finish t m b base out = (res, err, m') →
  (err ≠ None ∧ res = Some (buildBlackholeCluster b)) ∨
  (err = None ∧ ∃ out', res = Some out' ∧
     let out1 := if b_defaulted_locality base then (defaultLocalityConfig out).1 else out in
     (bo_client_cert b = None ∨ validateGatewayClientIdentityOverlay (b_cluster base) out1 = None) ∧
     applyGatewayBackendClientCertificate out1 b = inr out' ∧
     if strict t then validate m out' = (None, m') else m' = m).
Proof.
  unfold finish_client. set (out1 := if b_defaulted_locality base then _ else out). intros H.
  destruct (if bool_decide (bo_client_cert b = None) then None else _) as [e|] eqn:Eg; [injection H as <- <- <-; by left|].
  destruct (applyGatewayBackendClientCertificate out1 b) as [e|out2] eqn:Ec; [injection H as <- <- <-; by left|].
  assert (bo_client_cert b = None ∨ validateGatewayClientIdentityOverlay (b_cluster base) out1 = None) as Hg
    by (case_bool_decide; auto).
  destruct (strict t).
  - destruct (validate m out2) as [[e|] m1] eqn:Ev; injection H as <- <- <-; [by left|]. right. eauto 10.
  - injection H as <- <- <-. right. eauto 10.
Qed.

Lemma client_cases t m ucc b base r :
  client_of t m ucc b base = Some r → b_error base = None →
  (r = (None, None, m) ∧ NeedsInlineCLA base = false ∧ overlays_for t ucc b = []) ∨
  (r.1.1 = Some (buildBlackholeCluster b) ∧ r.1.2 ≠ None) ∨
  ∃ out a, out = with_assignment a (overlaid base (overlays_for t ucc b)) ∧ finish t m b base out = r.
Proof.
  unfold ApplyPerClient. intros H He. rewrite He in H.
  destruct (bool_decide (overlays_for t ucc b = []) && negb (NeedsInlineCLA base)) eqn:Ef.
  - injection H as <-. left. apply andb_true_iff in Ef as [Ho%bool_decide_eq_true Hn%negb_true_iff]. done.
  - right. set (out := overlaid base _) in *.
    assert (out = with_assignment (c_load_assignment out) out) as Hid by by destruct out.
    destruct (clusterSupportsInlineCLA out), (c_load_assignment out) eqn:Ea, (b_endpoint_inputs base) as [inputs|];
      try (injection H as <-; right; eauto; fail).
    + destruct (ResolveEndpointInputs encode_endpoint iter_eps ucc inputs _) as [r'|]; [|done]. injection H as <-.
      right. eauto.
    + injection H as <-. by left.
Qed.

Lemma base_memo t m b base m' :
  memo_ok key_verdict m → base_of t m b = (base, m') → memo_ok key_verdict m'.
Proof.
  intros Hm [(e & -> & [->|[c Hv]])|(_ & _ & Hv)]%base_cases; [done|by apply validate_sound in Hv as [? _]|].
  destruct (strict t && negb (NeedsInlineCLA base)); [by apply validate_sound in Hv as [? _]|by subst].
Qed.

Lemma finish_memo t m b base out r :
  memo_ok key_verdict m → finish t m b base out = r → memo_ok key_verdict r.2.
Proof.
  intros Hm <-. unfold finish_client. set (out1 := if b_defaulted_locality base then _ else out).
  destruct (if bool_decide (bo_client_cert b = None) then None else _); [done|].
  destruct (applyGatewayBackendClientCertificate out1 b) as [e|out2]; [done|]. destruct (strict t); [|done].
  destruct (validate m out2) as [[e|] m1] eqn:Ev; by apply validate_sound in Ev as [? _].
Qed.

Lemma client_memo t m ucc b base r :
  memo_ok key_verdict m → client_of t m ucc b base = Some r → memo_ok key_verdict r.2.
Proof.
  unfold ApplyPerClient. intros Hm H. destruct (b_error base); [by injection H as <-|].
  destruct (bool_decide (overlays_for t ucc b = []) && negb (NeedsInlineCLA base)); [by injection H as <-|].
  set (out := overlaid base _) in *.
  destruct (clusterSupportsInlineCLA out), (c_load_assignment out), (b_endpoint_inputs base) as [inputs|];
    try (injection H as H; by eapply finish_memo); [|by injection H as <-].
  destruct (ResolveEndpointInputs encode_endpoint iter_eps ucc inputs _) as [r'|]; [|done]. injection H as H.
  by eapply finish_memo.
Qed.

(** In strict mode the cluster a client gets was validated: the shared base, the copy the
    plugins changed for the client, or the one with the client's endpoints. *)
Lemma client_cluster_accepted t m b base m1 m2 ucc r :
  strict t = true → memo_ok key_verdict m → memo_ok key_verdict m2 →
  base_of t m b = (base, m1) → client_of t m2 ucc b base = Some r →
  b_error base = None → r.1.2 = None → accepted (client_cluster base r).
Proof.
  intros Hs Hm Hm2 [(e & -> & _)|(_ & _ & Hv)]%base_cases Hc He Hr; [done|]. rewrite Hs in Hv. simpl in Hv.
  assert (NeedsInlineCLA base = false → accepted (b_cluster base)) as Hbase.
  { intros Hn. rewrite Hn in Hv. simpl in Hv. apply validate_sound in Hv as [? ?]; auto. }
  apply client_cases in Hc as [(-> & Hn & _)|[[_ ?]|(out & a & _ & Hf)]]; [by apply Hbase|done| |done].
  destruct r as [[res err] m']. simpl in Hr. subst err.
  apply finish_cases in Hf as [[? _]|(_ & out' & -> & _ & _ & Hf)]; [done|]. rewrite Hs in Hf.
  apply validate_sound in Hf as [? Hacc]; [|done]. by apply Hacc.
Qed.

(** ** The identity of the Gateway *)

(** Which endpoints a match selects: Envoy's rule, of which only the documented behaviour of
    an empty match is used. *)
Context {Md : Type} (matches : gmap string V → Md → bool) (empty_matches : ∀ md, matches ∅ md = true).
Context `{TW : !TransportLaws}.

Definition hits (md : Md) (x : SocketMatch Any V) : bool := matches (default ∅ (sm_match x)) md.

(** The socket Envoy uses for an endpoint: the first match, or the socket of the cluster. *)
Definition selected (c : Cluster Any V) (md : Md) : option (TransportSocket Any) :=
  match List.find (hits md) (c_matches c) with
  | Some x => sm_socket x
  | None => c_socket c
  end.

Lemma empty_hits md x : empty_match x = true → hits md x = true.
Proof. unfold empty_match, hits. intros H%bool_decide_eq_true. by rewrite H. Qed.

Lemma no_hit_fallback c md : List.find (hits md) (c_matches c) = None → fallback c = c_socket c.
Proof.
  intros H. unfold fallback. destruct (List.find empty_match (c_matches c)) as [x|] eqn:E; [|done].
  apply find_some in E as [Hin He]. apply (find_none _ _ H) in Hin. by rewrite empty_hits in Hin.
Qed.

(** A plaintext match that passes the guard stands for a plaintext match of the base. *)
Lemma bypass_spec md unchanged (base after : list (SocketMatch Any V)) x :
  plaintext_bypass unchanged base after = false → List.find (hits md) after = Some x →
  gatewayIdentityTLS (sm_socket x) = false →
  ∃ y, unchanged = true ∧ List.find (hits md) base = Some y ∧ gatewayIdentityTLS (sm_socket y) = false.
Proof.
  revert unchanged base. induction after as [|a after IH]; intros unchanged base Hb Hf Hx; [done|]. simpl in Hb, Hf.
  apply orb_false_iff in Hb as [Ha Hrest]. destruct (hits md a) eqn:Eh.
  - injection Hf as ->. rewrite Hx in Ha. simpl in Ha. apply orb_false_iff in Ha as [Hu Hy].
    apply negb_false_iff, andb_true_iff in Hu as [Hun Hm]. destruct base as [|y base]; [done|].
    apply bool_decide_eq_true in Hm. exists y. split; [done|]. simpl. unfold hits in *. rewrite Hm. by rewrite Eh.
  - apply IH in Hrest as (y & Hu & Hy & Hty); [|done|done]. apply andb_true_iff in Hu as [Hun Hm].
    destruct base as [|z base]; [done|]. apply bool_decide_eq_true in Hm. exists y. split; [done|]. simpl in *.
    unfold hits in Eh |- * at 1. by rewrite Hm, Eh.
Qed.

Lemma guard_sound (base out : Cluster Any V) md :
  validateGatewayClientIdentityOverlay base out = None → gatewayIdentityTLS (selected base md) = true →
  gatewayIdentityTLS (selected out md) = true.
Proof.
  unfold validateGatewayClientIdentityOverlay. intros H Hb.
  destruct (gatewayIdentityTLS (fallback base) && negb (gatewayIdentityTLS (fallback out))) eqn:E1; [done|].
  destruct (existsb _ (c_matches base)) eqn:E2; [done|].
  destruct ((gatewayIdentityTLS (fallback base) || _) && _) eqn:E3; [done|]. clear H.
  unfold selected at 1. destruct (List.find (hits md) (c_matches out)) as [x|] eqn:Eo.
  - destruct (gatewayIdentityTLS (sm_socket x)) eqn:Ex; [done|]. exfalso.
    apply andb_false_iff in E3 as [E3|E3].
    + apply orb_false_iff in E3 as [Ef Em]. unfold selected in Hb.
      destruct (List.find (hits md) (c_matches base)) as [y|] eqn:Ey.
      * apply find_some in Ey as [Hy _]. by rewrite (existsb_false_elem _ _ _ Em Hy) in Hb.
      * rewrite (no_hit_fallback _ _ Ey) in Ef. congruence.
    + destruct (bypass_spec md _ _ _ _ E3 Eo Ex) as (y & _ & Hy & Hty). unfold selected in Hb. rewrite Hy in Hb. congruence.
  - rewrite <- (no_hit_fallback _ _ Eo). unfold selected in Hb.
    destruct (List.find (hits md) (c_matches base)) as [y|] eqn:Ey.
    + apply find_some in Ey as [Hin Hhit]. pose proof (existsb_false_elem _ _ _ E2 Hin) as Hs.
      cbv beta in Hs. rewrite Hb in Hs. simpl in Hs. apply negb_false_iff in Hs. unfold socket_for in Hs.
      destruct (List.find (λ after, bool_decide (sm_match after = sm_match y)) (c_matches out)) as [z|] eqn:Ez; [|done].
      apply find_some in Ez as [Hz Heq%bool_decide_eq_true]. apply (find_none _ _ Eo) in Hz.
      unfold hits in Hz, Hhit. congruence.
    + rewrite <- (no_hit_fallback _ _ Ey) in Hb. rewrite Hb in E1. by apply negb_false_iff in E1.
Qed.

(** A socket that presents the certificate, and no other, behind its wrappers. *)
Fixpoint presents_at (fuel : nat) (s : option (TransportSocket Any)) (cert : TLSCertificate) : Prop :=
  match fuel, s with
  | S fuel, Some (mkTS name (Some typed)) =>
      if String.eqb name TransportSocketTls then
        ∃ tls ctc, Unmarshal_Tls typed = inr tls ∧ utc_common tls = Some ctc ∧
          ctc_certificates ctc = [client_certificate cert] ∧ ctc_sds ctc = []
      else if String.eqb name proxyProtocolSocketName then
        ∃ w, Unmarshal_Proxy typed = inr w ∧ presents_at fuel (ppt_socket w) cert
      else False
  | _, _ => False
  end.
Definition presents (s : option (TransportSocket Any)) (cert : TLSCertificate) : Prop := presents_at socket_depth s cert.

Lemma inject_spec fuel s cert r :
  inject_at fuel s cert = inr r →
  if identity_tls fuel s then ∃ s', r = Some s' ∧ presents_at fuel (Some s') cert else r = None.
Proof.
  revert s r. induction fuel as [|fuel IH]; intros s r H; [done|]. simpl in H.
  destruct s as [[name typed]|]; [|by injection H as <-].
  assert (String.eqb TransportSocketTls proxyProtocolSocketName = false) as Hne by done.
  destruct (String.eqb_spec name proxyProtocolSocketName) as [->|Hp].
  - destruct typed as [a|]; [|done]. simpl. destruct (Unmarshal_Proxy a) as [|w]; [done|].
    destruct (inject_at fuel (ppt_socket w) cert) as [|[inner|]] eqn:Ei; [done| |].
    + destruct (Marshal_Proxy _) as [|config] eqn:Em; [done|]. injection H as <-. apply IH in Ei.
      destruct (identity_tls fuel (ppt_socket w)); [|done]. destruct Ei as (? & [= <-] & Hin).
      eexists. split; [done|]. simpl. eexists. split; [by apply proxy_roundtrip|done].
    + injection H as <-. apply IH in Ei. by destruct (identity_tls fuel (ppt_socket w)); [destruct Ei as (? & ? & ?)|].
  - destruct (String.eqb_spec name TransportSocketTls) as [->|Ht].
    + destruct typed as [a|]; [|done]. simpl. destruct (Unmarshal_Tls a) as [|tls]; [done|].
      destruct (Marshal_Tls _) as [|config] eqn:Em; [done|]. injection H as <-.
      eexists. split; [done|]. simpl. eexists _, _. split; [by apply tls_roundtrip|done].
    + injection H as <-. simpl. destruct typed; [|done].
      by rewrite (proj2 (String.eqb_neq _ _) Ht), (proj2 (String.eqb_neq _ _) Hp).
Qed.

Definition replaced (r : option (TransportSocket Any)) (s : option (TransportSocket Any)) : option (TransportSocket Any) :=
  match r with Some s' => Some s' | None => s end.

Lemma matches_injected cert ms ms' md :
  inject_matches cert ms = inr ms' →
  match List.find (hits md) ms with
  | Some x => ∃ r x', injectGatewayBackendClientCertificate (sm_socket x) cert = inr r ∧
                List.find (hits md) ms' = Some x' ∧ sm_socket x' = replaced r (sm_socket x)
  | None => List.find (hits md) ms' = None
  end.
Proof.
  revert ms'. induction ms as [|x ms IH]; intros ms' H; simpl in H; [by injection H as <-|].
  destruct (injectGatewayBackendClientCertificate (sm_socket x) cert) as [|r] eqn:Er; [done|].
  destruct (inject_matches cert ms) as [|ms1] eqn:Em; [done|]. injection H as <-. simpl.
  unfold hits at 1 3 5. simpl. destruct (matches (default ∅ (sm_match x)) md); [|by apply IH].
  eexists r, _. done.
Qed.

(** The certificate reaches the socket of every endpoint. *)
Lemma selected_certified out b out' cert md :
  bo_client_cert b = Some cert → applyGatewayBackendClientCertificate out b = inr out' →
  (gatewayIdentityTLS (selected out md) = true → presents (selected out' md) cert) ∧
  (gatewayIdentityTLS (selected out' md) = true → presents (selected out' md) cert).
Proof.
  intros Hc H. unfold applyGatewayBackendClientCertificate in H. rewrite Hc in H.
  destruct (injectGatewayBackendClientCertificate (c_socket out) cert) as [|r0] eqn:E0; [done|].
  destruct (inject_matches cert (c_matches out)) as [|ms] eqn:Em; [done|]. injection H as <-.
  apply (matches_injected cert _ _ md) in Em.
  assert (∃ r, injectGatewayBackendClientCertificate (selected out md) cert = inr r ∧
    selected (with_sockets (replaced r0 (c_socket out)) ms out) md = replaced r (selected out md)) as (r & Hr & Hsel).
  { unfold selected. simpl. destruct (List.find (hits md) (c_matches out)) as [x|].
    - destruct Em as (r & x' & Hr & -> & Hx). eauto.
    - rewrite Em. eauto. }
  unfold replaced in Hsel at 1. rewrite Hsel. apply inject_spec in Hr. unfold gatewayIdentityTLS, presents.
  destruct (identity_tls socket_depth (selected out md)) eqn:Ei.
  - destruct Hr as (s' & -> & Hp). done.
  - subst r. split; [done|]. intros Ht. change (identity_tls socket_depth (selected out md) = true) in Ht. congruence.
Qed.

Lemma base_certified t m b base m' cert md :
  base_of t m b = (base, m') → bo_client_cert b = Some cert →
  gatewayIdentityTLS (selected (b_cluster base) md) = true → presents (selected (b_cluster base) md) cert.
Proof.
  intros [(e & -> & _)|([_ _ _ (out0 & out1 & defaulted & inline & _ & out & Ha & ->)] & _ & _)]%base_cases Hc; [done|].
  assert (∀ r : BaseCluster P Any V, selected (b_cluster (complete_base keys t b r)) md = selected (b_cluster r) md) as Hs.
  { intros r. unfold complete_base. destruct (b_endpoint_inputs r); [|done]. by destruct (NeedsInlineCLA r && _). }
  rewrite Hs. simpl. by eapply selected_certified.
Qed.

(** C22: With a client certificate of the Gateway, an endpoint the base reaches by TLS is reached
    by TLS in the cluster of every client, whatever the plugins did to it, and every such
    connection presents that certificate and no other; otherwise the translation for the
    client reports an error and yields the cluster without endpoints. *)
Theorem gateway_identity_kept t m b base m1 m2 ucc r cert md :
  base_of t m b = (base, m1) → client_of t m2 ucc b base = Some r → b_error base = None →
  bo_client_cert b = Some cert →
  (r.1.2 ≠ None ∧ client_cluster base r = buildBlackholeCluster b) ∨
  (gatewayIdentityTLS (selected (b_cluster base) md) = true → presents (selected (client_cluster base r) md) cert) ∧
  (gatewayIdentityTLS (selected (client_cluster base r) md) = true → presents (selected (client_cluster base r) md) cert).
Proof.
  intros Hb Hc He Hcert. pose proof (base_certified _ _ _ _ _ _ md Hb Hcert) as Hbase.
  apply client_cases in Hc as [(-> & _ & _)|[[Hr ?]|(out & a & _ & Hf)]]; [by right| | |done].
  - left. split; [done|]. unfold client_cluster. by rewrite Hr.
  - destruct r as [[res err] m']. apply finish_cases in Hf as [[? ->]|(-> & out' & -> & [?|Hg] & Ha & _)]; [by left|congruence|].
    right. destruct (selected_certified _ _ _ _ md Hcert Ha) as [H1 H2].
    split; [|exact H2]. intros Htls. apply H1. by eapply guard_sound.
Qed.

(** ** What is shared *)

Lemma inject_again fuel s cert r :
  inject_at fuel s cert = inr r → inject_at fuel (replaced r s) cert = inr r.
Proof.
  revert s r. induction fuel as [|fuel IH]; intros s r H; [done|]. simpl in H.
  destruct s as [[name typed]|]; [|by injection H as <-].
  destruct (String.eqb name proxyProtocolSocketName) eqn:Hp.
  - destruct typed as [a|]; [|done]. destruct (Unmarshal_Proxy a) as [|w] eqn:Ew; [done|].
    destruct (inject_at fuel (ppt_socket w) cert) as [|[inner|]] eqn:Ei; [done| |].
    + destruct (Marshal_Proxy _) as [|config] eqn:Em; [done|]. injection H as <-. simpl. rewrite Hp.
      rewrite (proxy_roundtrip _ _ Em). simpl. apply IH in Ei. simpl in Ei. by rewrite Ei, Em.
    + injection H as <-. simpl. by rewrite Hp, Ew, Ei.
  - destruct (String.eqb name TransportSocketTls) eqn:Ht.
    + destruct typed as [a|]; [|done]. destruct (Unmarshal_Tls a) as [|tls]; [done|].
      destruct (Marshal_Tls _) as [|config] eqn:Em; [done|]. injection H as <-. simpl. rewrite Hp, Ht.
      rewrite (tls_roundtrip _ _ Em). change (certified cert (certified cert tls)) with (certified cert tls). by rewrite Em.
    + injection H as <-. simpl. by rewrite Hp, Ht.
Qed.

Lemma inject_matches_again cert (ms ms' : list (SocketMatch Any V)) :
  inject_matches cert ms = inr ms' → inject_matches cert ms' = inr ms'.
Proof.
  revert ms'. induction ms as [|x ms IH]; intros ms' H; simpl in H; [by injection H as <-|].
  destruct (injectGatewayBackendClientCertificate (sm_socket x) cert) as [|r] eqn:Er; [done|].
  destruct (inject_matches cert ms) as [|ms1] eqn:Em; [done|]. injection H as <-. simpl.
  apply inject_again in Er as Er2. unfold replaced in Er2. unfold injectGatewayBackendClientCertificate.
  rewrite Er2, (IH _ eq_refl). do 2 f_equal. f_equal. by destruct r.
Qed.

Lemma certificate_again (out out' : Cluster Any V) b :
  applyGatewayBackendClientCertificate out b = inr out' → applyGatewayBackendClientCertificate out' b = inr out'.
Proof.
  unfold applyGatewayBackendClientCertificate. destruct (bo_client_cert b) as [cert|]; [|done].
  destruct (injectGatewayBackendClientCertificate (c_socket out) cert) as [|r] eqn:Er; [done|].
  destruct (inject_matches cert (c_matches out)) as [|ms] eqn:Em; [done|]. intros [= <-]. simpl.
  apply inject_again in Er as Er2. unfold replaced in Er2. unfold injectGatewayBackendClientCertificate.
  rewrite Er2, (inject_matches_again _ _ _ Em). f_equal. unfold with_sockets. simpl. f_equal. by destruct r.
Qed.

Lemma certificate_keeps (out out' : Cluster Any V) b :
  applyGatewayBackendClientCertificate out b = inr out' →
  out' = with_sockets (c_socket out') (c_matches out') out.
Proof.
  unfold applyGatewayBackendClientCertificate. destruct (bo_client_cert b) as [cert|]; [|intros [= <-]; by destruct out].
  destruct (injectGatewayBackendClientCertificate (c_socket out) cert) as [|r]; [done|].
  destruct (inject_matches cert (c_matches out)) as [|ms]; [done|]. by intros [= <-].
Qed.

(** Taking the default locality mode off and putting it back. *)
Lemma locality_restored (out0 out1 c : Cluster Any V) :
  defaultLocalityConfig out0 = (out1, true) →
  c_lb_policy c = c_lb_policy out1 → c_eds c = c_eds out1 → c_common_lb c = c_common_lb out1 →
  (defaultLocalityConfig (removeDefaultedLocalityConfig c)).1 = c.
Proof.
  unfold defaultLocalityConfig at 1. destruct (c_lb_policy out0) eqn:Ep; [done|].
  destruct (lb ← c_common_lb out0; clc_locality lb) eqn:El; [done|]. destruct (c_eds out0) eqn:Ee; [|done].
  intros [= <-]. simpl. rewrite Ep, Ee. intros Hp He Hl. unfold removeDefaultedLocalityConfig. rewrite Hl. simpl.
  unfold defaultLocalityConfig. destruct c as [n d eds lb p asg so ms po re]. simpl in *. subst.
  destruct (c_common_lb out0) as [[l pan w cl r]|]; [|done]. simpl in *. by destruct pan, w, cl, r.
Qed.

Lemma bypass_same (l : list (SocketMatch Any V)) : plaintext_bypass true l l = false.
Proof.
  induction l as [|x l IH]; [done|]. simpl. rewrite bool_decide_eq_true_2 by done. simpl. rewrite IH.
  by destruct (gatewayIdentityTLS (sm_socket x)).
Qed.

Lemma socket_for_same (c : Cluster Any V) x :
  NoDup (sm_match <$> c_matches c) → x ∈ c_matches c → socket_for c x = sm_socket x.
Proof.
  intros Hnd Hx. unfold socket_for.
  destruct (List.find (λ after, bool_decide (sm_match after = sm_match x)) (c_matches c)) as [y|] eqn:Ey.
  - apply find_some in Ey as [Hy%list_elem_of_In Heq%bool_decide_eq_true].
    by rewrite (NoDup_key_inj sm_match _ _ _ Hnd Hy Hx Heq).
  - apply list_elem_of_In, (find_none _ _ Ey) in Hx. by rewrite bool_decide_eq_true_2 in Hx.
Qed.

Lemma guard_same (c : Cluster Any V) :
  NoDup (sm_match <$> c_matches c) → validateGatewayClientIdentityOverlay c c = None.
Proof.
  intros Hnd. unfold validateGatewayClientIdentityOverlay. rewrite andb_negb_r, bypass_same, andb_false_r.
  destruct (existsb _ (c_matches c)) eqn:E; [|done].
  apply existsb_exists in E as (x & Hx%list_elem_of_In & H). rewrite (socket_for_same _ _ Hnd Hx), andb_negb_r in H. done.
Qed.

(** The shape of a base without an error. *)
Lemma base_shape t b out inline defaulted base :
  base = complete_base keys t b
    (mkBase out (endpoint_inputs b <$> inline) (clusterSupportsInlineCLA out) defaulted false None) →
  (∃ a, b_cluster base = with_assignment a out) ∧ b_defaulted_locality base = defaulted ∧
  b_supports_inline base = clusterSupportsInlineCLA (b_cluster base) ∧
  (b_generated_cla base = true → clusterSupportsInlineCLA (b_cluster base) = true).
Proof.
  intros ->. unfold complete_base. simpl. destruct inline as [inputs|]; simpl.
  - destruct (NeedsInlineCLA _ && _) eqn:E; simpl.
    + apply andb_true_iff in E as [E _]. unfold NeedsInlineCLA in E. simpl in E.
      repeat (apply andb_true_iff in E as [E ?]). eauto.
    + repeat split; [|done]. exists (c_load_assignment out). by destruct out.
  - repeat split; [|done]. exists (c_load_assignment out). by destruct out.
Qed.

Lemma overlaid_nothing base :
  (b_generated_cla base = true → clusterSupportsInlineCLA (b_cluster base) = true) →
  overlaid base [] =
    if b_defaulted_locality base then removeDefaultedLocalityConfig (b_cluster base) else b_cluster base.
Proof.
  intros Hg. unfold overlaid. simpl. set (c := if b_defaulted_locality base then _ else _).
  assert (clusterSupportsInlineCLA c = clusterSupportsInlineCLA (b_cluster base)) as Hs.
  { unfold c, removeDefaultedLocalityConfig. destruct (b_defaulted_locality base); [|done]. by destruct (c_common_lb _). }
  destruct (c_load_assignment c) as [[cla []]|]; [|done..]. rewrite Hs.
  destruct (b_generated_cla base); [|done]. by rewrite Hg.
Qed.

(** A client that no plugin singles out may use the shared base: going through the whole
    per-client phase would hand the same cluster to the final validation. *)
Theorem shared_base_exact t m b base m' :
  base_of t m b = (base, m') → b_error base = None → NeedsInlineCLA base = false →
  NoDup (sm_match <$> c_matches (b_cluster base)) →
  let out := if b_defaulted_locality base then (defaultLocalityConfig (overlaid base [])).1 else overlaid base [] in
  out = b_cluster base ∧
  (clusterSupportsInlineCLA (overlaid base []) = true → c_load_assignment (overlaid base []) = None →
   b_endpoint_inputs base = None) ∧
  validateGatewayClientIdentityOverlay (b_cluster base) out = None ∧
  applyGatewayBackendClientCertificate out b = inr (b_cluster base).
Proof.
  intros [(e & -> & _)|([_ _ _ (out0 & out1 & defaulted & inline & Hd & out & Ha & Hb)] & _ & _)]%base_cases He Hn Hnd; [done|].
  destruct (base_shape _ _ _ _ _ _ Hb) as ((a & Hc) & Hdef & Hsup & Hgen). pose proof (overlaid_nothing _ Hgen) as Hover.
  apply certificate_keeps in Ha as Hkeep. apply certificate_again in Ha.
  assert ((if b_defaulted_locality base then (defaultLocalityConfig (overlaid base [])).1 else overlaid base []) = b_cluster base)
    as Hout.
  { rewrite Hover, Hdef. destruct defaulted; [|done]. eapply locality_restored; [exact Hd|..]; by rewrite Hc, Hkeep. }
  simpl. rewrite Hout. split; [done|]. split; [|split; [by apply guard_same|]].
  - rewrite Hover. assert (clusterSupportsInlineCLA (if b_defaulted_locality base then removeDefaultedLocalityConfig (b_cluster base)
      else b_cluster base) = b_supports_inline base ∧ c_load_assignment (if b_defaulted_locality base then
      removeDefaultedLocalityConfig (b_cluster base) else b_cluster base) = c_load_assignment (b_cluster base)) as [-> ->].
    { rewrite Hsup. unfold removeDefaultedLocalityConfig. destruct (b_defaulted_locality base), (c_common_lb (b_cluster base)); done. }
    intros Hs Hl. unfold NeedsInlineCLA in Hn. rewrite He, Hs, Hl in Hn. simpl in Hn. by destruct (b_endpoint_inputs base).
  - rewrite Hc. unfold applyGatewayBackendClientCertificate in *. simpl.
    destruct (bo_client_cert b) as [cert|]; [|done].
    destruct (injectGatewayBackendClientCertificate (c_socket out) cert) as [|r]; [done|].
    destruct (inject_matches cert (c_matches out)) as [|ms]; [done|]. injection Ha as Ha.
    f_equal. by rewrite <- Ha at 2.
Qed.

(** ** Load assignments that are shared *)

(** The contract of the hook that rules a backend out: the plugin contributes nothing. *)
Definition hooks_honest (plugins : list (EndpointPlugin P)) b : Prop :=
  ∀ p ucc s, p ∈ plugins → MayApply p b = false →
    ∃ s', process encode_endpoint iter_eps p ucc s = Some (0%Z, s') ∧ eir_inputs s' = eir_inputs s.

Lemma ruled_out_loop ucc plugins b s hs has :
  hooks_honest plugins b → existsb (λ p, MayApply p b) plugins = false →
  ∃ s', foldM (resolve_step encode_endpoint iter_eps ucc) (s, hs, has) plugins = Some (s', hs, has) ∧
    eir_inputs s' = eir_inputs s.
Proof.
  revert s. induction plugins as [|p plugins IH]; intros s Hh He; [by exists s|]. simpl in He.
  apply orb_false_iff in He as [Hp He]. destruct (Hh p ucc s) as (s1 & H1 & Hi); [by left|done|].
  destruct (IH s1) as (s2 & H2 & Hi2); [by intros q u s0 Hq; apply Hh; right|done|].
  exists s2. simpl. rewrite H1. simpl. rewrite H2. split; [done|congruence].
Qed.

Lemma prioritize_any_client ucc1 ucc2 inputs :
  DependsOnClient inputs = false → PrioritizeEndpoints keys ucc1 inputs = PrioritizeEndpoints keys ucc2 inputs.
Proof.
  unfold DependsOnClient, PrioritizeEndpoints, loadBalancingInfoFor. destruct (ResolvedPriorityInfo inputs); [done|].
  intros _. unfold prioritizeWithLbInfo. simpl. f_equal.
Qed.

(** A load assignment that is built once on the shared base is the one every client would
    get: no endpoint plugin applies to the backend and the priorities do not read the client. *)
Theorem shared_assignment_exact t m b base m' ucc :
  base_of t m b = (base, m') → b_generated_cla base = true → hooks_honest (orderedEndpointPlugins t) b →
  ∃ inputs r, b_endpoint_inputs base = Some inputs ∧
    ResolveEndpointInputs encode_endpoint iter_eps ucc inputs (orderedEndpointPlugins t) = Some r ∧
    c_load_assignment (b_cluster base) = Some (mkLA (PrioritizeEndpoints keys ucc (priority_inputs r.1)) true).
Proof.
  intros [(e & -> & _)|([_ _ _ (out0 & out1 & defaulted & inline & Hd & out & Ha & Hb)] & _ & _)]%base_cases Hg Hh; [done|].
  subst base. unfold complete_base in *. simpl in *. destruct inline as [row|]; simpl in *; [|done].
  set (inputs := endpoint_inputs b row) in *. destruct (NeedsInlineCLA _ && _) eqn:E; [|done].
  apply andb_true_iff in E as [_ E%negb_true_iff]. unfold inlineCLADependsOnClient in E.
  apply orb_false_iff in E as [Hp Hm].
  destruct (ruled_out_loop ucc _ b (NewEndpointInputsResolver inputs) (h_new fnv64a) false Hh Hm) as (s' & Hl & Hi).
  exists inputs, (eir_inputs s', 0%Z). split; [done|]. unfold ResolveEndpointInputs. rewrite Hl. split; [done|].
  simpl. rewrite Hi. simpl. by rewrite (prioritize_any_client ucc zero_client).
Qed.
End base.

(** ** Examples *)

Inductive ex_any :=
| XText (s : string)
| XTls (c : UpstreamTlsContext ex_any)
| XProxy (w : ProxyProtocolTransport ex_any)
| XDns (d : DnsCluster ex_any).

#[local] Instance ex_transport : TransportLib ex_any := {|
  Unmarshal_Tls a := match a with XTls c => inr c | _ => inl (EMsg "not a TLS context") end;
  Marshal_Tls c := inr (XTls c);
  Unmarshal_Proxy a := match a with XProxy w => inr w | _ => inl (EMsg "not a PROXY context") end;
  Marshal_Proxy w := inr (XProxy w);
  Unmarshal_Dns a := match a with XDns d => inr d | _ => inl (EMsg "not a DNS cluster") end;
  Marshal_Dns d := inr (XDns d)
|}.
#[local] Instance ex_transport_laws : TransportLaws (Any := ex_any).
Proof. by split; intros c a [= <-]. Qed.

Abbreviation ex_cluster := (Cluster ex_any string).

(** An Envoy that rejects clusters by the name [bad]. *)
#[local] Instance ex_cluster_lib : EnvoyLib ex_any unit ex_cluster := {|
  router_ToAny := inr (XText "router");
  hcm_ToAny _ := inr (XText "hcm");
  UnmarshalTo_UpstreamTls _ := None;
  Validate b := if existsb (λ c, String.eqb (ec_name c) "bad") (bs_clusters b) then Some (ECachedInvalid "bad") else None
|}.

Definition ex_tls (chain : string) : TransportSocket ex_any :=
  mkTS TransportSocketTls (Some (XTls (mkUTC (Some (mkCTC [(InlineString chain, InlineString chain)] [mkSds "sds" None] None [] None None)) "" false None))).
Definition ex_wrapped (s : TransportSocket ex_any) : TransportSocket ex_any :=
  mkTS proxyProtocolSocketName (Some (XProxy (mkPPT (Some s) None None))).

(** A static cluster with TLS behind a PROXY wrapper and its endpoints inline. *)
Definition ex_init : InitEnvoyBackend (P := unit) (Any := ex_any) (V := string) :=
  λ _ c, (with_sockets (Some (ex_wrapped (ex_tls "own"))) [mkSM "" (Some {["tls" := "off"]}) None]
            (with_discovery (Some (DType STATIC)) c), Some ex_row).

Definition ex_hooks (o : option (UniquelyConnectedClient → BackendObjectIR unit → option (option (ex_cluster → ex_cluster)))) :
    BackendHooks unit ex_any string := mkBH None None o None None (mkEH "overlay" None None None).
Definition ex_translator (o : option (UniquelyConnectedClient → BackendObjectIR unit → option (option (ex_cluster → ex_cluster)))) :
    BackendTranslator unit ex_any string :=
  mkBT {[mkGK "" "Service" := Some ex_init]} [(mkGK "g" "Overlay", ex_hooks o)] None None true ValidationStrict.

Definition ex_backend : BackendObjectIR unit :=
  mkBackend (mkOS "" "Service" "ns" "svc") 80 "" "" "" "" None [] "" false (bo_policies ex_us) [] TDAny false "svc" "svc"
    (Some (mkCert "ca" "key" "chain")) [].

(** Plugins for the client [role]: one that keeps TLS, one that drops it. *)
Definition ex_keeps_tls (ucc : UniquelyConnectedClient) (_ : BackendObjectIR unit) : option (option (ex_cluster → ex_cluster)) :=
  if String.eqb (ucc_role ucc) "role" then Some (Some (λ c, with_sockets (Some (ex_tls "other")) (c_matches c) c)) else None.
Definition ex_drops_tls (ucc : UniquelyConnectedClient) (_ : BackendObjectIR unit) : option (option (ex_cluster → ex_cluster)) :=
  Some (Some (with_sockets None [])).

Definition ex_encode_cluster (c : ex_cluster) : error + string := inr (c_name c).
Definition ex_base o m := TranslateBackendBase (Hdr := unit) (XText "h2") ex_encode_cluster (λ g, (map_to_list g).*1)
  (ex_translator o) m ex_backend.
Definition ex_client o m base := ApplyPerClient (Hdr := unit) ex_encode_cluster (λ g, (map_to_list g).*1) ex_encode ex_iter_eps
  (ex_translator o) m ex_ucc ex_backend base.

(** The match [off] selects endpoints that ask for it. *)
Definition ex_matches (m : gmap string string) (off : bool) : bool := bool_decide (m = ∅) || off.
Lemma ex_empty_matches off : ex_matches ∅ off = true.
Proof. done. Qed.

Lemma base_cluster_fails_closed_witness :
  let r := ex_base (Some ex_keeps_tls) None in
  b_error r.1 = None ∧ bo_errors ex_backend = [] ∧ ¬ invalid_policy (ex_translator (Some ex_keeps_tls)) ex_backend.
Proof.
  split; [by vm_compute|].
  assert (b_error (ex_base (Some ex_keeps_tls) None).1 = None) as He by by vm_compute.
  pose proof (base_cluster_fails_closed (Hdr := unit) (XText "h2") ex_encode_cluster (λ g, (map_to_list g).*1)
    ex_encode ex_iter_eps (ex_translator (Some ex_keeps_tls)) None ex_backend _ _ (surjective_pairing (ex_base (Some ex_keeps_tls) None))) as H.
  rewrite He in H. apply H.
Defined.

(** The plugin replaced the socket, and the certificate of the Gateway is presented anyway;
    where the plugin drops TLS, the client gets no endpoints. *)
Lemma gateway_identity_kept_witness :
  let base := (ex_base (Some ex_keeps_tls) None).1 in
  (∃ r, ex_client (Some ex_keeps_tls) None base = Some r ∧
     presents (selected (Md := bool) ex_matches (client_cluster base r) false) (mkCert "ca" "key" "chain")) ∧
  ∃ r, ex_client (Some ex_drops_tls) None base = Some r ∧ client_cluster base r = buildBlackholeCluster ex_backend.
Proof.
  simpl. split.
  - destruct (ex_client (Some ex_keeps_tls) None (ex_base (Some ex_keeps_tls) None).1) as [r|] eqn:E; [|by vm_compute in E].
    exists r. split; [done|].
    edestruct (gateway_identity_kept (Hdr := unit) (XText "h2") ex_encode_cluster (λ g, (map_to_list g).*1)
      ex_encode ex_iter_eps ex_matches ex_empty_matches (ex_translator (Some ex_keeps_tls)) None ex_backend
      _ _ None ex_ucc r (mkCert "ca" "key" "chain") false (surjective_pairing (ex_base (Some ex_keeps_tls) None)) E)
      as [[Hr _]|[Hp _]]; [by vm_compute|done| |].
    + vm_compute in E. by injection E as <-.
    + apply Hp. by vm_compute.
  - eexists. split; [by vm_compute|done].
Defined.

Lemma shared_base_exact_witness :
  let base := (ex_base None None).1 in
  NeedsInlineCLA base = false ∧ overlaid base [] = b_cluster base ∧
  applyGatewayBackendClientCertificate (overlaid base []) ex_backend = inr (b_cluster base).
Proof.
  simpl. assert (b_defaulted_locality (ex_base None None).1 = false) as Hd by by vm_compute.
  assert (NeedsInlineCLA (ex_base None None).1 = false) as Hn by by vm_compute.
  assert (sm_match <$> c_matches (b_cluster (ex_base None None).1) = [Some {["tls" := "off"]}]) as Hm by by vm_compute.
  edestruct (shared_base_exact (Hdr := unit) (XText "h2") ex_encode_cluster (λ g, (map_to_list g).*1)
    (ex_translator None) None ex_backend _ _ (surjective_pairing (ex_base None None))) as (H1 & _ & _ & H2);
    [by vm_compute|exact Hn|rewrite Hm; apply NoDup_singleton|].
  rewrite Hd in H1, H2. split; [exact Hn|]. split; [exact H1|exact H2].
Defined.

Lemma shared_assignment_exact_witness :
  let base := (ex_base None None).1 in
  b_generated_cla base = true ∧
  ∃ inputs r, b_endpoint_inputs base = Some inputs ∧
    ResolveEndpointInputs ex_encode ex_iter_eps ex_ucc inputs [] = Some r ∧
    c_load_assignment (b_cluster base) = Some (mkLA (PrioritizeEndpoints (λ g, (map_to_list g).*1) ex_ucc (priority_inputs r.1)) true).
Proof.
  simpl. assert (b_generated_cla (ex_base None None).1 = true) as Hg by by vm_compute. split; [done|].
  apply (shared_assignment_exact (Hdr := unit) (XText "h2") ex_encode_cluster (λ g, (map_to_list g).*1)
    ex_encode ex_iter_eps (ex_translator None) None ex_backend _ _ ex_ucc (surjective_pairing (ex_base None None)) Hg).
  intros p ucc s Hp. by apply elem_of_nil in Hp.
Defined.

(** Two matches with the same predicate, of which the first is plaintext: the guard reports a
    removed TLS match although nothing was changed. *)
Theorem guard_rejects_unchanged_duplicates :
  let c := mkCluster "svc" None None None None None None
             [mkSM "" (Some {["k" := "v"]}) None; mkSM "" (Some {["k" := "v"]}) (Some (ex_tls "own"))] ∅ no_settings in
  validateGatewayClientIdentityOverlay c c ≠ None.
Proof. by vm_compute. Qed.
