(* ===== verification/BackendConfigPolicy.v ===== *)
(** * BackendConfigPolicy (extensions2/plugins/backendconfigpolicy, api/v1alpha1/kgateway/backend_config_policy_types.go)

    The settings a BackendConfigPolicy puts on the cluster of a backend: translation of the
    resource into messages, the merge of the policies attached to one backend, the strict
    validation of a policy on a cluster of its own, and the hook that changes the cluster.

    Messages are packed and unpacked through the class [ConfigLib]; a failure to pack or to
    unpack is logged by the source and leaves what was there.  The translated policy is an
    object that all the clusters it is attached to share, and the hook writes to it in one
    place (the load balancing policy of a cluster that cannot hash hostnames), so the hook
    returns the policy beside the cluster.  Durations are nanoseconds, [uint32] of a 32-bit
    integer wraps.  Conversion of a keepalive duration goes through a floating point number of
    seconds in the source, which is exact for the durations the API admits (milliseconds, at
    most five digits per unit). *)

From S2P Require Import Prelude IR PolicyMerge References PolicyIndex Endpoints Hashing GatewayIndex SslUtils EnvoyRoute ValidatorCache EndpointEditor BackendCluster.

(** ** The resource *)

Module Api.

Record ConnectionKeepalive := mkConnKeepalive {
  ck_timeout : Z; ck_interval : option Z; ck_idle_interval : option Z }.

Record CommonHttpProtocolOptions := mkCommonHttp {
  ch_idle_timeout : option Z; ch_max_connection_duration : option Z; ch_max_headers : option Z;
  ch_max_stream_duration : option Z; ch_max_requests : option Z }.

Record Http1ProtocolOptions := mkHttp1 {
  h1_trailers : option bool; h1_preserve_case : option bool; h1_override_error : option bool }.

Record Http2ProtocolOptions := mkHttp2 {
  h2_stream_window : option Z; h2_connection_window : option Z; h2_max_streams : option Z;
  h2_override_error : option bool; h2_keepalive : option ConnectionKeepalive }.

Record TCPKeepalive := mkTcp { tk_probes : option Z; tk_time : option Z; tk_interval : option Z }.

Record TLSParameters := mkParams {
  pm_min : option string; pm_max : option string; pm_ciphers : list string; pm_curves : list string;
  pm_signatures : list string }.

Record TLSFiles := mkFiles { tf_cert : option string; tf_key : option string; tf_root : option string }.

(** [tls_secret]: the name of the referenced Secret. *)
Record TLS := mkTLS {
  tls_secret : option string; tls_files : option TLSFiles; tls_well_known : option string; tls_insecure : option bool;
  tls_sni : option string; tls_sans : list string; tls_params : option TLSParameters; tls_alpn : list string;
  tls_renegotiation : option bool; tls_simple : option bool }.

Record SlowStart := mkSlow { sl_window : option Z; sl_aggression : option string; sl_min_weight : option Z }.

Record Cookie := mkCookie {
  ck_name : string; ck_path : option string; ck_ttl : option Z; ck_secure : option bool; ck_http_only : option bool;
  ck_same_site : option string }.

(** [hp_source_ip]: whether the empty struct is present. *)
Record HashPolicy := mkHash {
  hp_header : option string; hp_cookie : option Cookie; hp_source_ip : bool; hp_terminal : option bool }.

Record LeastRequest := mkLeast { lr_choices : Z; lr_slow_start : option SlowStart }.
Record RoundRobin := mkRound { rr_slow_start : option SlowStart }.
Record RingHash := mkRing {
  rh_min : option Z; rh_max : option Z; rh_use_hostname : option bool; rh_policies : list HashPolicy }.
Record Maglev := mkMaglev { mg_use_hostname : option bool; mg_policies : list HashPolicy }.

(** [pl_force]: present, with its threshold. *)
Record ZoneAwarePreferLocal := mkPrefer {
  pl_force : option (option Z); pl_min_endpoints : option Z; pl_routing_enabled : option Z }.

(** [lb_zone_aware]: present, with its [preferLocal]. *)
Record LoadBalancer := mkLB {
  lb_panic : option Z; lb_merge_window : option Z; lb_least_request : option LeastRequest;
  lb_round_robin : option RoundRobin; lb_ring_hash : option RingHash; lb_maglev : option Maglev; lb_random : bool;
  lb_locality_type : option string; lb_zone_aware : option (option ZoneAwarePreferLocal); lb_close : option bool }.

Record HealthCheckHttp := mkHttpCheck { hh_host : option string; hh_path : string; hh_method : option string }.
Record HealthCheckGrpc := mkGrpcCheck { hg_service : option string; hg_authority : option string }.
Record HealthCheck := mkCheck {
  hk_timeout : Z; hk_interval : Z; hk_unhealthy : Z; hk_healthy : Z; hk_http : option HealthCheckHttp;
  hk_grpc : option HealthCheckGrpc }.

Record OutlierDetection := mkOutlier {
  ol_5xx : option Z; ol_enforcing_5xx : option Z; ol_split : option bool; ol_local : option Z;
  ol_enforcing_local : option Z; ol_interval : option Z; ol_ejection_time : option Z; ol_ejection_percent : option Z }.

Record CircuitBreakers := mkBreakers {
  cb_connections : option Z; cb_pending : option Z; cb_requests : option Z; cb_retries : option Z;
  cb_track : option bool }.

Record DNS := mkDNS { dn_refresh : option Z; dn_jitter : option Z; dn_respect_ttl : option bool }.

(** The resource: its creation time, name and namespace, and its spec; the targets are those of
    the policy index.  [bs_proxy_protocol]: present, with its version. *)
Record BackendConfigPolicy := mkBCP {
  bs_created : Z; bs_name : string; bs_namespace : string;
  bs_connect_timeout : option Z; bs_dns : option DNS; bs_buffer_limit : option Z; bs_keepalive : option TCPKeepalive;
  bs_common_http : option CommonHttpProtocolOptions; bs_http1 : option Http1ProtocolOptions;
  bs_http2 : option Http2ProtocolOptions; bs_tls : option TLS; bs_load_balancer : option LoadBalancer;
  bs_health_check : option HealthCheck; bs_outlier : option OutlierDetection; bs_breakers : option CircuitBreakers;
  bs_proxy_protocol : option (option string) }.

End Api.

(** ** Messages *)

Section messages.
Context {Any Fl : Type}.

(** [envoycorev3.HttpProtocolOptions], [Http1ProtocolOptions], [Http2ProtocolOptions]. *)
Record HttpOptions := mkHO {
  ho_max_requests : option Z; ho_idle_timeout : option Z; ho_max_connection_duration : option Z; ho_max_headers : option Z;
  ho_max_stream_duration : option Z }.
Record Http1Options := mkH1 {
  o1_trailers : bool; o1_format : option (TypedExtensionConfig Any); o1_override_error : option bool }.
Record KeepaliveSettings := mkKS { ks_timeout : Z; ks_interval : option Z; ks_idle_interval : option Z }.
Record Http2Options := mkH2 {
  o2_max_streams : option Z; o2_stream_window : option Z; o2_connection_window : option Z; o2_override_error : option bool;
  o2_keepalive : option KeepaliveSettings }.

(** [envoy_upstreams_v3.HttpProtocolOptions]. *)
Inductive UpstreamProtocol :=
| ExplicitHttp1 (o : Http1Options)
| ExplicitHttp2 (o : Http2Options)
| OtherProtocol (a : Any).
Record HttpProtocolOptions := mkHPO {
  hpo_common : option HttpOptions; hpo_upstream : option (UpstreamProtocol); hpo_rest : option Any }.

(** The messages of the load balancing extensions.  [Fl] is the type of doubles. *)
Record SlowStartConfig := mkSSC {
  ss_window : option Z; ss_min_weight : option Z; ss_aggression : option (Fl * string) }.
Record ZoneAwareLbConfig := mkZA { za_routing_enabled : Z; za_min_cluster_size : Z; za_force_min_size : option Z }.
Inductive LocalityLbConfig := ZoneAwareLb (c : ZoneAwareLbConfig) | LocalityWeightedLb.
Record HashCookie := mkHCookie {
  hck_name : string; hck_ttl : option Z; hck_path : string; hck_attributes : list (string * string) }.
Inductive HashSpecifier := HashHeader (name : string) | HashCookie_ (c : HashCookie) | HashConnection (sourceIp : bool).
Record RouteHashPolicy := mkRHP { rhp_terminal : bool; rhp_specifier : option HashSpecifier }.
Record ConsistentHashing := mkCH { cho_use_hostname : bool; cho_policies : list RouteHashPolicy }.
Inductive LbMessage :=
| LeastRequestMsg (choices : Z) (slow : option (SlowStartConfig)) (locality : option LocalityLbConfig)
| RoundRobinMsg (slow : option (SlowStartConfig)) (locality : option LocalityLbConfig)
| RingHashMsg (min max : option Z) (hashing : option ConsistentHashing) (weighted : bool)
| MaglevMsg (hashing : option ConsistentHashing) (weighted : bool)
| RandomMsg (locality : option LocalityLbConfig)
| OtherMsg.

End messages.
Arguments Http1Options : clear implicits.
Arguments UpstreamProtocol : clear implicits.
Arguments HttpProtocolOptions : clear implicits.
Arguments SlowStartConfig : clear implicits.
Arguments LbMessage : clear implicits.

(** The libraries: packing, parsing of numbers, the request methods, and the generated
    validation of circuit breakers. *)
Class ConfigLib (Any Fl : Type) := {
  Marshal_Lb : LbMessage Fl → error + Any;
  Unmarshal_Lb : Any → error + LbMessage Fl;
  Marshal_Http : HttpProtocolOptions Any → error + Any;
  Unmarshal_Http : Any → error + HttpProtocolOptions Any;
  Marshal_RawBuffer : error + Any;
  Marshal_PreserveCase : error + Any;
  ParseFloat : string → error + Fl;
  RequestMethod_value : gmap string Z;
  Validate_CircuitBreakers : list Thresholds → option error }.

(** What is packed unpacks to the same message. *)
Class ConfigLaws (Any Fl : Type) `{ConfigLib Any Fl} : Prop := {
  lb_roundtrip m a : Marshal_Lb m = inr a → Unmarshal_Lb a = inr m;
  http_roundtrip m a : Marshal_Http m = inr a → Unmarshal_Http a = inr m }.

(** [uint32] of a signed integer. *)
Definition u32 (z : Z) : Z := z mod 2 ^ 32.
Definition second : Z := 1000000000.

(** ** Translation *)

Section translate.
Context {Any Fl Cert : Type} `{FL : ConfigLib Any Fl} `{CL : CertLib Cert}.

(** [LoadBalancerConfigIR]. *)
Record LoadBalancerConfigIR := mkLBIR {
  lbi_common : CommonLbConfig Any; lbi_policy : option (list (TypedExtensionConfig Any)); lbi_use_hostname : bool;
  lbi_zone_aware : bool; lbi_force_min : option Z }.

Record BackendConfigPolicyIR := mkIR {
  bc_ct : Z; bc_connect_timeout : option Z; bc_buffer_limit : option Z; bc_keepalive : option TcpKeepalive;
  bc_common_http : option HttpOptions; bc_http1 : option (Http1Options Any); bc_http2 : option Http2Options;
  bc_tls : option (UpstreamTlsContext Any); bc_lb : option LoadBalancerConfigIR; bc_health_check : option HealthCheck;
  bc_outlier : option OutlierDetection; bc_breakers : option (list Thresholds); bc_dns_refresh : option Z;
  bc_dns_jitter : option Z; bc_respect_ttl : option bool; bc_proxy_protocol : option ProxyProtocolVersion }.

Definition zero_ir : BackendConfigPolicyIR :=
  mkIR 0 None None None None None None None None None None None None None None None.

(** *** Connections and protocols *)

Definition TranslateTCPKeepalive (k : Api.TCPKeepalive) : TcpKeepalive :=
  mkKeepalive (u32 <$> Api.tk_probes k) ((λ d, u32 (Z.quot d second)) <$> Api.tk_time k)
    ((λ d, u32 (Z.quot d second)) <$> Api.tk_interval k).

Definition translateCommonHttpProtocolOptions (c : Api.CommonHttpProtocolOptions) : HttpOptions :=
  mkHO (u32 <$> Api.ch_max_requests c) (Api.ch_idle_timeout c) (Api.ch_max_connection_duration c)
    (u32 <$> Api.ch_max_headers c) (Api.ch_max_stream_duration c).

Definition PreserveCasePlugin : string := "envoy.http.stateful_header_formatters.preserve_case".

Definition translateHttp1ProtocolOptions (h : Api.Http1ProtocolOptions) : error + Http1Options Any :=
  let trailers := default false (Api.h1_trailers h) in
  match Api.h1_preserve_case h with
  | Some true =>
      match Marshal_PreserveCase with
      | inl err => inl err
      | inr typedConfig => inr (mkH1 trailers (Some (mkTEC PreserveCasePlugin (Some typedConfig))) (Api.h1_override_error h))
      end
  | _ => inr (mkH1 trailers None (Api.h1_override_error h))
  end.

Definition translateHttp2ProtocolOptions (h : Api.Http2ProtocolOptions) : Http2Options :=
  mkH2 (u32 <$> Api.h2_max_streams h) (u32 <$> Api.h2_stream_window h) (u32 <$> Api.h2_connection_window h)
    (Api.h2_override_error h)
    ((λ k, mkKS (Api.ck_timeout k) (Api.ck_interval k) (Api.ck_idle_interval k)) <$> Api.h2_keepalive h).

(** *** TLS *)

Definition parseTLSVersion (v : string) : error + option TlsProtocol :=
  if String.eqb v "1.0" then inr (Some TLSv1_0) else if String.eqb v "1.1" then inr (Some TLSv1_1)
  else if String.eqb v "1.2" then inr (Some TLSv1_2) else if String.eqb v "1.3" then inr (Some TLSv1_3)
  else if String.eqb v "AUTO" then inr None
  else inl (EMsg ("invalid TLS version: " +:+ v)).

Definition parseTLSParameters (p : option Api.TLSParameters) : error + option TlsParameters :=
  match p with
  | None => inr None
  | Some p =>
      match parseTLSVersion (default "AUTO" (Api.pm_max p)), parseTLSVersion (default "AUTO" (Api.pm_min p)) with
      | inl err, _ => inl err
      | _, inl err => inl err
      | inr mx, inr mn => inr (Some (mkTlsParams mn mx (Api.pm_ciphers p) (Api.pm_curves p) (Api.pm_signatures p)))
      end
  end.

Definition verifySanListToTypedMatchSanList (sanList : list string) : list SanMatcher := map (mkSan SanDns) sanList.

Record tlsData := mkTlsData { td_chain : string; td_key : string; td_root : string; td_inline : bool }.

Definition extractFromSecret (secrets : SecretIndex) (name namespace : string) : error + tlsData :=
  match GetSecretWithoutRefGrant secrets name namespace with
  | inl err => inl err
  | inr secret =>
      inr (mkTlsData (data_get (sec_data secret) "tls.crt") (data_get (sec_data secret) "tls.key")
             (data_get (sec_data secret) "ca.crt") true)
  end.

Definition extractFromFiles (f : Api.TLSFiles) : tlsData :=
  mkTlsData (default "" (Api.tf_cert f)) (default "" (Api.tf_key f)) (default "" (Api.tf_root f)) false.

Definition extractTLSData (t : Api.TLS) (secrets : SecretIndex) (namespace : string) : error + tlsData :=
  match Api.tls_secret t, Api.tls_files t with
  | Some name, _ => extractFromSecret secrets name namespace
  | None, Some f => inr (extractFromFiles f)
  | None, None => inr (mkTlsData "" "" "" false)
  end.

(** [pluginutils.CleanedSslKeyPair]. *)
Definition CleanedSslKeyPair (certChain privateKey : string) : error + string :=
  match X509KeyPair certChain privateKey with
  | Some err => inl err
  | None => match ParseCertsPEM certChain with
            | inl err => inl err
            | inr certs => EncodeCertificates certs
            end
  end.

(** [pluginutils.InlineStringDataSource] and [FileDataSource]. *)
Definition data_source (inline : bool) (s : string) : DataSource := if inline then InlineString s else Filename s.

Definition with_certificates (cs : list (DataSource * DataSource)) (c : CommonTlsContext Any) : CommonTlsContext Any :=
  mkCTC cs (ctc_sds c) (ctc_params c) (ctc_alpn c) (ctc_validation c) (ctc_rest c).
Definition with_validation (v : UpstreamValidation Any) (c : CommonTlsContext Any) : CommonTlsContext Any :=
  mkCTC (ctc_certificates c) (ctc_sds c) (ctc_params c) (ctc_alpn c) (Some v) (ctc_rest c).

Definition buildCertificateContext (d : tlsData) (ctx : CommonTlsContext Any) : error + CommonTlsContext Any :=
  let noChain := String.eqb (td_chain d) "" in
  let noKey := String.eqb (td_key d) "" in
  if noChain && noKey then inr ctx
  else if noChain || noKey then
    inl (EMsg "invalid TLS config: for if providing a client certificate, both certChain and privateKey must be provided")
  else match CleanedSslKeyPair (td_chain d) (td_key d) with
       | inl err => inl (EWrap "invalid certificate and key pair: " err)
       | inr cleaned =>
           inr (with_certificates [(data_source (td_inline d) cleaned, data_source (td_inline d) (td_key d))] ctx)
       end.

Definition buildValidationContext (d : tlsData) (t : Api.TLS) (ctx : CommonTlsContext Any) : error + CommonTlsContext Any :=
  let sanMatchers := verifySanListToTypedMatchSanList (Api.tls_sans t) in
  if match Api.tls_well_known t with Some w => String.eqb w "System" | None => false end then
    inr (with_validation (CombinedValidationContext (mkCVC None sanMatchers None) (mkSds SystemCaSecretName None)) ctx)
  else if String.eqb (td_root d) "" then
    match sanMatchers with
    | [] => inr ctx
    | _ => inl (EMsg "a root_ca must be provided if verify_subject_alt_name is not empty")
    end
  else inr (with_validation (ValidationContext (mkCVC (Some (data_source (td_inline d) (td_root d))) sanMatchers None)) ctx).

Definition buildTLSContext (t : Api.TLS) (secrets : SecretIndex) (namespace : string) (ctx : CommonTlsContext Any) :
    error + CommonTlsContext Any :=
  match extractTLSData t secrets namespace with
  | inl err => inl (EWrap "failed to extract TLS data: " err)
  | inr d =>
      if default false (Api.tls_simple t) then buildValidationContext d t ctx
      else match buildCertificateContext d ctx with
           | inl err => inl err
           | inr ctx => buildValidationContext d t ctx
           end
  end.

Definition translateTLSConfig (secrets : SecretIndex) (t : Api.TLS) (namespace : string) :
    error + UpstreamTlsContext Any :=
  match parseTLSParameters (Api.tls_params t) with
  | inl err => inl err
  | inr params =>
      let ctx := mkCTC [] [] params (Api.tls_alpn t) None None in
      match (if default false (Api.tls_insecure t) then inr (with_validation (ValidationContext (mkCVC None [] None)) ctx)
             else buildTLSContext t secrets namespace ctx) with
      | inl err => inl err
      | inr ctx => inr (mkUTC (Some ctx) (default "" (Api.tls_sni t)) (default false (Api.tls_renegotiation t)) None)
      end
  end.

(** *** Load balancing *)

Definition defaultZoneAwareForceLocalZoneMinSize : Z := 1.
Definition defaultZoneAwareMinClusterSize : Z := 6.
Definition defaultZoneAwareRoutingEnabledPercent : Z := 100.

Definition zoneAwareForceThreshold (force : option Z) : Z := default defaultZoneAwareForceLocalZoneMinSize force.

Definition buildTypedZoneAwareLbConfig (zoneAware : option (option Api.ZoneAwarePreferLocal)) : option ZoneAwareLbConfig :=
  match zoneAware with
  | Some (Some p) =>
      Some (mkZA (default defaultZoneAwareRoutingEnabledPercent (Api.pl_routing_enabled p))
              (default defaultZoneAwareMinClusterSize (Api.pl_min_endpoints p))
              (zoneAwareForceThreshold <$> Api.pl_force p))
  | _ => None
  end.

(** The configuration is not nil where it is called. *)
Definition buildTypedLocalityLbConfig (c : Api.LoadBalancer) : LocalityLbConfig :=
  match buildTypedZoneAwareLbConfig (Api.lb_zone_aware c) with Some z => ZoneAwareLb z | None => LocalityWeightedLb end.

(** [toSlowStartConfig]: a number that does not parse drops the whole configuration. *)
Definition toSlowStartConfig (cfg : option Api.SlowStart) (name namespace : string) : option (SlowStartConfig Fl) :=
  cfg ← cfg;
  match Api.sl_aggression cfg with
  | None => Some (mkSSC (Api.sl_window cfg) (Api.sl_min_weight cfg) None)
  | Some a =>
      match ParseFloat a with
      | inl _ => None
      | inr v => Some (mkSSC (Api.sl_window cfg) (Api.sl_min_weight cfg)
                         (Some (v, name +:+ "." +:+ namespace +:+ ".slowStart.aggression")))
      end
  end.

Definition constructHashPolicy (ps : list Api.HashPolicy) : list RouteHashPolicy :=
  map (λ p,
    mkRHP (default false (Api.hp_terminal p))
      (match Api.hp_header p, Api.hp_cookie p, Api.hp_source_ip p with
       | Some name, _, _ => Some (HashHeader name)
       | None, Some c, _ =>
           Some (HashCookie_ (mkHCookie (Api.ck_name c) (Api.ck_ttl c) (default "" (Api.ck_path c))
             ((if default false (Api.ck_secure c) then [("Secure", "true")] else []) ++
              (if default false (Api.ck_http_only c) then [("HttpOnly", "true")] else []) ++
              (match Api.ck_same_site c with Some s => [("SameSite", s)] | None => [] end))))
       | None, None, true => Some (HashConnection true)
       | None, None, false => None
       end)) ps.

Definition lb_extension (name : string) (m : LbMessage Fl) : error + list (TypedExtensionConfig Any) :=
  match Marshal_Lb m with inl err => inl err | inr a => inr [mkTEC name (Some a)] end.

Definition buildLeastRequestPolicy (l : Api.LeastRequest) (c : Api.LoadBalancer) (name namespace : string) :
    error + list (TypedExtensionConfig Any) :=
  lb_extension "envoy.load_balancing_policies.least_request"
    (LeastRequestMsg (u32 (Api.lr_choices l)) (toSlowStartConfig (Api.lr_slow_start l) name namespace)
       (Some (buildTypedLocalityLbConfig c))).

Definition buildRoundRobinPolicy (r : Api.RoundRobin) (c : Api.LoadBalancer) (name namespace : string) :
    error + list (TypedExtensionConfig Any) :=
  lb_extension "envoy.load_balancing_policies.round_robin"
    (RoundRobinMsg (toSlowStartConfig (Api.rr_slow_start r) name namespace) (Some (buildTypedLocalityLbConfig c))).

(** The consistent hashing of a ring hash or Maglev configuration. *)
Definition hashing_config (useHostname : option bool) (ps : list Api.HashPolicy) : option ConsistentHashing :=
  match useHostname, ps with
  | None, [] => None
  | _, _ => Some (mkCH (default false useHostname) (constructHashPolicy ps))
  end.

Definition weighted_config (c : Api.LoadBalancer) : bool :=
  match Api.lb_locality_type c with Some _ => true | None => false end.

Definition buildRingHashPolicy (r : Api.RingHash) (c : Api.LoadBalancer) : error + list (TypedExtensionConfig Any) * bool :=
  match lb_extension "envoy.load_balancing_policies.ring_hash"
          (RingHashMsg (u64 <$> Api.rh_min r) (u64 <$> Api.rh_max r)
             (hashing_config (Api.rh_use_hostname r) (Api.rh_policies r)) (weighted_config c)) with
  | inl err => inl err
  | inr p => inr (p, default false (Api.rh_use_hostname r))
  end.

Definition buildMaglevPolicy (m : Api.Maglev) (c : Api.LoadBalancer) : error + list (TypedExtensionConfig Any) * bool :=
  match lb_extension "envoy.load_balancing_policies.maglev"
          (MaglevMsg (hashing_config (Api.mg_use_hostname m) (Api.mg_policies m)) (weighted_config c)) with
  | inl err => inl err
  | inr p => inr (p, default false (Api.mg_use_hostname m))
  end.

Definition buildRandomPolicy (c : Api.LoadBalancer) : error + list (TypedExtensionConfig Any) :=
  lb_extension "envoy.load_balancing_policies.random" (RandomMsg (Some (buildTypedLocalityLbConfig c))).

Definition no_hostname (r : error + list (TypedExtensionConfig Any)) : error + list (TypedExtensionConfig Any) * bool :=
  match r with inl err => inl err | inr p => inr (p, false) end.

(** The switch over the algorithms: the policy, if any is configured, and whether hostnames are hashed. *)
Definition lb_algorithm (c : Api.LoadBalancer) (name namespace : string) :
    option (error + list (TypedExtensionConfig Any) * bool) :=
  match Api.lb_least_request c, Api.lb_round_robin c, Api.lb_ring_hash c, Api.lb_maglev c, Api.lb_random c with
  | Some l, _, _, _, _ => Some (no_hostname (buildLeastRequestPolicy l c name namespace))
  | _, Some r, _, _, _ => Some (no_hostname (buildRoundRobinPolicy r c name namespace))
  | _, _, Some r, _, _ => Some (buildRingHashPolicy r c)
  | _, _, _, Some m, _ => Some (buildMaglevPolicy m c)
  | _, _, _, _, true => Some (no_hostname (buildRandomPolicy c))
  | _, _, _, _, false => None
  end.

Definition translateLoadBalancerConfig (c : Api.LoadBalancer) (name namespace : string) : error + LoadBalancerConfigIR :=
  let common := mkCLC None (Api.lb_panic c) (Api.lb_merge_window c) (default false (Api.lb_close c)) None in
  let prefer := mjoin (Api.lb_zone_aware c) in
  let zoneAware := match prefer with Some _ => true | None => false end in
  let force := p ← prefer; zoneAwareForceThreshold <$> Api.pl_force p in
  match lb_algorithm c name namespace with
  | None => inr (mkLBIR common None false zoneAware force)
  | Some (inl err) => inl err
  | Some (inr (p, useHostname)) => inr (mkLBIR common (Some p) useHostname zoneAware force)
  end.

(** *** Health checks, outliers, circuit breakers, PROXY protocol *)

Definition translateHealthCheck (h : Api.HealthCheck) : HealthCheck :=
  mkHC (Api.hk_timeout h) (Api.hk_interval h) (u32 (Api.hk_unhealthy h)) (u32 (Api.hk_healthy h))
    (match Api.hk_http h, Api.hk_grpc h with
     | Some x, _ =>
         Some (HttpHealthCheck (Api.hh_path x) (default "" (Api.hh_host x))
                 (match Api.hh_method x with Some m => default 0%Z (RequestMethod_value !! m) | None => 0%Z end))
     | None, Some g => Some (GrpcHealthCheck (default "" (Api.hg_service g)) (default "" (Api.hg_authority g)))
     | None, None => None
     end).

Definition translateOutlierDetection (o : Api.OutlierDetection) : OutlierDetection :=
  mkOD (u32 <$> Api.ol_5xx o) (u32 <$> Api.ol_enforcing_5xx o) (default false (Api.ol_split o)) (u32 <$> Api.ol_local o)
    (u32 <$> Api.ol_enforcing_local o) (Api.ol_interval o) (Api.ol_ejection_time o) (u32 <$> Api.ol_ejection_percent o).

Definition translateCircuitBreakers (c : Api.CircuitBreakers) : list Thresholds :=
  [mkThresholds (u32 <$> Api.cb_connections c) (u32 <$> Api.cb_pending c) (u32 <$> Api.cb_requests c)
     (u32 <$> Api.cb_retries c) (default false (Api.cb_track c))].

Definition translateUpstreamProxyProtocol (version : option string) : ProxyProtocolVersion :=
  match version with Some v => if String.eqb v "V2" then PROXY_V2 else PROXY_V1 | None => PROXY_V1 end.

(** A part of the policy and the error of its translation. *)
Definition part {A B} (f : A → error + B) (o : option A) : option B * list error :=
  match o with
  | None => (None, [])
  | Some a => match f a with inl err => (None, [err]) | inr b => (Some b, []) end
  end.

Definition translate (secrets : SecretIndex) (pol : Api.BackendConfigPolicy) : BackendConfigPolicyIR * list error :=
  let ns := Api.bs_namespace pol in
  let '(http1, e1) := part translateHttp1ProtocolOptions (Api.bs_http1 pol) in
  let '(tls, e2) := part (λ t, translateTLSConfig secrets t ns) (Api.bs_tls pol) in
  let '(lb, e3) := part (λ l, translateLoadBalancerConfig l (Api.bs_name pol) ns) (Api.bs_load_balancer pol) in
  let breakers := translateCircuitBreakers <$> Api.bs_breakers pol in
  let e4 := match (b ← breakers; Validate_CircuitBreakers b) with Some err => [err] | None => [] end in
  (mkIR (Api.bs_created pol) (Api.bs_connect_timeout pol) (u32 <$> Api.bs_buffer_limit pol)
     (TranslateTCPKeepalive <$> Api.bs_keepalive pol) (translateCommonHttpProtocolOptions <$> Api.bs_common_http pol)
     http1 (translateHttp2ProtocolOptions <$> Api.bs_http2 pol) tls lb (translateHealthCheck <$> Api.bs_health_check pol)
     (translateOutlierDetection <$> Api.bs_outlier pol) breakers
     (d ← Api.bs_dns pol; Api.dn_refresh d) (d ← Api.bs_dns pol; Api.dn_jitter d) (d ← Api.bs_dns pol; Api.dn_respect_ttl d)
     (translateUpstreamProxyProtocol <$> Api.bs_proxy_protocol pol),
   e1 ++ e2 ++ e3 ++ e4).

End translate.
Arguments LoadBalancerConfigIR : clear implicits.
Arguments BackendConfigPolicyIR : clear implicits.

(** ** The hook *)

Section process.
Context {P Any V Fl : Type} `{TL : TransportLib Any} `{FL : ConfigLib Any Fl}.
Abbreviation Cluster := (Cluster Any V).
Abbreviation PolIR := (BackendConfigPolicyIR Any).

Definition with_settings (s : ClusterSettings Any) (c : Cluster) : Cluster :=
  mkCluster (c_name c) (c_discovery c) (c_eds c) (c_common_lb c) (c_lb_policy c) (c_load_assignment c) (c_socket c)
    (c_matches c) (c_protocol_options c) s.
Definition with_protocol_options (o : gmap string Any) (c : Cluster) : Cluster :=
  mkCluster (c_name c) (c_discovery c) (c_eds c) (c_common_lb c) (c_lb_policy c) (c_load_assignment c) (c_socket c)
    (c_matches c) o (c_rest c).
Definition with_socket (s : option (TransportSocket Any)) (c : Cluster) : Cluster := with_sockets s (c_matches c) c.
Definition with_lb_policy (p : option (list (TypedExtensionConfig Any))) (c : Cluster) : Cluster :=
  mkCluster (c_name c) (c_discovery c) (c_eds c) (c_common_lb c) p (c_load_assignment c) (c_socket c) (c_matches c)
    (c_protocol_options c) (c_rest c).

(** *** Protocol options *)

Definition http_options_name : string := "envoy.extensions.upstreams.http.v3.HttpProtocolOptions".

(** [translatorutils.MutateHttpOptions]; an error leaves the cluster, the callers log it. *)
Definition MutateHttpOptions (m : HttpProtocolOptions Any → HttpProtocolOptions Any) (c : Cluster) : Cluster :=
  match (match c_protocol_options c !! http_options_name with
         | Some opts => Unmarshal_Http opts
         | None => inr (mkHPO None None None)
         end) with
  | inl _ => c
  | inr opts =>
      match Marshal_Http (m opts) with
      | inl _ => c
      | inr a => with_protocol_options (<[http_options_name := a]> (c_protocol_options c)) c
      end
  end.

Definition applyCommonHttpProtocolOptions (o : option HttpOptions) (c : Cluster) : Cluster :=
  match o with
  | None => c
  | Some o =>
      MutateHttpOptions (λ opts,
        mkHPO (Some o) (Some (default (ExplicitHttp1 (mkH1 false None None)) (hpo_upstream opts))) (hpo_rest opts)) c
  end.

Definition HTTP2AppProtocol : string := "http2".

Definition set_upstream (u : UpstreamProtocol Any) (opts : HttpProtocolOptions Any) : HttpProtocolOptions Any :=
  mkHPO (hpo_common opts) (Some u) (hpo_rest opts).

Definition applyHttp1ProtocolOptions (o : option (Http1Options Any)) (b : BackendObjectIR P) (c : Cluster) : Cluster :=
  match o with
  | None => c
  | Some o =>
      if String.eqb (bo_app_protocol b) HTTP2AppProtocol then c else MutateHttpOptions (set_upstream (ExplicitHttp1 o)) c
  end.

Definition applyHttp2ProtocolOptions (o : option Http2Options) (b : BackendObjectIR P) (c : Cluster) : Cluster :=
  match o with
  | None => c
  | Some o =>
      if negb (String.eqb (bo_app_protocol b) HTTP2AppProtocol) then c else MutateHttpOptions (set_upstream (ExplicitHttp2 o)) c
  end.

(** *** Transport sockets *)

Definition BackendConfigPolicyGK : GroupKind := mkGK "gateway.kgateway.dev" "BackendConfigPolicy".

Definition hasBackendTLSPolicy (b : BackendObjectIR P) : bool :=
  match ap_get (bo_policies b) BackendTLSPolicyGK with [] => false | _ => true end.

Definition TransportSocketRawBuffer : string := "envoy.transport_sockets.raw_buffer".

(** The socket that is wrapped: the one there is, or plain text. *)
Definition inner_socket (c : Cluster) : error + TransportSocket Any :=
  match c_socket c with
  | Some s => inr s
  | None => match Marshal_RawBuffer with
            | inl err => inl err
            | inr a => inr (mkTS TransportSocketRawBuffer (Some a))
            end
  end.

Definition applyUpstreamProxyProtocol (v : ProxyProtocolVersion) (c : Cluster) : Cluster :=
  match inner_socket c with
  | inl _ => c
  | inr inner =>
      match Marshal_Proxy (mkPPT (Some inner) (Some v) None) with
      | inl _ => c
      | inr a => with_socket (Some (mkTS proxyProtocolSocketName (Some a))) c
      end
  end.

(** *** Load balancing *)

Definition supportsHostnameForHashing (c : Cluster) : bool :=
  match c_discovery c with
  | Some (DType t) => bool_decide (t = STRICT_DNS)
  | Some (DCluster name (Some typed)) =>
      String.eqb name dnsClusterExtensionName &&
      match Unmarshal_Dns typed with inl _ => false | inr d => negb (dns_single_endpoint d) end
  | _ => false
  end.

Definition without_hostname (h : option ConsistentHashing) : option (option ConsistentHashing) :=
  match h with
  | Some h => if cho_use_hostname h then Some (Some (mkCH false (cho_policies h))) else None
  | None => None
  end.

(** The message without hostname hashing, where it has it. *)
Definition hostname_disabled (m : LbMessage Fl) : option (LbMessage Fl) :=
  match m with
  | RingHashMsg mn mx h w => (λ h, RingHashMsg mn mx h w) <$> without_hostname h
  | MaglevMsg h w => (λ h, MaglevMsg h w) <$> without_hostname h
  | _ => None
  end.

Definition disableUseHostnameForHashingIfPresent (t : TypedExtensionConfig Any) : TypedExtensionConfig Any :=
  match tec_config t with
  | None => t
  | Some a =>
      match Unmarshal_Lb a with
      | inl _ => t
      | inr m =>
          match hostname_disabled m with
          | None => t
          | Some m => match Marshal_Lb m with inl _ => t | inr a => mkTEC (tec_name t) (Some a) end
          end
      end
  end.

Definition disable_first (l : list (TypedExtensionConfig Any)) : list (TypedExtensionConfig Any) :=
  match l with [] => [] | t :: l => disableUseHostnameForHashingIfPresent t :: l end.

(** [applyLoadBalancerConfig]: the configuration, which is shared, and the cluster. *)
Definition applyLoadBalancerConfig (cfg : LoadBalancerConfigIR Any) (c : Cluster) : LoadBalancerConfigIR Any * Cluster :=
  let cfg :=
    if lbi_use_hostname cfg && negb (supportsHostnameForHashing c)
    then mkLBIR (lbi_common cfg) (disable_first <$> lbi_policy cfg) (lbi_use_hostname cfg) (lbi_zone_aware cfg)
           (lbi_force_min cfg)
    else cfg in
  (cfg, with_lb_policy (lbi_policy cfg) (with_lb (Some (lbi_common cfg)) c)).

(** *** Health checks *)

Definition healthCheckHasExplicitHost (h : HealthCheck) : bool :=
  match hc_checker h with
  | Some (HttpHealthCheck _ host _) => negb (String.eqb host "")
  | Some (GrpcHealthCheck _ authority) => negb (String.eqb authority "")
  | None => false
  end.

Definition clear_host (e : LbEndpoint) : LbEndpoint :=
  mkLbEp (le_socket e) (le_weight e) ((λ _, "") <$> le_health_host e) (le_rest e).

Definition clearEndpointHealthCheckHostnames (cla : ClusterLoadAssignment) : ClusterLoadAssignment :=
  mkCLA (cla_cluster cla)
    (map (λ l, mkLLE (lle_locality l) (map clear_host (lle_endpoints l)) (lle_weight l) (lle_priority l))
       (cla_endpoints cla)).

Definition set_health_checks (hs : list HealthCheck) (s : ClusterSettings Any) : ClusterSettings Any :=
  mkCS (cs_connect_timeout s) (cs_buffer_limit s) (cs_conn_options s) hs (cs_outlier s) (cs_breakers s) (cs_rest s).

Definition applyHealthCheck (o : option HealthCheck) (c : Cluster) : Cluster :=
  match o with
  | None => c
  | Some h =>
      let c := with_settings (set_health_checks [h] (c_rest c)) c in
      if healthCheckHasExplicitHost h
      then with_assignment ((λ a, mkLA (clearEndpointHealthCheckHostnames (la_cla a)) (la_generated a)) <$> c_load_assignment c) c
      else c
  end.

(** *** DNS *)

Definition applyDnsClusterConfig (pol : PolIR) (c : Cluster) : Cluster :=
  match bc_dns_refresh pol, bc_dns_jitter pol, bc_respect_ttl pol with
  | None, None, None => c
  | _, _, _ =>
      match c_discovery c with
      | Some (DCluster name (Some typed)) =>
          if negb (String.eqb name dnsClusterExtensionName) then c
          else match Unmarshal_Dns typed with
               | inl _ => c
               | inr d =>
                   match Marshal_Dns (mkDns (dns_family d)
                           (match bc_dns_refresh pol with Some r => Some r | None => dns_refresh_rate d end)
                           (match bc_dns_jitter pol with Some j => Some j | None => dns_jitter d end)
                           (default (dns_respect_ttl d) (bc_respect_ttl pol)) (dns_single_endpoint d) (dns_rest d)) with
                   | inl _ => c
                   | inr typed => with_discovery (Some (DCluster name (Some typed))) c
                   end
               end
      | _ => c
      end
  end.

(** *** All of it *)

(** Replace what a policy sets. *)
Definition or_keep {A} (o cur : option A) : option A := match o with Some _ => o | None => cur end.

Definition connection_settings (pol : PolIR) (s : ClusterSettings Any) : ClusterSettings Any :=
  mkCS (or_keep (bc_connect_timeout pol) (cs_connect_timeout s)) (or_keep (bc_buffer_limit pol) (cs_buffer_limit s))
    (match bc_keepalive pol with Some k => Some (Some k) | None => cs_conn_options s end)
    (cs_health_checks s) (cs_outlier s) (cs_breakers s) (cs_rest s).

Definition resilience_settings (pol : PolIR) (s : ClusterSettings Any) : ClusterSettings Any :=
  mkCS (cs_connect_timeout s) (cs_buffer_limit s) (cs_conn_options s) (cs_health_checks s)
    (or_keep (bc_outlier pol) (cs_outlier s)) (or_keep (bc_breakers pol) (cs_breakers s)) (cs_rest s).

(** The socket of the policy; [None] is a TLS configuration that cannot be packed. *)
Definition applyTLS (pol : PolIR) (b : BackendObjectIR P) (c : Cluster) : option Cluster :=
  match bc_tls pol with
  | Some tls =>
      if hasBackendTLSPolicy b then Some c
      else match Marshal_Tls tls with
           | inl _ => None
           | inr a => Some (with_socket (Some (mkTS TransportSocketTls (Some a))) c)
           end
  | None => Some c
  end.

Definition with_lb_config (lb : option (LoadBalancerConfigIR Any)) (pol : PolIR) : PolIR :=
  mkIR (bc_ct pol) (bc_connect_timeout pol) (bc_buffer_limit pol) (bc_keepalive pol) (bc_common_http pol) (bc_http1 pol)
    (bc_http2 pol) (bc_tls pol) lb (bc_health_check pol) (bc_outlier pol) (bc_breakers pol) (bc_dns_refresh pol)
    (bc_dns_jitter pol) (bc_respect_ttl pol) (bc_proxy_protocol pol).

(** What follows the transport socket. *)
Definition after_sockets (pol : PolIR) (out : Cluster) : PolIR * Cluster :=
  let '(lb, out) :=
    match bc_lb pol with
    | Some cfg => let '(cfg, out) := applyLoadBalancerConfig cfg out in (Some cfg, out)
    | None => (None, out)
    end in
  let out := applyHealthCheck (bc_health_check pol) out in
  let out := with_settings (resilience_settings pol (c_rest out)) out in
  (with_lb_config lb pol, applyDnsClusterConfig pol out).

(** [processBackend]: the policy, which is shared, and the cluster. *)
Definition processBackend (pol : PolIR) (b : BackendObjectIR P) (out : Cluster) : PolIR * Cluster :=
  let out := with_settings (connection_settings pol (c_rest out)) out in
  let out := applyCommonHttpProtocolOptions (bc_common_http pol) out in
  let out := applyHttp1ProtocolOptions (bc_http1 pol) b out in
  let out := applyHttp2ProtocolOptions (bc_http2 pol) b out in
  match applyTLS pol b out with
  | None => (pol, out)
  | Some out =>
      after_sockets pol (match bc_proxy_protocol pol with Some v => applyUpstreamProxyProtocol v out | None => out end)
  end.

End process.

(** ** Merging *)

Section merging.
Context {Any : Type}.
Abbreviation PolIR := (BackendConfigPolicyIR Any).

(** One field: what the policy [p2] sets, where the strategy lets it. *)
Definition MergeField : Type :=
  PolIR → PolIR → option AttachedPolicyRef → MergeOrigins → MergeOptions → MergeOrigins → PolIR * MergeOrigins.

Definition merge_field {A} (get : PolIR → option A) (set : option A → PolIR → PolIR) (name : string) : MergeField :=
  λ p1 p2 p2Ref p2MergeOrigins opts mergeOrigins,
    if IsMergeable (go_ptr (get p1)) (go_ptr (get p2)) opts
    then (set (get p2) p1, mo_set_one mergeOrigins name p2Ref p2MergeOrigins)
    else (p1, mergeOrigins).

Definition mergeConnectTimeout : MergeField :=
  merge_field bc_connect_timeout (λ x p, mkIR (bc_ct p) x (bc_buffer_limit p) (bc_keepalive p) (bc_common_http p)
    (bc_http1 p) (bc_http2 p) (bc_tls p) (bc_lb p) (bc_health_check p) (bc_outlier p) (bc_breakers p)
    (bc_dns_refresh p) (bc_dns_jitter p) (bc_respect_ttl p) (bc_proxy_protocol p)) "connectTimeout".

Definition mergePerConnectionBufferLimitBytes : MergeField :=
  merge_field bc_buffer_limit (λ x p, mkIR (bc_ct p) (bc_connect_timeout p) x (bc_keepalive p) (bc_common_http p)
    (bc_http1 p) (bc_http2 p) (bc_tls p) (bc_lb p) (bc_health_check p) (bc_outlier p) (bc_breakers p)
    (bc_dns_refresh p) (bc_dns_jitter p) (bc_respect_ttl p) (bc_proxy_protocol p)) "perConnectionBufferLimitBytes".

Definition mergeTcpKeepalive : MergeField :=
  merge_field bc_keepalive (λ x p, mkIR (bc_ct p) (bc_connect_timeout p) (bc_buffer_limit p) x (bc_common_http p)
    (bc_http1 p) (bc_http2 p) (bc_tls p) (bc_lb p) (bc_health_check p) (bc_outlier p) (bc_breakers p)
    (bc_dns_refresh p) (bc_dns_jitter p) (bc_respect_ttl p) (bc_proxy_protocol p)) "tcpKeepalive".

Definition mergeCommonHttpProtocolOptions : MergeField :=
  merge_field bc_common_http (λ x p, mkIR (bc_ct p) (bc_connect_timeout p) (bc_buffer_limit p) (bc_keepalive p) x
    (bc_http1 p) (bc_http2 p) (bc_tls p) (bc_lb p) (bc_health_check p) (bc_outlier p) (bc_breakers p)
    (bc_dns_refresh p) (bc_dns_jitter p) (bc_respect_ttl p) (bc_proxy_protocol p)) "commonHttpProtocolOptions".

Definition mergeHttp1ProtocolOptions : MergeField :=
  merge_field bc_http1 (λ x p, mkIR (bc_ct p) (bc_connect_timeout p) (bc_buffer_limit p) (bc_keepalive p)
    (bc_common_http p) x (bc_http2 p) (bc_tls p) (bc_lb p) (bc_health_check p) (bc_outlier p) (bc_breakers p)
    (bc_dns_refresh p) (bc_dns_jitter p) (bc_respect_ttl p) (bc_proxy_protocol p)) "http1ProtocolOptions".

Definition mergeHttp2ProtocolOptions : MergeField :=
  merge_field bc_http2 (λ x p, mkIR (bc_ct p) (bc_connect_timeout p) (bc_buffer_limit p) (bc_keepalive p)
    (bc_common_http p) (bc_http1 p) x (bc_tls p) (bc_lb p) (bc_health_check p) (bc_outlier p) (bc_breakers p)
    (bc_dns_refresh p) (bc_dns_jitter p) (bc_respect_ttl p) (bc_proxy_protocol p)) "http2ProtocolOptions".

Definition mergeTLSConfig : MergeField :=
  merge_field bc_tls (λ x p, mkIR (bc_ct p) (bc_connect_timeout p) (bc_buffer_limit p) (bc_keepalive p)
    (bc_common_http p) (bc_http1 p) (bc_http2 p) x (bc_lb p) (bc_health_check p) (bc_outlier p) (bc_breakers p)
    (bc_dns_refresh p) (bc_dns_jitter p) (bc_respect_ttl p) (bc_proxy_protocol p)) "tls".

Definition mergeLoadBalancerConfig : MergeField :=
  merge_field bc_lb (λ x p, mkIR (bc_ct p) (bc_connect_timeout p) (bc_buffer_limit p) (bc_keepalive p)
    (bc_common_http p) (bc_http1 p) (bc_http2 p) (bc_tls p) x (bc_health_check p) (bc_outlier p) (bc_breakers p)
    (bc_dns_refresh p) (bc_dns_jitter p) (bc_respect_ttl p) (bc_proxy_protocol p)) "loadBalancer".

Definition mergeHealthCheck : MergeField :=
  merge_field bc_health_check (λ x p, mkIR (bc_ct p) (bc_connect_timeout p) (bc_buffer_limit p) (bc_keepalive p)
    (bc_common_http p) (bc_http1 p) (bc_http2 p) (bc_tls p) (bc_lb p) x (bc_outlier p) (bc_breakers p)
    (bc_dns_refresh p) (bc_dns_jitter p) (bc_respect_ttl p) (bc_proxy_protocol p)) "healthCheck".

Definition mergeOutlierDetection : MergeField :=
  merge_field bc_outlier (λ x p, mkIR (bc_ct p) (bc_connect_timeout p) (bc_buffer_limit p) (bc_keepalive p)
    (bc_common_http p) (bc_http1 p) (bc_http2 p) (bc_tls p) (bc_lb p) (bc_health_check p) x (bc_breakers p)
    (bc_dns_refresh p) (bc_dns_jitter p) (bc_respect_ttl p) (bc_proxy_protocol p)) "outlierDetection".

Definition mergeCircuitBreakers : MergeField :=
  merge_field bc_breakers (λ x p, mkIR (bc_ct p) (bc_connect_timeout p) (bc_buffer_limit p) (bc_keepalive p)
    (bc_common_http p) (bc_http1 p) (bc_http2 p) (bc_tls p) (bc_lb p) (bc_health_check p) (bc_outlier p) x
    (bc_dns_refresh p) (bc_dns_jitter p) (bc_respect_ttl p) (bc_proxy_protocol p)) "circuitBreakers".

Definition mergeDnsRefreshRate : MergeField :=
  merge_field bc_dns_refresh (λ x p, mkIR (bc_ct p) (bc_connect_timeout p) (bc_buffer_limit p) (bc_keepalive p)
    (bc_common_http p) (bc_http1 p) (bc_http2 p) (bc_tls p) (bc_lb p) (bc_health_check p) (bc_outlier p)
    (bc_breakers p) x (bc_dns_jitter p) (bc_respect_ttl p) (bc_proxy_protocol p)) "dns.refreshRate".

Definition mergeDnsJitter : MergeField :=
  merge_field bc_dns_jitter (λ x p, mkIR (bc_ct p) (bc_connect_timeout p) (bc_buffer_limit p) (bc_keepalive p)
    (bc_common_http p) (bc_http1 p) (bc_http2 p) (bc_tls p) (bc_lb p) (bc_health_check p) (bc_outlier p)
    (bc_breakers p) (bc_dns_refresh p) x (bc_respect_ttl p) (bc_proxy_protocol p)) "dns.jitter".

Definition mergeRespectDnsTtl : MergeField :=
  merge_field bc_respect_ttl (λ x p, mkIR (bc_ct p) (bc_connect_timeout p) (bc_buffer_limit p) (bc_keepalive p)
    (bc_common_http p) (bc_http1 p) (bc_http2 p) (bc_tls p) (bc_lb p) (bc_health_check p) (bc_outlier p)
    (bc_breakers p) (bc_dns_refresh p) (bc_dns_jitter p) x (bc_proxy_protocol p)) "dns.respectTTL".

Definition mergeUpstreamProxyProtocol : MergeField :=
  merge_field bc_proxy_protocol (λ x p, mkIR (bc_ct p) (bc_connect_timeout p) (bc_buffer_limit p) (bc_keepalive p)
    (bc_common_http p) (bc_http1 p) (bc_http2 p) (bc_tls p) (bc_lb p) (bc_health_check p) (bc_outlier p)
    (bc_breakers p) (bc_dns_refresh p) (bc_dns_jitter p) (bc_respect_ttl p) x) "upstreamProxyProtocol".

Definition backendMergeFuncs : list MergeField :=
  [mergeConnectTimeout; mergePerConnectionBufferLimitBytes; mergeTcpKeepalive; mergeCommonHttpProtocolOptions;
   mergeHttp1ProtocolOptions; mergeHttp2ProtocolOptions; mergeTLSConfig; mergeLoadBalancerConfig; mergeHealthCheck;
   mergeOutlierDetection; mergeCircuitBreakers; mergeDnsRefreshRate; mergeDnsJitter; mergeRespectDnsTtl;
   mergeUpstreamProxyProtocol].


Definition mergeBackendConfigPolicies : MergeFn PolIR := λ p1 p2 p2Ref p2MergeOrigins opts mergeOrigins _,
  Some (foldl (λ '(p1, mergeOrigins) f, f p1 p2 p2Ref p2MergeOrigins opts mergeOrigins) (p1, mergeOrigins) backendMergeFuncs).

(** [sortForMerge]: by weight, age and reference. *)
Definition merge_cmp {P} `{PolicyIrOps P} (a b : PolicyAtt P) : comparison :=
  if negb (pa_weight a =? pa_weight b)%Z then (if (pa_weight b <? pa_weight a)%Z then Lt else Gt)
  else ComparePoliciesByCreationTimeAndRef a b.

Definition sortForMerge {P} `{PolicyIrOps P} (pols : list (PolicyAtt P)) : list (PolicyAtt P) := sort_stable merge_cmp pols.

(** The merge of the plugin. *)
Definition plugin_MergePolicies {P} `{PolicyIrOps P} `{PolicyKind P PolIR} (pols : list (PolicyAtt P)) :
    option (option (PolicyAtt P)) :=
  MergePolicies mergeBackendConfigPolicies (sortForMerge pols) "".

(** ** Zone-aware routing *)

Definition selectZoneAwareBackendConfigPolicy {P} `{PolicyKind P PolIR} (policies : list (PolicyView (P := P))) :
    option (PolicyView (P := P)) :=
  List.find (λ pol,
    match pk_as (pv_ir pol) with
    | Some bcpIR => negb (pv_has_errors pol) && match bc_lb bcpIR with Some lb => lbi_zone_aware lb | None => false end
    | None => false
    end) policies.

(** [processEndpoints]. *)
Definition processEndpoints {P} `{PolicyKind P PolIR} (_ : UniquelyConnectedClient) : Edit P :=
  PoliciesFor BackendConfigPolicyGK (λ policies,
    match selectZoneAwareBackendConfigPolicy policies with
    | None => Return 0
    | Some pol =>
        SetTrafficDistribution TDAny
          (Return (write_string fnv64 (write_string fnv64 (h_new fnv64) (pv_ref pol)) (pretty (pv_generation pol))))
    end).
End merging.

(** ** Equality *)

#[global] Instance DataSource_eq_dec : EqDecision DataSource.
Proof. solve_decision. Defined.
#[global] Instance TlsParameters_eq_dec : EqDecision TlsParameters.
Proof. solve_decision. Defined.
#[global] Instance SanType_eq_dec : EqDecision SanType.
Proof. solve_decision. Defined.
#[global] Instance SanMatcher_eq_dec : EqDecision SanMatcher.
Proof. solve_decision. Defined.
#[global] Instance SdsSecretConfig_eq_dec : EqDecision SdsSecretConfig.
Proof. solve_decision. Defined.
#[global] Instance ProxyProtocolVersion_eq_dec : EqDecision ProxyProtocolVersion.
Proof. solve_decision. Defined.
#[global] Instance TcpKeepalive_eq_dec : EqDecision TcpKeepalive.
Proof. solve_decision. Defined.
#[global] Instance HealthChecker_eq_dec : EqDecision HealthChecker.
Proof. solve_decision. Defined.
#[global] Instance HealthCheck_eq_dec : EqDecision HealthCheck.
Proof. solve_decision. Defined.
#[global] Instance OutlierDetection_eq_dec : EqDecision OutlierDetection.
Proof. solve_decision. Defined.
#[global] Instance Thresholds_eq_dec : EqDecision Thresholds.
Proof. solve_decision. Defined.
#[global] Instance HttpOptions_eq_dec : EqDecision HttpOptions.
Proof. solve_decision. Defined.
#[global] Instance KeepaliveSettings_eq_dec : EqDecision KeepaliveSettings.
Proof. solve_decision. Defined.
#[global] Instance Http2Options_eq_dec : EqDecision Http2Options.
Proof. solve_decision. Defined.
#[global] Instance TypedExtensionConfig_eq_dec `{EqDecision Any} : EqDecision (TypedExtensionConfig Any).
Proof. solve_decision. Defined.
#[global] Instance LocalityMode_eq_dec `{EqDecision Any} : EqDecision (LocalityMode Any).
Proof. solve_decision. Defined.
#[global] Instance CommonLbConfig_eq_dec `{EqDecision Any} : EqDecision (CommonLbConfig Any).
Proof. solve_decision. Defined.
#[global] Instance CertificateValidationContext_eq_dec `{EqDecision Any} : EqDecision (PeerValidation Any).
Proof. solve_decision. Defined.
#[global] Instance ValidationContextType_eq_dec `{EqDecision Any} : EqDecision (UpstreamValidation Any).
Proof. solve_decision. Defined.
#[global] Instance CommonTlsContext_eq_dec `{EqDecision Any} : EqDecision (CommonTlsContext Any).
Proof. solve_decision. Defined.
#[global] Instance UpstreamTlsContext_eq_dec `{EqDecision Any} : EqDecision (UpstreamTlsContext Any).
Proof. solve_decision. Defined.
#[global] Instance Http1Options_eq_dec `{EqDecision Any} : EqDecision (Http1Options Any).
Proof. solve_decision. Defined.
#[global] Instance LoadBalancerConfigIR_eq_dec `{EqDecision Any} : EqDecision (LoadBalancerConfigIR Any).
Proof. solve_decision. Defined.

Section equality.
Context {Any : Type} `{EqDecision Any}.

(** [LoadBalancerConfigIR.Equals], on non-nil pointers. *)
Definition LoadBalancerConfigIR_Equals (a b : LoadBalancerConfigIR Any) : bool :=
  bool_decide (lbi_common a = lbi_common b) && Bool.eqb (lbi_use_hostname a) (lbi_use_hostname b) &&
  Bool.eqb (lbi_zone_aware a) (lbi_zone_aware b) && bool_decide (lbi_policy a = lbi_policy b) &&
  bool_decide (lbi_force_min a = lbi_force_min b).

(** [cmputils.CompareWithNils]. *)
Definition CompareWithNils {A} (eq : A → A → bool) (a b : option A) : bool :=
  match a, b with None, None => true | Some a, Some b => eq a b | _, _ => false end.

(** [BackendConfigPolicyIR.Equals]. *)
Definition Equals (d d2 : BackendConfigPolicyIR Any) : bool :=
  (bc_ct d =? bc_ct d2)%Z && bool_decide (bc_connect_timeout d = bc_connect_timeout d2) &&
  bool_decide (bc_buffer_limit d = bc_buffer_limit d2) && bool_decide (bc_keepalive d = bc_keepalive d2) &&
  bool_decide (bc_common_http d = bc_common_http d2) && bool_decide (bc_http1 d = bc_http1 d2) &&
  bool_decide (bc_http2 d = bc_http2 d2) && bool_decide (bc_tls d = bc_tls d2) &&
  CompareWithNils LoadBalancerConfigIR_Equals (bc_lb d) (bc_lb d2) &&
  bool_decide (bc_health_check d = bc_health_check d2) && bool_decide (bc_outlier d = bc_outlier d2) &&
  bool_decide (bc_breakers d = bc_breakers d2) && bool_decide (bc_dns_refresh d = bc_dns_refresh d2) &&
  bool_decide (bc_dns_jitter d = bc_dns_jitter d2) && bool_decide (bc_respect_ttl d = bc_respect_ttl d2) &&
  bool_decide (bc_proxy_protocol d = bc_proxy_protocol d2).

Lemma lb_equals_exact a b : LoadBalancerConfigIR_Equals a b = true ↔ a = b.
Proof.
  unfold LoadBalancerConfigIR_Equals. rewrite !andb_true_iff, !bool_decide_eq_true, !Bool.eqb_true_iff.
  destruct a, b; simpl. split; [intros ((((-> & ->) & ->) & ->) & ->); done|by intros [= -> -> -> -> ->]].
Qed.

(** Two translated policies compare equal exactly when no field differs, so a change of any
    field of a policy is seen. *)
Theorem policy_equality_exact a b : Equals a b = true ↔ a = b.
Proof.
  unfold Equals. rewrite !andb_true_iff, !bool_decide_eq_true, Z.eqb_eq.
  assert (CompareWithNils LoadBalancerConfigIR_Equals (bc_lb a) (bc_lb b) = true ↔ bc_lb a = bc_lb b) as ->.
  { destruct (bc_lb a), (bc_lb b); simpl; [rewrite lb_equals_exact|..]; naive_solver. }
  split; [destruct a, b; simpl; naive_solver|by intros ->].
Qed.
End equality.

(** ** Strict validation *)

Section validate.
Context {P Any V Hdr Fl : Type} `{TL : TransportLib Any} `{FL : ConfigLib Any Fl} `{EL : EnvoyLib Any Hdr (Cluster Any V)}.

Definition requiresDnsClusterValidation (pol : BackendConfigPolicyIR Any) : bool :=
  match bc_lb pol with Some lb => lbi_use_hostname lb | None => false end ||
  bool_decide (is_Some (bc_dns_refresh pol)) || bool_decide (is_Some (bc_dns_jitter pol)) ||
  bool_decide (is_Some (bc_respect_ttl pol)).

Definition empty_dns : DnsCluster Any := mkDns FUnspecified None None false false None.

Definition dummyBackend : BackendObjectIR P := NewBackendObjectIR (mkOS "core" "Service" "test" "test-backend") 80 "" "".

Definition test_cluster (d : DiscoveryType Any) : Cluster Any V :=
  mkCluster "test-cluster-for-validation" (Some d) None None None None None [] ∅
    (mkCS (Some (5 * second)%Z) None None [] None None None).

(** The discovery type of the cluster the policy is tried on. *)
Definition test_discovery (pol : BackendConfigPolicyIR Any) : error + DiscoveryType Any :=
  if requiresDnsClusterValidation pol then
    match Marshal_Dns empty_dns with
    | inl err => inl err
    | inr a => inr (DCluster dnsClusterExtensionName (Some a))
    end
  else inr (DType STATIC).

(** [validateXDS]; [present]: there is a validator.  The policy is returned beside the verdict. *)
Definition validateXDS (present : bool) (mode : ValidationMode) (pol : BackendConfigPolicyIR Any) :
    BackendConfigPolicyIR Any * option error :=
  match mode, present with
  | ValidationStrict, true =>
      match test_discovery pol with
      | inl err => (pol, Some err)
      | inr d =>
          let '(pol, c) := processBackend pol dummyBackend (test_cluster d) in
          (pol, run_validation (Hdr := Hdr) c)
      end
  | _, _ => (pol, None)
  end.

End validate.

(** ** Lemmas: merging *)

Section merge_lemmas.
Context {Any : Type}.
Abbreviation PolIR := (BackendConfigPolicyIR Any).

(** The fields of the first policy, completed by those of the second. *)
Definition filled (p q : PolIR) : PolIR :=
  mkIR (bc_ct p) (or_keep (bc_connect_timeout p) (bc_connect_timeout q)) (or_keep (bc_buffer_limit p) (bc_buffer_limit q))
    (or_keep (bc_keepalive p) (bc_keepalive q)) (or_keep (bc_common_http p) (bc_common_http q))
    (or_keep (bc_http1 p) (bc_http1 q)) (or_keep (bc_http2 p) (bc_http2 q)) (or_keep (bc_tls p) (bc_tls q))
    (or_keep (bc_lb p) (bc_lb q)) (or_keep (bc_health_check p) (bc_health_check q))
    (or_keep (bc_outlier p) (bc_outlier q)) (or_keep (bc_breakers p) (bc_breakers q))
    (or_keep (bc_dns_refresh p) (bc_dns_refresh q)) (or_keep (bc_dns_jitter p) (bc_dns_jitter q))
    (or_keep (bc_respect_ttl p) (bc_respect_ttl q)) (or_keep (bc_proxy_protocol p) (bc_proxy_protocol q)).

(** The value of a field in the first policy that sets it. *)
Definition first_set {A} (get : PolIR → option A) (l : list PolIR) : option A := head (omap get l).

(** Each field from the first policy that sets it. *)
Definition firsts (l : list PolIR) : PolIR :=
  mkIR 0 (first_set bc_connect_timeout l) (first_set bc_buffer_limit l) (first_set bc_keepalive l)
    (first_set bc_common_http l) (first_set bc_http1 l) (first_set bc_http2 l) (first_set bc_tls l) (first_set bc_lb l)
    (first_set bc_health_check l) (first_set bc_outlier l) (first_set bc_breakers l) (first_set bc_dns_refresh l)
    (first_set bc_dns_jitter l) (first_set bc_respect_ttl l) (first_set bc_proxy_protocol l).

Definition fills {A} (get : PolIR → option A) (opts : MergeOptions) (p : PolIR) : Prop :=
  match mo_strategy opts with
  | AugmentedShallowMerge => True
  | OtherStrategy _ => False
  | _ => get p = None
  end.

Lemma merge_field_fills {A} (get : PolIR → option A) set name p q ref o opts og fs :
  set (get p) p = p → fills get opts p →
  ∃ og', foldl (λ '(p, og) f, f p q ref o opts og) (p, og) (merge_field get set name :: fs) =
         foldl (λ '(p, og) f, f p q ref o opts og) (set (or_keep (get p) (get q)) p, og') fs.
Proof.
  intros Hid Hf. cbn [foldl fst snd]. unfold merge_field, fills, IsMergeable in *.
  destruct (mo_strategy opts), (get p) as [x|], (get q) as [y|]; simpl; try done; rewrite ?Hid; by eexists.
Qed.

Lemma merge_fills p q ref o opts og settings :
  mo_strategy opts = AugmentedShallowMerge ∨ p = zero_ir ∧ (∀ s, mo_strategy opts ≠ OtherStrategy s) →
  ∃ og', mergeBackendConfigPolicies p q ref o opts og settings = Some (filled p q, og').
Proof.
  intros Hf. unfold mergeBackendConfigPolicies.
  assert (∀ A (get : PolIR → option A) p', get p' = get p → get zero_ir = None → fills get opts p') as Hfill.
  { intros A get p' Hp Hz. unfold fills. destruct Hf as [->|[-> Hn]]; [done|].
    destruct (mo_strategy opts); [done|by rewrite Hp..|by destruct (Hn s)]. }
  clear Hf. destruct p. unfold backendMergeFuncs, mergeConnectTimeout, mergePerConnectionBufferLimitBytes, mergeTcpKeepalive,
    mergeCommonHttpProtocolOptions, mergeHttp1ProtocolOptions, mergeHttp2ProtocolOptions, mergeTLSConfig,
    mergeLoadBalancerConfig, mergeHealthCheck, mergeOutlierDetection, mergeCircuitBreakers, mergeDnsRefreshRate,
    mergeDnsJitter, mergeRespectDnsTtl, mergeUpstreamProxyProtocol.
  repeat match goal with
  | |- context [foldl _ (?p, ?og) (merge_field ?get ?set ?name :: ?fs)] =>
      let H := fresh in
      destruct (merge_field_fills get set name p q ref o opts og fs) as [? H];
        [reflexivity|apply Hfill; reflexivity|]; rewrite H; clear H; cbv beta;
      cbn [bc_ct bc_connect_timeout bc_buffer_limit bc_keepalive bc_common_http bc_http1 bc_http2 bc_tls bc_lb
           bc_health_check bc_outlier bc_breakers bc_dns_refresh bc_dns_jitter bc_respect_ttl bc_proxy_protocol]
  end.
  by eexists.
Qed.

Lemma or_keep_none {A} (o : option A) : or_keep o None = o.
Proof. by destruct o. Qed.

Lemma setting_cons {A} (get : PolIR → option A) o p l :
  or_keep o (first_set get (p :: l)) = or_keep (or_keep o (get p)) (first_set get l).
Proof. unfold first_set. simpl. by destruct o, (get p). Qed.

Lemma fold_filled acc l : foldl filled acc l = filled acc (firsts l).
Proof.
  revert acc. induction l as [|p l IH]; intros acc; cbn [foldl].
  - destruct acc. unfold filled, firsts, first_set. cbn. by rewrite !or_keep_none.
  - rewrite IH. unfold filled, firsts. cbn -[first_set or_keep]. by rewrite !setting_cons.
Qed.

(** ** The merged policy *)

Context {P : Type} `{PO : PolicyIrOps P} `{PK : PolicyKind P PolIR} (zero : pk_zero = zero_ir).

Definition irs (pols : list (PolicyAtt P)) : list PolIR := omap (λ p, pk_as (pa_ir p)) pols.

#[global] Instance merge_cmp_wo : WeakOrder (merge_cmp (P := P)).
Proof.
  assert (∀ a b : PolicyAtt P, merge_cmp a b =
    (cmp_desc (cmp_on pa_weight Z.compare) ▷ ComparePoliciesByCreationTimeAndRef)%cmp a b) as H.
  { intros a b. unfold merge_cmp, then_cmp, cmp_desc at 1, cmp_on at 1.
    destruct (Z.eqb_spec (pa_weight a) (pa_weight b)) as [He|Hn]; simpl; [by rewrite He, Z.compare_refl|].
    destruct (Z.ltb_spec (pa_weight b) (pa_weight a)).
    - by rewrite (proj2 (Z.compare_lt_iff _ _)).
    - by rewrite (proj2 (Z.compare_gt_iff _ _)) by lia. }
  split; [intros x y; rewrite !H; apply (wo_opp _)|intros x y z; rewrite !H; apply (wo_trans _)].
Qed.

#[local] Arguments mergeBackendConfigPolicies : simpl never.

Lemma fold_valid_firsts acc og pols settings :
  Forall (λ p, is_Some (pk_as (pa_ir p))) pols →
  ∃ og', fold_valid mergeBackendConfigPolicies true settings (acc, og) pols = Some (foldl filled acc (irs pols), og').
Proof.
  intros Ht. revert acc og. induction Ht as [|p pols [t Hp] Ht IH]; intros acc og; cbn [fold_valid]; [by eexists|].
  rewrite Hp. cbn [mbind option_bind fst snd].
  destruct (merge_fills acc t (pa_ref p) (pa_origins p) (mkMO AugmentedShallowMerge true) og settings) as [og' Hm]; [by left|].
  cbn [GetMergeStrategy]. rewrite Hm. cbn [mbind option_bind]. unfold irs. simpl. rewrite Hp. apply IH.
Qed.

(** The policies attached to one backend merge to one policy without errors that takes each
    setting from the policy of the highest weight that has it, of those the oldest, of those
    the one whose reference is first; the order in which they were attached is irrelevant. *)
Theorem backend_config_merged pols h :
  pols ≠ [] → (∀ p, p ∈ pols → pa_hierarchy p = h) → valid pols → Forall (λ p, is_Some (pk_as (pa_ir p))) pols →
  ∃ out, plugin_MergePolicies pols = Some (Some out) ∧ pa_errors out = [] ∧
    pk_as (pa_ir out) = Some (firsts (irs (sortForMerge pols))) ∧
    StronglySorted (cmp_le merge_cmp) (sortForMerge pols) ∧
    ∀ pols', pols ≡ₚ pols' → (∀ a b, a ∈ pols → b ∈ pols → merge_cmp a b = Eq → a = b) →
      plugin_MergePolicies pols' = Some (Some out).
Proof.
  intros Hne Hh Hv Ht. unfold plugin_MergePolicies, sortForMerge.
  set (l := sort_stable merge_cmp pols). assert (l ≡ₚ pols) as Hl by apply sort_stable_perm.
  destruct l as [|p0 ps] eqn:El; [by apply Permutation_nil_l in Hl|].
  unfold valid in Hv. rewrite <- Hl in Hv, Ht. assert (∀ p, p ∈ p0 :: ps → pa_hierarchy p = h) as Hh' by (intros p; rewrite Hl; apply Hh).
  pose proof Ht as [[t0 Ht0] _]%Forall_cons.
  destruct (fold_valid_firsts zero_ir ∅ (p0 :: ps) "" Ht) as [og Hf]. rewrite fold_filled in Hf.
  set (merged := filled zero_ir (firsts (irs (p0 :: ps)))) in *.
  destruct (merge_fills zero_ir merged None og
    (mkMO (GetMergeStrategy (default UnsetPriority (pa_inherited <$> last (p0 :: ps))) false) false) ∅ "") as [og' Hm].
  { right. split; [done|]. intros s. by destruct (default UnsetPriority _). }
  assert (∃ out, MergePolicies mergeBackendConfigPolicies (p0 :: ps) "" = Some (Some out) ∧ pa_errors out = [] ∧
    pk_as (pa_ir out) = Some (firsts (irs (p0 :: ps)))) as (out & Ho & He & Hi).
  { rewrite (MergePolicies_one_level _ "" _ p0 t0 h) by done. rewrite zero, Hf. cbn [mbind option_bind]. rewrite Hm.
    eexists. split; [done|]. split; [done|]. simpl. by rewrite pk_as_of. }
  exists out. rewrite <- El. split_and!; [by rewrite El|done|by rewrite El|apply sort_stable_sorted, _|].
  intros pols' Hp Hinj. rewrite <- (sort_stable_perm_eq merge_cmp pols pols' Hinj Hp). fold l. by rewrite El.
Qed.
End merge_lemmas.

(** ** TLS *)

Section tls.
Context {Any Cert : Type} `{CL : CertLib Cert}.
Implicit Types (t : Api.TLS) (d : tlsData).

Definition system_ca t : bool := match Api.tls_well_known t with Some w => String.eqb w "System" | None => false end.

(** The peer's certificate is checked against the system's certificates when they are chosen and
    else against the root certificate of the data, and its names against exactly the configured ones. *)
Definition verified (c : CommonTlsContext Any) d t : Prop :=
  let names := map (mkSan SanDns) (Api.tls_sans t) in
  if system_ca t
  then ctc_validation c = Some (CombinedValidationContext (mkCVC None names None) (mkSds SystemCaSecretName None))
  else td_root d ≠ "" ∧
       ctc_validation c = Some (ValidationContext (mkCVC (Some (data_source (td_inline d) (td_root d))) names None)).

Definition wants_verification d t : Prop := system_ca t = true ∨ td_root d ≠ "" ∨ Api.tls_sans t ≠ [].

(** The client certificate is the cleaned key pair of the data. *)
Definition presents_pair (c : CommonTlsContext Any) d : Prop :=
  ∃ cleaned, CleanedSslKeyPair (td_chain d) (td_key d) = inr cleaned ∧
    ctc_certificates c = [(data_source (td_inline d) cleaned, data_source (td_inline d) (td_key d))].

Definition no_pair d : bool := String.eqb (td_chain d) "" && String.eqb (td_key d) "".

Lemma certificate_context_spec d (c c' : CommonTlsContext Any) :
  buildCertificateContext d c = inr c' →
  ctc_validation c' = ctc_validation c ∧ ctc_params c' = ctc_params c ∧
  if no_pair d then ctc_certificates c' = ctc_certificates c else presents_pair c' d.
Proof.
  unfold buildCertificateContext, no_pair.
  destruct (String.eqb_spec (td_chain d) "") as [H1|H1], (String.eqb_spec (td_key d) "") as [H2|H2]; simpl; try done.
  - by intros [= <-].
  - destruct (CleanedSslKeyPair _ _) as [|cleaned] eqn:E; [done|]. intros [= <-]. simpl.
    split_and!; [done..|]. by exists cleaned.
Qed.

Lemma validation_context_spec d t (c c' : CommonTlsContext Any) :
  buildValidationContext d t c = inr c' →
  ctc_certificates c' = ctc_certificates c ∧ ctc_params c' = ctc_params c ∧
  (wants_verification d t → verified c' d t) ∧ (~ wants_verification d t → ctc_validation c' = ctc_validation c).
Proof.
  unfold buildValidationContext, verified, wants_verification. fold (system_ca t). destruct (system_ca t).
  - intros [= <-]. simpl. split_and!; try done. intros Hn. contradict Hn. by left.
  - destruct (String.eqb_spec (td_root d) "") as [Hr|Hr].
    + unfold verifySanListToTypedMatchSanList. destruct (Api.tls_sans t) eqn:Es; simpl; [|done]. intros [= <-].
      split_and!; try done. by intros [?|[?|?]].
    + intros [= <-]. simpl. split_and!; try done. intros Hn. contradict Hn. right. by left.
Qed.

Lemma tls_config_spec secrets t ns ctx :
  translateTLSConfig (Any := Any) secrets t ns = inr ctx →
  ∃ c, utc_common ctx = Some c ∧ parseTLSParameters (Api.tls_params t) = inr (ctc_params c) ∧
    if default false (Api.tls_insecure t)
    then ctc_validation c = Some (ValidationContext (mkCVC None [] None)) ∧ ctc_certificates c = []
    else ∃ d, extractTLSData t secrets ns = inr d ∧
      (wants_verification d t → verified c d t) ∧ (~ wants_verification d t → ctc_validation c = None) ∧
      if default false (Api.tls_simple t) || no_pair d then ctc_certificates c = [] else presents_pair c d.
Proof.
  unfold translateTLSConfig. destruct (parseTLSParameters (Api.tls_params t)) as [|params]; [done|].
  destruct (default false (Api.tls_insecure t)) eqn:Ei.
  { intros [= <-]. eexists. done. }
  unfold buildTLSContext. destruct (extractTLSData t secrets ns) as [|d]; [done|].
  destruct (default false (Api.tls_simple t)); cbn [orb].
  - destruct (buildValidationContext d t _) as [|c] eqn:Ev; [done|]. intros [= <-].
    apply validation_context_spec in Ev as (Hc & Hp & Hv & Hn). exists c. simpl in *. split_and!; [done|by rewrite Hp|].
    by exists d.
  - destruct (buildCertificateContext d _) as [|c0] eqn:Ec; [done|].
    destruct (buildValidationContext d t c0) as [|c] eqn:Ev; [done|]. intros [= <-].
    apply certificate_context_spec in Ec as (Hv0 & Hp0 & Hc0).
    apply validation_context_spec in Ev as (Hc & Hp & Hv & Hn). exists c. simpl in *.
    rewrite Hv0 in Hn. rewrite Hp, Hp0. split_and!; [done..|]. exists d. unfold presents_pair in *.
    rewrite Hc. done.
Qed.

(** C26: What a TLS configuration does that translates, does not switch verification off, takes its
    credentials from a Secret or has none, and names no well-known certificates but the
    system's.  When names are configured, the Secret has a root certificate, or the system's
    certificates are chosen, the peer is verified against the system's certificates or else that
    root certificate, with exactly the configured names; otherwise it is not verified.  The
    client certificate is the valid pair of certificate and key of the Secret, unless it has
    neither or simple TLS is asked for; then there is none. *)
Theorem upstream_tls_sound secrets t ns ctx :
  translateTLSConfig (Any := Any) secrets t ns = inr ctx →
  default false (Api.tls_insecure t) = false → Api.tls_files t = None →
  (∀ w, Api.tls_well_known t = Some w → w = "System") →
  ∃ c d, utc_common ctx = Some c ∧ extractTLSData t secrets ns = inr d ∧
    (Api.tls_secret t ≠ None → td_inline d = true) ∧
    (Api.tls_well_known t ≠ None ∨ td_root d ≠ "" ∨ Api.tls_sans t ≠ [] → verified c d t) ∧
    (Api.tls_well_known t = None ∧ td_root d = "" ∧ Api.tls_sans t = [] → ctc_validation c = None) ∧
    if default false (Api.tls_simple t) || no_pair d then ctc_certificates c = [] else presents_pair c d.
Proof.
  intros (c & Hc & _ & Hi)%tls_config_spec Hins Hf Hw. rewrite Hins in Hi. destruct Hi as (d & Hd & Hv & Hn & Hp).
  exists c, d. split_and!; [done..| | | |done].
  - intros Hs. unfold extractTLSData, extractFromSecret in Hd. destruct (Api.tls_secret t) as [n|]; [|done].
    destruct (GetSecretWithoutRefGrant secrets n ns); [done|]. by injection Hd as <-.
  - intros [Hwk|?]; apply Hv; [left|by right]. unfold system_ca.
    destruct (Api.tls_well_known t) as [w|]; [|done]. by rewrite (Hw w eq_refl).
  - intros (Hwk & Hr & Hs). apply Hn. unfold wants_verification, system_ca. rewrite Hwk. naive_solver.
Qed.

(** The protocols that are offered are the configured ones, also when there are none. *)
Theorem empty_alpn_not_defaulted secrets t ns ctx :
  Api.tls_alpn t = [] → translateTLSConfig (Any := Any) secrets t ns = inr ctx → (ctc_alpn <$> utc_common ctx) = Some [].
Proof.
  intros Ha. unfold translateTLSConfig, buildTLSContext, buildValidationContext, buildCertificateContext. rewrite Ha.
  intros H. repeat case_match; simplify_eq/=; done.
Qed.

(** Client certificates in files: the text that must parse as a key pair is that of the paths,
    so a path to a certificate is rejected, and what is accepted puts the certificate itself
    where Envoy expects the name of a file. *)
Theorem file_certificates_parse_paths secrets t ns ctx f cert key :
  Api.tls_secret t = None → Api.tls_files t = Some f → Api.tf_cert f = Some cert → Api.tf_key f = Some key →
  cert ≠ "" → default false (Api.tls_insecure t) = false → default false (Api.tls_simple t) = false →
  translateTLSConfig (Any := Any) secrets t ns = inr ctx →
  X509KeyPair cert key = None ∧
  ∃ c cleaned, utc_common ctx = Some c ∧ CleanedSslKeyPair cert key = inr cleaned ∧
    ctc_certificates c = [(Filename cleaned, Filename key)].
Proof.
  intros Hs Hf Hc Hk Hne Hi Hsi H. apply tls_config_spec in H as (c & Hcommon & _ & H).
  rewrite Hi in H. destruct H as (d & Hd & _ & _ & H). rewrite Hsi in H.
  unfold extractTLSData in Hd. rewrite Hs, Hf in Hd. injection Hd as <-.
  unfold extractFromFiles, presents_pair, no_pair in H. rewrite Hc, Hk in H. simpl in H.
  rewrite (proj2 (String.eqb_neq _ _) Hne) in H. destruct H as (cleaned & Hcl & Hcert). split; [|by exists c, cleaned].
  unfold CleanedSslKeyPair in Hcl. by destruct (X509KeyPair cert key).
Qed.

(** A name of well-known certificates other than [System] is accepted, and the connection is
    not verified at all. *)
Theorem unsupported_ca_unverified secrets ns w :
  w ≠ "System" →
  translateTLSConfig (Any := Any) secrets (Api.mkTLS None None (Some w) None None [] None [] None None) ns =
  inr (mkUTC (Some (mkCTC [] [] None [] None None)) "" false None).
Proof.
  intros Hw. unfold translateTLSConfig, buildTLSContext, buildValidationContext. simpl.
  by rewrite (proj2 (String.eqb_neq _ _) Hw).
Qed.
End tls.

(** ** What the hook does to a cluster *)

Section process_lemmas.
Context {P Any V Fl : Type} `{TL : TransportLib Any} `{FL : ConfigLib Any Fl}.
Implicit Types (pol : BackendConfigPolicyIR Any) (b : BackendObjectIR P) (c : Cluster Any V) (s : option (TransportSocket Any)).

(** The socket [s] after the PROXY wrapper of the policy. *)
Definition proxied pol s : option (TransportSocket Any) :=
  match bc_proxy_protocol pol with
  | None => s
  | Some v =>
      match (match s with
             | Some s => inr s
             | None => match Marshal_RawBuffer with inl err => inl err | inr a => inr (mkTS TransportSocketRawBuffer (Some a)) end
             end) with
      | inl _ => s
      | inr inner =>
          match Marshal_Proxy (mkPPT (Some inner) (Some v) None) with
          | inl _ => s
          | inr a => Some (mkTS proxyProtocolSocketName (Some a))
          end
      end
  end.

(** The socket of a cluster whose socket was [s]. *)
Definition processed_socket pol b s : option (TransportSocket Any) :=
  match bc_tls pol with
  | Some tls =>
      if hasBackendTLSPolicy b then proxied pol s
      else match Marshal_Tls tls with
           | inl _ => s
           | inr a => proxied pol (Some (mkTS TransportSocketTls (Some a)))
           end
  | None => proxied pol s
  end.

Section sockets.
Context (s : option (TransportSocket Any)) (ms : list (SocketMatch Any V)).

Lemma mutate_sockets m c : MutateHttpOptions m (with_sockets s ms c) = with_sockets s ms (MutateHttpOptions m c).
Proof.
  unfold MutateHttpOptions. simpl.
  destruct (c_protocol_options c !! http_options_name) as [a|]; [destruct (Unmarshal_Http a); [done|]|];
    by destruct (Marshal_Http _).
Qed.

Lemma http_sockets pol b c :
  applyHttp2ProtocolOptions (bc_http2 pol) b (applyHttp1ProtocolOptions (bc_http1 pol) b
    (applyCommonHttpProtocolOptions (bc_common_http pol) (with_sockets s ms c))) =
  with_sockets s ms (applyHttp2ProtocolOptions (bc_http2 pol) b (applyHttp1ProtocolOptions (bc_http1 pol) b
    (applyCommonHttpProtocolOptions (bc_common_http pol) c))).
Proof.
  unfold applyHttp2ProtocolOptions, applyHttp1ProtocolOptions, applyCommonHttpProtocolOptions.
  by repeat (case_match; rewrite ?mutate_sockets).
Qed.

Lemma lb_sockets cfg c :
  applyLoadBalancerConfig cfg (with_sockets s ms c) =
  ((applyLoadBalancerConfig cfg c).1, with_sockets s ms (applyLoadBalancerConfig cfg c).2).
Proof. done. Qed.

Lemma health_sockets o c : applyHealthCheck o (with_sockets s ms c) = with_sockets s ms (applyHealthCheck o c).
Proof. unfold applyHealthCheck. by repeat case_match. Qed.

Lemma dns_sockets pol c : applyDnsClusterConfig pol (with_sockets s ms c) = with_sockets s ms (applyDnsClusterConfig pol c).
Proof. unfold applyDnsClusterConfig. simpl. by repeat case_match. Qed.

Lemma proxy_sockets pol c :
  match bc_proxy_protocol pol with Some v => applyUpstreamProxyProtocol v (with_sockets s ms c) | None => with_sockets s ms c end =
  with_sockets (proxied pol s) ms c.
Proof.
  unfold proxied, applyUpstreamProxyProtocol, inner_socket. simpl. destruct (bc_proxy_protocol pol) as [v|]; [|done].
  destruct s; [|destruct Marshal_RawBuffer; [done|]]; by destruct (Marshal_Proxy _).
Qed.

Lemma after_sockets_sockets pol c :
  after_sockets pol (with_sockets s ms c) = ((after_sockets pol c).1, with_sockets s ms (after_sockets pol c).2).
Proof.
  unfold after_sockets. destruct (bc_lb pol) as [cfg|].
  - rewrite lb_sockets. destruct (applyLoadBalancerConfig cfg c) as [cfg' c']. simpl fst. simpl snd.
    cbv beta iota. rewrite health_sockets. set (h := applyHealthCheck _ c'). clearbody h.
    cbn [fst snd]. f_equal. apply (dns_sockets pol (with_settings _ h)).
  - rewrite health_sockets. set (h := applyHealthCheck _ c). clearbody h.
    cbn [fst snd]. f_equal. apply (dns_sockets pol (with_settings _ h)).
Qed.
End sockets.

Lemma sockets_id c : with_sockets (c_socket c) (c_matches c) c = c.
Proof. by destruct c. Qed.

(** The hook reads the socket for nothing but the socket, and leaves the matches alone. *)
Lemma process_sockets pol b c s ms :
  processBackend pol b (with_sockets s ms c) =
  ((processBackend pol b c).1, with_sockets (processed_socket pol b s) ms (processBackend pol b c).2).
Proof.
  unfold processBackend, processed_socket.
  change (with_settings (connection_settings pol (c_rest (with_sockets s ms c))) (with_sockets s ms c))
    with (with_sockets s ms (with_settings (connection_settings pol (c_rest c)) c)).
  rewrite http_sockets. set (c1 := applyHttp2ProtocolOptions _ _ _). clearbody c1.
  assert (∀ s', match bc_proxy_protocol pol with
      | Some v => applyUpstreamProxyProtocol v (with_socket s' c1) | None => with_socket s' c1 end =
    with_sockets (proxied pol s') (c_matches c1) c1) as Hown by (intros s'; apply proxy_sockets).
  pose proof (Hown (c_socket c1)) as Hself. unfold with_socket in Hself. rewrite sockets_id in Hself.
  unfold applyTLS. destruct (bc_tls pol) as [tls|]; [destruct (hasBackendTLSPolicy b); [|destruct (Marshal_Tls tls)]|].
  - by rewrite proxy_sockets, Hself, !after_sockets_sockets.
  - done.
  - rewrite Hown. change (with_socket ?x (with_sockets s ms c1)) with (with_sockets x ms c1).
    rewrite proxy_sockets, !after_sockets_sockets. done.
  - by rewrite proxy_sockets, Hself, !after_sockets_sockets.
Qed.

(** *** The shared policy *)

Lemma mutate_discovery m c : c_discovery (MutateHttpOptions m c) = c_discovery c.
Proof.
  unfold MutateHttpOptions. destruct (c_protocol_options c !! http_options_name) as [a|]; [destruct (Unmarshal_Http a); [done|]|];
    by destruct (Marshal_Http _).
Qed.

Lemma http_discovery pol b c :
  c_discovery (applyHttp2ProtocolOptions (bc_http2 pol) b (applyHttp1ProtocolOptions (bc_http1 pol) b
    (applyCommonHttpProtocolOptions (bc_common_http pol) c))) = c_discovery c.
Proof.
  unfold applyHttp2ProtocolOptions, applyHttp1ProtocolOptions, applyCommonHttpProtocolOptions.
  by repeat (case_match; rewrite ?mutate_discovery).
Qed.

Lemma proxy_discovery v c : c_discovery (applyUpstreamProxyProtocol v c) = c_discovery c.
Proof. unfold applyUpstreamProxyProtocol. by repeat case_match. Qed.

Lemma supports_discovery c c' : c_discovery c = c_discovery c' → supportsHostnameForHashing c = supportsHostnameForHashing c'.
Proof. unfold supportsHostnameForHashing. by intros ->. Qed.

Lemma after_sockets_policy pol c :
  (∀ lb, bc_lb pol = Some lb → lbi_use_hostname lb = true → supportsHostnameForHashing c = true) →
  (after_sockets pol c).1 = pol.
Proof.
  intros H. unfold after_sockets, applyLoadBalancerConfig. destruct (bc_lb pol) as [lb|] eqn:El; simpl; [|by destruct pol; simpl in *; subst].
  destruct (lbi_use_hostname lb) eqn:Eu; simpl; [rewrite (H lb) by done; simpl|]; by destruct pol; simpl in *; subst.
Qed.

(** Where hostname hashing is not asked for, or the cluster supports it, the hook leaves the
    policy that it shares with other clusters as it was. *)
Theorem process_keeps_policy pol b c :
  (∀ lb, bc_lb pol = Some lb → lbi_use_hostname lb = true → supportsHostnameForHashing c = true) →
  (processBackend pol b c).1 = pol.
Proof.
  intros H. unfold processBackend.
  pose proof (http_discovery pol b (with_settings (connection_settings pol (c_rest c)) c)) as Hd.
  set (c1 := applyHttp2ProtocolOptions _ _ _) in *. clearbody c1.
  destruct (applyTLS pol b c1) as [c2|] eqn:E; [|done]. apply after_sockets_policy. intros lb Hl Hu.
  rewrite <- (H lb Hl Hu). apply supports_discovery.
  assert (c_discovery c2 = c_discovery c1) as H2 by (unfold applyTLS in E; repeat case_match; simplify_eq; done).
  rewrite Hd in H2. by destruct (bc_proxy_protocol pol); rewrite ?proxy_discovery.
Qed.

(** Validation tries a policy on a backend that does not speak HTTP/2, so its verdict says
    nothing about the HTTP/2 options. *)
Theorem validation_skips_http2 {Hdr} `{EL : EnvoyLib Any Hdr (Cluster Any V)} present mode pol o :
  let with_http2 := mkIR (bc_ct pol) (bc_connect_timeout pol) (bc_buffer_limit pol) (bc_keepalive pol) (bc_common_http pol)
    (bc_http1 pol) o (bc_tls pol) (bc_lb pol) (bc_health_check pol) (bc_outlier pol) (bc_breakers pol) (bc_dns_refresh pol)
    (bc_dns_jitter pol) (bc_respect_ttl pol) (bc_proxy_protocol pol) in
  (validateXDS (P := P) (V := V) (Hdr := Hdr) present mode with_http2).2 =
  (validateXDS (P := P) (V := V) (Hdr := Hdr) present mode pol).2.
Proof.
  intros q. unfold validateXDS. destruct mode, present; try done.
  change (test_discovery q) with (test_discovery pol). destruct (test_discovery pol) as [|d]; [done|].
  assert (∀ c : Cluster Any V, (after_sockets q c).2 = (after_sockets pol c).2) as Hafter.
  { intros c. unfold after_sockets. change (bc_lb q) with (bc_lb pol). by destruct (bc_lb pol). }
  assert ((processBackend q (dummyBackend (P := P)) (test_cluster d : Cluster Any V)).2 =
          (processBackend pol (dummyBackend (P := P)) (test_cluster d)).2) as Hp.
  { unfold processBackend. assert (∀ o' c, applyHttp2ProtocolOptions o' (dummyBackend (P := P)) c = c) as Hno by by intros [?|] c.
    rewrite !Hno. change (applyTLS q) with (applyTLS (P := P) (V := V) pol).
    by destruct (applyTLS pol _ _); [apply Hafter|]. }
  destruct (processBackend q _ _), (processBackend pol _ _). simpl in *. by subst.
Qed.
End process_lemmas.

(** ** Examples *)

Inductive ex_msg :=
| MText (s : string)
| MTls (c : UpstreamTlsContext ex_msg)
| MProxy (w : ProxyProtocolTransport ex_msg)
| MDns (d : DnsCluster ex_msg)
| MLb (m : LbMessage string)
| MHttp (o : HttpProtocolOptions ex_msg).

#[local] Instance ex_msg_transport : TransportLib ex_msg := {|
  Unmarshal_Tls a := match a with MTls c => inr c | _ => inl (EMsg "not a TLS context") end;
  Marshal_Tls c := inr (MTls c);
  Unmarshal_Proxy a := match a with MProxy w => inr w | _ => inl (EMsg "not a PROXY context") end;
  Marshal_Proxy w := inr (MProxy w);
  Unmarshal_Dns a := match a with MDns d => inr d | _ => inl (EMsg "not a DNS cluster") end;
  Marshal_Dns d := inr (MDns d)
|}.
#[local] Instance ex_msg_transport_laws : TransportLaws (Any := ex_msg).
Proof. by split; intros c a [= <-]. Qed.

#[local] Instance ex_msg_config : ConfigLib ex_msg string := {|
  Marshal_Lb m := inr (MLb m);
  Unmarshal_Lb a := match a with MLb m => inr m | _ => inr OtherMsg end;
  Marshal_Http o := inr (MHttp o);
  Unmarshal_Http a := match a with MHttp o => inr o | _ => inl (EMsg "not HTTP options") end;
  Marshal_RawBuffer := inr (MText "raw");
  Marshal_PreserveCase := inr (MText "preserve");
  ParseFloat s := if String.eqb s "" then inl (EMsg "invalid syntax") else inr s;
  RequestMethod_value := {["GET" := 1%Z; "HEAD" := 2%Z]};
  Validate_CircuitBreakers _ := None
|}.

(** Certificates are texts that start with [cert], keys texts that start with [key]. *)
#[local] Instance ex_certs : CertLib string := {|
  X509KeyPair c k := if has_prefix c "cert" && has_prefix k "key" then None else Some (EMsg "failed to find any PEM data");
  ParseCertsPEM c := if has_prefix c "cert" then inr [c] else inl (EMsg "data does not contain any valid certificates");
  EncodeCertificates cs := inr (join "" cs)
|}.

Definition ex_secrets : SecretIndex :=
  mkSI {[mkGK "" "Secret" := [mkSecret (mkOS "" "Secret" "ns" "creds") None
    {["tls.crt" := "cert-a"; "tls.key" := "key-a"; "ca.crt" := "cert-ca"]}]]} (mkRGI [] ReferenceGrantStrict).

Definition ex_tls_spec : Api.TLS := Api.mkTLS (Some "creds") None None None (Some "svc") ["svc.local"] None ["h2"] None None.

Lemma upstream_tls_sound_witness :
  ∃ ctx c d, translateTLSConfig (Any := ex_msg) ex_secrets ex_tls_spec "ns" = inr ctx ∧ utc_common ctx = Some c ∧
    verified c d ex_tls_spec ∧ td_root d = "cert-ca" ∧
    ctc_certificates c = [(InlineString "cert-a", InlineString "key-a")].
Proof.
  destruct (translateTLSConfig (Any := ex_msg) ex_secrets ex_tls_spec "ns") as [|ctx] eqn:E; [by vm_compute in E|].
  destruct (upstream_tls_sound ex_secrets ex_tls_spec "ns" ctx E) as (c & d & Hc & Hd & _ & Hv & _ & _);
    [reflexivity..|discriminate|].
  exists ctx, c, d. split; [done|]. split; [exact Hc|].
  split; [apply Hv; right; right; discriminate|]. split; [vm_compute in Hd; by injection Hd as <-|].
  vm_compute in E. injection E as <-. injection Hc as <-. reflexivity.
Defined.

(** A client certificate by the path of a file is rejected. *)
Example file_path_rejected :
  translateTLSConfig (Any := ex_msg) ex_secrets
    (Api.mkTLS None (Some (Api.mkFiles (Some "/etc/certs/tls.crt") (Some "/etc/certs/tls.key") None)) None None None [] None []
       None None) "ns" =
  inl (EWrap "invalid certificate and key pair: " (EMsg "failed to find any PEM data")).
Proof. by vm_compute. Qed.

(** *** A policy on two clusters *)

Abbreviation ex_pol := (BackendConfigPolicyIR ex_msg).
Abbreviation ex_cl := (Cluster ex_msg string).

Definition ex_lb_spec : Api.LoadBalancer :=
  Api.mkLB None None None None (Some (Api.mkRing None None (Some true) [])) None false None None None.
Definition ex_spec (t : Z) (name : string) (timeout : option Z) (lb : Api.LoadBalancer) : Api.BackendConfigPolicy :=
  Api.mkBCP t name "ns" timeout None None None None None None None (Some lb) None None None None.

Definition ex_static : ex_cl := mkCluster "static" (Some (DType STATIC)) None None None None None [] ∅ no_settings.
Definition ex_dns : ex_cl := mkCluster "dns" (Some (DType STRICT_DNS)) None None None None None [] ∅ no_settings.

Definition hashes_hostnames (c : ex_cl) : bool :=
  match c_lb_policy c with
  | Some (mkTEC _ (Some (MLb (RingHashMsg _ _ (Some h) _))) :: _) => cho_use_hostname h
  | _ => false
  end.

(** A policy that hashes hostnames does so on a DNS cluster, but no longer once it has been
    applied to a cluster that cannot: the hook rewrote the policy itself. *)
Theorem hostname_hashing_lost :
  let '(pol, _) := translate (Cert := string) ex_secrets (ex_spec 1 "p" None ex_lb_spec) in
  let b : BackendObjectIR ex_pol := NewBackendObjectIR (mkOS "" "Service" "ns" "svc") 80 "" "" in
  let '(pol', _) := processBackend pol b ex_static in
  hashes_hostnames (processBackend pol b ex_dns).2 = true ∧ hashes_hostnames (processBackend pol' b ex_dns).2 = false.
Proof. by vm_compute. Qed.

(** *** Two policies on one backend *)

#[local] Program Instance ex_pol_kind : PolicyKind ex_pol ex_pol := {| pk_as := Some; pk_of := id; pk_zero := zero_ir |}.
Next Obligation. done. Qed.
#[local] Instance ex_pol_ops : PolicyIrOps ex_pol := {| pi_creation_time := bc_ct |}.

Definition ex_att (t : Z) (name : string) (timeout : option Z) (lb : Api.LoadBalancer) : PolicyAtt ex_pol :=
  mkPA BackendConfigPolicyGK 1 (translate (Cert := string) ex_secrets (ex_spec t name timeout lb)).1
    (Some (mkAPR "gateway.kgateway.dev" "BackendConfigPolicy" name "ns" "")) UnsetPriority [] 0 0 ∅.

Definition ex_round_robin (zone : option (option Api.ZoneAwarePreferLocal)) : Api.LoadBalancer :=
  Api.mkLB None None None (Some (Api.mkRound None)) None None false None zone None.
Definition ex_plain : PolicyAtt ex_pol := ex_att 1 "old" None (ex_round_robin None).
Definition ex_zone : PolicyAtt ex_pol := ex_att 2 "new" (Some 7%Z) (ex_round_robin (Some (Some (Api.mkPrefer None None None)))).

Lemma backend_config_merged_witness :
  ∃ out, plugin_MergePolicies [ex_zone; ex_plain] = Some (Some out) ∧ bc_connect_timeout (pa_ir out) = Some 7%Z ∧
    (lbi_zone_aware <$> bc_lb (pa_ir out)) = Some false ∧ plugin_MergePolicies [ex_plain; ex_zone] = Some (Some out).
Proof.
  destruct (backend_config_merged (P := ex_pol) (PK := ex_pol_kind) eq_refl [ex_zone; ex_plain] 0) as (out & Ho & _ & Hi & _ & Hp).
  - done.
  - intros p [->|[->|[]%not_elem_of_nil]%elem_of_cons]%elem_of_cons; reflexivity.
  - by repeat constructor.
  - repeat constructor; by eexists.
  - exists out. split; [exact Ho|]. injection Hi as Hi. rewrite Hi. split; [by vm_compute|]. split; [by vm_compute|].
    apply Hp; [by apply Permutation_swap|].
    intros a b [->|[->|[]%not_elem_of_nil]%elem_of_cons]%elem_of_cons [->|[->|[]%not_elem_of_nil]%elem_of_cons]%elem_of_cons;
      (reflexivity || (intros H; by vm_compute in H)).
Defined.

(** The older policy wins the load balancer, without zone-aware routing; the endpoint hook finds
    the zone-aware policy that lost and drops the traffic distribution of the Service for it. *)
Theorem losing_zone_aware_applies :
  let row : EndpointRow ex_pol := mkRow ∅ {[BackendConfigPolicyGK := [ex_plain; ex_zone]]} ∅ "svc" "svc" 80 "" TDPreferSameZone 0 0 0 0 None in
  (lbi_zone_aware <$> (o ← mjoin (plugin_MergePolicies [ex_plain; ex_zone]); bc_lb (pa_ir o))) = Some false ∧
  (λ r : Z * EndpointInputsResolver ex_pol, row_traffic (ri_row (eir_inputs r.2))) <$>
    run_edit (λ _, "") (λ _, []) (processEndpoints (Any := ex_msg) (mkUCC "" ∅ (mkLoc "" "" "") "" false ""))
      (NewEndpointInputsResolver (mkRI row None)) = Some TDAny.
Proof. by vm_compute. Qed.
