(* ===== verification/BackendTlsPolicy.v ===== *)
(** * TLS towards backends (extensions2/plugins/backendtlspolicy, plugins/istio,
      plugins/backendconfigpolicy/status.go, proxy_syncer/status.go)

    The BackendTLSPolicy of the Gateway API gives a backend its TLS context; of several the
    oldest wins, also when it is invalid.  The istio plugin adds socket matches for mutual TLS.
    Together with BackendConfigPolicy these are the plugins that change the base cluster of a
    backend, and translation runs them in the order of a Go map.  The file also has the status
    both kinds of policy report.

    A policy IR is a value of [P], and the dynamic types are the classes [PolicyKind].  The
    value of a match of endpoint metadata is [V], with its strings. *)

From S2P Require Import Prelude IR PolicyMerge References PolicyIndex Endpoints Hashing GatewayIndex SslUtils EnvoyRoute ValidatorCache EndpointEditor Reports RouteConfig BackendCluster BackendConfigPolicy.

(** ** The resource *)

Record CACertificateRef := mkCARef { car_group : string; car_kind : string; car_name : string }.

Inductive SubjectAltName := SubjectHostname (h : string) | SubjectURI (u : string) | SubjectOther (type : string).

Record BackendTLSPolicyValidation := mkVal {
  bv_ca_refs : list CACertificateRef; bv_well_known : option string; bv_hostname : string;
  bv_sans : list SubjectAltName }.

Record BackendTLSPolicy := mkBTLSP { tpo_created : Z; tpo_namespace : string; tpo_name : string;
  tpo_validation : BackendTLSPolicyValidation }.

(** ** Translation *)

Section btp.
Context {Any : Type} `{TL : TransportLib Any}.

Record backendTlsPolicy := mkBTPIR { btp_ct : Z; btp_socket : option (TransportSocket Any) }.

(** [backendTlsPolicy.Equals]. *)
Definition btp_Equals `{EqDecision Any} (d d2 : backendTlsPolicy) : bool :=
  match btp_socket d, btp_socket d2 with
  | Some a, Some b => String.eqb (ts_name a) (ts_name b) && bool_decide (ts_typed a = ts_typed b)
  | None, None => true
  | _, _ => false
  end.

Definition convertSubjectAltNames (v : BackendTLSPolicyValidation) : list SanMatcher :=
  match bv_sans v with
  | [] => if String.eqb (bv_hostname v) "" then [] else [mkSan SanDns (bv_hostname v)]
  | sans =>
      omap (λ s, match s with
                 | SubjectHostname h => Some (mkSan SanDns h)
                 | SubjectURI u => Some (mkSan SanUri u)
                 | SubjectOther _ => None
                 end) sans
  end.

Definition localObjectRefString (kind : string) (ref : CACertificateRef) : string := kind +:+ "/" +:+ car_name ref.

(** [pluginutils.ResolveUpstreamSslConfigFromCA] and [ResolveCommonSslConfigFromCA]. *)
Definition ResolveUpstreamSslConfigFromCA (caCert : string) (sans : list SanMatcher) (sni : string) : UpstreamTlsContext Any :=
  mkUTC (Some (mkCTC [] [] (Some (mkTlsParams None None [] [] [])) []
           (Some (ValidationContext (mkCVC (Some (InlineString caCert)) sans None))) None)) sni false None.

Definition system_context (sans : list SanMatcher) (hostname : string) : UpstreamTlsContext Any :=
  mkUTC (Some (mkCTC [] [] None []
           (Some (CombinedValidationContext (mkCVC None sans None) (mkSds SystemCaSecretName None))) None)) hostname false None.

Context {Cert : Type} `{CL : CertLib Cert} (cfgmaps : list ConfigMap) (secrets : SecretIndex).

(** The certificate a reference names: the first two branches of the inner switch. *)
Definition ca_certificate (ns : string) (refKind : string) (ref : CACertificateRef) : error + string :=
  let invalid := EInvalidCACertificateRef (localObjectRefString refKind ref) in
  if String.eqb refKind "ConfigMap" then
    let nn := mkNN ns (car_name ref) in
    match List.find (λ cm, bool_decide (mkNN (cm_namespace cm) (cm_name cm) = nn)) cfgmaps with
    | None => inl (invalid (EWrap2 (ESentinel ErrConfigMapNotFound) ": " (EMsg (nn_string nn))))
    | Some cm => match GetCACertFromConfigMap cm with inl err => inl (invalid err) | inr c => inr c end
    end
  else if String.eqb refKind "Secret" then
    match GetSecretWithoutRefGrant secrets (car_name ref) ns with
    | inl err => inl (invalid (EWrap2 (ESentinel ErrSecretNotFound) ": " err))
    | inr s => match GetCACertFromSecret s with inl err => inl (invalid err) | inr c => inr c end
    end
  else inl (EInvalidKind (car_group ref) refKind).

(** The TLS context of a policy. *)
Definition tls_context (pol : BackendTLSPolicy) : error + UpstreamTlsContext Any :=
  let v := tpo_validation pol in
  let sans := convertSubjectAltNames v in
  if String.eqb (default "" (bv_well_known v)) "System" then inr (system_context sans (bv_hostname v))
  else match bv_ca_refs v with
       | ref :: _ =>
           let refKind := if String.eqb (car_kind ref) "" then "ConfigMap" else car_kind ref in
           match ca_certificate (tpo_namespace pol) refKind ref with
           | inl err => inl err
           | inr caCert => inr (ResolveUpstreamSslConfigFromCA caCert sans (bv_hostname v))
           end
       | [] => inl (ESentinel ErrInvalidValidationSpec)
       end.

(** [buildTranslateFunc]: the policy and the error. *)
Definition translate_btp (pol : BackendTLSPolicy) : backendTlsPolicy * option error :=
  match tls_context pol with
  | inl err => (mkBTPIR (tpo_created pol) None, Some err)
  | inr ctx =>
      match Marshal_Tls ctx with
      | inl _ => (mkBTPIR (tpo_created pol) None, Some (ESentinel ErrParsingTLSConfig))
      | inr a => (mkBTPIR (tpo_created pol) (Some (mkTS TransportSocketTls (Some a))), None)
      end
  end.

(** ** The hook *)

Definition replaceInnerInProxyProtocol (wrapper inner : TransportSocket Any) : option (TransportSocket Any) :=
  match ts_typed wrapper with
  | None => None
  | Some typed =>
      match Unmarshal_Proxy typed with
      | inl _ => None
      | inr pp =>
          match Marshal_Proxy (mkPPT (Some inner) (ppt_config pp) (ppt_rest pp)) with
          | inl _ => None
          | inr repacked => Some (mkTS (ts_name wrapper) (Some repacked))
          end
      end
  end.

(** The socket that replaces [existing]. *)
Definition replaced_socket (tls : TransportSocket Any) (existing : option (TransportSocket Any)) : TransportSocket Any :=
  match existing with
  | Some e => if String.eqb (ts_name e) proxyProtocolSocketName then default tls (replaceInnerInProxyProtocol e tls) else tls
  | None => tls
  end.

Definition btp_processBackend {V} (tlsPol : backendTlsPolicy) (out : Cluster Any V) : Cluster Any V :=
  match btp_socket tlsPol with
  | None => out
  | Some tls => with_socket (Some (replaced_socket tls (c_socket out))) out
  end.

End btp.
Arguments backendTlsPolicy : clear implicits.

(** ** Several policies on one backend (helpers.go) *)

Section helpers.
Context {P : Type} `{PO : PolicyIrOps P}.

(** [MergePolicies]: [None] is the zero value. *)
Definition btp_MergePolicies (policies : list (PolicyAtt P)) : option (PolicyAtt P) :=
  match policies with [] => None | _ => policies !! WinnerPolicyIndexByCreationTimeAndRef policies end.

Definition samePolicy (a b : PolicyAtt P) : bool :=
  match pa_ref a, pa_ref b with
  | Some ra, Some rb =>
      (pa_generation a =? pa_generation b)%Z && String.eqb (apr_group ra) (apr_group rb) &&
      String.eqb (apr_kind ra) (apr_kind rb) && String.eqb (apr_namespace ra) (apr_namespace rb) &&
      String.eqb (apr_name ra) (apr_name rb) && String.eqb (apr_section ra) (apr_section rb)
  | _, _ => (pa_generation a =? pa_generation b)%Z &&
            (pi_creation_time (pa_ir a) =? pi_creation_time (pa_ir b))%Z
  end.

(** [errors.As] for the two error types. *)
Fixpoint err_as_invalid_kind (e : error) : bool :=
  match e with
  | EInvalidKind _ _ => true
  | EWrap _ e' | EPolicy _ e' => err_as_invalid_kind e'
  | EWrap2 e1 _ e2 => err_as_invalid_kind e1 || err_as_invalid_kind e2
  | EJoin es => existsb err_as_invalid_kind es
  | _ => false
  end.

Fixpoint err_as_invalid_ref (e : error) : bool :=
  match e with
  | EInvalidCACertificateRef _ _ => true
  | EWrap _ e' | EPolicy _ e' => err_as_invalid_ref e'
  | EWrap2 e1 _ e2 => err_as_invalid_ref e1 || err_as_invalid_ref e2
  | EJoin es => existsb err_as_invalid_ref es
  | _ => false
  end.

(** The condition on the references that the first error of either type gives. *)
Fixpoint resolved_refs_error (errs : list error) : option (string * string) :=
  match errs with
  | [] => None
  | err :: errs =>
      if err_as_invalid_kind err then Some ("InvalidKind", err_text err)
      else if err_as_invalid_ref err then Some ("InvalidCACertificateRef", err_text err)
      else resolved_refs_error errs
  end.

Definition conditionsForErrors (p : PolicyAtt P) : list metav1_Condition :=
  match resolved_refs_error (pa_errors p) with
  | Some (reason, message) =>
      [policy_condition p "ResolvedRefs" "False" reason message;
       policy_condition p "Accepted" "False" "NoValidCACertificate" (FormatErrors p)]
  | None => [policy_condition p "Accepted" "False" "Invalid" (FormatErrors p)]
  end.

Definition BuildPolicyConditions (p : PolicyAtt P) (effective : option (PolicyAtt P)) : list metav1_Condition :=
  match pa_errors p with
  | _ :: _ => conditionsForErrors p
  | [] =>
      policy_condition p "ResolvedRefs" "True" "ResolvedRefs" "Resolved all references" ::
      (if match effective with Some e => negb (samePolicy p e) | None => false end
       then [policy_condition p "Accepted" "False" "Conflicted" "Policy conflicts with higher priority policy"]
       else [policy_condition p "Accepted" "True" "Accepted" "Policy accepted"])
  end.
End helpers.

(** ** Istio *)

Record IstioSettings := mkIstio { EnableAutoMtls : bool }.

Section istio.
Context {P Any V Fl : Type} `{TL : TransportLib Any} `{FL : ConfigLib Any Fl}.

(** [is_service]: the dynamic type of the object is [*corev1.Service]. *)
Context (string_value : string → V) (is_service : Object → bool).

Definition buildDNSSrvSubsetKey (hostname : string) (port : Z) : string :=
  "outbound" +:+ "_." +:+ pretty port +:+ "_._." +:+ hostname.

Definition svcFQDN (name ns trustDomain : string) : string := name +:+ "." +:+ ns +:+ ".svc." +:+ trustDomain.

Definition buildSni (b : BackendObjectIR P) : string :=
  let other := if negb (bo_port b =? 0)%Z && negb (String.eqb (bo_canonical_hostname b) "")
               then buildDNSSrvSubsetKey (bo_canonical_hostname b) (u32 (bo_port b)) else "" in
  match bo_obj b with
  | Some o => if is_service o
              then buildDNSSrvSubsetKey (svcFQDN (obj_name o) (obj_namespace o) "cluster.local") (u32 (bo_port b)) else other
  | None => other
  end.

(** The result of packing; an error is ignored and leaves nil. *)
Definition packed (r : error + Any) : option Any := match r with inl _ => None | inr a => Some a end.

Definition createIstioMatch (sni : string) : SocketMatch Any V :=
  let sds name := mkSds name (Some "gateway_proxy_sds") in
  mkSM "tlsMode-istio" (Some {["tlsMode" := string_value "istio"]})
    (Some (mkTS TransportSocketTls (packed (Marshal_Tls
      (mkUTC (Some (mkCTC [] [sds "istio_server_cert"] (Some (mkTlsParams None None [] [] [])) ["istio"]
                      (Some (ValidationContextSds (sds "istio_validation_context"))) None)) sni false None))))).

Definition createDefaultIstioMatch : SocketMatch Any V :=
  mkSM "tlsMode-disabled" (Some ∅) (Some (mkTS TransportSocketRawBuffer (packed Marshal_RawBuffer))).

Definition istio_processBackend (st : IstioSettings) (b : BackendObjectIR P) (out : Cluster Any V) : Cluster Any V :=
  if EnableAutoMtls st && negb (bo_disable_istio_mtls b)
  then with_sockets (c_socket out) (c_matches out ++ [createIstioMatch (buildSni b); createDefaultIstioMatch]) out
  else out.
End istio.

(** ** Status *)

Section status.
Context {P Any : Type} `{PO : PolicyIrOps P} `{PK : PolicyKind P (BackendConfigPolicyIR Any)}.

Definition HasTLSConfig (p : P) : bool :=
  match pk_as p with Some pol => match bc_tls pol with Some _ => true | None => false end | None => false end.

(** [BuildOverrideCondition]. *)
Definition BuildOverrideCondition (p : PolicyAtt P) (conflictingBTP : option AttachedPolicyRef) : option metav1_Condition :=
  match conflictingBTP with
  | Some r =>
      if HasTLSConfig (pa_ir p)
      then Some (policy_condition p "Overridden" "True" "ConflictedWithBackendTLSPolicy"
                   ("spec.tls overridden by BackendTLSPolicy " +:+ apr_namespace r +:+ "/" +:+ apr_name r))
      else None
  | None => None
  end.

(** [winningBackendTLSPolicyRef]. *)
Definition winningBackendTLSPolicyRef (attached : AttachedPolicies P) : option AttachedPolicyRef :=
  let valid := filter (λ p, pa_errors p = []) (ap_get attached BackendTLSPolicyGK) in
  match valid with
  | [] => None
  | _ => p ← valid !! WinnerPolicyIndexByCreationTimeAndRef valid; pa_ref p
  end.

Definition backendAncestorRef (src : ObjectSource) : ParentReference :=
  mkPR (Some (os_group src)) (Some (os_kind src)) (Some (os_namespace src)) (os_name src) None None.

Definition ancestor_for (targetRef : ParentReference) (r : AttachedPolicyRef) : ParentReference :=
  if String.eqb (apr_section r) "" then targetRef
  else mkPR (pr_group targetRef) (pr_kind targetRef) (pr_namespace targetRef) (pr_name targetRef) (Some (apr_section r))
         (pr_port targetRef).

(** The calls that report the conditions [cs] of a policy. *)
Definition condition_calls (now : Z) (targetRef : ParentReference) (p : PolicyAtt P) (cs : list metav1_Condition) :
    list reporter_call :=
  match pa_ref p with
  | None => []
  | Some r => map (CPolicyCondition (policy_key r) (pa_generation p) (ancestor_for targetRef r) now) cs
  end.

Definition reportBackendTLSPolicies (now : Z) (targetRef : ParentReference) (policies : list (PolicyAtt P)) : list reporter_call :=
  flat_map (λ p, condition_calls now targetRef p (BuildPolicyConditions p (btp_MergePolicies policies))) policies.

(** The conditions of a policy of another kind. *)
Definition backend_policy_conditions (gk : GroupKind) (conflictingBTP : option AttachedPolicyRef) (p : PolicyAtt P) :
    list metav1_Condition :=
  match pa_errors p with
  | _ :: _ => [cond "Accepted" "False" "Invalid" (FormatErrors p)]
  | [] =>
      [cond "Accepted" "True" "Valid" "Policy accepted"; cond "Attached" "True" "Attached" "Attached to all targets"] ++
      (if bool_decide (gk = BackendConfigPolicyGK) then option_list (BuildOverrideCondition p conflictingBTP) else [])
  end.

(** [GenerateBackendPolicyReport]; [iter_kinds] is the order in which a map of policies is ranged over. *)
Definition backend_policy_calls (now : Z) (iter_kinds : AttachedPolicies P → list GroupKind) (b : BackendObjectIR P) :
    list reporter_call :=
  let attached := bo_policies b in
  let targetRef := backendAncestorRef (bo_source b) in
  let conflictingBTP := winningBackendTLSPolicyRef attached in
  reportBackendTLSPolicies now targetRef (ap_get attached BackendTLSPolicyGK) ++
  flat_map (λ gk,
    if bool_decide (gk = BackendTLSPolicyGK) then []
    else flat_map (λ p, condition_calls now targetRef p (backend_policy_conditions gk conflictingBTP p)) (ap_get attached gk))
    (iter_kinds attached).

Definition GenerateBackendPolicyReport `{CLib : ConditionLib} (now : Z) (iter_kinds : AttachedPolicies P → list GroupKind)
    (backends : list (BackendObjectIR P)) : ReportMap :=
  reported (flat_map (backend_policy_calls now iter_kinds) backends).
End status.

(** *** The status of a BackendTLSPolicy (status.go) *)

Section desired.
Context `{CLib : ConditionLib}.

Definition isGatewayAncestor (k : ParentRefKey) : bool :=
  String.eqb (prk_group k) "gateway.networking.k8s.io" && String.eqb (prk_kind k) "Gateway" ||
  String.eqb (prk_group k) "gateway.networking.x-k8s.io" && String.eqb (prk_kind k) "XListenerSet".

(** One turn of the loop over the conditions of an ancestor. *)
Definition final_condition (now : Z) (live final : Conditions) (c : metav1_Condition) : Conditions :=
  SetStatusCondition now (match FindStatusCondition live (mc_type c) with Some old => final ++ [old] | None => final end) c.

Definition ancestor_desired (now : Z) (current : PolicyStatus) (controller : string) (k : ParentRefKey) (a : AncestorRefReport) :
    RouteParentStatus :=
  let ref := key_ref k in
  let live := match List.find (λ s, String.eqb (rps_controller s) controller && ParentRefEqual (rps_ref s) ref) current with
              | Some s => rps_conditions s
              | None => []
              end in
  mkRPS ref controller (foldl (final_condition now live) [] (ar_conditions a)).

(** [BuildDesiredPolicyStatus]; [entries] are the ancestors of the report in the order of the map. *)
Definition BuildDesiredPolicyStatus (now : Z) (entries : gmap ParentRefKey AncestorRefReport → list (ParentRefKey * AncestorRefReport))
    (report : option PolicyReport) (current : PolicyStatus) (controller : string) : option PolicyStatus :=
  r ← report;
  let l := entries (pp_ancestors r) in
  let hasGatewayAncestor := existsb (λ e, isGatewayAncestor e.1) l in
  Some (sort_stable (cmp_on (λ s, ParentString (rps_ref s)) String.compare)
    (map (λ e, ancestor_desired now current controller e.1 e.2)
       (filter (λ e, ¬ (hasGatewayAncestor = true ∧ isGatewayAncestor e.1 = false)) l))).
End desired.

(** ** The plugins of the base cluster *)

Section plugins.
Context {P Any V Fl : Type} `{TL : TransportLib Any} `{FL : ConfigLib Any Fl} `{PO : PolicyIrOps P}.
Context `{KC : PolicyKind P (BackendConfigPolicyIR Any)} `{KT : PolicyKind P (backendTlsPolicy Any)} `{KI : PolicyKind P IstioSettings}.
Context (zero_att : PolicyAtt P) (string_value : string → V) (is_service : Object → bool).
Abbreviation Backend := (BackendObjectIR P).
Abbreviation Cluster := (Cluster Any V).

Definition VirtualIstioGK : GroupKind := mkGK "istioplugin" "istioplugin".

(** The hooks with the type assertion they begin with; the plugins see policies of their own type only. *)
Definition bcp_hook (p : P) (b : Backend) (c : Cluster) : Cluster :=
  match pk_as (T := BackendConfigPolicyIR Any) p with Some pol => (processBackend pol b c).2 | None => c end.
Definition btp_hook (p : P) (_ : Backend) (c : Cluster) : Cluster :=
  match pk_as (T := backendTlsPolicy Any) p with Some t => btp_processBackend t c | None => c end.
Definition istio_hook (p : P) (b : Backend) (c : Cluster) : Cluster :=
  match pk_as (T := IstioSettings) p with Some st => istio_processBackend string_value is_service st b c | None => c end.

(** [sdk.AttachedPolicyEndpointsMayApply]. *)
Definition AttachedPolicyEndpointsMayApply (gk : GroupKind) (b : Backend) : bool :=
  match ap_get (bo_policies b) gk with [] => false | _ => true end.

(** What the three [NewPlugin] contribute. *)
Definition bcp_plugin : GroupKind * BackendHooks P Any V :=
  (BackendConfigPolicyGK,
   mkBH (Some bcp_hook) (Some (λ pols, default zero_att (mjoin (plugin_MergePolicies (Any := Any) pols)))) None None None
     (mkEH "BackendConfigPolicy" (Some (processEndpoints (Any := Any))) None
        (Some (AttachedPolicyEndpointsMayApply BackendConfigPolicyGK)))).
Definition btp_plugin : GroupKind * BackendHooks P Any V :=
  (BackendTLSPolicyGK,
   mkBH (Some btp_hook) (Some (λ pols, default zero_att (btp_MergePolicies pols))) None None None
     (mkEH "BackendTLSPolicy" None None None)).
Definition istio_plugin : GroupKind * BackendHooks P Any V :=
  (VirtualIstioGK, mkBH (Some istio_hook) None None None None (mkEH "istio" None None None)).

(** *** The step of a plugin on a cluster *)

Context (b : Backend).

Definition kstep (c : Cluster) (e : GroupKind * BackendHooks P Any V) : Cluster := (base_kind_step b ([], c) e).2.

Lemma policy_steps_snd f (acc : list error * Cluster) pols :
  (foldl (base_policy_step f b) acc pols).2 = (foldl (base_policy_step f b) ([], acc.2) pols).2.
Proof.
  revert acc. induction pols as [|p pols IH]; intros [es c]; [done|]. cbn [foldl].
  cbn [snd]. rewrite (IH (base_policy_step f b (es, c) p)), (IH (base_policy_step f b ([], c) p)).
  do 2 f_equal. unfold base_policy_step. by destruct (pa_errors p).
Qed.

Lemma base_policies_fold (out : Cluster) l es :
  (foldl (base_kind_step b) (es, out) l).2 = foldl kstep out l.
Proof.
  revert es out. induction l as [|e l IH]; intros es out; [done|]. cbn [foldl].
  rewrite (surjective_pairing (base_kind_step b (es, out) e)), IH. f_equal.
  unfold kstep, base_kind_step. destruct (bh_process e.2) as [f|]; [apply policy_steps_snd|done].
Qed.

Lemma one_policy_step f (h : BackendHooks P Any V) merge pols :
  bh_merge h = Some merge →
  (∀ c : Cluster, (foldl (base_policy_step f b) ([], c) (effective_policies h pols)).2 = c) ∨
  pols ≠ [] ∧ ∃ p, ∀ c : Cluster, (foldl (base_policy_step f b) ([], c) (effective_policies h pols)).2 = f p b c.
Proof.
  intros Hm. unfold effective_policies. rewrite Hm. destruct pols as [|p0 pols]; [by left|].
  simpl. unfold base_policy_step. destruct (pa_errors (merge (p0 :: pols))); [right|by left].
  split; [done|]. by eexists.
Qed.

Lemma bcp_step : (∀ c, kstep c bcp_plugin = c) ∨ ∃ pol, ∀ c, kstep c bcp_plugin = (processBackend pol b c).2.
Proof.
  unfold kstep, base_kind_step. cbn [bcp_plugin snd fst bh_process].
  edestruct (one_policy_step bcp_hook bcp_plugin.2) as [H|[_ [p H]]]; [done|left; exact H|].
  destruct (pk_as (T := BackendConfigPolicyIR Any) p) as [pol|] eqn:E; [right; exists pol|left]; intros c;
    rewrite H; unfold bcp_hook; by rewrite E.
Qed.

Lemma btp_step :
  (∀ c, kstep c btp_plugin = c) ∨
  hasBackendTLSPolicy b = true ∧ ∃ tls, ∀ c, kstep c btp_plugin = with_socket (Some (replaced_socket tls (c_socket c))) c.
Proof.
  unfold kstep, base_kind_step. cbn [btp_plugin snd fst bh_process].
  edestruct (one_policy_step btp_hook btp_plugin.2) as [H|[Hne [p H]]]; [done|left; exact H|].
  destruct (pk_as (T := backendTlsPolicy Any) p) as [[ct [tls|]]|] eqn:E;
    [right|left; intros c; rewrite H; unfold btp_hook; by rewrite E..].
  split; [|exists tls; intros c; rewrite H; unfold btp_hook; by rewrite E]. unfold hasBackendTLSPolicy. by destruct (ap_get (bo_policies b) BackendTLSPolicyGK).
Qed.

Lemma istio_step : ∃ ms, ∀ c, kstep c istio_plugin = with_sockets (c_socket c) (c_matches c ++ ms) c.
Proof.
  unfold kstep, base_kind_step. cbn [istio_plugin snd fst bh_process]. unfold effective_policies. cbn [bh_merge].
  induction (ap_get (bo_policies b) VirtualIstioGK) as [|p pols (ms & IH)] using rev_ind.
  - exists []. intros c. simpl. by rewrite app_nil_r, sockets_id.
  - assert (∃ ms', ∀ c, istio_hook (pa_ir p) b c = with_sockets (c_socket c) (c_matches c ++ ms') c) as (ms' & Hp).
    { unfold istio_hook, istio_processBackend. destruct (pk_as (T := IstioSettings) (pa_ir p)) as [st|]; [destruct (EnableAutoMtls st && _)|].
      - by eexists.
      - exists []. intros c. by rewrite app_nil_r, sockets_id.
      - exists []. intros c. by rewrite app_nil_r, sockets_id. }
    destruct (pa_errors p) eqn:E.
    + exists (ms ++ ms'). intros c. rewrite foldl_app. cbn [foldl]. unfold base_policy_step at 1. rewrite E. cbn [snd].
      rewrite Hp, IH. simpl. by rewrite app_assoc.
    + exists ms. intros c. rewrite foldl_app. cbn [foldl]. unfold base_policy_step at 1. rewrite E. apply IH.
Qed.

(** *** The plugins commute *)

Context `{LW : !TransportLaws (Any := Any)} (proxy_packs : ∀ w, ∃ a, Marshal_Proxy w = inr a).
Context (raw_packs : ∃ a, Marshal_RawBuffer (ConfigLib := FL) = inr a).

(** A socket that no PROXY wrapper is around. *)
Definition unwrapped (s : option (TransportSocket Any)) : Prop := ∀ t, s = Some t → ts_name t ≠ proxyProtocolSocketName.

Lemma replaced_unwrapped tls s : unwrapped s → replaced_socket tls s = tls.
Proof.
  intros Hu. unfold replaced_socket. destruct s as [e|]; [|done]. by rewrite (proj2 (String.eqb_neq _ _) (Hu e eq_refl)).
Qed.

Lemma proxy_tls_commute pol tls s :
  unwrapped s → Some (replaced_socket tls (proxied pol s)) = proxied pol (Some (replaced_socket tls s)).
Proof.
  intros Hu. rewrite (replaced_unwrapped tls s Hu). unfold proxied. destruct (bc_proxy_protocol pol) as [v|];
    [|by rewrite replaced_unwrapped].
  destruct (proxy_packs (mkPPT (Some tls) (Some v) None)) as [a Ha]. rewrite Ha. destruct raw_packs as [raw Hraw].
  assert (∀ inner, Some (replaced_socket tls (match Marshal_Proxy (mkPPT (Some inner) (Some v) None) with
    | inl _ => s | inr a => Some (mkTS proxyProtocolSocketName (Some a)) end)) = Some (mkTS proxyProtocolSocketName (Some a))) as H.
  { intros inner. destruct (proxy_packs (mkPPT (Some inner) (Some v) None)) as [a' Ha']. rewrite Ha'.
    unfold replaced_socket, replaceInnerInProxyProtocol. simpl. rewrite (proxy_roundtrip _ _ Ha'). simpl.
    by rewrite Ha. }
  destruct s as [e|]; [apply H|]. rewrite Hraw. apply H.
Qed.

Lemma processed_fields pol (c : Cluster) :
  c_socket (processBackend pol b c).2 = processed_socket pol b (c_socket c) ∧
  c_matches (processBackend pol b c).2 = c_matches c.
Proof. rewrite <- (sockets_id c) at 1 3. by rewrite process_sockets. Qed.

Lemma bcp_istio pol ms (c : Cluster) :
  let c' := (processBackend pol b c).2 in
  (processBackend pol b (with_sockets (c_socket c) (c_matches c ++ ms) c)).2 = with_sockets (c_socket c') (c_matches c' ++ ms) c'.
Proof. intros c'. rewrite process_sockets. unfold c'. destruct (processed_fields pol c) as [-> ->]. done. Qed.

Lemma bcp_btp pol tls (c : Cluster) :
  let c' := (processBackend pol b c).2 in
  hasBackendTLSPolicy b = true → unwrapped (c_socket c) →
  (processBackend pol b (with_socket (Some (replaced_socket tls (c_socket c))) c)).2 =
  with_socket (Some (replaced_socket tls (c_socket c'))) c'.
Proof.
  intros c' Hb Hu. unfold with_socket. rewrite process_sockets. unfold c'. destruct (processed_fields pol c) as [-> ->].
  simpl. f_equal. unfold processed_socket. rewrite Hb. assert (∀ A (o : option A) (x : option (TransportSocket Any)),
    match o with Some _ => x | None => x end = x) as Hsame by by intros A [].
  rewrite !Hsame. symmetry. by apply proxy_tls_commute.
Qed.

(** A plugin that does nothing to base clusters, or one of the three. *)
Definition known_plugin (e : GroupKind * BackendHooks P Any V) : Prop :=
  bh_process e.2 = None ∨ e ∈ [bcp_plugin; btp_plugin; istio_plugin].

(** While the wrapper and the TLS socket are both to come, there is no wrapper. *)
Definition order_safe (c : Cluster) (l : list (GroupKind * BackendHooks P Any V)) : Prop :=
  bcp_plugin ∈ l → btp_plugin ∈ l → unwrapped (c_socket c).

Lemma idle_step c e : bh_process e.2 = None → kstep c e = c.
Proof. unfold kstep, base_kind_step. by intros ->. Qed.

Lemma steps_commute c x y l :
  known_plugin x → known_plugin y → x.1 ≠ y.1 → order_safe c (x :: y :: l) → kstep (kstep c x) y = kstep (kstep c y) x.
Proof.
  intros [Hx|Hx] Hy Hne Hs; [by rewrite !(idle_step _ x)|]. destruct Hy as [Hy|Hy]; [by rewrite !(idle_step _ y)|].
  assert (bcp_plugin ∈ x :: y :: l → btp_plugin ∈ x :: y :: l →
    kstep (kstep c bcp_plugin) btp_plugin = kstep (kstep c btp_plugin) bcp_plugin) as H1.
  { intros Hc Ht. destruct bcp_step as [E1|[pol E1]]; [by rewrite !E1|].
    destruct btp_step as [E2|[Hb [tls E2]]]; [by rewrite !E2|]. rewrite !E1, !E2. symmetry. by apply bcp_btp; [|apply Hs]. }
  assert (kstep (kstep c bcp_plugin) istio_plugin = kstep (kstep c istio_plugin) bcp_plugin) as H2.
  { destruct bcp_step as [E1|[pol E1]]; [by rewrite !E1|]. destruct istio_step as [ms E2]. rewrite !E1, !E2.
    symmetry. apply bcp_istio. }
  assert (kstep (kstep c btp_plugin) istio_plugin = kstep (kstep c istio_plugin) btp_plugin) as H3.
  { destruct btp_step as [E1|[_ [tls E1]]]; [by rewrite !E1|]. destruct istio_step as [ms E2]. by rewrite !E1, !E2. }
  rewrite !elem_of_cons, elem_of_nil in Hx, Hy.
  destruct Hx as [->|[->|[->|[]]]], Hy as [->|[->|[->|[]]]]; try done;
    first [apply H1; set_solver|symmetry; apply H1; set_solver|symmetry; assumption].
Qed.

Lemma step_safe c e l : known_plugin e → e.1 ∉ l.*1 → order_safe c (e :: l) → order_safe (kstep c e) l.
Proof.
  intros Hk Hn Hs Hc Ht. assert (unwrapped (c_socket c)) as Hu by (apply Hs; by right).
  destruct Hk as [Hk|Hk]; [by rewrite idle_step|].
  rewrite !elem_of_cons, elem_of_nil in Hk. destruct Hk as [->|[->|[->|[]]]].
  - destruct Hn. apply list_elem_of_fmap. by exists bcp_plugin.
  - destruct Hn. apply list_elem_of_fmap. by exists btp_plugin.
  - destruct istio_step as [ms E]. by rewrite E.
Qed.

Lemma steps_perm l l' :
  l ≡ₚ l' → ∀ c, NoDup l.*1 → Forall known_plugin l → order_safe c l → foldl kstep c l = foldl kstep c l'.
Proof.
  induction 1 as [|x l l' Hp IH|x y l|l1 l2 l3 H1 IH1 H2 IH2]; intros c Hnd Hk Hs; cbn [foldl]; [done|..].
  - apply NoDup_cons in Hnd as [Hx Hnd]. apply Forall_cons in Hk as [Hkx Hk]. apply IH; [done..|]. by apply step_safe.
  - apply NoDup_cons in Hnd as [Hy Hnd]. apply Forall_cons in Hk as [Hky Hk]. apply Forall_cons in Hk as [Hkx _].
    f_equal. eapply steps_commute; [done..| |exact Hs]. intros He. apply Hy. rewrite He. left.
  - rewrite (IH1 c) by done. apply IH2; [by rewrite <- H1..|]. intros Hc Ht. apply Hs; by rewrite H1.
Qed.

(** C25: The plugins run in the order of a Go map, which is different in every run: the errors are
    the same, and without errors the cluster is the same, field by field.  In particular a
    PROXY wrapper always ends up around the TLS socket of the BackendTLSPolicy, whichever
    plugin ran first. *)
Theorem base_policies_any_order t1 t2 out :
  bt_policies t1 ≡ₚ bt_policies t2 → NoDup (bt_policies t1).*1 → Forall known_plugin (bt_policies t1) →
  unwrapped (c_socket out) →
  (applyBasePolicies t1 b out).1 ≡ₚ (applyBasePolicies t2 b out).1 ∧
  (applyBasePolicies t1 b out).2 = (applyBasePolicies t2 b out).2.
Proof.
  intros Hp Hnd Hk Hu. split.
  - rewrite !base_policies_errors. by rewrite Hp.
  - unfold applyBasePolicies. rewrite !base_policies_fold. apply steps_perm; [done..|]. by intros _ _.
Qed.

(** The socket of a backend with a BackendTLSPolicy: TLS of that policy, inside the PROXY
    wrapper when a BackendConfigPolicy asks for one; TLS of the latter is ignored. *)
Theorem tls_policy_wins pol tls (c : Cluster) :
  hasBackendTLSPolicy b = true → unwrapped (c_socket c) →
  c_socket (processBackend pol b (btp_processBackend (mkBTPIR 0 (Some tls)) c)).2 =
  match bc_proxy_protocol pol with
  | None => Some tls
  | Some v => match Marshal_Proxy (mkPPT (Some tls) (Some v) None) with
              | inr a => Some (mkTS proxyProtocolSocketName (Some a))
              | inl _ => Some tls
              end
  end.
Proof.
  intros Hb Hu. unfold btp_processBackend, with_socket. cbn [btp_socket]. rewrite process_sockets, replaced_unwrapped by done.
  unfold processed_socket, proxied. rewrite Hb. simpl. by destruct (bc_tls pol), (bc_proxy_protocol pol).
Qed.
End plugins.

(** ** Status: lemmas *)

Section status_lemmas.
Context {P : Type} `{PO : PolicyIrOps P}.

(** Of the BackendTLSPolicies attached to one target at most one is accepted: the policy that
    is applied, if it is valid.  Every other policy is reported as conflicting or invalid. *)
Theorem one_tls_policy_accepted (policies : list (PolicyAtt P)) p :
  p ∈ policies → (∃ c, c ∈ BuildPolicyConditions p (btp_MergePolicies policies) ∧ mc_type c = "Accepted" ∧ mc_status c = "True") →
  ∃ w, btp_MergePolicies policies = Some w ∧ w ∈ policies ∧ samePolicy p w = true ∧ pa_errors p = [] ∧
    ∀ q, q ∈ policies → cmp_le ComparePoliciesByCreationTimeAndRef w q.
Proof.
  intros Hp (c & Hc & Ht & Hs). destruct policies as [|p0 ps]; [by apply not_elem_of_nil in Hp|].
  destruct (winner_policy_is_least (p0 :: ps)) as (w & Hw & Hle); [done|]. exists w. cbn [btp_MergePolicies] in *. rewrite Hw in *.
  split; [done|]. split; [by apply list_elem_of_lookup_2 in Hw|].
  unfold BuildPolicyConditions, conditionsForErrors in Hc. destruct (pa_errors p) as [|e es] eqn:Ee.
  - destruct (samePolicy p w); [done|]. simpl in Hc. rewrite !elem_of_cons, elem_of_nil in Hc.
    by destruct Hc as [->|[->|[]]].
  - destruct (resolved_refs_error _) as [[r m]|]; rewrite !elem_of_cons, elem_of_nil in Hc;
      [by destruct Hc as [->|[->|[]]]|by destruct Hc as [->|[]]].
Qed.
End status_lemmas.

Section desired_lemmas.
Context `{CLib : ConditionLib} (entries : gmap ParentRefKey AncestorRefReport → list (ParentRefKey * AncestorRefReport)).
Context (entries_perm : ∀ m, entries m ≡ₚ map_to_list m).

Lemma gateway_reported (m : gmap ParentRefKey AncestorRefReport) :
  existsb (λ e, isGatewayAncestor e.1) (entries m) = true ↔ ∃ k, is_Some (m !! k) ∧ isGatewayAncestor k = true.
Proof.
  rewrite existsb_exists. split.
  - intros ([k a] & Hin%list_elem_of_In & Hk). rewrite entries_perm in Hin. apply elem_of_map_to_list in Hin. eauto.
  - intros (k & [a Hk] & Hg). exists (k, a). split; [|done]. apply list_elem_of_In. rewrite entries_perm.
    by apply elem_of_map_to_list.
Qed.

(** The status of a BackendTLSPolicy lists the Gateway-side ancestors of its report, and its
    targets only when no Gateway reaches it; the list is sorted, and every entry is the
    controller's own. *)
Theorem target_ancestors_fallback now r current controller st :
  BuildDesiredPolicyStatus now entries (Some r) current controller = Some st →
  StronglySorted (cmp_le (cmp_on (λ s, ParentString (rps_ref s)) String.compare)) st ∧
  Forall (λ s, rps_controller s = controller) st ∧
  ∀ ref, ref ∈ map rps_ref st ↔
    ∃ k, is_Some (pp_ancestors r !! k) ∧ ref = key_ref k ∧
      (isGatewayAncestor k = true ∨ ¬ ∃ k', is_Some (pp_ancestors r !! k') ∧ isGatewayAncestor k' = true).
Proof.
  unfold BuildDesiredPolicyStatus. simpl. intros [= <-]. split; [apply sort_stable_sorted, _|].
  pose proof (gateway_reported (pp_ancestors r)) as Hhas. set (has := existsb _ _) in *. split.
  - rewrite (sort_stable_perm _). apply Forall_forall. intros s (e & -> & _)%list_elem_of_fmap. done.
  - intros ref. rewrite list_elem_of_fmap. setoid_rewrite sort_stable_elem_of. setoid_rewrite list_elem_of_fmap.
    setoid_rewrite list_elem_of_filter. split.
    + intros (s & -> & [k a] & -> & Hf & Hin). rewrite entries_perm in Hin. apply elem_of_map_to_list in Hin.
      exists k. split; [eauto|]. split; [done|]. simpl in Hf. destruct (isGatewayAncestor k); [by left|right].
      intros Hh%Hhas. by apply Hf.
    + intros (k & [a Hk] & -> & Hor). exists (ancestor_desired now current controller k a). split; [reflexivity|].
      exists (k, a). split; [reflexivity|]. split.
      * intros [Hh Hn]. destruct Hor as [Hg|Hg]; [simpl in Hn; congruence|]. by apply Hg, Hhas.
      * rewrite entries_perm. by apply elem_of_map_to_list.
Qed.

(** An ancestor that is a [ListenerSet] of the standard group is not taken for a Gateway-side
    one: beside a Gateway it is dropped from the status. *)
Theorem listener_set_ancestor_dropped now current controller a :
  let gw := mkPRK "gateway.networking.k8s.io" "Gateway" (mkNN "ns" "gw") "" in
  let ls := mkPRK (gvk_group ListenerSetGVK) (gvk_kind ListenerSetGVK) (mkNN "ns" "ls") "" in
  ∃ st, BuildDesiredPolicyStatus now entries (Some (mkPRep {[gw := a; ls := a]} 1)) current controller = Some st ∧
    key_ref gw ∈ map rps_ref st ∧ key_ref ls ∉ map rps_ref st.
Proof.
  intros gw ls. assert (gw ≠ ls) as Hne by done. eexists. split; [reflexivity|].
  pose proof (target_ancestors_fallback now (mkPRep {[gw := a; ls := a]} 1) current controller _ eq_refl) as (_ & _ & H).
  split; rewrite H; clear H; cbn [pp_ancestors].
  - exists gw. rewrite lookup_insert_eq. split; [by eexists|]. split; [done|]. by left.
  - intros (k & [x Hk] & Heq & Hor). assert (k = ls) as ->.
    { apply lookup_insert_Some in Hk as [[<- _]|[_ [<- _]%lookup_singleton_Some]]; done. }
    destruct Hor as [?|Hno]; [done|]. apply Hno. exists gw. rewrite lookup_insert_eq. split; [by eexists|done].
Qed.
End desired_lemmas.

(** ** Examples *)

#[local] Existing Instance ex_msg_transport.
#[local] Existing Instance ex_msg_transport_laws.
#[local] Existing Instance ex_msg_config.
#[local] Existing Instance ex_certs.

Inductive ex_ir := XConfig (p : BackendConfigPolicyIR ex_msg) | XTlsPol (p : backendTlsPolicy ex_msg) | XIstio (s : IstioSettings).
#[local] Instance ex_kind_config : PolicyKind ex_ir (BackendConfigPolicyIR ex_msg) :=
  {| pk_as x := match x with XConfig p => Some p | _ => None end; pk_of := XConfig; pk_as_of _ := eq_refl; pk_zero := zero_ir |}.
#[local] Instance ex_kind_tls : PolicyKind ex_ir (backendTlsPolicy ex_msg) :=
  {| pk_as x := match x with XTlsPol p => Some p | _ => None end; pk_of := XTlsPol; pk_as_of _ := eq_refl; pk_zero := mkBTPIR 0 None |}.
#[local] Instance ex_kind_istio : PolicyKind ex_ir IstioSettings :=
  {| pk_as x := match x with XIstio p => Some p | _ => None end; pk_of := XIstio; pk_as_of _ := eq_refl; pk_zero := mkIstio false |}.
#[local] Instance ex_ir_ops : PolicyIrOps ex_ir :=
  {| pi_creation_time x := match x with XConfig p => bc_ct p | XTlsPol p => btp_ct p | XIstio _ => 0%Z end |}.

Definition ex_ref (gk : GroupKind) (name : string) : AttachedPolicyRef := mkAPR (gk_group gk) (gk_kind gk) name "ns" "".
Definition ex_attach (gk : GroupKind) (name : string) (ir : ex_ir) (errs : list error) : PolicyAtt ex_ir :=
  mkPA gk 1 ir (Some (ex_ref gk name)) UnsetPriority errs 0 0 ∅.

(** A BackendConfigPolicy with TLS and the PROXY protocol. *)
Definition ex_config_spec : Api.BackendConfigPolicy :=
  Api.mkBCP 5 "bcp" "ns" None None None None None None None (Some ex_tls_spec) None None None None (Some (Some "V2")).
Definition ex_config : PolicyAtt ex_ir :=
  ex_attach BackendConfigPolicyGK "bcp" (XConfig (translate (Cert := string) ex_secrets ex_config_spec).1) [].

Definition ex_btp (t : Z) (name : string) (v : BackendTLSPolicyValidation) : PolicyAtt ex_ir :=
  let '(ir, err) := translate_btp (Any := ex_msg) (Cert := string) [] ex_secrets (mkBTLSP t "ns" name v) in
  ex_attach BackendTLSPolicyGK name (XTlsPol ir) (option_list err).
Definition ex_valid_btp : PolicyAtt ex_ir := ex_btp 2 "valid" (mkVal [mkCARef "" "Secret" "creds"] None "svc.local" []).
Definition ex_invalid_btp : PolicyAtt ex_ir := ex_btp 1 "invalid" (mkVal [mkCARef "" "ConfigMap" "missing"] None "svc.local" []).

Definition ex_policies (btps : list (PolicyAtt ex_ir)) : AttachedPolicies ex_ir :=
  {[BackendConfigPolicyGK := [ex_config]; BackendTLSPolicyGK := btps;
    VirtualIstioGK := [mkPA VirtualIstioGK 0 (XIstio (mkIstio true)) None UnsetPriority [] 0 0 ∅]]}.
Definition ex_tls_backend (btps : list (PolicyAtt ex_ir)) : BackendObjectIR ex_ir :=
  mkBackend (mkOS "" "Service" "ns" "svc") 80 "" "" "" "" None [] "" false (ex_policies btps) [] TDAny false "svc" "svc" None [].

Definition ex_plugins : list (GroupKind * BackendHooks ex_ir ex_msg string) :=
  [bcp_plugin ex_config; btp_plugin ex_config; istio_plugin id (λ _, false)].
Definition ex_bt (l : list (GroupKind * BackendHooks ex_ir ex_msg string)) : BackendTranslator ex_ir ex_msg string :=
  mkBT ∅ l None None false ValidationStandard.

Lemma ex_proxy_packs (w : ProxyProtocolTransport ex_msg) : ∃ a, Marshal_Proxy w = inr a.
Proof. by eexists. Qed.
Lemma ex_raw_packs : ∃ a : ex_msg, Marshal_RawBuffer = inr a.
Proof. by eexists. Qed.

Lemma base_policies_any_order_witness :
  let b := ex_tls_backend [ex_valid_btp] in
  (applyBasePolicies (ex_bt ex_plugins) b ex_static).1 = [] ∧
  (applyBasePolicies (ex_bt ex_plugins) b ex_static).2 = (applyBasePolicies (ex_bt (reverse ex_plugins)) b ex_static).2 ∧
  (ts_name <$> c_socket (applyBasePolicies (ex_bt (reverse ex_plugins)) b ex_static).2) = Some proxyProtocolSocketName.
Proof.
  split; [by vm_compute|].
  destruct (base_policies_any_order (Any := ex_msg) (V := string) ex_config id (λ _, false) (ex_tls_backend [ex_valid_btp])
    ex_proxy_packs ex_raw_packs (ex_bt ex_plugins) (ex_bt (reverse ex_plugins)) ex_static)
    as [_ H].
  - symmetry. apply reverse_Permutation.
  - apply (bool_decide_unpack _). by vm_compute.
  - repeat constructor; right; set_solver.
  - done.
  - split; [exact H|]. by vm_compute.
Defined.

Lemma tls_policy_wins_witness :
  ∃ tls, c_socket (processBackend (P := ex_ir) (translate (Cert := string) ex_secrets ex_config_spec).1 (ex_tls_backend [ex_valid_btp])
    (btp_processBackend (mkBTPIR 0 (Some tls)) ex_static)).2 =
    Some (mkTS proxyProtocolSocketName (Some (MProxy (mkPPT (Some tls) (Some PROXY_V2) None)))).
Proof.
  exists (mkTS TransportSocketTls (Some (MText "tls"))).
  rewrite (tls_policy_wins (ex_tls_backend [ex_valid_btp])); [by vm_compute|by vm_compute|done].
Defined.

Lemma one_tls_policy_accepted_witness :
  ∃ w, btp_MergePolicies [ex_valid_btp] = Some w ∧ samePolicy ex_valid_btp w = true.
Proof.
  destruct (one_tls_policy_accepted [ex_valid_btp] ex_valid_btp) as (w & Hw & _ & Hs & _); [left| |by exists w].
  eexists. split; [right; left|by vm_compute].
Defined.

(** The older policy is invalid and takes the backend down; the override condition of the
    BackendConfigPolicy names the newer policy, whose TLS is not applied. *)
Theorem override_names_unapplied_policy :
  let b := ex_tls_backend [ex_invalid_btp; ex_valid_btp] in
  winningBackendTLSPolicyRef (bo_policies b) = Some (ex_ref BackendTLSPolicyGK "valid") ∧
  (w ← btp_MergePolicies (ap_get (bo_policies b) BackendTLSPolicyGK); pa_ref w) = Some (ex_ref BackendTLSPolicyGK "invalid") ∧
  (applyBasePolicies (ex_bt ex_plugins) b ex_static).1 ≠ [] ∧
  is_Some (BuildOverrideCondition (Any := ex_msg) ex_config (winningBackendTLSPolicyRef (bo_policies b))).
Proof. split_and!; [by vm_compute..|]. apply (bool_decide_unpack _). by vm_compute. Qed.
