(* ===== verification/SharedProto.v ===== *)
(** * Protos shared between clients (proxy_syncer/sharedproto, cla.go, cla_equal.go)

    Load assignments with equal content are one proto for all clients.  An interner finds the
    proto by a hash and compares contents; a retainer keeps the protos of a backend from one
    recomputation to the next, and drops them when the backend is deleted, which happens
    concurrently.  A proto is an address in a heap of messages, so that sharing is visible.
    The tripwire of [ResourceWithTTL], which is off in production, is not modelled. *)

From S2P Require Import Prelude IR Endpoints.

(** ** Comparison of load assignments (cla_equal.go) *)

Section equal.
Context {Ext : Type} `{EqDecision Ext}.

(** Fields that the comparison does not treat itself are [Ext]. *)
Record UInt32Value := mkU32 { u32_value : Z; u32_unknown : option Ext }.
#[global] Instance UInt32Value_eq_dec : EqDecision UInt32Value.
Proof. solve_decision. Defined.

#[global] Instance LbEndpoint_eq_dec : EqDecision LbEndpoint.
Proof. solve_decision. Defined.

(** A message whose sub-messages are addresses; [None] is a nil pointer. *)
Record LocalityMsg := mkLM {
  lm_locality : option PodLocality; lm_weight : option UInt32Value; lm_priority : Z; lm_endpoints : list (option nat);
  lm_extra : option Ext }.
Record AssignmentMsg := mkAM { am_cluster : string; am_localities : list (option nat); am_extra : option Ext }.

(** The heaps of messages. *)
Record store := mkStore { st_endpoints : gmap nat LbEndpoint; st_localities : gmap nat LocalityMsg; st_assignments : gmap nat AssignmentMsg }.
Context (s : store).

(** The content an address stands for. *)
Definition endpoint_at (p : option nat) : option LbEndpoint := p ≫= (st_endpoints s !!.).
Definition locality_content (l : LocalityMsg) :
    option PodLocality * option UInt32Value * Z * list (option LbEndpoint) * option Ext :=
  (lm_locality l, lm_weight l, lm_priority l, map endpoint_at (lm_endpoints l), lm_extra l).
Definition locality_at (p : option nat) := locality_content <$> (p ≫= (st_localities s !!.)).
Definition assignment_content (a : AssignmentMsg) := (am_cluster a, map locality_at (am_localities a), am_extra a).
Definition assignment_at (p : option nat) := assignment_content <$> (p ≫= (st_assignments s !!.)).

Definition hasExtraLocalityFields (l : LocalityMsg) : bool :=
  match lm_extra l with
  | Some _ => true
  | None => match lm_weight l with Some (mkU32 _ (Some _)) => true | _ => false end
  end.

(** [proto.Equal] compares contents. *)
Definition endpoint_Equal (x y : option nat) : bool := bool_decide (endpoint_at x = endpoint_at y).

(** The loop over the endpoints of two lists of the same length. *)
Definition same_endpoint (x y : option nat) : bool := bool_decide (x = y) || endpoint_Equal x y.

Fixpoint all2 {A} (f : A → A → bool) (l k : list A) : bool :=
  match l, k with x :: l, y :: k => f x y && all2 f l k | _, _ => true end.

Definition localityLbEndpointsEqual (a b : option nat) : bool :=
  if bool_decide (a = b) then true
  else match a ≫= (st_localities s !!.), b ≫= (st_localities s !!.) with
       | Some x, Some y =>
           if hasExtraLocalityFields x || hasExtraLocalityFields y
           then bool_decide (locality_content x = locality_content y)
           else if negb (lm_priority x =? lm_priority y)%Z then false
           else if negb (bool_decide ((lm_weight x = None) ↔ (lm_weight y = None))) ||
                   negb (default 0 (u32_value <$> lm_weight x) =? default 0 (u32_value <$> lm_weight y))%Z then false
           else if negb (bool_decide (lm_locality x = lm_locality y)) then false
           else if negb (length (lm_endpoints x) =? length (lm_endpoints y))%nat then false
           else all2 same_endpoint (lm_endpoints x) (lm_endpoints y)
       | None, None => true
       | _, _ => false
       end.

Definition hasExtraCLAFields (a : AssignmentMsg) : bool := match am_extra a with Some _ => true | None => false end.

Definition clusterLoadAssignmentsEqual (a b : option nat) : bool :=
  if bool_decide (a = b) then true
  else match a ≫= (st_assignments s !!.), b ≫= (st_assignments s !!.) with
       | Some x, Some y =>
           if hasExtraCLAFields x || hasExtraCLAFields y
           then bool_decide (assignment_content x = assignment_content y)
           else if negb (String.eqb (am_cluster x) (am_cluster y)) then false
           else if negb (length (am_localities x) =? length (am_localities y))%nat then false
           else all2 localityLbEndpointsEqual (am_localities x) (am_localities y)
       | None, None => true
       | _, _ => false
       end.

Lemma all2_map {A B} (f : A → A → bool) (g : A → B) l k :
  (∀ x y, f x y = true ↔ g x = g y) → length l = length k → all2 f l k = true ↔ map g l = map g k.
Proof.
  intros Hf. revert k. induction l as [|x l IH]; intros [|y k] Hl; simpl in *; try done.
  rewrite andb_true_iff, Hf, IH by lia. split; [by intros [-> ->]|by intros [= ? ?]].
Qed.

Lemma locality_equal_agrees a b : localityLbEndpointsEqual a b = true ↔ locality_at a = locality_at b.
Proof.
  unfold localityLbEndpointsEqual, locality_at. case_bool_decide as Hab; [by subst|].
  destruct (a ≫= _) as [x|], (b ≫= _) as [y|]; simpl; [|done..].
  destruct (hasExtraLocalityFields x || hasExtraLocalityFields y) eqn:Ex.
  { rewrite bool_decide_eq_true. split; [by intros ->|intros Heq; congruence]. }
  apply orb_false_iff in Ex as [Hx Hy]. unfold hasExtraLocalityFields in Hx, Hy.
  destruct x as [lx wx px ex xx], y as [ly wy py ey xy]. simpl in *.
  destruct xx; [done|]. destruct xy; [done|].
  assert (∀ x y, same_endpoint x y = true ↔ endpoint_at x = endpoint_at y) as Hse.
  { intros x y. unfold same_endpoint, endpoint_Equal. rewrite orb_true_iff, !bool_decide_eq_true. split; [intros [->|?]; done|by right]. }
  unfold locality_content. simpl. destruct (Z.eqb_spec px py) as [->|Hp]; simpl; [|split; [done|intros Heq; congruence]].
  destruct (bool_decide_reflect ((wx = None) ↔ (wy = None))) as [Hw|Hw]; simpl.
  2:{ split; [done|]. intros Heq. assert (wx = wy) as -> by congruence. by destruct Hw. }
  destruct (Z.eqb_spec (default 0%Z (u32_value <$> wx)) (default 0%Z (u32_value <$> wy))) as [Hv|Hv]; simpl.
  2:{ split; [done|]. intros Heq. assert (wx = wy) as -> by congruence. done. }
  assert (wx = wy) as ->.
  { destruct wx as [[vx ux]|], wy as [[vy uy]|]; simpl in *; [|naive_solver..|done]. destruct ux; [done|]. destruct uy; [done|]. by subst. }
  destruct (bool_decide_reflect (lx = ly)) as [->|Hl]; simpl; [|split; [done|intros Heq; congruence]].
  destruct (Nat.eqb_spec (length ex) (length ey)) as [Hlen|Hlen]; simpl.
  - rewrite (all2_map _ endpoint_at) by done. split; [by intros ->|intros Heq; congruence].
  - split; [done|]. intros [= Heq]. apply (f_equal length) in Heq. by rewrite !length_map in Heq.
Qed.

(** The comparison that skips shared endpoints agrees with that of whole messages. *)
Theorem assignments_equal_agrees a b : clusterLoadAssignmentsEqual a b = true ↔ assignment_at a = assignment_at b.
Proof.
  unfold clusterLoadAssignmentsEqual, assignment_at. case_bool_decide as Hab; [by subst|].
  destruct (a ≫= _) as [x|], (b ≫= _) as [y|]; simpl; [|done..].
  destruct (hasExtraCLAFields x || hasExtraCLAFields y) eqn:Ex.
  { rewrite bool_decide_eq_true. split; [by intros ->|intros Heq; congruence]. }
  apply orb_false_iff in Ex as [Hx Hy]. unfold hasExtraCLAFields in Hx, Hy.
  destruct x as [nx lx xx], y as [ny ly xy]. simpl in *. destruct xx; [done|]. destruct xy; [done|].
  unfold assignment_content. simpl. destruct (String.eqb_spec nx ny) as [->|Hn]; simpl; [|split; [done|intros Heq; congruence]].
  destruct (Nat.eqb_spec (length lx) (length ly)) as [Hlen|Hlen]; simpl.
  - rewrite (all2_map _ locality_at) by (done || apply locality_equal_agrees). split; [by intros ->|intros Heq; congruence].
  - split; [done|]. intros [= Heq]. apply (f_equal length) in Heq. by rewrite !length_map in Heq.
Qed.
End equal.
Arguments store : clear implicits.

(** ** Interning (sharedproto.go) *)

Section intern.
Context {Ext : Type} `{EqDecision Ext}.
Implicit Types (s : store Ext) (h : Z) (p q : nat).

(** The buckets of [Interner]; [Shared] is the address of a message. *)
Abbreviation Interner := (gmap Z (list nat)).

Definition bucket (i : Interner) h : list nat := default [] (i !! h).

Definition record_proto h p (i : Interner) : Interner := <[h := bucket i h ++ [p]]> i.

Definition Intern s p h (i : Interner) : nat * Interner :=
  match List.find (λ existing, clusterLoadAssignmentsEqual s (Some existing) (Some p)) (bucket i h) with
  | Some existing => (existing, i)
  | None => (p, record_proto h p i)
  end.

Definition Adopt (shared : option nat) h (i : Interner) : Interner :=
  match shared with
  | None => i
  | Some p => if bool_decide (p ∈ bucket i h) then i else record_proto h p i
  end.

(** ** The retainer (cla.go) *)

(** A row of a client: its key, the hash and the interned assignment. *)
Record row := mkRow' { r_client : string; r_hash : Z; r_cla : option nat }.

(** Retained assignments with the buckets they were interned under, by backend. *)
Abbreviation claRetainer := (gmap string (list (Z * nat))).

Definition seed (r : claRetainer) (backend : string) (i : Interner) : Interner :=
  foldl (λ i e, Adopt (Some e.2) e.1 i) i (default [] (r !! backend)).

Definition retain_step (retained : list (Z * nat)) (x : row) : list (Z * nat) :=
  match r_cla x with
  | None => retained
  | Some p => if bool_decide ((r_hash x, p) ∈ retained) then retained else retained ++ [(r_hash x, p)]
  end.

Definition retained_of (rows : list row) : list (Z * nat) := foldl retain_step [] rows.

Definition forget (backend : string) (r : claRetainer) : claRetainer := delete backend r.

Definition keep (backend : string) (rows : list row) (r : claRetainer) : claRetainer :=
  match retained_of rows with
  | [] => delete backend r
  | l => <[backend := l]> r
  end.

Definition forgetIfAbsent (backend : string) (absent : bool) (r : claRetainer) : claRetainer :=
  if absent then forget backend r else r.

(** One pass of the transform: a candidate per client, with its hash. *)
Definition intern_step s (acc : list row * Interner) (c : string * Z * nat) : list row * Interner :=
  let '(q, i) := Intern s c.2 c.1.2 acc.2 in (acc.1 ++ [mkRow' c.1.1 c.1.2 (Some q)], i).

Definition pass s (r : claRetainer) (backend : string) (candidates : list (string * Z * nat)) : list row :=
  (foldl (intern_step s) ([], seed r backend ∅) candidates).1.

(** ** Lemmas: interning *)

Lemma bucket_record i h p h' : bucket (record_proto h p i) h' = if decide (h' = h) then bucket i h ++ [p] else bucket i h'.
Proof.
  unfold record_proto, bucket. destruct (decide (h' = h)) as [->|Hne]; [by rewrite lookup_insert_eq|by rewrite lookup_insert_ne].
Qed.

Definition same_content s p q : Prop := assignment_at s (Some p) = assignment_at s (Some q).

(** What a bucket offers for a content: its first entry of that content. *)
Definition offered s (i : Interner) h p : option nat :=
  List.find (λ existing, clusterLoadAssignmentsEqual s (Some existing) (Some p)) (bucket i h).

Lemma offered_content s i h p q : offered s i h p = Some q → same_content s q p.
Proof. intros [_ H]%find_some. by apply assignments_equal_agrees. Qed.

Lemma offered_ext s i h p p' : same_content s p p' → offered s i h p = offered s i h p'.
Proof.
  intros Hp. unfold offered. induction (bucket i h) as [|x l IH]; [done|]. simpl. rewrite IH.
  assert (clusterLoadAssignmentsEqual s (Some x) (Some p) = clusterLoadAssignmentsEqual s (Some x) (Some p')) as ->; [|done].
  apply eq_bool_prop_intro. rewrite !Is_true_true, !assignments_equal_agrees. unfold same_content in Hp. by rewrite Hp.
Qed.

Lemma find_snoc {A} (f : A → bool) (l : list A) (x : A) :
  List.find f (l ++ [x]) = match List.find f l with Some y => Some y | None => if f x then Some x else None end.
Proof. induction l as [|y l IH]; simpl; [done|]. destruct (f y); [done|exact IH]. Qed.

(** An interner only grows at the end of its buckets. *)
Lemma offered_record s i h0 p0 h p q : offered s i h p = Some q → offered s (record_proto h0 p0 i) h p = Some q.
Proof.
  unfold offered. rewrite bucket_record. destruct (decide (h = h0)) as [->|]; [|done]. rewrite find_snoc. by intros ->.
Qed.

Lemma intern_spec s p h i q i' :
  Intern s p h i = (q, i') →
  same_content s q p ∧ offered s i' h p = Some q ∧ (∀ h0 p0 q0, offered s i h0 p0 = Some q0 → offered s i' h0 p0 = Some q0).
Proof.
  unfold Intern. fold (offered s i h p). destruct (offered s i h p) as [e|] eqn:E; intros [= <- <-].
  - split; [by eapply offered_content|done].
  - split; [done|]. split; [|intros; by apply offered_record]. unfold offered in *. rewrite bucket_record, decide_True by done.
    rewrite find_snoc, E. by rewrite (proj2 (assignments_equal_agrees s (Some p) (Some p))).
Qed.

(** The rows of a pass, against the interner it ends with. *)
Lemma intern_loop s candidates acc :
  let r := foldl (intern_step s) acc candidates in
  (∀ h0 p0 q0, offered s acc.2 h0 p0 = Some q0 → offered s r.2 h0 p0 = Some q0) ∧
  ∃ rows, r.1 = acc.1 ++ rows ∧
    Forall2 (λ c x, r_client x = c.1.1 ∧ r_hash x = c.1.2 ∧ ∃ q, r_cla x = Some q ∧ same_content s q c.2 ∧
                    offered s r.2 c.1.2 c.2 = Some q) candidates rows.
Proof.
  revert acc. induction candidates as [|[[c h] p] candidates IH]; intros acc; simpl.
  { split; [done|]. exists []. by rewrite app_nil_r. }
  destruct (IH (intern_step s acc (c, h, p))) as (Hkeep & rows & Hr & Hrows). unfold intern_step in *. simpl in *.
  destruct (Intern s p h acc.2) as [q i'] eqn:E. destruct (intern_spec _ _ _ _ _ _ E) as (Hc & Ho & Hg). simpl in *.
  split; [auto|]. eexists (_ :: rows). split; [rewrite Hr, <- app_assoc; done|]. constructor; [|done]. simpl. eauto 10.
Qed.

Lemma pass_spec s r backend candidates :
  ∃ i, (∀ h0 p0 q0, offered s (seed r backend ∅) h0 p0 = Some q0 → offered s i h0 p0 = Some q0) ∧
  Forall2 (λ c x, r_client x = c.1.1 ∧ r_hash x = c.1.2 ∧ ∃ q, r_cla x = Some q ∧ same_content s q c.2 ∧
                  offered s i c.1.2 c.2 = Some q) candidates (pass s r backend candidates).
Proof.
  destruct (intern_loop s candidates ([], seed r backend ∅)) as (Hk & rows & Hr & Hrows). eexists. split; [exact Hk|].
  unfold pass. by rewrite Hr.
Qed.

Lemma retained_elem rows h p : (h, p) ∈ retained_of rows ↔ ∃ x, x ∈ rows ∧ r_hash x = h ∧ r_cla x = Some p.
Proof.
  unfold retained_of. induction rows as [|x rows IH] using rev_ind.
  { split; [by intros ?%elem_of_nil|by intros (? & ?%elem_of_nil & _)]. }
  rewrite foldl_app. simpl. set (l := foldl retain_step [] rows) in *. unfold retain_step.
  assert ((h, p) ∈ match r_cla x with None => l | Some p' => if bool_decide ((r_hash x, p') ∈ l) then l else l ++ [(r_hash x, p')] end ↔
          (h, p) ∈ l ∨ (r_hash x = h ∧ r_cla x = Some p)) as ->.
  { destruct (r_cla x) as [p'|]; [|naive_solver]. case_bool_decide as Hin.
    - split; [by left|]. intros [?|[<- [= <-]]]; done.
    - rewrite elem_of_app, list_elem_of_singleton. naive_solver. }
  rewrite IH. setoid_rewrite elem_of_app. setoid_rewrite list_elem_of_singleton. naive_solver.
Qed.

Lemma kept_rows rows backend r : default [] (keep backend rows r !! backend) = retained_of rows.
Proof. unfold keep. destruct (retained_of rows) as [|x l]; [by rewrite lookup_delete_eq|by rewrite lookup_insert_eq]. Qed.

Lemma seed_bucket r backend h p : p ∈ bucket (seed r backend ∅) h ↔ (h, p) ∈ default [] (r !! backend).
Proof.
  unfold seed. set (l := default [] (r !! backend)). clearbody l. induction l as [|[h0 p0] l IH] using rev_ind.
  { unfold bucket. simpl. rewrite lookup_empty. simpl. by rewrite !elem_of_nil. }
  rewrite foldl_app, elem_of_app, list_elem_of_singleton. simpl. set (i := foldl _ ∅ l) in *.
  case_bool_decide as Hin.
  - rewrite IH. split; [by left|]. intros [?|[= -> ->]]; [done|by apply IH].
  - rewrite bucket_record. destruct (decide (h = h0)) as [->|Hne].
    + rewrite elem_of_app, list_elem_of_singleton, IH. naive_solver.
    + rewrite IH. naive_solver.
Qed.

Lemma find_only_match {A} (f : A → bool) (l : list A) (q : A) : q ∈ l → f q = true → (∀ y, y ∈ l → f y = true → y = q) → List.find f l = Some q.
Proof.
  intros Hq Hf Hu. destruct (List.find f l) as [y|] eqn:E.
  - apply find_some in E as [Hy%list_elem_of_In Hfy]. by rewrite (Hu y Hy Hfy).
  - apply list_elem_of_In, (find_none _ _ E) in Hq. congruence.
Qed.

(** The rows of a pass with their candidates. *)
Definition built (candidates : list (string * Z * nat)) (rows : list row) (c : string * Z * nat) (x : row) : Prop :=
  ∃ n, candidates !! n = Some c ∧ rows !! n = Some x.

Lemma pass_rows s r backend candidates c x :
  built candidates (pass s r backend candidates) c x →
  r_client x = c.1.1 ∧ r_hash x = c.1.2 ∧ ∃ q, r_cla x = Some q ∧ same_content s q c.2.
Proof.
  intros (n & Hc & Hx). destruct (pass_spec s r backend candidates) as (i & _ & Hf).
  destruct (Forall2_lookup_lr _ _ _ _ _ _ Hf Hc Hx) as (? & ? & q & ? & ? & _). eauto 10.
Qed.

Lemma pass_shares s r backend candidates c x c' x' :
  built candidates (pass s r backend candidates) c x → built candidates (pass s r backend candidates) c' x' →
  c.1.2 = c'.1.2 → same_content s c.2 c'.2 → r_cla x = r_cla x'.
Proof.
  intros (n & Hc & Hx) (n' & Hc' & Hx') Hh Hs. destruct (pass_spec s r backend candidates) as (i & _ & Hf).
  destruct (Forall2_lookup_lr _ _ _ _ _ _ Hf Hc Hx) as (_ & _ & q & Hq & _ & Ho).
  destruct (Forall2_lookup_lr _ _ _ _ _ _ Hf Hc' Hx') as (_ & _ & q' & Hq' & _ & Ho').
  rewrite <- Hh, <- (offered_ext s i _ _ _ Hs) in Ho'. congruence.
Qed.

(** Messages that exist are never changed. *)
Definition extends s s' : Prop := ∀ p, is_Some (assignment_at s (Some p)) → assignment_at s' (Some p) = assignment_at s (Some p).

(** Every client gets an assignment with exactly the content built for it; clients for
    which the same content was built under the same hash get the same proto, also when one of
    them connected only after the others were computed. *)
Theorem assignments_shared_exact s s' r backend candidates later :
  extends s s' → (∀ c, c ∈ candidates → is_Some (assignment_at s (Some c.2))) →
  let rows := pass s r backend candidates in
  let rows' := pass s' (keep backend rows r) backend later in
  (∀ c x, built candidates rows c x → ∃ q, r_cla x = Some q ∧ assignment_at s (Some q) = assignment_at s (Some c.2)) ∧
  (∀ c x c' x', built candidates rows c x → built candidates rows c' x' →
     c.1.2 = c'.1.2 → same_content s c.2 c'.2 → r_cla x = r_cla x') ∧
  (∀ c x c' x', built candidates rows c x → built later rows' c' x' →
     c.1.2 = c'.1.2 → same_content s' c.2 c'.2 → r_cla x = r_cla x').
Proof.
  intros He Ha rows rows'. split; [|split].
  - intros c x (_ & _ & q & Hq & Hs)%pass_rows. eauto.
  - intros c x c' x'. apply pass_shares.
  - intros c x c' x' Hx (n & Hc' & Hx') Hh Hs.
    assert (is_Some (assignment_at s (Some c.2))) as Hca by (destruct Hx as (k & Hk & _); apply Ha; by eapply list_elem_of_lookup_2).
    destruct (pass_rows _ _ _ _ _ _ Hx) as (_ & Hhx & q & Hq & Hqc).
    destruct (pass_spec s' (keep backend rows r) backend later) as (i & Hseed & Hf).
    destruct (Forall2_lookup_lr _ _ _ _ _ _ Hf Hc' Hx') as (_ & _ & q' & Hq' & _ & Ho').
    assert (offered s' (seed (keep backend rows r) backend ∅) c.1.2 c.2 = Some q) as Hoff.
    { apply find_only_match.
      - apply seed_bucket. rewrite kept_rows. apply retained_elem. exists x. split; [|done].
        destruct Hx as (k & _ & Hk). by eapply list_elem_of_lookup_2.
      - apply assignments_equal_agrees. unfold same_content in Hqc. rewrite !He by (done || by rewrite Hqc). done.
      - intros y Hy Hyc. apply seed_bucket in Hy. rewrite kept_rows in Hy. apply retained_elem in Hy as (x0 & Hx0 & Hh0 & Hy).
        apply list_elem_of_lookup in Hx0 as [k Hk].
        destruct (pass_spec s r backend candidates) as (i0 & _ & Hf0). destruct (Forall2_lookup_r _ _ _ _ _ Hf0 Hk) as (c0 & Hc0 & _ & Hh1 & y0 & Hy0 & Hyc0 & _).
        assert (r_cla x0 = r_cla x) as Heq; [|congruence].
        apply (pass_shares s r backend candidates c0 x0 c x); [by exists k|done|congruence|].
        apply assignments_equal_agrees in Hyc. unfold same_content in *. assert (y0 = y) as -> by congruence.
        assert (is_Some (assignment_at s (Some c0.2))) as Hc0a by (apply Ha; by eapply list_elem_of_lookup_2).
        rewrite <- Hyc0. rewrite (He y) in Hyc by by rewrite Hyc0. rewrite (He c.2) in Hyc by done. done. }
    apply Hseed in Hoff. rewrite Hh, (offered_ext s' i _ _ _ Hs) in Hoff. congruence.
Qed.
End intern.

(** ** Retention and deletion run concurrently *)

(** The backends in the collection; the passes in flight, with the rows they computed and
    whether these are stored; the deletions not handled yet, and whether the handler already
    found the backend absent. *)
Record cla_state := mkCS {
  cs_present : gset string; cs_retainer : gmap string (list (Z * nat)); cs_passes : list (string * list row * bool);
  cs_handlers : list (string * bool) }.

Definition cla_init : cla_state := mkCS ∅ ∅ [] [].

(** [keepIfPresent] stores and then looks; the handler looks and then forgets. *)
Inductive cla_step : cla_state → cla_state → Prop :=
| cla_add b s : cla_step s (mkCS ({[b]} ∪ cs_present s) (cs_retainer s) (cs_passes s) (cs_handlers s))
| cla_delete b s : b ∈ cs_present s →
    cla_step s (mkCS (cs_present s ∖ {[b]}) (cs_retainer s) (cs_passes s) (cs_handlers s ++ [(b, false)]))
| cla_start b rows s : cla_step s (mkCS (cs_present s) (cs_retainer s) (cs_passes s ++ [(b, rows, false)]) (cs_handlers s))
| cla_store n b rows s : cs_passes s !! n = Some (b, rows, false) →
    cla_step s (mkCS (cs_present s) (keep b rows (cs_retainer s)) (<[n := (b, rows, true)]> (cs_passes s)) (cs_handlers s))
| cla_look n b rows s : cs_passes s !! n = Some (b, rows, true) →
    cla_step s (mkCS (cs_present s) (if bool_decide (b ∈ cs_present s) then cs_retainer s else forget b (cs_retainer s))
                 (delete n (cs_passes s)) (cs_handlers s))
| cla_handle n b s : cs_handlers s !! n = Some (b, false) →
    cla_step s (mkCS (cs_present s) (cs_retainer s) (cs_passes s)
                 (if bool_decide (b ∈ cs_present s) then delete n (cs_handlers s) else <[n := (b, true)]> (cs_handlers s)))
| cla_forget n b s : cs_handlers s !! n = Some (b, true) →
    cla_step s (mkCS (cs_present s) (forgetIfAbsent b true (cs_retainer s)) (cs_passes s) (delete n (cs_handlers s))).

(** Something will still look at the backend. *)
Definition attended (s : cla_state) (b : string) : Prop :=
  (∃ rows, (b, rows, true) ∈ cs_passes s) ∨ (∃ f, (b, f) ∈ cs_handlers s).

Definition no_leak (s : cla_state) : Prop := ∀ b, is_Some (cs_retainer s !! b) → b ∉ cs_present s → attended s b.

Lemma elem_deleted {A} (l : list A) n (x y : A) : l !! n = Some y → x ∈ l → x ≠ y → x ∈ delete n l.
Proof. intros Hn Hx Hne. rewrite (delete_Permutation _ _ _ Hn) in Hx. by apply elem_of_cons in Hx as [->|]. Qed.

Lemma elem_replaced {A} (l : list A) n (x y z : A) : l !! n = Some y → x ∈ l → x ≠ y → x ∈ <[n := z]> l.
Proof.
  intros Hn [k Hk]%list_elem_of_lookup Hne. apply (list_elem_of_lookup_2 _ k). rewrite list_lookup_insert_ne; [done|].
  intros ->. congruence.
Qed.

Lemma elem_new {A} (l : list A) n (y z : A) : l !! n = Some y → z ∈ <[n := z]> l.
Proof. intros Hn. apply (list_elem_of_lookup_2 _ n). apply list_lookup_insert_eq. by eapply lookup_lt_Some. Qed.

Lemma keep_other b rows r b' : b' ≠ b → keep b rows r !! b' = r !! b'.
Proof. intros Hne. unfold keep. destruct (retained_of rows); [by rewrite lookup_delete_ne|by rewrite lookup_insert_ne]. Qed.

Lemma forget_other b r b' : is_Some (forget b r !! b') → b' ≠ b ∧ is_Some (r !! b').
Proof. unfold forget. intros [x [Hne Hx]%lookup_delete_Some]. split; [done|by exists x]. Qed.

Lemma no_leak_step s s' : no_leak s → cla_step s s' → no_leak s'.
Proof.
  intros Hinv Hstep. destruct Hstep as [b s|b s Hb|b rows s|n b rows s Hn|n b rows s Hn|n b s Hn|n b s Hn]; intros b' Hr Hp; simpl in *.
  - destruct (Hinv b' Hr) as [?|?]; [set_solver|by left|by right].
  - destruct (decide (b' = b)) as [->|Hne]; [right; exists false; simpl; set_solver|].
    destruct (Hinv b' Hr) as [?|[f Hf]]; [set_solver|by left|right; exists f; simpl; set_solver].
  - destruct (Hinv b' Hr Hp) as [[rows' H]|?]; [left; exists rows'; simpl; set_solver|by right].
  - destruct (decide (b' = b)) as [->|Hne]; [left; exists rows; by eapply elem_new|]. rewrite keep_other in Hr by done.
    destruct (Hinv b' Hr Hp) as [[rows' H]|?]; [|by right]. left. exists rows'. eapply elem_replaced; [exact Hn|done|congruence].
  - case_bool_decide as Hin.
    + assert (b' ≠ b) as Hne by (intros ->; done). destruct (Hinv b' Hr Hp) as [[rows' H]|?]; [|by right].
      left. exists rows'. eapply elem_deleted; [exact Hn|done|congruence].
    + apply forget_other in Hr as [Hne Hr]. destruct (Hinv b' Hr Hp) as [[rows' H]|?]; [|by right].
      left. exists rows'. eapply elem_deleted; [exact Hn|done|congruence].
  - destruct (Hinv b' Hr Hp) as [?|[f Hf]]; [by left|]. right. case_bool_decide as Hin; simpl.
    + exists f. eapply elem_deleted; [exact Hn|done|congruence].
    + destruct (decide (b' = b)) as [->|Hne]; [exists true; by eapply elem_new|].
      exists f. eapply elem_replaced; [exact Hn|done|congruence].
  - apply forget_other in Hr as [Hne Hr]. destruct (Hinv b' Hr Hp) as [?|[f Hf]]; [by left|].
    right. exists f. eapply elem_deleted; [exact Hn|done|congruence].
Qed.

(** In every interleaving of recomputations with additions and deletions of backends, once
    no pass and no deletion is in flight, protos are retained only for backends that exist. *)
Theorem retention_bounded s :
  rtc cla_step cla_init s → cs_passes s = [] → cs_handlers s = [] → dom (cs_retainer s) ⊆ cs_present s.
Proof.
  intros Hr Hp Hh b [x Hb]%elem_of_dom. destruct (decide (b ∈ cs_present s)) as [|Hn]; [done|]. exfalso.
  assert (no_leak s) as Hinv.
  { clear Hp Hh Hb Hn. apply (rtc_ind_r (R := cla_step) no_leak cla_init); [by intros b' [? ?]| |done].
    intros y z _ Hstep Hy. by eapply no_leak_step. }
  destruct (Hinv b ltac:(by eexists) Hn) as [[rows H]|[f H]]; rewrite ?Hp, ?Hh in H; by apply elem_of_nil in H.
Qed.

(** ** Examples *)

(** Two assignments built for two clients share their endpoint; a third one differs. *)
Definition ex_loc (e : nat) : LocalityMsg (Ext := unit) := mkLM (Some (mkLoc "r" "a" "")) (Some (mkU32 1 None)) 0 [Some e] None.
Definition ex_store : store unit :=
  mkStore {[0%nat := mkLbEp (Some "10.0.0.1") None None ""; 1%nat := mkLbEp (Some "10.0.0.2") None None ""]}
    {[0%nat := ex_loc 0; 1%nat := ex_loc 0; 2%nat := ex_loc 1]}
    {[0%nat := mkAM "svc" [Some 0%nat] None; 1%nat := mkAM "svc" [Some 1%nat] None; 2%nat := mkAM "svc" [Some 2%nat] None]}.

Example ex_pass :
  map r_cla (pass ex_store ∅ "svc" [("c1", 7%Z, 0%nat); ("c2", 7%Z, 1%nat); ("c3", 7%Z, 2%nat)]) = [Some 0%nat; Some 0%nat; Some 2%nat].
Proof. by vm_compute. Qed.

(** A client that connects later gets the proto of the first pass. *)
Lemma assignments_shared_exact_witness :
  let first := pass ex_store ∅ "svc" [("c1", 7%Z, 0%nat)] in
  let second := pass ex_store (keep "svc" first ∅) "svc" [("c1", 7%Z, 1%nat); ("c2", 7%Z, 1%nat)] in
  first = [mkRow' "c1" 7 (Some 0%nat)] ∧ map r_cla second = [Some 0%nat; Some 0%nat] ∧
  ∀ c x c' x', built [("c1", 7%Z, 0%nat)] first c x → built [("c1", 7%Z, 1%nat); ("c2", 7%Z, 1%nat)] second c' x' →
    c.1.2 = c'.1.2 → same_content ex_store c.2 c'.2 → r_cla x = r_cla x'.
Proof.
  split; [by vm_compute|]. split; [by vm_compute|].
  refine (proj2 (proj2 (assignments_shared_exact ex_store ex_store ∅ "svc" [("c1", 7%Z, 0%nat)] [("c1", 7%Z, 1%nat); ("c2", 7%Z, 1%nat)] _ _))).
  - by intros p _.
  - intros c ->%list_elem_of_singleton. apply (bool_decide_unpack _). by vm_compute.
Defined.

(** A pass stores after the backend was deleted and its handler ran, and cleans up itself. *)
Lemma retention_bounded_witness :
  ∃ s, rtc cla_step cla_init s ∧ cs_retainer s = ∅ ∧ dom (cs_retainer s) ⊆ cs_present s.
Proof.
  set (x := mkRow' "c1" 7 (Some 0%nat)).
  assert (rtc cla_step cla_init (mkCS ∅ ∅ [] [])) as H.
  { eapply rtc_l; [exact (cla_add "svc" cla_init)|]. eapply rtc_l; [exact (cla_start "svc" [x] _)|].
    eapply rtc_l; [apply (cla_delete "svc"); by vm_compute|]. eapply rtc_l; [by apply (cla_handle 0 "svc")|].
    eapply rtc_l; [by apply (cla_forget 0 "svc")|]. eapply rtc_l; [by apply (cla_store 0 "svc" [x])|].
    eapply rtc_l; [by apply (cla_look 0 "svc" [x])|]. apply reflexive_eq. by vm_compute. }
  eexists. split; [exact H|]. split; [done|]. by apply (retention_bounded _ H).
Defined.
