(* ===== verification/ClientSnapshots.v ===== *)
(** * The xDS snapshot of each client (kgateway/proxy_syncer)

    Every backend is translated once into a shared row; every connected client gets the
    clusters of all rows, its own copy where a plugin asks for one, and its endpoints; the
    snapshot joins them with the listeners and routes of its Gateway.  A snapshot that cannot
    be completed is not published, and the xDS cache keeps the previous one.

    KRT collections are lists of rows, and the memo of verdicts is threaded through the
    translations.  A proto that is shared between clients is a value: what may be aliased is
    in [SharedProto].  Marshalling for a content hash is the parameter [marshal_cluster]. *)

From S2P Require Import Prelude IR Hashing PolicyIndex Endpoints EnvoyRoute ConnectedClients ValidatorCache EndpointEditor BackendCluster.

(** ** Resources of a snapshot *)

Section resources.
Context {Any V Rest : Type}.
Abbreviation Cluster := (Cluster Any V).

(** A message of a snapshot; [ROther]: listeners, routes and secrets, by their name. *)
Inductive Resource :=
| RCluster (c : Cluster)
| REndpoints (cla : ClusterLoadAssignment)
| ROther (name : string) (rest : Rest).

(** [envoycache.GetResourceName]. *)
Definition GetResourceName (r : Resource) : string :=
  match r with
  | RCluster c => c_name c
  | REndpoints cla => cla_cluster cla
  | ROther name _ => name
  end.

(** [envoycache.Resources]. *)
Record Resources := mkRes { res_version : string; res_items : gmap string Resource }.

(** [envoycache.NewResourcesWithTTL]: the last resource of a name wins. *)
Definition index_resources (l : list Resource) : gmap string Resource :=
  foldl (λ m r, <[GetResourceName r := r]> m) ∅ l.
Definition NewResourcesWithTTL (version : string) (l : list Resource) : Resources := mkRes version (index_resources l).

(** [sliceToResourcesHash], [sliceToResources]. *)
Context (HashProto : Resource → Z).
Definition sliceToResourcesHash (l : list Resource) : list Resource * Z :=
  (l, foldl (λ h r, Z.lxor h (HashProto r)) 0%Z l).
Definition sliceToResources (l : list Resource) : Resources :=
  let '(r, h) := sliceToResourcesHash l in NewResourcesWithTTL (pretty h) r.

Record GatewayXdsResources := mkGX {
  gx_namespace : string; gx_name : string; gx_clusters : list Resource; gx_clusters_hash : Z;
  gx_routes : Resources; gx_listeners : Resources; gx_secrets : Resources }.

Definition gx_key (r : GatewayXdsResources) : string :=
  OwnerNamespaceNameID GatewayApiProxyValue (gx_namespace r) (gx_name r).

(** The xDS part of [toTranslationOutput]. *)
Definition to_xds (namespace name : string) (extraClusters routes listeners secrets : list Resource) : GatewayXdsResources :=
  let '(c, ch) := sliceToResourcesHash extraClusters in
  mkGX namespace name c ch (sliceToResources routes) (sliceToResources listeners) (sliceToResources secrets).

Record Snapshot := mkSnap {
  sn_clusters : Resources; sn_endpoints : Resources; sn_routes : Resources; sn_listeners : Resources; sn_secrets : Resources }.

Record XdsSnapWrapper := mkWrap { sw_snap : Snapshot; sw_errored : list string; sw_key : string }.

(** [XdsSnapWrapper.Equals]: the versions of all types. *)
Definition snap_Equals (p q : XdsSnapWrapper) : bool :=
  let v := λ s, (res_version (sn_endpoints s), res_version (sn_clusters s), res_version (sn_routes s),
                 res_version (sn_listeners s), res_version (sn_secrets s)) in
  bool_decide (v (sw_snap p) = v (sw_snap q)).

(** ** Endpoints that are left out *)

(** [c.GetType()]: the zero value, [STATIC], also for an extension type or when none is set. *)
Definition is_static (r : Resource) : bool :=
  match r with
  | RCluster c => match c_discovery c with None | Some (DType STATIC) => true | Some (DCluster _ _) => true | _ => false end
  | _ => false
  end.

Definition static_names (clusters : Resources) : list string :=
  map GetResourceName (List.filter is_static (map snd (map_to_list (res_items clusters)))).

Definition values (r : Resources) : list Resource := map snd (map_to_list (res_items r)).

Definition keep_static (names : list string) (r : Resource) : bool :=
  match r with REndpoints cla => negb (bool_decide (cla_cluster cla ∈ names)) | _ => false end.

Definition filterEndpointResourcesForStaticClusters (clusters endpoints : Resources) : Resources :=
  match static_names clusters with
  | [] => endpoints
  | names =>
      let filtered := List.filter (keep_static names) (values endpoints) in
      if (length filtered =? length (values endpoints))%nat then endpoints
      else NewResourcesWithTTL (res_version endpoints) filtered
  end.

Definition keep_errored (names : list string) (r : Resource) : bool :=
  match r with REndpoints cla => negb (bool_decide (cla_cluster cla ∈ names)) | _ => true end.

Definition errored_hash (names : list string) : Z := foldl (λ h name, Z.lxor h (HashString name)) 0%Z names.

Definition filterEndpointResourcesForErroredClusters (endpoints : Resources) (errored : list string) : Resources :=
  match errored with
  | [] => endpoints
  | _ =>
      let filtered := List.filter (keep_errored errored) (values endpoints) in
      if (length filtered =? length (values endpoints))%nat then endpoints
      else NewResourcesWithTTL (res_version endpoints +:+ "-errors-" +:+ pretty (errored_hash errored)) filtered
  end.
End resources.
Arguments Resource : clear implicits.
Arguments Resources : clear implicits.
Arguments GatewayXdsResources : clear implicits.
Arguments Snapshot : clear implicits.
Arguments XdsSnapWrapper : clear implicits.

(** ** Rows *)

Section rows.
Context {P Any V Hdr Rest : Type} `{EqDecision V} `{PI : PolicyIrOps P} `{TL : TransportLib Any}.
Context `{EL : EnvoyLib Any Hdr (Cluster Any V)} `{LL : LruLib string cachedResult}.
Abbreviation Backend := (BackendObjectIR P).
Abbreviation Cluster := (Cluster Any V).
Abbreviation Client := UniquelyConnectedClient.
Abbreviation Resource := (Resource Any V Rest).

(** The hash of a policy IR that has one ([ir.PolicyHashIR]); creation times are in
    nanoseconds. *)
Context (policy_hash : P → option Z) (marshal_cluster : Cluster → string).

Definition HashCluster (c : Cluster) : Z := HashString (marshal_cluster c).

Definition gk_cmp : GroupKind → GroupKind → comparison :=
  (cmp_on gk_group String.compare ▷ cmp_on gk_kind String.compare)%cmp.

Definition hash_policy (hasher : Z) (policy : PolicyAtt P) : Z :=
  let hasher := HashStringField fnv64a hasher (PolicyRefString (pa_ref policy)) in
  let hasher := HashStringField fnv64a hasher (pretty (pa_generation policy)) in
  let hasher := foldl (λ hs e, HashStringField fnv64a hs (err_text e)) hasher (pa_errors policy) in
  match policy_hash (pa_ir policy) with
  | Some h => HashUint64 fnv64a hasher h
  | None => HashStringField fnv64a hasher (pretty (pi_creation_time (pa_ir policy)))
  end.

Definition hash_kind (policies : AttachedPolicies P) (hasher : Z) (gk : GroupKind) : Z :=
  let hasher := HashStringField fnv64a (HashStringField fnv64a hasher (gk_group gk)) (gk_kind gk) in
  foldl hash_policy hasher (ap_get policies gk).

Definition backendEndpointVersionHash (backend : Backend) : Z :=
  match map_to_list (bo_policies backend) with
  | [] => 0
  | l => foldl (hash_kind (bo_policies backend)) (h_new fnv64a) (sort_stable gk_cmp (map fst l))
  end.

Definition baseClusterVersion (backend : Backend) (b : BaseCluster P Any V) : Z :=
  match b_error b with
  | Some _ => 0
  | None =>
      let hasher := HashCluster (b_cluster b) in
      match b_supports_inline b, b_endpoint_inputs b with
      | true, Some inputs =>
          HashUint64 fnv64a (HashUint64 fnv64a hasher (row_equality_hash (ri_row inputs))) (backendEndpointVersionHash backend)
      | _, _ => hasher
      end
  end.

Record baseEnvoyCluster := mkBEC {
  bec_name : string; bec_cluster : Cluster; bec_version : Z; bec_error : option error; bec_source : ObjectSource;
  bec_generation : Z; bec_overlay_hash : Z; bec_compare : bool; bec_backend : option Backend;
  bec_base : option (BaseCluster P Any V) }.

(** A client's view of a cluster; [uc_cluster] is empty on rows that only carry a status. *)
Record uccWithCluster := mkUC {
  uc_client : Client; uc_cluster : option Cluster; uc_version : Z; uc_name : string; uc_error : option error;
  uc_per_client : bool; uc_source : ObjectSource; uc_generation : Z }.

Definition uccClusterResourceName (client : Client) (name : string) : string := ucc_resource_name client +:+ "/" +:+ name.

Definition errorsEqual (a b : option error) : bool :=
  match a, b with
  | None, None => true
  | Some a, Some b => String.eqb (err_text a) (err_text b)
  | _, _ => false
  end.

Context (h2 : Any) (encode_cluster : Cluster → error + string).
Context (keys : gmap PodLocality (list EndpointWithMd) → list PodLocality).
Context (encode_endpoint : LbEndpoint → string) (iter_eps : LocalityLbMap → list (PodLocality * HashedEndpoint)).

(** The shared row of a backend, in [NewPerClientEnvoyClusters]. *)
Definition base_row (t : BackendTranslator P Any V) (m : Memo string) (backend : Backend) : baseEnvoyCluster * Memo string :=
  let '(baseRes, m) := TranslateBackendBase (Hdr := Hdr) h2 encode_cluster keys t m backend in
  let name := c_name (b_cluster baseRes) in
  let baseRes :=
    if String.eqb name (bo_cluster_name backend) then baseRes
    else errored backend (Some (EMsg ("backend translation renamed the cluster from " +:+ bo_cluster_name backend +:+ " to " +:+ name))) in
  (mkBEC (bo_cluster_name backend) (b_cluster baseRes) (baseClusterVersion backend baseRes) (b_error baseRes)
     (bo_source backend) (match bo_obj backend with Some o => obj_generation o | None => 0 end)
     (OverlayInputsHash t backend) (HasUndeclaredOverlayInputs t) (Some backend) (Some baseRes), m).

Definition base_rows (t : BackendTranslator P Any V) (m : Memo string) (backends : list Backend) :
    list baseEnvoyCluster * Memo string :=
  foldl (λ acc backend, let '(row, m) := base_row t acc.2 backend in (acc.1 ++ [row], m)) ([], m) backends.

(** [BorrowForRead]: the inputs of the per-client phase with the shared cluster. *)
Definition lend (c : Cluster) (b : BaseCluster P Any V) : BaseCluster P Any V :=
  mkBase c (b_endpoint_inputs b) (b_supports_inline b) (b_defaulted_locality b) (b_generated_cla b) (b_error b).

(** The body of the loop of [clustersForClient]. *)
Definition client_row (t : option (BackendTranslator P Any V)) (ucc : Client) (m : Memo string) (b : baseEnvoyCluster) :
    option (uccWithCluster * Memo string) :=
  let row := mkUC ucc (Some (bec_cluster b)) (bec_version b) (bec_name b) (bec_error b) false (bec_source b) (bec_generation b) in
  match bec_error b, t, bec_base b, bec_backend b with
  | None, Some t, Some base, Some backend =>
      r ← ApplyPerClient (Hdr := Hdr) encode_cluster keys encode_endpoint iter_eps t m ucc backend (lend (bec_cluster b) base);
      match r with
      | (perClient, Some err, m) =>
          Some (mkUC ucc perClient (HashString (err_text err)) (default (bec_name b) (c_name <$> perClient)) (Some err) true
                  (bec_source b) (bec_generation b), m)
      | (Some c, None, m) =>
          Some (mkUC ucc (Some c) (HashCluster c) (c_name c) (bec_error b) false (bec_source b) (bec_generation b), m)
      | (None, None, m) => Some (row, m)
      end
  | _, _, _, _ => Some (row, m)
  end.

Definition client_step (t : option (BackendTranslator P Any V)) (ucc : Client) (acc : list uccWithCluster * Memo string)
    (b : baseEnvoyCluster) : option (list uccWithCluster * Memo string) :=
  '(row, m) ← client_row t ucc acc.2 b; Some (acc.1 ++ [row], m).

Definition clustersForClient (t : option (BackendTranslator P Any V)) (m : Memo string) (base : list baseEnvoyCluster)
    (ucc : Client) : option (list uccWithCluster * Memo string) :=
  foldM (client_step t ucc) ([], m) base.

(** ** The clusters of a client *)

Record clustersWithErrors := mkCWE {
  cwe_clusters : Resources Any V Rest; cwe_errored : list string; cwe_errored_hash : Z; cwe_hash : Z;
  cwe_per_client : list uccWithCluster; cwe_key : string }.

Definition publishable (c : uccWithCluster) : bool := match uc_error c with None => true | Some _ => false end.

(** The loop of [assemblePerClientClusters]: clusters, their hash, errored names and their
    hash, rows of per-client errors. *)
Definition assemble_step (acc : list Resource * Z * list string * Z * list uccWithCluster) (c : uccWithCluster) :
    list Resource * Z * list string * Z * list uccWithCluster :=
  let '(protos, clustersHash, errored, erroredHash, perClient) := acc in
  if publishable c then
    (protos ++ match uc_cluster c with Some x => [RCluster x] | None => [] end, Z.lxor clustersHash (uc_version c),
     errored, erroredHash, perClient)
  else (protos, clustersHash, errored ++ [uc_name c], Z.lxor erroredHash (HashString (uc_name c)),
        if uc_per_client c then perClient ++ [c] else perClient).

Definition assemblePerClientClusters (ucc : Client) (rows : list uccWithCluster) : clustersWithErrors :=
  let '(protos, clustersHash, errored, erroredHash, perClient) := foldl assemble_step ([], 0%Z, [], 0%Z, []) rows in
  mkCWE (NewResourcesWithTTL (pretty clustersHash) protos) errored erroredHash clustersHash
    (sort_stable (cmp_on uc_name String.compare) perClient) (ucc_resource_name ucc).

(** The row of a client in [newPerClientEnvoyClusters]; [None] inside: not ready. *)
Definition client_clusters (t : option (BackendTranslator P Any V)) (m : Memo string) (base : list baseEnvoyCluster)
    (ucc : Client) : option (option clustersWithErrors * Memo string) :=
  '(rows, m) ← clustersForClient t m base ucc;
  Some (match rows with [] => None | _ => Some (assemblePerClientClusters ucc rows) end, m).

(** [newStatusClusters]: a row per shared cluster, and a row per error of a client. *)
Definition base_status (b : baseEnvoyCluster) : uccWithCluster :=
  mkUC (mkUCC "" ∅ (mkLoc "" "" "") "" false "") None 0 (bec_name b) (bec_error b) false (bec_source b) (bec_generation b).
Definition newStatusClusters (base : list baseEnvoyCluster) (perClient : list clustersWithErrors) : list uccWithCluster :=
  map base_status base ++ flat_map cwe_per_client perClient.

(** ** The endpoints of a client *)

Record UccWithEndpoints := mkUE { ue_client : Client; ue_endpoints : ClusterLoadAssignment; ue_hash : Z; ue_name : string }.

Definition FetchEndpointsForClient (rows : list UccWithEndpoints) (ucc : Client) : list UccWithEndpoints :=
  List.filter (λ e, String.eqb (ucc_resource_name (ue_client e)) (ucc_resource_name ucc)) rows.

(** The rows of [EndpointResources]. *)
Definition client_endpoints (endpoints : list UccWithEndpoints) (extra : list (list UccWithEndpoints)) (ucc : Client) :
    Resources Any V Rest :=
  let eps := FetchEndpointsForClient endpoints ucc ++ flat_map (λ rows, FetchEndpointsForClient rows ucc) extra in
  NewResourcesWithTTL (pretty (foldl (λ h e, Z.lxor h (ue_hash e)) 0%Z eps)) (map (λ e, REndpoints (ue_endpoints e)) eps).

(** ** The snapshot *)

Definition merge_clusters (gx : GatewayXdsResources Any V Rest) (c : clustersWithErrors) : Resources Any V Rest :=
  match gx_clusters gx with
  | [] => cwe_clusters c
  | l => mkRes (pretty (Z.lxor (cwe_hash c) (gx_clusters_hash gx)))
           (foldl (λ items r, <[GetResourceName r := r]> items) (res_items (cwe_clusters c)) l)
  end.

(** The transform of [PerClientXdsSnapshots]; [None] defers. *)
Definition snapshot_for (mostXds : list (GatewayXdsResources Any V Rest)) (clusters : option clustersWithErrors)
    (endpoints : option (Resources Any V Rest)) (ucc : Client) : option (XdsSnapWrapper Any V Rest) :=
  match List.find (λ gx, String.eqb (gx_key gx) (ucc_role ucc)) mostXds, clusters, endpoints with
  | Some gx, Some c, Some eps =>
      let clusterResources := merge_clusters gx c in
      let endpointRes := filterEndpointResourcesForStaticClusters clusterResources eps in
      let endpointRes := filterEndpointResourcesForErroredClusters endpointRes (cwe_errored c) in
      Some (mkWrap (mkSnap clusterResources endpointRes (gx_routes gx) (gx_listeners gx) (gx_secrets gx))
              (cwe_errored c) (ucc_resource_name ucc))
  | _, _, _ => None
  end.
End rows.
Arguments baseEnvoyCluster : clear implicits.
Arguments uccWithCluster : clear implicits.
Arguments clustersWithErrors : clear implicits.

(** ** Endpoint rows *)

Section endpoint_rows.
Context {P : Type} `{PI : PolicyIrOps P} (policy_hash : P → option Z).
Context (keys : gmap PodLocality (list EndpointWithMd) → list PodLocality).
Context (encode_endpoint : LbEndpoint → string) (iter_eps : LocalityLbMap → list (PodLocality * HashedEndpoint)).
Abbreviation Row := (EndpointRow P).
Abbreviation Backend := (BackendObjectIR P).
Abbreviation Client := UniquelyConnectedClient.

(** The fields of an endpoint set that follow the backend with its policies. *)
Definition with_identity (policies : AttachedPolicies P) (cluster resource : string) (e : Row) : Row :=
  mkRow (row_labels e) policies (row_lb_eps e) cluster resource (row_port e) (row_hostname e) (row_traffic e)
    (row_equality_hash e) (row_upstream_hash e) (row_eps_hash e) (row_count e) (row_folded e).

Definition find_row (rows : list Row) (resource : string) : option Row :=
  List.find (λ r, String.eqb (row_resource r) resource) rows.

(** [newFinalBackendEndpoints]. *)
Definition final_endpoints (raw : list Row) (backend : Backend) : option Row :=
  raw ← find_row raw (bo_resource_name backend);
  let final := with_identity (bo_policies backend) (bo_cluster_name backend) (bo_resource_name backend) (EmptyCopy raw) in
  let final := ReuseEndpointsFrom raw final in
  let policyHash := backendEndpointVersionHash policy_hash backend in
  Some (if (policyHash =? 0)%Z then final else FoldVersion policyHash final).

(** [newGatewayBackendVariantEndpoints]. *)
Definition variant_endpoints (base : list Row) (baseResourceName : string) (variant : option Backend) : option Row :=
  backend ← variant;
  row ← find_row base baseResourceName;
  Some (ReuseEndpointsFrom row (NewEndpointsForBackend backend)).

Definition combineEndpointHash (parts : list Z) : Z := foldl (HashUint64 fnv64a) (h_new fnv64a) parts.

(** The hash of a sequence of fields. *)
Definition fields_hash (fields : list string) : Z := foldl (HashStringField fnv64a) (h_new fnv64a) fields.

Record ResolvedEndpoints := mkRE { re_inputs : RowInputs P; re_additional : Z; re_load_balancing : Z }.

Definition ResolveEndpoints (plugins : list (EndpointPlugin P)) (ucc : Client) (ep : Row) : option ResolvedEndpoints :=
  '(inputs, h) ← ResolveEndpointInputs encode_endpoint iter_eps ucc (mkRI ep None) plugins;
  Some (mkRE inputs h (LoadBalancingContextHash fields_hash ucc (priority_inputs inputs))).

Definition BuildClusterLoadAssignment (ucc : Client) (r : ResolvedEndpoints) : ClusterLoadAssignment :=
  PrioritizeEndpoints keys ucc (priority_inputs (re_inputs r)).

(** The row of a client and an endpoint set in [NewPerClientEnvoyEndpoints]. *)
Definition endpoint_row (plugins : list (EndpointPlugin P)) (ep : Row) (ucc : Client) : option UccWithEndpoints :=
  resolved ← ResolveEndpoints plugins ucc ep;
  Some (mkUE ucc (BuildClusterLoadAssignment ucc resolved)
          (combineEndpointHash [row_equality_hash (ri_row (re_inputs resolved)); re_additional resolved; re_load_balancing resolved])
          (row_resource ep)).

Definition NewPerClientEnvoyEndpoints (plugins : list (EndpointPlugin P)) (uccs : list Client) (eps : list Row) :
    option (list UccWithEndpoints) :=
  l ← mapM (λ ep, mapM (endpoint_row plugins ep) uccs) eps; Some (concat l).
End endpoint_rows.

(** ** The local cluster of a Gateway *)

Definition localClusterEndpointPort : Z := 19000.

Record localClusterEndpoint := mkLCE { lce_name : string; lce_address : string; lce_locality : PodLocality }.

Definition gatewayPodIndexKey (namespace gatewayName : string) : string := namespace +:+ "/" +:+ gatewayName.

Definition pod_Address (p : LocalityPod) : string := default "" (head (pod_addresses p)).

Definition pods_by_gateway (p : LocalityPod) : list string :=
  let gwName := GatewayNameFromLabels (pod_labels p) in
  if String.eqb gwName "" then [] else [gatewayPodIndexKey (pod_namespace p) gwName].

Definition locality_String (l : PodLocality) : string := loc_region l +:+ "/" +:+ loc_zone l +:+ "/" +:+ loc_subzone l.

Definition local_endpoint (p : LocalityPod) : option localClusterEndpoint :=
  if String.eqb (pod_Address p) "" then None
  else Some (mkLCE (pod_key (mkNN (pod_namespace p) (pod_name p))) (pod_Address p) (pod_locality p)).

Definition local_endpoint_cmp (a b : localClusterEndpoint) : comparison :=
  if negb (bool_decide (lce_locality a = lce_locality b))
  then String.compare (locality_String (lce_locality a)) (locality_String (lce_locality b))
  else if negb (String.eqb (lce_name a) (lce_name b)) then String.compare (lce_name a) (lce_name b)
  else String.compare (lce_address a) (lce_address b).

(** The map of endpoints by locality and the localities in the order they occur. *)
Definition by_locality_step (acc : gmap PodLocality (list localClusterEndpoint) * list PodLocality) (e : localClusterEndpoint) :
    gmap PodLocality (list localClusterEndpoint) * list PodLocality :=
  let '(m, localities) := acc in
  (<[lce_locality e := default [] (m !! lce_locality e) ++ [e]]> m,
   match m !! lce_locality e with Some _ => localities | None => localities ++ [lce_locality e] end).

Definition local_lb_endpoint (e : localClusterEndpoint) : LbEndpoint :=
  mkLbEp (Some (lce_address e)) (Some 1%Z) None (pretty localClusterEndpointPort).

Definition local_locality (l : PodLocality) (endpoints : list localClusterEndpoint) : LocalityLbEndpoints :=
  mkLLE (if bool_decide (l = mkLoc "" "" "") then None else Some l) (map local_lb_endpoint endpoints)
    (Some (uint32 (Z.of_nat (length endpoints)))) 0.

Definition buildLocalClusterLoadAssignment (clusterName : string) (pods : list LocalityPod) : ClusterLoadAssignment :=
  let localEndpoints := sort_stable local_endpoint_cmp (omap local_endpoint pods) in
  let '(m, localities) := foldl by_locality_step (∅, []) localEndpoints in
  mkCLA clusterName (map (λ l, local_locality l (default [] (m !! l))) localities).

Definition hash_local_locality (hasher : Z) (l : LocalityLbEndpoints) : Z :=
  let loc := default (mkLoc "" "" "") (lle_locality l) in
  let hasher := HashStringField fnv64a (HashStringField fnv64a (HashStringField fnv64a hasher (loc_region loc))
                  (loc_zone loc)) (loc_subzone loc) in
  foldl (λ hs e, HashStringField fnv64a (HashStringField fnv64a hs (default "" (le_socket e))) (le_rest e)) hasher
    (lle_endpoints l).

Definition hashLocalClusterLoadAssignment (cla : ClusterLoadAssignment) : Z :=
  foldl hash_local_locality (HashStringField fnv64a (h_new fnv64a) (cla_cluster cla)) (cla_endpoints cla).

(** The row of a client in [NewPerClientLocalClusterEndpoints]. *)
Definition local_cluster_row (pods : list LocalityPod) (ucc : UniquelyConnectedClient) : option UccWithEndpoints :=
  if negb (ucc_knows_local_cluster ucc) then None
  else
    let '(localClusterName, gatewayName, gatewayNamespace) := LocalClusterInfo ucc in
    if String.eqb localClusterName "" || String.eqb gatewayName "" || String.eqb gatewayNamespace "" then None
    else
      let gwPods := List.filter (λ p, bool_decide (gatewayPodIndexKey gatewayNamespace gatewayName ∈ pods_by_gateway p)) pods in
      let cla := buildLocalClusterLoadAssignment localClusterName gwPods in
      Some (mkUE ucc cla (hashLocalClusterLoadAssignment cla) localClusterName).

(** ** Deferred clients (snapshot_deferral.go) *)

Record resourceNameDetails := mkRND { rnd_role : string; rnd_namespace : string; rnd_gateway : string }.
#[global] Instance resourceNameDetails_eq_dec : EqDecision resourceNameDetails.
Proof. solve_decision. Defined.
#[global] Instance resourceNameDetails_countable : Countable resourceNameDetails.
Proof.
  apply (inj_countable' (λ r, (rnd_role r, rnd_namespace r, rnd_gateway r)) (λ p, mkRND p.1.1 p.1.2 p.2)). by intros [].
Defined.

Definition getDetailsFromXDSClientResourceName (resourceName : string) : resourceNameDetails :=
  let pks := split "~"%char resourceName in
  mkRND (default "unknown" (pks !! 0%nat)) (default "unknown" (pks !! 1%nat)) (default "unknown" (pks !! 2%nat)).

Definition gauge_labels (key : string) : resourceNameDetails :=
  let cd := getDetailsFromXDSClientResourceName key in mkRND "" (rnd_namespace cd) (rnd_gateway cd).

(** [sd_gauge]: what was last published per Gateway. *)
Record snapshotDeferralTracker := mkSD {
  sd_clients : gset string; sd_snapshots : gset string; sd_deferred : gmap resourceNameDetails Z;
  sd_gauge : gmap resourceNameDetails Z }.

Definition newSnapshotDeferralTracker : snapshotDeferralTracker := mkSD ∅ ∅ ∅ ∅.

Definition adjust (key : string) (delta : Z) (d : snapshotDeferralTracker) : snapshotDeferralTracker :=
  let labels := gauge_labels key in
  let n := (default 0 (sd_deferred d !! labels) + delta)%Z in
  if (n <=? 0)%Z then mkSD (sd_clients d) (sd_snapshots d) (delete labels (sd_deferred d)) (<[labels := 0%Z]> (sd_gauge d))
  else mkSD (sd_clients d) (sd_snapshots d) (<[labels := n]> (sd_deferred d)) (<[labels := n]> (sd_gauge d)).

(** An event of either collection: [true] for a deletion. *)
Definition client_event (key : string) (deleted : bool) (d : snapshotDeferralTracker) : snapshotDeferralTracker :=
  let known := bool_decide (key ∈ sd_clients d) in
  let has := bool_decide (key ∈ sd_snapshots d) in
  if deleted then
    if known then
      let d := mkSD (sd_clients d ∖ {[key]}) (sd_snapshots d) (sd_deferred d) (sd_gauge d) in
      if has then d else adjust key (-1) d
    else d
  else if known then d
  else
    let d := mkSD ({[key]} ∪ sd_clients d) (sd_snapshots d) (sd_deferred d) (sd_gauge d) in
    if has then d else adjust key 1 d.

Definition snapshot_event (key : string) (deleted : bool) (d : snapshotDeferralTracker) : snapshotDeferralTracker :=
  let known := bool_decide (key ∈ sd_clients d) in
  let had := bool_decide (key ∈ sd_snapshots d) in
  if deleted then
    if had then
      let d := mkSD (sd_clients d) (sd_snapshots d ∖ {[key]}) (sd_deferred d) (sd_gauge d) in
      if known then adjust key 1 d else d
    else d
  else if had then d
  else
    let d := mkSD (sd_clients d) ({[key]} ∪ sd_snapshots d) (sd_deferred d) (sd_gauge d) in
    if known then adjust key (-1) d else d.

Inductive tracker_event := EvClient (key : string) (deleted : bool) | EvSnapshot (key : string) (deleted : bool).

Definition track (d : snapshotDeferralTracker) (e : tracker_event) : snapshotDeferralTracker :=
  match e with
  | EvClient key del => client_event key del d
  | EvSnapshot key del => snapshot_event key del d
  end.

Definition deferredClients (d : snapshotDeferralTracker) : gset string := sd_clients d ∖ sd_snapshots d.

(** ** Publishing (proxy_syncer.go, kube_gw_translator_syncer.go) *)

Section publish.
Context {Any V Rest : Type}.

Inductive snapshot_change := SnapSet (w : XdsSnapWrapper Any V Rest) | SnapDelete (w : XdsSnapWrapper Any V Rest).

Definition syncXds (w : XdsSnapWrapper Any V Rest) (cache : gmap string (Snapshot Any V Rest)) :
    gmap string (Snapshot Any V Rest) := <[sw_key w := sw_snap w]> cache.

(** The handler registered in [Start]. *)
Definition on_snapshot (cache : gmap string (Snapshot Any V Rest)) (e : snapshot_change) : gmap string (Snapshot Any V Rest) :=
  match e with
  | SnapSet w => syncXds w cache
  | SnapDelete _ => cache
  end.
End publish.

(** ** Lemmas: items by name *)

Section items.
Context {Any V Rest : Type}.
Implicit Types (r : Resource Any V Rest) (rs : Resources Any V Rest) (l : list (Resource Any V Rest)).

Definition well_keyed rs : Prop := ∀ n r, res_items rs !! n = Some r → GetResourceName r = n.

(** What indexing a list on top of a map finds: the last resource of the name. *)
Lemma index_lookup l (m : gmap string (Resource Any V Rest)) n :
  foldl (λ m r, <[GetResourceName r := r]> m) m l !! n =
  match last (filter (λ r, GetResourceName r = n) l) with Some r => Some r | None => m !! n end.
Proof.
  induction l as [|r l IH] using rev_ind; [done|]. rewrite foldl_app, filter_app, filter_cons, filter_nil. simpl.
  destruct (decide (GetResourceName r = n)) as [<-|Hne]; [by rewrite lookup_insert_eq, last_snoc|].
  by rewrite lookup_insert_ne, app_nil_r.
Qed.

Lemma index_well_keyed version l : well_keyed (NewResourcesWithTTL version l).
Proof.
  intros n r. unfold NewResourcesWithTTL, index_resources. simpl. rewrite index_lookup, lookup_empty.
  destruct (last _) as [x|] eqn:E; [|done]. intros [= ->]. by apply last_Some_elem_of, list_elem_of_filter in E as [? _].
Qed.

Lemma values_elem rs r : r ∈ values rs ↔ ∃ n, res_items rs !! n = Some r.
Proof.
  unfold values. rewrite list_elem_of_fmap. split.
  - intros ([n x] & -> & H%elem_of_map_to_list). eauto.
  - intros [n H]. exists (n, r). by rewrite elem_of_map_to_list.
Qed.

Lemma values_names_NoDup rs : well_keyed rs → NoDup (map GetResourceName (values rs)).
Proof.
  intros Hk. unfold values. rewrite map_map.
  rewrite (map_ext_in _ fst) by (intros [n r] H%list_elem_of_In%elem_of_map_to_list; by apply Hk).
  apply NoDup_fst_map_to_list.
Qed.

(** Without repeated names, indexing keeps everything. *)
Lemma index_distinct l n r :
  NoDup (map GetResourceName l) → index_resources l !! n = Some r ↔ r ∈ l ∧ GetResourceName r = n.
Proof.
  intros Hnd. unfold index_resources. rewrite index_lookup, lookup_empty.
  destruct (last (filter (λ r, GetResourceName r = n) l)) as [x|] eqn:E.
  - apply last_Some_elem_of, list_elem_of_filter in E as [Hn Hx].
    split; [by intros [= <-]|]. intros [Hr <-]. f_equal. by apply (NoDup_key_inj GetResourceName _ _ _ Hnd).
  - split; [done|]. intros [Hr Hn]. apply last_None in E.
    assert (r ∈ filter (λ r, GetResourceName r = n) l) as Hin by by apply list_elem_of_filter.
    rewrite E in Hin. by apply elem_of_nil in Hin.
Qed.

Lemma filter_names_NoDup (keep : Resource Any V Rest → bool) l :
  NoDup (map GetResourceName l) → NoDup (map GetResourceName (List.filter keep l)).
Proof.
  induction l as [|r l IH]; [done|]. simpl. intros [Hr Hl]%NoDup_cons. destruct (keep r); [|by apply IH].
  simpl. apply NoDup_cons. split; [|by apply IH]. intros (x & Hn & Hx)%list_elem_of_fmap. apply Hr.
  apply list_elem_of_fmap. exists x. split; [done|]. by apply list_elem_of_In, List.filter_In, proj1, list_elem_of_In in Hx.
Qed.

Lemma filtered_lookup (keep : Resource Any V Rest → bool) rs n r :
  well_keyed rs →
  index_resources (List.filter keep (values rs)) !! n = Some r ↔ res_items rs !! n = Some r ∧ keep r = true.
Proof.
  intros Hk. rewrite index_distinct by by apply filter_names_NoDup, values_names_NoDup.
  rewrite list_elem_of_In, List.filter_In, <- list_elem_of_In, values_elem. split.
  - intros [[[n' Hr] Hkeep] Hn]. apply Hk in Hr as Hn'. by rewrite <- Hn, Hn'.
  - intros [Hr Hkeep]. split; [by split; [exists n|]|by apply Hk].
Qed.

(** Nothing was removed. *)
Lemma filter_full (keep : Resource Any V Rest → bool) l :
  length (List.filter keep l) = length l ↔ ∀ r, r ∈ l → keep r = true.
Proof.
  induction l as [|x l IH]; simpl; [by split; [intros _ r ?%elem_of_nil|]|].
  pose proof (filter_length_le keep l). destruct (keep x) eqn:E; simpl.
  - split.
    + intros Hl r [->|Hr]%elem_of_cons; [done|]. apply IH; [lia|done].
    + intros Hall. f_equal. apply IH. intros r Hr. apply Hall. by right.
  - split; [lia|]. intros Hall. specialize (Hall x ltac:(by left)). congruence.
Qed.
End items.

(** ** Lemmas: endpoints that are left out *)

Section filters.
Context {Any V Rest : Type}.
Implicit Types (r : Resource Any V Rest) (rs clusters : Resources Any V Rest).

Definition all_assignments rs : Prop := ∀ n r, res_items rs !! n = Some r → ∃ cla, r = REndpoints cla.

Definition static_cluster clusters (n : string) : Prop := ∃ r, res_items clusters !! n = Some r ∧ is_static r = true.

Lemma static_names_spec clusters n : well_keyed clusters → n ∈ static_names clusters ↔ static_cluster clusters n.
Proof.
  intros Hk. unfold static_names. rewrite list_elem_of_fmap. split.
  - intros (r & -> & Hr). apply list_elem_of_In, List.filter_In in Hr as [Hr Hs].
    apply list_elem_of_In, (values_elem clusters) in Hr as [n Hn]. exists r. by rewrite (Hk _ _ Hn).
  - intros (r & Hn & Hs). exists r. split; [by rewrite (Hk _ _ Hn)|].
    apply list_elem_of_In, List.filter_In. split; [|done]. apply list_elem_of_In, (values_elem clusters). by exists n.
Qed.

Lemma static_filter_lookup clusters rs n r :
  well_keyed clusters → well_keyed rs → all_assignments rs →
  res_items (filterEndpointResourcesForStaticClusters clusters rs) !! n = Some r ↔
  res_items rs !! n = Some r ∧ ¬ static_cluster clusters n.
Proof.
  intros Hc Hk Ha. rewrite <- (static_names_spec _ _ Hc). unfold filterEndpointResourcesForStaticClusters.
  destruct (static_names clusters) as [|name names] eqn:E; [by rewrite elem_of_nil; naive_solver|].
  rewrite <- E in *. clear E name names. set (names := static_names clusters).
  assert (∀ n r, res_items rs !! n = Some r → keep_static names r = true ↔ n ∉ names) as Hkeep.
  { intros n' r' Hr. destruct (Ha _ _ Hr) as [cla ->]. apply Hk in Hr as <-. simpl. rewrite negb_true_iff, bool_decide_eq_false.
    done. }
  destruct (Nat.eqb_spec (length (List.filter (keep_static names) (values rs))) (length (values rs))) as [Hl|Hl].
  - split; [|by intros [? _]]. intros Hr. split; [done|]. apply (Hkeep _ _ Hr), (proj1 (filter_full _ _) Hl).
    apply values_elem. by exists n.
  - simpl. rewrite filtered_lookup by done. split; intros [Hr ?]; (split; [done|]); by apply (Hkeep _ _ Hr).
Qed.

Lemma errored_filter_lookup rs errored n r :
  well_keyed rs → all_assignments rs →
  res_items (filterEndpointResourcesForErroredClusters rs errored) !! n = Some r ↔
  res_items rs !! n = Some r ∧ n ∉ errored.
Proof.
  intros Hk Ha. unfold filterEndpointResourcesForErroredClusters.
  destruct errored as [|name names] eqn:E; [by rewrite elem_of_nil; naive_solver|]. rewrite <- E in *. clear E name names.
  assert (∀ n r, res_items rs !! n = Some r → keep_errored errored r = true ↔ n ∉ errored) as Hkeep.
  { intros n' r' Hr. destruct (Ha _ _ Hr) as [cla ->]. apply Hk in Hr as <-. simpl. rewrite negb_true_iff, bool_decide_eq_false.
    done. }
  destruct (Nat.eqb_spec (length (List.filter (keep_errored errored) (values rs))) (length (values rs))) as [Hl|Hl].
  - split; [|by intros [? _]]. intros Hr. split; [done|]. apply (Hkeep _ _ Hr), (proj1 (filter_full _ _) Hl).
    apply values_elem. by exists n.
  - simpl. rewrite filtered_lookup by done. split; intros [Hr ?]; (split; [done|]); by apply (Hkeep _ _ Hr).
Qed.

Lemma suffix_differs (s t : string) : t ≠ "" → s +:+ t ≠ s.
Proof.
  intros Ht H. apply (f_equal String.length) in H. rewrite str_length_app in H. destruct t; [done|]. simpl in H. lia.
Qed.

(** The version changes exactly when an assignment is removed for an error. *)
Lemma errored_filter_version rs errored :
  well_keyed rs → all_assignments rs →
  res_version (filterEndpointResourcesForErroredClusters rs errored) ≠ res_version rs ↔
  ∃ n, n ∈ errored ∧ is_Some (res_items rs !! n).
Proof.
  intros Hk Ha. unfold filterEndpointResourcesForErroredClusters.
  destruct errored as [|name names] eqn:E; [by split; [|intros (? & ?%elem_of_nil & _)]|]. rewrite <- E in *. clear E name names.
  destruct (Nat.eqb_spec (length (List.filter (keep_errored errored) (values rs))) (length (values rs))) as [Hl|Hl].
  - split; [done|]. intros (n & Hn & [r Hr]). exfalso. assert (r ∈ values rs) as Hv by (apply values_elem; eauto).
    apply (proj1 (filter_full _ _) Hl) in Hv. destruct (Ha _ _ Hr) as [cla ->]. apply Hk in Hr as <-. simpl in Hv.
    by rewrite bool_decide_eq_true_2 in Hv.
  - simpl. split; [|by intros _; apply suffix_differs]. intros _.
    destruct (decide (Exists (λ n, is_Some (res_items rs !! n)) errored)) as [He|He].
    + by apply Exists_exists in He.
    + exfalso. apply Hl, filter_full. intros r [n Hr]%values_elem. destruct (Ha _ _ Hr) as [cla ->].
      apply Hk in Hr as Hn. simpl in Hn. subst n. simpl. rewrite bool_decide_eq_false_2; [done|].
      intros Hin. apply He, Exists_exists. by eexists.
Qed.

Lemma static_filter_keyed clusters rs :
  well_keyed clusters → well_keyed rs → all_assignments rs →
  well_keyed (filterEndpointResourcesForStaticClusters clusters rs) ∧
  all_assignments (filterEndpointResourcesForStaticClusters clusters rs) ∧
  res_version (filterEndpointResourcesForStaticClusters clusters rs) = res_version rs.
Proof.
  intros Hc Hk Ha. split; [|split].
  - intros n r [Hr _]%static_filter_lookup; [by apply Hk|done..].
  - intros n r [Hr _]%static_filter_lookup; [by eapply Ha|done..].
  - unfold filterEndpointResourcesForStaticClusters. destruct (static_names clusters); [done|]. by destruct (_ =? _)%nat.
Qed.
End filters.

(** ** The endpoints of a snapshot *)

Section snapshots.
Context {P Any V Hdr Rest : Type} `{EqDecision V} `{PI : PolicyIrOps P} `{TL : TransportLib Any}.
Context `{EL : EnvoyLib Any Hdr (Cluster Any V)} `{LL : LruLib string cachedResult}.
Implicit Types (gx : GatewayXdsResources Any V Rest) (ucc : UniquelyConnectedClient) (w : XdsSnapWrapper Any V Rest)
  (row : uccWithCluster Any V).

Lemma client_endpoints_keyed eps extra ucc :
  well_keyed (client_endpoints (Any := Any) (V := V) (Rest := Rest) eps extra ucc) ∧
  all_assignments (client_endpoints (Any := Any) (V := V) (Rest := Rest) eps extra ucc).
Proof.
  split; [apply index_well_keyed|]. intros n r. unfold client_endpoints, NewResourcesWithTTL, index_resources. simpl.
  rewrite index_lookup, lookup_empty. destruct (last _) as [x|] eqn:E; [|done]. intros [= ->].
  apply last_Some_elem_of, list_elem_of_filter in E as [_ (e & -> & _)%list_elem_of_fmap]. eauto.
Qed.

Lemma assemble_keyed ucc (rows : list (uccWithCluster Any V)) :
  well_keyed (cwe_clusters (assemblePerClientClusters (Rest := Rest) ucc rows)).
Proof.
  unfold assemblePerClientClusters. destruct (foldl _ _ rows) as [[[[protos h] errored] eh] pc]. apply index_well_keyed.
Qed.

Lemma merge_keyed gx (c : clustersWithErrors Any V Rest) : well_keyed (cwe_clusters c) → well_keyed (merge_clusters gx c).
Proof.
  intros Hk. unfold merge_clusters. destruct (gx_clusters gx) as [|x l] eqn:E; [done|]. rewrite <- E. clear E x l.
  intros n r. cbv beta iota delta [res_items]. rewrite index_lookup. destruct (last _) as [x|] eqn:E.
  - intros [= ->]. by apply last_Some_elem_of, list_elem_of_filter in E as [? _].
  - apply Hk.
Qed.

Lemma snapshot_cases (mostXds : list (GatewayXdsResources Any V Rest)) clusters eps ucc w :
  snapshot_for mostXds clusters eps ucc = Some w →
  ∃ gx c e, gx ∈ mostXds ∧ gx_key gx = ucc_role ucc ∧ clusters = Some c ∧ eps = Some e ∧
    w = mkWrap (mkSnap (merge_clusters gx c)
      (filterEndpointResourcesForErroredClusters (filterEndpointResourcesForStaticClusters (merge_clusters gx c) e) (cwe_errored c))
      (gx_routes gx) (gx_listeners gx) (gx_secrets gx)) (cwe_errored c) (ucc_resource_name ucc).
Proof.
  unfold snapshot_for.
  destruct (List.find (λ gx, String.eqb (gx_key gx) (ucc_role ucc)) mostXds) as [gx|] eqn:E; [|done].
  destruct clusters as [c|]; [|done]. destruct eps as [e|]; [|done]. intros [= <-].
  apply find_some in E as [Hin%list_elem_of_In Hk%String.eqb_eq]. exists gx, c, e. done.
Qed.

Lemma snapshot_endpoints_lookup (mostXds : list (GatewayXdsResources Any V Rest)) rows eps extra ucc w n r :
  snapshot_for mostXds (Some (assemblePerClientClusters ucc rows)) (Some (client_endpoints eps extra ucc)) ucc = Some w →
  res_items (sn_endpoints (sw_snap w)) !! n = Some r ↔
  res_items (client_endpoints eps extra ucc) !! n = Some r ∧ (n ∉ sw_errored w) ∧ ¬ static_cluster (sn_clusters (sw_snap w)) n.
Proof.
  intros (gx & c & e & _ & _ & [= <-] & [= <-] & ->)%snapshot_cases. simpl.
  destruct (client_endpoints_keyed eps extra ucc) as [Hk Ha].
  pose proof (merge_keyed gx _ (assemble_keyed ucc rows)) as Hc.
  destruct (static_filter_keyed _ _ Hc Hk Ha) as (Hk2 & Ha2 & Hv).
  rewrite errored_filter_lookup, static_filter_lookup by done. naive_solver.
Qed.

(** The endpoints a client receives are exactly its own for the clusters Envoy will ask
    for: those of errored clusters and of clusters with inline endpoints are left out, no
    other; and the version differs from that of the client's endpoints exactly while an
    assignment is withheld because of an error, so that a recovery is always pushed. *)
Theorem snapshot_endpoints_exact (mostXds : list (GatewayXdsResources Any V Rest)) rows eps extra ucc w n r :
  snapshot_for mostXds (Some (assemblePerClientClusters ucc rows)) (Some (client_endpoints eps extra ucc)) ucc = Some w →
  let mine := client_endpoints eps extra ucc in
  (res_items (sn_endpoints (sw_snap w)) !! n = Some r ↔
   res_items mine !! n = Some r ∧ (n ∉ sw_errored w) ∧ ¬ static_cluster (sn_clusters (sw_snap w)) n) ∧
  (res_version (sn_endpoints (sw_snap w)) ≠ res_version mine ↔
   ∃ n, n ∈ sw_errored w ∧ is_Some (res_items mine !! n) ∧ ¬ static_cluster (sn_clusters (sw_snap w)) n).
Proof.
  intros Hs. split; [by eapply snapshot_endpoints_lookup|].
  apply snapshot_cases in Hs as (gx & c & e & _ & _ & [= <-] & [= <-] & ->). simpl.
  destruct (client_endpoints_keyed eps extra ucc) as [Hk Ha].
  pose proof (merge_keyed gx _ (assemble_keyed ucc rows)) as Hc.
  destruct (static_filter_keyed _ _ Hc Hk Ha) as (Hk2 & Ha2 & Hv).
  rewrite <- Hv at 1. rewrite (errored_filter_version _ _ Hk2 Ha2). apply exist_proper. intros n'. split.
  - intros (He & [x Hx]). apply static_filter_lookup in Hx as [Hx Hst]; [|done..]. eauto.
  - intros (He & [x Hx] & Hst). split; [done|]. exists x. by apply static_filter_lookup.
Qed.

(** ** The clusters of a snapshot *)

Definition good_rows (rows : list (uccWithCluster Any V)) : list (Cluster Any V) :=
  omap uc_cluster (List.filter publishable rows).

Lemma assemble_loop (rows : list (uccWithCluster Any V)) (acc : list (Resource Any V Rest) * Z * list string * Z * list (uccWithCluster Any V)) :
  (foldl assemble_step acc rows).1.1.1.1 = acc.1.1.1.1 ++ map RCluster (good_rows rows) ∧
  (foldl assemble_step acc rows).1.1.2 = acc.1.1.2 ++ map uc_name (List.filter (negb ∘ publishable) rows) ∧
  (foldl assemble_step acc rows).2 = acc.2 ++ List.filter (λ row, negb (publishable row) && uc_per_client row) rows.
Proof.
  revert acc. induction rows as [|row rows IH]; intros [[[[protos h] errored] eh] pc]; [by simpl; rewrite !app_nil_r|].
  cbn [foldl]. destruct (IH (assemble_step (protos, h, errored, eh, pc) row)) as (-> & -> & ->). unfold assemble_step, good_rows.
  simpl. destruct (publishable row); simpl; (split; [|split]); rewrite <- ?app_assoc; try done.
  - by destruct (uc_cluster row).
  - by destruct (uc_per_client row); rewrite <- ?app_assoc.
Qed.

Lemma assembled ucc (rows : list (uccWithCluster Any V)) :
  res_items (cwe_clusters (assemblePerClientClusters (Rest := Rest) ucc rows)) = index_resources (map RCluster (good_rows rows)) ∧
  cwe_errored (assemblePerClientClusters (Rest := Rest) ucc rows) = map uc_name (List.filter (negb ∘ publishable) rows) ∧
  cwe_per_client (assemblePerClientClusters (Rest := Rest) ucc rows) ≡ₚ
    List.filter (λ row, negb (publishable row) && uc_per_client row) rows.
Proof.
  unfold assemblePerClientClusters. pose proof (assemble_loop rows ([], 0%Z, [], 0%Z, [])) as H.
  destruct (foldl _ _ rows) as [[[[protos h] errored] eh] pc]. simpl in *. destruct H as (-> & -> & ->).
  split; [done|]. split; [done|]. apply sort_stable_perm.
Qed.

Context `{LW : !LruLaws string cachedResult}.
Context (policy_hash : P → option Z) (marshal_cluster : Cluster Any V → string).
Context (h2 : Any) (encode_cluster : Cluster Any V → error + string).
Context (keys : gmap PodLocality (list EndpointWithMd) → list PodLocality).
Context (encode_endpoint : LbEndpoint → string) (iter_eps : LocalityLbMap → list (PodLocality * HashedEndpoint)).
Implicit Types (t : BackendTranslator P Any V) (b : BackendObjectIR P) (m : Memo string).
Abbreviation base_of := (TranslateBackendBase (Hdr := Hdr) h2 encode_cluster keys).
Abbreviation client_of := (ApplyPerClient (Hdr := Hdr) encode_cluster keys encode_endpoint iter_eps).
Abbreviation row_of := (base_row (Hdr := Hdr) policy_hash marshal_cluster h2 encode_cluster keys).
Abbreviation rows_of := (base_rows (Hdr := Hdr) policy_hash marshal_cluster h2 encode_cluster keys).
Abbreviation client_rows := (clustersForClient (Hdr := Hdr) marshal_cluster encode_cluster keys encode_endpoint iter_eps).
Abbreviation ok := (memo_ok (key_verdict (Hdr := Hdr) encode_cluster)).

(** The shared row of a backend carries its translation, under the name of the backend. *)
Definition base_row_ok t b (e : baseEnvoyCluster P Any V) : Prop :=
  ∃ m base m', ok m ∧ base_of t m b = (base, m') ∧ bec_name e = bo_cluster_name b ∧ bec_source e = bo_source b ∧
    ((bec_error e ≠ None ∧ (b_error base ≠ None ∨ c_name (b_cluster base) ≠ bo_cluster_name b)) ∨
     (bec_error e = None ∧ b_error base = None ∧ c_name (b_cluster base) = bo_cluster_name b ∧
      bec_cluster e = b_cluster base ∧ bec_backend e = Some b ∧ bec_base e = Some base)).

Lemma base_row_spec t m b e m' : ok m → row_of t m b = (e, m') → base_row_ok t b e ∧ ok m'.
Proof.
  intros Hm H. unfold base_row in H. destruct (base_of t m b) as [base m1] eqn:E.
  injection H as <- <-. split; [|by eapply base_memo]. exists m, base, m1. split; [done|]. split; [done|]. simpl.
  split; [done|]. split; [done|]. destruct (String.eqb_spec (c_name (b_cluster base)) (bo_cluster_name b)) as [Hn|Hn]; [|by left; auto].
  destruct (b_error base) eqn:Eb; [left; by auto|]. right. done.
Qed.

Lemma base_rows_spec t m backends bases m' :
  ok m → rows_of t m backends = (bases, m') → Forall2 (base_row_ok t) backends bases ∧ ok m'.
Proof.
  intros Hm. unfold base_rows. revert bases m'. induction backends as [|b backends IH] using rev_ind; intros bases m' H.
  - injection H as <- <-. split; [constructor|done].
  - rewrite foldl_app in H. simpl in H. destruct (foldl _ _ backends) as [bases0 m0] eqn:E.
    destruct (IH _ _ eq_refl) as [Hf H0]. simpl in H. destruct (row_of t m0 b) as [e m1] eqn:Er.
    injection H as <- <-. apply base_row_spec in Er as [He ?]; [|done]. split; [|done]. by apply Forall2_app; [|repeat constructor].
Qed.

(** What a client gets for a backend. *)
Definition client_row_ok t ucc b row : Prop :=
  ∃ m base m', ok m ∧ base_of t m b = (base, m') ∧
    ((uc_error row ≠ None ∧ uc_per_client row = false ∧ uc_name row = bo_cluster_name b) ∨
     (b_error base = None ∧ ∃ m2 r, ok m2 ∧ client_of t m2 ucc b base = Some r ∧ uc_error row = r.1.2 ∧
        match r.1.2 with
        | Some _ => uc_per_client row = true
        | None => uc_per_client row = false ∧ uc_cluster row = Some (client_cluster base r) ∧ uc_name row = c_name (client_cluster base r)
        end)).

Lemma client_row_spec t ucc m b e row m' :
  ok m → base_row_ok t b e → client_row (Hdr := Hdr) marshal_cluster encode_cluster keys encode_endpoint iter_eps (Some t) ucc m e = Some (row, m') →
  client_row_ok t ucc b row ∧ ok m'.
Proof.
  intros Hm (m0 & base & m1 & Hm0 & Hb & Hn & _ & [[He _]|(He & Hbe & Hbn & Hc & Hbk & Hbase)]) H; unfold client_row in H.
  - destruct (bec_error e) eqn:Ee; [|done]. injection H as <- <-. split; [|done]. exists m0, base, m1. split; [done|].
    split; [done|]. left. done.
  - rewrite He, Hbk, Hbase, Hc in H. simpl in H.
    assert (lend (b_cluster base) base = base) as Hl by by destruct base. rewrite Hl in H.
    destruct (client_of t m ucc b base) as [[[perClient err] m2]|] eqn:E; [|done]. simpl in H.
    pose proof (client_memo _ _ _ _ _ _ _ _ _ _ Hm E) as Hok. simpl in Hok.
    assert (m' = m2) as -> by (destruct perClient, err; by injection H). split; [|done].
    exists m0, base, m1. split; [done|]. split; [done|]. right. split; [done|]. exists m, (perClient, err, m2).
    split; [done|]. split; [done|]. destruct perClient as [x|], err as [err|]; injection H as <-; simpl; rewrite ?Hn; done.
Qed.

Lemma client_rows_spec t ucc m backends bases rows m' :
  ok m → Forall2 (base_row_ok t) backends bases → client_rows (Some t) m bases ucc = Some (rows, m') →
  Forall2 (client_row_ok t ucc) backends rows ∧ ok m'.
Proof.
  intros Hm Hf. unfold clustersForClient.
  assert (∀ acc done_, ok acc.2 → Forall2 (client_row_ok t ucc) done_ acc.1 →
    foldM (client_step (Hdr := Hdr) marshal_cluster encode_cluster keys encode_endpoint iter_eps (Some t) ucc) acc bases = Some (rows, m') →
    Forall2 (client_row_ok t ucc) (done_ ++ backends) rows ∧ ok m') as H.
  { clear m Hm. induction Hf as [|b e backends bases He Hf IH]; intros acc done_ Hacc Hd H; simpl in H.
    - injection H as ->. by rewrite app_nil_r.
    - match type of H with ?x ≫= _ = _ => destruct x as [acc'|] eqn:Ea; [|done] end. simpl in H. unfold client_step in Ea.
      match type of Ea with ?x ≫= _ = _ => destruct x as [[row m1]|] eqn:E; [|done] end. injection Ea as <-.
      apply (client_row_spec t ucc _ b) in E as [Hrow Hm1]; [|done..].
      replace (done_ ++ b :: backends) with ((done_ ++ [b]) ++ backends) by by rewrite <- app_assoc.
      apply (IH (acc.1 ++ [row], m1)); [done| |exact H]. by apply Forall2_app; [|repeat constructor]. }
  intros Hfold. by apply (H ([], m) []) in Hfold; [|done|constructor].
Qed.

(** Rows that are published have a cluster of their name. *)
Lemma client_rows_named t ucc backends rows :
  Forall2 (client_row_ok t ucc) backends rows →
  ∀ row, row ∈ rows → uc_error row = None → ∃ c, uc_cluster row = Some c ∧ c_name c = uc_name row.
Proof.
  intros Hf row Hrow He. apply list_elem_of_lookup in Hrow as [i Hi].
  destruct (Forall2_lookup_r _ _ _ _ _ Hf Hi) as (b & _ & m & base & m' & _ & _ & [(Hn & _)|(_ & m2 & r & _ & _ & Hr & Hm)]); [done|].
  rewrite He in Hr. rewrite <- Hr in Hm. destruct Hm as (_ & Hc & Hn). eauto.
Qed.

Definition good_names (rows : list (uccWithCluster Any V)) : Prop :=
  ∀ row, row ∈ rows → uc_error row = None → ∃ c, uc_cluster row = Some c ∧ c_name c = uc_name row.

Lemma good_rows_elem rows c :
  c ∈ good_rows rows ↔ ∃ row, row ∈ rows ∧ uc_error row = None ∧ uc_cluster row = Some c.
Proof.
  unfold good_rows. rewrite list_elem_of_omap. apply exist_proper. intros row.
  rewrite list_elem_of_In, List.filter_In, <- list_elem_of_In. unfold publishable.
  destruct (uc_error row); naive_solver.
Qed.

Lemma good_rows_NoDup rows : good_names rows → NoDup (map uc_name rows) → NoDup (map c_name (good_rows rows)).
Proof.
  intros Hg Hnd. induction rows as [|row rows IH]; [constructor|]. simpl in Hnd. apply NoDup_cons in Hnd as [Hr Hnd].
  assert (NoDup (map c_name (good_rows rows))) as Hrest by (apply IH; [intros x Hx; apply Hg; by right|done]).
  unfold good_rows. simpl. unfold publishable at 1. destruct (uc_error row) eqn:E; [done|].
  destruct (Hg row ltac:(by left) E) as (c & Hc & Hn). simpl. rewrite Hc. simpl. apply NoDup_cons. split; [|done].
  intros (c' & Hn' & (row' & Hrow' & He' & Hc')%good_rows_elem)%list_elem_of_fmap. apply Hr.
  destruct (Hg row' ltac:(by right) He') as (c2 & Hc2 & Hn2). apply list_elem_of_fmap. exists row'. split; [|done].
  congruence.
Qed.

Lemma snapshot_clusters_lookup t m backends bases m1 m2 ucc rows m3 (mostXds : list (GatewayXdsResources Any V Rest)) eps w :
  ok m → ok m2 → rows_of t m backends = (bases, m1) → client_rows (Some t) m2 bases ucc = Some (rows, m3) →
  snapshot_for mostXds (Some (assemblePerClientClusters ucc rows)) eps ucc = Some w →
  NoDup (map uc_name rows) →
  ∃ gx, gx ∈ mostXds ∧ gx_key gx = ucc_role ucc ∧ Forall2 (client_row_ok t ucc) backends rows ∧
    (∀ name, name ∈ sw_errored w ↔ ∃ row, row ∈ rows ∧ uc_name row = name ∧ uc_error row ≠ None) ∧
    ∀ name r, res_items (sn_clusters (sw_snap w)) !! name = Some r ↔
      last (filter (λ r, GetResourceName r = name) (gx_clusters gx)) = Some r ∨
      (filter (λ r, GetResourceName r = name) (gx_clusters gx) = [] ∧
       ∃ row c, row ∈ rows ∧ uc_error row = None ∧ uc_name row = name ∧ uc_cluster row = Some c ∧ r = RCluster c).
Proof.
  intros Hm Hm2 [Hb _]%base_rows_spec Hc (gx & c & e & Hgx & Hk & [= <-] & _ & ->)%snapshot_cases Hnd; [|done].
  apply client_rows_spec with (t := t) (backends := backends) in Hc as [Hf _]; [|done..].
  exists gx. split; [done|]. split; [done|]. split; [done|]. destruct (assembled ucc rows) as (Hitems & Herr & _).
  cbn [sw_errored sw_snap sn_clusters]. rewrite Herr. split.
  { intros name. rewrite list_elem_of_fmap. apply exist_proper. intros row.
    rewrite list_elem_of_In, List.filter_In, <- list_elem_of_In. unfold publishable, compose. destruct (uc_error row); naive_solver. }
  pose proof (client_rows_named _ _ _ _ Hf) as Hgood. pose proof (good_rows_NoDup _ Hgood Hnd) as Hnames.
  assert (∀ name r, res_items (cwe_clusters (assemblePerClientClusters (Rest := Rest) ucc rows)) !! name = Some r ↔
    ∃ row c, row ∈ rows ∧ uc_error row = None ∧ uc_name row = name ∧ uc_cluster row = Some c ∧ r = RCluster c) as Hcwe.
  { intros name r. rewrite Hitems, index_distinct by by rewrite map_map. rewrite list_elem_of_fmap. split.
    - intros [(x & -> & (row & Hrow & He & Hx)%good_rows_elem) Hn]. exists row, x. split_and!; [done..| |done|done].
      destruct (Hgood _ Hrow He) as (c & Hc & <-). simpl in Hn. congruence.
    - intros (row & x & Hrow & He & Hn & Hx & ->). destruct (Hgood _ Hrow He) as (c & Hc & Hcn). simpl.
      split; [exists x; split; [done|]; apply good_rows_elem; eauto|]. congruence. }
  intros name r. unfold merge_clusters. destruct (gx_clusters gx) as [|x l] eqn:E.
  { rewrite Hcwe. simpl. naive_solver. }
  rewrite <- E. clear E x l. cbv beta iota delta [res_items]. rewrite index_lookup.
  destruct (last (filter _ (gx_clusters gx))) as [x|] eqn:El.
  - split; [by intros [= <-]; left|]. intros [[= <-]|[Hnil _]]; [done|]. by rewrite Hnil in El.
  - apply last_None in El. fold (res_items (cwe_clusters (assemblePerClientClusters (Rest := Rest) ucc rows))).
    rewrite Hcwe. naive_solver.
Qed.

(** C24: The clusters a client receives are exactly those of its Gateway and, for every other
    name, the cluster the client is to use for the backend of that name; a backend that
    failed for the client is named as errored, and no backend is missing. *)
Theorem snapshot_clusters_exact t m backends bases m1 m2 ucc rows m3 (mostXds : list (GatewayXdsResources Any V Rest)) eps w :
  ok m → ok m2 → rows_of t m backends = (bases, m1) → client_rows (Some t) m2 bases ucc = Some (rows, m3) →
  snapshot_for mostXds (Some (assemblePerClientClusters ucc rows)) eps ucc = Some w →
  NoDup (map uc_name rows) →
  ∃ gx, gx ∈ mostXds ∧ gx_key gx = ucc_role ucc ∧ Forall2 (client_row_ok t ucc) backends rows ∧
    (∀ name, name ∈ sw_errored w ↔ ∃ row, row ∈ rows ∧ uc_name row = name ∧ uc_error row ≠ None) ∧
    ∀ name r, res_items (sn_clusters (sw_snap w)) !! name = Some r ↔
      last (filter (λ r, GetResourceName r = name) (gx_clusters gx)) = Some r ∨
      (filter (λ r, GetResourceName r = name) (gx_clusters gx) = [] ∧
       ∃ row c, row ∈ rows ∧ uc_error row = None ∧ uc_name row = name ∧ uc_cluster row = Some c ∧ r = RCluster c).
Proof. apply snapshot_clusters_lookup. Qed.

(** A backend that cannot become a cluster. *)
Definition failed_backend t b : Prop :=
  (∀ init, bt_backends t !! os_gk (bo_source b) ≠ Some (Some init)) ∨ bo_errors b ≠ [] ∨ invalid_policy t b.

Lemma failed_row t ucc b row :
  failed_backend t b → client_row_ok t ucc b row → uc_error row ≠ None ∧ uc_name row = bo_cluster_name b.
Proof.
  intros Hf (m & base & m' & _ & Hb & [(He & _ & Hn)|(He & _)]); [done|]. exfalso.
  apply base_cases in Hb as [(e & -> & _)|([[init Hi] Hbe Hp _] & _)]; [done|].
  destruct Hf as [Ht|[?|?]]; [|done..]. by apply (Ht init).
Qed.

(** C27: A backend whose kind no plugin translates, that is invalid itself or to which an invalid
    policy applies never reaches a client: in the snapshot of every client its name is recorded
    as errored, no cluster has that name but one a plugin added for the whole Gateway, and no
    endpoints are sent for it. *)
Theorem failed_backends_excluded t m backends bases m1 m2 ucc rows m3 (mostXds : list (GatewayXdsResources Any V Rest))
    eps extra w b :
  ok m → ok m2 → rows_of t m backends = (bases, m1) → client_rows (Some t) m2 bases ucc = Some (rows, m3) →
  snapshot_for mostXds (Some (assemblePerClientClusters ucc rows)) (Some (client_endpoints eps extra ucc)) ucc = Some w →
  NoDup (map uc_name rows) → b ∈ backends → failed_backend t b →
  bo_cluster_name b ∈ sw_errored w ∧
  (∀ r, res_items (sn_clusters (sw_snap w)) !! bo_cluster_name b = Some r → ∃ gx, gx ∈ mostXds ∧ r ∈ gx_clusters gx) ∧
  res_items (sn_endpoints (sw_snap w)) !! bo_cluster_name b = None.
Proof.
  intros Hm Hm2 Hb Hc Hw Hnd [i Hi]%list_elem_of_lookup Hf.
  destruct (snapshot_clusters_lookup _ _ _ _ _ _ _ _ _ _ _ _ Hm Hm2 Hb Hc Hw Hnd) as (gx & Hgx & _ & Hrows & Herr & Hcl).
  destruct (Forall2_lookup_l _ _ _ _ _ Hrows Hi) as (row & Hrow & Hok). apply list_elem_of_lookup_2 in Hrow.
  destruct (failed_row _ _ _ _ Hf Hok) as [He Hn].
  assert (bo_cluster_name b ∈ sw_errored w) as Hin by (apply Herr; by exists row).
  split; [done|]. split.
  - intros r [Hl|(_ & row' & c & Hrow' & He' & Hn' & _)]%Hcl.
    + exists gx. split; [done|]. apply last_Some_elem_of in Hl. by apply list_elem_of_filter in Hl as [_ ?].
    + exfalso. rewrite (NoDup_key_inj uc_name rows row' row) in He' by (done || congruence). done.
  - destruct (res_items (sn_endpoints (sw_snap w)) !! bo_cluster_name b) as [r|] eqn:E; [|done]. exfalso.
    by eapply snapshot_endpoints_lookup in E as (_ & Hne & _).
Qed.

(** C23: In strict mode every cluster in the snapshot of a client was accepted by Envoy, or is
    one a plugin added for the whole Gateway: nothing that an overlay or the client's
    endpoints changed escapes validation, and the memo never answers for other content. *)
Theorem snapshot_clusters_validated t m backends bases m1 m2 ucc rows m3 (mostXds : list (GatewayXdsResources Any V Rest)) eps w name c :
  strict t = true → ok m → ok m2 →
  rows_of t m backends = (bases, m1) → client_rows (Some t) m2 bases ucc = Some (rows, m3) →
  snapshot_for mostXds (Some (assemblePerClientClusters ucc rows)) eps ucc = Some w →
  res_items (sn_clusters (sw_snap w)) !! name = Some (RCluster c) →
  (∃ gx, gx ∈ mostXds ∧ RCluster c ∈ gx_clusters gx) ∨ accepted (Hdr := Hdr) encode_cluster c.
Proof.
  intros Hs Hm Hm2 [Hb _]%base_rows_spec Hc (gx & cw & e & Hgx & _ & [= <-] & _ & ->)%snapshot_cases Hn; [|done].
  apply client_rows_spec with (t := t) (backends := backends) in Hc as [Hf _]; [|done..].
  assert ((RCluster c ∈ gx_clusters gx) ∨ @RCluster Any V Rest c ∈ map RCluster (good_rows rows)) as [Hin|Hin]; [|by left; eauto|].
  { destruct (assembled ucc rows) as (Hitems & _ & _). cbn [sw_snap sn_clusters] in Hn. unfold merge_clusters in Hn.
    assert (∀ l, last (filter (λ r, GetResourceName r = name) l) = Some (@RCluster Any V Rest c) → RCluster c ∈ l) as Hlast
      by (intros l [_ ?]%last_Some_elem_of%list_elem_of_filter; done).
    assert (∀ x, index_resources (map RCluster (good_rows rows)) !! name = Some x → x ∈ map (@RCluster Any V Rest) (good_rows rows)) as Hidx.
    { intros x. unfold index_resources. rewrite index_lookup, lookup_empty. destruct (last _) eqn:El; [|done]. intros [= ->].
      by apply last_Some_elem_of, list_elem_of_filter in El as [_ ?]. }
    destruct (gx_clusters gx) as [|x l] eqn:E; [right; apply Hidx; by rewrite <- Hitems|]. rewrite <- E in *.
    cbn [res_items] in Hn. rewrite index_lookup in Hn.
    destruct (last (filter _ (gx_clusters gx))) as [y|] eqn:El; [left; apply Hlast; congruence|right; apply Hidx; by rewrite <- Hitems]. }
  right. clear Hn. apply list_elem_of_fmap in Hin as (x & [= <-] & (row & Hrow & He & Hx)%good_rows_elem).
  apply list_elem_of_lookup in Hrow as [i Hi].
  destruct (Forall2_lookup_r _ _ _ _ _ Hf Hi) as (b & _ & m0 & base & m' & Hm0 & Hbase & [(? & _)|(Hbe & m4 & r & Hm4 & Hr & Her & Hrest)]); [done|].
  rewrite He in Her. rewrite <- Her in Hrest. destruct Hrest as (_ & Hpub & _).
  assert (c = client_cluster base r) as -> by congruence.
  by apply (client_cluster_accepted h2 encode_cluster keys encode_endpoint iter_eps t m0 b base m' m4 ucc r).
Qed.

(** ** Endpoints of discovered clusters *)

Lemma editors_fixed plugins ucc s hs has s' hs' has' :
  Forall is_editor plugins →
  foldM (resolve_step encode_endpoint iter_eps ucc) (s, hs, has) plugins = Some (s', hs', has') →
  fixed (ri_row (eir_inputs s')) = fixed (P := P) (ri_row (eir_inputs s)).
Proof.
  intros Hp. revert s hs has. induction Hp as [|p plugins Hp Hps IH]; intros s hs has H; simpl in H; [by injection H as <- _ _|].
  destruct (process encode_endpoint iter_eps p ucc s) as [[c s1]|] eqn:Ep; [|done]. simpl in H.
  transitivity (fixed (ri_row (eir_inputs s1))); [destruct (c =? 0)%Z; by eapply IH|].
  unfold process, is_editor in *. destruct (ep_process p); [|done]. by eapply edit_fixed.
Qed.

Lemma endpoint_row_named plugins ep ucc u :
  Forall is_editor plugins → endpoint_row keys encode_endpoint iter_eps plugins ep ucc = Some u →
  ue_client u = ucc ∧ cla_cluster (ue_endpoints u) = row_cluster (P := P) ep.
Proof.
  intros Hp H. unfold endpoint_row in H. destruct (ResolveEndpoints _ _ _ _ _) as [res|] eqn:Er; [|done]. injection H as <-.
  split; [done|]. unfold ResolveEndpoints, ResolveEndpointInputs in Er.
  destruct (foldM _ _ plugins) as [[[s hs] has]|] eqn:Ef; [|done]. simpl in Er. injection Er as <-.
  apply editors_fixed in Ef; [|done]. simpl in *. injection Ef. done.
Qed.

Lemma final_endpoints_cluster raw b ep :
  final_endpoints policy_hash raw b = Some ep → row_cluster ep = bo_cluster_name b.
Proof.
  unfold final_endpoints. destruct (find_row raw (bo_resource_name b)) as [r|]; [|done]. simpl. intros [= <-].
  by destruct (_ =? 0)%Z.
Qed.

(** A backend whose endpoints are known has its assignment in the snapshot of every client,
    under the name of its cluster, unless the cluster failed for that client or carries its
    endpoints inline: a discovered cluster is never left without the endpoints it waits for. *)
Theorem discovered_cluster_has_endpoints raw backends b plugins uccs eps extra ucc rows
    (mostXds : list (GatewayXdsResources Any V Rest)) w :
  b ∈ backends → is_Some (find_row raw (bo_resource_name b)) → Forall is_editor plugins → ucc ∈ uccs →
  NewPerClientEnvoyEndpoints keys encode_endpoint iter_eps plugins uccs (omap (final_endpoints policy_hash raw) backends) = Some eps →
  snapshot_for mostXds (Some (assemblePerClientClusters ucc rows)) (Some (client_endpoints eps extra ucc)) ucc = Some w →
  bo_cluster_name b ∉ sw_errored w → ¬ static_cluster (sn_clusters (sw_snap w)) (bo_cluster_name b) →
  ∃ cla, res_items (sn_endpoints (sw_snap w)) !! bo_cluster_name b = Some (REndpoints cla) ∧ cla_cluster cla = bo_cluster_name b.
Proof.
  intros Hb [row Hrow] Hp Hu He Hs Herr Hst.
  assert (∃ ep, final_endpoints policy_hash raw b = Some ep) as [ep Hep] by (unfold final_endpoints; rewrite Hrow; eauto).
  unfold NewPerClientEnvoyEndpoints in He. destruct (mapM _ _) as [ls|] eqn:Em; [|done]. injection He as <-.
  assert (∃ u, u ∈ concat ls ∧ ue_client u = ucc ∧ cla_cluster (ue_endpoints u) = bo_cluster_name b) as (u & Hin & Hc & Hn).
  { apply mapM_Some in Em. assert (ep ∈ omap (final_endpoints policy_hash raw) backends) as Hin
      by (apply list_elem_of_omap; eauto). apply list_elem_of_lookup in Hin as [i Hi].
    destruct (Forall2_lookup_l _ _ _ _ _ Em Hi) as (l & Hl & Hm). apply mapM_Some in Hm.
    apply list_elem_of_lookup in Hu as [j Hj]. destruct (Forall2_lookup_l _ _ _ _ _ Hm Hj) as (u & Hu & Hrow').
    apply endpoint_row_named in Hrow' as [Hc Hn]; [|done]. exists u. split; [|by rewrite Hn, (final_endpoints_cluster _ _ _ Hep)].
    apply list_elem_of_In, in_concat. exists l. split; apply list_elem_of_In; by eapply list_elem_of_lookup_2. }
  assert (is_Some (res_items (client_endpoints (Any := Any) (V := V) (Rest := Rest) (concat ls) extra ucc) !! bo_cluster_name b)) as [r Hr].
  { unfold client_endpoints, NewResourcesWithTTL, index_resources. simpl. rewrite index_lookup, lookup_empty.
    destruct (last _) as [x|] eqn:El; [by eexists|]. exfalso. apply last_None in El.
    assert (REndpoints (ue_endpoints u) ∈ @nil (Resource Any V Rest)) as Hx; [|by apply elem_of_nil in Hx].
    rewrite <- El. apply list_elem_of_filter. split; [done|]. apply list_elem_of_fmap. exists u. split; [done|].
    apply elem_of_app. left. apply list_elem_of_In, List.filter_In. split; [by apply list_elem_of_In|]. by rewrite Hc, String.eqb_refl. }
  destruct (proj2 (client_endpoints_keyed (concat ls) extra ucc) _ _ Hr) as [cla ->].
  exists cla. split; [by eapply snapshot_endpoints_lookup|]. exact (proj1 (client_endpoints_keyed (concat ls) extra ucc) _ _ Hr).
Qed.
End snapshots.

(** ** Deferred clients are counted exactly *)

Definition deferred_of (l : resourceNameDetails) (D : gset string) : Z := Z.of_nat (size (filter (λ k, gauge_labels k = l) D)).

Lemma deferred_add l k D :
  k ∉ D → deferred_of l ({[k]} ∪ D) = (deferred_of l D + if decide (gauge_labels k = l) then 1 else 0)%Z.
Proof.
  intros Hk. unfold deferred_of. destruct (decide (gauge_labels k = l)) as [He|He].
  - replace (filter (λ k, gauge_labels k = l) ({[k]} ∪ D)) with ({[k]} ∪ filter (λ k, gauge_labels k = l) D)
      by (apply set_eq; intros x; rewrite elem_of_filter, !elem_of_union, elem_of_filter, elem_of_singleton;
          split; [intros [->|[? ?]]; auto|intros [? [->|?]]; auto]).
    rewrite size_union, size_singleton; [lia|]. intros x ->%elem_of_singleton [_ ?]%elem_of_filter. done.
  - replace (filter (λ k, gauge_labels k = l) ({[k]} ∪ D)) with (filter (λ k, gauge_labels k = l) D); [lia|].
    apply set_eq. intros x. rewrite !elem_of_filter, elem_of_union, elem_of_singleton.
    split; [intros [? ?]; auto|]. intros [? [->|?]]; [done|auto].
Qed.

Lemma deferred_remove l k D :
  k ∈ D → deferred_of l (D ∖ {[k]}) = (deferred_of l D - if decide (gauge_labels k = l) then 1 else 0)%Z.
Proof.
  intros Hk. assert (D = {[k]} ∪ (D ∖ {[k]})) as HD by (apply set_eq; intros x; destruct (decide (x = k)); set_solver).
  rewrite HD at 2. rewrite deferred_add by set_solver. lia.
Qed.

(** The counts and the gauge follow the set of deferred clients. *)
Definition tracked (d : snapshotDeferralTracker) : Prop :=
  ∀ l, default 0%Z (sd_deferred d !! l) = deferred_of l (deferredClients d) ∧
       default 0%Z (sd_gauge d !! l) = deferred_of l (deferredClients d).

Lemma adjust_tracked key delta (d0 d : snapshotDeferralTracker) :
  tracked d0 → sd_deferred d = sd_deferred d0 → sd_gauge d = sd_gauge d0 →
  (∀ l, deferred_of l (deferredClients d) =
        (deferred_of l (deferredClients d0) + if decide (gauge_labels key = l) then delta else 0)%Z) →
  tracked (adjust key delta d).
Proof.
  intros Ht Hd Hg Hc l. unfold adjust. rewrite Hd, Hg. destruct (Ht (gauge_labels key)) as [Hn _]. rewrite Hn.
  assert (0 ≤ deferred_of (gauge_labels key) (deferredClients d))%Z as Hpos by (unfold deferred_of; lia).
  pose proof (Hc (gauge_labels key)) as Hkey. rewrite decide_True in Hkey by done.
  destruct (Ht l) as [Hl1 Hl2].
  destruct (Z.leb_spec (deferred_of (gauge_labels key) (deferredClients d0) + delta) 0) as [Hle|Hgt]; simpl.
  - change (deferredClients (mkSD _ _ _ _)) with (deferredClients d). rewrite Hc.
    destruct (decide (gauge_labels key = l)) as [<-|Hne].
    + rewrite lookup_delete_eq, lookup_insert_eq. simpl. lia.
    + rewrite lookup_delete_ne, lookup_insert_ne by done. rewrite Hl1, Hl2. lia.
  - change (deferredClients (mkSD _ _ _ _)) with (deferredClients d). rewrite Hc.
    destruct (decide (gauge_labels key = l)) as [<-|Hne].
    + rewrite !lookup_insert_eq. simpl. lia.
    + rewrite !lookup_insert_ne by done. rewrite Hl1, Hl2. lia.
Qed.

(** The deferred clients did not change. *)
Lemma same_tracked d0 d :
  tracked d0 → sd_deferred d = sd_deferred d0 → sd_gauge d = sd_gauge d0 → deferredClients d = deferredClients d0 → tracked d.
Proof. intros Ht Hd Hg Hc l. rewrite Hd, Hg, Hc. apply Ht. Qed.

Lemma track_tracked d e : tracked d → tracked (track d e).
Proof.
  intros Ht. destruct e as [key deleted|key deleted]; simpl; unfold client_event, snapshot_event;
    destruct (decide (key ∈ sd_clients d)) as [Hk|Hk], (decide (key ∈ sd_snapshots d)) as [Hs|Hs], deleted;
    rewrite ?(bool_decide_eq_true_2 _ Hk), ?(bool_decide_eq_false_2 _ Hk), ?(bool_decide_eq_true_2 _ Hs), ?(bool_decide_eq_false_2 _ Hs);
    try done;
    first [ apply (same_tracked d); [done..|]; unfold deferredClients; simpl; set_solver
          | apply (adjust_tracked _ _ d); [done..|]; intros l; unfold deferredClients; simpl ].
  - replace ((sd_clients d ∖ {[key]}) ∖ sd_snapshots d) with ((sd_clients d ∖ sd_snapshots d) ∖ {[key]}) by set_solver.
    rewrite deferred_remove by set_solver. destruct (decide _); lia.
  - rewrite <- deferred_add by set_solver. f_equal. set_solver.
  - replace (sd_clients d ∖ (sd_snapshots d ∖ {[key]})) with ({[key]} ∪ sd_clients d ∖ sd_snapshots d)
      by (apply set_eq; intros x; destruct (decide (x = key)); set_solver). by rewrite deferred_add by set_solver.
  - replace (sd_clients d ∖ ({[key]} ∪ sd_snapshots d)) with ((sd_clients d ∖ sd_snapshots d) ∖ {[key]}) by set_solver.
    rewrite deferred_remove by set_solver. destruct (decide _); lia.
Qed.

Definition client_history (k : string) (evs : list tracker_event) : list bool :=
  omap (λ e, match e with EvClient k' del => if String.eqb k' k then Some del else None | _ => None end) evs.
Definition snapshot_history (k : string) (evs : list tracker_event) : list bool :=
  omap (λ e, match e with EvSnapshot k' del => if String.eqb k' k then Some del else None | _ => None end) evs.

Lemma adjust_sets key delta d : sd_clients (adjust key delta d) = sd_clients d ∧ sd_snapshots (adjust key delta d) = sd_snapshots d.
Proof. unfold adjust. by destruct (_ <=? 0)%Z. Qed.

(** Which keys an event leaves in the sets. *)
Lemma track_sets d e k :
  (k ∈ sd_clients (track d e) ↔
   match e with EvClient k' del => if String.eqb k' k then del = false else k ∈ sd_clients d | _ => k ∈ sd_clients d end) ∧
  (k ∈ sd_snapshots (track d e) ↔
   match e with EvSnapshot k' del => if String.eqb k' k then del = false else k ∈ sd_snapshots d | _ => k ∈ sd_snapshots d end).
Proof.
  destruct e as [key del|key del]; simpl; unfold client_event, snapshot_event; destruct del;
    repeat case_bool_decide; rewrite ?(proj1 (adjust_sets _ _ _)), ?(proj2 (adjust_sets _ _ _)); simpl;
    destruct (String.eqb_spec key k) as [->|Hne]; split; set_solver.
Qed.

(** Whatever the order of events of clients and snapshots, the gauge of a Gateway shows
    the number of its connected clients without a snapshot; a client is connected, and has a
    snapshot, exactly when the last event about it was not a deletion. *)
Theorem deferral_counts_exact evs l :
  let d := foldl track newSnapshotDeferralTracker evs in
  default 0%Z (sd_gauge d !! l) = Z.of_nat (size (filter (λ k, gauge_labels k = l) (sd_clients d ∖ sd_snapshots d))) ∧
  ∀ k, (k ∈ sd_clients d ↔ last (client_history k evs) = Some false) ∧
       (k ∈ sd_snapshots d ↔ last (snapshot_history k evs) = Some false).
Proof.
  split.
  - assert (tracked (foldl track newSnapshotDeferralTracker evs)) as H; [|apply H].
    induction evs as [|e evs IH] using rev_ind; [by intros l'|]. rewrite foldl_app. by apply track_tracked.
  - intros k. induction evs as [|e evs IH] using rev_ind; [done|]. rewrite foldl_app. simpl.
    destruct (track_sets (foldl track newSnapshotDeferralTracker evs) e k) as [-> ->].
    unfold client_history, snapshot_history in *. rewrite !omap_app.
    destruct e as [k' del|k' del]; simpl; destruct (String.eqb_spec k' k); rewrite ?app_nil_r, ?last_snoc; naive_solver.
Qed.

(** ** The local cluster lists the pods of the Gateway *)

Section local_cluster.
Implicit Types (e : localClusterEndpoint) (l : list localClusterEndpoint) (loc : PodLocality).

Lemma by_locality_spec l :
  let r := foldl by_locality_step (∅, []) l in
  NoDup r.2 ∧ (∀ loc, loc ∈ r.2 ↔ loc ∈ map lce_locality l) ∧
  (∀ loc, r.1 !! loc = match filter (λ e, lce_locality e = loc) l with [] => None | es => Some es end).
Proof.
  induction l as [|e l (Hnd & Hin & Hm)] using rev_ind; [split; [constructor|done]|]. rewrite foldl_app. simpl.
  destruct (foldl by_locality_step (∅, []) l) as [m ls] eqn:E. simpl in *.
  assert (∀ loc, is_Some (m !! loc) ↔ loc ∈ ls) as Hsome.
  { intros loc. rewrite Hin, Hm, list_elem_of_fmap. destruct (filter (λ e, lce_locality e = loc) l) as [|x es] eqn:Ef.
    - split; [by intros [? ?]|]. intros (x & -> & Hx). assert (x ∈ filter (λ e, lce_locality e = lce_locality x) l) as Hf
        by by apply list_elem_of_filter. rewrite Ef in Hf. by apply elem_of_nil in Hf.
    - split; [intros _|by intros _; eexists]. assert (x ∈ filter (λ e, lce_locality e = loc) l) as Hx by (rewrite Ef; by left).
      apply list_elem_of_filter in Hx as [<- Hx]. eauto. }
  split; [|split].
  - destruct (m !! lce_locality e) as [es|] eqn:Em; [done|]. apply NoDup_app. split; [done|]. split; [|apply NoDup_singleton].
    intros x Hx ->%list_elem_of_singleton. apply Hsome in Hx. rewrite Em in Hx. by destruct Hx.
  - intros loc. rewrite map_app, elem_of_app, <- Hin. simpl. destruct (m !! lce_locality e) as [es|] eqn:Em.
    + assert (lce_locality e ∈ ls) by (apply Hsome; by eexists). rewrite list_elem_of_singleton. naive_solver.
    + rewrite elem_of_app. done.
  - intros loc. rewrite filter_app, filter_cons, filter_nil. destruct (decide (lce_locality e = loc)) as [<-|Hne].
    + rewrite lookup_insert_eq, Hm. by destruct (filter _ l).
    + rewrite lookup_insert_ne, Hm, app_nil_r by done. done.
Qed.

(** The comparator orders by the text of the locality, the name and the address. *)
Definition plain_locality loc : bool := no_char "/"%char (loc_region loc) && no_char "/"%char (loc_zone loc).

Lemma locality_String_inj a b :
  plain_locality a = true → plain_locality b = true → locality_String a = locality_String b → a = b.
Proof.
  intros [Ha1 Ha2]%andb_true_iff [Hb1 Hb2]%andb_true_iff H. unfold locality_String in H.
  apply (sep_app_inj "/"%char) in H as [Hr H]; [|done..]. apply (sep_app_inj "/"%char) in H as [Hz Hs]; [|done..].
  destruct a, b. simpl in *. by subst.
Qed.

Definition local_key_cmp : localClusterEndpoint → localClusterEndpoint → comparison :=
  (cmp_on (λ e, locality_String (lce_locality e)) String.compare ▷ cmp_on lce_name String.compare ▷
   cmp_on lce_address String.compare)%cmp.

Lemma local_cmp_key a b :
  plain_locality (lce_locality a) = true → plain_locality (lce_locality b) = true →
  local_endpoint_cmp a b = local_key_cmp a b.
Proof.
  intros Ha Hb. unfold local_endpoint_cmp, local_key_cmp, then_cmp, cmp_on. case_bool_decide as Hl; simpl.
  - rewrite Hl, (wo_refl String.compare). destruct (String.eqb_spec (lce_name a) (lce_name b)) as [Hn|Hn]; simpl.
    + by rewrite Hn, (wo_refl String.compare).
    + destruct (String.compare (lce_name a) (lce_name b)) eqn:E; [|done..]. by apply string_compare_eq in E.
  - destruct (String.compare _ _) eqn:E; [|done..]. apply string_compare_eq, locality_String_inj in E; done.
Qed.

Lemma local_sort_perm l1 l2 :
  Forall (λ e, plain_locality (lce_locality e) = true) l1 → l1 ≡ₚ l2 →
  sort_stable local_endpoint_cmp l1 = sort_stable local_endpoint_cmp l2.
Proof.
  intros H1 Hp. assert (Forall (λ e, plain_locality (lce_locality e) = true) l2) as H2 by by rewrite <- Hp.
  rewrite Forall_forall in H1, H2.
  rewrite (sort_stable_ext _ local_key_cmp l1), (sort_stable_ext _ local_key_cmp l2) by auto using local_cmp_key.
  apply (sort_stable_perm_eq local_key_cmp); [|done].
  intros x y Hx Hy H. unfold local_key_cmp, then_cmp in H.
  destruct (cmp_on (λ e, locality_String (lce_locality e)) _ _ _) eqn:El; [|done..].
  destruct (cmp_on lce_name _ _ _) eqn:En; [|done..].
  apply string_cmp_on_eq, locality_String_inj in El; [|auto..]. apply string_cmp_on_eq in En, H.
  destruct x, y. simpl in *. by subst.
Qed.

(** The local cluster of a Gateway has one group per locality of its addressed pods, with
    exactly those pods and their number as its weight, and does not depend on the order in
    which the pods are listed. *)
Theorem local_cluster_exact name pods pods' :
  Forall (λ p, plain_locality (pod_locality p) = true) pods → pods ≡ₚ pods' →
  let eps := sort_stable local_endpoint_cmp (omap local_endpoint pods) in
  buildLocalClusterLoadAssignment name pods = buildLocalClusterLoadAssignment name pods' ∧
  eps ≡ₚ omap local_endpoint pods ∧
  ∃ localities, NoDup localities ∧ (∀ loc, loc ∈ localities ↔ loc ∈ map lce_locality eps) ∧
    cla_endpoints (buildLocalClusterLoadAssignment name pods) =
    map (λ loc, local_locality loc (filter (λ e, lce_locality e = loc) eps)) localities.
Proof.
  intros Hplain Hp eps.
  assert (Forall (λ e, plain_locality (lce_locality e) = true) (omap local_endpoint pods)) as Hl.
  { apply Forall_forall. intros e (p & Hin & He)%list_elem_of_omap. unfold local_endpoint in He.
    destruct (String.eqb (pod_Address p) ""); [done|]. injection He as <-. by apply (proj1 (Forall_forall _ _) Hplain). }
  split; [|split; [apply sort_stable_perm|]].
  - unfold buildLocalClusterLoadAssignment. by rewrite (local_sort_perm _ (omap local_endpoint pods')) by (done || by apply omap_Permutation).
  - destruct (by_locality_spec eps) as (Hnd & Hin & Hm). unfold buildLocalClusterLoadAssignment. fold eps.
    destruct (foldl by_locality_step (∅, []) eps) as [m ls]. exists ls. split; [done|]. split; [done|]. simpl in *.
    apply map_ext. intros loc. rewrite Hm. by destruct (filter _ eps).
Qed.
End local_cluster.

(** ** Examples *)

#[local] Existing Instance ex_transport.
#[local] Existing Instance ex_cluster_lib.
#[local] Instance ex_unit_ops : PolicyIrOps unit := {| pi_creation_time _ := 0%Z |}.

(** Three backends: discovered endpoints, a static cluster, and one that is invalid. *)
Definition ex_bk (name : string) (errs : list error) : BackendObjectIR unit :=
  mkBackend (mkOS "" "Service" "ns" name) 80 "" "" "" "" None [] "" false ∅ errs TDAny false name name None [].
Definition ex_backends : list (BackendObjectIR unit) := [ex_bk "eds" []; ex_bk "static" []; ex_bk "broken" [EMsg "no such port"]].

Definition ex_snap_init : InitEnvoyBackend (P := unit) (Any := ex_any) (V := string) :=
  λ b c, (with_discovery (Some (DType (if String.eqb (bo_cluster_name b) "eds" then EDS else STATIC))) c, None).
Definition ex_snap_translator : BackendTranslator unit ex_any string :=
  mkBT {[mkGK "" "Service" := Some ex_snap_init]} [(mkGK "g" "Overlay", ex_hooks (Some ex_keeps_tls))] None None true ValidationStrict.

Definition ex_role : string := OwnerNamespaceNameID GatewayApiProxyValue "ns" "gw".
Definition ex_snap_ucc : UniquelyConnectedClient := mkUCC ex_role ∅ (ex_zone "a") "ns" false (ex_role +:+ "~1~ns").
Definition ex_gx : GatewayXdsResources ex_any string string :=
  to_xds (λ r, HashString (GetResourceName r)) "ns" "gw" [] [ROther "route" ""] [ROther "listener" ""] [].

Definition ex_marshal (c : ex_cluster) : string := c_name c.
Definition ex_bases : list (baseEnvoyCluster unit ex_any string) * Memo string := base_rows (Hdr := unit) (λ _, None) ex_marshal (XText "h2") ex_encode_cluster
  (λ g, (map_to_list g).*1) ex_snap_translator None ex_backends.
Definition ex_rows : option (list (uccWithCluster ex_any string) * Memo string) := clustersForClient (Hdr := unit) ex_marshal ex_encode_cluster (λ g, (map_to_list g).*1) ex_encode ex_iter_eps
  (Some ex_snap_translator) None ex_bases.1 ex_snap_ucc.
Definition ex_client_rows : list (uccWithCluster ex_any string) := default [] (fst <$> ex_rows).

(** Endpoints of all three in the index. *)
Definition ex_raw (b : BackendObjectIR unit) : EndpointRow unit :=
  Add ex_encode (ex_zone "a") (mkHE (ex_endpoint "10.0.0.1") 0) (NewEndpointsForBackend b).
Definition ex_eps : option (list UccWithEndpoints) :=
  NewPerClientEnvoyEndpoints (λ g, (map_to_list g).*1) ex_encode ex_iter_eps [] [ex_snap_ucc]
    (omap (final_endpoints (λ _, None) (map ex_raw ex_backends)) ex_backends).
Definition ex_eps_rows : list UccWithEndpoints := default [] ex_eps.
Definition ex_snapshot : option (XdsSnapWrapper ex_any string string) :=
  snapshot_for [ex_gx] (Some (assemblePerClientClusters ex_snap_ucc ex_client_rows))
    (Some (client_endpoints ex_eps_rows [] ex_snap_ucc)) ex_snap_ucc.

Lemma some_of {A} (o : option A) : bool_decide (is_Some o) = true → ∃ x, o = Some x.
Proof. by intros [x ->]%bool_decide_eq_true; exists x. Qed.

Lemma ex_rows_some : ∃ m, ex_rows = Some (ex_client_rows, m).
Proof.
  assert (bool_decide (is_Some ex_rows) = true) as [[rows m] E]%some_of by by vm_compute. exists m. unfold ex_client_rows.
  by rewrite E.
Qed.

Definition ex_is_cluster (w : XdsSnapWrapper ex_any string string) (n : string) : bool :=
  match res_items (sn_clusters (sw_snap w)) !! n with Some (RCluster _) => true | _ => false end.

(** The clusters of the first two backends are published, the third is errored, and only the
    discovered cluster has endpoints, under a version of their own. *)
Definition ex_snapshot_ok : bool :=
  match ex_snapshot with
  | Some w =>
      ex_is_cluster w "eds" && ex_is_cluster w "static" && negb (ex_is_cluster w "broken") && bool_decide (sw_errored w = ["broken"]) &&
      bool_decide (is_Some (res_items (sn_endpoints (sw_snap w)) !! "eds")) &&
      bool_decide (res_items (sn_endpoints (sw_snap w)) !! "static" = None) &&
      bool_decide (res_items (sn_endpoints (sw_snap w)) !! "broken" = None) &&
      bool_decide (static_names (sn_clusters (sw_snap w)) = ["static"]) &&
      negb (String.eqb (res_version (sn_endpoints (sw_snap w)))
              (res_version (client_endpoints (Any := ex_any) (V := string) (Rest := string) ex_eps_rows [] ex_snap_ucc)))
  | None => false
  end.

Lemma ex_snapshot_spec : ∃ w, ex_snapshot = Some w ∧ (∃ c, res_items (sn_clusters (sw_snap w)) !! "eds" = Some (RCluster c)) ∧
  sw_errored w = ["broken"] ∧ static_names (sn_clusters (sw_snap w)) = ["static"] ∧
  is_Some (res_items (sn_endpoints (sw_snap w)) !! "eds").
Proof.
  assert (ex_snapshot_ok = true) as H by by vm_compute. unfold ex_snapshot_ok in H. destruct ex_snapshot as [w|]; [|done].
  exists w. repeat (apply andb_true_iff in H as [H ?]). split; [done|]. bool_hyps. split; [|by repeat split; eauto].
  unfold ex_is_cluster in H. destruct (res_items (sn_clusters (sw_snap w)) !! "eds") as [[c| |]|]; [by exists c|done..].
Qed.

Lemma ex_eps_some : ex_eps = Some ex_eps_rows.
Proof.
  assert (bool_decide (is_Some ex_eps) = true) as [eps Heps]%some_of by by vm_compute. unfold ex_eps_rows. by rewrite Heps.
Qed.

Lemma ex_no_memo : memo_ok (key_verdict (Hdr := unit) ex_encode_cluster) None.
Proof. by intros cache k r. Qed.

Lemma snapshot_clusters_validated_witness :
  ∃ w c, ex_snapshot = Some w ∧ res_items (sn_clusters (sw_snap w)) !! "eds" = Some (RCluster c) ∧
    accepted (Hdr := unit) ex_encode_cluster c.
Proof.
  destruct ex_snapshot_spec as (w & Hw & [c Hc] & _). destruct ex_rows_some as [m Hr]. exists w, c. split; [exact Hw|]. split; [exact Hc|].
  edestruct (snapshot_clusters_validated (Hdr := unit) (Rest := string) (λ _, None) ex_marshal (XText "h2") ex_encode_cluster
    (λ g, (map_to_list g).*1) ex_encode ex_iter_eps ex_snap_translator None ex_backends ex_bases.1 ex_bases.2 None ex_snap_ucc
    ex_client_rows m [ex_gx]) as [(gx & ->%list_elem_of_singleton & []%elem_of_nil)|Ha];
    [reflexivity|apply ex_no_memo|apply ex_no_memo|apply surjective_pairing|exact Hr|exact Hw|exact Hc|exact Ha].
Defined.

Lemma snapshot_clusters_exact_witness :
  ∃ w, ex_snapshot = Some w ∧ ∀ name, name ∈ sw_errored w ↔ ∃ row, row ∈ ex_client_rows ∧ uc_name row = name ∧ uc_error row ≠ None.
Proof.
  destruct ex_snapshot_spec as (w & Hw & _). destruct ex_rows_some as [m Hr]. exists w. split; [exact Hw|].
  assert (map uc_name ex_client_rows = ["eds"; "static"; "broken"]) as Hn by by vm_compute.
  edestruct (snapshot_clusters_exact (Hdr := unit) (Rest := string) (λ _, None) ex_marshal (XText "h2") ex_encode_cluster
    (λ g, (map_to_list g).*1) ex_encode ex_iter_eps ex_snap_translator None ex_backends ex_bases.1 ex_bases.2 None ex_snap_ucc
    ex_client_rows m [ex_gx]) as (gx & _ & _ & _ & He & _);
    [apply ex_no_memo|apply ex_no_memo|apply surjective_pairing|exact Hr|exact Hw| |exact He].
  rewrite Hn. by apply (bool_decide_unpack _).
Defined.

(** The third backend is invalid. *)
Lemma failed_backends_excluded_witness :
  ∃ w b, ex_snapshot = Some w ∧ b ∈ ex_backends ∧ bo_errors b ≠ [] ∧ bo_cluster_name b ∈ sw_errored w ∧
    res_items (sn_endpoints (sw_snap w)) !! bo_cluster_name b = None.
Proof.
  destruct ex_snapshot_spec as (w & Hw & _). destruct ex_rows_some as [m Hr]. exists w, (ex_bk "broken" [EMsg "no such port"]).
  assert (map uc_name ex_client_rows = ["eds"; "static"; "broken"]) as Hn by by vm_compute.
  edestruct (failed_backends_excluded (Hdr := unit) (Rest := string) (λ _, None) ex_marshal (XText "h2") ex_encode_cluster
    (λ g, (map_to_list g).*1) ex_encode ex_iter_eps ex_snap_translator None ex_backends ex_bases.1 ex_bases.2 None ex_snap_ucc
    ex_client_rows m [ex_gx] ex_eps_rows [] w (ex_bk "broken" [EMsg "no such port"])) as (He & _ & Hep);
    [apply ex_no_memo|apply ex_no_memo|apply surjective_pairing|exact Hr|exact Hw| | | |].
  - rewrite Hn. by apply (bool_decide_unpack _).
  - right. right. left.
  - right. left. discriminate.
  - split; [exact Hw|]. split; [right; right; left|]. split; [discriminate|]. split; [exact He|exact Hep].
Defined.

Lemma snapshot_endpoints_exact_witness :
  ∃ w, ex_snapshot = Some w ∧ sw_errored w = ["broken"] ∧
    (∀ r, res_items (sn_endpoints (sw_snap w)) !! "broken" ≠ Some r) ∧
    (∃ r, res_items (sn_endpoints (sw_snap w)) !! "eds" = Some r ∧
          res_items (client_endpoints (Any := ex_any) (V := string) (Rest := string) ex_eps_rows [] ex_snap_ucc) !! "eds" = Some r).
Proof.
  destruct ex_snapshot_spec as (w & Hw & _ & He & _ & [r Hr]). exists w. split; [exact Hw|]. split; [exact He|]. split.
  - intros r' Hr'. apply (snapshot_endpoints_exact [ex_gx] ex_client_rows ex_eps_rows [] ex_snap_ucc w "broken" r' Hw) in Hr' as (_ & Hn & _).
    apply Hn. rewrite He. by left.
  - exists r. split; [exact Hr|]. by apply (snapshot_endpoints_exact [ex_gx] ex_client_rows ex_eps_rows [] ex_snap_ucc w "eds" r Hw) in Hr as [? _].
Defined.

Lemma discovered_cluster_has_endpoints_witness :
  ∃ w cla, ex_snapshot = Some w ∧ res_items (sn_endpoints (sw_snap w)) !! "eds" = Some (REndpoints cla) ∧ cla_cluster cla = "eds".
Proof.
  destruct ex_snapshot_spec as (w & Hw & _ & He & Hst & _). exists w.
  assert (bool_decide (is_Some (find_row (map ex_raw ex_backends) "eds")) = true) as Hrow%bool_decide_eq_true by by vm_compute.
  edestruct (discovered_cluster_has_endpoints (Rest := string) (λ _, None) (λ g, (map_to_list g).*1) ex_encode ex_iter_eps
    (map ex_raw ex_backends) ex_backends (ex_bk "eds" []) [] [ex_snap_ucc] ex_eps_rows [] ex_snap_ucc ex_client_rows [ex_gx] w) as (cla & Hc & Hn);
    [by left|exact Hrow|constructor|by left|exact ex_eps_some|exact Hw| | |by exists cla].
  - rewrite He. by apply (bool_decide_unpack _).
  - intros Hs. assert (ex_snapshot = Some w) as Hw' by exact Hw. apply snapshot_cases in Hw' as (gx & c & e & _ & _ & [= <-] & _ & ->).
    apply static_names_spec in Hs; [|apply merge_keyed, assemble_keyed]. simpl in Hst. simpl in Hs. rewrite Hst in Hs.
    by apply list_elem_of_singleton in Hs.
Defined.

Lemma local_cluster_exact_witness :
  let pod := λ n z addr, mkPod n "ns" (ex_zone z) ∅ addr in
  let pods := [pod "p1" "b" ["10.0.0.1"]; pod "p2" "a" ["10.0.0.2"]; pod "p3" "a" []; pod "p4" "a" ["10.0.0.4"]] in
  map (λ l, (loc_zone <$> lle_locality l, lle_weight l)) (cla_endpoints (buildLocalClusterLoadAssignment "gw.ns" pods)) =
    [(Some "a", Some 2%Z); (Some "b", Some 1%Z)] ∧
  buildLocalClusterLoadAssignment "gw.ns" pods = buildLocalClusterLoadAssignment "gw.ns" (reverse pods).
Proof.
  split; [by vm_compute|]. apply local_cluster_exact; [by repeat constructor|]. symmetry. apply reverse_Permutation.
Defined.

(** A cluster that turns into one with inline endpoints loses its assignment, and one that
    turns back regains it, without a new version of the endpoints. *)
Theorem static_filter_keeps_version :
  let cla : Resource ex_any string string := REndpoints (mkCLA "svc" []) in
  let eps := NewResourcesWithTTL "7" [cla] in
  let cluster := λ t, NewResourcesWithTTL "1" [RCluster (mkCluster "svc" (Some (DType t)) None None None None None [] ∅ no_settings)] in
  let filtered := λ t, filterEndpointResourcesForStaticClusters (cluster t) eps in
  res_items (filtered EDS) !! "svc" = Some cla ∧ res_items (filtered STATIC) !! "svc" = None ∧
  res_version (filtered EDS) = res_version (filtered STATIC).
Proof. by vm_compute. Qed.
