(* ===== verification/Deployer.v ===== *)
(** * Parameters of deployed proxies (pkg/deployer/merge.go, gateway_parameters.go,
    values_helpers.go, pkg/kgateway/deployer/gateway_parameters.go, and the API types they read)

    The deployment of a Gateway is described by three levels of parameters: defaults built in
    memory, the GatewayParameters of the GatewayClass and those of the Gateway.  This file models
    their merge, how they are found, and the Helm values computed from the result.

    A nil slice or map is [None], an empty one is not.  [Obj] stands for Kubernetes structures
    that are passed on unread.  Defaults are fresh copies and overrides are deep copied before a
    merge, so that the mutation of the destination is not visible elsewhere. *)

From S2P Require Import Prelude IR ListenerValidation GatewayIndex ListenerTranslator.

(** ** Kubernetes structures *)

Record SELinuxOptions := mkSE { se_user : string; se_role : string; se_type : string; se_level : string }.
Record WindowsSecurityContextOptions := mkWin {
  win_spec_name : option string; win_spec : option string; win_user : option string; win_host : option bool }.
Record SeccompProfile := mkSeccomp { sec_type : string; sec_local : option string }.
Record Capabilities := mkCaps { cap_add : option (list string); cap_drop : option (list string) }.
Record Sysctl := mkSysctl { sys_name : string; sys_value : string }.
Record ExecAction := mkExec { ex_command : option (list string) }.
(** [IntOrString]; its zero value is the number 0. *)
Inductive IntOrString := IntPort (z : Z) | NamedPort (s : string).
#[global] Instance IntOrString_eq_dec : EqDecision IntOrString.
Proof. solve_decision. Defined.
Record TCPSocketAction := mkTcpSock { ts_port : IntOrString; ts_host : string }.
Record GRPCAction := mkGrpc { ga_port : Z; ga_service : option string }.

Section k8s.
Context {Obj : Type}.

(** The fields that the merge does not mention are [psc_apparmor] and [sc_apparmor]. *)
Record PodSecurityContext := mkPSC {
  psc_se : option SELinuxOptions; psc_win : option WindowsSecurityContextOptions; psc_user : option Z; psc_group : option Z;
  psc_non_root : option bool; psc_groups : option (list Z); psc_fs_group : option Z; psc_sysctls : option (list Sysctl);
  psc_fs_policy : option string; psc_seccomp : option SeccompProfile; psc_apparmor : option Obj }.
Record SecurityContext := mkSC {
  sc_caps : option Capabilities; sc_se : option SELinuxOptions; sc_win : option WindowsSecurityContextOptions;
  sc_user : option Z; sc_group : option Z; sc_non_root : option bool; sc_privileged : option bool;
  sc_read_only : option bool; sc_escalation : option bool; sc_proc_mount : option string;
  sc_seccomp : option SeccompProfile; sc_apparmor : option Obj }.
Record ResourceRequirements := mkRes {
  rs_limits : option (gmap string Obj); rs_requests : option (gmap string Obj); rs_claims : option (list Obj) }.
Record HTTPGetAction := mkGet {
  hg_path : string; hg_port : IntOrString; hg_host : string; hg_scheme : string; hg_headers : option (list Obj) }.
Record ProbeHandler := mkHandler {
  ph_exec : option ExecAction; ph_get : option HTTPGetAction; ph_tcp : option TCPSocketAction; ph_grpc : option GRPCAction }.
Record Probe := mkProbe {
  pr_handler : ProbeHandler; pr_delay : Z; pr_timeout : Z; pr_period : Z; pr_success : Z; pr_failure : Z; pr_grace : option Z }.
Record NodeAffinity := mkNodeAff { na_required : option (option (list Obj)); na_preferred : option (list Obj) }.
(** [PodAffinity] and [PodAntiAffinity]. *)
Record PodAffinity := mkPodAff { pf_required : option (list Obj); pf_preferred : option (list Obj) }.
Record Affinity := mkAff { af_node : option NodeAffinity; af_pod : option PodAffinity; af_anti : option PodAffinity }.

(** ** GatewayParameters *)

Record Image := mkImage {
  im_registry : option string; im_repository : option string; im_tag : option string; im_digest : option string;
  im_pull : option string }.
Record ProxyDeployment := mkDep { dp_replicas : option Z; dp_strategy : option Obj }.
Record DnsResolver := mkDns { dn_max_queries : option Z }.
Record EnvoyBootstrap := mkEB {
  eb_format : option Obj; eb_level : option string; eb_components : option (gmap string string);
  eb_dns : option DnsResolver; eb_proxy_protocol : option bool }.
Record EnvoyContainer := mkEC {
  ec_bootstrap : option EnvoyBootstrap; ec_image : option Image; ec_security : option SecurityContext;
  ec_resources : option ResourceRequirements; ec_args : option (list string); ec_env : option (list Obj);
  ec_mounts : option (list Obj) }.
Record SdsBootstrap := mkSB { sb_level : option string }.
Record SdsContainer := mkSds {
  sd_image : option Image; sd_security : option SecurityContext; sd_resources : option ResourceRequirements;
  sd_bootstrap : option SdsBootstrap }.
Record GracefulShutdownSpec := mkGrace { gs_enabled : option bool; gs_sleep : option Z }.
Record Pod := mkPod {
  po_labels : option (gmap string string); po_annotations : option (gmap string string);
  po_security : option PodSecurityContext; po_pull_secrets : option (list Obj); po_selector : option (gmap string string);
  po_affinity : option Affinity; po_tolerations : option (list Obj); po_graceful : option GracefulShutdownSpec;
  po_grace : option Z; po_startup : option Probe; po_readiness : option Probe; po_liveness : option Probe;
  po_spread : option (list Obj); po_volumes : option (list Obj); po_priority : option string }.
Record Port := mkPort { pt_port : Z; pt_node : option Z }.
Record Service := mkSvc {
  sv_type : option string; sv_cluster_ip : option string; sv_labels : option (gmap string string);
  sv_annotations : option (gmap string string); sv_ports : option (list Port); sv_traffic : option string;
  sv_lb_class : option string; sv_ranges : option (list string) }.
Record ServiceAccount := mkSA { sa_labels : option (gmap string string); sa_annotations : option (gmap string string) }.
Record IstioContainer := mkIC {
  ic_image : option Image; ic_security : option SecurityContext; ic_resources : option ResourceRequirements;
  ic_level : option string; ic_discovery : option string; ic_mesh : option string; ic_cluster : option string }.
Record IstioIntegration := mkII { ii_proxy : option IstioContainer; ii_sidecars : option (list Obj) }.
Record StatsMatcher := mkSM { sm_inclusion : list Obj; sm_exclusion : list Obj }.
Record StatsConfig := mkStats {
  st_enabled : option bool; st_rewrite : option string; st_route : option bool; st_route_rewrite : option string;
  st_matcher : option StatsMatcher }.
(** [KubernetesResourceOverlay]: labels, annotations and the raw patch of the spec. *)
Record KubernetesResourceOverlay := mkOverlay {
  ov_labels : option (gmap string string); ov_annotations : option (gmap string string); ov_spec : option string }.
Record GatewayParametersOverlays := mkOverlays {
  gpo_deployment : option KubernetesResourceOverlay; gpo_service : option KubernetesResourceOverlay;
  gpo_account : option KubernetesResourceOverlay; gpo_pdb : option KubernetesResourceOverlay;
  gpo_hpa : option KubernetesResourceOverlay; gpo_vpa : option KubernetesResourceOverlay }.
Definition no_overlays : GatewayParametersOverlays := mkOverlays None None None None None None.
Record KubernetesProxyConfig := mkKube {
  k_deployment : option ProxyDeployment; k_envoy : option EnvoyContainer; k_sds : option SdsContainer; k_pod : option Pod;
  k_service : option Service; k_account : option ServiceAccount; k_istio : option IstioIntegration;
  k_stats : option StatsConfig; k_omit : option bool; k_overlays : GatewayParametersOverlays }.
(** [SelfManagedGateway] has no fields. *)
Record GatewayParameters := mkGWP { gp_kube : option KubernetesProxyConfig; gp_self_managed : option unit }.

(** ** Merging *)

Definition MergePointers {A} (dst src : option A) : option A := match src with None => dst | Some _ => src end.

Definition DeepMergeMaps {V} (dst src : option (gmap string V)) : option (gmap string V) :=
  match src with
  | None => dst
  | Some s => match dst with
              | None => src
              | Some d => if bool_decide (s = ∅) then src else Some (s ∪ d)
              end
  end.

Definition DeepMergeSlices {A} (dst src : option (list A)) : option (list A) :=
  match src with
  | None => dst
  | Some s => match dst with
              | None => src
              | Some d => match s with [] => src | _ => Some (d ++ s) end
              end
  end.

Definition OverrideSlices {A} (dst src : option (list A)) : option (list A) := MergePointers dst src.

(** [MergeComparable], with the zero value of the type. *)
Definition MergeComparable {A} `{EqDecision A} (zero dst src : A) : A := if decide (src = zero) then dst else src.
Definition merge_str : string → string → string := MergeComparable "".
Definition merge_num : Z → Z → Z := MergeComparable 0%Z.
Definition mergeIntOrString : IntOrString → IntOrString → IntOrString := MergeComparable (IntPort 0).

(** The frame of every deep merge: nil overrides leave the destination, a nil destination takes
    the override. *)
Definition deep_merge {A} (f : A → A → A) (dst src : option A) : option A :=
  match src, dst with
  | None, _ => dst
  | Some _, None => src
  | Some s, Some d => Some (f d s)
  end.
End k8s.
Arguments PodSecurityContext : clear implicits. Arguments SecurityContext : clear implicits.
Arguments ResourceRequirements : clear implicits. Arguments HTTPGetAction : clear implicits.
Arguments ProbeHandler : clear implicits. Arguments Probe : clear implicits. Arguments NodeAffinity : clear implicits.
Arguments PodAffinity : clear implicits. Arguments Affinity : clear implicits. Arguments ProxyDeployment : clear implicits.
Arguments EnvoyBootstrap : clear implicits. Arguments EnvoyContainer : clear implicits. Arguments SdsContainer : clear implicits.
Arguments Pod : clear implicits. Arguments IstioContainer : clear implicits. Arguments IstioIntegration : clear implicits.
Arguments StatsMatcher : clear implicits. Arguments StatsConfig : clear implicits.
Arguments KubernetesProxyConfig : clear implicits. Arguments GatewayParameters : clear implicits.

Section merge.
Context {Obj : Type}.

Definition deepMergeSELinuxOptions : option SELinuxOptions → option SELinuxOptions → option SELinuxOptions :=
  deep_merge (λ d s, mkSE (merge_str (se_user d) (se_user s)) (merge_str (se_role d) (se_role s))
    (merge_str (se_type d) (se_type s)) (merge_str (se_level d) (se_level s))).

Definition deepMergeWindowsSecurityContextOptions :
    option WindowsSecurityContextOptions → option WindowsSecurityContextOptions → option WindowsSecurityContextOptions :=
  deep_merge (λ d s, mkWin (MergePointers (win_spec_name d) (win_spec_name s)) (MergePointers (win_spec d) (win_spec s))
    (MergePointers (win_user d) (win_user s)) (MergePointers (win_host d) (win_host s))).

Definition deepMergeSeccompProfile : option SeccompProfile → option SeccompProfile → option SeccompProfile :=
  deep_merge (λ d s, mkSeccomp (merge_str (sec_type d) (sec_type s)) (MergePointers (sec_local d) (sec_local s))).

Definition pod_security (d s : PodSecurityContext Obj) : PodSecurityContext Obj :=
  mkPSC (deepMergeSELinuxOptions (psc_se d) (psc_se s)) (deepMergeWindowsSecurityContextOptions (psc_win d) (psc_win s))
    (MergePointers (psc_user d) (psc_user s)) (MergePointers (psc_group d) (psc_group s))
    (MergePointers (psc_non_root d) (psc_non_root s)) (DeepMergeSlices (psc_groups d) (psc_groups s))
    (MergePointers (psc_fs_group d) (psc_fs_group s)) (DeepMergeSlices (psc_sysctls d) (psc_sysctls s))
    (MergePointers (psc_fs_policy d) (psc_fs_policy s)) (deepMergeSeccompProfile (psc_seccomp d) (psc_seccomp s)) (psc_apparmor d).
Definition deepMergePodSecurityContext := deep_merge pod_security.

Definition deepMergeCapabilities : option Capabilities → option Capabilities → option Capabilities :=
  deep_merge (λ d s, mkCaps (DeepMergeSlices (cap_add d) (cap_add s)) (DeepMergeSlices (cap_drop d) (cap_drop s))).

Definition security (d s : SecurityContext Obj) : SecurityContext Obj :=
  mkSC (deepMergeCapabilities (sc_caps d) (sc_caps s)) (deepMergeSELinuxOptions (sc_se d) (sc_se s))
    (deepMergeWindowsSecurityContextOptions (sc_win d) (sc_win s)) (MergePointers (sc_user d) (sc_user s))
    (MergePointers (sc_group d) (sc_group s)) (MergePointers (sc_non_root d) (sc_non_root s))
    (MergePointers (sc_privileged d) (sc_privileged s)) (MergePointers (sc_read_only d) (sc_read_only s))
    (MergePointers (sc_escalation d) (sc_escalation s)) (MergePointers (sc_proc_mount d) (sc_proc_mount s))
    (deepMergeSeccompProfile (sc_seccomp d) (sc_seccomp s)) (sc_apparmor d).
Definition DeepMergeSecurityContext := deep_merge security.

Definition resources (d s : ResourceRequirements Obj) : ResourceRequirements Obj :=
  mkRes (DeepMergeMaps (rs_limits d) (rs_limits s)) (DeepMergeMaps (rs_requests d) (rs_requests s)) (rs_claims d).
Definition DeepMergeResourceRequirements := deep_merge resources.

Definition deepMergeNodeSelector : option (option (list Obj)) → option (option (list Obj)) → option (option (list Obj)) :=
  deep_merge DeepMergeSlices.
Definition node_affinity (d s : NodeAffinity Obj) : NodeAffinity Obj :=
  mkNodeAff (deepMergeNodeSelector (na_required d) (na_required s)) (DeepMergeSlices (na_preferred d) (na_preferred s)).
Definition deepMergeNodeAffinity := deep_merge node_affinity.
Definition pod_affinity (d s : PodAffinity Obj) : PodAffinity Obj :=
  mkPodAff (DeepMergeSlices (pf_required d) (pf_required s)) (DeepMergeSlices (pf_preferred d) (pf_preferred s)).
Definition deepMergePodAffinity := deep_merge pod_affinity.
Definition deepMergePodAntiAffinity := deep_merge pod_affinity.
Definition affinity (d s : Affinity Obj) : Affinity Obj :=
  mkAff (deepMergeNodeAffinity (af_node d) (af_node s)) (deepMergePodAffinity (af_pod d) (af_pod s))
    (deepMergePodAntiAffinity (af_anti d) (af_anti s)).
Definition DeepMergeAffinity := deep_merge affinity.

Definition deepMergeExecAction : option ExecAction → option ExecAction → option ExecAction :=
  deep_merge (λ d s, mkExec (OverrideSlices (ex_command d) (ex_command s))).
Definition http_get (d s : HTTPGetAction Obj) : HTTPGetAction Obj :=
  mkGet (merge_str (hg_path d) (hg_path s)) (mergeIntOrString (hg_port d) (hg_port s)) (merge_str (hg_host d) (hg_host s))
    (merge_str (hg_scheme d) (hg_scheme s)) (DeepMergeSlices (hg_headers d) (hg_headers s)).
Definition deepMergeHTTPGetAction := deep_merge http_get.
Definition deepMergeTCPSocketAction : option TCPSocketAction → option TCPSocketAction → option TCPSocketAction :=
  deep_merge (λ d s, mkTcpSock (mergeIntOrString (ts_port d) (ts_port s)) (merge_str (ts_host d) (ts_host s))).
Definition deepMergeGRPCAction : option GRPCAction → option GRPCAction → option GRPCAction :=
  deep_merge (λ d s, mkGrpc (merge_num (ga_port d) (ga_port s)) (MergePointers (ga_service d) (ga_service s))).

(** [deepMergeProbeHandler]: an override with an action resets the destination. *)
Definition has_action (h : ProbeHandler Obj) : bool :=
  bool_decide (is_Some (ph_exec h)) || bool_decide (is_Some (ph_get h)) || bool_decide (is_Some (ph_tcp h)) ||
  bool_decide (is_Some (ph_grpc h)).
Definition deepMergeProbeHandler (dst src : ProbeHandler Obj) : ProbeHandler Obj :=
  let dst := if has_action src then mkHandler None None None None else dst in
  mkHandler (deepMergeExecAction (ph_exec dst) (ph_exec src)) (deepMergeHTTPGetAction (ph_get dst) (ph_get src))
    (deepMergeTCPSocketAction (ph_tcp dst) (ph_tcp src)) (deepMergeGRPCAction (ph_grpc dst) (ph_grpc src)).
Definition probe (d s : Probe Obj) : Probe Obj :=
  mkProbe (deepMergeProbeHandler (pr_handler d) (pr_handler s)) (merge_num (pr_delay d) (pr_delay s))
    (merge_num (pr_timeout d) (pr_timeout s)) (merge_num (pr_period d) (pr_period s)) (merge_num (pr_success d) (pr_success s))
    (merge_num (pr_failure d) (pr_failure s)) (MergePointers (pr_grace d) (pr_grace s)).
Definition deepMergeProbe := deep_merge probe.

Definition deepMergeGracefulShutdown : option GracefulShutdownSpec → option GracefulShutdownSpec → option GracefulShutdownSpec :=
  deep_merge (λ d s, mkGrace (MergePointers (gs_enabled d) (gs_enabled s)) (MergePointers (gs_sleep d) (gs_sleep s))).

Definition pod_template (d s : Pod Obj) : Pod Obj :=
  mkPod (DeepMergeMaps (po_labels d) (po_labels s)) (DeepMergeMaps (po_annotations d) (po_annotations s))
    (deepMergePodSecurityContext (po_security d) (po_security s)) (DeepMergeSlices (po_pull_secrets d) (po_pull_secrets s))
    (DeepMergeMaps (po_selector d) (po_selector s)) (DeepMergeAffinity (po_affinity d) (po_affinity s))
    (DeepMergeSlices (po_tolerations d) (po_tolerations s)) (deepMergeGracefulShutdown (po_graceful d) (po_graceful s))
    (MergePointers (po_grace d) (po_grace s)) (deepMergeProbe (po_startup d) (po_startup s))
    (deepMergeProbe (po_readiness d) (po_readiness s)) (deepMergeProbe (po_liveness d) (po_liveness s))
    (DeepMergeSlices (po_spread d) (po_spread s)) (DeepMergeSlices (po_volumes d) (po_volumes s))
    (MergePointers (po_priority d) (po_priority s)).
Definition deepMergePodTemplate := deep_merge pod_template.

Definition service (d s : Service) : Service :=
  mkSvc (MergePointers (sv_type d) (sv_type s)) (MergePointers (sv_cluster_ip d) (sv_cluster_ip s))
    (DeepMergeMaps (sv_labels d) (sv_labels s)) (DeepMergeMaps (sv_annotations d) (sv_annotations s))
    (DeepMergeSlices (sv_ports d) (sv_ports s)) (MergePointers (sv_traffic d) (sv_traffic s))
    (MergePointers (sv_lb_class d) (sv_lb_class s)) (OverrideSlices (sv_ranges d) (sv_ranges s)).
Definition deepMergeService := deep_merge service.
Definition deepMergeServiceAccount : option ServiceAccount → option ServiceAccount → option ServiceAccount :=
  deep_merge (λ d s, mkSA (DeepMergeMaps (sa_labels d) (sa_labels s)) (DeepMergeMaps (sa_annotations d) (sa_annotations s))).

(** [DeepMergeImage]: a tag without a digest clears the digest, and conversely. *)
Definition non_empty (s : option string) : bool := match s with Some s => negb (String.eqb s "") | None => false end.
Definition couple (s d : Image) : Image :=
  let tag := if non_empty (im_digest s) && bool_decide (im_tag s = None) then Some "" else im_tag d in
  let digest := if non_empty (im_tag s) && bool_decide (im_digest s = None) then Some "" else im_digest d in
  mkImage (im_registry d) (im_repository d) tag digest (im_pull d).
Definition image_fields (d s : Image) : Image :=
  mkImage (MergePointers (im_registry d) (im_registry s)) (MergePointers (im_repository d) (im_repository s))
    (MergePointers (im_tag d) (im_tag s)) (MergePointers (im_digest d) (im_digest s)) (MergePointers (im_pull d) (im_pull s)).
Definition DeepMergeImage (dst src : option Image) : option Image :=
  match src with
  | None => dst
  | Some s => Some (couple s (match dst with None => s | Some d => image_fields d s end))
  end.

Definition deepMergeSdsBootstrap : option SdsBootstrap → option SdsBootstrap → option SdsBootstrap :=
  deep_merge (λ d s, mkSB (MergePointers (sb_level d) (sb_level s))).
Definition sds_container (d s : SdsContainer Obj) : SdsContainer Obj :=
  mkSds (DeepMergeImage (sd_image d) (sd_image s)) (DeepMergeSecurityContext (sd_security d) (sd_security s))
    (DeepMergeResourceRequirements (sd_resources d) (sd_resources s)) (deepMergeSdsBootstrap (sd_bootstrap d) (sd_bootstrap s)).
Definition deepMergeSdsContainer := deep_merge sds_container.

(** [mergeCustomSidecars]: an empty override counts as none. *)
Definition mergeCustomSidecars (dst src : option (list Obj)) : option (list Obj) :=
  match src with None | Some [] => dst | Some _ => src end.
Definition istio_container (d s : IstioContainer Obj) : IstioContainer Obj :=
  mkIC (DeepMergeImage (ic_image d) (ic_image s)) (DeepMergeSecurityContext (ic_security d) (ic_security s))
    (DeepMergeResourceRequirements (ic_resources d) (ic_resources s)) (MergePointers (ic_level d) (ic_level s))
    (MergePointers (ic_discovery d) (ic_discovery s)) (MergePointers (ic_mesh d) (ic_mesh s))
    (MergePointers (ic_cluster d) (ic_cluster s)).
Definition deepMergeIstioContainer := deep_merge istio_container.
Definition istio_integration (d s : IstioIntegration Obj) : IstioIntegration Obj :=
  mkII (deepMergeIstioContainer (ii_proxy d) (ii_proxy s)) (mergeCustomSidecars (ii_sidecars d) (ii_sidecars s)).
Definition deepMergeIstioIntegration := deep_merge istio_integration.

Definition deepMergeDnsResolver : option DnsResolver → option DnsResolver → option DnsResolver :=
  deep_merge (λ d s, mkDns (MergePointers (dn_max_queries d) (dn_max_queries s))).
Definition envoy_bootstrap (d s : EnvoyBootstrap Obj) : EnvoyBootstrap Obj :=
  mkEB (MergePointers (eb_format d) (eb_format s)) (MergePointers (eb_level d) (eb_level s))
    (DeepMergeMaps (eb_components d) (eb_components s)) (deepMergeDnsResolver (eb_dns d) (eb_dns s))
    (MergePointers (eb_proxy_protocol d) (eb_proxy_protocol s)).
Definition deepMergeEnvoyBootstrap := deep_merge envoy_bootstrap.
Definition envoy_container (d s : EnvoyContainer Obj) : EnvoyContainer Obj :=
  mkEC (deepMergeEnvoyBootstrap (ec_bootstrap d) (ec_bootstrap s)) (DeepMergeImage (ec_image d) (ec_image s))
    (DeepMergeSecurityContext (ec_security d) (ec_security s)) (DeepMergeResourceRequirements (ec_resources d) (ec_resources s))
    (DeepMergeSlices (ec_args d) (ec_args s)) (DeepMergeSlices (ec_env d) (ec_env s))
    (DeepMergeSlices (ec_mounts d) (ec_mounts s)).
Definition deepMergeEnvoyContainer := deep_merge envoy_container.

Definition stats_config (d s : StatsConfig Obj) : StatsConfig Obj :=
  mkStats (MergePointers (st_enabled d) (st_enabled s)) (MergePointers (st_rewrite d) (st_rewrite s))
    (MergePointers (st_route d) (st_route s)) (MergePointers (st_route_rewrite d) (st_route_rewrite s))
    (MergePointers (st_matcher d) (st_matcher s)).
Definition deepMergeStatsConfig := deep_merge stats_config.
Definition deployment (d s : ProxyDeployment Obj) : ProxyDeployment Obj :=
  mkDep (MergePointers (dp_replicas d) (dp_replicas s)) (MergePointers (dp_strategy d) (dp_strategy s)).
Definition deepMergeDeployment := deep_merge deployment.

Definition merge_kube (d s : KubernetesProxyConfig Obj) : KubernetesProxyConfig Obj :=
  mkKube (deepMergeDeployment (k_deployment d) (k_deployment s)) (deepMergeEnvoyContainer (k_envoy d) (k_envoy s))
    (deepMergeSdsContainer (k_sds d) (k_sds s)) (deepMergePodTemplate (k_pod d) (k_pod s))
    (deepMergeService (k_service d) (k_service s)) (deepMergeServiceAccount (k_account d) (k_account s))
    (deepMergeIstioIntegration (k_istio d) (k_istio s)) (deepMergeStatsConfig (k_stats d) (k_stats s))
    (MergePointers (k_omit d) (k_omit s)) (k_overlays d).

(** [DeepMergeGatewayParameters]; the destination is never nil. *)
Definition DeepMergeGatewayParameters (dst : GatewayParameters Obj) (src : option (GatewayParameters Obj)) : GatewayParameters Obj :=
  match src with
  | None => dst
  | Some s =>
      match gp_self_managed s with
      | Some _ => mkGWP None (gp_self_managed s)
      | None =>
          match gp_kube s, gp_kube dst with
          | Some sk, Some dk => mkGWP (Some (merge_kube dk sk)) (gp_self_managed dst)
          | _, _ => dst
          end
      end
  end.

(** ** Defaults *)

Record ImageInfo := mkImageInfo { ii_registry : string; ii_tag : string; ii_pull : string }.

Definition ready_probe (period timeout failure success : Z) : Probe Obj :=
  mkProbe (mkHandler None (Some (mkGet "/ready" (IntPort 8082) "" "" None)) None None) 0 timeout period success failure None.

Definition default_image (i : ImageInfo) (repository : string) : Image :=
  mkImage (Some (ii_registry i)) (Some repository) (Some (ii_tag i)) None (Some (ii_pull i)).

Definition default_security : SecurityContext Obj :=
  mkSC (Some (mkCaps None (Some ["ALL"]))) None None (Some 10101%Z) None (Some true) None (Some true) (Some false) None None None.

Definition EnvoyWrapperImage : string := "envoy-wrapper".
Definition SdsImage : string := "sds".
Definition DefaultIstioProxyImageTag : string := "1.31.0".

Definition default_pod : Pod Obj :=
  mkPod None None None None None None None (Some (mkGrace (Some true) (Some 10%Z))) (Some 60%Z)
    (Some (ready_probe 1 2 60 1)) (Some (ready_probe 10 0 0 0)) None None None None.
Definition default_istio (i : ImageInfo) : IstioIntegration Obj :=
  mkII (Some (mkIC (Some (mkImage (Some "docker.io/istio") (Some "proxyv2") (Some DefaultIstioProxyImageTag) None (Some (ii_pull i))))
    None None (Some "warning") (Some "istiod.istio-system.svc:15012") (Some "cluster.local") (Some "Kubernetes"))) None.

Definition defaultGatewayParameters (i : ImageInfo) (omitDefaultSecurityContext : bool) : GatewayParameters Obj :=
  mkGWP (Some (mkKube None
    (Some (mkEC (Some (mkEB None (Some "info") None (Some (mkDns (Some 100%Z))) None)) (Some (default_image i EnvoyWrapperImage))
       (if omitDefaultSecurityContext then None else Some default_security) None None None None))
    (Some (mkSds (Some (default_image i SdsImage)) None None (Some (mkSB (Some "info")))))
    (Some default_pod)
    (Some (mkSvc (Some "LoadBalancer") None None None None None None None)) None (Some (default_istio i))
    (Some (mkStats (Some true) (Some "/stats/prometheus?usedonly") (Some true) (Some "/stats") None)) None no_overlays)) None.

Definition IstioWaypointPort : Z := 15008.

(** [defaultWaypointGatewayParameters] adds the mesh port, a label and an annotation. *)
Definition waypoint_service (s : option Service) : Service :=
  let s := default (mkSvc None None None None None None None None) s in
  mkSvc (Some "ClusterIP") (sv_cluster_ip s) (sv_labels s) (sv_annotations s)
    (Some (default [] (sv_ports s) ++ [mkPort IstioWaypointPort None])) (sv_traffic s) (sv_lb_class s) (sv_ranges s).
Definition empty_pod : Pod Obj := mkPod None None None None None None None None None None None None None None None.
Definition waypoint_pod (p : option (Pod Obj)) : Pod Obj :=
  let p := default empty_pod p in
  mkPod (Some (<["istio.io/dataplane-mode" := "ambient"]> (default ∅ (po_labels p))))
    (Some (<["ambient.istio.io/dns-capture" := "false"]> (default ∅ (po_annotations p))))
    (po_security p) (po_pull_secrets p) (po_selector p) (po_affinity p) (po_tolerations p) (po_graceful p) (po_grace p)
    (po_startup p) (po_readiness p) (po_liveness p) (po_spread p) (po_volumes p) (po_priority p).
Definition defaultWaypointGatewayParameters (i : ImageInfo) (omit : bool) : GatewayParameters Obj :=
  let gwp := defaultGatewayParameters i omit in
  mkGWP ((λ k, mkKube (k_deployment k) (k_envoy k) (k_sds k) (Some (waypoint_pod (k_pod k)))
                 (Some (waypoint_service (k_service k))) (k_account k) (k_istio k) (k_stats k) (k_omit k) (k_overlays k))
           <$> gp_kube gwp) (gp_self_managed gwp).

Definition GetInMemoryGatewayParameters (className waypointClassName : string) (i : ImageInfo) (omit : bool) : GatewayParameters Obj :=
  if String.eqb className waypointClassName then defaultWaypointGatewayParameters i omit else defaultGatewayParameters i omit.
End merge.

(** ** Settings and their paths *)

(** A pointer setting [g] obeys the merge [f] when the override wins wherever it is set. *)
Class Overrides {A B : Type} (f : A → A → A) (g : A → option B) : Prop :=
  overrides d s : g (f d s) = MergePointers (g d) (g s).

(** The setting [q] of the structure at [p]. *)
Definition path {A B C : Type} (p : A → option B) (q : B → option C) (a : A) : option C := p a ≫= q.
Declare Scope deployer_scope.
Infix "▷" := path (at level 55, right associativity) : deployer_scope.
#[global] Open Scope deployer_scope.

Section settings.
Context {Obj : Type}.

(** Pointer settings of the parameters, by the structure that holds them: those that the merge
    takes from the override field by field.  Not among them are the tag and the digest of images,
    which are coupled (see [image_latest_wins]), AppArmor profiles, which the merge leaves out
    (see [apparmor_override_dropped]), the actions of probes, which exclude each other, and lists and
    maps, which are combined. *)
Inductive security_setting : ∀ B, (SecurityContext Obj → option B) → Prop :=
| ss_user : security_setting _ sc_user
| ss_group : security_setting _ sc_group
| ss_non_root : security_setting _ sc_non_root
| ss_privileged : security_setting _ sc_privileged
| ss_read_only : security_setting _ sc_read_only
| ss_escalation : security_setting _ sc_escalation
| ss_proc_mount : security_setting _ sc_proc_mount
| ss_seccomp : security_setting _ (sc_seccomp ▷ sec_local)
| ss_win_name : security_setting _ (sc_win ▷ win_spec_name)
| ss_win_spec : security_setting _ (sc_win ▷ win_spec)
| ss_win_user : security_setting _ (sc_win ▷ win_user)
| ss_win_host : security_setting _ (sc_win ▷ win_host).

Inductive image_setting : ∀ B, (Image → option B) → Prop :=
| is_registry : image_setting _ im_registry
| is_repository : image_setting _ im_repository
| is_pull : image_setting _ im_pull.

Inductive pod_setting : ∀ B, (Pod Obj → option B) → Prop :=
| pos_grace : pod_setting _ po_grace
| pos_priority : pod_setting _ po_priority
| pos_graceful : pod_setting _ (po_graceful ▷ gs_enabled)
| pos_sleep : pod_setting _ (po_graceful ▷ gs_sleep)
| pos_user : pod_setting _ (po_security ▷ psc_user)
| pos_group : pod_setting _ (po_security ▷ psc_group)
| pos_non_root : pod_setting _ (po_security ▷ psc_non_root)
| pos_fs_group : pod_setting _ (po_security ▷ psc_fs_group)
| pos_fs_policy : pod_setting _ (po_security ▷ psc_fs_policy)
| pos_seccomp : pod_setting _ (po_security ▷ psc_seccomp ▷ sec_local)
| pos_win_name : pod_setting _ (po_security ▷ psc_win ▷ win_spec_name)
| pos_win_spec : pod_setting _ (po_security ▷ psc_win ▷ win_spec)
| pos_win_user : pod_setting _ (po_security ▷ psc_win ▷ win_user)
| pos_win_host : pod_setting _ (po_security ▷ psc_win ▷ win_host)
| pos_startup : pod_setting _ (po_startup ▷ pr_grace)
| pos_readiness : pod_setting _ (po_readiness ▷ pr_grace)
| pos_liveness : pod_setting _ (po_liveness ▷ pr_grace).

Inductive kube_setting : ∀ B, (KubernetesProxyConfig Obj → option B) → Prop :=
| ks_replicas : kube_setting _ (k_deployment ▷ dp_replicas)
| ks_strategy : kube_setting _ (k_deployment ▷ dp_strategy)
| ks_log_format : kube_setting _ (k_envoy ▷ ec_bootstrap ▷ eb_format)
| ks_log_level : kube_setting _ (k_envoy ▷ ec_bootstrap ▷ eb_level)
| ks_dns : kube_setting _ (k_envoy ▷ ec_bootstrap ▷ eb_dns ▷ dn_max_queries)
| ks_proxy_protocol : kube_setting _ (k_envoy ▷ ec_bootstrap ▷ eb_proxy_protocol)
| ks_envoy_image B g : image_setting B g → kube_setting _ (k_envoy ▷ ec_image ▷ g)
| ks_envoy_security B g : security_setting B g → kube_setting _ (k_envoy ▷ ec_security ▷ g)
| ks_sds_image B g : image_setting B g → kube_setting _ (k_sds ▷ sd_image ▷ g)
| ks_sds_security B g : security_setting B g → kube_setting _ (k_sds ▷ sd_security ▷ g)
| ks_sds_level : kube_setting _ (k_sds ▷ sd_bootstrap ▷ sb_level)
| ks_pod B g : pod_setting B g → kube_setting _ (k_pod ▷ g)
| ks_service_type : kube_setting _ (k_service ▷ sv_type)
| ks_cluster_ip : kube_setting _ (k_service ▷ sv_cluster_ip)
| ks_traffic : kube_setting _ (k_service ▷ sv_traffic)
| ks_lb_class : kube_setting _ (k_service ▷ sv_lb_class)
| ks_ranges : kube_setting _ (k_service ▷ sv_ranges)
| ks_istio_image B g : image_setting B g → kube_setting _ (k_istio ▷ ii_proxy ▷ ic_image ▷ g)
| ks_istio_security B g : security_setting B g → kube_setting _ (k_istio ▷ ii_proxy ▷ ic_security ▷ g)
| ks_istio_level : kube_setting _ (k_istio ▷ ii_proxy ▷ ic_level)
| ks_discovery : kube_setting _ (k_istio ▷ ii_proxy ▷ ic_discovery)
| ks_mesh : kube_setting _ (k_istio ▷ ii_proxy ▷ ic_mesh)
| ks_cluster : kube_setting _ (k_istio ▷ ii_proxy ▷ ic_cluster)
| ks_stats : kube_setting _ (k_stats ▷ st_enabled)
| ks_stats_rewrite : kube_setting _ (k_stats ▷ st_rewrite)
| ks_stats_route : kube_setting _ (k_stats ▷ st_route)
| ks_stats_route_rewrite : kube_setting _ (k_stats ▷ st_route_rewrite)
| ks_stats_matcher : kube_setting _ (k_stats ▷ st_matcher)
| ks_omit : kube_setting _ k_omit.

(** ** Lemmas: merging *)

Lemma overrides_path {A B C} (f : A → A → A) (p : A → option B) (h : B → B → B) (g : B → option C) :
  (∀ d s, p (f d s) = deep_merge h (p d) (p s)) → Overrides h g → Overrides f (p ▷ g).
Proof.
  intros Hp Hg d s. unfold path. rewrite Hp. destruct (p d) as [x|], (p s) as [y|]; simpl; [apply Hg| | |]; try done.
  all: by destruct (g _).
Qed.

Lemma overrides_image {A C} (f : A → A → A) (p : A → option Image) (g : Image → option C) :
  (∀ d s, p (f d s) = DeepMergeImage (p d) (p s)) → image_setting C g → Overrides f (p ▷ g).
Proof.
  intros Hp Hg d s. unfold path. rewrite Hp. destruct Hg, (p d) as [x|], (p s) as [y|]; simpl; try done.
  all: by destruct (_ y).
Qed.

#[local] Ltac setting :=
  repeat (eapply overrides_path; [by intros ??; reflexivity|]); try done; by intros ??; reflexivity.

Lemma security_setting_overrides B g : security_setting B g → Overrides security g.
Proof. destruct 1; setting. Qed.

Lemma pod_setting_overrides B g : pod_setting B g → Overrides pod_template g.
Proof. destruct 1; setting. Qed.

Lemma kube_setting_overrides B g : kube_setting B g → Overrides merge_kube g.
Proof.
  destruct 1 as [| | | | | |B g Hg|B g Hg|B g Hg|B g Hg| |B g Hg| | | | | |B g Hg|B g Hg| | | | | | | | | |]; try setting.
  all: try (repeat (eapply overrides_path; [by intros ??; reflexivity|]);
            first [by apply security_setting_overrides|by apply pod_setting_overrides]).
  all: repeat (eapply overrides_path; [by intros ??; reflexivity|]); by apply overrides_image.
Qed.

(** Of the tag and the digest of an image, the level that names either decides both. *)
Lemma image_latest_wins (d s : Image) t :
  (im_tag s = Some t → t ≠ "" → im_digest s = None →
   im_tag (couple s (image_fields d s)) = Some t ∧ im_digest (couple s (image_fields d s)) = Some "") ∧
  (im_digest s = Some t → t ≠ "" → im_tag s = None →
   im_digest (couple s (image_fields d s)) = Some t ∧ im_tag (couple s (image_fields d s)) = Some "").
Proof.
  split; intros H1 Hne H2; unfold couple, image_fields; simpl; rewrite H1, H2; simpl;
    by rewrite (proj2 (String.eqb_neq t "")).
Qed.

(** A probe keeps at most one action. *)
Definition one_action (h : ProbeHandler Obj) : Prop :=
  (length (omap (λ x : option unit, x) [(λ _, ()) <$> ph_exec h; (λ _, ()) <$> ph_get h; (λ _, ()) <$> ph_tcp h; (λ _, ()) <$> ph_grpc h]) ≤ 1)%nat.

Lemma probe_one_action d s : one_action d → one_action s → one_action (deepMergeProbeHandler d s).
Proof.
  unfold one_action, deepMergeProbeHandler, has_action.
  destruct s as [[] [] [] []], d as [[] [] [] []]; simpl; lia.
Qed.

(** A key of a merged map is the override's, else the destination's, unless the override is an
    empty map, which clears. *)
Lemma merged_map_lookup {V} (d s : option (gmap string V)) key :
  s ≠ Some ∅ → (DeepMergeMaps d s ≫= lookup key) = (s ≫= lookup key) ∪ (d ≫= lookup key).
Proof.
  intros Hs. unfold DeepMergeMaps. destruct s as [s|]; simpl; [|by destruct (d ≫= lookup key)].
  destruct d as [d|]; simpl; [|by destruct (s !! key)].
  rewrite bool_decide_eq_false_2 by congruence. simpl. rewrite lookup_union. done.
Qed.

(** ** Findings *)

(** An override that is an empty map does not add nothing: it clears the destination. *)
Theorem empty_override_clears_map {V} (d : gmap string V) : DeepMergeMaps (Some d) (Some ∅) = Some ∅.
Proof. done. Qed.

(** The AppArmor profile of an override is dropped when the destination has a security context,
    and taken when it has none. *)
Theorem apparmor_override_dropped (d s : SecurityContext Obj) :
  sc_apparmor <$> DeepMergeSecurityContext (Some d) (Some s) = Some (sc_apparmor d) ∧
  sc_apparmor <$> DeepMergeSecurityContext None (Some s) = Some (sc_apparmor s).
Proof. done. Qed.
End settings.
