(* ===== verification/DeployerValues.v ===== *)
(** * Values of deployed proxies (pkg/deployer/values_helpers.go, gateway_parameters.go,
    gateway_getter.go, values.go, pkg/kgateway/deployer/gateway_parameters.go and tls.go)

    How the parameters of a Gateway are found and layered, the ports of its proxy, and the Helm
    values rendered from both.  The clients are finite maps; the files of the control plane are a
    function; [netip.ParseAddr] is modelled as far as it accepts or refuses an address. *)

From S2P Require Import Prelude IR Delegation RoutesIndex ListenerValidation GatewayIndex SslUtils ListenerTranslator Deployer.

(** ** Resources *)

Record LocalParametersReference := mkLPR { lpr_group : string; lpr_kind : string; lpr_name : string }.
Record ParametersReference := mkPR {
  prr_group : string; prr_kind : string; prr_name : string; prr_namespace : option string }.
Record Infrastructure := mkInfra {
  in_annotations : gmap string string; in_labels : gmap string string; in_params : option LocalParametersReference }.
(** [gwv1.Gateway], as far as the deployer reads it. *)
Record DeployedGateway := mkDG {
  dg_namespace : string; dg_name : string; dg_class : string; dg_infra : option Infrastructure;
  dg_addresses : list (option string * string); dg_ports : list Z }.
Record DeployedClass := mkDC { dc_name : string; dc_controller : string; dc_params : option ParametersReference }.

Record ControlPlaneInfo := mkCP { cp_host : string; cp_port : Z; cp_tls : bool; cp_ca_path : string }.
(** [Inputs]. *)
Record Inputs := mkInputs {
  inp_auto_mtls : bool; inp_control_plane : ControlPlaneInfo; inp_image : ImageInfo; inp_class : string;
  inp_waypoint_class : string }.

(** ** Addresses: [netip.ParseAddr] *)

Definition hex_digit (a : Ascii.ascii) : bool :=
  let n := Ascii.nat_of_ascii a in
  bool_decide (48 ≤ n ≤ 57)%nat || bool_decide (97 ≤ n ≤ 102)%nat || bool_decide (65 ≤ n ≤ 70)%nat.

(** [parseIPv4Fields]: the value and digits of the current octet, the octets before it, and
    whether the previous byte is a dot or missing. *)
Fixpoint ipv4_fields (val : Z) (digLen pos : nat) (fresh : bool) (s : string) : bool :=
  match s with
  | EmptyString => negb (bool_decide (pos < 3)%nat)
  | String a s' =>
      match digit a with
      | Some d =>
          if bool_decide (digLen = 1%nat) && (val =? 0)%Z then false
          else let val := (val * 10 + d)%Z in
               if bool_decide (255 < val)%Z then false else ipv4_fields val (S digLen) pos false s'
      | None =>
          if Ascii.eqb a "."%char then
            if fresh || String.eqb s' "" then false
            else if bool_decide (pos = 3%nat) then false else ipv4_fields 0 0 (S pos) true s'
          else false
      end
  end.
Definition parseIPv4 (s : string) : bool := ipv4_fields 0 0 0 true s.

(** The leading hexadecimal digits of a group and the rest. *)
Fixpoint hex_group (s : string) : nat * string :=
  match s with
  | EmptyString => (O, EmptyString)
  | String a s' => if hex_digit a then let '(n, r) := hex_group s' in (S n, r) else (O, s)
  end.

(** The loop of [parseIPv6]: [i] groups of 16 bits are parsed, [ellipsis] tells whether "::" was
    seen.  The outcome is the count of groups and the flag at the end of the text. *)
Fixpoint ipv6_loop (fuel i : nat) (ellipsis : bool) (s : string) : option (nat * bool) :=
  match fuel with
  | O => if String.eqb s "" then Some (i, ellipsis) else None
  | S fuel =>
      let '(off, rest) := hex_group s in
      if bool_decide (off = O) || bool_decide (4 < off)%nat then None
      else
        match rest with
        | EmptyString => Some (S i, ellipsis)
        | String c rest' =>
            if Ascii.eqb c "."%char then
              if negb ellipsis && negb (bool_decide (i = 6%nat)) then None
              else if bool_decide (6 < i)%nat then None
              else if ipv4_fields 0 0 0 true s then Some (S (S i), ellipsis) else None
            else if negb (Ascii.eqb c ":"%char) then None
            else
              match rest' with
              | EmptyString => None
              | String c' rest'' =>
                  if Ascii.eqb c' ":"%char then
                    if ellipsis then None
                    else if String.eqb rest'' "" then Some (S i, true) else ipv6_loop fuel (S i) true rest''
                  else ipv6_loop fuel (S i) ellipsis rest'
              end
        end
  end.

Fixpoint split_zone (s : string) : string * option string :=
  match s with
  | EmptyString => (EmptyString, None)
  | String a s' => if Ascii.eqb a "%"%char then (EmptyString, Some s') else let '(x, z) := split_zone s' in (String a x, z)
  end.

Definition parseIPv6 (text : string) : bool :=
  let '(s, zone) := split_zone text in
  if bool_decide (zone = Some "") then false
  else
    let leading := has_prefix s "::" in
    let s := if leading then str_drop 2 s else s in
    if leading && String.eqb s "" then true
    else match ipv6_loop 8 0 leading s with
         | None => false
         | Some (i, ellipsis) => if bool_decide (i < 8)%nat then ellipsis else negb ellipsis
         end.

(** [netip.ParseAddr]: the first separator selects the syntax. *)
Fixpoint addr_syntax (s : string) : option bool :=
  match s with
  | EmptyString => None
  | String a s' =>
      if Ascii.eqb a "."%char then Some false
      else if Ascii.eqb a ":"%char then Some true
      else if Ascii.eqb a "%"%char then None else addr_syntax s'
  end.
Definition ParseAddr (s : string) : bool :=
  match addr_syntax s with Some false => parseIPv4 s | Some true => parseIPv6 s | None => false end.

Section values.
Context {Obj : Type}.

(** ** Finding the parameters *)

Record Clients := mkClients {
  cl_params : gmap (string * string) (GatewayParameters Obj); cl_classes : gmap string DeployedClass }.
(** [gwParamClient.Get(name, namespace)]. *)
Definition get_params (c : Clients) (name namespace : string) : option (GatewayParameters Obj) := cl_params c !! (namespace, name).

Definition GroupName : string := "gateway.kgateway.dev".
Definition GatewayParametersKind : string := "GatewayParameters".

Definition ErrNotFound : string := "resource not found".
Definition GetGatewayParametersForGatewayError (e gwpNamespace gwpName gwNamespace gwName resourceType : string) : error :=
  EMsg ("(" +:+ gwpNamespace +:+ "." +:+ gwpName +:+ ") for " +:+ resourceType +:+ " (" +:+ gwNamespace +:+ "." +:+ gwName +:+
        "): could not retrieve GatewayParameters: " +:+ e).
Definition GetGatewayParametersForGatewayClassError (e gwpNamespace gwpName gwcName resourceType : string) : error :=
  EMsg ("(" +:+ gwpNamespace +:+ "." +:+ gwpName +:+ ") for " +:+ resourceType +:+ " (" +:+ gwcName +:+
        "): could not retrieve GatewayParameters: " +:+ e).

Definition getGatewayClassFromGateway (c : Clients) (gw : DeployedGateway) : error + DeployedClass :=
  if String.eqb (dg_class gw) "" then inl (EMsg "GatewayClassName must not be empty")
  else match cl_classes c !! dg_class gw with
       | None => inl (EMsg ("failed to get GatewayClass for Gateway " +:+ dg_name gw +:+ "/" +:+ dg_namespace gw))
       | Some gwc => inr gwc
       end.

(** [resolveGatewayClassParameters], of a class whose reference is [paramRef]. *)
Definition resolveGatewayClassParameters (c : Clients) (gwc : DeployedClass) (paramRef : ParametersReference) :
    error + GatewayParameters Obj :=
  if String.eqb (prr_name paramRef) "" then inl (EMsg "parametersRef.name cannot be empty when parametersRef is specified")
  else
    let ns := str_or (prr_namespace paramRef) "" in
    match get_params c (prr_name paramRef) ns with
    | None => inl (GetGatewayParametersForGatewayClassError ErrNotFound ns (prr_name paramRef) (dc_name gwc) "GatewayClass")
    | Some gwp => inr gwp
    end.

(** [ptr.Deref(gwp.Spec.Kube.GetOmitDefaultSecurityContext(), false)]. *)
Definition omits (gwp : GatewayParameters Obj) : bool := default false (gp_kube gwp ≫= k_omit).

Definition mergeWithDefaults (i : Inputs) (gwc : DeployedClass) (gwp : GatewayParameters Obj) (omit : bool) : GatewayParameters Obj :=
  DeepMergeGatewayParameters
    (GetInMemoryGatewayParameters (dc_name gwc) (inp_waypoint_class i) (inp_image i) omit) (Some gwp).

Definition getDefaultGatewayParametersWithFlag (i : Inputs) (c : Clients) (gw : DeployedGateway) (omit : bool) :
    error + GatewayParameters Obj :=
  match getGatewayClassFromGateway c gw with
  | inl e => inl e
  | inr gwc =>
      match dc_params gwc with
      | None => inr (GetInMemoryGatewayParameters (dc_name gwc) (inp_waypoint_class i) (inp_image i) omit)
      | Some paramRef =>
          match resolveGatewayClassParameters c gwc paramRef with
          | inl e => inl e
          | inr gwcParams => inr (mergeWithDefaults i gwc gwcParams (omit || omits gwcParams))
          end
      end
  end.

Definition getDefaultGatewayParameters (i : Inputs) (c : Clients) (gw : DeployedGateway) : error + GatewayParameters Obj :=
  getDefaultGatewayParametersWithFlag i c gw false.

Definition getGatewayParametersForGateway (i : Inputs) (c : Clients) (gw : DeployedGateway) : error + GatewayParameters Obj :=
  match dg_infra gw ≫= in_params with
  | None => getDefaultGatewayParameters i c gw
  | Some ref =>
      if negb (String.eqb (lpr_group ref) GroupName)
      then inl (EMsg ("invalid group " +:+ lpr_group ref +:+ " for GatewayParameters"))
      else if negb (String.eqb (lpr_kind ref) GatewayParametersKind)
      then inl (EMsg ("invalid kind " +:+ lpr_kind ref +:+ " for GatewayParameters"))
      else match get_params c (lpr_name ref) (dg_namespace gw) with
           | None => inl (GetGatewayParametersForGatewayError ErrNotFound (dg_namespace gw) (lpr_name ref) (dg_namespace gw)
                            (dg_name gw) "Gateway")
           | Some gwp =>
               match getDefaultGatewayParametersWithFlag i c gw (omits gwp) with
               | inl e => inl e
               | inr defaultGwp => inr (DeepMergeGatewayParameters defaultGwp (Some gwp))
               end
           end
  end.

(** [resolveParametersForOverlays]: the parameters of the class and of the Gateway. *)
Definition resolveParametersForOverlays (c : Clients) (gw : DeployedGateway) :
    option (GatewayParameters Obj) * option (GatewayParameters Obj) :=
  (gwc ← cl_classes c !! dg_class gw;
   ref ← dc_params gwc;
   if String.eqb (prr_group ref) GroupName && String.eqb (prr_kind ref) GatewayParametersKind
   then get_params c (prr_name ref) (str_or (prr_namespace ref) "") else None,
   ref ← dg_infra gw ≫= in_params;
   if String.eqb (lpr_group ref) GroupName && String.eqb (lpr_kind ref) GatewayParametersKind
   then get_params c (lpr_name ref) (dg_namespace gw) else None).

(** ** Ports *)

Record HelmPort := mkHP { hp_port : Z; hp_protocol : string; hp_name : string; hp_target : Z; hp_node : option Z }.

Definition alnum_dash (a : Ascii.ascii) : bool :=
  let n := Ascii.nat_of_ascii a in
  bool_decide (97 ≤ n ≤ 122)%nat || bool_decide (65 ≤ n ≤ 90)%nat || bool_decide (48 ≤ n ≤ 57)%nat || Ascii.eqb a "-"%char.

(** The two replacements of [SanitizePortName]: runs of other bytes, then runs of dashes, become
    one dash.  [run] tells whether the previous byte belongs to a run. *)
Fixpoint replace_runs (other : Ascii.ascii → bool) (run : bool) (s : string) : string :=
  match s with
  | EmptyString => EmptyString
  | String a s' =>
      if other a then (if run then replace_runs other true s' else String "-"%char (replace_runs other true s'))
      else String a (replace_runs other false s')
  end.
Definition maxPortNameLength : nat := 15.
Definition SanitizePortName (name : string) : string :=
  let s := replace_runs (λ a, negb (alnum_dash a)) false name in
  String.substring 0 maxPortNameLength (replace_runs (λ a, Ascii.eqb a "-"%char) false s).

Definition node_port (gwp : option (GatewayParameters Obj)) (port : Z) : option Z :=
  svc ← gwp ≫= gp_kube ▷ k_service;
  t ← sv_type svc;
  if String.eqb t "NodePort" || String.eqb t "LoadBalancer"
  then p ← head (filter (λ p, pt_port p = port) (default [] (sv_ports svc))); pt_node p
  else None.

Definition AppendPortValue (gwPorts : list HelmPort) (port : Z) (name : string) (gwp : option (GatewayParameters Obj)) : list HelmPort :=
  if bool_decide (port ∈ map hp_port gwPorts) then gwPorts
  else gwPorts ++ [mkHP port "TCP" (SanitizePortName name) port (node_port gwp port)].

(** [Ports.List()]: a small set lists its members in ascending order. *)
Definition port_list (ports : gset Z) : list Z := sort_stable Z.compare (elements ports).

Definition GetPortsValues (gw : GatewayForDeployer) (gwp : option (GatewayParameters Obj)) : list HelmPort :=
  let gwPorts := foldl (λ acc port,
      match ListenerPort port with
      | Some _ => acc
      | None => AppendPortValue acc port (GenerateListenerNameFromPort port) gwp
      end) [] (port_list (gfd_ports gw)) in
  foldl (λ acc p, AppendPortValue acc (pt_port p) (GenerateListenerNameFromPort (pt_port p)) gwp) gwPorts
    (default [] (gwp ≫= gp_kube ▷ k_service ▷ sv_ports)).

Definition GatewayIRFrom (gw : DeployedGateway) (controllerNameGuess : string) : GatewayForDeployer :=
  mkGFD (mkOS GatewayGroup GatewayKind (dg_namespace gw) (dg_name gw)) controllerNameGuess (list_to_set (dg_ports gw)).

(** [DefaultGatewayIRGetter], with the Gateways of the index by resource name. *)
Definition DefaultGatewayIRGetter (gatewaysForDeployer : gmap string GatewayForDeployer) (controllerName : string)
    (gw : DeployedGateway) : GatewayForDeployer :=
  let gwKey := mkOS GatewayGroup GatewayKind (dg_namespace gw) (dg_name gw) in
  default (GatewayIRFrom gw controllerName) (gatewaysForDeployer !! os_resource_name gwKey).

(** ** Privileged ports *)

Definition port_start : string := "net.ipv4.ip_unprivileged_port_start".

Definition usesPrivilegedPorts (ports : list HelmPort) : bool := existsb (λ p, (hp_port p <? 1024)%Z) ports.

Fixpoint update_sysctl (l : list Sysctl) : list Sysctl :=
  match l with
  | [] => [mkSysctl port_start "0"]
  | s :: l' => if String.eqb (sys_name s) port_start then mkSysctl (sys_name s) "0" :: l' else s :: update_sysctl l'
  end.
Definition empty_psc : PodSecurityContext Obj := mkPSC None None None None None None None None None None None.
Definition with_sysctls (c : PodSecurityContext Obj) (l : list Sysctl) : PodSecurityContext Obj :=
  mkPSC (psc_se c) (psc_win c) (psc_user c) (psc_group c) (psc_non_root c) (psc_groups c) (psc_fs_group c) (Some l)
    (psc_fs_policy c) (psc_seccomp c) (psc_apparmor c).
Definition with_security (p : Pod Obj) (c : PodSecurityContext Obj) : Pod Obj :=
  mkPod (po_labels p) (po_annotations p) (Some c) (po_pull_secrets p) (po_selector p) (po_affinity p) (po_tolerations p)
    (po_graceful p) (po_grace p) (po_startup p) (po_readiness p) (po_liveness p) (po_spread p) (po_volumes p) (po_priority p).
Definition with_pod (k : KubernetesProxyConfig Obj) (p : Pod Obj) : KubernetesProxyConfig Obj :=
  mkKube (k_deployment k) (k_envoy k) (k_sds k) (Some p) (k_service k) (k_account k) (k_istio k) (k_stats k) (k_omit k)
    (k_overlays k).

Definition allowPrivilegedPorts (cfg : KubernetesProxyConfig Obj) : KubernetesProxyConfig Obj :=
  let pod := default empty_pod (k_pod cfg) in
  let ctx := default empty_psc (po_security pod) in
  with_pod cfg (with_security pod (with_sysctls ctx (update_sysctl (default [] (psc_sysctls ctx))))).

Definition UpdateSecurityContexts (cfg : KubernetesProxyConfig Obj) (ports : list HelmPort) : KubernetesProxyConfig Obj :=
  if default false (k_omit cfg) then cfg
  else if usesPrivilegedPorts ports then allowPrivilegedPorts cfg else cfg.

(** ** Helm values *)

Record HelmImage := mkHImage {
  hi_registry : option string; hi_repository : option string; hi_tag : option string; hi_digest : option string;
  hi_pull : option string }.
Record HelmService := mkHSvc {
  hs_type : option string; hs_cluster_ip : option string; hs_lb_class : option string; hs_lb_ip : option string;
  hs_ranges : option (list string); hs_annotations : option (gmap string string); hs_labels : option (gmap string string);
  hs_traffic : option string }.
Record HelmServiceAccount := mkHSA { hsa_annotations : option (gmap string string); hsa_labels : option (gmap string string) }.
Record HelmXdsTls := mkHTls { ht_enabled : bool; ht_ca : string }.
Record HelmXds := mkHXds { hx_host : string; hx_port : Z; hx_tls : HelmXdsTls }.
Record HelmSdsContainer := mkHSds {
  hsd_image : HelmImage; hsd_resources : option (ResourceRequirements Obj); hsd_security : option (SecurityContext Obj);
  hsd_level : option string }.
Record HelmIstioContainer := mkHIstio {
  hic_image : HelmImage; hic_level : option string; hic_resources : option (ResourceRequirements Obj);
  hic_security : option (SecurityContext Obj); hic_discovery : option string; hic_mesh : option string; hic_cluster : option string }.
(** An empty list renders nothing. *)
Record HelmStatsMatcher := mkHSM { hsm_inclusion : list Obj; hsm_exclusion : list Obj }.
Record HelmStatsConfig := mkHStats {
  hst_enabled : option bool; hst_rewrite : option string; hst_route : option bool; hst_route_rewrite : option string;
  hst_matcher : option HelmStatsMatcher }.

(** The fields of [HelmGateway] that [ApplyKubernetesProxyConfigValues] sets. *)
Record HelmProxy := mkHProxy {
  hp_replicas : option Z; hp_strategy : option Obj; hp_service : HelmService; hp_account : HelmServiceAccount;
  hp_pod_annotations : option (gmap string string); hp_pod_labels : option (gmap string string);
  hp_pull_secrets : option (list Obj); hp_pod_security : option (PodSecurityContext Obj);
  hp_selector : option (gmap string string); hp_affinity : option (Affinity Obj); hp_tolerations : option (list Obj);
  hp_startup : option (Probe Obj); hp_readiness : option (Probe Obj); hp_liveness : option (Probe Obj);
  hp_graceful : option GracefulShutdownSpec; hp_grace : option Z; hp_spread : option (list Obj);
  hp_volumes : option (list Obj); hp_priority : option string; hp_data_plane : string; hp_log_format : option Obj;
  hp_log_level : option string; hp_component_levels : string; hp_dns : option (option Z); hp_proxy_protocol : option bool;
  hp_resources : option (ResourceRequirements Obj); hp_security : option (SecurityContext Obj); hp_image : HelmImage;
  hp_args : option (list string); hp_env : option (list Obj); hp_mounts : option (list Obj); hp_istio : bool;
  hp_sds : option HelmSdsContainer; hp_istio_container : option HelmIstioContainer; hp_stats : option HelmStatsConfig }.
(** [HelmGateway]: what comes from the Gateway and the control plane, and the above. *)
Record HelmGateway := mkHelm {
  hg_name : string; hg_gateway_name : string; hg_gateway_namespace : string; hg_gateway_class : string;
  hg_annotations : option (gmap string string); hg_labels : option (gmap string string); hg_fullname : string;
  hg_ports : list HelmPort; hg_xds : HelmXds; hg_proxy : option HelmProxy }.

Definition GetServiceValues (svcConfig : option Service) : HelmService :=
  mkHSvc (svcConfig ≫= sv_type) (svcConfig ≫= sv_cluster_ip) (svcConfig ≫= sv_lb_class) None (svcConfig ≫= sv_ranges)
    (svcConfig ≫= sv_annotations) (svcConfig ≫= sv_labels) (svcConfig ≫= sv_traffic).

Definition GetServiceAccountValues (config : option ServiceAccount) : HelmServiceAccount :=
  mkHSA (config ≫= sa_annotations) (config ≫= sa_labels).

Definition GetImageValues (image : option Image) : HelmImage :=
  mkHImage (image ≫= im_registry) (image ≫= im_repository) (image ≫= im_tag) (image ≫= im_digest) (image ≫= im_pull).

Definition GetSdsContainerValues (config : option (SdsContainer Obj)) : option HelmSdsContainer :=
  (λ c, mkHSds (GetImageValues (sd_image c)) (sd_resources c) (sd_security c) (sd_bootstrap c ≫= sb_level)) <$> config.

Definition GetIstioContainerValues (config : option (IstioContainer Obj)) : option HelmIstioContainer :=
  (λ c, mkHIstio (GetImageValues (ic_image c)) (ic_level c) (ic_resources c) (ic_security c) (ic_discovery c) (ic_mesh c)
          (ic_cluster c)) <$> config.

(** [GetIstioValues]: both branches of the code agree. *)
Definition GetIstioValues (istioIntegrationEnabled : bool) (istioConfig : option (IstioIntegration Obj)) : bool :=
  istioIntegrationEnabled.

Definition GetStatsValues (statsConfig : option (StatsConfig Obj)) : option HelmStatsConfig :=
  (λ c, mkHStats (st_enabled c) (st_rewrite c) (st_route c) (st_route_rewrite c)
     ((λ m, match sm_inclusion m, sm_exclusion m with
            | _ :: _, _ => mkHSM (sm_inclusion m) []
            | [], excl => mkHSM [] excl
            end) <$> st_matcher c)) <$> statsConfig.

(** [ComponentLogLevelsToString]; the entries of the map come in an order the code does not fix,
    so that of several empty entries any may be reported. *)
Fixpoint level_parts (l : list (string * string)) : error + list string :=
  match l with
  | [] => inr []
  | (k, v) :: l' =>
      if String.eqb k "" || String.eqb v ""
      then inl (EMsg ("an empty key or value was provided in componentLogLevels: key=" +:+ k +:+ ", value=" +:+ v))
      else match level_parts l' with inl e => inl e | inr ps => inr ((k +:+ ":" +:+ v) :: ps) end
  end.
Definition ComponentLogLevelsToString (vals : gmap string string) : error + string :=
  match level_parts (map_to_list vals) with
  | inl e => inl e
  | inr parts => inr (join "," (sort_stable String.compare parts))
  end.

Definition DataPlaneEnvoy : string := "envoy".

(** [ApplyKubernetesProxyConfigValues], for the ports of the Gateway.  The replicas are converted
    to 32 bits without a sign. *)
Definition ApplyKubernetesProxyConfigValues (ports : list HelmPort) (cfg : KubernetesProxyConfig Obj) (istioAutoMtlsEnabled : bool) :
    error + HelmProxy :=
  let cfg := UpdateSecurityContexts cfg ports in
  let pod := k_pod cfg in
  let envoy := k_envoy cfg in
  match ComponentLogLevelsToString (default ∅ (envoy ≫= ec_bootstrap ▷ eb_components)) with
  | inl e => inl e
  | inr compLogLevelStr =>
      inr (mkHProxy ((λ z, z mod 2 ^ 32)%Z <$> (k_deployment cfg ≫= dp_replicas)) (k_deployment cfg ≫= dp_strategy)
             (GetServiceValues (k_service cfg)) (GetServiceAccountValues (k_account cfg))
             (pod ≫= po_annotations) (pod ≫= po_labels) (pod ≫= po_pull_secrets) (pod ≫= po_security) (pod ≫= po_selector) (pod ≫= po_affinity)
             (pod ≫= po_tolerations) (pod ≫= po_startup) (pod ≫= po_readiness) (pod ≫= po_liveness) (pod ≫= po_graceful) (pod ≫= po_grace)
             (pod ≫= po_spread) (pod ≫= po_volumes) (pod ≫= po_priority) DataPlaneEnvoy (envoy ≫= ec_bootstrap ▷ eb_format)
             (envoy ≫= ec_bootstrap ▷ eb_level) compLogLevelStr
             ((λ d, q ← dn_max_queries d; if bool_decide (0 < q)%Z then Some q else None) <$> (envoy ≫= ec_bootstrap ▷ eb_dns))
             (envoy ≫= ec_bootstrap ▷ eb_proxy_protocol) (envoy ≫= ec_resources) (envoy ≫= ec_security)
             (GetImageValues (envoy ≫= ec_image)) (envoy ≫= ec_args) (envoy ≫= ec_env) (envoy ≫= ec_mounts)
             (GetIstioValues istioAutoMtlsEnabled (k_istio cfg)) (GetSdsContainerValues (k_sds cfg))
             (GetIstioContainerValues (k_istio cfg ≫= ii_proxy)) (GetStatsValues (k_stats cfg)))
  end.

(** ** Load balancer addresses *)

Definition ErrNoValidIPAddress : error := EMsg "IP address in Gateway.spec.addresses not valid".
Definition IPAddressType : string := "IPAddress".

Definition GetLoadBalancerIPFromGatewayAddresses (gw : DeployedGateway) : error + option string :=
  let ipAddresses := omap (λ a : option string * string,
      match a.1 with None => Some a.2 | Some t => if String.eqb t IPAddressType then Some a.2 else None end) (dg_addresses gw) in
  match ipAddresses with
  | [] => match dg_addresses gw with [] => inr None | _ => inl ErrNoValidIPAddress end
  | [addr] => if ParseAddr addr then inr (Some addr) else inl ErrNoValidIPAddress
  | _ => inl (EMsg ("multiple addresses given, only one address is supported: gateway " +:+ dg_namespace gw +:+ "/" +:+
                    dg_name gw +:+ " has " +:+ pretty (length (dg_addresses gw)) +:+ " addresses"))
  end.

Definition SetLoadBalancerIPFromGateway (gw : DeployedGateway) (svc : HelmService) : error + HelmService :=
  if negb (bool_decide (hs_type svc = Some "LoadBalancer")) then inr svc
  else match GetLoadBalancerIPFromGatewayAddresses gw with
       | inl e => inl e
       | inr None => inr svc
       | inr (Some ip) => inr (mkHSvc (hs_type svc) (hs_cluster_ip svc) (hs_lb_class svc) (Some ip) (hs_ranges svc)
                                 (hs_annotations svc) (hs_labels svc) (hs_traffic svc))
       end.

(** ** The values of a Gateway *)

Definition translateInfraMeta (meta : gmap string string) : gmap string string :=
  filter (λ kv, has_prefix kv.1 "gateway.networking.k8s.io/" = false) meta.

(** A file of the control plane: missing, unreadable, or its contents. *)
Inductive FileState := Missing | Unreadable | Contents (s : string).

Definition injectXdsCACertificate (file : string → FileState) (caCertPath : string) (xds : HelmXds) : error + HelmXds :=
  match file caCertPath with
  | Missing => inl (EMsg ("xDS TLS is enabled but CA certificate file not found at " +:+ caCertPath +:+
      ". Ensure the xDS TLS secret is properly mounted and contains ca.crt"))
  | Unreadable => inl (EMsg ("failed to read CA certificate from " +:+ caCertPath))
  | Contents s => if String.eqb s "" then inl (EMsg ("CA certificate at " +:+ caCertPath +:+ " is empty"))
                  else inr (mkHXds (hx_host xds) (hx_port xds) (mkHTls (ht_enabled (hx_tls xds)) s))
  end.

Definition ErrNoValidPorts : error := EMsg "no valid ports".

Definition with_service (p : HelmProxy) (s : HelmService) : HelmProxy :=
  mkHProxy (hp_replicas p) (hp_strategy p) s (hp_account p) (hp_pod_annotations p) (hp_pod_labels p) (hp_pull_secrets p)
    (hp_pod_security p) (hp_selector p) (hp_affinity p) (hp_tolerations p) (hp_startup p) (hp_readiness p) (hp_liveness p)
    (hp_graceful p) (hp_grace p) (hp_spread p) (hp_volumes p) (hp_priority p) (hp_data_plane p) (hp_log_format p)
    (hp_log_level p) (hp_component_levels p) (hp_dns p) (hp_proxy_protocol p) (hp_resources p) (hp_security p) (hp_image p)
    (hp_args p) (hp_env p) (hp_mounts p) (hp_istio p) (hp_sds p) (hp_istio_container p) (hp_stats p).

Inductive HelmOutcome := Panics | Fails (e : error) | SelfManagedGateway | Values (h : HelmGateway).

Definition xds_values (file : string → FileState) (i : Inputs) : error + HelmXds :=
  let cp := inp_control_plane i in
  let xds := mkHXds (cp_host cp) (cp_port cp) (mkHTls (cp_tls cp) (cp_ca_path cp)) in
  if cp_tls cp then
    match injectXdsCACertificate file (cp_ca_path cp) xds with
    | inl e => inl (EWrap "failed to inject xDS CA certificate" e)
    | inr xds => inr xds
    end
  else inr xds.

(** [getValues].  Without an Envoy container the code dereferences a nil pointer: [Panics]. *)
Definition getValues (file : string → FileState) (i : Inputs) (irGW : GatewayForDeployer) (gw : DeployedGateway)
    (gwParam : option (GatewayParameters Obj)) : HelmOutcome :=
  match GetPortsValues irGW gwParam with
  | [] => Fails ErrNoValidPorts
  | ports =>
      match xds_values file i with
      | inl e => Fails e
      | inr xds =>
          let vals := mkHelm (dg_name gw) (dg_name gw) (dg_namespace gw) (dg_class gw)
            (translateInfraMeta ∘ in_annotations <$> dg_infra gw) (translateInfraMeta ∘ in_labels <$> dg_infra gw)
            (dg_name gw) ports xds in
          match gwParam with
          | None => Values (vals None)
          | Some gwp =>
              match gp_kube gwp with
              | None => Panics
              | Some cfg =>
                  match ApplyKubernetesProxyConfigValues ports cfg (inp_auto_mtls i) with
                  | inl e => Fails e
                  | inr proxy =>
                      if bool_decide (k_envoy cfg = None) then Panics
                      else match SetLoadBalancerIPFromGateway gw (hp_service proxy) with
                           | inl e => Fails e
                           | inr svc => Values (vals (Some (with_service proxy svc)))
                           end
                  end
              end
          end
      end
  end.

(** [GetValues] of [kgatewayParameters], before the conversion to JSON. *)
Definition GetValues (file : string → FileState) (i : Inputs) (c : Clients) (gateways : gmap string GatewayForDeployer)
    (controllerName : string) (gw : DeployedGateway) : HelmOutcome :=
  match getGatewayParametersForGateway i c gw with
  | inl e => Fails e
  | inr gwParam =>
      match gp_self_managed gwParam with
      | Some _ => SelfManagedGateway
      | None => getValues file i (DefaultGatewayIRGetter gateways controllerName gw) gw (Some gwParam)
      end
  end.
End values.

(** ** Lemmas: resolution *)

Section lemmas.
Context {Obj : Type}.

(** The parameters that the class and the Gateway name. *)
Definition class_level (c : @Clients Obj) (gwc : DeployedClass) : option (GatewayParameters Obj) :=
  ref ← dc_params gwc; get_params c (prr_name ref) (str_or (prr_namespace ref) "").
Definition gateway_level (c : @Clients Obj) (gw : DeployedGateway) : option (GatewayParameters Obj) :=
  ref ← dg_infra gw ≫= in_params; get_params c (lpr_name ref) (dg_namespace gw).

(** The built-in level: security contexts are omitted when either level says so. *)
Definition built_in_level (i : Inputs) (c : @Clients Obj) (gw : DeployedGateway) (gwc : DeployedClass) : GatewayParameters Obj :=
  GetInMemoryGatewayParameters (dc_name gwc) (inp_waypoint_class i) (inp_image i)
    (default false (omits <$> gateway_level c gw) || default false (omits <$> class_level c gwc)).

Lemma default_level i c gw omit (gwp : GatewayParameters Obj) :
  getDefaultGatewayParametersWithFlag i c gw omit = inr gwp →
  ∃ gwc, cl_classes c !! dg_class gw = Some gwc ∧
    gwp = DeepMergeGatewayParameters
            (GetInMemoryGatewayParameters (dc_name gwc) (inp_waypoint_class i) (inp_image i)
               (omit || default false (omits <$> class_level c gwc))) (class_level c gwc).
Proof.
  unfold getDefaultGatewayParametersWithFlag, getGatewayClassFromGateway, class_level, resolveGatewayClassParameters.
  destruct (String.eqb (dg_class gw) ""); [done|]. destruct (cl_classes c !! _) as [gwc|]; [|done].
  intros H. exists gwc. split; [done|]. destruct (dc_params gwc) as [ref|]; simpl in *.
  - destruct (String.eqb (prr_name ref) ""); [done|]. destruct (get_params c _ _) as [p|]; simpl in *; by simplify_eq.
  - simplify_eq. by rewrite orb_false_r.
Qed.

Lemma resolved_levels i c gw (gwp : GatewayParameters Obj) :
  getGatewayParametersForGateway i c gw = inr gwp →
  ∃ gwc, cl_classes c !! dg_class gw = Some gwc ∧
    gwp = DeepMergeGatewayParameters
            (DeepMergeGatewayParameters (built_in_level i c gw gwc) (class_level c gwc)) (gateway_level c gw).
Proof.
  unfold getGatewayParametersForGateway, built_in_level, gateway_level.
  destruct (dg_infra gw ≫= in_params) as [ref|]; simpl; [|by apply default_level].
  destruct (negb _); [done|]. destruct (negb _); [done|]. destruct (get_params c _ _) as [p|]; [|done].
  destruct (getDefaultGatewayParametersWithFlag _ _ _ _) as [|d] eqn:Hd; [done|]. intros H. simplify_eq.
  apply default_level in Hd as (gwc & Hc & ->). by exists gwc.
Qed.

Lemma merge_setting (d : GatewayParameters Obj) s k B (g : KubernetesProxyConfig Obj → option B) :
  kube_setting B g → gp_kube (DeepMergeGatewayParameters d s) = Some k →
  ∃ dk, gp_kube d = Some dk ∧ g k = (s ≫= gp_kube ▷ g) ∪ g dk.
Proof.
  intros Hg. unfold DeepMergeGatewayParameters, path. destruct s as [[sk [|]]|]; simpl; intros H; simplify_eq.
  - destruct sk as [sk|]; simpl; [|exists k; by destruct (g k)].
    destruct (gp_kube d) as [dk|] eqn:Hd; simpl in *; [|congruence]. simplify_eq. exists dk. split; [done|].
    rewrite (kube_setting_overrides B g Hg). by destruct (g sk), (g dk).
  - exists k. by destruct (g k).
Qed.

Lemma merge_self_managed (d : GatewayParameters Obj) s :
  gp_self_managed (DeepMergeGatewayParameters d s) = (s ≫= gp_self_managed) ∪ gp_self_managed d.
Proof.
  unfold DeepMergeGatewayParameters. destruct s as [[[sk|] [[]|]]|]; simpl; try by destruct (gp_self_managed d).
  destruct (gp_kube d); simpl; by destruct (gp_self_managed d).
Qed.

(** Parameters that can be rendered. *)
Definition complete (g : GatewayParameters Obj) : Prop :=
  gp_self_managed g = None → ∃ k e, gp_kube g = Some k ∧ k_envoy k = Some e.

Lemma merge_complete d s : complete d → complete (DeepMergeGatewayParameters d s).
Proof.
  intros Hd H. rewrite merge_self_managed in H. unfold DeepMergeGatewayParameters.
  destruct (gp_self_managed d) eqn:Hs; [by destruct s as [[sk [|]]|]|].
  destruct s as [[sk [|]]|]; simpl in *; [by destruct u| |by apply Hd]. destruct (Hd Hs) as (k & e & Hk & He). rewrite Hk.
  destruct sk as [sk|]; simpl; [|by exists k, e].
  unfold merge_kube, deepMergeEnvoyContainer. rewrite He. destruct (k_envoy sk); simpl; eauto.
Qed.

Lemma built_in_complete i c gw gwc : complete (built_in_level i c gw gwc).
Proof. unfold built_in_level, GetInMemoryGatewayParameters. destruct (String.eqb _ _); intros _; simpl; eauto. Qed.

Lemma resolved_complete i c gw gwp : getGatewayParametersForGateway i c gw = inr gwp → complete gwp.
Proof. intros (gwc & _ & ->)%resolved_levels. apply merge_complete, merge_complete, built_in_complete. Qed.

Lemma built_in_managed i c gw gwc : gp_self_managed (built_in_level i c gw gwc) = None.
Proof. unfold built_in_level, GetInMemoryGatewayParameters. by destruct (String.eqb _ _). Qed.
End lemmas.

(** ** Lemmas: ports *)

Lemma replace_runs_id other run s : str_forall (λ a, negb (other a)) s = true → replace_runs other run s = s.
Proof.
  revert run. induction s as [|a s IH]; intros run; [done|]. simpl. intros [Ha Hs]%andb_true_iff.
  apply negb_true_iff in Ha as ->. by rewrite IH.
Qed.

Lemma substring_all n s : (String.length s ≤ n)%nat → String.substring 0 n s = s.
Proof. revert n. induction s as [|a s IH]; intros [|n] H; simpl in *; [done|done|lia|]. by rewrite IH by lia. Qed.

Lemma str_forall_impl (f g : Ascii.ascii → bool) s :
  (∀ a, f a = true → g a = true) → str_forall f s = true → str_forall g s = true.
Proof.
  intros Hi. induction s as [|a s IH]; [done|]. simpl. intros [Ha Hs]%andb_true_iff. by rewrite Hi, IH.
Qed.

Definition is_decimal (a : Ascii.ascii) : bool := bool_decide (is_Some (digit a)).

Lemma pretty_N_char_decimal x : is_decimal (pretty_N_char x) = true.
Proof. unfold pretty_N_char. by repeat case_match. Qed.

Lemma pretty_N_go_decimal x s : str_forall is_decimal s = true → str_forall is_decimal (pretty_N_go x s) = true.
Proof.
  revert s. induction (N.lt_wf_0 x) as [x _ IH]; intros s Hs.
  assert (x = 0 ∨ 0 < x)%N as [->|Hx] by lia; [by rewrite pretty_N_go_0|].
  rewrite pretty_N_go_step by done. apply IH; [by apply N.div_lt|].
  simpl. by rewrite pretty_N_char_decimal, Hs.
Qed.

Lemma pretty_N_go_length n x s : (x < 10 ^ N.of_nat n)%N → (String.length (pretty_N_go x s) ≤ n + String.length s)%nat.
Proof.
  revert x s. induction n as [|n IH]; intros x s Hx.
  - assert (x = 0%N) as -> by (simpl in Hx; lia). by rewrite pretty_N_go_0.
  - assert (x = 0 ∨ 0 < x)%N as [->|Hp] by lia; [rewrite pretty_N_go_0; lia|].
    rewrite pretty_N_go_step by done. etrans; [apply IH|simpl; lia].
    apply N.Div0.div_lt_upper_bound. rewrite Nat2N.inj_succ, N.pow_succ_r' in Hx. lia.
Qed.

(** The decimal form of a port. *)
Lemma pretty_port z :
  (0 <= z < 1000000)%Z → str_forall is_decimal (pretty z) = true ∧ (String.length (pretty z) ≤ 6)%nat.
Proof.
  intros Hz. destruct z as [|p|p]; [|change (pretty (Z.pos p)) with (pretty (N.pos p)); unfold pretty, pretty_N|lia].
  - split; [done|]. vm_compute. lia.
  - case_decide; [done|]. split; [by apply pretty_N_go_decimal|].
    apply (pretty_N_go_length 6). simpl. lia.
Qed.

Lemma decimal_not_dash a : is_decimal a = true → negb (Ascii.eqb a "-"%char) = true ∧ alnum_dash a = true.
Proof.
  unfold is_decimal, digit, alnum_dash. intros H%bool_decide_eq_true. destruct H as [x H].
  case_bool_decide as Hn; [|done]. split.
  - apply negb_true_iff, Ascii.eqb_neq. intros ->. by destruct Hn as [Hn%Z.leb_le _].
  - rewrite (bool_decide_eq_true_2 (48 ≤ Ascii.nat_of_ascii a ≤ 57)%nat) by lia. by rewrite orb_true_r.
Qed.

Lemma port_name z :
  (0 <= z < 1000000)%Z → SanitizePortName (GenerateListenerNameFromPort z) = "listener-" +:+ pretty z.
Proof.
  intros Hz. destruct (pretty_port z Hz) as [Hd Hl]. unfold SanitizePortName, GenerateListenerNameFromPort.
  set (other := λ a, negb (alnum_dash a)).
  assert (replace_runs other false ("listener~" +:+ pretty z) = "listener-" +:+ pretty z) as ->.
  { rewrite !str_app_cons, !str_app_nil_l. simpl. do 9 f_equal. apply replace_runs_id.
    apply (str_forall_impl is_decimal); [|done]. intros a Ha. unfold other. rewrite negb_involutive. by apply decimal_not_dash. }
  assert (replace_runs (λ a, Ascii.eqb a "-"%char) false ("listener-" +:+ pretty z) = "listener-" +:+ pretty z) as ->.
  { rewrite !str_app_cons, !str_app_nil_l. simpl. do 9 f_equal. apply replace_runs_id.
    apply (str_forall_impl is_decimal); [|done]. intros a Ha. by apply decimal_not_dash. }
  apply substring_all. rewrite str_length_app. simpl. unfold maxPortNameLength. lia.
Qed.

Section ports.
Context {Obj : Type}.
Implicit Types gwp : option (GatewayParameters Obj).

(** The port numbers, in the order in which they are added. *)
Definition wanted_ports (gw : GatewayForDeployer) gwp : list Z :=
  filter (λ p, ListenerPort p = None) (port_list (gfd_ports gw)) ++
  map pt_port (default [] (gwp ≫= gp_kube ▷ k_service ▷ sv_ports)).
Definition add_port gwp (acc : list HelmPort) (port : Z) : list HelmPort :=
  AppendPortValue acc port (GenerateListenerNameFromPort port) gwp.

Lemma ports_values_fold gw gwp : GetPortsValues gw gwp = foldl (add_port gwp) [] (wanted_ports gw gwp).
Proof.
  unfold GetPortsValues, wanted_ports. rewrite foldl_app.
  assert (∀ l acc, foldl (λ acc p, AppendPortValue acc (pt_port p) (GenerateListenerNameFromPort (pt_port p)) gwp) acc l =
    foldl (add_port gwp) acc (map pt_port l)) as ->.
  { intros l. induction l as [|p l IH]; intros acc; [done|]. apply IH. }
  f_equal. generalize (@nil HelmPort). induction (port_list (gfd_ports gw)) as [|p l IH]; intros acc; [done|]. simpl.
  rewrite filter_cons. destruct (ListenerPort p); simpl; apply IH.
Qed.

(** A rendered port: its name and node port follow from its number. *)
Definition rendered gwp (p : HelmPort) : Prop :=
  p = mkHP (hp_port p) "TCP" (SanitizePortName (GenerateListenerNameFromPort (hp_port p))) (hp_port p) (node_port gwp (hp_port p)).

Lemma add_ports_spec gwp l acc :
  NoDup (map hp_port acc) → Forall (rendered gwp) acc →
  NoDup (map hp_port (foldl (add_port gwp) acc l)) ∧ Forall (rendered gwp) (foldl (add_port gwp) acc l) ∧
  ∀ z, z ∈ map hp_port (foldl (add_port gwp) acc l) ↔ z ∈ map hp_port acc ∨ z ∈ l.
Proof.
  revert acc. induction l as [|z l IH]; intros acc Hn Hr; simpl.
  { split_and!; [done..|]. intros z. set_solver. }
  unfold add_port at 2 4 6. unfold AppendPortValue. case_bool_decide as Hin.
  - destruct (IH acc Hn Hr) as (? & ? & He). split_and!; [done..|]. intros y. rewrite He. set_solver.
  - set (acc' := acc ++ _). assert (map hp_port acc' = map hp_port acc ++ [z]) as Hm by (unfold acc'; by rewrite map_app).
    destruct (IH acc') as (? & ? & He); [|apply Forall_app; split; [done|by apply Forall_singleton]|].
    { rewrite Hm. apply NoDup_app. split_and!; [done| |apply NoDup_singleton]. intros y Hy ->%list_elem_of_singleton. done. }
    split_and!; [done..|]. intros y. rewrite He, Hm. set_solver.
Qed.

Lemma ports_values_spec gw gwp :
  NoDup (map hp_port (GetPortsValues gw gwp)) ∧ Forall (rendered gwp) (GetPortsValues gw gwp) ∧
  ∀ z, z ∈ map hp_port (GetPortsValues gw gwp) ↔ z ∈ wanted_ports gw gwp.
Proof.
  rewrite ports_values_fold. destruct (add_ports_spec gwp (wanted_ports gw gwp) []) as (? & ? & He);
    [by apply NoDup_nil|done|]. split_and!; [done..|]. intros z. rewrite He. set_solver.
Qed.

Lemma wanted_ports_spec gw gwp z :
  z ∈ wanted_ports gw gwp ↔
  (z ∈ gfd_ports gw ∧ z ∉ staticReservedPorts) ∨
  ∃ p, p ∈ default [] (gwp ≫= gp_kube ▷ k_service ▷ sv_ports) ∧ z = pt_port p.
Proof.
  unfold wanted_ports. rewrite elem_of_app, list_elem_of_filter, list_elem_of_fmap. unfold port_list.
  rewrite sort_stable_elem_of, elem_of_elements. unfold ListenerPort. case_bool_decide; naive_solver.
Qed.

Lemma port_names_distinct gw gwp :
  (∀ z, z ∈ wanted_ports gw gwp → (0 <= z < 1000000)%Z) →
  NoDup (map hp_name (GetPortsValues gw gwp)) ∧
  Forall (λ p, hp_name p = "listener-" +:+ pretty (hp_port p) ∧ (String.length (hp_name p) ≤ maxPortNameLength)%nat)
    (GetPortsValues gw gwp).
Proof.
  destruct (ports_values_spec gw gwp) as (Hn & Hr & He). intros Hz.
  assert (Forall (λ p, hp_name p = "listener-" +:+ pretty (hp_port p) ∧ (String.length (hp_name p) ≤ maxPortNameLength)%nat)
    (GetPortsValues gw gwp)) as Hf.
  { apply Forall_forall. intros p Hp. pose proof Hr as Hr'. rewrite Forall_forall in Hr'. specialize (Hr' p Hp). red in Hr'.
    assert (0 <= hp_port p < 1000000)%Z as Hb by (apply Hz, He; by apply list_elem_of_fmap_2).
    assert (hp_name p = "listener-" +:+ pretty (hp_port p)) as Hname by (rewrite Hr'; by apply port_name).
    split; [done|]. rewrite Hname, str_length_app. destruct (pretty_port _ Hb). simpl. unfold maxPortNameLength. lia. }
  split; [|done]. assert (map hp_name (GetPortsValues gw gwp) =
    map (λ z : Z, "listener-" +:+ pretty z) (map hp_port (GetPortsValues gw gwp))) as ->.
  { rewrite map_map. apply map_ext_in. intros p Hp%list_elem_of_In. rewrite Forall_forall in Hf. by apply Hf. }
  apply (NoDup_fmap_2_strong (λ z : Z, "listener-" +:+ pretty z)); [|done]. intros x y _ _ H.
  apply (inj (String.append "listener-")) in H. by apply (inj pretty).
Qed.
End ports.

(** ** Lemmas: system controls *)

(** The first entry of the name is 0; further ones and all other entries stay. *)
Lemma update_sysctl_spec l :
  filter (λ s, sys_name s = port_start) (update_sysctl l) =
    mkSysctl port_start "0" :: tail (filter (λ s, sys_name s = port_start) l) ∧
  filter (λ s, sys_name s ≠ port_start) (update_sysctl l) = filter (λ s, sys_name s ≠ port_start) l.
Proof.
  induction l as [|s l [IH1 IH2]]; [done|]. cbn [update_sysctl].
  destruct (String.eqb_spec (sys_name s) port_start) as [He|Hne].
  - rewrite He, !filter_cons. simpl. rewrite !He. by repeat (case_decide; try done).
  - rewrite !filter_cons. repeat (case_decide; try done). rewrite IH1, IH2. done.
Qed.

Section theorems.
Context {Obj : Type}.

(** The values of [sysctl] entries for privileged ports. *)
Definition port_starts (c : option (PodSecurityContext Obj)) : list string :=
  map sys_value (filter (λ s, sys_name s = port_start) (default [] (c ≫= psc_sysctls))).

Lemma updated_port_starts (k : KubernetesProxyConfig Obj) ports :
  usesPrivilegedPorts ports = true → default false (k_omit k) = false →
  port_starts (k_pod (UpdateSecurityContexts k ports) ≫= po_security) = "0" :: tail (port_starts (k_pod k ≫= po_security)).
Proof.
  intros Hu Ho. unfold UpdateSecurityContexts, port_starts. rewrite Ho, Hu. simpl.
  set (ctx := default empty_psc (po_security (default empty_pod (k_pod k)))).
  rewrite (proj1 (update_sysctl_spec _)). simpl. f_equal.
  assert (psc_sysctls ctx = (k_pod k ≫= po_security) ≫= psc_sysctls) as ->; [|by destruct (filter _ _)].
  unfold ctx. destruct (k_pod k) as [p|]; [|done]. simpl. by destruct (po_security p).
Qed.

Lemma getValues_inv file i irGW gw (gwp : GatewayParameters Obj) h :
  getValues file i irGW gw (Some gwp) = Values h →
  ∃ k proxy, gp_kube gwp = Some k ∧ hg_ports h = GetPortsValues irGW (Some gwp) ∧ hg_ports h ≠ [] ∧
    ApplyKubernetesProxyConfigValues (hg_ports h) k (inp_auto_mtls i) = inr proxy ∧
    ∃ svc, SetLoadBalancerIPFromGateway gw (hp_service proxy) = inr svc ∧ hg_proxy h = Some (with_service proxy svc).
Proof.
  unfold getValues. destruct (GetPortsValues irGW (Some gwp)) as [|p ps] eqn:Hp; [done|].
  destruct (xds_values file i); [done|]. destruct (gp_kube gwp) as [k|]; [|done].
  destruct (ApplyKubernetesProxyConfigValues _ k _) as [|proxy] eqn:Ha; [done|]. case_bool_decide; [done|].
  destruct (SetLoadBalancerIPFromGateway gw _) as [|svc] eqn:Hs; [done|]. intros [= <-]. simpl. naive_solver.
Qed.

Lemma getValues_no_panic file i irGW gw (gwp : GatewayParameters Obj) :
  gp_self_managed gwp = None → complete gwp →
  getValues file i irGW gw (Some gwp) ≠ Panics ∧ getValues file i irGW gw (Some gwp) ≠ SelfManagedGateway.
Proof.
  intros Hs Hc. destruct (Hc Hs) as (k & e & Hk & He). unfold getValues. rewrite Hk.
  destruct (GetPortsValues irGW (Some gwp)); [done|]. destruct (xds_values file i); [done|].
  destruct (ApplyKubernetesProxyConfigValues _ k _); [done|]. rewrite bool_decide_eq_false_2 by congruence.
  by destruct (SetLoadBalancerIPFromGateway gw _).
Qed.

Lemma GetValues_defined file i (c : @Clients Obj) gateways controller gw : GetValues file i c gateways controller gw ≠ Panics.
Proof.
  unfold GetValues. destruct (getGatewayParametersForGateway i c gw) as [e|gwp] eqn:Hr; [done|].
  destruct (gp_self_managed gwp) eqn:Hm; [done|]. apply resolved_complete in Hr. by apply getValues_no_panic.
Qed.

(** ** Theorems *)

(** C19: layering.  Each of the settings that [kube_setting] lists (replicas and update strategy, log
    settings, image registry, repository and pull policy, service type, addresses and class, grace
    periods and priority of the pod, Istio and stats settings, and the scalar security settings of pod
    and containers) has, in the parameters a proxy is deployed with, the value of the
    Gateway's own parameters; where those leave it unset, the one of the GatewayClass; and else
    the built-in default.  Image tags and digests, AppArmor profiles, probe actions, and settings that are
    lists or maps are not claimed. *)
Theorem deployed_settings_layered i c gw (gwp : GatewayParameters Obj) k B (g : KubernetesProxyConfig Obj → option B) :
  kube_setting B g → getGatewayParametersForGateway i c gw = inr gwp → gp_kube gwp = Some k →
  ∃ gwc dk, cl_classes c !! dg_class gw = Some gwc ∧ gp_kube (built_in_level i c gw gwc) = Some dk ∧
    g k = (gateway_level c gw ≫= gp_kube ▷ g) ∪ ((class_level c gwc ≫= gp_kube ▷ g) ∪ g dk).
Proof.
  intros Hg (gwc & Hc & ->)%resolved_levels Hk.
  apply (merge_setting _ _ _ _ _ Hg) in Hk as (k1 & Hk1 & ->).
  apply (merge_setting _ _ _ _ _ Hg) in Hk1 as (k0 & Hk0 & ->). by exists gwc, k0.
Qed.

(** The outcome.  Rendering the values of a Gateway never dereferences a missing level, and a
    proxy is left to its owner exactly when the Gateway's parameters or those of its class ask
    for it; the class's request cannot be revoked by the Gateway. *)
Theorem values_outcome file i (c : @Clients Obj) gateways controller gw :
  GetValues file i c gateways controller gw ≠ Panics ∧
  ((∃ e, getGatewayParametersForGateway i c gw = inl e ∧ GetValues file i c gateways controller gw = Fails e) ∨
   ∃ gwc, cl_classes c !! dg_class gw = Some gwc ∧
     (GetValues file i c gateways controller gw = SelfManagedGateway ↔
      is_Some (gateway_level c gw ≫= gp_self_managed) ∨ is_Some (class_level c gwc ≫= gp_self_managed))).
Proof.
  split; [apply GetValues_defined|]. unfold GetValues.
  destruct (getGatewayParametersForGateway i c gw) as [e|gwp] eqn:Hr; [left; by exists e|]. right.
  pose proof (resolved_complete _ _ _ _ Hr) as Hcomp. apply resolved_levels in Hr as (gwc & Hc & Hgwp).
  exists gwc. split; [done|]. assert (gp_self_managed gwp = (gateway_level c gw ≫= gp_self_managed) ∪ ((class_level c gwc ≫= gp_self_managed) ∪ None)) as Hs.
  { by rewrite Hgwp, !merge_self_managed, built_in_managed. }
  destruct (gp_self_managed gwp) as [u|] eqn:Hm.
  - split; [intros _|done]. destruct (gateway_level c gw ≫= gp_self_managed); [by left|]. destruct (class_level c gwc ≫= gp_self_managed); [by right|done].
  - destruct (getValues_no_panic file i (DefaultGatewayIRGetter gateways controller gw) gw gwp Hm Hcomp) as [_ Hq].
    split; [done|]. destruct (gateway_level c gw ≫= gp_self_managed), (class_level c gwc ≫= gp_self_managed); try done. by intros [[]|[]].
Qed.

(** C20: ports.  The ports of a rendered proxy are pairwise distinct, there is at least one, and
    they are exactly the ports of the service parameters and those ports of listeners that are not
    reserved, where the listeners are all those the deployer sees: of the Gateway and of every
    ListenerSet that names it, also of one the Gateway does not admit ([denied_ports_exposed]).
    With port numbers below a million, as the API admits, each is named after its number within
    the 15 bytes Kubernetes allows, and no two names agree.  When one of them is privileged and
    the parameters do not omit the default security contexts, the pod may bind it: the first
    entry of the system control is 0, and it is the only one unless the parameters repeat it. *)
Theorem rendered_ports_usable file i (c : @Clients Obj) gateways controller gw h :
  GetValues file i c gateways controller gw = Values h →
  ∃ gwp k proxy, getGatewayParametersForGateway i c gw = inr gwp ∧ gp_kube gwp = Some k ∧ hg_proxy h = Some proxy ∧
    hg_ports h ≠ [] ∧ NoDup (map hp_port (hg_ports h)) ∧
    (∀ z, z ∈ map hp_port (hg_ports h) ↔
       (z ∈ gfd_ports (DefaultGatewayIRGetter gateways controller gw) ∧ z ∉ staticReservedPorts) ∨
       ∃ p, p ∈ default [] (k_service k ≫= sv_ports) ∧ z = pt_port p) ∧
    ((∀ z, z ∈ map hp_port (hg_ports h) → (0 <= z < 1000000)%Z) →
     NoDup (map hp_name (hg_ports h)) ∧
     Forall (λ p, hp_name p = "listener-" +:+ pretty (hp_port p) ∧ (String.length (hp_name p) ≤ maxPortNameLength)%nat)
       (hg_ports h)) ∧
    ((∃ z, z ∈ map hp_port (hg_ports h) ∧ (z < 1024)%Z) → default false (k_omit k) = false →
     port_starts (hp_pod_security proxy) = "0" :: tail (port_starts (k_pod k ≫= po_security))).
Proof.
  unfold GetValues. destruct (getGatewayParametersForGateway i c gw) as [|gwp] eqn:Hr; [done|].
  destruct (gp_self_managed gwp); [done|]. set (ir := DefaultGatewayIRGetter gateways controller gw).
  intros (k & proxy & Hk & Hports & Hne & Ha & svc & Hsvc & Hproxy)%getValues_inv.
  destruct (ports_values_spec ir (Some gwp)) as (Hn & _ & He).
  exists gwp, k, (with_service proxy svc). rewrite Hports in *. split_and!; try done.
  - intros z. rewrite He, wanted_ports_spec. simpl. unfold path. by rewrite Hk.
  - intros Hz. apply port_names_distinct. intros z Hin. by apply Hz, He.
  - intros (z & Hz & Hlt) Ho. unfold ApplyKubernetesProxyConfigValues in Ha. destruct (ComponentLogLevelsToString _); [done|].
    injection Ha as <-. simpl. apply updated_port_starts; [|done]. apply existsb_exists.
    apply list_elem_of_fmap in Hz as (p & -> & Hp%list_elem_of_In). exists p. split; [done|]. by apply Z.ltb_lt.
Qed.

(** ** Findings *)

(** The reference of a class is followed whatever its group and kind are, although overlays (and
    the references of Gateways) require them. *)
Theorem class_reference_kind_ignored (c : @Clients Obj) gwc name ns (gwp : GatewayParameters Obj) g k :
  name ≠ "" → get_params c name ns = Some gwp → String.eqb g GroupName = false →
  resolveGatewayClassParameters c gwc (mkPR g k name (Some ns)) = inr gwp ∧
  ∀ gw, cl_classes c !! dg_class gw = Some (mkDC (dc_name gwc) (dc_controller gwc) (Some (mkPR g k name (Some ns)))) →
    (resolveParametersForOverlays c gw).1 = None.
Proof.
  intros Hn Hp Hg. split.
  - unfold resolveGatewayClassParameters. simpl. rewrite (proj2 (String.eqb_neq _ _) Hn). by rewrite Hp.
  - intros gw Hc. unfold resolveParametersForOverlays. simpl. rewrite Hc. simpl. by rewrite Hg.
Qed.

(** A Gateway that asks for the default security contexts does not get them back when its class
    omits them, although the merged parameters say they are not omitted. *)
Theorem omitted_contexts_not_restored i (c : @Clients Obj) gw gwc p q kp kq :
  class_level c gwc = Some p → gp_kube p = Some kp → k_omit kp = Some true → gateway_level c gw = Some q →
  gp_kube q = Some kq → k_omit kq = Some false →
  (gp_kube (built_in_level i c gw gwc) ≫= k_envoy ▷ ec_security) = None.
Proof.
  intros Hp Hkp Ho Hq Hkq Hoq. unfold built_in_level, omits. rewrite Hp, Hq. simpl. rewrite Hkp, Hkq. simpl. rewrite Ho, Hoq. simpl.
  unfold GetInMemoryGatewayParameters. by destruct (String.eqb _ _).
Qed.
End theorems.

(** ** Examples and witnesses *)

Example addresses :
  map ParseAddr ["10.0.0.1"; "1.2.3"; "1.2.3.04"; "256.1.1.1"; "::"; "::1"; "2001:db8::1"; "fe80::1%eth0"; "1::2::3"; "::ffff:1.2.3.4";
                 "1:2:3:4:5:6:7:8"; "1:2:3:4:5:6:7::8"; "::1%"; "host"] =
  [true; false; false; false; true; true; true; true; false; true; true; false; false; false].
Proof. reflexivity. Qed.

Example levels_sorted :
  ComponentLogLevelsToString {[ "upstream" := "debug"; "admin" := "info" ]} = inr "admin:info,upstream:debug".
Proof. reflexivity. Qed.

Definition ex_kube (replicas : option Z) (level : option string) : KubernetesProxyConfig string :=
  mkKube (Some (mkDep replicas None)) (Some (mkEC (Some (mkEB None level None None None)) None None None None None None))
    None None None None None None None no_overlays.
Definition ex_inputs : Inputs :=
  mkInputs false (mkCP "xds" 9977 false "") (mkImageInfo "cr.example" "v1" "IfNotPresent") "kgateway" "waypoint".
Definition ex_clients : Clients := mkClients
  {[ ("sys", "base") := mkGWP (Some (ex_kube (Some 2%Z) (Some "debug"))) None;
     ("apps", "own") := mkGWP (Some (ex_kube (Some 3%Z) None)) None ]}
  {[ "kgateway" := mkDC "kgateway" "kgateway.dev/kgateway" (Some (mkPR GroupName GatewayParametersKind "base" (Some "sys"))) ]}.
Definition ex_gateway : DeployedGateway :=
  mkDG "apps" "edge" "kgateway" (Some (mkInfra ∅ ∅ (Some (mkLPR GroupName GatewayParametersKind "own"))))
    [(None, "10.0.0.1")] [80; 8443; 8082]%Z.
Definition ex_values : HelmOutcome := GetValues (λ _, Missing) ex_inputs ex_clients ∅ "kgateway.dev/kgateway" ex_gateway.

Definition resolved_example : GatewayParameters string :=
  match getGatewayParametersForGateway ex_inputs ex_clients ex_gateway with inr g => g | inl _ => mkGWP None None end.
Definition resolved_kube : KubernetesProxyConfig string := default (ex_kube None None) (gp_kube resolved_example).

(** The Gateway's replicas win. *)
Lemma deployed_settings_layered_witness :
  (k_deployment ▷ dp_replicas) resolved_kube = Some 3%Z ∧
  ∃ gwc dk, cl_classes ex_clients !! "kgateway" = Some gwc ∧
    gp_kube (built_in_level ex_inputs ex_clients ex_gateway gwc) = Some dk ∧
    (k_deployment ▷ dp_replicas) resolved_kube =
      (gateway_level ex_clients ex_gateway ≫= gp_kube ▷ k_deployment ▷ dp_replicas) ∪
      ((class_level ex_clients gwc ≫= gp_kube ▷ k_deployment ▷ dp_replicas) ∪ (k_deployment ▷ dp_replicas) dk).
Proof.
  split; [reflexivity|].
  apply (deployed_settings_layered ex_inputs ex_clients ex_gateway resolved_example resolved_kube Z (k_deployment ▷ dp_replicas)).
  - apply ks_replicas.
  - vm_compute. reflexivity.
  - vm_compute. reflexivity.
Defined.

Definition values_example : HelmGateway :=
  match ex_values with Values h => h | _ => mkHelm "" "" "" "" None None "" [] (mkHXds "" 0 (mkHTls false "")) None end.

Lemma rendered_ports_usable_witness :
  map hp_port (hg_ports values_example) = [80; 8443]%Z ∧
  ∃ gwp k proxy, getGatewayParametersForGateway ex_inputs ex_clients ex_gateway = inr gwp ∧ gp_kube gwp = Some k ∧
    hg_proxy values_example = Some proxy ∧ port_starts (hp_pod_security proxy) = ["0"].
Proof.
  split; [vm_compute; reflexivity|].
  destruct (rendered_ports_usable (λ _, Missing) ex_inputs ex_clients ∅ "kgateway.dev/kgateway" ex_gateway values_example)
    as (gwp & k & proxy & Hr & Hk & Hp & _ & _ & _ & _ & Hs); [vm_compute; reflexivity|].
  exists gwp, k, proxy. split_and!; [done..|]. vm_compute in Hr. injection Hr as <-. vm_compute in Hk. injection Hk as <-.
  apply Hs; [|reflexivity]. exists 80%Z. split; [by apply (bool_decide_unpack _); vm_compute|lia].
Defined.

Example rendered_address :
  (hs_lb_ip ∘ hp_service <$> hg_proxy values_example) = Some (Some "10.0.0.1") ∧
  map hp_name (hg_ports values_example) = ["listener-80"; "listener-8443"].
Proof. split; vm_compute; reflexivity. Qed.
