(* ===== verification/DeployerApply.v ===== *)
(** * Deploying proxies (pkg/deployer/deployer.go, pkg/deployer/strategicpatch,
    PostProcessObjects of pkg/kgateway/deployer/gateway_parameters.go, and the reconciler of
    pkg/kgateway/controller/gw_controller.go)

    The objects rendered for a Gateway are overlaid, owned, ordered and applied to the cluster;
    autoscalers and disruption budgets that are no longer wanted are deleted.  The cluster is a
    finite map; what the API server makes of a patch, which requests fail, the rendering of the
    chart and strategic merge patches are parameters. *)

From S2P Require Import Prelude IR Delegation RoutesIndex ListenerValidation GatewayIndex ListenerTLS ListenerTranslator Hashing Reports.
From S2P Require Import ConnectedClients Deployer DeployerValues.

(** ** Kinds and resources *)

Definition DeploymentGVK : GroupVersionKind := mkGVK "apps" "v1" "Deployment".
Definition ServiceGVK : GroupVersionKind := mkGVK "" "v1" "Service".
Definition ServiceAccountGVK : GroupVersionKind := mkGVK "" "v1" "ServiceAccount".
Definition ClusterRoleBindingGVK : GroupVersionKind := mkGVK "rbac.authorization.k8s.io" "v1" "ClusterRoleBinding".
Definition ClusterRoleGVK : GroupVersionKind := mkGVK "rbac.authorization.k8s.io" "v1" "ClusterRole".
Definition PodDisruptionBudgetGVK : GroupVersionKind := mkGVK "policy" "v1" "PodDisruptionBudget".
Definition HorizontalPodAutoscalerGVK : GroupVersionKind := mkGVK "autoscaling" "v2" "HorizontalPodAutoscaler".
Definition VerticalPodAutoscalerGVK : GroupVersionKind := mkGVK "autoscaling.k8s.io" "v1" "VerticalPodAutoscaler".

(** [schema.GroupVersionResource]. *)
Abbreviation GVR := (string * string * string)%type.

Definition buildKgatewayGvk (kind : string) : GroupVersionKind := mkGVK GroupName "v1alpha1" kind.

(** The table of [wellknown.GVKToGVR] for the types Istio does not know. *)
Definition kgateway_resources : list (GroupVersionKind * GVR) :=
  map (λ kr : string * string, (buildKgatewayGvk kr.1, (GroupName, "v1alpha1", kr.2)))
    [("GatewayParameters", "gatewayparameters"); ("GatewayExtension", "gatewayextensions"); ("DirectResponse", "directresponses");
     ("Backend", "backends"); ("TrafficPolicy", "trafficpolicies"); ("ListenerPolicy", "listenerpolicies");
     ("BackendConfigPolicy", "backendconfigpolicies")] ++
  [(VerticalPodAutoscalerGVK, ("autoscaling.k8s.io", "v1", "verticalpodautoscalers"))].

(** [GroupVersion().String()]. *)
Definition api_version (g : GroupVersionKind) : string :=
  if String.eqb (gvk_group g) "" then gvk_version g else gvk_group g +:+ "/" +:+ gvk_version g.

Definition IsNamespacedGVK (g : GroupVersionKind) : bool := negb (bool_decide (g ∈ [ClusterRoleBindingGVK; ClusterRoleGVK])).

(** [kindPriority]. *)
Definition kindPriority (kind : string) : Z :=
  if String.eqb kind "Namespace" then 0
  else if String.eqb kind "ServiceAccount" then 1
  else if String.eqb kind "Secret" || String.eqb kind "ConfigMap" then 2
  else if String.eqb kind "ClusterRole" || String.eqb kind "Role" then 3
  else if String.eqb kind "ClusterRoleBinding" || String.eqb kind "RoleBinding" then 4
  else if String.eqb kind "Service" then 5 else 6.

Definition ManagedByLabel : string := "app.kubernetes.io/managed-by".
Definition GatewayClassNameLabel : string := "gateway.networking.k8s.io/gateway-class-name".

(** ** Objects *)

Record OwnerReference := mkOwner {
  or_api : string; or_kind : string; or_name : string; or_uid : string; or_controller : option bool }.

Section objects.
Context {Obj : Type}.

(** The fields of the spec by name; [ob_typed] tells typed objects from unstructured ones;
    [ob_server] holds what only the API server sets; [ob_data] everything else. *)
Record Object := mkObj {
  ob_gvk : GroupVersionKind; ob_typed : bool; ob_namespace : string; ob_name : string; ob_uid : string;
  ob_labels : option (gmap string string); ob_annotations : option (gmap string string); ob_owners : list OwnerReference;
  ob_spec : gmap string Obj; ob_status : option Obj; ob_server : option Obj; ob_data : option Obj }.

Definition is_typed (g : GroupVersionKind) (o : Object) : bool := ob_typed o && bool_decide (ob_gvk o = g).
Definition with_meta (o : Object) (ls as_ : option (gmap string string)) : Object :=
  mkObj (ob_gvk o) (ob_typed o) (ob_namespace o) (ob_name o) (ob_uid o) ls as_ (ob_owners o) (ob_spec o) (ob_status o)
    (ob_server o) (ob_data o).
Definition with_spec (o : Object) (spec : gmap string Obj) : Object :=
  mkObj (ob_gvk o) (ob_typed o) (ob_namespace o) (ob_name o) (ob_uid o) (ob_labels o) (ob_annotations o) (ob_owners o) spec
    (ob_status o) (ob_server o) (ob_data o).
Definition with_place (o : Object) (ns : string) (owners : list OwnerReference) : Object :=
  mkObj (ob_gvk o) (ob_typed o) ns (ob_name o) (ob_uid o) (ob_labels o) (ob_annotations o) owners (ob_spec o)
    (ob_status o) (ob_server o) (ob_data o).

(** ** Overlays *)

(** [StrategicMergePatch] of the spec of an object of a known kind with a raw patch, as fields of
    the patched spec; [json.Unmarshal] of a patch as fields; the reference to a Deployment. *)
Class PatchLib := {
  strategic_merge : GroupVersionKind → gmap string Obj → string → error + gmap string Obj;
  unmarshal : string → error + gmap string Obj;
  deployment_ref : string → Obj }.
Context `{PatchLib}.

(** [maps.Copy] into a map that may be nil. *)
Definition copy_into (dst src : option (gmap string string)) : option (gmap string string) :=
  match src with None => dst | Some s => Some (s ∪ default ∅ dst) end.
Definition apply_metadata (o : Object) (ov : KubernetesResourceOverlay) : Object :=
  with_meta o (copy_into (ob_labels o) (ov_labels ov)) (copy_into (ob_annotations o) (ov_annotations ov)).
Definition raw_patch (ov : KubernetesResourceOverlay) : option string :=
  match ov_spec ov with Some r => if String.eqb r "" then None else Some r | None => None end.

(** [applySpecOverlay]: the result has the kind of the overlay. *)
Definition applySpecOverlay (o : Object) (patch : string) (g : GroupVersionKind) : error + Object :=
  match strategic_merge g (ob_spec o) patch with
  | inl e => inl (EWrap "failed to apply strategic merge patch" e)
  | inr spec =>
      inr (mkObj g (ob_typed o) (ob_namespace o) (ob_name o) (ob_uid o) (ob_labels o) (ob_annotations o) (ob_owners o) spec
             (ob_status o) (ob_server o) (ob_data o))
  end.

Definition applyOverlay (o : Object) (ov : KubernetesResourceOverlay) (g : GroupVersionKind) : error + Object :=
  let o := apply_metadata o ov in
  match raw_patch ov with Some patch => applySpecOverlay o patch g | None => inr o end.

(** The objects made for a Deployment.  Its labels are cloned. *)
Definition companion (d : Object) (g : GroupVersionKind) (typed : bool) (spec : gmap string Obj) : Object :=
  mkObj g typed (ob_namespace d) (ob_name d) "" (ob_labels d) None [] spec None None None.
Definition createPodDisruptionBudget (d : Object) (ov : KubernetesResourceOverlay) : error + Object :=
  applyOverlay (companion d PodDisruptionBudgetGVK true
    (match ob_spec d !! "selector" with Some s => {["selector" := s]} | None => ∅ end)) ov PodDisruptionBudgetGVK.
Definition createHorizontalPodAutoscaler (d : Object) (ov : KubernetesResourceOverlay) : error + Object :=
  applyOverlay (companion d HorizontalPodAutoscalerGVK true {["scaleTargetRef" := deployment_ref (ob_name d)]}) ov
    HorizontalPodAutoscalerGVK.
Definition createVerticalPodAutoscaler (d : Object) (ov : KubernetesResourceOverlay) : error + Object :=
  let vpa := apply_metadata (companion d VerticalPodAutoscalerGVK false {["targetRef" := deployment_ref (ob_name d)]}) ov in
  match raw_patch ov with
  | None => inr vpa
  | Some patch =>
      match unmarshal patch with
      | inl e => inl (EWrap "failed to unmarshal spec patch" e)
      | inr specPatch => inr (with_spec vpa (specPatch ∪ ob_spec vpa))
      end
  end.

(** The overlay and the kind of a rendered object. *)
Definition overlay_for (ov : GatewayParametersOverlays) (o : Object) : option (KubernetesResourceOverlay * GroupVersionKind) :=
  if is_typed DeploymentGVK o then (λ x, (x, DeploymentGVK)) <$> gpo_deployment ov
  else if is_typed ServiceGVK o then (λ x, (x, ServiceGVK)) <$> gpo_service ov
  else if is_typed ServiceAccountGVK o then (λ x, (x, ServiceAccountGVK)) <$> gpo_account ov
  else None.
Fixpoint overlay_loop (ov : GatewayParametersOverlays) (objs : list Object) : error + list Object :=
  match objs with
  | [] => inr []
  | o :: objs' =>
      match (match overlay_for ov o with
             | None => inr o
             | Some (x, g) => match applyOverlay o x g with
                              | inl e => inl (EWrap ("failed to apply overlay to " +:+ gvk_kind g +:+ "/" +:+ ob_name o) e)
                              | inr o => inr o
                              end
             end) with
      | inl e => inl e
      | inr o => match overlay_loop ov objs' with inl e => inl e | inr l => inr (o :: l) end
      end
  end.

(** The Deployment found first.  Its labels and annotations are overlaid in place, but a patch of
    its spec makes a new object, so that the companions see the spec before the patch. *)
Definition seen_deployment (ov : GatewayParametersOverlays) (objs : list Object) : option Object :=
  d ← head (filter (λ o, is_typed DeploymentGVK o = true) objs);
  Some (match gpo_deployment ov with Some x => apply_metadata d x | None => d end).

Definition add_companion (kind : string) (d : option Object) (ov : option KubernetesResourceOverlay)
    (create : Object → KubernetesResourceOverlay → error + Object) (r : error + list Object) : error + list Object :=
  match r, ov, d with
  | inr objs, Some x, Some d =>
      match create d x with
      | inl e => inl (EWrap ("failed to create " +:+ kind) e)
      | inr o => inr (objs ++ [o])
      end
  | _, _, _ => r
  end.

Definition ApplyOverlays (overlays : option GatewayParametersOverlays) (objs : list Object) : error + list Object :=
  match overlays with
  | None => inr objs
  | Some ov =>
      let deployment := seen_deployment ov objs in
      let r := overlay_loop ov objs in
      let r := add_companion "PodDisruptionBudget" deployment (gpo_pdb ov) createPodDisruptionBudget r in
      let r := add_companion "HorizontalPodAutoscaler" deployment (gpo_hpa ov) createHorizontalPodAutoscaler r in
      add_companion "VerticalPodAutoscaler" deployment (gpo_vpa ov) createVerticalPodAutoscaler r
  end.

Definition FromGatewayParameters (params : option (GatewayParameters Obj)) : option GatewayParametersOverlays :=
  k_overlays <$> (params ≫= gp_kube).

Definition PostProcessObjects (c : @Clients Obj) (gw : DeployedGateway) (rendered : list Object) : error + list Object :=
  let resolved := resolveParametersForOverlays c gw in
  match ApplyOverlays (FromGatewayParameters resolved.1) rendered with
  | inl e => inl e
  | inr rendered => ApplyOverlays (FromGatewayParameters resolved.2) rendered
  end.
End objects.
Arguments Object : clear implicits.
Arguments PatchLib : clear implicits.

(** ** The deployer *)

(** A resource, a namespace and a name. *)
Abbreviation Key := (GVR * string * string)%type.
Abbreviation Cluster Obj := (gmap Key (Object Obj)).

Section deploy.
Context {Obj : Type}.
Implicit Types o : Object Obj.


(** What the deployer is configured with, and the requests to the API server.  [istio_gvr] is
    Istio's table; [get_fails] the reads that fail although the object may exist; [patcher] the
    effect of a server-side apply, as the object the server holds afterwards; [list_fails] the
    outcome of failing lists ([true]: the type does not exist); [delete_fails] the failing
    deletions; [semantic_equal] apimachinery's [equality.Semantic.DeepEqual]. *)
Record Deployer := mkDeployer {
  de_managed_by : string; de_mapper : gmap GroupVersionKind GVR;
  de_istio_gvr : GroupVersionKind → option GVR; de_get_fails : Key → bool;
  de_patcher : Cluster Obj → Key → Object Obj → error + Object Obj; de_list_fails : GVR → option bool;
  de_delete_fails : Key → option error; de_semantic_equal : Object Obj → Object Obj → bool }.

Definition GVKToGVR (d : Deployer) (g : GroupVersionKind) : option GVR :=
  match de_istio_gvr d g with
  | Some r => Some r
  | None => snd <$> head (filter (λ e, e.1 = g) kgateway_resources)
  end.
Definition gvkToGVR (d : Deployer) (g : GroupVersionKind) : option GVR :=
  match GVKToGVR d g with Some r => Some r | None => de_mapper d !! g end.

(** [SetNamespaceAndOwnerWithGVK], for an owner by namespace, name and UID. *)
Record Owner := mkOwnerObj { ow_gvk : GroupVersionKind; ow_namespace : string; ow_name : string; ow_uid : string }.
Definition place (ow : Owner) (ownerGVK : GroupVersionKind) o : Object Obj :=
  if IsNamespacedGVK (ob_gvk o)
  then with_place o (if String.eqb (ob_namespace o) "" then ow_namespace ow else ob_namespace o)
         [mkOwner (api_version ownerGVK) (gvk_kind ownerGVK) (ow_name ow) (ow_uid ow) (Some true)]
  else with_place o "" (ob_owners o).
Definition SetNamespaceAndOwnerWithGVK (ow : Owner) (ownerGVK : GroupVersionKind) (objs : list (Object Obj)) : list (Object Obj) :=
  map (place ow ownerGVK) objs.

Definition SortByKindPriority (objs : list (Object Obj)) : list (Object Obj) :=
  sort_stable (cmp_on (λ o, kindPriority (gvk_kind (ob_gvk o))) Z.compare) objs.

(** [metav1.GetControllerOf]. *)
Definition GetControllerOf o : option OwnerReference := head (filter (λ r, or_controller r = Some true) (ob_owners o)).

Definition hasControllerOwnerRef o (source : Owner) : bool :=
  match GetControllerOf o with
  | None => false
  | Some r =>
      if String.eqb (ow_uid source) "" || negb (String.eqb (or_uid r) (ow_uid source)) then false
      else if negb (String.eqb (gvk_kind (ow_gvk source)) "") && negb (String.eqb (or_kind r) (gvk_kind (ow_gvk source))) then false
      else if negb (String.eqb (api_version (ow_gvk source)) "") && negb (String.eqb (or_api r) (api_version (ow_gvk source)))
      then false else String.eqb (or_name r) (ow_name source)
  end.

Definition label o (key : string) : option string := ob_labels o ≫= lookup key.

(** [strings.Contains]. *)
Fixpoint str_contains (s sub : string) : bool :=
  has_prefix s sub || match s with EmptyString => false | String _ s' => str_contains s' sub end.

Definition hasMatchingGatewayServiceMetadata (d : Deployer) (existing desired : Object Obj) : bool :=
  let managed := match label existing ManagedByLabel with
                 | Some v => String.eqb v (de_managed_by d) && String.eqb (str_or (label desired ManagedByLabel) "") (de_managed_by d)
                 | None => true
                 end in
  if negb managed then false
  else if match label desired GatewayClassNameLabel with
          | Some c => negb (String.eqb (str_or (label existing GatewayClassNameLabel) "") c)
          | None => false
          end then false
  else
    let any := existsb (λ kv : string * string, str_contains kv.2 (de_managed_by d)) (map_to_list (default ∅ (ob_labels existing))) in
    match label desired GatewayNameLabel with
    | None => any
    | Some g =>
        let eg := str_or (label existing GatewayNameLabel) "" in
        if String.eqb eg g then true else if negb (String.eqb eg "") then false else any
    end.

(** [validateExistingServiceOwnership]. *)
Definition may_apply (d : Deployer) (source : option Owner) (desired existing : Object Obj) : bool :=
  match source with
  | None => true
  | Some src => negb (bool_decide (ob_gvk desired = ServiceGVK)) || hasControllerOwnerRef existing src ||
                hasMatchingGatewayServiceMetadata d existing desired
  end.
Definition ownership_error (source : option Owner) (desired : Object Obj) : error :=
  EMsg ("refusing to apply Service " +:+ ob_namespace desired +:+ "/" +:+ ob_name desired +:+ " for source object " +:+
        match source with Some s => ow_namespace s +:+ "/" +:+ ow_name s | None => "" end +:+
        ": existing Service is not owned by kgateway").

(** The existing object with the fields the API server changes cleared. *)
Definition normalized (existing desired : Object Obj) : Object Obj :=
  mkObj (ob_gvk existing) (ob_typed existing) (ob_namespace existing) (ob_name existing) "" (ob_labels existing)
    (ob_annotations existing) (ob_owners existing) (ob_spec existing) (ob_status desired) None (ob_data existing).

Inductive existing_object := Got o | NotFoundObject | GetFailed.
Definition api_get (d : Deployer) (c : Cluster Obj) (key : Key) : existing_object :=
  if de_get_fails d key then GetFailed else match c !! key with Some o => Got o | None => NotFoundObject end.

(** One object of [DeployObjsWithSource]: the cluster, the patch sent, or the error. *)
Definition deploy_one (d : Deployer) (source : option Owner) (c : Cluster Obj) o : error + (Cluster Obj * bool) :=
  match gvkToGVR d (ob_gvk o) with
  | None => inl (EMsg ("error getting GVR for object " +:+ ob_namespace o +:+ "/" +:+ ob_name o))
  | Some gvr =>
      let key := (gvr, ob_namespace o, ob_name o) in
      let patch := match de_patcher d c key o with
                   | inl e => inl (EWrap ("failed to apply object " +:+ gvk_kind (ob_gvk o) +:+ " " +:+ ob_namespace o +:+ "/" +:+
                                          ob_name o) e)
                   | inr o' => inr (<[key := o']> c, true)
                   end in
      match api_get d c key with
      | Got existing =>
          if negb (may_apply d source o existing) then inl (ownership_error source o)
          else if de_semantic_equal d o (normalized existing o) then inr (c, false) else patch
      | _ => patch
      end
  end.

(** The loop: the cluster, the patches sent and the error that ended it. *)
Fixpoint deploy_loop (d : Deployer) (source : option Owner) (c : Cluster Obj) (objs : list (Object Obj)) :
    Cluster Obj * list (Object Obj) * option error :=
  match objs with
  | [] => (c, [], None)
  | o :: objs' =>
      match deploy_one d source c o with
      | inl e => (c, [], Some e)
      | inr (c', patched) =>
          let '(c'', log, e) := deploy_loop d source c' objs' in (c'', if patched then o :: log else log, e)
      end
  end.
Definition DeployObjsWithSource (d : Deployer) (source : option Owner) (c : Cluster Obj) (objs : list (Object Obj)) :
    Cluster Obj * list (Object Obj) * option error := deploy_loop d source c (SortByKindPriority objs).

(** ** Pruning *)

Definition targetGVKs : list GroupVersionKind := [PodDisruptionBudgetGVK; HorizontalPodAutoscalerGVK; VerticalPodAutoscalerGVK].

Definition is_desired (desired : list (Object Obj)) (g : GroupVersionKind) (name : string) : bool :=
  existsb (λ o, bool_decide (ob_gvk o = g) && String.eqb (ob_name o) name) desired.

(** The names that the list request of a kind returns, in the order of the server. *)
Definition listed (c : Cluster Obj) (gvr : GVR) (ns selector : string) : list string :=
  omap (λ ko : Key * Object Obj,
    let '((r, n), name) := ko.1 in
    if bool_decide (r = gvr) && String.eqb n ns && bool_decide (label ko.2 GatewayNameLabel = Some selector)
    then Some name else None) (map_to_list c).

Definition prune_item (d : Deployer) (desired : list (Object Obj)) (g : GroupVersionKind) (gvr : GVR) (ns : string)
    (st : Cluster Obj * list error) (name : string) : Cluster Obj * list error :=
  if is_desired desired g name then st
  else match de_delete_fails d (gvr, ns, name) with
       | Some e => (st.1, st.2 ++ [EWrap ("failed to delete resource " +:+ gvk_kind g +:+ "/" +:+ name) e])
       | None => (delete (gvr, ns, name) st.1, st.2)
       end.

Fixpoint prune_loop (d : Deployer) (ow : Owner) (desired : list (Object Obj)) (st : Cluster Obj * list error)
    (gvks : list GroupVersionKind) : Cluster Obj * option error :=
  match gvks with
  | [] => (st.1, match st.2 with [] => None | errs => Some (EJoin errs) end)
  | g :: gvks' =>
      match gvkToGVR d g with
      | None => prune_loop d ow desired st gvks'
      | Some gvr =>
          match de_list_fails d gvr with
          | Some true => prune_loop d ow desired st gvks'
          | Some false => (st.1, Some (EMsg ("failed to list resources for pruning " +:+ gvk_kind g)))
          | None =>
              prune_loop d ow desired
                (foldl (prune_item d desired g gvr (ow_namespace ow)) st
                   (listed st.1 gvr (ow_namespace ow) (SafeGatewayLabelValue (ow_name ow)))) gvks'
          end
      end
  end.
Definition PruneRemovedResources (d : Deployer) (ow : Owner) (desired : list (Object Obj)) (c : Cluster Obj) : Cluster Obj * option error :=
  prune_loop d ow desired (c, []) targetGVKs.
End deploy.
Arguments Deployer : clear implicits.

(** ** Addresses of a Gateway *)

Definition HostnameAddressType : string := "Hostname".
(** The type (nil: unset) and the value of an address. *)
Abbreviation Address := (option string * string)%type.

(** A Service as the reconciler reads it: ingress points are pairs of a hostname and an IP. *)
Record ServiceView := mkSV {
  svv_owners : list OwnerReference; svv_type : string; svv_ingress : list (string * string);
  svv_cluster_ips : list string; svv_cluster_ip : string }.

Definition convertIngressAddr (ing : string * string) : option Address :=
  if negb (String.eqb ing.1 "") then Some (Some HostnameAddressType, ing.1)
  else if negb (String.eqb ing.2 "") then Some (Some IPAddressType, ing.2) else None.

(** [getDesiredAddresses].  The set [seen] is filled only on the path that returns before it is
    read, so that every address of the spec is appended. *)
Definition getDesiredAddresses (specAddresses : list Address) (svc : option ServiceView) : list Address :=
  match svc with
  | Some s =>
      if String.eqb (svv_type s) "LoadBalancer" then omap convertIngressAddr (svv_ingress s)
      else
        (if negb (bool_decide (svv_cluster_ips s = [])) then map (λ ip, (Some IPAddressType, ip)) (svv_cluster_ips s)
         else if negb (String.eqb (svv_cluster_ip s) "") then [(Some IPAddressType, svv_cluster_ip s)] else []) ++ specAddresses
  | None => specAddresses
  end.

(** ** Reconciling a Gateway *)

Section reconcile.
Context {Obj : Type} `{PatchLib Obj}.

(** A Gateway with what the reconciler reads of its metadata and status.  Informers leave the
    type metadata [gr_gvk] empty. *)
Record GatewayRes := mkGR {
  gr_gvk : GroupVersionKind; gr_gateway : DeployedGateway; gr_uid : string; gr_deleting : bool; gr_generation : Z;
  gr_conditions : list metav1_Condition; gr_addresses : list Address }.

(** The status updates and, on top of those of the deployer, what the reconciler depends on:
    [re_render] installs the chart in memory; [re_update_fails] is the outcome of the status
    update, retries included. *)
Record Reconciler := mkRec {
  re_controller : string; re_inputs : Inputs; re_clients : @Clients Obj; re_file : string → FileState;
  re_gateways : gmap string GatewayForDeployer; re_deployer : Deployer Obj;
  re_render : @HelmGateway Obj → error + list (Object Obj);
  re_services : gmap (string * string) ServiceView; re_update_fails : option error }.

Inductive StatusWrite := WCondition (c : metav1_Condition) | WAddresses (l : list Address).

(** [GetObjsToDeploy]; the flag tells whether the error is [ErrNoValidPorts]. *)
Inductive objects_outcome := ORuntimePanic | OError (no_ports : bool) (e : error) | OObjects (l : list (Object Obj)).
Definition GetObjsToDeploy (r : Reconciler) (gw : DeployedGateway) : objects_outcome :=
  match GetValues (re_file r) (re_inputs r) (re_clients r) (re_gateways r) (re_controller r) gw with
  | Panics => ORuntimePanic
  | Fails e => OError (match e with EMsg m => String.eqb m "no valid ports" | _ => false end)
                 (EWrap ("failed to get helm values for object Gateway " +:+ dg_namespace gw +:+ "/" +:+ dg_name gw) e)
  | SelfManagedGateway => OObjects []
  | Values h =>
      match re_render r h with
      | inl e => OError false (EWrap ("failed to get objects to deploy " +:+ dg_namespace gw +:+ "." +:+ dg_name gw) e)
      | inr objs =>
          match PostProcessObjects (re_clients r) gw objs with
          | inl e => OError false (EWrap ("failed to post-process objects for " +:+ dg_namespace gw +:+ "." +:+ dg_name gw) e)
          | inr objs => OObjects objs
          end
      end
  end.

Definition owner_of (g : GatewayRes) : Owner :=
  mkOwnerObj (gr_gvk g) (dg_namespace (gr_gateway g)) (dg_name (gr_gateway g)) (gr_uid g).

(** [updateStatus]: the addresses to write, if they changed. *)
Definition updateStatus (r : Reconciler) (g : GatewayRes) (svcMeta : option (string * string)) : error + list StatusWrite :=
  let write (svc : option ServiceView) :=
    let desired := getDesiredAddresses (dg_addresses (gr_gateway g)) svc in
    if bool_decide (desired = gr_addresses g) then inr []
    else match re_update_fails r with
         | Some e => inl (EWrap "failed to update gateway status" e)
         | None => inr [WAddresses desired]
         end in
  match svcMeta with
  | None => write None
  | Some key =>
      match re_services r !! key with
      | None => inl (EMsg ("Service " +:+ key.1 +:+ "/" +:+ key.2 +:+ " not found for Gateway"))
      | Some svc =>
          match head (filter (λ o, or_controller o = Some true) (svv_owners svc)) with
          | None => inr []
          | Some ctl => if negb (String.eqb (gr_uid g) (or_uid ctl)) then inr [] else write (Some svc)
          end
      end
  end.

Definition InvalidParameters : string := "InvalidParameters".
Definition invalid_parameters (g : GatewayRes) (e : error) : metav1_Condition :=
  mkMC "Accepted" "False" InvalidParameters (err_text e) (gr_generation g) 0.
Definition accepted_again (g : GatewayRes) : metav1_Condition :=
  mkMC "Accepted" "True" "Accepted" "Successfully accepted Gateway" (gr_generation g) 0.
Definition was_invalid (g : GatewayRes) : bool :=
  match head (filter (λ c, mc_type c = "Accepted") (gr_conditions g)) with
  | Some c => String.eqb (mc_status c) "False" && String.eqb (mc_reason c) InvalidParameters
  | None => false
  end.

(** What a reconciliation did: the cluster, the status writes, and the error returned. *)
Record Result := mkRes3 { res_cluster : Cluster Obj; res_writes : list StatusWrite; res_error : option error }.

(** The steps after the objects are known. *)
Definition deploy_and_report (r : Reconciler) (c : Cluster Obj) (g : GatewayRes) (writes : list StatusWrite)
    (objs : list (Object Obj)) : Result :=
  let objs := SetNamespaceAndOwnerWithGVK (owner_of g) GatewayGVK objs in
  let '(c, _, e) := DeployObjsWithSource (re_deployer r) (Some (owner_of g)) c objs in
  match e with
  | Some e => mkRes3 c writes (Some e)
  | None =>
      let '(c, e) := PruneRemovedResources (re_deployer r) (owner_of g) objs c in
      match e with
      | Some e => mkRes3 c writes (Some (EWrap "error pruning removed resources for Gateway" e))
      | None =>
          let svc := head (filter (λ o, is_typed ServiceGVK o = true) (SortByKindPriority objs)) in
          match updateStatus r g ((λ o, (ob_namespace o, ob_name o)) <$> svc) with
          | inl e => mkRes3 c writes (Some (EWrap "error updating status for Gateway" e))
          | inr ws => mkRes3 c (writes ++ ws) None
          end
      end
  end.

(** [Reconcile], of the Gateway the client returns; [None]: the code would dereference nil. *)
Definition Reconcile (r : Reconciler) (c : Cluster Obj) (gw : option GatewayRes) : option Result :=
  match gw with
  | None => Some (mkRes3 c [] None)
  | Some g =>
      if gr_deleting g then Some (mkRes3 c [] None)
      else
        match cl_classes (re_clients r) !! dg_class (gr_gateway g) with
        | None => Some (mkRes3 c [] (Some (EMsg ("gatewayclass " +:+ dg_class (gr_gateway g) +:+ " not found for gateway"))))
        | Some gwc =>
            if negb (String.eqb (dc_controller gwc) (re_controller r)) then Some (mkRes3 c [] None)
            else
              match GetObjsToDeploy r (gr_gateway g) with
              | ORuntimePanic => None
              | OError true e => Some (mkRes3 c [] (Some e))
              | OError false e =>
                  match re_update_fails r with
                  | Some u => Some (mkRes3 c [] (Some (EWrap "failed to update status for Gateway" u)))
                  | None => Some (mkRes3 c [WCondition (invalid_parameters g e)] (Some e))
                  end
              | OObjects objs =>
                  if was_invalid g then
                    match re_update_fails r with
                    | Some u => Some (mkRes3 c [] (Some (EWrap "failed to update status for Gateway" u)))
                    | None => Some (deploy_and_report r c g [WCondition (accepted_again g)] objs)
                    end
                  else Some (deploy_and_report r c g [] objs)
              end
        end
  end.
End reconcile.

(** ** Lemmas: deployment *)

Section deploy_lemmas.
Context {Obj : Type}.
Implicit Types (d : Deployer Obj) (o ex : Object Obj) (c : Cluster Obj) (desired : list (Object Obj)).

Definition key_of d o : option Key := (λ gvr, (gvr, ob_namespace o, ob_name o)) <$> gvkToGVR d (ob_gvk o).

Lemma deploy_one_key d source c o c' b :
  deploy_one d source c o = inr (c', b) → ∃ key, key_of d o = Some key ∧
    (b = false ∧ c' = c ∨ b = true ∧ ∃ o', c' = <[key := o']> c) ∧
    (∀ ex, c !! key = Some ex → de_get_fails d key = false → may_apply d source o ex = true).
Proof.
  unfold deploy_one, key_of. destruct (gvkToGVR d (ob_gvk o)) as [gvr|]; [|done]. simpl.
  set (key := (gvr, ob_namespace o, ob_name o)). unfold api_get. intros H. exists key. split; [done|].
  destruct (de_get_fails d key); [|destruct (c !! key) as [ex|]].
  - destruct (de_patcher d c key o); simplify_eq. naive_solver.
  - destruct (may_apply d source o ex) eqn:Hm; simpl in H; [|done]. split; [|naive_solver].
    destruct (de_semantic_equal _ _ _); simplify_eq; [by left|]. destruct (de_patcher d c key o); simplify_eq. eauto.
  - destruct (de_patcher d c key o); simplify_eq. naive_solver.
Qed.

(** An object that no desired object may be applied to. *)
Definition refused d source (objs : list (Object Obj)) key ex : Prop :=
  ∀ o, o ∈ objs → key_of d o = Some key → may_apply d source o ex = false.

Lemma deploy_loop_refused d source objs c key ex c' log e :
  deploy_loop d source c objs = (c', log, e) → c !! key = Some ex → de_get_fails d key = false →
  refused d source objs key ex →
  c' !! key = Some ex ∧ (∀ o, o ∈ log → key_of d o ≠ Some key) ∧ ((∃ o, o ∈ objs ∧ key_of d o = Some key) → is_Some e).
Proof.
  revert c c' log e. induction objs as [|o objs IH]; intros c c' log e; simpl.
  { intros [= <- <- <-] Hc _ _. split_and!; [done|set_solver|]. intros (o & Ho & _). set_solver. }
  destruct (deploy_one d source c o) as [e1|[c1 b]] eqn:Hone.
  { intros [= <- <- <-] Hc _ _. split_and!; [done|set_solver|eauto]. }
  destruct (deploy_loop d source c1 objs) as [[c2 log2] e2] eqn:Hl. intros [= <- <- <-] Hc Hg Hr.
  apply deploy_one_key in Hone as (key' & Hk & Hcase & Hm).
  assert (key' ≠ key) as Hne.
  { intros ->. specialize (Hm ex Hc Hg). rewrite (Hr o) in Hm; [done|set_solver|done]. }
  assert (c1 !! key = Some ex) as Hc1.
  { destruct Hcase as [[_ ->]|(_ & o' & ->)]; [done|]. by rewrite lookup_insert_ne. }
  destruct (IH c1 c2 log2 e2 Hl Hc1 Hg) as (H1 & H2 & H3).
  { intros x Hx. apply Hr. set_solver. }
  split_and!; [done| |].
  - destruct b; [|done]. intros x [->|Hx]%elem_of_cons; [rewrite Hk; congruence|by apply H2].
  - intros (x & [->|Hx]%elem_of_cons & Hkx); [congruence|]. apply H3. eauto.
Qed.

Lemma deploy_loop_log d source objs c : (deploy_loop d source c objs).1.2 `sublist_of` objs.
Proof.
  revert c. induction objs as [|o objs IH]; intros c; simpl; [done|].
  destruct (deploy_one d source c o) as [|[c1 b]]; [apply sublist_nil_l|].
  specialize (IH c1). destruct (deploy_loop d source c1 objs) as [[c2 log2] e2]. simpl in *.
  destruct b; [by apply sublist_skip|by apply sublist_cons].
Qed.

Definition priority o : Z := kindPriority (gvk_kind (ob_gvk o)).

Lemma StronglySorted_sublist {A} (R R' : A → A → Prop) (l k : list A) :
  (∀ x y, R x y → R' x y) → l `sublist_of` k → StronglySorted R k → StronglySorted R' l.
Proof.
  intros Hi. induction 1 as [|x l k Hs IH|x l k Hs IH]; intros Hk; [constructor|..];
    inversion Hk as [|? ? Hk' Hx]; subst; [|by apply IH].
  constructor; [by apply IH|]. rewrite Forall_forall in Hx |- *. intros y Hy. apply Hi, Hx.
  by eapply elem_of_submseteq, sublist_submseteq.
Qed.

(** Patches are sent in the order of the kinds: accounts, configuration and roles first, then
    services, then workloads. *)
Lemma patches_ordered d source objs c :
  StronglySorted (λ x y, (priority x <= priority y)%Z) (DeployObjsWithSource d source c objs).1.2.
Proof.
  apply (StronglySorted_sublist (cmp_le (cmp_on priority Z.compare)) _ _ (SortByKindPriority objs));
    [|apply deploy_loop_log|apply sort_stable_sorted; apply _].
  intros x y. unfold cmp_le, cmp_on. by apply Z.compare_le_iff.
Qed.

(** A Service that another tool manages, or that is labelled for another Gateway. *)
Definition foreign d (objs : list (Object Obj)) key ex : Prop :=
  (∃ v, label ex ManagedByLabel = Some v ∧ v ≠ de_managed_by d) ∨
  (∃ v, label ex GatewayNameLabel = Some v ∧ v ≠ "" ∧
     ∀ o, o ∈ objs → key_of d o = Some key → ∃ w, label o GatewayNameLabel = Some w ∧ w ≠ v).

Lemma foreign_metadata d objs key ex o :
  foreign d objs key ex → o ∈ objs → key_of d o = Some key → hasMatchingGatewayServiceMetadata d ex o = false.
Proof.
  intros Hf Ho Hk. unfold hasMatchingGatewayServiceMetadata. destruct Hf as [(v & Hv & Hne)|(v & Hv & Hne & Hall)].
  - rewrite Hv. by rewrite (proj2 (String.eqb_neq _ _) Hne).
  - destruct (Hall o Ho Hk) as (w & Hw & Hwv). rewrite Hw, Hv. destruct (negb _); [done|].
    destruct (match label o GatewayClassNameLabel with Some _ => _ | None => _ end); [done|]. simpl.
    rewrite (proj2 (String.eqb_neq v w)) by congruence. by rewrite (proj2 (String.eqb_neq v "")).
Qed.

(** ** Lemmas: pruning *)

Lemma listed_spec c gvr ns sel name :
  name ∈ listed c gvr ns sel ↔ ∃ o, c !! (gvr, ns, name) = Some o ∧ label o GatewayNameLabel = Some sel.
Proof.
  unfold listed. rewrite list_elem_of_omap. split.
  - intros ([[[r n] nm] o] & Hin & H). simpl in H. apply elem_of_map_to_list in Hin.
    case_bool_decide; [|done]. simpl in H. destruct (String.eqb_spec n ns); [|done]. simpl in H.
    case_bool_decide; [|done]. simplify_eq. eauto.
  - intros (o & Ho & Hl). exists ((gvr, ns, name), o). rewrite elem_of_map_to_list. split; [done|]. simpl.
    rewrite String.eqb_refl, !bool_decide_eq_true_2 by done. done.
Qed.

(** The items of one kind: the failing deletions are reported, the others take effect. *)
Definition unwanted d desired g (key : Key) : bool :=
  negb (is_desired desired g key.2) && bool_decide (de_delete_fails d key = None).

Lemma prune_items_lookup d desired g gvr ns names st (key : Key) :
  (foldl (prune_item d desired g gvr ns) st names).1 !! key =
  if bool_decide (key.1 = (gvr, ns) ∧ key.2 ∈ names) && unwanted d desired g key then None else st.1 !! key.
Proof.
  revert st. induction names as [|name names IH]; intros st; simpl.
  { rewrite bool_decide_eq_false_2 by set_solver. done. }
  rewrite IH. clear IH. destruct key as [p n]. simpl. unfold unwanted, prune_item. simpl.
  destruct (decide (p = (gvr, ns) ∧ n = name)) as [[-> ->]|Hne].
  - rewrite (bool_decide_eq_true_2 ((gvr, ns) = (gvr, ns) ∧ name ∈ name :: names)) by set_solver.
    destruct (is_desired desired g name); simpl; [by rewrite andb_false_r|].
    destruct (de_delete_fails d (gvr, ns, name)); simpl; [by rewrite andb_false_r|].
    rewrite lookup_delete_eq. by destruct (bool_decide _).
  - assert (bool_decide (p = (gvr, ns) ∧ n ∈ name :: names) = bool_decide (p = (gvr, ns) ∧ n ∈ names)) as ->.
    { apply bool_decide_ext. set_solver. }
    destruct (bool_decide (p = (gvr, ns) ∧ n ∈ names) && _); [done|].
    destruct (is_desired desired g name); [done|]. destruct (de_delete_fails d (gvr, ns, name)); [done|]. simpl.
    rewrite lookup_delete_ne; [done|]. naive_solver.
Qed.

(** The objects that pruning removes for the kinds [gvks]. *)
Definition prunable d (ow : Owner) desired (gvks : list GroupVersionKind) (key : Key) o : Prop :=
  label o GatewayNameLabel = Some (SafeGatewayLabelValue (ow_name ow)) ∧
  ∃ g gvr, g ∈ gvks ∧ gvkToGVR d g = Some gvr ∧ de_list_fails d gvr = None ∧ key.1 = (gvr, ow_namespace ow) ∧
    unwanted d desired g key = true.

Lemma prune_loop_none d ow desired gvks st key : st.1 !! key = None → (prune_loop d ow desired st gvks).1 !! key = None.
Proof.
  revert st. induction gvks as [|g' gvks IH]; intros st' Hk; simpl; [done|].
  destruct (gvkToGVR d g') as [gvr'|]; [|by apply IH]. destruct (de_list_fails d gvr') as [[|]|]; [by apply IH|done|].
  apply IH. rewrite prune_items_lookup, Hk. by destruct (_ && _).
Qed.

Lemma prune_loop_sound d ow desired gvks st key o :
  st.1 !! key = Some o →
  (prune_loop d ow desired st gvks).1 !! key = Some o ∨
  (prune_loop d ow desired st gvks).1 !! key = None ∧ prunable d ow desired gvks key o.
Proof.
  assert (∀ l g, prunable d ow desired l key o → prunable d ow desired (g :: l) key o) as Hweak.
  { intros l g (? & g' & gvr & Hg & ?). split; [done|]. exists g', gvr. split; [set_solver|done]. }
  revert st. induction gvks as [|g gvks IH]; intros st Hst; simpl; [by left|].
  destruct (gvkToGVR d g) as [gvr|] eqn:Hr; [|destruct (IH st Hst) as [|[]]; eauto].
  destruct (de_list_fails d gvr) as [[|]|] eqn:Hl; [destruct (IH st Hst) as [|[]]; eauto|by left|].
  set (names := listed _ _ _ _). set (st' := foldl _ st names).
  assert (st'.1 !! key = st'.1 !! key) as Hk by done. unfold st' in Hk at 1. rewrite prune_items_lookup in Hk.
  destruct (bool_decide (key.1 = (gvr, ow_namespace ow) ∧ key.2 ∈ names)) eqn:Hb; simpl in Hk;
    [|rewrite Hst in Hk; destruct (IH st' (eq_sym Hk)) as [|[]]; eauto].
  destruct (unwanted d desired g key) eqn:Hu; [|rewrite Hst in Hk; destruct (IH st' (eq_sym Hk)) as [|[]]; eauto].
  right. apply bool_decide_eq_true in Hb as [Hk1 Hk2]. split.
  - by apply prune_loop_none.
  - apply listed_spec in Hk2 as (o' & Ho' & Hlab). destruct key as [[r n] nm]. simpl in *. simplify_eq.
    split; [done|]. exists g, gvr. split_and!; try done. set_solver.
Qed.

Lemma prune_loop_complete d ow desired gvks st key o :
  st.1 !! key = Some o → prunable d ow desired gvks key o →
  (∀ g gvr, g ∈ gvks → gvkToGVR d g = Some gvr → de_list_fails d gvr ≠ Some false) →
  (prune_loop d ow desired st gvks).1 !! key = None.
Proof.
  intros Hst (Hlab & g0 & gvr0 & Hg & Hr0 & Hl0 & Hk & Hu) Hok. revert st Hst. induction gvks as [|g gvks IH]; intros st Hst;
    [set_solver|]. simpl.
  assert (∀ st : Cluster Obj * list error, g0 ∈ gvks → st.1 !! key = Some o → (prune_loop d ow desired st gvks).1 !! key = None) as IH'.
  { intros st' Hin Hs. apply IH; [done| |done]. intros g' gvr' Hg'. apply Hok. set_solver. }
  apply elem_of_cons in Hg as [<-|Hg].
  - rewrite Hr0, Hl0. apply prune_loop_none. rewrite prune_items_lookup, Hu, andb_true_r.
    rewrite bool_decide_eq_true_2; [done|]. split; [done|]. apply listed_spec. exists o. split; [|done].
    destruct key as [p n]. simpl in *. by subst p.
  - destruct (gvkToGVR d g) as [gvr|] eqn:Hr; [|by apply IH'].
    destruct (de_list_fails d gvr) as [[|]|] eqn:Hl; [by apply IH'|by destruct (Hok g gvr); [set_solver|..]|].
    set (st' := foldl _ _ _). destruct (st'.1 !! key) as [o'|] eqn:Hs'; [|by apply prune_loop_none].
    apply IH'; [done|]. pose proof Hs' as Hi. unfold st' in Hi. rewrite prune_items_lookup in Hi.
    destruct (_ && _); [done|]. congruence.
Qed.
End deploy_lemmas.

(** ** Theorems *)

Section theorems.
Context {Obj : Type} `{PatchLib Obj}.
Implicit Types (d : Deployer Obj) (o ex : Object Obj) (c : Cluster Obj) (desired : list (Object Obj)).

Lemma refused_foreign d src objs gvr ns name ex :
  (∀ o, o ∈ objs → key_of d o = Some (gvr, ns, name) → ob_gvk o = ServiceGVK) →
  hasControllerOwnerRef ex src = false → foreign d objs (gvr, ns, name) ex → refused d (Some src) objs (gvr, ns, name) ex.
Proof.
  intros Hg Hc Hf o Ho Hk. unfold may_apply. rewrite Hc, (foreign_metadata d objs _ ex o Hf Ho Hk).
  by rewrite bool_decide_eq_true_2 by (by apply Hg).
Qed.

Lemma deploy_foreign d src c objs gvr ns name ex c' log e :
  DeployObjsWithSource d (Some src) c objs = (c', log, e) →
  (∀ o, o ∈ objs → key_of d o = Some (gvr, ns, name) → ob_gvk o = ServiceGVK) →
  c !! (gvr, ns, name) = Some ex → de_get_fails d (gvr, ns, name) = false → hasControllerOwnerRef ex src = false →
  foreign d objs (gvr, ns, name) ex →
  c' !! (gvr, ns, name) = Some ex ∧ (∀ o, o ∈ log → key_of d o ≠ Some (gvr, ns, name)) ∧
  ((∃ o, o ∈ objs ∧ key_of d o = Some (gvr, ns, name)) → is_Some e).
Proof.
  intros Hd Hg Hc Hget Hctl Hf. pose proof (refused_foreign d src objs gvr ns name ex Hg Hctl Hf) as Hr.
  destruct (deploy_loop_refused d (Some src) (SortByKindPriority objs) c _ ex c' log e Hd Hc Hget) as (H1 & H2 & H3).
  - intros o Ho%sort_stable_elem_of. by apply Hr.
  - split_and!; [done..|]. intros (o & Ho & Hk). apply H3. exists o. split; [by apply sort_stable_elem_of|done].
Qed.

(** C21: ownership.  A reconciliation that can read a Service does not change it when another tool
    manages it and the Gateway does not control it, whatever its parameters and its chart ask
    for, where Services are the one kind with their resource.  When the read fails with an error
    other than not found, the code applies without this check, and nothing is claimed. *)
Theorem reconcile_keeps_foreign_service (r : @Reconciler Obj) c g res gvr ns name ex v :
  Reconcile r c (Some g) = Some res →
  gvkToGVR (re_deployer r) ServiceGVK = Some gvr → (∀ k, gvkToGVR (re_deployer r) k = Some gvr → k = ServiceGVK) →
  c !! (gvr, ns, name) = Some ex → de_get_fails (re_deployer r) (gvr, ns, name) = false →
  hasControllerOwnerRef ex (owner_of g) = false → label ex ManagedByLabel = Some v → v ≠ de_managed_by (re_deployer r) →
  res_cluster res !! (gvr, ns, name) = Some ex.
Proof.
  intros Hrec Hsvc Hinj Hc Hget Hctl Hlab Hne.
  assert (∀ ws objs, res_cluster (deploy_and_report r c g ws objs) !! (gvr, ns, name) = Some ex) as Hrep.
  { intros ws objs. unfold deploy_and_report. set (objs' := SetNamespaceAndOwnerWithGVK _ _ _).
    destruct (DeployObjsWithSource _ _ c objs') as [[c' log] e] eqn:Hd.
    destruct (deploy_foreign _ _ _ _ gvr ns name ex _ _ _ Hd) as (Hc' & _ & _); try done.
    - intros o _. unfold key_of. destruct (gvkToGVR _ (ob_gvk o)) eqn:Hk; [|done]. intros [= -> _ _]. by apply Hinj.
    - left. eauto.
    - destruct e; [done|]. destruct (PruneRemovedResources _ _ objs' c') as [c'' e'] eqn:Hp.
      assert (c'' !! (gvr, ns, name) = Some ex) as Hc''.
      { change c'' with (c'', e').1. rewrite <- Hp. unfold PruneRemovedResources.
        destruct (prune_loop_sound (re_deployer r) (owner_of g) objs' targetGVKs (c', []) (gvr, ns, name) ex Hc') as [|[_ Hpr]]; [done|].
        destruct Hpr as (_ & k & gvr' & Hk & Hkr & _ & Heq & _). simpl in Heq. simplify_eq. apply Hinj in Hkr as ->.
        unfold targetGVKs in Hk. set_solver. }
      destruct e'; [done|]. by destruct (updateStatus _ _ _). }
  unfold Reconcile in Hrec. destruct (gr_deleting g); [by simplify_eq|].
  destruct (cl_classes _ !! _); [|by simplify_eq]. destruct (negb _); [by simplify_eq|].
  destruct (GetObjsToDeploy r _) as [|[] e|objs]; [done|by simplify_eq|by destruct (re_update_fails r); simplify_eq|].
  destruct (was_invalid g), (re_update_fails r); simplify_eq; try done; apply Hrep.
Qed.

(** Pruning.  Unless a list request fails, the objects a pruning removes are exactly the
    disruption budgets and autoscalers in the Gateway's namespace that carry its name as label,
    are not among the desired objects, and whose deletion succeeds; every other object of the
    cluster stays as it is. *)
Theorem prune_exact d ow desired c key o :
  (∀ g gvr, g ∈ targetGVKs → gvkToGVR d g = Some gvr → de_list_fails d gvr ≠ Some false) → c !! key = Some o →
  (prunable d ow desired targetGVKs key o → (PruneRemovedResources d ow desired c).1 !! key = None) ∧
  (~ prunable d ow desired targetGVKs key o → (PruneRemovedResources d ow desired c).1 !! key = Some o).
Proof.
  intros Hok Hc. split; intros Hp.
  - by apply (prune_loop_complete d ow desired targetGVKs (c, []) key o).
  - by destruct (prune_loop_sound d ow desired targetGVKs (c, []) key o Hc) as [|[_ ?]].
Qed.

(** Every reconciliation ends with a result: no input makes the code dereference nil. *)
Theorem reconcile_total (r : @Reconciler Obj) c gw : is_Some (Reconcile r c gw).
Proof.
  unfold Reconcile. destruct gw as [g|]; [|done]. destruct (gr_deleting g); [done|].
  destruct (cl_classes _ !! _); [|done]. destruct (negb _); [done|]. unfold GetObjsToDeploy.
  pose proof (GetValues_defined (re_file r) (re_inputs r) (re_clients r) (re_gateways r) (re_controller r) (gr_gateway g)) as Hd.
  destruct (GetValues _ _ _ _ _ _) as [|e| |h]; [done|..].
  - destruct (match e with EMsg m => _ | _ => false end), (re_update_fails r); done.
  - destruct (was_invalid g), (re_update_fails r); done.
  - destruct (re_render r h); [by destruct (re_update_fails r)|].
    destruct (PostProcessObjects _ _ _); [by destruct (re_update_fails r)|]. destruct (was_invalid g), (re_update_fails r); done.
Qed.

(** ** Findings *)

(** Pruning goes by label and name: an object the Gateway does not own is deleted all the same. *)
Theorem pruning_ignores_owners d ow desired key o :
  prunable d ow desired targetGVKs key o →
  prunable d ow desired targetGVKs key (with_place o (ob_namespace o) []).
Proof. done. Qed.

(** The patch of a VerticalPodAutoscaler replaces whole fields of the spec. *)
Theorem vpa_patch_replaces_field (dep : Object Obj) ov patch m k v :
  raw_patch ov = Some patch → unmarshal patch = inr m → m !! k = Some v →
  ∃ o, createVerticalPodAutoscaler dep ov = inr o ∧ ob_spec o !! k = Some v.
Proof.
  intros Hp Hu Hk. unfold createVerticalPodAutoscaler. rewrite Hp, Hu. eexists. split; [done|]. simpl.
  by apply lookup_union_Some_l.
Qed.
End theorems.

(** An address of the spec that the Service has too is reported twice. *)
Theorem service_address_repeated ip owners :
  ip ≠ "" →
  getDesiredAddresses [(Some IPAddressType, ip)] (Some (mkSV owners "ClusterIP" [] [] ip)) =
    [(Some IPAddressType, ip); (Some IPAddressType, ip)].
Proof.
  intros Hne. unfold getDesiredAddresses. simpl.
  by rewrite (proj2 (String.eqb_neq _ _) Hne).
Qed.

(** ** Examples and witnesses *)

Definition ex_patches : PatchLib string := {|
  strategic_merge _ spec p := inr (<["patched" := p]> spec); unmarshal p := inr {["targetRef" := p]};
  deployment_ref n := "deployment/" +:+ n |}.

Definition ex_object (g : GroupVersionKind) (name : string) (labels : option (gmap string string)) : Object string :=
  mkObj g true "apps" name "" labels None [] {["selector" := "app=" +:+ name]} None None None.
Definition ex_budget : KubernetesResourceOverlay := mkOverlay None None (Some "{}").
Definition ex_overlays : GatewayParametersOverlays := mkOverlays None None None (Some ex_budget) None None.

(** When the class and the Gateway both ask for a disruption budget, two of the same name are
    rendered: the second is not laid over the first. *)
Example budgets_of_both_levels :
  match @ApplyOverlays string ex_patches (Some ex_overlays) [ex_object DeploymentGVK "edge" None] with
  | inr l => match @ApplyOverlays string ex_patches (Some ex_overlays) l with
             | inr l => Some (map (λ o, (gvk_kind (ob_gvk o), ob_name o)) l)
             | inl _ => None
             end
  | inl _ => None
  end = Some [("Deployment", "edge"); ("PodDisruptionBudget", "edge"); ("PodDisruptionBudget", "edge")].
Proof. vm_compute. reflexivity. Qed.

Definition ex_gvr (g : GroupVersionKind) : option GVR :=
  if bool_decide (g = ServiceGVK) then Some ("", "v1", "services")
  else if bool_decide (g = DeploymentGVK) then Some ("apps", "v1", "deployments")
  else if bool_decide (g = PodDisruptionBudgetGVK) then Some ("policy", "v1", "poddisruptionbudgets") else None.
Definition ex_deployer : Deployer string :=
  mkDeployer "kgateway" ∅ ex_gvr (λ _, false) (λ _ _ o, inr o) (λ _, None) (λ _, None) (λ _ _, false).
Definition ex_service : Object string := ex_object ServiceGVK "edge" (Some {[ManagedByLabel := "Helm"]}).
Definition ex_pdb : Object string := ex_object PodDisruptionBudgetGVK "old" (Some {[GatewayNameLabel := "edge"]}).
Definition ex_service_key : Key := (("", "v1", "services"), "apps", "edge").
Definition ex_pdb_key : Key := (("policy", "v1", "poddisruptionbudgets"), "apps", "old").
Definition ex_cluster : Cluster string := {[ ex_service_key := ex_service; ex_pdb_key := ex_pdb ]}.

Definition ex_reconciler : @Reconciler string :=
  mkRec "kgateway.dev/kgateway" ex_inputs ex_clients (λ _, Missing) ∅ ex_deployer
    (λ _, inr [ex_object ServiceGVK "edge" None; ex_object DeploymentGVK "edge" None]) ∅ None.
Definition ex_res : GatewayRes := mkGR (mkGVK "" "" "") ex_gateway "uid-1" false 1 [] [].
Definition ex_result : Result := default (mkRes3 ∅ [] None) (@Reconcile string ex_patches ex_reconciler ex_cluster (Some ex_res)).

Lemma ex_services k : gvkToGVR ex_deployer k = Some ("", "v1", "services") → k = ServiceGVK.
Proof.
  unfold gvkToGVR, GVKToGVR. cbn [ex_deployer de_istio_gvr de_mapper]. unfold ex_gvr.
  case_bool_decide; [done|]. case_bool_decide; [done|]. case_bool_decide; [done|]. rewrite lookup_empty.
  assert (∀ e, e ∈ kgateway_resources → e.2 ≠ ("", "v1", "services")) as Hr.
  { apply Forall_forall. unfold kgateway_resources. simpl. by repeat constructor. }
  destruct (head _) as [e|] eqn:He; [|done]. simpl. intros [= Hs]. destruct (Hr e); [|done].
  apply head_Some_elem_of, list_elem_of_filter in He. apply He.
Qed.

Lemma ex_reconciled : @Reconcile string ex_patches ex_reconciler ex_cluster (Some ex_res) = Some ex_result.
Proof. unfold ex_result. by destruct (@reconcile_total string ex_patches ex_reconciler ex_cluster (Some ex_res)) as [res ->]. Qed.

(** The foreign Service stops the deployment of [ex_res] before its Deployment. *)
Lemma reconcile_keeps_foreign_service_witness :
  match res_error ex_result with Some _ => true | None => false end = true ∧
  res_cluster ex_result !! ex_service_key = Some ex_service.
Proof.
  split; [vm_compute; reflexivity|].
  apply (@reconcile_keeps_foreign_service string ex_patches ex_reconciler ex_cluster ex_res ex_result ("", "v1", "services") "apps"
           "edge" ex_service "Helm"); [exact ex_reconciled|vm_compute; reflexivity|exact ex_services|vm_compute; reflexivity|
           reflexivity|vm_compute; reflexivity|vm_compute; reflexivity|done].
Defined.

Definition ex_owner : Owner := mkOwnerObj GatewayGVK "apps" "edge" "uid-1".

(** The budget [ex_pdb] is removed. *)
Lemma prune_exact_witness :
  ex_cluster !! ex_pdb_key = Some ex_pdb ∧ (PruneRemovedResources ex_deployer ex_owner [] ex_cluster).1 !! ex_pdb_key = None.
Proof.
  split; [vm_compute; reflexivity|].
  apply (prune_exact ex_deployer ex_owner [] ex_cluster ex_pdb_key ex_pdb); [done|vm_compute; reflexivity|].
  split; [vm_compute; reflexivity|]. exists PodDisruptionBudgetGVK, ("policy", "v1", "poddisruptionbudgets").
  split_and!; [unfold targetGVKs; set_solver|vm_compute; reflexivity..].
Defined.
