(* ===== verification/TrafficPolicyPass.v ===== *)
(** * The TrafficPolicy translation pass
      (pkg/kgateway/extensions2/plugins/trafficpolicy: traffic_policy_plugin.go, utils.go and the
      handlers of the sub-policies)

    A pass is made for each gateway.  Its hooks are called for routes, backends, virtual hosts and
    route configurations: they write configurations of filters next to the route and remember,
    by filter chain, which filters the chain needs; [HttpFilters] and [UpstreamHttpFilters] then
    build the filters of a chain from what was remembered.

    [Cfg] stands for the protobuf messages that the pass only moves.  A pointer that the
    constructors always set is a value, other pointers are options; a nil dereference is [None].
    Types of upgrades are ASCII. *)

From S2P Require Import Prelude IR Filters SslUtils.

(** ** Sub-policies *)

(** [kgateway.FilterStageSpec]. *)
Record StageSpec := mkStageSpec { fs_stage : string; fs_predicate : string; fs_weight : Z }.

Definition FilterStageFault : string := "Fault".
Definition FilterStageAuthN : string := "AuthN".
Definition FilterStageAuthZ : string := "AuthZ".
Definition FilterStageRateLimit : string := "RateLimit".
Definition FilterStageRoute : string := "Route".
Definition FilterStagePredicateBefore : string := "Before".
Definition FilterStagePredicateAfter : string := "After".

Definition CompressionGzip : string := "Gzip".
Definition CompressionBrotli : string := "Brotli".
Definition CompressionZstd : string := "Zstd".

Section ir.
Context {Cfg : Type}.

Record TlsSecret := mkTlsSecret { ts_name : string; ts_body : Cfg }.

Record oauthPerProviderConfig := mkOAuthCfg {
  oa_cfg : option Cfg; oa_jwtCfg : option Cfg; oa_secrets : list TlsSecret }.

Record TrafficPolicyGatewayExtensionIR := mkExt {
  ge_name : string;
  ge_extAuth : option Cfg;
  ge_extProc : option Cfg;
  ge_rateLimit : option Cfg;
  ge_jwt : option Cfg;
  ge_oauth2 : option oauthPerProviderConfig;
  ge_weight : Z;
  ge_filterStage : option StageSpec;
  ge_err : option error }.
Abbreviation Ext := TrafficPolicyGatewayExtensionIR.

(** [bufferIR] of the pass: a policy that only disables buffering has no stage. *)
Record bufferIR := mkBufferIR { bu_perRoute : Cfg; bu_stage : option FilterStage }.

Record perProviderExtAuthConfig := mkExtAuthCfg { pa_provider : option Ext; pa_perRoute : option Cfg }.
Record extAuthIR := mkExtAuthIR { ea_providers : list perProviderExtAuthConfig; ea_disableAll : bool }.

Record perProviderExtProcConfig := mkExtProcCfg {
  pp_provider : option Ext; pp_perRoute : Cfg; pp_stage : FilterStage }.
Record extprocIR := mkExtProcIR { ep_providers : list perProviderExtProcConfig; ep_disableAll : bool }.

Record perProviderJwtConfig := mkJwtCfg { pj_provider : option Ext; pj_perRoute : Cfg }.
Record jwtIr := mkJwtIr { jw_providers : list perProviderJwtConfig; jw_disableAll : bool }.

(** [globalRateLimitIR]: actions are never an empty slice, [[]] is nil. *)
Record globalRateLimitIR := mkGlobalRL { gr_provider : Ext; gr_actions : list Cfg }.

(** [apiKeyAuthIR] and [basicAuthIR]. *)
Record keyAuthIR := mkKeyAuth { ka_config : option Cfg; ka_disable : bool }.

(** [compressionIR] and [decompressionIR]. *)
Record codecsIR := mkCodecs { cd_enable : bool; cd_libraries : list string }.

Record oauthIR := mkOAuthIR { oi_config : oauthPerProviderConfig; oi_source : Ext }.

Record requestMirrorIR := mkRequestMirror { rmi_disable_suffix : option bool; rmi_host : option string }.
Record timeoutsIR := mkTimeoutsIR { ti_route : option Z; ti_idle : option Z }.
Record UpgradeConfig := mkUpgrade { up_type : string; up_connect : bool }.

(** [trafficPolicySpecIr]; a sub-policy that wraps one message is that message. *)
Record trafficPolicySpecIr := mkSpecIR {
  s_buffer : option bufferIR;
  s_extProc : option extprocIR;
  s_rustformation : option (option Cfg);
  s_extAuth : option extAuthIR;
  s_localRateLimit : option Cfg;
  s_globalRateLimit : option globalRateLimitIR;
  s_cors : option (option Cfg);
  s_csrf : option Cfg;
  s_headerModifiers : option Cfg;
  s_requestMirror : option requestMirrorIR;
  s_autoHostRewrite : option (option bool);
  s_retry : option (option Cfg);
  s_timeouts : option timeoutsIR;
  s_internalRedirect : option (option Cfg);
  s_rbac : option (option Cfg);
  s_jwt : option jwtIr;
  s_compression : option codecsIR;
  s_decompression : option codecsIR;
  s_basicAuth : option keyAuthIR;
  s_urlRewrite : option (option (string * string));
  s_apiKeyAuth : option keyAuthIR;
  s_oauth2 : option oauthIR;
  s_tracing : option (option Cfg);
  s_faultInjection : option (option Cfg);
  s_httpACL : option (option Cfg);
  s_statPrefix : option string;
  s_httpUpgrade : option (list UpgradeConfig) }.

Definition zeroSpecIR : trafficPolicySpecIr :=
  mkSpecIR None None None None None None None None None None None None None None None None None
    None None None None None None None None None None.

(** ** Messages *)

(** What is written next to a route: [FilterConfig] (whether a config is set, disabled, optional),
    a message of a sub-policy, the metadata and the blank transformation of [AddAuthMetadataIfNeeded] and
    [AddBlankTransformationIfNeeded], and the messages that the handlers make. *)
Inductive RouteMsg :=
| RFilterConfig (config disabled optional : bool)
| RCfg (c : option Cfg)
| RAuthMetadata
| RBlankTransformation
| RRateLimits (actions : list Cfg)
| RRequirement (name : string)
| REmptyFault.

(** What configures a filter of a chain. *)
Inductive FilterMsg :=
| FProvider (c : Cfg)
| FEmptyFault
| FAclDefault (json : string)
| FSetMetadata (namespace key : string)
| FBlankTransformation
| FLocalRateLimit (statPrefix : string)
| FEmptyCors
| FCsrfOff
| FEmptyHeaderMutation
| FBuffer (maxRequestBytes : Z)
| FEmptyRbac
| FCompressor (library : string)
| FDecompressor (library : string)
| FBasicAuth (users : string)
| FEmptyApiKeyAuth.

End ir.
Arguments TlsSecret : clear implicits. Arguments oauthPerProviderConfig : clear implicits.
Arguments TrafficPolicyGatewayExtensionIR : clear implicits. Arguments bufferIR : clear implicits.
Arguments perProviderExtAuthConfig : clear implicits. Arguments extAuthIR : clear implicits.
Arguments perProviderExtProcConfig : clear implicits. Arguments extprocIR : clear implicits.
Arguments perProviderJwtConfig : clear implicits. Arguments jwtIr : clear implicits.
Arguments globalRateLimitIR : clear implicits. Arguments keyAuthIR : clear implicits.
Arguments oauthIR : clear implicits. Arguments trafficPolicySpecIr : clear implicits.
Arguments RouteMsg : clear implicits. Arguments FilterMsg : clear implicits.

(** ** Names and stages *)

Definition rustformationFilterNamePrefix : string := "dynamic_modules/simple_mutations".
Definition localRateLimitFilterNamePrefix : string := "ratelimit/local".
Definition localRateLimitStatPrefix : string := "http_local_rate_limiter".
Definition rateLimitFilterNamePrefix : string := "ratelimit".
Definition rbacFilterNamePrefix : string := "envoy.filters.http.rbac".
Definition corsFilterName : string := "envoy.filters.http.cors".
Definition csrfExtensionFilterName : string := "envoy.filters.http.csrf".
Definition headerMutationFilterName : string := "envoy.extensions.filters.http.header_mutation".
Definition bufferFilterName : string := "envoy.filters.http.buffer".
Definition faultFilterName : string := "envoy.filters.http.fault".
Definition httpACLFilterNamePrefix : string := "dynamic_modules/http-acl".
Definition dquote : string := String (Ascii.ascii_of_nat 34) EmptyString.
Definition httpACLDefaultListenerJSON : string := "{" +:+ dquote +:+ "defaultAction" +:+ dquote +:+ ":" +:+ dquote +:+ "allow" +:+ dquote +:+ "}".
Definition basicAuthFilterName : string := "envoy.filters.http.basic_auth".
Definition apiKeyAuthFilterNamePrefix : string := "envoy.filters.http.api_key_auth".
Definition compressorFilterName : string := "envoy.filters.http.compressor".
Definition decompressorFilterName : string := "envoy.filters.http.decompressor".
Definition extProcFilterPrefix : string := "ext_proc/".
Definition extauthFilterNamePrefix : string := "ext_auth".
Definition jwtFilterNamePrefix : string := "jwt".
Definition globalFilterDisableMetadataKey : string := "disable".
Definition extProcGlobalDisableFilterName : string := "global_disable/ext_proc".
Definition extProcGlobalDisableFilterMetadataNamespace : string := "dev.kgateway.disable_ext_proc".
Definition ExtAuthGlobalDisableFilterName : string := "global_disable/ext_auth".
Definition ExtAuthGlobalDisableFilterMetadataNamespace : string := "dev.kgateway.disable_ext_auth".
Definition jwtGlobalDisableFilterName : string := "global_disable/jwt".
Definition jwtGlobalDisableFilterMetadataNamespace : string := "dev.kgateway.disable_jwt".
Definition ExtAuthEnabledFilterName : string := "ext_auth_enabled".
Definition JwtEnabledFilterName : string := "jwt_enabled".
Definition OauthEnabledFilterName : string := "oauth2_enabled".
Definition BasicAuthEnabledFilterName : string := "basic_auth_enabled".
Definition APIKeyAuthEnabledFilterName : string := "api_key_auth_enabled".
Definition oauthJWTRequirementName : string := "oauth2".

Definition extProcFilterName (name : string) : string :=
  if String.eqb name "" then extProcFilterPrefix else extProcFilterPrefix +:+ name.
Definition extAuthFilterName (name : string) : string :=
  if String.eqb name "" then extauthFilterNamePrefix else extauthFilterNamePrefix +:+ "/" +:+ name.
Definition jwtFilterName (name : string) : string :=
  if String.eqb name "" then jwtFilterNamePrefix else jwtFilterNamePrefix +:+ "/" +:+ name.
Definition getRateLimitFilterName (name : string) : string :=
  if String.eqb name "" then rateLimitFilterNamePrefix else rateLimitFilterNamePrefix +:+ "/" +:+ name.
Definition oauthFilterName (provider : string) : string := "envoy.filters.http.oauth2/" +:+ provider.
Definition oauthJWTFilterName (provider : string) : string := "envoy.filters.http.oauth2/jwt/" +:+ provider.

Definition codec_suffix (library : string) : string :=
  if String.eqb library CompressionBrotli then ".brotli"
  else if String.eqb library CompressionZstd then ".zstd" else "".
Definition compressorFilterNameFor (library : string) : string := compressorFilterName +:+ codec_suffix library.
Definition decompressorFilterNameFor (library : string) : string := decompressorFilterName +:+ codec_suffix library.
Definition allCompressionLibraries : list string := [CompressionGzip; CompressionBrotli; CompressionZstd].

Definition defaultBufferFilterStage : FilterStage := RelativeToStage AcceptedStage (-2).
Definition defaultExtProcFilterStage : FilterStage := AfterStage AuthZStage.
Definition headOfStageWeight : Z := -2.
Definition TransformationStage : Z := 0.

(** [convertFilterStageSpec]. *)
Definition stage_named (s : string) : option Z :=
  if String.eqb s FilterStageFault then Some FaultStage
  else if String.eqb s FilterStageAuthN then Some AuthNStage
  else if String.eqb s FilterStageAuthZ then Some AuthZStage
  else if String.eqb s FilterStageRateLimit then Some RateLimitStage
  else if String.eqb s FilterStageRoute then Some RouteStage
  else None.

Definition convertFilterStageSpec (cfg : option StageSpec) (defaultStage : FilterStage) : FilterStage :=
  match cfg with
  | None => defaultStage
  | Some c =>
      match stage_named (fs_stage c) with
      | None => defaultStage
      | Some stage =>
          if String.eqb (fs_predicate c) FilterStagePredicateBefore then BeforeStage stage
          else if String.eqb (fs_predicate c) FilterStagePredicateAfter then AfterStage stage
          else DuringStage stage
      end
  end.

(** [runAsUpstreamFilter]. *)
Definition runAsUpstreamFilter (filterStage : FilterStage) : bool :=
  (RouteStage <? RelativeTo filterStage)%Z ||
  ((RelativeTo filterStage =? RouteStage)%Z && (0 <? RelativeWeight filterStage)%Z).

Definition EnableFilterPerRoute {Cfg} : RouteMsg Cfg := RFilterConfig true false false.
Definition DisableFilterPerRoute {Cfg} : RouteMsg Cfg := RFilterConfig true true false.
Definition DisableFilterPerRouteOptional {Cfg} : RouteMsg Cfg := RFilterConfig true true true.

(** ** State of the pass *)

(** The maps of the pass that hold one fixed message by filter chain. *)
Inductive ChainFilter :=
| setTransformationInChain | localRateLimitInChain | rbacInChain | corsInChain | csrfInChain
| headerMutationInChain | basicAuthInChain | apiKeyAuthInChain | faultInChain | httpACLInChain.
#[global] Instance ChainFilter_eq_dec : EqDecision ChainFilter.
Proof. solve_decision. Defined.

(** The maps of providers by filter chain. *)
Inductive ProviderKind :=
| extAuthPerProvider | extProcPerProvider | jwtPerProvider | rateLimitPerProvider | oauth2PerProvider.
#[global] Instance ProviderKind_eq_dec : EqDecision ProviderKind.
Proof. solve_decision. Defined.

Definition chain_filters : list ChainFilter :=
  [setTransformationInChain; localRateLimitInChain; rbacInChain; corsInChain; csrfInChain;
   headerMutationInChain; basicAuthInChain; apiKeyAuthInChain; faultInChain; httpACLInChain].
#[global] Program Instance ChainFilter_finite : finite.Finite ChainFilter := {| finite.enum := chain_filters |}.
Next Obligation. apply (bool_decide_unpack _). by vm_compute. Qed.
Next Obligation. intros f. apply (bool_decide_unpack _). by destruct f; vm_compute. Qed.
Definition provider_kinds : list ProviderKind :=
  [extAuthPerProvider; extProcPerProvider; jwtPerProvider; rateLimitPerProvider; oauth2PerProvider].
#[global] Program Instance ProviderKind_finite : finite.Finite ProviderKind := {| finite.enum := provider_kinds |}.
Next Obligation. apply (bool_decide_unpack _). by vm_compute. Qed.
Next Obligation. intros f. apply (bool_decide_unpack _). by destruct f; vm_compute. Qed.

Section pass.
Context {Cfg : Type}.
Abbreviation Ext := (TrafficPolicyGatewayExtensionIR Cfg).
Abbreviation Spec := (trafficPolicySpecIr Cfg).
Abbreviation Msg := (RouteMsg Cfg).
Abbreviation Typed := (gmap string (RouteMsg Cfg)).

Record Provider := mkProvider { pr_name : string; pr_ext : option Ext; pr_stage : FilterStage }.

(** [bufferChainEntry]; its buffer always has the largest limit. *)
Record bufferChainEntry := mkBufferEntry { be_max : Z; be_stage : option FilterStage }.

(** [compressorEntry] and [decompressorEntry]: the name of the filter and its codec. *)
Abbreviation codecEntry := (string * string)%type.

Record trafficPolicyPluginGwPass := mkTPPass {
  enableAuthMetadata : bool;
  inChain : gset (ChainFilter * string);
  providersOf : gmap (ProviderKind * string) (list Provider);
  requestMirrorConfigured : gset string;
  bufferInChain : gmap string bufferChainEntry;
  compressorInChain : gmap string (list codecEntry);
  decompressorInChain : gmap string (list codecEntry);
  pass_secrets : gmap string (TlsSecret Cfg) }.
Abbreviation Pass := trafficPolicyPluginGwPass.

Definition NewGatewayTranslationPass (enableAuthMetadata : bool) : Pass :=
  mkTPPass enableAuthMetadata ∅ ∅ ∅ ∅ ∅ ∅ ∅.

Definition providers (s : Pass) (k : ProviderKind) (fcn : string) : list Provider :=
  default [] (providersOf s !! (k, fcn)).

Definition add_chain (k : ChainFilter) (fcn : string) (s : Pass) : Pass :=
  mkTPPass (enableAuthMetadata s) ({[ (k, fcn) ]} ∪ inChain s) (providersOf s) (requestMirrorConfigured s)
    (bufferInChain s) (compressorInChain s) (decompressorInChain s) (pass_secrets s).

(** [ProviderNeededMap.Add]. *)
Definition Add (k : ProviderKind) (filterChain providerName : string) (provider : option Ext) (stage : FilterStage)
    (s : Pass) : Pass :=
  mkTPPass (enableAuthMetadata s) (inChain s)
    (<[(k, filterChain) := providers s k filterChain ++ [mkProvider providerName provider stage]]> (providersOf s))
    (requestMirrorConfigured s) (bufferInChain s) (compressorInChain s) (decompressorInChain s) (pass_secrets s).

Definition with_mirrors m (s : Pass) : Pass :=
  mkTPPass (enableAuthMetadata s) (inChain s) (providersOf s) m (bufferInChain s) (compressorInChain s)
    (decompressorInChain s) (pass_secrets s).
Definition with_buffers m (s : Pass) : Pass :=
  mkTPPass (enableAuthMetadata s) (inChain s) (providersOf s) (requestMirrorConfigured s) m (compressorInChain s)
    (decompressorInChain s) (pass_secrets s).
Definition with_compressors m (s : Pass) : Pass :=
  mkTPPass (enableAuthMetadata s) (inChain s) (providersOf s) (requestMirrorConfigured s) (bufferInChain s) m
    (decompressorInChain s) (pass_secrets s).
Definition with_decompressors m (s : Pass) : Pass :=
  mkTPPass (enableAuthMetadata s) (inChain s) (providersOf s) (requestMirrorConfigured s) (bufferInChain s)
    (compressorInChain s) m (pass_secrets s).
Definition with_secrets m (s : Pass) : Pass :=
  mkTPPass (enableAuthMetadata s) (inChain s) (providersOf s) (requestMirrorConfigured s) (bufferInChain s)
    (compressorInChain s) (decompressorInChain s) m.

(** ** Handlers

    They write to the configurations of the context and to the pass. *)

Abbreviation St := (Typed * Pass)%type.

Definition AddTypedConfig (key : string) (v : Msg) (x : St) : St := (<[key := v]> x.1, x.2).
Definition on_pass (f : Pass → Pass) (x : St) : St := (x.1, f x.2).

Definition AddAuthMetadataIfNeeded (filterName : string) (x : St) : St :=
  if enableAuthMetadata x.2 then AddTypedConfig filterName RAuthMetadata x else x.
Definition AddBlankTransformationIfNeeded (filterName : string) (x : St) : St :=
  if enableAuthMetadata x.2 then AddTypedConfig filterName RBlankTransformation x else x.

(** [providerName]. *)
Definition providerName (provider : option Ext) : string := default "" (ge_name <$> provider).

Definition handleRustFormation (fcn : string) (r : option (option Cfg)) (x : St) : St :=
  match r with
  | Some (Some c) => on_pass (add_chain setTransformationInChain fcn) (AddTypedConfig rustformationFilterNamePrefix (RCfg (Some c)) x)
  | _ => x
  end.

Definition handleExtAuth (fcn : string) (i : option (extAuthIR Cfg)) (x : St) : St :=
  match i with
  | None => x
  | Some i =>
      if ea_disableAll i then
        AddBlankTransformationIfNeeded ExtAuthEnabledFilterName
          (AddTypedConfig ExtAuthGlobalDisableFilterName EnableFilterPerRoute x)
      else
        let x := foldl (λ x cfg,
          let name := providerName (pa_provider cfg) in
          let x := on_pass (Add extAuthPerProvider fcn name (pa_provider cfg) (DuringStage AuthNStage)) x in
          AddTypedConfig (extAuthFilterName name)
            (match pa_perRoute cfg with Some c => RCfg (Some c) | None => EnableFilterPerRoute end) x) x (ea_providers i) in
        match ea_providers i with [] => x | _ => AddAuthMetadataIfNeeded ExtAuthEnabledFilterName x end
  end.

Definition handleExtProc (fcn : string) (i : option (extprocIR Cfg)) (x : St) : St :=
  match i with
  | None => x
  | Some i =>
      if ep_disableAll i then AddTypedConfig extProcGlobalDisableFilterName EnableFilterPerRoute x
      else
        foldl (λ x cfg,
          let name := providerName (pp_provider cfg) in
          AddTypedConfig (extProcFilterName name) (RCfg (Some (pp_perRoute cfg)))
            (on_pass (Add extProcPerProvider fcn name (pp_provider cfg) (pp_stage cfg)) x)) x (ep_providers i)
  end.

Definition handleJwt (fcn : string) (i : option (jwtIr Cfg)) (x : St) : St :=
  match i with
  | None => x
  | Some i =>
      if jw_disableAll i then
        AddBlankTransformationIfNeeded JwtEnabledFilterName (AddTypedConfig jwtGlobalDisableFilterName EnableFilterPerRoute x)
      else
        let x := foldl (λ x cfg,
          let name := providerName (pj_provider cfg) in
          on_pass (Add jwtPerProvider fcn name (pj_provider cfg) (DuringStage AuthNStage))
            (AddTypedConfig (jwtFilterName name) (RCfg (Some (pj_perRoute cfg))) x)) x (jw_providers i) in
        match jw_providers i with [] => x | _ => AddAuthMetadataIfNeeded JwtEnabledFilterName x end
  end.

Definition handleGlobalRateLimit (fcn : string) (g : option (globalRateLimitIR Cfg)) (x : St) : St :=
  match g with
  | None => x
  | Some g =>
      match gr_actions g with
      | [] => x
      | actions =>
          let name := ge_name (gr_provider g) in
          AddTypedConfig (getRateLimitFilterName name) (RRateLimits actions)
            (on_pass (Add rateLimitPerProvider fcn name (Some (gr_provider g)) (DuringStage RateLimitStage)) x)
      end
  end.

(** Handlers that write one message and need one filter: the chain keeps what it has. *)
Definition handleLocalRateLimit (fcn : string) (l : option Cfg) (x : St) : St :=
  match l with
  | None => x
  | Some c => on_pass (add_chain localRateLimitInChain fcn) (AddTypedConfig localRateLimitFilterNamePrefix (RCfg (Some c)) x)
  end.

Definition handleCors (fcn : string) (c : option (option Cfg)) (x : St) : St :=
  match c with
  | Some (Some c) => on_pass (add_chain corsInChain fcn) (AddTypedConfig corsFilterName (RCfg (Some c)) x)
  | _ => x
  end.

Definition handleCsrf (fcn : string) (c : option Cfg) (x : St) : St :=
  match c with
  | None => x
  | Some c => on_pass (add_chain csrfInChain fcn) (AddTypedConfig csrfExtensionFilterName (RCfg (Some c)) x)
  end.

Definition handleHeaderModifiers (fcn : string) (c : option Cfg) (x : St) : St :=
  match c with
  | None => x
  | Some c => on_pass (add_chain headerMutationInChain fcn) (AddTypedConfig headerMutationFilterName (RCfg (Some c)) x)
  end.

(** The earliest stage that a policy of the chain asks for. *)
Definition claim_stage (claim cur : option FilterStage) : option FilterStage :=
  match claim, cur with
  | None, _ => cur
  | Some _, None => claim
  | Some a, Some b => match FilterStageComparison a b with Lt => claim | _ => cur end
  end.

Definition maxUint32 : Z := 4294967295.

Definition handleBuffer (fcn : string) (b : option (bufferIR Cfg)) (x : St) : St :=
  match b with
  | None => x
  | Some b =>
      on_pass (λ s,
        let entry := default (mkBufferEntry maxUint32 None) (bufferInChain s !! fcn) in
        with_buffers (<[fcn := mkBufferEntry (be_max entry) (claim_stage (bu_stage b) (be_stage entry))]> (bufferInChain s)) s)
        (AddTypedConfig bufferFilterName (RCfg (Some (bu_perRoute b))) x)
  end.

Definition handleRBAC (fcn : string) (r : option (option Cfg)) (x : St) : St :=
  match r with
  | Some (Some c) => AddTypedConfig rbacFilterNamePrefix (RCfg (Some c)) (on_pass (add_chain rbacInChain fcn) x)
  | _ => x
  end.

(** [hasCompressorNamed] and [hasDecompressorNamed]. *)
Definition hasNamed (entries : list codecEntry) (filterName : string) : bool :=
  existsb (λ e, String.eqb e.1 filterName) entries.

Definition add_codec (filterName library : string) (entries : list codecEntry) : list codecEntry :=
  if hasNamed entries filterName then entries else entries ++ [(filterName, library)].

Definition handleCompression (fcn : string) (c : option codecsIR) (x : St) : St :=
  match c with
  | None => x
  | Some c =>
      if negb (cd_enable c) then
        foldl (λ x library, AddTypedConfig (compressorFilterNameFor library) DisableFilterPerRouteOptional x) x allCompressionLibraries
      else
        foldl (λ x library,
          let filterName := compressorFilterNameFor library in
          on_pass (λ s, with_compressors
            (<[fcn := add_codec filterName library (default [] (compressorInChain s !! fcn))]> (compressorInChain s)) s)
            (AddTypedConfig filterName EnableFilterPerRoute x)) x (cd_libraries c)
  end.

Definition handleDecompression (fcn : string) (c : option codecsIR) (x : St) : St :=
  match c with
  | None => x
  | Some c =>
      if negb (cd_enable c) then
        foldl (λ x library, AddTypedConfig (decompressorFilterNameFor library) DisableFilterPerRouteOptional x) x allCompressionLibraries
      else
        foldl (λ x library,
          let filterName := decompressorFilterNameFor library in
          on_pass (λ s, with_decompressors
            (<[fcn := add_codec filterName library (default [] (decompressorInChain s !! fcn))]> (decompressorInChain s)) s)
            (AddTypedConfig filterName EnableFilterPerRoute x)) x (cd_libraries c)
  end.

Definition handleBasicAuth (fcn : string) (b : option (keyAuthIR Cfg)) (x : St) : St :=
  match b with
  | None => x
  | Some b =>
      if ka_disable b then
        AddBlankTransformationIfNeeded BasicAuthEnabledFilterName (AddTypedConfig basicAuthFilterName DisableFilterPerRoute x)
      else
        on_pass (add_chain basicAuthInChain fcn)
          (AddAuthMetadataIfNeeded BasicAuthEnabledFilterName (AddTypedConfig basicAuthFilterName (RCfg (ka_config b)) x))
  end.

Definition handleAPIKeyAuth (fcn : string) (a : option (keyAuthIR Cfg)) (x : St) : St :=
  match a with
  | None => x
  | Some a =>
      if ka_disable a then
        AddBlankTransformationIfNeeded APIKeyAuthEnabledFilterName
          (AddTypedConfig apiKeyAuthFilterNamePrefix (RFilterConfig false true false) x)
      else
        match ka_config a with
        | None => x
        | Some c =>
            on_pass (add_chain apiKeyAuthInChain fcn)
              (AddAuthMetadataIfNeeded APIKeyAuthEnabledFilterName
                 (AddTypedConfig apiKeyAuthFilterNamePrefix (RCfg (Some c)) x))
        end
  end.

Definition handleOauth2 (fcn : string) (o : option (oauthIR Cfg)) (x : St) : St :=
  match o with
  | None => x
  | Some o =>
      let name := ge_name (oi_source o) in
      let x := on_pass (Add oauth2PerProvider fcn name (Some (oi_source o)) (BeforeStage AuthNStage)) x in
      let x := AddTypedConfig (oauthFilterName name) EnableFilterPerRoute x in
      let x := match oa_jwtCfg (oi_config o) with
               | Some _ => AddTypedConfig (oauthJWTFilterName name) (RRequirement oauthJWTRequirementName) x
               | None => x
               end in
      let x := on_pass (λ s, with_secrets
                 (foldl (λ m sec, <[ts_name sec := sec]> m) (pass_secrets s) (oa_secrets (oi_config o))) s) x in
      AddAuthMetadataIfNeeded OauthEnabledFilterName x
  end.

Definition handleFaultInjection (fcn : string) (f : option (option Cfg)) (x : St) : St :=
  match f with
  | None => x
  | Some f =>
      on_pass (add_chain faultInChain fcn)
        (AddTypedConfig faultFilterName (match f with Some c => RCfg (Some c) | None => REmptyFault end) x)
  end.

Definition handleHttpACL (fcn : string) (a : option (option Cfg)) (x : St) : St :=
  match a with
  | Some (Some c) => on_pass (add_chain httpACLInChain fcn) (AddTypedConfig httpACLFilterNamePrefix (RCfg (Some c)) x)
  | _ => x
  end.

Definition handlePolicies (fcn : string) (spec : Spec) (x : St) : St :=
  let x := handleRustFormation fcn (s_rustformation spec) x in
  let x := handleExtAuth fcn (s_extAuth spec) x in
  let x := handleExtProc fcn (s_extProc spec) x in
  let x := handleJwt fcn (s_jwt spec) x in
  let x := handleGlobalRateLimit fcn (s_globalRateLimit spec) x in
  let x := handleLocalRateLimit fcn (s_localRateLimit spec) x in
  let x := handleCors fcn (s_cors spec) x in
  let x := handleCsrf fcn (s_csrf spec) x in
  let x := handleHeaderModifiers fcn (s_headerModifiers spec) x in
  let x := handleBuffer fcn (s_buffer spec) x in
  let x := handleRBAC fcn (s_rbac spec) x in
  let x := handleCompression fcn (s_compression spec) x in
  let x := handleDecompression fcn (s_decompression spec) x in
  let x := handleBasicAuth fcn (s_basicAuth spec) x in
  let x := handleAPIKeyAuth fcn (s_apiKeyAuth spec) x in
  let x := handleOauth2 fcn (s_oauth2 spec) x in
  let x := handleFaultInjection fcn (s_faultInjection spec) x in
  handleHttpACL fcn (s_httpACL spec) x.

(** ** Route settings

    The fields of an Envoy route that the pass reads or writes. *)

Record MirrorPolicy := mkMirrorPolicy { mr_cluster : string; mr_disable_suffix : bool; mr_host : string }.
Inductive HostRewrite := AutoHostRewrite (b : bool) | OtherHostRewrite (c : Cfg).

Record RouteAction := mkAction {
  ac_mirrors : list (option MirrorPolicy);
  ac_host : option HostRewrite;
  ac_idle : option Z;
  ac_timeout : option Z;
  ac_retry : option Cfg;
  ac_internal_redirect : option Cfg;
  ac_regex : option (string * string);
  ac_prefix : string;
  ac_upgrades : list UpgradeConfig }.

Record TPRoute := mkTPRoute {
  rt_name : string; rt_action : option RouteAction; rt_tracing : option Cfg; rt_stat_prefix : string }.

Definition with_ac_mirrors v a := mkAction v (ac_host a) (ac_idle a) (ac_timeout a) (ac_retry a) (ac_internal_redirect a) (ac_regex a) (ac_prefix a) (ac_upgrades a).
Definition with_ac_host v a := mkAction (ac_mirrors a) v (ac_idle a) (ac_timeout a) (ac_retry a) (ac_internal_redirect a) (ac_regex a) (ac_prefix a) (ac_upgrades a).
Definition with_ac_times i t a := mkAction (ac_mirrors a) (ac_host a) i t (ac_retry a) (ac_internal_redirect a) (ac_regex a) (ac_prefix a) (ac_upgrades a).
Definition with_ac_retry v a := mkAction (ac_mirrors a) (ac_host a) (ac_idle a) (ac_timeout a) v (ac_internal_redirect a) (ac_regex a) (ac_prefix a) (ac_upgrades a).
Definition with_ac_redirect v a := mkAction (ac_mirrors a) (ac_host a) (ac_idle a) (ac_timeout a) (ac_retry a) v (ac_regex a) (ac_prefix a) (ac_upgrades a).
Definition with_ac_regex v a := mkAction (ac_mirrors a) (ac_host a) (ac_idle a) (ac_timeout a) (ac_retry a) (ac_internal_redirect a) v (ac_prefix a) (ac_upgrades a).
Definition with_ac_upgrades v a := mkAction (ac_mirrors a) (ac_host a) (ac_idle a) (ac_timeout a) (ac_retry a) (ac_internal_redirect a) (ac_regex a) (ac_prefix a) v.
Definition with_action v (r : TPRoute) := mkTPRoute (rt_name r) (Some v) (rt_tracing r) (rt_stat_prefix r).

Definition mirror_edit (m : requestMirrorIR) (p : MirrorPolicy) : MirrorPolicy :=
  mkMirrorPolicy (mr_cluster p) (default (mr_disable_suffix p) (rmi_disable_suffix m)) (default (mr_host p) (rmi_host m)).

(** [applyRequestMirror], on a route with an action. *)
Definition applyRequestMirror (m : option requestMirrorIR) (name : string) (x : RouteAction * Pass) : RouteAction * Pass :=
  let '(a, s) := x in
  match m with
  | None => x
  | Some m =>
      match rmi_disable_suffix m, rmi_host m with
      | None, None => x
      | _, _ =>
          if bool_decide (name ∈ requestMirrorConfigured s) then x
          else (with_ac_mirrors (map (fmap (mirror_edit m)) (ac_mirrors a)) a,
                with_mirrors ({[ name ]} ∪ requestMirrorConfigured s) s)
      end
  end.

(** A value that is already set is kept. *)
Definition keep_set {A} (cur new : option A) : option A := match cur with Some _ => cur | None => new end.

Definition applyAutoHostRewrite (h : option (option bool)) (a : RouteAction) : RouteAction :=
  match h with
  | Some (Some true) => with_ac_host (keep_set (ac_host a) (Some (AutoHostRewrite true))) a
  | _ => a
  end.

Definition applyTimeouts (t : option timeoutsIR) (a : RouteAction) : RouteAction :=
  match t with
  | Some t => with_ac_times (keep_set (ac_idle a) (ti_idle t)) (keep_set (ac_timeout a) (ti_route t)) a
  | None => a
  end.

Definition applyRetryPolicy (r : option (option Cfg)) (a : RouteAction) : RouteAction :=
  match r with Some r => with_ac_retry (keep_set (ac_retry a) r) a | None => a end.

Definition applyInternalRedirect (r : option (option Cfg)) (a : RouteAction) : RouteAction :=
  match r with Some r => with_ac_redirect (keep_set (ac_internal_redirect a) r) a | None => a end.

Definition applyURLRewrite (u : option (option (string * string))) (a : RouteAction) : RouteAction :=
  match u with
  | Some (Some m) =>
      match ac_regex a with
      | None => if String.eqb (ac_prefix a) "" then with_ac_regex (Some m) a else a
      | Some _ => a
      end
  | _ => a
  end.

(** [handleRouteTracing]. *)
Definition handleRouteTracing (t : option (option Cfg)) (r : TPRoute) : TPRoute :=
  match t with
  | Some (Some t) => mkTPRoute (rt_name r) (rt_action r) (Some t) (rt_stat_prefix r)
  | _ => r
  end.

(** [applyHTTPUpgrade]: the first upgrade of the same type is replaced. *)
Fixpoint put_upgrade (u : UpgradeConfig) (l : list UpgradeConfig) : list UpgradeConfig :=
  match l with
  | [] => [u]
  | e :: l => if String.eqb (to_lower (up_type e)) (to_lower (up_type u)) then u :: l else e :: put_upgrade u l
  end.
Definition applyHTTPUpgrade (u : option (list UpgradeConfig)) (a : RouteAction) : RouteAction :=
  match u with
  | Some l => with_ac_upgrades (foldl (λ acc u, put_upgrade u acc) (ac_upgrades a) l) a
  | None => a
  end.

Definition handlePerRoutePolicies (spec : Spec) (x : TPRoute * Pass) : TPRoute * Pass :=
  let '(out, s) := x in
  match rt_action out with
  | None => x
  | Some a =>
      let '(a, s) := applyRequestMirror (s_requestMirror spec) (rt_name out) (a, s) in
      let a := applyAutoHostRewrite (s_autoHostRewrite spec) a in
      let a := applyTimeouts (s_timeouts spec) a in
      let a := applyRetryPolicy (s_retry spec) a in
      let a := applyInternalRedirect (s_internalRedirect spec) a in
      let a := applyURLRewrite (s_urlRewrite spec) a in
      let out := handleRouteTracing (s_tracing spec) out in
      (with_action (applyHTTPUpgrade (s_httpUpgrade spec) a) out, s)
  end.

(** [applyPerRouteSettings]. *)
Fixpoint applyPerRouteSettings (spec : Spec) (routes : list TPRoute) (s : Pass) : list TPRoute * Pass :=
  match routes with
  | [] => ([], s)
  | r :: routes =>
      let '(r, s) := handlePerRoutePolicies spec (r, s) in
      let '(rs, s) := applyPerRouteSettings spec routes s in (r :: rs, s)
  end.

(** [applyGatewayLevelPerRouteSettings], on the routes of each virtual host. *)
Fixpoint applyGatewayLevelPerRouteSettings (spec : Spec) (vhosts : list (list TPRoute)) (s : Pass) :
    list (list TPRoute) * Pass :=
  match vhosts with
  | [] => ([], s)
  | v :: vhosts =>
      let '(v, s) := applyPerRouteSettings spec v s in
      let '(vs, s) := applyGatewayLevelPerRouteSettings spec vhosts s in (v :: vs, s)
  end.

(** ** Stat prefixes *)

(** [\s] of a regular expression. *)
Definition is_blank (a : Ascii.ascii) : bool :=
  let n := Ascii.nat_of_ascii a in ((n =? 9) || (n =? 10) || (n =? 12) || (n =? 13) || (n =? 32))%nat.
Definition is_var_char (a : Ascii.ascii) : bool :=
  let n := Ascii.nat_of_ascii a in
  (((65 <=? n) && (n <=? 90)) || ((97 <=? n) && (n <=? 122)) || (n =? 95))%nat.

(** The longest prefix of characters of a class, and the rest. *)
Fixpoint span (ok : Ascii.ascii → bool) (s : string) : string * string :=
  match s with
  | EmptyString => (EmptyString, EmptyString)
  | String a s' => if ok a then let '(p, r) := span ok s' in (String a p, r) else (EmptyString, s)
  end.

(** [statPrefixTemplateVar] at the head of a text: the variable, and what follows the token. *)
Definition match_token (s : string) : option (string * string) :=
  match s with
  | String "{" (String "{" s) =>
      let '(_, s) := span is_blank s in
      let '(v, s) := span is_var_char s in
      let '(_, s) := span is_blank s in
      match v, s with
      | EmptyString, _ => None
      | _, String "}" (String "}" s) => Some (v, s)
      | _, _ => None
      end
  | _ => None
  end.

Record StatVars := mkStatVars { sv_route : string; sv_namespace : string; sv_rule : string }.

Definition stat_value (v : StatVars) (name : string) : option string :=
  if String.eqb name "route_name" then Some (sv_route v)
  else if String.eqb name "route_namespace" then Some (sv_namespace v)
  else if String.eqb name "rule_name" then Some (sv_rule v)
  else None.

(** [ReplaceAllStringFunc] of the tokens; the fuel is the length of the text. *)
Fixpoint resolve (fuel : nat) (v : StatVars) (s : string) : string :=
  match fuel, s with
  | O, _ | _, EmptyString => ""
  | S fuel, String a s' =>
      match match_token s with
      | Some (name, rest) =>
          match stat_value v name with
          | Some value => value +:+ resolve fuel v rest
          | None => String.substring 0 (String.length s - String.length rest) s +:+ resolve fuel v rest
          end
      | None => String a (resolve fuel v s')
      end
  end.

(** [joinNonEmptyStatSegments]. *)
Definition joinNonEmptyStatSegments (s : string) : string :=
  join "." (filter (λ seg, seg ≠ EmptyString) (split "."%char s)).

(** [applyStatPrefix]. *)
Definition applyStatPrefix (template : option string) (v : StatVars) (out : TPRoute) : TPRoute :=
  match template with
  | None => out
  | Some t => mkTPRoute (rt_name out) (rt_action out) (rt_tracing out) (joinNonEmptyStatSegments (resolve (String.length t) v t))
  end.

(** ** Hooks

    The policy of the context is [None] when it is not a TrafficPolicy. *)

Definition ApplyRouteConfigPlugin (fcn : string) (policy : option Spec) (vhosts : list (list TPRoute)) (x : St) :
    list (list TPRoute) * St :=
  match policy with
  | None => (vhosts, x)
  | Some spec =>
      let '(t, s) := handlePolicies fcn spec x in
      let '(vhosts, s) := applyGatewayLevelPerRouteSettings spec vhosts s in (vhosts, (t, s))
  end.

Definition ApplyVhostPlugin (fcn : string) (policy : option Spec) (routes : list TPRoute) (x : St) : list TPRoute * St :=
  match policy with
  | None => (routes, x)
  | Some spec =>
      let '(routes, s) := applyPerRouteSettings spec routes x.2 in
      (routes, handlePolicies fcn spec (x.1, s))
  end.

Definition ApplyForRoute (fcn : string) (vars : StatVars) (policy : option Spec) (out : TPRoute) (x : St) : TPRoute * St :=
  match policy with
  | None => (out, x)
  | Some spec =>
      let '(out, s) := handlePerRoutePolicies spec (out, x.2) in
      (applyStatPrefix (s_statPrefix spec) vars out, handlePolicies fcn spec (x.1, s))
  end.

Definition ApplyForRouteBackend (fcn : string) (policy : option Spec) (x : St) : St :=
  match policy with None => x | Some spec => handlePolicies fcn spec x end.

(** ** Filters of a chain *)

Context (MessageToAny : FilterMsg Cfg → error + Filters.Any).
Abbreviation Staged := (list (StagedFilter (option HttpFilter))).

(** A filter that is appended disabled; setting the flag of a nil filter panics. *)
Definition add_disabled (name : string) (config : FilterMsg Cfg) (stage : FilterStage) (weight : Z) (l : Staged) :
    option Staged :=
  let sf := MustNewStagedFilterWithWeight MessageToAny name (Some config) stage weight in
  match sf_filter sf with
  | None => None
  | Some f => Some (l ++ [mkSF (Some (mkHttpFilter (hf_name f) (hf_typed_config f) true)) (sf_stage sf) (sf_weight sf)])
  end.

Definition add_disabled_when (b : bool) (name : string) (config : FilterMsg Cfg) (stage : FilterStage) (l : Staged) :
    option Staged := if b then add_disabled name config stage 0 l else Some l.

(** [AddDisableFilterIfNeeded] and [AddAuthEnabledFilterIfNeeded]. *)
Definition AddDisableFilterIfNeeded (name namespace : string) (l : Staged) : option Staged :=
  if StagedFilterListContainsName l name then Some l
  else add_disabled name (FSetMetadata namespace globalFilterDisableMetadataKey) (BeforeStage FaultStage) 0 l.
Definition AddAuthEnabledFilterIfNeeded (name : string) (enable : bool) (l : Staged) : option Staged :=
  if negb enable then Some l
  else if StagedFilterListContainsName l name then Some l
  else add_disabled name FBlankTransformation (AfterStage AuthNStage) 0 l.

(** A loop that appends filters. *)
Fixpoint add_all {A} (f : A → Staged → option Staged) (l : list A) (acc : Staged) : option Staged :=
  match l with [] => Some acc | a :: l => acc ← f a acc; add_all f l acc end.

Definition is_nil {A} (l : list A) : bool := match l with [] => true | _ => false end.

Definition ext_weight (e : Ext) : Z := default 0%Z (fs_weight <$> ge_filterStage e).

Definition add_ext_proc (p : Provider) (l : Staged) : option Staged :=
  if runAsUpstreamFilter (pr_stage p) then Some l
  else
    e ← pr_ext p;
    match ge_extProc e with
    | None => Some l
    | Some c => add_disabled (extProcFilterName (pr_name p)) (FProvider c) (pr_stage p) (ext_weight e) l
    end.

Definition add_ext_auth (p : Provider) (l : Staged) : option Staged :=
  e ← pr_ext p;
  match ge_extAuth e with
  | None => Some l
  | Some c => add_disabled (extAuthFilterName (pr_name p)) (FProvider c) (DuringStage AuthNStage) (ge_weight e) l
  end.

Definition add_oauth (p : Provider) (l : Staged) : option Staged :=
  e ← pr_ext p;
  o ← ge_oauth2 e;
  match oa_cfg o with
  | None => Some l
  | Some c =>
      l ← add_disabled (oauthFilterName (pr_name p)) (FProvider c) (BeforeStage AuthNStage) (ge_weight e) l;
      match oa_jwtCfg o with
      | None => Some l
      | Some j => add_disabled (oauthJWTFilterName (pr_name p)) (FProvider j) (DuringStage AuthNStage) (ge_weight e) l
      end
  end.

Definition add_jwt (p : Provider) (l : Staged) : option Staged :=
  e ← pr_ext p;
  match ge_jwt e with
  | None => Some l
  | Some c => add_disabled (jwtFilterName (pr_name p)) (FProvider c) (DuringStage AuthNStage) 0 l
  end.

Definition add_rate_limit (p : Provider) (l : Staged) : option Staged :=
  e ← pr_ext p;
  match ge_rateLimit e with
  | None => Some l
  | Some c => add_disabled (getRateLimitFilterName (pr_name p)) (FProvider c) (DuringStage RateLimitStage) 0 l
  end.

(** [bufferChainEntry.filterStage]. *)
Definition entry_stage (e : bufferChainEntry) : FilterStage := default defaultBufferFilterStage (be_stage e).

(** [decompressorStage]. *)
Definition decompressorStage (s : Pass) (fcn : string) : FilterStage :=
  let stage := AfterStage CorsStage in
  match bufferInChain s !! fcn with
  | None => stage
  | Some b =>
      match FilterStageComparison (entry_stage b) stage with
      | Gt => stage
      | _ => RelativeToStage (RelativeTo (entry_stage b)) headOfStageWeight
      end
  end.

(** [addCompressionFiltersIfNeeded]: compressors, then decompressors. *)
Fixpoint add_compressors (i : Z) (l : list codecEntry) (acc : Staged) : option Staged :=
  match l with
  | [] => Some acc
  | e :: l =>
      acc ← add_disabled e.1 (FCompressor e.2) (RelativeToStage CorsStage (1 + i)) 0 acc;
      add_compressors (i + 1) l acc
  end.
Definition addCompressors (s : Pass) (fcn : string) : Staged → option Staged :=
  add_compressors 0 (default [] (compressorInChain s !! fcn)).
Definition addDecompressors (s : Pass) (fcn : string) : Staged → option Staged :=
  add_all (λ e, add_disabled e.1 (FDecompressor e.2) (decompressorStage s fcn) 0)
    (default [] (decompressorInChain s !! fcn)).

Definition needs (s : Pass) (k : ChainFilter) (fcn : string) : bool := bool_decide ((k, fcn) ∈ inChain s).

(** [HttpFilters]: what is appended, in order. *)
Definition http_filter_steps (fcn : string) (s : Pass) : list (Staged → option Staged) :=
  let ps k := providers s k fcn in
  let needed k := needs s k fcn in
  [ add_disabled_when (needed faultInChain) faultFilterName FEmptyFault (DuringStage FaultStage);
    add_disabled_when (needed httpACLInChain) httpACLFilterNamePrefix (FAclDefault httpACLDefaultListenerJSON)
      (AfterStage FaultStage);
    (λ l, if is_nil (ps extProcPerProvider) then Some l
          else AddDisableFilterIfNeeded extProcGlobalDisableFilterName extProcGlobalDisableFilterMetadataNamespace l);
    add_all add_ext_proc (ps extProcPerProvider);
    add_disabled_when (needed setTransformationInChain) rustformationFilterNamePrefix FBlankTransformation
      (BeforeStage AcceptedStage);
    (λ l, if is_nil (ps extAuthPerProvider) then Some l
          else AddDisableFilterIfNeeded ExtAuthGlobalDisableFilterName ExtAuthGlobalDisableFilterMetadataNamespace l);
    (λ l, if is_nil (ps extAuthPerProvider) then Some l
          else AddAuthEnabledFilterIfNeeded ExtAuthEnabledFilterName (enableAuthMetadata s) l);
    add_all add_ext_auth (ps extAuthPerProvider);
    (λ l, if is_nil (ps oauth2PerProvider) then Some l
          else AddAuthEnabledFilterIfNeeded OauthEnabledFilterName (enableAuthMetadata s) l);
    add_all add_oauth (ps oauth2PerProvider);
    (λ l, if is_nil (ps jwtPerProvider) then Some l
          else AddDisableFilterIfNeeded jwtGlobalDisableFilterName jwtGlobalDisableFilterMetadataNamespace l);
    (λ l, if is_nil (ps jwtPerProvider) then Some l
          else AddAuthEnabledFilterIfNeeded JwtEnabledFilterName (enableAuthMetadata s) l);
    add_all add_jwt (ps jwtPerProvider);
    add_disabled_when (needed localRateLimitInChain) localRateLimitFilterNamePrefix
      (FLocalRateLimit localRateLimitStatPrefix) (DuringStage RateLimitStage);
    add_all add_rate_limit (ps rateLimitPerProvider);
    add_disabled_when (needed corsInChain) corsFilterName FEmptyCors (DuringStage CorsStage);
    add_disabled_when (needed csrfInChain) csrfExtensionFilterName FCsrfOff (DuringStage RouteStage);
    add_disabled_when (needed headerMutationInChain) headerMutationFilterName FEmptyHeaderMutation (DuringStage RouteStage);
    (λ l, match bufferInChain s !! fcn with
          | None => Some l
          | Some e => add_disabled bufferFilterName (FBuffer (be_max e)) (entry_stage e) 0 l
          end);
    (λ l, Some (if needed rbacInChain
                then l ++ [MustNewStagedFilter MessageToAny rbacFilterNamePrefix (Some FEmptyRbac) (DuringStage AuthZStage)]
                else l));
    addCompressors s fcn;
    addDecompressors s fcn;
    add_disabled_when (needed basicAuthInChain) basicAuthFilterName (FBasicAuth "#") (DuringStage AuthNStage);
    (λ l, if needed basicAuthInChain
          then AddAuthEnabledFilterIfNeeded BasicAuthEnabledFilterName (enableAuthMetadata s) l else Some l);
    add_disabled_when (needed apiKeyAuthInChain) apiKeyAuthFilterNamePrefix FEmptyApiKeyAuth (DuringStage AuthNStage);
    (λ l, if needed apiKeyAuthInChain
          then AddAuthEnabledFilterIfNeeded APIKeyAuthEnabledFilterName (enableAuthMetadata s) l else Some l) ].

Definition HttpFilters (fcn : string) (s : Pass) : option Staged :=
  add_all (λ step, step) (http_filter_steps fcn s) [].

(** [UpstreamHttpFilters]: stages are those of upstream filters. *)
Definition add_upstream (p : Provider) (l : Staged) : option Staged :=
  if negb (runAsUpstreamFilter (pr_stage p)) then Some l
  else
    e ← pr_ext p;
    match ge_extProc e with
    | None => Some l
    | Some c => add_disabled (extProcFilterName (pr_name p)) (FProvider c) (mkStage TransformationStage 0) (ext_weight e) l
    end.
Definition UpstreamHttpFilters (fcn : string) (s : Pass) : option Staged :=
  add_all add_upstream (providers s extProcPerProvider fcn) [].

(** [ResourcesToAdd]; the order of the secrets is that of a Go map. *)
Definition ResourcesToAdd (s : Pass) : list (TlsSecret Cfg) := (map_to_list (pass_secrets s)).*2.

End pass.
Arguments Provider : clear implicits. Arguments trafficPolicyPluginGwPass : clear implicits.
Arguments TPRoute : clear implicits. Arguments RouteAction : clear implicits. Arguments HostRewrite : clear implicits.

(** ** Properties *)

Create HintDb tpass.

Section properties.
Context {Cfg : Type} (MessageToAny : FilterMsg Cfg → error + Filters.Any).
Abbreviation Pass := (trafficPolicyPluginGwPass Cfg).
Abbreviation Spec := (trafficPolicySpecIr Cfg).
Abbreviation Typed := (gmap string (RouteMsg Cfg)).
Abbreviation St := (Typed * Pass)%type.
Abbreviation Staged := (list (StagedFilter (option HttpFilter))).

(** *** Growth of the pass *)

Record pass_le (s s' : Pass) : Prop := mkPassLe {
  le_meta : enableAuthMetadata s = enableAuthMetadata s';
  le_chain : inChain s ⊆ inChain s';
  le_providers : ∀ k c p, p ∈ providers s k c → p ∈ providers s' k c;
  le_buffer : ∀ c, is_Some (bufferInChain s !! c) → is_Some (bufferInChain s' !! c);
  le_comp : ∀ c e, e ∈ default [] (compressorInChain s !! c) → e ∈ default [] (compressorInChain s' !! c);
  le_decomp : ∀ c e, e ∈ default [] (decompressorInChain s !! c) → e ∈ default [] (decompressorInChain s' !! c) }.

#[global] Instance pass_le_preorder : PreOrder pass_le.
Proof.
  split; [by intros s; split|].
  intros s1 s2 s3 [m1 c1 p1 b1 o1 d1] [m2 c2 p2 b2 o2 d2]. split; [congruence|set_solver|eauto..].
Qed.

Lemma le_add_chain k c (s : Pass) : pass_le s (add_chain k c s).
Proof. split; try done. simpl. set_solver. Qed.

Lemma providers_Add k c n e st (s : Pass) k' c' :
  providers (Add k c n e st s) k' c' =
  if bool_decide ((k, c) = (k', c')) then providers s k c ++ [mkProvider n e st] else providers s k' c'.
Proof.
  unfold providers at 1. simpl. case_bool_decide as H.
  - injection H as -> ->. by rewrite lookup_insert_eq.
  - by rewrite lookup_insert_ne.
Qed.

Lemma le_Add k c n e st (s : Pass) : pass_le s (Add k c n e st s).
Proof.
  split; try done. intros k' c' p H. rewrite providers_Add. case_bool_decide as E; [|done].
  injection E as -> ->. rewrite elem_of_app. by left.
Qed.

Lemma le_mirrors m (s : Pass) : pass_le s (with_mirrors m s).
Proof. by split. Qed.
Lemma le_secrets m (s : Pass) : pass_le s (with_secrets m s).
Proof. by split. Qed.

Lemma le_buffers c e (s : Pass) : pass_le s (with_buffers (<[c := e]> (bufferInChain s)) s).
Proof.
  split; try done. intros c' H. simpl. destruct (decide (c = c')) as [->|]; [by rewrite lookup_insert_eq|by rewrite lookup_insert_ne].
Qed.

Lemma elem_add_codec n l entries e : e ∈ entries → e ∈ add_codec n l entries.
Proof. intros H. unfold add_codec. destruct (hasNamed _ _); [done|]. rewrite elem_of_app. by left. Qed.

Lemma le_compressors c n l (s : Pass) :
  pass_le s (with_compressors (<[c := add_codec n l (default [] (compressorInChain s !! c))]> (compressorInChain s)) s).
Proof.
  split; try done. intros c' e H. simpl. destruct (decide (c = c')) as [->|].
  - rewrite lookup_insert_eq. simpl. by apply elem_add_codec.
  - by rewrite lookup_insert_ne.
Qed.
Lemma le_decompressors c n l (s : Pass) :
  pass_le s (with_decompressors (<[c := add_codec n l (default [] (decompressorInChain s !! c))]> (decompressorInChain s)) s).
Proof.
  split; try done. intros c' e H. simpl. destruct (decide (c = c')) as [->|].
  - rewrite lookup_insert_eq. simpl. by apply elem_add_codec.
  - by rewrite lookup_insert_ne.
Qed.
#[local] Hint Resolve le_add_chain le_Add le_mirrors le_secrets le_buffers le_compressors le_decompressors : tpass.

(** *** What a chain gets *)

Definition chain_filter_name (k : ChainFilter) : string :=
  match k with
  | setTransformationInChain => rustformationFilterNamePrefix
  | localRateLimitInChain => localRateLimitFilterNamePrefix
  | rbacInChain => rbacFilterNamePrefix
  | corsInChain => corsFilterName
  | csrfInChain => csrfExtensionFilterName
  | headerMutationInChain => headerMutationFilterName
  | basicAuthInChain => basicAuthFilterName
  | apiKeyAuthInChain => apiKeyAuthFilterNamePrefix
  | faultInChain => faultFilterName
  | httpACLInChain => httpACLFilterNamePrefix
  end.

(** The filters that record a successful authentication. *)
Definition chain_enabled_name (k : ChainFilter) : option string :=
  match k with
  | basicAuthInChain => Some BasicAuthEnabledFilterName
  | apiKeyAuthInChain => Some APIKeyAuthEnabledFilterName
  | _ => None
  end.
Definition provider_enabled_name (k : ProviderKind) : option string :=
  match k with
  | extAuthPerProvider => Some ExtAuthEnabledFilterName
  | jwtPerProvider => Some JwtEnabledFilterName
  | oauth2PerProvider => Some OauthEnabledFilterName
  | _ => None
  end.

Definition provider_names (k : ProviderKind) (p : Provider Cfg) : list string :=
  match k with
  | extAuthPerProvider => [extAuthFilterName (pr_name p)]
  | extProcPerProvider => [extProcFilterName (pr_name p)]
  | jwtPerProvider => [jwtFilterName (pr_name p)]
  | rateLimitPerProvider => [getRateLimitFilterName (pr_name p)]
  | oauth2PerProvider =>
      oauthFilterName (pr_name p) ::
      (if bool_decide (is_Some (e ← pr_ext p; o ← ge_oauth2 e; oa_jwtCfg o)) then [oauthJWTFilterName (pr_name p)] else [])
  end.

(** The configuration of its kind that an extension has. *)
Definition ext_config (k : ProviderKind) (e : TrafficPolicyGatewayExtensionIR Cfg) : option Cfg :=
  match k with
  | extAuthPerProvider => ge_extAuth e
  | extProcPerProvider => ge_extProc e
  | jwtPerProvider => ge_jwt e
  | rateLimitPerProvider => ge_rateLimit e
  | oauth2PerProvider => ge_oauth2 e ≫= oa_cfg
  end.

Definition ext_ok (k : ProviderKind) (e : option (TrafficPolicyGatewayExtensionIR Cfg)) : Prop :=
  is_Some (e ≫= ext_config k).

(** A stage that a policy can ask for: the default, or one at a well-known stage. *)
Definition stage_ok (st : option FilterStage) : Prop :=
  ∀ x, st = Some x → x = defaultBufferFilterStage ∨ (-1 ≤ RelativeWeight x)%Z.

Record pass_ok (s : Pass) : Prop := mkPassOk {
  po_providers : ∀ k c p, p ∈ providers s k c → ext_ok k (pr_ext p);
  po_buffer : ∀ c e, bufferInChain s !! c = Some e → stage_ok (be_stage e);
  po_comp : ∀ c e, e ∈ default [] (compressorInChain s !! c) → e.1 = compressorFilterNameFor e.2;
  po_decomp : ∀ c e, e ∈ default [] (decompressorInChain s !! c) → e.1 = decompressorFilterNameFor e.2 }.

Inductive wanted (s : Pass) (c : string) : string → Prop :=
| W_chain k : (k, c) ∈ inChain s → wanted s c (chain_filter_name k)
| W_chain_enabled k n :
    enableAuthMetadata s = true → (k, c) ∈ inChain s → chain_enabled_name k = Some n → wanted s c n
| W_buffer : is_Some (bufferInChain s !! c) → wanted s c bufferFilterName
| W_comp e : e ∈ default [] (compressorInChain s !! c) → wanted s c e.1
| W_decomp e : e ∈ default [] (decompressorInChain s !! c) → wanted s c e.1
| W_provider k p n : p ∈ providers s k c → n ∈ provider_names k p → wanted s c n
| W_provider_enabled k p n :
    enableAuthMetadata s = true → p ∈ providers s k c → provider_enabled_name k = Some n → wanted s c n.

Lemma wanted_le s s' c n : pass_le s s' → wanted s c n → wanted s' c n.
Proof.
  intros [Hm Hc Hp Hb Ho Hd]. destruct 1; [apply W_chain| |apply W_buffer|apply W_comp|apply W_decomp| |]; eauto.
  - eapply W_chain_enabled; [congruence|by apply Hc|done].
  - eapply W_provider; eauto.
  - eapply W_provider_enabled; [congruence|eauto|done].
Qed.

(** A configuration of a route that makes its filter act. *)
Definition global_disables : list string :=
  [extProcGlobalDisableFilterName; ExtAuthGlobalDisableFilterName; jwtGlobalDisableFilterName].
Definition acting (n : string) (m : RouteMsg Cfg) : bool :=
  match m with
  | RFilterConfig _ true _ | RBlankTransformation => false
  | _ => negb (bool_decide (n ∈ global_disables))
  end.

(** A step of a handler on chain [c]: the pass grows, stays well formed, and what becomes configured
    and acts is wanted. *)
Record advances (c : string) (x x' : St) : Prop := mkAdvances {
  ad_le : pass_le x.2 x'.2;
  ad_ok : pass_ok x.2 → pass_ok x'.2;
  ad_cover : ∀ n m, x'.1 !! n = Some m → acting n m = true → x.1 !! n = Some m ∨ wanted x'.2 c n }.

#[global] Instance advances_preorder c : PreOrder (advances c).
Proof.
  split; [by split; [|auto|auto]|].
  intros x y z [l1 o1 c1] [l2 o2 c2]. split; [by etrans|auto|].
  intros n m Hn Ha. destruct (c2 n m Hn Ha) as [Hy|]; [|by right].
  destruct (c1 n m Hy Ha) as [|Hw]; [by left|]. right. by eapply wanted_le.
Qed.

Lemma adv_typed c n m (x : St) : (acting n m = true → wanted x.2 c n) → advances c x (AddTypedConfig n m x).
Proof.
  intros H. split; [done|done|]. simpl. intros n' m' Hn Ha.
  destruct (decide (n = n')) as [->|]; [rewrite lookup_insert_eq in Hn; simplify_eq; auto|].
  rewrite lookup_insert_ne in Hn by done. by left.
Qed.

Lemma adv_pass c f (x : St) : pass_le x.2 (f x.2) → (pass_ok x.2 → pass_ok (f x.2)) → advances c x (on_pass f x).
Proof. intros Hl Ho. split; simpl; auto. Qed.

(** What the pass is given first, then written for the route. *)
Lemma adv_both c f n m (x : St) :
  pass_le x.2 (f x.2) → (pass_ok x.2 → pass_ok (f x.2)) → (acting n m = true → wanted (f x.2) c n) →
  advances c x (AddTypedConfig n m (on_pass f x)).
Proof. intros Hl Ho Hw. etrans; [by apply (adv_pass c f)|]. by apply adv_typed. Qed.

(** The same in the other order. *)
Lemma adv_both' c f n m (x : St) :
  pass_le x.2 (f x.2) → (pass_ok x.2 → pass_ok (f x.2)) → (acting n m = true → wanted (f x.2) c n) →
  advances c x (on_pass f (AddTypedConfig n m x)).
Proof. exact (adv_both c f n m x). Qed.

Lemma ok_Add k c n e st (s : Pass) : ext_ok k e → pass_ok s → pass_ok (Add k c n e st s).
Proof.
  intros He [Hs Hb Ho Hd]. split; [|done..]. intros k' c' p. rewrite providers_Add.
  case_bool_decide as E; [|apply Hs].
  injection E as -> ->. rewrite elem_of_app, list_elem_of_singleton. intros [H| ->]; [by apply Hs in H|done].
Qed.
Lemma ok_add_chain k c (s : Pass) : pass_ok s → pass_ok (add_chain k c s).
Proof. intros []. by split. Qed.
Lemma ok_mirrors m (s : Pass) : pass_ok s → pass_ok (with_mirrors m s).
Proof. intros []. by split. Qed.
Lemma ok_secrets m (s : Pass) : pass_ok s → pass_ok (with_secrets m s).
Proof. intros []. by split. Qed.
Lemma ok_buffers c e (s : Pass) : stage_ok (be_stage e) → pass_ok s → pass_ok (with_buffers (<[c := e]> (bufferInChain s)) s).
Proof.
  intros He [Hs Hb Ho Hd]. split; [done| |done..]. intros c' e' H. simpl in H. destruct (decide (c = c')) as [->|].
  - rewrite lookup_insert_eq in H. by simplify_eq.
  - rewrite lookup_insert_ne in H by done. by eapply Hb.
Qed.
Lemma add_codec_elem n l entries e : e ∈ add_codec n l entries → e ∈ entries ∨ e = (n, l).
Proof. unfold add_codec. destruct (hasNamed _ _); [by left|]. rewrite elem_of_app, list_elem_of_singleton. done. Qed.
Lemma ok_compressors c l (s : Pass) : pass_ok s →
  pass_ok (with_compressors (<[c := add_codec (compressorFilterNameFor l) l (default [] (compressorInChain s !! c))]> (compressorInChain s)) s).
Proof.
  intros [Hs Hb Ho Hd]. split; [done|done| |done]. intros c' e. simpl. destruct (decide (c = c')) as [->|].
  - rewrite lookup_insert_eq. simpl. intros [H| ->]%add_codec_elem; [by eapply Ho|done].
  - rewrite lookup_insert_ne by done. apply Ho.
Qed.
Lemma ok_decompressors c l (s : Pass) : pass_ok s →
  pass_ok (with_decompressors (<[c := add_codec (decompressorFilterNameFor l) l (default [] (decompressorInChain s !! c))]> (decompressorInChain s)) s).
Proof.
  intros [Hs Hb Ho Hd]. split; [done..|]. intros c' e. simpl. destruct (decide (c = c')) as [->|].
  - rewrite lookup_insert_eq. simpl. intros [H| ->]%add_codec_elem; [by eapply Hd|done].
  - rewrite lookup_insert_ne by done. apply Hd.
Qed.
#[local] Hint Resolve ok_add_chain ok_mirrors ok_secrets ok_Add ok_buffers ok_compressors ok_decompressors : tpass.

Lemma in_Add k c n e st (s : Pass) : mkProvider n e st ∈ providers (Add k c n e st s) k c.
Proof. rewrite providers_Add, bool_decide_true by done. rewrite elem_of_app, list_elem_of_singleton. by right. Qed.

Lemma adv_chain c k m (x : St) : advances c x (AddTypedConfig (chain_filter_name k) m (on_pass (add_chain k c) x)).
Proof. apply adv_both; [auto with tpass..|]. intros _. apply W_chain. simpl. set_solver. Qed.

Lemma adv_fold {A} c (f : St → A → St) l (x : St) :
  (∀ x a, a ∈ l → advances c x (f x a)) → advances c x (foldl f x l).
Proof.
  revert x. induction l as [|a l IH]; intros x H; simpl; [done|].
  etrans; [apply (H _ a), elem_of_cons; by left|]. apply IH. intros y b Hb. apply H, elem_of_cons. by right.
Qed.

(** A member of the list has left its trace. *)
Lemma fold_reaches {A} c (f : St → A → St) (Q : Pass → Prop) l (x : St) a :
  (∀ x a, a ∈ l → advances c x (f x a)) → (∀ s s', pass_le s s' → Q s → Q s') →
  a ∈ l → (∀ x, Q (f x a).2) → Q (foldl f x l).2.
Proof.
  intros Hf HQ Ha Hq. apply list_elem_of_split in Ha as (l1 & l2 & ->). rewrite foldl_app. simpl.
  eapply HQ; [|apply Hq]. apply (ad_le c). apply adv_fold. intros y b Hb. apply Hf. rewrite elem_of_app, elem_of_cons. auto.
Qed.

(** *** The handlers *)

(** Every provider of a policy has the configuration of its kind, as the constructors check. *)
Record spec_ok (spec : Spec) : Prop := mkSpecOk {
  ok_extAuth : ∀ i p, s_extAuth spec = Some i → p ∈ ea_providers i → ext_ok extAuthPerProvider (pa_provider p);
  ok_extProc : ∀ i p, s_extProc spec = Some i → p ∈ ep_providers i → ext_ok extProcPerProvider (pp_provider p);
  ok_jwt : ∀ i p, s_jwt spec = Some i → p ∈ jw_providers i → ext_ok jwtPerProvider (pj_provider p);
  ok_rateLimit : ∀ g, s_globalRateLimit spec = Some g → ext_ok rateLimitPerProvider (Some (gr_provider g));
  ok_oauth : ∀ o, s_oauth2 spec = Some o → ge_oauth2 (oi_source o) = Some (oi_config o) ∧ is_Some (oa_cfg (oi_config o));
  ok_buffer : ∀ b, s_buffer spec = Some b → stage_ok (bu_stage b) }.

Lemma adv_meta c n (x : St) : (enableAuthMetadata x.2 = true → wanted x.2 c n) → advances c x (AddAuthMetadataIfNeeded n x).
Proof. intros H. unfold AddAuthMetadataIfNeeded. destruct (enableAuthMetadata x.2) eqn:E; [|done]. apply adv_typed. auto. Qed.

Lemma adv_blank c n (x : St) : advances c x (AddBlankTransformationIfNeeded n x).
Proof. unfold AddBlankTransformationIfNeeded. destruct (enableAuthMetadata x.2); [|done]. by apply adv_typed. Qed.

Lemma adv_provider c k n e st m name (x : St) :
  ext_ok k e → name ∈ provider_names k (mkProvider n e st) →
  advances c x (AddTypedConfig name m (on_pass (Add k c n e st) x)).
Proof.
  intros He Hn. apply adv_both; [auto with tpass|by apply ok_Add|]. intros _. eapply W_provider; [apply in_Add|done].
Qed.

(** The common loop over the providers of a policy. *)
Lemma adv_providers {A} c k (prov : A → option (TrafficPolicyGatewayExtensionIR Cfg)) (st : A → FilterStage)
    (name : A → string) (m : A → RouteMsg Cfg) l (x : St) :
  (∀ a, a ∈ l → ext_ok k (prov a)) → (∀ a, name a ∈ provider_names k (mkProvider (providerName (prov a)) (prov a) (st a))) →
  let x' := foldl (λ x a, AddTypedConfig (name a) (m a) (on_pass (Add k c (providerName (prov a)) (prov a) (st a)) x)) x l in
  advances c x x' ∧ ∀ a, a ∈ l → ∃ p, p ∈ providers x'.2 k c.
Proof.
  intros Hok Hn. cbv zeta. split; [apply adv_fold; intros y a Ha; apply adv_provider; auto|].
  intros a Ha. refine (fold_reaches c _ (λ s, ∃ p, p ∈ providers s k c) l x a _ _ Ha _).
  - intros y b Hb. apply adv_provider; auto.
  - intros s s' Hle [p Hp]. exists p. by apply (le_providers _ _ Hle).
  - intros y. eexists. apply in_Add.
Qed.

Lemma adv_enabled c k n (x : St) :
  (∃ p, p ∈ providers x.2 k c) → provider_enabled_name k = Some n → advances c x (AddAuthMetadataIfNeeded n x).
Proof. intros [p Hp] Hk. apply adv_meta. intros He. by eapply W_provider_enabled. Qed.

Lemma adv_extAuth c i (x : St) :
  (∀ j p, i = Some j → p ∈ ea_providers j → ext_ok extAuthPerProvider (pa_provider p)) → advances c x (handleExtAuth c i x).
Proof.
  intros Hok. destruct i as [i|]; simpl; [|done]. specialize (λ p, Hok i p eq_refl). destruct (ea_disableAll i).
  { etrans; [|apply adv_blank]. by apply adv_typed. }
  destruct (adv_providers c extAuthPerProvider pa_provider (λ _, DuringStage AuthNStage)
    (λ p, extAuthFilterName (providerName (pa_provider p)))
    (λ p, match pa_perRoute p with Some c => RCfg (Some c) | None => EnableFilterPerRoute end) (ea_providers i) x) as [Ha Hp];
    [done|intros a; simpl; set_solver|].
  destruct (ea_providers i) as [|p l]; [exact Ha|]. etrans; [exact Ha|].
  apply (adv_enabled c extAuthPerProvider); [|done]. apply (Hp p). apply elem_of_cons. by left.
Qed.

Lemma adv_extProc c i (x : St) :
  (∀ j p, i = Some j → p ∈ ep_providers j → ext_ok extProcPerProvider (pp_provider p)) → advances c x (handleExtProc c i x).
Proof.
  intros Hok. destruct i as [i|]; simpl; [|done]. specialize (λ p, Hok i p eq_refl). destruct (ep_disableAll i).
  { by apply adv_typed. }
  apply (adv_providers c extProcPerProvider pp_provider pp_stage (λ p, extProcFilterName (providerName (pp_provider p)))
    (λ p, RCfg (Some (pp_perRoute p)))); [done|]. intros a. simpl. set_solver.
Qed.

Lemma adv_jwt c i (x : St) :
  (∀ j p, i = Some j → p ∈ jw_providers j → ext_ok jwtPerProvider (pj_provider p)) → advances c x (handleJwt c i x).
Proof.
  intros Hok. destruct i as [i|]; simpl; [|done]. specialize (λ p, Hok i p eq_refl). destruct (jw_disableAll i).
  { etrans; [|apply adv_blank]. by apply adv_typed. }
  destruct (adv_providers c jwtPerProvider pj_provider (λ _, DuringStage AuthNStage)
    (λ p, jwtFilterName (providerName (pj_provider p))) (λ p, RCfg (Some (pj_perRoute p))) (jw_providers i) x) as [Ha Hp];
    [done|intros a; simpl; set_solver|].
  destruct (jw_providers i) as [|p l]; [exact Ha|]. etrans; [exact Ha|].
  apply (adv_enabled c jwtPerProvider); [|done]. apply (Hp p). apply elem_of_cons. by left.
Qed.

Lemma adv_rateLimit c g (x : St) :
  (∀ j, g = Some j → ext_ok rateLimitPerProvider (Some (gr_provider j))) → advances c x (handleGlobalRateLimit c g x).
Proof.
  intros Hok. destruct g as [g|]; simpl; [|done]. specialize (Hok g eq_refl). destruct (gr_actions g) as [|a l]; [done|].
  apply adv_provider; [done|simpl; set_solver].
Qed.

Lemma claim_ok a b : stage_ok a → stage_ok b → stage_ok (claim_stage a b).
Proof. intros Ha Hb. destruct a, b; simpl; try done. by case_match. Qed.

Lemma adv_buffer c b (x : St) : (∀ i, b = Some i → stage_ok (bu_stage i)) → advances c x (handleBuffer c b x).
Proof.
  intros Hok. destruct b as [b|]; simpl; [|done].
  apply adv_both'; [apply le_buffers| |].
  { intros Hs. apply ok_buffers; [|done]. simpl. apply claim_ok; [by apply Hok|].
    destruct (bufferInChain x.2 !! c) as [e|] eqn:E; [by apply (po_buffer _ Hs c)|done]. }
  intros _. apply W_buffer. simpl. by rewrite lookup_insert_eq.
Qed.

Lemma add_codec_named n l entries : ∃ e, e ∈ add_codec n l entries ∧ e.1 = n.
Proof.
  unfold add_codec. destruct (hasNamed entries n) eqn:E.
  - unfold hasNamed in E. apply existsb_exists in E as (e & He & Hn). apply String.eqb_eq in Hn.
    exists e. by rewrite list_elem_of_In.
  - exists (n, l). rewrite elem_of_app, list_elem_of_singleton. auto.
Qed.

Lemma adv_compression c b (x : St) : advances c x (handleCompression c b x).
Proof.
  destruct b as [b|]; simpl; [|done]. destruct (cd_enable b).
  - apply adv_fold. intros y l _.
    apply adv_both'; [auto with tpass..|]. intros _.
    destruct (add_codec_named (compressorFilterNameFor l) l (default [] (compressorInChain y.2 !! c))) as (e & He & Hn).
    refine (eq_rect _ _ (W_comp _ c e _) _ Hn). cbn [compressorInChain with_compressors]. by rewrite lookup_insert_eq.
  - refine (adv_fold c (λ x l, AddTypedConfig (compressorFilterNameFor l) DisableFilterPerRouteOptional x) allCompressionLibraries x _).
    intros y l _. by apply adv_typed.
Qed.

Lemma adv_decompression c b (x : St) : advances c x (handleDecompression c b x).
Proof.
  destruct b as [b|]; simpl; [|done]. destruct (cd_enable b).
  - apply adv_fold. intros y l _.
    apply adv_both'; [auto with tpass..|]. intros _.
    destruct (add_codec_named (decompressorFilterNameFor l) l (default [] (decompressorInChain y.2 !! c))) as (e & He & Hn).
    refine (eq_rect _ _ (W_decomp _ c e _) _ Hn). cbn [decompressorInChain with_decompressors]. by rewrite lookup_insert_eq.
  - refine (adv_fold c (λ x l, AddTypedConfig (decompressorFilterNameFor l) DisableFilterPerRouteOptional x) allCompressionLibraries x _).
    intros y l _. by apply adv_typed.
Qed.

(** Basic and API key authentication. *)
Lemma adv_key_auth c k n m (x : St) : chain_enabled_name k = Some n →
  advances c x (on_pass (add_chain k c) (AddAuthMetadataIfNeeded n (AddTypedConfig (chain_filter_name k) m x))).
Proof.
  intros Hk. etrans; [apply (adv_chain c k m)|].
  replace (on_pass (add_chain k c) (AddAuthMetadataIfNeeded n (AddTypedConfig (chain_filter_name k) m x)))
    with (AddAuthMetadataIfNeeded n (AddTypedConfig (chain_filter_name k) m (on_pass (add_chain k c) x)))
    by (unfold AddAuthMetadataIfNeeded; simpl; by destruct (enableAuthMetadata x.2)).
  apply adv_meta. intros He. eapply W_chain_enabled; [done| |done]. simpl. set_solver.
Qed.

Lemma adv_basicAuth c b (x : St) : advances c x (handleBasicAuth c b x).
Proof.
  destruct b as [b|]; simpl; [|done]. destruct (ka_disable b).
  - etrans; [|apply adv_blank]. by apply adv_typed.
  - by apply (adv_key_auth c basicAuthInChain).
Qed.

Lemma adv_apiKeyAuth c b (x : St) : advances c x (handleAPIKeyAuth c b x).
Proof.
  destruct b as [b|]; simpl; [|done]. destruct (ka_disable b).
  - etrans; [|apply adv_blank]. by apply adv_typed.
  - destruct (ka_config b); [|done]. by apply (adv_key_auth c apiKeyAuthInChain).
Qed.

Lemma adv_oauth c o (x : St) :
  (∀ i, o = Some i → ge_oauth2 (oi_source i) = Some (oi_config i) ∧ is_Some (oa_cfg (oi_config i))) →
  advances c x (handleOauth2 c o x).
Proof.
  intros Hok. destruct o as [o|]; simpl; [|done]. destruct (Hok o eq_refl) as [Hs [cfg Hc]].
  set (name := ge_name (oi_source o)).
  set (p := mkProvider name (Some (oi_source o)) (BeforeStage AuthNStage)).
  set (x1 := on_pass _ x).
  assert (p ∈ providers x1.2 oauth2PerProvider c) as Hp by apply in_Add.
  assert (advances c x x1) as H1.
  { apply adv_pass; [auto with tpass|]. apply ok_Add. unfold ext_ok. simpl. rewrite Hs. simpl. by exists cfg. }
  set (x2 := AddTypedConfig (oauthFilterName name) EnableFilterPerRoute x1).
  assert (advances c x1 x2) as H2.
  { apply adv_typed. intros _. eapply W_provider; [exact Hp|]. simpl. set_solver. }
  set (x3 := match oa_jwtCfg (oi_config o) with Some _ => _ | None => _ end).
  assert (advances c x2 x3 ∧ x3.2 = x1.2) as [H3 E3].
  { subst x3. destruct (oa_jwtCfg (oi_config o)) as [j|] eqn:Ej; [|done]. split; [|done].
    apply adv_typed. intros _. eapply W_provider; [exact Hp|]. subst p. simpl. rewrite Hs. simpl. rewrite Ej.
    rewrite bool_decide_true by done. set_solver. }
  etrans; [exact H1|]. etrans; [exact H2|]. etrans; [exact H3|]. etrans; [|apply (adv_enabled c oauth2PerProvider); [exists p; simpl; by rewrite E3|done]].
  apply adv_pass; auto with tpass.
Qed.

Lemma handlePolicies_advances c spec (x : St) : spec_ok spec → advances c x (handlePolicies c spec x).
Proof.
  intros []. unfold handlePolicies.
  etrans; [|unfold handleHttpACL; destruct (s_httpACL spec) as [[]|]; [apply (adv_chain c httpACLInChain)|done..]].
  etrans; [|unfold handleFaultInjection; destruct (s_faultInjection spec); [apply (adv_chain c faultInChain)|done]].
  etrans; [|by apply adv_oauth]. etrans; [|apply adv_apiKeyAuth]. etrans; [|apply adv_basicAuth].
  etrans; [|apply adv_decompression]. etrans; [|apply adv_compression].
  etrans; [|unfold handleRBAC; destruct (s_rbac spec) as [[]|]; [apply (adv_chain c rbacInChain)|done..]].
  etrans; [|by apply adv_buffer].
  etrans; [|unfold handleHeaderModifiers; destruct (s_headerModifiers spec); [apply (adv_chain c headerMutationInChain)|done]].
  etrans; [|unfold handleCsrf; destruct (s_csrf spec); [apply (adv_chain c csrfInChain)|done]].
  etrans; [|unfold handleCors; destruct (s_cors spec) as [[]|]; [apply (adv_chain c corsInChain)|done..]].
  etrans; [|unfold handleLocalRateLimit; destruct (s_localRateLimit spec); [apply (adv_chain c localRateLimitInChain)|done]].
  etrans; [|by apply adv_rateLimit]. etrans; [|by apply adv_jwt]. etrans; [|by apply adv_extProc]. etrans; [|by apply adv_extAuth].
  unfold handleRustFormation. destruct (s_rustformation spec) as [[]|]; [apply (adv_chain c setTransformationInChain)|done..].
Qed.

(** *** Calls of the hooks *)

Inductive hook_call :=
| OnRouteConfig (c : string) (policy : option Spec) (vhosts : list (list (TPRoute Cfg))) (typed : Typed)
| OnVhost (c : string) (policy : option Spec) (routes : list (TPRoute Cfg)) (typed : Typed)
| OnRoute (c : string) (vars : StatVars) (policy : option Spec) (out : TPRoute Cfg) (typed : Typed)
| OnBackend (c : string) (policy : option Spec) (typed : Typed).

Definition call_chain (k : hook_call) : string :=
  match k with OnRouteConfig c _ _ _ | OnVhost c _ _ _ | OnRoute c _ _ _ _ | OnBackend c _ _ => c end.
Definition call_spec (k : hook_call) : option Spec :=
  match k with OnRouteConfig _ p _ _ | OnVhost _ p _ _ | OnRoute _ _ p _ _ | OnBackend _ p _ => p end.
Definition call_typed (k : hook_call) : Typed :=
  match k with OnRouteConfig _ _ _ t | OnVhost _ _ _ t | OnRoute _ _ _ _ t | OnBackend _ _ t => t end.

(** The configurations and the pass after a call. *)
Definition call (k : hook_call) (s : Pass) : St :=
  match k with
  | OnRouteConfig c p vhosts t => (ApplyRouteConfigPlugin c p vhosts (t, s)).2
  | OnVhost c p routes t => (ApplyVhostPlugin c p routes (t, s)).2
  | OnRoute c vars p out t => (ApplyForRoute c vars p out (t, s)).2
  | OnBackend c p t => ApplyForRouteBackend c p (t, s)
  end.
Definition call_ok (k : hook_call) : Prop := ∀ spec, call_spec k = Some spec → spec_ok spec.

Definition run (s : Pass) (l : list hook_call) : Pass := foldl (λ s k, (call k s).2) s l.

(** Route settings only record the routes with mirrors. *)
Lemma mirrors_id (s : Pass) : ∃ m, s = with_mirrors m s.
Proof. exists (requestMirrorConfigured s). by destruct s. Qed.

Lemma per_route_pass spec (x : TPRoute Cfg * Pass) : ∃ m, (handlePerRoutePolicies spec x).2 = with_mirrors m x.2.
Proof.
  destruct x as [out s]. unfold handlePerRoutePolicies. destruct (rt_action out) as [a|]; [|apply mirrors_id].
  destruct (applyRequestMirror _ _ _) as [a' s'] eqn:E. simpl. unfold applyRequestMirror in E.
  repeat case_match; simplify_eq; try apply mirrors_id; by eexists.
Qed.

Lemma settings_pass spec routes (s : Pass) : ∃ m, (applyPerRouteSettings spec routes s).2 = with_mirrors m s.
Proof.
  revert s. induction routes as [|r l IH]; intros s; [apply mirrors_id|]. cbn [applyPerRouteSettings].
  destruct (per_route_pass spec (r, s)) as [m Hm]. destruct (handlePerRoutePolicies spec (r, s)) as [r' s']. simpl in Hm. subst s'.
  destruct (IH (with_mirrors m s)) as [m' Hm']. destruct (applyPerRouteSettings spec l _) as [l' s']. simpl in *. subst s'. by exists m'.
Qed.

Lemma gateway_settings_pass spec vhosts (s : Pass) : ∃ m, (applyGatewayLevelPerRouteSettings spec vhosts s).2 = with_mirrors m s.
Proof.
  revert s. induction vhosts as [|r l IH]; intros s; [apply mirrors_id|]. cbn [applyGatewayLevelPerRouteSettings].
  destruct (settings_pass spec r s) as [m Hm]. destruct (applyPerRouteSettings spec r s) as [r' s']. simpl in Hm. subst s'.
  destruct (IH (with_mirrors m s)) as [m' Hm']. destruct (applyGatewayLevelPerRouteSettings spec l _) as [l' s']. simpl in *. subst s'. by exists m'.
Qed.

Lemma adv_mirrors c m t (s : Pass) : advances c (t, s) (t, with_mirrors m s).
Proof. apply (adv_pass c (with_mirrors m) (t, s)); auto with tpass. Qed.

Lemma call_advances k s : call_ok k → advances (call_chain k) (call_typed k, s) (call k s).
Proof.
  intros Hok. destruct k as [c [p|] vhosts t|c [p|] routes t|c vars [p|] out t|c [p|] t]; try done;
    unfold call, ApplyRouteConfigPlugin, ApplyVhostPlugin, ApplyForRoute; cbn [fst snd call_chain call_typed];
    specialize (Hok p eq_refl).
  - pose proof (handlePolicies_advances c p (t, s) Hok) as H. destruct (handlePolicies c p (t, s)) as [t' s'].
    destruct (gateway_settings_pass p vhosts s') as [m Hm]. destruct (applyGatewayLevelPerRouteSettings p vhosts s') as [vs s2].
    simpl in *. subst s2. etrans; [exact H|apply adv_mirrors].
  - destruct (settings_pass p routes s) as [m Hm]. destruct (applyPerRouteSettings p routes s) as [rs s2]. simpl in *. subst s2.
    etrans; [apply adv_mirrors|by apply handlePolicies_advances].
  - destruct (per_route_pass p (out, s)) as [m Hm]. destruct (handlePerRoutePolicies p (out, s)) as [r s2]. simpl in *. subst s2.
    etrans; [apply adv_mirrors|by apply handlePolicies_advances].
  - by apply handlePolicies_advances.
Qed.

Lemma run_advances l s : Forall call_ok l → pass_le s (run s l) ∧ (pass_ok s → pass_ok (run s l)).
Proof.
  revert s. induction l as [|k l IH]; intros s H; simpl; [done|]. apply Forall_cons in H as [Hk Hl].
  destruct (call_advances k s Hk) as [Hle Hok _]. destruct (IH (call k s).2 Hl) as [Hle' Hok'].
  split; [by etrans|auto].
Qed.

Lemma new_pass_ok b : pass_ok (NewGatewayTranslationPass b).
Proof.
  split; [intros k c p|intros c e..]; unfold providers; simpl; rewrite lookup_empty; simpl; [|done|..]; by intros ?%elem_of_nil.
Qed.

(** *** The filters *)

Context (Hmarshal : ∀ m, ∃ a, MessageToAny m = inr a).

(** A step appends filters of a kind. *)
Definition appends (P : StagedFilter (option HttpFilter) → Prop) (f : Staged → option Staged) : Prop :=
  ∀ l, ∃ l', f l = Some (l ++ l') ∧ Forall P l'.
Definition gives (f : Staged → option Staged) (n : string) : Prop :=
  ∀ l l', f l = Some l' → ∃ g, g ∈ l' ∧ sf_name g = n.

Lemma add_disabled_eq name cfg st w l :
  ∃ a, add_disabled MessageToAny name cfg st w l = Some (l ++ [mkSF (Some (mkHttpFilter name (Some a) true)) st w]).
Proof.
  destruct (Hmarshal cfg) as [a Ha]. exists a.
  unfold add_disabled, MustNewStagedFilterWithWeight, NewStagedFilter. by rewrite Ha.
Qed.

Lemma appends_none P : appends P Some.
Proof. intros l. exists []. by rewrite app_nil_r. Qed.

Lemma appends_disabled (P : StagedFilter (option HttpFilter) → Prop) name cfg st w :
  (∀ a, P (mkSF (Some (mkHttpFilter name (Some a) true)) st w)) → appends P (add_disabled MessageToAny name cfg st w).
Proof. intros H l. destruct (add_disabled_eq name cfg st w l) as [a ->]. eexists. split; [done|]. constructor; auto. Qed.

Lemma gives_disabled name cfg st w : gives (add_disabled MessageToAny name cfg st w) name.
Proof.
  intros l l' H. destruct (add_disabled_eq name cfg st w l) as [a Ha]. rewrite Ha in H. simplify_eq.
  eexists. rewrite elem_of_app, list_elem_of_singleton. by split; [right|].
Qed.

Lemma appends_all {A} P (f : A → Staged → option Staged) l : (∀ a, a ∈ l → appends P (f a)) → appends P (add_all f l).
Proof.
  induction l as [|a l IH]; intros H acc; simpl; [apply appends_none|].
  destruct (H a ltac:(apply elem_of_cons; by left) acc) as (l1 & -> & H1). simpl.
  destruct (IH (λ b Hb, H b ltac:(apply elem_of_cons; by right)) (acc ++ l1)) as (l2 & -> & H2).
  exists (l1 ++ l2). rewrite app_assoc. split; [done|]. by apply Forall_app.
Qed.

Lemma gives_all {A} P (f : A → Staged → option Staged) l a n :
  (∀ b, b ∈ l → appends P (f b)) → a ∈ l → gives (f a) n → gives (add_all f l) n.
Proof.
  intros Hf Ha Hg acc l' H. revert acc H. induction l as [|b l IH]; intros acc H; simpl in H; [by apply elem_of_nil in Ha|].
  destruct (Hf b ltac:(apply elem_of_cons; by left) acc) as (l1 & E & _). rewrite E in H. simpl in H.
  apply elem_of_cons in Ha as [->|Ha].
  - destruct (appends_all P f l (λ b Hb, Hf b ltac:(apply elem_of_cons; by right)) (acc ++ l1)) as (l2 & E2 & _).
    rewrite E2 in H. simplify_eq. destruct (Hg _ _ E) as (g & Hgi & Hn). exists g. rewrite elem_of_app. auto.
  - by apply (IH (λ b Hb, Hf b ltac:(apply elem_of_cons; by right)) Ha _ H).
Qed.

(** Where the filters of a chain go. *)
Record placed (s : Pass) (c : string) (n : string) (st : FilterStage) : Prop := mkPlaced {
  pl_buffer : n = bufferFilterName → ∃ e, bufferInChain s !! c = Some e ∧ st = entry_stage e;
  pl_decomp : ∀ l, n = decompressorFilterNameFor l → st = decompressorStage s c;
  pl_disable : n ∈ global_disables → st = BeforeStage FaultStage;
  pl_ext_auth : ∀ m, n = extAuthFilterName m → st = DuringStage AuthNStage ∧ ∃ p, p ∈ providers s extAuthPerProvider c;
  pl_jwt : ∀ m, n = jwtFilterName m → st = DuringStage AuthNStage ∧ ∃ p, p ∈ providers s jwtPerProvider c }.

Definition installed (s : Pass) (c : string) (f : StagedFilter (option HttpFilter)) : Prop :=
  (∃ h, sf_filter f = Some h ∧ (hf_disabled h = true ∨ hf_name h = rbacFilterNamePrefix)) ∧
  placed s c (sf_name f) (sf_stage f).

Ltac name_neq H :=
  cbv [extAuthFilterName jwtFilterName extProcFilterName getRateLimitFilterName oauthFilterName oauthJWTFilterName
       decompressorFilterNameFor compressorFilterNameFor codec_suffix] in H;
  repeat match type of H with
  | context [if ?b then _ else _] => destruct b
  end; discriminate H.
Ltac not_here :=
  match goal with
  | |- _ ∈ _ → _ =>
      let H := fresh "Hn" in
      intros H; exfalso; repeat (apply elem_of_cons in H as [H|H]; [name_neq H|]); by apply elem_of_nil in H
  | |- ∀ _ : string, _ → _ => let H := fresh "Hn" in intros ? H; exfalso; name_neq H
  | |- _ → _ => let H := fresh "Hn" in intros H; exfalso; name_neq H
  end.
Ltac elsewhere := split; try not_here.

Lemma inst_disabled s c name cfg st w : placed s c name st → appends (installed s c) (add_disabled MessageToAny name cfg st w).
Proof. intros H. apply appends_disabled. intros a. split; [eexists; split; [done|by left]|exact H]. Qed.

Lemma inst_when s c b name cfg st : placed s c name st → appends (installed s c) (add_disabled_when MessageToAny b name cfg st).
Proof. intros H. destruct b; [by apply inst_disabled|apply appends_none]. Qed.

Lemma placed_disable s c n : n ∈ global_disables → placed s c n (BeforeStage FaultStage).
Proof.
  intros H. split; [intros ->|intros l ->|done|intros m ->|intros m ->]; exfalso;
    repeat (apply elem_of_cons in H as [H|H]; [name_neq H|]); by apply elem_of_nil in H.
Qed.

Lemma inst_disable s c n ns : n ∈ global_disables → appends (installed s c) (AddDisableFilterIfNeeded MessageToAny n ns).
Proof.
  intros H l. unfold AddDisableFilterIfNeeded. destruct (StagedFilterListContainsName l n); [apply appends_none|].
  by apply inst_disabled, placed_disable.
Qed.

Lemma inst_enabled s c n b : placed s c n (AfterStage AuthNStage) → appends (installed s c) (AddAuthEnabledFilterIfNeeded MessageToAny n b).
Proof.
  intros H l. unfold AddAuthEnabledFilterIfNeeded. destruct b; simpl; [|apply appends_none].
  destruct (StagedFilterListContainsName l n); [apply appends_none|]. by apply inst_disabled.
Qed.

Lemma inst_if s c (b : bool) f : appends (installed s c) f → appends (installed s c) (λ l, if b then Some l else f l).
Proof. intros H. destruct b; [apply appends_none|apply H]. Qed.

Lemma appends_compressors (P : StagedFilter (option HttpFilter) → Prop) i l :
  (∀ e i a, e ∈ l → P (mkSF (Some (mkHttpFilter e.1 (Some a) true)) (RelativeToStage CorsStage i) 0)) →
  appends P (add_compressors MessageToAny i l).
Proof.
  revert i. induction l as [|e l IH]; intros i H acc; simpl; [apply appends_none|].
  destruct (appends_disabled P e.1 (FCompressor e.2) (RelativeToStage CorsStage (1 + i)) 0
    (λ a, H e _ a ltac:(apply elem_of_cons; by left)) acc) as (l1 & -> & H1). simpl.
  destruct (IH (i + 1)%Z (λ b j a Hb, H b j a ltac:(apply elem_of_cons; by right)) (acc ++ l1)) as (l2 & -> & H2).
  exists (l1 ++ l2). rewrite app_assoc. split; [done|]. by apply Forall_app.
Qed.

Lemma inst_compressors s c i l : (∀ e, e ∈ l → e.1 = compressorFilterNameFor e.2) →
  appends (installed s c) (add_compressors MessageToAny i l).
Proof.
  intros H. apply appends_compressors. intros e j a He. split; [eexists; split; [done|by left]|].
  unfold sf_name. simpl. rewrite (H e He). elsewhere.
Qed.

Lemma gives_compressors i l e : e ∈ l → gives (add_compressors MessageToAny i l) e.1.
Proof.
  intros He acc l' H. revert i acc H. induction l as [|b l IH]; intros i acc H; simpl in H; [by apply elem_of_nil in He|].
  destruct (add_disabled_eq b.1 (FCompressor b.2) (RelativeToStage CorsStage (1 + i)) 0 acc) as [a E]. rewrite E in H. simpl in H.
  apply elem_of_cons in He as [->|He]; [|by apply (IH He (i + 1)%Z _ H)].
  destruct (appends_compressors (λ _, True) (i + 1)%Z l (λ _ _ _ _, I)
    (acc ++ [mkSF (Some (mkHttpFilter b.1 (Some a) true)) (RelativeToStage CorsStage (1 + i)) 0])) as (l2 & E2 & _).
  rewrite E2 in H. simplify_eq. eexists. rewrite !elem_of_app, list_elem_of_singleton. split; [left; by right|done].
Qed.

Lemma ext_ok_inv k e : ext_ok k e → ∃ x c, e = Some x ∧ ext_config k x = Some c.
Proof. intros [c H]. destruct e as [x|]; [|done]. by exists x, c. Qed.

Definition step_for (k : ProviderKind) : Provider Cfg → Staged → option Staged :=
  match k with
  | extAuthPerProvider => add_ext_auth MessageToAny
  | extProcPerProvider => add_ext_proc MessageToAny
  | jwtPerProvider => add_jwt MessageToAny
  | rateLimitPerProvider => add_rate_limit MessageToAny
  | oauth2PerProvider => add_oauth MessageToAny
  end.

Lemma inst_step_for k s c p : pass_ok s → p ∈ providers s k c → appends (installed s c) (step_for k p).
Proof.
  intros H Hin. destruct (ext_ok_inv _ _ (po_providers _ H _ _ _ Hin)) as (e & cfg & He & Hc).
  destruct k; cbn [step_for ext_config] in *; intros l.
  - unfold add_ext_auth. rewrite He. simpl. rewrite Hc. apply inst_disabled. elsewhere. intros m _. split; [done|by exists p].
  - unfold add_ext_proc. destruct (runAsUpstreamFilter (pr_stage p)); [apply appends_none|].
    rewrite He. simpl. rewrite Hc. apply inst_disabled. elsewhere.
  - unfold add_jwt. rewrite He. simpl. rewrite Hc. apply inst_disabled. elsewhere. intros m _. split; [done|by exists p].
  - unfold add_rate_limit. rewrite He. simpl. rewrite Hc. apply inst_disabled. elsewhere.
  - unfold add_oauth. rewrite He. simpl. destruct (ge_oauth2 e) as [o|]; [|done]. simpl in *. rewrite Hc.
    destruct (inst_disabled s c (oauthFilterName (pr_name p)) (FProvider cfg) (BeforeStage AuthNStage) (ge_weight e)
      ltac:(elsewhere) l) as (l1 & -> & H1). simpl.
    destruct (oa_jwtCfg o) as [j|]; [|by exists l1].
    destruct (inst_disabled s c (oauthJWTFilterName (pr_name p)) (FProvider j) (DuringStage AuthNStage) (ge_weight e)
      ltac:(elsewhere) (l ++ l1)) as (l2 & -> & H2).
    exists (l1 ++ l2). rewrite app_assoc. split; [done|]. by apply Forall_app.
Qed.

Lemma steps_installed s c f : pass_ok s → f ∈ http_filter_steps MessageToAny c s → appends (installed s c) f.
Proof.
  intros Hok H. unfold http_filter_steps in H.
  repeat (apply elem_of_cons in H as [->|H]); [..|by apply elem_of_nil in H].
  all: try (apply inst_when; elsewhere).
  all: try (apply inst_if, inst_disable; set_solver).
  all: try (apply inst_if, inst_enabled; elsewhere).
  all: try (destruct (needs s _ c); [apply inst_enabled; elsewhere|apply appends_none]).
  - apply appends_all. intros p. by apply (inst_step_for extProcPerProvider).
  - apply appends_all. intros p. by apply (inst_step_for extAuthPerProvider).
  - apply appends_all. intros p. by apply (inst_step_for oauth2PerProvider).
  - apply appends_all. intros p. by apply (inst_step_for jwtPerProvider).
  - apply appends_all. intros p. by apply (inst_step_for rateLimitPerProvider).
  - destruct (bufferInChain s !! c) as [e|] eqn:E; [|apply appends_none]. apply inst_disabled. elsewhere. by exists e.
  - destruct (needs s rbacInChain c); [|apply appends_none]. intros l. eexists. split; [done|]. constructor; [|done].
    destruct (Hmarshal FEmptyRbac) as [a Ha]. unfold MustNewStagedFilter, NewStagedFilter. rewrite Ha. simpl.
    split; [eexists; split; [done|by right]|]. elsewhere.
  - apply inst_compressors. apply (po_comp _ Hok).
  - apply appends_all. intros e He. apply inst_disabled. rewrite (po_decomp _ Hok _ _ He). by elsewhere.
Qed.

Lemma contains_name l n : StagedFilterListContainsName l n = true → ∃ g : StagedFilter (option HttpFilter), g ∈ l ∧ sf_name g = n.
Proof.
  induction l as [|f l IH]; [done|]. cbn [StagedFilterListContainsName]. destruct (String.eqb (sf_name f) n) eqn:E.
  - apply String.eqb_eq in E. intros _. exists f. by rewrite elem_of_cons; auto.
  - intros H. destruct (IH H) as (g & Hg & Hn). exists g. rewrite elem_of_cons. auto.
Qed.

Lemma gives_enabled n : gives (AddAuthEnabledFilterIfNeeded MessageToAny n true) n.
Proof.
  intros l l'. unfold AddAuthEnabledFilterIfNeeded. simpl.
  destruct (StagedFilterListContainsName l n) eqn:E; [intros [= <-]; by apply contains_name|apply gives_disabled].
Qed.
Lemma gives_disable n ns : gives (AddDisableFilterIfNeeded MessageToAny n ns) n.
Proof.
  intros l l'. unfold AddDisableFilterIfNeeded.
  destruct (StagedFilterListContainsName l n) eqn:E; [intros [= <-]; by apply contains_name|apply gives_disabled].
Qed.

Lemma not_nil {A} (l : list A) a : a ∈ l → is_nil l = false.
Proof. destruct l; [by intros ?%elem_of_nil|done]. Qed.

Ltac find_step := unfold http_filter_steps; cbv zeta beta; repeat first [apply list_elem_of_here | apply list_elem_of_further].

Lemma step_for_in k s c : add_all (step_for k) (providers s k c) ∈ http_filter_steps MessageToAny c s.
Proof. destruct k; cbn [step_for]; find_step. Qed.

Lemma provider_gives k p n : ext_ok k (pr_ext p) → n ∈ provider_names k p → k = extProcPerProvider ∧ runAsUpstreamFilter (pr_stage p) = true ∨ gives (step_for k p) n.
Proof.
  intros He Hn. destruct (ext_ok_inv _ _ He) as (e & cfg & Ee & Hc). destruct k; cbn [step_for provider_names ext_config] in *.
  - right. apply list_elem_of_singleton in Hn as ->. unfold add_ext_auth. rewrite Ee. simpl. rewrite Hc. apply gives_disabled.
  - apply list_elem_of_singleton in Hn as ->. unfold add_ext_proc. destruct (runAsUpstreamFilter (pr_stage p)); [by left|right].
    rewrite Ee. simpl. rewrite Hc. apply gives_disabled.
  - right. apply list_elem_of_singleton in Hn as ->. unfold add_jwt. rewrite Ee. simpl. rewrite Hc. apply gives_disabled.
  - right. apply list_elem_of_singleton in Hn as ->. unfold add_rate_limit. rewrite Ee. simpl. rewrite Hc. apply gives_disabled.
  - right. intros l l' H. unfold add_oauth in H. rewrite Ee in *. simpl in *.
    destruct (ge_oauth2 e) as [o|]; [|done]. simpl in *. rewrite Hc in H.
    destruct (add_disabled_eq (oauthFilterName (pr_name p)) (FProvider cfg) (BeforeStage AuthNStage) (ge_weight e) l) as [a Ha].
    rewrite Ha in H. simpl in H. destruct (oa_jwtCfg o) as [j|].
    + rewrite bool_decide_true in Hn by done.
      destruct (add_disabled_eq (oauthJWTFilterName (pr_name p)) (FProvider j) (DuringStage AuthNStage) (ge_weight e)
        (l ++ [mkSF (Some (mkHttpFilter (oauthFilterName (pr_name p)) (Some a) true)) (BeforeStage AuthNStage) (ge_weight e)])) as [a' Ha'].
      rewrite Ha' in H. simplify_eq. apply elem_of_cons in Hn as [->|Hn]; [|apply list_elem_of_singleton in Hn as ->];
        eexists; rewrite !elem_of_app, !list_elem_of_singleton; [split; [left; by right|done]|split; [by right|done]].
    + rewrite bool_decide_false in Hn by (intros [? [=]]). apply list_elem_of_singleton in Hn as ->. simplify_eq.
      eexists. rewrite elem_of_app, list_elem_of_singleton. by split; [right|].
Qed.

Lemma chain_step_gives k s c : (k, c) ∈ inChain s → ∃ f, f ∈ http_filter_steps MessageToAny c s ∧ gives f (chain_filter_name k).
Proof.
  intros H. assert (needs s k c = true) as Hk by by apply bool_decide_eq_true.
  assert (∀ name cfg st, gives (add_disabled_when MessageToAny (needs s k c) name cfg st) name) as Hg.
  { intros name cfg st. rewrite Hk. apply gives_disabled. }
  destruct k; cbn [chain_filter_name].
  all: try (eexists; split; [|apply Hg]; by find_step).
  eexists. split; [do 19 apply list_elem_of_further; apply list_elem_of_here|].
  intros l l'. rewrite Hk. intros [= <-]. destruct (Hmarshal FEmptyRbac) as [a Ha].
  eexists. rewrite elem_of_app, list_elem_of_singleton. split; [by right|].
  unfold MustNewStagedFilter, NewStagedFilter. by rewrite Ha.
Qed.

Lemma chain_enabled_gives k n s c : enableAuthMetadata s = true → (k, c) ∈ inChain s → chain_enabled_name k = Some n →
  ∃ f, f ∈ http_filter_steps MessageToAny c s ∧ gives f n.
Proof.
  intros He H Hk. assert (needs s k c = true) as Hn by by apply bool_decide_eq_true.
  assert (gives (λ l, if needs s k c then AddAuthEnabledFilterIfNeeded MessageToAny n (enableAuthMetadata s) l else Some l) n) as Hg.
  { rewrite Hn, He. apply gives_enabled. }
  destruct k; simplify_eq/=; eexists; (split; [|exact Hg]); find_step.
Qed.

Lemma provider_enabled_gives k n p s c :
  enableAuthMetadata s = true → p ∈ providers s k c → provider_enabled_name k = Some n →
  ∃ f, f ∈ http_filter_steps MessageToAny c s ∧ gives f n.
Proof.
  intros He H Hk.
  assert (gives (λ l, if is_nil (providers s k c) then Some l else AddAuthEnabledFilterIfNeeded MessageToAny n (enableAuthMetadata s) l) n) as Hg.
  { rewrite (not_nil _ _ H), He. apply gives_enabled. }
  destruct k; simplify_eq/=; eexists; (split; [|exact Hg]); find_step.
Qed.

Lemma http_filters_spec s c : pass_ok s → ∃ l, HttpFilters MessageToAny c s = Some l ∧ Forall (installed s c) l.
Proof.
  intros H. destruct (appends_all (installed s c) (λ f, f) (http_filter_steps MessageToAny c s)
    (λ f, steps_installed s c f H) []) as (l & E & Hl). by exists l.
Qed.

Lemma http_filters_give s c l f n : pass_ok s → HttpFilters MessageToAny c s = Some l →
  f ∈ http_filter_steps MessageToAny c s → gives f n → ∃ g, g ∈ l ∧ sf_name g = n.
Proof.
  intros H Hl Hf Hg. eapply (gives_all (installed s c) (λ f, f)); [|exact Hf|exact Hg|exact Hl].
  intros b. by apply steps_installed.
Qed.

Lemma upstream_appends s c p : pass_ok s → p ∈ providers s extProcPerProvider c → appends (installed s c) (add_upstream MessageToAny p).
Proof.
  intros H Hp l. destruct (ext_ok_inv _ _ (po_providers _ H _ _ _ Hp)) as (e & cfg & He & Hc). simpl in Hc.
  unfold add_upstream. destruct (runAsUpstreamFilter (pr_stage p)); simpl; [|apply appends_none].
  rewrite He. simpl. rewrite Hc. apply inst_disabled. elsewhere.
Qed.

Lemma upstream_gives p : ext_ok extProcPerProvider (pr_ext p) → runAsUpstreamFilter (pr_stage p) = true →
  gives (add_upstream MessageToAny p) (extProcFilterName (pr_name p)).
Proof.
  intros H Hu. destruct (ext_ok_inv _ _ H) as (e & cfg & He & Hc). simpl in Hc.
  unfold add_upstream. rewrite Hu, He. simpl. rewrite Hc. apply gives_disabled.
Qed.

Lemma wanted_installed s c n : pass_ok s → wanted s c n →
  ∃ l lu, HttpFilters MessageToAny c s = Some l ∧ UpstreamHttpFilters MessageToAny c s = Some lu ∧
    (∃ f, f ∈ l ++ lu ∧ sf_name f = n) ∧ Forall (installed s c) (l ++ lu).
Proof.
  intros H Hw. destruct (http_filters_spec s c H) as (l & Hl & Fl).
  destruct (appends_all (installed s c) (add_upstream MessageToAny) _ (λ p, upstream_appends s c p H) []) as (lu & Hu & Fu).
  exists l, lu. split; [done|]. split; [done|]. split; [|by apply Forall_app].
  assert (∀ m, (∃ f, f ∈ http_filter_steps MessageToAny c s ∧ gives f m) → ∃ f, f ∈ l ++ lu ∧ sf_name f = m) as Hstep.
  { intros m (f & Hf & Hg). destruct (http_filters_give s c l f m H Hl Hf Hg) as (g & Hgi & Hn).
    exists g. rewrite elem_of_app. auto. }
  destruct Hw as [k Hk|k n He Hk Hn|[e He]|e He|e He|k p n Hp Hn|k p n He Hp Hn].
  - by apply Hstep, chain_step_gives.
  - by eapply Hstep, chain_enabled_gives.
  - apply Hstep. eexists. split; [do 18 apply list_elem_of_further; apply list_elem_of_here|]. rewrite He. apply gives_disabled.
  - apply Hstep. exists (addCompressors MessageToAny s c). split; [find_step|]. by apply gives_compressors.
  - apply Hstep. exists (addDecompressors MessageToAny s c). split; [find_step|].
    eapply (gives_all (λ _, True)); [|exact He|apply gives_disabled]. intros b _. by apply appends_disabled.
  - pose proof (po_providers _ H _ _ _ Hp) as Hok. destruct (provider_gives k p n Hok Hn) as [[-> Hr]|Hg].
    + simpl in Hn. apply list_elem_of_singleton in Hn as ->.
      destruct (gives_all (installed s c) (add_upstream MessageToAny) _ p _ (λ p, upstream_appends s c p H) Hp
        (upstream_gives p Hok Hr) [] lu Hu) as (g & Hg & Hn). exists g. rewrite elem_of_app. auto.
    + apply Hstep. exists (add_all (step_for k) (providers s k c)). split; [apply step_for_in|].
      eapply (gives_all (installed s c)); [|exact Hp|exact Hg]. intros q. by apply inst_step_for.
  - by eapply Hstep, provider_enabled_gives.
Qed.

(** C31: Through any sequence of calls of the hooks with policies whose providers are complete, every
    configuration that a call writes next to a route, backend, virtual host or route configuration and that makes a
    filter act has a filter of that name in the downstream or upstream filters of its chain, whatever
    is called before and after; every filter but RBAC is disabled unless a route configures it. *)
Theorem acting_configs_installed pre k post b n m :
  Forall call_ok (pre ++ k :: post) →
  (call k (run (NewGatewayTranslationPass b) pre)).1 !! n = Some m → call_typed k !! n ≠ Some m → acting n m = true →
  let s := run (NewGatewayTranslationPass b) (pre ++ k :: post) in
  ∃ l lu, HttpFilters MessageToAny (call_chain k) s = Some l ∧ UpstreamHttpFilters MessageToAny (call_chain k) s = Some lu ∧
    (∃ f, f ∈ l ++ lu ∧ sf_name f = n) ∧
    Forall (λ f, ∃ h, sf_filter f = Some h ∧ (hf_disabled h = true ∨ hf_name h = rbacFilterNamePrefix)) (l ++ lu).
Proof.
  intros Hall Hn Hnew Ha. cbv zeta. unfold run at 1 2. rewrite foldl_app. simpl. fold (run (NewGatewayTranslationPass b) pre).
  apply Forall_app in Hall as [Hpre [Hk Hpost]%Forall_cons].
  set (s0 := run (NewGatewayTranslationPass b) pre) in *.
  assert (pass_ok s0) as Hok by (apply run_advances, new_pass_ok; done).
  destruct (call_advances k s0 Hk) as [Hle Hok1 Hcov]. destruct (Hcov n m Hn Ha) as [H|Hw]; [done|].
  destruct (run_advances post (call k s0).2 Hpost) as [Hle2 Hok2].
  destruct (wanted_installed (run (call k s0).2 post) (call_chain k) n) as (l & lu & Hl & Hlu & Hf & Hi);
    [by apply Hok2, Hok1|by eapply wanted_le|].
  exists l, lu. split; [exact Hl|]. split; [exact Hlu|]. split; [done|]. eapply Forall_impl; [exact Hi|]. by intros f [Hd _].
Qed.

Lemma decompressor_precedes (s : Pass) c e : bufferInChain s !! c = Some e → stage_ok (be_stage e) →
  FilterStageComparison (decompressorStage s c) (entry_stage e) = Lt.
Proof.
  intros He Hs. unfold decompressorStage. rewrite He.
  assert (entry_stage e = defaultBufferFilterStage ∨ (-1 ≤ RelativeWeight (entry_stage e))%Z) as [->|Hw].
  { unfold entry_stage. destruct (be_stage e) as [x|] eqn:E; simpl; [by apply Hs|by left]. }
  { by vm_compute. }
  destruct (entry_stage e) as [to w]. cbn [RelativeWeight RelativeTo] in *.
  assert (∀ a b a' b', (a < a' ∨ a = a' ∧ b < b')%Z → FilterStageComparison (mkStage a b) (mkStage a' b') = Lt) as Hlt.
  { intros a b a' b' H. unfold FilterStageComparison. simpl. destruct (Z.ltb_spec a a'); [done|].
    destruct (Z.ltb_spec a' a); [lia|]. destruct (Z.ltb_spec b b'); [done|lia]. }
  destruct (FilterStageComparison (mkStage to w) (AfterStage CorsStage)) eqn:E.
  1,2: unfold RelativeToStage, headOfStageWeight; apply Hlt; lia.
  apply Hlt. unfold FilterStageComparison in E. cbn [RelativeWeight RelativeTo AfterStage RelativeToStage] in E. unfold CorsStage in *.
  destruct (Z.ltb_spec to 1); [done|]. destruct (Z.ltb_spec 1 to); [lia|]. destruct (Z.ltb_spec w 1); [done|].
  destruct (Z.ltb_spec 1 w); [lia|done].
Qed.

(** In the filters of any chain, decompression comes before buffering, whose limit is then one on
    the decompressed body; and when the chain has filters of external authorization or of JWTs it also has
    the filter through which a route disables them all, ahead of them. *)
Theorem filters_ordered l b c fs f g :
  Forall call_ok l → let s := run (NewGatewayTranslationPass b) l in
  HttpFilters MessageToAny c s = Some fs → f ∈ fs →
  (∀ lib, sf_name f = decompressorFilterNameFor lib → g ∈ fs → sf_name g = bufferFilterName →
     FilterStageComparison (sf_stage f) (sf_stage g) = Lt) ∧
  (∀ m, sf_name f = extAuthFilterName m →
     ∃ d, d ∈ fs ∧ sf_name d = ExtAuthGlobalDisableFilterName ∧ FilterStageComparison (sf_stage d) (sf_stage f) = Lt) ∧
  (∀ m, sf_name f = jwtFilterName m →
     ∃ d, d ∈ fs ∧ sf_name d = jwtGlobalDisableFilterName ∧ FilterStageComparison (sf_stage d) (sf_stage f) = Lt).
Proof.
  intros Hall. cbv zeta. intros Hl Hf. set (s := run (NewGatewayTranslationPass b) l) in *.
  assert (pass_ok s) as Hok by (apply run_advances, new_pass_ok; done).
  destruct (http_filters_spec s c Hok) as (fs' & Hl' & Hi). rewrite Hl in Hl'. simplify_eq.
  rewrite Forall_forall in Hi. pose proof (Hi f Hf) as [_ Hp].
  assert (∀ k n ns, n ∈ global_disables → (∃ p, p ∈ providers s k c) →
    (λ l, if is_nil (providers s k c) then Some l else AddDisableFilterIfNeeded MessageToAny n ns l) ∈ http_filter_steps MessageToAny c s →
    sf_stage f = DuringStage AuthNStage →
    ∃ d, d ∈ fs' ∧ sf_name d = n ∧ FilterStageComparison (sf_stage d) (sf_stage f) = Lt) as Hd.
  { intros k n ns Hn [p Hin] Hst Hs. destruct (http_filters_give s c fs' _ n Hok Hl Hst) as (d & Hdi & Hdn).
    { rewrite (not_nil _ _ Hin). apply gives_disable. }
    exists d. split; [done|]. split; [done|]. destruct (Hi d Hdi) as [_ Hpd].
    rewrite (pl_disable _ _ _ _ Hpd) by by rewrite Hdn. by rewrite Hs. }
  split_and!.
  - intros lib Hn Hg Hb. destruct (Hi g Hg) as [_ Hpg]. destruct (pl_buffer _ _ _ _ Hpg Hb) as (e & He & ->).
    rewrite (pl_decomp _ _ _ _ Hp lib Hn). by apply decompressor_precedes, (po_buffer _ Hok c).
  - intros m Hn. destruct (pl_ext_auth _ _ _ _ Hp m Hn) as [Hs Hpr]. eapply Hd; [|exact Hpr|find_step|done]. set_solver.
  - intros m Hn. destruct (pl_jwt _ _ _ _ Hp m Hn) as [Hs Hpr]. eapply Hd; [|exact Hpr|find_step|done]. set_solver.
Qed.
End properties.

(** ** Route settings of several policies *)

Section settings.
Context {Cfg : Type}.
Abbreviation Pass := (trafficPolicyPluginGwPass Cfg).
Abbreviation Spec := (trafficPolicySpecIr Cfg).
Abbreviation Action := (RouteAction Cfg).

(** The first value that is set. *)
Definition first_set {A} (l : list (option A)) : option A := head (omap id l).

Lemma keep_set_cons {A} (x : option A) l : first_set (x :: l) = keep_set x (first_set l).
Proof. by destruct x. Qed.
Lemma first_keep {A} (x y : option A) l : first_set (keep_set x y :: l) = first_set (x :: y :: l).
Proof. by destruct x, y. Qed.

Definition host_setting (spec : Spec) : option (HostRewrite Cfg) :=
  match s_autoHostRewrite spec with Some (Some true) => Some (AutoHostRewrite true) | _ => None end.
Definition mirror_setting (spec : Spec) : option requestMirrorIR :=
  match s_requestMirror spec with
  | Some m => match rmi_disable_suffix m, rmi_host m with None, None => None | _, _ => Some m end
  | None => None
  end.
Definition mirrored (m : option requestMirrorIR) (l : list (option MirrorPolicy)) : list (option MirrorPolicy) :=
  match m with Some m => map (fmap (mirror_edit m)) l | None => l end.

(** One policy on a route with an action. *)
Record set_by (spec : Spec) (r r' : TPRoute Cfg) (s s' : Pass) (a a' : Action) : Prop := mkSetBy {
  sb_name : rt_name r' = rt_name r;
  sb_timeout : ac_timeout a' = keep_set (ac_timeout a) (s_timeouts spec ≫= ti_route);
  sb_idle : ac_idle a' = keep_set (ac_idle a) (s_timeouts spec ≫= ti_idle);
  sb_retry : ac_retry a' = keep_set (ac_retry a) (mjoin (s_retry spec));
  sb_redirect : ac_internal_redirect a' = keep_set (ac_internal_redirect a) (mjoin (s_internalRedirect spec));
  sb_host : ac_host a' = keep_set (ac_host a) (host_setting spec);
  sb_prefix : ac_prefix a' = ac_prefix a;
  sb_regex : ac_regex a' = if String.eqb (ac_prefix a) "" then keep_set (ac_regex a) (mjoin (s_urlRewrite spec)) else ac_regex a;
  sb_tracing : rt_tracing r' = keep_set (mjoin (s_tracing spec)) (rt_tracing r);
  sb_mirrors : ac_mirrors a' =
    if bool_decide (rt_name r ∈ requestMirrorConfigured s) then ac_mirrors a else mirrored (mirror_setting spec) (ac_mirrors a);
  sb_configured : requestMirrorConfigured s' =
    match mirror_setting spec with Some _ => {[ rt_name r ]} ∪ requestMirrorConfigured s | None => requestMirrorConfigured s end }.

Lemma keep_none {A} (x : option A) : keep_set x None = x.
Proof. by destruct x. Qed.

Lemma mirror_step spec name (a : Action) (s : Pass) :
  ∃ a' s', applyRequestMirror (s_requestMirror spec) name (a, s) = (a', s') ∧
    a' = with_ac_mirrors (if bool_decide (name ∈ requestMirrorConfigured s) then ac_mirrors a else mirrored (mirror_setting spec) (ac_mirrors a)) a ∧
    requestMirrorConfigured s' =
      match mirror_setting spec with Some _ => {[ name ]} ∪ requestMirrorConfigured s | None => requestMirrorConfigured s end.
Proof.
  unfold applyRequestMirror, mirror_setting, mirrored.
  assert (a = with_ac_mirrors (ac_mirrors a) a) as Ea by by destruct a.
  destruct (s_requestMirror spec) as [m|]; [|eexists _, _; split; [done|]; by case_bool_decide].
  destruct (rmi_disable_suffix m), (rmi_host m);
    try (eexists _, _; split; [done|]; by case_bool_decide);
    (case_bool_decide as Hn; eexists _, _; (split; [done|]); split; [done|simpl; set_solver..]).
Qed.

(** Every setting as an update of its field. *)
Lemma upgrades_eq u (a : Action) : ∃ v, applyHTTPUpgrade u a = with_ac_upgrades v a.
Proof. destruct u; [by eexists|]. exists (ac_upgrades a). by destruct a. Qed.
Lemma rewrite_eq u (a : Action) :
  applyURLRewrite u a = with_ac_regex (if String.eqb (ac_prefix a) "" then keep_set (ac_regex a) (mjoin u) else ac_regex a) a.
Proof. destruct a as [? ? ? ? ? ? [] p ?], u as [[]|]; unfold applyURLRewrite; simpl; by destruct (String.eqb p ""). Qed.
Lemma redirect_eq r (a : Action) : applyInternalRedirect r a = with_ac_redirect (keep_set (ac_internal_redirect a) (mjoin r)) a.
Proof. by destruct a as [? ? ? ? ? [] ? ? ?], r as [[]|]. Qed.
Lemma retry_eq r (a : Action) : applyRetryPolicy r a = with_ac_retry (keep_set (ac_retry a) (mjoin r)) a.
Proof. by destruct a as [? ? ? ? [] ? ? ? ?], r as [[]|]. Qed.
Lemma timeouts_eq t (a : Action) :
  applyTimeouts t a = with_ac_times (keep_set (ac_idle a) (t ≫= ti_idle)) (keep_set (ac_timeout a) (t ≫= ti_route)) a.
Proof. by destruct a as [? ? [] [] ? ? ? ? ?], t as [[]|]. Qed.
Lemma host_eq spec (a : Action) :
  applyAutoHostRewrite (s_autoHostRewrite spec) a = with_ac_host (keep_set (ac_host a) (host_setting spec)) a.
Proof. unfold host_setting. by destruct a as [? [] ? ? ? ? ? ? ?], (s_autoHostRewrite spec) as [[[]|]|]. Qed.
Lemma tracing_eq t (r : TPRoute Cfg) :
  handleRouteTracing t r = mkTPRoute (rt_name r) (rt_action r) (keep_set (mjoin t) (rt_tracing r)) (rt_stat_prefix r).
Proof. by destruct r, t as [[]|]. Qed.

Lemma step_sets spec r s (a : Action) : rt_action r = Some a →
  ∃ r' s' a', handlePerRoutePolicies spec (r, s) = (r', s') ∧ rt_action r' = Some a' ∧ set_by spec r r' s s' a a'.
Proof.
  intros Ha. unfold handlePerRoutePolicies. rewrite Ha.
  destruct (mirror_step spec (rt_name r) a s) as (a1 & s1 & -> & -> & Hs). rewrite host_eq, timeouts_eq, retry_eq, redirect_eq, rewrite_eq, tracing_eq.
  match goal with |- context [applyHTTPUpgrade ?u ?x] => destruct (upgrades_eq u x) as [v ->] end.
  eexists _, _, _. split; [done|]. split; [done|]. split; done.
Qed.

(** C32: The policies of a route, of its listener and of its gateway are applied to the route in that order: its
    timeouts, retries, internal redirects, host and path rewrites and mirror settings are those of the
    first policy that sets them, or what was already there; a path rewrite is not added to a route that replaces
    a prefix.  Tracing and upgrades have no such guard and are not claimed. *)
Theorem specific_settings_kept specs r (s : Pass) (a : Action) : rt_action r = Some a →
  ∃ r' s' a', foldl (λ x spec, handlePerRoutePolicies spec x) (r, s) specs = (r', s') ∧ rt_action r' = Some a' ∧
    ac_timeout a' = first_set (ac_timeout a :: map (λ sp, s_timeouts sp ≫= ti_route) specs) ∧
    ac_idle a' = first_set (ac_idle a :: map (λ sp, s_timeouts sp ≫= ti_idle) specs) ∧
    ac_retry a' = first_set (ac_retry a :: map (λ sp, mjoin (s_retry sp)) specs) ∧
    ac_internal_redirect a' = first_set (ac_internal_redirect a :: map (λ sp, mjoin (s_internalRedirect sp)) specs) ∧
    ac_host a' = first_set (ac_host a :: map host_setting specs) ∧
    ac_regex a' = (if String.eqb (ac_prefix a) ""
                   then first_set (ac_regex a :: map (λ sp, mjoin (s_urlRewrite sp)) specs) else ac_regex a) ∧
    ac_mirrors a' = (if bool_decide (rt_name r ∈ requestMirrorConfigured s) then ac_mirrors a
                     else mirrored (first_set (map mirror_setting specs)) (ac_mirrors a)).
Proof.
  revert r s a. induction specs as [|sp specs IH]; intros r s a Ha.
  { exists r, s, a. split_and!; try done; try (by case_bool_decide);
      unfold first_set; simpl; repeat case_match; simpl in *; congruence. }
  cbn [foldl map]. destruct (step_sets sp r s a Ha) as (r1 & s1 & a1 & -> & Ha1 & []).
  destruct (IH r1 s1 a1 Ha1) as (r' & s' & a' & -> & Ha' & H1 & H2 & H3 & H4 & H5 & H6 & H7).
  exists r', s', a'. split_and!; try done.
  - by rewrite H1, sb_timeout0, first_keep.
  - by rewrite H2, sb_idle0, first_keep.
  - by rewrite H3, sb_retry0, first_keep.
  - by rewrite H4, sb_redirect0, first_keep.
  - by rewrite H5, sb_host0, first_keep.
  - rewrite H6, sb_prefix0, sb_regex0. destruct (String.eqb (ac_prefix a) ""); [apply first_keep|done].
  - rewrite H7, sb_mirrors0, sb_name0, sb_configured0, keep_set_cons.
    destruct (mirror_setting sp) as [m|] eqn:Em; [|unfold keep_set; by destruct (bool_decide _)].
    rewrite bool_decide_true by set_solver. done.
Qed.
End settings.

(** ** The stage of the buffer filter *)

Section buffer.
Context {Cfg : Type}.
Abbreviation Pass := (trafficPolicyPluginGwPass Cfg).
Abbreviation Spec := (trafficPolicySpecIr Cfg).
Abbreviation St := (gmap string (RouteMsg Cfg) * Pass)%type.

Definition same_buffers (x x' : St) : Prop := bufferInChain x'.2 = bufferInChain x.2.
#[local] Instance same_buffers_preorder : PreOrder same_buffers.
Proof. split; unfold same_buffers; [done|]. intros x y z Hxy Hyz. by rewrite Hyz. Qed.

Lemma same_fold {A} (f : St → A → St) l x : (∀ x a, same_buffers x (f x a)) → same_buffers x (foldl f x l).
Proof. intros H. revert x. induction l as [|a l IH]; intros x; simpl; [done|]. etrans; [apply H|apply IH]. Qed.

Lemma same_meta n x : same_buffers x (AddAuthMetadataIfNeeded n x).
Proof. unfold AddAuthMetadataIfNeeded. by case_match. Qed.
Lemma same_blank n x : same_buffers x (AddBlankTransformationIfNeeded n x).
Proof. unfold AddBlankTransformationIfNeeded. by case_match. Qed.

Lemma same_if (b : bool) (x y z : St) : same_buffers x y → same_buffers x z → same_buffers x (if b then y else z).
Proof. by destruct b. Qed.

Lemma same_extAuth c i x : same_buffers x (handleExtAuth c i x).
Proof.
  destruct i as [i|]; [|done]. cbn [handleExtAuth]. apply same_if; [by etrans; [|apply same_blank]|].
  destruct (ea_providers i) as [|p l]; [done|]. etrans; [|apply same_meta]. by apply same_fold.
Qed.
Lemma same_extProc c i x : same_buffers x (handleExtProc c i x).
Proof. destruct i as [i|]; [|done]. cbn [handleExtProc]. apply same_if; [done|by apply same_fold]. Qed.
Lemma same_jwt c i x : same_buffers x (handleJwt c i x).
Proof.
  destruct i as [i|]; [|done]. cbn [handleJwt]. apply same_if; [by etrans; [|apply same_blank]|].
  destruct (jw_providers i) as [|p l]; [done|]. etrans; [|apply same_meta]. by apply same_fold.
Qed.
Lemma same_compression c i x : same_buffers x (handleCompression c i x).
Proof. destruct i as [i|]; [|done]. cbn [handleCompression]. apply same_if; by apply same_fold. Qed.
Lemma same_decompression c i x : same_buffers x (handleDecompression c i x).
Proof. destruct i as [i|]; [|done]. cbn [handleDecompression]. apply same_if; by apply same_fold. Qed.
Lemma same_oauth c o x : same_buffers x (handleOauth2 c o x).
Proof. destruct o as [o|]; [|done]. cbn [handleOauth2]. etrans; [|apply same_meta]. by case_match. Qed.
Lemma same_basicAuth c b x : same_buffers x (handleBasicAuth c b x).
Proof.
  destruct b as [b|]; [|done]. cbn [handleBasicAuth]. apply same_if; [by etrans; [|apply same_blank]|].
  exact (same_meta _ (AddTypedConfig _ _ x)).
Qed.
Lemma same_apiKeyAuth c b x : same_buffers x (handleAPIKeyAuth c b x).
Proof.
  destruct b as [b|]; [|done]. cbn [handleAPIKeyAuth]. apply same_if; [by etrans; [|apply same_blank]|].
  case_match; [|done]. exact (same_meta _ (AddTypedConfig _ _ x)).
Qed.
Lemma same_HttpACL c i x : same_buffers x (handleHttpACL c i x).
Proof. unfold handleHttpACL. by repeat case_match. Qed.
Lemma same_FaultInjection c i x : same_buffers x (handleFaultInjection c i x).
Proof. unfold handleFaultInjection. by repeat case_match. Qed.
Lemma same_RBAC c i x : same_buffers x (handleRBAC c i x).
Proof. unfold handleRBAC. by repeat case_match. Qed.
Lemma same_HeaderModifiers c i x : same_buffers x (handleHeaderModifiers c i x).
Proof. unfold handleHeaderModifiers. by repeat case_match. Qed.
Lemma same_Csrf c i x : same_buffers x (handleCsrf c i x).
Proof. unfold handleCsrf. by repeat case_match. Qed.
Lemma same_Cors c i x : same_buffers x (handleCors c i x).
Proof. unfold handleCors. by repeat case_match. Qed.
Lemma same_LocalRateLimit c i x : same_buffers x (handleLocalRateLimit c i x).
Proof. unfold handleLocalRateLimit. by repeat case_match. Qed.
Lemma same_GlobalRateLimit c i x : same_buffers x (handleGlobalRateLimit c i x).
Proof. unfold handleGlobalRateLimit. by repeat case_match. Qed.
Lemma same_RustFormation c i x : same_buffers x (handleRustFormation c i x).
Proof. unfold handleRustFormation. by repeat case_match. Qed.

(** What a policy does to the buffer filters. *)
Definition claim_on (c : string) (b : option (bufferIR Cfg)) (m : gmap string bufferChainEntry) : gmap string bufferChainEntry :=
  match b with
  | None => m
  | Some b => let e := default (mkBufferEntry maxUint32 None) (m !! c) in
              <[c := mkBufferEntry (be_max e) (claim_stage (bu_stage b) (be_stage e))]> m
  end.

Lemma policies_buffers c spec x : bufferInChain (handlePolicies c spec x).2 = claim_on c (s_buffer spec) (bufferInChain x.2).
Proof.
  unfold handlePolicies.
  rewrite same_HttpACL, same_FaultInjection, same_oauth, same_apiKeyAuth, same_basicAuth, same_decompression, same_compression, same_RBAC.
  assert (∀ y, bufferInChain (handleBuffer c (s_buffer spec) y).2 = claim_on c (s_buffer spec) (bufferInChain y.2)) as ->
    by (intros y; by destruct (s_buffer spec)).
  by rewrite same_HeaderModifiers, same_Csrf, same_Cors, same_LocalRateLimit, same_GlobalRateLimit, same_jwt, same_extProc, same_extAuth,
    same_RustFormation.
Qed.

Lemma call_buffers k (s : Pass) :
  bufferInChain (call k s).2 = claim_on (call_chain k) (call_spec k ≫= s_buffer) (bufferInChain s).
Proof.
  destruct k as [c [p|] vhosts t|c [p|] routes t|c vars [p|] out t|c [p|] t]; try done;
    unfold call, ApplyRouteConfigPlugin, ApplyVhostPlugin, ApplyForRoute, ApplyForRouteBackend; cbn [fst snd call_chain call_spec].
  - pose proof (policies_buffers c p (t, s)) as H. destruct (handlePolicies c p (t, s)) as [t' s'].
    destruct (gateway_settings_pass p vhosts s') as [m Hm]. destruct (applyGatewayLevelPerRouteSettings p vhosts s') as [vs s2].
    simpl in *. by subst s2.
  - destruct (settings_pass p routes s) as [m Hm]. destruct (applyPerRouteSettings p routes s) as [rs s2]. simpl in *. subst s2.
    by rewrite policies_buffers.
  - destruct (per_route_pass p (out, s)) as [m Hm]. destruct (handlePerRoutePolicies p (out, s)) as [r s2]. simpl in *. subst s2.
    by rewrite policies_buffers.
  - by rewrite policies_buffers.
Qed.

(** The stages that policies ask for on a chain. *)
Definition claim_of (c : string) (k : @hook_call Cfg) : option FilterStage :=
  if String.eqb (call_chain k) c then spec ← call_spec k; b ← s_buffer spec; bu_stage b else None.
Definition chain_claims (c : string) (l : list (@hook_call Cfg)) : list FilterStage := omap (claim_of c) l.
Definition chain_stage (c : string) (s : Pass) : option FilterStage := bufferInChain s !! c ≫= be_stage.

Lemma call_stage c k s : chain_stage c (call k s).2 = claim_stage (claim_of c k) (chain_stage c s).
Proof.
  unfold chain_stage, claim_of. rewrite call_buffers. destruct (call_spec k) as [p|]; simpl; [|by case_match].
  destruct (s_buffer p) as [b|]; simpl; [|by case_match]. destruct (String.eqb_spec (call_chain k) c) as [->|Hn].
  - rewrite lookup_insert_eq. simpl. by destruct (bufferInChain s !! c).
  - by rewrite lookup_insert_ne.
Qed.

Definition stage_le (x y : FilterStage) : Prop :=
  (RelativeTo x < RelativeTo y ∨ RelativeTo x = RelativeTo y ∧ RelativeWeight x ≤ RelativeWeight y)%Z.
Lemma stage_cmp x y : match FilterStageComparison x y with Lt => stage_le x y ∧ x ≠ y | Eq => x = y | Gt => stage_le y x ∧ x ≠ y end.
Proof.
  destruct x as [a b], y as [a' b']. unfold FilterStageComparison, stage_le. simpl.
  destruct (Z.ltb_spec a a'); [split; [lia|intros [=]; lia]|]. destruct (Z.ltb_spec a' a); [split; [lia|intros [=]; lia]|].
  destruct (Z.ltb_spec b b'); [split; [lia|intros [=]; lia]|]. destruct (Z.ltb_spec b' b); [split; [lia|intros [=]; lia]|].
  f_equal; lia.
Qed.
Lemma stage_le_antisym x y : stage_le x y → stage_le y x → x = y.
Proof. destruct x, y. unfold stage_le. simpl. intros. f_equal; lia. Qed.

(** [x] is the earliest of the stages, if there is one. *)
Definition earliest (l : list FilterStage) (x : option FilterStage) : Prop :=
  match x with Some x => x ∈ l ∧ ∀ y, y ∈ l → stage_le x y | None => l = [] end.

Lemma earliest_unique l x y : earliest l x → earliest l y → x = y.
Proof.
  destruct x, y; simpl; [|intros [H _] ->; by apply elem_of_nil in H|intros -> [H _]; by apply elem_of_nil in H|done].
  intros [H1 H2] [H3 H4]. f_equal. apply stage_le_antisym; auto.
Qed.

Lemma claim_earliest l a cur : earliest l cur → earliest (l ++ option_list a) (claim_stage a cur).
Proof.
  destruct a as [a|]; simpl; [|by rewrite app_nil_r]. destruct cur as [x|]; simpl.
  - intros [Hx Hl]. pose proof (stage_cmp a x) as H.
    destruct (FilterStageComparison a x); simpl; (split; [rewrite elem_of_app, list_elem_of_singleton; auto|]);
      intros y; rewrite elem_of_app, list_elem_of_singleton; (intros [Hy| ->]; [specialize (Hl y Hy)|]); subst; unfold stage_le in *; lia.
  - intros ->. split; [set_solver|]. intros y ->%list_elem_of_singleton. unfold stage_le. lia.
Qed.

Lemma run_earliest c l s pre : earliest pre (chain_stage c s) → earliest (pre ++ chain_claims c l) (chain_stage c (run s l)).
Proof.
  revert s pre. induction l as [|k l IH]; intros s pre H; [by rewrite app_nil_r|]. cbn [run foldl].
  pose proof (claim_earliest pre (claim_of c k) _ H) as H1. rewrite <- call_stage in H1.
  apply IH in H1. rewrite <- (assoc_L (++)) in H1. unfold chain_claims in *. simpl. by destruct (claim_of c k).
Qed.

(** The buffer filter of a chain is at the earliest stage that any of its policies asks for, and does not
    depend on the order in which policies are applied; policies that only disable buffering ask for none. *)
Theorem buffer_stage_earliest c l b :
  let stage l := chain_stage c (run (NewGatewayTranslationPass b) l) in
  earliest (chain_claims c l) (stage l) ∧ ∀ l', l ≡ₚ l' → stage l = stage l'.
Proof.
  cbv zeta.
  assert (∀ l, earliest (chain_claims c l) (chain_stage c (run (NewGatewayTranslationPass b) l))) as H.
  { intros l'. apply (run_earliest c l' _ []). unfold chain_stage. simpl. by rewrite lookup_empty. }
  split; [done|]. intros l' Hp. eapply earliest_unique; [apply H|]. specialize (H l'). revert H.
  assert (chain_claims c l ≡ₚ chain_claims c l') as Hc by (unfold chain_claims; by rewrite Hp).
  unfold earliest. destruct (chain_stage c (run (NewGatewayTranslationPass b) l')) as [x|].
  - intros [Hx Hl]. split; [by rewrite Hc|]. intros y. rewrite Hc. auto.
  - intros E. rewrite E in Hc. by apply Permutation_nil_r in Hc.
Qed.
End buffer.

(** ** Stat prefixes *)

Lemma split_elems sep s x : x ∈ split sep s → no_char sep x = true.
Proof.
  revert x. induction s as [|a s IH]; intros x; cbn [split]; [by intros ->%list_elem_of_singleton|].
  destruct (Ascii.eqb a sep) eqn:E; [rewrite elem_of_cons; intros [->|H]; auto|].
  assert (Ascii.eqb sep a = false) as E' by (rewrite Ascii.eqb_sym; exact E).
  destruct (split sep s) as [|y l]; [intros ->%list_elem_of_singleton|rewrite elem_of_cons; intros [->|H]]; cbn [no_char];
    rewrite ?E'; simpl; [done|apply IH, elem_of_cons; by left|apply IH, elem_of_cons; by right].
Qed.

(** The stat prefix of a route is empty or a sequence of segments none of which is empty, whatever
    its variables stand for. *)
Theorem stat_prefix_segments {Cfg} t v (out : TPRoute Cfg) :
  let p := rt_stat_prefix (applyStatPrefix (Some t) v out) in p = "" ∨ ∀ seg, seg ∈ split "."%char p → seg ≠ "".
Proof.
  cbv zeta. simpl. unfold joinNonEmptyStatSegments.
  destruct (filter (λ seg : string, seg ≠ "") (split "."%char (resolve (String.length t) v t))) as [|x l] eqn:E; [by left|right].
  rewrite split_join; [|done|].
  - rewrite <- E. intros seg H. by apply list_elem_of_filter in H as [H _].
  - rewrite <- E. apply Forall_forall. intros y Hy. apply list_elem_of_filter in Hy as [_ Hy]. by eapply split_elems.
Qed.

(** ** Examples and findings *)

Definition ex_marshal (m : FilterMsg string) : error + Filters.Any :=
  inr (mkAny (match m with FSetMetadata _ _ => "set_metadata" | FProvider _ => "matcher" | _ => "other" end) "").

Definition ex_ext (st : option StageSpec) : TrafficPolicyGatewayExtensionIR string :=
  mkExt "ns/ext" (Some "auth") (Some "proc") None (Some "jwt") None 0 st None.
Definition ex_ext_proc (st : option StageSpec) : trafficPolicySpecIr string :=
  mkSpecIR None (Some (mkExtProcIR [mkExtProcCfg (Some (ex_ext st)) "route" (convertFilterStageSpec st defaultExtProcFilterStage)] false)) None None None None None None None None None None
    None None None None None None None None None None
    None None None None None.
Definition ex_codecs (stage : option FilterStage) : trafficPolicySpecIr string :=
  mkSpecIR (Some (mkBufferIR "limit" stage)) None None (Some (mkExtAuthIR [mkExtAuthCfg (Some (ex_ext None)) None] false)) None None None None None None None None None None
    None None None (Some (mkCodecs true ["Gzip"; "Zstd"])) None None None None None None None None None.
Definition ex_tracing (t : string) (timeout : option Z) : trafficPolicySpecIr string :=
  mkSpecIR None None None None None None None None None None
    None None (Some (mkTimeoutsIR timeout None)) None None None None None None None None None (Some (Some t)) None None None (Some [mkUpgrade (if String.eqb t "route" then "Gateway" else t) (String.eqb t "route")]).
Definition ex_stat_vars : StatVars := mkStatVars "route" "ns" "".
Definition ex_tp_route : TPRoute string := mkTPRoute "r" (Some (mkAction [] None None None None None None "" [])) None "".
Definition ex_call (c : string) (spec : trafficPolicySpecIr string) : @hook_call string :=
  OnRoute c ex_stat_vars (Some spec) ex_tp_route ∅.
Definition ex_filters (c : string) (l : list (@hook_call string)) : option (list string) :=
  map sf_name ∘ Sort <$> HttpFilters ex_marshal c (run (NewGatewayTranslationPass false) l).

Lemma ex_spec_ok st stage : stage_ok stage → spec_ok (ex_ext_proc st) ∧ spec_ok (ex_codecs stage).
Proof.
  intros Hs. split; split; simpl; intros; simplify_eq/=; try done.
  - apply list_elem_of_singleton in H0 as ->. by exists "proc".
  - apply list_elem_of_singleton in H0 as ->. by exists "auth".
Qed.

(** Templates are resolved, and empty segments left out. *)
Example stat_prefix_example :
  rt_stat_prefix (applyStatPrefix (Some "svc.{{ rule_name }}.{{route_name}}.{{x}}") ex_stat_vars ex_tp_route) = "svc.route.{{x}}".
Proof. by vm_compute. Qed.

(** An external processor at the earliest stage that an extension can ask for runs before the filter through which routes
    disable external processing. *)
Theorem early_ext_proc_before_disable :
  ex_filters "c" [ex_call "c" (ex_ext_proc (Some (mkStageSpec "Fault" "Before" 0)))] =
    Some ["ext_proc/ns/ext"; "global_disable/ext_proc"] ∧
  ex_filters "c" [ex_call "c" (ex_ext_proc None)] = Some ["global_disable/ext_proc"; "ext_proc/ns/ext"].
Proof. by vm_compute. Qed.

(** Tracing and upgrades of a route are replaced by those of a less specific policy, while its timeouts are kept. *)
Theorem less_specific_tracing_wins :
  let '(r, _) := foldl (λ x spec, handlePerRoutePolicies spec x) (ex_tp_route, NewGatewayTranslationPass false)
    [ex_tracing "route" (Some 5%Z); ex_tracing "gateway" (Some 9%Z)] in
  rt_tracing r = Some "gateway" ∧ (rt_action r ≫= ac_timeout) = Some 5%Z ∧
  (ac_upgrades <$> rt_action r) = Some [mkUpgrade "gateway" false].
Proof. by vm_compute. Qed.

(** The RBAC filter is not disabled by default. *)
Theorem rbac_filter_enabled :
  let spec := mkSpecIR None None None None None None None None None None
    None None None None (Some (Some "deny")) None None None None None None None None None None
    None None in
  HttpFilters ex_marshal "c" (run (NewGatewayTranslationPass false) [ex_call "c" spec]) =
  Some [mkSF (Some (mkHttpFilter rbacFilterNamePrefix (Some (mkAny "other" "")) false)) (DuringStage AuthZStage) 0].
Proof. by vm_compute. Qed.

Lemma ex_marshals : ∀ m, ∃ a, ex_marshal m = inr a.
Proof. intros m. by eexists. Qed.

Lemma ex_call_ok c st stage : stage_ok stage → call_ok (ex_call c (ex_ext_proc st)) ∧ call_ok (ex_call c (ex_codecs stage)).
Proof. intros H. destruct (ex_spec_ok st stage H). by split; intros spec [= <-]. Qed.

Lemma acting_configs_installed_witness :
  ∃ l lu f, HttpFilters ex_marshal "c"
      (run (NewGatewayTranslationPass true) [ex_call "c" (ex_ext_proc None); ex_call "c" (ex_codecs None)]) = Some l ∧
    f ∈ l ++ lu ∧ sf_name f = "ext_proc/ns/ext".
Proof.
  destruct (ex_call_ok "c" None None) as [H1 H2]; [done|].
  destruct (acting_configs_installed ex_marshal ex_marshals [] (ex_call "c" (ex_ext_proc None)) [ex_call "c" (ex_codecs None)]
    true "ext_proc/ns/ext" (RCfg (Some "route"))) as (l & lu & Hl & _ & (f & Hf & Hn) & _).
  - simpl. auto.
  - reflexivity.
  - discriminate.
  - reflexivity.
  - exists l, lu, f. auto.
Defined.

Definition ex_staged (name url : string) (to w : Z) : StagedFilter (option HttpFilter) :=
  mkSF (Some (mkHttpFilter name (Some (mkAny url "")) true)) (mkStage to w) 0.

Lemma filters_ordered_witness :
  FilterStageComparison (sf_stage (ex_staged "envoy.filters.http.decompressor" "other" 0 (-2))) (BeforeStage FaultStage) = Lt.
Proof.
  pose (st := Some (BeforeStage FaultStage)).
  assert (stage_ok st) as Hs by (intros x [= <-]; by right).
  destruct (ex_call_ok "c" None st Hs) as [_ H2].
  refine (proj1 (filters_ordered ex_marshal ex_marshals [ex_call "c" (ex_codecs st)] false "c"
    [ex_staged "global_disable/ext_auth" "set_metadata" 0 (-1); ex_staged "ext_auth/ns/ext" "matcher" 3 0;
     ex_staged "envoy.filters.http.buffer" "other" 0 (-1); ex_staged "envoy.filters.http.decompressor" "other" 0 (-2);
     ex_staged "envoy.filters.http.decompressor.zstd" "other" 0 (-2)]
    (ex_staged "envoy.filters.http.decompressor" "other" 0 (-2)) (ex_staged "envoy.filters.http.buffer" "other" 0 (-1)) _ _ _)
    "Gzip" _ _ _).
  - constructor; [exact H2|constructor].
  - vm_compute. reflexivity.
  - do 3 apply list_elem_of_further. apply list_elem_of_here.
  - reflexivity.
  - do 2 apply list_elem_of_further. apply list_elem_of_here.
  - reflexivity.
Defined.

Lemma specific_settings_kept_witness :
  ∃ r s a, foldl (λ x spec, handlePerRoutePolicies spec x) (ex_tp_route, NewGatewayTranslationPass false)
      [ex_tracing "route" None; ex_tracing "gateway" (Some 9%Z)] = (r, s) ∧ rt_action r = Some a ∧ ac_timeout a = Some 9%Z.
Proof.
  destruct (specific_settings_kept [ex_tracing "route" None; ex_tracing "gateway" (Some 9%Z)] ex_tp_route
    (NewGatewayTranslationPass false) (mkAction [] None None None None None None "" []) eq_refl)
    as (r & s & a & H & Ha & Ht & _).
  exists r, s, a. split; [exact H|]. split; [exact Ha|exact Ht].
Defined.

Lemma buffer_stage_earliest_witness :
  let calls := [ex_call "c" (ex_codecs (Some (DuringStage AuthNStage))); ex_call "c" (ex_codecs (Some (BeforeStage FaultStage)))] in
  chain_stage "c" (run (NewGatewayTranslationPass false) calls) = chain_stage "c" (run (NewGatewayTranslationPass false) (reverse calls)).
Proof.
  intros calls. apply (proj2 (buffer_stage_earliest "c" calls false)). symmetry. apply reverse_Permutation.
Defined.
