(* ===== verification/TrafficPolicyAuth.v ===== *)
(** * Authentication and authorization of TrafficPolicies
      (plugins/trafficpolicy: api_key_auth.go, basic_auth_policy.go, rbac.go)

    The conversion of the parts of a policy that carry credentials or access rules: API keys from
    secrets, users of basic authentication from an htpasswd text, and CEL rules.

    The data of a secret is read in the order of [map_to_list], in Go it has none; the parser of CEL
    expressions is a parameter. *)

From S2P Require Import Prelude IR References Hashing SslUtils EnvoyRoute.

Definition TrafficPolicyGK : GroupKind := mkGK "gateway.kgateway.dev" "TrafficPolicy".

(** ** API keys *)

Record parsedAPIKey := mkParsedKey { pk_client : string; pk_key : string; pk_secret : string }.
Record Credential := mkCredential { cr_key : string; cr_client : string }.

Definition parsed_cmp : parsedAPIKey → parsedAPIKey → comparison :=
  (cmp_on pk_client String.compare ▷ cmp_on pk_key String.compare ▷ cmp_on pk_secret String.compare)%cmp.

Definition shared_key_error (prev c : parsedAPIKey) : error :=
  EMsg ("duplicate API key value shared by client " +:+ quoted (pk_client prev) +:+ " in secret " +:+ pk_secret prev +:+
        " and client " +:+ quoted (pk_client c) +:+ " in secret " +:+ pk_secret c).

(** One turn of the loop: credentials, the keys seen, errors. *)
Definition dedupe_step (acc : list Credential * gmap string parsedAPIKey * list error) (c : parsedAPIKey) :
    list Credential * gmap string parsedAPIKey * list error :=
  let '(credentials, seen, errs) := acc in
  match seen !! pk_key c with
  | None => (credentials ++ [mkCredential (pk_key c) (pk_client c)], <[pk_key c := c]> seen, errs)
  | Some prev =>
      if String.eqb (pk_client prev) (pk_client c) then acc
      else (credentials, seen, errs ++ [shared_key_error prev c])
  end.

(** [dedupeAPIKeyCredentials]. *)
Definition dedupeAPIKeyCredentials (parsed : list parsedAPIKey) : list Credential * list error :=
  let '(credentials, _, errs) := foldl dedupe_step ([], ∅, []) (sort_stable parsed_cmp parsed) in (credentials, errs).

Record APIKeySource := mkKeySource { ks_header : option string; ks_query : option string; ks_cookie : option string }.
Record APIKeyAuth := mkAPIKeyAuth {
  ak_disable : bool;
  ak_secretRef : option SecretObjectReference;
  ak_secretSelector : option (gmap string string);
  ak_keySources : list APIKeySource;
  ak_forwardCredential : option bool;
  ak_clientIdHeader : option string }.

Record KeySource := mkEnvoyKeySource { eks_header : string; eks_query : string; eks_cookie : string }.
Record ApiKeyAuthPerRoute := mkApiKeyPerRoute {
  akr_credentials : list Credential; akr_sources : list KeySource; akr_header : string; akr_hide : bool }.

Definition parse_secret (s : Secret) : list parsedAPIKey :=
  omap (λ kv : string * string,
    if String.eqb kv.2 "" then None
    else Some (mkParsedKey kv.1 kv.2 (os_namespace (sec_source s) +:+ "/" +:+ os_name (sec_source s))))
    (map_to_list (sec_data s)).

Definition key_source (k : APIKeySource) : option KeySource :=
  let e := mkEnvoyKeySource (default "" (ks_header k)) (default "" (ks_query k)) (default "" (ks_cookie k)) in
  if String.eqb (eks_header e) "" && String.eqb (eks_query e) "" && String.eqb (eks_cookie e) "" then None else Some e.

(** A Go map as [%v] prints it. *)
Definition go_map (m : gmap string string) : string :=
  "map[" +:+ join " " (map (λ kv : string * string, kv.1 +:+ ":" +:+ kv.2)
                         (sort_stable (cmp_on fst String.compare) (map_to_list m))) +:+ "]".

(** The secrets a policy refers to. *)
Definition api_key_secrets (idx : SecretIndex) (ns : string) (ak : APIKeyAuth) : error + list Secret :=
  let from := mkFromRef TrafficPolicyGK ns in
  match ak_secretRef ak, ak_secretSelector ak with
  | Some ref, _ =>
      match GetSecret idx from ref with
      | inl e => inl (EWrap ("API key secret " +:+ sr_name ref +:+ ": ") e)
      | inr s => inr [s]
      end
  | None, Some labels =>
      match GetSecretsBySelector idx from (mkGK "" "Secret") labels with
      | (_, Some e) => inl (EWrap "failed to get secrets by selector: " e)
      | ([], None) => inl (EMsg ("no secrets found matching selector " +:+ go_map labels +:+ " in namespace " +:+ ns))
      | (secrets, None) => inr secrets
      end
  | None, None => inl (EMsg "either secretRef or secretSelector must be specified")
  end.

(** [constructAPIKeyAuth]: nothing, a configuration ([None] when disabled), or an error. *)
Definition constructAPIKeyAuth (idx : SecretIndex) (ns : string) (spec : option APIKeyAuth) :
    error + option (option ApiKeyAuthPerRoute) :=
  match spec with
  | None => inr None
  | Some ak =>
      if ak_disable ak then inr (Some None)
      else
        match api_key_secrets idx ns ak with
        | inl e => inl e
        | inr secrets =>
            match dedupeAPIKeyCredentials (flat_map parse_secret secrets) with
            | (_, (_ :: _) as errs) => inl (EWrap "errors processing API key secrets: " (EJoin errs))
            | ([], []) => inl (EMsg "no valid API keys found in secrets")
            | (credentials, []) =>
                let sources := match omap key_source (ak_keySources ak) with
                               | [] => [mkEnvoyKeySource "api-key" "" ""]
                               | l => l
                               end in
                inr (Some (Some (mkApiKeyPerRoute credentials sources (default "" (ak_clientIdHeader ak))
                                   (negb (default false (ak_forwardCredential ak))))))
            end
        end
  end.

(** ** Basic authentication *)

Definition defaultSecretKey : string := ".htpasswd".
Definition shaPrefix : string := "{SHA}".
Definition newline_char : Ascii.ascii := Ascii.ascii_of_nat 10.
Definition newline_str : string := String newline_char EmptyString.

(** [strings.SplitN(line, sep, 2)] in two parts. *)
Fixpoint cut (sep : Ascii.ascii) (s : string) : option (string * string) :=
  match s with
  | EmptyString => None
  | String a s' =>
      if Ascii.eqb a sep then Some (EmptyString, s')
      else match cut sep s' with Some (x, y) => Some (String a x, y) | None => None end
  end.

Definition sha_hash (h : string) : bool := has_prefix h shaPrefix && (String.length h =? 28 + 5)%nat.

Record htpasswd := mkHtpasswd { hp_valid : list string; hp_entries : gmap string string; hp_invalid : list string }.

Definition invalid_user (u : string) (st : htpasswd) : htpasswd := mkHtpasswd (hp_valid st) (hp_entries st) (hp_invalid st ++ [u]).

(** One line. *)
Definition user_step (i : nat) (line : string) (st : htpasswd) : htpasswd :=
  let line := trim_space line in
  if String.eqb line "" || has_prefix line "#" then st
  else
    match cut ":"%char line with
    | None => invalid_user ("line " +:+ pretty (i + 1)%nat) st
    | Some (username, passwordHash) =>
        if negb (sha_hash passwordHash) then invalid_user username st
        else
          match hp_entries st !! username with
          | Some seenHash => if String.eqb seenHash passwordHash then st else invalid_user username st
          | None => mkHtpasswd (hp_valid st ++ [line]) (<[username := passwordHash]> (hp_entries st)) (hp_invalid st)
          end
    end.

Fixpoint user_lines (i : nat) (lines : list string) (st : htpasswd) : htpasswd :=
  match lines with [] => st | line :: lines => user_lines (S i) lines (user_step i line st) end.

(** [validateAndFilterSHAUsers]. *)
Definition validateAndFilterSHAUsers (data : string) : list string * list string :=
  let st := user_lines 0 (split newline_char data) (mkHtpasswd [] ∅ []) in (hp_valid st, hp_invalid st).

Record SecretReference := mkSecretReference { sre_name : string; sre_namespace : option string; sre_key : option string }.
Record BasicAuthPolicy := mkBasicAuth { ba_disable : bool; ba_users : list string; ba_secretRef : option SecretReference }.

(** [fetchHtpasswdFromSecret]. *)
Definition fetchHtpasswdFromSecret (idx : SecretIndex) (ref : SecretReference) (policyNamespace : string) : error + string :=
  let namespace := default policyNamespace (sre_namespace ref) in
  let key := default defaultSecretKey (sre_key ref) in
  match GetSecret idx (mkFromRef TrafficPolicyGK policyNamespace) (mkSecretRef None None (Some namespace) (sre_name ref)) with
  | inl e => inl e
  | inr secret =>
      match sec_data secret !! key with
      | None => inl (EMsg ("secret " +:+ namespace +:+ "/" +:+ sre_name ref +:+ " does not contain key '" +:+ key +:+ "'"))
      | Some data =>
          if String.eqb data "" then inl (EMsg ("secret " +:+ namespace +:+ "/" +:+ sre_name ref +:+ " key '" +:+ key +:+ "' is empty"))
          else inr (trim_space data)
      end
  end.

(** A list of strings as [%v] prints it. *)
Definition go_list (l : list string) : string := "[" +:+ join " " l +:+ "]".

(** [constructBasicAuth]: the users of the route ([None] when disabled). *)
Definition constructBasicAuth (idx : SecretIndex) (ns : string) (spec : option BasicAuthPolicy) :
    error + option (option string) :=
  match spec with
  | None => inr None
  | Some b =>
      if ba_disable b then inr (Some None)
      else
        match (match ba_users b, ba_secretRef b with
               | (_ :: _) as users, _ => inr (join newline_str users)
               | [], Some ref =>
                   match fetchHtpasswdFromSecret idx ref ns with inl e => inl (EWrap "basic auth: " e) | inr d => inr d end
               | [], None => inl (EMsg "basic auth: either users or secretRef must be specified")
               end) with
        | inl e => inl e
        | inr data =>
            match validateAndFilterSHAUsers data with
            | (_, (_ :: _) as invalid) =>
                inl (EMsg ("basic auth: dropped " +:+ pretty (length invalid) +:+
                  " user(s), invalid hash format (only {SHA} is supported), malformed entry, or a username listed twice with different hashes: " +:+
                  go_list invalid))
            | ([], []) => inl (EMsg "basic auth: no valid users with {SHA} hash format found")
            | (valid, []) =>
                let allUsers := join newline_str valid in
                inr (Some (Some (if String.eqb allUsers "" then "#" else allUsers)))
            end
        end
  end.

(** ** Role-based access control *)

Section rbac.
Context {Expr : Type} (parseCELExpression : string → error + Expr).

Inductive RBACAction := RBAC_ALLOW | RBAC_DENY.

(** A field matcher: the predicate (one expression, or any of several) and the action on a match. *)
Inductive Predicate := SinglePredicate (e : Expr) | OrMatcher (l : list Expr).
Record FieldMatcher := mkFieldMatcher { fm_predicate : Predicate; fm_on_match : RBACAction }.

(** [RBACPerRoute]: rules without policies, or a matcher. *)
Inductive RBACPerRoute :=
| RBACRules (action : RBACAction)
| RBACMatcher (matchers : list (option FieldMatcher)) (on_no_match : RBACAction).

Record Authorization := mkAuthorization { az_expressions : list string; az_action : string }.
Definition AuthorizationPolicyActionDeny : string := "Deny".

Fixpoint parse_all (l : list string) : error + list Expr :=
  match l with
  | [] => inr []
  | s :: l =>
      match parseCELExpression s with
      | inl e => inl (EWrap "failed to parse CEL expression: " e)
      | inr x => match parse_all l with inl e => inl e | inr xs => inr (x :: xs) end
      end
  end.

(** [createCELMatcher]. *)
Definition createCELMatcher (celExprs : list string) (action : string) : error + FieldMatcher :=
  match celExprs with
  | [] => inl (EMsg "no CEL expressions provided")
  | _ =>
      match parse_all celExprs with
      | inl e => inl e
      | inr xs =>
          inr (mkFieldMatcher (match xs with [x] => SinglePredicate x | _ => OrMatcher xs end)
                 (if String.eqb action AuthorizationPolicyActionDeny then RBAC_DENY else RBAC_ALLOW))
      end
  end.

(** [translateRBAC]: the configuration, and an error. *)
Definition translateRBAC (rbac : Authorization) : RBACPerRoute * option error :=
  match az_expressions rbac with
  | [] => (RBACRules RBAC_DENY, None)
  | exprs =>
      let noMatch := if String.eqb (az_action rbac) AuthorizationPolicyActionDeny then RBAC_ALLOW else RBAC_DENY in
      match createCELMatcher exprs (az_action rbac) with
      | inl e => (RBACMatcher [None] noMatch, Some (EWrap "RBAC policy encountered CEL matcher errors: " (EJoin [e])))
      | inr m => (RBACMatcher [Some m] noMatch, None)
      end
  end.

(** [constructRBAC]. *)
Definition constructRBAC (spec : option Authorization) : error + option RBACPerRoute :=
  match spec with
  | None => inr None
  | Some a => match translateRBAC a with (_, Some e) => inl e | (cfg, None) => inr (Some cfg) end
  end.
End rbac.
Arguments Predicate : clear implicits. Arguments FieldMatcher : clear implicits. Arguments RBACPerRoute : clear implicits.

(** ** API keys: properties *)

#[global] Instance parsed_cmp_wo : WeakOrder parsed_cmp.
Proof. unfold parsed_cmp. apply _. Qed.

Lemma parsed_cmp_eq x y : parsed_cmp x y = Eq → x = y.
Proof.
  unfold parsed_cmp, then_cmp, cmp_on. destruct x as [a b c], y as [a' b' c']. simpl.
  destruct (String.compare a a') eqn:E1; [|done..]. destruct (String.compare b b') eqn:E2; [|done..]. intros E3.
  apply String.compare_eq_iff in E1, E2, E3. by subst.
Qed.

Definition credential_of (p : parsedAPIKey) : Credential := mkCredential (pk_key p) (pk_client p).

(** The loop after the keys [l]. *)
Record deduped (l : list parsedAPIKey) (acc : list Credential * gmap string parsedAPIKey * list error) : Prop := mkDeduped {
  dd_seen : ∀ k p, acc.1.2 !! k = Some p → p ∈ l ∧ pk_key p = k;
  dd_all : ∀ p, p ∈ l → is_Some (acc.1.2 !! pk_key p);
  dd_nodup : NoDup (map cr_key acc.1.1);
  dd_creds : ∀ c, c ∈ acc.1.1 ↔ ∃ p, acc.1.2 !! cr_key c = Some p ∧ c = credential_of p;
  dd_errs : acc.2 = [] ↔ ∀ p q, p ∈ l → acc.1.2 !! pk_key p = Some q → pk_client q = pk_client p }.

Lemma dedupe_step_ok l acc c : deduped l acc → deduped (l ++ [c]) (dedupe_step acc c).
Proof.
  destruct acc as [[creds seen] errs]. intros [Hs Ha Hn Hc He]. simpl in *.
  destruct (seen !! pk_key c) as [prev|] eqn:E.
  - destruct (Hs _ _ E) as [Hp Hk].
    assert (∀ k p, seen !! k = Some p → p ∈ l ++ [c] ∧ pk_key p = k) as Hs'.
    { intros k p H. destruct (Hs _ _ H). by rewrite elem_of_app; auto. }
    assert (∀ p, p ∈ l ++ [c] → is_Some (seen !! pk_key p)) as Ha'.
    { intros p. rewrite elem_of_app, list_elem_of_singleton. intros [H| ->]; [auto|by rewrite E]. }
    destruct (String.eqb_spec (pk_client prev) (pk_client c)) as [Hcl|Hcl]; split; simpl; try done.
    + rewrite He. setoid_rewrite elem_of_app. setoid_rewrite list_elem_of_singleton. split; [|naive_solver].
      intros H p q [Hq| ->]; [by apply H|]. intros Hq. simplify_eq. congruence.
    + split; [by intros [_ [=]]%app_eq_nil|]. intros H. exfalso. apply Hcl. apply (H c); [|done].
      rewrite elem_of_app, list_elem_of_singleton. auto.
  - split; simpl.
    + intros k p. destruct (decide (pk_key c = k)) as [<-|Hk].
      * rewrite lookup_insert_eq. intros [= <-]. rewrite elem_of_app, list_elem_of_singleton. auto.
      * rewrite lookup_insert_ne by done. intros H. destruct (Hs _ _ H). rewrite elem_of_app. auto.
    + intros p. rewrite elem_of_app, list_elem_of_singleton. intros [H| ->]; [|by rewrite lookup_insert_eq].
      destruct (decide (pk_key c = pk_key p)) as [->|]; [by rewrite lookup_insert_eq|rewrite lookup_insert_ne by done; auto].
    + rewrite map_app. apply NoDup_app. split; [done|]. split; [|apply NoDup_singleton].
      simpl. intros k Hk ->%list_elem_of_singleton. apply list_elem_of_fmap in Hk as (x & Hx & Hi).
      apply Hc in Hi as (p & Hp & _). by rewrite <- Hx, E in Hp.
    + intros x. rewrite elem_of_app, list_elem_of_singleton, Hc. split.
      * intros [(p & Hp & ->)| ->]; [|exists c; simpl; by rewrite lookup_insert_eq].
        exists p. simpl in *. destruct (decide (pk_key c = pk_key p)) as [Hk|]; [by rewrite <- Hk, E in Hp|].
        by rewrite lookup_insert_ne.
      * intros (p & Hp & ->). simpl in *. destruct (decide (pk_key c = pk_key p)) as [Hk|].
        { rewrite Hk, lookup_insert_eq in Hp. simplify_eq. by right. }
        rewrite lookup_insert_ne in Hp by done. left. by exists p.
    + rewrite He. split.
      * intros H p q. rewrite elem_of_app, list_elem_of_singleton.
        intros [Hp| ->]; [|rewrite lookup_insert_eq; by intros [= <-]].
        destruct (decide (pk_key c = pk_key p)) as [Hk|]; [|rewrite lookup_insert_ne by done; auto].
        destruct (Ha p Hp) as [q' Hq']. by rewrite <- Hk, E in Hq'.
      * intros H p q Hp Hq. apply H; [rewrite elem_of_app; auto|].
        destruct (decide (pk_key c = pk_key p)) as [Hk|]; [by rewrite <- Hk, E in Hq|by rewrite lookup_insert_ne].
Qed.

Lemma dedupe_loop l2 l1 acc : deduped l1 acc → deduped (l1 ++ l2) (foldl dedupe_step acc l2).
Proof.
  revert l1 acc. induction l2 as [|c l2 IH]; intros l1 acc H; simpl; [by rewrite app_nil_r|].
  replace (l1 ++ c :: l2) with ((l1 ++ [c]) ++ l2) by by rewrite <- (assoc_L (++)). by apply IH, dedupe_step_ok.
Qed.

Lemma deduped_nil : deduped [] ([], ∅, []).
Proof.
  split; simpl; [by intros k p; rewrite lookup_empty|by intros p ?%elem_of_nil|constructor| |split; [by intros _ p q ?%elem_of_nil|done]].
  intros c. rewrite elem_of_nil. split; [done|]. intros (p & Hp & _). by rewrite lookup_empty in Hp.
Qed.

(** The de-duplication of API keys does not depend on the order of the keys, never emits a key twice,
    fails exactly when two clients share a key and otherwise keeps every credential. *)
Lemma dedupe_spec parsed creds errs : dedupeAPIKeyCredentials parsed = (creds, errs) →
  NoDup (map cr_key creds) ∧
  (errs = [] ↔ ∀ p q, p ∈ parsed → q ∈ parsed → pk_key p = pk_key q → pk_client p = pk_client q) ∧
  (errs = [] → ∀ c, c ∈ creds ↔ ∃ p, p ∈ parsed ∧ c = credential_of p).
Proof.
  unfold dedupeAPIKeyCredentials. pose proof (dedupe_loop (sort_stable parsed_cmp parsed) [] _ deduped_nil) as H. simpl in H.
  destruct (foldl dedupe_step ([], ∅, []) (sort_stable parsed_cmp parsed)) as [[c s] e]. intros [= -> ->].
  destruct H as [Hs Ha Hn Hc He]. simpl in *. setoid_rewrite sort_stable_elem_of in Hs.
  setoid_rewrite sort_stable_elem_of in Ha. setoid_rewrite sort_stable_elem_of in He.
  split; [done|]. split.
  - rewrite He. split.
    + intros H p q Hp Hq Hk. destruct (Ha p Hp) as [x Hx]. rewrite <- (H p x Hp Hx). apply H; [done|by rewrite <- Hk].
    + intros H p q Hp Hq. destruct (Hs _ _ Hq) as [Hi Hk]. by apply H.
  - intros E c. rewrite Hc. pose proof (proj1 He E) as H. split.
    + intros (p & Hp & ->). exists p. by destruct (Hs _ _ Hp).
    + intros (p & Hp & ->). simpl. destruct (Ha p Hp) as [q Hq]. exists q. split; [done|]. destruct (Hs _ _ Hq) as [_ Hk].
      unfold credential_of. by rewrite Hk, (H p q).
Qed.

Lemma dedupe_perm p p' : p ≡ₚ p' → dedupeAPIKeyCredentials p = dedupeAPIKeyCredentials p'.
Proof.
  intros H. unfold dedupeAPIKeyCredentials. erewrite (sort_stable_perm_eq parsed_cmp p p'); [done| |exact H].
  intros x y _ _. apply parsed_cmp_eq.
Qed.

Lemma parse_secret_elem s p : p ∈ parse_secret s ↔
  sec_data s !! pk_client p = Some (pk_key p) ∧ pk_key p ≠ "" ∧
  pk_secret p = os_namespace (sec_source s) +:+ "/" +:+ os_name (sec_source s).
Proof.
  unfold parse_secret. rewrite list_elem_of_omap. split.
  - intros ([k v] & Hkv & H). simpl in H. destruct (String.eqb_spec v "") as [|Hv]; [done|]. simplify_eq. simpl.
    apply elem_of_map_to_list in Hkv. done.
  - intros (Hd & Hk & Hs). exists (pk_client p, pk_key p). split; [by apply elem_of_map_to_list|]. simpl.
    destruct (String.eqb_spec (pk_key p) ""); [done|]. rewrite <- Hs. by destruct p.
Qed.

(** Names of Kubernetes objects have no slash. *)
Definition secrets_named (idx : SecretIndex) : Prop :=
  ∀ gk col x, si_secrets idx !! gk = Some col → x ∈ col → no_slash (sec_source x) = true.

Lemma get_secret_elem idx from ref x : GetSecret idx from ref = inr x →
  ∃ col, si_secrets idx !! os_gk (secret_target from ref) = Some col ∧ x ∈ col.
Proof.
  unfold GetSecret. destruct (si_secrets idx !! _) as [col|]; [|done]. repeat case_match; try done. intros [= ->].
  exists col. split; [done|]. by apply fetch_one_Some in H0 as [H0 _].
Qed.

(** The secrets of a policy may be read from its namespace. *)
Lemma api_key_secrets_permitted idx ns ak secrets : secrets_named idx →
  (∀ ref, ak_secretRef ak = Some ref → no_slash (secret_target (mkFromRef TrafficPolicyGK ns) ref) = true) →
  api_key_secrets idx ns ak = inr secrets → Forall (secret_permitted idx (mkFromRef TrafficPolicyGK ns)) secrets.
Proof.
  intros Hn Hr. unfold api_key_secrets. destruct (ak_secretRef ak) as [ref|].
  - destruct (GetSecret _ _ ref) as [e|x] eqn:E; [done|]. intros [= <-]. constructor; [|constructor].
    destruct (get_secret_elem _ _ _ _ E) as (col & Hc & Hx). eapply get_secret_permitted; [exact E|by eapply Hn|by apply Hr].
  - destruct (ak_secretSelector ak) as [labels|]; [|done].
    destruct (si_secrets idx !! mkGK "" "Secret") as [col|] eqn:Hc; [|unfold GetSecretsBySelector; by rewrite Hc].
    rewrite (secrets_by_selector_exact _ _ _ _ _ Hc). set (allowed := filter (secret_permitted _ _) _).
    assert (Forall (secret_permitted idx (mkFromRef TrafficPolicyGK ns)) allowed) as Ha.
    { apply Forall_forall. intros x Hx. by apply list_elem_of_filter in Hx as [Hx _]. }
    case_decide; destruct allowed; try done. by intros [= <-].
Qed.

(** C34: When a policy for API keys is accepted, no key is listed twice, so that Envoy does not refuse the routes; the
    credentials are exactly the non-empty entries of the secrets it selects, each under the one client that has
    it, and those secrets may be read from the namespace of the policy.  A policy with two clients that share a
    key is refused, and the result does not depend on the order of the entries. *)
Theorem api_keys_sound idx ns ak cfg : secrets_named idx →
  (∀ ref, ak_secretRef ak = Some ref → no_slash (secret_target (mkFromRef TrafficPolicyGK ns) ref) = true) →
  constructAPIKeyAuth idx ns (Some ak) = inr (Some (Some cfg)) →
  ∃ secrets, api_key_secrets idx ns ak = inr secrets ∧
    Forall (secret_permitted idx (mkFromRef TrafficPolicyGK ns)) secrets ∧
    NoDup (map cr_key (akr_credentials cfg)) ∧ akr_credentials cfg ≠ [] ∧ akr_sources cfg ≠ [] ∧
    (∀ c, c ∈ akr_credentials cfg ↔ ∃ s, s ∈ secrets ∧ sec_data s !! cr_client c = Some (cr_key c) ∧ cr_key c ≠ "") ∧
    (∀ c c', c ∈ akr_credentials cfg → c' ∈ akr_credentials cfg → cr_key c = cr_key c' → cr_client c = cr_client c') ∧
    ∀ parsed, parsed ≡ₚ flat_map parse_secret secrets → dedupeAPIKeyCredentials parsed = (akr_credentials cfg, []).
Proof.
  intros Hn Hr. unfold constructAPIKeyAuth. destruct (ak_disable ak); [done|].
  destruct (api_key_secrets idx ns ak) as [e|secrets] eqn:Es; [done|].
  destruct (dedupeAPIKeyCredentials (flat_map parse_secret secrets)) as [creds errs] eqn:Ed.
  destruct (dedupe_spec _ _ _ Ed) as (Hnd & He & Hc).
  destruct errs as [|? ?]; [|by destruct creds]. specialize (Hc eq_refl). pose proof (proj1 He eq_refl) as Hu.
  assert (∀ c, c ∈ creds ↔ ∃ s, s ∈ secrets ∧ sec_data s !! cr_client c = Some (cr_key c) ∧ cr_key c ≠ "") as Hcs.
  { intros c. rewrite Hc. split.
    - intros (p & Hp & ->). apply list_elem_of_In, in_flat_map in Hp as (s & Hs & Hp). rewrite <- list_elem_of_In in Hs.
      apply list_elem_of_In, parse_secret_elem in Hp as (Hd & Hk & _). by exists s.
    - intros (s & Hs & Hd & Hk).
      exists (mkParsedKey (cr_client c) (cr_key c) (os_namespace (sec_source s) +:+ "/" +:+ os_name (sec_source s))).
      split; [|by destruct c]. rewrite list_elem_of_In. apply in_flat_map. exists s. rewrite <- !list_elem_of_In.
      split; [done|]. by apply parse_secret_elem. }
  destruct creds as [|c0 creds']; [done|]. intros [= <-]. exists secrets. simpl. split; [done|].
  split; [by eapply api_key_secrets_permitted|]. do 2 (split; [done|]). split; [by case_match|]. split; [done|]. split.
  - intros c c' H1 H2 Hk. apply Hc in H1 as (p & Hp & ->), H2 as (q & Hq & ->). by apply Hu.
  - intros parsed Hp. by rewrite (dedupe_perm _ _ Hp).
Qed.

(** ** Basic authentication: properties *)

(** An entry of an htpasswd text: a line that is neither blank nor a comment. *)
Definition entry_line (line : string) : bool := negb (String.eqb (trim_space line) "" || has_prefix (trim_space line) "#").
Definition user_of (line : string) : string := default "" (fst <$> cut ":"%char line).

(** The state after the lines [l]. *)
Record users_ok (l : list string) (st : htpasswd) : Prop := mkUsersOk {
  uo_entries : ∀ u h, hp_entries st !! u = Some h ↔ ∃ v, v ∈ hp_valid st ∧ cut ":"%char v = Some (u, h);
  uo_valid : ∀ v, v ∈ hp_valid st → ∃ line u h, line ∈ l ∧ v = trim_space line ∧ entry_line line = true ∧
    cut ":"%char v = Some (u, h) ∧ sha_hash h = true;
  uo_nodup : NoDup (map user_of (hp_valid st));
  uo_all : hp_invalid st = [] → ∀ line, line ∈ l → entry_line line = true →
    ∃ u h, cut ":"%char (trim_space line) = Some (u, h) ∧ sha_hash h = true ∧ hp_entries st !! u = Some h }.

Lemma users_more l line st : users_ok l st → (entry_line line = false ∨ hp_invalid st ≠ [] ∨
    ∃ u h, cut ":"%char (trim_space line) = Some (u, h) ∧ sha_hash h = true ∧ hp_entries st !! u = Some h) →
  users_ok (l ++ [line]) st.
Proof.
  intros [He Hv Hn Ha] H. split; [done| |done|].
  - intros v Hin. destruct (Hv v Hin) as (li & u & h & Hli & Hrest). exists li, u, h. rewrite elem_of_app. auto.
  - intros Hi li. rewrite elem_of_app, list_elem_of_singleton. intros [Hli| ->] Hent; [by apply Ha|].
    destruct H as [H|[H|H]]; [congruence|done|done].
Qed.

Lemma users_invalid l u st : users_ok l st → users_ok l (invalid_user u st).
Proof. intros [He Hv Hn Ha]. split; try done. by intros [_ [=]]%app_eq_nil. Qed.

Lemma user_step_ok l i line st : users_ok l st → users_ok (l ++ [line]) (user_step i line st).
Proof.
  intros H. unfold user_step. destruct (String.eqb (trim_space line) "" || has_prefix (trim_space line) "#") eqn:Eb.
  { apply users_more; [done|]. left. unfold entry_line. by rewrite Eb. }
  assert (∀ u, users_ok (l ++ [line]) (invalid_user u st)) as Hinv.
  { intros u. apply users_more; [by apply users_invalid|]. right. left. simpl. by intros [_ [=]]%app_eq_nil. }
  destruct (cut ":"%char (trim_space line)) as [[u h]|] eqn:Ec; [|done].
  destruct (sha_hash h) eqn:Eh; simpl; [|done].
  destruct (hp_entries st !! u) as [h'|] eqn:Eu.
  - destruct (String.eqb_spec h' h) as [->|]; [|done]. apply users_more; [done|]. right. right. by exists u, h.
  - destruct H as [He Hv Hn Ha]. split; simpl.
    + intros u' h'. setoid_rewrite elem_of_app. setoid_rewrite list_elem_of_singleton.
      destruct (decide (u = u')) as [<-|Hne].
      * rewrite lookup_insert_eq. split; [intros [= <-]; eauto|]. intros (v & [Hin| ->] & Hcut); [|congruence].
        assert (hp_entries st !! u = Some h') as E by (apply He; eauto). congruence.
      * rewrite lookup_insert_ne by done. rewrite He. split; [naive_solver|]. intros (v & [Hin| ->] & Hcut); [eauto|congruence].
    + intros v. rewrite elem_of_app, list_elem_of_singleton. intros [Hin| ->].
      * destruct (Hv v Hin) as (li & u' & h' & Hli & Hrest). exists li, u', h'. rewrite elem_of_app. auto.
      * exists line, u, h. rewrite elem_of_app, list_elem_of_singleton. unfold entry_line. rewrite Eb. auto.
    + rewrite map_app. apply NoDup_app. split; [done|]. split; [|apply NoDup_singleton].
      simpl. intros u' Hu ->%list_elem_of_singleton. apply list_elem_of_fmap in Hu as (v & Hvu & Hin).
      destruct (Hv v Hin) as (_ & u' & h' & _ & _ & _ & Hcut & _). unfold user_of in Hvu. rewrite Ec, Hcut in Hvu. simpl in Hvu. subst u'.
      assert (hp_entries st !! u = Some h') as E by (apply He; eauto). congruence.
    + intros Hi li. rewrite elem_of_app, list_elem_of_singleton. intros [Hli| ->] Hent.
      * destruct (Ha Hi li Hli Hent) as (u' & h' & Hc & Hs & Hl). exists u', h'. split; [done|]. split; [done|].
        rewrite lookup_insert_ne; [done|]. intros ->. congruence.
      * exists u, h. by rewrite lookup_insert_eq.
Qed.

Lemma user_lines_ok l2 l1 i st : users_ok l1 st → users_ok (l1 ++ l2) (user_lines i l2 st).
Proof.
  revert l1 i st. induction l2 as [|x l2 IH]; intros l1 i st H; simpl; [by rewrite app_nil_r|].
  replace (l1 ++ x :: l2) with ((l1 ++ [x]) ++ l2) by by rewrite <- (assoc_L (++)). by apply IH, user_step_ok.
Qed.

Lemma users_none : users_ok [] (mkHtpasswd [] ∅ []).
Proof.
  split; simpl; [|by intros v ?%elem_of_nil|constructor|by intros _ line ?%elem_of_nil].
  intros u h. rewrite lookup_empty. split; [done|]. by intros (v & ?%elem_of_nil & _).
Qed.

(** The users of an accepted htpasswd text have distinct names and SHA-1 hashes of the length Envoy takes; every entry of
    the text is one of them with its own hash, and nothing else is. *)
Theorem basic_users_sound data valid : validateAndFilterSHAUsers data = (valid, []) →
  NoDup (map user_of valid) ∧
  (∀ v, v ∈ valid → ∃ line u h, line ∈ split newline_char data ∧ v = trim_space line ∧ entry_line line = true ∧
     cut ":"%char v = Some (u, h) ∧ has_prefix h shaPrefix = true ∧ String.length h = 33%nat) ∧
  (∀ line, line ∈ split newline_char data → entry_line line = true →
     ∃ u h v, cut ":"%char (trim_space line) = Some (u, h) ∧ v ∈ valid ∧ cut ":"%char v = Some (u, h)).
Proof.
  unfold validateAndFilterSHAUsers. pose proof (user_lines_ok (split newline_char data) [] 0 _ users_none) as [He Hv Hn Ha].
  simpl in *. intros [= <- Hi]. split; [done|]. split.
  - intros v Hin. destruct (Hv v Hin) as (line & u & h & Hl & Heq & Hent & Hc & Hs). exists line, u, h.
    unfold sha_hash in Hs. apply andb_true_iff in Hs as [Hp Hlen]. apply Nat.eqb_eq in Hlen. split_and!; done.
  - intros line Hl Hent. destruct (Ha Hi line Hl Hent) as (u & h & Hc & _ & Hu).
    apply He in Hu as (v & Hin & Hcv). by exists u, h, v.
Qed.

(** ** Access rules: properties *)

Section rbac_properties.
Context {Expr Rq : Type} (parseCELExpression : string → error + Expr) (holds : Expr → Rq → bool).

(** How Envoy evaluates the configuration of a route: the action of the first matcher whose predicate
    holds, else the action on no match; rules of action DENY refuse what one of their policies matches, rules of
    action ALLOW refuse what none matches. *)
Definition predicate_holds (p : Predicate Expr) (rq : Rq) : bool :=
  match p with SinglePredicate e => holds e rq | OrMatcher l => existsb (λ e, holds e rq) l end.
Fixpoint first_action (l : list (option (FieldMatcher Expr))) (rq : Rq) : option RBACAction :=
  match l with
  | [] => None
  | Some m :: l => if predicate_holds (fm_predicate m) rq then Some (fm_on_match m) else first_action l rq
  | None :: l => first_action l rq
  end.
Definition rbac_allows (cfg : RBACPerRoute Expr) (rq : Rq) : bool :=
  match cfg with
  | RBACRules RBAC_ALLOW => false
  | RBACRules RBAC_DENY => true
  | RBACMatcher l no =>
      match default no (first_action l rq) with RBAC_ALLOW => true | RBAC_DENY => false end
  end.

(** Some expression of the policy holds. *)
Definition any_holds (l : list string) (rq : Rq) : bool :=
  existsb (λ s, match parseCELExpression s with inr e => holds e rq | inl _ => false end) l.

Lemma parse_all_spec l : match parse_all parseCELExpression l with
  | inr xs => (∀ rq, existsb (λ e, holds e rq) xs = any_holds l rq) ∧ length xs = length l ∧ ∀ s, s ∈ l → ∃ e, parseCELExpression s = inr e
  | inl _ => ∃ s e, s ∈ l ∧ parseCELExpression s = inl e
  end.
Proof.
  induction l as [|s l IH]; simpl; [split; [done|split; [done|by intros s ?%elem_of_nil]]|].
  destruct (parseCELExpression s) as [e|x] eqn:E; [exists s, e; rewrite elem_of_cons; auto|].
  destruct (parse_all parseCELExpression l) as [e|xs].
  - destruct IH as (s' & e' & Hs & He). exists s', e'. rewrite elem_of_cons. auto.
  - destruct IH as (Hh & Hl & Ha). split_and!; [intros rq; simpl; f_equal; apply Hh|simpl; by rewrite Hl|].
    intros s'. rewrite elem_of_cons. intros [->|Hs]; eauto.
Qed.

(** A policy with CEL rules is accepted exactly when its expressions parse, and then lets a request through exactly
    when some expression holds for action Allow, and exactly when none holds for action Deny. *)
Theorem rbac_exact a rq : az_expressions a ≠ [] →
  match constructRBAC parseCELExpression (Some a) with
  | inr cfg => ∃ c, cfg = Some c ∧ (∀ s, s ∈ az_expressions a → ∃ e, parseCELExpression s = inr e) ∧
      rbac_allows c rq = (if String.eqb (az_action a) AuthorizationPolicyActionDeny
                          then negb (any_holds (az_expressions a) rq) else any_holds (az_expressions a) rq)
  | inl _ => ∃ s e, s ∈ az_expressions a ∧ parseCELExpression s = inl e
  end.
Proof.
  intros Hne. unfold constructRBAC, translateRBAC, createCELMatcher. destruct (az_expressions a) as [|s0 l0] eqn:El; [done|].
  pose proof (parse_all_spec (s0 :: l0)) as H. destruct (parse_all parseCELExpression (s0 :: l0)) as [e|xs]; [done|].
  destruct H as (Hh & Hl & Ha). eexists. split; [done|]. split; [done|]. rewrite <- Hh. simpl.
  assert (predicate_holds (match xs with [x] => SinglePredicate x | _ => OrMatcher xs end) rq = existsb (λ e, holds e rq) xs) as Hp.
  { destruct xs as [|x [|y xs]]; simpl; [done|by rewrite orb_false_r|done]. }
  rewrite Hp. destruct (String.eqb (az_action a) _), (existsb (λ e, holds e rq) xs); done.
Qed.

(** The rules of a policy without expressions, which a comment calls deny-all, refuse nothing. *)
Theorem empty_rules_allow_all action rq :
  ∃ c, constructRBAC parseCELExpression (Some (mkAuthorization [] action)) = inr (Some c) ∧ rbac_allows c rq = true.
Proof. by eexists. Qed.
End rbac_properties.

(** ** Witnesses *)

Definition ex_key_secret : Secret :=
  mkSecret (mkOS "" "Secret" "apps" "keys") None (list_to_map [("bob", "k2"); ("alice", "k1"); ("unused", "")]).
Definition ex_secret_index : SecretIndex := mkSI {[mkGK "" "Secret" := [ex_key_secret]]} (mkRGI [] ReferenceGrantStrict).
Definition ex_api_policy : APIKeyAuth :=
  mkAPIKeyAuth false (Some (mkSecretRef None None None "keys")) None [mkKeySource (Some "x-key") None None; mkKeySource None None None]
    (Some true) (Some "x-client").
Definition ex_api_config : ApiKeyAuthPerRoute :=
  mkApiKeyPerRoute [mkCredential "k1" "alice"; mkCredential "k2" "bob"] [mkEnvoyKeySource "x-key" "" ""] "x-client" false.

Lemma ex_secrets_named : secrets_named ex_secret_index.
Proof.
  intros gk col x. unfold ex_secret_index. simpl. rewrite lookup_singleton_Some. intros [<- <-] ->%list_elem_of_singleton. done.
Qed.

Lemma api_keys_sound_witness :
  constructAPIKeyAuth ex_secret_index "apps" (Some ex_api_policy) = inr (Some (Some ex_api_config)) ∧
  NoDup (map cr_key (akr_credentials ex_api_config)).
Proof.
  assert (constructAPIKeyAuth ex_secret_index "apps" (Some ex_api_policy) = inr (Some (Some ex_api_config))) as E by by vm_compute.
  split; [done|].
  assert (∀ ref, ak_secretRef ex_api_policy = Some ref →
            no_slash (secret_target (mkFromRef TrafficPolicyGK "apps") ref) = true) as Hr by by intros ref [= <-].
  by destruct (api_keys_sound _ _ _ _ ex_secrets_named Hr E) as (secrets & _ & _ & Hn & _).
Defined.

(** Two clients with one key are refused, one client may list its key twice. *)
Example shared_key_refused :
  (dedupeAPIKeyCredentials [mkParsedKey "bob" "k" "n/a"; mkParsedKey "alice" "k" "n/b"]).1 = [mkCredential "k" "alice"] ∧
  length (dedupeAPIKeyCredentials [mkParsedKey "bob" "k" "n/a"; mkParsedKey "alice" "k" "n/b"]).2 = 1%nat ∧
  dedupeAPIKeyCredentials [mkParsedKey "bob" "k" "n/a"; mkParsedKey "bob" "k" "n/b"] = ([mkCredential "k" "bob"], []).
Proof. by vm_compute. Qed.

Definition ex_htpasswd : string :=
  "# users" +:+ newline_str +:+ " alice:{SHA}0123456789012345678901234567 " +:+ newline_str +:+ newline_str +:+
  "bob:{SHA}abcdefghijklmnopqrstuvwxyz01".

Lemma basic_users_sound_witness :
  validateAndFilterSHAUsers ex_htpasswd =
    (["alice:{SHA}0123456789012345678901234567"; "bob:{SHA}abcdefghijklmnopqrstuvwxyz01"], []) ∧
  NoDup (map user_of ["alice:{SHA}0123456789012345678901234567"; "bob:{SHA}abcdefghijklmnopqrstuvwxyz01"]).
Proof.
  assert (validateAndFilterSHAUsers ex_htpasswd =
    (["alice:{SHA}0123456789012345678901234567"; "bob:{SHA}abcdefghijklmnopqrstuvwxyz01"], [])) as E by by vm_compute.
  split; [done|]. apply (proj1 (basic_users_sound _ _ E)).
Defined.

(** A plain password and a second hash for a user are named in the error. *)
Example bad_users_listed :
  (validateAndFilterSHAUsers ("eve:secret" +:+ newline_str +:+ "noColon" +:+ newline_str +:+ ex_htpasswd +:+ newline_str +:+
     "bob:{SHA}abcdefghijklmnopqrstuvwxyz99")).2 = ["eve"; "line 2"; "bob"].
Proof. by vm_compute. Qed.

(** Expressions are request paths; one without a slash does not parse. *)
Definition ex_parse (s : string) : error + string := if has_prefix s "/" then inr s else inl (EMsg "syntax error").

Lemma rbac_exact_witness :
  constructRBAC ex_parse (Some (mkAuthorization ["/a"; "/b"] "Deny")) =
    inr (Some (RBACMatcher [Some (mkFieldMatcher (OrMatcher ["/a"; "/b"]) RBAC_DENY)] RBAC_ALLOW)) ∧
  rbac_allows String.eqb (RBACMatcher [Some (mkFieldMatcher (OrMatcher ["/a"; "/b"]) RBAC_DENY)] RBAC_ALLOW) "/b" = false ∧
  ∃ c, constructRBAC ex_parse (Some (mkAuthorization ["/a"; "/b"] "Deny")) = inr (Some c) ∧ rbac_allows String.eqb c "/c" = true.
Proof.
  split; [done|]. split; [done|].
  pose proof (rbac_exact ex_parse String.eqb (mkAuthorization ["/a"; "/b"] "Deny") "/c" ltac:(done)) as H.
  destruct (constructRBAC ex_parse (Some (mkAuthorization ["/a"; "/b"] "Deny"))) as [e|cfg] eqn:E; [done|].
  destruct H as (c & -> & _ & Hc). by exists c.
Defined.
