(* ===== verification/OidcDiscovery.v ===== *)
(** * Discovery of OpenID provider configurations
      (plugins/trafficpolicy/oidc.go)

    The discoverer keeps the outcome of the discovery of each issuer.  Transforms of gateway
    extensions read it through [get], which discovers an issuer that is not cached; a refresh loop drops issuers that no
    extension needs, discovers expired ones again and asks for a recomputation of the
    transforms when an outcome changed.  The two sides run concurrently: the system is a function over
    events, each of which is a section of the code that holds the lock, and a run is any
    sequence of events that are possible where they occur.

    Times and durations are in nanoseconds; the clock is a part of the state.  HTTP, the errors of the retry
    library and the parser of URLs are parameters. *)

From S2P Require Import Prelude IR.

Definition second : Z := 10 ^ 9.
Definition minute : Z := 60 * second.

Definition wellKnownOpenIDConfPath : string := "/.well-known/openid-configuration".
Definition defaultOIDCCacheRefreshInterval : Z := 5 * minute.
Definition defaultOIDCFailureRetryInterval : Z := 30 * second.

(** A [time.Duration] is an [int64]. *)
Definition int64 (z : Z) : Z := (z + 2 ^ 63) mod 2 ^ 64 - 2 ^ 63.

(** ** Outcomes *)

Record oidcProviderConfig := mkProviderConfig {
  pc_token : string; pc_authorization : string; pc_endSession : option string; pc_jwks : string }.

(** [equals] of two pointers. *)
Definition equals (c other : option oidcProviderConfig) : bool :=
  match c, other with
  | None, None => true
  | Some c, Some other =>
      String.eqb (pc_token c) (pc_token other) && String.eqb (pc_authorization c) (pc_authorization other) &&
      String.eqb (default "" (pc_endSession c)) (default "" (pc_endSession other)) && String.eqb (pc_jwks c) (pc_jwks other)
  | _, _ => false
  end.

Record oidcDiscoveryResult := mkResult {
  dr_cfg : option oidcProviderConfig; dr_err : option error; dr_expiry : Z; dr_failures : Z }.

Definition sameOutcome (r other : oidcDiscoveryResult) : bool :=
  match dr_err r, dr_err other with
  | None, Some _ | Some _, None => false
  | Some e, Some e' => String.eqb (err_text e) (err_text e')
  | None, None => equals (dr_cfg r) (dr_cfg other)
  end.

(** What [get] returns. *)
Definition served (r : oidcDiscoveryResult) : option oidcProviderConfig * option error := (dr_cfg r, dr_err r).

(** ** HTTP *)

(** An attempt: a request that fails, or a response with its status and its body as the decoder takes it
    (an error, or a document, [None] for [null]). *)
Inductive Attempt :=
| Failed (e : error)
| Response (status : Z) (body : error + option oidcProviderConfig).

(** What the function given to [retry.Do] returns; an unrecoverable error ends the loop. *)
Inductive Tried := Done (cfg : option oidcProviderConfig) | Again (e : error) | Unrecoverable (e : error).

Definition unexpected_status (status : Z) : error :=
  EMsg ("error discovering OpenID provider config; unexpected status code " +:+ pretty status).

Definition attempt (a : Attempt) : Tried :=
  match a with
  | Failed e => Again (EWrap "failed to fetch OIDC configuration: " e)
  | Response status body =>
      if bool_decide (status = 500 ∨ status = 502 ∨ status = 503 ∨ status = 504)%Z then Again (unexpected_status status)
      else if (status =? 200)%Z then
        match body with
        | inl e => Unrecoverable (EWrap "error decoding OpenID provider config: " e)
        | inr cfg => Done cfg
        end
      else Unrecoverable (unexpected_status status)
  end.

Section discovery.
(** The error of [retry.Do] for the errors of the attempts, the error of a context that is done, and [url.Parse]
    followed by [String]. *)
Context (retry_error : list error → error) (context_error : error) (parse_url : string → error + string).

(** [retry.Do]: at most [n] attempts.  The attempts end when the context is done. *)
Fixpoint retry_do (n : nat) (attempts : list Attempt) (log : list error) : error + option oidcProviderConfig :=
  match n, attempts with
  | O, _ => inl (retry_error log)
  | S _, [] => inl (retry_error (log ++ [context_error]))
  | S n, a :: attempts =>
      match attempt a with
      | Done cfg => inr cfg
      | Unrecoverable e => inl (retry_error (log ++ [e]))
      | Again e => retry_do n attempts (log ++ [e])
      end
  end.

Definition discover (attempts : list Attempt) : error + option oidcProviderConfig := retry_do 5 attempts [].

Definition oidcDiscoveryURL (issuerURI : string) : error + string :=
  match parse_url (issuerURI +:+ wellKnownOpenIDConfPath) with
  | inl e => inl (EWrap "error parsing discovery URL: " e)
  | inr u => inr u
  end.

(** ** The discoverer *)

(** The refresh loop: between passes; after reading the live issuers; after reading the cache; while issuers are
    discovered again. *)
Inductive Loop :=
| Idle
| Live (live : gset string)
| Scanned (pruned expired : list string)
| Working (todo : list string) (changed : bool).

(** Readers are transforms, by number.  A reader that missed the cache enters the group of its issuer; [flights] holds
    the readers that wait for the discovery of an issuer.  [seen] is what a reader read last, [dirty] the
    readers to recompute. *)
Record State := mkState {
  o_retry : Z;
  o_refresh : Z;
  o_now : Z;
  o_cache : gmap string oidcDiscoveryResult;
  o_missed : gmap nat string;
  o_flights : gmap string (list nat);
  o_loop : Loop;
  o_cancelled : bool;
  o_seen : gmap nat (string * oidcDiscoveryResult);
  o_dirty : gset nat }.

Definition with_cache c (s : State) : State :=
  mkState (o_retry s) (o_refresh s) (o_now s) c (o_missed s) (o_flights s) (o_loop s) (o_cancelled s) (o_seen s) (o_dirty s).
Definition with_loop l (s : State) : State :=
  mkState (o_retry s) (o_refresh s) (o_now s) (o_cache s) (o_missed s) (o_flights s) l (o_cancelled s) (o_seen s) (o_dirty s).
Definition with_missed m (s : State) : State :=
  mkState (o_retry s) (o_refresh s) (o_now s) (o_cache s) m (o_flights s) (o_loop s) (o_cancelled s) (o_seen s) (o_dirty s).
Definition with_flights f (s : State) : State :=
  mkState (o_retry s) (o_refresh s) (o_now s) (o_cache s) (o_missed s) f (o_loop s) (o_cancelled s) (o_seen s) (o_dirty s).

(** [newOIDCProviderConfigDiscoverer]. *)
Definition newOIDCProviderConfigDiscoverer (now : Z) : State :=
  mkState defaultOIDCFailureRetryInterval defaultOIDCCacheRefreshInterval now ∅ ∅ ∅ Idle false ∅ ∅.

(** [newResult]. *)
Definition retry_ttl (retry refresh failures : Z) : Z :=
  let shift := Z.min (failures - 1) 16 in
  let ttl := if (0 <? shift)%Z then int64 (Z.shiftl retry shift) else retry in
  if (refresh <? ttl)%Z then refresh else ttl.

Definition newResult (s : State) (outcome : error + option oidcProviderConfig) (priorFailures : Z) : oidcDiscoveryResult :=
  match outcome with
  | inr cfg => mkResult cfg None (o_now s + o_refresh s) 0
  | inl e =>
      let failures := (priorFailures + 1)%Z in
      mkResult None (Some e) (o_now s + retry_ttl (o_retry s) (o_refresh s) failures) failures
  end.

(** ** Readers *)

(** A reader observes a result; it is up to date then. *)
Definition observe (i : string) (r : oidcDiscoveryResult) (c : nat) (s : State) : State :=
  mkState (o_retry s) (o_refresh s) (o_now s) (o_cache s) (o_missed s) (o_flights s) (o_loop s) (o_cancelled s)
    (<[c := (i, r)]> (o_seen s)) (o_dirty s ∖ {[c]}).

(** [get], up to the group: the cache, the URL. *)
Definition get_load (c : nat) (i : string) (s : State) : State :=
  match o_cache s !! i with
  | Some r => observe i r c s
  | None =>
      match oidcDiscoveryURL i with
      | inl _ => s
      | inr _ => with_missed (<[c := i]> (o_missed s)) s
      end
  end.

(** The group of an issuer: a reader joins the discovery that is under way, or starts one unless the
    issuer was cached in between. *)
Definition get_enter (c : nat) (s : State) : option State :=
  i ← o_missed s !! c;
  let s := with_missed (delete c (o_missed s)) s in
  match o_flights s !! i with
  | Some waiting => Some (with_flights (<[i := waiting ++ [c]]> (o_flights s)) s)
  | None =>
      match o_cache s !! i with
      | Some r => Some (observe i r c s)
      | None => Some (with_flights (<[i := [c]]> (o_flights s)) s)
      end
  end.

(** The discovery ends: its result is cached and everyone who waits gets it. *)
Definition get_land (i : string) (attempts : list Attempt) (s : State) : option State :=
  waiting ← o_flights s !! i;
  let result := newResult s (discover attempts) 0 in
  Some (foldr (observe i result) (with_flights (delete i (o_flights s)) (with_cache (<[i := result]> (o_cache s)) s)) waiting).

(** ** The refresh loop *)

(** [rediscover]: the cache after it, and whether the outcome differs. *)
Definition rediscover (i : string) (attempts : list Attempt) (s : State) : State * bool :=
  match oidcDiscoveryURL i with
  | inl _ => (s, false)
  | inr _ =>
      let outcome := discover attempts in
      if bool_decide (is_Some (match outcome with inl e => Some e | inr _ => None end)) && o_cancelled s then (s, false)
      else
        match o_cache s !! i with
        | None => (s, false)
        | Some prev =>
            let next := newResult s outcome (dr_failures prev) in
            let next := match outcome, dr_err prev with
                        | inl _, None => mkResult (dr_cfg prev) None (dr_expiry next) (dr_failures next)
                        | _, _ => next
                        end in
            (with_cache (<[i := next]> (o_cache s)) s, negb (sameOutcome prev next))
        end
  end.

(** The two lists of [refreshOnce]; the order of a Go map is not fixed. *)
Definition to_prune (live : gset string) (s : State) : list string :=
  (filter (λ kv, kv.1 ∉ live) (map_to_list (o_cache s))).*1.
Definition to_refresh (live : gset string) (s : State) : list string :=
  (filter (λ kv, kv.1 ∈ live ∧ (dr_expiry kv.2 < o_now s)%Z) (map_to_list (o_cache s))).*1.

Definition delete_all (l : list string) (m : gmap string oidcDiscoveryResult) : gmap string oidcDiscoveryResult :=
  foldr delete m l.

(** [TriggerRecomputation] marks every transform that depends on the discovery. *)
Definition trigger (s : State) : State :=
  mkState (o_retry s) (o_refresh s) (o_now s) (o_cache s) (o_missed s) (o_flights s) (o_loop s) (o_cancelled s)
    (o_seen s) (dom (o_seen s)).

(** ** Events *)

Inductive event :=
| Wait (d : Z)
| Load (c : nat) (i : string)
| Enter (c : nat)
| Land (i : string) (attempts : list Attempt)
| Cancel
| Tick (live : gset string)
| Scan
| Prune
| Rediscovered (i : string) (attempts : list Attempt)
| Skipped (i : string)
| EndPass.

Definition remove_one (i : string) (l : list string) : list string := filter (λ j, j ≠ i) l.

(** [run] and [refreshOnce] by their locked sections: [Tick] reads the live issuers, [Scan] the cache, [Prune] drops
    entries, each issuer to refresh is discovered again or, after a cancellation, skipped, and [EndPass]
    triggers when an outcome changed. *)
Definition step (e : event) (s : State) : option State :=
  match e with
  | Wait d =>
      if (d <? 0)%Z then None
      else Some (mkState (o_retry s) (o_refresh s) (o_now s + d) (o_cache s) (o_missed s) (o_flights s) (o_loop s)
                   (o_cancelled s) (o_seen s) (o_dirty s))
  | Load c i => Some (get_load c i s)
  | Enter c => get_enter c s
  | Land i attempts => get_land i attempts s
  | Cancel =>
      Some (mkState (o_retry s) (o_refresh s) (o_now s) (o_cache s) (o_missed s) (o_flights s) (o_loop s) true
              (o_seen s) (o_dirty s))
  | Tick live =>
      match o_loop s with Idle => if o_cancelled s then None else Some (with_loop (Live live) s) | _ => None end
  | Scan =>
      match o_loop s with Live live => Some (with_loop (Scanned (to_prune live s) (to_refresh live s)) s) | _ => None end
  | Prune =>
      match o_loop s with
      | Scanned pruned expired =>
          let s := with_cache (delete_all pruned (o_cache s)) s in
          Some (with_loop (match expired with [] => Idle | _ => Working expired false end) s)
      | _ => None
      end
  | Rediscovered i attempts =>
      match o_loop s with
      | Working todo changed =>
          if bool_decide (i ∈ todo) then
            let '(s, b) := rediscover i attempts s in Some (with_loop (Working (remove_one i todo) (changed || b)) s)
          else None
      | _ => None
      end
  | Skipped i =>
      match o_loop s with
      | Working todo changed =>
          if o_cancelled s && bool_decide (i ∈ todo) then Some (with_loop (Working (remove_one i todo) changed) s) else None
      | _ => None
      end
  | EndPass =>
      match o_loop s with
      | Working [] changed => Some (with_loop Idle (if changed then trigger s else s))
      | _ => None
      end
  end.

Fixpoint run (evs : list event) (s : State) : option State :=
  match evs with [] => Some s | e :: evs => s ← step e s; run evs s end.

(** ** Outcomes: properties *)

Lemma equals_refl c : equals c c = true.
Proof. destruct c; simpl; [|done]. by rewrite !String.eqb_refl. Qed.
Lemma equals_sym c d : equals c d = true → equals d c = true.
Proof. destruct c, d; simpl; try done. rewrite !andb_true_iff, !String.eqb_eq. naive_solver. Qed.
Lemma equals_trans c d e : equals c d = true → equals d e = true → equals c e = true.
Proof. destruct c, d, e; simpl; try done. rewrite !andb_true_iff, !String.eqb_eq. intuition congruence. Qed.

(** Outcomes are compared by an equivalence. *)
#[global] Instance sameOutcome_equivalence : Equivalence (λ a b, sameOutcome a b = true).
Proof.
  unfold sameOutcome. split.
  - intros r. destruct (dr_err r); [apply String.eqb_refl|apply equals_refl].
  - intros r r'. destruct (dr_err r), (dr_err r'); try done; [rewrite !String.eqb_eq; congruence|apply equals_sym].
  - intros r r' r''. destruct (dr_err r), (dr_err r'), (dr_err r''); try done; [rewrite !String.eqb_eq; congruence|apply equals_trans].
Qed.

(** ** Retries: properties *)

Lemma int64_id z : (- 2 ^ 63 <= z < 2 ^ 63)%Z → int64 z = z.
Proof. intros H. unfold int64. rewrite Z.mod_small by lia. lia. Qed.

(** The wait grows by doubling, from the retry interval to the refresh interval; the shift does not
    overflow. *)
Lemma retry_ttl_exact retry refresh failures : (0 < retry < 2 ^ 46)%Z → (1 <= failures)%Z →
  retry_ttl retry refresh failures = Z.min refresh (retry * 2 ^ Z.min (failures - 1) 16).
Proof.
  intros Hr Hf. unfold retry_ttl. set (shift := Z.min (failures - 1) 16).
  assert (0 <= shift <= 16)%Z as Hs by lia.
  assert (1 <= 2 ^ shift <= 2 ^ 16)%Z as Hp.
  { assert (0 < 2 ^ shift)%Z by (apply Z.pow_pos_nonneg; lia). split; [lia|apply Z.pow_le_mono_r; lia]. }
  assert ((if (0 <? shift)%Z then int64 (Z.shiftl retry shift) else retry) = retry * 2 ^ shift)%Z as ->.
  { destruct (Z.ltb_spec 0 shift); [|replace shift with 0%Z by lia; lia].
    rewrite Z.shiftl_mul_pow2 by lia. apply int64_id. nia. }
  destruct (Z.ltb_spec refresh (retry * 2 ^ shift)); lia.
Qed.

Lemma retry_ttl_range retry refresh failures : (0 < retry < 2 ^ 46)%Z → (0 < refresh)%Z → (1 <= failures)%Z →
  (0 < retry_ttl retry refresh failures <= refresh)%Z.
Proof.
  intros Hr Hf H. rewrite retry_ttl_exact by done.
  assert (0 < 2 ^ Z.min (failures - 1) 16)%Z by (apply Z.pow_pos_nonneg; lia). nia.
Qed.

(** ** Invariant *)

(** A discovery is under way only for an issuer that is not cached; a failed entry counts its failures, and every entry
    expires within the refresh interval. *)
Record disc_ok (s : State) : Prop := mkDiscOk {
  do_retry : o_retry s = defaultOIDCFailureRetryInterval;
  do_refresh : o_refresh s = defaultOIDCCacheRefreshInterval;
  do_flight : ∀ i, is_Some (o_flights s !! i) → o_cache s !! i = None;
  do_entry : ∀ i r, o_cache s !! i = Some r → (dr_expiry r <= o_now s + o_refresh s)%Z ∧ (0 <= dr_failures r)%Z ∧
    (is_Some (dr_err r) → dr_cfg r = None ∧ 1 <= dr_failures r)%Z }.

Definition entry_ok (s : State) (r : oidcDiscoveryResult) : Prop :=
  (dr_expiry r <= o_now s + o_refresh s)%Z ∧ (0 <= dr_failures r)%Z ∧ (is_Some (dr_err r) → dr_cfg r = None ∧ 1 <= dr_failures r)%Z.

Lemma new_result_ok s outcome n : disc_ok s → (0 <= n)%Z → entry_ok s (newResult s outcome n).
Proof.
  intros [Hr Hf _ _] Hn. unfold newResult. destruct outcome as [e|cfg]; simpl.
  - pose proof (retry_ttl_range (o_retry s) (o_refresh s) (n + 1)) as H. rewrite Hr, Hf in *.
    unfold entry_ok. simpl. rewrite Hf.
    specialize (H ltac:(unfold defaultOIDCFailureRetryInterval, second; lia)
                  ltac:(unfold defaultOIDCCacheRefreshInterval, minute, second; lia) ltac:(lia)). split_and!; [lia|lia|]. intros _. split; [done|lia].
  - unfold entry_ok. simpl. split_and!; [lia|lia|]. by intros [? [=]].
Qed.

(** The parts that observations do not touch. *)
Definition core (s : State) := (o_retry s, o_refresh s, o_now s, o_cache s, o_missed s, o_flights s, o_loop s, o_cancelled s).
Lemma observe_core i r c s : core (observe i r c s) = core s.
Proof. done. Qed.
Lemma observe_all_core i r l s : core (foldr (observe i r) s l) = core s.
Proof. induction l as [|c l IH]; simpl; [done|]. by rewrite observe_core. Qed.

Lemma disc_ok_core s s' : core s = core s' → disc_ok s → disc_ok s'.
Proof. unfold core. intros [= H1 H2 H3 H4 H5 H6 H7 H8] [A B C D]. split; congruence || (rewrite <- H2, <- H3, <- H4; done) || (by rewrite <- H4, <- H6). Qed.

Lemma delete_all_None l m i : m !! i = None → delete_all l m !! i = None.
Proof. intros H. induction l as [|j l IH]; simpl; [done|]. by rewrite lookup_delete_None; auto. Qed.
Lemma delete_all_Some l m i r : delete_all l m !! i = Some r → m !! i = Some r.
Proof. induction l as [|j l IH]; simpl; [done|]. rewrite lookup_delete_Some. intros [_ H]. by apply IH. Qed.
Lemma delete_all_keep l m i : i ∉ l → delete_all l m !! i = m !! i.
Proof.
  induction l as [|j l IH]; simpl; [done|]. rewrite not_elem_of_cons. intros [Hj Hl]. rewrite lookup_delete_ne by done. auto.
Qed.

(** The cache under [rediscover]: only the issuer changes, and only when it is cached. *)
Definition refreshed (s : State) (outcome : error + option oidcProviderConfig) (prev : oidcDiscoveryResult) : oidcDiscoveryResult :=
  let next := newResult s outcome (dr_failures prev) in
  match outcome, dr_err prev with
  | inl _, None => mkResult (dr_cfg prev) None (dr_expiry next) (dr_failures next)
  | _, _ => next
  end.

Lemma rediscover_spec i attempts s s' b : rediscover i attempts s = (s', b) →
  (s' = s ∧ b = false) ∨
  ∃ prev, o_cache s !! i = Some prev ∧
    s' = with_cache (<[i := refreshed s (discover attempts) prev]> (o_cache s)) s ∧
    b = negb (sameOutcome prev (refreshed s (discover attempts) prev)).
Proof.
  unfold rediscover. destruct (oidcDiscoveryURL i) as [?|?]; [intros [= <- <-]; auto|].
  case_match; [intros [= <- <-]; auto|]. destruct (o_cache s !! i) as [prev|]; intros [= <- <-]; [|auto].
  right. exists prev. done.
Qed.

Lemma refreshed_ok s outcome prev : disc_ok s → entry_ok s prev → entry_ok s (refreshed s outcome prev).
Proof.
  intros H (He & Hf & Hp). pose proof (new_result_ok s outcome _ H Hf) as Hn. unfold refreshed.
  destruct outcome as [e|cfg]; [|done]. destruct (dr_err prev) as [e'|]; [done|].
  destruct Hn as (A & B & _). unfold entry_ok. simpl in *. split_and!; [done|done|]. by intros [? [=]].
Qed.

Lemma step_ok e s s' : disc_ok s → step e s = Some s' → disc_ok s'.
Proof.
  intros H Hs. pose proof H as [Hr Hf Hfl He]. destruct e as [d|c i|c|i atts| |live| | |i atts|i|]; simpl in Hs.
  - destruct (Z.ltb_spec d 0); [done|]. simplify_eq. split; simpl; [done..|]. intros i r Hi.
    destruct (He i r Hi) as (A & B & C). split_and!; [lia|done|done].
  - simplify_eq. unfold get_load. destruct (o_cache s !! i); [by eapply disc_ok_core; [apply eq_sym, observe_core|]|].
    destruct (oidcDiscoveryURL i); done.
  - unfold get_enter in Hs. apply bind_Some in Hs as (i & Hm & Hs). simpl in Hs. destruct (o_flights s !! i) as [w|] eqn:Ew.
    + simplify_eq. split; simpl; [done..| |done]. intros j. rewrite lookup_insert_is_Some. intros [<-|[_ Hj]]; apply Hfl; by rewrite ?Ew.
    + destruct (o_cache s !! i) eqn:Ec; simplify_eq; [by eapply disc_ok_core; [apply eq_sym, observe_core|]|].
      split; simpl; [done..| |done]. intros j. rewrite lookup_insert_is_Some. intros [<-|[_ Hj]]; [done|by apply Hfl].
  - unfold get_land in Hs. apply bind_Some in Hs as (w & Hw & Hs). simplify_eq.
    eapply disc_ok_core; [apply eq_sym, observe_all_core|]. split; simpl; [done..| |].
    + intros j. rewrite lookup_delete_is_Some. intros [Hj Hi]. rewrite lookup_insert_ne by done. auto.
    + intros j r. rewrite lookup_insert_Some. intros [[<- <-]|[_ Hj]]; [by apply new_result_ok|by apply (He j)].
  - by simplify_eq.
  - destruct (o_loop s); try done. case_match; by simplify_eq.
  - destruct (o_loop s); by simplify_eq.
  - destruct (o_loop s); simplify_eq. split; simpl; [done..| |].
    + intros i Hi. by apply delete_all_None, Hfl.
    + intros i r Hi. by apply (He i), (delete_all_Some pruned).
  - destruct (o_loop s) as [| | |todo changed]; try done. case_match; [|done].
    destruct (rediscover i atts s) as [s1 b] eqn:E. simplify_eq. apply rediscover_spec in E as [[-> ->]|(prev & Hp & -> & ->)]; [done|].
    split; simpl; [done..| |].
    + intros j Hj. destruct (decide (i = j)) as [<-|]; [by rewrite (Hfl i Hj) in Hp|]. rewrite lookup_insert_ne by done. auto.
    + intros j r. rewrite lookup_insert_Some. intros [[<- <-]|[_ Hj]]; [|by apply (He j)]. by apply refreshed_ok, (He i).
  - destruct (o_loop s) as [| | |todo changed]; try done. case_match; by simplify_eq.
  - destruct (o_loop s) as [| | |[|] []]; by simplify_eq.
Qed.

Definition reachable (s : State) : Prop := ∃ evs now, run evs (newOIDCProviderConfigDiscoverer now) = Some s.

Lemma run_app evs1 evs2 s : run (evs1 ++ evs2) s = run evs1 s ≫= run evs2.
Proof. revert s. induction evs1 as [|e evs IH]; intros s; simpl; [done|]. destruct (step e s); simpl; [apply IH|done]. Qed.

(** Rule induction: what one step preserves holds after a run. *)
Lemma run_ind (allowed : event → Prop) (I : State → Prop) :
  (∀ e s s', allowed e → I s → step e s = Some s' → I s') →
  ∀ evs s s', Forall allowed evs → I s → run evs s = Some s' → I s'.
Proof.
  intros Hstep evs. induction evs as [|e evs IH]; intros s s' Ha Hi Hr; simpl in Hr; [by simplify_eq|].
  apply Forall_cons in Ha as [He Ha]. apply bind_Some in Hr as (s1 & Hs & Hr). eauto.
Qed.

Lemma discoverer_run_ok evs s s' : disc_ok s → run evs s = Some s' → disc_ok s'.
Proof. intros H. apply (run_ind (λ _, True) disc_ok); [intros ??? _; apply step_ok|by apply Forall_true|done]. Qed.

Lemma reachable_ok s : reachable s → disc_ok s.
Proof.
  intros (evs & now & H). eapply discoverer_run_ok; [|exact H]. split; [done..| |]; simpl.
  - intros i [w Hw]. by rewrite lookup_empty in Hw.
  - intros i r Hr. by rewrite lookup_empty in Hr.
Qed.

(** Whatever readers and the refresh loop do, a cached outcome is due again within five minutes, a failed one after
    the retry interval doubled for each further consecutive failure; the shift never overflows an
    [int64], and the wait is positive. *)
Theorem retries_bounded s i r : reachable s → o_cache s !! i = Some r →
  (dr_expiry r <= o_now s + 5 * minute)%Z ∧
  (∀ outcome n, (0 <= n)%Z →
     match outcome with
     | inr _ => dr_expiry (newResult s outcome n) = (o_now s + 5 * minute)%Z ∧ dr_failures (newResult s outcome n) = 0%Z
     | inl _ => dr_expiry (newResult s outcome n) = (o_now s + Z.min (5 * minute) (30 * second * 2 ^ Z.min n 16))%Z ∧
                dr_failures (newResult s outcome n) = (n + 1)%Z ∧ (o_now s < dr_expiry (newResult s outcome n))%Z
     end).
Proof.
  intros H Hi. apply reachable_ok in H as [Hr Hf Hfl He]. split; [apply He in Hi as [H _]; by rewrite Hf in H|].
  intros outcome n Hn. unfold newResult. destruct outcome as [e|cfg]; simpl; rewrite Hf; [|done]. rewrite Hr.
  rewrite retry_ttl_exact by (unfold defaultOIDCFailureRetryInterval, second; lia).
  replace (n + 1 - 1)%Z with n by lia. split; [done|]. split; [done|].
  assert (0 < 2 ^ Z.min n 16)%Z by (apply Z.pow_pos_nonneg; lia).
  unfold defaultOIDCCacheRefreshInterval, defaultOIDCFailureRetryInterval, minute, second. lia.
Qed.

(** ** Entries that are needed *)

(** The loop does not drop the issuer in the pass under way, and reads it as live in later ones. *)
Definition safe (i : string) (s : State) : Prop :=
  match o_loop s with Live live => i ∈ live | Scanned pruned _ => i ∉ pruned | _ => True end.
Definition keeps_live (i : string) (e : event) : Prop := match e with Tick live => i ∈ live | _ => True end.

(** A pass drops the entry of the issuer, now or in the course of a run. *)
Definition drops (i : string) (e : event) (s : State) : bool :=
  match e, o_loop s with Prune, Scanned pruned _ => bool_decide (i ∈ pruned) | _, _ => false end.
Fixpoint dropped (i : string) (evs : list event) (s : State) : bool :=
  match evs with
  | [] => false
  | e :: evs => drops i e s || from_option (dropped i evs) false (step e s)
  end.

(** The configuration that the last successful discovery of the issuer in a run returned. *)
Fixpoint last_returned (i : string) (cfg : option oidcProviderConfig) (evs : list event) : option oidcProviderConfig :=
  match evs with
  | [] => cfg
  | Rediscovered j attempts :: evs =>
      last_returned i (match discover attempts with inr c => if bool_decide (j = i) then c else cfg | inl _ => cfg end) evs
  | _ :: evs => last_returned i cfg evs
  end.

(** Rule induction over the runs that do not drop an issuer. *)
Lemma run_kept_ind (allowed : event → Prop) (I : State → Prop) i :
  (∀ e s s', allowed e → drops i e s = false → I s → step e s = Some s' → I s') →
  ∀ evs s s', Forall allowed evs → dropped i evs s = false → I s → run evs s = Some s' → I s'.
Proof.
  intros Hstep evs. induction evs as [|e evs IH]; intros s s' Ha Hd Hi Hr; simpl in Hr; [by simplify_eq|].
  apply Forall_cons in Ha as [He Ha]. apply bind_Some in Hr as (s1 & Hs & Hr). simpl in Hd. rewrite Hs in Hd.
  apply orb_false_iff in Hd as [Hd1 Hd]. eauto.
Qed.

Lemma to_prune_elem live s i : i ∈ to_prune live s ↔ ((i ∉ live) ∧ is_Some (o_cache s !! i)).
Proof.
  unfold to_prune. rewrite list_elem_of_fmap. split.
  - intros ([j r] & -> & H). apply list_elem_of_filter in H as [Hl H]. apply elem_of_map_to_list in H. simpl in *. eauto.
  - intros [Hl [r Hr]]. exists (i, r). split; [done|]. apply list_elem_of_filter. by rewrite elem_of_map_to_list.
Qed.
Lemma to_refresh_elem live s i :
  i ∈ to_refresh live s ↔ (i ∈ live ∧ ∃ r, o_cache s !! i = Some r ∧ (dr_expiry r < o_now s)%Z).
Proof.
  unfold to_refresh. rewrite list_elem_of_fmap. split.
  - intros ([j r] & -> & H). apply list_elem_of_filter in H as [[Hl He] H]. apply elem_of_map_to_list in H. simpl in *. eauto.
  - intros (Hl & r & Hr & He). exists (i, r). split; [done|]. apply list_elem_of_filter. by rewrite elem_of_map_to_list.
Qed.

Lemma load_core c i s : o_cache (get_load c i s) = o_cache s ∧ o_loop (get_load c i s) = o_loop s ∧
  o_cancelled (get_load c i s) = o_cancelled s ∧ o_now (get_load c i s) = o_now s.
Proof. unfold get_load. by repeat case_match. Qed.
Lemma enter_core c s s' : get_enter c s = Some s' →
  o_cache s' = o_cache s ∧ o_loop s' = o_loop s ∧ o_cancelled s' = o_cancelled s ∧ o_now s' = o_now s.
Proof. unfold get_enter. intros (i & _ & H)%bind_Some. simpl in H. by repeat case_match; simplify_eq. Qed.
Lemma land_core i atts s s' : get_land i atts s = Some s' →
  is_Some (o_flights s !! i) ∧ o_cache s' = <[i := newResult s (discover atts) 0]> (o_cache s) ∧ o_loop s' = o_loop s ∧
  o_cancelled s' = o_cancelled s ∧ o_now s' = o_now s.
Proof.
  unfold get_land. intros (w & Hw & H)%bind_Some. simplify_eq. rewrite Hw. set (s0 := with_flights _ _).
  pose proof (observe_all_core i (newResult s (discover atts) 0) w s0) as [= _ _ Hn Hc _ _ Hl Hx]. by rewrite Hn, Hc, Hl, Hx.
Qed.

(** An entry that is not dropped stays; only a discovery of its issuer by the loop replaces it. *)
Lemma entry_step e s s' i r : disc_ok s → step e s = Some s' → o_cache s !! i = Some r → drops i e s = false →
  ∃ r', o_cache s' !! i = Some r' ∧ (r' = r ∨ ∃ atts, e = Rediscovered i atts ∧ r' = refreshed s (discover atts) r).
Proof.
  intros H Hs Hi Hd. destruct e as [d|c j|c|j atts| |live| | |j atts|j|]; simpl in Hs, Hd.
  - destruct (d <? 0)%Z; simplify_eq. eauto.
  - simplify_eq. destruct (load_core c j s) as (-> & _). eauto.
  - destruct (enter_core _ _ _ Hs) as (-> & _). eauto.
  - destruct (land_core _ _ _ _ Hs) as (Hf & -> & _). exists r. split; [|auto].
    rewrite lookup_insert_ne; [done|]. intros ->. by rewrite (do_flight s H i Hf) in Hi.
  - simplify_eq. eauto.
  - destruct (o_loop s); try done. destruct (o_cancelled s); simplify_eq. eauto.
  - destruct (o_loop s); simplify_eq. eauto.
  - destruct (o_loop s) as [| |pruned expired|]; simplify_eq. simpl. apply bool_decide_eq_false in Hd. exists r.
    rewrite delete_all_keep; auto.
  - destruct (o_loop s) as [| | |todo changed]; try done. destruct (bool_decide (j ∈ todo)); [|done].
    destruct (rediscover j atts s) as [s1 b] eqn:E. simplify_eq.
    apply rediscover_spec in E as [[-> ->]|(prev & Hp & -> & ->)]; [eauto|]. simpl.
    destruct (decide (j = i)) as [->|]; [|rewrite lookup_insert_ne by done; eauto].
    rewrite lookup_insert_eq. simplify_eq. eexists. split; [done|]. eauto.
  - destruct (o_loop s) as [| | |todo changed]; try done. destruct (_ && _); simplify_eq. eauto.
  - destruct (o_loop s) as [| | |[|] []]; simplify_eq; eauto.
Qed.

(** An issuer that every pass reads as live is not dropped. *)
Lemma safe_kept e s i : safe i s → drops i e s = false.
Proof. unfold safe, drops. intros H. destruct e; try done. destruct (o_loop s); try done. by apply bool_decide_eq_false. Qed.

Lemma safe_step e s s' i : step e s = Some s' → safe i s → keeps_live i e → safe i s'.
Proof.
  intros Hs Hsafe Hk. unfold safe in *. destruct e as [d|c j|c|j atts| |live| | |j atts|j|]; simpl in Hs.
  - destruct (d <? 0)%Z; by simplify_eq.
  - simplify_eq. by destruct (load_core c j s) as (_ & -> & _).
  - by destruct (enter_core _ _ _ Hs) as (_ & -> & _).
  - by destruct (land_core _ _ _ _ Hs) as (_ & _ & -> & _).
  - by simplify_eq.
  - destruct (o_loop s); try done. destruct (o_cancelled s); by simplify_eq.
  - destruct (o_loop s) as [|live| |]; simplify_eq. simpl. rewrite to_prune_elem. naive_solver.
  - destruct (o_loop s) as [| |pruned expired|]; simplify_eq. by destruct expired.
  - destruct (o_loop s) as [| | |todo changed]; try done. destruct (bool_decide (j ∈ todo)); [|done].
    destruct (rediscover j atts s) as [s1 b]. by simplify_eq.
  - destruct (o_loop s) as [| | |todo changed]; try done. destruct (_ && _); by simplify_eq.
  - destruct (o_loop s) as [| | |[|] []]; by simplify_eq.
Qed.

Lemma live_not_dropped evs s i : safe i s → Forall (keeps_live i) evs → dropped i evs s = false.
Proof.
  revert s. induction evs as [|e evs IH]; intros s Hs Hk; simpl; [done|]. apply Forall_cons in Hk as [He Hk].
  rewrite (safe_kept e s i Hs). simpl. destruct (step e s) as [s1|] eqn:E; simpl; [|done]. eapply IH; [by eapply safe_step|done].
Qed.

(** Only issuers whose discovery URL parses are waited for or cached. *)
Definition parses (i : string) : Prop := ∃ u, oidcDiscoveryURL i = inr u.
Record urls_ok (s : State) : Prop := mkUrlsOk {
  uo_missed : ∀ c i, o_missed s !! c = Some i → parses i;
  uo_flights : ∀ i, is_Some (o_flights s !! i) → parses i;
  uo_cache : ∀ i, is_Some (o_cache s !! i) → parses i }.

Lemma urls_ok_core s s' : core s = core s' → urls_ok s → urls_ok s'.
Proof. unfold core. intros [= _ _ _ H4 H5 H6 _ _] [A B C]. split; [by rewrite <- H5|by rewrite <- H6|by rewrite <- H4]. Qed.

Lemma urls_step e s s' : urls_ok s → step e s = Some s' → urls_ok s'.
Proof.
  intros H Hs. pose proof H as [Hm Hf Hc]. destruct e as [d|c i|c|i atts| |live| | |i atts|i|]; simpl in Hs.
  - destruct (d <? 0)%Z; by simplify_eq.
  - simplify_eq. unfold get_load. destruct (o_cache s !! i); [by eapply urls_ok_core; [apply eq_sym, observe_core|]|].
    destruct (oidcDiscoveryURL i) eqn:E; [done|]. split; simpl; [|done..]. intros c' j. rewrite lookup_insert_Some.
    intros [[_ <-]|[_ Hj]]; [by eexists|by eapply Hm].
  - unfold get_enter in Hs. apply bind_Some in Hs as (i & Hi & Hs). simpl in Hs. pose proof (Hm c i Hi) as Hp.
    assert (∀ c' j, delete c (o_missed s) !! c' = Some j → parses j) as Hd by (intros c' j [_ Hj]%lookup_delete_Some; by eapply Hm).
    assert (∀ w j, is_Some (<[i := w]> (o_flights s) !! j) → parses j) as Hw.
    { intros w j. rewrite lookup_insert_is_Some. intros [<-|[_ Hj]]; [done|by apply Hf]. }
    destruct (o_flights s !! i) as [w|]; [simplify_eq; split; simpl; [done|apply Hw|done]|].
    destruct (o_cache s !! i); simplify_eq; [eapply urls_ok_core; [apply eq_sym, observe_core|]; by split|by split; [|apply Hw|]].
  - unfold get_land in Hs. apply bind_Some in Hs as (w & Hw & Hs). simplify_eq.
    eapply urls_ok_core; [apply eq_sym, observe_all_core|]. split; simpl; [done| |].
    + intros j. rewrite lookup_delete_is_Some. intros [_ Hj]. by apply Hf.
    + intros j. rewrite lookup_insert_is_Some. intros [<-|[_ Hj]]; [apply Hf; by rewrite Hw|by apply Hc].
  - by simplify_eq.
  - destruct (o_loop s); try done. destruct (o_cancelled s); by simplify_eq.
  - destruct (o_loop s); by simplify_eq.
  - destruct (o_loop s); simplify_eq. split; simpl; [done..|]. intros i [r Hr]. apply Hc. by apply delete_all_Some in Hr as ->.
  - destruct (o_loop s) as [| | |todo changed]; try done. destruct (bool_decide _); [|done].
    destruct (rediscover i atts s) as [s1 b] eqn:E. simplify_eq. apply rediscover_spec in E as [[-> ->]|(prev & Hp & -> & ->)]; [done|].
    split; simpl; [done..|]. intros j. rewrite lookup_insert_is_Some. intros [<-|[_ Hj]]; apply Hc; [by rewrite Hp|done].
  - destruct (o_loop s) as [| | |todo changed]; try done. destruct (_ && _); by simplify_eq.
  - destruct (o_loop s) as [| | |[|] []]; by simplify_eq.
Qed.

Lemma reachable_urls s : reachable s → urls_ok s.
Proof.
  intros (evs & now & H). revert H. apply (run_ind (λ _, True)); [intros ??? _; apply urls_step|by apply Forall_true|].
  split; simpl; [intros c i ?|intros i [? ?]|intros i [? ?]]; by simplify_map_eq.
Qed.

(** What the loop stores after a discovery: a success is kept whatever was cached, a failure only over a failure. *)
Lemma refreshed_good s outcome r : dr_err r = None → dr_err (refreshed s outcome r) = None ∧
  dr_cfg (refreshed s outcome r) = match outcome with inr c => c | inl _ => dr_cfg r end.
Proof. intros H. unfold refreshed. rewrite H. by destruct outcome. Qed.

Lemma success_stored i atts s s' r cfg : parses i → o_cache s !! i = Some r → discover atts = inr cfg →
  step (Rediscovered i atts) s = Some s' → o_cache s' !! i = Some (refreshed s (inr cfg) r).
Proof.
  intros [u Hu] Hi Hd Hs. simpl in Hs. destruct (o_loop s) as [| | |todo changed]; try done. destruct (bool_decide (i ∈ todo)); [|done].
  unfold rediscover in Hs. rewrite Hu, Hd, Hi in Hs. rewrite bool_decide_eq_false_2 in Hs by (by intros [? [=]]).
  simpl in Hs. simplify_eq. simpl. apply lookup_insert_eq.
Qed.

(** One step on a cached configuration. *)
Lemma good_entry_step e s s' i r : disc_ok s → parses i → step e s = Some s' → o_cache s !! i = Some r → dr_err r = None →
  drops i e s = false → ∃ r', o_cache s' !! i = Some r' ∧ dr_err r' = None ∧ dr_cfg r' = last_returned i (dr_cfg r) [e].
Proof.
  intros H Hp Hs Hi Hr Hd. destruct (entry_step _ _ _ _ _ H Hs Hi Hd) as (r' & Hi' & Hr'). exists r'. split; [done|].
  assert (dr_err r' = None) as He by (destruct Hr' as [->|(atts & _ & ->)]; [done|by apply refreshed_good]). split; [done|].
  destruct Hr' as [->|(atts & -> & ->)]; simpl.
  - destruct e as [| | | | | | | |j atts| |]; try done. simpl. destruct (discover atts) as [|cfg] eqn:E; [done|].
    destruct (decide (j = i)) as [->|]; [|by rewrite bool_decide_eq_false_2].
    rewrite (success_stored _ _ _ _ _ _ Hp Hi E Hs) in Hi'. rewrite bool_decide_eq_true_2 by done.
    destruct (refreshed_good s (inr cfg) r Hr) as [_ Hx]. assert (refreshed s (inr cfg) r = r) as Hq by congruence. by rewrite Hq in Hx.
  - rewrite (proj2 (refreshed_good s _ r Hr)). by rewrite bool_decide_eq_true_2.
Qed.

Lemma last_returned_cons i cfg e evs : last_returned i cfg (e :: evs) = last_returned i (last_returned i cfg [e]) evs.
Proof. by destruct e. Qed.

(** C35: Once an issuer was discovered, no failure of its provider withdraws it.  In any interleaving of readers and refresh
    passes in which no pass drops the entry, the cache and every new reader have, without an error, exactly the configuration
    that the last successful discovery of the issuer returned, or the first one when no later discovery succeeded.
    An issuer that the pass under way does not drop and that every later pass reads as live is never dropped. *)
Theorem last_known_good s evs s' i r : reachable s → run evs s = Some s' → o_cache s !! i = Some r → dr_err r = None →
  (dropped i evs s = false →
   ∃ r', o_cache s' !! i = Some r' ∧ dr_err r' = None ∧ dr_cfg r' = last_returned i (dr_cfg r) evs ∧
     ∀ c, served <$> (snd <$> (o_seen (get_load c i s') !! c)) = Some (last_returned i (dr_cfg r) evs, None)) ∧
  (safe i s → Forall (keeps_live i) evs → dropped i evs s = false).
Proof.
  intros H Hrun Hi Hr. split; [|apply live_not_dropped]. intros Hd.
  assert (parses i) as Hp by (apply (uo_cache s); [by apply reachable_urls|by rewrite Hi]). apply reachable_ok in H.
  assert (∃ r', o_cache s' !! i = Some r' ∧ dr_err r' = None ∧ dr_cfg r' = last_returned i (dr_cfg r) evs) as (r' & Hr' & He & Hc).
  { revert s r H Hrun Hi Hr Hd. induction evs as [|e evs IH]; intros s r H Hrun Hi Hr Hd; simpl in Hrun; [simplify_eq; eauto|].
    apply bind_Some in Hrun as (s1 & Hs & Hrun). simpl in Hd. rewrite Hs in Hd. apply orb_false_iff in Hd as [Hd1 Hd].
    destruct (good_entry_step _ _ _ _ _ H Hp Hs Hi Hr Hd1) as (r1 & Hi1 & He1 & Hc1).
    rewrite last_returned_cons, <- Hc1. by apply (IH s1); [eapply step_ok| | | |]. }
  exists r'. do 3 (split; [done|]). intros c. unfold get_load. rewrite Hr'. simpl. rewrite lookup_insert_eq. simpl. unfold served. by rewrite He, Hc.
Qed.

(** ** Readers *)

(** The pass under way saw a change and will trigger. *)
Definition pending (s : State) : Prop := match o_loop s with Working _ changed => changed = true | _ => False end.

(** The reader waits for nothing. *)
Definition settled (c : nat) (s : State) : Prop :=
  o_missed s !! c = None ∧ ∀ j w, o_flights s !! j = Some w → c ∉ w.
Definition reads_only (c : nat) (i : string) (e : event) : Prop := match e with Load c' j => c' = c → j = i | _ => True end.

(** The reader has the outcome that is cached, or is going to read it. *)
Definition coherent (c : nat) (i : string) (s : State) : Prop :=
  ∃ r0 r, o_seen s !! c = Some (i, r0) ∧ o_cache s !! i = Some r ∧
    (c ∈ o_dirty s ∨ pending s ∨ sameOutcome r0 r = true).

Lemma observe_other j r c' c s : c ≠ c' →
  o_seen (observe j r c' s) !! c = o_seen s !! c ∧ (c ∈ o_dirty (observe j r c' s) ↔ c ∈ o_dirty s).
Proof. intros H. simpl. rewrite lookup_insert_ne by done. split; [done|set_solver]. Qed.

Lemma observe_all_other j r l c s : c ∉ l →
  o_seen (foldr (observe j r) s l) !! c = o_seen s !! c ∧ (c ∈ o_dirty (foldr (observe j r) s l) ↔ c ∈ o_dirty s).
Proof.
  induction l as [|c' l IH]; cbn [foldr]; [done|]. rewrite not_elem_of_cons. intros [Hc Hl].
  destruct (observe_other j r c' c (foldr (observe j r) s l) Hc) as [-> ->]. auto.
Qed.

Lemma with_loop_coherent c i s l : coherent c i s → (pending s → pending (with_loop l s)) → coherent c i (with_loop l s).
Proof. intros (r0 & r & Hs & Hc & H) Hp. exists r0, r. simpl. naive_solver. Qed.

(** A state that differs in nothing that a settled reader sees. *)
Lemma coherent_same c i s s' : o_seen s' !! c = o_seen s !! c → (c ∈ o_dirty s ↔ c ∈ o_dirty s') → o_cache s' !! i = o_cache s !! i →
  o_loop s' = o_loop s → coherent c i s → coherent c i s'.
Proof.
  intros Hse Hd Hc Hl (r0 & r & H1 & H2 & H3). exists r0, r. rewrite Hse, Hc. do 2 (split; [done|]).
  unfold pending in *. rewrite Hl. naive_solver.
Qed.

Lemma load_coherent c i c' j s : (c' = c → j = i) → settled c s → coherent c i s →
  settled c (get_load c' j s) ∧ coherent c i (get_load c' j s).
Proof.
  intros Hr [Hm Hf] Hco. unfold get_load. destruct (decide (c' = c)) as [->|Hne].
  - rewrite (Hr eq_refl). destruct Hco as (r0 & r & H1 & H2 & H3). rewrite H2. split; [done|]. exists r, r. simpl.
    rewrite lookup_insert_eq. do 2 (split; [done|]). right. right. apply (reflexivity (R := λ a b, sameOutcome a b = true)).
  - destruct (o_cache s !! j) as [r|].
    + split; [done|]. destruct (observe_other j r c' c s) as [E1 E2]; [done|]. apply (coherent_same c i s); done.
    + destruct (oidcDiscoveryURL j); [done|]. split; [|by apply (coherent_same c i s)]. split; [|done]. simpl. by rewrite lookup_insert_ne.
Qed.

Lemma enter_coherent c i c' s s' : get_enter c' s = Some s' → settled c s → coherent c i s → settled c s' ∧ coherent c i s'.
Proof.
  unfold get_enter. intros (j & Hj & Hs)%bind_Some [Hm Hf] Hco. simpl in Hs.
  assert (c ≠ c') as Hne by congruence.
  destruct (o_flights s !! j) as [w|] eqn:Ew.
  - simplify_eq. split; [|by apply (coherent_same c i s)]. split; simpl; [by rewrite lookup_delete_ne|].
    intros k w'. rewrite lookup_insert_Some. intros [[<- <-]|[_ Hk]]; [|by apply (Hf k)].
    rewrite elem_of_app, list_elem_of_singleton. intros [H|H]; [by apply (Hf j w)|done].
  - destruct (o_cache s !! j) as [r|] eqn:Ec; simplify_eq.
    + split; [split; simpl; [by rewrite lookup_delete_ne|done]|]. apply (coherent_same c i s); try done; simpl.
      * by rewrite lookup_insert_ne.
      * set_solver.
    + split; [|by apply (coherent_same c i s)]. split; simpl; [by rewrite lookup_delete_ne|].
      intros k w'. rewrite lookup_insert_Some. intros [[<- <-]|[_ Hk]]; [|by apply (Hf k)]. by rewrite list_elem_of_singleton.
Qed.

Lemma land_coherent c i j atts s s' : disc_ok s → get_land j atts s = Some s' → settled c s → coherent c i s → settled c s' ∧ coherent c i s'.
Proof.
  intros Hok. unfold get_land. intros (w & Hw & Hs)%bind_Some [Hm Hf] Hco. simplify_eq.
  set (r := newResult s (discover atts) 0). set (s0 := with_flights _ _).
  pose proof (observe_all_core j r w s0) as [= _ _ _ Hc Hmi Hfl Hl _].
  destruct (observe_all_other j r w c s0 (Hf j w Hw)) as [E1 E2]. split.
  - split; [by rewrite Hmi|]. rewrite Hfl. simpl. intros k w'. rewrite lookup_delete_Some. intros [_ H]. by apply (Hf k).
  - apply (coherent_same c i s); [done|by rewrite E2| |done|done]. rewrite Hc. simpl. apply lookup_insert_ne. intros ->.
    destruct Hco as (r0 & r1 & _ & H & _). by rewrite (do_flight s Hok i) in H.
Qed.

Lemma rediscovered_coherent c i j atts s s1 b todo changed : o_loop s = Working todo changed → rediscover j atts s = (s1, b) →
  settled c s → coherent c i s →
  settled c (with_loop (Working (remove_one j todo) (changed || b)) s1) ∧
  coherent c i (with_loop (Working (remove_one j todo) (changed || b)) s1).
Proof.
  intros Hl Hr Hse Hco. apply rediscover_spec in Hr as [[-> ->]|(prev & Hp & -> & ->)].
  { split; [done|]. apply with_loop_coherent; [done|]. unfold pending. rewrite Hl. simpl. by intros ->. }
  split; [done|]. destruct Hco as (r0 & r & H1 & H2 & H3). unfold coherent, pending in *. rewrite Hl in H3. simpl.
  set (next := refreshed s (discover atts) prev). destruct (decide (j = i)) as [->|Hne].
  - assert (r = prev) as -> by congruence. exists r0, next. rewrite lookup_insert_eq. do 2 (split; [done|]).
    destruct H3 as [H3|[-> |H3]]; [auto|auto|]. destruct (sameOutcome prev next) eqn:E; [|right; left; by rewrite orb_true_r].
    right. right. by apply (@Equivalence_Transitive _ _ sameOutcome_equivalence r0 prev).
  - exists r0, r. rewrite lookup_insert_ne by done. do 2 (split; [done|]). destruct H3 as [H3|[-> |H3]]; auto.
Qed.

Lemma coherent_step e c i s s' : disc_ok s → step e s = Some s' → drops i e s = false → reads_only c i e →
  settled c s → coherent c i s → settled c s' ∧ coherent c i s'.
Proof.
  intros Hok Hs Hd Hr Hse Hco. destruct e as [d|c' j|c'|j atts| |live| | |j atts|j|]; simpl in Hs.
  - destruct (d <? 0)%Z; simplify_eq. by split; [|apply (coherent_same c i s)].
  - simplify_eq. by apply load_coherent.
  - by eapply enter_coherent.
  - by eapply land_coherent.
  - simplify_eq. by split; [|apply (coherent_same c i s)].
  - destruct (o_loop s) eqn:E; try done. destruct (o_cancelled s); simplify_eq. split; [done|].
    apply with_loop_coherent; [done|]. unfold pending. by rewrite E.
  - destruct (o_loop s) eqn:E; simplify_eq. split; [done|]. apply with_loop_coherent; [done|]. unfold pending. by rewrite E.
  - simpl in Hd. destruct (o_loop s) as [| |pruned expired|] eqn:E; simplify_eq. apply bool_decide_eq_false in Hd. split; [done|].
    destruct Hco as (r0 & r & H1 & H2 & H3). exists r0, r. simpl. rewrite delete_all_keep by done. do 2 (split; [done|]).
    unfold pending in H3. rewrite E in H3. naive_solver.
  - destruct (o_loop s) as [| | |todo changed] eqn:E; try done. destruct (bool_decide (j ∈ todo)); [|done].
    destruct (rediscover j atts s) as [s1 b] eqn:Er. simplify_eq. by eapply rediscovered_coherent.
  - destruct (o_loop s) as [| | |todo changed] eqn:E; try done. destruct (_ && _); simplify_eq. split; [done|].
    apply with_loop_coherent; [done|]. unfold pending. by rewrite E.
  - destruct (o_loop s) as [| | |[|] changed] eqn:E; simplify_eq. destruct Hco as (r0 & r & H1 & H2 & H3).
    unfold pending in H3. rewrite E in H3. destruct changed; (split; [done|]); exists r0, r; simpl; (do 2 (split; [done|])).
    + left. apply elem_of_dom. by rewrite H1.
    + naive_solver.
Qed.

(** C36: No reader is left with an outdated outcome.  Take a transform that has read the outcome of an issuer and asks for no
    other issuer: at any point of any interleaving in which no pass dropped the entry of the issuer, the transform has the
    outcome that is cached, or is marked for recomputation, or a refresh pass that saw the change is going to mark it.  An issuer
    that the pass under way does not drop and that every later pass reads as live is never dropped; the excluded case is reachable
    ([prune_race_latches_failure]). *)
Theorem readers_coherent s evs s' c i r : reachable s → run evs s = Some s' →
  o_seen s !! c = Some (i, r) → o_cache s !! i = Some r → settled c s → Forall (reads_only c i) evs →
  (dropped i evs s = false →
   ∃ r0 r', o_seen s' !! c = Some (i, r0) ∧ o_cache s' !! i = Some r' ∧
     (c ∈ o_dirty s' ∨ pending s' ∨ sameOutcome r0 r' = true)) ∧
  (safe i s → Forall (keeps_live i) evs → dropped i evs s = false).
Proof.
  intros H Hrun Hs Hi Hse Hev. split; [|apply live_not_dropped]. intros Hd. apply reachable_ok in H.
  assert (coherent c i s) as Hco.
  { exists r, r. do 2 (split; [done|]). right. right. apply (reflexivity (R := λ a b, sameOutcome a b = true)). }
  assert (disc_ok s' ∧ settled c s' ∧ coherent c i s') as (_ & _ & Hc); [|exact Hc].
  revert Hrun. eapply (run_kept_ind _ (λ s, disc_ok s ∧ settled c s ∧ coherent c i s) i); [|exact Hev|done|done].
  intros e x x' Hr Hdr (Hok & Hst & Hc) Hstep. split; [by eapply step_ok|]. by eapply coherent_step.
Qed.

(** ** Recovery *)

Definition within_pass (e : event) : Prop := match e with Tick _ | EndPass | Cancel => False | _ => True end.

(** In a pass, the issuer is still to be discovered again. *)
Definition due (i : string) (s : State) : Prop :=
  o_cancelled s = false ∧
  match o_loop s with
  | Idle => False
  | Live live => i ∈ live ∧ ∃ r, o_cache s !! i = Some r ∧ (dr_expiry r < o_now s)%Z
  | Scanned pruned expired => i ∈ expired
  | Working todo _ => i ∈ todo
  end.

Lemma remove_one_elem i j l : j ∈ remove_one i l ↔ (j ∈ l ∧ j ≠ i).
Proof. unfold remove_one. rewrite list_elem_of_filter. naive_solver. Qed.

Lemma due_step e i s s' : disc_ok s → step e s = Some s' → within_pass e → due i s →
  due i s' ∨ ∃ atts, e = Rediscovered i atts.
Proof.
  intros Hok Hs Hw [Hca Hd]. unfold due. destruct e as [d|c' j|c'|j atts| |live| | |j atts|j|]; simpl in Hs; try done.
  - destruct (Z.ltb_spec d 0); simplify_eq. left. simpl. split; [done|]. destruct (o_loop s); try done.
    destruct Hd as (Hl & r & Hr & He). split; [done|]. exists r. split; [done|lia].
  - simplify_eq. destruct (load_core c' j s) as (-> & -> & -> & ->). auto.
  - destruct (enter_core _ _ _ Hs) as (-> & -> & -> & ->). auto.
  - destruct (land_core _ _ _ _ Hs) as (Hf & -> & -> & -> & ->). left. split; [done|]. destruct (o_loop s); try done.
    destruct Hd as (Hl & r & Hr & He). split; [done|]. exists r. split; [|done]. rewrite lookup_insert_ne; [done|].
    intros ->. by rewrite (do_flight s Hok i Hf) in Hr.
  - destruct (o_loop s); simplify_eq. left. split; [done|]. simpl. by apply to_refresh_elem.
  - destruct (o_loop s) as [| |pruned expired|]; simplify_eq. left. split; [done|]. simpl. by destruct expired; [apply elem_of_nil in Hd|].
  - destruct (o_loop s) as [| | |todo changed] eqn:E; try done. destruct (bool_decide (j ∈ todo)); [|done].
    destruct (rediscover j atts s) as [s1 b] eqn:Er. simplify_eq. destruct (decide (j = i)) as [->|]; [eauto|]. left.
    assert (o_cancelled s1 = o_cancelled s) as Hc1 by (apply rediscover_spec in Er as [[-> _]|(? & _ & -> & _)]; done).
    simpl. rewrite Hc1. split; [done|]. by apply remove_one_elem.
  - destruct (o_loop s); try done. by rewrite Hca in Hs.
Qed.

(** The first discovery of a due issuer. *)
Lemma due_split i mid s s' : disc_ok s → due i s → run mid s = Some s' → Forall within_pass mid → ¬ due i s' →
  ∃ m1 atts m2 s1, mid = m1 ++ Rediscovered i atts :: m2 ∧ run m1 s = Some s1 ∧ due i s1 ∧ (∀ a, Rediscovered i a ∉ m1).
Proof.
  revert s. induction mid as [|e mid IH]; intros s Hok Hd Hrun Hw Hn; simpl in Hrun; [by simplify_eq|].
  apply Forall_cons in Hw as [He Hw]. apply bind_Some in Hrun as (s1 & Hs & Hrun).
  assert ((∃ a, e = Rediscovered i a) ∨ ∀ a, e ≠ Rediscovered i a) as [(a & ->)|Hne].
  { destruct e as [| | | | | | | |j a| |]; try (right; by intros). destruct (decide (j = i)) as [->|]; [left; eauto|right; congruence]. }
  { exists [], a, mid, s. split_and!; [done..|]. intros a' Ha. by apply elem_of_nil in Ha. }
  destruct (due_step e i s s1 Hok Hs He Hd) as [Hd1|[a ->]]; [|by destruct (Hne a)].
  destruct (IH s1 (step_ok _ _ _ Hok Hs) Hd1 Hrun Hw Hn) as (m1 & atts & m2 & s2 & -> & Hr & Hd2 & Hm).
  exists (e :: m1), atts, m2, s2. split; [done|]. split; [simpl; by rewrite Hs|]. split; [done|].
  intros a. rewrite elem_of_cons. intros [<-|Ha]; [by apply (Hne a)|by apply (Hm a)].
Qed.

(** After the discovery: the outcome is cached and the pass will trigger. *)
Definition recovered (i : string) (r : oidcDiscoveryResult) (s : State) : Prop :=
  o_cache s !! i = Some r ∧ match o_loop s with Working todo changed => (i ∉ todo) ∧ changed = true | _ => False end.

Lemma recovered_step e i r s s' : disc_ok s → step e s = Some s' → within_pass e → recovered i r s → recovered i r s'.
Proof.
  intros Hok Hs Hw [Hc Hl]. unfold recovered.
  assert (safe i s) as Hsafe by (unfold safe; by destruct (o_loop s)).
  destruct (entry_step _ _ _ _ _ Hok Hs Hc (safe_kept e s i Hsafe)) as (r' & Hc' & Hr').
  destruct (o_loop s) as [| | |todo changed] eqn:E; try done. destruct Hl as [Hl ->].
  assert (r' = r) as ->.
  { destruct Hr' as [->|(a & -> & _)]; [done|]. simpl in Hs. rewrite E in Hs. by rewrite bool_decide_eq_false_2 in Hs. }
  split; [done|]. destruct e as [d|c' j|c'|j atts| |live| | |j atts|j|]; simpl in Hs; rewrite ?E in Hs; try done.
  - destruct (d <? 0)%Z; by simplify_eq.
  - simplify_eq. destruct (load_core c' j s) as (_ & -> & _). by rewrite E.
  - destruct (enter_core _ _ _ Hs) as (_ & -> & _). by rewrite E.
  - destruct (land_core _ _ _ _ Hs) as (_ & _ & -> & _). by rewrite E.
  - destruct (bool_decide (j ∈ todo)); [|done]. destruct (rediscover j atts s) as [s1 b]. simplify_eq. simpl.
    split; [|done]. rewrite remove_one_elem. naive_solver.
  - destruct (_ && _); simplify_eq. simpl. split; [|done]. rewrite remove_one_elem. naive_solver.
Qed.

(** The entry of an issuer until the pass discovers it again. *)
Lemma entry_until_discovered i r evs s s' : disc_ok s → safe i s → Forall (keeps_live i) evs →
  (∀ a, Rediscovered i a ∉ evs) → o_cache s !! i = Some r → run evs s = Some s' → disc_ok s' ∧ o_cache s' !! i = Some r.
Proof.
  intros Hok Hsafe Hk Hn Hi Hrun.
  assert (disc_ok s' ∧ safe i s' ∧ o_cache s' !! i = Some r) as (? & _ & ?); [|done].
  revert Hrun. apply (run_ind (λ e, keeps_live i e ∧ ∀ a, e ≠ Rediscovered i a) (λ s, disc_ok s ∧ safe i s ∧ o_cache s !! i = Some r)); [| |done].
  - intros e x x' [Hke Hne] (A & B & C) Hs. destruct (entry_step _ _ _ _ _ A Hs C (safe_kept e x i B)) as (r' & C' & [->|(a & -> & _)]).
    + split; [by eapply step_ok|]. split; [by eapply safe_step|done].
    + by destruct (Hne a).
  - apply Forall_forall. intros e He. split; [by eapply Forall_forall in Hk|]. intros a ->. by apply (Hn a).
Qed.

(** A refresh pass that begins after the expiry of the entry of a needed issuer does not end before the issuer was
    discovered again; when the entry was a failure and that discovery succeeds, the cache serves the configuration it returned
    and every reader is marked for recomputation at the end of the pass. *)
Theorem provider_recovers s live mid s' i r : reachable s → run (Tick live :: mid ++ [EndPass]) s = Some s' →
  Forall within_pass mid → i ∈ live → o_cache s !! i = Some r → (dr_expiry r < o_now s)%Z →
  ∃ atts, Rediscovered i atts ∈ mid ∧
    ∀ e cfg, dr_err r = Some e → discover atts = inr cfg →
      (∃ r', o_cache s' !! i = Some r' ∧ served r' = (cfg, None)) ∧ o_dirty s' = dom (o_seen s').
Proof.
  intros H Hrun Hw Hi Hr He. pose proof (reachable_urls s H) as [_ _ Hu]. apply reachable_ok in H.
  destruct (Hu i) as [u Hurl]; [by rewrite Hr|]. cbn [run] in Hrun. apply bind_Some in Hrun as (s1 & Ht & Hrun).
  rewrite run_app in Hrun. apply bind_Some in Hrun as (s2 & Hmid & Hend). simpl in Hend.
  assert (disc_ok s1) as H1 by (by eapply step_ok).
  assert (due i s1 ∧ o_cache s1 = o_cache s ∧ safe i s1) as (Hd & Hc1 & Hsafe).
  { simpl in Ht. destruct (o_loop s); try done. destruct (o_cancelled s) eqn:Ec; simplify_eq. split; [|done]. split; [done|]. simpl. eauto. }
  destruct (o_loop s2) as [| | |[|] changed] eqn:E2; try done.
  destruct (due_split i mid s1 s2 H1 Hd Hmid Hw) as (m1 & atts & m2 & s3 & -> & Hm1 & Hd3 & Hn).
  { intros [_ Hx]. rewrite E2 in Hx. by apply elem_of_nil in Hx. }
  exists atts. split; [set_solver|]. intros e cfg Herr Hdisc. apply Forall_app in Hw as [Hw1 [_ Hw2]%Forall_cons].
  rewrite run_app, Hm1 in Hmid. cbn [mbind option_bind run] in Hmid. apply bind_Some in Hmid as (s4 & H34 & Hm2).
  destruct (entry_until_discovered i r m1 s1 s3 H1 Hsafe) as [H3 Hc3]; [|done|by rewrite Hc1|done|].
  { eapply Forall_impl; [exact Hw1|]. by intros []. }
  assert (recovered i (refreshed s3 (inr cfg) r) s4) as Hrec.
  { destruct Hd3 as [Hca Hlo]. simpl in H34. destruct (o_loop s3) as [| | |todo ch]; try done.
    rewrite bool_decide_eq_true_2 in H34 by done. unfold rediscover in H34. rewrite Hurl, Hdisc, Hc3, Hca in H34.
    rewrite bool_decide_eq_false_2 in H34 by (by intros [? [=]]). simpl in H34. simplify_eq. unfold recovered. simpl.
    rewrite lookup_insert_eq, remove_one_elem. split; [done|]. split; [naive_solver|]. unfold sameOutcome. rewrite Herr. by rewrite orb_true_r. }
  assert (disc_ok s2 ∧ recovered i (refreshed s3 (inr cfg) r) s2) as [_ [Hc2 Hl2]].
  { revert Hm2. apply (run_ind within_pass (λ s, disc_ok s ∧ recovered i (refreshed s3 (inr cfg) r) s)); [|done|split; [by eapply step_ok|done]].
    intros e' x x' Hwe [A B] Hs. split; [by eapply step_ok|by eapply recovered_step]. }
  rewrite E2 in Hl2. destruct Hl2 as [_ ->]. simpl in Hend. simplify_eq. simpl. split; [|done]. by eexists.
Qed.
End discovery.

(** ** Witnesses *)

Definition ex_retry_error (l : list error) : error := EWrap "All attempts fail: " (EJoin l).
Definition ex_deadline : error := EMsg "context deadline exceeded".
Definition ex_parse_url (s : string) : error + string := inr s.
Abbreviation ex_run := (run ex_retry_error ex_deadline ex_parse_url).
Definition ex_document (token : string) : oidcProviderConfig := mkProviderConfig token "https://idp/authorize" None "https://idp/keys".
Definition ex_ok (token : string) : list Attempt := [Response 503 (inl (EMsg "")); Response 200 (inr (Some (ex_document token)))].
Definition ex_down : list Attempt := [Response 404 (inl (EMsg ""))].
Definition ex_issuer : string := "https://idp".
Definition ex_start : State := newOIDCProviderConfigDiscoverer 0.
Definition ex_state (evs : list event) : State := default ex_start (ex_run evs ex_start).

(** Two readers ask for an issuer whose provider is down. *)
Definition ex_first_reads : list event :=
  [Load 1 ex_issuer; Load 2 ex_issuer; Enter 2; Enter 1; Land ex_issuer ex_down].
(** A pass in which the provider answers; one reader reads during the pass. *)
Definition ex_pass (atts : list Attempt) : list event :=
  [Scan; Prune; Rediscovered ex_issuer atts; Load 2 ex_issuer].
Definition ex_full (live : gset string) (atts : list Attempt) : list event := Tick live :: ex_pass atts ++ [EndPass].

Lemma ex_reachable evs : is_Some (ex_run evs ex_start) → reachable ex_retry_error ex_deadline ex_parse_url (ex_state evs).
Proof. intros [s Hs]. exists evs, 0%Z. unfold ex_state. by rewrite Hs. Qed.

(** The waits of consecutive failures in seconds, with an [int64] at its limit of shifts. *)
Example backoff :
  map (λ n, (retry_ttl defaultOIDCFailureRetryInterval defaultOIDCCacheRefreshInterval n / second)%Z) [1; 2; 3; 4; 5; 6; 100]%Z =
  [30; 60; 120; 240; 300; 300; 300]%Z.
Proof. by vm_compute. Qed.

Lemma retries_bounded_witness :
  (∃ r, o_cache (ex_state ex_first_reads) !! ex_issuer = Some r ∧ dr_failures r = 1%Z) ∧
  ∀ r, o_cache (ex_state ex_first_reads) !! ex_issuer = Some r → (dr_expiry r <= 5 * minute)%Z.
Proof.
  split; [by eexists; vm_compute|]. intros r Hr.
  destruct (retries_bounded _ _ _ _ _ _ (ex_reachable ex_first_reads ltac:(by vm_compute; eauto)) Hr) as [H _]. exact H.
Defined.

Definition ex_cached : list event := [Load 1 ex_issuer; Enter 1; Land ex_issuer (ex_ok "t1"); Wait (6 * minute)].
Definition ex_outage : list event :=
  ex_full {[ex_issuer]} (ex_ok "t2") ++ Wait (10 * minute) :: ex_full {[ex_issuer]} ex_down.

(** The provider changes its configuration and is then down. *)
Lemma last_known_good_witness :
  ∃ r', o_cache (default ex_start (ex_run ex_outage (ex_state ex_cached))) !! ex_issuer = Some r' ∧ dr_err r' = None ∧
    dr_cfg r' = Some (ex_document "t2").
Proof.
  assert (reachable ex_retry_error ex_deadline ex_parse_url (ex_state ex_cached)) as H by (apply ex_reachable; by vm_compute; eauto).
  assert (ex_run ex_outage (ex_state ex_cached) = Some (default ex_start (ex_run ex_outage (ex_state ex_cached)))) as Hr by by vm_compute.
  destruct (last_known_good _ _ _ _ _ _ ex_issuer _ H Hr ltac:(by vm_compute) ltac:(by vm_compute)) as [Hk _].
  destruct (Hk ltac:(by vm_compute)) as (r' & Hc & He & Hl & _). exists r'. split; [exact Hc|]. split; [exact He|]. rewrite Hl. by vm_compute.
Defined.

Definition ex_reader_events : list event := ex_full {[ex_issuer]} (ex_ok "t1").

Lemma readers_coherent_witness :
  1%nat ∈ o_dirty (default ex_start (ex_run ex_reader_events (ex_state (ex_first_reads ++ [Wait minute])))) ∧
  ∃ r0 r', o_seen (default ex_start (ex_run ex_reader_events (ex_state (ex_first_reads ++ [Wait minute])))) !! 1%nat = Some (ex_issuer, r0) ∧
    o_cache (default ex_start (ex_run ex_reader_events (ex_state (ex_first_reads ++ [Wait minute])))) !! ex_issuer = Some r'.
Proof.
  split; [apply (bool_decide_unpack _); by vm_compute|].
  set (s := ex_state (ex_first_reads ++ [Wait minute])). set (s' := default ex_start (ex_run ex_reader_events s)).
  assert (reachable ex_retry_error ex_deadline ex_parse_url s) as H by (apply ex_reachable; by vm_compute; eauto).
  assert (ex_run ex_reader_events s = Some s') as Hr by by vm_compute.
  assert (Forall (reads_only 1 ex_issuer) ex_reader_events) as Hk.
  { unfold ex_reader_events, ex_full, ex_pass. simpl. repeat (apply Forall_cons_2; [first [exact I|cbn; by intros]|]). apply Forall_nil_2. }
  assert (settled 1 s) as Hs.
  { assert (o_missed s = ∅) as Hm by (vm_compute; reflexivity). assert (o_flights s = ∅) as Hf by (vm_compute; reflexivity). split; [by rewrite Hm|]. rewrite Hf. intros j w Hw. by rewrite lookup_empty in Hw. }
  destruct (readers_coherent _ _ _ s _ s' 1 ex_issuer _ H Hr ltac:(by vm_compute) ltac:(by vm_compute) Hs Hk) as [Hc _].
  destruct (Hc ltac:(by vm_compute)) as (r0 & r' & Ha & Hb & _).
  exists r0, r'. split; [exact Ha|exact Hb].
Defined.

Lemma provider_recovers_witness :
  ∃ atts, Rediscovered ex_issuer atts ∈ ex_pass (ex_ok "t1") ∧
    (discover ex_retry_error ex_deadline atts = inr (Some (ex_document "t1")) →
     o_dirty (default ex_start (ex_run ex_reader_events (ex_state (ex_first_reads ++ [Wait minute])))) =
       dom (o_seen (default ex_start (ex_run ex_reader_events (ex_state (ex_first_reads ++ [Wait minute])))))).
Proof.
  set (s := ex_state (ex_first_reads ++ [Wait minute])). set (s' := default ex_start (ex_run ex_reader_events s)).
  assert (reachable ex_retry_error ex_deadline ex_parse_url s) as H by (apply ex_reachable; by vm_compute; eauto).
  assert (ex_run (Tick {[ex_issuer]} :: ex_pass (ex_ok "t1") ++ [EndPass]) s = Some s') as Hr by by vm_compute.
  assert (Forall within_pass (ex_pass (ex_ok "t1"))) as Hw by by repeat constructor.
  assert (ex_issuer ∈ ({[ex_issuer]} : gset string)) as Hl by set_solver.
  destruct (provider_recovers _ _ _ s {[ex_issuer]} (ex_pass (ex_ok "t1")) s' ex_issuer _ H Hr Hw Hl ltac:(by vm_compute) ltac:(by vm_compute)) as (atts & Ha & Hc).
  exists atts. split; [exact Ha|]. intros Hd. eapply (proj2 (Hc _ _ ltac:(by vm_compute) Hd)).
Defined.

(** ** The live issuers are read before the cache *)

(** A failed issuer is cached and no longer needed when a pass reads the live issuers; an extension that needs it is then
    added and reads the failure, and the pass drops the entry. *)
Definition ex_prune_race : list event :=
  ex_first_reads ++ [Wait minute; Tick ∅; Load 3 ex_issuer; Scan; Prune].

(** The loop adds no entry: an issuer that is not cached stays so until a reader asks for it, and a reader that is not recomputed
    does not ask. *)
Lemma loop_never_caches retry_error context_error parse_url evs s s' i :
  Forall (λ e, match e with Load _ _ | Enter _ | Land _ _ => False | _ => True end) evs →
  run retry_error context_error parse_url evs s = Some s' → o_cache s !! i = None → o_cache s' !! i = None.
Proof.
  intros Ha Hr Hi. revert Hr. eapply (run_ind _ _ _ _ (λ s, o_cache s !! i = None)); [|exact Ha|done].
  clear. intros e s s' He Hi Hs. destruct e as [d|c j|c|j atts| |live| | |j atts|j|]; simpl in Hs; try done.
  - destruct (d <? 0)%Z; by simplify_eq.
  - by simplify_eq.
  - destruct (o_loop s); try done. destruct (o_cancelled s); by simplify_eq.
  - destruct (o_loop s); by simplify_eq.
  - destruct (o_loop s); simplify_eq. by apply delete_all_None.
  - destruct (o_loop s); try done. destruct (bool_decide _); [|done]. destruct (rediscover _ _ _ j atts s) as [s1 b] eqn:E. simplify_eq. simpl.
    apply rediscover_spec in E as [[-> _]|(prev & Hp & -> & _)]; [done|]. simpl. rewrite lookup_insert_ne; [done|]. congruence.
  - destruct (o_loop s); try done. destruct (_ && _); by simplify_eq.
  - destruct (o_loop s) as [| | |[|] []]; by simplify_eq.
Qed.

(** A failure that nothing retries: after the race the reader has the failure and is not marked, the loop is idle, and as long as
    no reader asks again the issuer is never discovered. *)
Theorem prune_race_latches_failure :
  let s := ex_state ex_prune_race in
  is_Some (o_seen s !! 3%nat ≫= λ x, dr_err x.2) ∧ (3%nat ∉ o_dirty s) ∧ o_loop s = Idle ∧
  ∀ evs s', Forall (λ e, match e with Load _ _ | Enter _ | Land _ _ => False | _ => True end) evs →
    ex_run evs s = Some s' → o_cache s' !! ex_issuer = None.
Proof.
  split; [by vm_compute; eauto|]. split; [apply (bool_decide_unpack _); by vm_compute|]. split; [by vm_compute|].
  intros evs s' Ha Hr. eapply loop_never_caches; [exact Ha|exact Hr|by vm_compute].
Qed.
