(* ===== verification/GatewayExtensions.v ===== *)
(** * Gateway extensions
      (plugins/trafficpolicy: gateway_extension.go, jwt.go, oauth2.go, constructor.go and the constructors of
      extauth_policy.go, extproc_policy.go, global_rate_limit_plugin.go; pkg/pluginsdk/utils/matchers.go)

    An extension names an external service (authorization, processing, rate limits), JWT providers or an OAuth2
    provider.  The builder resolves its backends, secrets and keys and makes the configuration of the filter that
    the pass of TrafficPolicyPass.v installs; a policy refers to an extension by name, and its constructors
    take the configuration of the extension and make the configuration of the route.

    Parameters are the libraries that parse keys, the order in which Go ranges over a map, and what the
    discoverer of OidcDiscovery.v returns.  Durations are in nanoseconds. *)

From S2P Require Import Prelude IR References Filters Hashing EnvoyRoute OidcDiscovery TrafficPolicyPass.

(** A computation that can panic ([None]) or fail. *)
Definition try_bind {A B} (m : option (error + A)) (k : A → option (error + B)) : option (error + B) :=
  match m with None => None | Some (inl e) => Some (inl e) | Some (inr a) => k a end.
Definition wrap_error {A} (prefix : string) (m : option (error + A)) : option (error + A) :=
  match m with Some (inl e) => Some (inl (EWrap prefix e)) | _ => m end.
Declare Scope try_scope.
Delimit Scope try_scope with try.
Notation "x <~ m ; k" := (try_bind m (λ x, k)) (at level 20, m at level 100, k at level 200) : try_scope.
Definition ok {A} (a : A) : option (error + A) := Some (inr a).
Definition fail {A} (e : error) : option (error + A) := Some (inl e).
#[local] Open Scope try_scope.

Definition uint32 (z : Z) : Z := (z mod 2 ^ 32)%Z.

(** ** The API *)

Record ExtSvcRetryPolicy := mkSvcRetry { sr_attempts : Z; sr_backoff : option (Z * option Z) }.
Record ExtGrpcService := mkGrpcSvc {
  gs_backend : BackendObjectReference; gs_authority : option string; gs_timeout : option Z; gs_retry : option ExtSvcRetryPolicy }.
Record AuthorizationResponse := mkAuthzResponse {
  ar_toBackend : list string; ar_toClient : list string; ar_onSuccess : list string }.
Record ExtHttpService := mkHttpSvc {
  hs_backend : BackendObjectReference; hs_pathPrefix : string; hs_timeout : option Z;
  hs_headersToAdd : option (gmap string string); hs_response : option AuthorizationResponse; hs_retry : option ExtSvcRetryPolicy }.
Record ExtAuthBufferSettings := mkBufferSettings { bs_max : Z; bs_partial : bool; bs_pack : bool }.
Record ExtAuthProvider := mkExtAuth {
  ea_grpc : option ExtGrpcService; ea_http : option ExtHttpService; ea_forward : list string; ea_failOpen : bool;
  ea_clearRouteCache : bool; ea_withBody : option ExtAuthBufferSettings; ea_statusOnError : Z; ea_statPrefix : option string }.

Record ProcessingMode := mkProcessingMode {
  pm_requestHeader : string; pm_responseHeader : string; pm_requestBody : string; pm_responseBody : string;
  pm_requestTrailer : string; pm_responseTrailer : string }.
Record ExtProcProvider := mkExtProc {
  ep_grpc : ExtGrpcService; ep_failOpen : bool; ep_mode : option ProcessingMode; ep_allowOverride : bool;
  ep_overrides : list (option ProcessingMode); ep_timeout : option Z; ep_maxTimeout : option Z; ep_statPrefix : option string;
  ep_routeCache : string; ep_metadata : option (option (list string * list string)); ep_attributes : list string;
  ep_stage : option StageSpec }.

Record RateLimitProvider := mkRateLimitProvider {
  rl_grpc : ExtGrpcService; rl_domain : string; rl_failOpen : bool; rl_timeout : Z; rl_headers : string }.

Record JWTClaimToHeader := mkClaim { jc_name : string; jc_header : string }.
Record RemoteJWKS := mkRemoteJWKS {
  rj_url : string; rj_backend : BackendObjectReference; rj_cache : option Z; rj_async : option (option bool * option Z);
  rj_retry : option (option Z * option (Z * option Z)); rj_timeout : option Z }.
Inductive LocalJWKS := Inline (key : string) | ConfigMapRef (name : string) | NoLocal.
Record JWKS := mkJWKS { jk_local : option LocalJWKS; jk_remote : option RemoteJWKS }.
Record JWTProvider := mkJWTProvider {
  jp_issuer : string; jp_audiences : list string; jp_header : option (string * option string); jp_query : option string;
  jp_claims : list JWTClaimToHeader; jp_jwks : JWKS; jp_forward : option bool; jp_skew : option Z;
  jp_cache : option (option Z * option Z) }.
Record JWT := mkJWT { jwt_providers : list (string * JWTProvider); jwt_mode : option string }.

Record JWTProcessing := mkJWTProcessing { jx_audiences : list string; jx_claims : list JWTClaimToHeader }.
Record OAuth2JWTConfig := mkOAuth2JWT {
  oj_jwksURI : option string; oj_backend : option BackendObjectReference; oj_access : option JWTProcessing; oj_id : option JWTProcessing }.
Record OAuth2CookieConfig := mkCookieConfig {
  oc_domain : option string; oc_access : option string; oc_id : option string; oc_sameSite : option string;
  oc_noAccess : option bool; oc_noId : option bool; oc_noRefresh : option bool }.
Record HTTPHeaderMatch := mkHeaderMatch { hm_type : option string; hm_name : string; hm_value : string }.
Record OAuth2Provider := mkOAuth2Provider {
  op_backend : BackendObjectReference; op_authorization : option string; op_token : option string; op_redirect : option string;
  op_logout : string; op_forward : option bool; op_scopes : list string; op_clientId : string; op_clientSecret : string;
  op_issuer : option string; op_endSession : option string; op_cookies : option OAuth2CookieConfig; op_jwt : option OAuth2JWTConfig;
  op_deny : option (list HTTPHeaderMatch) }.

(** [ir.GatewayExtension]. *)
Record GatewayExtension := mkGatewayExtension {
  gx_source : ObjectSource; gx_extAuth : option ExtAuthProvider; gx_extProc : option ExtProcProvider;
  gx_rateLimit : option RateLimitProvider; gx_jwt : option JWT; gx_oauth2 : option OAuth2Provider; gx_weight : Z }.

(** ** Messages of Envoy *)

Record RetryPolicy := mkRetryPolicy { rp_num : option Z; rp_backoff : option (Z * option Z) }.
Record GrpcService := mkGrpcService { g_cluster : string; g_authority : string; g_timeout : option Z; g_retry : option RetryPolicy }.
Record HttpUri := mkHttpUri { hu_uri : string; hu_cluster : string; hu_timeout : Z }.
Record HttpService := mkHttpService {
  h_uri : HttpUri; h_pathPrefix : string; h_retry : option RetryPolicy; h_headers : list (string * string);
  h_response : option (option (list string) * option (list string) * option (list string)) }.
Inductive ExtAuthzService := AuthzGrpc (s : GrpcService) | AuthzHttp (s : HttpService).

(** A test that the value of a key in a metadata namespace is not [true]. *)
Record DisableMatcher := mkDisableMatcher { dm_namespace : string; dm_key : string; dm_invert : bool }.

Record ExtAuthz := mkExtAuthz {
  z_service : ExtAuthzService; z_enabled : DisableMatcher; z_failureAllow : bool; z_clearRouteCache : bool; z_statusOnError : Z;
  z_body : option (Z * bool * bool); z_statPrefix : string; z_allowed : option (list string) }.

Inductive HeaderSendMode := DEFAULT | SEND | SKIP.
Inductive BodySendMode := BODY_NONE | STREAMED | BUFFERED | BUFFERED_PARTIAL | FULL_DUPLEX_STREAMED.
Inductive EnvoyProcessingMode :=
  mkEnvoyMode (requestHeader responseHeader : HeaderSendMode) (requestBody responseBody : BodySendMode) (requestTrailer responseTrailer : HeaderSendMode).
Inductive RouteCacheAction := RCA_DEFAULT | RCA_CLEAR | RCA_RETAIN.
Record ExternalProcessor := mkExternalProcessor {
  x_grpc : GrpcService; x_failureAllow : bool; x_routeCache : RouteCacheAction; x_allowOverride : bool; x_mode : option EnvoyProcessingMode;
  x_overrides : list EnvoyProcessingMode; x_timeout : option Z; x_maxTimeout : option Z; x_statPrefix : string;
  x_metadata : option (option (list string * list string)); x_attributes : list string }.

Record RateLimitFilter := mkRateLimitFilter {
  f_domain : string; f_failureDeny : bool; f_grpc : GrpcService; f_draft03 : bool; f_timeout : Z }.

Inductive JwksSource :=
| NoJwks
| LocalJwks (json : string)
| RemoteJwks (uri : HttpUri) (cache : option Z) (async : option (bool * option Z)) (retry : option RetryPolicy).
Record JwtProvider := mkJwtProvider {
  v_issuer : string; v_audiences : list string; v_payload : string; v_failedStatus : string; v_claims : list (string * string);
  v_forward : bool; v_clearRouteCache : bool; v_skew : Z; v_cache : option (Z * Z); v_headers : list (string * string);
  v_params : list string; v_cookies : list string; v_jwks : JwksSource }.
Inductive JwtRequirement :=
| RProvider (name : string)
| RAny (l : list JwtRequirement)
| RAll (l : list JwtRequirement)
| RAllowMissing
| RAllowMissingOrFailed.
Record JwtAuthentication := mkJwtAuthentication { ja_providers : gmap string JwtProvider; ja_requirements : gmap string JwtRequirement }.

Inductive SameSite := SAMESITE_DISABLED | LAX | STRICT | NONE.
Record CookieNames := mkCookieNames {
  cn_bearer : string; cn_id : string; cn_hmac : string; cn_expires : string; cn_refresh : string; cn_nonce : string; cn_verifier : string }.
Inductive HeaderMatcher := HeaderExact (name value : string) | HeaderRegex (name regex : string).
Record OAuth2Config := mkOAuth2Config {
  c_token : HttpUri; c_authorization : string; c_forward : bool; c_preserve : bool; c_scopes : list string; c_clientId : string;
  c_tokenSecret : string; c_hmacSecret : string; c_cookies : CookieNames; c_cookieDomain : string; c_redirectUri : string;
  c_redirectPath : string; c_signout : string; c_endSession : string; c_sameSite : option SameSite;
  c_noAccess : bool; c_noId : bool; c_noRefresh : bool; c_deny : list HeaderMatcher }.

Inductive RateLimitAction := GenericKey (key value : string) | RequestHeaders (header key : string) | RemoteAddress.

(** A message: filters, those that a composite filter runs unless they are disabled, and configurations of routes. *)
Inductive Proto :=
| PExtAuthz (c : ExtAuthz)
| PRateLimit (c : RateLimitFilter)
| PComposite (name : string) (enabled : DisableMatcher) (filter : Proto)
| PExtProc (c : ExternalProcessor)
| PJwt (c : JwtAuthentication)
| POAuth2 (c : OAuth2Config)
| PSecret (data : string)
| PExtAuthzRoute (body : option (Z * bool * bool)) (context : gmap string string)
| PExtProcRoute (mode : option EnvoyProcessingMode)
| PRequirement (name : string)
| PRateLimitRoute (actions : list RateLimitAction)
| PBufferRoute (limit : option Z).

(** ** Constants *)

Definition HTTPDefaultTimeout : Z := 2 * second.
Definition PayloadInMetadata : string := "payload".
Definition FailedStatusInMetadata : string := "failed_status".
Definition jwtConfigMapKey : string := "jwks".
Definition remoteJWKSTimeoutSecs : Z := 5.
Definition OauthAccessTokenCookiePrefix : string := "AccessToken".
Definition OauthIdTokenCookiePrefix : string := "IdToken".
Definition OauthRefreshTokenCookiePrefix : string := "RefreshToken".
Definition OauthHMACCookiePrefix : string := "OauthHMAC".
Definition OauthExpiresCookiePrefix : string := "OauthExpires".
Definition OauthNonceCookiePrefix : string := "OauthNonce".
Definition OauthCodeVerifierCookiePrefix : string := "OauthCodeVerifier".
Definition defaultRedictURI : string := "%REQ(x-forwarded-proto)%://%REQ(:authority)%/oauth2/redirect".
Definition clientSecretKey : string := "client-secret".
Definition defaultTokenEndpointTimeout : Z := 15 * second.
Definition oauthJWTAccessTokenProvider : string := "oauth2/accessToken".
Definition oauthJWTIDTokenProvider : string := "oauth2/idToken".
Definition OAuth2HMACSecretKey : string := "hmac-secret".
Definition GatewayExtensionGK : GroupKind := mkGK "gateway.kgateway.dev" "GatewayExtension".
Definition PolicyGK : GroupKind := mkGK "gateway.kgateway.dev" "TrafficPolicy".

(** [ExtAuthzEnabledMetadataMatcher]. *)
Definition ExtAuthzEnabledMetadataMatcher : DisableMatcher :=
  mkDisableMatcher ExtAuthGlobalDisableFilterMetadataNamespace globalFilterDisableMetadataKey true.

(** ** Services *)

Section build.
Context {P : Type} (backends : BackendIndex P) (secrets : SecretIndex).
(** The order of a [range] over a map. *)
Context (range : gmap string string → list (string * string)).

Definition buildExtSvcRetryPolicy (r : option ExtSvcRetryPolicy) : option RetryPolicy :=
  r ← r; Some (mkRetryPolicy (Some (uint32 (sr_attempts r))) (sr_backoff r)).

Definition buildStringListMatcher (headers : list string) : option (list string) :=
  match headers with [] => None | _ => Some headers end.

(** The cluster of the backend of a service. *)
Definition service_cluster (src : ObjectSource) (ref : BackendObjectReference) : option (error + string) :=
  backend <~ GetBackendFromRef backends src ref;
  if String.eqb (bo_cluster_name backend) "" then fail (EMsg "backend not found") else ok (bo_cluster_name backend).

Definition ResolveExtGrpcService (src : ObjectSource) (s : option ExtGrpcService) : option (error + GrpcService) :=
  match s with
  | None => fail (EMsg "grpcService not provided")
  | Some s =>
      cluster <~ service_cluster src (gs_backend s);
      ok (mkGrpcService cluster (default "" (gs_authority s)) (gs_timeout s) (buildExtSvcRetryPolicy (gs_retry s)))
  end.

Definition authz_response (ar : AuthorizationResponse) : option (option (list string) * option (list string) * option (list string)) :=
  match ar_toBackend ar, ar_toClient ar, ar_onSuccess ar with
  | [], [], [] => None
  | _, _, _ => Some (buildStringListMatcher (ar_toBackend ar), buildStringListMatcher (ar_toClient ar), buildStringListMatcher (ar_onSuccess ar))
  end.

Definition ResolveExtHttpService (src : ObjectSource) (s : option ExtHttpService) : option (error + HttpService) :=
  match s with
  | None => fail (EMsg "httpService not provided")
  | Some s =>
      cluster <~ service_cluster src (hs_backend s);
      ok (mkHttpService (mkHttpUri cluster cluster (default HTTPDefaultTimeout (hs_timeout s))) (hs_pathPrefix s)
            (buildExtSvcRetryPolicy (hs_retry s)) (default [] (range <$> hs_headersToAdd s)) (hs_response s ≫= authz_response))
  end.

(** ** External authorization, processing and rate limits *)

Definition buffer_settings (b : ExtAuthBufferSettings) : Z * bool * bool := (uint32 (bs_max b), bs_partial b, bs_pack b).

(** The branch of the builder for [ExtAuth]. *)
Definition build_ext_auth (src : ObjectSource) (a : ExtAuthProvider) : option (error + ExtAuthz) :=
  service <~ match ea_grpc a, ea_http a with
             | Some g, _ => s <~ wrap_error "failed to resolve ExtAuth gRPC backend: " (ResolveExtGrpcService src (Some g)); ok (AuthzGrpc s)
             | None, Some h => s <~ wrap_error "failed to resolve ExtAuth HTTP backend: " (ResolveExtHttpService src (Some h)); ok (AuthzHttp s)
             | None, None => fail (EMsg "either grpcService or httpService must be configured for ExtAuth")
             end;
  ok (mkExtAuthz service ExtAuthzEnabledMetadataMatcher (ea_failOpen a) (ea_clearRouteCache a) (ea_statusOnError a)
        (buffer_settings <$> ea_withBody a) (default "" (ea_statPrefix a)) (buildStringListMatcher (ea_forward a))).

Definition headerSendModeFromString (mode : string) : HeaderSendMode :=
  if String.eqb mode "SEND" then SEND else if String.eqb mode "SKIP" then SKIP else DEFAULT.
Definition bodySendModeFromString (mode : string) : BodySendMode :=
  if String.eqb mode "STREAMED" then STREAMED else if String.eqb mode "BUFFERED" then BUFFERED
  else if String.eqb mode "BUFFERED_PARTIAL" then BUFFERED_PARTIAL
  else if String.eqb mode "FULL_DUPLEX_STREAMED" then FULL_DUPLEX_STREAMED else BODY_NONE.
Definition toEnvoyProcessingMode (p : option ProcessingMode) : option EnvoyProcessingMode :=
  p ← p;
  Some (mkEnvoyMode (headerSendModeFromString (pm_requestHeader p)) (headerSendModeFromString (pm_responseHeader p))
          (bodySendModeFromString (pm_requestBody p)) (bodySendModeFromString (pm_responseBody p))
          (headerSendModeFromString (pm_requestTrailer p)) (headerSendModeFromString (pm_responseTrailer p))).
Definition convertRCA (s : string) : RouteCacheAction :=
  if String.eqb s "Clear" then RCA_CLEAR else if String.eqb s "Retain" then RCA_RETAIN else RCA_DEFAULT.

(** [buildCompositeFilter]: the inner filter runs when the key is not [true] in the namespace. *)
Definition buildCompositeFilter (compositeName metadataNamespace : string) (filter : Proto) : Proto :=
  PComposite compositeName (mkDisableMatcher metadataNamespace globalFilterDisableMetadataKey true) filter.

Definition buildCompositeExtProcFilter (x : ExtProcProvider) (g : GrpcService) : Proto :=
  buildCompositeFilter "composite_ext_proc" extProcGlobalDisableFilterMetadataNamespace
    (PExtProc (mkExternalProcessor g (ep_failOpen x) (convertRCA (ep_routeCache x)) (ep_allowOverride x)
       (toEnvoyProcessingMode (ep_mode x)) (omap toEnvoyProcessingMode (ep_overrides x)) (ep_timeout x) (ep_maxTimeout x)
       (default "" (ep_statPrefix x)) (ep_metadata x) (ep_attributes x))).

Definition convertXRL (s : string) : bool := String.eqb s "DraftVersion03".
Definition buildRateLimitFilter (g : GrpcService) (r : RateLimitProvider) : RateLimitFilter :=
  mkRateLimitFilter (rl_domain r) (negb (rl_failOpen r)) g (convertXRL (rl_headers r)) (rl_timeout r).

(** ** JWT providers *)

(** What the libraries return: a PEM block, a public key of a PKCS 1 or PKIX block, a key set and a key of a
    JSON text, the JSON text of a key set. *)
Inductive PublicKeyKind := RSA | ECDSA | Ed25519 | OtherKey.
Context {Bytes PublicKey JSONKey : Type}.
Inductive JSONWebKey := KeyOfPem (k : PublicKey) (algorithm use : string) | KeyOfJson (k : JSONKey).
Context (pem_Decode : string → option Bytes) (ParsePKCS1PublicKey ParsePKIXPublicKey : Bytes → error + PublicKey)
  (kind_of : PublicKey → PublicKeyKind) (unmarshalKeySet : string → error + list JSONKey) (unmarshalKey : string → error + JSONKey)
  (marshalKeySet : list JSONWebKey → error + string).

Definition parsePem (key : string) : error + list JSONWebKey :=
  match pem_Decode key with
  | None => inl (EMsg "no PEM block found")
  | Some block =>
      match (match ParsePKCS1PublicKey block with inr k => inr k | inl _ => ParsePKIXPublicKey block end) with
      | inl e => inl e
      | inr k =>
          match kind_of k with
          | RSA => inr [KeyOfPem k "RS256" "sig"]
          | ECDSA => inr [KeyOfPem k "ES256" "sig"]
          | Ed25519 => inr [KeyOfPem k "EdDSA" "sig"]
          | OtherKey => inl (EMsg "unsupported public key. only RSA, ECDSA, and Ed25519 public keys are supported in PEM format")
          end
      end
  end.

Definition TranslateKey (key : string) : error + list JSONWebKey :=
  match parsePem key with
  | inr ks => inr ks
  | inl e1 =>
      match (match unmarshalKeySet key with
             | inr [] => inl (EMsg "no keys in set")
             | inr ks => inr (map KeyOfJson ks)
             | inl e => inl e
             end) with
      | inr ks => inr ks
      | inl e2 =>
          match unmarshalKey key with
          | inr k => inr [KeyOfJson k]
          | inl e3 => inl (EWrap "cannot parse local jwks: " (EJoin [EJoin [EJoin [EWrap "PEM " e1]; EWrap "JWKS " e2]; EWrap "JWK " e3]))
          end
      end
  end.

Definition translateJwksInline (inlineKey : string) : error + JwksSource :=
  match TranslateKey inlineKey with
  | inl e => inl (EWrap "failed to parse inline jwks: " e)
  | inr ks =>
      match marshalKeySet ks with
      | inl e => inl (EWrap "failed to serialize inline jwks: " e)
      | inr json => inr (LocalJwks json)
      end
  end.

(** Config maps by name; [GetConfigMap] looks in the namespace of the extension. *)
Context (configMaps : list (NamespacedName * gmap string string)).
Definition GetConfigMap (cmName ns : string) : error + gmap string string :=
  match head (filter (λ x, x.1 = mkNN ns cmName) configMaps) with
  | None => inl (ENotFound (mkOS "" "ConfigMap" ns cmName))
  | Some x => inr x.2
  end.

Definition translateJwksConfigMap (data : gmap string string) : error + JwksSource :=
  match data !! jwtConfigMapKey with
  | None | Some EmptyString => inl (EMsg ("configmap key '" +:+ jwtConfigMapKey +:+ "' not found"))
  | Some key => translateJwksInline key
  end.

Definition translateJwksAsyncFetch (a : option bool * option Z) : bool * option Z := (default false a.1, a.2).
Definition translateJwksRetryPolicy (r : option Z * option (Z * option Z)) : RetryPolicy := mkRetryPolicy (uint32 <$> r.1) r.2.

Definition translateJwks (src : ObjectSource) (j : JWKS) : option (error + JwksSource) :=
  match jk_local j, jk_remote j with
  | Some (Inline key), _ => Some (translateJwksInline key)
  | Some (ConfigMapRef name), _ =>
      match GetConfigMap name (os_namespace src) with
      | inl e => fail (EWrap ("failed to find configmap " +:+ name +:+ ": ") e)
      | inr cm => Some (translateJwksConfigMap cm)
      end
  | Some NoLocal, _ | None, None => ok NoJwks
  | None, Some remote =>
      backend <~ wrap_error "remote jwks: unresolved backend ref: " (GetBackendFromRef backends src (rj_backend remote));
      ok (RemoteJwks (mkHttpUri (rj_url remote) (bo_cluster_name backend) (default (remoteJWKSTimeoutSecs * second)%Z (rj_timeout remote)))
            (rj_cache remote) (translateJwksAsyncFetch <$> rj_async remote) (translateJwksRetryPolicy <$> rj_retry remote))
  end.

Definition translateJWTClaimsToHeaders (l : list JWTClaimToHeader) : list (string * string) := map (λ c, (jc_name c, jc_header c)) l.

(** [translateProvider]; a clock skew is a whole number of seconds. *)
Definition translateProvider (src : ObjectSource) (p : JWTProvider) : option (error + JwtProvider) :=
  let claims := translateJWTClaimsToHeaders (jp_claims p) in
  jwks <~ translateJwks src (jp_jwks p);
  ok (mkJwtProvider (jp_issuer p) (jp_audiences p) PayloadInMetadata FailedStatusInMetadata claims (default false (jp_forward p))
        (negb (is_nil claims)) (default 0%Z ((λ d, uint32 (d / second)) <$> jp_skew p))
        ((λ c, (default 0%Z c.1, default 0%Z c.2)) <$> jp_cache p)
        (match jp_header p with Some (h, prefix) => [(h, default "" prefix)] | None => [] end)
        (match jp_query p with Some q => [q] | None => [] end) [] jwks).

Definition ProviderName (resourceName providerName : string) : string := resourceName +:+ "_" +:+ providerName.

Definition ValidationModeAllowMissing : string := "AllowMissing".
Definition ValidationModeAllowMissingOrFailed : string := "AllowMissingOrFailed".

(** [buildJwtRequirementFromProviders]. *)
Definition buildJwtRequirementFromProviders (providers : gmap string JwtProvider) (mode : option string) : JwtRequirement :=
  let reqs := map RProvider (sort_stable String.compare (map_to_list providers).*1) in
  let jwtReqs := match reqs with [r] => r | _ => RAny reqs end in
  match mode with
  | None => jwtReqs
  | Some m =>
      if String.eqb m ValidationModeAllowMissing then RAny [jwtReqs; RAllowMissing]
      else if String.eqb m ValidationModeAllowMissingOrFailed then RAny [jwtReqs; RAllowMissingOrFailed]
      else jwtReqs
  end.

Fixpoint translate_providers (src : ObjectSource) (extName : string) (l : list (string * JWTProvider)) (acc : gmap string JwtProvider) :
    option (error + gmap string JwtProvider) :=
  match l with
  | [] => ok acc
  | (name, p) :: l =>
      provider <~ translateProvider src p;
      translate_providers src extName l (<[ProviderName extName name := provider]> acc)
  end.

(** The name of an extension in the names of providers and requirements. *)
Definition ext_ref (name ns : string) : string := name +:+ "_" +:+ ns.

Definition resolveJwtProviders (src : ObjectSource) (jwt : JWT) : option (error + JwtAuthentication) :=
  let extName := ext_ref (os_name src) (os_namespace src) in
  providers <~ translate_providers src extName (jwt_providers jwt) ∅;
  ok (mkJwtAuthentication providers {[extName +:+ "_requirements" := buildJwtRequirementFromProviders providers (jwt_mode jwt)]}).

Definition buildCompositeJwtFilter (jwtConfig : JwtAuthentication) : Proto :=
  buildCompositeFilter "composite_jwt" jwtGlobalDisableFilterMetadataNamespace (PJwt jwtConfig).

(** ** OAuth2 providers *)

(** What the discoverer serves for an issuer, the namespace of the controller and how a reference is printed. *)
Context (openid_get : string → option oidcProviderConfig * option error) (podNamespace : string)
  (show_ref : BackendObjectReference → string).

Definition oidcDiscoveryRequired (p : option OAuth2Provider) : bool :=
  match p with
  | None => false
  | Some p =>
      match op_issuer p with
      | None => false
      | Some _ =>
          bool_decide (op_token p = None) || bool_decide (op_authorization p = None) || bool_decide (op_endSession p = None) ||
          match op_jwt p with Some j => bool_decide (oj_jwksURI j = None) | None => false end
      end
  end.

Definition oidcIssuerURIs (exts : list GatewayExtension) : list string :=
  omap (λ ext, if oidcDiscoveryRequired (gx_oauth2 ext) then gx_oauth2 ext ≫= op_issuer else None) exts.

Definition oauthClientSecretName (name namespace : string) : string := "oauth2/client_secret/" +:+ namespace +:+ "/" +:+ name.
Definition oauthHMACSecretName (name namespace : string) : string := "oauth2/hmac_secret/" +:+ namespace +:+ "/" +:+ name.

(** [strings.Cut]. *)
Fixpoint strip (p s : string) : option string :=
  match p, s with
  | EmptyString, _ => Some s
  | String a p, String b s => if Ascii.eqb a b then strip p s else None
  | _, _ => None
  end.
Fixpoint Cut (s sep : string) : option (string * string) :=
  match strip sep s with
  | Some rest => Some (EmptyString, rest)
  | None =>
      match s with
      | EmptyString => None
      | String a s => match Cut s sep with Some (before, after) => Some (String a before, after) | None => None end
      end
  end.

Definition parseRedirectPath (redirectURI : string) : error + string :=
  match Cut redirectURI "://" with
  | None => inl (EMsg ("invalid redirect URI: " +:+ redirectURI +:+ "; missing scheme"))
  | Some (_, hostAndPath) =>
      match Cut hostAndPath "/" with
      | None | Some (_, EmptyString) => inl (EMsg ("invalid redirect URI: " +:+ redirectURI +:+ "; missing path"))
      | Some (_, path) => inr ("/" +:+ path)
      end
  end.

(** [strconv.FormatUint] in base 16: no leading zeros. *)
Fixpoint drop_zeros (s : string) : string :=
  match s with
  | String "0" EmptyString => s
  | String "0" s' => drop_zeros s'
  | _ => s
  end.
Definition getCookieSuffix (src : ObjectSource) : string := drop_zeros (hex 16 (HashString (nn_string (os_nn src)))).

Definition ToEnvoyHeaderMatcher (h : HTTPHeaderMatch) : option (error + HeaderMatcher) :=
  t ← hm_type h;
  if String.eqb t "Exact" then ok (HeaderExact (hm_name h) (hm_value h))
  else if String.eqb t "RegularExpression" then ok (HeaderRegex (hm_name h) (hm_value h))
  else fail (EMsg ("unsupported header match type: " +:+ t)).
Fixpoint ToEnvoyHeaderMatchers (l : list HTTPHeaderMatch) : option (error + list HeaderMatcher) :=
  match l with
  | [] => ok []
  | h :: l => m <~ ToEnvoyHeaderMatcher h; ms <~ ToEnvoyHeaderMatchers l; ok (m :: ms)
  end.

(** Endpoints: token, authorization, end of session, keys.  What is configured wins over what is discovered. *)
Definition or_discovered (configured : option string) (discovered : string) : string :=
  let v := default "" configured in if String.eqb v "" then discovered else v.

Definition oauth2_endpoints (p : OAuth2Provider) : option (error + (string * string * string * string)) :=
  let jwks := op_jwt p ≫= oj_jwksURI in
  if oidcDiscoveryRequired (Some p) then
    match openid_get (default "" (op_issuer p)) with
    | (_, Some e) => fail e
    | (None, None) => None
    | (Some c, None) =>
        ok (or_discovered (op_token p) (pc_token c), or_discovered (op_authorization p) (pc_authorization c),
            or_discovered (op_endSession p) (default "" (pc_endSession c)), or_discovered jwks (pc_jwks c))
    end
  else ok (default "" (op_token p), default "" (op_authorization p), default "" (op_endSession p), default "" jwks).

Definition oauth2_jwks_backend (src : ObjectSource) (p : OAuth2Provider) (backend : BackendObjectIR P) :
    option (error + BackendObjectIR P) :=
  match op_jwt p ≫= oj_backend with
  | None => ok backend
  | Some ref => wrap_error ("error resolving JWKS backend " +:+ show_ref ref +:+ ": ") (GetBackendFromRef backends src ref)
  end.

(** A value that a secret must have. *)
Definition secret_value (missing : Secret → error) (key : string) (s : error + Secret) : option (error + (Secret * string)) :=
  match s with
  | inl e => fail e
  | inr s =>
      match sec_data s !! key with
      | None | Some EmptyString => fail (missing s)
      | Some v => ok (s, v)
      end
  end.

Definition client_secret (src : ObjectSource) (p : OAuth2Provider) : option (error + (Secret * string)) :=
  secret_value (λ s, EMsg (clientSecretKey +:+ " not found or empty in secret " +:+ os_resource_name (sec_source s) +:+
                           " referenced by GatewayExtension " +:+ os_resource_name src)) clientSecretKey
    (GetSecret secrets (mkFromRef GatewayExtensionGK (os_namespace src))
       (mkSecretRef None None (Some (os_namespace src)) (op_clientSecret p))).
Definition hmac_secret : option (error + (Secret * string)) :=
  secret_value (λ s, EMsg (OAuth2HMACSecretKey +:+ " not found or empty in secret " +:+ os_resource_name (sec_source s) +:+ " for OAuth2"))
    OAuth2HMACSecretKey (GetSecretWithoutRefGrant secrets "oauth2-hmac-secret" podNamespace).

Definition cookie_names (src : ObjectSource) (cookies : option OAuth2CookieConfig) : CookieNames :=
  let suffix := getCookieSuffix src in
  mkCookieNames (default (OauthAccessTokenCookiePrefix +:+ "-" +:+ suffix) (cookies ≫= oc_access))
    (default (OauthIdTokenCookiePrefix +:+ "-" +:+ suffix) (cookies ≫= oc_id))
    (OauthHMACCookiePrefix +:+ "-" +:+ suffix) (OauthExpiresCookiePrefix +:+ "-" +:+ suffix)
    (OauthRefreshTokenCookiePrefix +:+ "-" +:+ suffix) (OauthNonceCookiePrefix +:+ "-" +:+ suffix)
    (OauthCodeVerifierCookiePrefix +:+ "-" +:+ suffix).

Definition same_site (s : string) : SameSite :=
  if String.eqb s "Lax" then LAX else if String.eqb s "Strict" then STRICT else if String.eqb s "None" then NONE else SAMESITE_DISABLED.

(** A provider of [buildOAuth2JWTConfig]. *)
Definition token_provider (cookie payload : string) (jwks : JwksSource) (t : JWTProcessing) : JwtProvider :=
  let claims := translateJWTClaimsToHeaders (jx_claims t) in
  mkJwtProvider "" (jx_audiences t) payload "" claims false (negb (is_nil claims)) 0 None [] [] [cookie] jwks.

Definition buildOAuth2JWTConfig (src : ObjectSource) (jwt : option OAuth2JWTConfig) (jwksURI : string) (cookies : CookieNames)
    (jwksBackend : BackendObjectIR P) : error + option JwtAuthentication :=
  match jwt with
  | None | Some {| oj_access := None; oj_id := None |} => inr None
  | Some j =>
      if String.eqb jwksURI "" then
        inl (EMsg ("jwksURI not specified or not found in issuer well-known configuration. Required since JWT parsing is configured on GatewayExtension " +:+
                   nn_string (os_nn src)))
      else
        let jwks := RemoteJwks (mkHttpUri jwksURI (bo_cluster_name jwksBackend) (remoteJWKSTimeoutSecs * second)%Z) None None None in
        let tokens :=
          match oj_access j with
          | Some t => [(oauthJWTAccessTokenProvider, token_provider (cn_bearer cookies) "accessToken" jwks t)]
          | None => []
          end ++
          match oj_id j with
          | Some t => [(oauthJWTIDTokenProvider, token_provider (cn_id cookies) "idToken" jwks t)]
          | None => []
          end in
        let requirement := match tokens with [(name, _)] => RProvider name | _ => RAll (map (λ t, RProvider t.1) tokens) end in
        inr (Some (mkJwtAuthentication (list_to_map tokens) {[oauthJWTRequirementName := requirement]}))
  end.

(** [buildOAuth2ProviderConfig]. *)
Definition buildOAuth2ProviderConfig (src : ObjectSource) (p : OAuth2Provider) : option (error + oauthPerProviderConfig Proto) :=
  endpoints <~ oauth2_endpoints p;
  let '(token, authorization, endSession, jwksURI) := endpoints in
  if String.eqb token "" then fail (EMsg "oauth2 token endpoint not specified or not found in issuer well-known configuration")
  else if String.eqb authorization "" then
    fail (EMsg "oauth2 authorization endpoint not specified or not found in issuer well-known configuration")
  else
    backend <~ wrap_error ("error resolving oauth2 backend " +:+ show_ref (op_backend p) +:+ ": ") (GetBackendFromRef backends src (op_backend p));
    jwksBackend <~ oauth2_jwks_backend src p backend;
    cred <~ client_secret src p;
    hmac <~ hmac_secret;
    let redirectURI := default defaultRedictURI (op_redirect p) in
    redirectPath <~ wrap_error "invalid redirectURI: " (Some (parseRedirectPath redirectURI));
    let cookies := cookie_names src (op_cookies p) in
    let clientSecretName := oauthClientSecretName (op_clientSecret p) (os_namespace src) in
    let hmacSecretName := oauthHMACSecretName (os_name (sec_source hmac.1)) (os_namespace (sec_source hmac.1)) in
    deny <~ match op_deny p with
            | None => ok []
            | Some l => wrap_error "invalid deny redirect matcher: " (ToEnvoyHeaderMatchers l)
            end;
    jwtCfg <~ Some (buildOAuth2JWTConfig src (op_jwt p) jwksURI cookies jwksBackend);
    let flag f := default false (op_cookies p ≫= f) in
    ok (mkOAuthCfg
          (Some (POAuth2 (mkOAuth2Config (mkHttpUri token (bo_cluster_name backend) defaultTokenEndpointTimeout) authorization
             (default false (op_forward p)) (negb (default false (op_forward p))) (op_scopes p) (op_clientId p) clientSecretName
             hmacSecretName cookies (default "" (op_cookies p ≫= oc_domain)) redirectURI redirectPath (op_logout p) endSession
             (same_site <$> (op_cookies p ≫= oc_sameSite)) (flag oc_noAccess) (flag oc_noId) (flag oc_noRefresh) deny)))
          (PJwt <$> jwtCfg)
          [mkTlsSecret clientSecretName (PSecret cred.2); mkTlsSecret hmacSecretName (PSecret hmac.2)]).

(** ** The builder *)

Abbreviation Ext := (TrafficPolicyGatewayExtensionIR Proto).

(** [krt.Named.ResourceName]. *)
Definition ext_name (src : ObjectSource) : string := os_namespace src +:+ "/" +:+ os_name src.

Definition blank_ext (gx : GatewayExtension) : Ext := mkExt (ext_name (gx_source gx)) None None None None None (gx_weight gx) None None.
Definition failed_ext (gx : GatewayExtension) (e : error) : Ext :=
  mkExt (ext_name (gx_source gx)) None None None None None (gx_weight gx) None (Some e).

(** What a branch of the builder returns: the extension with its part, or with the error. *)
Definition finish {A} (gx : GatewayExtension) (m : option (error + A)) (part : A → Ext) : option Ext :=
  match m with None => None | Some (inl e) => Some (failed_ext gx e) | Some (inr a) => Some (part a) end.

(** [gatewayExtensionBuilder]. *)
Definition gatewayExtensionBuilder (gx : GatewayExtension) : option Ext :=
  let src := gx_source gx in
  let name := ext_name src in
  let w := gx_weight gx in
  match gx_extAuth gx, gx_extProc gx, gx_rateLimit gx, gx_jwt gx, gx_oauth2 gx with
  | Some a, _, _, _, _ =>
      finish gx (build_ext_auth src a) (λ c, mkExt name (Some (PExtAuthz c)) None None None None w None None)
  | None, Some x, _, _, _ =>
      finish gx (wrap_error "failed to resolve ExtProc backend: " (ResolveExtGrpcService src (Some (ep_grpc x))))
        (λ g, mkExt name None (Some (buildCompositeExtProcFilter x g)) None None None w (ep_stage x) None)
  | None, None, Some r, _, _ =>
      finish gx (wrap_error "ratelimit: " (ResolveExtGrpcService src (Some (rl_grpc r))))
        (λ g, mkExt name None None (Some (PRateLimit (buildRateLimitFilter g r))) None None w None None)
  | None, None, None, Some j, _ =>
      finish gx (wrap_error "jwt: " (resolveJwtProviders src j))
        (λ c, mkExt name None None None (Some (buildCompositeJwtFilter c)) None w None None)
  | None, None, None, None, Some o =>
      finish gx (wrap_error "error building OAuth2 config: " (buildOAuth2ProviderConfig src o))
        (λ c, mkExt name None None None None (Some c) w None None)
  | None, None, None, None, None => Some (blank_ext gx)
  end.

(** ** References of policies *)

Record NamespacedObjectReference := mkNsRef { nr_name : string; nr_namespace : option string }.

(** The translated extensions, with the object they come from, and the index of grants. *)
Context (extensions : list (NamespacedName * Ext)) (grants : RefGrantIndex).

Definition ref_namespace (ref : NamespacedObjectReference) (ns : string) : string :=
  let n := default "" (nr_namespace ref) in if String.eqb n "" then ns else n.

Definition FetchGatewayExtension (ref : NamespacedObjectReference) (ns : string) : error + Ext :=
  let namespace := ref_namespace ref ns in
  if bool_decide (rgi_mode grants = ReferenceGrantStrict) &&
     negb (ReferenceAllowed grants PolicyGK ns (mkOS (gk_group GatewayExtensionGK) (gk_kind GatewayExtensionGK) namespace (nr_name ref)))
  then inl (ESentinel ErrMissingReferenceGrant)
  else
    match head (filter (λ x, x.1 = mkNN namespace (nr_name ref)) extensions) with
    | None => inl (EWrap (nn_string (mkNN namespace (nr_name ref)) +:+ ": ") (EMsg "gateway extension not found"))
    | Some x => match ge_err x.2 with Some e => inl e | None => inr x.2 end
    end.

Definition ErrInvalidExtensionType (expected : string) : error := EMsg ("expected gatewayextension type " +:+ expected).

(** The extension of a policy, which must have the part [part]. *)
Definition fetch_part {A} (prefix expected : string) (part : Ext → option A) (ref : NamespacedObjectReference) (ns : string) :
    error + (Ext * A) :=
  match FetchGatewayExtension ref ns with
  | inl e => inl (EWrap prefix e)
  | inr ext => match part ext with None => inl (ErrInvalidExtensionType expected) | Some a => inr (ext, a) end
  end.

(** ** Constructors of the policies that refer to extensions *)

Record ExtAuthPolicy := mkExtAuthPolicy {
  xa_ref : option NamespacedObjectReference; xa_body : option ExtAuthBufferSettings; xa_context : gmap string string; xa_disable : bool }.

(** [proto.Size] of settings is zero when they have neither a body nor extensions. *)
Definition buildExtAuthPerRouteFilterConfig (p : ExtAuthPolicy) : option Proto :=
  match xa_body p with
  | None => if bool_decide (xa_context p = ∅) then None else Some (PExtAuthzRoute None (xa_context p))
  | Some b => Some (PExtAuthzRoute (Some (buffer_settings b)) (xa_context p))
  end.

(** Each constructor returns a panic, an error, or the part of the IR, which is [None] for an absent spec. *)
Definition constructExtAuth (ns : string) (spec : option ExtAuthPolicy) : option (error + option (extAuthIR Proto)) :=
  match spec with
  | None => ok None
  | Some p =>
      if xa_disable p then ok (Some (mkExtAuthIR [] true))
      else
        ref ← xa_ref p;
        x <~ Some (fetch_part "extauth: " "ExtAuth" ge_extAuth ref ns);
        ok (Some (mkExtAuthIR [mkExtAuthCfg (Some x.1) (buildExtAuthPerRouteFilterConfig p)] false))
  end.

Record ExtProcPolicy := mkExtProcPolicy {
  xp_ref : option NamespacedObjectReference; xp_mode : option ProcessingMode; xp_disable : bool }.

Definition translateExtProcPerFilterConfig (p : ExtProcPolicy) : Proto := PExtProcRoute (toEnvoyProcessingMode (xp_mode p)).

Definition constructExtProc (ns : string) (spec : option ExtProcPolicy) : option (error + option (extprocIR Proto)) :=
  match spec with
  | None => ok None
  | Some p =>
      if xp_disable p then ok (Some (mkExtProcIR [] true))
      else
        ref ← xp_ref p;
        x <~ Some (fetch_part "extproc: " "ExtProc" ge_extProc ref ns);
        ok (Some (mkExtProcIR [mkExtProcCfg (Some x.1) (translateExtProcPerFilterConfig p)
                                 (convertFilterStageSpec (ge_filterStage x.1) defaultExtProcFilterStage)] false))
  end.

Record JWTAuth := mkJWTAuth { xj_ref : option NamespacedObjectReference; xj_disable : bool }.

Definition translatePerRouteConfig (requirementsName : string) : Proto := PRequirement requirementsName.

Definition constructJwt (ns : string) (spec : option JWTAuth) : error + option (jwtIr Proto) :=
  match spec with
  | None => inr None
  | Some p =>
      if xj_disable p then inr (Some (mkJwtIr [] true))
      else
        match xj_ref p with
        | None => inl (EMsg "jwt: extensionRef is required if disable is not set")
        | Some ref =>
            match fetch_part "jwt: " "JWT" ge_jwt ref ns with
            | inl e => inl e
            | inr x =>
                inr (Some (mkJwtIr [mkJwtCfg (Some x.1)
                  (translatePerRouteConfig (ext_ref (nr_name ref) (ref_namespace ref ns) +:+ "_requirements"))] false))
            end
        end
  end.

Definition constructOAuth2 (ns : string) (spec : option NamespacedObjectReference) : error + option (oauthIR Proto) :=
  match spec with
  | None => inr None
  | Some ref =>
      match fetch_part "extauth: " "OAuth2" ge_oauth2 ref ns with
      | inl e => inl e
      | inr x => inr (Some (mkOAuthIR x.2 x.1))
      end
  end.

(** Buffering: a limit that does not fit [uint32] becomes the largest one. *)
Record BufferPolicy := mkBufferPolicy { xb_max : Z; xb_stage : option StageSpec; xb_disable : bool }.
Definition constructBuffer (spec : option BufferPolicy) : option (bufferIR Proto) :=
  p ← spec;
  Some (if xb_disable p then mkBufferIR (PBufferRoute None) None
        else mkBufferIR (PBufferRoute (Some (if ((xb_max p <? 0) || (maxUint32 <? xb_max p))%Z then maxUint32 else xb_max p)))
               (Some (convertFilterStageSpec (xb_stage p) defaultBufferFilterStage))).

(** Descriptors of global rate limits: type, generic key and value, header. *)
Record DescriptorEntry := mkEntry { de_type : string; de_generic : option (string * string); de_header : option string }.

Definition entry_action (e : DescriptorEntry) : error + RateLimitAction :=
  if String.eqb (de_type e) "Generic" then
    match de_generic e with None => inl (EMsg "generic entry requires Generic field to be set") | Some (k, v) => inr (GenericKey k v) end
  else if String.eqb (de_type e) "Header" then
    match de_header e with None => inl (EMsg "header entry requires Header field to be set") | Some h => inr (RequestHeaders h h) end
  else if String.eqb (de_type e) "RemoteAddress" then inr RemoteAddress
  else if String.eqb (de_type e) "Path" then inr (RequestHeaders ":path" "path")
  else inl (EMsg ("unsupported entry type: " +:+ de_type e)).

Fixpoint entry_actions (l : list DescriptorEntry) : error + list RateLimitAction :=
  match l with
  | [] => inr []
  | e :: l =>
      match entry_action e with
      | inl err => inl err
      | inr a => match entry_actions l with inl err => inl err | inr acts => inr (a :: acts) end
      end
  end.

Fixpoint descriptor_actions (l : list (list DescriptorEntry)) : error + list Proto :=
  match l with
  | [] => inr []
  | d :: l =>
      match entry_actions d with
      | inl err => inl err
      | inr acts =>
          match descriptor_actions l with
          | inl err => inl err
          | inr rest => inr (match acts with [] => rest | _ => PRateLimitRoute acts :: rest end)
          end
      end
  end.

Definition createRateLimitActions (descriptors : list (list DescriptorEntry)) : error + list Proto :=
  match descriptors with
  | [] => inl (EMsg "at least one descriptor is required for global rate limiting")
  | _ => descriptor_actions descriptors
  end.

Record GlobalRateLimit := mkGlobalRateLimit { xr_ref : NamespacedObjectReference; xr_descriptors : list (list DescriptorEntry) }.

Definition constructGlobalRateLimit (ns : string) (spec : option GlobalRateLimit) : error + option (globalRateLimitIR Proto) :=
  match spec with
  | None => inr None
  | Some p =>
      match createRateLimitActions (xr_descriptors p) with
      | inl e => inl (EWrap "failed to create rate limit actions: " e)
      | inr actions =>
          match fetch_part "ratelimit: " "RateLimit" ge_rateLimit (xr_ref p) ns with
          | inl e => inl e
          | inr x => inr (Some (mkGlobalRL x.1 actions))
          end
      end
  end.

(** ** The constructor of policies *)

(** The parts of a policy that refer to extensions, and buffering. *)
Record ExtensionPolicies := mkExtPolicies {
  ps_extProc : option ExtProcPolicy; ps_extAuth : option ExtAuthPolicy; ps_rateLimit : option GlobalRateLimit;
  ps_buffer : option BufferPolicy; ps_jwt : option JWTAuth; ps_oauth2 : option NamespacedObjectReference }.

(** A part that fails is left out and its error reported. *)
Definition part_of {A} (r : error + option A) : option A := match r with inl _ => None | inr a => a end.
Definition error_of {A} (r : error + option A) : list error := match r with inl e => [e] | inr _ => [] end.

(** What the other constructors make: their parts, and the errors of those that run before the ones of extensions
    (transformations), between them (headers, upgrades, access lists, RBAC, API keys) and after them (basic authentication). *)
Record OtherParts := mkOthers { o_spec : trafficPolicySpecIr Proto; o_before : list error; o_between : list error; o_after : list error }.

(** [ConstructIR]. *)
Definition ConstructIR (ns : string) (ps : ExtensionPolicies) (others : OtherParts) : option (trafficPolicySpecIr Proto * list error) :=
  let base := o_spec others in
  extProc ← constructExtProc ns (ps_extProc ps);
  extAuth ← constructExtAuth ns (ps_extAuth ps);
  let rateLimit := constructGlobalRateLimit ns (ps_rateLimit ps) in
  let jwt := constructJwt ns (ps_jwt ps) in
  let oauth2 := constructOAuth2 ns (ps_oauth2 ps) in
  Some (mkSpecIR (constructBuffer (ps_buffer ps)) (part_of extProc) (s_rustformation base) (part_of extAuth) (s_localRateLimit base)
          (part_of rateLimit) (s_cors base) (s_csrf base) (s_headerModifiers base) (s_requestMirror base) (s_autoHostRewrite base)
          (s_retry base) (s_timeouts base) (s_internalRedirect base) (s_rbac base) (part_of jwt) (s_compression base)
          (s_decompression base) (s_basicAuth base) (s_urlRewrite base) (s_apiKeyAuth base) (part_of oauth2) (s_tracing base)
          (s_faultInjection base) (s_httpACL base) (s_statPrefix base) (s_httpUpgrade base),
        o_before others ++ error_of extProc ++ error_of extAuth ++ error_of rateLimit ++ o_between others ++
        error_of jwt ++ error_of oauth2 ++ o_after others).

(** ** What the builder returns *)

Lemma try_bind_ok {A B} (m : option (error + A)) (k : A → option (error + B)) b :
  try_bind m k = ok b → ∃ a, m = ok a ∧ k a = ok b.
Proof. destruct m as [[e|a]|]; simpl; [done|eauto|done]. Qed.
Lemma wrap_error_ok {A} prefix (m : option (error + A)) a : wrap_error prefix m = ok a → m = ok a.
Proof. by destruct m as [[e|a']|]. Qed.
Lemma finish_ok {A} gx (m : option (error + A)) part e : finish gx m part = Some e → ge_err e = None → ∃ a, m = ok a ∧ e = part a.
Proof. destruct m as [[err|a]|]; simpl; intros ? ?; simplify_eq; eauto. Qed.
Lemma ok_inj {A} (a b : A) : ok a = ok b → a = b.
Proof. by intros [= ->]. Qed.

(** The parts of an extension that was built without an error, by its kind. *)
Inductive built_as (gx : GatewayExtension) : Ext → Prop :=
| BuiltAuth a c : gx_extAuth gx = Some a → build_ext_auth (gx_source gx) a = ok c →
    built_as gx (mkExt (ext_name (gx_source gx)) (Some (PExtAuthz c)) None None None None (gx_weight gx) None None)
| BuiltProc x g : gx_extProc gx = Some x → ResolveExtGrpcService (gx_source gx) (Some (ep_grpc x)) = ok g →
    built_as gx (mkExt (ext_name (gx_source gx)) None (Some (buildCompositeExtProcFilter x g)) None None None (gx_weight gx) (ep_stage x) None)
| BuiltLimit r g : gx_rateLimit gx = Some r → ResolveExtGrpcService (gx_source gx) (Some (rl_grpc r)) = ok g →
    built_as gx (mkExt (ext_name (gx_source gx)) None None (Some (PRateLimit (buildRateLimitFilter g r))) None None (gx_weight gx) None None)
| BuiltJwt j c : gx_jwt gx = Some j → resolveJwtProviders (gx_source gx) j = ok c →
    built_as gx (mkExt (ext_name (gx_source gx)) None None None (Some (buildCompositeJwtFilter c)) None (gx_weight gx) None None)
| BuiltOAuth2 o c : gx_oauth2 gx = Some o → buildOAuth2ProviderConfig (gx_source gx) o = ok c →
    built_as gx (mkExt (ext_name (gx_source gx)) None None None None (Some c) (gx_weight gx) None None)
| BuiltNothing : built_as gx (blank_ext gx).

Lemma builder_cases gx e : gatewayExtensionBuilder gx = Some e → ge_err e = None → built_as gx e.
Proof.
  unfold gatewayExtensionBuilder. destruct (gx_extAuth gx) as [a|] eqn:E1.
  { intros H He. apply finish_ok in H as (c & H & ->); [|done]. by eapply BuiltAuth. }
  destruct (gx_extProc gx) as [x|] eqn:E2.
  { intros H He. apply finish_ok in H as (c & H & ->); [|done]. apply wrap_error_ok in H. by apply BuiltProc. }
  destruct (gx_rateLimit gx) as [r|] eqn:E3.
  { intros H He. apply finish_ok in H as (c & H & ->); [|done]. apply wrap_error_ok in H. by apply BuiltLimit. }
  destruct (gx_jwt gx) as [j|] eqn:E4.
  { intros H He. apply finish_ok in H as (c & H & ->); [|done]. apply wrap_error_ok in H. by eapply BuiltJwt. }
  destruct (gx_oauth2 gx) as [o|] eqn:E5.
  { intros H He. apply finish_ok in H as (c & H & ->); [|done]. apply wrap_error_ok in H. by eapply BuiltOAuth2. }
  intros [= <-] _. constructor.
Qed.

(** ** References *)

(** The collection holds what the builder returns. *)
Definition collected : Prop :=
  ∀ nn e, (nn, e) ∈ extensions → ∃ gx, nn = os_nn (gx_source gx) ∧ gatewayExtensionBuilder gx = Some e.

Lemma fetch_spec ref ns e : FetchGatewayExtension ref ns = inr e →
  (mkNN (ref_namespace ref ns) (nr_name ref), e) ∈ extensions ∧ ge_err e = None ∧
  (rgi_mode grants = ReferenceGrantStrict →
   ReferenceAllowed grants PolicyGK ns (mkOS (gk_group GatewayExtensionGK) (gk_kind GatewayExtensionGK) (ref_namespace ref ns) (nr_name ref)) = true).
Proof.
  unfold FetchGatewayExtension. destruct (bool_decide_reflect (rgi_mode grants = ReferenceGrantStrict)) as [Hm|Hm];
    [destruct (ReferenceAllowed _ _ _ _) eqn:Ha; [|done]|]; simpl;
    (destruct (head (filter _ extensions)) as [[nn x]|] eqn:Hh; [|done]); simpl;
    (destruct (ge_err x) eqn:He; [done|]); intros [= <-]; apply head_Some_elem_of, list_elem_of_filter in Hh as [Hn Hin];
    simpl in Hn; subst nn; done.
Qed.

Lemma fetch_part_spec {A} prefix expected (part : Ext → option A) ref ns x : fetch_part prefix expected part ref ns = inr x →
  FetchGatewayExtension ref ns = inr x.1 ∧ part x.1 = Some x.2.
Proof.
  unfold fetch_part. destruct (FetchGatewayExtension ref ns) as [e|ext]; [done|]. destruct (part ext) as [a|] eqn:E; [|done]. by intros [= <-].
Qed.

Lemma fetched_built ref ns e : collected → FetchGatewayExtension ref ns = inr e →
  ∃ gx, os_nn (gx_source gx) = mkNN (ref_namespace ref ns) (nr_name ref) ∧ gatewayExtensionBuilder gx = Some e ∧ built_as gx e.
Proof.
  intros Hc Hf. apply fetch_spec in Hf as (Hin & He & _). destruct (Hc _ _ Hin) as (gx & Hn & Hb). exists gx. split; [done|]. split; [done|].
  by apply builder_cases.
Qed.

(** ** OAuth2 providers: properties *)

Lemma strip_spec p s r : strip p s = Some r → s = p +:+ r.
Proof.
  revert s. induction p as [|a p IH]; intros s; simpl; [by intros [= ->]|]. destruct s as [|b s]; [done|].
  destruct (Ascii.eqb_spec a b) as [<-|]; [|done]. intros H. by rewrite (IH _ H).
Qed.
Lemma Cut_spec s sep x y : Cut s sep = Some (x, y) → s = x +:+ sep +:+ y.
Proof.
  revert x y. induction s as [|a s IH]; intros x y; simpl.
  - destruct (strip sep "") as [r|] eqn:E; [|done]. intros [= <- <-]. by apply strip_spec in E.
  - destruct (strip sep (String a s)) as [r|] eqn:E; [intros [= <- <-]; by apply strip_spec in E|].
    destruct (Cut s sep) as [[u v]|]; [|done]. intros [= <- <-]. simpl. by rewrite (IH u v).
Qed.

(** The redirect path is the part of the redirect URI after the host, and is not just a slash. *)
Lemma redirect_path_spec uri path : parseRedirectPath uri = inr path →
  ∃ scheme host rest, uri = scheme +:+ "://" +:+ host +:+ path ∧ path = "/" +:+ rest ∧ rest ≠ "".
Proof.
  unfold parseRedirectPath. destruct (Cut uri "://") as [[scheme hp]|] eqn:E1; [|done].
  destruct (Cut hp "/") as [[host [|a rest]]|] eqn:E2; try done. intros [= <-]. apply Cut_spec in E1, E2. subst.
  by exists scheme, host, (String a rest).
Qed.

Lemma secret_value_ok missing key (s : error + Secret) x : secret_value missing key s = ok x →
  s = inr x.1 ∧ sec_data x.1 !! key = Some x.2 ∧ x.2 ≠ "".
Proof.
  unfold secret_value. destruct s as [e|s]; [done|]. destruct (sec_data s !! key) as [[|a v]|] eqn:E; try done.
  intros H. apply ok_inj in H. by subst x.
Qed.

(** Everything that a successful configuration went through. *)
Lemma oauth2_built src p c : buildOAuth2ProviderConfig src p = ok c →
  ∃ token authorization endSession jwksURI backend jwksBackend cred hmac path deny jwtCfg,
    oauth2_endpoints p = ok (token, authorization, endSession, jwksURI) ∧ token ≠ "" ∧ authorization ≠ "" ∧
    GetBackendFromRef backends src (op_backend p) = ok backend ∧ oauth2_jwks_backend src p backend = ok jwksBackend ∧
    client_secret src p = ok cred ∧ hmac_secret = ok hmac ∧
    parseRedirectPath (default defaultRedictURI (op_redirect p)) = inr path ∧
    buildOAuth2JWTConfig src (op_jwt p) jwksURI (cookie_names src (op_cookies p)) jwksBackend = inr jwtCfg ∧
    let clientSecretName := oauthClientSecretName (op_clientSecret p) (os_namespace src) in
    let hmacSecretName := oauthHMACSecretName (os_name (sec_source hmac.1)) (os_namespace (sec_source hmac.1)) in
    let flag f := default false (op_cookies p ≫= f) in
    c = mkOAuthCfg
          (Some (POAuth2 (mkOAuth2Config (mkHttpUri token (bo_cluster_name backend) defaultTokenEndpointTimeout) authorization
             (default false (op_forward p)) (negb (default false (op_forward p))) (op_scopes p) (op_clientId p) clientSecretName
             hmacSecretName (cookie_names src (op_cookies p)) (default "" (op_cookies p ≫= oc_domain)) (default defaultRedictURI (op_redirect p))
             path (op_logout p) endSession
             (same_site <$> (op_cookies p ≫= oc_sameSite)) (flag oc_noAccess) (flag oc_noId) (flag oc_noRefresh) deny)))
          (PJwt <$> jwtCfg)
          [mkTlsSecret clientSecretName (PSecret cred.2); mkTlsSecret hmacSecretName (PSecret hmac.2)].
Proof.
  unfold buildOAuth2ProviderConfig. intros ([[[token authz] es] jwks] & He & H)%try_bind_ok.
  destruct (String.eqb_spec token "") as [|Ht]; [done|]. destruct (String.eqb_spec authz "") as [|Ha]; [done|].
  apply try_bind_ok in H as (backend & Hb%wrap_error_ok & H). apply try_bind_ok in H as (jb & Hj & H).
  apply try_bind_ok in H as (cred & Hc & H). apply try_bind_ok in H as (hmac & Hh & H).
  apply try_bind_ok in H as (path & Hp%wrap_error_ok & H). apply try_bind_ok in H as (deny & _ & H).
  apply try_bind_ok in H as (jwtCfg & Hw & H). apply ok_inj in H as <-. injection Hp as Hp. injection Hw as Hw.
  exists token, authz, es, jwks, backend, jb, cred, hmac, path, deny, jwtCfg. done.
Qed.

(** ** Constructed policies *)

Lemma part_of_Some {A} (r : error + option A) a : part_of r = Some a → r = inr (Some a).
Proof. destruct r; [done|]. by intros <-. Qed.

Lemma converted_stage_ok c : stage_ok (Some (convertFilterStageSpec c defaultBufferFilterStage)).
Proof.
  intros x [= <-]. unfold convertFilterStageSpec. destruct c as [c|]; [|auto]. destruct (stage_named (fs_stage c)); [|auto].
  right. repeat case_match; simpl; lia.
Qed.

Lemma constructed_ext_auth ns p i x : constructExtAuth ns p = Some (inr (Some i)) → x ∈ ea_providers i →
  ext_ok extAuthPerProvider (pa_provider x).
Proof.
  destruct p as [p|]; [|done]. unfold constructExtAuth. destruct (xa_disable p).
  { intros [= <-] Hx. simpl in Hx. by apply elem_of_nil in Hx. }
  destruct (xa_ref p) as [ref|]; [|done]. simpl. destruct (fetch_part _ _ _ ref ns) as [err|[e c]] eqn:Hf; [done|].
  intros [= <-]. simpl. intros ->%list_elem_of_singleton. apply fetch_part_spec in Hf as [_ Hp]. simpl in *. by exists c.
Qed.
Lemma constructed_ext_proc ns p i x : constructExtProc ns p = Some (inr (Some i)) → x ∈ ep_providers i →
  ext_ok extProcPerProvider (pp_provider x).
Proof.
  destruct p as [p|]; [|done]. unfold constructExtProc. destruct (xp_disable p).
  { intros [= <-] Hx. simpl in Hx. by apply elem_of_nil in Hx. }
  destruct (xp_ref p) as [ref|]; [|done]. simpl. destruct (fetch_part _ _ _ ref ns) as [err|[e c]] eqn:Hf; [done|].
  intros [= <-]. simpl. intros ->%list_elem_of_singleton. apply fetch_part_spec in Hf as [_ Hp]. simpl in *. by exists c.
Qed.

(** The JWT part of a policy: the extension, and the requirement its route names. *)
Lemma constructed_jwt ns p i x : constructJwt ns p = inr (Some i) → x ∈ jw_providers i →
  ∃ q ref e c, p = Some q ∧ xj_ref q = Some ref ∧ FetchGatewayExtension ref ns = inr e ∧ ge_jwt e = Some c ∧ pj_provider x = Some e ∧
    pj_perRoute x = PRequirement (ext_ref (nr_name ref) (ref_namespace ref ns) +:+ "_requirements").
Proof.
  destruct p as [p|]; [|done]. unfold constructJwt. destruct (xj_disable p).
  { intros [= <-] Hx. simpl in Hx. by apply elem_of_nil in Hx. }
  destruct (xj_ref p) as [ref|] eqn:Href; [|done]. destruct (fetch_part _ _ _ ref ns) as [err|[e c]] eqn:Hf; [done|]. intros [= <-]. simpl.
  intros ->%list_elem_of_singleton. apply fetch_part_spec in Hf as [Hf Hp]. by exists p, ref, e, c.
Qed.

Lemma constructed_oauth2 ns ref o : collected → constructOAuth2 ns (Some ref) = inr (Some o) →
  ge_oauth2 (oi_source o) = Some (oi_config o) ∧ is_Some (oa_cfg (oi_config o)).
Proof.
  intros Hc. unfold constructOAuth2. destruct (fetch_part _ _ _ _ _) as [|[e c]] eqn:Hf; [done|]. intros [= <-]. simpl.
  apply fetch_part_spec in Hf as [Hf Hp]. simpl in *. split; [done|]. destruct (fetched_built _ _ _ Hc Hf) as (gx & _ & _ & Hb).
  inversion Hb as [| | | |o c' _ Hb'|]; subst; simpl in Hp; try done. simplify_eq.
  apply oauth2_built in Hb' as (t & a & es & jw & b & jb & cr & hm & pa & de & jc & H). destruct H as (_ & _ & _ & _ & _ & _ & _ & _ & _ & ->).
  by eexists.
Qed.

(** A part without an error is present. *)
Lemma no_error_present {A} (r : error + option A) : error_of r = [] → r ≠ inr None → is_Some (part_of r).
Proof. destruct r as [e|[a|]]; [done|by eexists|done]. Qed.
Lemma present_auth ns p r : constructExtAuth ns (Some p) = Some r → r ≠ inr None.
Proof. unfold constructExtAuth. destruct (xa_disable p); [by intros [= <-]|]. destruct (xa_ref p); [|done]. simpl. destruct (fetch_part _ _ _ _ _); by intros [= <-]. Qed.
Lemma present_proc ns p r : constructExtProc ns (Some p) = Some r → r ≠ inr None.
Proof. unfold constructExtProc. destruct (xp_disable p); [by intros [= <-]|]. destruct (xp_ref p); [|done]. simpl. destruct (fetch_part _ _ _ _ _); by intros [= <-]. Qed.

(** The intermediate representation of a policy meets what the translation pass relies on: every provider it names is an
    extension that exists and has the configuration of its kind, so that none of the filters the pass
    derives from it is missing; and when no error is reported every part that the policy asks for is there. *)
Theorem constructed_specs_complete ns ps others spec errs : collected →
  ConstructIR ns ps others = Some (spec, errs) →
  spec_ok spec ∧
  (errs = [] →
    (is_Some (ps_extAuth ps) → is_Some (s_extAuth spec)) ∧ (is_Some (ps_extProc ps) → is_Some (s_extProc spec)) ∧
    (is_Some (ps_rateLimit ps) → is_Some (s_globalRateLimit spec)) ∧ (is_Some (ps_jwt ps) → is_Some (s_jwt spec)) ∧
    (is_Some (ps_oauth2 ps) → is_Some (s_oauth2 spec))).
Proof.
  intros Hc. unfold ConstructIR. destruct (constructExtProc ns _) as [proc|] eqn:E1; [|done].
  destruct (constructExtAuth ns _) as [auth|] eqn:E2; [|done]. simpl. intros [= <- <-]. split.
  - split; simpl.
    + intros i p ->%part_of_Some. by eapply constructed_ext_auth.
    + intros i p ->%part_of_Some. by eapply constructed_ext_proc.
    + intros i p H%part_of_Some Hp. destruct (constructed_jwt _ _ _ _ H Hp) as (q & ref & e & c & _ & _ & _ & Hj & -> & _). by exists c.
    + intros g H%part_of_Some. unfold constructGlobalRateLimit in H. destruct (ps_rateLimit ps) as [r|]; [|done].
      destruct (createRateLimitActions _); [done|]. destruct (fetch_part _ _ _ _ _) as [|[e c]] eqn:Hf; [done|]. simplify_eq. simpl.
      apply fetch_part_spec in Hf as [_ Hp]. by exists c.
    + intros o H%part_of_Some. destruct (ps_oauth2 ps) as [ref|]; [|done]. by eapply constructed_oauth2.
    + intros b. unfold constructBuffer. destruct (ps_buffer ps) as [bp|]; [|done]. simpl. intros [= <-].
      destruct (xb_disable bp); simpl; [by intros ?|apply converted_stage_ok].
  - intros H. repeat match type of H with _ ++ _ = [] => apply app_eq_nil in H as [? H] end. simpl. split_and!; intros [x Hx]; apply no_error_present; try done; rewrite Hx in *.
    + by eapply present_auth.
    + by eapply present_proc.
    + unfold constructGlobalRateLimit. by repeat case_match.
    + unfold constructJwt. by repeat case_match.
    + unfold constructOAuth2. by repeat case_match.
Qed.

(** ** JWT requirements *)

(** How Envoy decides a requirement: [valid] are the providers that verified a token of the request, [missing] whether the
    request has no token at all. *)
Fixpoint satisfied (valid : string → bool) (missing : bool) (r : JwtRequirement) : bool :=
  match r with
  | RProvider n => valid n
  | RAny l => existsb (satisfied valid missing) l
  | RAll l => forallb (satisfied valid missing) l
  | RAllowMissing => missing
  | RAllowMissingOrFailed => true
  end.

Fixpoint providers_in (r : JwtRequirement) : list string :=
  match r with
  | RProvider n => [n]
  | RAny l | RAll l => flat_map providers_in l
  | _ => []
  end.

Definition strict_requirement (providers : gmap string JwtProvider) : JwtRequirement :=
  let reqs := map RProvider (sort_stable String.compare (map_to_list providers).*1) in match reqs with [r] => r | _ => RAny reqs end.

Lemma strict_satisfied providers valid missing : satisfied valid missing (strict_requirement providers) = true ↔
  ∃ n, is_Some (providers !! n) ∧ valid n = true.
Proof.
  assert (satisfied valid missing (strict_requirement providers) = existsb valid (sort_stable String.compare (map_to_list providers).*1)) as ->.
  { unfold strict_requirement. destruct (sort_stable _ _) as [|x [|y l]]; simpl; [done|by rewrite orb_false_r|]. do 2 f_equal.
    induction l as [|z l IH]; simpl; [done|by rewrite IH]. }
  rewrite existsb_exists. split.
  - intros (n & Hn & Hv). exists n. split; [|done]. apply list_elem_of_In, sort_stable_elem_of, list_elem_of_fmap in Hn as ([k p] & -> & Hkp).
    apply elem_of_map_to_list in Hkp. by exists p.
  - intros (n & [p Hp] & Hv). exists n. split; [|done]. apply list_elem_of_In, sort_stable_elem_of, list_elem_of_fmap.
    exists (n, p). split; [done|]. by apply elem_of_map_to_list.
Qed.

Lemma strict_providers providers n : n ∈ providers_in (strict_requirement providers) → is_Some (providers !! n).
Proof.
  assert (∀ l, flat_map providers_in (map RProvider l) = l) as Hf by (intros l; induction l as [|x l IH]; simpl; congruence).
  intros H. assert (n ∈ sort_stable String.compare (map_to_list providers).*1) as Hn.
  { unfold strict_requirement in H. specialize (Hf (sort_stable String.compare (map_to_list providers).*1)).
    destruct (sort_stable _ _) as [|x [|y l]]; simpl in *; [done|done|]. by rewrite <- Hf. }
  apply sort_stable_elem_of, list_elem_of_fmap in Hn as ([k p] & -> & Hkp). apply elem_of_map_to_list in Hkp. by exists p.
Qed.

Lemma requirement_spec providers mode valid missing :
  satisfied valid missing (buildJwtRequirementFromProviders providers mode) = true ↔
  (∃ n, is_Some (providers !! n) ∧ valid n = true) ∨ (mode = Some ValidationModeAllowMissing ∧ missing = true) ∨
  mode = Some ValidationModeAllowMissingOrFailed.
Proof.
  rewrite <- (strict_satisfied providers valid missing). unfold buildJwtRequirementFromProviders. fold (strict_requirement providers).
  destruct mode as [m|]; [|naive_solver].
  destruct (String.eqb_spec m ValidationModeAllowMissing) as [->|H1]; simpl.
  { rewrite orb_false_r, orb_true_iff. split; [|intros [?|[[_ ?]|[=]]]; auto]. intros [?|?]; auto. }
  destruct (String.eqb_spec m ValidationModeAllowMissingOrFailed) as [->|H2]; simpl; [rewrite orb_true_r; split; auto|].
  split; [auto|]. intros [?|[[[= ->] _]|[= ->]]]; done.
Qed.

Lemma requirement_providers providers mode n : n ∈ providers_in (buildJwtRequirementFromProviders providers mode) → is_Some (providers !! n).
Proof.
  unfold buildJwtRequirementFromProviders. fold (strict_requirement providers). destruct mode as [m|]; [|apply strict_providers].
  repeat case_match; simpl; rewrite ?app_nil_r; apply strict_providers.
Qed.

(** Every provider of the extension is translated under its name. *)
Lemma translated_providers src extName l acc out : translate_providers src extName l acc = ok out →
  ∀ n, is_Some (out !! n) ↔ is_Some (acc !! n) ∨ ∃ x, x ∈ l ∧ n = ProviderName extName x.1.
Proof.
  revert acc. induction l as [|[name p] l IH]; intros acc H n; simpl in H.
  { apply ok_inj in H as ->. split; [auto|]. intros [?|(x & Hx%elem_of_nil & _)]; done. }
  apply try_bind_ok in H as (provider & _ & H). rewrite (IH _ H n), lookup_insert_is_Some'. setoid_rewrite elem_of_cons. naive_solver.
Qed.

(** C33: A JWT policy that is accepted takes effect as the extension that it refers to says: the route names a requirement that the filter of the
    extension defines, every provider of that requirement is one the filter has, and a request passes exactly when a
    provider of the extension verified its token, or, by the validation mode, when it has no token or in any case. *)
Theorem jwt_policy_enforced ns p i x : collected → constructJwt ns p = inr (Some i) → x ∈ jw_providers i →
  ∃ q ref gx j e c n r,
    p = Some q ∧ xj_ref q = Some ref ∧ os_nn (gx_source gx) = mkNN (ref_namespace ref ns) (nr_name ref) ∧ gx_jwt gx = Some j ∧
    gatewayExtensionBuilder gx = Some e ∧ pj_provider x = Some e ∧ pj_perRoute x = PRequirement n ∧
    ge_jwt e = Some (buildCompositeJwtFilter c) ∧ ja_requirements c !! n = Some r ∧
    (∀ q, q ∈ providers_in r → is_Some (ja_providers c !! q)) ∧
    ∀ valid missing, satisfied valid missing r = true ↔
      (∃ q, q ∈ jwt_providers j ∧ valid (ProviderName (ext_ref (os_name (gx_source gx)) (os_namespace (gx_source gx))) q.1) = true) ∨
      (jwt_mode j = Some ValidationModeAllowMissing ∧ missing = true) ∨ jwt_mode j = Some ValidationModeAllowMissingOrFailed.
Proof.
  intros Hc H Hx. destruct (constructed_jwt _ _ _ _ H Hx) as (q & ref & e & f & Hq & Href & Hf & Hj & Hp & Hr).
  destruct (fetched_built _ _ _ Hc Hf) as (gx & Hn & Hg & Hb). inversion Hb as [| | |j c Hgx Hres| |]; subst; simpl in Hj; try done.
  unfold resolveJwtProviders in Hres. apply try_bind_ok in Hres as (ps & Hps & Hres). apply ok_inj in Hres as <-.
  set (extName := ext_ref (os_name (gx_source gx)) (os_namespace (gx_source gx))) in *.
  assert (ext_ref (nr_name ref) (ref_namespace ref ns) = extName) as Hext by (unfold os_nn in Hn; injection Hn as Hn1 Hn2; unfold extName; congruence).
  exists q, ref, gx, j. eexists _, _, _, (buildJwtRequirementFromProviders ps (jwt_mode j)).
  do 4 (split; [done|]). split; [exact Hg|]. split; [exact Hp|]. split; [exact Hr|]. split; [done|]. split; [simpl; by rewrite Hext, lookup_singleton_eq|]. split; [apply requirement_providers|].
  intros valid missing. rewrite requirement_spec. setoid_rewrite (translated_providers _ _ _ _ _ Hps). setoid_rewrite lookup_empty.
  split; intros [Hl|Hl]; auto; left.
  - destruct Hl as (n & [[? [=]]|(y & Hy & ->)] & Hv). eauto.
  - destruct Hl as (y & Hy & Hv). eauto 10.
Qed.

(** ** Disabling all providers *)

(** Metadata of a request: the keys that are [true], by namespace. *)
Definition matches (m : DisableMatcher) (meta : gset (string * string)) : bool :=
  xorb (bool_decide ((dm_namespace m, dm_key m) ∈ meta)) (dm_invert m).

(** Whether a filter acts on a request. *)
Definition acts (p : Proto) (meta : gset (string * string)) : bool :=
  match p with PExtAuthz c => matches (z_enabled c) meta | PComposite _ m _ => matches m meta | _ => true end.

(** What a filter of the pass writes to the metadata. *)
Definition metadata_of {Cfg} (m : FilterMsg Cfg) : gset (string * string) :=
  match m with FSetMetadata ns key => {[(ns, key)]} | _ => ∅ end.

(** The filters of an extension act on a request unless the filter with which a route disables their kind wrote its
    metadata, and then they do not: the namespaces and keys of the two sides agree for external authorization, external
    processing and JWTs. *)
Theorem disabled_kinds_switched_off gx e meta : gatewayExtensionBuilder gx = Some e →
  (∀ c, ge_extAuth e = Some c →
     acts c meta = bool_decide ((ExtAuthGlobalDisableFilterMetadataNamespace, globalFilterDisableMetadataKey) ∉ meta) ∧
     acts c (metadata_of (Cfg := Proto) (FSetMetadata ExtAuthGlobalDisableFilterMetadataNamespace globalFilterDisableMetadataKey) ∪ meta) = false) ∧
  (∀ c, ge_extProc e = Some c →
     acts c meta = bool_decide ((extProcGlobalDisableFilterMetadataNamespace, globalFilterDisableMetadataKey) ∉ meta) ∧
     acts c (metadata_of (Cfg := Proto) (FSetMetadata extProcGlobalDisableFilterMetadataNamespace globalFilterDisableMetadataKey) ∪ meta) = false) ∧
  (∀ c, ge_jwt e = Some c →
     acts c meta = bool_decide ((jwtGlobalDisableFilterMetadataNamespace, globalFilterDisableMetadataKey) ∉ meta) ∧
     acts c (metadata_of (Cfg := Proto) (FSetMetadata jwtGlobalDisableFilterMetadataNamespace globalFilterDisableMetadataKey) ∪ meta) = false).
Proof.
  assert (∀ ns key, matches (mkDisableMatcher ns key true) meta = bool_decide ((ns, key) ∉ meta) ∧
            matches (mkDisableMatcher ns key true) ({[(ns, key)]} ∪ meta) = false) as Hm.
  { intros ns key. unfold matches. simpl. split; [by case_bool_decide; case_bool_decide|]. rewrite bool_decide_eq_true_2 by set_solver. done. }
  intros H. destruct (ge_err e) eqn:He.
  { unfold gatewayExtensionBuilder, finish in H. repeat case_match; simplify_eq; simpl; split_and!; by intros. }
  pose proof (builder_cases gx e H He) as Hb. inversion Hb; subst; simpl; split_and!; intros ? [= <-]; try apply Hm.
  match goal with H : build_ext_auth _ _ = _ |- _ => unfold build_ext_auth in H; apply try_bind_ok in H as (? & _ & <-%ok_inj) end. apply Hm.
Qed.

(** ** What a configuration of OAuth2 has *)

Lemma endpoints_spec p t a es j : oauth2_endpoints p = ok (t, a, es, j) →
  (∀ v, op_token p = Some v → v ≠ "" → t = v) ∧ (∀ v, op_authorization p = Some v → v ≠ "" → a = v) ∧
  (∀ v, op_endSession p = Some v → v ≠ "" → es = v) ∧ (∀ v, (op_jwt p ≫= oj_jwksURI) = Some v → v ≠ "" → j = v).
Proof.
  assert (∀ o d v, o = Some v → v ≠ "" → or_discovered o d = v) as Hd.
  { intros o d v -> Hv. unfold or_discovered. simpl. by destruct (String.eqb_spec v ""). }
  unfold oauth2_endpoints. destruct (oidcDiscoveryRequired (Some p)).
  - destruct (openid_get _) as [[c|] [err|]]; try done. intros H%ok_inj. simplify_eq. split_and!; intros v; apply Hd.
  - intros H%ok_inj. simplify_eq. split_and!; by intros v -> _.
Qed.

Lemma oauth2_jwt_spec src j jwks cookies jb jc t : buildOAuth2JWTConfig src (Some j) jwks cookies jb = inr jc →
  oj_access j = Some t ∨ oj_id j = Some t → ∃ a r,
    jc = Some a ∧ ja_requirements a !! oauthJWTRequirementName = Some r ∧
    (∀ valid missing, satisfied valid missing r = true ↔
       (is_Some (oj_access j) → valid oauthJWTAccessTokenProvider = true) ∧ (is_Some (oj_id j) → valid oauthJWTIDTokenProvider = true)) ∧
    (is_Some (oj_access j) → v_cookies <$> (ja_providers a !! oauthJWTAccessTokenProvider) = Some [cn_bearer cookies]) ∧
    (is_Some (oj_id j) → v_cookies <$> (ja_providers a !! oauthJWTIDTokenProvider) = Some [cn_id cookies]).
Proof.
  intros H Ht. unfold buildOAuth2JWTConfig in H.
  destruct j as [uri ref [ta|] [ti|]]; cbn [oj_access oj_id] in *; [| | |by destruct Ht];
    (destruct (String.eqb jwks ""); [done|]); injection H as <-; eexists _, _; (split; [reflexivity|]); (split; [reflexivity|]); (split; [|split]).
  - intros valid missing. cbn. rewrite andb_true_r, andb_true_iff. split; [by intros [? ?]|]. intros [A B]. split; [apply A|apply B]; by eexists.
  - by intros _.
  - by intros _.
  - intros valid missing. cbn. split; [intros ?; split; [done|by intros [? [=]]]|]. intros [A _]. apply A. by eexists.
  - by intros _.
  - by intros [? [=]].
  - intros valid missing. cbn. split; [intros ?; split; [by intros [? [=]]|done]|]. intros [_ B]. apply B. by eexists.
  - by intros [? [=]].
  - by intros _.
Qed.

(** An OAuth2 provider that is accepted is usable: it has a token and an authorization endpoint, which are the ones configured when
    they are; its redirect path is the path of the redirect URI; the secrets that the filter names are delivered with
    it, and the client secret is one of the namespace of the extension; tokens are verified, when the extension asks for
    it, from the cookies under which the filter stores them and by a requirement of all the tokens it names. *)
Theorem oauth2_provider_sound src o c : buildOAuth2ProviderConfig src o = ok c →
  ∃ f, oa_cfg c = Some (POAuth2 f) ∧
    hu_uri (c_token f) ≠ "" ∧ c_authorization f ≠ "" ∧
    (∀ v, op_token o = Some v → v ≠ "" → hu_uri (c_token f) = v) ∧
    (∀ v, op_authorization o = Some v → v ≠ "" → c_authorization f = v) ∧
    (∃ scheme host rest, c_redirectUri f = scheme +:+ "://" +:+ host +:+ c_redirectPath f ∧ c_redirectPath f = "/" +:+ rest ∧ rest ≠ "") ∧
    (∀ n, n = c_tokenSecret f ∨ n = c_hmacSecret f → n ∈ map ts_name (oa_secrets c)) ∧
    (∃ s v, GetSecret secrets (mkFromRef GatewayExtensionGK (os_namespace src))
              (mkSecretRef None None (Some (os_namespace src)) (op_clientSecret o)) = inr s ∧
            sec_data s !! clientSecretKey = Some v ∧ v ≠ "" ∧ mkTlsSecret (c_tokenSecret f) (PSecret v) ∈ oa_secrets c) ∧
    (∀ j t, op_jwt o = Some j → oj_access j = Some t ∨ oj_id j = Some t → ∃ a r,
       oa_jwtCfg c = Some (PJwt a) ∧ ja_requirements a !! oauthJWTRequirementName = Some r ∧
       (∀ valid missing, satisfied valid missing r = true ↔
          (is_Some (oj_access j) → valid oauthJWTAccessTokenProvider = true) ∧ (is_Some (oj_id j) → valid oauthJWTIDTokenProvider = true)) ∧
       (is_Some (oj_access j) → v_cookies <$> (ja_providers a !! oauthJWTAccessTokenProvider) = Some [cn_bearer (c_cookies f)]) ∧
       (is_Some (oj_id j) → v_cookies <$> (ja_providers a !! oauthJWTIDTokenProvider) = Some [cn_id (c_cookies f)])).
Proof.
  intros Hb. apply oauth2_built in Hb as (tok & auth & es & jwks & b & jb & cred & hmac & path & deny & jc & He & Ht & Ha & _ & _ & Hcr & _ & Hp & Hj & ->).
  destruct (endpoints_spec _ _ _ _ _ He) as (Ht' & Ha' & _ & _). apply secret_value_ok in Hcr as (Hs & Hd & Hv).
  eexists. split; [done|]. simpl. split; [done|]. split; [done|]. split; [done|]. split; [done|]. split; [by apply redirect_path_spec|].
  split; [intros n [->| ->]; [left|right; left]|]. split; [exists cred.1, cred.2; split_and!; [done..|left]|].
  intros j t Hjo Htok. rewrite Hjo in Hj. destruct (oauth2_jwt_spec _ _ _ _ _ _ _ Hj Htok) as (a & r & -> & Hr). by exists a, r.
Qed.

(** A reference to an extension of another namespace needs a grant in strict mode. *)
Lemma extension_reference_granted ref ns e : rgi_mode grants = ReferenceGrantStrict → FetchGatewayExtension ref ns = inr e →
  ref_namespace ref ns ≠ ns → ref_namespace ref ns ≠ "" →
  ∃ g, g ∈ rgi_grants grants ∧
    grant_permits g PolicyGK ns (mkOS (gk_group GatewayExtensionGK) (gk_kind GatewayExtensionGK) (ref_namespace ref ns) (nr_name ref)).
Proof.
  intros Hm Hf Hne He. apply fetch_spec in Hf as (_ & _ & Ha). specialize (Ha Hm). apply ReferenceAllowed_spec in Ha.
  destruct Ha as [H|[H|[[H _]|H]]]; simpl in *; [congruence|congruence|congruence|done].
Qed.
End build.

(** ** Validation *)

Section validate.
(** The generated validators of messages. *)
Context (ValidateAll : Proto → option error).

Definition validate_opt (p : option Proto) : option error := p ≫= ValidateAll.

(** The first error of a list of checks. *)
Fixpoint first_error (l : list (option error)) : option error :=
  match l with [] => None | Some e :: _ => Some e | None :: l => first_error l end.

(** [TrafficPolicyGatewayExtensionIR.Validate]. *)
Definition ext_Validate (e : TrafficPolicyGatewayExtensionIR Proto) : option error :=
  match ge_err e with
  | Some _ => None
  | None => first_error [validate_opt (ge_extAuth e); validate_opt (ge_extProc e); validate_opt (ge_rateLimit e); validate_opt (ge_jwt e)]
  end.

(** [extprocIR.Validate]: every provider. *)
Definition extproc_Validate (i : option (extprocIR Proto)) : option error :=
  i ← i;
  first_error (flat_map (λ p, [ValidateAll (pp_perRoute p); pp_provider p ≫= ext_Validate]) (ep_providers i)).

(** [extAuthIR.Validate]: it returns at the first provider. *)
Fixpoint extauth_loop (l : list (perProviderExtAuthConfig Proto)) : option error :=
  match l with
  | [] => None
  | p :: l =>
      match validate_opt (pa_perRoute p), pa_provider p with
      | Some e, _ => Some e
      | None, Some ext => ext_Validate ext
      | None, None => extauth_loop l
      end
  end.
Definition extauth_Validate (i : option (extAuthIR Proto)) : option error := i ← i; extauth_loop (ea_providers i).

(** Providers after the first are not validated for external authorization, unlike for external processing. *)
Theorem later_authz_providers_unvalidated ext ext' route' rest disable : ext_Validate ext = None →
  extauth_Validate (Some (mkExtAuthIR (mkExtAuthCfg (Some ext) None :: mkExtAuthCfg (Some ext') route' :: rest) disable)) = None.
Proof. intros H. simpl. exact H. Qed.

Lemma extproc_validates_all ext ext' st st' r r' e disable :
  ValidateAll r = None → ext_Validate ext = None → ValidateAll r' = None → ext_Validate ext' = Some e →
  extproc_Validate (Some (mkExtProcIR [mkExtProcCfg (Some ext) r st; mkExtProcCfg (Some ext') r' st'] disable)) = Some e.
Proof. intros H1 H2 H3 H4. unfold extproc_Validate. simpl. by rewrite H1, H2, H3, H4. Qed.
End validate.

(** ** The discoverer is read for live issuers *)

Section live.
Context {P Bytes PublicKey JSONKey : Type} (backends : BackendIndex P) (secrets : SecretIndex)
  (range : gmap string string → list (string * string))
  (pem_Decode : string → option Bytes) (ParsePKCS1PublicKey ParsePKIXPublicKey : Bytes → error + PublicKey)
  (kind_of : PublicKey → PublicKeyKind) (unmarshalKeySet : string → error + list JSONKey) (unmarshalKey : string → error + JSONKey)
  (marshalKeySet : list (@JSONWebKey PublicKey JSONKey) → error + string)
  (configMaps : list (NamespacedName * gmap string string)) (podNamespace : string) (show_ref : BackendObjectReference → string).

Abbreviation builder get range := (gatewayExtensionBuilder backends secrets range pem_Decode ParsePKCS1PublicKey ParsePKIXPublicKey kind_of
  unmarshalKeySet unmarshalKey marshalKeySet configMaps get podNamespace show_ref).

Lemma endpoints_live get get' p : (oidcDiscoveryRequired (Some p) = true → ∀ i, op_issuer p = Some i → get i = get' i) →
  oauth2_endpoints get p = oauth2_endpoints get' p.
Proof.
  intros H. unfold oauth2_endpoints. destruct (oidcDiscoveryRequired (Some p)) eqn:E; [|done].
  destruct (op_issuer p) as [i|] eqn:Ei; [|simpl in E; by rewrite Ei in E]. simpl. by rewrite (H eq_refl i).
Qed.

(** What an extension becomes depends on the discoverer only at the issuers that the refresh loop keeps: two discoverers that
    agree on the issuers of the extensions that rely on discovery make the same of every extension, and an extension
    that needs no discovery does not read the discoverer at all. *)
Theorem discovery_reads_live_issuers get get' exts : (∀ i, i ∈ oidcIssuerURIs exts → get i = get' i) →
  map (builder get range) exts = map (builder get' range) exts.
Proof.
  intros H. apply map_ext_in. intros gx Hgx. rewrite <- list_elem_of_In in Hgx. unfold gatewayExtensionBuilder.
  destruct (gx_extAuth gx), (gx_extProc gx), (gx_rateLimit gx), (gx_jwt gx); try done.
  destruct (gx_oauth2 gx) as [o|] eqn:Eo; [|done]. unfold buildOAuth2ProviderConfig. rewrite (endpoints_live get get' o); [done|].
  intros Hr i Hi. apply H. unfold oidcIssuerURIs. apply list_elem_of_omap. exists gx. split; [done|]. rewrite Eo, Hr. done.
Qed.

(** A discovery document that is [null] is decoded as no configuration without an error, and an extension that needs it
    makes the builder panic. *)
Theorem null_document_panics get gx o i retry_error context_error : discover retry_error context_error [Response 200 (inr None)] = inr None ∧
  (gx_extAuth gx = None → gx_extProc gx = None → gx_rateLimit gx = None → gx_jwt gx = None → gx_oauth2 gx = Some o →
   op_issuer o = Some i → op_token o = None → get i = (None, None) → builder get range gx = None).
Proof.
  split; [done|]. intros E1 E2 E3 E4 E5 Ei Et Hg. unfold gatewayExtensionBuilder. rewrite E1, E2, E3, E4, E5.
  assert (oauth2_endpoints get o = None) as He.
  { unfold oauth2_endpoints, oidcDiscoveryRequired. rewrite Ei, Et. simpl. by rewrite Hg. }
  unfold buildOAuth2ProviderConfig. by rewrite He.
Qed.
End live.

(** The order of a Go map reaches the configuration: the headers that are added to the request of an HTTP authorization
    service are those of one range, another range gives another message. *)
Theorem header_order_reaches_config {P} (backends : BackendIndex P) src cluster s m range range' : service_cluster backends src (hs_backend s) = ok cluster →
  hs_headersToAdd s = Some m → range m ≠ range' m →
  ResolveExtHttpService backends range src (Some s) ≠ ResolveExtHttpService backends range' src (Some s).
Proof. intros Hc Hm Hr. unfold ResolveExtHttpService. rewrite Hc, Hm. simpl. by intros [= ?]. Qed.

(** The error of an OAuth2 policy is reported as one of external authorization. *)
Theorem oauth2_error_prefix extensions grants ns ref e : FetchGatewayExtension extensions grants ref ns = inl e →
  constructOAuth2 extensions grants ns (Some ref) = inl (EWrap "extauth: " e).
Proof. intros H. unfold constructOAuth2, fetch_part. by rewrite H. Qed.

(** ** Witnesses *)

(** One service, the secrets of a provider, and a library that reads every key as a set of one key. *)
Definition ex_idp_backends : BackendIndex unit :=
  mkBI {[ mkGK "" "Service" := [NewBackendObjectIR (P := unit) (mkOS "" "Service" "infra" "idp") 443 "" ""] ]} ∅ (mkRGI [] ReferenceGrantStrict).
Definition ex_idp_secrets : SecretIndex :=
  mkSI {[ mkGK "" "Secret" := [mkSecret (mkOS "" "Secret" "infra" "client") None {[ "client-secret" := "s3cret" ]};
                               mkSecret (mkOS "" "Secret" "kgateway" "oauth2-hmac-secret") None {[ "hmac-secret" := "key" ]}] ]} (mkRGI [] ReferenceGrantStrict).
Definition ex_ref : BackendObjectReference := mkBOR None None "idp" None (Some 443%Z).
Definition ex_extension (name : string) (auth : option ExtAuthProvider) (j : option JWT) (o : option OAuth2Provider) : GatewayExtension :=
  mkGatewayExtension (mkOS "gateway.kgateway.dev" "GatewayExtension" "infra" name) auth None None j o 0.
Definition ex_jwt : JWT :=
  mkJWT [("p", mkJWTProvider "https://issuer" [] None None [] (mkJWKS (Some (Inline "k")) None) None None None)] (Some "AllowMissing").
Definition ex_oauth : OAuth2Provider :=
  mkOAuth2Provider ex_ref None (Some "https://issuer/token") None "/logout" None [] "id" "client" (Some "https://issuer") None None
    (Some (mkOAuth2JWT None None None (Some (mkJWTProcessing [] [])))) None.
Definition ex_auth : ExtAuthProvider := mkExtAuth (Some (mkGrpcSvc ex_ref None None None)) None [] false false None 403 None.
Definition ex_get (issuer : string) : option oidcProviderConfig * option error :=
  (Some (mkProviderConfig "" "https://issuer/auth" None "https://issuer/jwks"), None).

Abbreviation ex_libs f :=
  (f (λ _ : string, None : option nat) (λ _ : nat, inl (EMsg "") : error + nat) (λ _ : nat, inl (EMsg "") : error + nat)
     (λ _ : nat, RSA) (λ _ : string, inr [7] : error + list nat) (λ _ : string, inl (EMsg "") : error + nat)
     (λ _ : list (JSONWebKey (PublicKey := nat) (JSONKey := nat)), inr "{}" : error + string) [] ex_get "kgateway" (λ r, bor_name r)) (only parsing).
Definition ex_builder : GatewayExtension → option (TrafficPolicyGatewayExtensionIR Proto) :=
  ex_libs (gatewayExtensionBuilder ex_idp_backends ex_idp_secrets (λ _, [])).
Definition ex_built (gx : GatewayExtension) : TrafficPolicyGatewayExtensionIR Proto := default (blank_ext gx) (ex_builder gx).
Definition ex_gxs : list GatewayExtension :=
  [ex_extension "auth" (Some ex_auth) None None; ex_extension "jwt" None (Some ex_jwt) None; ex_extension "sso" None None (Some ex_oauth)].
Definition ex_extensions : list (NamespacedName * TrafficPolicyGatewayExtensionIR Proto) :=
  map (λ gx, (os_nn (gx_source gx), ex_built gx)) ex_gxs.
Definition ex_collected : Prop := ex_libs (collected ex_idp_backends ex_idp_secrets (λ _, [])) ex_extensions.

Lemma ex_collected_holds : ex_collected.
Proof.
  unfold ex_collected, collected. intros nn e H. unfold ex_extensions in H. apply list_elem_of_In, in_map_iff in H as (gx & [= <- <-] & Hin).
  exists gx. split; [reflexivity|]. repeat destruct Hin as [<-|Hin]; [vm_compute; reflexivity..|destruct Hin].
Qed.
Definition ex_nsref (n : string) : NamespacedObjectReference := mkNsRef n None.
Definition ex_policy_grants : RefGrantIndex := mkRGI [] ReferenceGrantStrict.
Definition ex_policies : ExtensionPolicies :=
  mkExtPolicies None (Some (mkExtAuthPolicy (Some (ex_nsref "auth")) None ∅ false)) None None (Some (mkJWTAuth (Some (ex_nsref "jwt")) false))
    (Some (ex_nsref "sso")).
Definition ex_constructed : option (trafficPolicySpecIr Proto * list error) :=
  ConstructIR ex_extensions ex_policy_grants "infra" ex_policies (mkOthers zeroSpecIR [] [] []).
Definition ex_spec : trafficPolicySpecIr Proto := default zeroSpecIR (fst <$> ex_constructed).

Lemma constructed_specs_complete_witness : spec_ok ex_spec ∧ is_Some (s_extAuth ex_spec) ∧ is_Some (s_jwt ex_spec) ∧ is_Some (s_oauth2 ex_spec).
Proof.
  destruct (constructed_specs_complete _ _ _ _ _ _ _ _ _ _ _ _ _ _ ex_extensions ex_policy_grants "infra" ex_policies (mkOthers zeroSpecIR [] [] []) ex_spec [] ex_collected_holds)
    as [H H'].
  { vm_compute. reflexivity. }
  destruct (H' eq_refl) as (H1 & _ & _ & H2 & H3).
  split; [exact H|]. split; [apply H1; eexists; reflexivity|]. split; [apply H2; eexists; reflexivity|apply H3; eexists; reflexivity].
Defined.

Definition ex_jwt_ir : jwtIr Proto := default (mkJwtIr [] true) (s_jwt ex_spec).
Definition ex_jwt_cfg : perProviderJwtConfig Proto := default (mkJwtCfg None (PRequirement "")) (head (jw_providers ex_jwt_ir)).

(** The route of a policy that refers to an extension which lets requests without a token pass. *)
Lemma jwt_policy_enforced_witness : ∃ gx n c r,
  os_nn (gx_source gx) = mkNN "infra" "jwt" ∧ pj_perRoute ex_jwt_cfg = PRequirement n ∧
  (pj_provider ex_jwt_cfg ≫= ge_jwt) = Some (buildCompositeJwtFilter c) ∧ ja_requirements c !! n = Some r.
Proof.
  destruct (jwt_policy_enforced _ _ _ _ _ _ _ _ _ _ _ _ _ _ ex_extensions ex_policy_grants "infra"
    (Some (mkJWTAuth (Some (ex_nsref "jwt")) false)) ex_jwt_ir ex_jwt_cfg ex_collected_holds)
    as (q & ref & gx & j & e & c & n & r & Hq & Href & Hn & _ & _ & He & Hr & Hj & Hl & _).
  { vm_compute. reflexivity. }
  { assert (jw_providers ex_jwt_ir = [ex_jwt_cfg]) as -> by (vm_compute; reflexivity). apply list_elem_of_singleton. reflexivity. }
  exists gx, n, c, r. injection Hq as <-. injection Href as <-. split; [exact Hn|]. split; [exact Hr|]. split; [rewrite He; exact Hj|exact Hl].
Defined.

Lemma disabled_kinds_switched_off_witness :
  ∀ c, ge_extAuth (ex_built (ex_extension "auth" (Some ex_auth) None None)) = Some c → acts c ∅ = true.
Proof.
  intros c Hc. destruct (disabled_kinds_switched_off ex_idp_backends ex_idp_secrets (λ _, []) (λ _ : string, None : option nat)
    (λ _ : nat, inl (EMsg "") : error + nat) (λ _ : nat, inl (EMsg "") : error + nat)
    (λ _ : nat, RSA) (λ _ : string, inr [7] : error + list nat) (λ _ : string, inl (EMsg "") : error + nat)
    (λ _ : list (JSONWebKey (PublicKey := nat) (JSONKey := nat)), inr "{}" : error + string) [] ex_get "kgateway" (λ r, bor_name r)
    (ex_extension "auth" (Some ex_auth) None None) (ex_built (ex_extension "auth" (Some ex_auth) None None)) ∅) as [H _].
  { vm_compute. reflexivity. }
  destruct (H c Hc) as [Ha _]. rewrite Ha. reflexivity.
Defined.

Definition ex_oauth_src : ObjectSource := mkOS "gateway.kgateway.dev" "GatewayExtension" "infra" "sso".
Definition ex_oauth_built : option (error + oauthPerProviderConfig Proto) :=
  buildOAuth2ProviderConfig ex_idp_backends ex_idp_secrets ex_get "kgateway" (λ r, bor_name r) ex_oauth_src ex_oauth.
Definition ex_oauth_cfg : oauthPerProviderConfig Proto := default (mkOAuthCfg None None []) (ex_oauth_built ≫= λ r, match r with inr c => Some c | inl _ => None end).

Lemma oauth2_provider_sound_witness : ∃ f, oa_cfg ex_oauth_cfg = Some (POAuth2 f) ∧ hu_uri (c_token f) = "https://issuer/token".
Proof.
  destruct (oauth2_provider_sound ex_idp_backends ex_idp_secrets ex_get "kgateway" (λ r, bor_name r) ex_oauth_src ex_oauth ex_oauth_cfg)
    as (f & Hf & _ & _ & Ht & _).
  { vm_compute. reflexivity. }
  exists f. split; [exact Hf|]. apply Ht; [reflexivity|intros [=]].
Defined.
