(* ===== verification/TrafficPolicyEquals.v ===== *)
(** * Equality of TrafficPolicies
      (plugins/trafficpolicy: the [Equals] methods of traffic_policy_plugin.go, gateway_extension.go and the sub-policies;
      pkg/utils/cmputils/cmputils.go)

    The collection of policies drops an update when [Equals] holds, so a difference that [Equals] overlooks never
    reaches a proxy.  [proto.Equal] is a parameter that decides equality of messages; [None] is a
    nil dereference. *)

From S2P Require Import Prelude IR Filters TrafficPolicyPass.

#[global] Instance StageSpec_eq_dec : EqDecision StageSpec.
Proof. solve_decision. Defined.
#[global] Instance requestMirrorIR_eq_dec : EqDecision requestMirrorIR.
Proof. solve_decision. Defined.
#[global] Instance FilterStage_eq_dec : EqDecision FilterStage.
Proof. solve_decision. Defined.

Section equals.
Context {Cfg : Type} (proto_Equal : Cfg → Cfg → bool).
Abbreviation Ext := (TrafficPolicyGatewayExtensionIR Cfg).
Abbreviation Spec := (trafficPolicySpecIr Cfg).

(** ** Helpers *)

(** [CompareWithNils], and the same checks written out in the methods. *)
Definition CompareWithNils {A} (compare : A → A → bool) (a b : option A) : bool :=
  match a, b with Some a, Some b => compare a b | None, None => true | _, _ => false end.

(** [slices.EqualFunc]. *)
Fixpoint EqualFunc {A} (eq : A → A → bool) (l l' : list A) : bool :=
  match l, l' with
  | [], [] => true
  | a :: l, b :: l' => eq a b && EqualFunc eq l l'
  | _, _ => false
  end.

(** [proto.Equal] of two pointers. *)
Definition proto_equal_ptr : option Cfg → option Cfg → bool := CompareWithNils proto_Equal.

Definition PointerValsEqual {A} `{EqDecision A} (a b : option A) : bool := CompareWithNils (λ a b, bool_decide (a = b)) a b.

(** ** Extensions *)

Definition secret_equal (a b : TlsSecret Cfg) : bool := String.eqb (ts_name a) (ts_name b) && proto_Equal (ts_body a) (ts_body b).

Definition oauthPerProviderConfig_Equals (a b : oauthPerProviderConfig Cfg) : bool :=
  proto_equal_ptr (oa_cfg a) (oa_cfg b) && proto_equal_ptr (oa_jwtCfg a) (oa_jwtCfg b) && EqualFunc secret_equal (oa_secrets a) (oa_secrets b).

Definition ext_Equals (e other : Ext) : bool :=
  String.eqb (ge_name e) (ge_name other) && proto_equal_ptr (ge_extAuth e) (ge_extAuth other) &&
  proto_equal_ptr (ge_extProc e) (ge_extProc other) && proto_equal_ptr (ge_rateLimit e) (ge_rateLimit other) &&
  proto_equal_ptr (ge_jwt e) (ge_jwt other) && CompareWithNils oauthPerProviderConfig_Equals (ge_oauth2 e) (ge_oauth2 other) &&
  (ge_weight e =? ge_weight other)%Z && bool_decide (ge_filterStage e = ge_filterStage other) &&
  CompareWithNils (λ a b, String.eqb (err_text a) (err_text b)) (ge_err e) (ge_err other).

(** ** Sub-policies *)

Definition extauth_Equals (a b : extAuthIR Cfg) : bool :=
  Bool.eqb (ea_disableAll a) (ea_disableAll b) &&
  EqualFunc (λ x y, proto_equal_ptr (pa_perRoute x) (pa_perRoute y) && CompareWithNils ext_Equals (pa_provider x) (pa_provider y))
    (ea_providers a) (ea_providers b).

Definition extproc_Equals (a b : extprocIR Cfg) : bool :=
  Bool.eqb (ep_disableAll a) (ep_disableAll b) &&
  EqualFunc (λ x y, proto_Equal (pp_perRoute x) (pp_perRoute y) && bool_decide (pp_stage x = pp_stage y) &&
                    CompareWithNils ext_Equals (pp_provider x) (pp_provider y)) (ep_providers a) (ep_providers b).

Definition jwt_Equals (a b : jwtIr Cfg) : bool :=
  Bool.eqb (jw_disableAll a) (jw_disableAll b) &&
  EqualFunc (λ x y, proto_Equal (pj_perRoute x) (pj_perRoute y) && CompareWithNils ext_Equals (pj_provider x) (pj_provider y))
    (jw_providers a) (jw_providers b).

Definition globalRateLimit_Equals (a b : globalRateLimitIR Cfg) : bool :=
  EqualFunc proto_Equal (gr_actions a) (gr_actions b) && ext_Equals (gr_provider a) (gr_provider b).

(** [apiKeyAuthIR] and [basicAuthIR]. *)
Definition keyAuth_Equals (a b : keyAuthIR Cfg) : bool :=
  Bool.eqb (ka_disable a) (ka_disable b) && proto_equal_ptr (ka_config a) (ka_config b).

(** [compressionIR] and [decompressionIR]: codecs matter when enabled. *)
Definition codecs_Equals (a b : codecsIR) : bool :=
  Bool.eqb (cd_enable a) (cd_enable b) && (negb (cd_enable a) || EqualFunc String.eqb (cd_libraries a) (cd_libraries b)).

Definition oauth_Equals (a b : oauthIR Cfg) : bool :=
  oauthPerProviderConfig_Equals (oi_config a) (oi_config b) && ext_Equals (oi_source a) (oi_source b).

Definition requestMirror_Equals (a b : requestMirrorIR) : bool :=
  PointerValsEqual (rmi_disable_suffix a) (rmi_disable_suffix b) && PointerValsEqual (rmi_host a) (rmi_host b).

Definition timeouts_Equals (a b : timeoutsIR) : bool := PointerValsEqual (ti_route a) (ti_route b) && PointerValsEqual (ti_idle a) (ti_idle b).

Definition upgrade_equal (a b : UpgradeConfig) : bool := String.eqb (up_type a) (up_type b) && Bool.eqb (up_connect a) (up_connect b).

(** [bufferIR.Equals]: the test for nil is one of the interface, which holds a typed pointer. *)
Definition buffer_Equals (b other : option (bufferIR Cfg)) : option bool :=
  match b, other with
  | None, None => Some true
  | None, Some _ => Some false
  | Some _, None => None
  | Some b, Some o => Some (PointerValsEqual (bu_stage b) (bu_stage o) && proto_Equal (bu_perRoute b) (bu_perRoute o))
  end.

(** ** Policies *)

(** [ct] as the instant; [time.Time] values compared with [!=] here all come from one decoder, so equal instants are equal values. *)
Record TrafficPolicy := mkTrafficPolicy { tp_ct : Z; tp_spec : Spec }.

(** Checks in sequence: the first that does not hold decides. *)
Fixpoint all_equal (l : list (option bool)) : option bool :=
  match l with
  | [] => Some true
  | None :: _ => None
  | Some false :: _ => Some false
  | Some true :: l => all_equal l
  end.

Definition Equals (d d2 : TrafficPolicy) : option bool :=
  let s := tp_spec d in
  let t := tp_spec d2 in
  all_equal [
    Some (tp_ct d =? tp_ct d2)%Z;
    Some (CompareWithNils proto_equal_ptr (s_rustformation s) (s_rustformation t));
    Some (CompareWithNils extauth_Equals (s_extAuth s) (s_extAuth t));
    Some (CompareWithNils extproc_Equals (s_extProc s) (s_extProc t));
    Some (CompareWithNils proto_Equal (s_localRateLimit s) (s_localRateLimit t));
    Some (CompareWithNils globalRateLimit_Equals (s_globalRateLimit s) (s_globalRateLimit t));
    Some (CompareWithNils proto_equal_ptr (s_cors s) (s_cors t));
    Some (CompareWithNils proto_Equal (s_csrf s) (s_csrf t));
    Some (CompareWithNils proto_Equal (s_headerModifiers s) (s_headerModifiers t));
    Some (CompareWithNils requestMirror_Equals (s_requestMirror s) (s_requestMirror t));
    Some (CompareWithNils PointerValsEqual (s_autoHostRewrite s) (s_autoHostRewrite t));
    buffer_Equals (s_buffer s) (s_buffer t);
    Some (CompareWithNils proto_equal_ptr (s_retry s) (s_retry t));
    Some (CompareWithNils timeouts_Equals (s_timeouts s) (s_timeouts t));
    Some (CompareWithNils proto_equal_ptr (s_internalRedirect s) (s_internalRedirect t));
    Some (CompareWithNils proto_equal_ptr (s_rbac s) (s_rbac t));
    Some (CompareWithNils jwt_Equals (s_jwt s) (s_jwt t));
    Some (CompareWithNils codecs_Equals (s_compression s) (s_compression t));
    Some (CompareWithNils codecs_Equals (s_decompression s) (s_decompression t));
    Some (CompareWithNils keyAuth_Equals (s_basicAuth s) (s_basicAuth t));
    Some (CompareWithNils PointerValsEqual (s_urlRewrite s) (s_urlRewrite t));
    Some (CompareWithNils keyAuth_Equals (s_apiKeyAuth s) (s_apiKeyAuth t));
    Some (CompareWithNils oauth_Equals (s_oauth2 s) (s_oauth2 t));
    Some (CompareWithNils proto_equal_ptr (s_tracing s) (s_tracing t));
    Some (CompareWithNils proto_equal_ptr (s_faultInjection s) (s_faultInjection t));
    Some (CompareWithNils proto_equal_ptr (s_httpACL s) (s_httpACL t));
    Some (CompareWithNils String.eqb (s_statPrefix s) (s_statPrefix t));
    Some (CompareWithNils (EqualFunc upgrade_equal) (s_httpUpgrade s) (s_httpUpgrade t))].

(** ** What [Equals] decides *)

Hypothesis proto_Equal_spec : ∀ a b, proto_Equal a b = true ↔ a = b.

(** A boolean function decides equality of normal forms. *)
#[local] Abbreviation decides f norm := (∀ a b, f a b = true ↔ norm a = norm b).

Lemma decides_nils {A} (f : A → A → bool) (norm : A → A) : decides f norm → decides (CompareWithNils f) (fmap (M := option) norm).
Proof. intros H [a|] [b|]; simpl; [rewrite H; split; congruence|done..]. Qed.
Lemma decides_list {A} (f : A → A → bool) (norm : A → A) : decides f norm → decides (EqualFunc f) (map norm).
Proof.
  intros H l. induction l as [|a l IH]; intros [|b l']; simpl; [done..|]. rewrite andb_true_iff, H, IH. split; [intros [? ?]; congruence|by intros [= ? ?]].
Qed.
Lemma decides_proto : decides proto_Equal (λ x, x).
Proof. exact proto_Equal_spec. Qed.
Lemma decides_ptr : decides proto_equal_ptr (λ x, x).
Proof. intros a b. unfold proto_equal_ptr. rewrite (decides_nils _ _ decides_proto). by rewrite !option_fmap_id. Qed.
Lemma decides_vals {A} `{EqDecision A} : decides (PointerValsEqual (A := A)) (λ x, x).
Proof. intros [a|] [b|]; simpl; [rewrite bool_decide_eq_true; naive_solver|done..]. Qed.
Lemma decides_string : decides String.eqb (λ x, x).
Proof. exact String.eqb_eq. Qed.

(** An error counts by its text, the codecs of a policy that disables them do not count. *)
Definition norm_ext (e : Ext) : Ext :=
  mkExt (ge_name e) (ge_extAuth e) (ge_extProc e) (ge_rateLimit e) (ge_jwt e) (ge_oauth2 e) (ge_weight e) (ge_filterStage e)
    ((λ err, EMsg (err_text err)) <$> ge_err e).
Definition norm_codecs (c : codecsIR) : codecsIR := if cd_enable c then c else mkCodecs false [].
Definition norm_extauth (i : extAuthIR Cfg) : extAuthIR Cfg :=
  mkExtAuthIR (map (λ p, mkExtAuthCfg (norm_ext <$> pa_provider p) (pa_perRoute p)) (ea_providers i)) (ea_disableAll i).
Definition norm_extproc (i : extprocIR Cfg) : extprocIR Cfg :=
  mkExtProcIR (map (λ p, mkExtProcCfg (norm_ext <$> pp_provider p) (pp_perRoute p) (pp_stage p)) (ep_providers i)) (ep_disableAll i).
Definition norm_jwt (i : jwtIr Cfg) : jwtIr Cfg :=
  mkJwtIr (map (λ p, mkJwtCfg (norm_ext <$> pj_provider p) (pj_perRoute p)) (jw_providers i)) (jw_disableAll i).
Definition norm_spec (s : Spec) : Spec :=
  mkSpecIR (s_buffer s) (norm_extproc <$> s_extProc s) (s_rustformation s) (norm_extauth <$> s_extAuth s) (s_localRateLimit s)
    ((λ g, mkGlobalRL (norm_ext (gr_provider g)) (gr_actions g)) <$> s_globalRateLimit s) (s_cors s) (s_csrf s) (s_headerModifiers s)
    (s_requestMirror s) (s_autoHostRewrite s) (s_retry s) (s_timeouts s) (s_internalRedirect s) (s_rbac s) (norm_jwt <$> s_jwt s)
    (norm_codecs <$> s_compression s) (norm_codecs <$> s_decompression s) (s_basicAuth s) (s_urlRewrite s) (s_apiKeyAuth s)
    ((λ o, mkOAuthIR (oi_config o) (norm_ext (oi_source o))) <$> s_oauth2 s) (s_tracing s) (s_faultInjection s) (s_httpACL s)
    (s_statPrefix s) (s_httpUpgrade s).
Definition norm_policy (d : TrafficPolicy) : TrafficPolicy := mkTrafficPolicy (tp_ct d) (norm_spec (tp_spec d)).

Lemma decides_bool : decides Bool.eqb (λ x, x).
Proof. exact eqb_true_iff. Qed.

Lemma decides_oauth_config : decides oauthPerProviderConfig_Equals (λ x, x).
Proof.
  intros [c j l] [c' j' l']. unfold oauthPerProviderConfig_Equals. simpl. rewrite !andb_true_iff, !decides_ptr.
  assert (decides secret_equal (λ x, x)) as Hs.
  { intros [n b] [n' b']. unfold secret_equal. simpl. rewrite andb_true_iff, String.eqb_eq, proto_Equal_spec. unfold id. naive_solver. }
  rewrite (decides_list _ _ Hs), !map_id. unfold id. naive_solver.
Qed.

Lemma decides_err : decides (λ a b, String.eqb (err_text a) (err_text b)) (λ e, EMsg (err_text e)).
Proof. intros a b. rewrite String.eqb_eq. split; congruence. Qed.

Lemma decides_ext : decides ext_Equals norm_ext.
Proof.
  intros [n a p r j o w st e] [n' a' p' r' j' o' w' st' e']. unfold ext_Equals, norm_ext. simpl.
  rewrite !andb_true_iff, String.eqb_eq, !decides_ptr, Z.eqb_eq, bool_decide_eq_true.
  rewrite (decides_nils _ _ decides_oauth_config), (decides_nils _ _ decides_err), !option_fmap_id. unfold id.
  split; [intros; destruct_and?; congruence|intros [= -> -> -> -> -> -> -> -> ?]; done].
Qed.

Lemma decides_extauth : decides extauth_Equals norm_extauth.
Proof.
  intros [l d] [l' d']. unfold extauth_Equals, norm_extauth. simpl. rewrite andb_true_iff, eqb_true_iff.
  rewrite (decides_list _ (λ p, mkExtAuthCfg (norm_ext <$> pa_provider p) (pa_perRoute p))).
  - split; [intros [-> ->]; done|by intros [= -> ->]].
  - intros [e c] [e' c']. simpl. rewrite andb_true_iff, decides_ptr, (decides_nils _ _ decides_ext). split; [intros [-> ->]; done|by intros [= -> ->]].
Qed.
Lemma decides_extproc : decides extproc_Equals norm_extproc.
Proof.
  intros [l d] [l' d']. unfold extproc_Equals, norm_extproc. simpl. rewrite andb_true_iff, eqb_true_iff.
  rewrite (decides_list _ (λ p, mkExtProcCfg (norm_ext <$> pp_provider p) (pp_perRoute p) (pp_stage p))).
  - split; [intros [-> ->]; done|by intros [= -> ->]].
  - intros [e c st] [e' c' st']. simpl. rewrite !andb_true_iff, proto_Equal_spec, bool_decide_eq_true, (decides_nils _ _ decides_ext).
    split; [intros [[-> ->] ->]; done|by intros [= -> -> ->]].
Qed.
Lemma decides_jwt : decides jwt_Equals norm_jwt.
Proof.
  intros [l d] [l' d']. unfold jwt_Equals, norm_jwt. simpl. rewrite andb_true_iff, eqb_true_iff.
  rewrite (decides_list _ (λ p, mkJwtCfg (norm_ext <$> pj_provider p) (pj_perRoute p))).
  - split; [intros [-> ->]; done|by intros [= -> ->]].
  - intros [e c] [e' c']. simpl. rewrite andb_true_iff, proto_Equal_spec, (decides_nils _ _ decides_ext). split; [intros [-> ->]; done|by intros [= -> ->]].
Qed.
Lemma decides_rate_limit : decides globalRateLimit_Equals (λ g, mkGlobalRL (norm_ext (gr_provider g)) (gr_actions g)).
Proof.
  intros [e l] [e' l']. unfold globalRateLimit_Equals. simpl. rewrite andb_true_iff, decides_ext, (decides_list _ _ decides_proto), !map_id.
  split; [intros [H1 H2]; congruence|intros H; split; [exact (f_equal gr_actions H)|exact (f_equal gr_provider H)]].
Qed.
Lemma decides_oauth : decides oauth_Equals (λ o, mkOAuthIR (oi_config o) (norm_ext (oi_source o))).
Proof.
  intros [c e] [c' e']. unfold oauth_Equals. simpl. rewrite andb_true_iff, decides_ext, decides_oauth_config.
  split; [intros [H1 H2]; congruence|intros H; split; [exact (f_equal oi_config H)|exact (f_equal oi_source H)]].
Qed.
Lemma decides_codecs : decides codecs_Equals norm_codecs.
Proof.
  intros [en l] [en' l']. unfold codecs_Equals, norm_codecs. simpl. rewrite andb_true_iff, orb_true_iff, eqb_true_iff, (decides_list _ _ decides_string), !map_id.
  destruct en, en'; simpl; split; (intros [? ?] || intros ?); intuition congruence.
Qed.
Lemma decides_key_auth : decides keyAuth_Equals (λ x, x).
Proof. intros [c d] [c' d']. unfold keyAuth_Equals. simpl. rewrite andb_true_iff, eqb_true_iff, decides_ptr. split; [intros [-> ->]; done|by intros [= -> ->]]. Qed.
Lemma decides_mirror : decides requestMirror_Equals (λ x, x).
Proof. intros [a b] [a' b']. unfold requestMirror_Equals. simpl. rewrite andb_true_iff, !decides_vals. split; [intros [-> ->]; done|by intros [= -> ->]]. Qed.
Lemma decides_timeouts : decides timeouts_Equals (λ x, x).
Proof. intros [a b] [a' b']. unfold timeouts_Equals. simpl. rewrite andb_true_iff, !decides_vals. split; [intros [-> ->]; done|by intros [= -> ->]]. Qed.
Lemma decides_upgrades : decides (EqualFunc upgrade_equal) (λ x, x).
Proof.
  assert (decides upgrade_equal (λ x, x)) as H.
  { intros [a b] [a' b']. unfold upgrade_equal. simpl. rewrite andb_true_iff, String.eqb_eq, eqb_true_iff. split; [intros [-> ->]; done|by intros [= -> ->]]. }
  intros l l'. by rewrite (decides_list _ _ H), !map_id.
Qed.

Lemma decides_nils_id {A} (f : A → A → bool) : decides f (λ x, x) → decides (CompareWithNils f) (λ x, x).
Proof. intros H a b. by rewrite (decides_nils _ _ H), !option_fmap_id. Qed.

(** No check is skipped, and one that has no result is reached only when those before it hold. *)
Lemma all_equal_exact l b : all_equal l = Some b → (b = true ↔ Forall (λ x, x = Some true) l).
Proof.
  induction l as [|[[]|] l IH]; simpl; intros Hb; simplify_eq; [done| |].
  - rewrite (IH Hb), Forall_cons. naive_solver.
  - split; [done|]. by intros [? _]%Forall_cons.
Qed.
Lemma all_equal_None l n x : l !! n = Some x → Forall is_Some (take n l) → Forall is_Some (drop (S n) l) →
  all_equal l = None ↔ (Forall (λ x, x = Some true) (take n l) ∧ x = None).
Proof.
  assert (∀ l, Forall is_Some l → all_equal l ≠ None) as Hl.
  { induction 1 as [|y l' [[] ->] _ IH]; simpl; congruence. }
  intros Hx H1 H2. rewrite <- (take_drop_middle l n x Hx) at 1. induction H1 as [|y l1 [[] ->] _ IH]; simpl.
  - destruct x as [[]|]; [pose proof (Hl _ H2)|..]; naive_solver.
  - rewrite IH, Forall_cons. naive_solver.
  - rewrite Forall_cons. naive_solver.
Qed.

Lemma decides_buffer b other : buffer_Equals b other = Some true ↔ b = other.
Proof.
  destruct b as [[c st]|], other as [[c' st']|]; simpl; try (split; congruence). split.
  - intros [= H]. apply andb_true_iff in H as [H1 H2]. apply decides_vals in H1. apply proto_Equal_spec in H2. congruence.
  - intros [= <- <-]. f_equal. apply andb_true_iff. split; [by apply decides_vals|by apply proto_Equal_spec].
Qed.

(** The parts that are compared before buffering. *)
Definition before_buffer (d : TrafficPolicy) : TrafficPolicy :=
  let s := norm_spec (tp_spec d) in
  mkTrafficPolicy (tp_ct d)
    (mkSpecIR None (s_extProc s) (s_rustformation s) (s_extAuth s) (s_localRateLimit s) (s_globalRateLimit s) (s_cors s) (s_csrf s)
      (s_headerModifiers s) (s_requestMirror s) (s_autoHostRewrite s) None None None None None None None None None None None None None
      None None None).

Lemma some_true (x : bool) : Some x = Some true ↔ x = true.
Proof. split; congruence. Qed.
Lemma buffer_no_result b other : buffer_Equals b other = None ↔ (is_Some b ∧ other = None).
Proof. unfold is_Some. destruct b, other; simpl; naive_solver. Qed.

Ltac decide_parts :=
  rewrite !Forall_cons, ?some_true, ?decides_buffer, ?Z.eqb_eq, ?(decides_nils_id _ decides_ptr), ?(decides_nils_id _ decides_proto),
    ?(decides_nils_id _ decides_vals), ?(decides_nils_id _ decides_key_auth), ?(decides_nils_id _ decides_mirror),
    ?(decides_nils_id _ decides_timeouts), ?(decides_nils_id _ decides_upgrades), ?(decides_nils_id _ decides_string),
    ?(decides_nils _ _ decides_extauth), ?(decides_nils _ _ decides_extproc), ?(decides_nils _ _ decides_rate_limit),
    ?(decides_nils _ _ decides_jwt), ?(decides_nils _ _ decides_codecs), ?(decides_nils _ _ decides_oauth).

(** C37: [Equals] overlooks nothing: where it returns, it holds exactly of policies that agree in every part, up to the identity of
    errors with one text and to the codecs of a policy that turns them off.  It returns but in one case, in which it panics: the
    first policy buffers, the second says nothing on buffering, and they agree in the parts that are compared before. *)
Theorem policy_equals_exact d d2 :
  match Equals d d2 with
  | Some b => b = true ↔ norm_policy d = norm_policy d2
  | None => is_Some (s_buffer (tp_spec d)) ∧ s_buffer (tp_spec d2) = None ∧ before_buffer d = before_buffer d2
  end ∧
  (is_Some (s_buffer (tp_spec d)) → s_buffer (tp_spec d2) = None → before_buffer d = before_buffer d2 → Equals d d2 = None).
Proof.
  assert (Equals d d2 = None ↔
    before_buffer d = before_buffer d2 ∧ is_Some (s_buffer (tp_spec d)) ∧ s_buffer (tp_spec d2) = None) as Hn.
  { unfold Equals. etrans; [apply (all_equal_None _ 11); [reflexivity|cbn..]; repeat (apply Forall_cons_2; [by eexists|]); apply Forall_nil_2|].
    cbn [take]. rewrite buffer_no_result. apply and_iff_compat_r. decide_parts. unfold before_buffer, norm_spec. simpl. split.
    - intros H. destruct_and!. f_equal; [done|]. f_equal; done.
    - intros [= ]. split_and!; try done. }
  split; [|intros H1 H2 H3; by apply Hn]. destruct (Equals d d2) as [b|] eqn:E; [|naive_solver]. clear Hn.
  unfold Equals in E. rewrite (all_equal_exact _ _ E). clear E. decide_parts. unfold norm_policy, norm_spec. split.
  - intros H. destruct_and!. f_equal; [done|]. f_equal; done.
  - intros [= ]. split_and!; try done.
Qed.

(** The test for nil is of the wrong variable: a policy that stops buffering is compared through a nil pointer. *)
Lemma buffer_equals_panics b ct :
  Equals (mkTrafficPolicy ct (mkSpecIR (Some b) None None None None None None None None None None None None None None None None
    None None None None None None None None None None)) (mkTrafficPolicy ct zeroSpecIR) = None.
Proof. unfold Equals. simpl. by rewrite Z.eqb_refl. Qed.

End equals.

(** A change of the codecs is noticed, an error is compared by its text. *)
Definition ex_policy (codec : string) (err : error) : TrafficPolicy (Cfg := nat) :=
  mkTrafficPolicy 7 (mkSpecIR None None None
    (Some (mkExtAuthIR [mkExtAuthCfg (Some (mkExt "ns/ext" (Some 1) None None None None 0 None (Some err))) (Some 2)] false))
    None None None None None None None None None None None None (Some (mkCodecs true [codec])) None None None None None None None None None None).

Lemma policy_equals_exact_witness :
  (norm_policy (ex_policy "gzip" (EMsg "x")) ≠ norm_policy (ex_policy "brotli" (EMsg "x"))) ∧
  Equals Nat.eqb (ex_policy "gzip" (EMsg "x")) (ex_policy "brotli" (EMsg "x")) = Some false ∧
  Equals Nat.eqb (ex_policy "gzip" (EMsg "x")) (ex_policy "gzip" (EMsg "x")) = Some true.
Proof.
  assert (Equals Nat.eqb (ex_policy "gzip" (EMsg "x")) (ex_policy "brotli" (EMsg "x")) = Some false) as E by (vm_compute; reflexivity).
  split; [|split; [exact E|vm_compute; reflexivity]].
  destruct (policy_equals_exact Nat.eqb Nat.eqb_eq (ex_policy "gzip" (EMsg "x")) (ex_policy "brotli" (EMsg "x"))) as [H _].
  rewrite E in H. intros Heq. apply H in Heq. discriminate.
Defined.
